(* ===== verification/_CoqProject ===== *)
-Q . S2P
Prelude.v
Order.v
Text.v
Bytes.v
SourceSelection.v
Hash.v
Json.v
Protocol.v
Normalize.v
Markdown.v
Profiles.v
Diff.v
Scan.v
Digest.v
Rows.v
Capture.v
Builder.v
Emit.v
BuilderLaws.v
Traverse.v
Graph.v
Partition.v
Disk.v
SearchModel.v
Float64.v
Spill.v
StreamLaws.v
SpoolLaws.v
StagedRows.v
Sinks.v
SinkLaws.v
Staging.v
StagingSpec.v
StagingFrames.v
StagingLaws.v
StagingResolve.v
StagingEdges.v
StagingRefines.v
SearchBuild.v
SearchCodec.v
SearchRead.v
SearchSort.v
SearchIndex.v
SearchWrite.v
SearchPass.v
SearchBuilt.v
SearchRank.v
SearchLoop.v
SearchValid.v
SearchCorpus.v
SearchText.v
SearchRefines.v
Budget.v
BudgetLaws.v
Scheduler.v
SchedulerLaws.v
SchedulerClaims.v
SchedulerWaits.v
SchedulerPace.v
JsonReader.v
JsonGrammar.v
JsonLexer.v
JsonRounds.v
JsonClaims.v
Controls.v
ControlsCodec.v
Publication.v
PublicationSafe.v
PublicationEvents.v
PublicationClaims.v
Watch.v
WatchClaims.v
Native.v
Refresh.v
RefreshLaws.v
Service.v
Supervisor.v
Requests.v
Core.v
GraphRead.v
