(* ===== verification/Prelude.v ===== *)
(** * codebaseGraph: a verification library of the graph materialization pipeline

    codebaseGraph turns a source tree into a graph database.  One materialization runs
    through these parts, which this library models in the same order:

    - the request selects languages by their profiles and files by a selection policy;
    - the scan walks the tree, hashes what the policy selects, compares it with the
      manifest of the previous run, and copies every file that must be built to a snapshot
      whose content is known to be the hashed one;
    - a parser turns each snapshot into a syntax tree (markdown by hand, the other
      languages by tree-sitter), and the mapping rules of the profile mark its captures;
    - the graph builder turns the syntax tree into the rows of a partition: nodes, edges
      and their evidence, as far as the ontology allows them;
    - the staging writer merges the rows of all partitions, resolves the tables at the ends
      of every edge, and writes the files that the database loads;
    - the search index turns the staged nodes into sidecar files that answer ranked queries.

    A refresh service keeps the database up to date: it watches the sources, collects what
    changes into batches, and has each batch materialized, with retries, and with a status
    that tells a client what is still pending.  The API takes requests, brings them into a
    normal form, checks them, and executes them: among them searches, the context of a node
    and queries, which read the graph, and the health of the refresh service.

    Beside the pipeline, a maintenance runtime removes what no generation of the database
    needs any more.  Of it the library models the account of its memory, the scheduler that
    decides when an attempt runs and with whose permission, the reader of the JSON
    documents it has to judge, and the control records by which a producer and the
    maintenance publish their progress so that it survives a crash.

    ** Files, and the code they model

    Definitions carry the names of the code.  Files with the suffix [Laws], and the staging
    files other than [Staging], hold specifications and proofs and model no code.

    - [Prelude]: results, folds that may fail, tactics.  [Order]: Rust's [Ord], stable
      sorting, [BTreeMap] iteration, [BinaryHeap].  [Text]: [str] and [String].
      [Json]: serde_json's [Value].  [Float64]: [f64].
    - [SourceSelection]: src/source_selection.rs.  [Hash]: src/hash.rs.  [Protocol],
      [Digest]: src/protocol.rs.  [Profiles]: src/profiles.rs.
    - [Diff], [Scan]: the two halves of src/scan.rs.
    - [Normalize]: src/normalize.rs and src/parser/captures.rs.  [Markdown]:
      src/parser/markdown.rs.
    - src/syntax_materializer: [Rows] (rows.rs, ids.rs, relations.rs),
      [Capture] (arena.rs, capture.rs), [Builder] (builder/mod.rs, nodes.rs, edges.rs),
      [Emit] (builder/semantic.rs), [Traverse] (builder/traversal.rs, mod.rs); the theorems
      are in [BuilderLaws], at the end of [Traverse], and in [Graph].
    - [Partition]: src/partition_builder.rs.
    - src/staging_writer: [Disk] (files and the counters of spill.rs), [Spill] (spill.rs),
      [StagedRows] (rows.rs, merge.rs), [Sinks] (files.rs and the sinks of accumulator.rs),
      [Staging] (accumulator.rs, result.rs).  [StreamLaws] and [SpoolLaws] prove
      external sorting, [SinkLaws] the output files; [StagingSpec] says what staging is to
      compute, [StagingFrames], [StagingLaws], [StagingResolve], [StagingEdges] prove its
      passes one by one, [StagingRefines] the whole, which it runs on two partitions.
    - src/search_index: [Bytes] (little-endian numbers and UTF-8), [SearchModel] (model.rs,
      io.rs), [SearchBuild] (build.rs), [SearchRead] (read.rs).  [SearchCodec] reads back what
      is written; [SearchSort], [SearchIndex], [SearchWrite], [SearchPass] and [SearchBuilt]
      prove a build, from the sorted runs to the bytes of the sidecars; [SearchRank] and
      [SearchLoop] prove a search against its specification; [SearchValid]
      is about validation, [SearchCorpus] joins both ends, [SearchText] is the tokenizer;
      [SearchRefines] holds the theorems, and an index with its queries.
    - src/storage: [Budget] (maintenance_budget.rs), with its laws in
      [BudgetLaws]; [Scheduler] (maintenance_scheduler.rs), with its invariant in
      [SchedulerLaws], the theorems in [SchedulerClaims], [SchedulerWaits] and
      [SchedulerPace], with a run of it at the end; [JsonReader]
      (maintenance_json.rs).  [JsonGrammar] is the grammar of JSON, as trees and read from
      the left; [JsonLexer] proves the operations on bytes and lexemes, [JsonRounds] a step of the reader in both
      directions, [JsonClaims] the whole.  [Controls] (maintenance_controls.rs, the records
      and [FileIdentity] of locks.rs) and [Publication] (the producer's half of
      maintenance_controls.rs, the publication of private metadata in
      maintenance_admission.rs) are the life of a publication; [ControlsCodec] shows which
      bytes the records have, [PublicationSafe] what a write that tears can leave,
      [PublicationEvents] what an operation does, [PublicationClaims] what a history does.

    - src/api/refresh.rs: [Watch] is about batches and the poll loop, [Native] about the
      filter of events and the native loop, [Refresh] about the retries (also those of
      src/db_writer/access.rs, and is_retryable_refresh_failure of lifecycle.rs), the status
      and the refresh of a batch, [Supervisor] about the leader, the supervisor and the end
      of its thread.  [Watch] and [WatchClaims] prove batches and the poll loop,
      [RefreshLaws] retries and the status, [Service] the poll loop of the service; [Native]
      and [Supervisor] hold their own theorems.
    - src/api: [Requests] (contracts.rs, normalization.rs, and the guard and the quoting of
      graph_read.rs) is what a request is and when it is taken; [Core] (core.rs, and the
      repositories of context.rs) the registry, the handlers, what execute_inner decides
      before the work is done, and the health of the refresh service; [GraphRead]
      (graph_read.rs) the work of searches, contexts and queries.  Each holds its theorems.

    ** How the code is read

    A Rust string is the byte string of its UTF-8 encoding; integers are [Z] with the
    checks and saturations of the code; a [Result] is [result]; [HashMap] and [BTreeMap] are
    [gmap], iterated in key order where the code iterates a [BTreeMap].  The graph builder
    is a state and error monad.  Scanning sees the file system through an oracle that may
    answer differently at every call.  The staging writer and the search index run in the
    monad of [Disk], over a map from paths to bytes; an operation either ends with a value
    and a world, or aborts with an error of the program.  What is buffered in a writer is on
    disk at once: the program flushes every writer before it reads the file.

    Concurrency is an interleaving of steps: of the atomic instructions of all threads for
    the memory account, whose compare-and-exchange may fail spuriously; of the critical
    sections under the scheduler's lock and the answers of the driver's callbacks, a panic
    among them, for the scheduler.  The theorems hold for every interleaving.  The JSON
    reader is a state and error monad over an input that arrives in arbitrary pieces.

    A publication passes explicit files: names lead to inodes, inodes hold bytes.  A write
    ends with [Written], or with an error and any subset of its bytes in the file, which
    covers a crash, a full device and the end of a grant's time.  What no program can
    exclude is that a torn image passes its checksum by accident; that it does not is a
    hypothesis about the tears of a history ([PublicationClaims.history_found]), and holds
    of every write that ends.  The callers hold the lock on the selector, so within a call
    nobody else writes.

    The refresh service lives in a world that the classes [Watching], [NativeWatching],
    [Service], [Files] and [Supervision] describe: its clock, its sleeping, the channel, the
    lock, what it sees of the files, its hooks and the refresh itself.  The world may change whenever the service looks at it.  An operation on the
    status reads the clock once, where the code may read it twice.

    The API is a function of what it is given: an execution ends with an error or with a
    [Core.Task], the work it has decided on; the database answers statements, and is opened
    for reading.  A path of a request is its text; the home directory, the current one and
    the resolution of a repository are parameters.

    Parameters of the model, each a class with the documented behaviour as its laws where a
    theorem needs it: the Unicode tables, serde's encodings of records, SHA-256, the sizes
    and capacities that the allocator and the compiler choose, the native logarithm.

    ** What the theorems show

    - Selection: a directory the walk prunes holds no selected file, of a policy and a file
      with ordinary names ([SourceSelection.selection_defects] has the exceptions); the
      wildcard matcher decides its declarative meaning and always ends.
    - Scan: what is reused has the content of the manifest; every file of the scan is added,
      modified or unchanged by its entry in the manifest; every snapshot has the bytes that were hashed, whatever other
      processes do between the calls; the scan of a quiet tree finds exactly the selection.
    - Identity: the hand-written SHA-1 is the function of the standard; the compatibility
      digest ignores exactly the orders that mean nothing.
    - Parsing: the mapping of a node is decided by the documented priority of rules; a
      markdown document is cut into sections that cover it.
    - Graph: the builder ends, fails only where the ontology refuses a relation, and yields
      rows that are closed (both ends of an edge exist), unique, sorted, and contain the
      whole syntax tree.  A partition built from them passes the validation of the cache.
    - Staging: rows of one identifier keep the first values of their fields, but for the text
      of a node; external sorting is stable sorting, for every chunk limit and number of
      merge levels; the whole accumulator writes what the specification [StagingSpec.stage] says,
      or fails with the error it says, and leaves no other file behind.
    - Search: a build succeeds and leaves sidecar files that are the inverted index of the
      staged nodes; validation accepts exactly the well-formed indexes, what a build leaves
      among them; over such files a query returns the best documents in the order of their
      BM25 score, computed in binary64, as long as no score is a NaN; over any files it only
      reads and stays within its limit.
    - Memory account: the counter is what is reserved and never above the ceiling; a
      reservation fails by contention only when another thread has succeeded.
    - Scheduler: a mutation that begins with a permission is the one its confirmation names,
      and no confirmation is used twice; every waiting thread is answered within thirty
      steps of the worker; attempts keep their distance; what holds of the mailbox, the
      snapshot and the parked sources holds in every reachable state.
    - JSON reader: it takes exactly the documents of the grammar, up to its depth, to their
      lexemes; its digests are those of the bytes and of the compact text of the document.
    - Publication controls: the records are read back as they were written, and nothing else
      is taken for one; any history of publications, updates and recoveries refines a value
      that is replaced at once, with at most one update on its way; what was acknowledged is
      never lost; one recovery that is not interrupted leaves nothing on its way.

    - Refresh service: a change between two looks of the poll loop, and what the native loop
      hears, is refreshed, or kept for a retry, which is never put off; over a tree with
      ordinary names the filter reports what a scan finds; a batch stays within its limits and is refreshed in at most four
      attempts; the status of the whole service stays well formed, forgets no change, and
      names the time of the next attempt.  One way into polling lacks its reconciliation,
      and the status counts some writes that no batch is collected for.
    - API: what is prepared is in normal form, and normalizing it again changes nothing;
      what the schemas require is insisted on; every operation has its handler; before
      its work, an execution never panics, and decides on exactly the work that a valid
      request asks for on the repository it names, none that writes to a legacy graph; a
      query passes the guard exactly when no changing keyword is a word of it; a
      value cannot end its literal in a statement.  Health calls the graph current exactly
      when every change that was noticed is reconciled.  A context keeps to its limits of
      rows and depth and always ends; a search gives the first hits of the ranking of its
      layers, of which each run of one identifier leaves one.

    ** Fuel

    Recursion that is not structural takes fuel, and each use is proved to have enough: the
    traversals of the builder run on the length of the arena plus one, as children have
    larger indices ([Graph.build_terminates]); the wildcard loop on a product of the lengths
    ([SourceSelection.wildcard_match_terminates]); a stream on the number of its heap items
    and of the bytes left in its files, as a record takes at least four bytes; merge levels
    on the number of runs, as each level leaves fewer; readers of an encoded file on its
    bytes; a ranking on the postings that are left, one of which every round takes.  In the
    theorems about these operations running out of fuel is an abort, so that success says
    the fuel was enough.  The loops of the JSON reader run on the bytes that the input can
    still give, and its theorems exclude running out.  A round of the
    poll loop needs as much fuel as there are nanoseconds until its deadline, and what
    [max_wait] adds ([WatchClaims.poll_round_ends]), a round of the native loop what the
    queue and [max_wait] add ([Native.native_round_ends]); the attempts of a refresh need
    four ([Service.refresh_batch_outcome]), a wait of the supervisor one turn for every
    fifty milliseconds ([Supervisor.supervisor_wait_correct]).  The walk that collects a
    context takes two rounds more than its limit of rows, as only a row puts a node on the
    frontier ([GraphRead.context_loop_ok]); the search for a keyword the length of the
    statement.

    ** Not modelled

    - Directories, permissions, exhausted disks and memory, and what is left on disk by an
      operation that failed half-way; the run directory of the staging writer and the
      registration of its output files with the storage maintenance.
    - Tree-sitter (a C library: the builder takes the tree it produces), the LadybugDB
      library, operating-system processes, sockets, installers and editors' configuration.
    - Of the refresh service: the notify crate, whose events are data; the walk behind a
      snapshot and the probe of the watcher, which are operations of the classes; the
      foreground watch command.
    - The work behind the other operations of the API (materialization requests, lifecycle,
      catalogs, presentation), the maintenance around an execution, the coordinator, the storage of generations and the rest of their
      maintenance, the command line and the protocol servers; the crates k-wiki and xtask.

    - Of the publication controls: the records of workspaces and registrations, the stream of
      the private metadata, the admission of a grant (epochs, locks, reserved memory).

    The next parts to model, in this order: the records of workspaces, the journal in the
    stream of the private metadata, the lease machine of the coordinator, and the key scheme
    of the partition cache. *)
From Stdlib Require Export Strings.String Strings.Ascii ZArith Lia Permutation Sorted.
From stdpp Require Export base tactics numbers list gmap strings option sorting.
#[global] Set Default Goal Selector "!".

(** ** Results: Rust's [Result<T, E>] *)
Inductive result (E A : Type) : Type :=
| Ok (a : A)
| Err (e : E).
Arguments Ok {E A} a.
Arguments Err {E A} e.

Definition result_bind {E A B} (m : result E A) (k : A -> result E B) : result E B :=
  match m with Ok a => k a | Err e => Err e end.

Definition result_map {E A B} (f : A -> B) (m : result E A) : result E B :=
  match m with Ok a => Ok (f a) | Err e => Err e end.

Definition map_err {E F A} (f : E -> F) (m : result E A) : result F A :=
  match m with Ok a => Ok a | Err e => Err (f e) end.

Definition ok_or {E A} (e : E) (o : option A) : result E A :=
  match o with Some a => Ok a | None => Err e end.

(** [Result::ok] *)
Definition result_ok {E A} (m : result E A) : option A :=
  match m with Ok a => Some a | Err _ => None end.

Definition is_ok {E A} (m : result E A) : bool :=
  match m with Ok _ => true | Err _ => false end.

Declare Scope rust_scope.
Delimit Scope rust_scope with rust.
Notation "'let?' x ':=' m 'in' k" := (result_bind m (fun x => k))
  (at level 10, x pattern, m at level 100, k at level 200) : rust_scope.

Create HintDb rust discriminated.
#[global] Hint Constants Opaque : rust.

Lemma result_bind_Ok {E A B} (m : result E A) (k : A -> result E B) b :
  result_bind m k = Ok b <-> exists a, m = Ok a /\ k a = Ok b.
Proof.
  destruct m as [a|e]; simpl; split.
  - intros H. by exists a.
  - intros [a' [Ha Hk]]. by inversion Ha; subst.
  - done.
  - by intros [? [? _]].
Qed.

Lemma result_bind_Err {E A B} (m : result E A) (k : A -> result E B) e :
  result_bind m k = Err e <-> m = Err e \/ exists a, m = Ok a /\ k a = Err e.
Proof.
  destruct m as [a|e']; simpl; split.
  - intros H. right. by exists a.
  - intros [?|[a' [Ha Hk]]]; [done|]. by inversion Ha; subst.
  - intros H. left. congruence.
  - intros [H|[? [? _]]]; [congruence|done].
Qed.

Lemma ok_or_Ok {E A} (e : E) (o : option A) a : ok_or e o = Ok a <-> o = Some a.
Proof. destruct o; simpl; split; congruence. Qed.

(** Inverts every successful bind among the hypotheses. *)
Ltac inv_ok :=
  repeat match goal with
  | H : result_bind _ _ = Ok _ |- _ =>
      let a := fresh "a" in let Ha := fresh "Ha" in
      apply result_bind_Ok in H; destruct H as [a [Ha H]]
  | H : ok_or _ _ = Ok _ |- _ => apply ok_or_Ok in H
  | H : Ok _ = Ok _ |- _ => injection H as H; subst
  | H : Err _ = Ok _ |- _ => discriminate H
  | H : Ok _ = Err _ |- _ => discriminate H
  end.

(** Folding a fallible step over a list, left to right, stopping at the first error. *)
Fixpoint try_fold {E S A} (f : S -> A -> result E S) (s : S) (l : list A) : result E S :=
  match l with
  | [] => Ok s
  | x :: l => result_bind (f s x) (fun s' => try_fold f s' l)
  end.

Lemma try_fold_app {E S A} (f : S -> A -> result E S) s l1 l2 :
  try_fold f s (l1 ++ l2) = result_bind (try_fold f s l1) (fun s' => try_fold f s' l2).
Proof.
  revert s. induction l1 as [|x l1 IH]; intros s; simpl; [done|].
  destruct (f s x); simpl; [apply IH|done].
Qed.

(** An invariant kept by each step is kept by the fold. *)
Lemma try_fold_inv {E S A} (I : S -> Prop) (f : S -> A -> result E S) s l s' :
  (forall t x t', x ∈ l -> I t -> f t x = Ok t' -> I t') ->
  I s -> try_fold f s l = Ok s' -> I s'.
Proof.
  revert s. induction l as [|x l IH]; intros s Hstep Hs H; simpl in H; [by inv_ok|].
  inv_ok. eapply IH; [|eapply Hstep; [apply list_elem_of_here|exact Hs|exact Ha]|exact H].
  intros t y t' Hy. apply Hstep. by apply list_elem_of_further.
Qed.

(** ** Machine integers (64-bit [usize]/[u64]; values are kept in [Z]/[nat]) *)
Definition u64_max : Z := (2 ^ 64 - 1)%Z.
Definition u32_max : Z := (2 ^ 32 - 1)%Z.

Definition checked_add_u64 (a b : Z) : option Z :=
  if decide (a + b <= u64_max)%Z then Some (a + b)%Z else None.
Definition saturating_add_u64 (a b : Z) : Z := Z.min (a + b) u64_max.
Definition saturating_sub_u64 (a b : Z) : Z := Z.max 0 (a - b).

Lemma checked_add_u64_Some a b c :
  checked_add_u64 a b = Some c <-> c = (a + b)%Z /\ (a + b <= u64_max)%Z.
Proof. unfold checked_add_u64. case_decide; split; intuition congruence. Qed.

(** ** Lists *)
Definition list_is_empty {A} (l : list A) : bool := match l with [] => true | _ => false end.

Lemma list_is_empty_true {A} (l : list A) : list_is_empty l = true <-> l = [].
Proof. by destruct l. Qed.

Lemma existsb_elem_of {A} (f : A -> bool) l :
  existsb f l = true <-> exists x, x ∈ l /\ f x = true.
Proof.
  rewrite existsb_exists. split; intros [x [H1 H2]]; exists x;
    (split; [by apply list_elem_of_In|done]).
Qed.

Lemma forallb_elem_of {A} (f : A -> bool) l :
  forallb f l = true <-> forall x, x ∈ l -> f x = true.
Proof.
  rewrite forallb_forall. split; intros H x Hx; apply H; by apply list_elem_of_In.
Qed.

(** Two folds agree when their steps agree on an invariant the first keeps. *)
Lemma fold_left_ext_inv {A B} (I : A -> Prop) (f g : A -> B -> A) l a :
  (forall a b, I a -> f a b = g a b) -> (forall a b, I a -> I (f a b)) ->
  I a -> fold_left f l a = fold_left g l a.
Proof.
  intros Hfg HI. revert a. induction l as [|x l IH]; intros a Ha; simpl; [done|].
  rewrite <- Hfg by done. by apply IH, HI.
Qed.

(** [find_map]: the first [Some] of a list. *)
Fixpoint find_map {A B} (f : A -> option B) (l : list A) : option B :=
  match l with
  | [] => None
  | x :: l => match f x with Some b => Some b | None => find_map f l end
  end.

Lemma find_map_Some {A B} (f : A -> option B) l b :
  find_map f l = Some b -> exists x, x ∈ l /\ f x = Some b.
Proof.
  induction l as [|x l IH]; simpl; [done|].
  destruct (f x) eqn:E; intros H.
  - exists x. split; [apply list_elem_of_here|congruence].
  - destruct (IH H) as [y [Hy Hf]]. exists y. split; [by apply list_elem_of_further|done].
Qed.

(** Rust's [matches!(s, "a" | "b" | ...)] on strings. *)
Definition is_one_of (s : string) (l : list string) : bool := existsb (String.eqb s) l.

Lemma is_one_of_true s l : is_one_of s l = true <-> s ∈ l.
Proof.
  unfold is_one_of. rewrite existsb_elem_of. split.
  - intros [x [Hx E]]. apply String.eqb_eq in E. by subst.
  - intros H. exists s. split; [done|apply String.eqb_refl].
Qed.
