(* ===== verification/Order.v ===== *)
(** * Rust's [Ord]: comparison functions, stable sorting, ordered iteration, [BinaryHeap]

    [Ord]/[OrdLaws] is the interface that the components sorting their data
    (manifests, graph rows, spill records) promise and use.  [sort_by] models
    [slice::sort_by], a stable sort; [btree_iter]/[btree_keys] are the key-ordered
    iteration of a [BTreeMap], whose contents are a [gmap].

    [sort_by_key] keeps elements of equal key in their order.  That determines it: sorted
    lists with the same elements of each key, in the same order, are equal.  So sorting the
    concatenation of sorted runs is sorting the concatenation of what was in them, and the
    first element of the result is the smallest head, the earliest run first.

    A heap is a list; [heap_pop] takes out a greatest element of the order that the
    program gives to its items.  [heads] are the items of a merge: the first element of
    every list that is not empty, tagged with the index of its list. *)
From S2P Require Import Prelude.

Class Ord (A : Type) := cmp : A -> A -> comparison.

Class OrdLaws (A : Type) `{Ord A} := {
  cmp_eq : forall x y : A, cmp x y = Eq <-> x = y;
  cmp_antisym : forall x y : A, cmp y x = CompOpp (cmp x y);
  cmp_lt_trans : forall x y z : A, cmp x y = Lt -> cmp y z = Lt -> cmp x z = Lt
}.

(** [Ordering::then_with] *)
Definition then_with (c d : comparison) : comparison :=
  match c with Eq => d | c => c end.

Definition le_b {A} `{Ord A} (x y : A) : bool :=
  match cmp x y with Gt => false | _ => true end.
Definition lt_b {A} `{Ord A} (x y : A) : bool :=
  match cmp x y with Lt => true | _ => false end.

#[export] Instance Ord_Z : Ord Z := Z.compare.
#[export] Instance Ord_nat : Ord nat := Nat.compare.
#[export] Instance Ord_string : Ord string := String.compare.
#[export] Instance Ord_prod {A B} `{Ord A, Ord B} : Ord (A * B) :=
  fun p q => then_with (cmp p.1 q.1) (cmp p.2 q.2).

#[export] Instance OrdLaws_Z : OrdLaws Z.
Proof.
  split; unfold cmp, Ord_Z.
  - apply Z.compare_eq_iff.
  - intros x y. apply Z.compare_antisym.
  - intros x y z. rewrite !Z.compare_lt_iff. lia.
Qed.

#[export] Instance OrdLaws_nat : OrdLaws nat.
Proof.
  split; unfold cmp, Ord_nat.
  - apply Nat.compare_eq_iff.
  - intros x y. apply Nat.compare_antisym.
  - intros x y z. rewrite !Nat.compare_lt_iff. lia.
Qed.

Lemma ascii_compare_lt_trans a b c :
  Ascii.compare a b = Lt -> Ascii.compare b c = Lt -> Ascii.compare a c = Lt.
Proof. unfold Ascii.compare. rewrite !N.compare_lt_iff. lia. Qed.

Lemma string_compare_lt_trans x y z :
  String.compare x y = Lt -> String.compare y z = Lt -> String.compare x z = Lt.
Proof.
  revert y z. induction x as [|a x IH]; intros [|b y] [|c z]; simpl; try done.
  destruct (Ascii.compare a b) eqn:Hab; try done;
    destruct (Ascii.compare b c) eqn:Hbc; try done.
  - apply Ascii.compare_eq_iff in Hab as ->. rewrite Hbc. apply IH.
  - apply Ascii.compare_eq_iff in Hab as ->. by rewrite Hbc.
  - apply Ascii.compare_eq_iff in Hbc as ->. by rewrite Hab.
  - by rewrite (ascii_compare_lt_trans _ _ _ Hab Hbc).
Qed.

Lemma string_compare_refl x : String.compare x x = Eq.
Proof.
  induction x as [|a x IH]; simpl; [done|].
  unfold Ascii.compare. by rewrite N.compare_refl.
Qed.

#[export] Instance OrdLaws_string : OrdLaws string.
Proof.
  split; unfold cmp, Ord_string.
  - intros x y. split; [apply String.compare_eq_iff|]. intros ->.
    by rewrite string_compare_refl.
  - intros x y. apply String.compare_antisym.
  - apply string_compare_lt_trans.
Qed.

Lemma cmp_prod {A B} `{Ord A, Ord B} (a a' : A) (b b' : B) :
  cmp (a, b) (a', b') = then_with (cmp a a') (cmp b b').
Proof. done. Qed.

#[export] Instance OrdLaws_prod {A B} `{OrdLaws A, OrdLaws B} : OrdLaws (A * B).
Proof.
  split.
  - intros [a b] [a' b']. rewrite cmp_prod. unfold then_with. destruct (cmp a a') eqn:E.
    + apply cmp_eq in E as ->. rewrite cmp_eq. split; congruence.
    + split; [done|]. intros [= -> ->]. by rewrite (proj2 (cmp_eq a' a') eq_refl) in E.
    + split; [done|]. intros [= -> ->]. by rewrite (proj2 (cmp_eq a' a') eq_refl) in E.
  - intros [a b] [a' b']. rewrite !cmp_prod, (cmp_antisym a a'), (cmp_antisym b b').
    by destruct (cmp a a').
  - intros [a b] [a' b'] [a'' b'']. rewrite !cmp_prod. unfold then_with.
    destruct (cmp a a') eqn:E1; try done; destruct (cmp a' a'') eqn:E2; try done.
    + apply cmp_eq in E1 as ->. rewrite E2. apply cmp_lt_trans.
    + apply cmp_eq in E1 as ->. by rewrite E2.
    + apply cmp_eq in E2 as ->. by rewrite E1.
    + by rewrite (cmp_lt_trans _ _ _ E1 E2).
Qed.

Section ord.
Context {A : Type} `{OrdLaws A}.
Implicit Types x y z : A.

Lemma cmp_refl x : cmp x x = Eq.
Proof. by apply cmp_eq. Qed.

Lemma cmp_gt_lt x y : cmp x y = Gt <-> cmp y x = Lt.
Proof. rewrite (cmp_antisym x y). by destruct (cmp x y). Qed.

Lemma le_b_refl x : le_b x x = true.
Proof. unfold le_b. by rewrite cmp_refl. Qed.

Lemma le_b_total x y : le_b x y = true \/ le_b y x = true.
Proof. unfold le_b. rewrite (cmp_antisym x y). destruct (cmp x y); auto. Qed.

Lemma le_b_false x y : le_b x y = false -> le_b y x = true.
Proof. destruct (le_b_total x y); congruence. Qed.

Lemma le_b_antisym x y : le_b x y = true -> le_b y x = true -> x = y.
Proof.
  unfold le_b. rewrite (cmp_antisym x y), <- cmp_eq. by destruct (cmp x y).
Qed.

Lemma le_b_trans x y z : le_b x y = true -> le_b y z = true -> le_b x z = true.
Proof.
  unfold le_b. destruct (cmp x y) eqn:E1; try done;
    destruct (cmp y z) eqn:E2; try done; intros _ _.
  - apply cmp_eq in E1 as ->. by rewrite E2.
  - apply cmp_eq in E1 as ->. by rewrite E2.
  - apply cmp_eq in E2 as ->. by rewrite E1.
  - by rewrite (cmp_lt_trans _ _ _ E1 E2).
Qed.

Lemma lt_b_le_b x y : lt_b x y = negb (le_b y x).
Proof. unfold lt_b, le_b. rewrite (cmp_antisym x y). by destruct (cmp x y). Qed.

Lemma lt_b_irrefl x : lt_b x x = false.
Proof. by rewrite lt_b_le_b, le_b_refl. Qed.
End ord.

(** ** Stable sorting

    [insert_by leb x l] puts [x] before the first element that is not smaller;
    folding it from the right keeps equal elements in their order. *)
Section sort.
Context {A : Type} (leb : A -> A -> bool).

Fixpoint insert_by (x : A) (l : list A) : list A :=
  match l with
  | [] => [x]
  | y :: l' => if leb x y then x :: l else y :: insert_by x l'
  end.

Definition sort_by (l : list A) : list A := foldr insert_by [] l.

Definition SortedBy : list A -> Prop := StronglySorted (fun x y => leb x y = true).

Lemma insert_by_perm x l : insert_by x l ≡ₚ x :: l.
Proof.
  induction l as [|y l IH]; simpl; [done|].
  destruct (leb x y); [done|]. rewrite IH. constructor.
Qed.

Lemma sort_by_perm l : sort_by l ≡ₚ l.
Proof.
  unfold sort_by. induction l as [|x l IH]; simpl; [done|].
  by rewrite insert_by_perm, IH.
Qed.

Lemma elem_of_sort_by x l : x ∈ sort_by l <-> x ∈ l.
Proof. by rewrite sort_by_perm. Qed.

Lemma length_sort_by l : length (sort_by l) = length l.
Proof. by rewrite sort_by_perm. Qed.

Context (leb_total : forall x y, leb x y = false -> leb y x = true)
        (leb_trans : forall x y z, leb x y = true -> leb y z = true -> leb x z = true).

Lemma insert_by_sorted x l : SortedBy l -> SortedBy (insert_by x l).
Proof.
  unfold SortedBy. induction 1 as [|y l Hl IH Hy]; simpl.
  - by repeat constructor.
  - destruct (leb x y) eqn:E.
    + constructor; [by constructor|]. constructor; [done|].
      eapply Forall_impl; [exact Hy|]. intros z Hz. by eapply leb_trans.
    + constructor; [done|]. rewrite insert_by_perm. constructor; [|done].
      by apply leb_total.
Qed.

Lemma sort_by_sorted l : SortedBy (sort_by l).
Proof.
  unfold sort_by. induction l as [|x l IH]; simpl; [constructor|].
  by apply insert_by_sorted.
Qed.

Lemma insert_by_head x l :
  Forall (fun y => leb x y = true) l -> insert_by x l = x :: l.
Proof. destruct 1 as [|y l Hy _]; simpl; [done|]. by rewrite Hy. Qed.

Lemma sort_by_id l : SortedBy l -> sort_by l = l.
Proof.
  unfold SortedBy, sort_by. induction 1 as [|x l Hl IH Hx]; simpl; [done|].
  by rewrite IH, insert_by_head.
Qed.

Lemma sort_by_idemp l : sort_by (sort_by l) = sort_by l.
Proof. apply sort_by_id, sort_by_sorted. Qed.

(** Sorted permutations are equal when the order is antisymmetric on the list. *)
Lemma sorted_perm_eq l1 l2 :
  (forall x y, x ∈ l1 -> y ∈ l1 -> leb x y = true -> leb y x = true -> x = y) ->
  SortedBy l1 -> SortedBy l2 -> l1 ≡ₚ l2 -> l1 = l2.
Proof.
  unfold SortedBy. revert l2. induction l1 as [|x l1 IH]; intros l2 Ha H1 H2 Hp.
  { by apply Permutation_nil_l in Hp. }
  destruct l2 as [|y l2]; [by apply Permutation_nil_r in Hp|].
  inversion H1 as [|? ? H1t H1h]; inversion H2 as [|? ? H2t H2h]; subst.
  rewrite Forall_forall in H1h, H2h.
  assert (Hyx : y ∈ x :: l1) by (rewrite Hp; apply list_elem_of_here).
  assert (Hxy : x ∈ y :: l2) by (rewrite <- Hp; apply list_elem_of_here).
  assert (x = y) as ->.
  { apply elem_of_cons in Hyx as [->|Hy]; [done|].
    apply elem_of_cons in Hxy as [->|Hx]; [done|].
    apply Ha; [apply list_elem_of_here|by apply list_elem_of_further|
               by apply H1h|by apply H2h]. }
  f_equal. apply IH; [|done|done|by eapply Permutation_cons_inv].
  intros u v Hu Hv. apply Ha; by apply list_elem_of_further.
Qed.
End sort.

(** [v.sort()] on a [Vec] of totally ordered elements. *)
Definition sort {A} `{Ord A} (l : list A) : list A := sort_by le_b l.

(** [v.sort_by(|l, r| key(l).cmp(&key(r)))] *)
Definition sort_by_key {A K} `{Ord K} (key : A -> K) (l : list A) : list A :=
  sort_by (fun x y => le_b (key x) (key y)) l.

Definition StrictlySorted {A} `{Ord A} : list A -> Prop :=
  StronglySorted (fun x y => lt_b x y = true).

Section sort_ord.
Context {A : Type} `{OrdLaws A}.

Lemma sort_sorted (l : list A) : SortedBy le_b (sort l).
Proof. apply sort_by_sorted; [apply le_b_false|apply le_b_trans]. Qed.

Lemma sort_perm (l : list A) : sort l ≡ₚ l.
Proof. apply sort_by_perm. Qed.

Lemma sort_perm_eq (l1 l2 : list A) : l1 ≡ₚ l2 -> sort l1 = sort l2.
Proof.
  intros Hp. eapply sorted_perm_eq; [|apply sort_sorted|apply sort_sorted|].
  - intros x y _ _. apply le_b_antisym.
  - by rewrite !sort_perm.
Qed.

Lemma sorted_NoDup_strict (l : list A) :
  SortedBy le_b l -> NoDup l -> StrictlySorted l.
Proof.
  unfold SortedBy, StrictlySorted. induction 1 as [|x l Hl IH Hx]; [constructor|].
  intros [Hn Hd]%NoDup_cons. constructor; [by apply IH|].
  rewrite Forall_forall in Hx |- *. intros y Hy. rewrite lt_b_le_b.
  destruct (le_b y x) eqn:E; [|done]. exfalso. apply Hn.
  rewrite (le_b_antisym x y); [done|by apply Hx|done].
Qed.

#[export] Instance sort_proper : Proper ((≡ₚ) ==> (=)) (sort (A := A)).
Proof. intros l1 l2. apply sort_perm_eq. Qed.
End sort_ord.

Section sort_key.
Context {A K : Type} `{OrdLaws K} (key : A -> K).

Lemma sort_by_key_sorted (l : list A) :
  SortedBy (fun x y => le_b (key x) (key y)) (sort_by_key key l).
Proof. apply sort_by_sorted; intros *; [apply le_b_false|apply le_b_trans]. Qed.

Lemma sort_by_key_perm (l : list A) : sort_by_key key l ≡ₚ l.
Proof. apply sort_by_perm. Qed.

Lemma fmap_insert_by (x : A) (l : list A) :
  key <$> insert_by (fun x y => le_b (key x) (key y)) x l
  = insert_by le_b (key x) (key <$> l).
Proof.
  induction l as [|y l IH]; [done|]. simpl.
  destruct (le_b (key x) (key y)); [done|]. rewrite !fmap_cons. by rewrite IH.
Qed.

Lemma fmap_sort_by_key (l : list A) : key <$> sort_by_key key l = sort (key <$> l).
Proof.
  unfold sort_by_key, sort, sort_by. induction l as [|x l IH]; [done|].
  rewrite fmap_cons. simpl. by rewrite fmap_insert_by, IH.
Qed.

(** Sorting does not depend on the input order when keys are distinct. *)
Lemma sort_by_key_perm_eq (l1 l2 : list A) :
  NoDup (key <$> l1) -> l1 ≡ₚ l2 -> sort_by_key key l1 = sort_by_key key l2.
Proof.
  intros Hnd Hp.
  eapply sorted_perm_eq; [|apply sort_by_key_sorted|apply sort_by_key_sorted|].
  - intros x y Hx Hy H1 H2. unfold sort_by_key in Hx, Hy.
    rewrite elem_of_sort_by in Hx, Hy.
    assert (key x = key y) as Hk by (by apply le_b_antisym).
    apply list_elem_of_lookup in Hx as [i Hi]. apply list_elem_of_lookup in Hy as [j Hj].
    assert (i = j); [|congruence].
    apply (NoDup_lookup (key <$> l1) i j (key x)); [done| |];
      rewrite list_lookup_fmap; [rewrite Hi|rewrite Hj, Hk]; done.
  - by rewrite !sort_by_key_perm.
Qed.
End sort_key.

(** ** [BTreeMap] and [BTreeSet]: contents as a [gmap]/[gset], iteration in key order *)
Definition btree_iter {K V} `{Countable K, Ord K} (m : gmap K V) : list (K * V) :=
  sort_by_key fst (map_to_list m).
Definition btree_keys {K V} `{Countable K, Ord K} (m : gmap K V) : list K :=
  fst <$> btree_iter m.
Definition btree_values {K V} `{Countable K, Ord K} (m : gmap K V) : list V :=
  snd <$> btree_iter m.
Definition btree_elements {K} `{Countable K, Ord K} (s : gset K) : list K :=
  sort (elements s).

Section btree.
Context {K V : Type} `{Countable K} `{OrdLaws K}.
Implicit Types m : gmap K V.

Lemma elem_of_btree_iter m k v : (k, v) ∈ btree_iter m <-> m !! k = Some v.
Proof. unfold btree_iter. by rewrite sort_by_key_perm, elem_of_map_to_list. Qed.

Lemma elem_of_btree_keys m k : k ∈ btree_keys m <-> is_Some (m !! k).
Proof.
  unfold btree_keys. rewrite list_elem_of_fmap. split.
  - intros [[k' v] [-> Hkv]]. apply elem_of_btree_iter in Hkv. by exists v.
  - intros [v Hv]. exists (k, v). split; [done|]. by apply elem_of_btree_iter.
Qed.

Lemma NoDup_btree_keys m : NoDup (btree_keys m).
Proof.
  unfold btree_keys, btree_iter. rewrite sort_by_key_perm. apply NoDup_fst_map_to_list.
Qed.

Lemma btree_keys_sorted m : StrictlySorted (btree_keys m).
Proof.
  apply sorted_NoDup_strict; [|apply NoDup_btree_keys].
  unfold btree_keys, btree_iter. rewrite fmap_sort_by_key. apply sort_sorted.
Qed.

Lemma length_btree_iter m : length (btree_iter m) = size m.
Proof. unfold btree_iter. by rewrite sort_by_key_perm, length_map_to_list. Qed.

Lemma elem_of_btree_elements (s : gset K) k : k ∈ btree_elements s <-> k ∈ s.
Proof. unfold btree_elements. by rewrite sort_perm, elem_of_elements. Qed.
End btree.

#[export] Hint Resolve le_b_refl le_b_false le_b_trans le_b_antisym : rust.


Lemma sorted_before {A} (leb : A -> A -> bool) d x l y :
  SortedBy leb (d ++ x :: l) -> y ∈ d -> leb y x = true.
Proof.
  intros Hs Hy. apply (sorting.StronglySorted_app_1_elem_of (fun x y => leb x y = true) d (x :: l)); [done..|].
  apply list_elem_of_here.
Qed.

Lemma elem_of_concat {A} (x : A) (ls : list (list A)) :
  x ∈ concat ls <-> exists l, x ∈ l /\ l ∈ ls.
Proof.
  rewrite list_elem_of_In, in_concat. split; intros (l & H1 & H2); exists l.
  - by rewrite !list_elem_of_In.
  - by rewrite <- !list_elem_of_In.
Qed.

Section stable.
Context {A K : Type} `{OrdLaws K} (key : A -> K).
Implicit Types (l : list A) (x y : A) (k : K).

Abbreviation leb := (fun x y => le_b (key x) (key y)).
Abbreviation sorted := (SortedBy leb).

Definition has_key k x : bool := match cmp (key x) k with Eq => true | _ => false end.
Definition with_key k l : list A := List.filter (has_key k) l.

Lemma has_key_true k x : has_key k x = true <-> key x = k.
Proof. unfold has_key. rewrite <- cmp_eq. by destruct (cmp (key x) k). Qed.

Lemma with_key_app k l1 l2 : with_key k (l1 ++ l2) = with_key k l1 ++ with_key k l2.
Proof. apply List.filter_app. Qed.

Lemma elem_of_with_key k l x : x ∈ with_key k l <-> x ∈ l /\ key x = k.
Proof.
  unfold with_key. rewrite list_elem_of_In, List.filter_In, <- list_elem_of_In.
  by rewrite has_key_true.
Qed.

Lemma with_key_insert k x l : with_key k (insert_by leb x l) = with_key k (x :: l).
Proof.
  induction l as [|y l IH]; simpl; [done|]. destruct (le_b (key x) (key y)) eqn:E; [done|].
  simpl in *. rewrite IH. destruct (has_key k x) eqn:Ex, (has_key k y) eqn:Ey; try done.
  apply has_key_true in Ex, Ey. rewrite Ex, Ey, le_b_refl in E. done.
Qed.

Lemma with_key_sort k l : with_key k (sort_by_key key l) = with_key k l.
Proof.
  unfold sort_by_key, sort_by. induction l as [|x l IH]; [done|].
  simpl foldr. rewrite with_key_insert. simpl. by rewrite IH.
Qed.

Lemma sorted_head_le x l y : sorted (x :: l) -> y ∈ x :: l -> le_b (key x) (key y) = true.
Proof.
  intros Hs [->|Hy]%elem_of_cons; [apply le_b_refl|].
  inversion Hs as [|? ? _ Hf]; subst. rewrite Forall_forall in Hf. by apply Hf.
Qed.

Lemma stable_unique l1 l2 :
  sorted l1 -> sorted l2 -> (forall k, with_key k l1 = with_key k l2) -> l1 = l2.
Proof.
  assert (forall x l l', (forall k, with_key k (x :: l) = with_key k l') -> x ∈ l') as Hin.
  { intros x l l' Hk. apply (elem_of_with_key (key x)). rewrite <- Hk.
    apply elem_of_with_key. split; [apply list_elem_of_here|done]. }
  revert l2. induction l1 as [|x l1 IH]; intros [|y l2] H1 H2 Hk; [done| | |].
  - exfalso. assert (y ∈ @nil A) as Hy by (eapply Hin; intros k; by rewrite Hk).
    by apply elem_of_nil in Hy.
  - exfalso. assert (x ∈ @nil A) as Hx by by eapply Hin. by apply elem_of_nil in Hx.
  - assert (key x = key y) as Hxy.
    { apply le_b_antisym.
      - eapply sorted_head_le; [exact H1|]. eapply Hin. intros k. by rewrite Hk.
      - eapply sorted_head_le; [exact H2|]. by eapply Hin. }
    assert (x = y) as ->.
    { specialize (Hk (key y)). simpl in Hk.
      rewrite (proj2 (has_key_true _ x) Hxy), (proj2 (has_key_true _ y) eq_refl) in Hk. congruence. }
    f_equal. apply IH; [by inversion H1|by inversion H2|]. intros k. specialize (Hk k). simpl in Hk.
    destruct (has_key k y); congruence.
Qed.

Lemma sort_by_key_ext l1 l2 :
  (forall k, with_key k l1 = with_key k l2) -> sort_by_key key l1 = sort_by_key key l2.
Proof.
  intros Hk. apply stable_unique; [apply sort_by_key_sorted..|].
  intros k. by rewrite !with_key_sort.
Qed.

Lemma sort_by_key_eq l l' :
  sorted l' -> (forall k, with_key k l' = with_key k l) -> l' = sort_by_key key l.
Proof.
  intros Hs Hk. apply stable_unique; [done|apply sort_by_key_sorted|].
  intros k. by rewrite with_key_sort.
Qed.

Lemma sort_by_key_id l : sorted l -> sort_by_key key l = l.
Proof. intros Hs. symmetry. by apply sort_by_key_eq. Qed.

(** Sorting parts first changes nothing. *)
Lemma sort_by_key_concat (cs : list (list A)) :
  sort_by_key key (concat (sort_by_key key <$> cs)) = sort_by_key key (concat cs).
Proof.
  apply sort_by_key_ext. intros k. induction cs as [|c cs IH]; [done|].
  rewrite fmap_cons, !concat_cons, !with_key_app, with_key_sort. by rewrite IH.
Qed.

(** The smallest element, the first of its key, comes first. *)
Lemma sort_by_key_min l1 x l2 :
  (forall y, y ∈ l1 -> le_b (key y) (key x) = false) ->
  (forall y, y ∈ l2 -> le_b (key x) (key y) = true) ->
  sort_by_key key (l1 ++ x :: l2) = x :: sort_by_key key (l1 ++ l2).
Proof.
  intros H1 H2. symmetry. apply sort_by_key_eq.
  - constructor; [apply sort_by_key_sorted|]. rewrite Forall_forall. intros y.
    rewrite sort_by_key_perm. intros [Hy|Hy]%elem_of_app; [|by apply H2].
    by apply le_b_false, H1.
  - intros k. simpl. rewrite with_key_sort, !with_key_app. simpl.
    destruct (has_key k x) eqn:Ex; [|done].
    assert (with_key k l1 = []) as ->; [|done].
    destruct (with_key k l1) as [|y l] eqn:E; [done|]. exfalso.
    assert (y ∈ with_key k l1) as Hy by (rewrite E; apply list_elem_of_here).
    apply elem_of_with_key in Hy as [Hy Hk]. apply has_key_true in Ex.
    specialize (H1 y Hy). by rewrite Hk, Ex, le_b_refl in H1.
Qed.

(** One step of a merge of sorted runs: the head of run [i] is the smallest of the heads,
    the earliest run on ties. *)
Lemma merge_step (pre : list (list A)) x c post :
  Forall sorted pre -> sorted (x :: c) -> Forall sorted post ->
  (forall y l, y :: l ∈ pre -> le_b (key y) (key x) = false) ->
  (forall y l, y :: l ∈ post -> le_b (key x) (key y) = true) ->
  sort_by_key key (concat (pre ++ (x :: c) :: post))
  = x :: sort_by_key key (concat (pre ++ c :: post)).
Proof.
  intros Hpre Hx Hpost H1 H2. rewrite !concat_app. simpl.
  apply sort_by_key_min.
  - intros y ([|z l] & Hy & Hl)%elem_of_concat; [by apply elem_of_nil in Hy|].
    pose proof (H1 z l Hl) as Hz.
    rewrite Forall_forall in Hpre. pose proof (sorted_head_le _ _ _ (Hpre _ Hl) Hy) as Hzy.
    destruct (le_b (key y) (key x)) eqn:E; [|done]. by rewrite (le_b_trans _ _ _ Hzy E) in Hz.
  - intros y [Hy|([|z l] & Hy & Hl)%elem_of_concat]%elem_of_app.
    + by eapply sorted_head_le, elem_of_cons; [exact Hx|right].
    + by apply elem_of_nil in Hy.
    + rewrite Forall_forall in Hpost. eapply le_b_trans; [by eapply H2|].
      by eapply sorted_head_le; [apply Hpost|].
Qed.
End stable.

#[export] Hint Resolve sort_by_key_sorted : rust.


(** [BinaryHeap::pop]: a greatest item, and the others. *)
Fixpoint heap_pop {A} (ord : A -> A -> comparison) (h : list A) : option (A * list A) :=
  match h with
  | [] => None
  | x :: h =>
      match heap_pop ord h with
      | None => Some (x, [])
      | Some (y, h') => match ord x y with Lt => Some (y, x :: h') | _ => Some (x, h) end
      end
  end.

(** [BinaryHeap::peek] *)
Definition heap_peek {A} (ord : A -> A -> comparison) (h : list A) : option A :=
  fst <$> heap_pop ord h.

Lemma heap_pop_None {A} (ord : A -> A -> comparison) h : heap_pop ord h = None -> h = [].
Proof.
  destruct h as [|x h]; [done|]. simpl. destruct (heap_pop ord h) as [[y h']|]; [|done].
  by destruct (ord x y).
Qed.

(** The programs' heaps are reversed: the greatest item has the smallest key. *)
Section reversed.
Context {A K : Type} `{OrdLaws K} (ord : A -> A -> comparison) (key : A -> K).
Context (ord_key : forall x y, ord x y = cmp (key y) (key x)).

Lemma heap_pop_Some h x h' :
  heap_pop ord h = Some (x, h') ->
  h ≡ₚ x :: h' /\ forall y, y ∈ h' -> le_b (key x) (key y) = true.
Proof.
  revert x h'. induction h as [|z h IH]; intros x h'; simpl; [done|].
  destruct (heap_pop ord h) as [[y h1]|] eqn:Eh; intros Hp.
  - destruct (IH _ _ eq_refl) as [Hperm Hle]. clear IH. pose proof (ord_key z y) as Hc.
    destruct (le_b (key z) (key y)) eqn:Ezy.
    + assert ((z, h) = (x, h')) as [= <- <-].
      { destruct (ord z y) eqn:Ec; try congruence.
        rewrite cmp_antisym in Hc. unfold le_b in Ezy. by destruct (cmp (key z) (key y)). }
      split; [done|]. intros u Hu. rewrite Hperm in Hu. apply elem_of_cons in Hu as [->|Hu]; [done|].
      eapply le_b_trans; [exact Ezy|by apply Hle].
    + assert ((y, z :: h1) = (x, h')) as [= <- <-].
      { rewrite cmp_antisym in Hc. unfold le_b in Ezy.
        destruct (cmp (key z) (key y)); try done. simpl in Hc. rewrite Hc in Hp. congruence. }
      split; [rewrite Hperm; constructor|].
      intros u [->|Hu]%elem_of_cons; [by apply le_b_false|by apply Hle].
  - injection Hp as <- <-. apply heap_pop_None in Eh as ->. split; [done|].
    by intros y ?%elem_of_nil.
Qed.
End reversed.

(** ** Merging *)
Section merge.
Context {A I K : Type} `{OrdLaws K} (key : A -> K) (item : nat -> A -> I).
Context (ord : I -> I -> comparison).
Context (item_key : I -> K * nat) (item_key_item : forall i x, item_key (item i x) = (key x, i)).
Context (ord_key : forall x y, ord x y = cmp (item_key y) (item_key x)).

Definition head_item (i : nat) (c : list A) : list I :=
  match c with [] => [] | x :: _ => [item i x] end.
Fixpoint heads (i : nat) (cs : list (list A)) : list I :=
  match cs with [] => [] | c :: cs => head_item i c ++ heads (S i) cs end.

Lemma heads_app i cs1 cs2 : heads i (cs1 ++ cs2) = heads i cs1 ++ heads (i + length cs1) cs2.
Proof.
  revert i. induction cs1 as [|c cs1 IH]; intros i; simpl; [by rewrite Nat.add_0_r|].
  by rewrite IH, <- app_assoc, Nat.add_succ_r.
Qed.

Lemma elem_of_heads i cs z :
  z ∈ heads i cs <-> exists pre x c post, cs = pre ++ (x :: c) :: post /\ z = item (i + length pre) x.
Proof.
  revert i. induction cs as [|d cs IH]; intros i; simpl.
  - split; [by intros ?%elem_of_nil|]. intros (pre & x & c & post & Heq & _). by destruct pre.
  - rewrite elem_of_app, IH. split.
    + intros [Hz|(pre & x & c & post & -> & ->)].
      * destruct d as [|x c]; [by apply elem_of_nil in Hz|].
        apply list_elem_of_singleton in Hz as ->. exists [], x, c, cs. by rewrite Nat.add_0_r.
      * exists (d :: pre), x, c, post. split; [done|]. simpl. by rewrite Nat.add_succ_r.
    + intros ([|d' pre] & x & c & post & Heq & ->); injection Heq as -> ->.
      * left. rewrite Nat.add_0_r. apply list_elem_of_here.
      * right. exists pre, x, c, post. split; [done|]. simpl. by rewrite Nat.add_succ_r.
Qed.

Abbreviation sorted := (SortedBy (fun x y => le_b (key x) (key y))).

Lemma heads_nil cs : heads 0 cs = [] -> concat cs = [].
Proof.
  generalize 0. induction cs as [|[|x c] cs IH]; intros i; simpl; [done| |done]. apply IH.
Qed.

(** The popped item is the smallest of all elements, from the first list on ties. *)
Lemma pop_heads h cs it h' :
  h ≡ₚ heads 0 cs -> Forall sorted cs -> heap_pop ord h = Some (it, h') ->
  exists pre x c post, cs = pre ++ (x :: c) :: post /\ it = item (length pre) x /\
    h' ≡ₚ heads 0 pre ++ heads (S (length pre)) post /\
    sort_by_key key (concat cs) = x :: sort_by_key key (concat (pre ++ c :: post)) /\
    (forall z, z ∈ h' -> le_b (item_key it) (item_key z) = true).
Proof.
  intros Hh Hs Hp. pose proof (heap_pop_Some ord item_key ord_key _ _ _ Hp) as [Hperm Hle].
  assert (it ∈ heads 0 cs) as (pre & x & c & post & -> & ->)%elem_of_heads.
  { rewrite <- Hh, Hperm. apply list_elem_of_here. }
  exists pre, x, c, post. split; [done|]. split; [done|]. simpl in *.
  assert (h' ≡ₚ heads 0 pre ++ heads (S (length pre)) post) as Hh'.
  { rewrite Hperm, heads_app in Hh. simpl in Hh. rewrite <- Permutation_middle in Hh.
    by apply Permutation_cons_inv in Hh. }
  split; [done|]. split; [|exact Hle].
  assert (forall p1 y l p2, pre = p1 ++ (y :: l) :: p2 -> le_b (key y) (key x) = false) as Hpre.
  { intros p1 y l p2 ->.
    assert (item (length p1) y ∈ h') as Hy.
    { rewrite Hh'. apply elem_of_app. left. apply elem_of_heads. by exists p1, y, l, p2. }
    specialize (Hle _ Hy). rewrite !item_key_item in Hle. unfold le_b in *.
    rewrite cmp_prod in Hle. rewrite (cmp_antisym (key x) (key y)).
    destruct (cmp (key x) (key y)); [|done|done]. exfalso. simpl in Hle.
    unfold cmp, Ord_nat in Hle. rewrite length_app in Hle. simpl in Hle.
    destruct (Nat.compare_spec (length p1 + S (length p2)) (length p1)); [lia|lia|done]. }
  assert (forall p1 y l p2, post = p1 ++ (y :: l) :: p2 -> le_b (key x) (key y) = true) as Hpost.
  { intros p1 y l p2 ->.
    assert (item (S (length pre) + length p1) y ∈ h') as Hy.
    { rewrite Hh'. apply elem_of_app. right. apply elem_of_heads. by exists p1, y, l, p2. }
    specialize (Hle _ Hy). rewrite !item_key_item in Hle. unfold le_b in *.
    rewrite cmp_prod in Hle. by destruct (cmp (key x) (key y)). }
  apply Forall_app in Hs as [Hs1 Hs2]. inversion Hs2; subst.
  apply merge_step; try done.
  - intros y l (p1 & p2 & ->)%list_elem_of_split. by eapply Hpre.
  - intros y l (p1 & p2 & ->)%list_elem_of_split. by eapply Hpost.
Qed.

(** The head of the list that was advanced goes back into the heap. *)
Lemma heads_advance h' pre (c : list A) post :
  h' ≡ₚ heads 0 pre ++ heads (S (length pre)) post ->
  head_item (length pre) c ++ h' ≡ₚ heads 0 (pre ++ c :: post).
Proof. intros ->. rewrite heads_app. simpl. rewrite !app_assoc, (Permutation_app_comm (head_item _ _)). by rewrite <- !app_assoc. Qed.
End merge.
