(* ===== verification/Text.v ===== *)
(** * Rust [str]/[String]: UTF-8 text as byte strings

    A Rust string is modelled by the byte string of its UTF-8 encoding
    ([Stdlib]'s [string], whose characters are bytes).  UTF-8 is
    self-synchronising, so searching, stripping and splitting by a valid pattern
    gives the same result on bytes as on characters.  The Unicode tables behind
    [to_lowercase], [is_alphabetic] and [is_uppercase] are the class [Unicode]. *)
From S2P Require Import Prelude Order.
From Stdlib Require Import DecimalString DecimalZ.
Open Scope string_scope.
Open Scope list_scope.

(** ** Emptiness and prefixes *)
Definition is_empty (s : string) : bool :=
  match s with EmptyString => true | _ => false end.

Fixpoint strip_prefix (p s : string) : option string :=
  match p, s with
  | EmptyString, _ => Some s
  | String a p', String b s' => if Ascii.eqb a b then strip_prefix p' s' else None
  | String _ _, EmptyString => None
  end.

Definition starts_with (s p : string) : bool :=
  match strip_prefix p s with Some _ => true | None => false end.

Fixpoint srev_app (s acc : string) : string :=
  match s with EmptyString => acc | String a s' => srev_app s' (String a acc) end.
Definition srev (s : string) : string := srev_app s "".

Definition strip_suffix (p s : string) : option string :=
  srev <$> strip_prefix (srev p) (srev s).
Definition ends_with (s p : string) : bool := starts_with (srev s) (srev p).

Fixpoint contains_char (s : string) (c : ascii) : bool :=
  match s with EmptyString => false | String a s' => Ascii.eqb a c || contains_char s' c end.

(** ** Trimming *)

(** Strips one occurrence of the first pattern that is a prefix. *)
Definition strip_one (pats : list string) (s : string) : option string :=
  find_map (fun p => strip_prefix p s) pats.

Fixpoint trim_start_fuel (fuel : nat) (pats : list string) (s : string) : string :=
  match fuel with
  | O => s
  | S fuel => match strip_one pats s with
              | Some s' => trim_start_fuel fuel pats s'
              | None => s
              end
  end.

(** Repeated stripping; each step removes at least one byte, so [length s] steps
    are enough. *)
Definition trim_start_pats (pats : list string) (s : string) : string :=
  trim_start_fuel (String.length s) pats s.
Definition trim_end_pats (pats : list string) (s : string) : string :=
  srev (trim_start_pats (srev <$> pats) (srev s)).

Definition byte_char (n : N) : ascii := ascii_of_N n.
Definition bytes (l : list N) : string := foldr (fun n s => String (byte_char n) s) "" l.

(** The UTF-8 encodings of the characters with the [White_Space] property. *)
Definition white_space : list string :=
  bytes <$> [[9]; [10]; [11]; [12]; [13]; [32]; [194; 133]; [194; 160]; [225; 154; 128];
             [226; 128; 128]; [226; 128; 129]; [226; 128; 130]; [226; 128; 131];
             [226; 128; 132]; [226; 128; 133]; [226; 128; 134]; [226; 128; 135];
             [226; 128; 136]; [226; 128; 137]; [226; 128; 138]; [226; 128; 168];
             [226; 128; 169]; [226; 128; 175]; [226; 129; 159]; [227; 128; 128]]%N.

Definition trim_start (s : string) : string := trim_start_pats white_space s.
Definition trim_end (s : string) : string := trim_end_pats white_space s.
Definition trim (s : string) : string := trim_end (trim_start s).

Definition trim_start_matches (p : string) (s : string) : string := trim_start_pats [p] s.
Definition trim_end_matches (p : string) (s : string) : string := trim_end_pats [p] s.
Definition trim_matches (p : string) (s : string) : string :=
  trim_end_matches p (trim_start_matches p s).

(** ** Mapping, splitting, joining *)
Fixpoint smap (f : ascii -> ascii) (s : string) : string :=
  match s with EmptyString => "" | String a s' => String (f a) (smap f s') end.

(** [replace] of one ASCII character by another. *)
Definition replace_char (a b : ascii) (s : string) : string :=
  smap (fun c => if Ascii.eqb c a then b else c) s.

(** [split(c)]: always at least one piece. *)
Fixpoint split (c : ascii) (s : string) : list string :=
  match s with
  | EmptyString => [""]
  | String a s' =>
      if Ascii.eqb a c then "" :: split c s'
      else match split c s' with
           | p :: ps => String a p :: ps
           | [] => [String a ""]
           end
  end.

Fixpoint split_once (c : ascii) (s : string) : option (string * string) :=
  match s with
  | EmptyString => None
  | String a s' =>
      if Ascii.eqb a c then Some ("", s')
      else match split_once c s' with
           | Some (l, r) => Some (String a l, r)
           | None => None
           end
  end.

Definition rsplit_once (c : ascii) (s : string) : option (string * string) :=
  match split_once c (srev s) with
  | Some (r, l) => Some (srev l, srev r)
  | None => None
  end.

(** [rsplit(c).next()]: the piece after the last [c]. *)
Definition last_piece (c : ascii) (s : string) : string := default s (last (split c s)).

Fixpoint join (sep : string) (l : list string) : string :=
  match l with
  | [] => ""
  | [x] => x
  | x :: l => x +:+ sep +:+ join sep l
  end.

Fixpoint concat_str (l : list string) : string :=
  match l with [] => "" | x :: l => x +:+ concat_str l end.

(** [chars().take(n)] on UTF-8 bytes: a byte 10xxxxxx continues a character. *)
Definition is_continuation (a : ascii) : bool :=
  let n := N_of_ascii a in N.leb 128 n && N.ltb n 192.
Fixpoint take_chars (n : nat) (s : string) : string :=
  match s with
  | EmptyString => ""
  | String a s' =>
      if is_continuation a then String a (take_chars n s')
      else match n with O => "" | S n' => String a (take_chars n' s') end
  end.

(** [i64::to_string] and [usize::to_string]. *)
Definition show_Z (z : Z) : string := NilZero.string_of_int (Z.to_int z).

Definition as_bytes (s : string) : list ascii := list_ascii_of_string s.

(** ** Unicode tables *)
Definition is_ascii_upper (a : ascii) : bool :=
  let n := N_of_ascii a in N.leb 65 n && N.leb n 90.
Definition is_ascii_lower (a : ascii) : bool :=
  let n := N_of_ascii a in N.leb 97 n && N.leb n 122.
Definition ascii_lower (a : ascii) : ascii :=
  if is_ascii_upper a then byte_char (N_of_ascii a + 32) else a.
Definition to_ascii_lowercase (s : string) : string := smap ascii_lower s.
Definition is_ascii_alnum (a : ascii) : bool :=
  let n := N_of_ascii a in is_ascii_upper a || is_ascii_lower a || (N.leb 48 n && N.leb n 57).

(** [to_lowercase] is the Unicode mapping on whole strings; [alphabetic_cases] lists,
    for the alphabetic characters of a string in order, whether each is uppercase. *)
Class Unicode := {
  to_lowercase : string -> string;
  alphabetic_cases : string -> list bool
}.

(** The restriction of the tables to ASCII, used to evaluate the model. *)
Definition ascii_unicode : Unicode := {|
  to_lowercase := to_ascii_lowercase;
  alphabetic_cases s :=
    is_ascii_upper <$> filter (fun a => is_ascii_upper a || is_ascii_lower a = true) (as_bytes s)
|}.

(** ** Lemmas *)
Lemma app_str_cons a s t : String a s +:+ t = String a (s +:+ t).
Proof. done. Qed.

Lemma app_str_nil_r s : s +:+ "" = s.
Proof. induction s; [done|]. by rewrite app_str_cons, IHs. Qed.

Lemma app_str_nil_l s : "" +:+ s = s.
Proof. done. Qed.

Lemma app_str_assoc s t u : (s +:+ t) +:+ u = s +:+ (t +:+ u).
Proof. induction s; [done|]. by rewrite !app_str_cons, IHs. Qed.

Lemma app_str_inj_l s t u : s +:+ t = s +:+ u -> t = u.
Proof. induction s; [done|]. rewrite !app_str_cons. intros [= H]. auto. Qed.

Lemma length_app_str s t : String.length (s +:+ t) = String.length s + String.length t.
Proof. induction s; [done|]. rewrite app_str_cons. simpl. by rewrite IHs. Qed.

Lemma strip_prefix_Some p s r : strip_prefix p s = Some r <-> s = p +:+ r.
Proof.
  revert s. induction p as [|a p IH]; intros s; simpl.
  { rewrite app_str_nil_l. split; congruence. }
  destruct s as [|b s]; [split; [done|]; rewrite app_str_cons; discriminate|].
  rewrite app_str_cons. destruct (Ascii.eqb_spec a b) as [->|Hne].
  - rewrite IH. split; congruence.
  - split; congruence.
Qed.

Lemma starts_with_spec s p : starts_with s p = true <-> exists r, s = p +:+ r.
Proof.
  unfold starts_with. destruct (strip_prefix p s) as [r|] eqn:E.
  - apply strip_prefix_Some in E. split; [by exists r|done].
  - split; [done|]. intros [r Hr]. apply strip_prefix_Some in Hr. congruence.
Qed.

Lemma starts_with_app p r : starts_with (p +:+ r) p = true.
Proof. apply starts_with_spec. by exists r. Qed.

Lemma starts_with_refl s : starts_with s s = true.
Proof. apply starts_with_spec. exists "". symmetry. apply app_str_nil_r. Qed.

(** Two prefixes of one string are comparable. *)
Lemma prefixes_comparable p q r t :
  p +:+ r = q +:+ t -> starts_with p q = true \/ starts_with q p = true.
Proof.
  revert q. induction p as [|a p IH]; intros [|b q]; rewrite ?app_str_cons; intros H.
  - by left.
  - right. apply starts_with_spec. by exists (String b q).
  - left. apply starts_with_spec. by exists (String a p).
  - injection H as -> H. destruct (IH _ H) as [[u ->]%starts_with_spec|[u ->]%starts_with_spec].
    + left. apply starts_with_spec. by exists u.
    + right. apply starts_with_spec. by exists u.
Qed.

Lemma srev_app_spec s acc : srev_app s acc = srev s +:+ acc.
Proof.
  unfold srev. revert acc. induction s as [|a s IH]; intros acc; simpl; [done|].
  by rewrite IH, (IH (String a "")), app_str_assoc.
Qed.

Lemma srev_cons a s : srev (String a s) = srev s +:+ String a "".
Proof. unfold srev at 1. simpl. by rewrite srev_app_spec. Qed.

Lemma srev_app_str s t : srev (s +:+ t) = srev t +:+ srev s.
Proof.
  induction s as [|a s IH]; [by rewrite app_str_nil_r|].
  by rewrite app_str_cons, !srev_cons, IH, app_str_assoc.
Qed.

Lemma srev_involutive s : srev (srev s) = s.
Proof.
  induction s as [|a s IH]; [done|]. by rewrite srev_cons, srev_app_str, IH.
Qed.

Lemma length_srev s : String.length (srev s) = String.length s.
Proof.
  induction s as [|a s IH]; [done|]. rewrite srev_cons, length_app_str, IH. simpl. lia.
Qed.

Lemma ends_with_spec s p : ends_with s p = true <-> exists r, s = r +:+ p.
Proof.
  unfold ends_with. rewrite starts_with_spec. split; intros [r Hr].
  - exists (srev r). apply (f_equal srev) in Hr.
    by rewrite srev_app_str, !srev_involutive in Hr.
  - exists (srev r). by rewrite Hr, srev_app_str.
Qed.

(** The pieces of [split c s] rejoin to [s] and contain no [c]. *)
Lemma split_nonempty c s : split c s <> [].
Proof.
  induction s as [|a s IH]; simpl; [done|].
  destruct (Ascii.eqb a c); [done|]. by destruct (split c s).
Qed.

Lemma join_split c s : join (String c "") (split c s) = s.
Proof.
  induction s as [|a s IH]; [done|]. simpl.
  pose proof (split_nonempty c s) as Hn.
  destruct (Ascii.eqb_spec a c) as [->|Hne].
  - destruct (split c s) as [|p ps]; [done|]. simpl in *. by rewrite <- IH.
  - destruct (split c s) as [|p ps]; [done|]. destruct ps as [|q ps]; simpl in *.
    + by rewrite IH.
    + by rewrite <- IH.
Qed.

Lemma split_pieces c s p : p ∈ split c s -> contains_char p c = false.
Proof.
  revert p. induction s as [|a s IH]; intros p; simpl.
  - intros ->%list_elem_of_singleton. done.
  - pose proof (split_nonempty c s) as Hn. destruct (Ascii.eqb_spec a c) as [->|Hne].
    + intros [->|H]%elem_of_cons; [done|by apply IH].
    + destruct (split c s) as [|q ps]; [done|].
      intros [->|H]%elem_of_cons.
      * simpl. apply Ascii.eqb_neq in Hne. rewrite Hne. apply IH, list_elem_of_here.
      * apply IH. by apply list_elem_of_further.
Qed.

(** Splitting at a separator between two strings. *)
Lemma split_app c s t :
  split c (s +:+ String c t) = split c s ++ split c t.
Proof.
  induction s as [|a s IH].
  - simpl. by rewrite Ascii.eqb_refl.
  - rewrite app_str_cons. simpl. rewrite IH.
    destruct (Ascii.eqb a c); [done|].
    pose proof (split_nonempty c s). by destruct (split c s).
Qed.

Lemma list_ascii_of_string_app s t :
  as_bytes (s +:+ t) = as_bytes s ++ as_bytes t.
Proof. unfold as_bytes. induction s; [done|]. rewrite app_str_cons. simpl. by rewrite IHs. Qed.

Lemma as_bytes_inj s t : as_bytes s = as_bytes t -> s = t.
Proof.
  unfold as_bytes. intros H. apply (f_equal string_of_list_ascii) in H.
  by rewrite !string_of_list_ascii_of_string in H.
Qed.

Lemma length_as_bytes s : length (as_bytes s) = String.length s.
Proof. unfold as_bytes. induction s; simpl; [done|]. by rewrite IHs. Qed.

(** ** Trimming lemmas *)
Lemma strip_one_Some pats s r :
  strip_one pats s = Some r -> exists p, p ∈ pats /\ s = p +:+ r.
Proof.
  intros [p [Hp Hs]]%find_map_Some. exists p. by rewrite <- strip_prefix_Some.
Qed.

(** Patterns are nonempty, so stripping terminates with nothing left to strip. *)
Lemma trim_start_fuel_enough pats s fuel :
  Forall (fun p => is_empty p = false) pats ->
  String.length s <= fuel -> strip_one pats (trim_start_fuel fuel pats s) = None.
Proof.
  intros Hp. revert s. induction fuel as [|fuel IH]; intros s Hf; simpl.
  - destruct s; [|simpl in Hf; lia]. destruct (strip_one pats "") eqn:E; [|done].
    apply strip_one_Some in E as [p [Hin Hs]]. rewrite Forall_forall in Hp.
    specialize (Hp _ Hin). by destruct p.
  - destruct (strip_one pats s) as [r|] eqn:E; [|done].
    apply IH. apply strip_one_Some in E as [p [Hin ->]].
    rewrite Forall_forall in Hp. specialize (Hp _ Hin).
    rewrite length_app_str in Hf. destruct p; simpl in *; [done|lia].
Qed.

Lemma trim_start_pats_stripped pats s :
  Forall (fun p => is_empty p = false) pats ->
  strip_one pats (trim_start_pats pats s) = None.
Proof. intros H. by apply trim_start_fuel_enough. Qed.

Lemma trim_start_pats_id pats s : strip_one pats s = None -> trim_start_pats pats s = s.
Proof.
  intros H. unfold trim_start_pats. destruct (String.length s); simpl; [done|]. by rewrite H.
Qed.

(** A trimmed string is a suffix of the original. *)
Lemma trim_start_pats_suffix pats s : exists p, s = p +:+ trim_start_pats pats s.
Proof.
  unfold trim_start_pats. generalize (String.length s) as fuel. intros fuel. revert s.
  induction fuel as [|fuel IH]; intros s; simpl; [by exists ""|].
  destruct (strip_one pats s) as [r|] eqn:E; [|by exists ""].
  apply strip_one_Some in E as [p [_ ->]]. destruct (IH r) as [q Hq].
  exists (p +:+ q). by rewrite app_str_assoc, <- Hq.
Qed.

Lemma trim_end_pats_id pats s :
  strip_one (srev <$> pats) (srev s) = None -> trim_end_pats pats s = s.
Proof. intros H. unfold trim_end_pats. by rewrite trim_start_pats_id, srev_involutive. Qed.

(** A prefix of a string without leading pattern has no leading pattern. *)
Lemma strip_one_prefix pats s w : strip_one pats (s +:+ w) = None -> strip_one pats s = None.
Proof.
  unfold strip_one. induction pats as [|p pats IH]; simpl; [done|].
  destruct (strip_prefix p s) as [r|] eqn:E; [|by destruct (strip_prefix p (s +:+ w))].
  apply strip_prefix_Some in E as ->. rewrite app_str_assoc.
  by rewrite (proj2 (strip_prefix_Some p _ _) eq_refl).
Qed.

Lemma trim_end_pats_prefix pats s : exists w, s = trim_end_pats pats s +:+ w.
Proof.
  unfold trim_end_pats. destruct (trim_start_pats_suffix (srev <$> pats) (srev s)) as [p Hp].
  exists (srev p). apply (f_equal srev) in Hp. by rewrite srev_involutive, srev_app_str in Hp.
Qed.

Lemma is_empty_srev s : is_empty (srev s) = is_empty s.
Proof.
  destruct s as [|a s]; [done|]. rewrite srev_cons. by destruct (srev s).
Qed.

Lemma white_space_nonempty : Forall (fun p => is_empty p = false) white_space.
Proof. by repeat constructor. Qed.

Lemma srev_pats_nonempty pats :
  Forall (fun p => is_empty p = false) pats -> Forall (fun p => is_empty p = false) (srev <$> pats).
Proof. intros H. rewrite Forall_fmap. eapply Forall_impl; [exact H|]. intros p Hp. simpl. by rewrite is_empty_srev. Qed.

Lemma trim_end_pats_stripped pats s :
  Forall (fun p => is_empty p = false) pats ->
  strip_one (srev <$> pats) (srev (trim_end_pats pats s)) = None.
Proof.
  intros H. unfold trim_end_pats. rewrite srev_involutive.
  by apply trim_start_pats_stripped, srev_pats_nonempty.
Qed.

Lemma trim_start_trim s : strip_one white_space (trim s) = None.
Proof.
  unfold trim. destruct (trim_end_pats_prefix white_space (trim_start s)) as [w Hw].
  apply (strip_one_prefix _ _ w). unfold trim_end. rewrite <- Hw.
  apply trim_start_pats_stripped, white_space_nonempty.
Qed.

(** [trim] is idempotent. *)
Lemma trim_idemp s : trim (trim s) = trim s.
Proof.
  unfold trim at 1. unfold trim_start at 1.
  rewrite trim_start_pats_id by apply trim_start_trim.
  apply trim_end_pats_id, trim_end_pats_stripped, white_space_nonempty.
Qed.

Lemma strip_one_single p s : strip_one [p] s = strip_prefix p s.
Proof. unfold strip_one. simpl. by destruct (strip_prefix p s). Qed.

Lemma strip_one_end p s :
  strip_one (srev <$> [p]) (srev s) = None <-> ends_with s p = false.
Proof.
  change (srev <$> [p]) with [srev p]. rewrite strip_one_single.
  unfold ends_with, starts_with. by destruct (strip_prefix (srev p) (srev s)).
Qed.

Lemma ends_with_false_strip s p : ends_with s p = false -> trim_end_matches p s = s.
Proof. intros H. apply trim_end_pats_id. by apply strip_one_end. Qed.

Lemma trim_end_matches_prefix p s : exists w, s = trim_end_matches p s +:+ w.
Proof. apply trim_end_pats_prefix. Qed.

Lemma trim_end_matches_not_ends s p :
  is_empty p = false -> ends_with (trim_end_matches p s) p = false.
Proof.
  intros H. apply strip_one_end, trim_end_pats_stripped. by repeat constructor.
Qed.

(** Two slash-terminated prefixes of one path are nested. *)
Lemma path_prefixes_nested c d b r u :
  d +:+ String c r = b +:+ String c u ->
  b = d \/ starts_with b (d +:+ String c "") = true \/ starts_with d (b +:+ String c "") = true.
Proof.
  revert b. induction d as [|a d IH]; intros [|a' b]; rewrite ?app_str_cons, ?app_str_nil_l;
    intros H.
  - by left.
  - injection H as -> _. right; left. apply starts_with_spec. by exists b.
  - injection H as <- _. right; right. apply starts_with_spec. by exists d.
  - injection H as -> H. unfold starts_with in *. simpl.
    rewrite Ascii.eqb_refl. destruct (IH _ H) as [->|?]; [by left|right]. done.
Qed.

Lemma starts_with_trans a b c :
  starts_with a b = true -> starts_with b c = true -> starts_with a c = true.
Proof.
  rewrite !starts_with_spec. intros [r ->] [q ->]. exists (q +:+ r). by rewrite app_str_assoc.
Qed.

Lemma contains_char_app s t c :
  contains_char (s +:+ t) c = contains_char s c || contains_char t c.
Proof.
  induction s as [|a s IH]; [done|]. rewrite app_str_cons. simpl. by rewrite IH, orb_assoc.
Qed.

Lemma contains_char_false s c :
  contains_char s c = false <-> Forall (fun a => a <> c) (as_bytes s).
Proof.
  unfold as_bytes. induction s as [|a s IH]; simpl; [by split|].
  rewrite orb_false_iff, IH, Forall_cons, Ascii.eqb_neq. done.
Qed.

Lemma app_str_inj_r_length a b s t :
  String.length s = String.length t -> a +:+ s = b +:+ t -> a = b /\ s = t.
Proof.
  intros Hl. revert b. induction a as [|x a IH]; intros [|y b] E.
  - done.
  - exfalso. apply (f_equal String.length) in E. rewrite !length_app_str in E. simpl in E. lia.
  - exfalso. apply (f_equal String.length) in E. rewrite !length_app_str in E. simpl in E. lia.
  - rewrite !app_str_cons in E. injection E as -> E. by destruct (IH b E) as [-> ->].
Qed.
