(* ===== verification/Bytes.v ===== *)
(** * Bytes: little-endian integers and UTF-8

    Bytes are [Z] in [0, 256), as in [Disk].  [to_le] and [from_le] are
    [u32::to_le_bytes], [u64::to_le_bytes] and their inverses.  UTF-8 follows the table of
    well-formed byte sequences: [utf8_next] reads one unit, from which [String::from_utf8],
    its error, [String::from_utf8_lossy] and [str::chars] are defined. *)
From Stdlib Require Import Numbers.DecimalString.
From S2P Require Import Prelude Order Text.

(** ** Strings as bytes *)
Definition str_bytes (s : string) : list Z := (fun a => Z.of_N (N_of_ascii a)) <$> as_bytes s.
Definition bytes_str (l : list Z) : string :=
  string_of_list_ascii ((fun b => ascii_of_N (Z.to_N b)) <$> l).

Lemma bytes_str_bytes s : bytes_str (str_bytes s) = s.
Proof.
  unfold bytes_str, str_bytes, as_bytes. rewrite <- list_fmap_compose.
  rewrite <- (string_of_list_ascii_of_string s) at 2. f_equal.
  induction (list_ascii_of_string s) as [|a l IH]; [done|]. rewrite fmap_cons, IH. f_equal.
  unfold compose. rewrite N2Z.id. apply ascii_N_embedding.
Qed.

Lemma str_bytes_inj s t : str_bytes s = str_bytes t -> s = t.
Proof. intros Heq. by rewrite <- (bytes_str_bytes s), Heq, bytes_str_bytes. Qed.

Lemma length_str_bytes s : length (str_bytes s) = String.length s.
Proof. unfold str_bytes, as_bytes. rewrite length_fmap. by induction s; simpl; [|f_equal]. Qed.

Lemma str_bytes_app s t : str_bytes (s +:+ t) = str_bytes s ++ str_bytes t.
Proof. unfold str_bytes, as_bytes. by rewrite list_ascii_of_string_app, fmap_app. Qed.

(** ** Little-endian integers *)
Fixpoint to_le (n : nat) (v : Z) : list Z :=
  match n with 0 => [] | S n => (v mod 256)%Z :: to_le n (v / 256)%Z end.
Definition from_le (l : list Z) : Z := foldr (fun b v => b + 256 * v)%Z 0%Z l.

Lemma length_to_le n v : length (to_le n v) = n.
Proof. revert v. induction n as [|n IH]; intros v; simpl; [done|by rewrite IH]. Qed.

Lemma from_to_le n v : (0 <= v < 256 ^ Z.of_nat n)%Z -> from_le (to_le n v) = v.
Proof.
  revert v. induction n as [|n IH]; intros v Hv; [simpl in *; lia|].
  rewrite Nat2Z.inj_succ, Z.pow_succ_r in Hv by lia. simpl.
  change (foldr _ _ ?l) with (from_le l). rewrite IH.
  - pose proof (Z.div_mod v 256). lia.
  - split; [apply Z.div_pos; lia|]. apply Z.div_lt_upper_bound; lia.
Qed.

(** ** UTF-8 *)
Definition in_range (lo hi b : Z) : bool := (lo <=? b)%Z && (b <=? hi)%Z.
Definition utf8_tail : Z -> bool := in_range 128 191.

(** The second byte after a first byte of three or four. *)
Definition utf8_second (b0 : Z) : Z -> bool :=
  if (b0 =? 224)%Z then in_range 160 191
  else if (b0 =? 237)%Z then in_range 128 159
  else if (b0 =? 240)%Z then in_range 144 191
  else if (b0 =? 244)%Z then in_range 128 143
  else utf8_tail.

(** A scalar value and its length, an ill-formed sequence and its length, or a sequence
    that the end of the input cuts off. *)
Inductive utf8_unit := Scalar (c : Z) (n : nat) | Malformed (n : nat) | Truncated.

Definition utf8_next (l : list Z) : utf8_unit :=
  match l with
  | [] => Truncated
  | b0 :: l =>
      if in_range 0 127 b0 then Scalar b0 1
      else if in_range 194 223 b0 then
        match l with
        | [] => Truncated
        | b1 :: _ => if utf8_tail b1 then Scalar ((b0 - 192) * 64 + (b1 - 128)) 2 else Malformed 1
        end
      else if in_range 224 239 b0 then
        match l with
        | [] => Truncated
        | b1 :: l =>
            if negb (utf8_second b0 b1) then Malformed 1
            else match l with
                 | [] => Truncated
                 | b2 :: _ =>
                     if utf8_tail b2
                     then Scalar (((b0 - 224) * 64 + (b1 - 128)) * 64 + (b2 - 128)) 3
                     else Malformed 2
                 end
        end
      else if in_range 240 244 b0 then
        match l with
        | [] => Truncated
        | b1 :: l =>
            if negb (utf8_second b0 b1) then Malformed 1
            else match l with
                 | [] => Truncated
                 | b2 :: l =>
                     if negb (utf8_tail b2) then Malformed 2
                     else match l with
                          | [] => Truncated
                          | b3 :: _ =>
                              if utf8_tail b3
                              then Scalar ((((b0 - 240) * 64 + (b1 - 128)) * 64
                                            + (b2 - 128)) * 64 + (b3 - 128)) 4
                              else Malformed 3
                          end
                 end
        end
      else Malformed 1
  end.

(** [Utf8Error]: [valid_up_to] and [error_len]. *)
Record Utf8Error := { valid_up_to : nat; error_len : option nat }.

Definition show_utf8_error (e : Utf8Error) : string :=
  match error_len e with
  | Some n => "invalid utf-8 sequence of " +:+ show_Z (Z.of_nat n) +:+ " bytes from index "
              +:+ show_Z (Z.of_nat (valid_up_to e))
  | None => "incomplete utf-8 byte sequence from index " +:+ show_Z (Z.of_nat (valid_up_to e))
  end.

(** The scalar values of [l], which starts at index [i]. *)
Fixpoint utf8_decode_from (fuel i : nat) (l : list Z) : result Utf8Error (list Z) :=
  match fuel, l with
  | _, [] => Ok []
  | 0, _ => Err {| valid_up_to := i; error_len := None |}
  | S fuel, _ =>
      match utf8_next l with
      | Scalar c n => result_map (cons c) (utf8_decode_from fuel (i + n) (drop n l))
      | Malformed n => Err {| valid_up_to := i; error_len := Some n |}
      | Truncated => Err {| valid_up_to := i; error_len := None |}
      end
  end.
Definition utf8_decode (l : list Z) : result Utf8Error (list Z) :=
  utf8_decode_from (length l) 0 l.

Definition from_utf8 (l : list Z) : result Utf8Error string :=
  result_map (fun _ => bytes_str l) (utf8_decode l).

Definition replacement : list Z := [239; 191; 189]%Z.

Fixpoint from_utf8_lossy_fuel (fuel : nat) (l : list Z) : list Z :=
  match fuel, l with
  | _, [] | 0, _ => []
  | S fuel, _ =>
      match utf8_next l with
      | Scalar _ n => take n l ++ from_utf8_lossy_fuel fuel (drop n l)
      | Malformed n => replacement ++ from_utf8_lossy_fuel fuel (drop n l)
      | Truncated => replacement
      end
  end.
Definition from_utf8_lossy (l : list Z) : string :=
  bytes_str (from_utf8_lossy_fuel (length l) l).

(** [str::chars], on a string that is UTF-8. *)
Definition chars (s : string) : list Z :=
  match utf8_decode (str_bytes s) with Ok cs => cs | Err _ => [] end.

Definition is_scalar (c : Z) : Prop := (0 <= c < 55296 \/ 57344 <= c < 1114112)%Z.

Definition encode_utf8 (c : Z) : list Z :=
  if (c <? 128)%Z then [c]
  else if (c <? 2048)%Z then [192 + c / 64; 128 + c mod 64]%Z
  else if (c <? 65536)%Z then [224 + c / 4096; 128 + c / 64 mod 64; 128 + c mod 64]%Z
  else [240 + c / 262144; 128 + c / 4096 mod 64; 128 + c / 64 mod 64; 128 + c mod 64]%Z.

(** [char::len_utf8] *)
Definition len_utf8 (c : Z) : nat := length (encode_utf8 c).

(** [cs.iter().collect::<String>()] *)
Definition chars_string (cs : list Z) : string := bytes_str (mjoin (encode_utf8 <$> cs)).

(** ** Laws *)
Lemma str_bytes_str l : Forall (fun b => 0 <= b < 256)%Z l -> str_bytes (bytes_str l) = l.
Proof.
  intros Hl. unfold str_bytes, bytes_str, as_bytes.
  rewrite list_ascii_of_string_of_list_ascii, <- list_fmap_compose.
  rewrite <- (list_fmap_id l) at 2. apply list_fmap_ext. intros i b Hb.
  rewrite Forall_lookup in Hl. specialize (Hl i b Hb). unfold compose.
  rewrite N_ascii_embedding by lia. rewrite Z2N.id by lia. done.
Qed.

Lemma str_bytes_range s : Forall (fun b => 0 <= b < 256)%Z (str_bytes s).
Proof.
  unfold str_bytes, as_bytes. rewrite Forall_fmap. apply Forall_true. intros a. simpl.
  pose proof (N_ascii_bounded a). lia.
Qed.

Ltac utf8_bounds := Z.to_euclidean_division_equations; lia.

Lemma in_range_true lo hi b : (lo <= b <= hi)%Z -> in_range lo hi b = true.
Proof. unfold in_range. intros ?. apply andb_true_intro. split; apply Z.leb_le; lia. Qed.
Lemma in_range_false lo hi b : ~ (lo <= b <= hi)%Z -> in_range lo hi b = false.
Proof.
  unfold in_range. intros Hb. apply andb_false_iff.
  destruct (Z.leb_spec lo b); [right|by left]. apply Z.leb_gt. lia.
Qed.

Ltac utf8_range :=
  repeat first [ rewrite in_range_true by utf8_bounds | rewrite in_range_false by utf8_bounds ].

Lemma utf8_second_three c :
  (2048 <= c < 65536)%Z -> is_scalar c ->
  utf8_second (224 + c / 4096) (128 + c / 64 mod 64) = true.
Proof.
  intros Hc Hs. unfold utf8_second, is_scalar in *.
  destruct (Z.eqb_spec (224 + c / 4096) 224); [apply in_range_true; utf8_bounds|].
  destruct (Z.eqb_spec (224 + c / 4096) 237); [apply in_range_true; utf8_bounds|].
  destruct (Z.eqb_spec (224 + c / 4096) 240); [utf8_bounds|].
  destruct (Z.eqb_spec (224 + c / 4096) 244); [utf8_bounds|].
  apply in_range_true; utf8_bounds.
Qed.

Lemma utf8_second_four c :
  (65536 <= c < 1114112)%Z -> utf8_second (240 + c / 262144) (128 + c / 4096 mod 64) = true.
Proof.
  intros Hc. unfold utf8_second.
  destruct (Z.eqb_spec (240 + c / 262144) 224); [utf8_bounds|].
  destruct (Z.eqb_spec (240 + c / 262144) 237); [utf8_bounds|].
  destruct (Z.eqb_spec (240 + c / 262144) 240); [apply in_range_true; utf8_bounds|].
  destruct (Z.eqb_spec (240 + c / 262144) 244); [apply in_range_true; utf8_bounds|].
  apply in_range_true; utf8_bounds.
Qed.

Lemma utf8_next_encode c l :
  is_scalar c -> utf8_next (encode_utf8 c ++ l) = Scalar c (len_utf8 c).
Proof.
  intros Hc. unfold len_utf8, encode_utf8.
  destruct (Z.ltb_spec c 128).
  { unfold is_scalar in Hc. simpl. by utf8_range. }
  destruct (Z.ltb_spec c 2048).
  { cbn [utf8_next app length]. unfold utf8_tail. utf8_range. f_equal. utf8_bounds. }
  destruct (Z.ltb_spec c 65536).
  { cbn [utf8_next app length]. rewrite utf8_second_three by done. unfold utf8_tail. utf8_range.
    simpl negb. cbv iota. f_equal. utf8_bounds. }
  assert (65536 <= c < 1114112)%Z by (unfold is_scalar in Hc; lia).
  cbn [utf8_next app length]. rewrite utf8_second_four by done. unfold utf8_tail. utf8_range.
  simpl negb. cbv iota. f_equal. utf8_bounds.
Qed.

Lemma encode_snoc cs c :
  length (mjoin (encode_utf8 <$> cs ++ [c])) = length (mjoin (encode_utf8 <$> cs)) + len_utf8 c.
Proof.
  induction cs as [|d cs IH].
  - simpl. by rewrite app_nil_r.
  - rewrite <- app_comm_cons, !fmap_cons. simpl mjoin. rewrite !length_app, IH. lia.
Qed.

Lemma len_utf8_bounds c : 1 <= len_utf8 c <= 4.
Proof. unfold len_utf8, encode_utf8. repeat case_match; simpl; lia. Qed.

Lemma encode_utf8_range c : is_scalar c -> Forall (fun b => 0 <= b < 256)%Z (encode_utf8 c).
Proof.
  unfold is_scalar, encode_utf8. intros Hc.
  destruct (Z.ltb_spec c 128); [repeat constructor; lia|].
  destruct (Z.ltb_spec c 2048); [repeat constructor; utf8_bounds|].
  destruct (Z.ltb_spec c 65536); repeat constructor; utf8_bounds.
Qed.

Lemma utf8_decode_from_encode cs fuel i :
  Forall is_scalar cs -> length (mjoin (encode_utf8 <$> cs)) <= fuel ->
  utf8_decode_from fuel i (mjoin (encode_utf8 <$> cs)) = Ok cs.
Proof.
  intros Hcs. revert fuel i. induction Hcs as [|c cs Hc _ IH]; intros fuel i Hfuel.
  { by destruct fuel. }
  rewrite fmap_cons in *. simpl mjoin in *. rewrite length_app in Hfuel.
  pose proof (len_utf8_bounds c) as Hl. unfold len_utf8 in Hl.
  destruct fuel as [|fuel]; [lia|]. simpl utf8_decode_from.
  rewrite utf8_next_encode by done. unfold len_utf8.
  destruct (encode_utf8 c ++ mjoin (encode_utf8 <$> cs)) eqn:E.
  { destruct (encode_utf8 c); [simpl in Hl; lia|done]. }
  rewrite <- E, drop_app_length, IH by lia. done.
Qed.

Lemma chars_string_range cs :
  Forall is_scalar cs -> Forall (fun b => 0 <= b < 256)%Z (mjoin (encode_utf8 <$> cs)).
Proof.
  induction 1 as [|c cs Hc _ IH]; [constructor|]. rewrite fmap_cons. apply Forall_app.
  split; [by apply encode_utf8_range|exact IH].
Qed.

(** A text and its scalar values determine each other. *)
Lemma chars_of_string cs : Forall is_scalar cs -> chars (chars_string cs) = cs.
Proof.
  intros Hcs. unfold chars, chars_string. rewrite str_bytes_str by (by apply chars_string_range).
  unfold utf8_decode. by rewrite utf8_decode_from_encode.
Qed.

(** The strings of a Rust program. *)
Definition is_utf8 (s : string) : Prop := is_ok (utf8_decode (str_bytes s)) = true.

Lemma chars_string_utf8 cs : Forall is_scalar cs -> is_utf8 (chars_string cs).
Proof.
  intros Hcs. unfold is_utf8, chars_string. rewrite str_bytes_str by (by apply chars_string_range).
  unfold utf8_decode. by rewrite utf8_decode_from_encode.
Qed.

Lemma from_utf8_str s : is_utf8 s -> from_utf8 (str_bytes s) = Ok s.
Proof.
  unfold is_utf8, from_utf8. destruct (utf8_decode (str_bytes s)); [|done]. intros _. simpl.
  by rewrite bytes_str_bytes.
Qed.

Lemma in_range_spec lo hi b : in_range lo hi b = true <-> (lo <= b <= hi)%Z.
Proof. unfold in_range. rewrite andb_true_iff, !Z.leb_le. done. Qed.

Lemma utf8_second_spec b0 b1 :
  utf8_second b0 b1 = true ->
  (128 <= b1 <= 191 /\ (b0 = 224 -> 160 <= b1) /\ (b0 = 237 -> b1 <= 159) /\
   (b0 = 240 -> 144 <= b1) /\ (b0 = 244 -> b1 <= 143))%Z.
Proof.
  unfold utf8_second, utf8_tail.
  destruct (Z.eqb_spec b0 224), (Z.eqb_spec b0 237), (Z.eqb_spec b0 240), (Z.eqb_spec b0 244);
    rewrite in_range_spec; lia.
Qed.

(** Decoding only gives scalar values: no surrogates, no overlong forms. *)
Lemma utf8_next_scalar l c n : utf8_next l = Scalar c n -> is_scalar c.
Proof.
  unfold utf8_next, is_scalar. destruct l as [|b0 l]; [done|].
  destruct (in_range 0 127 b0) eqn:E0; [apply in_range_spec in E0; intros [= <- _]; lia|].
  destruct (in_range 194 223 b0) eqn:E1; [apply in_range_spec in E1|].
  { destruct l as [|b1 l]; [done|]. destruct (utf8_tail b1) eqn:Ht; [|done].
    apply in_range_spec in Ht. intros [= <- _]. lia. }
  destruct (in_range 224 239 b0) eqn:E2; [apply in_range_spec in E2|].
  { destruct l as [|b1 [|b2 l]]; [done| |]; destruct (utf8_second b0 b1) eqn:H1; try done.
    simpl. destruct (utf8_tail b2) eqn:Ht; [|done]. apply in_range_spec in Ht.
    apply utf8_second_spec in H1. intros [= <- _]. lia. }
  destruct (in_range 240 244 b0) eqn:E3; [apply in_range_spec in E3|done].
  destruct l as [|b1 l]; [done|]. destruct (utf8_second b0 b1) eqn:H1; [|done]. simpl.
  destruct l as [|b2 l]; [done|]. destruct (utf8_tail b2) eqn:H2; [|done]. simpl.
  destruct l as [|b3 l]; [done|]. destruct (utf8_tail b3) eqn:H3; [|done].
  apply in_range_spec in H2, H3. apply utf8_second_spec in H1. intros [= <- _]. lia.
Qed.

Lemma utf8_decode_scalar fuel i l cs :
  utf8_decode_from fuel i l = Ok cs -> Forall is_scalar cs.
Proof.
  revert i l cs. induction fuel as [|fuel IH]; intros i l cs E; destruct l as [|b l]; cbn [utf8_decode_from] in E;
    try (injection E as <-; constructor); [done|].
  destruct (utf8_next (b :: l)) as [c n|n|] eqn:En; try done.
  destruct (utf8_decode_from fuel (i + n) (drop n (b :: l))) as [cs'|] eqn:E'; [|done].
  injection E as <-. constructor; [by eapply utf8_next_scalar|by eapply IH].
Qed.

Lemma chars_scalar s : Forall is_scalar (chars s).
Proof.
  unfold chars, utf8_decode. destruct (utf8_decode_from _ _ _) as [cs|e] eqn:E; [|constructor].
  by eapply utf8_decode_scalar.
Qed.
