(* ===== verification/SourceSelection.v ===== *)
(** * Source selection (src/source_selection.rs)

    The policy shared by the scanner and the refresh watcher: which relative paths
    are eligible source files, and which directories are worth walking.  The byte
    matcher [wildcard_match_bytes] is the code's two-index loop with its last-star
    backtracking; it is proved against the declarative relation [glob]. *)
From S2P Require Import Prelude Order Text.

Definition star : ascii := "*"%char.
Definition qmark : ascii := "?"%char.
Definition slash : ascii := "/"%char.
Definition backslash : ascii := "\"%char.

(** ** The wildcard loop *)
Record match_state := MatchState {
  text_index : nat;
  pattern_index : nat;
  star_index : option nat;
  match_index : nat
}.

Definition match_init : match_state := MatchState 0 0 None 0.

Definition char_matches (p t : ascii) : bool := Ascii.eqb p qmark || Ascii.eqb p t.

(** One iteration of the [while text_index < text.len()] loop: the next state, or
    [false] when the function returns. *)
Definition match_step (text pattern : list ascii) (st : match_state) : option match_state :=
  let '(MatchState ti pi si mi) := st in
  match text !! ti, pattern !! pi with
  | Some t, Some p =>
      if char_matches p t then Some (MatchState (S ti) (S pi) si mi)
      else if Ascii.eqb p star then Some (MatchState ti (S pi) (Some pi) ti)
      else match si with
           | Some s => Some (MatchState (S mi) (S s) si (S mi))
           | None => None
           end
  | _, _ => match si with
            | Some s => Some (MatchState (S mi) (S s) si (S mi))
            | None => None
            end
  end.

(** The trailing [while] loop over the stars that end the pattern. *)
Fixpoint skip_stars (p : list ascii) : list ascii :=
  match p with
  | c :: p' => if Ascii.eqb c star then skip_stars p' else p
  | [] => []
  end.

Fixpoint match_loop (fuel : nat) (text pattern : list ascii) (st : match_state) : option bool :=
  if decide (text_index st < length text) then
    match fuel with
    | O => None
    | S fuel =>
        match match_step text pattern st with
        | Some st' => match_loop fuel text pattern st'
        | None => Some false
        end
    end
  else Some (list_is_empty (skip_stars (drop (pattern_index st) pattern))).

Definition match_fuel (text pattern : list ascii) : nat :=
  S (length text) * (length text + length pattern + 1) + length text + length pattern.

Definition wildcard_match_bytes (text pattern : list ascii) : bool :=
  default false (match_loop (match_fuel text pattern) text pattern match_init).

Definition wildcard_match (text pattern : string) : bool :=
  wildcard_match_bytes (as_bytes text) (as_bytes pattern).

(** ** Paths and patterns *)
Definition GENERATED_PARTS : list string := [".astro"; ".kwiki"; ".scryer"].

Definition normalize_relative_path (path : string) : string :=
  trim_matches "/" (replace_char backslash slash (trim_start_matches "./" (trim path))).

Definition normalize_relative_pattern (pattern : string) : string :=
  replace_char backslash slash (trim_start_matches "./" (trim pattern)).

Fixpoint any_generated_part (parts : list string) : bool :=
  match parts with
  | [] => false
  | part :: rest =>
      is_one_of part GENERATED_PARTS
      || (starts_with part "dist-" && negb (list_is_empty rest))
      || any_generated_part rest
  end.

Definition is_generated_path (relative : string) : bool :=
  any_generated_part (split slash relative).

Definition is_generated_directory (relative : string) : bool :=
  existsb (fun part => is_one_of part GENERATED_PARTS || starts_with part "dist-")
    (split slash relative).

Definition glob_matches (path pattern : string) : bool :=
  let pattern := normalize_relative_pattern pattern in
  if ends_with pattern "/" then
    let directory := trim_end_matches "/" pattern in
    String.eqb path directory || starts_with path (directory +:+ "/")
  else if negb (contains_char pattern slash) && wildcard_match (last_piece slash path) pattern
  then true
  else wildcard_match path pattern.

Definition matches_any_pattern (path : string) (patterns : list string) : bool :=
  existsb (fun pattern =>
      let pattern := trim pattern in
      negb (is_empty pattern) && negb (starts_with pattern "#") && glob_matches path pattern)
    patterns.

(** [pattern.find(['*', '?'])] and the slice before it. *)
Fixpoint literal_prefix (p : string) : string :=
  match p with
  | EmptyString => ""
  | String c p' =>
      if Ascii.eqb c star || Ascii.eqb c qmark then "" else String c (literal_prefix p')
  end.
Definition has_wildcard (p : string) : bool := contains_char p star || contains_char p qmark.

Definition pattern_may_match_descendant (directory pattern : string) : bool :=
  let pattern := normalize_relative_pattern pattern in
  if is_empty pattern || starts_with pattern "#" then false
  else if ends_with pattern "/" then
    let base := trim_end_matches "/" pattern in
    String.eqb base directory || starts_with base (directory +:+ "/")
    || starts_with directory (base +:+ "/")
  else if negb (contains_char pattern slash) then true
  else
    let lit := literal_prefix pattern in
    if is_empty lit then true
    else
      let prefix := trim_end_matches "/" lit in
      if has_wildcard pattern && starts_with directory prefix then true
      else String.eqb prefix directory || starts_with prefix (directory +:+ "/")
           || starts_with directory (prefix +:+ "/").

Definition patterns_prove_directory_excluded (directory : string) (patterns : list string) : bool :=
  existsb (fun pattern =>
      let pattern := trim pattern in
      if is_empty pattern || starts_with pattern "#" then false
      else
        let normalized := normalize_relative_pattern pattern in
        if ends_with normalized "/" then
          String.eqb directory (trim_end_matches "/" normalized)
        else match strip_suffix "/**" normalized with
             | Some base => String.eqb directory base
             | None => false
             end)
    patterns.

(** ** The policy *)
Record SourceSelection := {
  excluded_parts : gset string;
  include_patterns : list string;
  exclude_patterns : list string;
  ignore_patterns : list string
}.

Definition has_hard_excluded_part (sel : SourceSelection) (relative : string) : bool :=
  existsb (fun part => bool_decide (part ∈ excluded_parts sel)) (split slash relative).

Definition includes_file (sel : SourceSelection) (relative : string) : bool :=
  let relative := normalize_relative_path relative in
  if is_empty relative || has_hard_excluded_part sel relative then false
  else
    let explicitly_included := matches_any_pattern relative (include_patterns sel) in
    if negb (list_is_empty (include_patterns sel)) && negb explicitly_included then false
    else if is_generated_path relative && negb explicitly_included then false
    else negb (matches_any_pattern relative (ignore_patterns sel))
         && negb (matches_any_pattern relative (exclude_patterns sel)).

Definition should_descend (sel : SourceSelection) (relative : string) : bool :=
  let relative := normalize_relative_path relative in
  if is_empty relative || has_hard_excluded_part sel relative then false
  else if is_generated_directory relative
          && (list_is_empty (include_patterns sel)
              || negb (existsb (pattern_may_match_descendant relative) (include_patterns sel)))
  then false
  else if negb (list_is_empty (include_patterns sel))
          && negb (existsb (pattern_may_match_descendant relative) (include_patterns sel))
  then false
  else if patterns_prove_directory_excluded relative (ignore_patterns sel)
          || patterns_prove_directory_excluded relative (exclude_patterns sel)
  then false
  else true.

(** ** What a wildcard pattern means *)
Inductive glob : list ascii -> list ascii -> Prop :=
| glob_nil : glob [] []
| glob_star_empty p t : glob p t -> glob (star :: p) t
| glob_star_more p c t : glob (star :: p) t -> glob (star :: p) (c :: t)
| glob_char c d p t : c <> star -> char_matches c d = true -> glob p t -> glob (c :: p) (d :: t).

#[local] Hint Constructors glob : core.

Lemma glob_char_inv c d p t :
  c <> star -> glob (c :: p) (d :: t) <-> char_matches c d = true /\ glob p t.
Proof.
  intros Hc. split; [|intros [? ?]; by constructor].
  inversion 1; subst; [done|done|]. done.
Qed.

Lemma glob_char_nil c p : c <> star -> ~ glob (c :: p) [].
Proof. intros Hc H. by inversion H. Qed.

Lemma glob_star_drop p t : glob (star :: p) t <-> exists k, glob p (drop k t).
Proof.
  split.
  - intros H. remember (star :: p) as q eqn:Hq. induction H as [|p' t H _|p' c t H IH|]; try done.
    + exists 0. rewrite drop_0. congruence.
    + destruct (IH Hq) as [k Hk]. by exists (S k).
    + congruence.
  - intros [k Hk]. revert k Hk. induction t as [|c t IH]; intros k Hk.
    + apply glob_star_empty. by rewrite drop_nil in Hk.
    + destruct k as [|k]; [by apply glob_star_empty|]. apply glob_star_more. by apply (IH k).
Qed.

(** A star absorbs any further prefix of the text. *)
Lemma glob_star_weaken p s t : glob (star :: p) t -> glob (star :: p) (s ++ t).
Proof. induction s; simpl; auto. Qed.

(** A star-free stretch of pattern against an equally long stretch of text. *)
Definition seg_match : list ascii -> list ascii -> Prop :=
  Forall2 (fun c d => c <> star /\ char_matches c d = true).

Lemma glob_seg sg s x y : seg_match sg s -> glob (sg ++ x) (s ++ y) <-> glob x y.
Proof.
  induction 1 as [|c d sg s [Hc Hm] _ IH]; simpl; [done|].
  rewrite glob_char_inv by done. tauto.
Qed.

Lemma glob_seg_split sg x t :
  Forall (fun c => c <> star) sg -> glob (sg ++ x) t ->
  exists s y, t = s ++ y /\ seg_match sg s /\ glob x y.
Proof.
  intros H. revert t. induction H as [|c sg Hc _ IH]; simpl; intros t Hg.
  - exists [], t. repeat split; [constructor|done].
  - destruct t as [|d t]; [by apply glob_char_nil in Hg|].
    apply glob_char_inv in Hg as [Hm Hg]; [|done].
    destruct (IH _ Hg) as (s & y & -> & Hs & Hy).
    exists (d :: s), y. repeat split; [|done]. by constructor.
Qed.

Lemma seg_match_star_free sg s : seg_match sg s -> Forall (fun c => c <> star) sg.
Proof. induction 1 as [|? ? ? ? [? ?]]; by constructor. Qed.

Lemma glob_nil_skip_stars p : glob p [] <-> skip_stars p = [].
Proof.
  induction p as [|c p IH]; simpl; [split; auto|].
  destruct (Ascii.eqb_spec c star) as [->|Hc].
  - rewrite <- IH, glob_star_drop. setoid_rewrite drop_nil. split; [by intros [_ ?]|].
    intros H. by exists 0.
  - split; [by intros ?%glob_char_nil|done].
Qed.

(** Moving the last star past a matched stretch loses nothing. *)
Lemma glob_star_advance sg s x y :
  seg_match sg s ->
  glob (star :: sg ++ star :: x) (s ++ y) <-> glob (star :: x) y.
Proof.
  intros Hs. split.
  - intros [k Hk]%glob_star_drop.
    apply glob_seg_split in Hk as (s' & y' & Heq & Hs' & Hg); [|by eapply seg_match_star_free].
    apply Forall2_length in Hs, Hs'.
    assert (Hd : drop (k + length s') (s ++ y) = y').
    { by rewrite <- drop_drop, Heq, drop_app_length. }
    rewrite drop_app_ge in Hd by lia.
    rewrite <- (take_drop (k + length s' - length s) y), Hd. by apply glob_star_weaken.
  - intros Hg. apply glob_star_empty. by apply glob_seg.
Qed.

(** ** The loop decides [glob] on texts without a literal star *)
Section loop.
Context (T P : list ascii) (T_star_free : Forall (fun c => c <> star) T).

Definition loop_inv (st : match_state) : Prop :=
  let '(MatchState ti pi si mi) := st in
  ti <= length T /\ pi <= length P /\ mi <= ti /\
  match si with
  | None => glob P T <-> glob (drop pi P) (drop ti T)
  | Some s =>
      S s <= pi /\ exists sg s', drop (S s) P = sg ++ drop pi P /\ drop mi T = s' ++ drop ti T /\
        seg_match sg s' /\ (glob P T <-> glob (star :: drop (S s) P) (drop mi T))
  end.

Definition measure (st : match_state) : nat :=
  (length T - match_index st) * (length T + length P + 1)
  + (length T - text_index st) + (length P - pattern_index st).

Lemma char_matches_not_star c d : d ∈ T -> char_matches c d = true -> c <> star.
Proof.
  rewrite Forall_forall in T_star_free. intros Hd Hm ->.
  unfold char_matches in Hm. apply orb_true_iff in Hm as [Hm|Hm]; [done|].
  apply Ascii.eqb_eq in Hm. by apply (T_star_free d).
Qed.

(** Consuming one matching character. *)
Lemma step_match_inv ti pi si mi d c :
  T !! ti = Some d -> P !! pi = Some c -> char_matches c d = true ->
  loop_inv (MatchState ti pi si mi) -> loop_inv (MatchState (S ti) (S pi) si mi).
Proof.
  intros Ht Hp Hm (Hti & Hpi & Hmi & H).
  pose proof (lookup_lt_Some _ _ _ Ht). pose proof (lookup_lt_Some _ _ _ Hp).
  assert (Hc : c <> star) by (eapply char_matches_not_star; [by eapply list_elem_of_lookup_2|done]).
  rewrite (drop_S _ _ _ Ht), (drop_S _ _ _ Hp) in H.
  repeat split; [lia|lia|lia|]. destruct si as [s|].
  - destruct H as (Hsp & sg & s' & E1 & E2 & E3 & E4). split; [lia|].
    exists (sg ++ [c]), (s' ++ [d]). rewrite <- !app_assoc. repeat split; [done|done| |by apply E4..].
    apply Forall2_app; [done|]. by repeat constructor.
  - rewrite H, glob_char_inv by done. tauto.
Qed.

(** Recording a new star. *)
Lemma step_star_inv ti pi si mi :
  ti < length T -> P !! pi = Some star ->
  loop_inv (MatchState ti pi si mi) -> loop_inv (MatchState ti (S pi) (Some pi) ti).
Proof.
  intros Ht Hp (Hti & Hpi & Hmi & H). pose proof (lookup_lt_Some _ _ _ Hp).
  rewrite (drop_S _ _ _ Hp) in H.
  assert (HG : glob P T <-> glob (star :: drop (S pi) P) (drop ti T)).
  { destruct si as [s|]; [|done]. destruct H as (_ & sg & s' & E1 & E2 & E3 & E4).
    rewrite E4, E1, E2. by apply glob_star_advance. }
  repeat split; [lia|lia|lia|lia|]. exists [], []. split_and!; [done|done|by apply Forall2_nil|apply HG..].
Qed.

(** Backtracking to the last star, which then absorbs one more character. *)
Lemma step_backtrack_inv ti pi s mi :
  ti < length T -> ~ glob (drop pi P) (drop ti T) ->
  loop_inv (MatchState ti pi (Some s) mi) -> loop_inv (MatchState (S mi) (S s) (Some s) (S mi)).
Proof.
  intros Ht Hno (Hti & Hpi & Hmi & Hsp & sg & s' & E1 & E2 & E3 & E4).
  assert (HG : glob P T <-> glob (star :: drop (S s) P) (drop (S mi) T)).
  { destruct (lookup_lt_is_Some_2 T mi ltac:(lia)) as [d Hd].
    rewrite E4, (drop_S _ _ _ Hd). split; [|by apply glob_star_more].
    inversion 1 as [|? ? Hg| |]; subst; [|done|done].
    rewrite <- (drop_S _ _ _ Hd), E1, E2, glob_seg in Hg by done. done. }
  repeat split; [lia|lia|lia|lia|]. exists [], []. split_and!; [done|done|by apply Forall2_nil|apply HG..].
Qed.

(** The mismatch that makes the code backtrack or give up. *)
Lemma mismatch_no_glob ti pi d :
  T !! ti = Some d ->
  match P !! pi with
  | Some c => char_matches c d = false /\ c <> star
  | None => True
  end -> ~ glob (drop pi P) (drop ti T).
Proof.
  intros Ht Hp. rewrite (drop_S _ _ _ Ht). destruct (P !! pi) as [c|] eqn:E.
  - destruct Hp as [Hm Hc]. rewrite (drop_S _ _ _ E), glob_char_inv by done.
    rewrite Hm. by intros [? _].
  - apply lookup_ge_None in E. rewrite drop_ge by done. by inversion 1.
Qed.

Lemma match_step_spec st :
  text_index st < length T -> loop_inv st ->
  match match_step T P st with
  | Some st' => loop_inv st' /\ measure st' < measure st
  | None => ~ glob P T
  end.
Proof.
  destruct st as [ti pi si mi]. simpl. intros Ht Hinv.
  destruct (lookup_lt_is_Some_2 T ti Ht) as [d Hd]. rewrite Hd.
  assert (Hback : ~ glob (drop pi P) (drop ti T) ->
    match (match si with Some s => Some (MatchState (S mi) (S s) si (S mi)) | None => None end) with
    | Some st' => loop_inv st' /\ measure st' < measure (MatchState ti pi si mi)
    | None => ~ glob P T
    end).
  { intros Hno. destruct si as [s|].
    - split; [by eapply step_backtrack_inv|]. destruct Hinv as (? & ? & ? & ? & _).
      unfold measure; simpl. nia.
    - destruct Hinv as (_ & _ & _ & H). by rewrite H. }
  destruct (P !! pi) as [c|] eqn:Hc.
  - destruct (char_matches c d) eqn:Hm.
    + split; [by eapply step_match_inv|]. pose proof (lookup_lt_Some _ _ _ Hc).
      unfold measure; simpl. lia.
    + destruct (Ascii.eqb_spec c star) as [->|Hs].
      * split; [by eapply step_star_inv|]. pose proof (lookup_lt_Some _ _ _ Hc).
        destruct Hinv as (_ & _ & ? & _). unfold measure; simpl. nia.
      * apply Hback. eapply mismatch_no_glob; [done|]. by rewrite Hc.
  - apply Hback. eapply mismatch_no_glob; [done|]. by rewrite Hc.
Qed.

Lemma loop_exit st :
  ~ text_index st < length T -> loop_inv st ->
  glob P T <-> list_is_empty (skip_stars (drop (pattern_index st) P)) = true.
Proof.
  destruct st as [ti pi si mi]. simpl. intros Ht (Hti & Hpi & Hmi & H).
  rewrite list_is_empty_true, <- glob_nil_skip_stars.
  rewrite (drop_ge T ti) in H by lia. destruct si as [s|]; [|done].
  destruct H as (_ & sg & s' & E1 & E2 & E3 & E4). rewrite app_nil_r in E2.
  rewrite E4, E1, E2. split.
  - intros [k Hk]%glob_star_drop.
    apply glob_seg_split in Hk as (s1 & y & Heq & Hs1 & Hy); [|by eapply seg_match_star_free].
    apply Forall2_length in E3, Hs1. apply (f_equal length) in Heq.
    rewrite length_drop, length_app in Heq.
    destruct y; [done|simpl in Heq; lia].
  - intros Hx. apply glob_star_empty. rewrite <- (app_nil_r s'). by apply glob_seg.
Qed.

Lemma match_loop_spec fuel st :
  measure st <= fuel -> loop_inv st ->
  exists b, match_loop fuel T P st = Some b /\ (b = true <-> glob P T).
Proof.
  revert st. induction fuel as [|fuel IH]; intros st Hf Hinv; simpl; case_decide as Ht.
  - destruct st; unfold measure in Hf; simpl in *. lia.
  - eexists. split; [done|]. symmetry. by apply loop_exit.
  - pose proof (match_step_spec st Ht Hinv) as H. destruct (match_step T P st) as [st'|].
    + destruct H as [Hinv' Hm]. apply IH; [lia|done].
    + exists false. split; [done|]. split; [done|]. by intros ?%H.
  - eexists. split; [done|]. symmetry. by apply loop_exit.
Qed.
End loop.

Lemma loop_inv_init T P : loop_inv T P match_init.
Proof. unfold loop_inv, match_init. rewrite !drop_0. repeat split; auto; lia. Qed.

Lemma measure_init T P : measure T P match_init <= match_fuel T P.
Proof. unfold measure, match_fuel; simpl. nia. Qed.

Lemma wildcard_match_bytes_glob T P :
  Forall (fun c => c <> star) T -> wildcard_match_bytes T P = true <-> glob P T.
Proof.
  intros HT. unfold wildcard_match_bytes.
  destruct (match_loop_spec T P HT (match_fuel T P) match_init) as (b & -> & Hb).
  - apply measure_init.
  - apply loop_inv_init.
  - done.
Qed.

(** ** Totality of the loop, for any text *)
Definition in_bounds (T P : list ascii) (st : match_state) : Prop :=
  text_index st <= length T /\ pattern_index st <= length P /\ match_index st <= text_index st /\
  match star_index st with Some s => S s <= pattern_index st | None => True end.

Lemma match_step_bounds T P st st' :
  text_index st < length T -> in_bounds T P st -> match_step T P st = Some st' ->
  in_bounds T P st' /\ measure T P st' < measure T P st.
Proof.
  destruct st as [ti pi si mi]. unfold in_bounds, measure. simpl.
  intros Ht (Hti & Hpi & Hmi & Hs) H.
  assert (Hback : match si with Some s => Some (MatchState (S mi) (S s) si (S mi)) | None => None end
    = Some st' -> in_bounds T P st' /\ measure T P st' < measure T P (MatchState ti pi si mi)).
  { destruct si as [s|]; [|done]. intros [= <-]. unfold in_bounds, measure. simpl. split; [lia|nia]. }
  destruct (T !! ti) as [d|]; [|by apply Hback].
  destruct (P !! pi) as [c|] eqn:Hc; [|by apply Hback].
  pose proof (lookup_lt_Some _ _ _ Hc).
  destruct (char_matches c d); [injection H as <-; simpl; split; [destruct si; lia|lia]|].
  destruct (Ascii.eqb c star); [injection H as <-; simpl; split; [lia|nia]|].
  by apply Hback.
Qed.

Lemma match_loop_total T P fuel st :
  in_bounds T P st -> measure T P st <= fuel -> is_Some (match_loop fuel T P st).
Proof.
  revert st. induction fuel as [|fuel IH]; intros st Hb Hf; simpl; case_decide as Ht; try by eexists.
  - unfold measure in Hf. lia.
  - destruct (match_step T P st) as [st'|] eqn:E; [|by eexists].
    destruct (match_step_bounds _ _ _ _ Ht Hb E) as [Hb' Hm]. apply IH; [done|lia].
Qed.

(** ** Pruning is sound *)
Definition star_free (s : string) : Prop := contains_char s star = false.

Lemma wildcard_match_glob text pattern :
  star_free text -> wildcard_match text pattern = true <-> glob (as_bytes pattern) (as_bytes text).
Proof. intros H. by apply wildcard_match_bytes_glob, contains_char_false. Qed.

Lemma glob_literal_prefix p t :
  glob (as_bytes p) (as_bytes t) ->
  exists u, t = literal_prefix p +:+ u /\ (has_wildcard p = false -> u = "" /\ literal_prefix p = p).
Proof.
  revert t. induction p as [|c p IH]; intros t H.
  - exists t. split; [done|]. intros _. destruct t; [done|by inversion H].
  - simpl in H |- *. unfold has_wildcard. simpl.
    destruct (Ascii.eqb c star) eqn:Es; simpl; [by exists t|].
    destruct (Ascii.eqb c qmark) eqn:Eq; simpl.
    { exists t. split; [done|]. by rewrite orb_true_r. }
    apply Ascii.eqb_neq in Es. destruct t as [|d t]; [by apply glob_char_nil in H|].
    apply glob_char_inv in H as [Hm H]; [|done]. unfold char_matches in Hm.
    rewrite Eq in Hm. apply Ascii.eqb_eq in Hm as ->.
    destruct (IH _ H) as (u & -> & Hu). exists u. split; [done|].
    intros Hw. destruct (Hu Hw) as [-> Hl]. by rewrite Hl.
Qed.

(** The directory of a file, both already in the code's normal form. *)
Definition file_below (d f : string) : Prop :=
  normalize_relative_path d = d /\ normalize_relative_path f = f /\ is_empty d = false /\
  exists r, f = d +:+ "/" +:+ r.

Lemma normalized_not_slash_ended f :
  normalize_relative_path f = f -> ends_with f "/" = false.
Proof. intros <-. by apply trim_end_matches_not_ends. Qed.

Lemma below_nonempty d f : file_below d f -> is_empty f = false.
Proof. intros (_ & _ & Hd & r & ->). by destruct d. Qed.

Lemma normalize_pattern_trim p :
  normalize_relative_pattern (trim p) = normalize_relative_pattern p.
Proof. unfold normalize_relative_pattern. by rewrite trim_idemp. Qed.

Lemma join_last_suffix sep (l : list string) :
  join sep l = default "" (last l)
  \/ exists p, join sep l = p +:+ sep +:+ default "" (last l).
Proof.
  induction l as [|x l IH]; [by left|]. destruct l as [|y l]; [by left|]. right.
  change (last (x :: y :: l)) with (last (y :: l)).
  change (join sep (x :: y :: l)) with (x +:+ sep +:+ join sep (y :: l)).
  destruct IH as [->|[p ->]].
  - by exists x.
  - exists (x +:+ sep +:+ p). by rewrite !app_str_assoc.
Qed.

Lemma last_piece_suffix c s :
  s = last_piece c s \/ exists p, s = p +:+ String c "" +:+ last_piece c s.
Proof.
  pose proof (join_last_suffix (String c "") (split c s)) as H.
  unfold last_piece. rewrite join_split in H. pose proof (split_nonempty c s) as Hn.
  destruct (last (split c s)) eqn:E; [done|]. by apply last_None in E.
Qed.

Lemma glob_nil_text t : glob [] (as_bytes t) -> t = "".
Proof. destruct t; [done|]. by inversion 1. Qed.

(** An empty pattern matches no normalized file below a directory. *)
Lemma empty_pattern_no_match d f p :
  star_free f -> file_below d f -> normalize_relative_pattern p = "" -> glob_matches f p = false.
Proof.
  intros Hsf Hb Hp. unfold glob_matches. rewrite Hp. simpl.
  pose proof (below_nonempty _ _ Hb) as Hne.
  assert (Hw : wildcard_match f "" = false).
  { apply not_true_iff_false. by intros ->%wildcard_match_glob%glob_nil_text. }
  rewrite Hw. simpl. destruct (wildcard_match (last_piece slash f) "") eqn:Hl; [|done].
  destruct Hb as (_ & Hf & _ & _). apply normalized_not_slash_ended in Hf.
  destruct (last_piece_suffix slash f) as [Hs|[q Hq]]; [by rewrite <- Hs, Hw in Hl|].
  apply wildcard_match_glob, glob_nil_text in Hl.
  - rewrite Hl, app_str_nil_r in Hq. exfalso. apply not_true_iff_false in Hf. apply Hf.
    apply ends_with_spec. by exists q.
  - unfold star_free in *. rewrite Hq, !contains_char_app in Hsf.
    by apply orb_false_iff in Hsf as [_ [_ ?]%orb_false_iff].
Qed.

(** An include pattern that matches a file keeps the file's directories. *)
Lemma may_match_sound d f p :
  star_free f -> file_below d f ->
  starts_with (normalize_relative_pattern p) "#" = false ->
  glob_matches f p = true -> pattern_may_match_descendant d p = true.
Proof.
  intros Hsf Hb Hh Hg. unfold pattern_may_match_descendant. rewrite Hh, orb_false_r.
  destruct (is_empty (normalize_relative_pattern p)) eqn:He.
  { rewrite (empty_pattern_no_match d f p) in Hg; [done..|].
    by destruct (normalize_relative_pattern p). }
  unfold glob_matches in Hg. revert Hg. generalize (normalize_relative_pattern p) as q.
  intros q Hg. pose proof Hb as (_ & Hf & _ & r & Hr).
  destruct (ends_with q "/") eqn:Hend.
  - rewrite !orb_true_iff, String.eqb_eq. revert Hg. rewrite orb_true_iff, String.eqb_eq.
    generalize (trim_end_matches "/" q) as base. intros base [->|[u Hu]%starts_with_spec].
    + left; right. rewrite Hr, <- app_str_assoc. apply starts_with_app.
    + rewrite Hr, app_str_assoc in Hu. destruct (path_prefixes_nested _ _ _ _ _ Hu) as [H|[H|H]]; auto.
  - destruct (contains_char q slash) eqn:Hc; [|done]. simpl in Hg |- *.
    apply wildcard_match_glob, glob_literal_prefix in Hg as (u & Hu & Hlit); [|done].
    destruct (is_empty (literal_prefix q)) eqn:Hl; [done|].
    destruct (has_wildcard q) eqn:Hw; simpl.
    + destruct (starts_with d (trim_end_matches "/" (literal_prefix q))) eqn:Hd; [done|].
      destruct (trim_end_matches_prefix "/" (literal_prefix q)) as [w Hpre].
      revert Hd Hpre. generalize (trim_end_matches "/" (literal_prefix q)) as pre. intros pre Hd Hpre.
      rewrite !orb_true_iff. left; right.
      rewrite Hpre, app_str_assoc, Hr in Hu.
      destruct (prefixes_comparable _ _ _ _ Hu) as [H|[v ->]%starts_with_spec]; [congruence|].
      rewrite app_str_assoc in Hu. apply app_str_inj_l in Hu.
      destruct v as [|c v].
      { by rewrite app_str_nil_r, starts_with_refl in Hd. }
      injection Hu as <- _. rewrite starts_with_spec. exists v. by rewrite app_str_assoc.
    + destruct (Hlit eq_refl) as [-> Hq]. rewrite app_str_nil_r in Hu.
      rewrite Hq in Hu |- *. rewrite ends_with_false_strip by done.
      rewrite !orb_true_iff. left; right. rewrite <- Hu, Hr, <- app_str_assoc. apply starts_with_app.
Qed.

Lemma split_below d r : split slash (d +:+ "/" +:+ r) = split slash d ++ split slash r.
Proof. apply split_app. Qed.

Lemma generated_below d f :
  file_below d f -> is_generated_directory d = true -> is_generated_path f = true.
Proof.
  intros (_ & _ & _ & r & ->). unfold is_generated_directory, is_generated_path.
  rewrite split_below. pose proof (split_nonempty slash r) as Hn.
  induction (split slash d) as [|x l IH]; [done|].
  change ((x :: l) ++ split slash r) with (x :: (l ++ split slash r)). cbn [existsb any_generated_part].
  destruct (is_one_of x GENERATED_PARTS); [done|]. simpl.
  destruct (starts_with x "dist-"); simpl; [|done].
  destruct (l ++ split slash r) eqn:E; [by apply app_nil in E as [_ ?]|done].
Qed.

Lemma hard_excluded_below sel d f :
  file_below d f -> has_hard_excluded_part sel d = true -> has_hard_excluded_part sel f = true.
Proof.
  intros (_ & _ & _ & r & ->). unfold has_hard_excluded_part.
  rewrite split_below, existsb_app. by intros ->.
Qed.

(** A string without stars matches itself literally. *)
Lemma seg_match_self s : star_free s -> seg_match (as_bytes s) (as_bytes s).
Proof.
  intros H%contains_char_false. unfold seg_match. induction H as [|c l Hc _ IH]; constructor; [|done].
  split; [done|]. unfold char_matches. by rewrite Ascii.eqb_refl, orb_true_r.
Qed.

Lemma star_star_matches_all t : glob [star; star] t.
Proof. apply glob_star_drop. exists (length t). rewrite drop_all. by apply glob_nil_skip_stars. Qed.

Lemma proven_excluded_below d f patterns :
  star_free f -> file_below d f -> patterns_prove_directory_excluded d patterns = true ->
  matches_any_pattern f patterns = true.
Proof.
  intros Hsf Hb. unfold patterns_prove_directory_excluded, matches_any_pattern.
  rewrite !existsb_elem_of. intros (p & Hp & H). exists p. split; [done|].
  destruct (is_empty (trim p)); [done|]. destruct (starts_with (trim p) "#"); [done|].
  simpl in H |- *. unfold glob_matches. destruct Hb as (_ & _ & _ & r & Hr).
  destruct (ends_with (normalize_relative_pattern (trim p)) "/") eqn:Hend.
  - apply String.eqb_eq in H as <-. rewrite Hr, <- app_str_assoc, starts_with_app. apply orb_true_r.
  - destruct (strip_suffix "/**" (normalize_relative_pattern (trim p))) as [base|] eqn:Hs; [|done].
    apply String.eqb_eq in H as <-.
    assert (Hn : normalize_relative_pattern (trim p) = d +:+ "/**").
    { unfold strip_suffix in Hs. destruct (strip_prefix _ _) as [q|] eqn:E; [|done].
      injection Hs as <-. apply strip_prefix_Some in E. apply (f_equal srev) in E.
      by rewrite srev_app_str, !srev_involutive in E. }
    rewrite Hn, !contains_char_app. replace (contains_char "/**" slash) with true by done.
    rewrite orb_true_r. simpl. apply wildcard_match_glob; [done|].
    rewrite Hr, !list_ascii_of_string_app. apply glob_seg.
    + apply seg_match_self. unfold star_free in *. rewrite Hr, contains_char_app in Hsf.
      by apply orb_false_iff in Hsf as [? _].
    + apply glob_char_inv; [done|]. split; [done|]. apply star_star_matches_all.
Qed.

Lemma includes_explicit d f sel :
  star_free f -> file_below d f ->
  Forall (fun p => starts_with (normalize_relative_pattern p) "#" = true -> starts_with (trim p) "#" = true)
    (include_patterns sel) ->
  matches_any_pattern f (include_patterns sel) = true ->
  existsb (pattern_may_match_descendant d) (include_patterns sel) = true.
Proof.
  intros Hsf Hb Hh. unfold matches_any_pattern. rewrite !existsb_elem_of.
  intros (p & Hp & H). exists p. split; [done|].
  rewrite Forall_forall in Hh. specialize (Hh _ Hp).
  apply andb_true_iff in H as [[_ Hc]%andb_true_iff Hg].
  apply negb_true_iff in Hc. eapply may_match_sound; [done|done| |].
  - apply not_true_iff_false. intros ?%Hh. congruence.
  - unfold glob_matches in *. by rewrite normalize_pattern_trim in Hg.
Qed.

(** * Properties *)

Lemma descend_sound (sel : SourceSelection) (d f : string) :
  file_below d f -> star_free f ->
  Forall (fun p => starts_with (normalize_relative_pattern p) "#" = true -> starts_with (trim p) "#" = true)
    (include_patterns sel) ->
  includes_file sel f = true -> should_descend sel d = true.
Proof.
  intros Hb Hsf Hh Hinc. pose proof Hb as (Hd & Hf & Hde & _).
  unfold includes_file in Hinc. unfold should_descend. rewrite Hd. rewrite Hf in Hinc.
  rewrite Hde. destruct (is_empty f) eqn:Hfe; [done|]. simpl in Hinc |- *.
  destruct (has_hard_excluded_part sel d) eqn:Hhard.
  { by rewrite (hard_excluded_below sel d f) in Hinc. }
  destruct (has_hard_excluded_part sel f); [done|].
  pose proof (includes_explicit d f sel Hsf Hb Hh) as Hexp.
  pose proof (generated_below d f Hb) as Hgen.
  pose proof (proven_excluded_below d f (ignore_patterns sel) Hsf Hb) as Hign.
  pose proof (proven_excluded_below d f (exclude_patterns sel) Hsf Hb) as Hexc.
  destruct (matches_any_pattern f (include_patterns sel)) eqn:Hm; simpl in Hinc.
  - rewrite Hexp by done. rewrite !andb_false_r in *. simpl in Hinc |- *.
    destruct (include_patterns sel) as [|p0 ps]; [done|]. simpl in Hinc |- *.
    rewrite andb_false_r. apply andb_true_iff in Hinc as [H1%negb_true_iff H2%negb_true_iff].
    destruct (patterns_prove_directory_excluded d (ignore_patterns sel)); [by rewrite Hign in H1|].
    by destruct (patterns_prove_directory_excluded d (exclude_patterns sel)); [rewrite Hexc in H2|].
  - rewrite !andb_true_r in Hinc. destruct (include_patterns sel) as [|p0 ps]; [|done].
    simpl in Hinc |- *. destruct (is_generated_directory d); [by rewrite Hgen in Hinc|].
    simpl. destruct (is_generated_path f); [done|].
    apply andb_true_iff in Hinc as [H1%negb_true_iff H2%negb_true_iff].
    destruct (patterns_prove_directory_excluded d (ignore_patterns sel)); [by rewrite Hign in H1|].
    by destruct (patterns_prove_directory_excluded d (exclude_patterns sel)); [rewrite Hexc in H2|].
Qed.


Definition sample_selection : SourceSelection := {|
  excluded_parts := {["target"]};
  include_patterns := ["src/*.rs"; "docs/"];
  exclude_patterns := ["src/gen/**"];
  ignore_patterns := []
|}.


(** on texts without a literal [*], the two-index matching loop with last-star
    backtracking accepts exactly the texts the pattern denotes. *)
Theorem wildcard_match_correct (text pattern : string) :
  star_free text -> wildcard_match text pattern = true <-> glob (as_bytes pattern) (as_bytes text).
Proof. apply wildcard_match_glob. Qed.

Lemma wildcard_match_correct_witness : glob (as_bytes "a*?c") (as_bytes "abbbc").
Proof. apply (wildcard_match_correct "abbbc" "a*?c"); vm_compute; reflexivity. Defined.

(** The matching loop terminates on every text and pattern, stars included: the
    fuel, quadratic in the lengths, is never exhausted. *)
Theorem wildcard_match_terminates (text pattern : list ascii) :
  is_Some (match_loop (match_fuel text pattern) text pattern match_init).
Proof.
  apply match_loop_total; [|apply measure_init].
  unfold in_bounds, match_init; simpl. lia.
Qed.

(** Defects of the selection policy.  A literal [*] in a file name is matched as
    an ordinary character, so the pattern "*b" rejects the file "*ab"; and an include
    pattern "./#gen/*.rs" includes a file of "#gen", a directory the walk prunes. *)
Theorem selection_defects :
  (wildcard_match "*ab" "*b" = false /\ glob (as_bytes "*b") (as_bytes "*ab"))
  /\ exists sel, include_patterns sel = ["./#gen/*.rs"]
       /\ includes_file sel "#gen/a.rs" = true /\ should_descend sel "#gen" = false.
Proof.
  split.
  - split; [by vm_compute|]. apply glob_star_drop. exists 2. by repeat constructor.
  - exists (Build_SourceSelection ∅ ["./#gen/*.rs"] [] []). by repeat split; vm_compute.
Qed.
