(* ===== verification/Hash.v ===== *)
(** * Identifiers by SHA-1 (src/hash.rs)

    [sha1] is the code's implementation: a message buffer padded in a loop, an
    80-word schedule filled in place, eighty rounds per 64-byte chunk, all on 32-bit
    words written as [Z] with explicit wrap-around.  [Fips] is the standard's
    definition (FIPS 180-4), which the code is proved to compute.  Bytes are [Z] in
    [0, 256). *)
From S2P Require Import Prelude Order Text.
Local Open Scope Z_scope.

(** ** 32-bit words *)
Definition u32 (z : Z) : Z := z mod 2 ^ 32.
Definition wrapping_add (a b : Z) : Z := u32 (a + b).
Definition not32 (a : Z) : Z := Z.lxor a (2 ^ 32 - 1).
Definition rotate_left (a : Z) (n : Z) : Z :=
  Z.lor (u32 (Z.shiftl a n)) (Z.shiftr a (32 - n)).

Definition from_be_bytes (l : list Z) : Z := fold_left (fun acc b => acc * 256 + b) l 0.
Fixpoint to_be_bytes (n : nat) (z : Z) : list Z :=
  match n with
  | O => []
  | S n => to_be_bytes n (z / 256) ++ [z mod 256]
  end.

Definition byte_value (a : ascii) : Z := Z.of_N (N_of_ascii a).
Definition bytes_of (s : string) : list Z := byte_value <$> as_bytes s.

(** [chunks(n)]: consecutive pieces of [n] elements, the last one possibly shorter. *)
Fixpoint chunks_fuel {A} (fuel n : nat) (l : list A) : list (list A) :=
  match fuel, l with
  | O, _ | _, [] => []
  | S fuel, _ => take n l :: chunks_fuel fuel n (drop n l)
  end.
Definition chunks {A} (n : nat) (l : list A) : list (list A) := chunks_fuel (length l) n l.

(** ** The implementation *)

(** [while message.len() % 64 != 56 { message.push(0) }]; 64 steps are enough. *)
Fixpoint pad_loop (fuel : nat) (message : list Z) : list Z :=
  if decide ((length message mod 64)%nat = 56%nat) then message
  else match fuel with
       | O => message
       | S fuel => pad_loop fuel (message ++ [0])
       end.

Definition padded (input : list Z) : list Z :=
  pad_loop 64 (input ++ [128]) ++ to_be_bytes 8 (Z.of_nat (length input) * 8).

Definition load_word (chunk : list Z) (index : nat) : Z :=
  let offset := (index * 4)%nat in
  from_be_bytes [nth offset chunk 0; nth (offset + 1) chunk 0;
                 nth (offset + 2) chunk 0; nth (offset + 3) chunk 0].

Definition extend_word (words : list Z) (index : nat) : list Z :=
  let w i := nth (index - i) words 0 in
  <[index := rotate_left (Z.lxor (Z.lxor (Z.lxor (w 3%nat) (w 8%nat)) (w 14%nat)) (w 16%nat)) 1]> words.

Definition schedule (chunk : list Z) : list Z :=
  let words := fold_left (fun ws i => <[i := load_word chunk i]> ws) (seq 0 16) (replicate 80 0) in
  fold_left extend_word (seq 16 64) words.

Record digest_state := Digest { sa : Z; sb : Z; sc : Z; sd : Z; se : Z }.

Definition round_fk (index : nat) (b c d : Z) : Z * Z :=
  if decide (index <= 19)%nat then
    (Z.lor (Z.land b c) (Z.land (not32 b) d), 0x5a827999)
  else if decide (index <= 39)%nat then
    (Z.lxor (Z.lxor b c) d, 0x6ed9eba1)
  else if decide (index <= 59)%nat then
    (Z.lor (Z.lor (Z.land b c) (Z.land b d)) (Z.land c d), 0x8f1bbcdc)
  else (Z.lxor (Z.lxor b c) d, 0xca62c1d6).

Definition round (st : digest_state) (iw : nat * Z) : digest_state :=
  let '(Digest a b c d e) := st in
  let '(f, k) := round_fk iw.1 b c d in
  let temp := wrapping_add (wrapping_add (wrapping_add (wrapping_add (rotate_left a 5) f) e) k) iw.2 in
  Digest temp a (rotate_left b 30) c d.

Definition process_chunk (h : digest_state) (chunk : list Z) : digest_state :=
  let st := fold_left round (imap pair (schedule chunk)) h in
  Digest (wrapping_add (sa h) (sa st)) (wrapping_add (sb h) (sb st)) (wrapping_add (sc h) (sc st))
         (wrapping_add (sd h) (sd st)) (wrapping_add (se h) (se st)).

Definition sha1_init : digest_state :=
  Digest 0x67452301 0xefcdab89 0x98badcfe 0x10325476 0xc3d2e1f0.

Definition sha1 (input : list Z) : list Z :=
  let h := fold_left process_chunk (chunks 64 (padded input)) sha1_init in
  concat (to_be_bytes 4 <$> [sa h; sb h; sc h; sd h; se h]).

(** [format!("{byte:02x}")] *)
Definition hex_digit (n : Z) : ascii :=
  if decide (n < 10) then ascii_of_N (Z.to_N (48 + n)) else ascii_of_N (Z.to_N (87 + n)).
Definition hex_byte (b : Z) : string := String (hex_digit (b / 16)) (String (hex_digit (b mod 16)) "").
Definition hex_lower (l : list Z) : string := concat_str (hex_byte <$> l).

Definition sha1_hex (input : list Z) : string := hex_lower (take 10 (sha1 input)).

Definition partition_id (path : string) : string := sha1_hex (bytes_of path).

(** The values asserted by the unit test of src/hash.rs. *)
Example sha1_hex_abc : sha1_hex (bytes_of "abc") = "a9993e364706816aba3e"%string.
Proof. vm_compute. reflexivity. Qed.
Example partition_id_lib : partition_id "src/lib.rs" = "b24749917179fb5e3e61"%string.
Proof. vm_compute. reflexivity. Qed.

(** ** The standard's definition *)
Module Fips.
Definition Ch (x y z : Z) : Z := Z.lxor (Z.land x y) (Z.land (not32 x) z).
Definition Parity (x y z : Z) : Z := Z.lxor x (Z.lxor y z).
Definition Maj (x y z : Z) : Z := Z.lxor (Z.lxor (Z.land x y) (Z.land x z)) (Z.land y z).

Definition f (t : nat) : Z -> Z -> Z -> Z :=
  if decide (t < 20)%nat then Ch else if decide (t < 40)%nat then Parity
  else if decide (t < 60)%nat then Maj else Parity.
Definition K (t : nat) : Z :=
  if decide (t < 20)%nat then 0x5a827999 else if decide (t < 40)%nat then 0x6ed9eba1
  else if decide (t < 60)%nat then 0x8f1bbcdc else 0xca62c1d6.

(** Padding: one bit, the least number of zeros, the length in bits. *)
Definition pad (m : list Z) : list Z :=
  m ++ [128] ++ replicate (Z.to_nat ((55 - Z.of_nat (length m)) mod 64)) 0
  ++ to_be_bytes 8 (Z.of_nat (length m) * 8).

(** W_t for t < 16 are the words of the block; each next word appends the
    rotated sum of four earlier ones. *)
Definition next_W (w : list Z) : list Z :=
  let n := length w in
  w ++ [rotate_left (Z.lxor (Z.lxor (Z.lxor (nth (n - 3) w 0) (nth (n - 8) w 0))
                                    (nth (n - 14) w 0)) (nth (n - 16) w 0)) 1].
Definition W (block : list Z) : list Z :=
  Nat.iter 64 next_W (load_word block <$> seq 0 16).

Definition step (st : digest_state) (tw : nat * Z) : digest_state :=
  let '(Digest a b c d e) := st in
  Digest (u32 (rotate_left a 5 + f tw.1 b c d + e + K tw.1 + tw.2)) a (rotate_left b 30) c d.

Definition block (h : digest_state) (m : list Z) : digest_state :=
  let st := fold_left step (imap pair (W m)) h in
  Digest (u32 (sa h + sa st)) (u32 (sb h + sb st)) (u32 (sc h + sc st))
         (u32 (sd h + sd st)) (u32 (se h + se st)).

Definition sha1 (m : list Z) : list Z :=
  let h := fold_left block (chunks 64 (pad m)) sha1_init in
  concat (to_be_bytes 4 <$> [sa h; sb h; sc h; sd h; se h]).
End Fips.

(** ** Words are closed under the operations *)
Definition is_word (z : Z) : Prop := Z.land z (Z.ones 32) = z.
Definition is_byte (z : Z) : Prop := 0 <= z < 256.

Lemma is_word_range z : is_word z <-> 0 <= z < 2 ^ 32.
Proof.
  unfold is_word. rewrite Z.land_ones by lia. split.
  - intros <-. by apply Z.mod_pos_bound.
  - intros H. by apply Z.mod_small.
Qed.

Lemma is_word_u32 z : is_word (u32 z).
Proof. apply is_word_range. by apply Z.mod_pos_bound. Qed.

Lemma is_word_bits z : is_word z -> forall i, 32 <= i -> Z.testbit z i = false.
Proof.
  unfold is_word. intros <- i Hi. rewrite Z.land_spec, Z.ones_spec_high by lia. apply andb_false_r.
Qed.

Lemma is_word_rotate_left a n : is_word a -> 0 <= n <= 32 -> is_word (rotate_left a n).
Proof.
  intros Ha Hn. unfold rotate_left, is_word. rewrite Z.land_lor_distr_l. f_equal; [apply is_word_u32|].
  apply is_word_range in Ha. apply is_word_range. rewrite Z.shiftr_div_pow2 by lia.
  split; [apply Z.div_pos; lia|]. apply Z.div_lt_upper_bound; [lia|]. nia.
Qed.

Lemma not32_spec x i : 0 <= i -> Z.testbit (not32 x) i = xorb (Z.testbit x i) (Z.ltb i 32).
Proof.
  intros Hi. unfold not32. change (2 ^ 32 - 1) with (Z.ones 32). rewrite Z.lxor_spec. f_equal.
  destruct (Z.ltb_spec i 32); [by rewrite Z.ones_spec_low by lia|by rewrite Z.ones_spec_high by lia].
Qed.

(** The code's round functions, written with "or", are the standard's. *)
Lemma choose_Ch b c d :
  is_word b -> Z.lor (Z.land b c) (Z.land (not32 b) d) = Fips.Ch b c d.
Proof.
  intros Hb. unfold Fips.Ch. apply Z.bits_inj'. intros i Hi.
  rewrite Z.lor_spec, Z.lxor_spec, !Z.land_spec, not32_spec by done.
  destruct (Z.ltb_spec i 32).
  - by destruct (Z.testbit b i), (Z.testbit c i), (Z.testbit d i).
  - rewrite (is_word_bits b Hb i) by lia. by destruct (Z.testbit c i), (Z.testbit d i).
Qed.

Lemma majority_Maj b c d :
  Z.lor (Z.lor (Z.land b c) (Z.land b d)) (Z.land c d) = Fips.Maj b c d.
Proof.
  unfold Fips.Maj. apply Z.bits_inj'. intros i Hi.
  rewrite !Z.lor_spec, !Z.lxor_spec, !Z.land_spec.
  by destruct (Z.testbit b i), (Z.testbit c i), (Z.testbit d i).
Qed.

Lemma parity_Parity b c d : Z.lxor (Z.lxor b c) d = Fips.Parity b c d.
Proof. apply Z.lxor_assoc. Qed.

Lemma round_fk_fips t b c d :
  is_word b -> round_fk t b c d = (Fips.f t b c d, Fips.K t).
Proof.
  intros Hb. unfold round_fk, Fips.f, Fips.K. repeat case_decide; try lia.
  - by rewrite choose_Ch.
  - by rewrite parity_Parity.
  - by rewrite majority_Maj.
  - by rewrite parity_Parity.
Qed.

Definition state_ok (st : digest_state) : Prop :=
  is_word (sa st) /\ is_word (sb st) /\ is_word (sc st) /\ is_word (sd st) /\ is_word (se st).

Lemma wrapping_add_u32 a b : wrapping_add (u32 a) b = u32 (a + b).
Proof. unfold wrapping_add, u32. by rewrite Z.add_mod_idemp_l. Qed.

Lemma round_step st tw : state_ok st -> round st tw = Fips.step st tw.
Proof.
  destruct st as [a b c d e], tw as [t w]. intros (Ha & Hb & _). simpl in *.
  rewrite round_fk_fips by done. f_equal.
  unfold wrapping_add at 4. by rewrite !wrapping_add_u32.
Qed.

Lemma round_ok st tw : state_ok st -> state_ok (round st tw).
Proof.
  destruct st as [a b c d e], tw as [t w]. intros (Ha & Hb & Hc & Hd & He). simpl in *.
  destruct (round_fk t b c d). repeat split; simpl; try done; [apply is_word_u32|].
  apply is_word_rotate_left; [done|lia].
Qed.

Lemma fold_round st l : state_ok st -> fold_left round l st = fold_left Fips.step l st.
Proof. apply fold_left_ext_inv; [apply round_step|apply round_ok]. Qed.

(** ** The schedule filled in place is the standard's recurrence *)
Lemma length_next_W w : length (Fips.next_W w) = S (length w).
Proof. unfold Fips.next_W. rewrite length_app. simpl. lia. Qed.

Lemma extend_word_append w z :
  w <> [] -> extend_word (w ++ 0 :: z) (length w) = Fips.next_W w ++ z.
Proof.
  intros Hw. assert (0 < length w)%nat by (destruct w; simpl; [done|lia]).
  unfold extend_word, Fips.next_W. rewrite insert_app_r_alt by lia. rewrite Nat.sub_diag.
  rewrite <- app_assoc. f_equal. simpl. by rewrite !app_nth1 by lia.
Qed.

Lemma fold_extend_word k w :
  w <> [] ->
  fold_left extend_word (seq (length w) k) (w ++ replicate k 0) = Nat.iter k Fips.next_W w.
Proof.
  revert w. induction k as [|k IH]; intros w Hw; [by rewrite app_nil_r|].
  simpl replicate. simpl seq. simpl fold_left. rewrite extend_word_append by done.
  rewrite <- length_next_W, IH by (by destruct w). by rewrite <- Nat.iter_succ_r.
Qed.

Lemma schedule_W chunk : schedule chunk = Fips.W chunk.
Proof.
  unfold schedule, Fips.W. rewrite <- fold_extend_word by done. reflexivity.
Qed.

(** ** The padding loop *)
Lemma mod64_Z n : (n mod 64 = 56)%nat <-> Z.of_nat n mod 64 = 56.
Proof. pose proof (Nat2Z.inj_mod n 64) as H. change (Z.of_nat 64) with 64 in H. lia. Qed.

Lemma pad_loop_spec fuel m :
  (56 - Z.of_nat (length m)) mod 64 <= Z.of_nat fuel ->
  pad_loop fuel m = m ++ replicate (Z.to_nat ((56 - Z.of_nat (length m)) mod 64)) 0.
Proof.
  revert m. induction fuel as [|fuel IH]; intros m Hf; cbn [pad_loop]; case_decide as Hm;
    rewrite mod64_Z in Hm.
  - replace (_ mod 64) with 0 by (Z.div_mod_to_equations; lia). by rewrite app_nil_r.
  - exfalso. Z.div_mod_to_equations. lia.
  - replace (_ mod 64) with 0 by (Z.div_mod_to_equations; lia). by rewrite app_nil_r.
  - assert (Hk : (56 - Z.of_nat (length m)) mod 64
      = Z.succ ((56 - Z.of_nat (length (m ++ [0]))) mod 64)).
    { rewrite length_app. simpl. Z.div_mod_to_equations. lia. }
    rewrite IH by lia. rewrite Hk, <- app_assoc, Z2Nat.inj_succ; [done|].
    by apply Z.mod_pos_bound.
Qed.

Lemma padded_pad input : padded input = Fips.pad input.
Proof.
  unfold padded, Fips.pad. rewrite pad_loop_spec.
  - rewrite <- !app_assoc, length_app. do 3 f_equal. simpl. do 2 f_equal. f_equal. lia.
  - pose proof (Z.mod_pos_bound (56 - Z.of_nat (length (input ++ [128]))) 64). lia.
Qed.

Lemma length_to_be_bytes n z : length (to_be_bytes n z) = n.
Proof. revert z. induction n; intros z; simpl; [done|]. rewrite length_app, IHn. simpl. lia. Qed.

Lemma to_be_bytes_bytes n z : Forall is_byte (to_be_bytes n z).
Proof.
  revert z. induction n as [|n IH]; intros z; simpl; [constructor|].
  apply Forall_app. split; [apply IH|]. repeat constructor; by apply Z.mod_pos_bound.
Qed.

Lemma process_block h m : state_ok h -> process_chunk h m = Fips.block h m.
Proof.
  intros Hh. unfold process_chunk, Fips.block. rewrite schedule_W, fold_round by done. reflexivity.
Qed.

Lemma process_chunk_ok h m : state_ok (process_chunk h m).
Proof. repeat split; apply is_word_u32. Qed.

Lemma fold_process l h :
  state_ok h -> fold_left process_chunk l h = fold_left Fips.block l h.
Proof.
  apply fold_left_ext_inv; [apply process_block|intros; apply process_chunk_ok].
Qed.

Lemma sha1_init_ok : state_ok sha1_init.
Proof. repeat split; vm_compute; reflexivity. Qed.

Lemma length_concat_words l : length (concat (to_be_bytes 4 <$> l)) = (4 * length l)%nat.
Proof.
  induction l as [|x l IH]; [done|]. rewrite fmap_cons. cbn [concat].
  rewrite length_app, length_to_be_bytes, IH. simpl. lia.
Qed.

Lemma length_sha1 input : length (sha1 input) = 20%nat.
Proof. unfold sha1. by rewrite length_concat_words. Qed.

Lemma sha1_bytes input : Forall is_byte (sha1 input).
Proof.
  unfold sha1. apply Forall_concat, Forall_fmap, Forall_true. intros z. apply to_be_bytes_bytes.
Qed.

(** ** Hexadecimal text *)
Definition is_hex (a : ascii) : bool :=
  let n := N_of_ascii a in (N.leb 48 n && N.leb n 57) || (N.leb 97 n && N.leb n 102).

Lemma hex_digit_ok n : 0 <= n < 16 -> is_hex (hex_digit n) = true.
Proof.
  intros H. assert (Hall : forallb (fun k => is_hex (hex_digit k)) (seqZ 0 16) = true)
    by (vm_compute; reflexivity).
  rewrite forallb_elem_of in Hall. apply Hall, elem_of_seqZ. lia.
Qed.

Lemma hex_lower_cons b l : hex_lower (b :: l) = hex_byte b +:+ hex_lower l.
Proof. done. Qed.

Lemma length_hex_lower l : String.length (hex_lower l) = (2 * length l)%nat.
Proof.
  induction l as [|b l IH]; [done|]. rewrite hex_lower_cons, length_app_str, IH. simpl. lia.
Qed.

Lemma hex_lower_hex l : Forall is_byte l -> Forall (fun a => is_hex a = true) (as_bytes (hex_lower l)).
Proof.
  induction 1 as [|b l Hb _ IH]; [constructor|].
  rewrite hex_lower_cons, list_ascii_of_string_app. apply Forall_app. split; [|done].
  unfold is_byte in Hb. repeat constructor; apply hex_digit_ok; Z.div_mod_to_equations; lia.
Qed.

Lemma hex_digit_inj m n : 0 <= m < 16 -> 0 <= n < 16 -> hex_digit m = hex_digit n -> m = n.
Proof.
  unfold hex_digit. intros Hm Hn H. apply (f_equal N_of_ascii) in H.
  repeat case_decide; rewrite !N_ascii_embedding in H by lia; lia.
Qed.

(** Hexadecimal rendering loses nothing. *)
Lemma hex_lower_inj l1 l2 :
  Forall is_byte l1 -> Forall is_byte l2 -> hex_lower l1 = hex_lower l2 -> l1 = l2.
Proof.
  intros H1. revert l2. induction H1 as [|b1 l1 Hb1 _ IH]; intros l2 H2 H.
  - destruct H2; [done|]. by rewrite hex_lower_cons in H.
  - destruct H2 as [|b2 l2 Hb2 H2]; [by rewrite hex_lower_cons in H|].
    rewrite !hex_lower_cons in H. unfold hex_byte in H. rewrite !app_str_cons, !app_str_nil_l in H.
    injection H as Hh Hl H. unfold is_byte in *.
    apply hex_digit_inj in Hh; [|Z.div_mod_to_equations; lia..].
    apply hex_digit_inj in Hl; [|Z.div_mod_to_equations; lia..].
    f_equal; [Z.div_mod_to_equations; lia|by apply IH].
Qed.

(** * Properties *)

(** C14: the code's SHA-1 (padding loop, in-place schedule, "or"-form round functions,
    wrapping additions) is FIPS 180-4's on every input. *)
Theorem sha1_is_fips (input : list Z) : sha1 input = Fips.sha1 input.
Proof.
  unfold sha1, Fips.sha1. by rewrite padded_pad, fold_process by apply sha1_init_ok.
Qed.

(** A partition id is always twenty lowercase hexadecimal digits, so its first two
    characters name a snapshot shard. *)
Theorem partition_id_shape (path : string) :
  String.length (partition_id path) = 20%nat
  /\ Forall (fun a => is_hex a = true) (as_bytes (partition_id path)).
Proof.
  unfold partition_id, sha1_hex. split.
  - rewrite length_hex_lower, length_take, length_sha1. done.
  - apply hex_lower_hex, Forall_take, sha1_bytes.
Qed.
