(* ===== verification/Json.v ===== *)
(** * JSON values as the program handles them (serde_json's [Value] and [Map])

    A [Map<String, Value>] is a [BTreeMap]: an association list in strictly
    increasing key order.  A number is identified with the text that
    [Number::to_string] gives, the only thing the program asks of it. *)
From S2P Require Import Prelude Order Text.

Inductive Value :=
| Null
| VBool (b : bool)
| VNumber (display : string)
| VString (s : string)
| VArray (items : list Value)
| VObject (fields : list (string * Value)).

Definition Map := list (string * Value).

Fixpoint map_get (k : string) (m : Map) : option Value :=
  match m with
  | [] => None
  | (k', v) :: m => if String.eqb k k' then Some v else map_get k m
  end.

Fixpoint map_insert (k : string) (v : Value) (m : Map) : Map :=
  match m with
  | [] => [(k, v)]
  | (k', v') :: m' =>
      match cmp k k' with
      | Lt => (k, v) :: m
      | Eq => (k, v) :: m'
      | Gt => (k', v') :: map_insert k v m'
      end
  end.

Definition map_keys (m : Map) : list string := fst <$> m.
Definition map_sorted (m : Map) : Prop := StrictlySorted (map_keys m).

(** [for (key, value) in extra { map.insert(key, value) }] *)
Definition map_extend (m extra : Map) : Map :=
  fold_left (fun m kv => map_insert kv.1 kv.2 m) extra m.

Definition as_str (v : Value) : option string := match v with VString s => Some s | _ => None end.
Definition as_array (v : Value) : option (list Value) := match v with VArray l => Some l | _ => None end.
Definition as_object (v : Value) : option Map := match v with VObject m => Some m | _ => None end.
(** [value.get(key)] on any value: [None] unless an object. *)
Definition value_get (k : string) (v : Value) : option Value := as_object v ≫= map_get k.

Definition show_bool (b : bool) : string := if b then "true" else "false".

(** ** Map lemmas *)
Lemma map_get_insert k v m : map_get k (map_insert k v m) = Some v.
Proof.
  induction m as [|[k' v'] m IH]; simpl; [by rewrite String.eqb_refl|].
  destruct (cmp k k') eqn:E; simpl; rewrite ?String.eqb_refl; [done..|].
  destruct (String.eqb_spec k k') as [->|]; [by rewrite cmp_refl in E|done].
Qed.

Lemma map_get_insert_ne k k' v m : k <> k' -> map_get k (map_insert k' v m) = map_get k m.
Proof.
  intros Hne. induction m as [|[k1 v1] m IH]; simpl.
  - by rewrite (proj2 (String.eqb_neq k k') Hne).
  - destruct (cmp k' k1) eqn:E; simpl.
    + apply cmp_eq in E as ->. by rewrite (proj2 (String.eqb_neq k k1) Hne).
    + by rewrite (proj2 (String.eqb_neq k k') Hne).
    + destruct (String.eqb k k1); [done|apply IH].
Qed.

Lemma elem_of_map_insert_keys k k' v m :
  k ∈ map_keys (map_insert k' v m) -> k = k' \/ k ∈ map_keys m.
Proof.
  unfold map_keys. induction m as [|[k1 v1] m IH]; simpl.
  - intros H. left. by apply list_elem_of_singleton in H.
  - destruct (cmp k' k1) eqn:E; rewrite !fmap_cons, !elem_of_cons; simpl; rewrite ?elem_of_cons.
    + tauto.
    + tauto.
    + intros [->|H]; [tauto|]. destruct (IH H); tauto.
Qed.

Lemma map_insert_sorted k v m : map_sorted m -> map_sorted (map_insert k v m).
Proof.
  unfold map_sorted, StrictlySorted. induction m as [|[k1 v1] m IH]; simpl.
  - by repeat constructor.
  - inversion 1 as [|? ? Hs Hf]; subst. destruct (cmp k k1) eqn:E; simpl.
    + apply cmp_eq in E as ->. by constructor.
    + constructor; [by constructor|]. constructor; [unfold lt_b; simpl; by rewrite E|].
      eapply Forall_impl; [exact Hf|]. intros x. unfold lt_b. simpl.
      destruct (cmp k1 x) eqn:E1; try done. by rewrite (cmp_lt_trans _ _ _ E E1).
    + constructor; [by apply IH|]. rewrite Forall_forall in Hf |- *.
      intros x [->|Hx]%elem_of_map_insert_keys; [|by apply Hf].
      unfold lt_b; simpl. apply cmp_gt_lt in E. by rewrite E.
Qed.

Lemma map_extend_sorted m extra : map_sorted m -> map_sorted (map_extend m extra).
Proof.
  unfold map_extend. revert m. induction extra as [|[k v] extra IH]; intros m Hm; simpl; [done|].
  by apply IH, map_insert_sorted.
Qed.

#[export] Hint Resolve map_insert_sorted map_extend_sorted : rust.
