(* ===== verification/Protocol.v ===== *)
(** * Protocol types of a materialization (src/protocol.rs)

    The request, the manifest, the difference between a manifest and a scan, and the
    digest that decides whether a previous manifest is still compatible. *)
From S2P Require Import Prelude Order Text Json.

(** ** Errors (src/error.rs) *)
Inductive NativeError :=
| Io (message : string)
| JsonError (message : string)
| Database (message : string)
| InvalidInput (message : string)
| SourceChanged (path : string)
| Unsupported (message : string).

Abbreviation native_result := (result NativeError).

(** ** Data *)
Definition GRAPH_BUILD_DIGEST_FORMAT_VERSION : N := 5.
Definition PROFILE_COMPATIBILITY_VERSION : N := 2.
Definition SEARCH_BACKEND_FORMAT_VERSION : N := 1.

Record OntologyRelationType := {
  rel_name : string;
  rel_source_types : list string;
  rel_target_types : list string
}.

Record OntologySchema := { relation_types : list OntologyRelationType }.

Record SearchBackendMetadata := {
  backend : string;
  format_version : N;
  backend_files : gmap string string;
  document_count : N;
  term_count : N;
  total_tokens : N
}.

Record ManifestEntry := {
  entry_path : string;
  entry_content_hash : string;
  entry_language : string;
  entry_partition_id : string;
  artifact_key : option string;
  node_ids : list string;
  edge_ids : list string;
  node_types : gmap string string;
  edge_types : gmap string string;
  node_count : nat;
  edge_count : nat;
  materialized_at : string
}.

Record NativeManifest := {
  schema_version : N;
  manifest_ontology : string;
  manifest_parser_version : string;
  graph_build_digest : option string;
  search_backend : option SearchBackendMetadata;
  files : gmap string ManifestEntry
}.

Record CaptureMapping := {
  mapping_capture_name : string;
  parser_node_types : list string;
  target_node_type : string;
  mapping_relation_types : list string;
  context_rule : string;
  construct : string
}.

Record LanguageProfile := {
  profile_language : string;
  suffixes : list string;
  grammar_package : string;
  profile_grammar_version : string;
  root_node_types : list string;
  capture_mappings : list CaptureMapping
}.

Record SourceSnapshot := {
  snapshot_path : string;
  absolute_path : string;
  snapshot_content_hash : string;
  snapshot_language : option string;
  byte_len : N;
  snapshot_source : option string
}.

Record ManifestDiff := {
  added : list string;
  modified : list string;
  unchanged : list string;
  deleted : list string;
  force_rebuild : bool
}.

Record NativeSyntaxMaterializationRequest := {
  source_root : string;
  repository_label : string;
  mode : string;
  parser_version : string;
  manifest_schema_version : N;
  ontology : string;
  ontology_schema : OntologySchema;
  previous_manifest : option NativeManifest;
  profiles : list LanguageProfile;
  request_excluded_parts : list string;
  request_include_patterns : list string;
  request_exclude_patterns : list string;
  request_ignore_patterns : list string;
  candidate_paths : list string;
  artifact_root : string;
  db_path : string;
  include_fts : bool;
  schema_statements : list string;
  staging_dir : string;
  atomic_rebuild : bool;
  strict : bool;
  parallel : bool;
  spill_chunk_mib : N;
  max_parallelism : N;
  progress : bool
}.

(** ** Operations *)
Definition rebuild_paths (diff : ManifestDiff) : list string :=
  sort (added diff ++ modified diff).

Definition compact (e : ManifestEntry) : ManifestEntry := {|
  entry_path := entry_path e;
  entry_content_hash := entry_content_hash e;
  entry_language := entry_language e;
  entry_partition_id := entry_partition_id e;
  artifact_key := artifact_key e;
  node_ids := [];
  edge_ids := [];
  node_types := ∅;
  edge_types := ∅;
  node_count := if decide (node_count e = 0) then length (node_ids e) else node_count e;
  edge_count := if decide (edge_count e = 0) then length (edge_ids e) else edge_count e;
  materialized_at := materialized_at e
|}.

Definition validate_execution_options (r : NativeSyntaxMaterializationRequest) : native_result unit :=
  if N.eqb (spill_chunk_mib r) 0 || N.eqb (max_parallelism r) 0 then
    Err (InvalidInput "spill_chunk_mib and max_parallelism must be positive")
  else Ok tt.

(** The manifest's [files] may be written as null, a list of entries or an object;
    decoding one entry is serde's derived code, the parameter [decode_entry]. *)
Definition set_entry_path (e : ManifestEntry) (p : string) : ManifestEntry := {|
  entry_path := p; entry_content_hash := entry_content_hash e;
  entry_language := entry_language e; entry_partition_id := entry_partition_id e;
  artifact_key := artifact_key e; node_ids := node_ids e; edge_ids := edge_ids e;
  node_types := node_types e; edge_types := edge_types e;
  node_count := node_count e; edge_count := edge_count e; materialized_at := materialized_at e
|}.

Definition manifest_files_from_any (decode_entry : Value -> result string ManifestEntry)
    (v : Value) : result string (gmap string ManifestEntry) :=
  match v with
  | Null => Ok ∅
  | VArray items =>
      try_fold (fun m item =>
        result_map (fun e => <[entry_path e := e]> m) (decode_entry item)) ∅ items
  | VObject fields =>
      try_fold (fun m kv =>
        result_map (fun e =>
            <[kv.1 := if is_empty (entry_path e) then set_entry_path e kv.1 else e]> m)
          (decode_entry kv.2)) ∅ fields
  | _ => Err "manifest files must be a list or object"
  end.

(** ** The compatibility digest *)
Record GraphBuildDigestInput := {
  digest_format_version : N;
  digest_profile_compatibility_version : N;
  digest_source_root : string;
  digest_repository_label : string;
  digest_manifest_schema_version : N;
  digest_ontology : string;
  digest_ontology_relation_types : list OntologyRelationType;
  digest_parser_version : string;
  digest_profiles : list LanguageProfile;
  digest_excluded_parts : list string;
  digest_include_patterns : list string;
  digest_exclude_patterns : list string;
  digest_ignore_patterns : list string;
  digest_include_fts : bool;
  digest_search_backend_format_version : option N;
  digest_schema_statements : list string
}.

Definition canonical_relation (r : OntologyRelationType) : OntologyRelationType := {|
  rel_name := rel_name r;
  rel_source_types := sort (rel_source_types r);
  rel_target_types := sort (rel_target_types r)
|}.

Definition canonical_mapping (m : CaptureMapping) : CaptureMapping := {|
  mapping_capture_name := mapping_capture_name m;
  parser_node_types := sort (parser_node_types m);
  target_node_type := target_node_type m;
  mapping_relation_types := sort (mapping_relation_types m);
  context_rule := context_rule m;
  construct := construct m
|}.

Definition canonical_profile (p : LanguageProfile) : LanguageProfile := {|
  profile_language := profile_language p;
  suffixes := sort (suffixes p);
  grammar_package := grammar_package p;
  profile_grammar_version := profile_grammar_version p;
  root_node_types := sort (root_node_types p);
  capture_mappings := canonical_mapping <$> sort_by_key mapping_capture_name (capture_mappings p)
|}.

Definition digest_input (r : NativeSyntaxMaterializationRequest) : GraphBuildDigestInput := {|
  digest_format_version := GRAPH_BUILD_DIGEST_FORMAT_VERSION;
  digest_profile_compatibility_version := PROFILE_COMPATIBILITY_VERSION;
  digest_source_root := source_root r;
  digest_repository_label := repository_label r;
  digest_manifest_schema_version := manifest_schema_version r;
  digest_ontology := ontology r;
  digest_ontology_relation_types :=
    canonical_relation <$> sort_by_key rel_name (relation_types (ontology_schema r));
  digest_parser_version := parser_version r;
  digest_profiles := canonical_profile <$> sort_by_key profile_language (profiles r);
  digest_excluded_parts := sort (request_excluded_parts r);
  digest_include_patterns := sort (request_include_patterns r);
  digest_exclude_patterns := sort (request_exclude_patterns r);
  digest_ignore_patterns := sort (request_ignore_patterns r);
  digest_include_fts := include_fts r;
  digest_search_backend_format_version :=
    if include_fts r then Some SEARCH_BACKEND_FORMAT_VERSION else None;
  digest_schema_statements := sort (schema_statements r)
|}.

(** Serialization to JSON (serde) and SHA-256 (the sha2 crate) are parameters. *)
Class DigestBackend := {
  to_json_bytes : GraphBuildDigestInput -> native_result (list Z);
  sha256_hex : list Z -> string
}.

Definition graph_build_compatibility_digest `{DigestBackend}
    (r : NativeSyntaxMaterializationRequest) : native_result string :=
  result_map sha256_hex (to_json_bytes (digest_input r)).
