(* ===== verification/Normalize.v ===== *)
(** * Normalized syntax trees and capture mappings (src/normalize.rs, src/parser/captures.rs)

    A parsed file is a tree of [SyntaxNode]s; a language profile maps the nodes the
    graph is built from to captures, by node type and by a small language of context
    rules. *)
From S2P Require Import Prelude Order Text Json Protocol.

Inductive SyntaxNode := mkSyntaxNode {
  node_type : string;
  text : string;
  line_start : option Z;
  line_end : option Z;
  byte_start : option Z;
  byte_end : option Z;
  capture_name : string;
  field_name : option string;
  children : list SyntaxNode;
  fields : Map
}.

Definition set_capture_name (n : SyntaxNode) (c : string) : SyntaxNode :=
  mkSyntaxNode (node_type n) (text n) (line_start n) (line_end n) (byte_start n) (byte_end n)
    c (field_name n) (children n) (fields n).

Definition set_children (n : SyntaxNode) (cs : list SyntaxNode) : SyntaxNode :=
  mkSyntaxNode (node_type n) (text n) (line_start n) (line_end n) (byte_start n) (byte_end n)
    (capture_name n) (field_name n) cs (fields n).

(** ** Context rules *)
Definition context_name_matches (node_type expected : string) : bool :=
  if String.eqb expected "impl" then String.eqb node_type "impl_item"
  else if String.eqb expected "class" then is_one_of node_type ["class_specifier"; "struct_specifier"]
  else String.eqb node_type expected.

Definition field_type_matches (n : SyntaxNode) (field_name expected_type : string) : bool :=
  match ((map_get "_field_types" (fields n) ≫= as_object) ≫= map_get field_name) ≫= as_str with
  | Some value => String.eqb value expected_type
  | None => false
  end.

Definition field_descendant_has (n : SyntaxNode) (field_name expected_type : string) : bool :=
  match ((map_get "_field_descendant_types" (fields n) ≫= as_object) ≫= map_get field_name)
          ≫= as_array with
  | Some values => existsb (fun v => String.eqb v expected_type) (omap as_str values)
  | None => false
  end.

Definition context_rule_matches `{Unicode} (rule : string) (n : SyntaxNode)
    (ancestors : list string) : bool :=
  let normalized := to_lowercase (trim rule) in
  match strip_prefix "inside " normalized with
  | Some expected => existsb (fun a => context_name_matches a expected) ancestors
  | None =>
  match strip_prefix "type is " normalized with
  | Some expected_type => field_type_matches n "type" expected_type
  | None =>
  match strip_prefix "has " normalized with
  | Some f =>
      match map_get f (fields n) ≫= as_str with
      | Some value => negb (is_empty value)
      | None => false
      end
  | None =>
      if String.eqb normalized "qualified declarator" then
        field_descendant_has n "declarator" "qualified_identifier"
      else if String.eqb normalized "function declarator" then
        field_type_matches n "declarator" "function_declarator"
        || field_descendant_has n "declarator" "function_declarator"
      else false
  end end end.

(** ** The mapping of a node *)
Definition mapping_for_syntax_node `{Unicode} (n : SyntaxNode) (mappings : list CaptureMapping)
    (ancestors : list string) : option CaptureMapping :=
  let candidates :=
    List.filter (fun m => existsb (fun t => String.eqb t (node_type n)) (parser_node_types m))
      mappings in
  match List.find (fun m => negb (is_empty (context_rule m))
                      && context_rule_matches (context_rule m) n ancestors) candidates with
  | Some m => Some m
  | None => List.find (fun m => is_empty (context_rule m)) candidates
  end.

Definition mapping_for_capture_name (mappings : list CaptureMapping) (name : string)
    : option CaptureMapping :=
  List.find (fun m => String.eqb (mapping_capture_name m) name) mappings.

(** [mark_captures] visits the children first; the mapping of a node looks at its own
    type and fields only, with the types of its ancestors, outermost first. *)
Fixpoint mark_captures `{Unicode} (n : SyntaxNode) (p : LanguageProfile)
    (ancestors : list string) : SyntaxNode :=
  match n with
  | mkSyntaxNode ty tx ls le bs be cn fn cs fs =>
      let child_ancestors := ancestors ++ [ty] in
      let n1 := mkSyntaxNode ty tx ls le bs be cn fn
                  (List.map (fun c => mark_captures c p child_ancestors) cs) fs in
      match mapping_for_syntax_node n1 (capture_mappings p) ancestors with
      | Some m => set_capture_name n1 (mapping_capture_name m)
      | None => n1
      end
  end.

(** ** Induction on trees *)
Section Ind.
Variable P : SyntaxNode -> Prop.
Hypothesis step : forall n, Forall P (children n) -> P n.

Fixpoint SyntaxNode_nested_ind (n : SyntaxNode) : P n :=
  step n
    ((fix go (l : list SyntaxNode) : Forall P l :=
        match l with
        | [] => Forall_nil_2 _
        | c :: l => Forall_cons_2 _ _ _ (SyntaxNode_nested_ind c) (go l)
        end) (children n)).
End Ind.

(** ** Which mapping applies *)
(** A mapping names the node's type. *)
Definition names_type (n : SyntaxNode) (m : CaptureMapping) : Prop :=
  node_type n ∈ parser_node_types m.
Definition plain (m : CaptureMapping) : Prop := context_rule m = "".
Definition context_holds `{Unicode} (n : SyntaxNode) (anc : list string) (m : CaptureMapping) : Prop :=
  context_rule m <> "" /\ context_rule_matches (context_rule m) n anc = true.

(** [m] is the first element of [l] with [P]. *)
Definition first_with {A} (P : A -> Prop) (l : list A) (m : A) : Prop :=
  exists l1 l2, l = l1 ++ m :: l2 /\ P m /\ forall m', m' ∈ l1 -> ~ P m'.

Lemma find_first_with {A} (f : A -> bool) (P : A -> Prop) l m :
  (forall x, f x = true <-> P x) -> List.find f l = Some m <-> first_with P l m.
Proof.
  intros HP. unfold first_with. induction l as [|x l IH]; simpl.
  - split; [done|]. intros (l1 & l2 & E & _). by destruct l1.
  - destruct (f x) eqn:Ex.
    + split.
      * intros [= ->]. exists [], l. split; [done|]. split; [by apply HP|]. by intros ? ?%elem_of_nil.
      * intros (l1 & l2 & E & Hm & Hn). destruct l1 as [|y l1]; simplify_eq/=; [done|].
        exfalso. apply (Hn y); [apply list_elem_of_here|by apply HP].
    + rewrite IH. split.
      * intros (l1 & l2 & -> & Hm & Hn). exists (x :: l1), l2. split; [done|]. split; [done|].
        intros m' [->|Hin]%elem_of_cons; [|by apply Hn]. rewrite <- HP. congruence.
      * intros (l1 & l2 & E & Hm & Hn). destruct l1 as [|y l1]; simplify_eq/=.
        -- apply HP in Hm. congruence.
        -- exists l1, l2. split; [done|]. split; [done|]. intros m' Hin. apply Hn.
           by apply list_elem_of_further.
Qed.

Lemma find_filter {A} (f g : A -> bool) l :
  List.find f (List.filter g l) = List.find (fun x => g x && f x) l.
Proof.
  induction l as [|x l IH]; simpl; [done|].
  destruct (g x) eqn:E; simpl; [|done]. by destruct (f x).
Qed.

Lemma find_ext {A} (f g : A -> bool) l : (forall x, f x = g x) -> List.find f l = List.find g l.
Proof. intros Hfg. induction l as [|x l IH]; simpl; [done|]. by rewrite Hfg, IH. Qed.

Lemma find_none_iff {A} (f : A -> bool) (P : A -> Prop) l :
  (forall x, f x = true <-> P x) -> List.find f l = None <-> forall x, x ∈ l -> ~ P x.
Proof.
  intros HP. split.
  - intros H x Hx HPx. apply list_elem_of_In in Hx. apply HP in HPx.
    by rewrite (List.find_none _ _ H _ Hx) in HPx.
  - intros H. destruct (List.find f l) as [x|] eqn:E; [|done].
    apply List.find_some in E as [Hin Hf]. exfalso. apply (H x).
    + by apply list_elem_of_In.
    + by apply HP.
Qed.

Lemma is_empty_true s : is_empty s = true <-> s = "".
Proof. by destruct s. Qed.

Section Mapping.
Context `{Unicode}.

Lemma context_test n anc m :
  existsb (fun t => String.eqb t (node_type n)) (parser_node_types m)
    && (negb (is_empty (context_rule m)) && context_rule_matches (context_rule m) n anc) = true
  <-> names_type n m /\ context_holds n anc m.
Proof.
  unfold names_type, context_holds. rewrite !andb_true_iff, existsb_elem_of, negb_true_iff.
  rewrite <- not_true_iff_false, is_empty_true. split.
  - intros [[t [Ht E]] ?]. apply String.eqb_eq in E as <-. done.
  - intros [Ht ?]. split; [|done]. exists (node_type n). split; [done|apply String.eqb_refl].
Qed.

Lemma plain_test n m :
  existsb (fun t => String.eqb t (node_type n)) (parser_node_types m) && is_empty (context_rule m)
    = true
  <-> names_type n m /\ plain m.
Proof.
  unfold names_type, plain. rewrite !andb_true_iff, existsb_elem_of, is_empty_true. split.
  - intros [[t [Ht E]] ?]. apply String.eqb_eq in E as <-. done.
  - intros [Ht ?]. split; [|done]. exists (node_type n). split; [done|apply String.eqb_refl].
Qed.

Lemma mapping_for_syntax_node_some n ms anc m :
  mapping_for_syntax_node n ms anc = Some m <->
  first_with (fun m => names_type n m /\ context_holds n anc m) ms m \/
  (forall m', m' ∈ ms -> ~ (names_type n m' /\ context_holds n anc m')) /\
  first_with (fun m => names_type n m /\ plain m) ms m.
Proof.
  unfold mapping_for_syntax_node. rewrite !find_filter.
  rewrite <- (find_first_with _ _ ms m (context_test n anc)).
  rewrite <- (find_first_with _ _ ms m (plain_test n)).
  rewrite <- (find_none_iff _ _ ms (context_test n anc)).
  destruct (List.find _ ms) as [m'|] eqn:E; split.
  - intros [= ->]. by left.
  - by intros [?|[? ?]].
  - intros ?. by right.
  - by intros [?|[? ?]].
Qed.

Lemma first_with_elem {A} (P : A -> Prop) l m : first_with P l m -> m ∈ l /\ P m.
Proof. intros (l1 & l2 & -> & HP & _). split; [set_solver|done]. Qed.

Lemma first_with_exists {A} (f : A -> bool) (P : A -> Prop) l x :
  (forall x, f x = true <-> P x) -> x ∈ l -> P x -> exists m, first_with P l m.
Proof.
  intros HP Hx HPx. destruct (List.find f l) as [m|] eqn:E.
  - exists m. by apply (find_first_with f).
  - exfalso. by apply (proj1 (find_none_iff f P l HP) E x).
Qed.
End Mapping.

(** the capture mapping of a syntax node is the first mapping, in the profile's
    order, that names the node's type and whose context rule holds; only when none does
    is it the first mapping of that type without a context rule; and a node has no
    mapping only when neither exists. *)
Theorem mapping_for_syntax_node_priority `{Unicode} n ms anc :
  (forall m, mapping_for_syntax_node n ms anc = Some m <->
     first_with (fun m => names_type n m /\ context_holds n anc m) ms m \/
     (forall m', m' ∈ ms -> ~ (names_type n m' /\ context_holds n anc m')) /\
     first_with (fun m => names_type n m /\ plain m) ms m) /\
  (mapping_for_syntax_node n ms anc = None <->
     forall m, m ∈ ms -> names_type n m -> ~ context_holds n anc m /\ ~ plain m).
Proof.
  split; [apply mapping_for_syntax_node_some|]. split.
  - unfold mapping_for_syntax_node. rewrite !find_filter.
    destruct (List.find _ ms) eqn:E1; [done|]. intros E2 m Hm Ht.
    pose proof (proj1 (find_none_iff _ _ ms (context_test n anc)) E1 m Hm).
    pose proof (proj1 (find_none_iff _ _ ms (plain_test n)) E2 m Hm). tauto.
  - intros Hno. destruct (mapping_for_syntax_node n ms anc) as [m|] eqn:E; [|done].
    apply mapping_for_syntax_node_some in E as [Hf|[_ Hf]];
      apply first_with_elem in Hf as (Hin & Ht & Hc); by destruct (Hno m Hin Ht).
Qed.

(** ** Marking *)
(** The tree without its capture names. *)
Fixpoint erase_captures (n : SyntaxNode) : SyntaxNode :=
  match n with
  | mkSyntaxNode ty tx ls le bs be cn fn cs fs =>
      mkSyntaxNode ty tx ls le bs be "" fn (List.map erase_captures cs) fs
  end.

(** The mapping of a node depends on its type and fields alone. *)
Lemma context_rule_matches_ext `{Unicode} rule n n' anc :
  fields n = fields n' -> context_rule_matches rule n anc = context_rule_matches rule n' anc.
Proof.
  intros Hf. unfold context_rule_matches, field_type_matches, field_descendant_has. by rewrite Hf.
Qed.

Lemma mapping_for_syntax_node_ext `{Unicode} n n' ms anc :
  node_type n = node_type n' -> fields n = fields n' ->
  mapping_for_syntax_node n ms anc = mapping_for_syntax_node n' ms anc.
Proof.
  intros Ht Hf. unfold mapping_for_syntax_node. rewrite Ht, !find_filter.
  rewrite (find_ext _ (fun m => existsb (fun t => String.eqb t (node_type n')) (parser_node_types m)
    && (negb (is_empty (context_rule m)) && context_rule_matches (context_rule m) n' anc))); [done|].
  intros m. by rewrite (context_rule_matches_ext _ n n') by done.
Qed.

Section Marking.
Context `{Unicode} (p : LanguageProfile).

(** The capture name marking gives a node. *)
Definition captured_name (n : SyntaxNode) (anc : list string) : string :=
  match mapping_for_syntax_node n (capture_mappings p) anc with
  | Some m => mapping_capture_name m
  | None => capture_name n
  end.

Lemma mark_captures_eq n anc :
  mark_captures n p anc =
  set_capture_name
    (set_children n (List.map (fun c => mark_captures c p (anc ++ [node_type n])) (children n)))
    (captured_name n anc).
Proof.
  destruct n as [ty tx ls le bs be cn fn cs fs]. simpl. unfold captured_name.
  set (n1 := mkSyntaxNode ty tx ls le bs be cn fn (List.map _ cs) fs).
  rewrite (mapping_for_syntax_node_ext n1 (mkSyntaxNode ty tx ls le bs be cn fn cs fs)) by done.
  by destruct (mapping_for_syntax_node _ _ _).
Qed.

Lemma erase_captures_eq n :
  erase_captures n =
  set_capture_name (set_children n (List.map erase_captures (children n))) "".
Proof. by destruct n. Qed.
End Marking.

(** Marking changes nothing of a tree but capture names; a node gets the name of the
    mapping of its type, fields and ancestors (and keeps its name when there is none);
    and marking a marked tree again changes nothing. *)
Theorem mark_captures_correct `{Unicode} p n anc :
  erase_captures (mark_captures n p anc) = erase_captures n /\
  capture_name (mark_captures n p anc) = captured_name p n anc /\
  children (mark_captures n p anc) =
    List.map (fun c => mark_captures c p (anc ++ [node_type n])) (children n) /\
  mark_captures (mark_captures n p anc) p anc = mark_captures n p anc.
Proof.
  split; [|split; [|split]].
  - revert anc. induction n as [n IH] using SyntaxNode_nested_ind. intros anc.
    rewrite mark_captures_eq, !erase_captures_eq. unfold set_capture_name, set_children. simpl.
    f_equal. rewrite List.map_map. apply List.map_ext_in. intros c Hc.
    rewrite Forall_forall in IH. apply IH. by apply list_elem_of_In.
  - by rewrite mark_captures_eq.
  - by rewrite mark_captures_eq.
  - revert anc. induction n as [n IH] using SyntaxNode_nested_ind. intros anc.
    rewrite (mark_captures_eq p (mark_captures n p anc)), !(mark_captures_eq p n anc).
    unfold set_capture_name, set_children; simpl. f_equal.
    + unfold captured_name. simpl.
      erewrite mapping_for_syntax_node_ext with (n' := n) by done.
      by destruct (mapping_for_syntax_node n _ _).
    + rewrite List.map_map. apply List.map_ext_in. intros c Hc.
      rewrite Forall_forall in IH. apply IH. by apply list_elem_of_In.
Qed.
