(* ===== verification/Markdown.v ===== *)
(** * The markdown parser (src/parser/markdown.rs)

    A markdown file becomes one [DocumentationSource] node and one [DocumentationChunk]
    node per heading section. *)
From S2P Require Import Prelude Order Text Json Protocol Normalize.

Record ParseOutput := { root : SyntaxNode; diagnostics : list string }.

Record MarkdownSection := {
  sec_heading : string;
  sec_line_start : nat;
  sec_line_end : nat;
  sec_text : string
}.

(** ** Lines *)
Definition newline : ascii := "010".
Definition carriage_return : string := String "013" "".

(** [str::lines]: a line ends with LF or CR LF; a last line without LF keeps its CR; an
    empty last line is no line. *)
Fixpoint lines_of_pieces (ps : list string) : list string :=
  match ps with
  | [] => []
  | [p] => if is_empty p then [] else [p]
  | p :: ps => default p (strip_suffix carriage_return p) :: lines_of_pieces ps
  end.
Definition lines (s : string) : list string := lines_of_pieces (split newline s).

(** ** Headings *)
Fixpoint leading_hashes (s : string) : nat :=
  match s with
  | String a s => if Ascii.eqb a "#" then S (leading_hashes s) else 0
  | EmptyString => 0
  end.

(** [&s[n..]] *)
Fixpoint drop_bytes (n : nat) (s : string) : string :=
  match n, s with
  | O, _ => s
  | S n, String _ s => drop_bytes n s
  | S _, EmptyString => ""
  end.

Definition starts_with_white (s : string) : bool :=
  match strip_one white_space s with Some _ => true | None => false end.

Definition heading_of (line : string) : option string :=
  let trimmed := trim_start line in
  let level := leading_hashes trimmed in
  if (1 <=? level)%nat && (level <=? 6)%nat && starts_with_white (drop_bytes level trimmed)
  then Some (trim (drop_bytes level trimmed)) else None.

(** The heading lines with their numbers, [n] being the number of the first line. *)
Fixpoint headings_from (n : nat) (ls : list string) : list (nat * string) :=
  match ls with
  | [] => []
  | l :: ls => match heading_of l with
               | Some h => (n, h) :: headings_from (S n) ls
               | None => headings_from (S n) ls
               end
  end.

Fixpoint sections_of (ls : list string) (hs : list (nat * string)) : list MarkdownSection :=
  match hs with
  | [] => []
  | (start, h) :: rest =>
      let stop := match rest with (next, _) :: _ => next - 1 | [] => length ls end in
      let t := trim (join (String newline "") (take (stop - (start - 1)) (drop (start - 1) ls))) in
      (if is_empty t then []
       else [{| sec_heading := h; sec_line_start := start; sec_line_end := stop; sec_text := t |}])
      ++ sections_of ls rest
  end.

Definition markdown_sections (source : string) : list MarkdownSection :=
  let ls := lines source in
  match headings_from 1 ls with
  | [] =>
      let t := trim source in
      if is_empty t then []
      else [{| sec_heading := ""; sec_line_start := 1;
               sec_line_end := Nat.max (length ls) 1; sec_text := t |}]
  | hs => sections_of ls hs
  end.

Definition summary (t : string) : string := take_chars 2000 (trim t).

(** ** Nodes *)
Definition markdown_node (ty t : string) (ls le bs be : Z) (values : list (string * string))
    : SyntaxNode :=
  let fields := fold_left (fun m kv =>
    if is_empty kv.2 then m else map_insert kv.1 (VString kv.2) m) values [] in
  mkSyntaxNode ty t (Some ls) (Some le)
    (if Z.eqb be 0 then None else Some bs) (if Z.eqb be 0 then None else Some be)
    "" None [] fields.

Definition push_markdown_capture (p : LanguageProfile) (capture : string) (n root : SyntaxNode)
    : SyntaxNode :=
  match mapping_for_capture_name (capture_mappings p) capture with
  | None => root
  | Some m => set_children root (children root ++ [set_capture_name n (mapping_capture_name m)])
  end.

Definition section_node (s : MarkdownSection) : SyntaxNode :=
  let heading := if is_empty (sec_heading s) then "section" else sec_heading s in
  markdown_node "DocumentationChunk" (sec_text s) (Z.of_nat (sec_line_start s))
    (Z.of_nat (sec_line_end s)) 0 0
    [("name", heading); ("heading", sec_heading s); ("text", summary (sec_text s))].

Definition parse_markdown_source (source : string) (p : LanguageProfile) : ParseOutput :=
  let root := mkSyntaxNode "Module" "" None None None None "" None [] [] in
  let total_lines := Z.of_nat (Nat.max (length (lines source)) 1) in
  let root := push_markdown_capture p "doc.source"
    (markdown_node "DocumentationSource" source 1 total_lines 0
       (Z.of_nat (String.length source)) [("name", ""); ("text", summary source)]) root in
  let root := fold_left (fun root s => push_markdown_capture p "doc.chunk" (section_node s) root)
    (markdown_sections source) root in
  {| root := root; diagnostics := [] |}.

(** ** What trimming removes *)
Lemma trim_start_removed pats s c :
  Forall (fun p => contains_char p c = false) pats ->
  contains_char (trim_start_pats pats s) c = contains_char s c.
Proof.
  intros Hp. unfold trim_start_pats. generalize (String.length s) as fuel. intros fuel. revert s.
  induction fuel as [|fuel IH]; intros s; simpl; [done|].
  destruct (strip_one pats s) as [r|] eqn:E; [|done].
  apply strip_one_Some in E as [p [Hin ->]]. rewrite IH, contains_char_app.
  rewrite Forall_forall in Hp. by rewrite (Hp _ Hin).
Qed.

Lemma contains_char_srev s c : contains_char (srev s) c = contains_char s c.
Proof.
  induction s as [|a s IH]; [done|]. rewrite srev_cons, contains_char_app, IH. simpl.
  rewrite orb_false_r. apply orb_comm.
Qed.

Lemma trim_end_removed pats s c :
  Forall (fun p => contains_char p c = false) pats ->
  contains_char (trim_end_pats pats s) c = contains_char s c.
Proof.
  intros Hp. unfold trim_end_pats. rewrite contains_char_srev, trim_start_removed.
  - apply contains_char_srev.
  - apply Forall_fmap. eapply Forall_impl; [exact Hp|]. intros p. simpl. by rewrite contains_char_srev.
Qed.

Lemma trim_removed s c :
  forallb (fun p => negb (contains_char p c)) white_space = true ->
  contains_char (trim s) c = contains_char s c.
Proof.
  intros H. assert (Forall (fun p => contains_char p c = false) white_space) as Hw.
  { rewrite Forall_forall. intros p Hin. rewrite forallb_elem_of in H.
    by apply negb_true_iff, H. }
  unfold trim, trim_end, trim_start. by rewrite trim_end_removed, trim_start_removed.
Qed.

(** ** Heading lines *)
Lemma heading_has_hash l h : heading_of l = Some h -> contains_char l "#" = true.
Proof.
  unfold heading_of. intros E.
  destruct (trim_start_pats_suffix white_space l) as [w Hw].
  rewrite Hw, contains_char_app. fold (trim_start l). apply orb_true_iff. right.
  destruct (trim_start l) as [|a t]; [done|]. simpl in *.
  destruct (Ascii.eqb a "#") eqn:Ea; [done|discriminate E].
Qed.

Lemma contains_char_join sep l ls c :
  l ∈ ls -> contains_char l c = true -> contains_char (join sep ls) c = true.
Proof.
  induction ls as [|x [|y ls] IH]; [by intros ?%elem_of_nil| |].
  - by intros ->%list_elem_of_singleton.
  - intros Hin Hc. change (join sep (x :: y :: ls)) with (x +:+ sep +:+ join sep (y :: ls)).
    rewrite !contains_char_app. apply elem_of_cons in Hin as [->|Hin]; [by rewrite Hc|].
    rewrite (IH Hin Hc). by rewrite !orb_true_r.
Qed.

Lemma headings_from_spec ls n k h :
  (k, h) ∈ headings_from n ls <->
  exists i l, k = n + i /\ ls !! i = Some l /\ heading_of l = Some h.
Proof.
  revert n. induction ls as [|l ls IH]; intros n; simpl.
  - split; [by intros ?%elem_of_nil|]. intros (i & l & _ & Hl & _). done.
  - assert ((k, h) ∈ headings_from (S n) ls <->
            exists i l', k = n + S i /\ ls !! i = Some l' /\ heading_of l' = Some h) as IH'.
    { rewrite IH. split; intros (i & l' & -> & ?); exists i, l'; (split; [lia|done]). }
    assert ((exists i l', k = n + i /\ (l :: ls) !! i = Some l' /\ heading_of l' = Some h) <->
            (k = n /\ heading_of l = Some h) \/
            exists i l', k = n + S i /\ ls !! i = Some l' /\ heading_of l' = Some h) as E.
    { split.
      - intros ([|i] & l' & -> & Hl & Hh).
        + left. injection Hl as ->. split; [lia|done].
        + right. by exists i, l'.
      - intros [[-> Hh]|(i & l' & -> & Hl & Hh)].
        + exists 0, l. split; [lia|done].
        + by exists (S i), l'. }
    rewrite E, <- IH'. destruct (heading_of l) as [h0|].
    + rewrite elem_of_cons. split; intros [H|H]; try (by right); left.
      * by injection H as -> ->.
      * by destruct H as [-> [= ->]].
    + split; [by right|]. by intros [[_ ?]|?].
Qed.

(** Consecutive heading numbers increase, and between them no line is a heading. *)
Lemma headings_from_next ls n k h rest :
  headings_from n ls = (k, h) :: rest ->
  n <= k /\ rest = headings_from (S k) (drop (S (k - n)) ls) /\
  (exists l, ls !! (k - n) = Some l /\ heading_of l = Some h).
Proof.
  revert n. induction ls as [|l ls IH]; intros n; simpl; [done|].
  destruct (heading_of l) as [h0|] eqn:Hh.
  - intros [= -> -> <-]. rewrite Nat.sub_diag. split; [done|]. split; [done|]. by exists l.
  - intros Hr. destruct (IH _ Hr) as (Hle & -> & l' & Hl & Hl').
    replace (k - n) with (S (k - S n)) by lia. split; [lia|]. split; [done|]. by exists l'.
Qed.

Lemma section_text_nonempty ls start stop l h :
  1 <= start -> start <= stop -> ls !! (start - 1) = Some l -> heading_of l = Some h ->
  is_empty (trim (join (String newline "") (take (stop - (start - 1)) (drop (start - 1) ls))))
    = false.
Proof.
  intros H1 H2 Hl Hh.
  assert (contains_char (trim (join (String newline "")
    (take (stop - (start - 1)) (drop (start - 1) ls)))) "#" = true) as Hc.
  { rewrite trim_removed by reflexivity. eapply contains_char_join; [|by eapply heading_has_hash].
    erewrite drop_S by exact Hl. replace (stop - (start - 1)) with (S (stop - start)) by lia.
    apply list_elem_of_here. }
  by destruct (trim _).
Qed.

(** Each section spans the lines from its heading to the next heading or the end. *)
Inductive covers (ls : list string) : nat -> list MarkdownSection -> Prop :=
| covers_last s :
    sec_line_end s = length ls -> covers ls (sec_line_start s) [s]
| covers_next s s' ss :
    S (sec_line_end s) = sec_line_start s' ->
    covers ls (sec_line_start s') (s' :: ss) -> covers ls (sec_line_start s) (s :: s' :: ss).

Definition section_well_formed (ls : list string) (s : MarkdownSection) : Prop :=
  1 <= sec_line_start s <= sec_line_end s /\ sec_line_end s <= length ls /\
  sec_text s = trim (join (String newline "")
    (take (sec_line_end s - (sec_line_start s - 1)) (drop (sec_line_start s - 1) ls))) /\
  sec_text s <> "".

Lemma sections_of_spec ls n hs :
  hs = headings_from (S n) (drop n ls) -> n <= length ls ->
  ((fun s => (sec_line_start s, sec_heading s)) <$> sections_of ls hs) = hs /\
  Forall (section_well_formed ls) (sections_of ls hs) /\
  (hs <> [] -> exists k, covers ls k (sections_of ls hs)).
Proof.
  revert n. induction hs as [|[k h] rest IH]; intros n Hhs Hn; [done|].
  symmetry in Hhs. destruct (headings_from_next _ _ _ _ _ Hhs) as (Hk & Hrest & l & Hl & Hlh).
  rewrite lookup_drop in Hl. replace (n + (k - S n)) with (k - 1) in Hl by lia.
  pose proof (lookup_lt_Some _ _ _ Hl) as Hlt.
  rewrite drop_drop in Hrest. replace (n + S (k - S n)) with k in Hrest by lia.
  destruct (IH k Hrest ltac:(lia)) as (IH1 & IH2 & IH3). clear IH.
  assert (forall k2 h2 r2, rest = (k2, h2) :: r2 -> k < k2 <= length ls) as Hnext.
  { intros k2 h2 r2 ->. symmetry in Hrest.
    destruct (headings_from_next _ _ _ _ _ Hrest) as (Hk2 & _ & l2 & Hl2 & _).
    rewrite lookup_drop in Hl2. apply lookup_lt_Some in Hl2. lia. }
  cbn [sections_of]. set (stop := match rest with [] => length ls | (next, _) :: _ => next - 1 end).
  assert (k <= stop <= length ls) as Hstop.
  { unfold stop. destruct rest as [|[k2 h2] r2]; [lia|]. specialize (Hnext _ _ _ eq_refl). lia. }
  pose proof (section_text_nonempty ls k stop l h ltac:(lia) ltac:(lia) Hl Hlh) as Hne.
  rewrite Hne. cbn [app fmap list_fmap]. split; [|split].
  - f_equal. exact IH1.
  - constructor; [|done]. split; [simpl; lia|]. split; [simpl; lia|]. split; [done|].
    cbn [sec_text]. intros E. by rewrite E in Hne.
  - intros _. exists k.
    change k with (sec_line_start {| sec_heading := h; sec_line_start := k; sec_line_end := stop;
      sec_text := trim (join (String newline "") (take (stop - (k - 1)) (drop (k - 1) ls))) |}) at 1.
    destruct rest as [|[k2 h2] r2]; [by constructor|].
    destruct (IH3 ltac:(done)) as [k' Hc].
    destruct (sections_of ls ((k2, h2) :: r2)) as [|s' ss] eqn:Es; [by inversion Hc|].
    assert (sec_line_start s' = k2) as <- by (simpl in IH1; congruence).
    constructor.
    + specialize (Hnext _ _ _ eq_refl). unfold stop. simpl. lia.
    + by inversion Hc; subst.
Qed.

(** C13: when the file has headings, the sections are exactly its heading lines, in
    order, with their headings; a section's lines are in bounds, so slicing them cannot
    panic, and its text is the trimmed text of these lines and not empty; and the
    sections, one following the other, cover every line from the first heading to the end
    of the file. *)
Theorem markdown_sections_correct source :
  headings_from 1 (lines source) <> [] ->
  ((fun s => (sec_line_start s, sec_heading s)) <$> markdown_sections source)
    = headings_from 1 (lines source) /\
  Forall (section_well_formed (lines source)) (markdown_sections source) /\
  (exists k, covers (lines source) k (markdown_sections source)) /\
  (forall k h, (k, h) ∈ headings_from 1 (lines source) <->
     exists l, 1 <= k /\ lines source !! (k - 1) = Some l /\ heading_of l = Some h).
Proof.
  intros Hne.
  destruct (sections_of_spec (lines source) 0 (headings_from 1 (lines source))) as (H1 & H2 & H3);
    [done|lia|].
  assert (markdown_sections source = sections_of (lines source) (headings_from 1 (lines source))) as ->.
  { unfold markdown_sections. by destruct (headings_from 1 (lines source)). }
  split; [done|]. split; [done|]. split; [by apply H3|]. intros k h. rewrite headings_from_spec.
  split.
  - intros (i & l & -> & ?). exists l. split; [lia|]. by replace (1 + i - 1) with i by lia.
  - intros (l & Hk & ?). exists (k - 1), l. split; [lia|done].
Qed.

Definition sample_source : string :=
  join (String newline "") ["intro"; "# Title"; ""; "body"; "##not a heading"; "## Next "; "x"].

Lemma markdown_sections_correct_witness :
  headings_from 1 (lines sample_source) = [(2, "Title"); (6, "Next")] /\
  ((fun s => (sec_line_start s, sec_heading s)) <$> markdown_sections sample_source)
    = headings_from 1 (lines sample_source) /\
  Forall (section_well_formed (lines sample_source)) (markdown_sections sample_source) /\
  (exists k, covers (lines sample_source) k (markdown_sections sample_source)) /\
  (forall k h, (k, h) ∈ headings_from 1 (lines sample_source) <->
     exists l, 1 <= k /\ lines sample_source !! (k - 1) = Some l /\ heading_of l = Some h).
Proof.
  split; [vm_compute; reflexivity|]. apply (markdown_sections_correct sample_source).
  vm_compute. discriminate.
Defined.
