(* ===== verification/Profiles.v ===== *)
(** * Language profiles (src/profiles.rs)

    The built-in profiles, and the lookup tables a request's profiles extend. *)
From S2P Require Import Prelude Order Text Json Protocol.

Definition mapping_with_context (capture : string) (types : list string) (target ctx : string)
    : CaptureMapping := {|
  mapping_capture_name := capture;
  parser_node_types := types;
  target_node_type := target;
  mapping_relation_types := [];
  context_rule := ctx;
  construct := ""
|}.

Definition mapping (capture : string) (types : list string) (target : string) : CaptureMapping :=
  mapping_with_context capture types target "".

Definition typescript_mappings : list CaptureMapping :=
  [
        mapping "definition.class" ["class_declaration"; "abstract_class_declaration"] "Class";
        mapping "definition.interface" ["interface_declaration"] "Class";
        mapping "definition.enum" ["enum_declaration"] "Class";
        mapping "definition.type_alias" ["type_alias_declaration"] "TypeAlias";
        mapping "definition.function" ["function_declaration"; "generator_function_declaration"] "Function";
        mapping "definition.method" ["method_definition"; "method_signature"; "abstract_method_signature"] "Method";
        mapping "reference.import" ["import_statement"] "ImportDeclaration";
        mapping "reference.call" ["call_expression"] "CallExpression"
    ].

Definition javascript_mappings : list CaptureMapping :=
  [
        mapping "definition.class" ["class_declaration"] "Class";
        mapping "definition.function" ["function_declaration"; "generator_function_declaration"] "Function";
        mapping "definition.method" ["method_definition"] "Method";
        mapping "reference.import" ["import_statement"] "ImportDeclaration";
        mapping "reference.call" ["call_expression"] "CallExpression"
    ].

Definition webassembly_mappings : list CaptureMapping :=
  [
        mapping_with_context "definition.module" ["module"] "Module" "has name";
        mapping_with_context "definition.function" ["module_field_func"] "Function" "has name";
        mapping_with_context "definition.type_alias" ["type_def"] "TypeAlias" "has name";
        mapping "reference.import" ["module_field_import"] "ImportDeclaration";
        mapping "definition.export" ["module_field_export"; "export"] "ExportDeclaration";
        mapping_with_context "reference.call" ["plain_instr"] "CallExpression" "has function"
    ].

Definition c_family_mappings : list CaptureMapping :=
  [
        mapping "definition.function" ["function_definition"] "Function";
        mapping_with_context "definition.function" ["declaration"] "Function" "function declarator";
        mapping "definition.struct" ["struct_specifier"] "Class";
        mapping "definition.union" ["union_specifier"] "Class";
        mapping "definition.enum" ["enum_specifier"] "Class";
        mapping "definition.class" ["class_specifier"] "Class";
        mapping "reference.include" ["preproc_include"] "ImportDeclaration";
        mapping "reference.call" ["call_expression"] "CallExpression"
    ].

Definition built_in_profiles : list LanguageProfile :=
  [
        {|
            profile_language := "python";
            suffixes := [".py"];
            grammar_package := "tree_sitter_python";
            profile_grammar_version := "tree_sitter_python@0.25.0";
            root_node_types := ["module"];
            capture_mappings := [
                mapping "definition.class" ["class_definition"] "Class";
                mapping "definition.function" ["function_definition"] "Function";
                mapping "reference.import" ["import_statement"; "import_from_statement"] "ImportDeclaration";
                mapping "reference.call" ["call"] "CallExpression"
            ]
        |};
        {|
            profile_language := "markdown";
            suffixes := [".md"; ".mdx"];
            grammar_package := "";
            profile_grammar_version := "builtin-markdown@1";
            root_node_types := ["Module"];
            capture_mappings := [
                mapping "doc.source" ["DocumentationSource"] "DocumentationSource";
                mapping "doc.chunk" ["DocumentationChunk"] "DocumentationChunk"
            ]
        |};
        {|
            profile_language := "css";
            suffixes := [".css"];
            grammar_package := "tree_sitter_css";
            profile_grammar_version := "tree_sitter_css@0.25.0";
            root_node_types := ["stylesheet"];
            capture_mappings := []
        |};
        {|
            profile_language := "typescript";
            suffixes := [".ts"; ".mts"; ".cts"];
            grammar_package := "tree_sitter_typescript";
            profile_grammar_version := "tree_sitter_typescript@0.23.2";
            root_node_types := ["program"];
            capture_mappings := typescript_mappings
        |};
        {|
            profile_language := "tsx";
            suffixes := [".tsx"];
            grammar_package := "tree_sitter_typescript";
            profile_grammar_version := "tree_sitter_typescript@0.23.2";
            root_node_types := ["program"];
            capture_mappings := typescript_mappings
        |};
        {|
            profile_language := "javascript";
            suffixes := [".js"; ".jsx"; ".mjs"; ".cjs"];
            grammar_package := "tree_sitter_javascript";
            profile_grammar_version := "tree_sitter_javascript@0.25.0";
            root_node_types := ["program"];
            capture_mappings := javascript_mappings
        |};
        {|
            profile_language := "html";
            suffixes := [".html"; ".htm"];
            grammar_package := "tree_sitter_html";
            profile_grammar_version := "tree_sitter_html@0.23.2";
            root_node_types := ["document"];
            capture_mappings := []
        |};
        {|
            profile_language := "webassembly";
            suffixes := [".wat"];
            grammar_package := "tree_sitter_wat";
            profile_grammar_version := "tree_sitter_wat@0.1.0+e3769473";
            root_node_types := ["root"];
            capture_mappings := webassembly_mappings
        |};
        {|
            profile_language := "rust";
            suffixes := [".rs"];
            grammar_package := "tree_sitter_rust";
            profile_grammar_version := "tree_sitter_rust@0.24.2";
            root_node_types := ["source_file"];
            capture_mappings := [
                mapping "definition.struct" ["struct_item"] "Class";
                mapping_with_context "definition.method" ["function_item"] "Method" "inside impl";
                mapping "definition.function" ["function_item"] "Function";
                mapping "reference.use" ["use_declaration"] "ImportDeclaration";
                mapping "reference.call" ["call_expression"] "CallExpression";
                mapping "reference.call" ["macro_invocation"] "CallExpression"
            ]
        |};
        {|
            profile_language := "go";
            suffixes := [".go"];
            grammar_package := "tree_sitter_go";
            profile_grammar_version := "tree_sitter_go@0.25.0";
            root_node_types := ["source_file"];
            capture_mappings := [
                mapping "definition.package" ["package_clause"] "Module";
                mapping "definition.function" ["function_declaration"] "Function";
                mapping "definition.method" ["method_declaration"] "Method";
                mapping "reference.import" ["import_declaration"] "ImportDeclaration";
                mapping "reference.call" ["call_expression"] "CallExpression"
            ]
        |};
        {|
            profile_language := "c";
            suffixes := [".c"; ".h"];
            grammar_package := "tree_sitter_c";
            profile_grammar_version := "tree_sitter_c@0.24.2";
            root_node_types := ["translation_unit"];
            capture_mappings := c_family_mappings
        |};
        {|
            profile_language := "cpp";
            suffixes := [".cc"; ".cpp"; ".cxx"; ".hpp"; ".hh"];
            grammar_package := "tree_sitter_cpp";
            profile_grammar_version := "tree_sitter_cpp@0.23.4";
            root_node_types := ["translation_unit"];
            capture_mappings := c_family_mappings
        |};
        {|
            profile_language := "fortran";
            suffixes := [".f"; ".f90"; ".f95"; ".for"];
            grammar_package := "tree_sitter_fortran";
            profile_grammar_version := "tree_sitter_fortran@0.6.0";
            root_node_types := ["translation_unit"];
            capture_mappings := [
                mapping "definition.module" ["module"] "Module";
                mapping "definition.function" ["program"] "Function";
                mapping "definition.function" ["subroutine"] "Function";
                mapping "definition.function" ["function"] "Function";
                mapping "reference.use" ["use_statement"] "ImportDeclaration";
                mapping "reference.call" ["subroutine_call"] "CallExpression";
                mapping "reference.call" ["call_expression"] "CallExpression"
            ]
        |}
    ].

(** ** Paths *)
(** [Path::file_name]: the last component, none when it is [..]; empty components and
    [.] are skipped. *)
Definition path_file_name (path : string) : option string :=
  match last (List.filter (fun c => negb (is_one_of c [""; "."])) (split "/" path)) with
  | Some name => if String.eqb name ".." then None else Some name
  | None => None
  end.

(** [Path::extension]: what follows the last dot, none when that dot leads the name. *)
Definition path_extension (path : string) : option string :=
  match path_file_name path ≫= rsplit_once "." with
  | Some (before, after) => if is_empty before then None else Some after
  | None => None
  end.

(** ** Profile sets *)
Record ProfileSet := {
  by_language : gmap string LanguageProfile;
  suffix_to_language : gmap string string
}.

Section Profiles.
Context `{Unicode}.

Definition add_suffixes (p : LanguageProfile) (m : gmap string string) : gmap string string :=
  fold_left (fun m s => <[to_lowercase s := profile_language p]> m) (suffixes p) m.

Definition add_profile (s : ProfileSet) (p : LanguageProfile) : ProfileSet := {|
  by_language := <[profile_language p := p]> (by_language s);
  suffix_to_language := add_suffixes p (suffix_to_language s)
|}.

Definition new (ps : list LanguageProfile) : ProfileSet :=
  fold_left add_profile (built_in_profiles ++ ps)
    {| by_language := ∅; suffix_to_language := ∅ |}.

Definition language_for_path (s : ProfileSet) (path : string) : option string :=
  match path_extension path with
  | Some ext => suffix_to_language s !! ("." +:+ to_lowercase ext)
  | None => None
  end.

Definition profile_for_language (s : ProfileSet) (l : string) : option LanguageProfile :=
  by_language s !! l.

Definition selected_profiles (s : ProfileSet) (languages : gset string) : list LanguageProfile :=
  omap (fun l => by_language s !! l) (btree_elements languages).

(** ** The reference: the last profile that claims a suffix or a language *)
Definition claims_suffix (suffix : string) (p : LanguageProfile) : bool :=
  existsb (fun s => String.eqb (to_lowercase s) suffix) (suffixes p).
Definition has_language (l : string) (p : LanguageProfile) : bool :=
  String.eqb (profile_language p) l.
Definition last_with (f : LanguageProfile -> bool) (ps : list LanguageProfile)
    : option LanguageProfile :=
  List.find f (rev ps).

Lemma lookup_add_suffixes p m suffix :
  add_suffixes p m !! suffix =
  if claims_suffix suffix p then Some (profile_language p) else m !! suffix.
Proof.
  unfold add_suffixes, claims_suffix. revert m. induction (suffixes p) as [|s ss IH]; intros m;
    simpl; [done|].
  rewrite IH. destruct (existsb _ ss); [by rewrite orb_true_r|]. rewrite orb_false_r.
  destruct (String.eqb_spec (to_lowercase s) suffix) as [->|Hne].
  - apply lookup_insert_eq.
  - by rewrite lookup_insert_ne.
Qed.

Lemma last_with_snoc f ps p :
  last_with f (ps ++ [p]) = if f p then Some p else last_with f ps.
Proof. unfold last_with. by rewrite rev_app_distr. Qed.

Lemma fold_add_profile_spec ps suffix l :
  let s := fold_left add_profile ps {| by_language := ∅; suffix_to_language := ∅ |} in
  suffix_to_language s !! suffix = profile_language <$> last_with (claims_suffix suffix) ps /\
  by_language s !! l = last_with (has_language l) ps.
Proof.
  induction ps as [|p ps IH] using rev_ind; [done|].
  rewrite !last_with_snoc, fold_left_app. simpl. destruct IH as [IH1 IH2]. split.
  - rewrite lookup_add_suffixes, IH1. by destruct (claims_suffix suffix p).
  - unfold has_language at 1. destruct (String.eqb_spec (profile_language p) l) as [->|Hne].
    + apply lookup_insert_eq.
    + by rewrite lookup_insert_ne.
Qed.

Lemma last_with_Some f ps p : last_with f ps = Some p -> p ∈ ps /\ f p = true.
Proof.
  intros [Hin Hf]%List.find_some. split; [|done]. apply list_elem_of_In. by apply in_rev.
Qed.

Lemma last_with_exists f ps p : p ∈ ps -> f p = true -> exists q, last_with f ps = Some q.
Proof.
  intros Hin Hf. destruct (last_with f ps) as [q|] eqn:E; [by exists q|].
  assert (In p (rev ps)) as Hr by (apply in_rev; by rewrite rev_involutive; apply list_elem_of_In).
  pose proof (List.find_none _ _ E p Hr). congruence.
Qed.

Lemma language_has_profile ps path l :
  language_for_path (new ps) path = Some l ->
  exists p, profile_for_language (new ps) l = Some p /\ profile_language p = l.
Proof.
  unfold new. generalize (built_in_profiles ++ ps). clear ps. intros ps.
  unfold language_for_path. destruct (path_extension path) as [ext|]; [|done].
  rewrite (proj1 (fold_add_profile_spec ps _ "")).
  intros [p [Hp ->]]%fmap_Some. apply last_with_Some in Hp as [Hin _].
  destruct (last_with_exists (has_language (profile_language p)) _ p Hin) as [q Hq].
  - by apply String.eqb_eq.
  - exists q. split.
    + unfold profile_for_language. by rewrite (proj2 (fold_add_profile_spec ps "" _)).
    + apply last_with_Some in Hq as [_ Hq]. by apply String.eqb_eq in Hq.
Qed.
End Profiles.

(** A path's language is the language of the last profile, the request's coming
    after the built-in ones, that claims its lowercase extension; a language's profile
    is the last one of that language; and every language a path resolves to has a
    profile of that language, so a supported file always finds its profile. *)
Theorem profile_set_resolves `{Unicode} ps :
  (forall path, language_for_path (new ps) path =
     (ext ← path_extension path;
      profile_language <$>
        last_with (claims_suffix ("." +:+ to_lowercase ext)) (built_in_profiles ++ ps))) /\
  (forall l, profile_for_language (new ps) l = last_with (has_language l) (built_in_profiles ++ ps)) /\
  (forall path l, language_for_path (new ps) path = Some l ->
     exists p, profile_for_language (new ps) l = Some p /\ profile_language p = l).
Proof.
  split; [|split; [|apply language_has_profile]]; unfold new; generalize (built_in_profiles ++ ps);
    clear ps; intros ps.
  - intros path. unfold language_for_path. destruct (path_extension path) as [ext|]; [|done].
    apply (proj1 (fold_add_profile_spec ps _ "")).
  - intros l. apply (proj2 (fold_add_profile_spec ps "" l)).
Qed.

(** The suffixes the program documents (the test of src/profiles.rs). *)
Example base_profiles_recognize_documented_suffixes :
  language_for_path (H := ascii_unicode) (new (H := ascii_unicode) []) <$>
    ["service.py"; "README.md"; "README.mdx"; "service.cts"; "component.tsx"; "MODULE.WAT";
     "src/lib.rs"; "service.h"; "service.hh"; "solver.for"; "module.wast"; ".rs"]
  = [Some "python"; Some "markdown"; Some "markdown"; Some "typescript"; Some "tsx";
     Some "webassembly"; Some "rust"; Some "c"; Some "cpp"; Some "fortran"; None; None].
Proof. vm_compute. reflexivity. Qed.
