(* ===== verification/Diff.v ===== *)
(** * The difference between a manifest and a scan (src/scan.rs, first half)

    Decides which files of the source tree are built again and which artifacts of the
    previous materialization are used as they are. *)
From S2P Require Import Prelude Order Text Json Protocol.

Section Diff.
Context `{DigestBackend}.

Definition requires_full_source_rebuild (r : NativeSyntaxMaterializationRequest) : bool :=
  match previous_manifest r with
  | None => true
  | Some previous =>
      let current_digest := result_ok (graph_build_compatibility_digest r) in
      negb (bool_decide (graph_build_digest previous = current_digest))
      || existsb (fun e => is_empty (default "" (artifact_key e))) (btree_values (files previous))
  end.

Definition validate_profile_grammar_versions (ps : list LanguageProfile) : native_result unit :=
  try_fold (fun _ p =>
    if is_empty (trim (profile_grammar_version p)) then
      Err (InvalidInput ("language profile " +:+ profile_language p
                         +:+ " requires grammar_version"))
    else Ok tt) tt ps.

(** The keys of the previous manifest that the scan no longer has. *)
Definition missing_paths (previous : NativeManifest) (supported : gmap string SourceSnapshot)
    : list string :=
  List.filter (fun path => negb (bool_decide (is_Some (supported !! path))))
    (btree_keys (files previous)).

Definition entry_differs (e : ManifestEntry) (s : SourceSnapshot) : bool :=
  negb (String.eqb (entry_content_hash e) (snapshot_content_hash s))
  || negb (String.eqb (entry_language e) (default "" (snapshot_language s))).

Definition diff_step (previous : NativeManifest) (acc : list string * list string * list string)
    (kv : string * SourceSnapshot) : list string * list string * list string :=
  let '(added, modified, unchanged) := acc in
  match files previous !! kv.1 with
  | None => (added ++ [kv.1], modified, unchanged)
  | Some e => if entry_differs e kv.2 then (added, modified ++ [kv.1], unchanged)
              else (added, modified, unchanged ++ [kv.1])
  end.

Definition manifest_incompatible (previous : NativeManifest)
    (r : NativeSyntaxMaterializationRequest) : bool :=
  negb (N.eqb (schema_version previous) (manifest_schema_version r))
  || negb (String.eqb (manifest_ontology previous) (ontology r))
  || negb (String.eqb (manifest_parser_version previous) (parser_version r)).

Definition compute_diff (r : NativeSyntaxMaterializationRequest)
    (supported : gmap string SourceSnapshot) (full_rebuild : bool) : ManifestDiff :=
  match previous_manifest r with
  | None => {| added := btree_keys supported; modified := []; unchanged := []; deleted := [];
               force_rebuild := true |}
  | Some previous =>
      if String.eqb (mode r) "full" || manifest_incompatible previous r || full_rebuild then
        {| added := btree_keys supported; modified := []; unchanged := [];
           deleted := missing_paths previous supported; force_rebuild := true |}
      else
        let '(added, modified, unchanged) :=
          fold_left (diff_step previous) (btree_iter supported) ([], [], []) in
        {| added := added; modified := modified; unchanged := unchanged;
           deleted := missing_paths previous supported; force_rebuild := false |}
  end.

End Diff.

(** ** How a scanned file relates to the manifest *)
Inductive change := Added | Modified | Unchanged.
#[export] Instance change_eq_dec : EqDecision change.
Proof. solve_decision. Defined.

Definition change_of (previous : NativeManifest) (kv : string * SourceSnapshot) : change :=
  match files previous !! kv.1 with
  | None => Added
  | Some e => if entry_differs e kv.2 then Modified else Unchanged
  end.

Definition keys_with (previous : NativeManifest) (c : change) (l : list (string * SourceSnapshot))
    : list string :=
  fst <$> List.filter (fun kv => bool_decide (change_of previous kv = c)) l.

Lemma keys_with_cons previous c kv l :
  keys_with previous c (kv :: l) =
  (if bool_decide (change_of previous kv = c) then [kv.1] else []) ++ keys_with previous c l.
Proof. unfold keys_with. simpl. by case_bool_decide. Qed.

Lemma elem_of_keys_with previous c l p :
  p ∈ keys_with previous c l <-> exists s, (p, s) ∈ l /\ change_of previous (p, s) = c.
Proof.
  unfold keys_with. rewrite list_elem_of_fmap. split.
  - intros [[p' s] [-> Hin]]. apply list_elem_of_In, List.filter_In in Hin as [Hin Hb].
    exists s. split; [by apply list_elem_of_In|by apply bool_decide_eq_true in Hb].
  - intros [s [Hin Hc]]. exists (p, s). split; [done|]. apply list_elem_of_In, List.filter_In.
    split; [by apply list_elem_of_In|by apply bool_decide_eq_true].
Qed.

Lemma diff_fold_spec previous l a m u :
  fold_left (diff_step previous) l (a, m, u) =
  (a ++ keys_with previous Added l, m ++ keys_with previous Modified l,
   u ++ keys_with previous Unchanged l).
Proof.
  revert a m u. induction l as [|kv l IH]; intros a m u.
  - simpl. by rewrite !app_nil_r.
  - rewrite !keys_with_cons. simpl. unfold change_of.
    destruct (files previous !! kv.1) as [e|]; [destruct (entry_differs e kv.2)|];
      rewrite IH; simpl; by rewrite <- !app_assoc.
Qed.

Lemma keys_with_partition previous l :
  keys_with previous Added l ++ keys_with previous Modified l ++ keys_with previous Unchanged l
    ≡ₚ (fst <$> l).
Proof.
  induction l as [|kv l IH]; [done|]. rewrite !keys_with_cons, fmap_cons.
  destruct (change_of previous kv); simpl; rewrite <- IH; solve_Permutation.
Qed.

Lemma change_of_Unchanged previous p s :
  change_of previous (p, s) = Unchanged <->
  exists e, files previous !! p = Some e /\ entry_content_hash e = snapshot_content_hash s /\
            entry_language e = default "" (snapshot_language s).
Proof.
  unfold change_of, entry_differs. simpl. destruct (files previous !! p) as [e|].
  - destruct (String.eqb_spec (entry_content_hash e) (snapshot_content_hash s)) as [E1|E1];
      destruct (String.eqb_spec (entry_language e) (default "" (snapshot_language s))) as [E2|E2];
      simpl; split; try done; try (by intros (e' & [= ->] & ? & ?)).
    intros _. by exists e.
  - split; [done|]. by intros (e & ? & _).
Qed.

Lemma change_of_Added previous p s :
  change_of previous (p, s) = Added <-> files previous !! p = None.
Proof.
  unfold change_of. simpl. destruct (files previous !! p) as [e|]; [|done].
  by destruct (entry_differs e s).
Qed.

Lemma change_of_Modified previous p s :
  change_of previous (p, s) = Modified <->
  exists e, files previous !! p = Some e /\
            ~ (entry_content_hash e = snapshot_content_hash s /\
               entry_language e = default "" (snapshot_language s)).
Proof.
  pose proof (change_of_Unchanged previous p s) as Hu. revert Hu. unfold change_of. simpl.
  destruct (files previous !! p) as [e|]; [|naive_solver].
  destruct (entry_differs e s); naive_solver.
Qed.

Lemma keys_with_sorted previous c (l : list (string * SourceSnapshot)) :
  StrictlySorted (fst <$> l) -> StrictlySorted (keys_with previous c l).
Proof.
  unfold StrictlySorted. induction l as [|kv l IH]; [done|]. rewrite keys_with_cons, fmap_cons.
  intros [Hs Hall]%StronglySorted_inv. specialize (IH Hs).
  case_bool_decide; simpl; [|done]. constructor; [done|].
  rewrite Forall_forall in Hall |- *. intros q Hq. apply Hall.
  apply elem_of_keys_with in Hq as [s [Hin _]]. apply list_elem_of_fmap. by exists (q, s).
Qed.

Lemma missing_paths_sorted previous supported : StrictlySorted (missing_paths previous supported).
Proof.
  unfold missing_paths. pose proof (btree_keys_sorted (files previous)) as Hs. revert Hs.
  unfold StrictlySorted. induction 1 as [|q l Hs IH Hall]; simpl; [constructor|].
  destruct (negb _); [|done]. constructor; [done|].
  rewrite Forall_forall in Hall |- *. intros q' Hq. apply Hall.
  by apply list_elem_of_In, List.filter_In in Hq as [Hq%list_elem_of_In _].
Qed.

Lemma elem_of_missing_paths previous supported p :
  p ∈ missing_paths previous supported <->
  is_Some (files previous !! p) /\ supported !! p = None.
Proof.
  unfold missing_paths. rewrite list_elem_of_In, List.filter_In, <- list_elem_of_In.
  rewrite elem_of_btree_keys, negb_true_iff, bool_decide_eq_false, <- eq_None_not_Some. done.
Qed.

(** The manifest may be used incrementally. *)
Definition incremental (r : NativeSyntaxMaterializationRequest) (previous : NativeManifest)
    (full_rebuild : bool) : Prop :=
  previous_manifest r = Some previous /\ mode r <> "full" /\ full_rebuild = false /\
  schema_version previous = manifest_schema_version r /\
  manifest_ontology previous = ontology r /\
  manifest_parser_version previous = parser_version r.

Lemma incremental_test r previous full_rebuild :
  previous_manifest r = Some previous ->
  String.eqb (mode r) "full" || manifest_incompatible previous r || full_rebuild = false <->
  incremental r previous full_rebuild.
Proof.
  intros Hp. unfold incremental, manifest_incompatible.
  rewrite !orb_false_iff, !negb_false_iff, N.eqb_eq, !String.eqb_eq, String.eqb_neq. tauto.
Qed.

Lemma incremental_decides r full_rebuild :
  (exists previous, incremental r previous full_rebuild) \/
  (forall previous, ~ incremental r previous full_rebuild).
Proof.
  destruct (previous_manifest r) as [previous|] eqn:Hp.
  - destruct (String.eqb (mode r) "full" || manifest_incompatible previous r || full_rebuild) eqn:E.
    + right. intros previous' Hi. pose proof Hi as [Hp' _]. rewrite Hp in Hp'. injection Hp' as <-.
      apply (incremental_test _ _ _ Hp) in Hi. congruence.
    + left. exists previous. by apply (incremental_test _ _ _ Hp).
  - right. intros previous [? _]. congruence.
Qed.

Lemma compute_diff_incremental r previous supported full_rebuild :
  incremental r previous full_rebuild ->
  compute_diff r supported full_rebuild =
  {| added := keys_with previous Added (btree_iter supported);
     modified := keys_with previous Modified (btree_iter supported);
     unchanged := keys_with previous Unchanged (btree_iter supported);
     deleted := missing_paths previous supported; force_rebuild := false |}.
Proof.
  intros Hi. pose proof Hi as [Hp _]. unfold compute_diff. rewrite Hp.
  apply (incremental_test _ _ _ Hp) in Hi as ->. by rewrite diff_fold_spec.
Qed.

Lemma compute_diff_full r supported full_rebuild :
  (forall previous, ~ incremental r previous full_rebuild) ->
  compute_diff r supported full_rebuild =
  {| added := btree_keys supported; modified := []; unchanged := [];
     deleted := match previous_manifest r with
                | Some previous => missing_paths previous supported | None => [] end;
     force_rebuild := true |}.
Proof.
  intros Hn. unfold compute_diff. destruct (previous_manifest r) as [previous|] eqn:Hp; [|done].
  destruct (String.eqb (mode r) "full" || manifest_incompatible previous r || full_rebuild) eqn:E;
    [done|].
  exfalso. apply (Hn previous). by apply (incremental_test _ _ _ Hp).
Qed.

Lemma compute_diff_partition r supported full_rebuild :
  let d := compute_diff r supported full_rebuild in
  added d ++ modified d ++ unchanged d ≡ₚ btree_keys supported.
Proof.
  destruct (incremental_decides r full_rebuild) as [[previous Hi]|Hn].
  - rewrite (compute_diff_incremental _ _ _ _ Hi). apply keys_with_partition.
  - rewrite (compute_diff_full _ _ _ Hn). simpl. by rewrite app_nil_r.
Qed.

Lemma compute_diff_unchanged r supported full_rebuild p :
  p ∈ unchanged (compute_diff r supported full_rebuild) <->
  exists previous e s, incremental r previous full_rebuild /\
    files previous !! p = Some e /\ supported !! p = Some s /\
    entry_content_hash e = snapshot_content_hash s /\
    entry_language e = default "" (snapshot_language s).
Proof.
  destruct (incremental_decides r full_rebuild) as [[previous Hi]|Hn].
  - rewrite (compute_diff_incremental _ _ _ _ Hi). simpl. rewrite elem_of_keys_with. split.
    + intros [s [Hin Hc]]. apply change_of_Unchanged in Hc as (e & He & Hh).
      exists previous, e, s. split; [done|]. split; [done|].
      split; [by apply elem_of_btree_iter|done].
    + intros (previous' & e & s & [Hp' _] & He & Hs & Hh). pose proof Hi as [Hp _].
      rewrite Hp in Hp'. injection Hp' as <-. exists s.
      split; [by apply elem_of_btree_iter|]. apply change_of_Unchanged. by exists e.
  - rewrite (compute_diff_full _ _ _ Hn). simpl. split; [by intros ?%elem_of_nil|].
    intros (previous & e & s & Hi & _). by destruct (Hn previous).
Qed.

Lemma compute_diff_added r supported full_rebuild p :
  p ∈ added (compute_diff r supported full_rebuild) <->
  is_Some (supported !! p) /\
  forall previous, incremental r previous full_rebuild -> files previous !! p = None.
Proof.
  destruct (incremental_decides r full_rebuild) as [[previous Hi]|Hn].
  - rewrite (compute_diff_incremental _ _ _ _ Hi). simpl. rewrite elem_of_keys_with. split.
    + intros [s [Hin%elem_of_btree_iter Hc%change_of_Added]]. split; [by exists s|].
      intros previous' [Hp' _]. destruct Hi as [Hp _]. congruence.
    + intros [[s Hs] Hf]. exists s. split; [by apply elem_of_btree_iter|].
      apply change_of_Added. by apply Hf.
  - rewrite (compute_diff_full _ _ _ Hn). simpl. rewrite elem_of_btree_keys. split; [|tauto].
    intros Hs. split; [done|]. intros previous Hi. by destruct (Hn previous).
Qed.

Lemma compute_diff_modified r supported full_rebuild p :
  p ∈ modified (compute_diff r supported full_rebuild) <->
  exists previous e s, incremental r previous full_rebuild /\
    files previous !! p = Some e /\ supported !! p = Some s /\
    ~ (entry_content_hash e = snapshot_content_hash s /\
       entry_language e = default "" (snapshot_language s)).
Proof.
  destruct (incremental_decides r full_rebuild) as [[previous Hi]|Hn].
  - rewrite (compute_diff_incremental _ _ _ _ Hi). simpl. rewrite elem_of_keys_with. split.
    + intros [s [Hin%elem_of_btree_iter (e & He & Hd)%change_of_Modified]]. by exists previous, e, s.
    + intros (previous' & e & s & [Hp' _] & He & Hs & Hd). destruct Hi as [Hp _].
      assert (previous' = previous) as -> by congruence. exists s.
      split; [by apply elem_of_btree_iter|]. apply change_of_Modified. by exists e.
  - rewrite (compute_diff_full _ _ _ Hn). simpl. split; [by intros ?%elem_of_nil|].
    intros (previous & e & s & Hi & _). by destruct (Hn previous).
Qed.

Lemma compute_diff_sorted r supported full_rebuild :
  let d := compute_diff r supported full_rebuild in
  StrictlySorted (added d) /\ StrictlySorted (modified d) /\ StrictlySorted (unchanged d) /\
  StrictlySorted (deleted d).
Proof.
  destruct (incremental_decides r full_rebuild) as [[previous Hi]|Hn].
  - rewrite (compute_diff_incremental _ _ _ _ Hi). simpl.
    pose proof (btree_keys_sorted supported). split_and!;
      eauto using keys_with_sorted, missing_paths_sorted.
  - rewrite (compute_diff_full _ _ _ Hn). simpl.
    split_and!; [apply btree_keys_sorted|constructor|constructor|].
    destruct (previous_manifest r); [apply missing_paths_sorted|constructor].
Qed.

Lemma rebuild_paths_elem d p : p ∈ rebuild_paths d <-> p ∈ added d \/ p ∈ modified d.
Proof. unfold rebuild_paths. by rewrite sort_perm, elem_of_app. Qed.

(** C9: the difference classifies every scanned file exactly once, by the entry of the
    previous manifest. When that manifest may be used incrementally, a file without an
    entry is added, one whose entry has another content hash or language is modified, and
    one whose entry has both is unchanged; when it may not, every file is added. The
    deleted paths are those of the manifest that the scan no longer has, each list is in
    the order of the paths without repetition, and the sorted rebuild list holds each
    scanned file that is not reused, once. *)
Theorem compute_diff_correct r supported full_rebuild :
  let d := compute_diff r supported full_rebuild in
  added d ++ modified d ++ unchanged d ≡ₚ btree_keys supported /\
  NoDup (added d ++ modified d ++ unchanged d) /\
  (forall p, p ∈ added d <->
     is_Some (supported !! p) /\
     forall previous, incremental r previous full_rebuild -> files previous !! p = None) /\
  (forall p, p ∈ modified d <->
     exists previous e s, incremental r previous full_rebuild /\
       files previous !! p = Some e /\ supported !! p = Some s /\
       ~ (entry_content_hash e = snapshot_content_hash s /\
          entry_language e = default "" (snapshot_language s))) /\
  (forall p, p ∈ unchanged d <->
     exists previous e s, incremental r previous full_rebuild /\
       files previous !! p = Some e /\ supported !! p = Some s /\
       entry_content_hash e = snapshot_content_hash s /\
       entry_language e = default "" (snapshot_language s)) /\
  (forall p, p ∈ deleted d <->
     exists previous, previous_manifest r = Some previous /\
       is_Some (files previous !! p) /\ supported !! p = None) /\
  (force_rebuild d = false <-> exists previous, incremental r previous full_rebuild) /\
  (StrictlySorted (added d) /\ StrictlySorted (modified d) /\ StrictlySorted (unchanged d) /\
   StrictlySorted (deleted d)) /\
  StrictlySorted (rebuild_paths d) /\
  (forall p, p ∈ rebuild_paths d <-> is_Some (supported !! p) /\ p ∉ unchanged d).
Proof.
  intros d. pose proof (compute_diff_partition r supported full_rebuild) as Hperm. fold d in Hperm.
  assert (NoDup (added d ++ modified d ++ unchanged d)) as Hnd.
  { rewrite Hperm. apply NoDup_btree_keys. }
  split; [done|]. split; [done|]. split; [intros p; apply compute_diff_added|].
  split; [intros p; apply compute_diff_modified|].
  split; [intros p; apply compute_diff_unchanged|].
  split; [|split; [|split; [apply compute_diff_sorted|split]]].
  - intros p. destruct (incremental_decides r full_rebuild) as [[previous Hi]|Hn].
    + unfold d. rewrite (compute_diff_incremental _ _ _ _ Hi). simpl.
      rewrite elem_of_missing_paths. destruct Hi as [Hp _]. rewrite Hp. naive_solver.
    + unfold d. rewrite (compute_diff_full _ _ _ Hn). simpl.
      destruct (previous_manifest r) as [previous|].
      * rewrite elem_of_missing_paths. naive_solver.
      * split; [by intros ?%elem_of_nil|]. by intros (? & ? & _).
  - destruct (incremental_decides r full_rebuild) as [Hi|Hn].
    + destruct Hi as [previous Hi]. unfold d. rewrite (compute_diff_incremental _ _ _ _ Hi).
      split; [by exists previous|done].
    + unfold d. rewrite (compute_diff_full _ _ _ Hn). split; [done|].
      intros [previous Hi]. by destruct (Hn previous).
  - apply sorted_NoDup_strict; [apply sort_sorted|]. unfold rebuild_paths. rewrite sort_perm.
    rewrite app_assoc in Hnd. by apply NoDup_app in Hnd as [? _].
  - intros p. rewrite rebuild_paths_elem, <- elem_of_btree_keys, <- Hperm, !elem_of_app.
    apply NoDup_app in Hnd as (_ & Hd1 & Hnd). apply NoDup_app in Hnd as (_ & Hd2 & _).
    specialize (Hd1 p). rewrite elem_of_app in Hd1. specialize (Hd2 p). tauto.
Qed.

(** A file is reused only when nothing its artifact depends on has changed: the
    previous manifest was written for the same schema, ontology and parser and for the
    compatibility digest of this request, each of its entries has an artifact, and the
    file's own entry has the scanned content hash and language. *)
Theorem reuse_is_sound `{DigestBackend} r supported p :
  p ∈ unchanged (compute_diff r supported (requires_full_source_rebuild r)) ->
  exists previous e s,
    previous_manifest r = Some previous /\
    schema_version previous = manifest_schema_version r /\
    manifest_ontology previous = ontology r /\
    manifest_parser_version previous = parser_version r /\
    graph_build_digest previous = result_ok (graph_build_compatibility_digest r) /\
    (forall q e', files previous !! q = Some e' -> exists key, artifact_key e' = Some key /\ key <> "") /\
    files previous !! p = Some e /\ supported !! p = Some s /\
    entry_content_hash e = snapshot_content_hash s /\
    entry_language e = default "" (snapshot_language s).
Proof.
  intros (previous & e & s & Hi & He & Hs & Hh & Hl)%compute_diff_unchanged.
  destruct Hi as (Hp & Hm & Hf & Hv & Ho & Hpv). exists previous, e, s.
  unfold requires_full_source_rebuild in Hf. rewrite Hp in Hf.
  apply orb_false_iff in Hf as [Hd Hk]. apply negb_false_iff, bool_decide_eq_true in Hd.
  do 5 (split; [done|]). split; [|done]. intros q e' Hq.
  assert (is_empty (default "" (artifact_key e')) = false) as Hne.
  { apply not_true_iff_false. intros E. apply not_true_iff_false in Hk. apply Hk.
    apply existsb_elem_of. exists e'. split; [|done]. unfold btree_values.
    apply list_elem_of_fmap. exists (q, e'). split; [done|]. by apply elem_of_btree_iter. }
  destruct (artifact_key e') as [key|]; [|done]. exists key. split; [done|]. by intros ->.
Qed.

(** ** A concrete request *)
Definition sample_request : NativeSyntaxMaterializationRequest := {|
  source_root := "/repo"; repository_label := "repo"; mode := "incremental";
  parser_version := "native"; manifest_schema_version := 5; ontology := "code_ontology_v1";
  ontology_schema := {| relation_types := [] |}; previous_manifest := None; profiles := [];
  request_excluded_parts := []; request_include_patterns := []; request_exclude_patterns := [];
  request_ignore_patterns := []; candidate_paths := []; artifact_root := ""; db_path := "";
  include_fts := false; schema_statements := []; staging_dir := "/staging";
  atomic_rebuild := false; strict := true; parallel := false; spill_chunk_mib := 1;
  max_parallelism := 1; progress := false
|}.

Definition with_previous (r : NativeSyntaxMaterializationRequest) (m : option NativeManifest)
    : NativeSyntaxMaterializationRequest := {|
  source_root := source_root r; repository_label := repository_label r; mode := mode r;
  parser_version := parser_version r; manifest_schema_version := manifest_schema_version r;
  ontology := ontology r; ontology_schema := ontology_schema r; previous_manifest := m;
  profiles := profiles r; request_excluded_parts := request_excluded_parts r;
  request_include_patterns := request_include_patterns r;
  request_exclude_patterns := request_exclude_patterns r;
  request_ignore_patterns := request_ignore_patterns r; candidate_paths := candidate_paths r;
  artifact_root := artifact_root r; db_path := db_path r; include_fts := include_fts r;
  schema_statements := schema_statements r; staging_dir := staging_dir r;
  atomic_rebuild := atomic_rebuild r; strict := strict r; parallel := parallel r;
  spill_chunk_mib := spill_chunk_mib r; max_parallelism := max_parallelism r; progress := progress r
|}.

Definition sample_entry (path hash : string) : ManifestEntry := {|
  entry_path := path; entry_content_hash := hash; entry_language := "rust";
  entry_partition_id := "p"; artifact_key := Some "k"; node_ids := []; edge_ids := [];
  node_types := ∅; edge_types := ∅; node_count := 0; edge_count := 0; materialized_at := ""
|}.

Definition sample_snapshot (path hash : string) : SourceSnapshot := {|
  snapshot_path := path; absolute_path := "/repo/" +:+ path; snapshot_content_hash := hash;
  snapshot_language := Some "rust"; byte_len := 1; snapshot_source := None
|}.

Definition sample_backend : DigestBackend :=
  {| to_json_bytes _ := Ok []; sha256_hex _ := "digest" |}.

Definition sample_manifest : NativeManifest := {|
  schema_version := 5; manifest_ontology := "code_ontology_v1"; manifest_parser_version := "native";
  graph_build_digest := Some "digest"; search_backend := None;
  files := <["a.rs" := sample_entry "a.rs" "1"]> (<["b.rs" := sample_entry "b.rs" "2"]> ∅)
|}.

Definition sample_supported : gmap string SourceSnapshot :=
  <["a.rs" := sample_snapshot "a.rs" "1"]> (<["b.rs" := sample_snapshot "b.rs" "3"]>
    (<["c.rs" := sample_snapshot "c.rs" "4"]> ∅)).

Example sample_diff :
  let d := compute_diff (with_previous sample_request (Some sample_manifest)) sample_supported false in
  added d = ["c.rs"] /\ modified d = ["b.rs"] /\ unchanged d = ["a.rs"] /\ deleted d = [].
Proof. vm_compute. by repeat split. Qed.

Lemma reuse_is_sound_witness :
  exists previous e s,
    previous_manifest (with_previous sample_request (Some sample_manifest)) = Some previous /\
    schema_version previous = manifest_schema_version sample_request /\
    manifest_ontology previous = ontology sample_request /\
    manifest_parser_version previous = parser_version sample_request /\
    graph_build_digest previous = Some "digest" /\
    (forall q e', files previous !! q = Some e' -> exists key, artifact_key e' = Some key /\ key <> "") /\
    files previous !! "a.rs" = Some e /\ sample_supported !! "a.rs" = Some s /\
    entry_content_hash e = snapshot_content_hash s /\
    entry_language e = default "" (snapshot_language s).
Proof.
  apply (@reuse_is_sound sample_backend (with_previous sample_request (Some sample_manifest))
           sample_supported "a.rs").
  vm_compute. apply list_elem_of_here.
Defined.
