(* ===== verification/Scan.v ===== *)
(** * Scanning a source tree (src/scan.rs, second half)

    The scan walks the tree, keeps the files the selection includes, hashes those of a
    supported language, compares them with the previous manifest, and copies each file
    that must be built to a snapshot whose content is known to be the hashed one.  The
    file system is an oracle: each call may see a different state of a file, so the
    snapshot loop is checked against every interleaving with writers. *)
From S2P Require Import Prelude Order Text Json Protocol SourceSelection Hash Profiles Diff.


(** [std::io::Error]: its kind, as far as the code looks at it, and its text. *)
Record IoError := { not_found : bool; io_message : string }.

Record WalkEntry := { we_path : string; we_is_dir : bool; we_is_file : bool }.

(** What one run of the snapshot loop sees, attempt by attempt. *)
Record SpoolFs := {
  copy_snapshot : nat -> result IoError (N * string);
  source_hash : nat -> result IoError string;
  final_exists : nat -> bool;
  final_hash : nat -> result IoError string;
  publish : nat -> result IoError unit
}.

(** The file system and the walker (the walkdir crate, with its pruning predicate). *)
Class FileSystem := {
  sha256_file : string -> result IoError string;
  metadata_len : string -> result IoError N;
  create_snapshot_directory : string -> native_result unit;
  spool_fs : string -> SpoolFs;
  walk : string -> (WalkEntry -> bool) -> list (result string WalkEntry)
}.

(** ** Paths *)
(** The components of a path: a leading [/] and a leading [.] count, empty components
    and other [.]s do not. *)
Definition components (p : string) : list string :=
  let pieces := split "/" p in
  let body := List.filter (fun c => negb (is_one_of c [""; "."])) pieces in
  match pieces with
  | "" :: _ :: _ => "/" :: body
  | "." :: _ => "." :: body
  | _ => body
  end.

Fixpoint strip_components (base p : list string) : option (list string) :=
  match base, p with
  | [], _ => Some p
  | b :: base, c :: p => if String.eqb b c then strip_components base p else None
  | _, [] => None
  end.

Definition same_path (p q : string) : bool := bool_decide (components p = components q).

Definition relative_path (path source_root : string) : native_result string :=
  match strip_components (components source_root) (components path) with
  | Some rest => Ok (replace_char backslash slash (join "/" rest))
  | None => Err (InvalidInput "prefix not found")
  end.

(** [Path::join] with a relative second path. *)
Definition path_join (a b : string) : string :=
  if is_empty a || ends_with a "/" then a +:+ b else a +:+ "/" +:+ b.

(** ** Snapshots of stable content *)
Definition SOURCE_SNAPSHOT_ATTEMPTS : nat := 3.
Definition SOURCE_SNAPSHOT_DIRECTORY : string := "source-snapshots".

(** One attempt either ends the loop or leaves the reason for the next one. *)
Inductive attempt_outcome :=
| Finished (r : native_result (string * N))
| Retry (changed : bool) (message : string).

Definition changed_message : string := "source changed after its scan metadata was captured".

Definition spool_attempt (fs : SpoolFs) (final_path relative expected : string) (attempt : nat)
    : attempt_outcome :=
  match copy_snapshot fs attempt with
  | Err e => Retry (not_found e) (io_message e)
  | Ok (len, copied) =>
      match source_hash fs attempt with
      | Err e => Retry (not_found e) (io_message e)
      | Ok current =>
          if negb (String.eqb copied expected) || negb (String.eqb current expected) then
            Retry true changed_message
          else if final_exists fs attempt then
            match final_hash fs attempt with
            | Err e => Finished (Err (Io (io_message e)))
            | Ok existing =>
                if String.eqb existing copied then Finished (Ok (final_path, len))
                else Finished (Err (InvalidInput ("source snapshot collision for " +:+ relative)))
            end
          else
            match publish fs attempt with
            | Err e => Finished (Err (Io (io_message e)))
            | Ok _ => Finished (Ok (final_path, len))
            end
      end
  end.

Fixpoint spool_loop (fs : SpoolFs) (final_path relative expected : string) (remaining attempt : nat)
    (last_error : option string) (source_changed : bool) : native_result (string * N) :=
  match remaining with
  | O =>
      if source_changed then Err (SourceChanged relative)
      else Err (InvalidInput ("source remained unstable after "
             +:+ show_Z (Z.of_nat SOURCE_SNAPSHOT_ATTEMPTS) +:+ " snapshot attempts: "
             +:+ relative +:+ ": " +:+ default "unknown snapshot failure" last_error))
  | S remaining =>
      match spool_attempt fs final_path relative expected attempt with
      | Finished r => r
      | Retry changed message =>
          spool_loop fs final_path relative expected remaining (S attempt) (Some message)
            (source_changed || changed)
      end
  end.

Definition snapshot_shard (snapshot_root relative : string) : string :=
  path_join snapshot_root (substring 0 2 (partition_id relative)).

Definition snapshot_file (snapshot_root relative expected : string) : string :=
  path_join (snapshot_shard snapshot_root relative)
    (partition_id relative +:+ "-" +:+ expected +:+ ".snapshot").

Section Scan.
Context `{FileSystem}.

Definition spool_stable_source (source_path snapshot_root relative expected : string)
    : native_result (string * N) :=
  (let? _ := create_snapshot_directory (snapshot_shard snapshot_root relative) in
   spool_loop (spool_fs source_path) (snapshot_file snapshot_root relative expected)
     relative expected SOURCE_SNAPSHOT_ATTEMPTS 0 None false)%rust.

Definition snapshot_root (r : NativeSyntaxMaterializationRequest) : string :=
  path_join (staging_dir r) SOURCE_SNAPSHOT_DIRECTORY.

Definition set_location (s : SourceSnapshot) (path : string) (len : N) : SourceSnapshot := {|
  snapshot_path := snapshot_path s; absolute_path := path;
  snapshot_content_hash := snapshot_content_hash s; snapshot_language := snapshot_language s;
  byte_len := len; snapshot_source := snapshot_source s
|}.

(** [spool_snapshot_for_build]: a snapshot already below the snapshot directory stays. *)
Definition spool_snapshot_for_build (r : NativeSyntaxMaterializationRequest) (s : SourceSnapshot)
    : native_result SourceSnapshot :=
  if decide (is_Some (strip_components (components (snapshot_root r)) (components (absolute_path s))))
  then Ok s
  else
    (let? _ := create_snapshot_directory (snapshot_root r) in
     let? placed := spool_stable_source (absolute_path s) (snapshot_root r) (snapshot_path s)
                      (snapshot_content_hash s) in
     Ok (set_location s placed.1 placed.2))%rust.

(** The maps of the scan. *)
Record ScanMaps := {
  snapshots : gmap string SourceSnapshot;
  supported : gmap string SourceSnapshot
}.

Definition spool_step (r : NativeSyntaxMaterializationRequest) (required : list string)
    (m : ScanMaps) (kv : string * SourceSnapshot) : native_result ScanMaps :=
  let s := kv.2 in
  if negb (bool_decide (snapshot_path s ∈ required)) then Ok m
  else
    (let? placed := spool_stable_source (absolute_path s) (snapshot_root r) (snapshot_path s)
                      (snapshot_content_hash s) in
     let s' := set_location s placed.1 placed.2 in
     Ok {| snapshots := <[snapshot_path s' := s']> (snapshots m);
           supported := <[kv.1 := s']> (supported m) |})%rust.

Definition spool_supported_snapshots (r : NativeSyntaxMaterializationRequest) (m : ScanMaps)
    (required : list string) : native_result ScanMaps :=
  if list_is_empty required then Ok m
  else
    (let? _ := create_snapshot_directory (snapshot_root r) in
     try_fold (spool_step r required) m (btree_iter (supported m)))%rust.

(** ** The walk *)
Record ScanState := { scan_maps : ScanMaps; scan_diagnostics : list string }.

Definition request_selection (r : NativeSyntaxMaterializationRequest) : SourceSelection := {|
  excluded_parts := list_to_set (request_excluded_parts r);
  include_patterns := request_include_patterns r;
  exclude_patterns := request_exclude_patterns r;
  ignore_patterns := request_ignore_patterns r
|}.

Definition keep_entry (sel : SourceSelection) (root : string) (e : WalkEntry) : bool :=
  if same_path (we_path e) root || negb (we_is_dir e) then true
  else match relative_path (we_path e) root with
       | Ok relative => should_descend sel relative
       | Err _ => false
       end.

Definition scan_io {A} (relative : string) (m : result IoError A) : native_result A :=
  map_err (fun e => if not_found e then SourceChanged relative else Io (io_message e)) m.

Definition scan_entry `{Unicode} (sel : SourceSelection) (ps : ProfileSet) (root : string)
    (st : ScanState) (item : result string WalkEntry) : native_result ScanState :=
  (let? e := map_err InvalidInput item in
   if same_path (we_path e) root then Ok st
   else if negb (we_is_file e) then Ok st
   else
     let? relative := relative_path (we_path e) root in
     if negb (includes_file sel relative) then
       Ok {| scan_maps := scan_maps st;
             scan_diagnostics := scan_diagnostics st ++ ["Ignored file: " +:+ relative] |}
     else
       let language := language_for_path ps (we_path e) in
       let has_language := bool_decide (is_Some language) in
       let? content_hash := (if has_language then scan_io relative (sha256_file (we_path e))
                             else Ok "") in
       let diagnostics := if has_language then scan_diagnostics st
                          else scan_diagnostics st ++ ["Skipped unsupported file: " +:+ relative] in
       let? len := (if has_language then scan_io relative (metadata_len (we_path e)) else Ok 0%N) in
       let s := {| snapshot_path := relative; absolute_path := we_path e;
                   snapshot_content_hash := content_hash; snapshot_language := language;
                   byte_len := len; snapshot_source := None |} in
       Ok {| scan_maps := {|
               snapshots := <[relative := s]> (snapshots (scan_maps st));
               supported := if has_language then <[relative := s]> (supported (scan_maps st))
                            else supported (scan_maps st) |};
             scan_diagnostics := diagnostics |})%rust.

Record SourceScan := {
  scan_input : NativeSyntaxMaterializationRequest;
  scan_profiles : list LanguageProfile;
  scan_snapshots : gmap string SourceSnapshot;
  scan_supported : gmap string SourceSnapshot;
  scan_messages : list string;
  scan_diff : ManifestDiff
}.

Definition scan_walk `{Unicode} (r : NativeSyntaxMaterializationRequest) : native_result ScanState :=
  let root := source_root r in
  let sel := request_selection r in
  try_fold (scan_entry sel (new (profiles r)) root)
    {| scan_maps := {| snapshots := ∅; supported := ∅ |}; scan_diagnostics := [] |}
    (walk root (keep_entry sel root)).

Definition selected_languages (m : gmap string SourceSnapshot) : gset string :=
  list_to_set (omap snapshot_language (btree_values m)).

Definition scan_sources `{Unicode, DigestBackend} (r : NativeSyntaxMaterializationRequest)
    : native_result SourceScan :=
  (let? _ := validate_execution_options r in
   let? _ := validate_profile_grammar_versions (profiles r) in
   let full_rebuild := requires_full_source_rebuild r in
   let? st := scan_walk r in
   let diff := compute_diff r (supported (scan_maps st)) full_rebuild in
   let? m := spool_supported_snapshots r (scan_maps st) (rebuild_paths diff) in
   Ok {| scan_input := r;
         scan_profiles := selected_profiles (new (profiles r)) (selected_languages (supported m));
         scan_snapshots := snapshots m; scan_supported := supported m;
         scan_messages := scan_diagnostics st; scan_diff := diff |})%rust.
End Scan.

(** ** Snapshots hold stable content *)
(** An attempt that saw the expected content twice: in the copy and in the source
    after the copy. *)
Definition stable_attempt (fs : SpoolFs) (expected : string) (a : nat) (len : N) : Prop :=
  copy_snapshot fs a = Ok (len, expected) /\ source_hash fs a = Ok expected.

Definition retried (fs : SpoolFs) (final relative expected : string) (a : nat) (changed : bool)
    : Prop :=
  exists message, spool_attempt fs final relative expected a = Retry changed message.

(** What a result of the loop, over the attempts from [k] on, says of the attempts. *)
Definition spool_meaning (fs : SpoolFs) (final relative expected : string) (k : nat) (n : nat)
    (changed_before : bool) (r : native_result (string * N)) : Prop :=
  match r with
  | Ok (path, len) =>
      path = final /\ exists a, k <= a < k + n /\ stable_attempt fs expected a len /\
        (if final_exists fs a then final_hash fs a = Ok expected else publish fs a = Ok tt)
  | Err (SourceChanged p) =>
      p = relative /\
      (forall a, k <= a < k + n -> exists c, retried fs final relative expected a c) /\
      (changed_before = true \/ exists a, k <= a < k + n /\ retried fs final relative expected a true)
  | Err (InvalidInput _) =>
      (exists a len h, k <= a < k + n /\ stable_attempt fs expected a len /\
         final_exists fs a = true /\ final_hash fs a = Ok h /\ h <> expected) \/
      (changed_before = false /\
       forall a, k <= a < k + n -> retried fs final relative expected a false)
  | Err (Io message) =>
      exists a len e, k <= a < k + n /\ stable_attempt fs expected a len /\ message = io_message e /\
        (if final_exists fs a then final_hash fs a = Err e else publish fs a = Err e)
  | Err _ => False
  end.

Lemma spool_attempt_finished fs final relative expected a r :
  spool_attempt fs final relative expected a = Finished r ->
  exists len, stable_attempt fs expected a len /\
    ((final_exists fs a = true /\ exists e, final_hash fs a = Err e /\ r = Err (Io (io_message e))) \/
     (final_exists fs a = true /\ final_hash fs a = Ok expected /\ r = Ok (final, len)) \/
     (final_exists fs a = true /\ exists h, final_hash fs a = Ok h /\ h <> expected /\
        r = Err (InvalidInput ("source snapshot collision for " +:+ relative))) \/
     (final_exists fs a = false /\ exists e, publish fs a = Err e /\ r = Err (Io (io_message e))) \/
     (final_exists fs a = false /\ publish fs a = Ok tt /\ r = Ok (final, len))).
Proof.
  unfold spool_attempt, stable_attempt.
  destruct (copy_snapshot fs a) as [[len copied]|e]; [|done].
  destruct (source_hash fs a) as [current|e]; [|done].
  destruct (String.eqb_spec copied expected) as [->|]; [|done].
  destruct (String.eqb_spec current expected) as [->|]; [|done]. simpl.
  destruct (final_exists fs a).
  - destruct (final_hash fs a) as [existing|e].
    + destruct (String.eqb_spec existing expected) as [->|Hne]; intros [= <-];
        exists len; naive_solver.
    + intros [= <-]. exists len. naive_solver.
  - destruct (publish fs a) as [[]|e]; intros [= <-]; exists len; naive_solver.
Qed.

Lemma spool_loop_meaning fs final relative expected n k last changed :
  spool_meaning fs final relative expected k n changed
    (spool_loop fs final relative expected n k last changed).
Proof.
  revert k last changed. induction n as [|n IH]; intros k last changed; simpl.
  - destruct changed; simpl; [|right]; (split; [done|]); [split; [intros a ?; lia|by left]|].
    intros a ?; lia.
  - destruct (spool_attempt fs final relative expected k) as [r|c m] eqn:E.
    + apply spool_attempt_finished in E as (len & Hst & Hr). unfold spool_meaning.
      assert (k <= k < k + S n) as Hk by lia.
      destruct Hr as [(Hf & e & He & ->)|[(Hf & He & ->)|[(Hf & h & Hh & Hne & ->)|
        [(Hf & e & He & ->)|(Hf & He & ->)]]]].
      * exists k, len, e. by rewrite Hf.
      * split; [done|]. exists k. by rewrite Hf.
      * left. by exists k, len, h.
      * exists k, len, e. by rewrite Hf.
      * split; [done|]. exists k. by rewrite Hf.
    + assert (retried fs final relative expected k c) as Hk by (by exists m).
      specialize (IH (S k) (Some m) (changed || c)). unfold spool_meaning in IH |- *.
      assert (forall a, k <= a < k + S n -> a = k \/ S k <= a < S k + n) as Hsplit by (intros; lia).
      destruct (spool_loop _ _ _ _ _ _ _ _) as [[path len]|[]]; try done.
      * destruct IH as (-> & a & Ha & ?). split; [done|]. exists a. split; [lia|done].
      * destruct IH as (a & len & e & Ha & ?). exists a, len, e. split; [lia|done].
      * destruct IH as [(a & len & h & Ha & ?)|[Hc Hall]].
        -- left. exists a, len, h. split; [lia|done].
        -- right. apply orb_false_iff in Hc as [-> ->]. split; [done|].
           intros a [->|Ha]%Hsplit; [done|by apply Hall].
      * destruct IH as (-> & Hall & Hch). split; [done|]. split.
        -- intros a [->|Ha]%Hsplit; [by exists c|by apply Hall].
        -- destruct Hch as [Hch|(a & Ha & Hr)].
           ++ apply orb_true_iff in Hch as [->| ->]; [by left|]. right. exists k.
              split; [lia|done].
           ++ right. exists a. split; [lia|done].
Qed.

(** C10: whatever other processes do to a file meanwhile, the snapshot loop ends after at
    most three attempts; it succeeds only through an attempt in which the copied bytes
    and then the source itself had the scanned hash, and a snapshot found in place had it
    too; [SourceChanged] is the answer exactly of runs where each attempt failed and one
    saw the source changed or gone; any other error is a failed publication, a
    collision, or three read failures of another kind. *)
Theorem spool_stable_source_correct `{FileSystem} source root relative expected :
  create_snapshot_directory (snapshot_shard root relative) = Ok tt ->
  spool_meaning (spool_fs source) (snapshot_file root relative expected) relative expected
    0 SOURCE_SNAPSHOT_ATTEMPTS false (spool_stable_source source root relative expected).
Proof.
  intros Hc. unfold spool_stable_source. rewrite Hc. apply spool_loop_meaning.
Qed.

(** A file that is rewritten while it is copied for the first time. *)
Definition racing_fs : SpoolFs := {|
  copy_snapshot a := if decide (a = 0) then Ok (4%N, "torn") else Ok (5%N, "hash");
  source_hash _ := Ok "hash"; final_exists _ := false; final_hash _ := Ok "";
  publish _ := Ok tt
|}.
Definition racing_system : FileSystem := {|
  sha256_file _ := Ok "hash"; metadata_len _ := Ok 5%N; create_snapshot_directory _ := Ok tt;
  spool_fs _ := racing_fs; walk _ _ := []
|}.

Lemma spool_stable_source_correct_witness :
  @spool_stable_source racing_system "/repo/a.rs" "/staging" "a.rs" "hash"
    = Ok (snapshot_file "/staging" "a.rs" "hash", 5%N) /\
  spool_meaning racing_fs (snapshot_file "/staging" "a.rs" "hash") "a.rs" "hash" 0 3 false
    (@spool_stable_source racing_system "/repo/a.rs" "/staging" "a.rs" "hash").
Proof.
  split; [reflexivity|].
  apply (@spool_stable_source_correct racing_system "/repo/a.rs" "/staging" "a.rs" "hash").
  reflexivity.
Defined.

(** ** The files that must be built are spooled *)
Section Spool.
Context `{FileSystem} (r : NativeSyntaxMaterializationRequest).

(** Each snapshot is stored under its own path. *)
Definition keyed (m : gmap string SourceSnapshot) : Prop :=
  forall k s, m !! k = Some s -> snapshot_path s = k.

Definition spooled (s s' : SourceSnapshot) : Prop :=
  exists len,
    spool_stable_source (absolute_path s) (snapshot_root r) (snapshot_path s)
      (snapshot_content_hash s)
    = Ok (snapshot_file (snapshot_root r) (snapshot_path s) (snapshot_content_hash s), len) /\
    s' = set_location s
           (snapshot_file (snapshot_root r) (snapshot_path s) (snapshot_content_hash s)) len.

Lemma spool_stable_source_path source root relative expected path len :
  spool_stable_source source root relative expected = Ok (path, len) ->
  path = snapshot_file root relative expected.
Proof.
  unfold spool_stable_source. intros [[] [_ Hl]]%result_bind_Ok.
  pose proof (spool_loop_meaning (spool_fs source) (snapshot_file root relative expected)
    relative expected SOURCE_SNAPSHOT_ATTEMPTS 0 None false) as Hm.
  rewrite Hl in Hm. by destruct Hm as [? _].
Qed.

(** What spooling does with the entry [s] of a path: a required one is placed in both
    maps, any other is left alone. *)
Definition spool_result (required : list string) (before : gmap string SourceSnapshot)
    (k : string) (s : SourceSnapshot) (m : ScanMaps) : Prop :=
  if bool_decide (k ∈ required) then
    exists s', spooled s s' /\ supported m !! k = Some s' /\ snapshots m !! k = Some s'
  else supported m !! k = Some s /\ snapshots m !! k = before !! k.

Lemma spool_step_spec required m kv m1 :
  snapshot_path kv.2 = kv.1 -> supported m !! kv.1 = Some kv.2 ->
  spool_step r required m kv = Ok m1 ->
  (forall k, k <> kv.1 -> supported m1 !! k = supported m !! k /\
                          snapshots m1 !! k = snapshots m !! k) /\
  spool_result required (snapshots m) kv.1 kv.2 m1.
Proof.
  intros Hk Hs Ha. unfold spool_step in Ha. unfold spool_result.
  rewrite Hk in Ha. destruct (bool_decide _); simpl in Ha.
  - apply result_bind_Ok in Ha as [[path len] [Hp [= <-]]]. simpl. rewrite Hk. split.
    + intros k Hne. by rewrite !lookup_insert_ne.
    + pose proof (spool_stable_source_path _ _ _ _ _ _ Hp) as ->. eexists.
      split; [|by rewrite !lookup_insert_eq]. exists len. by rewrite Hk.
  - by injection Ha as <-.
Qed.

Lemma spool_fold_spec required l m m' :
  NoDup l.*1 -> (forall kv, kv ∈ l -> snapshot_path kv.2 = kv.1) ->
  (forall kv, kv ∈ l -> supported m !! kv.1 = Some kv.2) ->
  try_fold (spool_step r required) m l = Ok m' ->
  (forall k, k ∉ l.*1 -> supported m' !! k = supported m !! k /\ snapshots m' !! k = snapshots m !! k) /\
  (forall kv, kv ∈ l -> spool_result required (snapshots m) kv.1 kv.2 m').
Proof.
  revert m. induction l as [|kv l IH]; intros m Hnd Hkey Hin Hf; simpl in Hf.
  - inv_ok. split; [done|]. by intros kv ?%elem_of_nil.
  - inv_ok. rename a into m1. rewrite fmap_cons in Hnd. apply NoDup_cons in Hnd as [Hnk Hnd].
    pose proof (Hkey kv (list_elem_of_here _ _)) as Hk.
    pose proof (Hin kv (list_elem_of_here _ _)) as Hs1.
    destruct (spool_step_spec _ _ _ _ Hk Hs1 Ha) as [Hoth Hres].
    destruct (IH m1 Hnd) as [IH1 IH2]; [| |exact Hf|].
    + intros kv' Hkv'. apply Hkey. by apply list_elem_of_further.
    + intros kv' Hkv'. rewrite (proj1 (Hoth kv'.1 ltac:(intros E; apply Hnk; rewrite <- E;
        by apply list_elem_of_fmap_2))). apply Hin. by apply list_elem_of_further.
    + split.
      * intros k Hk'. rewrite fmap_cons, not_elem_of_cons in Hk'. destruct Hk' as [Hne Hk'].
        destruct (IH1 k Hk') as [-> ->]. by apply Hoth.
      * intros kv' [->|Hkv']%elem_of_cons.
        -- destruct (IH1 _ Hnk) as [E1 E2]. unfold spool_result in Hres |- *. by rewrite E1, E2.
        -- specialize (IH2 kv' Hkv'). unfold spool_result in IH2 |- *.
           assert (kv'.1 <> kv.1) as Hne.
           { intros E. apply Hnk. rewrite <- E. by apply list_elem_of_fmap_2. }
           by rewrite (proj2 (Hoth _ Hne)) in IH2.
Qed.
End Spool.

(** ** What the scan finds *)
(** [d] is a directory above [e], seen from the root. *)
Definition above (root : string) (d e : WalkEntry) : bool :=
  we_is_dir d &&
  match relative_path (we_path d) root, relative_path (we_path e) root with
  | Ok rd, Ok re => negb (is_empty rd) && starts_with re (rd +:+ "/")
  | _, _ => false
  end.

(** What walkdir documents of a walk without errors over a tree with the entries [all]:
    an entry is yielded when the predicate keeps it and every directory above it. *)
Definition walk_lawful `{FileSystem} (root : string) (all : list WalkEntry) : Prop :=
  forall keep item, item ∈ walk root keep <->
    exists e, item = Ok e /\ e ∈ all /\ keep e = true /\
      forall d, d ∈ all -> above root d e = true -> keep d = true.

(** Entries are files or directories, and their names have neither surrounding space nor
    characters that patterns or separators use. *)
Record plain_tree (root : string) (all : list WalkEntry) : Prop := {
  tree_kinds e : e ∈ all -> we_is_file e = true -> we_is_dir e = false;
  tree_names e rel : e ∈ all -> relative_path (we_path e) root = Ok rel ->
    normalize_relative_path rel = rel /\ star_free rel
}.

Section Walk.
Context `{FileSystem, Unicode} (sel : SourceSelection) (ps : ProfileSet) (root : string).

(** The file [e] is kept under the path [rel], in a supported language. *)
Definition selects (e : WalkEntry) (rel : string) : Prop :=
  same_path (we_path e) root = false /\ we_is_file e = true /\
  relative_path (we_path e) root = Ok rel /\ includes_file sel rel = true /\
  is_Some (language_for_path ps (we_path e)).

Definition snapshot_of (e : WalkEntry) (rel : string) (s : SourceSnapshot) : Prop :=
  sha256_file (we_path e) = Ok (snapshot_content_hash s) /\
  metadata_len (we_path e) = Ok (byte_len s) /\
  snapshot_path s = rel /\ absolute_path s = we_path e /\ snapshot_source s = None /\
  snapshot_language s = language_for_path ps (we_path e).

Lemma scan_io_Ok {A} rel (m : result IoError A) a : scan_io rel m = Ok a -> m = Ok a.
Proof. unfold scan_io. destruct m; simpl; congruence. Qed.

Lemma scan_entry_spec st item st' :
  scan_entry sel ps root st item = Ok st' ->
  exists e, item = Ok e /\
    ((exists rel s, selects e rel /\ snapshot_of e rel s /\
        supported (scan_maps st') = <[rel := s]> (supported (scan_maps st))) \/
     ((forall rel, ~ selects e rel) /\ supported (scan_maps st') = supported (scan_maps st))).
Proof.
  unfold scan_entry, selects. intros Hs. apply result_bind_Ok in Hs as [e [He Hs]].
  exists e. split; [destruct item; simpl in He; congruence|].
  destruct (same_path (we_path e) root); [injection Hs as <-; right; split; [by intros ? (? & _)|done]|].
  destruct (we_is_file e); simpl in Hs; [|injection Hs as <-; right; split; [by intros ? (_ & ? & _)|done]].
  apply result_bind_Ok in Hs as [rel [Hrel Hs]].
  destruct (includes_file sel rel) eqn:Hi; simpl in Hs.
  2: { injection Hs as <-. right. split; [|done]. intros rel' (_ & _ & Hr & Hi' & _). congruence. }
  apply result_bind_Ok in Hs as [h [Hh Hs]]. apply result_bind_Ok in Hs as [len [Hlen Hs]].
  injection Hs as <-. case_bool_decide as Hl; simpl.
  - left. exists rel. eexists. split; [done|]. split; [|done].
    unfold snapshot_of. simpl. apply scan_io_Ok in Hh, Hlen. done.
  - right. split; [|done]. by intros rel' (_ & _ & _ & _ & ?).
Qed.

Lemma scan_fold_spec items st st' :
  try_fold (scan_entry sel ps root) st items = Ok st' ->
  (forall rel s, supported (scan_maps st') !! rel = Some s ->
     supported (scan_maps st) !! rel = Some s \/
     exists e, Ok e ∈ items /\ selects e rel /\ snapshot_of e rel s) /\
  (forall rel, is_Some (supported (scan_maps st) !! rel) \/
               (exists e, Ok e ∈ items /\ selects e rel) ->
     is_Some (supported (scan_maps st') !! rel)).
Proof.
  revert st. induction items as [|item items IH]; intros st Hf; simpl in Hf.
  - inv_ok. split; [by left|]. intros rel [?|(e & Hin & _)]; [done|by apply elem_of_nil in Hin].
  - inv_ok. destruct (IH _ Hf) as [IH1 IH2]. clear IH.
    apply scan_entry_spec in Ha as (e & -> & Hcase). split.
    + intros rel s Hs. destruct (IH1 _ _ Hs) as [Hs1|(e' & Hin & ?)].
      * destruct Hcase as [(rel' & s' & Hsel & Hsn & Heq)|[_ Heq]]; rewrite Heq in Hs1;
          [|by left].
        apply lookup_insert_Some in Hs1 as [[-> ->]|[_ ?]]; [|by left].
        right. exists e. split; [apply list_elem_of_here|done].
      * right. exists e'. split; [by apply list_elem_of_further|done].
    + intros rel Hrel. apply IH2. destruct Hrel as [Hs|(e' & Hin & Hsel)].
      * left. destruct Hcase as [(rel' & s' & _ & _ & ->)|[_ ->]]; [|done].
        apply lookup_insert_is_Some'. by right.
      * apply elem_of_cons in Hin as [[= ->]|Hin]; [|right; by exists e'].
        left. destruct Hcase as [(rel' & s' & Hsel' & _ & ->)|[Hno _]]; [|by destruct (Hno rel)].
        destruct Hsel as (_ & _ & Hr & _), Hsel' as (_ & _ & Hr' & _).
        assert (rel' = rel) as -> by congruence. apply lookup_insert_is_Some'. by left.
Qed.
End Walk.

Lemma walk_keeps_included `{FileSystem} sel root all e rel :
  walk_lawful root all -> plain_tree root all ->
  Forall (fun p => starts_with (normalize_relative_pattern p) "#" = true -> starts_with (trim p) "#" = true)
    (include_patterns sel) ->
  e ∈ all -> we_is_file e = true -> relative_path (we_path e) root = Ok rel ->
  includes_file sel rel = true -> Ok e ∈ walk root (keep_entry sel root).
Proof.
  intros Hw Ht Hh Hin Hfile Hrel Hinc. apply Hw. exists e. split; [done|]. split; [done|]. split.
  - unfold keep_entry. rewrite (tree_kinds _ _ Ht e Hin Hfile). by rewrite orb_true_r.
  - intros d Hd Hab. unfold above in Hab. apply andb_true_iff in Hab as [Hdir Hab].
    rewrite Hrel in Hab. unfold keep_entry. rewrite Hdir. simpl. rewrite orb_false_r.
    destruct (same_path (we_path d) root); [done|].
    destruct (relative_path (we_path d) root) as [rd|] eqn:Hrd; [|done].
    apply andb_true_iff in Hab as [Hne Hpre]. apply negb_true_iff in Hne.
    apply starts_with_spec in Hpre as [r Hr].
    destruct (tree_names _ _ Ht e rel Hin Hrel) as [Hn Hstar].
    destruct (tree_names _ _ Ht d rd Hd Hrd) as [Hnd _].
    apply (descend_sound sel rd rel); [|done|done|done].
    split; [done|]. split; [done|]. split; [done|]. exists r. by rewrite Hr, app_str_assoc.
Qed.

(** pruning loses nothing: over a tree with ordinary names, the scan finds exactly
    the files that the selection includes and whose language is supported, although it
    only enters the directories the selection does not rule out; each is recorded with
    its own path, hash, length and language. *)
Theorem scan_finds_selected_files `{FileSystem, Unicode} r all st :
  walk_lawful (source_root r) all -> plain_tree (source_root r) all ->
  Forall (fun p => starts_with (normalize_relative_pattern p) "#" = true -> starts_with (trim p) "#" = true)
    (request_include_patterns r) ->
  scan_walk r = Ok st ->
  (forall rel, is_Some (supported (scan_maps st) !! rel) <->
     exists e, e ∈ all /\ selects (request_selection r) (new (profiles r)) (source_root r) e rel) /\
  (forall rel s, supported (scan_maps st) !! rel = Some s ->
     exists e, e ∈ all /\ snapshot_of (new (profiles r)) e rel s).
Proof.
  intros Hw Ht Hh Hs. unfold scan_walk in Hs.
  destruct (scan_fold_spec _ _ _ _ _ _ Hs) as [H1 H2]. simpl in H1, H2.
  assert (forall rel s, supported (scan_maps st) !! rel = Some s -> exists e, e ∈ all /\
    selects (request_selection r) (new (profiles r)) (source_root r) e rel /\
    snapshot_of (new (profiles r)) e rel s) as Hfound.
  { intros rel s Hrel. destruct (H1 _ _ Hrel) as [Hbad|(e & Hin & ?)].
    - by rewrite lookup_empty in Hbad.
    - exists e. split; [|done]. apply Hw in Hin as (e' & [= ->] & ? & _). done. }
  split.
  - intros rel. split.
    + intros [s Hrel]. destruct (Hfound _ _ Hrel) as (e & ? & ? & _). by exists e.
    + intros (e & Hin & Hsel). apply H2. right. exists e. split; [|done].
      destruct Hsel as (_ & Hf & Hr & Hi & _). by eapply walk_keeps_included.
  - intros rel s Hrel. destruct (Hfound _ _ Hrel) as (e & ? & _ & ?). by exists e.
Qed.

(** ** The whole scan *)
Lemma selected_profiles_elem `{Unicode} s languages p :
  p ∈ selected_profiles s languages <-> exists l, l ∈ languages /\ by_language s !! l = Some p.
Proof.
  unfold selected_profiles. rewrite list_elem_of_omap.
  split; intros (l & Hl & ?); exists l; (split; [by apply elem_of_btree_elements|done]).
Qed.

Lemma spool_supported_spec `{FileSystem} r m required m' :
  keyed (supported m) -> spool_supported_snapshots r m required = Ok m' ->
  (forall rel s, supported m !! rel = Some s -> spool_result r required (snapshots m) rel s m') /\
  (forall rel, supported m !! rel = None -> supported m' !! rel = None).
Proof.
  intros Hk Hm. unfold spool_supported_snapshots in Hm. destruct (list_is_empty required) eqn:Hreq.
  - apply list_is_empty_true in Hreq as ->. injection Hm as <-. split; [|done].
    intros rel s Hrel. unfold spool_result.
    by rewrite bool_decide_eq_false_2 by apply not_elem_of_nil.
  - apply result_bind_Ok in Hm as [[] [_ Hm]]. apply spool_fold_spec in Hm as [Hout Hin].
    + split.
      * intros rel s Hrel. apply (Hin (rel, s)). by apply elem_of_btree_iter.
      * intros rel Hrel. rewrite (proj1 (Hout rel ltac:(intros Hi;
          apply (elem_of_btree_keys (supported m)) in Hi as [? ?]; congruence))). done.
    + apply NoDup_btree_keys.
    + intros [k s'] Hkv. apply elem_of_btree_iter in Hkv. by apply Hk.
    + intros [k s'] Hkv. by apply elem_of_btree_iter in Hkv.
Qed.

(** C11: a successful scan reports the difference between the previous manifest and the
    files it found; it keeps exactly these files; each one that must be built has been
    copied to a snapshot of its scanned content, and both maps point there, while a reused
    file still points at the source; and each file's language has a profile among those
    handed on. *)
Theorem scan_sources_correct `{FileSystem, Unicode, DigestBackend} r sc :
  scan_sources r = Ok sc ->
  exists st, scan_walk r = Ok st /\
    let found := supported (scan_maps st) in
    scan_diff sc = compute_diff r found (requires_full_source_rebuild r) /\
    (forall rel, is_Some (scan_supported sc !! rel) <-> is_Some (found !! rel)) /\
    (forall rel s, found !! rel = Some s ->
       if decide (rel ∈ rebuild_paths (scan_diff sc)) then
         exists s', spooled r s s' /\ scan_supported sc !! rel = Some s' /\
                    scan_snapshots sc !! rel = Some s'
       else scan_supported sc !! rel = Some s) /\
    (forall rel s, scan_supported sc !! rel = Some s ->
       exists l p, snapshot_language s = Some l /\ p ∈ scan_profiles sc /\ profile_language p = l).
Proof.
  intros Hs. unfold scan_sources in Hs.
  apply result_bind_Ok in Hs as [[] [_ Hs]]. apply result_bind_Ok in Hs as [[] [_ Hs]].
  apply result_bind_Ok in Hs as [st [Hw Hs]]. apply result_bind_Ok in Hs as [m [Hm Hs]].
  injection Hs as <-. exists st. split; [done|]. simpl.
  set (diff := compute_diff r (supported (scan_maps st)) (requires_full_source_rebuild r)) in *.
  unfold scan_walk in Hw. destruct (scan_fold_spec _ _ _ _ _ _ Hw) as [Hfound _]. simpl in Hfound.
  assert (forall rel s, supported (scan_maps st) !! rel = Some s ->
    snapshot_path s = rel /\ exists path, snapshot_language s = language_for_path (new (profiles r)) path
      /\ is_Some (language_for_path (new (profiles r)) path)) as Hkey.
  { intros rel s Hrel. destruct (Hfound _ _ Hrel) as [Hbad|(e & _ & Hsel & Hsn)].
    - by rewrite lookup_empty in Hbad.
    - destruct Hsn as (_ & _ & Hp & _ & _ & Hl), Hsel as (_ & _ & _ & _ & Hlang).
      split; [done|]. by exists (we_path e). }
  destruct (spool_supported_spec _ _ _ _ (fun rel s Hrel => proj1 (Hkey rel s Hrel)) Hm)
    as [Hspool Hnone].
  assert (forall rel s, supported (scan_maps st) !! rel = Some s ->
      exists s', supported m !! rel = Some s' /\ snapshot_language s' = snapshot_language s) as Hlang.
  { intros rel s Hrel. specialize (Hspool _ _ Hrel). unfold spool_result in Hspool.
    case_bool_decide.
    - destruct Hspool as (s' & (len & _ & ->) & ? & _). by eexists.
    - destruct Hspool as [? _]. by exists s. }
  split; [done|]. split; [|split].
  - intros rel. destruct (supported (scan_maps st) !! rel) as [s|] eqn:E.
    + destruct (Hlang _ _ E) as (s' & -> & _). split; intros _; by eexists.
    + by rewrite (Hnone _ E).
  - intros rel s Hrel. specialize (Hspool _ _ Hrel). unfold spool_result in Hspool.
    case_bool_decide; case_decide; try done. by destruct Hspool.
  - intros rel s Hrel. destruct (supported (scan_maps st) !! rel) as [s0|] eqn:E.
    2: { apply Hnone in E. congruence. }
    destruct (Hlang _ _ E) as (s' & Hs' & Hl). destruct (Hkey _ _ E) as (_ & path & Hlp & [l Hsome]).
    assert (s' = s) as -> by congruence. exists l.
    destruct (language_has_profile _ _ _ Hsome) as (p & Hp & Hpl). exists p.
    split; [congruence|]. split; [|done]. apply selected_profiles_elem. exists l. split; [|done].
    unfold selected_languages. apply elem_of_list_to_set, list_elem_of_omap. exists s.
    split; [|congruence]. apply list_elem_of_fmap. exists (rel, s). split; [done|].
    by apply elem_of_btree_iter.
Qed.

(** ** A concrete tree *)
(** The walk over a given list of entries, as [walk_lawful] describes it. *)
Definition list_walk (all : list WalkEntry) (root : string) (keep : WalkEntry -> bool)
    : list (result string WalkEntry) :=
  Ok <$> List.filter (fun e => keep e &&
           forallb (fun d => negb (above root d e) || keep d) all) all.

Definition listed_system (all : list WalkEntry) : FileSystem := {|
  sha256_file path := Ok "hash"; metadata_len _ := Ok 5%N; create_snapshot_directory _ := Ok tt;
  spool_fs _ := racing_fs; walk := list_walk all
|}.

Lemma list_walk_lawful all root : @walk_lawful (listed_system all) root all.
Proof.
  intros keep item. unfold walk; simpl. unfold list_walk. rewrite list_elem_of_fmap. split.
  - intros (e & -> & Hin). exists e. split; [done|].
    apply list_elem_of_In, List.filter_In in Hin as [Hin Hk]. apply andb_true_iff in Hk as [Hk Hd].
    split; [by apply list_elem_of_In|]. split; [done|]. intros d Hdin Hab.
    rewrite forallb_elem_of in Hd. specialize (Hd d Hdin). by rewrite Hab in Hd.
  - intros (e & -> & Hin & Hk & Hd). exists e. split; [done|].
    apply list_elem_of_In, List.filter_In. split; [by apply list_elem_of_In|]. rewrite Hk.
    apply forallb_elem_of. intros d Hdin. destruct (above root d e) eqn:E; [|done].
    by rewrite (Hd d Hdin E).
Qed.

Definition sample_tree : list WalkEntry :=
  [ {| we_path := "/repo"; we_is_dir := true; we_is_file := false |};
    {| we_path := "/repo/notes.txt"; we_is_dir := false; we_is_file := true |};
    {| we_path := "/repo/src"; we_is_dir := true; we_is_file := false |};
    {| we_path := "/repo/src/lib.rs"; we_is_dir := false; we_is_file := true |};
    {| we_path := "/repo/.kwiki"; we_is_dir := true; we_is_file := false |};
    {| we_path := "/repo/.kwiki/page.md"; we_is_dir := false; we_is_file := true |} ].

Example sample_scan :
  match @scan_sources (listed_system sample_tree) ascii_unicode sample_backend sample_request with
  | Ok sc => (btree_keys (scan_supported sc), btree_keys (scan_snapshots sc), scan_messages sc,
              profile_language <$> scan_profiles sc, added (scan_diff sc))
  | Err _ => ([], [], [], [], [])
  end =
  (["src/lib.rs"], ["notes.txt"; "src/lib.rs"], ["Skipped unsupported file: notes.txt"],
   ["rust"], ["src/lib.rs"]).
Proof. vm_compute. reflexivity. Qed.

Lemma sample_walk_ok :
  is_ok (@scan_walk (listed_system sample_tree) ascii_unicode sample_request) = true.
Proof. vm_compute. reflexivity. Qed.

Lemma sample_scan_ok :
  is_ok (@scan_sources (listed_system sample_tree) ascii_unicode sample_backend sample_request) = true.
Proof. vm_compute. reflexivity. Qed.

Lemma is_ok_true {E A} (m : result E A) : is_ok m = true -> exists a, m = Ok a.
Proof. destruct m as [a|e]; [by exists a|done]. Qed.

Lemma sample_tree_plain : plain_tree "/repo" sample_tree.
Proof.
  split.
  - intros e He. unfold sample_tree in He.
    repeat (apply elem_of_cons in He as [->|He]; [by simpl|]). by apply elem_of_nil in He.
  - intros e rel He Hrel. unfold sample_tree in He.
    repeat (apply elem_of_cons in He as [->|He];
      [vm_compute in Hrel; injection Hrel as <-; split; vm_compute; reflexivity|]).
    by apply elem_of_nil in He.
Qed.

Lemma scan_finds_selected_files_witness :
  exists st, @scan_walk (listed_system sample_tree) ascii_unicode sample_request = Ok st /\
    (forall rel, is_Some (supported (scan_maps st) !! rel) <->
       exists e, e ∈ sample_tree /\
         @selects ascii_unicode (request_selection sample_request)
           (@new ascii_unicode (profiles sample_request)) "/repo" e rel).
Proof.
  destruct (is_ok_true _ sample_walk_ok) as [st Hst]. exists st. split; [exact Hst|].
  apply (@scan_finds_selected_files (listed_system sample_tree) ascii_unicode sample_request
           sample_tree st).
  - apply list_walk_lawful.
  - apply sample_tree_plain.
  - apply List.Forall_nil.
  - exact Hst.
Defined.

Lemma scan_sources_correct_witness :
  exists sc st,
    @scan_sources (listed_system sample_tree) ascii_unicode sample_backend sample_request = Ok sc /\
    @scan_walk (listed_system sample_tree) ascii_unicode sample_request = Ok st /\
    (forall rel, is_Some (scan_supported sc !! rel) <-> is_Some (supported (scan_maps st) !! rel)).
Proof.
  destruct (is_ok_true _ sample_scan_ok) as [sc Hsc]. exists sc.
  destruct (@scan_sources_correct (listed_system sample_tree) ascii_unicode sample_backend
              sample_request sc Hsc) as (st & Hst & _ & Hkeys & _).
  exists st. split; [exact Hsc|]. split; [exact Hst|exact Hkeys].
Defined.
