(* ===== verification/Digest.v ===== *)
(** * What the compatibility digest identifies (src/protocol.rs)

    Two requests with the same digest share their artifacts, so the digest must not depend
    on orders that mean nothing, and should depend on those that do. *)
From S2P Require Import Prelude Order Text Json Protocol Normalize Profiles Diff.

(** ** Configurations that differ in irrelevant orders only *)
Record relation_equiv (r r' : OntologyRelationType) : Prop := {
  relation_same_name : rel_name r = rel_name r';
  relation_same_sources : rel_source_types r ≡ₚ rel_source_types r';
  relation_same_targets : rel_target_types r ≡ₚ rel_target_types r'
}.

Record mapping_equiv (m m' : CaptureMapping) : Prop := {
  mapping_same_name : mapping_capture_name m = mapping_capture_name m';
  mapping_same_types : parser_node_types m ≡ₚ parser_node_types m';
  mapping_same_target : target_node_type m = target_node_type m';
  mapping_same_relations : mapping_relation_types m ≡ₚ mapping_relation_types m';
  mapping_same_rule : context_rule m = context_rule m';
  mapping_same_construct : construct m = construct m'
}.

Record profile_equiv (p p' : LanguageProfile) : Prop := {
  profile_same_language : profile_language p = profile_language p';
  profile_same_suffixes : suffixes p ≡ₚ suffixes p';
  profile_same_package : grammar_package p = grammar_package p';
  profile_same_version : profile_grammar_version p = profile_grammar_version p';
  profile_same_roots : root_node_types p ≡ₚ root_node_types p';
  profile_same_mappings : Forall2 mapping_equiv (capture_mappings p) (capture_mappings p')
}.

(** Equal up to order and [R]. *)
Definition perm_rel {A} (R : A -> A -> Prop) (l l' : list A) : Prop :=
  exists l0, l ≡ₚ l0 /\ Forall2 R l0 l'.

Record same_configuration (r r' : NativeSyntaxMaterializationRequest) : Prop := {
  same_root : source_root r = source_root r';
  same_label : repository_label r = repository_label r';
  same_schema : manifest_schema_version r = manifest_schema_version r';
  same_ontology : ontology r = ontology r';
  same_parser : parser_version r = parser_version r';
  same_fts : include_fts r = include_fts r';
  same_relations : perm_rel relation_equiv (relation_types (ontology_schema r))
                     (relation_types (ontology_schema r'));
  same_profiles : perm_rel profile_equiv (profiles r) (profiles r');
  same_excluded : request_excluded_parts r ≡ₚ request_excluded_parts r';
  same_include : request_include_patterns r ≡ₚ request_include_patterns r';
  same_exclude : request_exclude_patterns r ≡ₚ request_exclude_patterns r';
  same_ignore : request_ignore_patterns r ≡ₚ request_ignore_patterns r';
  same_statements : schema_statements r ≡ₚ schema_statements r'
}.

(** ** Sorting respects the equivalences *)
Lemma insert_by_Forall2 {A K} `{Ord K} (key : A -> K) (R : A -> A -> Prop) x x' l l' :
  (forall y y', R y y' -> key y = key y') -> R x x' -> Forall2 R l l' ->
  Forall2 R (insert_by (fun a b => le_b (key a) (key b)) x l)
            (insert_by (fun a b => le_b (key a) (key b)) x' l').
Proof.
  intros HR Hx. induction 1 as [|y y' l l' Hy Hl IH]; simpl; [by repeat constructor|].
  rewrite <- (HR _ _ Hx), <- (HR _ _ Hy). destruct (le_b (key x) (key y)); by repeat constructor.
Qed.

Lemma sort_by_key_Forall2 {A K} `{Ord K} (key : A -> K) (R : A -> A -> Prop) l l' :
  (forall y y', R y y' -> key y = key y') -> Forall2 R l l' ->
  Forall2 R (sort_by_key key l) (sort_by_key key l').
Proof.
  intros HR. unfold sort_by_key, sort_by.
  induction 1 as [|y y' l l' Hy Hl IH]; simpl; [constructor|]. by apply insert_by_Forall2.
Qed.

Lemma fmap_Forall2_eq {A B} (f : A -> B) (R : A -> A -> Prop) l l' :
  (forall y y', R y y' -> f y = f y') -> Forall2 R l l' -> f <$> l = f <$> l'.
Proof. intros Hf. induction 1 as [|y y' l l' Hy _ IH]; [done|]. rewrite !fmap_cons. f_equal; auto. Qed.

(** Canonical forms of equivalent lists are equal. *)
Lemma canonical_list_eq {A B} (key : A -> string) (canonical : A -> B) (R : A -> A -> Prop) l l' :
  (forall y y', R y y' -> key y = key y') -> (forall y y', R y y' -> canonical y = canonical y') ->
  NoDup (key <$> l) -> perm_rel R l l' ->
  canonical <$> sort_by_key key l = canonical <$> sort_by_key key l'.
Proof.
  intros Hk Hc Hnd (l0 & Hp & Hf). rewrite (sort_by_key_perm_eq key l l0) by done.
  eapply fmap_Forall2_eq; [exact Hc|]. by apply sort_by_key_Forall2.
Qed.

Lemma canonical_relation_equiv r r' : relation_equiv r r' -> canonical_relation r = canonical_relation r'.
Proof.
  intros []. unfold canonical_relation. f_equal; [done|by apply sort_perm_eq|by apply sort_perm_eq].
Qed.

Lemma canonical_mapping_equiv m m' : mapping_equiv m m' -> canonical_mapping m = canonical_mapping m'.
Proof. intros []. unfold canonical_mapping. f_equal; try done; by apply sort_perm_eq. Qed.

Lemma canonical_profile_equiv p p' : profile_equiv p p' -> canonical_profile p = canonical_profile p'.
Proof.
  intros []. unfold canonical_profile. f_equal; try done; try by apply sort_perm_eq.
  eapply fmap_Forall2_eq; [exact canonical_mapping_equiv|].
  apply sort_by_key_Forall2; [|done]. by intros ? ? [].
Qed.

(** The digest identifies a configuration up to orders that mean nothing: the order of
    the patterns, excluded parts and schema statements, of the relations and their
    endpoint types, of the profiles and of their suffixes, root types and node types. *)
Theorem digest_order_independent `{DigestBackend} r r' :
  NoDup (rel_name <$> relation_types (ontology_schema r)) ->
  NoDup (profile_language <$> profiles r) ->
  same_configuration r r' ->
  graph_build_compatibility_digest r = graph_build_compatibility_digest r'.
Proof.
  intros Hnr Hnp []. unfold graph_build_compatibility_digest. do 2 f_equal.
  unfold digest_input. f_equal; try done; try by apply sort_perm_eq.
  - eapply canonical_list_eq; [|exact canonical_relation_equiv|done|done]. by intros ? ? [].
  - eapply canonical_list_eq; [|exact canonical_profile_equiv|done|done]. by intros ? ? [].
  - by match goal with E : include_fts r = include_fts _ |- _ => rewrite E end.
Qed.

(** ** A concrete pair *)
Definition with_profiles (r : NativeSyntaxMaterializationRequest) (ps : list LanguageProfile)
    (includes : list string) : NativeSyntaxMaterializationRequest := {|
  source_root := source_root r; repository_label := repository_label r; mode := mode r;
  parser_version := parser_version r; manifest_schema_version := manifest_schema_version r;
  ontology := ontology r; ontology_schema := ontology_schema r;
  previous_manifest := previous_manifest r; profiles := ps;
  request_excluded_parts := request_excluded_parts r;
  request_include_patterns := includes;
  request_exclude_patterns := request_exclude_patterns r;
  request_ignore_patterns := request_ignore_patterns r; candidate_paths := candidate_paths r;
  artifact_root := artifact_root r; db_path := db_path r; include_fts := include_fts r;
  schema_statements := schema_statements r; staging_dir := staging_dir r;
  atomic_rebuild := atomic_rebuild r; strict := strict r; parallel := parallel r;
  spill_chunk_mib := spill_chunk_mib r; max_parallelism := max_parallelism r; progress := progress r
|}.

Lemma digest_order_independent_witness :
  @graph_build_compatibility_digest sample_backend (with_profiles sample_request [] ["a"; "b"]) =
  @graph_build_compatibility_digest sample_backend (with_profiles sample_request [] ["b"; "a"]).
Proof.
  apply (@digest_order_independent sample_backend).
  - constructor.
  - constructor.
  - split; try reflexivity; try (exists []; split; [reflexivity|constructor]).
    apply perm_swap.
Defined.

(** ** An order that means something *)
Definition custom_profile (ms : list CaptureMapping) : LanguageProfile := {|
  profile_language := "custom"; suffixes := [".custom"]; grammar_package := "tree_sitter_custom";
  profile_grammar_version := "1"; root_node_types := []; capture_mappings := ms
|}.
Definition item_function : CaptureMapping := mapping "definition.function" ["item"] "Function".
Definition item_class : CaptureMapping := mapping "definition.class" ["item"] "Class".
Definition item_node : SyntaxNode := mkSyntaxNode "item" "" None None None None "" None [] [].

(** the digest sorts a profile's capture mappings by name although their order decides
    which of them applies to a node: the two requests below have the same digest
    under every serialization and hash, but their profiles capture the same node under
    different names, so artifacts built with one order are reused with the other. *)
Theorem digest_ignores_mapping_order :
  let p := custom_profile [item_function; item_class] in
  let p' := custom_profile [item_class; item_function] in
  (forall `{DigestBackend},
     graph_build_compatibility_digest (with_profiles sample_request [p] []) =
     graph_build_compatibility_digest (with_profiles sample_request [p'] [])) /\
  (forall `{Unicode}, capture_name (mark_captures item_node p []) = "definition.function" /\
                      capture_name (mark_captures item_node p' []) = "definition.class").
Proof.
  split.
  - intros HD. unfold graph_build_compatibility_digest. do 2 f_equal.
  - intros HU. split; reflexivity.
Qed.
