(* ===== verification/Rows.v ===== *)
(** * Graph rows, identifiers and the allowed relations
      (src/syntax_materializer/rows.rs, ids.rs, relations.rs)

    The nodes and edges of the graph, the content-addressed identifiers that make their
    construction idempotent, and which relations the ontology allows. *)
From Stdlib Require Import Floats.SpecFloat.
From S2P Require Import Prelude Order Text Json Hash.

(** [f64] values are IEEE binary64 data. *)
Definition f64 := spec_float.
Definition f64_one : f64 := S754_finite false 4503599627370496 (-52).

Record GraphNodeRow := {
  n_id : string;
  n_table : string;
  n_label : string;
  n_kind : string;
  n_language : string;
  n_grammar_version : option string;
  n_path : string;
  n_qualified_name : string;
  n_scope_id : string;
  n_line_start : option Z;
  n_line_end : option Z;
  n_byte_start : option Z;
  n_byte_end : option Z;
  n_tree_sitter_node_type : string;
  n_capture_name : string;
  n_summary : string;
  n_metadata : Value
}.

Record GraphEdgeRow := {
  e_id : string;
  e_edge_type : string;
  e_source_id : string;
  e_target_id : string;
  e_kind : string;
  e_confidence : f64;
  e_field_name : option string;
  e_child_index : option Z;
  e_line_start : option Z;
  e_line_end : option Z;
  e_byte_start : option Z;
  e_byte_end : option Z;
  e_metadata : Value
}.

Record BuiltGraphRows := { rows_nodes : list GraphNodeRow; rows_edges : list GraphEdgeRow }.

Module Ids.
(** ids.rs repeats the two functions of hash.rs word for word. *)
Definition sha1 (input : list Z) : list Z := Hash.sha1 input.
Definition sha1_hex (input : list Z) : string := hex_lower (take 10 (sha1 input)).

Definition graph_id (prefix value : string) : string :=
  prefix +:+ ":" +:+ sha1_hex (bytes_of value).

Definition is_symbol_target (table : string) : bool :=
  is_one_of table ["Symbol"; "Class"; "Function"; "Method"; "Variable"; "Constant";
                   "ClassAttribute"; "InstanceAttribute"; "Property"; "Parameter"].

Definition is_declaration (table : string) : bool :=
  is_one_of table ["Symbol"; "Class"; "Function"; "Method"; "Parameter"; "ReturnType";
                   "TypeAnnotation"; "TypeAlias"; "Variable"; "Constant"; "ClassAttribute";
                   "InstanceAttribute"; "Property"; "Decorator"; "Assignment"; "APIEndpoint";
                   "Component"; "Route"; "Query"; "SecretRef"].

Definition is_expression (table : string) : bool :=
  is_one_of table ["CallExpression"; "Assignment"; "Reference"; "Literal"; "Expression";
                   "ControlFlowBlock"; "ExceptionFlow"; "Query"; "SecretRef"].

Definition is_documentation (table : string) : bool :=
  is_one_of table ["DocumentationSource"; "DocumentationChunk"].

Definition module_label (path : string) : string :=
  let stem := match rsplit_once "." path with Some (l, _) => l | None => path end in
  replace_char "/" "." stem.

Definition qualified_name (owner label : string) : string :=
  if is_empty owner || String.eqb owner label then label
  else if is_empty label then owner
  else owner +:+ "." +:+ label.

Definition kind_for (table node_type : string) : string :=
  if String.eqb table "Method" then "method"
  else if String.eqb table "Function" then "function"
  else if String.eqb table "Class" then "class"
  else node_type.

Definition imported_name (n : GraphNodeRow) : string :=
  default "" (value_get "imported_name" (n_metadata n) ≫= as_str).

Definition symbol_key `{Unicode} (label : string) : string := to_lowercase (trim label).

Definition stable_optional_i64 (value : option Z) : string :=
  match value with Some z => show_Z z | None => "None" end.
End Ids.

(** ** Identifiers carry their table *)
Lemma length_sha1_hex input : String.length (Ids.sha1_hex input) = 20.
Proof.
  unfold Ids.sha1_hex, Ids.sha1. rewrite length_hex_lower, length_take, length_sha1. reflexivity.
Qed.

(** The table can be read off an identifier, whatever the keys. *)
Lemma graph_id_prefix p q v w : Ids.graph_id p v = Ids.graph_id q w -> p = q.
Proof.
  unfold Ids.graph_id. intros E.
  apply app_str_inj_r_length in E as [E _]; [done|].
  rewrite !length_app_str, !length_sha1_hex. reflexivity.
Qed.

Import Ids.

Record RelationSpecPayload := {
  spec_name : string;
  spec_source_types : list string;
  spec_target_types : list string
}.

Record RelationAllowlist := {
  enabled : bool;
  pairs_by_relation : gmap string (gset (string * string))
}.

Definition default_allowlist : RelationAllowlist :=
  {| enabled := false; pairs_by_relation := ∅ |}.

Definition default_relation_allowed (edge_type source target : string) : bool :=
  if String.eqb edge_type "Imports" then
    is_one_of source ["File"; "Module"; "Scope"]
    && is_one_of target ["ImportDeclaration"; "Dependency"; "Module"; "Symbol"]
  else if String.eqb edge_type "References" then
    is_one_of source ["Reference"; "Expression"; "CallExpression"; "Assignment";
                      "ControlFlowBlock"; "TypeAnnotation"; "Decorator"; "Query"; "SecretRef"]
    && (is_symbol_target target || is_one_of target ["Module"; "Dependency"])
  else if String.eqb edge_type "Calls" then
    is_one_of source ["Function"; "Method"; "CallExpression"; "Decorator"; "APIEndpoint";
                      "Route"; "Component"]
    && is_one_of target ["CallExpression"; "Function"; "Method"; "Class"; "APIEndpoint"]
  else if String.eqb edge_type "ResolvesTo" then
    is_one_of source ["Reference"; "ImportDeclaration"; "CallExpression"; "TypeAnnotation";
                      "Decorator"]
    && (is_symbol_target target || is_one_of target ["Module"; "Dependency"])
  else if String.eqb edge_type "Documents" then
    is_one_of source ["DocumentationSource"; "DocumentationChunk"; "Literal"]
    && (is_one_of target ["Repository"; "File"; "Module"] || is_declaration target)
  else if String.eqb edge_type "EvidencedBy" then
    (is_one_of source ["Repository"; "File"; "Module"; "Dependency"]
     || is_declaration source || is_expression source || is_documentation source)
    && is_one_of target ["SyntaxCapture"; "File"; "DocumentationChunk"]
  else true.

(** Decoding the [ontology_relations] metadata from JSON is serde's. *)
Class RelationCodec := decode_relations : string -> result string (list RelationSpecPayload).

Definition spec_pairs (r : RelationSpecPayload) : gset (string * string) :=
  list_to_set (s ← spec_source_types r; (fun t => (s, t)) <$> spec_target_types r).

Definition add_spec (m : gmap string (gset (string * string))) (r : RelationSpecPayload)
    : gmap string (gset (string * string)) :=
  if is_empty (spec_name r) then m
  else <[spec_name r := default ∅ (m !! spec_name r) ∪ spec_pairs r]> m.

Definition from_meta `{RelationCodec} (meta : gmap string string)
    : result string RelationAllowlist :=
  match meta !! "ontology_relations" with
  | None => Ok default_allowlist
  | Some encoded =>
      result_map (fun specs => {| enabled := true; pairs_by_relation := fold_left add_spec specs ∅ |})
        (map_err (fun e => "invalid ontology_relations metadata: " +:+ e) (decode_relations encoded))
  end.

Definition allows (l : RelationAllowlist) (edge_type source target : string) : bool :=
  if negb (enabled l) then default_relation_allowed edge_type source target
  else match pairs_by_relation l !! edge_type with
       | Some pairs => bool_decide ((source, target) ∈ pairs)
       | None => false
       end.

Lemma elem_of_spec_pairs r s t :
  (s, t) ∈ spec_pairs r <-> s ∈ spec_source_types r /\ t ∈ spec_target_types r.
Proof.
  unfold spec_pairs. rewrite elem_of_list_to_set, list_elem_of_bind. split.
  - intros (s' & Hin & Hs). apply list_elem_of_fmap in Hin as (t' & [= -> ->] & Ht). done.
  - intros [Hs Ht]. exists s. split; [|done]. apply list_elem_of_fmap. by exists t.
Qed.

Lemma fold_add_spec_pairs specs m e p :
  (exists pairs, fold_left add_spec specs m !! e = Some pairs /\ p ∈ pairs) <->
  (exists pairs, m !! e = Some pairs /\ p ∈ pairs) \/
  exists r, r ∈ specs /\ spec_name r = e /\ e <> "" /\ p ∈ spec_pairs r.
Proof.
  revert m. induction specs as [|r specs IH]; intros m; simpl.
  - split; [by left|]. intros [?|(r & Hr & _)]; [done|by apply elem_of_nil in Hr].
  - rewrite IH. clear IH. unfold add_spec. destruct (is_empty (spec_name r)) eqn:He.
    + split; [intros [?|(r' & ? & ?)]; [by left|right; exists r'; split; [by right|done]]|].
      intros [?|(r' & [->|Hr']%elem_of_cons & Hn & Hne & ?)]; [by left| |right; by exists r'].
      subst. by destruct (spec_name r).
    + destruct (decide (spec_name r = e)) as [<-|Hne].
      * rewrite lookup_insert_eq. split.
        -- intros [(pairs & [= <-] & Hp)|(r' & ? & ?)].
           ++ apply elem_of_union in Hp as [Hp|Hp].
              ** destruct (m !! spec_name r) as [ps|]; simpl in Hp; [left; by exists ps|].
                 by apply elem_of_empty in Hp.
              ** right. exists r. split; [apply list_elem_of_here|]. split; [done|].
                 split; [by intros E; rewrite E in He|done].
           ++ right. exists r'. split; [by right|done].
        -- intros [(pairs & Hm & Hp)|(r' & [->|Hr']%elem_of_cons & Hn & Hne & Hp)].
           ++ left. rewrite Hm. eexists. split; [done|]. simpl. set_solver.
           ++ left. eexists. split; [done|]. set_solver.
           ++ right. by exists r'.
      * rewrite lookup_insert_ne by done. split.
        -- intros [?|(r' & ? & ?)]; [by left|]. right. exists r'. split; [by right|done].
        -- intros [?|(r' & [->|Hr']%elem_of_cons & Hn & ?)]; [by left|done|]. right. by exists r'.
Qed.

(** With ontology metadata, a relation is allowed between two tables exactly when a
    declaration of that (nonempty) name lists them as source and target, several
    declarations of one relation adding up; without metadata the built-in rules apply. *)
Theorem allows_ontology `{RelationCodec} meta l :
  from_meta meta = Ok l ->
  forall e s t, allows l e s t = true <->
    match meta !! "ontology_relations" with
    | None => default_relation_allowed e s t = true
    | Some encoded => exists specs r, decode_relations encoded = Ok specs /\ r ∈ specs /\
        spec_name r = e /\ e <> "" /\ s ∈ spec_source_types r /\ t ∈ spec_target_types r
    end.
Proof.
  unfold from_meta. destruct (meta !! "ontology_relations") as [encoded|].
  2: { by intros [= <-]. }
  destruct (decode_relations encoded) as [specs|err]; simpl; [|done]. intros [= <-] e s t.
  unfold allows. simpl. pose proof (fold_add_spec_pairs specs ∅ e (s, t)) as Hf.
  transitivity (exists pairs, fold_left add_spec specs ∅ !! e = Some pairs /\ (s, t) ∈ pairs).
  - destruct (fold_left add_spec specs ∅ !! e) as [pairs|].
    + rewrite bool_decide_eq_true. split; [by exists pairs|]. by intros (? & [= <-] & ?).
    + split; [done|]. by intros (? & ? & _).
  - rewrite Hf. split.
    + intros [(? & Hbad & _)|(r & Hr & Hn & Hne & Hp)]; [by rewrite lookup_empty in Hbad|].
      apply elem_of_spec_pairs in Hp. by exists specs, r.
    + intros (specs' & r & [= <-] & Hr & Hn & Hne & Hp). right. exists r.
      by rewrite elem_of_spec_pairs.
Qed.

Definition sample_codec : RelationCodec := fun _ =>
  Ok [ {| spec_name := "Calls"; spec_source_types := ["Function"]; spec_target_types := ["Method"] |};
       {| spec_name := "Calls"; spec_source_types := ["Method"]; spec_target_types := ["Function"] |} ].

Lemma allows_ontology_witness :
  exists l, @from_meta sample_codec (<["ontology_relations" := "x"]> ∅) = Ok l /\
    (allows l "Calls" "Method" "Function" = true <->
     exists specs r, sample_codec "x" = Ok specs /\ r ∈ specs /\
       spec_name r = "Calls" /\ "Calls" <> "" /\ "Method" ∈ spec_source_types r /\
       "Function" ∈ spec_target_types r) /\
    allows l "Calls" "Method" "Method" = false.
Proof.
  eexists. split; [reflexivity|]. split.
  - exact (@allows_ontology sample_codec (<["ontology_relations" := "x"]> ∅) _ eq_refl
             "Calls" "Method" "Function").
  - reflexivity.
Defined.
