(* ===== verification/Capture.v ===== *)
(** * The syntax arena and captures (src/syntax_materializer/arena.rs, capture.rs)

    The builder addresses syntax nodes by their index in an arena; what it reads off a
    node is a [Capture], and the tables of the graph are chosen by capture name and node
    type. *)
From S2P Require Import Prelude Order Text Json Normalize Rows.

(** ** Labels of JSON values *)
(** [f] of the value under [k], if any. *)
Definition get_with {B} (f : Value -> B) (k : string) : Map -> option B :=
  fix go m := match m with
              | [] => None
              | (k', v) :: m => if String.eqb k k' then Some (f v) else go m
              end.

(** The first key that is present decides: no label there is no label at all, an empty
    one passes to the next key. *)
Definition object_label (label : Value -> option string) (m : Map) : list string -> option string :=
  fix go keys := match keys with
                 | [] => None
                 | k :: keys => match get_with label k m with
                                | None => go keys
                                | Some None => None
                                | Some (Some l) => if is_empty l then go keys else Some l
                                end
                 end.

Fixpoint json_value_label (v : Value) : option string :=
  match v with
  | VString s => Some (trim s)
  | VNumber d => Some d
  | VBool b => Some (show_bool b)
  | VObject m => object_label json_value_label m ["id"; "name"; "arg"; "attr"; "value"]
  | _ => None
  end.

(** The first nonempty label of the keys, in their order. *)
Definition first_label (label : Value -> option string) (m : Map) : list string -> option string :=
  fix go keys := match keys with
                 | [] => None
                 | k :: keys => match get_with label k m with
                                | Some (Some l) => if is_empty l then go keys else Some l
                                | _ => go keys
                                end
                 end.

Definition metadata_keys : list string :=
  ["name"; "id"; "arg"; "attr"; "module"] ++ ["value"] ++
  ["name"; "module"; "path"; "function"; "type"; "return_type"; "declarator"].

Fixpoint metadata_value_label (v : Value) : option string :=
  match v with
  | VString s => Some s
  | VNumber d => Some d
  | VBool b => Some (show_bool b)
  | VArray items =>
      Some ("[" +:+ join ", " ((fun i => "'" +:+ i +:+ "'") <$>
              omap (fun o => o) (List.map metadata_value_label items)) +:+ "]")
  | VObject m => first_label metadata_value_label m metadata_keys
  | Null => None
  end.

Definition metadata_object_label (m : Map) : option string :=
  first_label metadata_value_label m metadata_keys.

(** ** The arena *)
Record TreeNodeRef := { parent_id : option nat; node : SyntaxNode; child_ids : list nat }.
Definition NativeSyntaxArena := list TreeNodeRef.

(** [append]: the node takes the next index, then its children are appended in order, and
    its child list is filled in. *)
Fixpoint append (n : SyntaxNode) (parent : option nat) (arena : NativeSyntaxArena)
    : nat * NativeSyntaxArena :=
  match n with
  | mkSyntaxNode _ _ _ _ _ _ _ _ cs _ =>
      let id := length arena in
      let arena1 := arena ++ [{| parent_id := parent; node := n; child_ids := [] |}] in
      let '(ids, arena2) :=
        (fix append_children (cs : list SyntaxNode) (arena : NativeSyntaxArena)
            : list nat * NativeSyntaxArena :=
          match cs with
          | [] => ([], arena)
          | c :: cs =>
              let '(cid, arena) := append c (Some id) arena in
              let '(ids, arena) := append_children cs arena in
              (cid :: ids, arena)
          end) cs arena1 in
      (id, <[id := {| parent_id := parent; node := n; child_ids := ids |}]> arena2)
  end.

Definition new_arena (root : SyntaxNode) : nat * NativeSyntaxArena := append root None [].

Definition get_node (nodes : NativeSyntaxArena) (id : nat) : option TreeNodeRef := nodes !! id.

Definition ref_type (n : TreeNodeRef) : string := node_type (node n).
Definition ref_text (n : TreeNodeRef) : string := text (node n).
Definition field_value (n : TreeNodeRef) (f : string) : option Value := map_get f (fields (node n)).
Definition field_label (n : TreeNodeRef) (f : string) : option string :=
  field_value n f ≫= json_value_label.
Definition field_keys (n : TreeNodeRef) : list string := map_keys (fields (node n)).

(** ** Captures *)
Record Capture := {
  c_capture_name : string;
  c_node_type : string;
  c_label : string;
  c_text : string;
  c_line_start : option Z;
  c_line_end : option Z;
  c_byte_start : option Z;
  c_byte_end : option Z;
  c_fields : list string
}.

Record Owner := {
  o_node_id : string;
  o_table : string;
  o_qualified_name : string;
  o_scope_id : string
}.

Definition nonempty (o : option string) : option string :=
  match o with Some l => if is_empty l then None else Some l | None => None end.

Definition tree_label (n : TreeNodeRef) : string :=
  match find_map (fun key => nonempty (field_label n key))
          ["name"; "id"; "arg"; "attr"; "module"; "path"; "function"] with
  | Some label => label
  | None =>
      match nonempty (field_label n "value") with
      | Some label => label
      | None => let t := trim (ref_text n) in if is_empty t then ref_type n else t
      end
  end.

(** The position and text of a node, under another name, type, label and field list. *)
Definition located_capture (n : TreeNodeRef) (name ty label txt : string) (fs : list string)
    : Capture := {|
  c_capture_name := name; c_node_type := ty; c_label := label; c_text := txt;
  c_line_start := line_start (node n); c_line_end := line_end (node n);
  c_byte_start := byte_start (node n); c_byte_end := byte_end (node n); c_fields := fs
|}.

Definition tree_capture (n : TreeNodeRef) : Capture :=
  located_capture n (capture_name (node n)) (ref_type n) (tree_label n) (ref_text n) (field_keys n).

Definition set_capture (c : Capture) (name : string) (label : string) : Capture := {|
  c_capture_name := name; c_node_type := c_node_type c; c_label := label; c_text := c_text c;
  c_line_start := c_line_start c; c_line_end := c_line_end c;
  c_byte_start := c_byte_start c; c_byte_end := c_byte_end c; c_fields := c_fields c
|}.
Definition clear_capture_name (c : Capture) : Capture := set_capture c "" (c_label c).
Definition with_label (c : Capture) (l : string) : Capture := set_capture c (c_capture_name c) l.

Definition should_derive_root_module (language root_node_type : string) : bool :=
  negb (String.eqb root_node_type "source_file"
        || (String.eqb language "python" && String.eqb root_node_type "module")
        || (String.eqb language "markdown" && String.eqb root_node_type "Module")).

(** ** Which children are visited *)
Definition should_inline_child (child : TreeNodeRef) (language : string) : bool :=
  (String.eqb language "python" && String.eqb (ref_type child) "block")
  || (String.eqb language "fortran" && String.eqb (ref_type child) "variable_declaration").

(** The python rules; [None] when none of them decides. *)
Definition python_traverse (parent child : TreeNodeRef) : option bool :=
  if String.eqb (ref_type parent) "attribute" then
    Some (match field_label parent "value" with
          | Some label => String.eqb label (tree_label child)
          | None => false
          end)
  else if is_one_of (ref_type child) ["parameters"; "decorator"] then Some false
  else if is_one_of (ref_type parent) ["class_definition"; "function_definition"]
          && is_one_of (ref_type child) ["identifier"; "type"; "type_identifier"] then Some false
  else if is_one_of (ref_type child) ["identifier"; "type_identifier"]
          && negb (is_one_of (ref_type parent) ["assignment"; "call"; "attribute"]) then Some false
  else None.

Definition should_traverse_child (parent child : TreeNodeRef) (language : string) : bool :=
  match (if String.eqb language "python" then python_traverse parent child else None) with
  | Some decided => decided
  | None =>
      if String.eqb (ref_type child) "block" then true
      else if is_one_of (ref_type parent) ["import_statement"; "import_from_statement";
                                           "import_declaration"; "use_declaration"]
              && is_one_of (ref_type child) ["identifier"; "dotted_name"; "aliased_import";
                   "import_list"; "string"; "interpreted_string_literal"; "raw_string_literal";
                   "string_literal"]
      then String.eqb language "python" && String.eqb (ref_type child) "dotted_name"
      else true
  end.

(** Inlined children are replaced by their own semantic children; [None] is lack of
    fuel, and [length nodes] is enough ([semantic_child_ids_total]). *)
Fixpoint semantic_child_ids (fuel : nat) (nodes : NativeSyntaxArena) (parent : TreeNodeRef)
    (language : string) : option (list nat) :=
  match fuel with
  | O => None
  | S fuel =>
      foldr (fun child_id rest =>
        match get_node nodes child_id with
        | None => rest
        | Some child =>
            if should_inline_child child language then
              ids ← semantic_child_ids fuel nodes child language; app ids <$> rest
            else if should_traverse_child parent child language then cons child_id <$> rest
            else rest
        end) (Some []) (child_ids parent)
  end.

(** ** Tables *)
Definition table_for_node_type (ty : string) (owner : Owner) : option string :=
  if is_one_of ty ["import_statement"; "import_from_statement"; "import_declaration";
                   "use_declaration"; "preproc_include"; "use_statement"]
  then Some "ImportDeclaration"
  else if is_one_of ty ["export_statement"; "export_clause"; "export_declaration"]
  then Some "ExportDeclaration"
  else if is_one_of ty ["class_definition"; "class_declaration"; "struct_item";
                        "interface_declaration"; "struct_specifier"; "union_specifier";
                        "enum_specifier"; "class_specifier"; "type_declaration"]
  then Some "Class"
  else if is_one_of ty ["function_definition"; "function_declaration"; "method_definition";
                        "method_declaration"; "function_item"; "subroutine"; "function"]
  then Some (if is_one_of (o_table owner) ["Class"; "Component"] then "Method" else "Function")
  else if String.eqb ty "arg" then Some "Parameter"
  else if is_one_of ty ["return_type"; "returns"] then Some "ReturnType"
  else if is_one_of ty ["type"; "type_identifier"; "qualified_type"; "type_annotation";
                        "annotation"]
  then Some "TypeAnnotation"
  else if is_one_of ty ["assignment"; "assignment_expression"] then Some "Assignment"
  else if is_one_of ty ["call"; "call_expression"; "invocation_expression"; "call_statement";
                        "subroutine_call"]
  then Some "CallExpression"
  else if is_one_of ty ["identifier"; "field_identifier"; "attribute"] then Some "Reference"
  else if is_one_of ty ["string"; "integer"; "float"; "true"; "false"; "null"; "none";
                        "intrinsic_type"]
  then Some "Literal"
  else if is_one_of ty ["if_statement"; "for_statement"; "while_statement"; "match_statement";
                        "switch_statement"]
  then Some "ControlFlowBlock"
  else if is_one_of ty ["try_statement"; "except_clause"; "catch_clause"; "raise_statement";
                        "throw_statement"]
  then Some "ExceptionFlow"
  else None.

Definition table_for_capture (capture : string) (owner : Owner) : option string :=
  let c := trim_start_matches "@" capture in
  if is_one_of c ["definition.class"; "definition.struct"; "definition.interface";
                  "definition.enum"; "definition.union"] then Some "Class"
  else if is_one_of c ["definition.module"; "definition.namespace"; "definition.package"]
  then Some "Module"
  else if is_one_of c ["definition.component"; "component"] then Some "Component"
  else if String.eqb c "definition.method" then Some "Method"
  else if String.eqb c "definition.function" then
    Some (if is_one_of (o_table owner) ["Class"; "Component"] then "Method" else "Function")
  else if is_one_of c ["definition.parameter"; "parameter"] then Some "Parameter"
  else if is_one_of c ["type.return"; "return_type"] then Some "ReturnType"
  else if is_one_of c ["type"; "type.annotation"; "reference.type"] then Some "TypeAnnotation"
  else if String.eqb c "definition.type_alias" then Some "TypeAlias"
  else if String.eqb c "definition.macro" then Some "Symbol"
  else if String.eqb c "definition.constant" then Some "Constant"
  else if String.eqb c "definition.variable" then Some "Variable"
  else if is_one_of c ["decorator"; "definition.decorator"] then Some "Decorator"
  else if is_one_of c ["reference.import"; "reference.include"; "reference.require";
                       "reference.use"; "import"] then Some "ImportDeclaration"
  else if is_one_of c ["export"; "definition.export"] then Some "ExportDeclaration"
  else if is_one_of c ["reference.call"; "call"] then Some "CallExpression"
  else if String.eqb c "entrypoint.api" then Some "APIEndpoint"
  else if String.eqb c "endpoint" then Some "APIEndpoint"
  else if String.eqb c "route" then Some "Route"
  else if String.eqb c "doc.source" then Some "DocumentationSource"
  else if is_one_of c ["literal"; "string"; "number"] then Some "Literal"
  else if String.eqb c "control_flow" then Some "ControlFlowBlock"
  else if is_one_of c ["exception"; "raises"; "handles"] then Some "ExceptionFlow"
  else if starts_with c "query." then Some "Query"
  else if starts_with c "secret." then Some "SecretRef"
  else if starts_with c "doc" then Some "DocumentationChunk"
  else if starts_with c "reference" then Some "Reference"
  else None.

(** ** Imports, assignments, calls *)
Definition import_label (n : TreeNodeRef) : option string :=
  let module := default "" (field_label n "module") in
  let names :=
    List.filter (fun l => negb (is_empty l))
      (omap json_value_label (default [] (field_value n "names" ≫= as_array))) in
  if negb (is_empty module) && negb (list_is_empty names) then
    Some (join ", " ((fun name => module +:+ "." +:+ name) <$> names))
  else if negb (is_empty module) then Some module
  else if negb (list_is_empty names) then Some (join ", " names)
  else None.

Definition present_children (nodes : NativeSyntaxArena) (n : TreeNodeRef) : list TreeNodeRef :=
  omap (get_node nodes) (child_ids n).

Definition is_call_type (ty : string) : bool := is_one_of ty ["call"; "call_expression"].

Definition assignment_target_label (nodes : NativeSyntaxArena) (n : TreeNodeRef) : option string :=
  match field_label n "target" with
  | Some l => Some l
  | None => nonempty (tree_label <$>
              List.find (fun c => negb (is_call_type (ref_type c))) (present_children nodes n))
  end.

Definition assignment_target_table `{Unicode} (label : string) (owner : Owner) (ty : string)
    : string :=
  let cases := alphabetic_cases label in
  if negb (list_is_empty cases) && forallb (fun upper => upper) cases then "Constant"
  else if String.eqb (o_table owner) "Class" then "ClassAttribute"
  else if contains_char label "." then "InstanceAttribute"
  else if String.eqb ty "AnnAssign" && String.eqb (o_table owner) "Class" then "ClassAttribute"
  else "Variable".

Definition call_value_child (nodes : NativeSyntaxArena) (n : TreeNodeRef) : option nat :=
  List.find (fun id => match get_node nodes id with
                       | Some c => is_call_type (ref_type c) | None => false end) (child_ids n).

(** ** Parameters and types *)
Definition parameter_child_ids (nodes : NativeSyntaxArena) (f : TreeNodeRef) : list nat :=
  List.filter (fun id => match get_node nodes id with
      | Some c => is_one_of (ref_type c) ["identifier"; "typed_parameter"; "default_parameter";
                                          "parameter"]
      | None => false end)
    (concat (child_ids <$>
       List.filter (fun c => String.eqb (ref_type c) "parameters") (present_children nodes f))).

Definition before_char (c : ascii) (s : string) : string :=
  match split_once c s with Some (l, _) => l | None => s end.

Definition parameter_label (n : TreeNodeRef) : string :=
  trim_start_matches "*" (trim (before_char "=" (before_char ":" (tree_label n)))).

Definition parameter_capture (n : TreeNodeRef) (language : string) : Capture :=
  if negb (String.eqb language "python") then
    set_capture (tree_capture n) "parameter" (parameter_label n)
  else located_capture n "" "arg" (parameter_label n) (ref_text n) ["arg"].

Definition first_child_with_type (nodes : NativeSyntaxArena) (n : TreeNodeRef) (types : list string)
    : option TreeNodeRef :=
  find_map (fun id => c ← get_node nodes id; if is_one_of (ref_type c) types then Some c else None)
    (child_ids n).

Definition parameter_annotation_label (nodes : NativeSyntaxArena) (n : TreeNodeRef)
    : option string :=
  match field_label n "annotation" with
  | Some l => Some l
  | None => nonempty (tree_label <$>
              List.find (fun c => is_one_of (ref_type c) ["type"; "type_identifier";
                                    "qualified_type"; "annotation"]) (present_children nodes n))
  end.

Definition parameter_annotation_capture (nodes : NativeSyntaxArena) (n : TreeNodeRef)
    (language : string) : option Capture :=
  if String.eqb language "python" then
    match first_child_with_type nodes n ["type"; "type_identifier"] with
    | Some t => Some (tree_capture t)
    | None => (fun l => located_capture n "" "type" l (ref_text n) ["id"]) <$>
                field_label n "annotation"
    end
  else (fun l => located_capture n "" "type_annotation" l (ref_text n) []) <$>
         parameter_annotation_label nodes n.

Definition return_type_capture (nodes : NativeSyntaxArena) (f : TreeNodeRef) (language : string)
    : option Capture :=
  if String.eqb language "python" then
    tree_capture <$> first_child_with_type nodes f ["type"; "type_identifier"]
  else
    (fun l => located_capture f "return_type" "return_type" l (ref_text f) []) <$>
      (match field_label f "return_type" with
       | Some l => Some l
       | None => field_label f "returns"
       end).

Definition fortran_literal_capture (nodes : NativeSyntaxArena) (n : TreeNodeRef) : option Capture :=
  if negb (String.eqb (ref_type n) "intrinsic_type") then None
  else
    parent ← (id ← parent_id n; get_node nodes id);
    if negb (String.eqb (ref_type parent) "variable_declaration") then None
    else Some (located_capture n "" "integer" (ref_text parent) (ref_text parent) []).

Definition parser_like_metadata_capture (n : TreeNodeRef) (field_name : string) : option Capture :=
  object ← (metadata ← field_value n field_name; as_object metadata);
  ty ← (v ← map_get "type" object; metadata_value_label v);
  if is_empty ty then None
  else
    let label := default ty (metadata_object_label object) in
    Some {| c_capture_name := ""; c_node_type := ty; c_label := label; c_text := label;
            c_line_start := None; c_line_end := None; c_byte_start := None; c_byte_end := None;
            c_fields := map_keys object |}.

(** ** The arena indexes the tree *)
Definition append_children (id : nat)
    : list SyntaxNode -> NativeSyntaxArena -> list nat * NativeSyntaxArena :=
  fix append_children cs arena :=
    match cs with
    | [] => ([], arena)
    | c :: cs =>
        let '(cid, arena) := append c (Some id) arena in
        let '(ids, arena) := append_children cs arena in
        (cid :: ids, arena)
    end.

Lemma append_eq n parent arena :
  append n parent arena =
  (let id := length arena in
   let '(ids, arena2) := append_children id (children n)
     (arena ++ [{| parent_id := parent; node := n; child_ids := [] |}]) in
   (id, <[id := {| parent_id := parent; node := n; child_ids := ids |}]> arena2)).
Proof. by destruct n. Qed.

Fixpoint tree_size (n : SyntaxNode) : nat :=
  match n with mkSyntaxNode _ _ _ _ _ _ _ _ cs _ => S (sum_list (List.map tree_size cs)) end.

Lemma tree_size_eq n : tree_size n = S (sum_list (List.map tree_size (children n))).
Proof. by destruct n. Qed.

(** [c] is the index of the child [n] of the node with index [i]. *)
Definition child_of (nodes : NativeSyntaxArena) (i c : nat) (n : SyntaxNode) : Prop :=
  i < c /\ exists r, get_node nodes c = Some r /\ node r = n /\ parent_id r = Some i.

Definition local_ok (nodes : NativeSyntaxArena) (i : nat) : Prop :=
  exists r, get_node nodes i = Some r /\
    Forall2 (child_of nodes i) (child_ids r) (children (node r)).

Definition arena_ok (nodes : NativeSyntaxArena) : Prop :=
  forall i, i < length nodes -> local_ok nodes i.

Lemma local_ok_agree nodes nodes' i :
  (forall j, i <= j -> j < length nodes -> nodes' !! j = nodes !! j) ->
  i < length nodes -> local_ok nodes i -> local_ok nodes' i.
Proof.
  intros Heq Hi (r & Hr & Hc). exists r. unfold get_node in *. split; [by rewrite Heq|].
  eapply Forall2_impl; [exact Hc|]. intros c n (Hic & rc & Hrc & ?). split; [done|].
  exists rc. split; [|done]. unfold get_node in *.
  rewrite Heq; [done|lia|by eapply lookup_lt_Some].
Qed.

Lemma child_of_app nodes z i c n : child_of nodes i c n -> child_of (nodes ++ z) i c n.
Proof.
  intros (Hi & r & Hr & ?). split; [done|]. exists r. split; [|done].
  unfold get_node in *. by apply lookup_app_l_Some.
Qed.

Definition append_ok (n : SyntaxNode) : Prop := forall p a, exists z r,
  append n p a = (length a, a ++ z) /\ length z = tree_size n /\
  (a ++ z) !! length a = Some r /\ node r = n /\ parent_id r = p /\
  forall i, length a <= i < length (a ++ z) -> local_ok (a ++ z) i.

Lemma append_children_ok id cs : Forall append_ok cs -> forall a, id < length a -> exists z ids,
  append_children id cs a = (ids, a ++ z) /\ length z = sum_list (List.map tree_size cs) /\
  Forall2 (child_of (a ++ z) id) ids cs /\
  forall i, length a <= i < length (a ++ z) -> local_ok (a ++ z) i.
Proof.
  induction 1 as [|c cs Hc _ IH]; intros a Hid; simpl.
  - exists [], []. rewrite app_nil_r. split; [done|]. split; [done|]. split; [constructor|lia].
  - destruct (Hc (Some id) a) as (z1 & r & -> & Hl1 & Hr & Hn & Hp & Hok1).
    destruct (IH (a ++ z1)) as (z2 & ids & -> & Hl2 & Hf & Hok2); [rewrite length_app; lia|].
    exists (z1 ++ z2), (length a :: ids). rewrite <- app_assoc in Hf, Hok2 |- *.
    split; [done|]. split; [rewrite length_app; lia|]. split.
    + constructor; [|done]. split; [done|]. exists r. split; [|done].
      unfold get_node. rewrite app_assoc. by apply lookup_app_l_Some.
    + intros i Hi. destruct (decide (i < length (a ++ z1))) as [Hlt|Hge].
      * apply (local_ok_agree (a ++ z1)); [|done|apply Hok1; lia].
        intros j _ Hj. rewrite app_assoc. by apply lookup_app_l.
      * apply Hok2. rewrite app_assoc in Hi |- *. lia.
Qed.

Lemma append_always_ok n : append_ok n.
Proof.
  induction n as [n IH] using SyntaxNode_nested_ind. intros p a. rewrite append_eq. cbv zeta.
  set (r0 := {| parent_id := p; node := n; child_ids := [] |}).
  destruct (append_children_ok (length a) (children n) IH (a ++ [r0])) as (z & ids & -> & Hl & Hf & Hok).
  { rewrite length_app. simpl. lia. }
  cbn beta iota. set (r := {| parent_id := p; node := n; child_ids := ids |}).
  assert (<[length a := r]> ((a ++ [r0]) ++ z) = a ++ r :: z) as E.
  { rewrite <- app_assoc. simpl. rewrite insert_app_r_alt by lia. by rewrite Nat.sub_diag. }
  assert (forall j, length a < j -> (a ++ r :: z) !! j = ((a ++ [r0]) ++ z) !! j) as Hagree.
  { intros j Hj. rewrite <- E. apply list_lookup_insert_ne. lia. }
  exists (r :: z), r. split; [f_equal; exact E|]. split; [rewrite tree_size_eq; simpl; by rewrite Hl|].
  split; [by apply list_lookup_middle|]. split; [done|]. split; [done|].
  intros i Hi. destruct (decide (i = length a)) as [->|Hne].
  - exists r. split; [by apply list_lookup_middle|]. eapply Forall2_impl; [exact Hf|].
    intros c m (Hc & rc & Hrc & ?). split; [done|]. exists rc. split; [|done].
    unfold get_node in *. by rewrite Hagree.
  - apply (local_ok_agree ((a ++ [r0]) ++ z)).
    + intros j Hj _. apply Hagree. lia.
    + rewrite !length_app in *. simpl in *. lia.
    + apply Hok. rewrite !length_app in *. simpl in *. lia.
Qed.

Lemma new_arena_ok root nodes id :
  new_arena root = (id, nodes) ->
  id = 0 /\ arena_ok nodes /\ length nodes = tree_size root /\
  exists r, get_node nodes 0 = Some r /\ node r = root /\ parent_id r = None.
Proof.
  unfold new_arena. destruct (append_always_ok root None []) as (z & r & -> & Hl & Hr & Hn & Hp & Hok).
  intros [= <- <-]. split; [done|]. split; [|split; [done|by exists r]].
  intros i Hi. apply Hok. simpl. lia.
Qed.

(** the arena is a faithful index of the syntax tree: it has one entry per node of
    the tree, the root first; the children of an entry are the entries of the node's
    children, in order, they point back to it, and they come later, so walking down always
    ends. *)
Theorem arena_indexes_tree root :
  let '(id, nodes) := new_arena root in
  id = 0 /\ length nodes = tree_size root /\
  (exists r, get_node nodes 0 = Some r /\ node r = root /\ parent_id r = None) /\
  forall i r, get_node nodes i = Some r ->
    Forall2 (child_of nodes i) (child_ids r) (children (node r)).
Proof.
  destruct (new_arena root) as [id nodes] eqn:E.
  destruct (new_arena_ok _ _ _ E) as (-> & Hok & Hl & Hr). do 3 (split; [done|]).
  intros i r Hi. destruct (Hok i) as (r' & Hr' & Hf); [by eapply lookup_lt_Some|].
  by assert (r' = r) as -> by congruence.
Qed.

(** ** Fuel *)
(** Everything below the entry [i] is within [length nodes - i] steps. *)
Lemma semantic_child_ids_enough nodes language : arena_ok nodes ->
  forall fuel i r, get_node nodes i = Some r -> length nodes <= fuel + i ->
  exists ids, semantic_child_ids fuel nodes r language = Some ids /\
    Forall (fun c => i < c /\ c < length nodes) ids.
Proof.
  intros Hok. induction fuel as [|fuel IH]; intros i r Hr Hfuel.
  - pose proof (lookup_lt_Some _ _ _ Hr). lia.
  - destruct (Hok i) as (r' & Hr' & Hf); [by eapply lookup_lt_Some|].
    assert (r' = r) as -> by congruence. clear Hr'. cbn [semantic_child_ids].
    assert (Forall (fun c => i < c /\ c < length nodes) (child_ids r)) as Hcs.
    { eapply Forall2_Forall_l; [exact Hf|]. apply Forall_forall.
      intros m _ c (Hc & rc & Hrc & _). split; [done|]. by eapply lookup_lt_Some. }
    clear Hf.
    induction Hcs as [|c cs [Hic Hc] Hcs IHf]; simpl; [by exists []|].
    destruct IHf as (rest & -> & Hrest).
    assert (exists rc, get_node nodes c = Some rc) as [rc Hrc] by (by apply lookup_lt_is_Some_2).
    rewrite Hrc.
    destruct (should_inline_child rc language).
    + destruct (IH c rc Hrc ltac:(lia)) as (ids & -> & Hids). exists (ids ++ rest).
      split; [done|]. apply Forall_app. split; [|done].
      eapply Forall_impl; [exact Hids|]. simpl. lia.
    + destruct (should_traverse_child r rc language).
      * exists (c :: rest). split; [done|]. by constructor.
      * by exists rest.
Qed.
