(* ===== verification/Builder.v ===== *)
(** * The graph builder: state, nodes and edges
      (src/syntax_materializer/builder/mod.rs, nodes.rs, edges.rs)

    The builder is threaded through every operation; an operation ends with a value and
    the new builder, or with an error that ends the build. *)
From S2P Require Import Prelude Order Text Json Rows Capture.
Import Ids.

Record NativeBuilder := {
  b_path : string;
  b_language : string;
  b_grammar_version : option string;
  b_source_root : string;
  b_repository_label : string;
  nodes : gmap string GraphNodeRow;
  edges : gmap string GraphEdgeRow;
  symbols_by_name : gmap string (list string);
  relation_allowlist : RelationAllowlist
}.

Definition set_nodes (b : NativeBuilder) (m : gmap string GraphNodeRow) : NativeBuilder := {|
  b_path := b_path b; b_language := b_language b; b_grammar_version := b_grammar_version b;
  b_source_root := b_source_root b; b_repository_label := b_repository_label b;
  nodes := m; edges := edges b; symbols_by_name := symbols_by_name b;
  relation_allowlist := relation_allowlist b
|}.
Definition set_edges (b : NativeBuilder) (m : gmap string GraphEdgeRow) : NativeBuilder := {|
  b_path := b_path b; b_language := b_language b; b_grammar_version := b_grammar_version b;
  b_source_root := b_source_root b; b_repository_label := b_repository_label b;
  nodes := nodes b; edges := m; symbols_by_name := symbols_by_name b;
  relation_allowlist := relation_allowlist b
|}.
Definition set_symbols (b : NativeBuilder) (m : gmap string (list string)) : NativeBuilder := {|
  b_path := b_path b; b_language := b_language b; b_grammar_version := b_grammar_version b;
  b_source_root := b_source_root b; b_repository_label := b_repository_label b;
  nodes := nodes b; edges := edges b; symbols_by_name := m;
  relation_allowlist := relation_allowlist b
|}.

(** ** The builder monad *)
(** [OutOfFuel] is of the model alone; [build_terminates] shows that it never occurs. *)
Inductive build_error := BuildError (message : string) | OutOfFuel.

Definition M (A : Type) : Type := NativeBuilder -> result build_error (A * NativeBuilder).

#[export] Instance M_ret : MRet M := fun A a b => Ok (a, b).
#[export] Instance M_bind : MBind M := fun A B k m b =>
  match m b with Ok (a, b') => k a b' | Err e => Err e end.

Definition gets {A} (f : NativeBuilder -> A) : M A := fun b => Ok (f b, b).
Definition fail {A} (message : string) : M A := fun _ => Err (BuildError message).
Definition out_of_fuel {A} : M A := fun _ => Err OutOfFuel.
Definition when (c : bool) (m : M ()) : M () := if c then m else mret ().

(** [for x in l { f(x)?; }] *)
Fixpoint for_each {A} (f : A -> M ()) (l : list A) : M () :=
  match l with [] => mret () | x :: l => _ ← f x; for_each f l end.

Definition new_builder `{RelationCodec} (meta : gmap string string)
    : result string NativeBuilder :=
  result_map (fun allowlist => {|
    b_path := default "" (meta !! "path");
    b_language := default "" (meta !! "language");
    b_grammar_version := match meta !! "grammar_version" with
                         | Some v => if is_empty (trim v) then None else Some v
                         | None => None end;
    b_source_root := default "" (meta !! "source_root");
    b_repository_label := default "repository" (meta !! "repository_label");
    nodes := ∅; edges := ∅; symbols_by_name := ∅;
    relation_allowlist := allowlist
  |}) (from_meta meta).

(** ** Nodes *)
Definition is_resolvable (table : string) : bool :=
  is_one_of table ["Symbol"; "Module"; "Class"; "Function"; "Method"; "Variable"; "Constant";
                   "Dependency"].

(** The metadata of a node or edge with this canonical key. *)
Definition keyed_metadata (stable_key : string) : Map :=
  map_insert "canonical_key" (VString stable_key) [].

Section Nodes.
Context `{Unicode}.

Definition register_key (id : string) (symbols : gmap string (list string)) (key : string)
    : gmap string (list string) :=
  let normalized := symbol_key key in
  if is_empty normalized then symbols
  else
    let ids := default [] (symbols !! normalized) in
    <[normalized := if is_one_of id ids then ids else ids ++ [id]]> symbols.

Definition register_resolvable (n : GraphNodeRow) (b : NativeBuilder) : NativeBuilder :=
  if negb (is_resolvable (n_table n)) then b
  else set_symbols b
    (fold_left (register_key (n_id n)) [n_label n; n_qualified_name n; imported_name n]
       (symbols_by_name b)).

(** A node that is already there is kept as it is. *)
Definition add_node (n : GraphNodeRow) : M GraphNodeRow := fun b =>
  let m := match nodes b !! n_id n with
           | Some _ => nodes b
           | None => <[n_id n := n]> (nodes b)
           end in
  let added := default n (m !! n_id n) in
  Ok (added, register_resolvable added (set_nodes b m)).

Definition support_node (table stable_key label path : string) : M GraphNodeRow :=
  add_node {|
    n_id := graph_id table stable_key; n_table := table; n_label := label;
    n_kind := to_lowercase table; n_language := ""; n_grammar_version := None; n_path := path;
    n_qualified_name := ""; n_scope_id := ""; n_line_start := None; n_line_end := None;
    n_byte_start := None; n_byte_end := None; n_tree_sitter_node_type := "";
    n_capture_name := ""; n_summary := label; n_metadata := VObject (keyed_metadata stable_key)
  |}.

Definition semantic_node (table : string) (c : Capture) (label owner_id owner_qualified_name : string)
    (metadata : option Map) : M GraphNodeRow :=
  path ← gets b_path;
  language ← gets b_language;
  let qualified := qualified_name owner_qualified_name label in
  let stable_key := join "|" [path; table; qualified; c_node_type c;
                              stable_optional_i64 (c_line_start c);
                              stable_optional_i64 (c_byte_start c); label] in
  add_node {|
    n_id := graph_id table stable_key; n_table := table; n_label := label;
    n_kind := kind_for table (c_node_type c); n_language := language;
    n_grammar_version := None; n_path := path; n_qualified_name := qualified;
    n_scope_id := owner_id; n_line_start := c_line_start c; n_line_end := c_line_end c;
    n_byte_start := c_byte_start c; n_byte_end := c_byte_end c;
    n_tree_sitter_node_type := c_node_type c; n_capture_name := c_capture_name c;
    n_summary := if is_one_of table ["DocumentationSource"; "DocumentationChunk"]
                    && negb (is_empty (trim (c_text c)))
                 then trim (c_text c) else label;
    n_metadata := VObject (map_extend (keyed_metadata stable_key) (default [] metadata))
  |}.

Definition symbol_node (label : string) : M GraphNodeRow :=
  path ← gets b_path;
  language ← gets b_language;
  let stable_key := path +:+ "|Symbol|" +:+ trim label in
  add_node {|
    n_id := graph_id "Symbol" stable_key; n_table := "Symbol"; n_label := trim label;
    n_kind := "symbol_reference"; n_language := language; n_grammar_version := None;
    n_path := path; n_qualified_name := trim label; n_scope_id := ""; n_line_start := None;
    n_line_end := None; n_byte_start := None; n_byte_end := None;
    n_tree_sitter_node_type := ""; n_capture_name := ""; n_summary := trim label;
    n_metadata := VObject (map_insert "resolution" (VString "name_placeholder")
                             (keyed_metadata stable_key))
  |}.

Definition scope_for (owner : GraphNodeRow) : M GraphNodeRow :=
  path ← gets b_path;
  let stable_key := path +:+ "|" +:+ n_id owner +:+ "|scope" in
  add_node {|
    n_id := graph_id "Scope" stable_key; n_table := "Scope";
    n_label := n_label owner +:+ " scope"; n_kind := to_lowercase (n_table owner) +:+ "_scope";
    n_language := n_language owner; n_grammar_version := None; n_path := n_path owner;
    n_qualified_name := (if is_empty (n_qualified_name owner) then n_label owner
                         else n_qualified_name owner) +:+ ".<scope>";
    n_scope_id := n_id owner; n_line_start := n_line_start owner; n_line_end := n_line_end owner;
    n_byte_start := n_byte_start owner; n_byte_end := n_byte_end owner;
    n_tree_sitter_node_type := ""; n_capture_name := "";
    n_summary := "Scope for " +:+ n_label owner;
    n_metadata := VObject (keyed_metadata stable_key)
  |}.

Definition syntax_capture (c : Capture) : M string :=
  path ← gets b_path;
  language ← gets b_language;
  grammar_version ← gets b_grammar_version;
  let stable_key := join "|" [path; c_node_type c; stable_optional_i64 (c_line_start c);
                              stable_optional_i64 (c_byte_start c); c_label c] in
  let syntax_id := graph_id "SyntaxCapture" stable_key in
  present ← gets (fun b => bool_decide (is_Some (nodes b !! syntax_id)));
  if (present : bool) then mret syntax_id
  else
    _ ← add_node {|
      n_id := syntax_id; n_table := "SyntaxCapture";
      n_label := if is_empty (c_capture_name c) then c_node_type c else c_capture_name c;
      n_kind := c_node_type c; n_language := language; n_grammar_version := grammar_version;
      n_path := path; n_qualified_name := ""; n_scope_id := "";
      n_line_start := c_line_start c; n_line_end := c_line_end c;
      n_byte_start := c_byte_start c; n_byte_end := c_byte_end c;
      n_tree_sitter_node_type := c_node_type c; n_capture_name := c_capture_name c;
      n_summary := take_chars 160 (c_text c);
      n_metadata := VObject (map_insert "fields" (VArray (VString <$> c_fields c))
                               (keyed_metadata stable_key))
    |};
    mret syntax_id.

(** ** Edges *)
Definition edge_key (edge_type source_id target_id kind : string) : string :=
  edge_type +:+ "|" +:+ source_id +:+ "|" +:+ target_id +:+ "|" +:+ kind.

Definition new_edge (edge_type source_id target_id kind : string) (metadata : Map)
    : GraphEdgeRow :=
  let canonical_key := edge_key edge_type source_id target_id kind in
  {| e_id := graph_id "edge" canonical_key; e_edge_type := edge_type; e_source_id := source_id;
     e_target_id := target_id; e_kind := kind; e_confidence := f64_one; e_field_name := None;
     e_child_index := None; e_line_start := None; e_line_end := None; e_byte_start := None;
     e_byte_end := None;
     e_metadata := VObject (map_extend (keyed_metadata canonical_key) metadata) |}.

Definition refusal (edge_type source_table target_table : string) : string :=
  "relation " +:+ edge_type +:+ " does not allow " +:+ source_table +:+ " -> " +:+ target_table.

Definition edge (edge_type source_id target_id kind : string) (metadata : Map)
    : M GraphEdgeRow := fun b =>
  let insert :=
    let e := new_edge edge_type source_id target_id kind metadata in
    let m := match edges b !! e_id e with
             | Some _ => edges b
             | None => <[e_id e := e]> (edges b)
             end in
    Ok (default e (m !! e_id e), set_edges b m) in
  match nodes b !! source_id, nodes b !! target_id with
  | Some s, Some t =>
      if negb (allows (relation_allowlist b) edge_type (n_table s) (n_table t))
      then Err (BuildError (refusal edge_type (n_table s) (n_table t)))
      else insert
  | _, _ => insert
  end.

Definition edge_ (edge_type source_id target_id kind : string) : M () :=
  _ ← edge edge_type source_id target_id kind []; mret ().

Definition edge_if_allowed_with (edge_type source_id target_id kind : string) (metadata : Map)
    : M () := fun b =>
  match nodes b !! source_id, nodes b !! target_id with
  | Some s, Some t =>
      if allows (relation_allowlist b) edge_type (n_table s) (n_table t)
      then (_ ← edge edge_type source_id target_id kind metadata; mret ()) b
      else Ok ((), b)
  | _, _ => Ok ((), b)
  end.
Definition edge_if_allowed (edge_type source_id target_id kind : string) : M () :=
  edge_if_allowed_with edge_type source_id target_id kind [].

Definition connect_owner (o : Owner) (n : GraphNodeRow) : M () :=
  _ ← edge_ "Contains" (o_node_id o) (n_id n) ("contains_" +:+ to_lowercase (n_table n));
  when (negb (is_empty (o_scope_id o)))
    (edge_ "Contains" (o_scope_id o) (n_id n) ("scope_contains_" +:+ to_lowercase (n_table n))).

Definition derived_from (semantic_id syntax_id : string) : M () :=
  present ← gets (fun b => bool_decide (is_Some (nodes b !! syntax_id)));
  when present (edge_ "DerivedFrom" semantic_id syntax_id "parser_capture").

Definition place_child (e : GraphEdgeRow) (field : option string) (index : nat) : GraphEdgeRow := {|
  e_id := e_id e; e_edge_type := e_edge_type e; e_source_id := e_source_id e;
  e_target_id := e_target_id e; e_kind := e_kind e; e_confidence := e_confidence e;
  e_field_name := field; e_child_index := Some (Z.of_nat index);
  e_line_start := e_line_start e; e_line_end := e_line_end e; e_byte_start := e_byte_start e;
  e_byte_end := e_byte_end e; e_metadata := e_metadata e
|}.

Definition place_edge (id : string) (field : option string) (index : nat) : M () := fun b =>
  Ok ((), set_edges b (alter (fun stored => place_child stored field index) id (edges b))).

Definition syntax_child (source_id child_id : string) (field : option string) (index : nat) : M () :=
  e ← edge "SyntaxChild" source_id child_id "syntax_child" [];
  place_edge (e_id e) field index.
End Nodes.

(** ** The rows *)
Definition node_order (n : GraphNodeRow) : string * string := (n_table n, n_id n).
Definition edge_order (e : GraphEdgeRow) : string * string := (e_edge_type e, e_id e).

(** The hash maps give their values in no particular order. *)
Definition into_rows (b : NativeBuilder) : BuiltGraphRows := {|
  rows_nodes := sort_by_key node_order (snd <$> map_to_list (nodes b));
  rows_edges := sort_by_key edge_order (snd <$> map_to_list (edges b))
|}.
