(* ===== verification/Emit.v ===== *)
(** * Emission of semantic nodes (src/syntax_materializer/builder/semantic.rs)

    What the builder adds to the graph for an import, an assignment, a call, a parameter
    and so on: the node, its containment and definition edges, and its evidence. *)
From S2P Require Import Prelude Order Text Json Rows Capture Builder.
Import Ids.

Section Emit.
Context `{Unicode}.

(** [for id in ids.iter().rev() { if let Some(node) = nodes.get(id) { return Some(node) } }] *)
Definition latest_node (ns : gmap string GraphNodeRow) (ids : list string) : option GraphNodeRow :=
  find_map (fun id => ns !! id) (rev ids).

Definition lookup_symbol (b : NativeBuilder) (candidate : string) : option GraphNodeRow :=
  ids ← symbols_by_name b !! symbol_key candidate; latest_node (nodes b) ids.

Definition resolve_reference_target (label : string) : M (option GraphNodeRow) :=
  let reference_label := trim label in
  if is_empty reference_label then mret None
  else
    let short := last_piece "." reference_label in
    found ← gets (fun b => find_map (lookup_symbol b) [reference_label; short]);
    match found with
    | Some n => mret (Some n)
    | None => n ← symbol_node reference_label; mret (Some n)
    end.

Definition reference_metadata (label : string) : Map :=
  map_insert "resolver" (VString "label") (map_insert "label" (VString label) []).

Definition emit_reference_edges (source : GraphNodeRow) (label kind_prefix : string)
    : M (option GraphNodeRow) :=
  found ← resolve_reference_target label;
  match found with
  | None => mret None
  | Some target =>
      if String.eqb (n_id target) (n_id source) then mret None
      else
        _ ← edge_if_allowed_with "References" (n_id source) (n_id target)
              (kind_prefix +:+ "_reference") (reference_metadata label);
        _ ← edge_if_allowed_with "ResolvesTo" (n_id source) (n_id target)
              (kind_prefix +:+ "_resolution") (reference_metadata label);
        mret (Some target)
  end.

Definition emit_type_annotation_capture (c : Capture) (owner_id owner_qualified_name : string)
    : M GraphNodeRow :=
  syntax_id ← syntax_capture c;
  type_node ← semantic_node "TypeAnnotation" c (c_label c) owner_id owner_qualified_name None;
  _ ← emit_reference_edges type_node (n_label type_node) "type_annotation";
  _ ← derived_from (n_id type_node) syntax_id;
  mret type_node.

Definition annotation_capture (label : string) (source : Capture) : Capture := {|
  c_capture_name := "type.annotation"; c_node_type := "type"; c_label := label; c_text := label;
  c_line_start := c_line_start source; c_line_end := c_line_end source;
  c_byte_start := c_byte_start source; c_byte_end := c_byte_end source; c_fields := []
|}.

(** [emit_type_annotation_label] ends as [emit_type_annotation_capture] does. *)
Definition emit_type_annotation_label (label : string) (source : Capture)
    (owner_id owner_qualified_name : string) : M GraphNodeRow :=
  emit_type_annotation_capture (annotation_capture label source) owner_id owner_qualified_name.

Definition import_source (o : Owner) : string :=
  if is_one_of (o_table o) ["Repository"; "SourceRoot"; "File"; "Module"; "Class"; "Function";
                            "Method"; "Component"]
  then o_node_id o else o_scope_id o.

Definition emit_import (c : Capture) (o : Owner) (syntax_id : string) : M GraphNodeRow :=
  let imported := c_label c in
  semantic ← semantic_node "ImportDeclaration" c imported (o_node_id o) ""
               (Some (map_insert "imported_name" (VString imported) []));
  _ ← connect_owner o semantic;
  _ ← edge_if_allowed "Imports" (import_source o) (n_id semantic) "declares_import";
  _ ← derived_from (n_id semantic) syntax_id;
  _ ← (if is_empty imported then mret ()
       else
         path ← gets b_path;
         dependency ← support_node "Dependency" imported imported path;
         _ ← edge_ "DependsOn" (n_id semantic) (n_id dependency) "import_dependency";
         edge_ "EvidencedBy" (n_id dependency) syntax_id "parser_evidence");
  mret semantic.

Definition is_python : M bool := gets (fun b => String.eqb (b_language b) "python").

Definition emit_tree_import (n : TreeNodeRef) (o : Owner) (syntax_id : string) : M GraphNodeRow :=
  python ← is_python;
  let c := tree_capture n in
  let c := if (python : bool) then clear_capture_name c else c in
  let c := match import_label n with Some l => with_label c l | None => c end in
  emit_import c o syntax_id.

Definition emit_declaration (table : string) (c : Capture) (o : Owner) (syntax_id : string)
    : M GraphNodeRow :=
  semantic ← semantic_node table c (c_label c) (o_node_id o) (o_qualified_name o) None;
  _ ← connect_owner o semantic;
  _ ← edge_ "Defines" (o_node_id o) (n_id semantic) ("defines_" +:+ to_lowercase table);
  _ ← when (is_one_of (o_table o) ["Module"; "Scope"; "Class"; "Function"; "Method"])
        (edge_ "Declares" (o_node_id o) (n_id semantic) ("declares_" +:+ to_lowercase table));
  _ ← derived_from (n_id semantic) syntax_id;
  mret semantic.

Definition emit_call (c : Capture) (o : Owner) (syntax_id : string) : M GraphNodeRow :=
  call ← semantic_node "CallExpression" c (c_label c) (o_node_id o) (o_qualified_name o) None;
  _ ← connect_owner o call;
  _ ← when (is_one_of (o_table o) ["Function"; "Method"; "APIEndpoint"; "Route"; "Component"])
        (edge_if_allowed "Calls" (o_node_id o) (n_id call) "body_call");
  target ← emit_reference_edges call (n_label call) "call";
  _ ← (match target with
       | Some t => edge_if_allowed "Calls" (n_id call) (n_id t) "call_target"
       | None => mret ()
       end);
  _ ← derived_from (n_id call) syntax_id;
  mret call.

Definition emit_reference (c : Capture) (o : Owner) (syntax_id : string) : M GraphNodeRow :=
  reference ← semantic_node "Reference" c (c_label c) (o_node_id o) (o_qualified_name o) None;
  _ ← connect_owner o reference;
  _ ← emit_reference_edges reference (n_label reference) "reference";
  _ ← derived_from (n_id reference) syntax_id;
  mret reference.

Definition emit_simple_semantic (table : string) (c : Capture) (o : Owner) (syntax_id : string)
    : M GraphNodeRow :=
  semantic ← semantic_node table c (c_label c) (o_node_id o) (o_qualified_name o) None;
  _ ← connect_owner o semantic;
  _ ← when (String.eqb table "Parameter")
        (edge_if_allowed "HasParameter" (o_node_id o) (n_id semantic) "captured_parameter");
  _ ← when (String.eqb table "ReturnType")
        (_ ← edge_if_allowed "HasReturnType" (o_node_id o) (n_id semantic) "captured_return_type";
         type_node ← emit_type_annotation_label (n_label semantic) c (n_id semantic)
                       (n_qualified_name semantic);
         edge_if_allowed "HasTypeAnnotation" (n_id semantic) (n_id type_node)
           "return_type_annotation");
  _ ← when (String.eqb table "TypeAnnotation")
        (_ ← edge_if_allowed "HasTypeAnnotation" (o_node_id o) (n_id semantic)
               "captured_type_annotation";
         _ ← emit_reference_edges semantic (n_label semantic) "type_annotation";
         mret ());
  _ ← when (is_one_of table ["DocumentationSource"; "DocumentationChunk"])
        (_ ← edge_if_allowed "Documents" (n_id semantic) (o_node_id o) "documents_owner";
         edge_if_allowed "EvidencedBy" (n_id semantic) syntax_id "parser_evidence");
  _ ← derived_from (n_id semantic) syntax_id;
  mret semantic.

Definition emit_assignment_target (arena : NativeSyntaxArena) (n : TreeNodeRef) (c : Capture)
    (assignment : GraphNodeRow) (o : Owner) (syntax_id : string) : M () :=
  match assignment_target_label arena n with
  | None => mret ()
  | Some target_label =>
      let target_table := assignment_target_table target_label o (c_node_type c) in
      target ← semantic_node target_table c target_label (o_node_id o) (o_qualified_name o) None;
      _ ← connect_owner o target;
      _ ← edge_if_allowed "Defines" (o_node_id o) (n_id target)
            ("defines_" +:+ to_lowercase target_table);
      _ ← edge_if_allowed "Assigns" (n_id assignment) (n_id target) "assignment_target";
      _ ← derived_from (n_id target) syntax_id;
      match field_label n "annotation" with
      | None => mret ()
      | Some annotation =>
          type_node ← emit_type_annotation_label annotation c (n_id target)
                        (n_qualified_name target);
          edge_if_allowed "HasTypeAnnotation" (n_id target) (n_id type_node)
            "assignment_annotation"
      end
  end.

Definition emit_tree_assignment (arena : NativeSyntaxArena) (n : TreeNodeRef) (o : Owner)
    (syntax_id : string) : M GraphNodeRow :=
  python ← is_python;
  let c := tree_capture n in
  let label := if (python : bool) then "Assignment" else c_label c in
  assignment ← semantic_node "Assignment" c label (o_node_id o) (o_qualified_name o) None;
  _ ← connect_owner o assignment;
  _ ← derived_from (n_id assignment) syntax_id;
  _ ← emit_assignment_target arena n c assignment o syntax_id;
  match call_value_child arena n with
  | None => mret assignment
  | Some value_id =>
      match get_node arena value_id with
      | None => mret assignment
      | Some value_node =>
          let call_capture := tree_capture value_node in
          call_syntax_id ← syntax_capture call_capture;
          call ← emit_call call_capture o call_syntax_id;
          _ ← edge_if_allowed "Assigns" (n_id assignment) (n_id call) "assignment_value";
          mret assignment
      end
  end.

Definition emit_tree_parameter (arena : NativeSyntaxArena) (callable : GraphNodeRow)
    (indexed : nat * nat) : M () :=
  let '(index, parameter_id) := indexed in
  match get_node arena parameter_id with
  | None => mret ()
  | Some parameter_node =>
      language ← gets b_language;
      let c := parameter_capture parameter_node language in
      let c := if is_empty (c_label c)
               then with_label c ("param_" +:+ show_Z (Z.of_nat index)) else c in
      syntax_id ← syntax_capture c;
      parameter ← semantic_node "Parameter" c (c_label c) (n_id callable)
                    (n_qualified_name callable) None;
      _ ← edge_if_allowed "HasParameter" (n_id callable) (n_id parameter) "callable_parameter";
      _ ← derived_from (n_id parameter) syntax_id;
      match parameter_annotation_capture arena parameter_node language with
      | None => mret ()
      | Some annotation =>
          type_node ← emit_type_annotation_capture annotation (n_id parameter)
                        (n_qualified_name parameter);
          edge_if_allowed "HasTypeAnnotation" (n_id parameter) (n_id type_node)
            "parameter_annotation"
      end
  end.

Definition emit_tree_parameters (arena : NativeSyntaxArena) (f : TreeNodeRef)
    (callable : GraphNodeRow) : M () :=
  for_each (emit_tree_parameter arena callable) (imap pair (parameter_child_ids arena f)).

Definition emit_tree_return_type (arena : NativeSyntaxArena) (f : TreeNodeRef)
    (callable : GraphNodeRow) : M () :=
  language ← gets b_language;
  match return_type_capture arena f language with
  | None => mret ()
  | Some c =>
      syntax_id ← syntax_capture c;
      return_node ← semantic_node "ReturnType" c (c_label c) (n_id callable)
                      (n_qualified_name callable) None;
      _ ← edge_if_allowed "HasReturnType" (n_id callable) (n_id return_node)
            "callable_return_type";
      type_node ← emit_type_annotation_capture c (n_id return_node) (n_qualified_name return_node);
      _ ← edge_if_allowed "HasTypeAnnotation" (n_id return_node) (n_id type_node)
            "return_type_annotation";
      derived_from (n_id return_node) syntax_id
  end.

Definition emit_parser_like_metadata_field (n : TreeNodeRef) (o : Owner) (field : string) : M () :=
  match parser_like_metadata_capture n field with
  | None => mret ()
  | Some c =>
      syntax_id ← syntax_capture c;
      match table_for_node_type (c_node_type c) o with
      | None => mret ()
      | Some table => _ ← emit_simple_semantic table c o syntax_id; mret ()
      end
  end.

Definition emit_parser_like_metadata_fields (n : TreeNodeRef) (o : Owner) : M () :=
  python ← is_python;
  if (python : bool) then mret ()
  else for_each (emit_parser_like_metadata_field n o) ["_field_types"; "_field_descendant_types"].
End Emit.
