(* ===== verification/BuilderLaws.v ===== *)
(** * What every builder operation keeps

    The invariant of the builder (identifiers, endpoints, allowed relations, the symbol
    table), the order in which builders grow, and a small program logic: [runs m b Q] says
    that [m], started in [b], either ends in a larger builder with the invariant and [Q],
    or stops because the ontology refuses a relation.  Every emission keeps the invariant. *)
From S2P Require Import Prelude Order Text Json Rows Capture Builder Emit.
Import Ids.

(** ** Invariant *)
Definition node_ok (k : string) (n : GraphNodeRow) : Prop :=
  n_id n = k /\ exists key, k = graph_id (n_table n) key /\
    value_get "canonical_key" (n_metadata n) = Some (VString key).

Definition edge_key_of (e : GraphEdgeRow) : string :=
  edge_key (e_edge_type e) (e_source_id e) (e_target_id e) (e_kind e).

Definition edge_ok (b : NativeBuilder) (k : string) (e : GraphEdgeRow) : Prop :=
  e_id e = k /\ k = graph_id "edge" (edge_key_of e) /\
  value_get "canonical_key" (e_metadata e) = Some (VString (edge_key_of e)) /\
  exists s t, nodes b !! e_source_id e = Some s /\ nodes b !! e_target_id e = Some t /\
    allows (relation_allowlist b) (e_edge_type e) (n_table s) (n_table t) = true.

Record Inv (b : NativeBuilder) : Prop := {
  inv_nodes k n : nodes b !! k = Some n -> node_ok k n;
  inv_edges k e : edges b !! k = Some e -> edge_ok b k e;
  inv_symbols key ids : symbols_by_name b !! key = Some ids ->
    NoDup ids /\ forall id, id ∈ ids ->
      exists n, nodes b !! id = Some n /\ is_resolvable (n_table n) = true
}.

(** Nodes and edges are never removed, nodes never changed, the settings never. *)
Record Extends (b b' : NativeBuilder) : Prop := {
  ext_path : b_path b' = b_path b;
  ext_language : b_language b' = b_language b;
  ext_allowlist : relation_allowlist b' = relation_allowlist b;
  ext_nodes : nodes b ⊆ nodes b';
  ext_edges k : is_Some (edges b !! k) -> is_Some (edges b' !! k)
}.

#[export] Instance Extends_preorder : PreOrder Extends.
Proof.
  split.
  - intros b. by split.
  - intros b1 b2 b3 [] []. split; try congruence; [by etrans|auto].
Qed.

Definition has (b : NativeBuilder) (id table : string) : Prop :=
  exists n, nodes b !! id = Some n /\ n_table n = table.

(** The row is stored, in this table. *)
Definition row (b : NativeBuilder) (n : GraphNodeRow) (table : string) : Prop :=
  nodes b !! n_id n = Some n /\ n_table n = table.

Definition owner_ok (b : NativeBuilder) (o : Owner) : Prop :=
  has b (o_node_id o) (o_table o) /\ (o_scope_id o = "" \/ has b (o_scope_id o) "Scope").

Lemma has_mono b b' id t : Extends b b' -> has b id t -> has b' id t.
Proof. intros HE (n & Hn & ?). exists n. split; [|done]. by eapply lookup_weaken, ext_nodes. Qed.

Lemma row_mono b b' n t : Extends b b' -> row b n t -> row b' n t.
Proof. intros HE [Hn ?]. split; [|done]. by eapply lookup_weaken, ext_nodes. Qed.

Lemma row_has b n t : row b n t -> has b (n_id n) t.
Proof. intros [? ?]. by exists n. Qed.

Lemma owner_ok_mono b b' o : Extends b b' -> owner_ok b o -> owner_ok b' o.
Proof. intros HE [H1 [H2|H2]]; split; [|by left| |right]; eauto using has_mono. Qed.

Lemma edge_ok_ext b b' k e :
  nodes b ⊆ nodes b' -> relation_allowlist b' = relation_allowlist b ->
  edge_ok b k e -> edge_ok b' k e.
Proof.
  intros Hn Ha (? & ? & ? & s & t & Hs & Ht & ?). do 3 (split; [done|]). exists s, t. rewrite Ha.
  split; [by eapply lookup_weaken|]. split; [by eapply lookup_weaken|done].
Qed.

#[export] Hint Resolve has_mono row_mono row_has owner_ok_mono : builder.

(** ** Runs *)
(** The only error of a builder operation is a relation that the ontology refuses. *)
Definition refused (l : RelationAllowlist) (e : build_error) : Prop :=
  enabled l = true /\
  exists ty s t, e = BuildError (refusal ty s t) /\ allows l ty s t = false.

Definition runs {A} (m : M A) (b : NativeBuilder) (Q : A -> NativeBuilder -> Prop) : Prop :=
  match m b with
  | Ok (a, b') => Extends b b' /\ Inv b' /\ Q a b'
  | Err e => refused (relation_allowlist b) e
  end.

Definition any {A} (_ : A) (_ : NativeBuilder) : Prop := True.

Lemma runs_ret {A} (a : A) b (Q : A -> NativeBuilder -> Prop) :
  Inv b -> Q a b -> runs (mret a) b Q.
Proof. intros HI HQ. split; [done|]. by split. Qed.

Lemma runs_bind {A B} (m : M A) (k : A -> M B) b (R : A -> NativeBuilder -> Prop) Q :
  runs m b R ->
  (forall a b', Extends b b' -> Inv b' -> R a b' -> runs (k a) b' Q) ->
  runs (m ≫= k) b Q.
Proof.
  unfold runs, mbind, M_bind. intros Hm Hk. destruct (m b) as [[a b']|e]; [|done].
  destruct Hm as (HE & HI & HR). specialize (Hk a b' HE HI HR).
  destruct (k a b') as [[a2 b2]|e].
  - destruct Hk as (HE2 & HI2 & HQ). split; [by etrans|done].
  - by rewrite (ext_allowlist _ _ HE) in Hk.
Qed.

Lemma runs_gets {A B} (f : NativeBuilder -> A) (k : A -> M B) b Q :
  runs (k (f b)) b Q -> runs (gets f ≫= k) b Q.
Proof. done. Qed.

Lemma runs_weaken {A} (m : M A) b (R Q : A -> NativeBuilder -> Prop) :
  runs m b R -> (forall a b', Extends b b' -> R a b' -> Q a b') -> runs m b Q.
Proof.
  unfold runs. destruct (m b) as [[a b']|e]; [|done]. intros (? & ? & ?) HQ. auto.
Qed.

Lemma runs_any {A} (m : M A) b (R : A -> NativeBuilder -> Prop) : runs m b R -> runs m b any.
Proof. intros Hm. by eapply runs_weaken. Qed.

Lemma runs_when c (m : M ()) b : Inv b -> (c = true -> runs m b any) -> runs (when c m) b any.
Proof. intros HI Hm. destruct c; [by apply Hm|by apply runs_ret]. Qed.

Lemma runs_for_each {A} (f : A -> M ()) l b :
  Inv b -> (forall x b', x ∈ l -> Extends b b' -> Inv b' -> runs (f x) b' any) ->
  runs (for_each f l) b any.
Proof.
  revert b. induction l as [|x l IH]; intros b HI Hf; simpl; [by apply runs_ret|].
  eapply runs_bind; [apply Hf; [apply list_elem_of_here|done|done]|].
  intros [] b' HE HI' _. apply IH; [done|]. intros y b2 Hy HE2. apply Hf.
  - by apply list_elem_of_further.
  - by etrans.
Qed.

(** ** Metadata *)
Lemma map_get_extend k m extra :
  map_get k extra = None -> map_get k (map_extend m extra) = map_get k m.
Proof.
  unfold map_extend. revert m. induction extra as [|[k' v] extra IH]; intros m Hk; simpl in *; [done|].
  destruct (String.eqb_spec k k') as [|Hne]; [done|]. rewrite IH by done.
  by apply map_get_insert_ne.
Qed.

Lemma canonical_extend key extra :
  map_get "canonical_key" extra = None ->
  value_get "canonical_key" (VObject (map_extend (keyed_metadata key) extra)) = Some (VString key).
Proof. intros Hk. unfold value_get. simpl. rewrite map_get_extend by done. reflexivity. Qed.

(** ** Nodes *)
Section Laws.
Context `{Unicode}.

Lemma register_key_ok id syms key key' ids' :
  (forall key ids, syms !! key = Some ids -> NoDup ids) ->
  register_key id syms key !! key' = Some ids' ->
  NoDup ids' /\ forall i, i ∈ ids' -> i = id \/ exists ids, syms !! key' = Some ids /\ i ∈ ids.
Proof.
  intros Hnd. unfold register_key. destruct (is_empty (symbol_key key)).
  { intros Hk. split; [by eapply Hnd|]. intros i Hi. right. by exists ids'. }
  destruct (decide (symbol_key key = key')) as [<-|Hne].
  2: { rewrite lookup_insert_ne by done. intros Hk. split; [by eapply Hnd|].
       intros i Hi. right. by exists ids'. }
  rewrite lookup_insert_eq. intros [= <-].
  assert (NoDup (default [] (syms !! symbol_key key))) as Hold.
  { destruct (syms !! symbol_key key) as [ids|] eqn:E; [by eapply Hnd|constructor]. }
  assert (forall i, i ∈ default [] (syms !! symbol_key key) ->
            exists ids, syms !! symbol_key key = Some ids /\ i ∈ ids) as Hin.
  { intros i Hi. destruct (syms !! symbol_key key) as [ids|]; [by exists ids|].
    by apply elem_of_nil in Hi. }
  destruct (is_one_of id _) eqn:E.
  - split; [done|]. intros i Hi. right. by apply Hin.
  - split.
    + apply NoDup_app. split; [done|]. split; [|apply NoDup_singleton].
      intros i Hi ->%list_elem_of_singleton. apply is_one_of_true in Hi. congruence.
    + intros i [Hi| ->%list_elem_of_singleton]%elem_of_app; [right; by apply Hin|by left].
Qed.

Lemma fold_register_ok id keys syms key' ids' :
  (forall key ids, syms !! key = Some ids -> NoDup ids) ->
  fold_left (register_key id) keys syms !! key' = Some ids' ->
  NoDup ids' /\ forall i, i ∈ ids' -> i = id \/ exists ids, syms !! key' = Some ids /\ i ∈ ids.
Proof.
  revert syms. induction keys as [|key keys IH]; intros syms Hnd Hk; simpl in Hk.
  - split; [by eapply Hnd|]. intros i Hi. right. by exists ids'.
  - destruct (IH (register_key id syms key)) as [H1 H2]; [|done|].
    + intros k0 i0 Hk0. by eapply (register_key_ok id syms key).
    + split; [done|]. intros i Hi. destruct (H2 i Hi) as [->|(ids & Hids & Hin)]; [by left|].
      eapply (register_key_ok id syms key key' ids); done.
Qed.

Lemma register_resolvable_same n b :
  nodes (register_resolvable n b) = nodes b /\ edges (register_resolvable n b) = edges b /\
  b_path (register_resolvable n b) = b_path b /\
  b_language (register_resolvable n b) = b_language b /\
  relation_allowlist (register_resolvable n b) = relation_allowlist b.
Proof. unfold register_resolvable. by destruct (negb (is_resolvable (n_table n))). Qed.

Lemma register_resolvable_symbols n b :
  (forall key ids, symbols_by_name b !! key = Some ids -> NoDup ids /\
     forall id, id ∈ ids -> exists m, nodes b !! id = Some m /\ is_resolvable (n_table m) = true) ->
  nodes b !! n_id n = Some n ->
  forall key ids, symbols_by_name (register_resolvable n b) !! key = Some ids -> NoDup ids /\
    forall id, id ∈ ids -> exists m, nodes b !! id = Some m /\ is_resolvable (n_table m) = true.
Proof.
  intros Hs Hn key ids. unfold register_resolvable.
  destruct (is_resolvable (n_table n)) eqn:Hr; simpl; [|by apply Hs]. intros Hk.
  apply (fold_register_ok (n_id n) [n_label n; n_qualified_name n; imported_name n]) in Hk
    as [Hnd Hk]; [|intros k0 i0 Hk0; by eapply Hs].
  split; [done|]. intros id Hid. destruct (Hk id Hid) as [->|(ids0 & Hids0 & Hin)]; [by exists n|].
  by eapply Hs.
Qed.

Lemma Extends_nodes b m :
  nodes b ⊆ m -> Extends b (set_nodes b m).
Proof. intros Hm. by split. Qed.

Lemma runs_add_node n b :
  Inv b -> node_ok (n_id n) n ->
  runs (add_node n) b (fun n' b' => row b' n' (n_table n) /\ n_id n' = n_id n).
Proof.
  intros HI Hn. unfold runs, add_node.
  set (m := match nodes b !! n_id n with Some _ => nodes b | None => <[n_id n := n]> (nodes b) end).
  assert (nodes b ⊆ m) as Hsub.
  { unfold m. destruct (nodes b !! n_id n) eqn:E; [done|by apply insert_subseteq]. }
  assert (forall k x, m !! k = Some x -> node_ok k x) as Hm.
  { intros k x. unfold m. destruct (nodes b !! n_id n) eqn:E; [apply (inv_nodes b HI)|].
    intros [[<- <-]|[_ ?]]%lookup_insert_Some; [done|by apply (inv_nodes b HI)]. }
  assert (is_Some (m !! n_id n)) as [added Hadded].
  { unfold m. destruct (nodes b !! n_id n) eqn:E; [by rewrite E|]. rewrite lookup_insert_eq. done. }
  rewrite Hadded. simpl. destruct (Hm _ _ Hadded) as [Hid (key & Hkey & _)].
  destruct (register_resolvable_same added (set_nodes b m)) as (Rn & Re & Rp & Rl & Ra).
  assert (nodes (set_nodes b m) !! n_id added = Some added) as Hst by (simpl; by rewrite Hid).
  split; [|split].
  - split; rewrite ?Rn, ?Re, ?Rp, ?Rl, ?Ra; done.
  - split; rewrite ?Rn, ?Re; simpl.
    + exact Hm.
    + intros k e He. eapply edge_ok_ext; [| |by apply (inv_edges b HI)]; [by rewrite Rn|by rewrite Ra].
    + eapply (register_resolvable_symbols added (set_nodes b m)); [|done].
      intros k ids Hk. destruct (inv_symbols b HI k ids Hk) as [? Hids]. split; [done|].
      intros id Hin. destruct (Hids id Hin) as (x & Hx & ?). exists x. simpl.
      split; [by eapply lookup_weaken|done].
  - split; [split; [by rewrite Rn|]|done].
    destruct Hn as [_ (key' & Hkey' & _)]. rewrite Hkey' in Hkey. by apply graph_id_prefix in Hkey.
Qed.

Lemma runs_support_node table key label path b :
  Inv b -> runs (support_node table key label path) b (fun n b' => row b' n table).
Proof.
  intros HI. eapply runs_weaken; [apply runs_add_node; [done|]|by intros ? ? _ [? _]].
  split; [done|]. exists key. done.
Qed.

Lemma runs_semantic_node table c label owner_id owner_qn metadata b :
  Inv b -> map_get "canonical_key" (default [] metadata) = None ->
  runs (semantic_node table c label owner_id owner_qn metadata) b (fun n b' => row b' n table).
Proof.
  intros HI Hmd. unfold semantic_node. do 2 apply runs_gets.
  eapply runs_weaken; [apply runs_add_node; [done|]|by intros ? ? _ [? _]].
  split; [done|]. eexists. split; [done|]. by apply canonical_extend.
Qed.

Lemma runs_symbol_node label b :
  Inv b -> runs (symbol_node label) b (fun n b' => row b' n "Symbol").
Proof.
  intros HI. unfold symbol_node. do 2 apply runs_gets.
  eapply runs_weaken; [apply runs_add_node; [done|]|by intros ? ? _ [? _]].
  split; [done|]. eexists. split; done.
Qed.

Lemma runs_scope_for n b :
  Inv b -> runs (scope_for n) b (fun n b' => row b' n "Scope").
Proof.
  intros HI. unfold scope_for. apply runs_gets.
  eapply runs_weaken; [apply runs_add_node; [done|]|by intros ? ? _ [? _]].
  split; [done|]. eexists. split; done.
Qed.

(** The identifier of the node that stands for a capture. *)
Definition capture_id (path : string) (c : Capture) : string :=
  graph_id "SyntaxCapture"
    (join "|" [path; c_node_type c; stable_optional_i64 (c_line_start c);
               stable_optional_i64 (c_byte_start c); c_label c]).

Lemma runs_syntax_capture c b :
  Inv b -> runs (syntax_capture c) b (fun id b' =>
    id = capture_id (b_path b) c /\ has b' id "SyntaxCapture").
Proof.
  intros HI. unfold syntax_capture. do 4 apply runs_gets. fold (capture_id (b_path b) c).
  case_bool_decide as Hp.
  - apply runs_ret; [done|]. split; [done|]. destruct Hp as [n Hn]. exists n. split; [done|].
    destruct (inv_nodes b HI _ _ Hn) as [_ (key & Hkey & _)]. by apply graph_id_prefix in Hkey.
  - eapply runs_bind; [apply runs_add_node; [done|]|].
    + split; [done|]. eexists. split; done.
    + intros n b' _ HI' [[Hrow Ht] Hid]. apply runs_ret; [done|]. split; [done|].
      simpl in Hid. rewrite Hid in Hrow. by exists n.
Qed.

(** ** Edges *)
Lemma Extends_edges b m :
  (forall k, is_Some (edges b !! k) -> is_Some (m !! k)) -> Extends b (set_edges b m).
Proof. intros Hm. by split. Qed.

Lemma Inv_set_edges b m :
  Inv b -> (forall k e, m !! k = Some e -> edge_ok b k e) -> Inv (set_edges b m).
Proof.
  intros HI Hm. split; simpl; [apply (inv_nodes b HI)|exact Hm|apply (inv_symbols b HI)].
Qed.

Lemma new_edge_ok b ty src tgt kind md s t :
  nodes b !! src = Some s -> nodes b !! tgt = Some t ->
  allows (relation_allowlist b) ty (n_table s) (n_table t) = true ->
  map_get "canonical_key" md = None ->
  edge_ok b (e_id (new_edge ty src tgt kind md)) (new_edge ty src tgt kind md).
Proof.
  intros Hs Ht Ha Hmd. split; [done|]. split; [done|]. split; [by apply canonical_extend|].
  by exists s, t.
Qed.

(** An edge that is allowed by default is refused only by an ontology. *)
Lemma runs_edge ty src tgt kind md b st tt :
  Inv b -> has b src st -> has b tgt tt -> map_get "canonical_key" md = None ->
  default_relation_allowed ty st tt = true ->
  runs (edge ty src tgt kind md) b (fun e b' =>
    e_id e = graph_id "edge" (edge_key ty src tgt kind) /\ edges b' !! e_id e = Some e).
Proof.
  intros HI (s & Hs & <-) (t & Ht & <-) Hmd Hdef. unfold runs, edge. rewrite Hs, Ht.
  destruct (allows (relation_allowlist b) ty (n_table s) (n_table t)) eqn:Ha; simpl.
  2: { split.
       - unfold allows in Ha. destruct (enabled (relation_allowlist b)); [done|].
         simpl in Ha. congruence.
       - by exists ty, (n_table s), (n_table t). }
  pose proof (new_edge_ok b ty src tgt kind md s t Hs Ht Ha Hmd) as Hok.
  set (e := new_edge ty src tgt kind md) in *.
  change (graph_id "edge" (edge_key ty src tgt kind)) with (e_id e).
  destruct (edges b !! e_id e) as [e0|] eqn:He.
  - rewrite He. simpl. destruct (inv_edges b HI _ _ He) as [Hid _].
    split; [by apply Extends_edges|]. split; [by apply Inv_set_edges; [|apply (inv_edges b HI)]|].
    split; [done|]. by rewrite Hid.
  - rewrite lookup_insert_eq. simpl. split; [|split].
    + apply Extends_edges. intros k Hk. apply lookup_insert_is_Some'. by right.
    + apply Inv_set_edges; [done|]. intros k e'.
      intros [[<- <-]|[_ ?]]%lookup_insert_Some; [done|by apply (inv_edges b HI)].
    + split; [done|]. apply lookup_insert_eq.
Qed.

Lemma runs_edge_ ty src tgt kind b st tt :
  Inv b -> has b src st -> has b tgt tt -> default_relation_allowed ty st tt = true ->
  runs (edge_ ty src tgt kind) b any.
Proof.
  intros HI Hs Ht Hd. unfold edge_. eapply runs_bind; [by eapply runs_edge|].
  intros e b' _ HI' _. by apply runs_ret.
Qed.

Lemma runs_edge_if_allowed_with ty src tgt kind md b :
  Inv b -> map_get "canonical_key" md = None ->
  runs (edge_if_allowed_with ty src tgt kind md) b any.
Proof.
  intros HI Hmd. unfold runs, edge_if_allowed_with.
  destruct (nodes b !! src) as [s|] eqn:Hs; [|by split].
  destruct (nodes b !! tgt) as [t|] eqn:Ht; [|by split].
  destruct (allows (relation_allowlist b) ty (n_table s) (n_table t)) eqn:Ha; [|by split].
  pose proof (new_edge_ok b ty src tgt kind md s t Hs Ht Ha Hmd) as Hok.
  unfold mbind, M_bind, edge. rewrite Hs, Ht, Ha. simpl. split; [|split; [|done]].
  - apply Extends_edges. intros k Hk.
    destruct (edges b !! graph_id "edge" (edge_key ty src tgt kind)); [done|].
    apply lookup_insert_is_Some'. by right.
  - apply Inv_set_edges; [done|]. intros k e'.
    destruct (edges b !! graph_id "edge" (edge_key ty src tgt kind)); [by apply (inv_edges b HI)|].
    intros [[<- <-]|[_ ?]]%lookup_insert_Some; [done|by apply (inv_edges b HI)].
Qed.

Lemma runs_edge_if_allowed ty src tgt kind b :
  Inv b -> runs (edge_if_allowed ty src tgt kind) b any.
Proof. intros HI. by apply runs_edge_if_allowed_with. Qed.

Lemma runs_place_edge id field index b : Inv b -> runs (place_edge id field index) b any.
Proof.
  intros HI. split; [|split; [|done]].
  - apply Extends_edges. intros k. by rewrite lookup_alter_is_Some.
  - apply Inv_set_edges; [done|]. intros k e. rewrite lookup_alter_Some.
    intros [(<- & e0 & He & ->)|[_ He]]; apply (inv_edges b HI) in He; [|done].
    destruct He as (? & ? & ? & ?). by repeat split.
Qed.

Lemma runs_syntax_child src child field index b st tt :
  Inv b -> has b src st -> has b child tt ->
  runs (syntax_child src child field index) b (fun _ b' =>
    is_Some (edges b' !! graph_id "edge" (edge_key "SyntaxChild" src child "syntax_child"))).
Proof.
  intros HI Hs Ht. unfold syntax_child.
  eapply runs_bind; [eapply runs_edge; [done|exact Hs|exact Ht|done|done]|].
  intros e b' _ HI' [Hid He]. eapply runs_weaken; [by apply runs_place_edge|].
  intros [] b2 HE2 _. apply (ext_edges _ _ HE2). rewrite <- Hid. by exists e.
Qed.

Lemma runs_connect_owner o n b table :
  Inv b -> owner_ok b o -> row b n table -> runs (connect_owner o n) b any.
Proof.
  intros HI [Ho Hs] Hn. unfold connect_owner.
  eapply runs_bind; [eapply runs_edge_; [done|exact Ho|by eapply row_has|done]|].
  intros [] b' HE HI' _. apply runs_when; [done|]. intros Hne.
  destruct Hs as [Hs|Hs]; [by rewrite Hs in Hne|].
  eapply runs_edge_; [done|eapply has_mono; done|eapply has_mono; [done|by eapply row_has]|done].
Qed.

Lemma runs_derived_from id sid b table :
  Inv b -> has b id table -> runs (derived_from id sid) b any.
Proof.
  intros HI Hid. unfold derived_from. apply runs_gets. apply runs_when; [done|].
  intros [n Hn]%bool_decide_eq_true. eapply runs_edge_; [done|exact Hid|by exists n|done].
Qed.
End Laws.

(** Runs the next operation of a sequence with its law, and keeps what is known alive. *)
Ltac builder_mono :=
  repeat match goal with
  | HE : Extends ?b ?b', H : has ?b ?i ?t |- _ =>
      lazymatch goal with _ : has b' i t |- _ => fail | _ => idtac end;
      pose proof (has_mono b b' i t HE H)
  | HE : Extends ?b ?b', H : row ?b ?n ?t |- _ =>
      lazymatch goal with _ : row b' n t |- _ => fail | _ => idtac end;
      pose proof (row_mono b b' n t HE H)
  | HE : Extends ?b ?b', H : owner_ok ?b ?o |- _ =>
      lazymatch goal with _ : owner_ok b' o |- _ => fail | _ => idtac end;
      pose proof (owner_ok_mono b b' o HE H)
  | H : row ?b ?n ?t |- _ =>
      lazymatch goal with _ : has b (n_id n) t |- _ => fail | _ => idtac end;
      pose proof (row_has b n t H)
  end.

Create HintDb runs discriminated.
#[export] Hint Constants Opaque : runs.
#[export] Hint Resolve runs_support_node runs_semantic_node runs_symbol_node runs_scope_for
  runs_syntax_capture runs_edge_ runs_edge_if_allowed runs_edge_if_allowed_with
  runs_connect_owner runs_derived_from : runs.
#[export] Hint Extern 1 (map_get _ _ = None) => reflexivity : runs.
#[export] Hint Extern 1 (default_relation_allowed _ _ _ = true) => reflexivity : runs.

(** One bind: its operation by a law of the [runs] database, then the continuation with the
    facts carried over to the new builder. *)
Ltac runs_step :=
  lazymatch goal with
  | |- runs (gets _ ≫= _) _ _ => apply runs_gets
  | |- runs (_ ≫= _) _ _ =>
      eapply runs_bind;
        [ solve [eauto 4 with runs nocore]
        | let a := fresh "a" in let b' := fresh "b" in let HE := fresh "HE" in
          let HI := fresh "HI" in let HR := fresh "HR" in
          intros a b' HE HI HR; cbv beta in HR;
          try (lazymatch type of HR with _ /\ _ =>
                 let HF := fresh "HF" in destruct HR as [HF HR] end); builder_mono ]
  end.

Import Ids.

Section EmitLaws.
Context `{Unicode}.

(** Ends a sequence: a returned value with its facts, or a last operation. *)
Ltac runs_end :=
  lazymatch goal with
  | |- runs (mret _) _ _ =>
      apply runs_ret; [assumption|]; solve [done | assumption | eauto with builder]
  | |- runs _ _ _ =>
      first [ solve [eauto 4 with runs nocore]
            | eapply runs_any; solve [eauto 4 with runs nocore] ]
  end.
Ltac runs_all := repeat runs_step; try runs_end.

Lemma find_map_lookup_symbol b l n :
  Inv b -> find_map (lookup_symbol b) l = Some n -> nodes b !! n_id n = Some n.
Proof.
  intros HI Hf. apply find_map_Some in Hf as (candidate & _ & Hl).
  unfold lookup_symbol in Hl. destruct (symbols_by_name b !! _) as [ids|]; [|done]. simpl in Hl.
  apply find_map_Some in Hl as (id & _ & Hid).
  destruct (inv_nodes b HI _ _ Hid) as [<- _]. done.
Qed.

Lemma runs_resolve label b :
  Inv b -> runs (resolve_reference_target label) b (fun found b' =>
    match found with Some n => nodes b' !! n_id n = Some n | None => True end).
Proof.
  intros HI. unfold resolve_reference_target. destruct (is_empty (trim label)); [by runs_end|].
  apply runs_gets. destruct (find_map _ _) as [n|] eqn:E.
  - apply runs_ret; [done|]. by eapply find_map_lookup_symbol.
  - runs_step. apply runs_ret; [done|]. by destruct HR.
Qed.
Hint Resolve runs_resolve : runs.

Lemma runs_emit_reference_edges source label prefix b :
  Inv b -> runs (emit_reference_edges source label prefix) b any.
Proof.
  intros HI. unfold emit_reference_edges. runs_step. destruct a as [target|]; [|by runs_end].
  destruct (String.eqb _ _); [by runs_end|]. runs_all.
Qed.
Hint Resolve runs_emit_reference_edges : runs.

Lemma runs_emit_type_annotation_capture c owner_id qn b :
  Inv b -> runs (emit_type_annotation_capture c owner_id qn) b (fun n b' => row b' n "TypeAnnotation").
Proof. intros HI. unfold emit_type_annotation_capture. runs_all. Qed.
Hint Resolve runs_emit_type_annotation_capture : runs.

Lemma runs_emit_type_annotation_label l c owner_id qn b :
  Inv b -> runs (emit_type_annotation_label l c owner_id qn) b (fun n b' => row b' n "TypeAnnotation").
Proof. intros HI. unfold emit_type_annotation_label. runs_all. Qed.
Hint Resolve runs_emit_type_annotation_label : runs.

Lemma runs_emit_import c o sid b :
  Inv b -> owner_ok b o -> has b sid "SyntaxCapture" ->
  runs (emit_import c o sid) b (fun n b' => row b' n "ImportDeclaration").
Proof.
  intros HI Ho Hs. unfold emit_import. do 4 runs_step.
  eapply runs_bind; [instantiate (1 := any)|].
  - destruct (is_empty (c_label c)); [by runs_end|]. runs_all.
  - intros [] b4 HE4 HI4 _. builder_mono. runs_end.
Qed.

Lemma runs_emit_tree_import n o sid b :
  Inv b -> owner_ok b o -> has b sid "SyntaxCapture" ->
  runs (emit_tree_import n o sid) b (fun n b' => row b' n "ImportDeclaration").
Proof. intros. unfold emit_tree_import. apply runs_gets. by apply runs_emit_import. Qed.

Lemma runs_emit_declaration table c o sid b :
  Inv b -> owner_ok b o -> has b sid "SyntaxCapture" ->
  runs (emit_declaration table c o sid) b (fun n b' => row b' n table).
Proof.
  intros HI Ho Hs. unfold emit_declaration. pose proof Ho as [Hown _]. do 2 runs_step.
  eapply runs_bind; [eapply runs_edge_; [done|eassumption|eassumption|done]|].
  intros [] b3 HE3 HI3 _. builder_mono.
  eapply runs_bind; [apply runs_when; [done|intros _; eapply runs_edge_; [done|eassumption|eassumption|done]]|].
  intros [] b4 HE4 HI4 _. builder_mono. runs_all.
Qed.

Lemma runs_emit_call c o sid b :
  Inv b -> owner_ok b o -> runs (emit_call c o sid) b (fun n b' => row b' n "CallExpression").
Proof.
  intros HI Ho. unfold emit_call. do 2 runs_step.
  eapply runs_bind; [apply runs_when; [done|intros _; by runs_end]|].
  intros [] b3 HE3 HI3 _. builder_mono. runs_step.
  eapply runs_bind; [instantiate (1 := any); destruct a1; by runs_end|].
  intros [] b5 HE5 HI5 _. builder_mono. runs_all.
Qed.

Lemma runs_emit_reference c o sid b :
  Inv b -> owner_ok b o -> runs (emit_reference c o sid) b (fun n b' => row b' n "Reference").
Proof. intros HI Ho. unfold emit_reference. runs_all. Qed.

Lemma runs_when_bind {B} c (m : M ()) (k : () -> M B) b Q :
  Inv b -> (c = true -> runs m b any) ->
  (forall b', Extends b b' -> Inv b' -> runs (k ()) b' Q) -> runs (when c m ≫= k) b Q.
Proof.
  intros HI Hm Hk. eapply runs_bind; [by apply runs_when|]. intros [] b' HE HI' _. by apply Hk.
Qed.

Lemma runs_emit_simple_semantic table c o sid b :
  Inv b -> owner_ok b o -> runs (emit_simple_semantic table c o sid) b (fun n b' => row b' n table).
Proof.
  intros HI Ho. unfold emit_simple_semantic. do 2 runs_step.
  repeat (apply runs_when_bind; [done|intros _; by runs_all|]; intros ? ? ?; builder_mono).
  runs_all.
Qed.
Hint Resolve runs_emit_simple_semantic runs_emit_call : runs.

Lemma runs_emit_assignment_target arena n c assignment o sid b :
  Inv b -> owner_ok b o -> runs (emit_assignment_target arena n c assignment o sid) b any.
Proof.
  intros HI Ho. unfold emit_assignment_target.
  destruct (assignment_target_label arena n) as [l|]; [|by runs_end].
  do 5 runs_step. destruct (field_label n "annotation"); [|by runs_end]. runs_all.
Qed.
Hint Resolve runs_emit_assignment_target : runs.

Lemma runs_emit_tree_assignment arena n o sid b :
  Inv b -> owner_ok b o -> runs (emit_tree_assignment arena n o sid) b (fun n b' => row b' n "Assignment").
Proof.
  intros HI Ho. unfold emit_tree_assignment. apply runs_gets.
  do 4 runs_step. destruct (call_value_child arena n) as [id|]; [|by runs_end].
  destruct (get_node arena id); [|by runs_end]. runs_all.
Qed.

Lemma runs_emit_tree_parameter arena callable indexed b :
  Inv b -> runs (emit_tree_parameter arena callable indexed) b any.
Proof.
  intros HI. unfold emit_tree_parameter. destruct indexed as [index id].
  destruct (get_node arena id) as [p|]; [|by runs_end]. apply runs_gets. do 4 runs_step.
  destruct (parameter_annotation_capture _ _ _); [|by runs_end]. runs_all.
Qed.

Lemma runs_emit_tree_parameters arena f callable b :
  Inv b -> runs (emit_tree_parameters arena f callable) b any.
Proof.
  intros HI. unfold emit_tree_parameters. apply runs_for_each; [done|].
  intros x b' _ _ HI'. by apply runs_emit_tree_parameter.
Qed.

Lemma runs_emit_tree_return_type arena f callable b :
  Inv b -> runs (emit_tree_return_type arena f callable) b any.
Proof.
  intros HI. unfold emit_tree_return_type. apply runs_gets.
  destruct (return_type_capture _ _ _); [|by runs_end]. runs_all.
Qed.
Hint Resolve runs_emit_tree_parameters runs_emit_tree_return_type : runs.

Lemma runs_emit_parser_like_metadata_fields n o b :
  Inv b -> owner_ok b o -> runs (emit_parser_like_metadata_fields n o) b any.
Proof.
  intros HI Ho. unfold emit_parser_like_metadata_fields. apply runs_gets.
  destruct (String.eqb _ _); [by runs_end|]. apply runs_for_each; [done|].
  intros f b' _ HE HI'. builder_mono. unfold emit_parser_like_metadata_field.
  destruct (parser_like_metadata_capture n f) as [c|]; [|by runs_end]. runs_step.
  destruct (table_for_node_type _ _); [|by runs_end]. runs_all.
Qed.
End EmitLaws.

#[export] Hint Resolve runs_resolve runs_emit_reference_edges runs_emit_type_annotation_capture
  runs_emit_type_annotation_label runs_emit_tree_import runs_emit_declaration runs_emit_call
  runs_emit_reference runs_emit_simple_semantic runs_emit_tree_assignment
  runs_emit_tree_parameters runs_emit_tree_return_type
  runs_emit_parser_like_metadata_fields : runs.
