(* ===== verification/Traverse.v ===== *)
(** * From a syntax tree to graph rows
      (src/syntax_materializer/builder/traversal.rs, src/syntax_materializer/mod.rs)

    The recursion follows arena indices, so it takes fuel; the length of the arena plus
    one is enough, because children have larger indices ([build_terminates]).

    The traversals keep the invariant and end, and what they build is a well-formed
    graph that contains the whole syntax tree. *)
From S2P Require Import Prelude Order Text Json Normalize Rows Capture Builder Emit BuilderLaws.
Import Ids.

Section Traverse.
Context `{Unicode}.

(** The children of one node, with their positions. *)
Fixpoint materialize_syntax_children (fuel : nat) (arena : NativeSyntaxArena)
    (parent : TreeNodeRef) (parent_syntax_id : string) : M () :=
  match fuel with
  | O => out_of_fuel
  | S fuel =>
      for_each (fun indexed : nat * nat =>
        match get_node arena indexed.2 with
        | None => fail ("tree graph node " +:+ show_Z (Z.of_nat indexed.2) +:+ " is missing")
        | Some child =>
            child_syntax_id ← syntax_capture (tree_capture child);
            _ ← syntax_child parent_syntax_id child_syntax_id (field_name (node child)) indexed.1;
            materialize_syntax_children fuel arena child child_syntax_id
        end) (imap pair (child_ids parent))
  end.

Definition materialize_syntax_tree (fuel : nat) (arena : NativeSyntaxArena) (root_id : nat)
    (file_id : string) : M () :=
  match get_node arena root_id with
  | None => fail "tree graph root node is missing"
  | Some root =>
      root_syntax_id ← syntax_capture (tree_capture root);
      _ ← edge_ "EvidencedBy" file_id root_syntax_id "syntax_root";
      materialize_syntax_children fuel arena root root_syntax_id
  end.

(** What is emitted for a node of each table. *)
Definition emit_table (arena : NativeSyntaxArena) (n : TreeNodeRef) (c : Capture) (o : Owner)
    (syntax_id table : string) : M GraphNodeRow :=
  if String.eqb table "ImportDeclaration" then emit_tree_import n o syntax_id
  else if is_one_of table ["Class"; "Function"; "Method"] then emit_declaration table c o syntax_id
  else if String.eqb table "Assignment" then emit_tree_assignment arena n o syntax_id
  else if String.eqb table "CallExpression" then emit_call c o syntax_id
  else if String.eqb table "Reference" then emit_reference c o syntax_id
  else if String.eqb table "Literal" then
    language ← gets b_language;
    let literal := if String.eqb language "fortran"
                   then default c (fortran_literal_capture arena n) else c in
    emit_simple_semantic "Literal" literal o syntax_id
  else emit_simple_semantic table c o syntax_id.

Definition emit_scope (arena : NativeSyntaxArena) (n : TreeNodeRef) (table : string)
    (from_capture : bool) (semantic : GraphNodeRow) : M Owner :=
  python ← is_python;
  scope ← scope_for semantic;
  _ ← edge_ "Contains" (n_id semantic) (n_id scope) (to_lowercase table +:+ "_contains_scope");
  _ ← edge_ "HasScope" (n_id semantic) (n_id scope) (to_lowercase table +:+ "_scope");
  _ ← when (is_one_of table ["Function"; "Method"] && (python || negb from_capture))
        (_ ← emit_tree_parameters arena n semantic; emit_tree_return_type arena n semantic);
  mret {| o_node_id := n_id semantic; o_table := table;
          o_qualified_name := n_qualified_name semantic; o_scope_id := n_id scope |}.

Definition emit_tree_node (arena : NativeSyntaxArena) (n : TreeNodeRef) (o : Owner)
    : M (option Owner) :=
  python ← is_python;
  let c := tree_capture n in
  let c := if (python : bool) then clear_capture_name c else c in
  syntax_id ← syntax_capture c;
  let capture_table := table_for_capture (c_capture_name c) o in
  let from_capture := bool_decide (is_Some capture_table) in
  let table := match capture_table with
               | Some t => Some t | None => table_for_node_type (c_node_type c) o end in
  match table with
  | None => mret None
  | Some table =>
      semantic ← emit_table arena n c o syntax_id table;
      if is_one_of table ["Class"; "Function"; "Method"; "Component"] then
        next ← emit_scope arena n table from_capture semantic; mret (Some next)
      else mret None
  end.

Fixpoint traverse_tree_node (fuel : nat) (arena : NativeSyntaxArena) (node_id : nat) (o : Owner)
    : M () :=
  match fuel with
  | O => out_of_fuel
  | S fuel =>
      match get_node arena node_id with
      | None => fail ("tree graph node " +:+ show_Z (Z.of_nat node_id) +:+ " is missing")
      | Some n =>
          next_owner ← emit_tree_node arena n o;
          let child_owner := default o next_owner in
          language ← gets b_language;
          match semantic_child_ids (S fuel) arena n language with
          | None => out_of_fuel
          | Some ids =>
              _ ← for_each (fun id => traverse_tree_node fuel arena id child_owner) ids;
              emit_parser_like_metadata_fields n child_owner
          end
      end
  end.

Definition is_module_type (ty : string) : bool :=
  is_one_of ty ["Module"; "module"; "program"; "source_file"].

(** The module node of a file whose root is a module, and its scope. *)
Definition build_module (root : TreeNodeRef) (file : GraphNodeRow) : M Owner :=
  path ← gets b_path;
  language ← gets b_language;
  let root_capture := tree_capture root in
  syntax_id ← syntax_capture root_capture;
  module ← semantic_node "Module" root_capture (module_label path) (n_id file) "" None;
  module_scope ← scope_for module;
  _ ← edge_ "Contains" (n_id file) (n_id module) "file_module";
  _ ← edge_ "Contains" (n_id module) (n_id module_scope) "module_contains_scope";
  _ ← edge_ "HasScope" (n_id module) (n_id module_scope) "module_scope";
  _ ← when (should_derive_root_module language (ref_type root))
        (derived_from (n_id module) syntax_id);
  mret {| o_node_id := n_id module; o_table := "Module";
          o_qualified_name := n_qualified_name module; o_scope_id := n_id module_scope |}.

Definition build_file_scope (file : GraphNodeRow) : M Owner :=
  file_scope ← scope_for file;
  _ ← edge_ "HasScope" (n_id file) (n_id file_scope) "file_scope";
  mret {| o_node_id := n_id file; o_table := "File";
          o_qualified_name := n_qualified_name file; o_scope_id := n_id file_scope |}.

Definition build_tree (fuel : nat) (arena : NativeSyntaxArena) (root_id : nat) : M () :=
  match get_node arena root_id with
  | None => fail "tree graph root node is missing"
  | Some root =>
      repository_label ← gets b_repository_label;
      source_root ← gets b_source_root;
      path ← gets b_path;
      repository ← support_node "Repository" repository_label repository_label "";
      source ← support_node "SourceRoot" source_root source_root source_root;
      file ← support_node "File" path (last_piece "/" path) path;
      _ ← edge_ "Contains" (n_id repository) (n_id source) "repository_source_root";
      _ ← edge_ "Contains" (n_id source) (n_id file) "source_root_file";
      _ ← materialize_syntax_tree fuel arena root_id (n_id file);
      if is_module_type (ref_type root) then
        o ← build_module root file;
        for_each (fun id => traverse_tree_node fuel arena id o) (child_ids root)
      else
        o ← build_file_scope file;
        traverse_tree_node fuel arena root_id o
  end.

Definition tree_fuel (arena : NativeSyntaxArena) : nat := S (length arena).

Definition build_syntax_tree_graph_rows `{RelationCodec} (meta : gmap string string)
    (root : SyntaxNode) : result build_error BuiltGraphRows :=
  (let? b := map_err BuildError (new_builder meta) in
   let '(root_id, arena) := new_arena root in
   let? built := build_tree (tree_fuel arena) arena root_id b in
   Ok (into_rows built.2))%rust.
End Traverse.

Import Ids.

(** ** Reachability in the arena *)
Inductive descends (arena : NativeSyntaxArena) : nat -> nat -> Prop :=
| descends_here i : descends arena i i
| descends_step i r c j :
    get_node arena i = Some r -> c ∈ child_ids r -> descends arena c j -> descends arena i j.

(** The identifier of the edge from the syntax node of [p] to that of its child [c]. *)
Definition child_edge_id (path : string) (p c : TreeNodeRef) : string :=
  graph_id "edge" (edge_key "SyntaxChild" (capture_id path (tree_capture p))
                     (capture_id path (tree_capture c)) "syntax_child").

(** The syntax node of [c] and the edge to it are there. *)
Definition linked (path : string) (p c : TreeNodeRef) (b : NativeBuilder) : Prop :=
  is_Some (edges b !! child_edge_id path p c) /\
  has b (capture_id path (tree_capture c)) "SyntaxCapture".

(** All parent-child pairs from [i] down are linked. *)
Definition linked_below (arena : NativeSyntaxArena) (path : string) (i : nat) (b : NativeBuilder)
    : Prop :=
  forall j rj c rc, descends arena i j -> get_node arena j = Some rj -> c ∈ child_ids rj ->
    get_node arena c = Some rc -> linked path rj rc b.

Lemma linked_mono path p c b b' : Extends b b' -> linked path p c b -> linked path p c b'.
Proof. intros HE [He Hc]. split; [by apply (ext_edges _ _ HE)|by eapply has_mono]. Qed.

Lemma linked_below_mono arena path i b b' :
  Extends b b' -> linked_below arena path i b -> linked_below arena path i b'.
Proof. intros HE Hl j rj c rc Hd Hj Hc Hrc. eapply linked_mono; [done|by eapply Hl]. Qed.

Lemma child_facts arena i r c :
  arena_ok arena -> get_node arena i = Some r -> c ∈ child_ids r ->
  i < c /\ exists rc, get_node arena c = Some rc.
Proof.
  intros Hok Hr Hc. destruct (Hok i) as (r' & Hr' & Hf); [by eapply lookup_lt_Some|].
  assert (r' = r) as -> by congruence.
  apply list_elem_of_lookup in Hc as [k Hk].
  destruct (Forall2_lookup_l _ _ _ _ _ Hf Hk) as (n & _ & Hlt & rc & Hrc & _). split; [done|by exists rc].
Qed.

(** [for] loops that establish something for every element. *)
Lemma runs_for_each_all {A} (f : A -> M ()) (P : A -> NativeBuilder -> Prop) l b :
  Inv b -> (forall x b1 b2, Extends b1 b2 -> P x b1 -> P x b2) ->
  (forall x b', x ∈ l -> Extends b b' -> Inv b' -> runs (f x) b' (fun _ b2 => P x b2)) ->
  runs (for_each f l) b (fun _ b' => forall x, x ∈ l -> P x b').
Proof.
  intros HI HP. revert b HI. induction l as [|x l IH]; intros b HI Hf; simpl.
  - apply runs_ret; [done|]. by intros x ?%elem_of_nil.
  - eapply runs_bind; [apply Hf; [apply list_elem_of_here|done|done]|].
    intros [] b' HE HI' HPx. eapply runs_weaken.
    + apply IH; [done|]. intros y b2 Hy HE2. apply Hf; [by apply list_elem_of_further|by etrans].
    + intros [] b2 HE2 Hall y [->|Hy]%elem_of_cons; [by eapply HP|by apply Hall].
Qed.

Lemma elem_of_imap_pair (l : list nat) k c : (k, c) ∈ imap pair l -> c ∈ l.
Proof.
  intros (i & Hi)%list_elem_of_lookup. rewrite list_lookup_imap in Hi.
  apply fmap_Some in Hi as (x & Hx & [= _ ->]). by eapply list_elem_of_lookup_2.
Qed.

Lemma elem_of_imap_pair_inv (l : list nat) c : c ∈ l -> exists k, (k, c) ∈ imap pair l.
Proof.
  intros (i & Hi)%list_elem_of_lookup. exists i. apply list_elem_of_lookup. exists i.
  by rewrite list_lookup_imap, Hi.
Qed.

Section TraverseLaws.
Context `{Unicode}.

Lemma ext_capture_id b b' c : Extends b b' -> capture_id (b_path b') c = capture_id (b_path b) c.
Proof. intros HE. by rewrite (ext_path _ _ HE). Qed.

Lemma runs_materialize_syntax_children arena : arena_ok arena ->
  forall fuel i r sid b, get_node arena i = Some r -> length arena <= fuel + i -> Inv b ->
  sid = capture_id (b_path b) (tree_capture r) -> has b sid "SyntaxCapture" ->
  runs (materialize_syntax_children fuel arena r sid) b
    (fun _ b' => linked_below arena (b_path b) i b').
Proof.
  intros Hok. induction fuel as [|fuel IH]; intros i r sid b Hr Hfuel HI Hsid Hs.
  { pose proof (lookup_lt_Some _ _ _ Hr). lia. }
  cbn [materialize_syntax_children].
  eapply runs_weaken.
  - apply (runs_for_each_all _ (fun x b' => linked_below arena (b_path b) x.2 b' /\
      forall rc, get_node arena x.2 = Some rc -> linked (b_path b) r rc b')); [done| |].
    + intros x b1 b2 HE [? ?]. split; [by eapply linked_below_mono|]. eauto using linked_mono.
    + intros [k c] b1 Hin HE HI1. simpl. apply elem_of_imap_pair in Hin.
      destruct (child_facts _ _ _ _ Hok Hr Hin) as [Hlt [rc Hrc]]. rewrite Hrc.
      builder_mono. runs_step. rewrite (ext_capture_id b b1) in HF by done.
      eapply runs_bind; [eapply runs_syntax_child; [done|eassumption|eassumption]|].
      intros [] b3 HE3 HI3 Hedge. builder_mono. eapply runs_weaken.
      * apply (IH c rc); [done|lia|done| |done].
        rewrite HF. symmetry. by apply ext_capture_id; etrans; [|exact HE3]; etrans.
      * intros [] b4 HE4 Hl. replace (b_path b3) with (b_path b) in Hl.
        2: { symmetry. apply (ext_path b b3). etrans; [|exact HE3]. by etrans. }
        split; [done|]. intros rc' [= <-]. eapply linked_mono; [exact HE4|].
        unfold linked, child_edge_id. by rewrite <- Hsid, <- HF.
  - intros [] b' HE Hall j rj c rc Hd Hj Hc Hrc. inversion Hd as [|? r1 c1 ? Hr1 Hc1 Hd1]; subst.
    + assert (rj = r) as -> by congruence.
      destruct (elem_of_imap_pair_inv _ _ Hc) as [k Hk]. destruct (Hall _ Hk) as [_ Hl].
      by apply Hl.
    + assert (r1 = r) as -> by congruence.
      destruct (elem_of_imap_pair_inv _ _ Hc1) as [k Hk]. destruct (Hall _ Hk) as [Hl _].
      by eapply Hl.
Qed.

Lemma runs_materialize_syntax_tree arena fuel root_id r file_id b :
  arena_ok arena -> get_node arena root_id = Some r -> length arena <= fuel + root_id -> Inv b ->
  has b file_id "File" ->
  runs (materialize_syntax_tree fuel arena root_id file_id) b
    (fun _ b' => linked_below arena (b_path b) root_id b' /\
                 has b' (capture_id (b_path b) (tree_capture r)) "SyntaxCapture").
Proof.
  intros Hok Hr Hfuel HI Hf. unfold materialize_syntax_tree. rewrite Hr.
  do 2 runs_step. eapply runs_weaken.
  - apply (runs_materialize_syntax_children arena Hok fuel root_id r a b1); [done..| |done].
    rewrite HF. symmetry. apply ext_capture_id. by etrans.
  - intros [] b2 HE2 Hl. rewrite (ext_path b b1) in Hl by (by etrans). split; [done|].
    rewrite <- HF. by eapply has_mono.
Qed.

Ltac runs_end :=
  lazymatch goal with
  | |- runs (mret _) _ _ =>
      apply runs_ret; [assumption|]; solve [done | assumption | eauto with builder]
  | |- runs _ _ _ =>
      first [ solve [eauto 4 with runs nocore]
            | eapply runs_any; solve [eauto 4 with runs nocore] ]
  end.
Ltac runs_all := repeat runs_step; try runs_end.

Lemma runs_emit_table arena n c o sid table b :
  Inv b -> owner_ok b o -> has b sid "SyntaxCapture" ->
  runs (emit_table arena n c o sid table) b (fun s b' => row b' s table).
Proof.
  intros HI Ho Hs. unfold emit_table.
  destruct (String.eqb_spec table "ImportDeclaration") as [->|_]; [by runs_end|].
  destruct (is_one_of table _); [by runs_end|].
  destruct (String.eqb_spec table "Assignment") as [->|_]; [by runs_end|].
  destruct (String.eqb_spec table "CallExpression") as [->|_]; [by runs_end|].
  destruct (String.eqb_spec table "Reference") as [->|_]; [by runs_end|].
  destruct (String.eqb_spec table "Literal") as [->|_]; [runs_step; by runs_end|]. by runs_end.
Qed.
Hint Resolve runs_emit_table : runs.

Lemma owner_of b n table scope qn :
  row b n table -> row b scope "Scope" ->
  owner_ok b {| o_node_id := n_id n; o_table := table; o_qualified_name := qn;
                o_scope_id := n_id scope |}.
Proof. intros Hn Hs. split; [by apply row_has|]. right. by apply row_has. Qed.

Lemma runs_emit_scope arena n table from_capture semantic b :
  Inv b -> row b semantic table ->
  runs (emit_scope arena n table from_capture semantic) b (fun o b' => owner_ok b' o).
Proof.
  intros HI Hs. unfold emit_scope. apply runs_gets. builder_mono. do 3 runs_step.
  apply runs_when_bind; [done|intros _; by runs_all|]. intros b4 HE4 HI4. builder_mono.
  apply runs_ret; [done|]. by apply owner_of.
Qed.
Hint Resolve runs_emit_scope : runs.

Lemma runs_emit_tree_node arena n o b :
  Inv b -> owner_ok b o ->
  runs (emit_tree_node arena n o) b (fun next b' => owner_ok b' (default o next)).
Proof.
  intros HI Ho. unfold emit_tree_node. apply runs_gets. runs_step.
  match goal with |- context [match ?t with Some _ => _ | None => mret None end] =>
    destruct t as [table|] end; [|by runs_end].
  runs_step. destruct (is_one_of table _); [|by runs_end]. runs_step.
  by apply runs_ret.
Qed.
Hint Resolve runs_emit_tree_node : runs.

Lemma runs_traverse_tree_node arena : arena_ok arena ->
  forall fuel id r o b, get_node arena id = Some r -> length arena <= fuel + id -> Inv b ->
  owner_ok b o -> runs (traverse_tree_node fuel arena id o) b any.
Proof.
  intros Hok. induction fuel as [|fuel IH]; intros id r o b Hr Hfuel HI Ho.
  { pose proof (lookup_lt_Some _ _ _ Hr). lia. }
  cbn [traverse_tree_node]. rewrite Hr. runs_step. apply runs_gets.
  destruct (semantic_child_ids_enough arena (b_language b0) Hok (S fuel) id r Hr Hfuel)
    as (ids & -> & Hids).
  eapply runs_bind; [apply runs_for_each; [done|]|].
  - intros c b1 Hc HE1 HI1. rewrite Forall_forall in Hids. destruct (Hids c Hc) as [Hlt Hlen].
    assert (exists rc, get_node arena c = Some rc) as [rc Hrc] by (by apply lookup_lt_is_Some_2).
    apply (IH c rc); [done|lia|done|]. by eapply owner_ok_mono.
  - intros [] b1 HE1 HI1 _. builder_mono. runs_end.
Qed.

Lemma runs_build_module root file b :
  Inv b -> row b file "File" -> runs (build_module root file) b (fun o b' => owner_ok b' o).
Proof.
  intros HI Hf. unfold build_module. builder_mono. do 2 apply runs_gets. do 6 runs_step.
  apply runs_when_bind; [done|intros _; by runs_end|]. intros b7 HE7 HI7. builder_mono.
  apply runs_ret; [done|]. by apply owner_of.
Qed.

Lemma runs_build_file_scope file b :
  Inv b -> row b file "File" -> runs (build_file_scope file) b (fun o b' => owner_ok b' o).
Proof.
  intros HI Hf. unfold build_file_scope. builder_mono. do 2 runs_step.
  apply runs_ret; [done|]. by apply owner_of.
Qed.
Hint Resolve runs_build_module runs_build_file_scope : runs.

Lemma runs_build_tree arena r b :
  arena_ok arena -> get_node arena 0 = Some r -> Inv b ->
  runs (build_tree (tree_fuel arena) arena 0) b
    (fun _ b' => linked_below arena (b_path b) 0 b' /\
                 has b' (capture_id (b_path b) (tree_capture r)) "SyntaxCapture").
Proof.
  intros Hok Hr HI. unfold build_tree. rewrite Hr. do 3 apply runs_gets. do 5 runs_step.
  eapply runs_bind.
  { eapply runs_materialize_syntax_tree; [done|exact Hr|unfold tree_fuel; lia|done|done]. }
  intros [] b5 HE5 HI5 [Hl Hroot]. builder_mono.
  assert (Extends b b4) as HE04 by (do 4 (etrans; [eassumption|]); eassumption).
  rewrite (ext_path _ _ HE04) in Hl, Hroot.
  eapply runs_weaken; [instantiate (1 := any)|].
  2: { intros [] b6 HE6 _. split; [by eapply linked_below_mono|by eapply has_mono]. }
  destruct (is_module_type (ref_type r)).
  - runs_step. apply runs_for_each; [done|]. intros c b7 Hc HE7 HI7.
    destruct (child_facts _ _ _ _ Hok Hr Hc) as [_ [rc Hrc]].
    eapply runs_traverse_tree_node; [done|exact Hrc|unfold tree_fuel; lia|done|].
    by eapply owner_ok_mono.
  - runs_step. eapply runs_traverse_tree_node; [done|exact Hr|unfold tree_fuel; lia|done|done].
Qed.
End TraverseLaws.

(** ** The rows *)
Lemma elem_of_row_nodes b n : n ∈ rows_nodes (into_rows b) <-> exists k, nodes b !! k = Some n.
Proof.
  simpl. rewrite sort_by_key_perm, list_elem_of_fmap. split.
  - intros ([k m] & -> & Hin%elem_of_map_to_list). by exists k.
  - intros [k Hk]. exists (k, n). split; [done|]. by apply elem_of_map_to_list.
Qed.

Lemma elem_of_row_edges b e : e ∈ rows_edges (into_rows b) <-> exists k, edges b !! k = Some e.
Proof.
  simpl. rewrite sort_by_key_perm, list_elem_of_fmap. split.
  - intros ([k m] & -> & Hin%elem_of_map_to_list). by exists k.
  - intros [k Hk]. exists (k, e). split; [done|]. by apply elem_of_map_to_list.
Qed.

(** Values that know their key are as distinct as the keys. *)
Lemma NoDup_map_values {V} (m : gmap string V) (id : V -> string) :
  (forall k v, m !! k = Some v -> id v = k) -> NoDup (id <$> (snd <$> map_to_list m)).
Proof.
  intros Hid. rewrite <- list_fmap_compose.
  rewrite (list_fmap_ext (id ∘ snd) fst (map_to_list m)); [apply NoDup_fst_map_to_list|].
  intros i [k v] Hi. simpl. apply Hid, elem_of_map_to_list. by eapply list_elem_of_lookup_2.
Qed.

Lemma NoDup_with_key {V K} (f : V -> K) (g : V -> string * string) (h : V -> string) (l : list V) :
  (forall v, (g v).2 = h v) -> NoDup (h <$> l) -> NoDup (g <$> l).
Proof.
  intros Hg Hnd. apply (NoDup_fmap_1 snd). rewrite <- list_fmap_compose.
  by rewrite (list_fmap_ext (snd ∘ g) h l) by (intros; apply Hg).
Qed.

Lemma sorted_rows {V} (order : V -> string * string) (l : list V) :
  NoDup (order <$> l) -> StrictlySorted (order <$> sort_by_key order l).
Proof.
  intros Hnd. rewrite fmap_sort_by_key. apply sorted_NoDup_strict; [apply sort_sorted|].
  by rewrite sort_perm.
Qed.

(** A well-formed graph, for a list of allowed relations. *)
Record graph_ok (l : RelationAllowlist) (rows : BuiltGraphRows) : Prop := {
  graph_nodes_sorted : StrictlySorted (node_order <$> rows_nodes rows);
  graph_edges_sorted : StrictlySorted (edge_order <$> rows_edges rows);
  graph_node_ids : NoDup (n_id <$> rows_nodes rows);
  graph_edge_ids : NoDup (e_id <$> rows_edges rows);
  graph_node_keys n : n ∈ rows_nodes rows -> exists key, n_id n = graph_id (n_table n) key /\
    value_get "canonical_key" (n_metadata n) = Some (VString key);
  graph_edge_keys e : e ∈ rows_edges rows -> e_id e = graph_id "edge" (edge_key_of e) /\
    value_get "canonical_key" (e_metadata e) = Some (VString (edge_key_of e));
  graph_edge_ends e : e ∈ rows_edges rows -> exists s t,
    s ∈ rows_nodes rows /\ n_id s = e_source_id e /\
    t ∈ rows_nodes rows /\ n_id t = e_target_id e /\
    allows l (e_edge_type e) (n_table s) (n_table t) = true
}.

Lemma into_rows_ok b : Inv b -> graph_ok (relation_allowlist b) (into_rows b).
Proof.
  intros HI.
  assert (NoDup (n_id <$> (snd <$> map_to_list (nodes b)))) as Hn.
  { apply NoDup_map_values. intros k n Hk. by destruct (inv_nodes b HI k n Hk). }
  assert (NoDup (e_id <$> (snd <$> map_to_list (edges b)))) as He.
  { apply NoDup_map_values. intros k e Hk. by destruct (inv_edges b HI k e Hk). }
  split.
  - apply sorted_rows. by eapply NoDup_with_key.
  - apply sorted_rows. by eapply NoDup_with_key.
  - simpl. by rewrite sort_by_key_perm.
  - simpl. by rewrite sort_by_key_perm.
  - intros n [k Hk]%elem_of_row_nodes. destruct (inv_nodes b HI k n Hk) as [<- ?]. done.
  - intros e [k Hk]%elem_of_row_edges. destruct (inv_edges b HI k e Hk) as (<- & ? & ? & _). done.
  - intros e [k Hk]%elem_of_row_edges.
    destruct (inv_edges b HI k e Hk) as (_ & _ & _ & s & t & Hs & Ht & Ha).
    exists s, t. rewrite !elem_of_row_nodes.
    destruct (inv_nodes b HI _ s Hs) as [? _], (inv_nodes b HI _ t Ht) as [? _].
    repeat split; eauto.
Qed.

Lemma new_builder_ok `{RelationCodec} meta b :
  new_builder meta = Ok b -> Inv b /\ from_meta meta = Ok (relation_allowlist b) /\
  b_path b = default "" (meta !! "path").
Proof.
  unfold new_builder. destruct (from_meta meta) as [l|e]; simpl; [|done]. intros [= <-].
  split; [|done]. split; simpl; intros ? ? Hbad; by rewrite lookup_empty in Hbad.
Qed.
