(* ===== verification/Graph.v ===== *)
(** * What the graph of a file is (src/syntax_materializer)

    The theorems on the whole construction: it ends, fails only on an ontology that
    refuses a relation, and yields a closed, content-addressed, canonically ordered graph
    that contains the syntax tree. *)
From S2P Require Import Prelude Order Text Json Normalize Rows Capture Builder Emit BuilderLaws Traverse.
Import Ids.

(** ** The build as a run *)
Lemma build_runs `{Unicode, RelationCodec} meta root b id arena :
  new_builder meta = Ok b -> new_arena root = (id, arena) ->
  id = 0 /\
  runs (build_tree (tree_fuel arena) arena id) b (fun _ b' =>
    linked_below arena (b_path b) 0 b' /\
    exists r, get_node arena 0 = Some r /\ node r = root /\
      has b' (capture_id (b_path b) (tree_capture r)) "SyntaxCapture").
Proof.
  intros Hb Ha. destruct (new_builder_ok _ _ Hb) as [HI _].
  destruct (new_arena_ok _ _ _ Ha) as (-> & Hok & _ & r & Hr & Hroot & _). split; [done|].
  eapply runs_weaken; [by eapply runs_build_tree|]. intros [] b' _ [Hl Hh]. split; [done|].
  by exists r.
Qed.

Lemma build_inv `{Unicode, RelationCodec} meta root rows :
  build_syntax_tree_graph_rows meta root = Ok rows ->
  exists b b' arena r, new_builder meta = Ok b /\ new_arena root = (0, arena) /\ rows = into_rows b' /\
    Extends b b' /\ Inv b' /\ linked_below arena (b_path b) 0 b' /\
    get_node arena 0 = Some r /\ node r = root /\
    has b' (capture_id (b_path b) (tree_capture r)) "SyntaxCapture".
Proof.
  unfold build_syntax_tree_graph_rows. intros Hb.
  apply result_bind_Ok in Hb as [b [Hnew Hb]].
  destruct (new_builder meta) as [b0|e] eqn:Eb; [|done]. injection Hnew as ->.
  destruct (new_arena root) as [id arena] eqn:Ea.
  destruct (build_runs meta root b id arena Eb Ea) as [-> Hruns].
  apply result_bind_Ok in Hb as [[[] b'] [Hbuilt Hb]]. injection Hb as <-.
  unfold runs in Hruns. rewrite Hbuilt in Hruns.
  destruct Hruns as (HE & HI & Hl & r & Hr & Hroot & Hh). by exists b, b', arena, r.
Qed.

Lemma build_rows_ok `{Unicode, RelationCodec} meta root l rows :
  from_meta meta = Ok l -> build_syntax_tree_graph_rows meta root = Ok rows -> graph_ok l rows.
Proof.
  intros Hl (b & b' & arena & r & Hb & _ & -> & HE & HI & _)%build_inv.
  destruct (new_builder_ok _ _ Hb) as (_ & Hl' & _).
  assert (relation_allowlist b' = l) as <-; [|by apply into_rows_ok].
  rewrite (ext_allowlist _ _ HE). congruence.
Qed.

(** Every way a build can end. *)
Definition build_outcome `{Unicode, RelationCodec} (meta : gmap string string)
    (r : result build_error BuiltGraphRows) : Prop :=
  match r with
  | Ok _ => is_ok (from_meta meta) = true
  | Err OutOfFuel => False
  | Err (BuildError m) =>
      from_meta meta = Err m \/
      exists l ty s t, from_meta meta = Ok l /\ enabled l = true /\
        m = refusal ty s t /\ allows l ty s t = false
  end.

Lemma build_ends `{Unicode, RelationCodec} meta root :
  build_outcome meta (build_syntax_tree_graph_rows meta root).
Proof.
  unfold build_outcome, build_syntax_tree_graph_rows.
  destruct (new_builder meta) as [b|m] eqn:Eb; simpl.
  - destruct (new_builder_ok _ _ Eb) as (_ & Hl & _).
    destruct (new_arena root) as [id arena] eqn:Ea.
    destruct (build_runs meta root b id arena Eb Ea) as [-> Hruns]. unfold runs in Hruns.
    destruct (build_tree _ _ _ _) as [[[] b']|e]; simpl; [by rewrite Hl|].
    destruct Hruns as (He & ty & s & t & -> & Ha). right. by eexists _, ty, s, t.
  - left. unfold new_builder in Eb. destruct (from_meta meta); simpl in Eb; congruence.
Qed.

Lemma build_default_ok `{Unicode, RelationCodec} meta root :
  meta !! "ontology_relations" = None -> is_ok (build_syntax_tree_graph_rows meta root) = true.
Proof.
  intros Hno. pose proof (build_ends meta root) as Hend. unfold build_outcome in Hend.
  destruct (build_syntax_tree_graph_rows meta root) as [rows|e]; [done|]. exfalso.
  assert (from_meta meta = Ok default_allowlist) as Hd by (unfold from_meta; by rewrite Hno).
  destruct e as [m|]; [|done].
  destruct Hend as [Hm|(l & ty & s & t & Hl & He & _)]; [congruence|].
  rewrite Hd in Hl. injection Hl as <-. done.
Qed.

(** C1: the graph built for a file is well formed: nodes and edges are strictly sorted
    by (table, id) and by (type, id), so the output does not depend on the iteration
    order of the hash maps; identifiers are unique and are the hash of table and canonical
    key; both ends of every edge are nodes of the graph; and every edge is allowed
    between the tables of its ends. *)
Theorem build_well_formed `{Unicode, RelationCodec} meta root l rows :
  from_meta meta = Ok l -> build_syntax_tree_graph_rows meta root = Ok rows -> graph_ok l rows.
Proof. apply build_rows_ok. Qed.

(** C2: building always ends, whatever the tree: it yields a graph, or reports
    malformed ontology metadata, or reports a relation that the ontology does not
    allow; so without ontology metadata it always yields a graph, and a missing arena
    node is never reported. *)
Theorem build_terminates `{Unicode, RelationCodec} meta root :
  build_outcome meta (build_syntax_tree_graph_rows meta root) /\
  (meta !! "ontology_relations" = None -> is_ok (build_syntax_tree_graph_rows meta root) = true).
Proof. split; [apply build_ends|apply build_default_ok]. Qed.

(** ** The syntax tree in the graph *)
Inductive subtree (root : SyntaxNode) : SyntaxNode -> Prop :=
| subtree_root : subtree root root
| subtree_child t c : subtree root t -> c ∈ children t -> subtree root c.

(** The capture of a syntax node does not look at its place in the arena. *)
Definition node_capture (t : SyntaxNode) : Capture :=
  tree_capture {| parent_id := None; node := t; child_ids := [] |}.

Lemma tree_capture_node r : tree_capture r = node_capture (node r).
Proof. by destruct r. Qed.

Lemma descends_trans arena i j c rj :
  descends arena i j -> get_node arena j = Some rj -> c ∈ child_ids rj -> descends arena i c.
Proof.
  induction 1 as [i|i r c' j Hr Hc' Hd IH]; intros Hj Hc.
  - eapply descends_step; [done|done|constructor].
  - eapply descends_step; [done|done|by apply IH].
Qed.

Lemma subtree_indexed arena i r t :
  arena_ok arena -> get_node arena i = Some r -> subtree (node r) t ->
  exists j rj, descends arena i j /\ get_node arena j = Some rj /\ node rj = t.
Proof.
  intros Hok Hr. induction 1 as [|t c Hst (j & rj & Hd & Hj & Hn) Hc].
  - exists i, r. split; [constructor|done].
  - destruct (Hok j) as (rj' & Hrj' & Hf); [by eapply lookup_lt_Some|].
    assert (rj' = rj) as -> by congruence. rewrite <- Hn in Hc.
    apply list_elem_of_lookup in Hc as [k Hk].
    destruct (Forall2_lookup_r _ _ _ _ _ Hf Hk) as (cid & Hcid & _ & rc & Hrc & Hnc & _).
    exists cid, rc. split; [|done].
    eapply descends_trans; [done|done|by eapply list_elem_of_lookup_2].
Qed.

(** C3: the graph contains the whole syntax tree: every node of the tree has its
    [SyntaxCapture] node, and every parent its [SyntaxChild] edge to each child, under the
    identifiers that the file's path and the captures determine. *)
Theorem build_contains_syntax_tree `{Unicode, RelationCodec} meta root rows :
  build_syntax_tree_graph_rows meta root = Ok rows ->
  let path := default "" (meta !! "path") in
  (forall t, subtree root t -> exists n, n ∈ rows_nodes rows /\
     n_id n = capture_id path (node_capture t) /\ n_table n = "SyntaxCapture") /\
  (forall t c, subtree root t -> c ∈ children t -> exists e, e ∈ rows_edges rows /\
     e_id e = graph_id "edge" (edge_key "SyntaxChild" (capture_id path (node_capture t))
                                 (capture_id path (node_capture c)) "syntax_child")).
Proof.
  intros (b & b' & arena & r & Hb & Ha & -> & HE & HI & Hl & Hr & Hroot & Hh)%build_inv path.
  destruct (new_builder_ok _ _ Hb) as (_ & _ & Hpath). fold path in Hpath. rewrite Hpath in Hl, Hh.
  destruct (new_arena_ok _ _ _ Ha) as (_ & Hok & _).
  assert (forall id, has b' id "SyntaxCapture" -> exists n, n ∈ rows_nodes (into_rows b') /\
            n_id n = id /\ n_table n = "SyntaxCapture") as Hrow.
  { intros id (n & Hn & Ht). exists n. rewrite elem_of_row_nodes.
    destruct (inv_nodes b' HI _ _ Hn) as [Hid _]. split; [by exists id|done]. }
  assert (forall t c, subtree root t -> c ∈ children t -> exists rt rc,
            node rt = t /\ node rc = c /\ linked path rt rc b') as Hlinked.
  { intros t c Ht Hc. rewrite <- Hroot in Ht.
    destruct (subtree_indexed arena 0 r t Hok Hr Ht) as (j & rj & Hd & Hj & Hn).
    destruct (Hok j) as (rj' & Hrj' & Hf); [by eapply lookup_lt_Some|].
    assert (rj' = rj) as -> by congruence. rewrite <- Hn in Hc.
    apply list_elem_of_lookup in Hc as [k Hk].
    destruct (Forall2_lookup_r _ _ _ _ _ Hf Hk) as (cid & Hcid & _ & rc & Hrc & Hnc & _).
    exists rj, rc. split; [done|]. split; [done|].
    eapply Hl; [done|done|by eapply list_elem_of_lookup_2|done]. }
  split.
  - intros t Ht. apply Hrow. inversion Ht as [|p c Hp Hc]; subst.
    + by rewrite <- tree_capture_node.
    + destruct (Hlinked _ _ Hp Hc) as (rt & rc & _ & <- & _ & Hcap). by rewrite <- tree_capture_node.
  - intros t c Ht Hc. destruct (Hlinked t c Ht Hc) as (rt & rc & <- & <- & [e He] & _).
    exists e. rewrite elem_of_row_edges. destruct (inv_edges b' HI _ _ He) as [Hid _].
    split; [by eexists|]. rewrite Hid. unfold child_edge_id. by rewrite !tree_capture_node.
Qed.

(** ** A concrete file *)
Definition leaf (ty tx : string) (pos : Z) (capture : string) (fs : Map) (cs : list SyntaxNode)
    : SyntaxNode :=
  mkSyntaxNode ty tx (Some pos) (Some pos) (Some pos) (Some pos) capture None cs fs.

Definition sample_tree : SyntaxNode :=
  leaf "source_file" "" 1 "" []
    [leaf "function_item" "" 2 "definition.function" [("name", VString "main")]
       [leaf "block" "" 3 "" []
          [leaf "call_expression" "f()" 4 "reference.call" [("function", VString "f")] []]]].

Definition sample_meta : gmap string string :=
  list_to_map [("path", "src/main.rs"); ("language", "rust"); ("repository_label", "repo")].

Definition no_codec : RelationCodec := fun _ => Ok [].

Lemma sample_build_ok : exists rows,
  @build_syntax_tree_graph_rows ascii_unicode no_codec sample_meta sample_tree = Ok rows.
Proof.
  destruct (@build_syntax_tree_graph_rows ascii_unicode no_codec sample_meta sample_tree)
    as [rows|e] eqn:E; [by exists rows|].
  exfalso. assert (is_ok (@build_syntax_tree_graph_rows ascii_unicode no_codec sample_meta sample_tree)
    = true) as Hok by (vm_compute; reflexivity). by rewrite E in Hok.
Qed.

Lemma build_well_formed_witness : exists rows,
  @build_syntax_tree_graph_rows ascii_unicode no_codec sample_meta sample_tree = Ok rows /\
  graph_ok default_allowlist rows.
Proof.
  destruct sample_build_ok as [rows Hrows]. exists rows. split; [exact Hrows|].
  exact (@build_well_formed ascii_unicode no_codec sample_meta sample_tree default_allowlist rows
           eq_refl Hrows).
Defined.

Lemma build_terminates_witness :
  is_ok (@build_syntax_tree_graph_rows ascii_unicode no_codec sample_meta sample_tree) = true.
Proof.
  destruct (@build_terminates ascii_unicode no_codec sample_meta sample_tree) as [_ Hok].
  exact (Hok eq_refl).
Defined.

Lemma build_contains_syntax_tree_witness : exists rows,
  @build_syntax_tree_graph_rows ascii_unicode no_codec sample_meta sample_tree = Ok rows /\
  exists n, n ∈ rows_nodes rows /\ n_table n = "SyntaxCapture" /\
    n_id n = capture_id "src/main.rs" (node_capture sample_tree).
Proof.
  destruct sample_build_ok as [rows Hrows]. exists rows. split; [exact Hrows|].
  destruct (@build_contains_syntax_tree ascii_unicode no_codec sample_meta sample_tree rows Hrows)
    as [Hnodes _].
  destruct (Hnodes sample_tree (subtree_root _)) as (n & Hin & Hid & Ht).
  exists n. split; [exact Hin|]. split; [exact Ht|exact Hid].
Defined.
