(* ===== verification/Partition.v ===== *)
(** * Graph partitions (src/partition_builder.rs)

    The graph of one source file together with its manifest entry, and the validation that
    a cached partition has to pass before it is used again. *)
From S2P Require Import Prelude Order Text Json Hash Protocol Profiles Normalize Markdown Rows Capture Builder Emit BuilderLaws Traverse Graph.
Import Ids.

Record GraphPartition := {
  entry : ManifestEntry;
  part_nodes : list GraphNodeRow;
  part_edges : list GraphEdgeRow
}.

(** [entry.artifact_key = Some(key)] *)
Definition entry_with_key (e : ManifestEntry) (key : string) : ManifestEntry := {|
  entry_path := entry_path e; entry_content_hash := entry_content_hash e;
  entry_language := entry_language e; entry_partition_id := entry_partition_id e;
  artifact_key := Some key;
  node_ids := node_ids e; edge_ids := edge_ids e;
  node_types := node_types e; edge_types := edge_types e;
  node_count := node_count e; edge_count := edge_count e; materialized_at := materialized_at e
|}.

Definition set_artifact_key (p : GraphPartition) (key : string) : GraphPartition := {|
  entry := entry_with_key (entry p) key; part_nodes := part_nodes p; part_edges := part_edges p
|}.

(** [for row in rows { types.insert(row.id, row.table) }]: of two rows with one id the
    later wins. *)
Definition types_of {A} (id table : A -> string) (rows : list A) : gmap string string :=
  fold_left (fun m r => <[id r := table r]> m) rows ∅.

Definition validate_raw_rows (p : GraphPartition) : result string unit :=
  let e := entry p in
  if negb (String.eqb (entry_partition_id e) (partition_id (entry_path e))) then
    Err ("partition " +:+ entry_partition_id e +:+ " does not match path " +:+ entry_path e)
  else if negb (bool_decide (node_ids e = sort (n_id <$> part_nodes p))) then
    Err "entry node_ids do not match raw node rows"
  else if negb (bool_decide (edge_ids e = sort (e_id <$> part_edges p))) then
    Err "entry edge_ids do not match raw edge rows"
  else if negb (bool_decide (node_types e = types_of n_id n_table (part_nodes p))) then
    Err "entry node_types do not match raw node rows"
  else if negb (bool_decide (edge_types e = types_of e_id e_edge_type (part_edges p))) then
    Err "entry edge_types do not match raw edge rows"
  else if negb (Nat.eqb (node_count e) (length (part_nodes p))) then
    Err "entry node_count does not match raw node rows"
  else if negb (Nat.eqb (edge_count e) (length (part_edges p))) then
    Err "entry edge_count does not match raw edge rows"
  else Ok tt.

Definition manifest_entry (snapshot : SourceSnapshot) (nodes : list GraphNodeRow)
    (edges : list GraphEdgeRow) : ManifestEntry := {|
  entry_path := snapshot_path snapshot;
  entry_content_hash := snapshot_content_hash snapshot;
  entry_language := default "" (snapshot_language snapshot);
  entry_partition_id := partition_id (snapshot_path snapshot);
  artifact_key := None;
  node_ids := sort (n_id <$> nodes);
  edge_ids := sort (e_id <$> edges);
  node_types := types_of n_id n_table nodes;
  edge_types := types_of e_id e_edge_type edges;
  node_count := length nodes;
  edge_count := length edges;
  materialized_at := "unix:0"
|}.

(** Encoding the relation types as JSON is serde's. *)
Class RelationEncoder := encode_relations : list OntologyRelationType -> result string string.

Definition unwrap_or_default (r : result string string) : string :=
  match r with Ok s => s | Err _ => "" end.

Section build.
Context `{Unicode, RelationCodec, RelationEncoder}.

Definition graph_meta (request : NativeSyntaxMaterializationRequest) (snapshot : SourceSnapshot)
    : gmap string string :=
  let meta := <["language" := default "" (snapshot_language snapshot)]>
                (<["path" := snapshot_path snapshot]> ∅) in
  let meta :=
    match snapshot_language snapshot ≫= profile_for_language (Profiles.new (profiles request)) with
    | Some profile => <["grammar_version" := profile_grammar_version profile]> meta
    | None => meta
    end in
  let meta := <["source_root" := source_root request]> meta in
  let meta := <["repository_label" := repository_label request]> meta in
  match relation_types (ontology_schema request) with
  | [] => meta
  | rels => <["ontology_relations" := unwrap_or_default (encode_relations rels)]> meta
  end.

(** The error of a build as text; running out of fuel has no text, and never happens. *)
Definition build_message (e : build_error) : string :=
  match e with BuildError m => m | OutOfFuel => "" end.

Definition build_partition (request : NativeSyntaxMaterializationRequest)
    (snapshot : SourceSnapshot) (parse : ParseOutput) : native_result GraphPartition :=
  result_map (fun rows => {|
      entry := manifest_entry snapshot (rows_nodes rows) (rows_edges rows);
      part_nodes := rows_nodes rows;
      part_edges := rows_edges rows
    |})
    (map_err (fun e => InvalidInput (build_message e))
       (build_syntax_tree_graph_rows (graph_meta request snapshot) (Markdown.root parse))).
End build.

(** ** Laws *)
(** The fields of an entry that restate the rows of its partition. *)
Record entry_matches (p : GraphPartition) : Prop := {
  em_id : entry_partition_id (entry p) = partition_id (entry_path (entry p));
  em_node_ids : node_ids (entry p) = sort (n_id <$> part_nodes p);
  em_edge_ids : edge_ids (entry p) = sort (e_id <$> part_edges p);
  em_node_types : node_types (entry p) = types_of n_id n_table (part_nodes p);
  em_edge_types : edge_types (entry p) = types_of e_id e_edge_type (part_edges p);
  em_node_count : node_count (entry p) = length (part_nodes p);
  em_edge_count : edge_count (entry p) = length (part_edges p)
}.

Lemma validate_raw_rows_spec p : validate_raw_rows p = Ok tt <-> entry_matches p.
Proof.
  unfold validate_raw_rows. split.
  - destruct (String.eqb_spec (entry_partition_id (entry p)) (partition_id (entry_path (entry p)))); [|done].
    simpl. repeat (case_bool_decide; simpl; [|done]).
    destruct (Nat.eqb_spec (node_count (entry p)) (length (part_nodes p))); [|done]. simpl.
    destruct (Nat.eqb_spec (edge_count (entry p)) (length (part_edges p))); [|done]. by split.
  - intros [E1 E2 E3 E4 E5 E6 E7]. rewrite E1, String.eqb_refl, !bool_decide_true by done.
    by rewrite E6, E7, !Nat.eqb_refl.
Qed.

Lemma lookup_types_of {A} (id table : A -> string) rows k t :
  NoDup (id <$> rows) ->
  types_of id table rows !! k = Some t <-> exists r, r ∈ rows /\ id r = k /\ table r = t.
Proof.
  unfold types_of.
  induction rows as [|r rows IH] using rev_ind; intros Hnd.
  - simpl. rewrite lookup_empty. split; [done|]. by intros (? & ?%elem_of_nil & _).
  - rewrite fold_left_app. simpl. rewrite fmap_app in Hnd.
    apply NoDup_app in Hnd as (Hnd & Hdisj & _). destruct (decide (id r = k)) as [<-|Hne].
    + rewrite lookup_insert_eq. split.
      * intros [= <-]. exists r. split; [set_solver|done].
      * intros (r' & [Hr'| ->%list_elem_of_singleton]%elem_of_app & Hid & <-); [|done].
        exfalso. apply (Hdisj (id r')); [by apply list_elem_of_fmap_2|rewrite Hid; set_solver].
    + rewrite lookup_insert_ne by done. rewrite IH by done. split.
      * intros (r' & ? & ?). exists r'. split; [set_solver|done].
      * intros (r' & [Hr'| ->%list_elem_of_singleton]%elem_of_app & Hid & Ht); [by exists r'|done].
Qed.

Lemma size_types_of {A} (id table : A -> string) rows :
  NoDup (id <$> rows) -> size (types_of id table rows) = length rows.
Proof.
  intros Hnd. unfold types_of. induction rows as [|r rows IH] using rev_ind; [apply map_size_empty|].
  rewrite fold_left_app, length_app. simpl. rewrite fmap_app in Hnd.
  apply NoDup_app in Hnd as (Hnd & Hdisj & _). rewrite map_size_insert_None, IH; [lia|done|].
  destruct (fold_left _ rows ∅ !! id r) as [t|] eqn:E; [|done]. exfalso.
  apply (lookup_types_of id table) in E as (r' & Hr' & Hid & _); [|done].
  apply (Hdisj (id r')); [by apply list_elem_of_fmap_2|rewrite Hid; set_solver].
Qed.

(** The entry with another artifact key and another time stamp. *)
Definition restamp (e : ManifestEntry) (key : option string) (time : string) : ManifestEntry := {|
  entry_path := entry_path e; entry_content_hash := entry_content_hash e;
  entry_language := entry_language e; entry_partition_id := entry_partition_id e;
  artifact_key := key;
  node_ids := node_ids e; edge_ids := edge_ids e;
  node_types := node_types e; edge_types := edge_types e;
  node_count := node_count e; edge_count := edge_count e; materialized_at := time
|}.

(** a partition passes validation exactly when its entry is the manifest entry that
    [manifest_entry] computes from its own rows for some snapshot, up to the artifact key
    and the time stamp: no other disagreement between entry and rows is let through, and no
    entry that the code itself makes is refused. *)
Theorem validate_accepts_manifest_entries p :
  validate_raw_rows p = Ok tt <->
  exists snapshot key time,
    entry p = restamp (manifest_entry snapshot (part_nodes p) (part_edges p)) key time.
Proof.
  rewrite validate_raw_rows_spec. split.
  - intros []. exists {| snapshot_path := entry_path (entry p); absolute_path := "";
      snapshot_content_hash := entry_content_hash (entry p);
      snapshot_language := Some (entry_language (entry p)); byte_len := 0; snapshot_source := None |},
      (artifact_key (entry p)), (materialized_at (entry p)).
    unfold restamp, manifest_entry. simpl. destruct (entry p); simpl in *. by subst.
  - intros (snapshot & key & time & He). by split; rewrite He.
Qed.

(** What a built partition is: its rows are a well-formed graph and its entry describes
    them. *)
Record partition_ok `{RelationCodec} (meta : gmap string string) (p : GraphPartition) : Prop := {
  po_graph : exists l, from_meta meta = Ok l /\
    graph_ok l {| rows_nodes := part_nodes p; rows_edges := part_edges p |};
  po_valid : validate_raw_rows p = Ok tt;
  po_keyed key : validate_raw_rows (set_artifact_key p key) = Ok tt;
  po_node_ids : NoDup (node_ids (entry p));
  po_edge_ids : NoDup (edge_ids (entry p));
  po_node_types k t : node_types (entry p) !! k = Some t <->
    exists n, n ∈ part_nodes p /\ n_id n = k /\ n_table n = t;
  po_edge_types k t : edge_types (entry p) !! k = Some t <->
    exists e, e ∈ part_edges p /\ e_id e = k /\ e_edge_type e = t;
  po_counts : node_count (entry p) = size (node_types (entry p)) /\
    edge_count (entry p) = size (edge_types (entry p))
}.

(** building the partition of a file either yields a partition whose rows are a
    well-formed graph and whose entry describes them (it validates, also after it got its
    artifact key; the two type maps hold exactly the rows; the counts are the numbers of
    distinct identifiers), or fails with an invalid-input error that comes from the
    ontology metadata; without ontology relations it does not fail. *)
Theorem build_partition_correct `{Unicode, RelationCodec, RelationEncoder} request snapshot parse :
  let meta := graph_meta request snapshot in
  match build_partition request snapshot parse with
  | Ok p => partition_ok meta p /\ entry_path (entry p) = snapshot_path snapshot /\
      entry_content_hash (entry p) = snapshot_content_hash snapshot
  | Err e => relation_types (ontology_schema request) <> [] /\
      exists m, e = InvalidInput m /\ build_outcome meta (Err (BuildError m))
  end.
Proof.
  intros meta. unfold build_partition. fold meta.
  pose proof (build_ends meta (Markdown.root parse)) as Hend.
  destruct (build_syntax_tree_graph_rows meta (Markdown.root parse)) as [rows|e] eqn:E; simpl.
  - split; [|done]. unfold build_outcome in Hend. destruct (from_meta meta) as [l|] eqn:El; [|done].
    pose proof (build_rows_ok meta _ l rows El E) as [].
    split; simpl; rewrite ?size_types_of; try done.
    + exists l. by destruct rows.
    + by apply validate_raw_rows_spec.
    + intros key. by apply validate_raw_rows_spec.
    + by rewrite sort_perm.
    + by rewrite sort_perm.
    + intros k t. by apply lookup_types_of.
    + intros k t. by apply lookup_types_of.
  - split.
    + intros Hnil. assert (meta !! "ontology_relations" = None) as Hno.
      { unfold meta, graph_meta. rewrite Hnil, !lookup_insert_ne by done.
        destruct (_ ≫= _); by rewrite ?lookup_insert_ne. }
      pose proof (build_default_ok meta (Markdown.root parse) Hno) as Hok. by rewrite E in Hok.
    + destruct e as [m|]; [|done]. by exists m.
Qed.
