(* ===== verification/Disk.v ===== *)
(** * Files and memory accounting

    The effects of the staging writer: files, a map from paths to bytes, and the shared
    counters of [SpillMetrics] (src/staging_writer/spill.rs).  An operation takes the world
    and ends with a value and the new world, or aborts.  A file operation fails where the
    path says so (opening or removing a file that is not there); exhausted disks and memory
    are not modelled, nor are directories.  What a [BufWriter] holds is on disk at once:
    the program flushes every writer before it reads the file. *)
From Stdlib Require Import Numbers.DecimalString Numbers.DecimalN Numbers.DecimalPos.
From S2P Require Import Prelude Order Text Json Protocol.

(** ** Counters *)
Record SpillMetrics := { bytes_written : Z; current_bytes : Z; high_water_bytes : Z }.

Definition add_live (bytes : Z) (m : SpillMetrics) : SpillMetrics :=
  let next := saturating_add_u64 (current_bytes m) bytes in {|
  bytes_written := bytes_written m; current_bytes := next;
  high_water_bytes := Z.max (high_water_bytes m) next
|}.
Definition release_live (bytes : Z) (m : SpillMetrics) : SpillMetrics := {|
  bytes_written := bytes_written m;
  current_bytes := saturating_sub_u64 (current_bytes m) bytes;
  high_water_bytes := high_water_bytes m
|}.
Definition add_written (bytes : Z) (m : SpillMetrics) : SpillMetrics := {|
  bytes_written := saturating_add_u64 (bytes_written m) bytes;
  current_bytes := current_bytes m; high_water_bytes := high_water_bytes m
|}.
Definition snapshot (m : SpillMetrics) : Z * Z := (bytes_written m, high_water_bytes m).

(** ** The world and its operations *)
Record World := { disk : gmap string (list Z); metrics : SpillMetrics }.

(** An operation fails with an error of the program, panics on an index out of bounds, or,
    in the model alone, runs out of fuel. *)
Inductive abort := Failed (e : NativeError) | Panicked | OutOfFuel.

Definition IO (A : Type) : Type := World -> result abort (A * World).

#[export] Instance IO_ret : MRet IO := fun A a w => Ok (a, w).
#[export] Instance IO_bind : MBind IO := fun A B k m w =>
  match m w with Ok (a, w') => k a w' | Err e => Err e end.

Definition io_abort {A} (e : abort) : IO A := fun _ => Err e.
Definition io_fail {A} (e : NativeError) : IO A := io_abort (Failed e).
Definition io_try {A} (r : native_result A) : IO A :=
  match r with Ok a => mret a | Err e => io_fail e end.
Definition io_when (c : bool) (m : IO ()) : IO () := if c then m else mret ().

Definition get_metrics : IO SpillMetrics := fun w => Ok (metrics w, w).
Definition account (f : SpillMetrics -> SpillMetrics) : IO () := fun w =>
  Ok ((), {| disk := disk w; metrics := f (metrics w) |}).
Definition set_disk (w : World) (d : gmap string (list Z)) : World :=
  {| disk := d; metrics := metrics w |}.

Definition not_found : NativeError := Io "No such file or directory".

(** [File::create]: an existing file is truncated. *)
Definition create_file (path : string) : IO () := fun w =>
  Ok ((), set_disk w (<[path := []]> (disk w))).
Definition append_file (path : string) (bytes : list Z) : IO () := fun w =>
  match disk w !! path with
  | Some old => Ok ((), set_disk w (<[path := old ++ bytes]> (disk w)))
  | None => Err (Failed not_found)
  end.
(** An open file is what is left to read of it. *)
Definition open_file (path : string) : IO (list Z) := fun w =>
  match disk w !! path with Some bytes => Ok (bytes, w) | None => Err (Failed not_found) end.
Definition remove_file (path : string) : IO () := fun w =>
  match disk w !! path with
  | Some _ => Ok ((), set_disk w (delete path (disk w)))
  | None => Err (Failed not_found)
  end.
(** [fs::metadata(path)?.len()]; also the position of a writer that only appended. *)
Definition file_length (path : string) : IO Z := fun w =>
  match disk w !! path with
  | Some bytes => Ok (Z.of_nat (length bytes), w)
  | None => Err (Failed not_found)
  end.
Definition path_exists (path : string) : IO bool := fun w =>
  Ok (bool_decide (is_Some (disk w !! path)), w).

(** [for x in l { s = f(s, x)?; }] *)
Fixpoint io_fold {S A} (f : S -> A -> IO S) (s : S) (l : list A) : IO S :=
  match l with [] => mret s | x :: l => s' ← f s x; io_fold f s' l end.

(** ** Paths *)
(** [root.join(name)], for a relative [name]. *)
Definition path_join (root name : string) : string :=
  if is_empty root then name
  else if ends_with root "/" then root +:+ name
  else root +:+ "/" +:+ name.

Definition show_N (n : N) : string := NilZero.string_of_uint (N.to_uint n).

Fixpoint zeros (k : nat) : string :=
  match k with 0 => "" | S k => String "0" (zeros k) end.

(** [format!("{n:0width$}")] *)
Definition pad (width : nat) (n : N) : string :=
  let s := show_N n in zeros (width - String.length s) +:+ s.

(** ** Checked sums *)
(** [a.checked_add(b).and_then(|s| s.checked_add(c))...] *)
Definition checked_sum (a : Z) (l : list Z) : option Z :=
  fold_left (fun acc x => acc ≫= fun s => checked_add_u64 s x) l (Some a).

(** ** Running an operation
    [wp m w E Q]: [m], started in [w], ends with [Q], or aborts with [E]. *)
Definition wp {A} (m : IO A) (w : World) (E : abort -> Prop) (Q : A -> World -> Prop) : Prop :=
  match m w with Ok (a, w') => Q a w' | Err e => E e end.

(** Only the files of [R] may have changed. *)
Definition frame (R : string -> Prop) (w w' : World) : Prop :=
  forall p, ~ R p -> disk w' !! p = disk w !! p.

#[export] Instance frame_preorder R : PreOrder (frame R).
Proof. split; [done|]. intros w1 w2 w3 H1 H2 p Hp. rewrite H2, H1; done. Qed.

Lemma frame_weaken (R R' : string -> Prop) w w' :
  (forall p, R p -> R' p) -> frame R w w' -> frame R' w w'.
Proof. intros HR Hf p Hp. apply Hf. auto. Qed.

Lemma frame_lookup R w w' p x :
  frame R w w' -> ~ R p -> disk w !! p = x -> disk w' !! p = x.
Proof. intros Hf Hp <-. by apply Hf. Qed.

Lemma frame_insert R w w' p x :
  disk w' = <[p := x]> (disk w) -> R p -> frame R w w'.
Proof. intros Hd HR q Hq. rewrite Hd, lookup_insert_ne; [done|]. by intros <-. Qed.

Section wp.
Context {E : abort -> Prop}.

Lemma wp_ret {A} (a : A) w Q : Q a w -> wp (mret a) w E Q.
Proof. done. Qed.

Lemma wp_bind {A B} (m : IO A) (k : A -> IO B) w Q :
  wp m w E (fun a w' => wp (k a) w' E Q) -> wp (m ≫= k) w E Q.
Proof. unfold wp, mbind, IO_bind. by destruct (m w) as [[a w']|e]. Qed.

Lemma wp_mono {A} (m : IO A) w (Q Q' : A -> World -> Prop) :
  wp m w E Q -> (forall a w', Q a w' -> Q' a w') -> wp m w E Q'.
Proof. unfold wp. destruct (m w) as [[a w']|e]; auto. Qed.

Lemma wp_try {A} (r : native_result A) a w Q : r = Ok a -> Q a w -> wp (io_try r) w E Q.
Proof. by intros ->. Qed.

Lemma wp_try_err {A} (r : native_result A) e w (Q : A -> World -> Prop) :
  r = Err e -> E (Failed e) -> wp (io_try r) w E Q.
Proof. by intros ->. Qed.

Lemma wp_account f w Q :
  Q () {| disk := disk w; metrics := f (metrics w) |} -> wp (account f) w E Q.
Proof. done. Qed.

Lemma wp_create p w Q : Q () (set_disk w (<[p := []]> (disk w))) -> wp (create_file p) w E Q.
Proof. done. Qed.

Lemma wp_append p bs old w Q :
  disk w !! p = Some old -> Q () (set_disk w (<[p := old ++ bs]> (disk w))) ->
  wp (append_file p bs) w E Q.
Proof. unfold wp, append_file. by intros ->. Qed.

Lemma wp_open p bs w Q : disk w !! p = Some bs -> Q bs w -> wp (open_file p) w E Q.
Proof. unfold wp, open_file. by intros ->. Qed.

Lemma wp_length p bs w Q :
  disk w !! p = Some bs -> Q (Z.of_nat (length bs)) w -> wp (file_length p) w E Q.
Proof. unfold wp, file_length. by intros ->. Qed.

Lemma wp_remove p bs w Q :
  disk w !! p = Some bs -> Q () (set_disk w (delete p (disk w))) -> wp (remove_file p) w E Q.
Proof. unfold wp, remove_file. by intros ->. Qed.

(** A loop with an invariant on the state, what is done and the world. *)
Lemma wp_fold {S A} (I : S -> list A -> World -> Prop) (f : S -> A -> IO S) s l w Q :
  I s [] w ->
  (forall s done x rest w, l = done ++ x :: rest -> I s done w ->
     wp (f s x) w E (fun s' w' => I s' (done ++ [x]) w')) ->
  (forall s' w', I s' l w' -> Q s' w') ->
  wp (io_fold f s l) w E Q.
Proof.
  intros H0 Hstep Hend.
  assert (forall rest done s w, l = done ++ rest -> I s done w -> wp (io_fold f s rest) w E Q) as Hall.
  { induction rest as [|x rest IH]; intros dn t v Hl HI; simpl.
    - apply wp_ret, Hend. by rewrite Hl, app_nil_r.
    - apply wp_bind. eapply wp_mono; [by eapply Hstep|]. simpl. intros t' v' HI'.
      apply (IH (dn ++ [x])); [|done]. by rewrite <- app_assoc. }
  by apply (Hall l []).
Qed.

(** Removing files that are there. *)
Lemma wp_remove_all paths w (Q : () -> World -> Prop) :
  NoDup paths -> (forall p, p ∈ paths -> is_Some (disk w !! p)) ->
  (forall w', (forall p, p ∈ paths -> disk w' !! p = None) ->
     (forall p, p ∉ paths -> disk w' !! p = disk w !! p) -> Q () w') ->
  wp (io_fold (fun _ p => remove_file p) tt paths) w E Q.
Proof.
  intros Hnd Hex HQ.
  apply wp_fold with (I := fun _ gone v => (forall p, p ∈ gone -> disk v !! p = None) /\
    forall p, p ∉ gone -> disk v !! p = disk w !! p).
  - split; [by intros p ?%elem_of_nil|done].
  - intros [] gone p rest v Hl [Hg Hk]. rewrite Hl in Hnd, Hex.
    apply NoDup_app in Hnd as (_ & Hdisj & _).
    assert (p ∉ gone) as Hnew by (intros Hp; apply (Hdisj p Hp); set_solver).
    destruct (Hex p) as [bs Hbs]; [set_solver|].
    eapply wp_remove; [by rewrite Hk|]. simpl. split.
    + intros q [Hq| ->%list_elem_of_singleton]%elem_of_app; [|by rewrite lookup_delete_eq].
      rewrite lookup_delete_ne; [by apply Hg|]. by intros ->.
    + intros q Hq. rewrite lookup_delete_ne by set_solver. apply Hk. set_solver.
  - intros [] v [Hg Hk]. by apply HQ.
Qed.
End wp.

(** ** Path and sum lemmas *)
Lemma path_join_inj root a b : path_join root a = path_join root b -> a = b.
Proof.
  unfold path_join. destruct (is_empty root); [done|].
  destruct (ends_with root "/"); intros Heq; repeat apply app_str_inj_l in Heq; done.
Qed.

Lemma zeros_uint k d :
  zeros k +:+ NilEmpty.string_of_uint d
  = NilEmpty.string_of_uint (Nat.iter k Decimal.D0 d).
Proof. induction k as [|k IH]; [done|]. simpl zeros. rewrite app_str_cons, IH. done. Qed.

Lemma pad_inj width n m : pad width n = pad width m -> n = m.
Proof.
  assert (forall n, show_N n = NilEmpty.string_of_uint (N.to_uint n)) as Hshow.
  { intros [|p]; [done|]. unfold show_N, NilZero.string_of_uint. simpl.
    destruct (Pos.to_uint p) eqn:E; try done. by apply Unsigned.to_uint_nonnil in E. }
  assert (forall k d, N.of_uint (Nat.iter k Decimal.D0 d) = N.of_uint d) as Hz.
  { intros k d. induction k as [|k IH]; [done|]. simpl. by rewrite <- IH. }
  unfold pad. rewrite !Hshow, !zeros_uint. intros Heq.
  apply (f_equal NilEmpty.uint_of_string) in Heq. rewrite !NilEmpty.usu in Heq.
  injection Heq as Heq. apply (f_equal N.of_uint) in Heq. rewrite !Hz in Heq.
  by rewrite !DecimalN.Unsigned.of_to in Heq.
Qed.

Lemma checked_sum_Some a l :
  Forall (fun x => 0 <= x)%Z l -> (foldr Z.add a l <= u64_max)%Z ->
  checked_sum a l = Some (foldr Z.add a l).
Proof.
  assert (forall b l, Forall (fun x => 0 <= x)%Z l -> b <= foldr Z.add b l)%Z as Hge.
  { intros b l'. induction 1; simpl; lia. }
  assert (forall b x l, foldr Z.add (b + x) l = x + foldr Z.add b l)%Z as Hshift.
  { intros b x l'. induction l' as [|y l' IH]; simpl; lia. }
  unfold checked_sum. revert a. induction l as [|x l IH]; intros a Hl Ha; [done|].
  inversion Hl as [|? ? Hx Hl']; subst. simpl in *. rewrite <- Hshift in Ha.
  rewrite (proj2 (checked_add_u64_Some a x _)) by (split; [done|]; specialize (Hge (a + x) l Hl')%Z; lia).
  rewrite IH by done. by rewrite Hshift.
Qed.
