(* ===== verification/SearchModel.v ===== *)
(** * The files of a search index (src/search_index/model.rs, io.rs)

    A search index is six sidecar files next to the database: the lexicon (terms in order,
    each with the place and number of its postings), the postings (documents and term
    frequencies), the documents with the table of their offsets, the table of their lengths,
    and metadata.  A reader takes bytes and gives back a value and what is left of them. *)
From S2P Require Import Prelude Order Text Bytes Json Protocol Disk.

(** ** Constants *)
Definition FORMAT_VERSION : Z := 1.
Definition MAX_DOCUMENT_RECORD_BYTES : Z := (1024 * 1024)%Z.
Definition BACKEND_NAME : string := "disk_bm25_v1".
Definition METADATA_SUFFIX : string := "search.meta.json".
Definition LEXICON_SUFFIX : string := "search.lexicon.bin".
Definition POSTINGS_SUFFIX : string := "search.postings.bin".
Definition DOCUMENTS_SUFFIX : string := "search.documents.bin".
Definition DOCUMENT_OFFSETS_SUFFIX : string := "search.document_offsets.bin".
Definition DOCUMENT_LENGTHS_SUFFIX : string := "search.doc_lengths.bin".
Definition SIDECAR_SUFFIXES : list string :=
  [METADATA_SUFFIX; LEXICON_SUFFIX; POSTINGS_SUFFIX; DOCUMENTS_SUFFIX;
   DOCUMENT_OFFSETS_SUFFIX; DOCUMENT_LENGTHS_SUFFIX].

Definition LEXICON_MAGIC : list Z := str_bytes "CBGLX001".
Definition POSTINGS_MAGIC : list Z := str_bytes "CBGPS001".
Definition DOCUMENTS_MAGIC : list Z := str_bytes "CBGDC001".
Definition DOCUMENT_OFFSETS_MAGIC : list Z := str_bytes "CBGDO001".
Definition DOCUMENT_LENGTHS_MAGIC : list Z := str_bytes "CBGDL001".
Definition OCCURRENCES_MAGIC : list Z := str_bytes "CBGOC001".

Definition POSTING_BYTES : Z := 12.
Definition DOCUMENT_STAT_BYTES : Z := 12.
Definition DOCUMENT_OFFSET_BYTES : Z := 8.

Definition sidecar_path (database_path suffix : string) : string :=
  database_path +:+ "." +:+ suffix.

(** ** Data *)
Inductive SearchLayer := Semantic | Syntax.

#[export] Instance SearchLayer_eq_dec : EqDecision SearchLayer.
Proof. solve_decision. Defined.

Definition from_schema (value : string) : SearchLayer :=
  if decide (value = "syntax") then Syntax else Semantic.
Definition layer_as_str (l : SearchLayer) : string :=
  match l with Semantic => "semantic" | Syntax => "syntax" end.
Definition layer_code (l : SearchLayer) : Z := match l with Semantic => 0 | Syntax => 1 end.
Definition from_code (code : Z) : option SearchLayer :=
  if (code =? 0)%Z then Some Semantic else if (code =? 1)%Z then Some Syntax else None.

Record SidecarFileMetadata := {
  file_backend : string;
  file_format_version : Z;
  file_document_count : Z;
  file_term_count : Z;
  file_total_tokens : Z
}.

Record SearchDocument := {
  doc_id : string;
  doc_node_type : string;
  doc_index_order : Z;
  doc_layer : SearchLayer
}.

Record LexiconEntry := {
  lex_term : string;
  lex_postings_offset : Z;
  lex_document_frequency : Z
}.

Record DocumentStat := { stat_length : Z; stat_index_order : Z; stat_layer : SearchLayer }.

Record StagedNode := {
  sn_id : string;
  sn_label : string;
  sn_path : string;
  sn_qualified_name : string;
  sn_summary : string;
  sn_text : string;
  sn_tree_sitter_node_type : string
}.

Definition staged_field (n : StagedNode) (name : string) : string :=
  if decide (name = "label") then sn_label n
  else if decide (name = "path") then sn_path n
  else if decide (name = "qualified_name") then sn_qualified_name n
  else if decide (name = "summary") then sn_summary n
  else if decide (name = "text") then sn_text n
  else if decide (name = "tree_sitter_node_type") then sn_tree_sitter_node_type n
  else "".

(** The encodings are serde_json's, the digest is that of the sha2 crate.
    [decode_staged_nodes] gives the nodes before the end of the array, or before the first
    error, and how decoding ends. *)
Class SearchCodecs := {
  encode_document : SearchDocument -> native_result (list Z);
  decode_document : list Z -> native_result SearchDocument;
  encode_metadata : SidecarFileMetadata -> native_result string;
  decode_metadata : list Z -> native_result SidecarFileMetadata;
  decode_staged_nodes : list Z -> list StagedNode * native_result ();
  sha256_hex : list Z -> string
}.

(** ** Reading *)
Definition unexpected_end : NativeError := Io "failed to fill whole buffer".
Definition invalid (message : string) : NativeError := InvalidInput message.

(** [Read::read_exact] *)
Definition read_exact (n : nat) (bytes : list Z) : native_result (list Z * list Z) :=
  if Nat.ltb (length bytes) n then Err unexpected_end else Ok (take n bytes, drop n bytes).

(** [Seek::seek] to a position from the start. *)
Definition seek (file : list Z) (offset : Z) : list Z := drop (Z.to_nat offset) file.

Open Scope rust_scope.

Definition read_magic (bytes expected : list Z) : native_result (list Z) :=
  let? (actual, rest) := read_exact 8 bytes in
  if decide (actual = expected) then Ok rest
  else Err (invalid ("search sidecar has invalid file header: expected "
                     +:+ from_utf8_lossy expected +:+ ", found " +:+ from_utf8_lossy actual)).

Definition read_u32 (bytes : list Z) : native_result (Z * list Z) :=
  let? (b, rest) := read_exact 4 bytes in Ok (from_le b, rest).

(** Less than four bytes are the end of the file. *)
Definition read_optional_u32 (bytes : list Z) : option (Z * list Z) :=
  match read_exact 4 bytes with Ok (b, rest) => Some (from_le b, rest) | Err _ => None end.

Definition read_u64 (bytes : list Z) : native_result (Z * list Z) :=
  let? (b, rest) := read_exact 8 bytes in Ok (from_le b, rest).

Definition exceeds (what : string) (length limit : Z) : NativeError :=
  invalid (what +:+ show_Z length +:+ " > " +:+ show_Z limit).

Section Codecs.
Context `{SearchCodecs}.

Definition read_document_at (file : list Z) (offset max_record_bytes : Z)
    : native_result SearchDocument :=
  let? (length, rest) := read_u32 (seek file offset) in
  if (max_record_bytes <? length)%Z then
    Err (exceeds "search document record exceeds configured read limit: " length max_record_bytes)
  else
    let? (encoded, _) := read_exact (Z.to_nat length) rest in
    decode_document encoded.

(** The offset of the record. *)
Definition write_document (path : string) (document : SearchDocument) : IO Z :=
  encoded ← io_try (encode_document document);
  if (MAX_DOCUMENT_RECORD_BYTES <? Z.of_nat (length encoded))%Z then
    io_fail (invalid "search document exceeds sidecar read-format length")
  else
    offset ← file_length path;
    _ ← append_file path (to_le 4 (Z.of_nat (length encoded)));
    _ ← append_file path encoded;
    mret offset.
End Codecs.

Definition write_u32 (path : string) (v : Z) : IO () := append_file path (to_le 4 v).
Definition write_u64 (path : string) (v : Z) : IO () := append_file path (to_le 8 v).

Definition write_document_stat (path : string) (stat : DocumentStat) : IO () :=
  _ ← write_u32 path (stat_length stat);
  _ ← write_u32 path (stat_index_order stat);
  append_file path [layer_code (stat_layer stat); 0; 0; 0]%Z.

Definition checked_mul_u64 (a b : Z) : option Z :=
  if decide (a * b <= u64_max)%Z then Some (a * b)%Z else None.

Definition stat_offset (header_bytes document_id : Z) : option Z :=
  checked_mul_u64 document_id DOCUMENT_STAT_BYTES ≫= fun v => checked_add_u64 v header_bytes.

Definition read_document_stat_at (file : list Z) (header_bytes document_id : Z)
    : native_result DocumentStat :=
  let? offset := ok_or (invalid "search document-stat offset overflow")
                   (stat_offset header_bytes document_id) in
  let? (length, rest) := read_u32 (seek file offset) in
  let? (index_order, rest) := read_u32 rest in
  let? (layer, _) := read_exact 4 rest in
  let code := default 0%Z (head layer) in
  let? layer := ok_or (invalid ("invalid search document layer code " +:+ show_Z code))
                  (from_code code) in
  Ok {| stat_length := length; stat_index_order := index_order; stat_layer := layer |}.

Definition write_lexicon_entry (path : string) (entry : LexiconEntry) : IO () :=
  let length := Z.of_nat (String.length (lex_term entry)) in
  if (u32_max <? length)%Z then io_fail (invalid "search lexicon term length exceeds u32")
  else
    _ ← write_u32 path length;
    _ ← append_file path (str_bytes (lex_term entry));
    _ ← write_u64 path (lex_postings_offset entry);
    write_u32 path (lex_document_frequency entry).

(** A string of [length] bytes. *)
Definition read_text (what_long what_utf8 : string) (length max_term_bytes : Z) (bytes : list Z)
    : native_result (string * list Z) :=
  if (max_term_bytes <? length)%Z then Err (exceeds what_long length max_term_bytes)
  else
    let? (text, rest) := read_exact (Z.to_nat length) bytes in
    match from_utf8 text with
    | Ok s => Ok (s, rest)
    | Err e => Err (invalid (what_utf8 +:+ show_utf8_error e))
    end.

Definition read_lexicon_entry (bytes : list Z) (max_term_bytes : Z)
    : native_result (option (LexiconEntry * list Z)) :=
  match read_optional_u32 bytes with
  | None => Ok None
  | Some (length, rest) =>
      let? (term, rest) := read_text "search lexicon term exceeds limit: "
                             "invalid UTF-8 search term: " length max_term_bytes rest in
      let? (offset, rest) := read_u64 rest in
      let? (frequency, rest) := read_u32 rest in
      Ok (Some ({| lex_term := term; lex_postings_offset := offset;
                   lex_document_frequency := frequency |}, rest))
  end.
