(* ===== verification/Float64.v ===== *)
(** * [f64]

    Binary64 numbers by their specification in the Standard Library ([SpecFloat], rounding
    to nearest, ties to even).  [f64_round] is [f64::round], which rounds half-way cases
    away from zero.  The logarithm is a parameter: its precision is up to the platform. *)
From Stdlib Require Import Floats.SpecFloat.
From S2P Require Import Prelude Order.

Abbreviation f64 := spec_float.

Definition f64_prec : Z := 53.
Definition f64_emax : Z := 1024.
Definition f64_add : f64 -> f64 -> f64 := SFadd f64_prec f64_emax.
Definition f64_sub : f64 -> f64 -> f64 := SFsub f64_prec f64_emax.
Definition f64_mul : f64 -> f64 -> f64 := SFmul f64_prec f64_emax.
Definition f64_div : f64 -> f64 -> f64 := SFdiv f64_prec f64_emax.
Definition f64_partial_cmp : f64 -> f64 -> option comparison := SFcompare.
Definition f64_zero : f64 := S754_zero false.

(** [n as f64] *)
Definition f64_of_Z (n : Z) : f64 := binary_normalize f64_prec f64_emax n 0 false.
(** A decimal literal: the quotient of two exact integers, correctly rounded. *)
Definition f64_literal (n d : Z) : f64 := f64_div (f64_of_Z n) (f64_of_Z d).

Definition f64_round (x : f64) : f64 :=
  match x with
  | S754_finite s m e =>
      if (0 <=? e)%Z then x
      else
        let q := Z.shiftl 1 (- e) in
        let n := ((2 * Z.pos m + q) / (2 * q))%Z in
        binary_normalize f64_prec f64_emax (if s then - n else n)%Z 0 s
  | _ => x
  end.

Class Libm := f64_ln : f64 -> f64.

Definition is_nan (x : f64) : bool := match x with S754_nan => true | _ => false end.

Example f64_round_values :
  f64_round (f64_literal 5 2) = f64_of_Z 3 /\ f64_round (f64_literal (-5) 2) = f64_of_Z (-3) /\
  f64_round (f64_literal 12 5) = f64_of_Z 2 /\ f64_round (f64_literal (-3) 10) = S754_zero true.
Proof. by vm_compute. Qed.

(** ** The order of numbers that are not NaN *)
(** Where a number stands: its sign, then its magnitude. *)
Definition f64_rank (x : f64) : Z * (Z * Z) :=
  match x with
  | S754_infinity true => (-2, (0, 0))
  | S754_finite true m e => (-1, (- e, Z.neg m))
  | S754_zero _ | S754_nan => (0, (0, 0))
  | S754_finite false m e => (1, (e, Z.pos m))
  | S754_infinity false => (2, (0, 0))
  end%Z.

Lemma f64_partial_cmp_rank x y :
  is_nan x = false -> is_nan y = false -> f64_partial_cmp x y = Some (cmp (f64_rank x) (f64_rank y)).
Proof.
  unfold f64_partial_cmp.
  destruct x as [[|]|[|]| |[|] m1 e1], y as [[|]|[|]| |[|] m2 e2]; intros Hx Hy; try done.
  - simpl. rewrite !cmp_prod. unfold cmp, Ord_Z. rewrite Z.compare_refl. simpl.
    rewrite (Z.compare_opp e1 e2), (Z.compare_antisym e1 e2).
    destruct (Z.compare_spec e1 e2) as [->|?|?]; simpl; try done.

  - simpl. rewrite !cmp_prod. unfold cmp, Ord_Z. rewrite Z.compare_refl. simpl.
    destruct (Z.compare_spec e1 e2) as [->|?|?]; simpl; try done.
Qed.
