(* ===== verification/Spill.v ===== *)
(** * External sorting (src/staging_writer/spill.rs)

    Records are buffered up to a byte limit, written as sorted runs of length-prefixed
    encodings, and merged back through a heap, at most [MAX_MERGE_FAN_IN] runs at a time. *)
From S2P Require Import Prelude Order Text Json Protocol Disk.

Definition MAX_MERGE_FAN_IN : nat := 32.
Definition LENGTH_PREFIX_BYTES : Z := 4.

(** Encoding a record and decoding it are serde_json's; the capacity of the vector it
    wrote and the sizes of the structures are the compiler's and the allocator's. *)
Class RecordCodec (T : Type) := {
  encode_record : T -> native_result (list Z);
  decode_record : list Z -> native_result T
}.
Class MemoryLayout (T : Type) := {
  vec_capacity : list Z -> Z;
  buffered_record_size : Z;
  heap_item_size : Z
}.
(** The trait [SpillRecord]. *)
Class SpillRecord (T K : Type) := { sort_key : T -> K; key_bytes : K -> Z }.

Record BufferedRecord (K : Type) := { buffered_key : K; buffered_encoded : list Z }.
Arguments buffered_key {K}.
Arguments buffered_encoded {K}.

Record SortedSpool (K : Type) := {
  spool_root : string;
  spool_prefix : string;
  spool_chunk_limit : Z;
  buffered : list (BufferedRecord K);
  buffered_bytes : Z;
  runs : list string;
  next_run : N
}.
Arguments spool_root {K}.
Arguments spool_prefix {K}.
Arguments spool_chunk_limit {K}.
Arguments buffered {K}.
Arguments buffered_bytes {K}.
Arguments runs {K}.
Arguments next_run {K}.

Record HeapItem (T K : Type) := {
  item_key : K;
  reader_index : nat;
  item_encoded : list Z;
  item_record : T;
  accounted_bytes : Z
}.
Arguments item_key {T K}.
Arguments reader_index {T K}.
Arguments item_encoded {T K}.
Arguments item_record {T K}.
Arguments accounted_bytes {T K}.

(** A reader is what is left of its file. *)
Record SortedStream (T K : Type) := {
  readers : list (list Z);
  heap : list (HeapItem T K);
  heap_bytes : Z;
  outstanding_bytes : Z;
  pending_reader : option nat;
  input_paths : list string;
  cleanup_when_exhausted : bool
}.
Arguments readers {T K}.
Arguments heap {T K}.
Arguments heap_bytes {T K}.
Arguments outstanding_bytes {T K}.
Arguments pending_reader {T K}.
Arguments input_paths {T K}.
Arguments cleanup_when_exhausted {T K}.

(** ** Encoded records *)
(** [(length as u32).to_le_bytes()] and [u32::from_le_bytes] *)
Definition u32_to_le (n : Z) : list Z :=
  [n mod 256; n / 256 mod 256; n / 65536 mod 256; n / 16777216 mod 256]%Z.
Definition u32_from_le (l : list Z) : Z := foldr (fun b acc => b + 256 * acc)%Z 0%Z l.

Definition write_encoded (path : string) (encoded : list Z) : IO () :=
  let length := Z.of_nat (length encoded) in
  if (u32_max <? length)%Z then
    io_fail (InvalidInput "spill record exceeds u32 encoding length")
  else
    _ ← append_file path (u32_to_le length);
    _ ← append_file path encoded;
    account (add_written (LENGTH_PREFIX_BYTES + length)).

Definition unexpected_eof : NativeError := Io "failed to fill whole buffer".

(** The record and what is left of the file. *)
Definition read_record (bytes : list Z) : native_result (option (list Z * list Z)) :=
  match bytes with
  | [] => Ok None
  | b0 :: b1 :: b2 :: b3 :: rest =>
      let length := u32_from_le [b0; b1; b2; b3] in
      if (Z.of_nat (List.length rest) <? length)%Z then Err unexpected_eof
      else Ok (Some (take (Z.to_nat length) rest, drop (Z.to_nat length) rest))
  | _ => Err unexpected_eof
  end.

Section Spill.
Context {T K : Type} `{Ord K} `{RecordCodec T} `{MemoryLayout T} `{SpillRecord T K}.

Local Abbreviation SortedSpool := (SortedSpool K).
Local Abbreviation SortedStream := (SortedStream T K).
Local Abbreviation HeapItem := (HeapItem T K).

(** ** The spool *)
Definition new_spool (root prefix : string) (chunk_limit : Z) : IO SortedSpool :=
  if (chunk_limit =? 0)%Z then io_fail (InvalidInput "spill chunk target must be positive")
  else mret {| spool_root := root; spool_prefix := prefix; spool_chunk_limit := chunk_limit;
               buffered := []; buffered_bytes := 0; runs := []; next_run := 0 |}.

Definition run_path (root prefix kind : string) (index : N) : string :=
  path_join root (prefix +:+ "-" +:+ kind +:+ "-" +:+ pad 8 index +:+ ".bin").

(** The next path, and the spool after taking it. *)
Definition next_path (kind : string) (s : SortedSpool) : string * SortedSpool :=
  (run_path (spool_root s) (spool_prefix s) kind (next_run s),
   {| spool_root := spool_root s; spool_prefix := spool_prefix s;
      spool_chunk_limit := spool_chunk_limit s; buffered := buffered s;
      buffered_bytes := buffered_bytes s; runs := runs s;
      next_run := N.min (next_run s + 1) (Z.to_N u64_max) |}).

Definition with_buffer (s : SortedSpool) (b : list (BufferedRecord K)) (bytes : Z) : SortedSpool := {|
  spool_root := spool_root s; spool_prefix := spool_prefix s;
  spool_chunk_limit := spool_chunk_limit s; buffered := b; buffered_bytes := bytes;
  runs := runs s; next_run := next_run s
|}.
Definition with_runs (s : SortedSpool) (rs : list string) : SortedSpool := {|
  spool_root := spool_root s; spool_prefix := spool_prefix s;
  spool_chunk_limit := spool_chunk_limit s; buffered := buffered s;
  buffered_bytes := buffered_bytes s; runs := rs; next_run := next_run s
|}.

Definition write_all (path : string) (encodings : list (list Z)) : IO () :=
  io_fold (fun _ e => write_encoded path e) tt encodings.

Definition flush (s : SortedSpool) : IO SortedSpool :=
  match buffered s with
  | [] => mret s
  | _ =>
      let sorted := sort_by_key buffered_key (buffered s) in
      let (path, s) := next_path "run" s in
      _ ← create_file path;
      _ ← write_all path (buffered_encoded <$> sorted);
      let s := with_runs s (runs s ++ [path]) in
      let released_bytes := buffered_bytes s in
      _ ← account (release_live released_bytes);
      mret (with_buffer s [] 0)
  end.

Definition size_overflow : NativeError := InvalidInput "spill record size overflow".

Definition record_bytes (key : K) (encoded : list Z) : native_result Z :=
  ok_or size_overflow
    (checked_sum (vec_capacity encoded) [key_bytes key; LENGTH_PREFIX_BYTES; buffered_record_size]).

Definition push (s : SortedSpool) (record : T) : IO SortedSpool :=
  encoded ← io_try (encode_record record);
  let key := sort_key record in
  bytes ← io_try (record_bytes key encoded);
  next_bytes ← io_try (ok_or size_overflow (checked_add_u64 (buffered_bytes s) bytes));
  _ ← account (add_live bytes);
  s ← (if negb (list_is_empty (buffered s)) && (spool_chunk_limit s <? next_bytes)%Z
       then flush s else mret s);
  let b := buffered s ++ [{| buffered_key := key; buffered_encoded := encoded |}] in
  next_bytes ← io_try (ok_or size_overflow (checked_add_u64 (buffered_bytes s) bytes));
  let s := with_buffer s b next_bytes in
  if (spool_chunk_limit s <=? buffered_bytes s)%Z then flush s else mret s.

(** ** The stream *)
(** [Ord for HeapItem]: the greatest item has the smallest key, then the smallest index. *)
Definition heap_cmp (x y : HeapItem) : comparison :=
  then_with (cmp (item_key y) (item_key x)) (cmp (reader_index y) (reader_index x)).

Definition heap_item_bytes (key : K) (encoded : list Z) : native_result Z :=
  ok_or (InvalidInput "merge record size overflow")
    (checked_sum (Z.of_nat (length encoded))
       [Z.of_nat (length encoded); key_bytes key; heap_item_size]).

(** The record that reader [index] gave, into the heap. *)
Definition heap_push (st : SortedStream) (index : nat) (encoded : list Z) : IO SortedStream :=
  record ← io_try (decode_record encoded);
  let key := sort_key record in
  accounted ← io_try (heap_item_bytes key encoded);
  next_heap_bytes ← io_try (ok_or (InvalidInput "merge accounting overflow")
                              (checked_add_u64 (heap_bytes st) accounted));
  _ ← account (add_live accounted);
  mret {| readers := readers st;
          heap := {| item_key := key; reader_index := index; item_encoded := encoded;
                     item_record := record; accounted_bytes := accounted |} :: heap st;
          heap_bytes := next_heap_bytes; outstanding_bytes := outstanding_bytes st;
          pending_reader := pending_reader st; input_paths := input_paths st;
          cleanup_when_exhausted := cleanup_when_exhausted st |}.

Definition with_readers (st : SortedStream) (rs : list (list Z)) : SortedStream := {|
  readers := rs; heap := heap st; heap_bytes := heap_bytes st;
  outstanding_bytes := outstanding_bytes st; pending_reader := pending_reader st;
  input_paths := input_paths st; cleanup_when_exhausted := cleanup_when_exhausted st
|}.

(** One file of [SortedStream::open]; its index is the number of readers so far. *)
Definition open_reader (st : SortedStream) (path : string) : IO SortedStream :=
  bytes ← open_file path;
  next ← io_try (read_record bytes);
  match next with
  | Some (encoded, rest) =>
      st' ← heap_push st (length (readers st)) encoded;
      mret (with_readers st' (readers st' ++ [rest]))
  | None => mret (with_readers st (readers st ++ [bytes]))
  end.

Definition open_stream (paths : list string) (cleanup : bool) : IO SortedStream :=
  io_fold open_reader
    {| readers := []; heap := []; heap_bytes := 0; outstanding_bytes := 0;
       pending_reader := None; input_paths := paths; cleanup_when_exhausted := cleanup |} paths.

Definition with_outstanding (st : SortedStream) (bytes : Z) (pending : option nat)
    : SortedStream := {|
  readers := readers st; heap := heap st; heap_bytes := heap_bytes st;
  outstanding_bytes := bytes; pending_reader := pending;
  input_paths := input_paths st; cleanup_when_exhausted := cleanup_when_exhausted st
|}.

(** The next record of the reader whose record was handed out last. *)
Definition refill (st : SortedStream) : IO SortedStream :=
  match pending_reader st with
  | None => mret st
  | Some index =>
      let st := with_outstanding st (outstanding_bytes st) None in
      match readers st !! index with
      | None => io_abort Panicked
      | Some bytes =>
          next ← io_try (read_record bytes);
          match next with
          | Some (encoded, rest) => heap_push (with_readers st (<[index := rest]> (readers st))) index encoded
          | None => mret st
          end
      end
  end.

Definition remove_if_exists (path : string) : IO () :=
  exists_ ← path_exists path; io_when exists_ (remove_file path).

Definition cleanup_inputs (st : SortedStream) : IO SortedStream :=
  _ ← io_fold (fun _ p => remove_if_exists p) tt (input_paths st);
  mret {| readers := []; heap := heap st; heap_bytes := heap_bytes st;
          outstanding_bytes := outstanding_bytes st; pending_reader := pending_reader st;
          input_paths := []; cleanup_when_exhausted := cleanup_when_exhausted st |}.

Definition next_encoded (st : SortedStream) : IO (option HeapItem * SortedStream) :=
  st ← (if (0 <? outstanding_bytes st)%Z then
          _ ← account (release_live (outstanding_bytes st));
          mret (with_outstanding st 0 (pending_reader st))
        else mret st);
  st ← refill st;
  match heap_pop heap_cmp (heap st) with
  | None =>
      st ← (if cleanup_when_exhausted st then cleanup_inputs st else mret st);
      mret (None, st)
  | Some (item, h) =>
      mret (Some item,
        {| readers := readers st; heap := h;
           heap_bytes := saturating_sub_u64 (heap_bytes st) (accounted_bytes item);
           outstanding_bytes := accounted_bytes item;
           pending_reader := Some (reader_index item); input_paths := input_paths st;
           cleanup_when_exhausted := cleanup_when_exhausted st |})
  end.

Definition next (st : SortedStream) : IO (option T * SortedStream) :=
  r ← next_encoded st; mret (item_record <$> r.1, r.2).

(** [while let Some(item) = stream.next_encoded()? { s = f(s, item)?; }] *)
Fixpoint for_each_item {S} (fuel : nat) (f : S -> HeapItem -> IO S) (s : S) (st : SortedStream)
    : IO (S * SortedStream) :=
  match fuel with
  | 0 => io_abort OutOfFuel
  | Datatypes.S fuel =>
      r ← next_encoded st;
      match r.1 with
      | None => mret (s, r.2)
      | Some item => s' ← f s item; for_each_item fuel f s' r.2
      end
  end.

(** Every item handed out takes a heap item or at least four bytes of a file. *)
Definition stream_fuel (st : SortedStream) : nat :=
  1 + length (heap st) + sum_list (length <$> readers st).

(** [Drop for SortedStream] *)
Definition drop_stream (st : SortedStream) : IO () :=
  _ ← account (release_live (saturating_add_u64 (heap_bytes st) (outstanding_bytes st)));
  io_when (cleanup_when_exhausted st) (io_fold (fun _ p => remove_if_exists p) tt (input_paths st)).

(** ** Merging *)
Definition merge_run_group (inputs : list string) (output : string) : IO string :=
  stream ← open_stream inputs false;
  _ ← create_file output;
  r ← for_each_item (stream_fuel stream) (fun _ item => write_encoded output (item_encoded item))
        tt stream;
  _ ← drop_stream r.2;
  _ ← io_fold (fun _ p => remove_file p) tt inputs;
  mret output.

(** [runs.chunks(n)] *)
Fixpoint chunks_fuel {A} (fuel n : nat) (l : list A) : list (list A) :=
  match fuel, l with
  | _, [] => []
  | 0, _ => [l]
  | S fuel, _ => take n l :: chunks_fuel fuel n (drop n l)
  end.
Definition chunks {A} (n : nat) (l : list A) : list (list A) := chunks_fuel (length l) n l.

Definition merge_group (acc : list string * SortedSpool) (group : list string)
    : IO (list string * SortedSpool) :=
  match group with
  | [path] => mret (acc.1 ++ [path], acc.2)
  | _ =>
      let (output, s) := next_path "merge" acc.2 in
      merged ← merge_run_group group output;
      mret (acc.1 ++ [merged], s)
  end.

Definition merge_level (rs : list string) (s : SortedSpool) : IO (list string * SortedSpool) :=
  io_fold merge_group ([], s) (chunks MAX_MERGE_FAN_IN rs).

(** [while runs.len() > MAX_MERGE_FAN_IN { runs = self.merge_level(runs)?; }] *)
Fixpoint merge_levels (fuel : nat) (rs : list string) (s : SortedSpool) : IO (list string) :=
  if Nat.leb (length rs) MAX_MERGE_FAN_IN then mret rs
  else match fuel with
       | 0 => io_abort OutOfFuel
       | S fuel => r ← merge_level rs s; merge_levels fuel r.1 r.2
       end.

Definition finish_spool (s : SortedSpool) : IO SortedStream :=
  s ← flush s;
  let rs := runs s in
  rs ← merge_levels (length rs) rs (with_runs s []);
  open_stream rs true.
End Spill.
