(* ===== verification/StreamLaws.v ===== *)
(** * Merging streams yield the sorted records

    What a [SortedStream] holds: per reader, the records still to come, of which the first
    is in the heap unless the reader is pending.  [yields st l] says that [st] hands out
    exactly [l]; the laws below are all that the clients of a stream use. *)
From S2P Require Import Prelude Order Text Json Protocol Disk Spill.

Section Stream.
Context {T K : Type} `{OrdLaws K} `{RecordCodec T} `{MemoryLayout T} `{SpillRecord T K}.
Context {E : abort -> Prop}.
Implicit Types (r : T) (st : Spill.SortedStream T K) (i : nat) (w : World).

Local Abbreviation SortedStream := (SortedStream T K).
Local Abbreviation HeapItem := (HeapItem T K).
Local Abbreviation sorted := (SortedBy (fun x y : T => le_b (sort_key x) (sort_key y))).
Local Abbreviation sorting := (sort_by_key (A := T) (K := K) sort_key).

(** ** Encodings *)
Definition enc r : list Z := match encode_record r with Ok b => b | Err _ => [] end.
Definition framed (bytes : list Z) : list Z := u32_to_le (Z.of_nat (length bytes)) ++ bytes.
(** A run file. *)
Definition run_bytes (l : list T) : list Z := concat ((fun r => framed (enc r)) <$> l).

Definition item_bytes r : Z :=
  foldr Z.add (Z.of_nat (length (enc r)))
    [Z.of_nat (length (enc r)); key_bytes (sort_key r); heap_item_size].
Definition buffer_bytes r : Z :=
  foldr Z.add (vec_capacity (enc r)) [key_bytes (sort_key r); LENGTH_PREFIX_BYTES; buffered_record_size].

(** The record encodes, decodes to itself, and is small enough for the checked sums. *)
Record fits (limit : Z) r : Prop := {
  fits_encode : encode_record r = Ok (enc r);
  fits_decode : decode_record (enc r) = Ok r;
  fits_length : (Z.of_nat (length (enc r)) <= u32_max)%Z;
  fits_capacity : (0 <= vec_capacity (enc r))%Z;
  fits_key : (0 <= key_bytes (sort_key r))%Z;
  fits_sizes : (0 <= buffered_record_size)%Z /\ (0 <= heap_item_size)%Z;
  fits_buffer : (limit + buffer_bytes r <= u64_max)%Z;
  fits_heap : (Z.of_nat MAX_MERGE_FAN_IN * item_bytes r <= u64_max)%Z
}.

Lemma u32_le_roundtrip n : (0 <= n <= u32_max)%Z -> u32_from_le (u32_to_le n) = n.
Proof.
  unfold u32_max, u32_from_le, u32_to_le. simpl. intros Hn.
  Z.to_euclidean_division_equations. lia.
Qed.

Lemma read_record_framed bytes rest :
  (Z.of_nat (length bytes) <= u32_max)%Z ->
  read_record (framed bytes ++ rest) = Ok (Some (bytes, rest)).
Proof.
  intros Hl. pose proof (u32_le_roundtrip (Z.of_nat (length bytes))) as Hr.
  unfold framed, u32_to_le, read_record in *. simpl app. cbv beta iota zeta. rewrite Hr by lia.
  rewrite length_app. destruct (Z.ltb_spec (Z.of_nat (length bytes + length rest)) (Z.of_nat (length bytes))); [lia|].
  by rewrite Nat2Z.id, take_app_length, drop_app_length.
Qed.

Lemma length_run_bytes l : length l <= length (run_bytes l).
Proof.
  unfold run_bytes. induction l as [|r l IH]; [done|]. rewrite fmap_cons, concat_cons, length_app.
  unfold framed at 1. rewrite length_app. simpl in *. lia.
Qed.

(** ** Heaps *)
Definition item_of i r : HeapItem := {|
  item_key := sort_key r; reader_index := i; item_encoded := enc r; item_record := r;
  accounted_bytes := item_bytes r
|}.

Definition heap_key (x : HeapItem) : K * nat := (item_key x, reader_index x).

Lemma stream_pop (h : list HeapItem) (x : HeapItem) h' :
  heap_pop heap_cmp h = Some (x, h') ->
  h ≡ₚ x :: h' /\ forall y, y ∈ h' -> le_b (heap_key x) (heap_key y) = true.
Proof. by apply heap_pop_Some. Qed.

Definition sum_bytes (h : list HeapItem) : Z := foldr (fun x s => accounted_bytes x + s)%Z 0%Z h.

#[local] Instance sum_bytes_proper : Proper ((≡ₚ) ==> (=)) sum_bytes.
Proof. intros h1 h2. unfold sum_bytes. induction 1; simpl; lia. Qed.

Lemma sum_bytes_bound (h : list HeapItem) b :
  Forall (fun x => accounted_bytes x <= b)%Z h -> (sum_bytes h <= Z.of_nat (length h) * b)%Z.
Proof. induction 1 as [|x h Hx Hh IH]; simpl; [lia|]. lia. Qed.

Lemma sum_bytes_nonneg (h : list HeapItem) :
  (forall x, x ∈ h -> (0 <= accounted_bytes x)%Z) -> (0 <= sum_bytes h)%Z.
Proof.
  induction h as [|x h IH]; intros Hx; simpl; [lia|].
  pose proof (Hx x (list_elem_of_here _ _)). assert (0 <= sum_bytes h)%Z by (apply IH; set_solver). lia.
Qed.

Lemma item_bytes_nonneg r : fits 0 r -> (0 <= item_bytes r)%Z.
Proof. intros []. unfold item_bytes. simpl. lia. Qed.

(** ** What a stream holds *)
Definition head_items i (c : bool * list T) : list HeapItem :=
  match c with (true, r :: _) => [item_of i r] | _ => [] end.
Fixpoint heads_from i (cs : list (bool * list T)) : list HeapItem :=
  match cs with [] => [] | c :: cs => head_items i c ++ heads_from (S i) cs end.
Definition unread (c : bool * list T) : list Z := run_bytes (if c.1 then tail c.2 else c.2).
Definition contents (cs : list (bool * list T)) : list T := concat (snd <$> cs).

Record holds (st : SortedStream) (cs : list (bool * list T)) : Prop := {
  st_readers : readers st = unread <$> cs;
  st_heap : heap st ≡ₚ heads_from 0 cs;
  st_bytes : heap_bytes st = sum_bytes (heap st);
  st_pending i c : cs !! i = Some (false, c) -> pending_reader st = Some i;
  st_loaded i : pending_reader st = Some i -> exists c, cs !! i = Some (false, c);
  st_few : length cs <= MAX_MERGE_FAN_IN;
  st_fits c : c ∈ cs -> Forall (fits 0) c.2 /\ sorted c.2
}.

Definition yields (st : SortedStream) (l : list T) : Prop :=
  exists cs, holds st cs /\ l = sorting (contents cs).

Lemma heads_from_app i cs1 cs2 :
  heads_from i (cs1 ++ cs2) = heads_from i cs1 ++ heads_from (i + length cs1) cs2.
Proof.
  revert i. induction cs1 as [|c cs1 IH]; intros i; simpl; [by rewrite Nat.add_0_r|].
  by rewrite IH, <- app_assoc, Nat.add_succ_r.
Qed.

Lemma elem_of_heads_from i cs z :
  z ∈ heads_from i cs <-> exists pre x c post,
    cs = pre ++ (true, x :: c) :: post /\ z = item_of (i + length pre) x.
Proof.
  revert i. induction cs as [|d cs IH]; intros i; simpl.
  - split; [by intros ?%elem_of_nil|]. intros (pre & x & c & post & Heq & _).
    by destruct pre.
  - rewrite elem_of_app, IH. split.
    + intros [Hz|(pre & x & c & post & -> & ->)].
      * destruct d as [[|] [|x c]]; try by apply elem_of_nil in Hz.
        apply list_elem_of_singleton in Hz as ->. exists [], x, c, cs. simpl.
        by rewrite Nat.add_0_r.
      * exists (d :: pre), x, c, post. split; [done|]. simpl. by rewrite Nat.add_succ_r.
    + intros ([|d' pre] & x & c & post & Heq & ->); injection Heq as -> ->.
      * left. simpl. rewrite Nat.add_0_r. apply list_elem_of_here.
      * right. exists pre, x, c, post. split; [done|]. simpl. by rewrite Nat.add_succ_r.
Qed.

Lemma length_heads_from i cs : length (heads_from i cs) <= length cs.
Proof.
  revert i. induction cs as [|[[|] [|x c]] cs IH]; intros i; simpl; [lia|..]; specialize (IH (S i)); lia.
Qed.

(** More fuel than records. *)
Lemma yields_fuel st l : yields st l -> length l < stream_fuel st.
Proof.
  intros (cs & Hh & ->). unfold sort_by_key. rewrite length_sort_by. unfold stream_fuel.
  rewrite (st_readers _ _ Hh), (Permutation_length (st_heap _ _ Hh)). unfold contents.
  assert (forall i, length (concat (snd <$> cs)) <=
            length (heads_from i cs) + sum_list (length <$> (unread <$> cs))) as Hle.
  2: { specialize (Hle 0). lia. }
  clear. induction cs as [|[b c] cs IH]; intros i; [done|]. specialize (IH (S i)).
  rewrite !fmap_cons, concat_cons. cbn [heads_from sum_list snd]. rewrite !length_app.
  assert (length c <= length (head_items i (b, c)) + length (unread (b, c))); [|unfold id in *; lia].
  unfold unread. destruct b; simpl; [|pose proof (length_run_bytes c); lia].
  destruct c as [|x c]; simpl; [lia|]. pose proof (length_run_bytes c). lia.
Qed.

(** ** Steps *)
Definition add_item (st : SortedStream) i r : SortedStream := {|
  readers := readers st; heap := item_of i r :: heap st;
  heap_bytes := heap_bytes st + item_bytes r;
  outstanding_bytes := outstanding_bytes st; pending_reader := pending_reader st;
  input_paths := input_paths st; cleanup_when_exhausted := cleanup_when_exhausted st
|}.

Lemma wp_heap_push st i r w :
  fits 0 r -> (heap_bytes st + item_bytes r <= u64_max)%Z ->
  wp (heap_push st i (enc r)) w E (fun st' w' => st' = add_item st i r /\ disk w' = disk w).
Proof.
  intros Hr Hb. unfold heap_push. destruct Hr as [He Hd Hl _ Hk [_ Hs] _ Hh].
  apply wp_bind. eapply wp_try; [done|].
  apply wp_bind. eapply (wp_try _ (item_bytes r)).
  { unfold heap_item_bytes. rewrite checked_sum_Some; [done| |].
    - repeat constructor; lia.
    - fold (item_bytes r). unfold MAX_MERGE_FAN_IN, item_bytes in *. simpl in *. lia. }
  apply wp_bind. eapply wp_try.
  { apply ok_or_Ok, checked_add_u64_Some. done. }
  apply wp_bind, wp_account, wp_ret. done.
Qed.

(** Every reader loaded. *)
Definition load (cs : list (bool * list T)) : list (bool * list T) := (fun c => (true, c.2)) <$> cs.

#[local] Arguments load : simpl never.

Lemma contents_load cs : contents (load cs) = contents cs.
Proof. unfold contents, load. by rewrite <- list_fmap_compose. Qed.

(** The heap does not overflow its byte count while it has fewer than 32 items. *)
Lemma heap_room_few st cs r :
  holds st cs -> length (heads_from 0 cs) < MAX_MERGE_FAN_IN -> fits 0 r ->
  (heap_bytes st + item_bytes r <= u64_max)%Z.
Proof.
  intros Hh Hlen Hr. rewrite (st_bytes _ _ Hh), (st_heap _ _ Hh).
  assert (forall x, x ∈ heads_from 0 cs ->
    (Z.of_nat MAX_MERGE_FAN_IN * accounted_bytes x <= u64_max)%Z) as Hb.
  { intros x (pre & y & d & post & -> & ->)%elem_of_heads_from. simpl.
    destruct (st_fits _ _ Hh (true, y :: d)) as [Hf _]; [set_solver|].
    inversion Hf as [|? ? Hy _]; subst. by apply (fits_heap _ _ Hy). }
  pose proof (fits_heap _ _ Hr) as Hr'. unfold MAX_MERGE_FAN_IN in *. change (Z.of_nat 32) with 32%Z in *.
  pose proof (sum_bytes_bound (heads_from 0 cs) (u64_max / 32)) as Hs.
  rewrite Forall_forall in Hs. unfold u64_max in *.
  assert (forall z, 32 * z <= 2 ^ 64 - 1 -> z <= (2 ^ 64 - 1) / 32)%Z as Hdiv
    by (intros z Hz; apply Z.div_le_lower_bound; lia).
  assert (sum_bytes (heads_from 0 cs) <= Z.of_nat (length (heads_from 0 cs)) * ((2 ^ 64 - 1) / 32))%Z
    as Hs' by (apply Hs; intros x Hx; by apply Hdiv, Hb).
  apply Hdiv in Hr'. assert ((2 ^ 64 - 1) / 32 * 32 <= 2 ^ 64 - 1)%Z by (vm_compute; congruence).
  assert (0 <= (2 ^ 64 - 1) / 32)%Z by (vm_compute; congruence). nia.
Qed.

Lemma heap_room st cs i c r :
  holds st cs -> cs !! i = Some (false, c) -> fits 0 r ->
  (heap_bytes st + item_bytes r <= u64_max)%Z.
Proof.
  intros Hh Hi Hr. eapply heap_room_few; [done| |done].
  pose proof (st_few _ _ Hh). apply list_elem_of_split_length in Hi as (pre & post & -> & _).
    rewrite heads_from_app, length_app. simpl.
    pose proof (length_heads_from 0 pre). pose proof (length_heads_from (S (length pre)) post).
    rewrite length_app in *. simpl in *. lia.
Qed.

Lemma load_id (cs : list (bool * list T)) :
  (forall i c, cs !! i <> Some (false, c)) -> load cs = cs.
Proof.
  intros Hno. unfold load. apply list_eq. intros i. rewrite list_lookup_fmap.
  destruct (cs !! i) as [[[|] c]|] eqn:Ei; [done| |done]. by destruct (Hno i c).
Qed.

(** Only the pending reader is not loaded. *)
Lemma load_split pre c post :
  (forall i d, (pre ++ (false, c) :: post) !! i = Some (false, d) -> i = length pre) ->
  load (pre ++ (false, c) :: post) = pre ++ (true, c) :: post.
Proof.
  intros Honly. assert (load pre = pre) as Hpre.
  { apply load_id. intros i d Hi. pose proof (lookup_lt_Some _ _ _ Hi).
    rewrite <- (lookup_app_l _ ((false, c) :: post)) in Hi by done.
    apply Honly in Hi. lia. }
  assert (load post = post) as Hpost.
  { apply load_id. intros i d Hi. specialize (Honly (length pre + S i) d).
    rewrite lookup_app_r in Honly by lia.
    replace (length pre + S i - length pre) with (S i) in Honly by lia. specialize (Honly Hi). lia. }
  unfold load in *. rewrite fmap_app, fmap_cons, Hpre, Hpost. done.
Qed.

Definition same_inputs (st st' : SortedStream) : Prop :=
  input_paths st' = input_paths st /\ cleanup_when_exhausted st' = cleanup_when_exhausted st.

Lemma holds_load st cs rs h hb ob :
  holds st cs -> rs = unread <$> load cs -> h ≡ₚ heads_from 0 (load cs) -> hb = sum_bytes h ->
  holds {| readers := rs; heap := h; heap_bytes := hb; outstanding_bytes := ob;
           pending_reader := None; input_paths := input_paths st;
           cleanup_when_exhausted := cleanup_when_exhausted st |} (load cs).
Proof.
  intros Hh Hrs Hheap Hhb. split; simpl; try done.
  - intros i c Hi. unfold load in Hi. rewrite list_lookup_fmap in Hi. by destruct (cs !! i).
  - unfold load. rewrite length_fmap. apply (st_few _ _ Hh).
  - intros c ((b & d) & -> & Hd)%list_elem_of_fmap. apply (st_fits _ _ Hh _ Hd).
Qed.

Lemma wp_refill st cs w :
  holds st cs ->
  wp (refill st) w E (fun st' w' => disk w' = disk w /\ same_inputs st st' /\
    pending_reader st' = None /\ holds st' (load cs)).
Proof.
  intros Hh. unfold refill. destruct (pending_reader st) as [i|] eqn:Ep.
  2: { apply wp_ret. split_and!; try done. rewrite load_id; [done|].
       intros i c Hi. apply (st_pending _ _ Hh) in Hi. congruence. }
  destruct (st_loaded _ _ Hh i Ep) as [c Hi].
  assert (forall j d, cs !! j = Some (false, d) -> j = i) as Honly.
  { intros j d Hj. apply (st_pending _ _ Hh) in Hj. congruence. }
  assert (readers st !! i = Some (run_bytes c)) as Hread
    by (rewrite (st_readers _ _ Hh), list_lookup_fmap, Hi; done).
  simpl. rewrite Hread.
  pose proof (st_heap _ _ Hh) as Hheap. pose proof (st_bytes _ _ Hh) as Hbytes.
  assert (c = [] \/ exists r d, c = r :: d) as [->|(r & d & ->)] by (destruct c; eauto).
  - apply wp_bind. eapply wp_try; [done|]. apply wp_ret. split_and!; try done; simpl.
    apply list_elem_of_split_length in Hi as (pre & post & -> & ->).
    apply (holds_load st); try done.
    + rewrite (st_readers _ _ Hh), load_split by done. by rewrite !fmap_app.
    + rewrite load_split by done. rewrite Hheap, !heads_from_app. done.
  - assert (fits 0 r) as Hr.
    { destruct (st_fits _ _ Hh (false, r :: d)) as [Hf _]; [by eapply list_elem_of_lookup_2|].
      by inversion Hf. }
    pose proof (heap_room st cs i (r :: d) r Hh Hi Hr) as Hroom.
    apply wp_bind. eapply wp_try.
    { unfold run_bytes at 1. rewrite fmap_cons, concat_cons. apply read_record_framed.
      by apply (fits_length _ _ Hr). }
    eapply wp_mono; [by apply wp_heap_push|]. simpl. intros st' w' [-> Hd].
    split_and!; try done.
    apply list_elem_of_split_length in Hi as (pre & post & -> & ->).
    apply (holds_load st); try done; simpl.
    + rewrite load_split, (st_readers _ _ Hh) by done. rewrite !fmap_app, !fmap_cons.
      rewrite insert_app_r_alt by (rewrite length_fmap; lia).
      by rewrite length_fmap, Nat.sub_diag.
    + rewrite load_split by done. rewrite Hheap, !heads_from_app. simpl.
      by rewrite Permutation_middle.
    + rewrite Hbytes. simpl. lia.
Qed.

(** What popping the heap of a loaded stream does. *)
Lemma holds_pop_None st cs :
  holds st (load cs) -> heap_pop heap_cmp (heap st) = None -> contents cs = [].
Proof.
  intros Hh Hp%heap_pop_None. pose proof (st_heap _ _ Hh) as Hheap. rewrite Hp in Hheap.
  apply Permutation_nil_l in Hheap. clear Hh Hp. unfold contents. revert Hheap. generalize 0.
  induction cs as [|[b [|x c]] cs IH]; intros i Hheap; [done| |done].
  simpl in Hheap. rewrite fmap_cons, concat_cons. by apply (IH (S i)).
Qed.

Lemma holds_pop_Some st cs x h :
  holds st (load cs) -> heap_pop heap_cmp (heap st) = Some (x, h) ->
  exists pre r c post, load cs = pre ++ (true, r :: c) :: post /\ x = item_of (length pre) r /\
    h ≡ₚ heads_from 0 (pre ++ (false, c) :: post) /\
    sorting (contents cs) = r :: sorting (contents (pre ++ (false, c) :: post)).
Proof.
  intros Hh [Hperm Hle]%stream_pop. pose proof (st_heap _ _ Hh) as Hheap.
  assert (x ∈ heads_from 0 (load cs)) as (pre & r & c & post & Hcs & ->)%elem_of_heads_from.
  { rewrite <- Hheap, Hperm. apply list_elem_of_here. }
  exists pre, r, c, post. split; [done|]. split; [done|].
  assert (h ≡ₚ heads_from 0 (pre ++ (false, c) :: post)) as Hh'.
  { rewrite Hperm, Hcs, heads_from_app in Hheap. rewrite heads_from_app. simpl in *.
    rewrite <- Permutation_middle in Hheap. by apply Permutation_cons_inv in Hheap. }
  split; [done|]. rewrite <- contents_load, Hcs. unfold contents. rewrite !fmap_app, !fmap_cons.
  assert (forall d, d ∈ load cs -> sorted d.2) as Hs by (intros d Hd; apply (st_fits _ _ Hh _ Hd)).
  assert (forall d, d ∈ load cs -> d.1 = true) as Hl.
  { intros d (? & -> & _)%list_elem_of_fmap. done. }
  assert (forall j y, item_of j y ∈ heads_from 0 (pre ++ (false, c) :: post) ->
            le_b (sort_key r, length pre) (sort_key y, j) = true) as Hmin.
  { intros j y Hy. rewrite <- Hh' in Hy. apply (Hle _ Hy). }
  rewrite Hcs in Hs, Hl.
  apply merge_step.
  - rewrite Forall_fmap, Forall_forall. intros d Hd. apply Hs. set_solver.
  - apply (Hs (true, r :: c)). set_solver.
  - rewrite Forall_fmap, Forall_forall. intros d Hd. apply Hs. set_solver.
  - intros y l ([b d] & Hyl & Hd)%list_elem_of_fmap. simpl in Hyl. subst d.
    assert (b = true) as -> by (apply (Hl (b, y :: l)); set_solver).
    apply list_elem_of_split in Hd as (p1 & p2 & ->).
    assert (le_b (sort_key r, length (p1 ++ (true, y :: l) :: p2)) (sort_key y, length p1) = true) as Hlt.
    { apply Hmin, elem_of_heads_from. exists p1, y, l, (p2 ++ (false, c) :: post). split; [|done].
      by rewrite <- app_assoc. }
    unfold le_b in *. rewrite cmp_prod in Hlt. rewrite (cmp_antisym (sort_key r) (sort_key y)).
    destruct (cmp (sort_key r) (sort_key y)) eqn:Ec; [|done|done]. exfalso. simpl in Hlt.
    unfold cmp, Ord_nat in Hlt. rewrite length_app in Hlt. simpl in Hlt.
    destruct (Nat.compare_spec (length p1 + S (length p2)) (length p1)); [lia|lia|done].
  - intros y l ([b d] & Hyl & Hd)%list_elem_of_fmap. simpl in Hyl. subst d.
    assert (b = true) as -> by (apply (Hl (b, y :: l)); set_solver).
    apply list_elem_of_split in Hd as (p1 & p2 & ->).
    assert (le_b (sort_key r, length pre) (sort_key y, length (pre ++ (false, c) :: p1)) = true) as Hlt.
    { apply Hmin, elem_of_heads_from. exists (pre ++ (false, c) :: p1), y, l, p2. split; [|done].
      by rewrite <- app_assoc. }
    unfold le_b in *. rewrite cmp_prod in Hlt.
    by destruct (cmp (sort_key r) (sort_key y)).
Qed.

(** ** The laws of a stream *)
Lemma wp_release_outstanding st w (Q : SortedStream -> World -> Prop) :
  (forall ob w', disk w' = disk w -> Q (with_outstanding st ob (pending_reader st)) w') ->
  wp (if (0 <? outstanding_bytes st)%Z then
        _ ← account (release_live (outstanding_bytes st));
        mret (with_outstanding st 0 (pending_reader st))
      else mret st) w E Q.
Proof.
  intros HQ. destruct (0 <? outstanding_bytes st)%Z.
  - apply wp_bind, wp_account, wp_ret. by apply HQ.
  - apply wp_ret. specialize (HQ (outstanding_bytes st) w eq_refl). by destruct st.
Qed.

Lemma holds_outstanding st cs ob :
  holds st cs -> holds (with_outstanding st ob (pending_reader st)) cs.
Proof. intros []. by split. Qed.

(** The files of an exhausted stream that cleans up are gone. *)
Definition inputs_removed (st : SortedStream) w w' : Prop :=
  if cleanup_when_exhausted st then
    frame (fun p => p ∈ input_paths st) w w' /\
    forall p, p ∈ input_paths st -> disk w' !! p = None
  else disk w' = disk w.

Lemma wp_remove_each paths w (Q : () -> World -> Prop) :
  (forall w', frame (fun p => p ∈ paths) w w' -> (forall p, p ∈ paths -> disk w' !! p = None) -> Q tt w') ->
  wp (io_fold (fun _ p => remove_if_exists p) tt paths) w E Q.
Proof.
  intros HQ.
  apply wp_fold with (I := fun _ gone w' => frame (fun p => p ∈ paths) w w' /\
    forall p, p ∈ gone -> disk w' !! p = None).
  - split; [done|]. by intros p ?%elem_of_nil.
  - intros [] gone x rest v Hl [Hf Hg]. unfold remove_if_exists. apply wp_bind. unfold wp at 1.
    unfold path_exists. destruct (disk v !! x) as [bs|] eqn:Ex; simpl.
    + eapply wp_remove; [exact Ex|]. split.
      * intros p Hp. simpl. rewrite lookup_delete_ne; [by apply Hf|]. intros ->. apply Hp.
        rewrite Hl. set_solver.
      * intros p [Hp| ->%list_elem_of_singleton]%elem_of_app; simpl; [|by rewrite lookup_delete_eq].
        destruct (decide (x = p)) as [->|]; [by rewrite lookup_delete_eq|].
        rewrite lookup_delete_ne by done. by apply Hg.
    + apply wp_ret. split; [done|]. intros p [Hp| ->%list_elem_of_singleton]%elem_of_app; [by apply Hg|done].
  - intros [] w' [Hf Hg]. by apply HQ.
Qed.

Lemma wp_cleanup st w :
  wp (cleanup_inputs st) w E (fun st' w' =>
    cleanup_when_exhausted st' = cleanup_when_exhausted st /\
    frame (fun p => p ∈ input_paths st) w w' /\ forall p, p ∈ input_paths st -> disk w' !! p = None).
Proof.
  unfold cleanup_inputs. apply wp_bind, wp_remove_each. intros w' Hf Hg. by apply wp_ret.
Qed.

(** Dropping a stream removes the files that it still owns. *)
Lemma wp_drop_stream st w :
  wp (drop_stream st) w E (fun _ w' => inputs_removed st w w').
Proof.
  unfold drop_stream, inputs_removed. apply wp_bind, wp_account.
  destruct (cleanup_when_exhausted st); [|done]. apply wp_remove_each. intros w' Hf Hg. done.
Qed.

Lemma wp_next_nil st w :
  yields st [] -> wp (next_encoded st) w E (fun res w' => res.1 = None /\ inputs_removed st w w' /\
    cleanup_when_exhausted res.2 = cleanup_when_exhausted st).
Proof.
  intros (cs & Hh & Hl). unfold next_encoded. apply wp_bind, wp_release_outstanding.
  intros ob w1 Hd1. apply wp_bind.
  eapply wp_mono; [by apply wp_refill, holds_outstanding|].
  simpl. intros st2 w2 (Hd2 & [Hi Hc] & Hp & Hh2).
  destruct (heap_pop heap_cmp (heap st2)) as [[x h]|] eqn:Epop.
  - exfalso. apply (holds_pop_Some st2 cs) in Epop as (? & ? & ? & ? & _ & _ & _ & Hs); [|done].
    rewrite <- Hl in Hs. done.
  - unfold inputs_removed. simpl in Hi, Hc. rewrite <- Hi, <- Hc.
    assert (disk w2 = disk w) as Hd by congruence.
    destruct (cleanup_when_exhausted st2) eqn:Ec.
    + apply wp_bind. eapply wp_mono; [apply wp_cleanup|]. intros st3 w3 (Hc3 & Hf & Hg).
      apply wp_ret. split_and!; [done| |done|simpl; congruence]. intros p Hp'. rewrite <- Hd. by apply Hf.
    + apply wp_bind, wp_ret, wp_ret. done.
Qed.

Lemma wp_next_cons st r l w :
  yields st (r :: l) ->
  wp (next_encoded st) w E (fun res w' => disk w' = disk w /\ same_inputs st res.2 /\
    (exists i, res.1 = Some (item_of i r)) /\ yields res.2 l).
Proof.
  intros (cs & Hh & Hl). unfold next_encoded. apply wp_bind, wp_release_outstanding.
  intros ob w1 Hd1. apply wp_bind.
  eapply wp_mono; [by apply wp_refill, holds_outstanding|].
  simpl. intros st2 w2 (Hd2 & [Hi Hc] & Hp & Hh2).
  destruct (heap_pop heap_cmp (heap st2)) as [[x h]|] eqn:Epop.
  2: { exfalso. apply (holds_pop_None st2 cs) in Epop; [|done]. by rewrite Epop in Hl. }
  pose proof (proj1 (stream_pop _ _ _ Epop)) as Hperm.
  apply (holds_pop_Some st2 cs) in Epop as (pre & r' & c & post & Hcs & -> & Hh' & Hs); [|done].
  rewrite <- Hl in Hs. injection Hs as <- Hs.
  apply wp_ret. split; [congruence|]. split; [done|]. split; [by eexists|].
  exists (pre ++ (false, c) :: post). split; [|done].
  assert (forall d, d ∈ load cs -> d.1 = true) as Hall.
  { intros d (? & -> & _)%list_elem_of_fmap. done. }
  rewrite Hcs in Hall, Hh2.
  split; simpl.
  - rewrite (st_readers _ _ Hh2), !fmap_app, !fmap_cons. done.
  - done.
  - rewrite (st_bytes _ _ Hh2), Hperm. unfold saturating_sub_u64. simpl.
    assert (0 <= sum_bytes h)%Z; [|lia]. rewrite Hh'. apply sum_bytes_nonneg. intros y Hy.
    apply elem_of_heads_from in Hy as (p1 & z & d & p2 & Hz & ->).
    assert ((true, z :: d) ∈ pre ++ (true, r :: c) :: post) as Hin.
    { assert ((true, z :: d) ∈ pre ++ (false, c) :: post) as Hz' by (rewrite Hz; set_solver).
      set_solver. }
    destruct (st_fits _ _ Hh2 _ Hin) as [Hf _]. inversion Hf; subst. by apply item_bytes_nonneg.
  - intros i d Hd. destruct (decide (i = length pre)) as [->|Hne]; [done|]. exfalso.
    assert ((false, d) ∈ pre \/ (false, d) ∈ post) as Hin.
    { apply list_elem_of_lookup_2 in Hd as Hd'.
      destruct (decide (i < length pre)) as [Hlt|Hge].
      - left. rewrite lookup_app_l in Hd by done. by eapply list_elem_of_lookup_2.
      - right. rewrite lookup_app_r in Hd by lia. destruct (i - length pre) eqn:Ei; [lia|].
        by eapply list_elem_of_lookup_2. }
    assert (false = true); [|done]. apply (Hall (false, d)). set_solver.
  - intros i [= <-]. exists c. by rewrite list_lookup_middle.
  - pose proof (st_few _ _ Hh2) as Hfew. rewrite length_app in *. done.
  - intros d Hd. pose proof (st_fits _ _ Hh2) as Hf.
    apply elem_of_app in Hd as [Hd|[->|Hd]%elem_of_cons]; [apply Hf; set_solver| |apply Hf; set_solver].
    destruct (Hf (true, r :: c)) as [Hf1 Hs1]; [set_solver|]. simpl in *.
    inversion Hf1; inversion Hs1; by subst.
Qed.

Lemma wp_next st l w :
  yields st l ->
  wp (next st) w E (fun res w' =>
    match l with
    | [] => res.1 = None /\ inputs_removed st w w'
    | r :: l' => res.1 = Some r /\ disk w' = disk w /\ same_inputs st res.2 /\ yields res.2 l'
    end).
Proof.
  intros Hy. unfold next. apply wp_bind. destruct l as [|r l].
  - eapply wp_mono; [by apply wp_next_nil|]. simpl. intros [o st'] w' (Ho & Hr & _). simpl in Ho. subst o.
    by apply wp_ret.
  - eapply wp_mono; [by eapply wp_next_cons|]. simpl. intros [o st'] w' (Hd & Hs & [i Ho] & Hy').
    simpl in Ho. subst o. by apply wp_ret.
Qed.

Lemma wp_for_each_item {S} (I : S -> list T -> World -> Prop) f fuel (s : S) st l w
    (Q : S * SortedStream -> World -> Prop) :
  (forall s d w w', disk w' = disk w -> I s d w -> I s d w') ->
  (forall s d i r rest w, l = d ++ r :: rest -> I s d w ->
     wp (f s (item_of i r)) w E (fun s' w' => I s' (d ++ [r]) w')) ->
  yields st l -> length l < fuel -> I s [] w ->
  (forall s' st' w1 w2, I s' l w1 -> inputs_removed st w1 w2 ->
    cleanup_when_exhausted st' = cleanup_when_exhausted st -> Q (s', st') w2) ->
  wp (for_each_item fuel f s st) w E Q.
Proof.
  intros Hmetrics Hstep Hy Hfuel H0' Hend.
  assert (forall rest d fuel s st' w, l = d ++ rest -> length rest < fuel -> yields st' rest ->
    same_inputs st st' -> I s d w -> wp (for_each_item fuel f s st') w E Q) as Hall.
  2: { by apply (Hall l []). }
  clear s w Hy Hfuel H0'. induction rest as [|r rest IH]; intros d [|n] s st' w Hl Hn Hy [Hi Hc] HI;
    try (simpl in Hn; lia); simpl; apply wp_bind.
  - eapply wp_mono; [by apply wp_next_nil|]. intros [o st2] w2 (Ho & Hr & Hc2). simpl in Ho, Hc2. subst o.
    apply wp_ret. rewrite app_nil_r in Hl. subst d. eapply Hend; [exact HI| |by etrans].
    unfold inputs_removed in *. by rewrite <- Hi, <- Hc.
  - eapply wp_mono; [by eapply wp_next_cons|].
    intros [o st2] w2 (Hd & [Hi2 Hc2] & [i Ho] & Hy2). simpl in *. subst o. apply wp_bind.
    eapply wp_mono; [eapply Hstep; [exact Hl|by eapply Hmetrics]|]. simpl. intros s2 w3 HI2.
    apply (IH (d ++ [r])); [by rewrite <- app_assoc|lia|done| |done].
    split; congruence.
Qed.

(** ** Opening *)
Definition all_loaded (ls : list (list T)) : list (bool * list T) := (fun l => (true, l)) <$> ls.

Lemma contents_all_loaded ls : contents (all_loaded ls) = concat ls.
Proof.
  unfold contents, all_loaded. rewrite <- list_fmap_compose. f_equal.
  rewrite <- (list_fmap_id ls) at 2. by apply list_fmap_ext.
Qed.

Lemma wp_open_reader st ls l path w :
  disk w !! path = Some (run_bytes l) -> Forall (fits 0) l -> sorted l ->
  S (length ls) <= MAX_MERGE_FAN_IN -> holds st (all_loaded ls) -> pending_reader st = None ->
  wp (open_reader st path) w E (fun st' w' => disk w' = disk w /\ same_inputs st st' /\
    pending_reader st' = None /\ holds st' (all_loaded (ls ++ [l]))).
Proof.
  intros Hp Hf Hs Hlen Hh Hpend. unfold open_reader. apply wp_bind. eapply wp_open; [exact Hp|].
  assert (length (all_loaded ls) = length ls) as Hll by (unfold all_loaded; apply length_fmap).
  assert (length (readers st) = length ls) as Hrl.
  { by rewrite (st_readers _ _ Hh), length_fmap. }
  assert (forall st', readers st' = readers st ++ [unread (true, l)] ->
    heap st' ≡ₚ heads_from 0 (all_loaded ls) ++ head_items (length ls) (true, l) ->
    heap_bytes st' = sum_bytes (heap st') -> pending_reader st' = None ->
    holds st' (all_loaded (ls ++ [l]))) as Hholds.
  { intros st' Hr Hhp Hb Hpe. unfold all_loaded in *. rewrite fmap_app. split.
    - rewrite Hr, (st_readers _ _ Hh), fmap_app. done.
    - rewrite Hhp, heads_from_app, Hll. simpl. by rewrite app_nil_r.
    - done.
    - intros i c Hi. exfalso. apply list_elem_of_lookup_2 in Hi. set_solver.
    - rewrite Hpe. done.
    - rewrite length_app, Hll. simpl. lia.
    - intros c [Hc| ->%list_elem_of_singleton]%elem_of_app; [by apply (st_fits _ _ Hh)|done]. }
  destruct l as [|r l].
  - apply wp_bind. eapply wp_try; [done|]. apply wp_ret. split_and!; try done.
    apply Hholds; simpl; try done.
    + rewrite app_nil_r. apply (st_heap _ _ Hh).
    + apply (st_bytes _ _ Hh).
  - inversion Hf as [|? ? Hr Hf']; subst.
    apply wp_bind. eapply wp_try.
    { unfold run_bytes at 1. rewrite fmap_cons, concat_cons. apply read_record_framed.
      apply (fits_length _ _ Hr). }
    apply wp_bind. eapply wp_mono.
    { apply wp_heap_push; [exact Hr|]. eapply heap_room_few; [done| |done].
      pose proof (length_heads_from 0 (all_loaded ls)). lia. }
    intros st' w' [-> Hd]. apply wp_ret. split_and!; try done.
    apply Hholds; simpl; try done.
    + rewrite (st_heap _ _ Hh), Hrl. by rewrite Permutation_app_comm.
    + rewrite (st_bytes _ _ Hh). simpl. lia.
Qed.

Lemma wp_open_stream paths (ls : list (list T)) cleanup w :
  Forall2 (fun p l => disk w !! p = Some (run_bytes l) /\ Forall (fits 0) l /\ sorted l) paths ls ->
  length paths <= MAX_MERGE_FAN_IN ->
  wp (open_stream paths cleanup) w E (fun st w' => disk w' = disk w /\ yields st (sorting (concat ls)) /\
    input_paths st = paths /\ cleanup_when_exhausted st = cleanup).
Proof.
  intros Hfiles Hfew. unfold open_stream.
  apply wp_fold with (I := fun st opened w' => disk w' = disk w /\ pending_reader st = None /\
    holds st (all_loaded (take (length opened) ls)) /\
    input_paths st = paths /\ cleanup_when_exhausted st = cleanup).
  - split_and!; try done. split; simpl; try done; [unfold MAX_MERGE_FAN_IN; lia|].
    by intros c ?%elem_of_nil.
  - intros st opened p rest w1 Hp (Hd & Hpe & Hh & Hi & Hc).
    pose proof (Forall2_length _ _ _ Hfiles) as Hlen.
    destruct (lookup_lt_is_Some_2 ls (length opened)) as [l Hl].
    { rewrite <- Hlen, Hp, length_app. simpl. lia. }
    destruct (Forall2_lookup_lr _ _ _ (length opened) p l Hfiles) as (Hf1 & Hf2 & Hf3);
      [by rewrite Hp, list_lookup_middle|done|].
    eapply wp_mono; [apply (wp_open_reader st (take (length opened) ls) l)|]; try done.
    + by rewrite Hd.
    + rewrite length_take. rewrite Hp, length_app in Hfew. simpl in Hfew. lia.
    + simpl. intros st' w' (Hd' & [Hi' Hc'] & Hpe' & Hh'). split; [congruence|]. split; [done|].
      split; [|split; congruence]. rewrite length_app. simpl. rewrite Nat.add_1_r.
      by rewrite (take_S_r _ _ l).
  - intros st w' (Hd & Hpe & Hh & Hi & Hc). split; [done|]. split; [|done].
    rewrite (Forall2_length _ _ _ Hfiles), firstn_all in Hh. exists (all_loaded ls). split; [done|].
    by rewrite contents_all_loaded.
Qed.
End Stream.
