(* ===== verification/SpoolLaws.v ===== *)
(** * External sorting is stable sorting

    What a [SortedSpool] holds, and the laws of its operations: pushed records come back
    from [finish_spool] as a stream of their stable sort, whatever the chunk limit and
    however many merge levels it takes.  A spool touches no file outside its region, the
    names that start with its prefix. *)
From S2P Require Import Prelude Order Text Json Protocol Disk Spill StreamLaws.

(** ** Chunks *)
Lemma chunks_fuel_spec {A} n fuel (l : list A) :
  0 < n -> length l <= fuel ->
  concat (chunks_fuel fuel n l) = l /\
  Forall (fun g => 0 < length g <= n) (chunks_fuel fuel n l) /\
  n * length (chunks_fuel fuel n l) <= length l + (n - 1).
Proof.
  intros Hn. revert l. induction fuel as [|fuel IH]; intros [|x l] Hl; simpl in Hl; try lia.
  1-2: simpl; split_and!; [done|constructor|lia].
  cbn [chunks_fuel concat length]. destruct (IH (drop n (x :: l))) as (Hc & Hf & Hlen).
  { rewrite length_drop. simpl. lia. }
  rewrite length_drop in Hlen. split_and!.
  - rewrite Hc. apply take_drop.
  - constructor; [|done]. rewrite length_take. simpl. lia.
  - destruct (decide (length (x :: l) <= n)) as [Hle|Hgt]; [|simpl in *; nia].
    rewrite drop_ge in * by done. destruct fuel; simpl in *; lia.
Qed.

Lemma chunks_spec {A} n (l : list A) :
  0 < n ->
  concat (chunks n l) = l /\ Forall (fun g => 0 < length g <= n) (chunks n l) /\
  n * length (chunks n l) <= length l + (n - 1).
Proof. intros Hn. by apply chunks_fuel_spec. Qed.

(** ** Run files *)
(** The files that belong to a spool. *)
Definition region (root prefix : string) (p : string) : Prop :=
  exists rest, p = path_join root (prefix +:+ "-" +:+ rest).

Definition kind_ok (kind : string) : Prop := kind = "run" \/ kind = "merge".

Lemma run_path_region root prefix kind n : region root prefix (run_path root prefix kind n).
Proof. eexists. reflexivity. Qed.

Lemma run_path_inj root prefix k1 k2 n m :
  kind_ok k1 -> kind_ok k2 -> run_path root prefix k1 n = run_path root prefix k2 m -> n = m.
Proof.
  unfold run_path. intros H1 H2 Heq%path_join_inj. do 2 apply app_str_inj_l in Heq.
  destruct H1 as [->| ->], H2 as [->| ->].
  2-3: rewrite !app_str_cons in Heq; discriminate Heq.
  all: do 2 apply app_str_inj_l in Heq; by apply app_str_inj_r_length, proj1, pad_inj in Heq.
Qed.

Section Spool.
Context {T K : Type} `{OrdLaws K} `{RecordCodec T} `{MemoryLayout T} `{SpillRecord T K}.
Context {E : abort -> Prop}.
Implicit Types (r : T) (s : SortedSpool K) (w : World) (l : list T).

Local Abbreviation SortedSpool := (SortedSpool K).
Local Abbreviation sorting := (sort_by_key (A := T) (K := K) sort_key).

Definition spool_region s : string -> Prop := region (spool_root s) (spool_prefix s).

(** [paths] are all the files of the spool; they hold the sorted [rs]. *)
Record run_files s (paths : list string) (rs : list (list T)) w : Prop := {
  rf_files : Forall2 (fun p c => disk w !! p = Some (run_bytes (sorting c))) paths rs;
  rf_owned p : p ∈ paths -> exists kind n,
    kind_ok kind /\ (n < next_run s)%N /\ p = run_path (spool_root s) (spool_prefix s) kind n;
  rf_nodup : NoDup paths;
  rf_clean p : spool_region s p -> p ∉ paths -> disk w !! p = None
}.

Definition same_spool s s' : Prop :=
  spool_root s' = spool_root s /\ spool_prefix s' = spool_prefix s /\
  spool_chunk_limit s' = spool_chunk_limit s.

Lemma same_spool_region s s' : same_spool s s' -> spool_region s' = spool_region s.
Proof. unfold spool_region. by intros (-> & -> & _). Qed.

Definition few l : Prop := (Z.of_nat (length l) <= 2 ^ 62)%Z.

(** Everything but the bound on the bytes in the buffer. *)
Record spool_loose (limit : Z) s l w : Prop := {
  sl_limit : spool_chunk_limit s = limit;
  sl_positive : (0 < limit)%Z;
  sl_fits : Forall (fits limit) l;
  sl_contents : exists rs buf, l = concat rs ++ buf /\ run_files s (runs s) rs w /\
    Forall (fun c => 0 < length c) rs /\
    buffered s = (fun r => {| buffered_key := sort_key r; buffered_encoded := enc r |}) <$> buf;
  sl_next : next_run s = N.of_nat (length (runs s))
}.
Definition spool_holds (limit : Z) s l w : Prop :=
  spool_loose limit s l w /\ (0 <= buffered_bytes s < limit)%Z.

Lemma fits_weaken limit limit' r : (limit' <= limit)%Z -> fits limit r -> fits limit' r.
Proof. intros Hle []. split; try done. lia. Qed.

(** What others do outside the region changes nothing. *)
Lemma run_files_frame R s paths rs w w' :
  run_files s paths rs w -> frame R w w' -> (forall p, R p -> ~ spool_region s p) ->
  run_files s paths rs w'.
Proof.
  intros [Hf Ho Hn Hc] Hframe Hdisj.
  assert (forall p, spool_region s p -> disk w' !! p = disk w !! p) as Heq.
  { intros p Hp. apply Hframe. intros HR. by apply (Hdisj p). }
  split; try done.
  - rewrite Forall2_same_length_lookup in Hf |- *. destruct Hf as [Hl Hf]. split; [done|].
    intros i p c Hp Hi. rewrite Heq; [by eapply Hf|].
    destruct (Ho p) as (kind & n & _ & _ & ->); [by eapply list_elem_of_lookup_2|].
    apply run_path_region.
  - intros p Hp Hnot. rewrite Heq by done. by apply Hc.
Qed.

Lemma spool_frame R limit s l w w' :
  spool_holds limit s l w -> frame R w w' -> (forall p, R p -> ~ spool_region s p) ->
  spool_holds limit s l w'.
Proof.
  intros [[? ? ? (rs & buf & ? & ? & ? & ?) ?] ?] Hf Hd. split; [|done].
  split; try done. exists rs, buf. split_and!; try done. by eapply run_files_frame.
Qed.

Lemma spool_same_disk limit s l w w' :
  spool_holds limit s l w -> disk w' = disk w -> spool_holds limit s l w'.
Proof.
  intros Hs Hd. eapply (spool_frame (fun _ => False)); [exact Hs| |by intros p []]. intros p _. by rewrite Hd.
Qed.

(** ** Writing *)
Lemma wp_write_all path (es : list (list Z)) old w (Q : () -> World -> Prop) :
  disk w !! path = Some old -> Forall (fun e => Z.of_nat (length e) <= u32_max)%Z es ->
  (forall w', disk w' = <[path := old ++ concat (framed <$> es)]> (disk w) -> Q () w') ->
  wp (write_all path es) w E Q.
Proof.
  intros Hp Hes HQ. unfold write_all.
  apply wp_fold with (I := fun _ dn w' => disk w' = <[path := old ++ concat (framed <$> dn)]> (disk w)).
  - simpl. by rewrite app_nil_r, insert_id.
  - intros [] dn e rest v Hl Hd. unfold write_encoded.
    assert (Z.of_nat (length e) <= u32_max)%Z as He.
    { rewrite Forall_forall in Hes. apply Hes. rewrite Hl. set_solver. }
    destruct (Z.ltb_spec u32_max (Z.of_nat (length e))); [lia|].
    apply wp_bind. eapply wp_append; [by rewrite Hd, lookup_insert_eq|].
    apply wp_bind. eapply wp_append; [simpl; by rewrite lookup_insert_eq|].
    apply wp_account. simpl. rewrite Hd, !insert_insert_eq. f_equal.
    rewrite fmap_app, concat_app. simpl. unfold framed at 2.
    by rewrite app_nil_r, <- !app_assoc.
  - intros [] v Hd. by apply HQ.
Qed.

(** A new file of the spool at the end of its runs. *)
Lemma run_files_snoc s paths rs w path kind c w' s' :
  run_files s paths rs w -> kind_ok kind ->
  path = run_path (spool_root s) (spool_prefix s) kind (next_run s) ->
  disk w' = <[path := run_bytes (sorting c)]> (disk w) ->
  same_spool s s' -> next_run s' = (next_run s + 1)%N ->
  run_files s' (paths ++ [path]) (rs ++ [c]) w'.
Proof.
  intros [Hf Ho Hn Hc] Hk -> Hd Hs Hnext.
  assert (run_path (spool_root s) (spool_prefix s) kind (next_run s) ∉ paths) as Hnew.
  { intros Hin. destruct (Ho _ Hin) as (k & n & Hk' & Hlt & Heq).
    apply run_path_inj in Heq; [lia|done|done]. }
  destruct Hs as (Hs1 & Hs2 & Hs3). split.
  - apply Forall2_app; [|constructor; [by rewrite Hd, lookup_insert_eq|constructor]].
    rewrite Forall2_same_length_lookup in Hf |- *. destruct Hf as [Hl Hf]. split; [done|].
    intros i p d Hp Hi. rewrite Hd, lookup_insert_ne; [by eapply Hf|]. intros <-.
    apply Hnew. by eapply list_elem_of_lookup_2.
  - intros p [Hp| ->%list_elem_of_singleton]%elem_of_app.
    + destruct (Ho p Hp) as (k & n & ? & ? & ->). exists k, n. rewrite Hs1, Hs2. split_and!; [done|lia|done].
    + exists kind, (next_run s). rewrite Hs1, Hs2. split_and!; [done|lia|done].
  - apply NoDup_app. split; [done|]. split; [|apply NoDup_singleton].
    intros p Hp ->%list_elem_of_singleton. done.
  - intros p Hp Hnot. unfold spool_region in *. rewrite Hs1, Hs2 in Hp.
    rewrite Hd, lookup_insert_ne by (intros <-; apply Hnot; set_solver).
    apply Hc; [done|set_solver].
Qed.

Lemma next_path_spec kind s :
  (Z.of_N (next_run s) < u64_max)%Z ->
  exists s', next_path kind s = (run_path (spool_root s) (spool_prefix s) kind (next_run s), s') /\
    same_spool s s' /\ next_run s' = (next_run s + 1)%N /\ buffered s' = buffered s /\
    buffered_bytes s' = buffered_bytes s /\ runs s' = runs s.
Proof. intros Hlt. eexists. split; [reflexivity|]. split_and!; try done. simpl. unfold u64_max in Hlt. lia. Qed.

Lemma length_concat_nonempty (rs : list (list T)) :
  Forall (fun c => 0 < length c) rs -> length rs <= length (concat rs).
Proof.
  induction 1 as [|c rs Hc _ IH]; [done|]. rewrite concat_cons, length_app. simpl. lia.
Qed.

Lemma sort_buffer (buf : list T) :
  sort_by_key buffered_key ((fun r => {| buffered_key := sort_key r; buffered_encoded := enc r |}) <$> buf)
  = (fun r => {| buffered_key := sort_key r; buffered_encoded := enc r |}) <$> sorting buf.
Proof.
  unfold sort_by_key, sort_by. induction buf as [|r buf IH]; [done|].
  rewrite fmap_cons. cbn [foldr]. rewrite IH. clear IH.
  induction (foldr _ [] buf) as [|y l IH]; [done|]. simpl.
  destruct (le_b (sort_key r) (sort_key y)); [done|]. simpl. f_equal. apply IH.
Qed.

Lemma wp_flush limit s l w :
  spool_loose limit s l w -> few l ->
  wp (flush s) w E (fun s' w' => spool_loose limit s' l w' /\ buffered s' = [] /\
    (buffered s <> [] -> buffered_bytes s' = 0%Z) /\
    (buffered s = [] -> buffered_bytes s' = buffered_bytes s) /\
    same_spool s s' /\ frame (spool_region s) w w').
Proof.
  intros [Hlim Hpos Hfits (rs & buf & Hl & Hfiles & Hne & Hbuf) Hnext] Hfew. unfold flush.
  destruct buf as [|r0 buf].
  { rewrite Hbuf. apply wp_ret. split_and!; try done. split; try done. exists rs, []. by split_and!. }
  destruct (buffered s) as [|b bs] eqn:Eb; [done|]. rewrite <- Eb in *. clear Eb b bs.
  assert (exists b bs, buffered s = b :: bs) as (b & bs & Eb) by (rewrite Hbuf; by eexists _, _).
  pose proof (length_concat_nonempty rs Hne) as Hcount.
  assert (length (runs s) = length rs) as Hruns by apply (Forall2_length _ _ _ (rf_files _ _ _ _ Hfiles)).
  destruct (next_path_spec "run" s) as (s1 & -> & Hsame & Hnext1 & Hb1 & Hbb1 & Hr1).
  { rewrite Hnext. unfold few, u64_max in *. rewrite Hl, length_app in Hfew. lia. }
  set (path := run_path _ _ _ _). rewrite Hbuf, sort_buffer.
  set (c := r0 :: buf) in *.
  apply wp_bind, wp_create. apply wp_bind.
  eapply (wp_write_all path _ []); [simpl; apply lookup_insert_eq| |].
  { rewrite <- list_fmap_compose, Forall_fmap, Forall_forall. intros r Hr. simpl.
    unfold sort_by_key in Hr. rewrite elem_of_sort_by in Hr.
    rewrite Forall_forall in Hfits. apply (fits_length limit), Hfits. rewrite Hl. set_solver. }
  intros w1 Hd1. simpl in Hd1. rewrite insert_insert_eq, <- !list_fmap_compose in Hd1.
  change (concat _) with (run_bytes (sorting c)) in Hd1.
  apply wp_bind, wp_account, wp_ret. split_and!; try done.
  2: { eapply frame_insert; [exact Hd1|]. apply run_path_region. }
  destruct Hsame as (Hs1 & Hs2 & Hs3). split; simpl; try done.
  - by rewrite Hs3.
  - exists (rs ++ [c]), []. split_and!.
    + by rewrite concat_app, app_nil_r; simpl; rewrite app_nil_r.
    + rewrite Hr1. eapply run_files_snoc; [exact Hfiles|by left|reflexivity|exact Hd1| |exact Hnext1].
      by split_and!.
    + apply Forall_app. split; [done|]. constructor; [simpl; lia|constructor].
    + done.
  - rewrite Hnext1, Hnext, Hr1, length_app. simpl. lia.
Qed.

(** ** Pushing *)
Lemma wp_new_spool root prefix limit w :
  (0 < limit)%Z -> (forall p, region root prefix p -> disk w !! p = None) ->
  wp (new_spool (K := K) root prefix limit) w E (fun s w' => w' = w /\ spool_holds limit s [] w /\
    spool_region s = region root prefix).
Proof.
  intros Hl Hclean. unfold new_spool. destruct (Z.eqb_spec limit 0); [lia|].
  apply wp_ret. split; [done|]. split; [|done]. split; [|simpl; lia]. split; try done.
  exists [], []. split_and!; try done. split; try done; [by intros p ?%elem_of_nil|constructor|].
  intros p Hp _. by apply Hclean.
Qed.

Lemma few_app l1 l2 : few (l1 ++ l2) -> few l1.
Proof. unfold few. rewrite length_app. lia. Qed.

Lemma record_bytes_fits limit r :
  fits limit r -> (0 < limit)%Z -> record_bytes (T := T) (sort_key r) (enc r) = Ok (buffer_bytes r).
Proof.
  intros [_ _ _ Hc Hk [Hs _] Hb _] Hl. unfold record_bytes, LENGTH_PREFIX_BYTES in *.
  rewrite checked_sum_Some; [done|repeat constructor; lia|].
  change (foldr Z.add (vec_capacity (enc r)) _) with (buffer_bytes r). lia.
Qed.

Lemma buffer_bytes_nonneg limit r : fits limit r -> (0 <= buffer_bytes r)%Z.
Proof. intros []. unfold buffer_bytes, LENGTH_PREFIX_BYTES. simpl. lia. Qed.

Lemma same_spool_trans s1 s2 s3 : same_spool s1 s2 -> same_spool s2 s3 -> same_spool s1 s3.
Proof. unfold same_spool. intuition congruence. Qed.

(** Appending to the buffer. *)
Lemma spool_loose_append limit s l r w bytes :
  spool_loose limit s l w -> fits limit r ->
  spool_loose limit
    (with_buffer s (buffered s ++ [{| buffered_key := sort_key r; buffered_encoded := enc r |}]) bytes)
    (l ++ [r]) w.
Proof.
  intros [Hlim Hpos Hfits (rs & buf & -> & [Hf Ho Hn Hc] & Hne & Hbuf) Hnext] Hr. split; try done.
  - apply Forall_app. split; [done|]. by constructor.
  - exists rs, (buf ++ [r]). split_and!; [by rewrite app_assoc|by split|done|].
    simpl. by rewrite Hbuf, fmap_app.
Qed.

Lemma spool_loose_metrics limit s l w w' :
  disk w' = disk w -> spool_loose limit s l w -> spool_loose limit s l w'.
Proof.
  intros Hd [? ? ? (rs & buf & ? & [] & ? & ?) ?]. split; try done. exists rs, buf.
  split_and!; try done. split; rewrite ?Hd; done.
Qed.

Lemma wp_push limit s l r w :
  spool_holds limit s l w -> fits limit r -> few (l ++ [r]) ->
  wp (push s r) w E (fun s' w' => spool_holds limit s' (l ++ [r]) w' /\
    same_spool s s' /\ frame (spool_region s) w w').
Proof.
  intros [Hs Hbb] Hr Hfew. pose proof (sl_positive _ _ _ _ Hs) as Hpos.
  pose proof (sl_limit _ _ _ _ Hs) as Hlim. pose proof (fits_buffer _ _ Hr) as Hroom.
  pose proof (buffer_bytes_nonneg _ _ Hr) as Hnn.
  unfold push. apply wp_bind. eapply wp_try; [by apply (fits_encode _ _ Hr)|].
  apply wp_bind. eapply wp_try; [by eapply record_bytes_fits|].
  apply wp_bind. eapply wp_try.
  { apply ok_or_Ok, checked_add_u64_Some. split; [done|lia]. }
  apply wp_bind, wp_account. apply wp_bind.
  set (w1 := {| disk := disk w; metrics := _ |}).
  assert (spool_loose limit s l w1) as Hs1
    by (apply (spool_loose_metrics limit s l w); [reflexivity|exact Hs]).
  apply (wp_mono _ _ (fun s1 w2 => spool_loose limit s1 l w2 /\ (0 <= buffered_bytes s1 < limit)%Z /\
    same_spool s s1 /\ frame (spool_region s) w w2)).
  { destruct (negb _ && _); [|by apply wp_ret].
    eapply wp_mono; [apply (wp_flush limit s l); [done|by apply few_app with [r]]|]. simpl.
    intros s1 w2 (Hs2 & Hnil & Hb1 & Hb2 & Hsame & Hfr). split_and!; try done.
    - destruct (buffered s); [rewrite Hb2 by done|rewrite Hb1 by done]; lia.
    - destruct (buffered s); [rewrite Hb2 by done|rewrite Hb1 by done]; lia. }
  intros s1 w2 (Hs2 & Hb2 & Hsame & Hfr). apply wp_bind. eapply wp_try.
  { apply ok_or_Ok, checked_add_u64_Some. split; [done|lia]. }
  pose proof (spool_loose_append limit s1 l r w2 (buffered_bytes s1 + buffer_bytes r) Hs2 Hr) as Hs3.
  destruct (Z.leb_spec (spool_chunk_limit (with_buffer s1 (buffered s1 ++
     [{| buffered_key := sort_key r; buffered_encoded := enc r |}]) (buffered_bytes s1 + buffer_bytes r)))
     (buffered_bytes (with_buffer s1 (buffered s1 ++
     [{| buffered_key := sort_key r; buffered_encoded := enc r |}]) (buffered_bytes s1 + buffer_bytes r)))) as [Hge|Hlt].
  - eapply wp_mono; [by apply (wp_flush limit _ (l ++ [r]))|]. simpl.
    intros s4 w4 (Hs4 & _ & Hb4 & _ & Hsame4 & Hfr4). split; [split; [done|]|].
    + rewrite Hb4; [lia|]. by destruct (buffered s1).
    + split; [by eapply same_spool_trans|].
      etrans; [exact Hfr|]. rewrite <- (same_spool_region s s1); [|done]. exact Hfr4.
  - apply wp_ret. split; [split; [done|]|done]. simpl in *.
    rewrite (sl_limit _ _ _ _ Hs2) in Hlt. lia.
Qed.

(** ** Merging *)
Lemma wp_merge_run_group limit inputs (cs : list (list T)) output w :
  (0 <= limit)%Z ->
  Forall2 (fun p c => disk w !! p = Some (run_bytes (sorting c))) inputs cs ->
  Forall (fits limit) (concat cs) -> NoDup inputs -> output ∉ inputs ->
  length inputs <= MAX_MERGE_FAN_IN ->
  wp (merge_run_group inputs output) w E (fun p w' => p = output /\
    disk w' !! output = Some (run_bytes (sorting (concat cs))) /\
    (forall p, p ∈ inputs -> disk w' !! p = None) /\
    forall p, p <> output -> p ∉ inputs -> disk w' !! p = disk w !! p).
Proof.
  intros Hlim Hfiles Hfits Hnd Hnew Hfew. unfold merge_run_group.
  assert (Forall (fits 0) (concat cs)) as Hfits0.
  { eapply Forall_impl; [exact Hfits|]. intros r. by apply fits_weaken. }
  apply wp_bind. eapply wp_mono.
  { apply (wp_open_stream inputs (sorting <$> cs) false); [|done].
    apply Forall2_fmap_r. rewrite Forall2_same_length_lookup in Hfiles |- *.
    destruct Hfiles as [Hl Hf]. split; [done|]. intros i p c Hp Hc. split; [by eapply Hf|].
    split; [|apply sort_by_key_sorted]. rewrite sort_by_key_perm.
    rewrite Forall_forall in Hfits0 |- *. intros r Hr. apply Hfits0, elem_of_concat.
    exists c. split; [done|by eapply list_elem_of_lookup_2]. }
  simpl. intros st w1 (Hd1 & Hy & Hi & Hc). rewrite sort_by_key_concat in Hy.
  apply wp_bind, wp_create. apply wp_bind.
  apply (wp_for_each_item (fun _ dn v => disk v = <[output := run_bytes dn]> (disk w))
    (fun _ item => write_encoded output (item_encoded item)) (stream_fuel st) tt st (sorting (concat cs))).
  - intros _ d v v' Hv Hdisk. by rewrite Hv.
  - intros [] d i r rest v Hl Hdisk.
    assert (fits 0 r) as Hr.
    { rewrite Forall_forall in Hfits0. apply Hfits0. rewrite <- (sort_by_key_perm sort_key), Hl. set_solver. }
    pose proof (fits_length _ _ Hr) as Hlen. unfold write_encoded. simpl.
    destruct (Z.ltb_spec u32_max (Z.of_nat (length (enc r)))); [lia|].
    apply wp_bind. eapply wp_append; [by rewrite Hdisk, lookup_insert_eq|].
    apply wp_bind. eapply wp_append; [simpl; by rewrite lookup_insert_eq|].
    apply wp_account. simpl. rewrite Hdisk, !insert_insert_eq. f_equal.
    unfold run_bytes. rewrite fmap_app, concat_app. simpl. unfold framed at 2.
    by rewrite app_nil_r, <- !app_assoc.
  - done.
  - by apply yields_fuel.
  - simpl. by rewrite Hd1.
  - intros [] st' w2 w3 Hd2 Hrem Hst'. unfold inputs_removed in Hrem. rewrite Hc in Hrem.
    assert (cleanup_when_exhausted st' = false) as Hc' by congruence.
    apply wp_bind. unfold drop_stream. apply wp_bind, wp_account. cbn [snd]. rewrite Hc'. apply wp_ret.
    apply wp_bind, wp_remove_all; [done| |].
    + intros p Hp. simpl. rewrite Hrem, Hd2, lookup_insert_ne by (intros <-; done).
      apply list_elem_of_lookup in Hp as [i Hp].
      destruct (Forall2_lookup_l _ _ _ _ _ Hfiles Hp) as (c & _ & Hbytes). by eexists.
    + simpl. intros w4 Hgone Hkept. apply wp_ret. split_and!; [done| |done|].
      * by rewrite Hkept, Hrem, Hd2, lookup_insert_eq.
      * intros p Hp Hnot. by rewrite Hkept, Hrem, Hd2, lookup_insert_ne.
Qed.

(** Files that stay as they are. *)
Lemma files_kept (paths : list string) (rs : list (list T)) w w' :
  Forall2 (fun p c => disk w !! p = Some (run_bytes (sorting c))) paths rs ->
  (forall p, p ∈ paths -> disk w' !! p = disk w !! p) ->
  Forall2 (fun p c => disk w' !! p = Some (run_bytes (sorting c))) paths rs.
Proof.
  rewrite !Forall2_same_length_lookup. intros [Hl Hf] Hk. split; [done|].
  intros i p c Hp Hc. rewrite Hk; [by eapply Hf|by eapply list_elem_of_lookup_2].
Qed.

Lemma wp_merge_group limit s acc ra group rg rest rr w :
  (0 <= limit)%Z -> (Z.of_N (next_run s) < u64_max)%Z ->
  run_files s (acc ++ group ++ rest) (ra ++ rg ++ rr) w ->
  length acc = length ra -> length group = length rg -> 0 < length group <= MAX_MERGE_FAN_IN ->
  Forall (fits limit) (concat rg) ->
  wp (merge_group (acc, s) group) w E (fun res w' => length res.1 = length (ra ++ [concat rg]) /\
    run_files res.2 (res.1 ++ rest) ((ra ++ [concat rg]) ++ rr) w' /\
    same_spool s res.2 /\ (next_run res.2 <= next_run s + 1)%N /\ frame (spool_region s) w w').
Proof.
  intros Hlim Hnext [Hfiles Ho Hnd Hc] Hacc Hg Hsize Hfits. unfold merge_group. cbn [fst snd].
  assert (forall (X : IO (list string * SortedSpool)) (Y : string -> IO (list string * SortedSpool)) Q,
    (forall path, group = [path] -> wp (Y path) w E Q) -> (1 < length group -> wp X w E Q) ->
    wp (match group with [path] => Y path | _ => X end) w E Q) as Hcase.
  { intros X Y Q H1c H2c. destruct group as [|p [|q group]]; [simpl in Hsize; lia|exact (H1c p eq_refl)|].
    apply H2c; simpl; lia. }
  apply Hcase; clear Hcase.
  { intros path ->. destruct rg as [|c [|]]; try done. apply wp_ret. simpl. rewrite app_nil_r.
    split; [by rewrite !length_app, Hacc|]. split; [|split; [done|]; split; [lia|done]].
    rewrite <- !app_assoc. by split. }
  intros _. destruct (next_path_spec "merge" s Hnext) as (s1 & -> & Hsame & Hnext1 & _).
  set (output := run_path _ _ _ _).
  assert (output ∉ acc ++ group ++ rest) as Hnew.
  { intros Hin. destruct (Ho _ Hin) as (k & n & Hk & Hlt & Heq).
    apply run_path_inj in Heq; [lia|by right|done]. }
  apply Forall2_app_inv in Hfiles as [Hf1 Hf2]; [|done].
  apply Forall2_app_inv in Hf2 as [Hf2 Hf3]; [|done].
  apply NoDup_app in Hnd as (Hn1 & Hd1 & Hn2). apply NoDup_app in Hn2 as (Hn2 & Hd2 & Hn3).
  apply wp_bind. eapply wp_mono.
  { apply (wp_merge_run_group limit group rg output); try done; [set_solver|lia]. }
  intros p w' (-> & Hout & Hgone & Hkept). apply wp_ret. destruct Hsame as (Hs1 & Hs2 & Hs3). simpl.
  split; [by rewrite !length_app, Hacc|]. split; [|split; [done|]; split; [lia|]].
  - split.
    + apply Forall2_app; [apply Forall2_app; [|by constructor; [|constructor]]|].
      * eapply files_kept; [done|]. intros q Hq. apply Hkept; [by intros ->; set_solver|].
        intros Hqg. apply (Hd1 q Hq). set_solver.
      * eapply files_kept; [done|]. intros q Hq. apply Hkept; [by intros ->; set_solver|].
        intros Hqg. by apply (Hd2 q Hqg).
    + intros q. rewrite Hs1, Hs2, Hnext1. intros [[Hq| ->%list_elem_of_singleton]%elem_of_app|Hq]%elem_of_app.
      * destruct (Ho q) as (k & n & ? & ? & ->); [set_solver|]. exists k, n. split_and!; [done|lia|done].
      * exists "merge", (next_run s). split_and!; [by right|lia|done].
      * destruct (Ho q) as (k & n & ? & ? & ->); [set_solver|]. exists k, n. split_and!; [done|lia|done].
    + rewrite <- app_assoc. apply NoDup_app. split; [done|]. split.
      * intros q Hq [->%list_elem_of_singleton|Hq']%elem_of_app; [set_solver|].
        apply (Hd1 q Hq). set_solver.
      * simpl. constructor; [set_solver|done].
    + intros q Hq Hnot. unfold spool_region in *. rewrite Hs1, Hs2 in Hq.
      destruct (decide (q ∈ group)) as [Hqg|Hqg]; [by apply Hgone|].
      rewrite Hkept; [apply Hc; [done|set_solver]| |done]. intros ->. set_solver.
  - intros q Hq. apply Hkept; [intros ->; apply Hq, run_path_region|].
    intros Hqg. destruct (Ho q) as (k & n & _ & _ & ->); [set_solver|]. apply Hq, run_path_region.
Qed.

Lemma wp_merge_groups limit groups s acc ra rb w :
  (0 <= limit)%Z -> (Z.of_N (next_run s) + Z.of_nat (length groups) < u64_max)%Z ->
  run_files s (acc ++ concat groups) (ra ++ rb) w -> length acc = length ra ->
  Forall (fun g => 0 < length g <= MAX_MERGE_FAN_IN) groups -> Forall (fits limit) (concat rb) ->
  wp (io_fold merge_group (acc, s) groups) w E (fun res w' => exists ra',
    run_files res.2 res.1 (ra ++ ra') w' /\ concat ra' = concat rb /\
    length ra' = length groups /\ same_spool s res.2 /\
    (next_run res.2 <= next_run s + N.of_nat (length groups))%N /\ frame (spool_region s) w w').
Proof.
  revert s acc ra rb w. induction groups as [|g groups IH];
    intros s acc ra rb w Hlim Hnext Hrun Hacc Hsizes Hfits.
  - apply wp_ret. simpl in *. exists []. rewrite app_nil_r in *. pose proof Hrun as [Hf _ _ _].
    apply Forall2_length in Hf. rewrite length_app in Hf.
    destruct rb; [|simpl in Hf; lia]. rewrite app_nil_r in Hrun.
    split_and!; try done. lia.
  - simpl. apply Forall_cons in Hsizes as [Hg Hsizes].
    assert (length (acc ++ concat (g :: groups)) = length (ra ++ rb)) as Hlen
      by apply (Forall2_length _ _ _ (rf_files _ _ _ _ Hrun)).
    rewrite concat_cons, !length_app in Hlen.
    rewrite <- (take_drop (length g) rb) in Hfits, Hrun. rewrite concat_app in Hfits.
    apply Forall_app in Hfits as [Hfits1 Hfits2]. simpl in Hrun, Hnext.
    apply wp_bind. eapply wp_mono.
    { eapply (wp_merge_group limit s acc ra g (take (length g) rb)); [done|lia|exact Hrun|done| |done|done].
      rewrite length_take. lia. }
    intros [acc1 s1] w1 (Hacc1 & Hrun1 & Hsame1 & Hnext1 & Hfr1). simpl in *.
    eapply wp_mono; [eapply (IH s1 acc1); [done|lia|exact Hrun1|done|done|done]|].
    intros [acc2 s2] w2 (ra2 & Hrun2 & Hc2 & Hl2 & Hsame2 & Hnext2 & Hfr2). simpl in *.
    exists (concat (take (length g) rb) :: ra2). rewrite <- app_assoc in Hrun2. split_and!.
    + done.
    + by rewrite concat_cons, Hc2, <- concat_app, take_drop.
    + simpl. by rewrite Hl2.
    + by eapply same_spool_trans.
    + lia.
    + etrans; [exact Hfr1|]. by rewrite <- (same_spool_region s s1).
Qed.

Lemma wp_merge_levels limit fuel s paths rs w :
  (0 <= limit)%Z -> (Z.of_N (next_run s) + Z.of_nat (length paths) < u64_max)%Z ->
  run_files s paths rs w -> Forall (fits limit) (concat rs) -> length paths <= fuel ->
  wp (merge_levels fuel paths s) w E (fun paths' w' => exists s' rs',
    run_files s' paths' rs' w' /\ concat rs' = concat rs /\ length paths' <= MAX_MERGE_FAN_IN /\
    same_spool s s' /\ frame (spool_region s) w w').
Proof.
  revert s paths rs w. induction fuel as [|fuel IH]; intros s paths rs w Hlim Hnext Hrun Hfits Hfuel.
  { destruct paths; [|simpl in Hfuel; lia]. apply wp_ret. exists s, rs. split_and!; try done. simpl. lia. }
  cbn [merge_levels]. destruct (Nat.leb_spec (length paths) MAX_MERGE_FAN_IN) as [Hle|Hgt].
  { apply wp_ret. by exists s, rs. }
  destruct (chunks_spec MAX_MERGE_FAN_IN paths) as (Hc & Hsizes & Hcount); [unfold MAX_MERGE_FAN_IN; lia|].
  assert (2 * length (chunks MAX_MERGE_FAN_IN paths) <= length paths) as Hhalf
    by (unfold MAX_MERGE_FAN_IN in *; lia).
  apply wp_bind. eapply wp_mono.
  { apply (wp_merge_groups limit _ s [] [] rs); [done|lia| |done|done|done]. by rewrite Hc. }
  intros [paths1 s1] w1 (rs1 & Hrun1 & Hc1 & Hl1 & Hsame1 & Hnext1 & Hfr1). simpl in *.
  assert (length paths1 = length rs1) as Hl by apply (Forall2_length _ _ _ (rf_files _ _ _ _ Hrun1)).
  eapply wp_mono; [eapply (IH s1 paths1 rs1); [done|lia|done|by rewrite Hc1|]|].
  - unfold MAX_MERGE_FAN_IN in *. lia.
  - intros paths2 w2 (s2 & rs2 & Hrun2 & Hc2 & Hl2 & Hsame2 & Hfr2). exists s2, rs2. split_and!.
    + done.
    + congruence.
    + done.
    + by eapply same_spool_trans.
    + etrans; [exact Hfr1|]. by rewrite <- (same_spool_region s s1).
Qed.

(** The stream of a finished spool; when it is exhausted no file of the spool is left. *)
Lemma wp_finish_spool limit s l w :
  spool_holds limit s l w -> few l ->
  wp (finish_spool s) w E (fun st w' => yields st (sorting l) /\ frame (spool_region s) w w' /\
    cleanup_when_exhausted st = true /\ (forall p, p ∈ input_paths st -> spool_region s p) /\
    forall p, spool_region s p -> p ∉ input_paths st -> disk w' !! p = None).
Proof.
  intros [Hs _] Hfew. unfold finish_spool. apply wp_bind.
  eapply wp_mono; [by apply (wp_flush limit s l)|].
  intros s1 w1 ([Hlim Hpos Hfits (rs & buf & Hl & Hrun & Hne & Hbuf) Hnext] & Hnil & _ & _ & Hsame & Hfr).
  rewrite Hnil in Hbuf. destruct buf; [|done]. rewrite app_nil_r in Hl. subst l.
  pose proof (length_concat_nonempty rs Hne) as Hcount.
  assert (length (runs s1) = length rs) as Hlr by apply (Forall2_length _ _ _ (rf_files _ _ _ _ Hrun)).
  apply wp_bind. eapply wp_mono.
  { apply (wp_merge_levels limit _ (with_runs s1 []) (runs s1) rs).
    - lia.
    - simpl. rewrite Hnext. unfold few, u64_max in *. lia.
    - by destruct Hrun.
    - done.
    - done. }
  intros paths w2 (s2 & rs2 & [Hf Ho _ Hc] & Hc2 & Hl2 & Hsame2 & Hfr2).
  assert (spool_region s2 = spool_region s) as Hreg2.
  { rewrite (same_spool_region _ _ Hsame2). by rewrite <- (same_spool_region _ _ Hsame). }
  eapply wp_mono.
  { apply (wp_open_stream paths (sorting <$> rs2) true); [|done].
    apply Forall2_fmap_r. rewrite Forall2_same_length_lookup in Hf |- *.
    destruct Hf as [Hlen Hf]. split; [done|]. intros i p c Hp Hi. split; [by eapply Hf|].
    split; [|apply sort_by_key_sorted]. rewrite sort_by_key_perm.
    rewrite Forall_forall in Hfits |- *. intros r Hr. apply (fits_weaken limit); [lia|].
    apply Hfits. rewrite <- Hc2, elem_of_concat. exists c. split; [done|by eapply list_elem_of_lookup_2]. }
  intros st w3 (Hd & Hy & Hi & Hclean). rewrite sort_by_key_concat, Hc2 in Hy. split_and!; try done.
  - intros p Hp. rewrite Hd, Hfr2; [by apply Hfr|]. change (spool_region (with_runs s1 [])) with (spool_region s1).
    by rewrite (same_spool_region _ _ Hsame).
  - intros p. rewrite Hi. intros Hp. destruct (Ho p Hp) as (k & n & _ & _ & ->).
    rewrite <- Hreg2. apply run_path_region.
  - intros p Hp. rewrite Hi, Hd. intros Hnot. apply Hc; [|done]. by rewrite Hreg2.
Qed.

(** ** The whole *)
(** Push every record, then read the stream to its end. *)
Definition external_sort (root prefix : string) (chunk_limit : Z) (records : list T) : IO (list T) :=
  spool ← new_spool root prefix chunk_limit;
  spool ← io_fold push spool records;
  stream ← finish_spool spool;
  r ← for_each_item (stream_fuel stream) (fun acc item => mret (acc ++ [item_record item])) [] stream;
  mret r.1.

Lemma wp_push_all limit s l records w :
  spool_holds limit s l w -> Forall (fits limit) records -> few (l ++ records) ->
  wp (io_fold push s records) w E (fun s' w' => spool_holds limit s' (l ++ records) w' /\
    same_spool s s' /\ frame (spool_region s) w w').
Proof.
  intros Hs Hfits Hfew.
  apply wp_fold with (I := fun s' dn w' => spool_holds limit s' (l ++ dn) w' /\
    same_spool s s' /\ frame (spool_region s) w w').
  - rewrite app_nil_r. split_and!; try done.
  - intros s1 dn r rest w1 Hl (Hs1 & Hsame & Hfr). eapply wp_mono.
    + apply (wp_push limit s1 (l ++ dn)); [done| |].
      * rewrite Forall_forall in Hfits. apply Hfits. rewrite Hl. set_solver.
      * rewrite <- app_assoc. apply (few_app _ rest). rewrite <- !app_assoc. simpl. by rewrite <- Hl.
    + intros s2 w2 (Hs2 & Hsame2 & Hfr2). rewrite app_assoc. split_and!; [done|by eapply same_spool_trans|].
      etrans; [exact Hfr|]. by rewrite <- (same_spool_region s s1).
  - intros s' w' (? & ? & ?). done.
Qed.

Lemma wp_external_sort root prefix limit records w :
  (0 < limit)%Z -> Forall (fits limit) records -> few records ->
  (forall p, region root prefix p -> disk w !! p = None) ->
  wp (external_sort root prefix limit records) w E (fun out w' =>
    out = sorting records /\ disk w' = disk w).
Proof.
  intros Hl Hfits Hfew Hclean. unfold external_sort.
  apply wp_bind. eapply wp_mono; [by apply (wp_new_spool root prefix limit)|].
  intros s1 w1 (-> & Hs1 & Hreg). apply wp_bind.
  eapply wp_mono; [by apply (wp_push_all limit s1 [] records)|].
  intros s2 w2 (Hs2 & Hsame & Hfr2). apply wp_bind.
  eapply wp_mono; [by apply (wp_finish_spool limit s2 records)|].
  intros st w3 (Hy & Hfr3 & Hc & Hin & Hout). apply wp_bind.
  rewrite (same_spool_region _ _ Hsame), Hreg in *.
  apply (wp_for_each_item (fun acc dn v => acc = dn /\ disk v = disk w3)
    (fun acc item => mret (acc ++ [item_record item])) (stream_fuel st) [] st (sorting records)).
  - intros acc d v v' Hv [? ?]. split; [done|congruence].
  - intros acc d i r rest v _ [-> Hd]. by apply wp_ret.
  - done.
  - by apply yields_fuel.
  - done.
  - intros acc st' w4 w5 [-> Hd4] Hrem _. apply wp_ret. split; [done|].
    unfold inputs_removed in Hrem. rewrite Hc in Hrem. destruct Hrem as [Hfr5 Hgone].
    apply map_eq. intros p. destruct (decide (p ∈ input_paths st)) as [Hp|Hp].
    + rewrite Hgone by done. symmetry. by apply Hclean, Hin.
    + rewrite Hfr5, Hd4 by done. destruct (disk w3 !! p) as [bs|] eqn:E3.
      * symmetry. rewrite <- E3. rewrite Hfr3, Hfr2; [done|..].
        all: intros Hr; by rewrite (Hout p Hr Hp) in E3.
      * destruct (disk w !! p) as [bs|] eqn:E0; [|done]. exfalso.
        assert (~ region root prefix p) as Hr by (intros Hr; by rewrite (Hclean p Hr) in E0).
        rewrite Hfr3, Hfr2, E0 in E3; done.
Qed.
End Spool.

(** C28: the external sort is a stable sort: whatever the chunk limit and the number of
    records (so whatever the number of runs and of merge levels), pushing the records and
    reading the finished spool gives exactly the records ordered by key, records of one
    key in the order they were pushed; it does not fail, and when the stream is exhausted
    every file is as it was, no run file left behind.  The records must encode to what
    decodes to them, and fit the machine's sizes. *)
Theorem external_sort_correct {T K : Type} `{OrdLaws K} `{RecordCodec T} `{MemoryLayout T}
    `{SpillRecord T K} root prefix limit (records : list T) w :
  (0 < limit)%Z -> Forall (fits limit) records -> few records ->
  (forall p, region root prefix p -> disk w !! p = None) ->
  wp (external_sort root prefix limit records) w (fun _ => False) (fun out w' =>
    out = sort_by_key sort_key records /\ disk w' = disk w).
Proof. apply wp_external_sort. Qed.

(** Numbers below 256, ordered by their tens, a byte each. *)
Definition byte_codec : RecordCodec Z := {|
  encode_record := fun n => Ok [n];
  decode_record := fun l => match l with [n] => Ok n | _ => Err (JsonError "length") end
|}.
Definition byte_layout : MemoryLayout Z :=
  {| vec_capacity := fun _ => 8%Z; buffered_record_size := 40%Z; heap_item_size := 64%Z |}.
Definition by_tens : SpillRecord Z Z := {| sort_key := fun n => (n / 10)%Z; key_bytes := fun _ => 8%Z |}.
Definition empty_world : World :=
  {| disk := ∅; metrics := {| bytes_written := 0; current_bytes := 0; high_water_bytes := 0 |} |}.

(** Forty runs of one record each: more than one merge can take. *)
Definition forty_records : list Z := (fun i => (i * 7) mod 40)%Z <$> seqZ 0 40.

Lemma byte_fits n limit :
  (0 <= limit <= 1000)%Z -> @fits Z Z byte_codec byte_layout by_tens limit n.
Proof.
  intros Hl. split; try done; try (split; done).
  all: unfold buffer_bytes, item_bytes, u64_max, LENGTH_PREFIX_BYTES; simpl; lia.
Qed.

Lemma external_sort_correct_witness :
  wp (@external_sort Z Z _ byte_codec byte_layout by_tens "runs" "staged" 50 forty_records)
    empty_world (fun _ => False) (fun out w' =>
      out = @sort_by_key Z Z _ (@sort_key Z Z by_tens) forty_records /\ disk w' = disk empty_world).
Proof.
  refine (@external_sort_correct Z Z _ _ byte_codec byte_layout by_tens "runs" "staged" 50 forty_records
           empty_world _ _ _ _).
  - lia.
  - apply Forall_forall. intros n _. apply byte_fits. lia.
  - vm_compute. congruence.
  - intros p _. apply lookup_empty.
Defined.

Example external_sort_runs :
  match @external_sort Z Z _ byte_codec byte_layout by_tens "runs" "staged" 50 [12; 7; 11; 3]%Z empty_world with
  | Ok (out, _) => out = [7; 3; 12; 11]%Z
  | Err _ => False
  end.
Proof. vm_compute. reflexivity. Qed.
