(* ===== verification/StagedRows.v ===== *)
(** * Staged rows and how rows of one identifier are merged
      (src/staging_writer/rows.rs, src/staging_writer/merge.rs)

    Several files can contribute rows for one node or edge.  Merging keeps, field by field,
    the first value that is not empty. *)
From Stdlib Require Import Floats.SpecFloat.
From S2P Require Import Prelude Order Text Json Rows.

Record NodeStagedRow := {
  ns_id : string;
  ns_label : string;
  ns_kind : string;
  ns_language : string;
  ns_grammar_version : option string;
  ns_path : string;
  ns_qualified_name : string;
  ns_scope_id : string;
  ns_line_start : option Z;
  ns_line_end : option Z;
  ns_byte_start : option Z;
  ns_byte_end : option Z;
  ns_tree_sitter_node_type : string;
  ns_capture_name : string;
  ns_summary : string;
  ns_text : string;
  ns_metadata : Value;
  ns_content_hash : option string
}.

Record EdgeStagedRow := {
  es_id : string;
  es_kind : string;
  es_source_id : string;
  es_target_id : string;
  es_confidence : f64;
  es_field_name : option string;
  es_child_index : option Z;
  es_line_start : option Z;
  es_line_end : option Z;
  es_byte_start : option Z;
  es_byte_end : option Z;
  es_metadata : Value
}.

Definition node_fields (n : GraphNodeRow) (content_hash : option string) : NodeStagedRow := {|
  ns_id := n_id n; ns_label := n_label n; ns_kind := n_kind n; ns_language := n_language n;
  ns_grammar_version := n_grammar_version n; ns_path := n_path n;
  ns_qualified_name := n_qualified_name n; ns_scope_id := n_scope_id n;
  ns_line_start := n_line_start n; ns_line_end := n_line_end n;
  ns_byte_start := n_byte_start n; ns_byte_end := n_byte_end n;
  ns_tree_sitter_node_type := n_tree_sitter_node_type n; ns_capture_name := n_capture_name n;
  ns_summary := n_summary n; ns_text := n_summary n; ns_metadata := n_metadata n;
  ns_content_hash := content_hash
|}.

Definition edge_fields (e : GraphEdgeRow) : EdgeStagedRow := {|
  es_id := e_id e; es_kind := e_kind e; es_source_id := e_source_id e;
  es_target_id := e_target_id e; es_confidence := e_confidence e; es_field_name := e_field_name e;
  es_child_index := e_child_index e; es_line_start := e_line_start e; es_line_end := e_line_end e;
  es_byte_start := e_byte_start e; es_byte_end := e_byte_end e; es_metadata := e_metadata e
|}.

(** ** Merging *)
Definition merge_string (existing incoming : string) : string :=
  if is_empty existing && negb (is_empty incoming) then incoming else existing.

Definition merge_optional_string (existing incoming : option string) : option string :=
  match incoming with
  | Some s =>
      if negb (is_empty s)
         && match existing with None => true | Some current => is_empty current end
      then Some s else existing
  | None => existing
  end.

Definition merge_optional_i64 (existing incoming : option Z) : option Z :=
  match existing, incoming with None, Some z => Some z | _, _ => existing end.

Definition json_value_is_empty (v : Value) : bool :=
  match v with
  | Null => true
  | VString s => is_empty s
  | VArray l => list_is_empty l
  | VObject m => list_is_empty m
  | VBool _ | VNumber _ => false
  end.

Definition merge_value (existing incoming : Value) : Value :=
  if json_value_is_empty existing && negb (json_value_is_empty incoming) then incoming
  else existing.

(** [f64::EPSILON]: 2^-52 *)
Definition f64_epsilon : f64 := S754_finite false 4503599627370496 (-104).
Definition f64_sub (x y : f64) : f64 := SFsub 53 1024 x y.
(** [(c - 1.0).abs()] *)
Definition distance_to_one (c : f64) : f64 := SFabs (f64_sub c f64_one).

Definition merge_confidence (existing incoming : f64) : f64 :=
  if SFltb (distance_to_one existing) f64_epsilon
     && SFleb f64_epsilon (distance_to_one incoming)
  then incoming else existing.

Definition merge_node_value (x y : NodeStagedRow) : NodeStagedRow := {|
  ns_id := merge_string (ns_id x) (ns_id y);
  ns_label := merge_string (ns_label x) (ns_label y);
  ns_kind := merge_string (ns_kind x) (ns_kind y);
  ns_language := merge_string (ns_language x) (ns_language y);
  ns_grammar_version := merge_optional_string (ns_grammar_version x) (ns_grammar_version y);
  ns_path := merge_string (ns_path x) (ns_path y);
  ns_qualified_name := merge_string (ns_qualified_name x) (ns_qualified_name y);
  ns_scope_id := merge_string (ns_scope_id x) (ns_scope_id y);
  ns_line_start := merge_optional_i64 (ns_line_start x) (ns_line_start y);
  ns_line_end := merge_optional_i64 (ns_line_end x) (ns_line_end y);
  ns_byte_start := merge_optional_i64 (ns_byte_start x) (ns_byte_start y);
  ns_byte_end := merge_optional_i64 (ns_byte_end x) (ns_byte_end y);
  ns_tree_sitter_node_type := merge_string (ns_tree_sitter_node_type x) (ns_tree_sitter_node_type y);
  ns_capture_name := merge_string (ns_capture_name x) (ns_capture_name y);
  ns_summary := merge_string (ns_summary x) (ns_summary y);
  ns_text := ns_text x;
  ns_metadata := merge_value (ns_metadata x) (ns_metadata y);
  ns_content_hash := merge_optional_string (ns_content_hash x) (ns_content_hash y)
|}.

Definition merge_edge_value (x y : EdgeStagedRow) : EdgeStagedRow := {|
  es_id := merge_string (es_id x) (es_id y);
  es_kind := merge_string (es_kind x) (es_kind y);
  es_source_id := merge_string (es_source_id x) (es_source_id y);
  es_target_id := merge_string (es_target_id x) (es_target_id y);
  es_confidence := merge_confidence (es_confidence x) (es_confidence y);
  es_field_name := merge_optional_string (es_field_name x) (es_field_name y);
  es_child_index := merge_optional_i64 (es_child_index x) (es_child_index y);
  es_line_start := merge_optional_i64 (es_line_start x) (es_line_start y);
  es_line_end := merge_optional_i64 (es_line_end x) (es_line_end y);
  es_byte_start := merge_optional_i64 (es_byte_start x) (es_byte_start y);
  es_byte_end := merge_optional_i64 (es_byte_end x) (es_byte_end y);
  es_metadata := merge_value (es_metadata x) (es_metadata y)
|}.

(** ** The reference: the first value that says something *)
(** [first_with says d l]: the first element of [l] that says something, else [d]. *)
Definition first_with {A} (says : A -> bool) (x : A) (l : list A) : A :=
  if says x then x else default x (List.find says l).

Definition says_string (s : string) : bool := negb (is_empty s).
Definition says_optional (o : option string) : bool :=
  match o with Some s => negb (is_empty s) | None => false end.
Definition says_i64 (o : option Z) : bool := match o with Some _ => true | None => false end.
Definition says_value (v : Value) : bool := negb (json_value_is_empty v).

Lemma first_with_nil {A} (says : A -> bool) x : first_with says x [] = x.
Proof. unfold first_with. by destruct (says x). Qed.

(** Merging in one more value. *)
Lemma first_with_merge {A} (says : A -> bool) (merge : A -> A -> A) :
  (forall x y, merge x y = if negb (says x) && says y then y else x) ->
  forall x y l, first_with says (merge x y) l = first_with says x (y :: l).
Proof.
  intros Hm x y l. rewrite Hm. unfold first_with. simpl.
  destruct (says x) eqn:Ex; simpl; [by rewrite Ex|].
  destruct (says y) eqn:Ey; [by rewrite Ey|]. by rewrite Ex.
Qed.

Lemma first_string x y l :
  first_with says_string (merge_string x y) l = first_with says_string x (y :: l).
Proof.
  apply first_with_merge. intros a b. unfold merge_string, says_string. by rewrite negb_involutive.
Qed.

Lemma first_optional x y l :
  first_with says_optional (merge_optional_string x y) l = first_with says_optional x (y :: l).
Proof.
  apply first_with_merge. intros a [s|]; unfold merge_optional_string; simpl.
  - destruct a as [c|]; simpl; [rewrite negb_involutive|]; by rewrite andb_comm.
  - by rewrite andb_false_r.
Qed.

Lemma first_i64 x y l : first_with says_i64 (merge_optional_i64 x y) l = first_with says_i64 x (y :: l).
Proof. apply first_with_merge. by intros [a|] [b|]. Qed.

Lemma first_value x y l : first_with says_value (merge_value x y) l = first_with says_value x (y :: l).
Proof.
  apply first_with_merge. intros a b. unfold merge_value, says_value. by rewrite negb_involutive.
Qed.

(** The default confidence, one, is near itself; a far one stays. *)
Definition near_one (c : f64) : bool := SFltb (distance_to_one c) f64_epsilon.
Definition far_from_one (c : f64) : bool := SFleb f64_epsilon (distance_to_one c).

Definition first_confidence (x : f64) (l : list f64) : f64 :=
  if near_one x then default x (List.find far_from_one l) else x.

Lemma first_confidence_nil x : first_confidence x [] = x.
Proof. unfold first_confidence. by destruct (near_one x). Qed.

Lemma SFleb_not_ltb m e d :
  SFleb (S754_finite false m e) d = true -> SFltb d (S754_finite false m e) = false.
Proof.
  unfold SFleb, SFltb. destruct d as [[|]|[|]| |[|] m' e']; simpl; try done.
  rewrite (Z.compare_antisym e e'). destruct (Z.compare e e'); simpl; try done.
  change (Pos.compare_cont Eq) with Pos.compare. rewrite (Pos.compare_antisym m m').
  by destruct (Pos.compare m m').
Qed.

Lemma far_not_near c : far_from_one c = true -> near_one c = false.
Proof. apply SFleb_not_ltb. Qed.

Lemma first_confidence_merge x y l :
  first_confidence (merge_confidence x y) l = first_confidence x (y :: l).
Proof.
  unfold first_confidence, merge_confidence. fold (near_one x) (far_from_one y). simpl.
  destruct (near_one x) eqn:Ex; simpl; [|by rewrite Ex].
  destruct (far_from_one y) eqn:Ey; [by rewrite (far_not_near _ Ey)|]. by rewrite Ex.
Qed.

(** What the rows [x :: l] of one identifier are merged to. *)
Definition node_spec (x : NodeStagedRow) (l : list NodeStagedRow) : NodeStagedRow :=
  let str f := first_with says_string (f x) (f <$> l) in
  let opt f := first_with says_optional (f x) (f <$> l) in
  let int f := first_with says_i64 (f x) (f <$> l) in {|
  ns_id := str ns_id; ns_label := str ns_label; ns_kind := str ns_kind;
  ns_language := str ns_language; ns_grammar_version := opt ns_grammar_version;
  ns_path := str ns_path; ns_qualified_name := str ns_qualified_name;
  ns_scope_id := str ns_scope_id; ns_line_start := int ns_line_start;
  ns_line_end := int ns_line_end; ns_byte_start := int ns_byte_start;
  ns_byte_end := int ns_byte_end; ns_tree_sitter_node_type := str ns_tree_sitter_node_type;
  ns_capture_name := str ns_capture_name; ns_summary := str ns_summary; ns_text := ns_text x;
  ns_metadata := first_with says_value (ns_metadata x) (ns_metadata <$> l);
  ns_content_hash := opt ns_content_hash
|}.

Definition edge_spec (x : EdgeStagedRow) (l : list EdgeStagedRow) : EdgeStagedRow :=
  let str f := first_with says_string (f x) (f <$> l) in
  let int f := first_with says_i64 (f x) (f <$> l) in {|
  es_id := str es_id; es_kind := str es_kind; es_source_id := str es_source_id;
  es_target_id := str es_target_id;
  es_confidence := first_confidence (es_confidence x) (es_confidence <$> l);
  es_field_name := first_with says_optional (es_field_name x) (es_field_name <$> l);
  es_child_index := int es_child_index; es_line_start := int es_line_start;
  es_line_end := int es_line_end; es_byte_start := int es_byte_start; es_byte_end := int es_byte_end;
  es_metadata := first_with says_value (es_metadata x) (es_metadata <$> l)
|}.

#[local] Hint Resolve first_string first_optional first_i64 first_value first_confidence_merge : core.

Lemma fold_merge_node l x : fold_left merge_node_value l x = node_spec x l.
Proof.
  revert x. induction l as [|y l IH]; intros x; simpl.
  - destruct x. unfold node_spec. simpl. by rewrite !first_with_nil.
  - rewrite IH. unfold node_spec. simpl. f_equal; auto.
Qed.

Lemma fold_merge_edge l x : fold_left merge_edge_value l x = edge_spec x l.
Proof.
  revert x. induction l as [|y l IH]; intros x; simpl.
  - destruct x. unfold edge_spec. simpl. by rewrite !first_with_nil, first_confidence_nil.
  - rewrite IH. unfold edge_spec. simpl. f_equal; auto.
Qed.

(** C15: the rows of one identifier merge to what the first values of their fields say.  Of
    a node, every field but the text is the first value, in source order, that is not empty
    (null, the empty string, an empty array or object), and the text is the first row's,
    empty or not.  Of an edge, every field but the confidence is the first value that is
    not empty, and the confidence is the first row's, unless that is one (to within the
    machine epsilon) and a later row has one that is not: then it is the first such. *)
Theorem merge_keeps_first_values :
  (forall l x, fold_left merge_node_value l x = node_spec x l) /\
  (forall l x, fold_left merge_edge_value l x = edge_spec x l).
Proof. split; [apply fold_merge_node|apply fold_merge_edge]. Qed.
