(* ===== verification/Sinks.v ===== *)
(** * Output files of the staging writer
      (src/staging_writer/files.rs and the sinks of src/staging_writer/accumulator.rs)

    Rows go to one file per table, or per relation, side and pair of tables, and to a new
    file whenever the next row would take the file over the chunk limit; every file comes
    with the COPY statement that loads it. *)
From S2P Require Import Prelude Order Text Json Hash Protocol Disk Spill.

(** ** files.rs *)
Definition comma : Z := 44.
Definition quote : Z := 34.
Definition is_csv_special (b : Z) : bool :=
  Z.eqb b comma || Z.eqb b quote || Z.eqb b 10 || Z.eqb b 13.

Definition slice (start stop : nat) (l : list Z) : list Z := take (stop - start) (drop start l).

(** One byte of the loop: what is written so far, and where the unwritten part starts. *)
Definition csv_step (value : list Z) (st : list Z * nat) (indexed : nat * Z) : list Z * nat :=
  let (out, start) := st in
  let (index, byte) := indexed in
  if negb (Z.eqb byte quote) then (out, start)
  else (out ++ slice start index value ++ [quote; quote], index + 1).

Definition enumerate (l : list Z) : list (nat * Z) := zip (seq 0 (length l)) l.

Definition write_csv_field (s : string) : list Z :=
  let value := bytes_of s in
  if negb (existsb is_csv_special value) then value
  else
    let (out, start) := fold_left (csv_step value) (enumerate value) ([quote], 0) in
    out ++ drop start value ++ [quote].

(** A multi-byte character becomes one underscore, as [chars] counts it once. *)
Fixpoint stem_chars (s : string) : string :=
  match s with
  | EmptyString => EmptyString
  | String c s =>
      if is_continuation c then stem_chars s
      else String (if is_ascii_alnum c then ascii_lower c else "_"%char) (stem_chars s)
  end.

Definition stage_file_stem (name : string) : string :=
  let stem := trim_matches "_" (stem_chars name) in
  if is_empty stem then "table" else stem.

(** [s.replace(c, with)] *)
Fixpoint replace_with (c : ascii) (by_ : string) (s : string) : string :=
  match s with
  | EmptyString => EmptyString
  | String a s =>
      if Ascii.eqb a c then by_ +:+ replace_with c by_ s else String a (replace_with c by_ s)
  end.

Definition copy_path (path : string) : string :=
  let p := replace_with "\" "/" path in
  let p := match strip_prefix "//?/UNC/" p with
           | Some stripped => "//" +:+ stripped
           | None => match strip_prefix "//?/" p with Some stripped => stripped | None => p end
           end in
  replace_with (ascii_of_nat 34) (String "\" (String (ascii_of_nat 34) "")) p.

(** ** Paths and statements *)
Definition quoted (s : string) : string :=
  String (ascii_of_nat 34) s +:+ String (ascii_of_nat 34) "".

Definition chunked_output_path (root stem extension : string) (index : Z) : string :=
  if Z.eqb index 0 then path_join root (stem +:+ "." +:+ extension)
  else path_join root (stem +:+ "__" +:+ pad 6 (Z.to_N index) +:+ "." +:+ extension).

(** ** Table files *)
Record JsonTableSink := {
  js_staging_dir : string;
  js_chunk_limit : Z;
  js_current_table : option string;
  js_chunk_index : Z;
  js_writer : option string;
  js_first_row : bool;
  js_current_bytes : Z;
  js_copy_statements : list string;
  js_row_count : Z
}.

Definition new_json_sink (staging_dir : string) (chunk_limit : Z) : JsonTableSink := {|
  js_staging_dir := staging_dir; js_chunk_limit := chunk_limit; js_current_table := None;
  js_chunk_index := 0; js_writer := None; js_first_row := true; js_current_bytes := 0;
  js_copy_statements := []; js_row_count := 0
|}.

Definition json_chunk_path (staging_dir table : string) (index : Z) : string :=
  chunked_output_path staging_dir (stage_file_stem table) "json" index.

Definition json_statement (table path : string) : string :=
  "COPY `" +:+ table +:+ "` FROM " +:+ quoted (copy_path path) +:+ ";".

Definition json_open_chunk (k : JsonTableSink) : IO JsonTableSink :=
  match js_current_table k with
  | None => io_fail (InvalidInput "staging JSON table is not selected")
  | Some table =>
      let path := json_chunk_path (js_staging_dir k) table (js_chunk_index k) in
      _ ← create_file path;
      _ ← append_file path (bytes_of "[");
      mret {| js_staging_dir := js_staging_dir k; js_chunk_limit := js_chunk_limit k;
              js_current_table := js_current_table k; js_chunk_index := js_chunk_index k;
              js_writer := Some path; js_first_row := true; js_current_bytes := 1;
              js_copy_statements := js_copy_statements k ++ [json_statement table path];
              js_row_count := js_row_count k |}
  end.

(** [b"]\n"] *)
Definition json_end : list Z := [93; 10]%Z.

Definition json_close_chunk (k : JsonTableSink) : IO JsonTableSink :=
  _ ← match js_writer k with Some path => append_file path json_end | None => mret () end;
  mret {| js_staging_dir := js_staging_dir k; js_chunk_limit := js_chunk_limit k;
          js_current_table := js_current_table k; js_chunk_index := js_chunk_index k;
          js_writer := None; js_first_row := js_first_row k; js_current_bytes := 0;
          js_copy_statements := js_copy_statements k; js_row_count := js_row_count k |}.

Definition json_select (k : JsonTableSink) (table : string) (index : Z) : JsonTableSink := {|
  js_staging_dir := js_staging_dir k; js_chunk_limit := js_chunk_limit k;
  js_current_table := Some table; js_chunk_index := index; js_writer := js_writer k;
  js_first_row := js_first_row k; js_current_bytes := js_current_bytes k;
  js_copy_statements := js_copy_statements k; js_row_count := js_row_count k
|}.

Definition checked (message : string) (o : option Z) : IO Z := io_try (ok_or (InvalidInput message) o).

Definition json_push {T} `{RecordCodec T, MemoryLayout T} (k : JsonTableSink) (table : string) (row : T)
    : IO JsonTableSink :=
  encoded ← io_try (encode_record row);
  _ ← account (add_live (vec_capacity encoded));
  k ← (if bool_decide (js_current_table k = Some table) then mret k
       else k ← json_close_chunk k; json_open_chunk (json_select k table 0));
  let separator_bytes := if js_first_row k then 0%Z else 1%Z in
  projected_bytes ← checked "staging JSON size overflow"
    (checked_sum (js_current_bytes k) [separator_bytes; Z.of_nat (length encoded); 2%Z]);
  k ← (if negb (js_first_row k) && (js_chunk_limit k <? projected_bytes)%Z then
         k ← json_close_chunk k;
         index ← checked "staging JSON chunk index overflow" (checked_add_u64 (js_chunk_index k) 1);
         json_open_chunk (json_select k table index)
       else mret k);
  path ← io_try (ok_or (InvalidInput "staging JSON writer is not open") (js_writer k));
  bytes ← (if js_first_row k then mret (js_current_bytes k)
           else _ ← append_file path [comma];
                checked "staging JSON byte count overflow" (checked_add_u64 (js_current_bytes k) 1));
  _ ← append_file path encoded;
  bytes ← checked "staging JSON byte count overflow"
            (checked_add_u64 bytes (Z.of_nat (length encoded)));
  rows ← checked "staging row count overflow" (checked_add_u64 (js_row_count k) 1);
  _ ← account (release_live (vec_capacity encoded));
  mret {| js_staging_dir := js_staging_dir k; js_chunk_limit := js_chunk_limit k;
          js_current_table := js_current_table k; js_chunk_index := js_chunk_index k;
          js_writer := js_writer k; js_first_row := false; js_current_bytes := bytes;
          js_copy_statements := js_copy_statements k; js_row_count := rows |}.

Definition json_finish (k : JsonTableSink) : IO (list string * Z) :=
  k ← json_close_chunk k; mret (js_copy_statements k, js_row_count k).

(** ** Connector files *)
Inductive EndpointSide := Source | Target.
#[export] Instance EndpointSide_eq_dec : EqDecision EndpointSide.
Proof. solve_decision. Defined.

Definition side_str (s : EndpointSide) : string :=
  match s with Source => "source" | Target => "target" end.

Record ConnectorRecord := {
  c_relation : string;
  c_side : EndpointSide;
  c_from_type : string;
  c_to_type : string;
  c_from_id : string;
  c_to_id : string;
  c_role : string
}.

(** Relation, side, and the tables it connects. *)
Definition ConnectorGroup : Type := string * EndpointSide * string * string.
Definition connector_group (c : ConnectorRecord) : ConnectorGroup :=
  (c_relation c, c_side c, c_from_type c, c_to_type c).

Record ConnectorSink := {
  cs_staging_dir : string;
  cs_chunk_limit : Z;
  cs_current_group : option ConnectorGroup;
  cs_chunk_index : Z;
  cs_writer : option string;
  cs_current_bytes : Z;
  cs_rows_in_chunk : Z;
  cs_copy_statements : list string;
  cs_row_count : Z
}.

Definition new_connector_sink (staging_dir : string) (chunk_limit : Z) : ConnectorSink := {|
  cs_staging_dir := staging_dir; cs_chunk_limit := chunk_limit; cs_current_group := None;
  cs_chunk_index := 0; cs_writer := None; cs_current_bytes := 0; cs_rows_in_chunk := 0;
  cs_copy_statements := []; cs_row_count := 0
|}.

(** [b"\r\n"] *)
Definition crlf : list Z := [13; 10]%Z.
Definition CONNECTOR_HEADER : list Z := bytes_of "from_id,to_id,role" ++ crlf.

Definition encode_connector (c : ConnectorRecord) : list Z :=
  write_csv_field (c_from_id c) ++ [comma] ++ write_csv_field (c_to_id c) ++ [comma]
  ++ write_csv_field (c_role c) ++ crlf.

Definition connector_table (g : ConnectorGroup) : string :=
  match g with
  | (relation, Source, _, _) => "FROM_" +:+ relation
  | (relation, Target, _, _) => "TO_" +:+ relation
  end.

Definition connector_stem (g : ConnectorGroup) : string :=
  stage_file_stem (connector_table g) +:+ "__" +:+ stage_file_stem g.1.2 +:+ "__"
  +:+ stage_file_stem g.2.

Definition connector_chunk_path (staging_dir : string) (g : ConnectorGroup) (index : Z) : string :=
  chunked_output_path staging_dir (connector_stem g) "csv" index.

Definition connector_statement (g : ConnectorGroup) (path : string) : string :=
  "COPY `" +:+ connector_table g +:+ "` FROM " +:+ quoted (copy_path path)
  +:+ " (header=true, from=" +:+ quoted g.1.2 +:+ ", to=" +:+ quoted g.2 +:+ ");".

Definition connector_open_chunk (k : ConnectorSink) : IO ConnectorSink :=
  match cs_current_group k with
  | None => io_fail (InvalidInput "staging connector group is not selected")
  | Some g =>
      let path := connector_chunk_path (cs_staging_dir k) g (cs_chunk_index k) in
      _ ← create_file path;
      _ ← append_file path CONNECTOR_HEADER;
      mret {| cs_staging_dir := cs_staging_dir k; cs_chunk_limit := cs_chunk_limit k;
              cs_current_group := cs_current_group k; cs_chunk_index := cs_chunk_index k;
              cs_writer := Some path; cs_current_bytes := Z.of_nat (length CONNECTOR_HEADER);
              cs_rows_in_chunk := 0;
              cs_copy_statements := cs_copy_statements k ++ [connector_statement g path];
              cs_row_count := cs_row_count k |}
  end.

Definition connector_close_chunk (k : ConnectorSink) : ConnectorSink := {|
  cs_staging_dir := cs_staging_dir k; cs_chunk_limit := cs_chunk_limit k;
  cs_current_group := cs_current_group k; cs_chunk_index := cs_chunk_index k;
  cs_writer := None; cs_current_bytes := 0; cs_rows_in_chunk := 0;
  cs_copy_statements := cs_copy_statements k; cs_row_count := cs_row_count k
|}.

Definition connector_select (k : ConnectorSink) (g : ConnectorGroup) (index : Z) : ConnectorSink := {|
  cs_staging_dir := cs_staging_dir k; cs_chunk_limit := cs_chunk_limit k;
  cs_current_group := Some g; cs_chunk_index := index; cs_writer := cs_writer k;
  cs_current_bytes := cs_current_bytes k; cs_rows_in_chunk := cs_rows_in_chunk k;
  cs_copy_statements := cs_copy_statements k; cs_row_count := cs_row_count k
|}.

Definition connector_push `{MemoryLayout ConnectorRecord} (k : ConnectorSink) (c : ConnectorRecord)
    : IO ConnectorSink :=
  let g := connector_group c in
  k ← (if bool_decide (cs_current_group k = Some g) then mret k
       else connector_open_chunk (connector_select (connector_close_chunk k) g 0));
  let encoded := encode_connector c in
  _ ← account (add_live (vec_capacity encoded));
  projected_bytes ← checked "staging connector size overflow"
    (checked_add_u64 (cs_current_bytes k) (Z.of_nat (length encoded)));
  k ← (if (0 <? cs_rows_in_chunk k)%Z && (cs_chunk_limit k <? projected_bytes)%Z then
         let k := connector_close_chunk k in
         index ← checked "staging connector chunk index overflow" (checked_add_u64 (cs_chunk_index k) 1);
         connector_open_chunk (connector_select k g index)
       else mret k);
  path ← io_try (ok_or (InvalidInput "staging connector writer is not open") (cs_writer k));
  _ ← append_file path encoded;
  bytes ← checked "staging connector byte count overflow"
            (checked_add_u64 (cs_current_bytes k) (Z.of_nat (length encoded)));
  in_chunk ← checked "staging connector chunk row count overflow" (checked_add_u64 (cs_rows_in_chunk k) 1);
  rows ← checked "staging connector row count overflow" (checked_add_u64 (cs_row_count k) 1);
  _ ← account (release_live (vec_capacity encoded));
  mret {| cs_staging_dir := cs_staging_dir k; cs_chunk_limit := cs_chunk_limit k;
          cs_current_group := cs_current_group k; cs_chunk_index := cs_chunk_index k;
          cs_writer := cs_writer k; cs_current_bytes := bytes; cs_rows_in_chunk := in_chunk;
          cs_copy_statements := cs_copy_statements k; cs_row_count := rows |}.

Definition connector_finish (k : ConnectorSink) : IO (list string * Z) :=
  let k := connector_close_chunk k in mret (cs_copy_statements k, cs_row_count k).
