(* ===== verification/SinkLaws.v ===== *)
(** * What the sinks write

    The specification of a sink is a greedy division of its rows into chunks: a row opens a
    chunk when its group changes or when it would take the chunk over the limit.  The sinks
    produce exactly the files and the COPY statements of these chunks. *)
From S2P Require Import Prelude Order Text Json Hash Protocol Disk Spill StreamLaws Sinks.

(** ** Chunks *)
Record Chunk (G R : Type) := { ck_group : G; ck_index : Z; ck_rows : list R }.
Arguments ck_group {G R}.
Arguments ck_index {G R}.
Arguments ck_rows {G R}.

Section chunks.
Context {G R : Type} `{EqDecision G} (limit : Z) (bytes : list R -> list Z).
Implicit Types (cs : list (Chunk G R)) (x : G * R).

Definition first_of x : Chunk G R := {| ck_group := x.1; ck_index := 0; ck_rows := [x.2] |}.
Definition next_of (c : Chunk G R) x : Chunk G R :=
  {| ck_group := x.1; ck_index := ck_index c + 1; ck_rows := [x.2] |}.
Definition grown (c : Chunk G R) x : Chunk G R :=
  {| ck_group := ck_group c; ck_index := ck_index c; ck_rows := ck_rows c ++ [x.2] |}.

Definition chunk_add cs x : list (Chunk G R) :=
  match last cs with
  | None => [first_of x]
  | Some c =>
      if decide (ck_group c = x.1) then
        if (limit <? Z.of_nat (length (bytes (ck_rows c ++ [x.2]))))%Z then cs ++ [next_of c x]
        else removelast cs ++ [grown c x]
      else cs ++ [first_of x]
  end.
Definition chunks_of (l : list (G * R)) : list (Chunk G R) := fold_left chunk_add l [].

(** How a row extends the chunks. *)
Variant add_step cs x : list (Chunk G R) -> Prop :=
| add_first : (forall c, last cs = Some c -> ck_group c <> x.1) -> add_step cs x (cs ++ [first_of x])
| add_next cs0 c : cs = cs0 ++ [c] -> ck_group c = x.1 ->
    (limit < Z.of_nat (length (bytes (ck_rows c ++ [x.2]))))%Z -> add_step cs x (cs ++ [next_of c x])
| add_grow cs0 c : cs = cs0 ++ [c] -> ck_group c = x.1 ->
    (Z.of_nat (length (bytes (ck_rows c ++ [x.2]))) <= limit)%Z -> add_step cs x (cs0 ++ [grown c x]).

Lemma chunk_add_step cs x : add_step cs x (chunk_add cs x).
Proof.
  unfold chunk_add. destruct cs as [|c cs0 _] using rev_ind; [by apply (add_first [] x)|].
  rewrite last_snoc. case_decide as Hg.
  - destruct (Z.ltb_spec limit (Z.of_nat (length (bytes (ck_rows c ++ [x.2]))))).
    + by eapply add_next.
    + rewrite removelast_last. by eapply add_grow.
  - apply add_first. rewrite last_snoc. by intros ? [= <-].
Qed.

Lemma chunks_of_snoc l x : chunks_of (l ++ [x]) = chunk_add (chunks_of l) x.
Proof. unfold chunks_of. by rewrite fold_left_app. Qed.

Lemma chunks_of_inv (P : list (G * R) -> list (Chunk G R) -> Prop) :
  P [] [] -> (forall l cs x cs', P l cs -> add_step cs x cs' -> P (l ++ [x]) cs') ->
  forall l, P l (chunks_of l).
Proof.
  intros H0 Hs l. induction l as [|x l IH] using rev_ind; [done|].
  rewrite chunks_of_snoc. eapply Hs; [exact IH|apply chunk_add_step].
Qed.

Definition tagged_rows (c : Chunk G R) : list (G * R) := (fun r => (ck_group c, r)) <$> ck_rows c.

(** Chunks are never empty, divide the rows in order, and exceed the limit only when they
    hold a single row; the chunks of a run of one group are numbered from zero. *)
Lemma chunks_of_spec l :
  concat (tagged_rows <$> chunks_of l) = l /\
  Forall (fun c => ck_rows c <> [] /\ (0 <= ck_index c)%Z /\
    ((Z.of_nat (length (bytes (ck_rows c))) <= limit)%Z \/ length (ck_rows c) = 1)) (chunks_of l).
Proof.
  apply (chunks_of_inv (fun l cs => concat (tagged_rows <$> cs) = l /\ Forall (fun c =>
    ck_rows c <> [] /\ (0 <= ck_index c)%Z /\
    ((Z.of_nat (length (bytes (ck_rows c))) <= limit)%Z \/ length (ck_rows c) = 1)) cs)); [done|].
  intros l1 cs [g r] cs' [Hc Hf] [Hg|cs0 c -> Hg Hlt|cs0 c -> Hg Hle]; simpl in *.
  - rewrite fmap_app, concat_app, Hc. split; [done|]. apply Forall_app. split; [done|].
    constructor; [|constructor]. simpl. split_and!; [done|lia|by right].
  - apply Forall_app in Hf as [Hf0 Hf1]. pose proof (Forall_inv Hf1) as (Hn & Hi & _).
    rewrite fmap_app, concat_app, Hc. split; [done|]. rewrite <- app_assoc.
    apply Forall_app. split; [done|]. constructor; [by inversion Hf1|].
    constructor; [|constructor]. simpl. split_and!; [done|lia|by right].
  - apply Forall_app in Hf as [Hf0 Hf1]. pose proof (Forall_inv Hf1) as (Hn & Hi & _).
    rewrite fmap_app, concat_app in *. simpl in *. rewrite !app_nil_r in *. split.
    + rewrite <- Hc, <- app_assoc. f_equal. unfold tagged_rows. simpl. by rewrite fmap_app, Hg.
    + apply Forall_app. split; [done|]. constructor; [|constructor]. simpl.
      split_and!; [by destruct (ck_rows c)|lia|by left].
Qed.

(** Rows only ever add chunks. *)
Lemma chunks_of_prefix {P} (path : Chunk G R -> P) l l' :
  (forall c x, path (grown c x) = path c) ->
  (path <$> chunks_of l) `prefix_of` (path <$> chunks_of (l ++ l')).
Proof.
  intros Hp. induction l' as [|x l' IH] using rev_ind; [by rewrite app_nil_r|].
  etrans; [exact IH|]. rewrite app_assoc, chunks_of_snoc.
  destruct (chunk_add_step (chunks_of (l ++ l')) x) as [_|cs0 c _ _ _|cs0 c -> _ _].
  - rewrite fmap_app. by eexists.
  - rewrite fmap_app. by eexists.
  - rewrite !fmap_app. simpl. by rewrite Hp.
Qed.

(** ** The files of chunks, the last still open *)
Context (path : Chunk G R -> string) (open_bytes : list R -> list Z).

Definition chunk_files cs (w : World) : Prop :=
  forall cs0 c, cs = cs0 ++ [c] ->
    disk w !! path c = Some (open_bytes (ck_rows c)) /\
    forall d, d ∈ cs0 -> disk w !! path d = Some (bytes (ck_rows d)).

(** The last chunk closed. *)
Definition close_last cs (d : gmap string (list Z)) : gmap string (list Z) :=
  match last cs with Some c => <[path c := bytes (ck_rows c)]> d | None => d end.

Definition closed_files cs (w : World) : Prop :=
  forall c, c ∈ cs -> disk w !! path c = Some (bytes (ck_rows c)).

Lemma chunk_files_frame Rg cs w w' :
  chunk_files cs w -> frame Rg w w' -> (forall c, c ∈ cs -> ~ Rg (path c)) -> chunk_files cs w'.
Proof.
  intros Hf Hfr Hd cs0 c ->. destruct (Hf cs0 c eq_refl) as [Hc Hcs]. split.
  - rewrite Hfr; [done|]. apply Hd. set_solver.
  - intros d Hin. rewrite Hfr; [by apply Hcs|]. apply Hd. set_solver.
Qed.

Lemma chunk_files_grow cs0 c c' w w' :
  chunk_files (cs0 ++ [c]) w -> path c' = path c -> NoDup (path <$> cs0 ++ [c']) ->
  disk w' = <[path c := open_bytes (ck_rows c')]> (disk w) -> chunk_files (cs0 ++ [c']) w'.
Proof.
  intros Hf Hp Hnd Hd cs1 c1 Heq. apply app_inj_2 in Heq as [<- [= <-]]; [|done].
  destruct (Hf cs0 c eq_refl) as [_ Hcs]. rewrite Hp, Hd, lookup_insert_eq. split; [done|].
  intros d Hin. rewrite lookup_insert_ne; [by apply Hcs|]. intros He.
  rewrite fmap_app in Hnd. apply NoDup_app in Hnd as (_ & Hdisj & _).
  apply (Hdisj (path d)); [by apply list_elem_of_fmap_2|]. simpl. rewrite Hp, He.
  apply list_elem_of_singleton. done.
Qed.

Lemma close_last_files cs w d :
  chunk_files cs w -> NoDup (path <$> cs) -> d ∈ cs ->
  close_last cs (disk w) !! path d = Some (bytes (ck_rows d)).
Proof.
  intros Hf Hnd Hin. unfold close_last. destruct cs as [|c cs0 _] using rev_ind; [by apply elem_of_nil in Hin|].
  rewrite last_snoc. destruct (Hf cs0 c eq_refl) as [_ Hcs].
  rewrite fmap_app in Hnd. apply NoDup_app in Hnd as (_ & Hdisj & _).
  apply elem_of_app in Hin as [Hin| ->%list_elem_of_singleton]; [|by rewrite lookup_insert_eq].
  rewrite lookup_insert_ne; [by apply Hcs|]. intros He.
  apply (Hdisj (path d)); [by apply list_elem_of_fmap_2|]. simpl. rewrite He.
  by apply list_elem_of_singleton.
Qed.

Lemma chunk_files_new cs c' w w' :
  chunk_files cs w -> NoDup (path <$> cs ++ [c']) ->
  disk w' = <[path c' := open_bytes (ck_rows c')]> (close_last cs (disk w)) ->
  chunk_files (cs ++ [c']) w'.
Proof.
  intros Hf Hnd Hd cs1 c1 Heq. apply app_inj_2 in Heq as [<- [= <-]]; [|done].
  rewrite Hd, lookup_insert_eq. split; [done|]. intros d Hin.
  rewrite fmap_app in Hnd. apply NoDup_app in Hnd as (Hnd & Hdisj & _).
  rewrite lookup_insert_ne; [by apply close_last_files|]. intros He.
  apply (Hdisj (path d)); [by apply list_elem_of_fmap_2|]. simpl. rewrite He.
  by apply list_elem_of_singleton.
Qed.
End chunks.

Lemma chunks_cases {A} (l : list A) : l = [] \/ exists l0 x, l = l0 ++ [x].
Proof. destruct l as [|x l _] using rev_ind; [by left|right; by eexists _, _]. Qed.

Lemma last_snoc_inv {A} (l l0 : list A) x : l = l0 ++ [x] -> last l = Some x.
Proof. intros ->. apply last_snoc. Qed.

(** ** Table files *)
Section Json.
Context {T : Type} `{RecordCodec T} `{MemoryLayout T} {E : abort -> Prop}.
Implicit Types (r : T) (l : list (string * T)) (k : JsonTableSink).

(** Rows, separated by commas, as the file holds them while it is open, and at the end. *)
Definition json_body (rows : list T) : list Z :=
  match rows with
  | [] => []
  | r :: rows => enc r ++ concat ((fun r => comma :: enc r) <$> rows)
  end.
Definition json_open (rows : list T) : list Z := bytes_of "[" ++ json_body rows.
Definition json_closed (rows : list T) : list Z := json_open rows ++ json_end.

Definition table_chunks (limit : Z) : list (string * T) -> list (Chunk string T) :=
  chunks_of limit json_closed.
Definition table_path (dir : string) (c : Chunk string T) : string :=
  json_chunk_path dir (ck_group c) (ck_index c).
Definition table_statement (dir : string) (c : Chunk string T) : string :=
  json_statement (ck_group c) (table_path dir c).

(** The bytes that all the rows take, with their separators. *)
Definition total_bytes (rows : list T) : Z :=
  foldr (fun r s => Z.of_nat (length (enc r)) + 1 + s)%Z 0%Z rows.
Definition encodable r : Prop := encode_record r = Ok (enc r).
(** Everything encodes, and the counters have room. *)
Definition json_room l : Prop :=
  Forall (fun x => encodable x.2) l /\ (total_bytes (snd <$> l) + 3 <= u64_max)%Z.

Record json_holds (dir : string) (limit : Z) k l w : Prop := {
  jh_dir : js_staging_dir k = dir;
  jh_limit : js_chunk_limit k = limit;
  jh_statements : js_copy_statements k = table_statement dir <$> table_chunks limit l;
  jh_rows : js_row_count k = Z.of_nat (length l);
  jh_empty : table_chunks limit l = [] ->
    js_current_table k = None /\ js_writer k = None /\ js_first_row k = true;
  jh_last cs0 c : table_chunks limit l = cs0 ++ [c] ->
    js_current_table k = Some (ck_group c) /\ js_chunk_index k = ck_index c /\
    js_writer k = Some (table_path dir c) /\ js_first_row k = false /\
    js_current_bytes k = Z.of_nat (length (json_open (ck_rows c)));
  jh_files : chunk_files json_closed (table_path dir) json_open (table_chunks limit l) w
}.

Lemma json_body_snoc rows r :
  rows <> [] -> json_body (rows ++ [r]) = json_body rows ++ comma :: enc r.
Proof.
  destruct rows as [|x rows]; [done|]. intros _. simpl.
  rewrite fmap_app, concat_app. simpl. by rewrite app_nil_r, <- app_assoc.
Qed.

Lemma total_bytes_app a b : total_bytes (a ++ b) = (total_bytes a + total_bytes b)%Z.
Proof. induction a as [|x a IH]; simpl; [done|]. rewrite IH. lia. Qed.

Lemma total_bytes_length rows : (Z.of_nat (length rows) <= total_bytes rows)%Z.
Proof. induction rows as [|x rows IH]; simpl; lia. Qed.

Lemma length_json_open rows : (Z.of_nat (length (json_open rows)) <= total_bytes rows + 1)%Z.
Proof.
  unfold json_open. rewrite length_app. change (length (bytes_of "[")) with 1.
  assert (Z.of_nat (length (json_body rows)) <= total_bytes rows)%Z; [|lia].
  destruct rows as [|x rows]; [done|]. simpl. rewrite length_app.
  assert (forall ys, Z.of_nat (length (concat ((fun r => comma :: enc r) <$> ys))) = total_bytes ys)%Z as Hc.
  { induction ys as [|y ys IH]; [done|]. rewrite fmap_cons, concat_cons, length_app. simpl in *. lia. }
  specialize (Hc rows). lia.
Qed.

(** The rows of a chunk are rows of the sink. *)
Lemma chunk_total limit l c :
  c ∈ table_chunks limit l -> (total_bytes (ck_rows c) <= total_bytes (snd <$> l))%Z.
Proof.
  intros Hc. destruct (chunks_of_spec limit json_closed l) as [Hl _]. fold table_chunks in Hl.
  apply list_elem_of_split in Hc as (cs1 & cs2 & Hcs). unfold table_chunks in Hcs.
  rewrite Hcs, fmap_app, fmap_cons, concat_app, concat_cons in Hl. rewrite <- Hl, !fmap_app, !total_bytes_app.
  assert (snd <$> tagged_rows c = ck_rows c) as ->.
  { unfold tagged_rows. rewrite <- list_fmap_compose. apply list_fmap_id. }
  pose proof (total_bytes_length (snd <$> concat (tagged_rows <$> cs1))).
  pose proof (total_bytes_length (snd <$> concat (tagged_rows <$> cs2))). lia.
Qed.

Lemma chunk_index_bound limit l c :
  c ∈ table_chunks limit l -> (ck_index c < Z.of_nat (length l))%Z.
Proof.
  assert (Forall (fun c => ck_index c < Z.of_nat (length l))%Z (table_chunks limit l)) as Hf.
  { apply (chunks_of_inv limit json_closed (fun l cs =>
      Forall (fun c => ck_index c < Z.of_nat (length l))%Z cs)); [done|].
    intros l1 cs x cs' Hf Hs. assert (Forall (fun c => ck_index c < Z.of_nat (length (l1 ++ [x])))%Z cs) as Hf'.
    { eapply Forall_impl; [exact Hf|]. intros d. simpl. rewrite length_app. simpl. lia. }
    destruct Hs as [_|cs0 d -> _ _|cs0 d -> _ _]; apply Forall_app.
    - split; [done|]. constructor; [|constructor]. rewrite length_app. simpl. lia.
    - split; [done|]. apply Forall_app in Hf as [_ Hd]. apply Forall_inv in Hd.
      constructor; [|constructor]. rewrite length_app. simpl. lia.
    - apply Forall_app in Hf' as [Hf1 Hf2]. split; [done|]. apply Forall_inv in Hf2.
      constructor; [done|constructor]. }
  rewrite Forall_forall in Hf. apply Hf.
Qed.

Lemma wp_checked message o z w (Q : Z -> World -> Prop) :
  o = Some z -> Q z w -> wp (checked message o) w E Q.
Proof. intros ->. done. Qed.

(** Closing the open chunk, if there is one. *)
Lemma wp_json_close dir limit k l w (Q : JsonTableSink -> World -> Prop) :
  json_holds dir limit k l w ->
  (forall w', disk w' = close_last json_closed (table_path dir) (table_chunks limit l) (disk w) ->
     Q {| js_staging_dir := dir; js_chunk_limit := limit; js_current_table := js_current_table k;
          js_chunk_index := js_chunk_index k; js_writer := None; js_first_row := js_first_row k;
          js_current_bytes := 0; js_copy_statements := js_copy_statements k;
          js_row_count := js_row_count k |} w') ->
  wp (json_close_chunk k) w E Q.
Proof.
  intros [Hd Hl _ _ Hempty Hlast Hfiles] HQ. unfold json_close_chunk. rewrite Hd, Hl.
  destruct (chunks_cases (table_chunks limit l)) as [Hnil|(cs0 & c & Hcs)].
  - destruct (Hempty Hnil) as (_ & -> & _). apply wp_bind, wp_ret, wp_ret, HQ.
    unfold close_last. by rewrite Hnil.
  - destruct (Hlast _ _ Hcs) as (_ & _ & -> & _). destruct (Hfiles _ _ Hcs) as [Hc _].
    apply wp_bind. eapply wp_append; [exact Hc|]. apply wp_ret, HQ.
    unfold close_last. by rewrite (last_snoc_inv _ _ _ Hcs).
Qed.

Lemma wp_json_open k table w (Q : JsonTableSink -> World -> Prop) :
  js_current_table k = Some table ->
  (let path := json_chunk_path (js_staging_dir k) table (js_chunk_index k) in
   forall w', disk w' = <[path := bytes_of "["]> (disk w) ->
   Q {| js_staging_dir := js_staging_dir k; js_chunk_limit := js_chunk_limit k;
        js_current_table := Some table; js_chunk_index := js_chunk_index k;
        js_writer := Some path; js_first_row := true; js_current_bytes := 1;
        js_copy_statements := js_copy_statements k ++ [json_statement table path];
        js_row_count := js_row_count k |} w') ->
  wp (json_open_chunk k) w E Q.
Proof.
  intros Ht HQ. unfold json_open_chunk. rewrite Ht. apply wp_bind, wp_create, wp_bind.
  eapply wp_append; [simpl; apply lookup_insert_eq|]. apply wp_ret, HQ. simpl.
  by rewrite insert_insert_eq.
Qed.

(** Writing the row into the open chunk, whose file holds [content]. *)
Definition json_write {A} (k : JsonTableSink) (path : string) (encoded : list Z)
    (cont : Z -> Z -> IO A) : IO A :=
  bytes ← (if js_first_row k then mret (js_current_bytes k)
           else _ ← append_file path [comma];
                checked "staging JSON byte count overflow" (checked_add_u64 (js_current_bytes k) 1));
  _ ← append_file path encoded;
  bytes ← checked "staging JSON byte count overflow"
            (checked_add_u64 bytes (Z.of_nat (length encoded)));
  rows ← checked "staging row count overflow" (checked_add_u64 (js_row_count k) 1);
  cont bytes rows.

Lemma wp_json_write {A} k path encoded content w (cont : Z -> Z -> IO A) (Q : A -> World -> Prop) :
  disk w !! path = Some content -> (0 <= js_current_bytes k)%Z ->
  (js_current_bytes k + 1 + Z.of_nat (length encoded) <= u64_max)%Z -> (js_row_count k + 1 <= u64_max)%Z ->
  let sep := if js_first_row k then [] else [comma] in
  (forall w', disk w' = <[path := content ++ sep ++ encoded]> (disk w) ->
     wp (cont (js_current_bytes k + Z.of_nat (length (sep ++ encoded)))%Z (js_row_count k + 1)%Z) w' E Q) ->
  wp (json_write k path encoded cont) w E Q.
Proof.
  intros Hp H0' Hb Hr sep HQ. unfold json_write. subst sep. destruct (js_first_row k).
  - apply wp_bind, wp_ret. apply wp_bind. eapply wp_append; [exact Hp|].
    apply wp_bind. eapply wp_checked; [apply checked_add_u64_Some; split; [done|lia]|].
    apply wp_bind. eapply wp_checked; [apply checked_add_u64_Some; split; [done|lia]|]. by apply HQ.
  - apply wp_bind, wp_bind. eapply wp_append; [exact Hp|].
    eapply wp_checked; [apply checked_add_u64_Some; split; [done|lia]|].
    apply wp_bind. eapply wp_append; [simpl; apply lookup_insert_eq|].
    apply wp_bind. eapply wp_checked; [apply checked_add_u64_Some; split; [done|lia]|].
    apply wp_bind. eapply wp_checked; [apply checked_add_u64_Some; split; [done|lia]|].
    simpl in HQ.
    replace (js_current_bytes k + 1 + Z.of_nat (length encoded))%Z
      with (js_current_bytes k + Z.of_nat (S (length encoded)))%Z by lia.
    apply HQ. simpl. by rewrite insert_insert_eq, <- app_assoc.
Qed.

Lemma json_holds_snoc dir limit l pre c k w :
  table_chunks limit l = pre ++ [c] ->
  js_staging_dir k = dir -> js_chunk_limit k = limit ->
  js_copy_statements k = table_statement dir <$> pre ++ [c] ->
  js_row_count k = Z.of_nat (length l) ->
  js_current_table k = Some (ck_group c) -> js_chunk_index k = ck_index c ->
  js_writer k = Some (table_path dir c) -> js_first_row k = false ->
  js_current_bytes k = Z.of_nat (length (json_open (ck_rows c))) ->
  chunk_files json_closed (table_path dir) json_open (pre ++ [c]) w ->
  json_holds dir limit k l w.
Proof.
  intros Hcs. intros. split; try rewrite Hcs; try done.
  - intros Hnil. by destruct pre.
  - intros cs0 c' [<- [= <-]]%app_inj_2; [|done]. by split_and!.
Qed.

Lemma length_json_closed rows :
  Z.of_nat (length (json_closed rows)) = (Z.of_nat (length (json_open rows)) + 2)%Z.
Proof. unfold json_closed. rewrite length_app. simpl. lia. Qed.

Lemma length_json_open_snoc rows r :
  rows <> [] -> Z.of_nat (length (json_open (rows ++ [r])))
    = (Z.of_nat (length (json_open rows)) + 1 + Z.of_nat (length (enc r)))%Z.
Proof.
  intros Hr. unfold json_open. rewrite json_body_snoc by done. rewrite !length_app. simpl. lia.
Qed.

(** The table a sink is in. *)
Lemma json_current dir limit k l w table :
  json_holds dir limit k l w ->
  (forall c, last (table_chunks limit l) = Some c -> ck_group c <> table) ->
  js_current_table k <> Some table.
Proof.
  intros Hk Hne. destruct (chunks_cases (table_chunks limit l)) as [Hnil|(cs0 & c & Hcs)].
  - destruct (jh_empty _ _ _ _ _ Hk Hnil) as (-> & _). done.
  - destruct (jh_last _ _ _ _ _ Hk _ _ Hcs) as (-> & _). intros [= Heq].
    by apply (Hne c); [apply (last_snoc_inv _ _ _ Hcs)|].
Qed.

(** The tail of [json_push], once the chunk of the row is selected. *)
Definition json_store k (encoded : list Z) : IO JsonTableSink :=
  path ← io_try (ok_or (InvalidInput "staging JSON writer is not open") (js_writer k));
  json_write k path encoded (fun bytes rows =>
    _ ← account (release_live (vec_capacity encoded));
    mret {| js_staging_dir := js_staging_dir k; js_chunk_limit := js_chunk_limit k;
            js_current_table := js_current_table k; js_chunk_index := js_chunk_index k;
            js_writer := js_writer k; js_first_row := false; js_current_bytes := bytes;
            js_copy_statements := js_copy_statements k; js_row_count := rows |}).

Lemma json_push_unfold k table r :
  json_push k table r =
  (encoded ← io_try (encode_record r);
   _ ← account (add_live (vec_capacity encoded));
   k ← (if bool_decide (js_current_table k = Some table) then mret k
        else k ← json_close_chunk k; json_open_chunk (json_select k table 0));
   projected_bytes ← checked "staging JSON size overflow"
     (checked_sum (js_current_bytes k)
        [if js_first_row k then 0%Z else 1%Z; Z.of_nat (length encoded); 2%Z]);
   k ← (if negb (js_first_row k) && (js_chunk_limit k <? projected_bytes)%Z then
          k ← json_close_chunk k;
          index ← checked "staging JSON chunk index overflow" (checked_add_u64 (js_chunk_index k) 1);
          json_open_chunk (json_select k table index)
        else mret k);
   json_store k encoded).
Proof. reflexivity. Qed.

Lemma wp_json_store k path content encoded w (Q : JsonTableSink -> World -> Prop) :
  js_writer k = Some path ->
  disk w !! path = Some content -> (0 <= js_current_bytes k)%Z ->
  (js_current_bytes k + 1 + Z.of_nat (length encoded) <= u64_max)%Z -> (js_row_count k + 1 <= u64_max)%Z ->
  let sep := if js_first_row k then [] else [comma] in
  (forall w', disk w' = <[path := content ++ sep ++ encoded]> (disk w) ->
     Q {| js_staging_dir := js_staging_dir k; js_chunk_limit := js_chunk_limit k;
          js_current_table := js_current_table k; js_chunk_index := js_chunk_index k;
          js_writer := js_writer k; js_first_row := false;
          js_current_bytes := js_current_bytes k + Z.of_nat (length (sep ++ encoded));
          js_copy_statements := js_copy_statements k; js_row_count := js_row_count k + 1 |} w') ->
  wp (json_store k encoded) w E Q.
Proof.
  intros Hw Hp H0' Hb Hr sep HQ. unfold json_store. rewrite Hw. apply wp_bind.
  eapply wp_try; [done|]. eapply wp_json_write; [done..|]. intros w' Hd.
  apply wp_bind, wp_account, wp_ret. rewrite <- Hw. by apply HQ.
Qed.

(** The row that opens a chunk. *)
Lemma json_new_row dir limit k l c x w k2 w2 :
  json_holds dir limit k l w ->
  table_chunks limit (l ++ [x]) = table_chunks limit l ++ [c] -> ck_rows c = [x.2] ->
  NoDup (table_path dir <$> table_chunks limit (l ++ [x])) -> json_room (l ++ [x]) ->
  k2 = {| js_staging_dir := dir; js_chunk_limit := limit; js_current_table := Some (ck_group c);
          js_chunk_index := ck_index c; js_writer := Some (table_path dir c); js_first_row := true;
          js_current_bytes := 1; js_copy_statements := js_copy_statements k ++ [table_statement dir c];
          js_row_count := js_row_count k |} ->
  disk w2 = <[table_path dir c := bytes_of "["]>
              (close_last json_closed (table_path dir) (table_chunks limit l) (disk w)) ->
  wp (json_store k2 (enc x.2)) w2 E (fun k' w' => json_holds dir limit k' (l ++ [x]) w' /\
    frame (fun p => p ∈ table_path dir <$> table_chunks limit (l ++ [x])) w w').
Proof.
  intros Hk Hcs Hrows Hnd [_ Hroom] -> Hd2.
  rewrite fmap_app, total_bytes_app in Hroom. simpl in Hroom.
  pose proof (total_bytes_length (snd <$> l)) as Hcount. rewrite length_fmap in Hcount.
  pose proof (jh_rows _ _ _ _ _ Hk) as Hcnt.
  eapply wp_json_store; simpl; [done|by rewrite Hd2, lookup_insert_eq|lia|lia|lia|].
  intros w' Hd'. rewrite Hd2, insert_insert_eq in Hd'. simpl in Hd'. split.
  - eapply json_holds_snoc; [exact Hcs|done|done| | |done|done|done|done| |]; simpl.
    + rewrite (jh_statements _ _ _ _ _ Hk), fmap_app. done.
    + rewrite Hcnt, length_app. simpl. lia.
    + rewrite Hrows. unfold json_open. simpl. rewrite app_nil_r. lia.
    + eapply chunk_files_new; [apply (jh_files _ _ _ _ _ Hk)|by rewrite <- Hcs|].
      rewrite Hd', Hrows. unfold json_open, json_body. simpl. by rewrite app_nil_r.
  - intros p Hp. rewrite Hcs, fmap_app in Hp. rewrite Hd', lookup_insert_ne by (intros <-; set_solver).
    unfold close_last. destruct (last (table_chunks limit l)) as [d|] eqn:Ed; [|done].
    rewrite lookup_insert_ne; [done|]. intros <-. apply Hp, elem_of_app. left.
    apply list_elem_of_fmap_2. apply last_Some_elem_of in Ed. done.
Qed.

Lemma wp_json_push dir limit k l table r w :
  json_holds dir limit k l w -> json_room (l ++ [(table, r)]) ->
  NoDup (table_path dir <$> table_chunks limit (l ++ [(table, r)])) ->
  wp (json_push k table r) w E (fun k' w' => json_holds dir limit k' (l ++ [(table, r)]) w' /\
    frame (fun p => p ∈ table_path dir <$> table_chunks limit (l ++ [(table, r)])) w w').
Proof.
  intros Hk Hroom' Hnd. pose proof Hroom' as [Henc Hroom].
  apply Forall_app in Henc as [_ Henc]. apply Forall_inv in Henc. simpl in Henc.
  rewrite fmap_app, total_bytes_app in Hroom. simpl in Hroom.
  pose proof (total_bytes_length (snd <$> l)) as Hcount. rewrite length_fmap in Hcount.
  rewrite json_push_unfold. apply wp_bind. eapply wp_try; [exact Henc|]. apply wp_bind, wp_account.
  set (w0 := {| disk := disk w; metrics := _ |}).
  assert (json_holds dir limit k l w0) as Hk0 by (destruct Hk; by split).
  change (frame ?R w) with (frame R w0). clearbody w0. clear Hk w. rename Hk0 into Hk, w0 into w.
  pose proof (jh_dir _ _ _ _ _ Hk) as Hdir. pose proof (jh_limit _ _ _ _ _ Hk) as Hlim.
  pose proof (chunk_add_step limit json_closed (table_chunks limit l) (table, r)) as Hstep.
  assert (table_chunks limit (l ++ [(table, r)]) = chunk_add limit json_closed (table_chunks limit l) (table, r))
    as Hsnoc by apply chunks_of_snoc.
  rewrite <- Hsnoc in Hstep. remember (table_chunks limit (l ++ [(table, r)])) as cs' eqn:Hcs'.
  destruct Hstep as [Hne|cs0 c Hcs Hg Hlt|cs0 c Hcs Hg Hle]; clear Hsnoc; cbn [fst snd] in *.
  - rewrite bool_decide_false by (eapply json_current; [exact Hk|done]).
    apply wp_bind, wp_bind. eapply wp_json_close; [exact Hk|]. intros w1 Hd1.
    eapply wp_json_open; [done|]. simpl. intros w2 Hd2. apply wp_bind. eapply wp_checked.
    { apply checked_sum_Some; [repeat constructor; lia|simpl; lia]. }
    apply wp_bind, wp_ret. rewrite Hcs'. eapply (json_new_row dir limit k l (first_of (table, r)) (table, r)).
    all: rewrite <- ?Hcs'; try done. by rewrite Hd2, Hd1.
  - destruct (jh_last _ _ _ _ _ Hk _ _ Hcs) as (Ht & Hi & Hw & Hf & Hb).
    assert (c ∈ table_chunks limit l) as Hin by (rewrite Hcs; set_solver).
    pose proof (chunk_total limit l c Hin) as Htot. pose proof (length_json_open (ck_rows c)) as Hlen.
    pose proof (chunk_index_bound limit l c Hin) as Hidx.
    destruct (chunks_of_spec limit json_closed l) as [_ Hspec]. rewrite Forall_forall in Hspec.
    destruct (Hspec c Hin) as (Hne & Hidx0 & _).
    rewrite length_json_closed, length_json_open_snoc in Hlt by done.
    rewrite bool_decide_true by congruence. apply wp_bind, wp_ret.
    rewrite Hf. apply wp_bind. eapply wp_checked.
    { apply checked_sum_Some; [repeat constructor; lia|simpl; lia]. }
    simpl. rewrite Hlim. destruct (Z.ltb_spec limit (1 + (Z.of_nat (length (enc r)) + (2 + js_current_bytes k)))); [|lia].
    apply wp_bind, wp_bind. eapply wp_json_close; [exact Hk|]. intros w1 Hd1. simpl.
    apply wp_bind. eapply wp_checked; [apply checked_add_u64_Some; split; [done|lia]|].
    eapply wp_json_open; [done|]. simpl. intros w2 Hd2.
    rewrite Hcs'. eapply (json_new_row dir limit k l (next_of c (table, r)) (table, r)).
    all: rewrite <- ?Hcs'; try done.
    + unfold table_statement, table_path. simpl. by rewrite Hi.
    + rewrite Hd2, Hd1. unfold table_path at 1. simpl. by rewrite Hi.
  - destruct (jh_last _ _ _ _ _ Hk _ _ Hcs) as (Ht & Hi & Hw & Hf & Hb).
    assert (c ∈ table_chunks limit l) as Hin by (rewrite Hcs; set_solver).
    pose proof (chunk_total limit l c Hin) as Htot. pose proof (length_json_open (ck_rows c)) as Hlen.
    destruct (chunks_of_spec limit json_closed l) as [_ Hspec]. rewrite Forall_forall in Hspec.
    destruct (Hspec c Hin) as (Hne & _ & _). destruct (jh_files _ _ _ _ _ Hk _ _ Hcs) as [Hfile _].
    rewrite length_json_closed, length_json_open_snoc in Hle by done.
    rewrite bool_decide_true by congruence. apply wp_bind, wp_ret.
    rewrite Hf. apply wp_bind. eapply wp_checked.
    { apply checked_sum_Some; [repeat constructor; lia|simpl; lia]. }
    simpl. rewrite Hlim. destruct (Z.ltb_spec limit (1 + (Z.of_nat (length (enc r)) + (2 + js_current_bytes k)))); [lia|].
    apply wp_bind, wp_ret. pose proof (jh_rows _ _ _ _ _ Hk) as Hrows.
    eapply wp_json_store; [exact Hw|exact Hfile|lia|lia|lia|]. rewrite Hf. intros w' Hd'. split.
    + eapply json_holds_snoc; [by rewrite <- Hcs'|done|done| | |done|done|done|done| |];
        cbn [js_copy_statements js_row_count js_current_bytes grown ck_rows fst snd].
      * rewrite (jh_statements _ _ _ _ _ Hk), Hcs, !fmap_app. done.
      * rewrite Hrows, length_app. cbn [length]. lia.
      * rewrite length_json_open_snoc, length_app by done. cbn [length]. lia.
      * eapply chunk_files_grow; [rewrite <- Hcs; apply (jh_files _ _ _ _ _ Hk)|done|done|].
        rewrite Hd'. f_equal. cbn [grown ck_rows snd]. unfold json_open.
        by rewrite json_body_snoc, <- app_assoc by done.
    + intros p Hp. rewrite Hd', lookup_insert_ne; [done|]. intros <-. apply Hp.
      rewrite fmap_app. apply elem_of_app. right. by apply list_elem_of_singleton.
Qed.

Lemma wp_new_json dir limit w : json_holds dir limit (new_json_sink dir limit) [] w.
Proof. split; try done; [by intros [|] ?|by intros [|] ?]. Qed.

(** The statements, the number of rows, and the files of the chunks. *)
Lemma wp_json_finish dir limit k l w :
  json_holds dir limit k l w -> NoDup (table_path dir <$> table_chunks limit l) ->
  wp (json_finish k) w E (fun res w' =>
    res = (table_statement dir <$> table_chunks limit l, Z.of_nat (length l)) /\
    closed_files json_closed (table_path dir) (table_chunks limit l) w' /\
    frame (fun p => p ∈ table_path dir <$> table_chunks limit l) w w').
Proof.
  intros Hk Hnd. unfold json_finish. apply wp_bind. eapply wp_json_close; [exact Hk|].
  intros w' Hd. apply wp_ret. simpl. split_and!.
  - by rewrite (jh_statements _ _ _ _ _ Hk), (jh_rows _ _ _ _ _ Hk).
  - intros c Hc. rewrite Hd. eapply close_last_files; [apply (jh_files _ _ _ _ _ Hk)|done|done].
  - intros p Hp. rewrite Hd. unfold close_last.
    destruct (last (table_chunks limit l)) as [d|] eqn:Ed; [|done].
    rewrite lookup_insert_ne; [done|]. intros <-. apply Hp.
    apply list_elem_of_fmap_2. by apply last_Some_elem_of in Ed.
Qed.
End Json.

(** ** Connector files *)
#[export] Instance ConnectorGroup_eq_dec : EqDecision ConnectorGroup.
Proof. unfold ConnectorGroup. solve_decision. Defined.

Section Connector.
Context `{MemoryLayout ConnectorRecord} {E : abort -> Prop}.
Implicit Types (r : ConnectorRecord) (l : list ConnectorRecord) (k : ConnectorSink).

Definition connector_body (rows : list ConnectorRecord) : list Z :=
  CONNECTOR_HEADER ++ concat (encode_connector <$> rows).

Definition by_group r : ConnectorGroup * ConnectorRecord := (connector_group r, r).
Definition connector_chunks (limit : Z) l : list (Chunk ConnectorGroup ConnectorRecord) :=
  chunks_of limit connector_body (by_group <$> l).
Definition connector_path (dir : string) (c : Chunk ConnectorGroup ConnectorRecord) : string :=
  connector_chunk_path dir (ck_group c) (ck_index c).
Definition connector_copy (dir : string) (c : Chunk ConnectorGroup ConnectorRecord) : string :=
  connector_statement (ck_group c) (connector_path dir c).

Definition connector_bytes l : Z :=
  foldr (fun r s => Z.of_nat (length (encode_connector r)) + s)%Z 0%Z l.
Definition connector_room l : Prop :=
  (connector_bytes l + Z.of_nat (length CONNECTOR_HEADER) <= u64_max)%Z.

Record connector_holds (dir : string) (limit : Z) k l w : Prop := {
  ch_dir : cs_staging_dir k = dir;
  ch_limit : cs_chunk_limit k = limit;
  ch_statements : cs_copy_statements k = connector_copy dir <$> connector_chunks limit l;
  ch_rows : cs_row_count k = Z.of_nat (length l);
  ch_empty : connector_chunks limit l = [] -> cs_current_group k = None;
  ch_last cs0 c : connector_chunks limit l = cs0 ++ [c] ->
    cs_current_group k = Some (ck_group c) /\ cs_chunk_index k = ck_index c /\
    cs_writer k = Some (connector_path dir c) /\
    cs_rows_in_chunk k = Z.of_nat (length (ck_rows c)) /\
    cs_current_bytes k = Z.of_nat (length (connector_body (ck_rows c)));
  ch_files : chunk_files connector_body (connector_path dir) connector_body (connector_chunks limit l) w
}.

Lemma connector_bytes_app a b : connector_bytes (a ++ b) = (connector_bytes a + connector_bytes b)%Z.
Proof. induction a as [|x a IH]; simpl; [done|]. rewrite IH. lia. Qed.

Lemma connector_bytes_length l : (Z.of_nat (length l) <= connector_bytes l)%Z.
Proof.
  assert (forall r, 0 < length (encode_connector r)) as Hpos.
  { intros r. unfold encode_connector. rewrite !length_app. simpl. lia. }
  induction l as [|x l IH]; simpl; [lia|]. specialize (Hpos x). lia.
Qed.

Lemma length_connector_body rows :
  Z.of_nat (length (connector_body rows)) = (Z.of_nat (length CONNECTOR_HEADER) + connector_bytes rows)%Z.
Proof.
  unfold connector_body. rewrite length_app.
  assert (Z.of_nat (length (concat (encode_connector <$> rows))) = connector_bytes rows) as Hc; [|lia].
  induction rows as [|y rows IH]; [done|].
  rewrite fmap_cons, concat_cons, length_app. cbn [connector_bytes foldr]. rewrite Nat2Z.inj_add, IH. done.
Qed.

Lemma fmap_by_group l : snd <$> (by_group <$> l) = l.
Proof. rewrite <- list_fmap_compose. apply list_fmap_id. Qed.

(** The rows of a chunk are rows of the sink. *)
Lemma connector_chunk_total limit l c :
  c ∈ connector_chunks limit l -> (connector_bytes (ck_rows c) <= connector_bytes l)%Z.
Proof.
  intros Hc. destruct (chunks_of_spec limit connector_body (by_group <$> l)) as [Hl _].
  apply list_elem_of_split in Hc as (cs1 & cs2 & Hcs). unfold connector_chunks in Hcs.
  apply (f_equal (fmap snd)) in Hl. rewrite fmap_by_group in Hl.
  rewrite Hcs, fmap_app, fmap_cons, concat_app, concat_cons, !fmap_app in Hl.
  rewrite <- Hl, !connector_bytes_app.
  assert (snd <$> tagged_rows c = ck_rows c) as ->.
  { unfold tagged_rows. rewrite <- list_fmap_compose. apply list_fmap_id. }
  pose proof (connector_bytes_length (snd <$> concat (tagged_rows <$> cs1))).
  pose proof (connector_bytes_length (snd <$> concat (tagged_rows <$> cs2))). lia.
Qed.

Lemma connector_index_bound limit l c :
  c ∈ connector_chunks limit l -> (ck_index c < Z.of_nat (length l))%Z.
Proof.
  assert (Forall (fun c => ck_index c < Z.of_nat (length (by_group <$> l)))%Z (connector_chunks limit l)) as Hf.
  { apply (chunks_of_inv limit connector_body (fun (l : list (ConnectorGroup * ConnectorRecord)) cs =>
      Forall (fun c => ck_index c < Z.of_nat (length l))%Z cs)); [done|].
    intros l1 cs x cs' Hf Hs. assert (Forall (fun c => ck_index c < Z.of_nat (length (l1 ++ [x])))%Z cs) as Hf'.
    { eapply Forall_impl; [exact Hf|]. intros d. simpl. rewrite length_app. simpl. lia. }
    destruct Hs as [_|cs0 d -> _ _|cs0 d -> _ _]; apply Forall_app.
    - split; [done|]. constructor; [|constructor]. rewrite length_app. simpl. lia.
    - split; [done|]. apply Forall_app in Hf as [_ Hd]. apply Forall_inv in Hd.
      constructor; [|constructor]. rewrite length_app. simpl. lia.
    - apply Forall_app in Hf' as [Hf1 Hf2]. split; [done|]. apply Forall_inv in Hf2.
      constructor; [done|constructor]. }
  rewrite length_fmap, Forall_forall in Hf. apply Hf.
Qed.

Lemma connector_holds_snoc dir limit l pre c k w :
  connector_chunks limit l = pre ++ [c] ->
  cs_staging_dir k = dir -> cs_chunk_limit k = limit ->
  cs_copy_statements k = connector_copy dir <$> pre ++ [c] ->
  cs_row_count k = Z.of_nat (length l) ->
  cs_current_group k = Some (ck_group c) -> cs_chunk_index k = ck_index c ->
  cs_writer k = Some (connector_path dir c) ->
  cs_rows_in_chunk k = Z.of_nat (length (ck_rows c)) ->
  cs_current_bytes k = Z.of_nat (length (connector_body (ck_rows c))) ->
  chunk_files connector_body (connector_path dir) connector_body (pre ++ [c]) w ->
  connector_holds dir limit k l w.
Proof.
  intros Hcs. intros. split; try rewrite Hcs; try done.
  - intros Hnil. by destruct pre.
  - intros cs0 c' [<- [= <-]]%app_inj_2; [|done]. by split_and!.
Qed.

Lemma wp_connector_open k g w (Q : ConnectorSink -> World -> Prop) :
  cs_current_group k = Some g ->
  (let path := connector_chunk_path (cs_staging_dir k) g (cs_chunk_index k) in
   forall w', disk w' = <[path := CONNECTOR_HEADER]> (disk w) ->
   Q {| cs_staging_dir := cs_staging_dir k; cs_chunk_limit := cs_chunk_limit k;
        cs_current_group := Some g; cs_chunk_index := cs_chunk_index k;
        cs_writer := Some path; cs_current_bytes := Z.of_nat (length CONNECTOR_HEADER);
        cs_rows_in_chunk := 0;
        cs_copy_statements := cs_copy_statements k ++ [connector_statement g path];
        cs_row_count := cs_row_count k |} w') ->
  wp (connector_open_chunk k) w E Q.
Proof.
  intros Hg HQ. unfold connector_open_chunk. rewrite Hg. apply wp_bind, wp_create, wp_bind.
  eapply wp_append; [simpl; apply lookup_insert_eq|]. apply wp_ret, HQ. simpl.
  by rewrite insert_insert_eq.
Qed.

(** The tail of [connector_push], once the chunk of the row is selected. *)
Definition connector_store k (encoded : list Z) : IO ConnectorSink :=
  path ← io_try (ok_or (InvalidInput "staging connector writer is not open") (cs_writer k));
  _ ← append_file path encoded;
  bytes ← checked "staging connector byte count overflow"
            (checked_add_u64 (cs_current_bytes k) (Z.of_nat (length encoded)));
  in_chunk ← checked "staging connector chunk row count overflow" (checked_add_u64 (cs_rows_in_chunk k) 1);
  rows ← checked "staging connector row count overflow" (checked_add_u64 (cs_row_count k) 1);
  _ ← account (release_live (vec_capacity encoded));
  mret {| cs_staging_dir := cs_staging_dir k; cs_chunk_limit := cs_chunk_limit k;
          cs_current_group := cs_current_group k; cs_chunk_index := cs_chunk_index k;
          cs_writer := cs_writer k; cs_current_bytes := bytes; cs_rows_in_chunk := in_chunk;
          cs_copy_statements := cs_copy_statements k; cs_row_count := rows |}.

Lemma wp_connector_store k path content encoded w (Q : ConnectorSink -> World -> Prop) :
  cs_writer k = Some path -> disk w !! path = Some content ->
  (cs_current_bytes k + Z.of_nat (length encoded) <= u64_max)%Z ->
  (cs_rows_in_chunk k + 1 <= u64_max)%Z -> (cs_row_count k + 1 <= u64_max)%Z ->
  (forall w', disk w' = <[path := content ++ encoded]> (disk w) ->
     Q {| cs_staging_dir := cs_staging_dir k; cs_chunk_limit := cs_chunk_limit k;
          cs_current_group := cs_current_group k; cs_chunk_index := cs_chunk_index k;
          cs_writer := cs_writer k; cs_current_bytes := cs_current_bytes k + Z.of_nat (length encoded);
          cs_rows_in_chunk := cs_rows_in_chunk k + 1;
          cs_copy_statements := cs_copy_statements k; cs_row_count := cs_row_count k + 1 |} w') ->
  wp (connector_store k encoded) w E Q.
Proof.
  intros Hw Hp Hb Hi Hr HQ. unfold connector_store. rewrite Hw. apply wp_bind.
  eapply wp_try; [done|]. apply wp_bind. eapply wp_append; [exact Hp|].
  do 3 (apply wp_bind; eapply wp_checked; [apply checked_add_u64_Some; split; [done|lia]|]).
  apply wp_bind, wp_account, wp_ret. rewrite <- Hw. by apply HQ.
Qed.

(** The row that opens a chunk. *)
Lemma connector_new_row dir limit k l c r w k2 w2 :
  connector_holds dir limit k l w ->
  connector_chunks limit (l ++ [r]) = connector_chunks limit l ++ [c] -> ck_rows c = [r] ->
  NoDup (connector_path dir <$> connector_chunks limit (l ++ [r])) -> connector_room (l ++ [r]) ->
  k2 = {| cs_staging_dir := dir; cs_chunk_limit := limit; cs_current_group := Some (ck_group c);
          cs_chunk_index := ck_index c; cs_writer := Some (connector_path dir c);
          cs_current_bytes := Z.of_nat (length CONNECTOR_HEADER); cs_rows_in_chunk := 0;
          cs_copy_statements := cs_copy_statements k ++ [connector_copy dir c];
          cs_row_count := cs_row_count k |} ->
  disk w2 = <[connector_path dir c := CONNECTOR_HEADER]> (disk w) ->
  wp (connector_store k2 (encode_connector r)) w2 E (fun k' w' => connector_holds dir limit k' (l ++ [r]) w' /\
    frame (fun p => p ∈ connector_path dir <$> connector_chunks limit (l ++ [r])) w w').
Proof.
  intros Hk Hcs Hrows Hnd Hroom -> Hd2. unfold connector_room in Hroom.
  rewrite connector_bytes_app in Hroom. cbn [connector_bytes foldr] in Hroom.
  pose proof (connector_bytes_length l) as Hcount. pose proof (ch_rows _ _ _ _ _ Hk) as Hcnt.
  pose proof (connector_bytes_length [r]) as Hone. cbn [connector_bytes foldr length] in Hone.
  assert (connector_body [r] = CONNECTOR_HEADER ++ encode_connector r) as Hbody
    by (unfold connector_body; cbn [fmap list_fmap concat]; by rewrite app_nil_r).
  eapply wp_connector_store; cbn [cs_writer cs_current_bytes cs_rows_in_chunk cs_row_count];
    [done|by rewrite Hd2, lookup_insert_eq|lia|unfold u64_max; lia|lia|].
  intros w' Hd'. rewrite Hd2, insert_insert_eq in Hd'. split.
  - eapply connector_holds_snoc; [exact Hcs|done|done| | |done|done|done| | |];
      cbn [cs_copy_statements cs_row_count cs_rows_in_chunk cs_current_bytes].
    + rewrite (ch_statements _ _ _ _ _ Hk), fmap_app. done.
    + rewrite Hcnt, length_app. cbn [length]. lia.
    + by rewrite Hrows.
    + rewrite Hrows, Hbody, length_app. lia.
    + eapply chunk_files_new; [apply (ch_files _ _ _ _ _ Hk)|by rewrite <- Hcs|].
      rewrite Hd', Hrows, Hbody. f_equal. unfold close_last.
      destruct (chunks_cases (connector_chunks limit l)) as [Hnil|(cs0 & d & Hd)]; [by rewrite Hnil|].
      rewrite (last_snoc_inv _ _ _ Hd), insert_id; [done|].
      exact (proj1 (ch_files _ _ _ _ _ Hk _ _ Hd)).
  - intros p Hp. rewrite Hcs, fmap_app in Hp. rewrite Hd', lookup_insert_ne; [done|].
    intros <-. apply Hp, elem_of_app. right. by apply list_elem_of_singleton.
Qed.

Lemma connector_current dir limit k l w g :
  connector_holds dir limit k l w ->
  (forall c, last (connector_chunks limit l) = Some c -> ck_group c <> g) ->
  cs_current_group k <> Some g.
Proof.
  intros Hk Hne. destruct (chunks_cases (connector_chunks limit l)) as [Hnil|(cs0 & c & Hcs)].
  - by rewrite (ch_empty _ _ _ _ _ Hk Hnil).
  - destruct (ch_last _ _ _ _ _ Hk _ _ Hcs) as (-> & _). intros [= Heq].
    by apply (Hne c); [apply (last_snoc_inv _ _ _ Hcs)|].
Qed.

Lemma wp_connector_push dir limit k l r w :
  connector_holds dir limit k l w -> connector_room (l ++ [r]) ->
  NoDup (connector_path dir <$> connector_chunks limit (l ++ [r])) ->
  wp (connector_push k r) w E (fun k' w' => connector_holds dir limit k' (l ++ [r]) w' /\
    frame (fun p => p ∈ connector_path dir <$> connector_chunks limit (l ++ [r])) w w').
Proof.
  intros Hk Hroom' Hnd. pose proof Hroom' as Hroom. unfold connector_room in Hroom.
  rewrite connector_bytes_app in Hroom. cbn [connector_bytes foldr] in Hroom.
  pose proof (connector_bytes_length l) as Hcount.
  pose proof (connector_bytes_length [r]) as Hone. cbn [connector_bytes foldr length] in Hone.
  pose proof (ch_dir _ _ _ _ _ Hk) as Hdir. pose proof (ch_limit _ _ _ _ _ Hk) as Hlim.
  pose proof (chunk_add_step limit connector_body (connector_chunks limit l) (by_group r)) as Hstep.
  assert (connector_chunks limit (l ++ [r]) = chunk_add limit connector_body (connector_chunks limit l) (by_group r))
    as Hsnoc by (unfold connector_chunks; rewrite fmap_app; apply chunks_of_snoc).
  rewrite <- Hsnoc in Hstep. remember (connector_chunks limit (l ++ [r])) as cs' eqn:Hcs'.
  unfold connector_push.
  destruct Hstep as [Hne|cs0 c Hcs Hg Hlt|cs0 c Hcs Hg Hle]; clear Hsnoc; cbn [fst snd by_group] in *.
  - rewrite bool_decide_false by (eapply connector_current; [exact Hk|done]).
    apply wp_bind. eapply wp_connector_open; [done|]. cbv zeta. intros w1 Hd1.
    apply wp_bind, wp_account. apply wp_bind. eapply wp_checked.
    { apply checked_add_u64_Some. cbn [cs_current_bytes]. split; [done|lia]. }
    apply wp_bind, wp_ret. rewrite Hcs'.
    eapply (connector_new_row dir limit k l (first_of (by_group r)) r w).
    all: rewrite <- ?Hcs'; try done.
    + cbn. by rewrite Hdir, Hlim.
    + cbn in Hd1 |- *. by rewrite Hd1, Hdir.
  - destruct (ch_last _ _ _ _ _ Hk _ _ Hcs) as (Ht & Hi & Hw & Hn & Hb).
    assert (c ∈ connector_chunks limit l) as Hin by (rewrite Hcs; set_solver).
    pose proof (connector_chunk_total limit l c Hin) as Htot.
    pose proof (connector_index_bound limit l c Hin) as Hidx.
    destruct (chunks_of_spec limit connector_body (by_group <$> l)) as [_ Hspec]. rewrite Forall_forall in Hspec.
    destruct (Hspec c Hin) as (Hne & Hidx0 & _).
    assert (0 < length (ck_rows c)) as Hpos by (destruct (ck_rows c); [done|simpl; lia]).
    rewrite length_connector_body, connector_bytes_app in Hlt. cbn [connector_bytes foldr] in Hlt.
    rewrite length_connector_body in Hb.
    rewrite bool_decide_true by congruence. apply wp_bind, wp_ret.
    apply wp_bind, wp_account. apply wp_bind. eapply wp_checked.
    { apply checked_add_u64_Some. split; [done|]. lia. }
    rewrite Hn, Hlim. destruct (Z.ltb_spec 0 (Z.of_nat (length (ck_rows c)))); [|lia].
    destruct (Z.ltb_spec limit (cs_current_bytes k + Z.of_nat (length (encode_connector r)))); [|lia].
    apply wp_bind, wp_bind. eapply wp_checked; [apply checked_add_u64_Some; cbn; split; [done|lia]|].
    eapply wp_connector_open; [done|]. cbv zeta. intros w2 Hd2.
    rewrite Hcs'. eapply (connector_new_row dir limit k l (next_of c (by_group r)) r w).
    all: rewrite <- ?Hcs'; try done.
    + cbn. unfold connector_copy, connector_path. cbn. by rewrite Hdir, Hlim, Hi.
    + unfold connector_path. cbn in Hd2 |- *. by rewrite Hd2, Hdir, Hi.
  - destruct (ch_last _ _ _ _ _ Hk _ _ Hcs) as (Ht & Hi & Hw & Hn & Hb).
    assert (c ∈ connector_chunks limit l) as Hin by (rewrite Hcs; set_solver).
    pose proof (connector_chunk_total limit l c Hin) as Htot.
    destruct (ch_files _ _ _ _ _ Hk _ _ Hcs) as [Hfile _].
    rewrite length_connector_body, connector_bytes_app in Hle. cbn [connector_bytes foldr] in Hle.
    pose proof Hb as Hb'. rewrite length_connector_body in Hb.
    pose proof (connector_bytes_length (ck_rows c)) as Hcl. pose proof (ch_rows _ _ _ _ _ Hk) as Hrows.
    rewrite bool_decide_true by congruence. apply wp_bind, wp_ret.
    apply wp_bind, wp_account. apply wp_bind. eapply wp_checked.
    { apply checked_add_u64_Some. split; [done|]. lia. }
    rewrite Hlim. destruct (Z.ltb_spec limit (cs_current_bytes k + Z.of_nat (length (encode_connector r)))); [lia|].
    rewrite andb_false_r. apply wp_bind, wp_ret.
    assert (connector_body (ck_rows c ++ [r]) = connector_body (ck_rows c) ++ encode_connector r) as Hbody.
    { unfold connector_body. rewrite fmap_app, concat_app. cbn [fmap list_fmap concat].
      by rewrite app_nil_r, app_assoc. }
    eapply (wp_connector_store k); [exact Hw|exact Hfile|lia|lia|lia|]. intros w' Hd'. split.
    + eapply connector_holds_snoc; [by rewrite <- Hcs'|done|done| | |done|done|done| | |];
        cbn [cs_copy_statements cs_row_count cs_rows_in_chunk cs_current_bytes grown ck_rows snd by_group].
      * rewrite (ch_statements _ _ _ _ _ Hk), Hcs, !fmap_app. done.
      * rewrite Hrows, length_app. cbn [length]. lia.
      * rewrite Hn, length_app. cbn [length]. lia.
      * rewrite Hbody, length_app, Hb'. lia.
      * eapply chunk_files_grow; [rewrite <- Hcs; apply (ch_files _ _ _ _ _ Hk)|done|done|].
        rewrite Hd'. cbn [grown ck_rows snd by_group]. by rewrite Hbody.
    + intros p Hp. rewrite Hd', lookup_insert_ne; [done|]. intros <-. apply Hp.
      rewrite fmap_app. apply elem_of_app. right. by apply list_elem_of_singleton.
Qed.

Lemma wp_new_connector dir limit w : connector_holds dir limit (new_connector_sink dir limit) [] w.
Proof. split; try done; by intros [|] ?. Qed.

Lemma wp_connector_finish dir limit k l w :
  connector_holds dir limit k l w -> NoDup (connector_path dir <$> connector_chunks limit l) ->
  wp (connector_finish k) w E (fun res w' =>
    res = (connector_copy dir <$> connector_chunks limit l, Z.of_nat (length l)) /\ w' = w /\
    closed_files connector_body (connector_path dir) (connector_chunks limit l) w').
Proof.
  intros Hk Hnd. apply wp_ret. simpl. split_and!; [|done|].
  - by rewrite (ch_statements _ _ _ _ _ Hk), (ch_rows _ _ _ _ _ Hk).
  - intros c Hc. pose proof (ch_files _ _ _ _ _ Hk) as Hf.
    destruct (chunks_cases (connector_chunks limit l)) as [Hnil|(cs0 & d & Hd)].
    + rewrite Hnil in Hc. by apply elem_of_nil in Hc.
    + destruct (Hf _ _ Hd) as [Hfd Hfc]. rewrite Hd in Hc.
      apply elem_of_app in Hc as [Hc| ->%list_elem_of_singleton]; [by apply Hfc|done].
Qed.
End Connector.

(** ** Quoting *)
Definition escape (b : Z) : list Z := if Z.eqb b quote then [quote; quote] else [b].
Definition escaped (l : list Z) : list Z := concat (escape <$> l).

Lemma csv_loop (suf pre out : list Z) start :
  start <= length pre -> out ++ drop start pre = quote :: escaped pre ->
  exists out' start', fold_left (csv_step (pre ++ suf)) (zip (seq (length pre) (length suf)) suf) (out, start)
    = (out', start') /\ out' ++ drop start' (pre ++ suf) = quote :: escaped (pre ++ suf).
Proof.
  revert pre out start. induction suf as [|b suf IH]; intros pre out start Hs Ho.
  - exists out, start. by rewrite app_nil_r.
  - cbn [length seq zip zip_with fold_left csv_step].
    assert (forall l, escaped (pre ++ l) = escaped pre ++ escaped l) as Happ
      by (intros l; unfold escaped; by rewrite fmap_app, concat_app).
    specialize (IH (pre ++ [b])). rewrite <- app_assoc in IH. simpl app in IH.
    rewrite length_app in IH. cbn [length] in IH. rewrite Nat.add_1_r in IH.
    destruct (Z.eqb_spec b quote) as [->|Hne]; cbn [negb].
    + apply IH; [lia|]. unfold slice.
      rewrite drop_app_le, take_app_le by (rewrite ?length_drop; lia).
      rewrite (take_ge (drop start pre)) by (rewrite length_drop; lia).
      rewrite Nat.add_1_r, (drop_ge (pre ++ [quote])) by (rewrite length_app; simpl; lia).
      rewrite app_nil_r, app_assoc, Ho, Happ. done.
    + apply IH; [lia|]. rewrite drop_app_le, app_assoc, Ho, Happ by lia.
      unfold escaped at 3. cbn [fmap list_fmap concat]. unfold escape.
      by rewrite (proj2 (Z.eqb_neq b quote) Hne).
Qed.

Lemma write_csv_field_spec s :
  write_csv_field s =
    if existsb is_csv_special (bytes_of s) then quote :: escaped (bytes_of s) ++ [quote] else bytes_of s.
Proof.
  unfold write_csv_field. destruct (existsb is_csv_special (bytes_of s)); [|done]. cbn [negb].
  destruct (csv_loop (bytes_of s) [] [quote] 0) as (out & start & Hf & Ho); [simpl; lia|done|].
  cbn [app length] in Hf, Ho. unfold enumerate. rewrite Hf.
  by rewrite app_assoc, Ho.
Qed.

(** A reader of comma-separated values: a field is quoted, with doubled quotes, or runs to
    the next special byte. *)
Fixpoint read_quoted (l : list Z) : option (list Z * list Z) :=
  match l with
  | [] => None
  | b :: l' =>
      if Z.eqb b quote then
        match l' with
        | c :: l'' => if Z.eqb c quote then prod_map (cons quote) id <$> read_quoted l'' else Some ([], l')
        | [] => Some ([], [])
        end
      else prod_map (cons b) id <$> read_quoted l'
  end.
Fixpoint read_plain (l : list Z) : list Z * list Z :=
  match l with
  | [] => ([], [])
  | b :: l' => if is_csv_special b then ([], l) else prod_map (cons b) id (read_plain l')
  end.
Definition read_field (l : list Z) : option (list Z * list Z) :=
  match l with
  | b :: l' => if Z.eqb b quote then read_quoted l' else Some (read_plain l)
  | [] => Some ([], [])
  end.
Definition expect (b : Z) (l : list Z) : option (list Z) :=
  match l with c :: l => if Z.eqb c b then Some l else None | [] => None end.
(** A line of a connector file, and what follows it. *)
Definition read_connector (l : list Z) : option (list Z * list Z * list Z * list Z) :=
  '(from, l) ← read_field l; l ← expect comma l;
  '(to, l) ← read_field l; l ← expect comma l;
  '(role, l) ← read_field l; l ← expect 13 l; l ← expect 10 l;
  Some (from, to, role, l).

Lemma read_quoted_escaped v sep rest :
  sep <> quote -> read_quoted (escaped v ++ quote :: sep :: rest) = Some (v, sep :: rest).
Proof.
  intros Hs. induction v as [|b v IH].
  - simpl. by rewrite (proj2 (Z.eqb_neq sep quote) Hs).
  - unfold escaped. cbn [fmap list_fmap concat]. fold (escaped v). unfold escape.
    destruct (Z.eqb_spec b quote) as [->|Hne]; cbn [app read_quoted].
    + rewrite Z.eqb_refl. fold (escaped v). rewrite IH. done.
    + rewrite (proj2 (Z.eqb_neq b quote) Hne). change (concat _) with (escaped v). by rewrite IH.
Qed.

Lemma read_plain_spec v sep rest :
  existsb is_csv_special v = false -> is_csv_special sep = true ->
  read_plain (v ++ sep :: rest) = (v, sep :: rest).
Proof.
  intros Hv Hs. induction v as [|b v IH]; simpl in *; [by rewrite Hs|].
  apply orb_false_iff in Hv as [Hb Hv]. by rewrite Hb, IH.
Qed.

Lemma read_field_spec s sep rest :
  is_csv_special sep = true -> sep <> quote ->
  read_field (write_csv_field s ++ sep :: rest) = Some (bytes_of s, sep :: rest).
Proof.
  intros Hs Hq. rewrite write_csv_field_spec. destruct (existsb is_csv_special (bytes_of s)) eqn:Es.
  - rewrite <- app_comm_cons, <- app_assoc. cbn [read_field app]. rewrite Z.eqb_refl.
    by apply read_quoted_escaped.
  - assert (read_plain (bytes_of s ++ sep :: rest) = (bytes_of s, sep :: rest)) as Hp by by apply read_plain_spec.
    unfold read_field. destruct (bytes_of s ++ sep :: rest) as [|b l] eqn:El; [by destruct (bytes_of s)|].
    rewrite <- El in Hp |- *. destruct (Z.eqb_spec b quote) as [->|]; [|by rewrite Hp].
    exfalso. destruct (bytes_of s) as [|c v]; injection El as ->; [done|].
    simpl in Es. done.
Qed.

(** a connector line reads back: whatever bytes the identifiers and the role hold
    (commas, quotes, line ends), a reader of comma-separated values gets exactly these
    fields, and stops at the end of the line. *)
Theorem connector_line_roundtrip (c : ConnectorRecord) rest :
  read_connector (encode_connector c ++ rest) =
    Some (bytes_of (c_from_id c), bytes_of (c_to_id c), bytes_of (c_role c), rest).
Proof.
  unfold read_connector, encode_connector. rewrite <- !app_assoc. cbn [app].
  rewrite read_field_spec by done. cbn. rewrite read_field_spec by done. cbn.
  rewrite read_field_spec by done. done.
Qed.

(** ** A sink on its own *)
Section Tables.
Context {T : Type} `{RecordCodec T} `{MemoryLayout T}.

(** A new sink, a push per row, and [finish]. *)
Definition write_tables (dir : string) (limit : Z) (rows : list (string * T)) : IO (list string * Z) :=
  k ← io_fold (fun k x => json_push k x.1 x.2) (new_json_sink dir limit) rows;
  json_finish k.

Lemma table_paths_prefix dir limit (l l' : list (string * T)) :
  NoDup (table_path dir <$> table_chunks limit (l ++ l')) -> NoDup (table_path dir <$> table_chunks limit l).
Proof.
  intros Hnd. destruct (chunks_of_prefix limit json_closed (table_path dir) l l') as [post Hpost]; [done|].
  unfold table_chunks in *. rewrite Hpost in Hnd. by apply NoDup_app in Hnd as (? & _).
Qed.

Lemma json_room_prefix (l l' : list (string * T)) : json_room (l ++ l') -> json_room l.
Proof.
  intros [Hf Hb]. apply Forall_app in Hf as [Hf _]. split; [done|].
  rewrite fmap_app, total_bytes_app in Hb. pose proof (total_bytes_length (snd <$> l')). lia.
Qed.
End Tables.

(** the files of a table sink: one file per chunk with its COPY statement, in order,
    each a JSON array of its rows; the chunks divide the rows in order, a chunk holds rows
    of one table only, and is larger than the limit only when it is a single row; no other
    file is touched, the row count is the number of rows, and nothing fails.  The paths of
    the chunks must differ, and the rows encode and fit the counters. *)
Theorem table_files_correct {T} `{RecordCodec T} `{MemoryLayout T} dir limit (rows : list (string * T)) w :
  let chunks := table_chunks limit rows in
  json_room rows -> NoDup (table_path dir <$> chunks) ->
  (concat (tagged_rows <$> chunks) = rows /\
   Forall (fun c => ck_rows c <> [] /\ ((Z.of_nat (length (json_closed (ck_rows c))) <= limit)%Z \/
                                      length (ck_rows c) = 1)) chunks) /\
  wp (write_tables dir limit rows) w (fun _ => False) (fun res w' =>
    res = (table_statement dir <$> chunks, Z.of_nat (length rows)) /\
    (forall c, c ∈ chunks -> disk w' !! table_path dir c = Some (json_closed (ck_rows c))) /\
    forall p, p ∉ table_path dir <$> chunks -> disk w' !! p = disk w !! p).
Proof.
  intros chunks Hroom Hnd. split.
  { destruct (chunks_of_spec limit json_closed rows) as [Hc Hf]. split; [done|].
    eapply Forall_impl; [exact Hf|]. intros c (? & _ & ?). done. }
  unfold write_tables. apply wp_bind.
  apply wp_fold with (I := fun k dn w' => json_holds dir limit k dn w' /\
    frame (fun p => p ∈ table_path dir <$> chunks) w w').
  - split; [apply wp_new_json|done].
  - intros k dn [table r] rest w1 Hl [Hk Hfr]. simpl.
    assert (rows = (dn ++ [(table, r)]) ++ rest) as Hl' by by rewrite <- app_assoc.
    assert (NoDup (table_path dir <$> table_chunks limit (dn ++ [(table, r)]))) as Hnd'
      by (apply (table_paths_prefix dir limit _ rest); by rewrite <- Hl').
    eapply wp_mono; [apply wp_json_push; [exact Hk| |exact Hnd']|].
    + apply (json_room_prefix _ rest). by rewrite <- Hl'.
    + simpl. intros k' w2 [Hk' Hfr']. split; [done|]. etrans; [exact Hfr|].
      eapply frame_weaken; [|exact Hfr']. intros p Hp. subst chunks. rewrite Hl'.
      destruct (chunks_of_prefix limit json_closed (table_path dir) (dn ++ [(table, r)]) rest) as [post Hpost]; [done|].
      unfold table_chunks in *. rewrite Hpost. set_solver.
  - intros k w1 [Hk Hfr]. eapply wp_mono; [by apply wp_json_finish|].
    simpl. intros res w2 (-> & Hfiles & Hfr2). split_and!; [done|exact Hfiles|].
    intros p Hp. rewrite Hfr2 by done. by apply Hfr.
Qed.

(** Rows of one byte. *)
Definition digit_codec : RecordCodec Z := {|
  encode_record := fun n => Ok [n];
  decode_record := fun l => match l with [n] => Ok n | _ => Err (JsonError "length") end
|}.
Definition digit_layout : MemoryLayout Z :=
  {| vec_capacity := fun _ => 8%Z; buffered_record_size := 40%Z; heap_item_size := 64%Z |}.
Definition digit_rows : list (string * Z) :=
  [("Symbol", 49%Z); ("Symbol", 50%Z); ("Symbol", 51%Z); ("File", 52%Z)].
Definition no_files : World :=
  {| disk := ∅; metrics := {| bytes_written := 0; current_bytes := 0; high_water_bytes := 0 |} |}.

Lemma table_files_correct_witness :
  (table_path "out" <$> @table_chunks Z digit_codec 6 digit_rows =
     ["out/symbol.json"; "out/symbol__000001.json"; "out/file.json"]) /\
  wp (@write_tables Z digit_codec digit_layout "out" 6 digit_rows) no_files (fun _ => False) (fun res w' =>
    res = (table_statement "out" <$> @table_chunks Z digit_codec 6 digit_rows, 4%Z) /\
    (forall c, c ∈ @table_chunks Z digit_codec 6 digit_rows ->
       disk w' !! table_path "out" c = Some (@json_closed Z digit_codec (ck_rows c))) /\
    forall p, p ∉ table_path "out" <$> @table_chunks Z digit_codec 6 digit_rows -> disk w' !! p = None).
Proof.
  split; [vm_compute; reflexivity|].
  refine (proj2 (@table_files_correct Z digit_codec digit_layout "out" 6 digit_rows no_files _ _)).
  - split; [repeat constructor|vm_compute; congruence].
  - assert (table_path "out" <$> @table_chunks Z digit_codec 6 digit_rows =
     ["out/symbol.json"; "out/symbol__000001.json"; "out/file.json"]) as -> by (vm_compute; reflexivity).
    apply (bool_decide_unpack _). vm_compute. exact I.
Defined.
