(* ===== verification/Staging.v ===== *)
(** * The staging accumulator (src/staging_writer/accumulator.rs, result.rs)

    Partitions are staged one after the other; [finish] merges the rows of each node and
    edge, resolves the tables of the ends of every edge, drops the edges that the declared
    schema does not allow between these tables, and writes the files to load with their
    COPY statements.  All intermediate data goes through sorted spools and files. *)
From S2P Require Import Prelude Order Text Json Protocol Rows StagedRows Disk Spill Sinks.

(** ** Records *)
Inductive RawRecord :=
| RawNode (table id : string) (source_order : Z) (row : NodeStagedRow)
| RawEdge (table id : string) (source_order : Z) (row : EdgeStagedRow)
| RawNodeType (id table : string) (source_order : Z).

Inductive RawKey :=
| KeyNode (table id : string) (source_order : Z)
| KeyEdge (table id : string) (source_order : Z)
| KeyNodeType (id : string) (source_order : Z).

(** The derived order: by variant, then field by field. *)
#[export] Instance Ord_RawKey : Ord RawKey := fun x y =>
  match x, y with
  | KeyNode t i o, KeyNode t' i' o' => cmp (t, i, o) (t', i', o')
  | KeyNode _ _ _, _ => Lt
  | KeyEdge _ _ _, KeyNode _ _ _ => Gt
  | KeyEdge t i o, KeyEdge t' i' o' => cmp (t, i, o) (t', i', o')
  | KeyEdge _ _ _, KeyNodeType _ _ => Lt
  | KeyNodeType i o, KeyNodeType i' o' => cmp (i, o) (i', o')
  | KeyNodeType _ _, _ => Gt
  end.

#[export] Instance Ord_side : Ord EndpointSide := fun x y =>
  match x, y with
  | Source, Target => Lt
  | Target, Source => Gt
  | _, _ => Eq
  end.

Definition raw_sort_key (r : RawRecord) : RawKey :=
  match r with
  | RawNode table id source_order _ => KeyNode table id source_order
  | RawEdge table id source_order _ => KeyEdge table id source_order
  | RawNodeType id _ source_order => KeyNodeType id source_order
  end.

(** [s.len()] as a [usize] *)
Definition str_len (s : string) : Z := Z.of_nat (String.length s).
(** [a.len().saturating_add(b.len())...] *)
Definition saturating_lengths (l : list string) : Z :=
  fold_left (fun acc s => saturating_add_u64 acc (str_len s)) l 0%Z.

Definition raw_key_bytes (k : RawKey) : Z :=
  match k with
  | KeyNode table id _ | KeyEdge table id _ => saturating_lengths [table; id]
  | KeyNodeType id _ => str_len id
  end.

Record MergedEdge := { me_table : string; me_id : string; me_row : EdgeStagedRow }.
Record ResolvedNodeType := { rt_id : string; rt_table : string }.
Record EndpointRequest := {
  er_node_id : string;
  er_relation : string;
  er_edge_id : string;
  er_side : EndpointSide
}.
Record ResolvedEndpoint := {
  re_relation : string;
  re_edge_id : string;
  re_side : EndpointSide;
  re_node_type : string
}.
Record EdgeIdentity := { ei_id : string }.

Definition RequestKey : Type := string * string * string * EndpointSide.
Definition ResolvedKey : Type := string * string * EndpointSide.
Definition ConnectorKey : Type := string * EndpointSide * string * string * string * string * string.

Definition request_sort_key (r : EndpointRequest) : RequestKey :=
  (er_node_id r, er_relation r, er_edge_id r, er_side r).
Definition resolved_sort_key (r : ResolvedEndpoint) : ResolvedKey :=
  (re_relation r, re_edge_id r, re_side r).
Definition connector_sort_key (c : ConnectorRecord) : ConnectorKey :=
  (c_relation c, c_side c, c_from_type c, c_to_type c, c_from_id c, c_to_id c, c_role c).

Definition request_key_bytes (k : RequestKey) : Z :=
  match k with (node_id, relation, edge_id, _) => saturating_lengths [node_id; relation; edge_id] end.
Definition resolved_key_bytes (k : ResolvedKey) : Z :=
  match k with (relation, edge_id, _) => saturating_lengths [relation; edge_id] end.
Definition connector_key_bytes (k : ConnectorKey) : Z :=
  match k with
  | (relation, _, from_type, to_type, from_id, to_id, role) =>
      saturating_lengths [relation; from_type; to_type; from_id; to_id; role]
  end.

#[export] Instance SpillRecord_raw : SpillRecord RawRecord RawKey :=
  {| sort_key := raw_sort_key; key_bytes := raw_key_bytes |}.
#[export] Instance SpillRecord_request : SpillRecord EndpointRequest RequestKey :=
  {| sort_key := request_sort_key; key_bytes := request_key_bytes |}.
#[export] Instance SpillRecord_resolved : SpillRecord ResolvedEndpoint ResolvedKey :=
  {| sort_key := resolved_sort_key; key_bytes := resolved_key_bytes |}.
#[export] Instance SpillRecord_identity : SpillRecord EdgeIdentity string :=
  {| sort_key := ei_id; key_bytes := str_len |}.
#[export] Instance SpillRecord_connector : SpillRecord ConnectorRecord ConnectorKey :=
  {| sort_key := connector_sort_key; key_bytes := connector_key_bytes |}.

Definition missing_error (r : EndpointRequest) : NativeError :=
  InvalidInput ("edge " +:+ er_edge_id r +:+ " references missing " +:+ side_str (er_side r)
                +:+ " node " +:+ er_node_id r).

(** Encodings and sizes, the parameters of the spools and files. *)
Class StagingCodecs := {
  raw_codec :: RecordCodec RawRecord; raw_layout :: MemoryLayout RawRecord;
  merged_codec :: RecordCodec MergedEdge;
  node_type_codec :: RecordCodec ResolvedNodeType;
  request_codec :: RecordCodec EndpointRequest; request_layout :: MemoryLayout EndpointRequest;
  resolved_codec :: RecordCodec ResolvedEndpoint; resolved_layout :: MemoryLayout ResolvedEndpoint;
  identity_codec :: RecordCodec EdgeIdentity; identity_layout :: MemoryLayout EdgeIdentity;
  connector_codec :: RecordCodec ConnectorRecord; connector_layout :: MemoryLayout ConnectorRecord;
  node_row_codec :: RecordCodec NodeStagedRow; node_row_layout :: MemoryLayout NodeStagedRow;
  edge_row_codec :: RecordCodec EdgeStagedRow; edge_row_layout :: MemoryLayout EdgeStagedRow
}.

(** ** The declared schema *)
Definition RelationConstraints : Type := gmap string (gset string * gset string).

Definition json_string_set (value : Value) (key : string) : gset string :=
  list_to_set (omap as_str (default [] (value_get key value ≫= as_array))).

(** One relation of the schema; a relation without source or target types is left out. *)
Definition declared_relation (relation : Value) : option (string * (gset string * gset string)) :=
  name ← value_get "name" relation ≫= as_str;
  let source_types := json_string_set relation "source_types" in
  let target_types := json_string_set relation "target_types" in
  if bool_decide (source_types = ∅) || bool_decide (target_types = ∅) then None
  else Some (name, (source_types, target_types)).

(** Of two declarations of one relation the later wins. *)
Definition from_declared_schema (schema : result string Value) : RelationConstraints :=
  match schema with
  | Err _ => ∅
  | Ok schema =>
      fold_left (fun m kv => <[kv.1 := kv.2]> m)
        (omap declared_relation (default [] (value_get "relation_types" schema ≫= as_array))) ∅
  end.

Definition constraint_allows (c : RelationConstraints) (relation source_type target_type : string) : bool :=
  match c !! relation with
  | None => true
  | Some (sources, targets) => bool_decide (source_type ∈ sources) && bool_decide (target_type ∈ targets)
  end.

(** ** The accumulator *)
Record StagingAccumulator := {
  staging_dir : string;
  run_root : string;
  chunk_limit : Z;
  output_chunk_limit : Z;
  raw_records : option (SortedSpool RawKey);
  next_source_order : Z;
  pending_error : option NativeError;
  relation_constraints : RelationConstraints
}.

Record StagingResult := {
  copy_statements : list string;
  node_rows : Z;
  edge_rows : Z;
  connector_rows : Z;
  copy_calls : nat;
  unique_node_count : Z;
  unique_edge_count : Z;
  spill_bytes : Z;
  high_water_bytes : Z
}.

Definition with_raw (a : StagingAccumulator) (s : option (SortedSpool RawKey)) : StagingAccumulator := {|
  staging_dir := staging_dir a; run_root := run_root a; chunk_limit := chunk_limit a;
  output_chunk_limit := output_chunk_limit a; raw_records := s;
  next_source_order := next_source_order a; pending_error := pending_error a;
  relation_constraints := relation_constraints a
|}.
Definition with_order (a : StagingAccumulator) (order : Z) : StagingAccumulator := {|
  staging_dir := staging_dir a; run_root := run_root a; chunk_limit := chunk_limit a;
  output_chunk_limit := output_chunk_limit a; raw_records := raw_records a;
  next_source_order := order; pending_error := pending_error a;
  relation_constraints := relation_constraints a
|}.
Definition with_error (a : StagingAccumulator) (e : NativeError) : StagingAccumulator := {|
  staging_dir := staging_dir a; run_root := run_root a; chunk_limit := chunk_limit a;
  output_chunk_limit := output_chunk_limit a; raw_records := raw_records a;
  next_source_order := next_source_order a; pending_error := Some e;
  relation_constraints := relation_constraints a
|}.

(** The rows of a partition that staging reads, and what the database already has. *)
Record StagedPartition := {
  sp_content_hash : string;
  sp_nodes : list GraphNodeRow;
  sp_edges : list GraphEdgeRow;
  sp_retained_nodes : gset string;
  sp_retained_edges : gset string
}.

Section Accumulator.
Context `{StagingCodecs}.

(** The run directory is named after the process and a sequence number. *)
Definition with_limits (schema : result string Value) (pid sequence : N) (dir : string)
    (chunk_limit output_chunk_limit : Z) : IO StagingAccumulator :=
  let root := path_join dir (".runs-" +:+ show_N pid +:+ "-" +:+ show_N sequence) in
  raw ← new_spool root "staged" chunk_limit;
  mret {| staging_dir := dir; run_root := root; chunk_limit := chunk_limit;
          output_chunk_limit := output_chunk_limit; raw_records := Some raw;
          next_source_order := 0; pending_error := None;
          relation_constraints := from_declared_schema schema |}.

Definition take_source_order (a : StagingAccumulator) : IO (Z * StagingAccumulator) :=
  let order := next_source_order a in
  next ← checked "staging source order overflow" (checked_add_u64 order 1);
  mret (order, with_order a next).

Definition push_raw (a : StagingAccumulator) (r : RawRecord) : IO StagingAccumulator :=
  spool ← io_try (ok_or (InvalidInput "staging record spool was not initialized") (raw_records a));
  spool ← push spool r;
  mret (with_raw a (Some spool)).

Definition stage_node (p : StagedPartition) (a : StagingAccumulator) (node : GraphNodeRow)
    : IO StagingAccumulator :=
  taken ← take_source_order a;
  let (source_order, a) := (taken : Z * StagingAccumulator) in
  a ← push_raw a (RawNodeType (n_id node) (n_table node) source_order);
  if bool_decide (n_id node ∈ sp_retained_nodes p) then mret a
  else
    let content_hash := if String.eqb (n_table node) "File" then Some (sp_content_hash p) else None in
    push_raw a (RawNode (n_table node) (n_id node) source_order (node_fields node content_hash)).

Definition stage_edge (p : StagedPartition) (a : StagingAccumulator) (edge : GraphEdgeRow)
    : IO StagingAccumulator :=
  if bool_decide (e_id edge ∈ sp_retained_edges p) then mret a
  else
    taken ← take_source_order a;
    let (source_order, a) := (taken : Z * StagingAccumulator) in
    push_raw a (RawEdge (e_edge_type edge) (e_id edge) source_order (edge_fields edge)).

(** An error as a value; what the failing operation wrote is forgotten: nothing of the
    accumulator but the error is looked at again. *)
Definition io_catch {A} (m : IO A) : IO (native_result A) := fun w =>
  match m w with
  | Ok (a, w') => Ok (Ok a, w')
  | Err (Failed e) => Ok (Err e, w)
  | Err e => Err e
  end.

Definition add_partition_filtered (a : StagingAccumulator) (p : StagedPartition) : IO StagingAccumulator :=
  match pending_error a with
  | Some _ => mret a
  | None =>
      r ← io_catch (b ← io_fold (stage_node p) a (sp_nodes p); io_fold (stage_edge p) b (sp_edges p));
      mret (match r with Ok b => b | Err e => with_error a e end)
  end.

(** ** Record files *)
Definition push_record {T} `{RecordCodec T} (path : string) (r : T) : IO () :=
  encoded ← io_try (encode_record r); write_encoded path encoded.

(** [RecordFileReader::next]: the record and the rest of the file. *)
Definition read_next {T} `{RecordCodec T} (bytes : list Z) : native_result (option (T * list Z)) :=
  result_bind (read_record bytes) (fun next =>
    match next with
    | None => Ok None
    | Some (encoded, rest) => result_map (fun r => Some (r, rest)) (decode_record encoded)
    end).

(** ** First pass: grouping *)
Record GroupState := {
  g_nodes : JsonTableSink;
  g_endpoints : SortedSpool RequestKey;
  node_group : option (string * string * NodeStagedRow);
  edge_group : option (string * string * EdgeStagedRow);
  type_group : option (string * string);
  g_node_count : Z
}.

Definition with_nodes (g : GroupState) (k : JsonTableSink) : GroupState := {|
  g_nodes := k; g_endpoints := g_endpoints g; node_group := node_group g;
  edge_group := edge_group g; type_group := type_group g; g_node_count := g_node_count g
|}.
Definition with_node_group (g : GroupState) (x : option (string * string * NodeStagedRow)) : GroupState := {|
  g_nodes := g_nodes g; g_endpoints := g_endpoints g; node_group := x;
  edge_group := edge_group g; type_group := type_group g; g_node_count := g_node_count g
|}.
Definition with_edge_group (g : GroupState) (x : option (string * string * EdgeStagedRow)) : GroupState := {|
  g_nodes := g_nodes g; g_endpoints := g_endpoints g; node_group := node_group g;
  edge_group := x; type_group := type_group g; g_node_count := g_node_count g
|}.
Definition with_endpoints (g : GroupState) (s : SortedSpool RequestKey) : GroupState := {|
  g_nodes := g_nodes g; g_endpoints := s; node_group := node_group g;
  edge_group := edge_group g; type_group := type_group g; g_node_count := g_node_count g
|}.
Definition with_type_group (g : GroupState) (x : option (string * string)) (count : Z) : GroupState := {|
  g_nodes := g_nodes g; g_endpoints := g_endpoints g; node_group := node_group g;
  edge_group := edge_group g; type_group := x; g_node_count := count
|}.

Definition write_merged_edge (merged_edges : string) (endpoints : SortedSpool RequestKey)
    (table id : string) (row : EdgeStagedRow) : IO (SortedSpool RequestKey) :=
  endpoints ← push endpoints {| er_node_id := es_source_id row; er_relation := table;
                                er_edge_id := id; er_side := Source |};
  endpoints ← push endpoints {| er_node_id := es_target_id row; er_relation := table;
                                er_edge_id := id; er_side := Target |};
  _ ← push_record merged_edges {| me_table := table; me_id := id; me_row := row |};
  mret endpoints.

(** The group that is open goes out: [if let Some(...) = group.take() { ... }]. *)
Definition close_node_group (g : GroupState) : IO GroupState :=
  match node_group g with
  | Some (table, _, row) => k ← json_push (g_nodes g) table row; mret (with_node_group (with_nodes g k) None)
  | None => mret g
  end.
Definition close_edge_group (merged_edges : string) (g : GroupState) : IO GroupState :=
  match edge_group g with
  | Some (table, id, row) =>
      s ← write_merged_edge merged_edges (g_endpoints g) table id row;
      mret (with_edge_group (with_endpoints g s) None)
  | None => mret g
  end.
Definition close_type_group (node_types : string) (g : GroupState) : IO GroupState :=
  match type_group g with
  | Some (id, table) =>
      _ ← push_record node_types {| rt_id := id; rt_table := table |};
      count ← checked "unique node count overflow" (checked_add_u64 (g_node_count g) 1);
      mret (with_type_group g None count)
  | None => mret g
  end.

Definition group_step (merged_edges node_types : string) (g : GroupState) (r : RawRecord) : IO GroupState :=
  match r with
  | RawNode table id _ row =>
      match node_group g with
      | Some (current_table, current_id, current_row) =>
          if String.eqb current_table table && String.eqb current_id id then
            mret (with_node_group g (Some (current_table, current_id, merge_node_value current_row row)))
          else g ← close_node_group g; mret (with_node_group g (Some (table, id, row)))
      | None => mret (with_node_group g (Some (table, id, row)))
      end
  | RawEdge table id _ row =>
      g ← close_node_group g;
      match edge_group g with
      | Some (current_table, current_id, current_row) =>
          if String.eqb current_table table && String.eqb current_id id then
            mret (with_edge_group g (Some (current_table, current_id, merge_edge_value current_row row)))
          else g ← close_edge_group merged_edges g; mret (with_edge_group g (Some (table, id, row)))
      | None => mret (with_edge_group g (Some (table, id, row)))
      end
  | RawNodeType id table _ =>
      g ← close_edge_group merged_edges g;
      match type_group g with
      | Some (current_id, _) =>
          if String.eqb current_id id then mret g
          else g ← close_type_group node_types g; mret (with_type_group g (Some (id, table)) (g_node_count g))
      | None => mret (with_type_group g (Some (id, table)) (g_node_count g))
      end
  end.

(** ** Second pass: the tables of the ends of edges *)
Record ResolveState := {
  current_node_type : option ResolvedNodeType;
  node_type_reader : list Z;
  resolved_endpoints : SortedSpool ResolvedKey
}.

(** [node_type_reader.next()?]: the next entry, and what is left to read. *)
Definition next_node_type (reader : list Z) : IO (option ResolvedNodeType * list Z) :=
  next ← io_try (read_next reader);
  mret (match next with Some (r, rest) => (Some r, rest) | None => (None, reader) end).

(** [while current.id < node_id { current = reader.next()?; }] *)
Fixpoint skip_node_types (fuel : nat) (node_id : string) (current : option ResolvedNodeType)
    (reader : list Z) : IO (option ResolvedNodeType * list Z) :=
  match fuel with
  | 0 => io_abort OutOfFuel
  | S fuel =>
      match current with
      | Some t => if lt_b (rt_id t) node_id then
                    r ← next_node_type reader; skip_node_types fuel node_id r.1 r.2
                  else mret (current, reader)
      | None => mret (current, reader)
      end
  end.

Definition resolve_step (s : ResolveState) (e : EndpointRequest) : IO ResolveState :=
  r ← skip_node_types (2 + length (node_type_reader s)) (er_node_id e) (current_node_type s)
        (node_type_reader s);
  node_type ← io_try (ok_or (missing_error e)
    (match r.1 with
     | Some t => if String.eqb (rt_id t) (er_node_id e) then Some t else None
     | None => None
     end));
  spool ← push (resolved_endpoints s)
    {| re_relation := er_relation e; re_edge_id := er_edge_id e; re_side := er_side e;
       re_node_type := rt_table node_type |};
  mret {| current_node_type := r.1; node_type_reader := r.2; resolved_endpoints := spool |}.

(** ** Third pass: the edges that the schema allows *)
Definition take_resolved_endpoint (stream : SortedStream ResolvedEndpoint ResolvedKey)
    (relation edge_id : string) (side : EndpointSide)
    : IO (ResolvedEndpoint * SortedStream ResolvedEndpoint ResolvedKey) :=
  r ← next stream;
  endpoint ← io_try (ok_or (InvalidInput ("edge " +:+ edge_id +:+ " is missing its "
                              +:+ side_str side +:+ " endpoint resolution")) r.1);
  if negb (String.eqb (re_relation endpoint) relation) || negb (String.eqb (re_edge_id endpoint) edge_id)
     || negb (bool_decide (re_side endpoint = side))
  then io_fail (InvalidInput ("edge " +:+ edge_id +:+ " has inconsistent "
                              +:+ side_str side +:+ " endpoint resolution"))
  else mret (endpoint, r.2).

Record EdgeState := {
  x_resolved : SortedStream ResolvedEndpoint ResolvedKey;
  x_edges : JsonTableSink;
  x_connectors : SortedSpool ConnectorKey;
  x_accepted : SortedSpool string
}.

Definition edge_step (c : RelationConstraints) (s : EdgeState) (edge : MergedEdge) : IO EdgeState :=
  r ← take_resolved_endpoint (x_resolved s) (me_table edge) (me_id edge) Source;
  let source := r.1 in
  r ← take_resolved_endpoint r.2 (me_table edge) (me_id edge) Target;
  let target := r.1 in
  let stream := r.2 in
  if negb (constraint_allows c (me_table edge) (re_node_type source) (re_node_type target)) then
    mret {| x_resolved := stream; x_edges := x_edges s; x_connectors := x_connectors s;
            x_accepted := x_accepted s |}
  else
    sink ← json_push (x_edges s) (me_table edge) (me_row edge);
    accepted ← push (x_accepted s) {| ei_id := me_id edge |};
    connectors ← push (x_connectors s)
      {| c_relation := me_table edge; c_side := Source; c_from_type := re_node_type source;
         c_to_type := me_table edge; c_from_id := es_source_id (me_row edge); c_to_id := me_id edge;
         c_role := "source" |};
    connectors ← push connectors
      {| c_relation := me_table edge; c_side := Target; c_from_type := me_table edge;
         c_to_type := re_node_type target; c_from_id := me_id edge; c_to_id := es_target_id (me_row edge);
         c_role := "target" |};
    mret {| x_resolved := stream; x_edges := sink; x_connectors := connectors; x_accepted := accepted |}.

(** [while let Some(r) = reader.next()? { s = f(s, r)?; }] *)
Fixpoint for_each_record {S T} `{RecordCodec T} (fuel : nat) (f : S -> T -> IO S) (s : S) (bytes : list Z)
    : IO S :=
  match fuel with
  | 0 => io_abort OutOfFuel
  | Datatypes.S fuel =>
      next ← io_try (read_next bytes);
      match next with
      | None => mret s
      | Some (r, rest) => s' ← f s r; for_each_record fuel f s' rest
      end
  end.

(** [while let Some(r) = stream.next()? { s = f(s, r)?; }]; [next] is [next_encoded]
    without the encoding. *)
Definition for_each_next {S T K} `{Ord K} `{RecordCodec T} `{MemoryLayout T} `{SpillRecord T K}
    (f : S -> T -> IO S) (s : S) (st : SortedStream T K) : IO (S * SortedStream T K) :=
  for_each_item (stream_fuel st) (fun s item => f s (item_record item)) s st.

(** ** Last passes: counting edges and writing connectors *)
Definition count_step (s : option string * Z) (e : EdgeIdentity) : IO (option string * Z) :=
  if bool_decide (s.1 = Some (ei_id e)) then mret s
  else count ← checked "unique edge count overflow" (checked_add_u64 s.2 1);
       mret (Some (ei_id e), count).

Definition connector_step (s : ConnectorSink * option ConnectorKey) (c : ConnectorRecord)
    : IO (ConnectorSink * option ConnectorKey) :=
  let key := connector_sort_key c in
  if bool_decide (s.2 = Some key) then mret s
  else k ← connector_push s.1 c; mret (k, Some key).

(** ** Finishing
    The passes of [finish], in the order of its statements. *)
Definition merged_edges_path (a : StagingAccumulator) : string := path_join (run_root a) "merged-edges.bin".
Definition node_types_path (a : StagingAccumulator) : string := path_join (run_root a) "node-types.bin".

Definition group_pass (a : StagingAccumulator) (raw_stream : SortedStream RawRecord RawKey) : IO GroupState :=
  _ ← create_file (merged_edges_path a);
  _ ← create_file (node_types_path a);
  endpoints ← new_spool (run_root a) "endpoints" (chunk_limit a);
  let g := {| g_nodes := new_json_sink (staging_dir a) (output_chunk_limit a);
              g_endpoints := endpoints; node_group := None; edge_group := None; type_group := None;
              g_node_count := 0 |} in
  r ← for_each_next (group_step (merged_edges_path a) (node_types_path a)) g raw_stream;
  g ← close_node_group r.1;
  g ← close_edge_group (merged_edges_path a) g;
  close_type_group (node_types_path a) g.

Definition resolve_pass (a : StagingAccumulator) (endpoints : SortedSpool RequestKey) : IO (SortedSpool ResolvedKey) :=
  endpoint_stream ← finish_spool (T := EndpointRequest) endpoints;
  bytes ← open_file (node_types_path a);
  first ← next_node_type bytes;
  resolved ← new_spool (run_root a) "resolved-endpoints" (chunk_limit a);
  r ← for_each_next resolve_step
        {| current_node_type := first.1; node_type_reader := first.2; resolved_endpoints := resolved |}
        endpoint_stream;
  _ ← remove_file (node_types_path a);
  mret (resolved_endpoints r.1).

Definition edge_pass (a : StagingAccumulator) (resolved : SortedSpool ResolvedKey) : IO EdgeState :=
  resolved_stream ← finish_spool (T := ResolvedEndpoint) resolved;
  bytes ← open_file (merged_edges_path a);
  connectors ← new_spool (run_root a) "connectors" (chunk_limit a);
  accepted ← new_spool (run_root a) "accepted-edge-ids" (chunk_limit a);
  x ← for_each_record (1 + length bytes) (edge_step (relation_constraints a))
        {| x_resolved := resolved_stream;
           x_edges := new_json_sink (staging_dir a) (output_chunk_limit a);
           x_connectors := connectors; x_accepted := accepted |} bytes;
  _ ← remove_file (merged_edges_path a);
  mret x.

Definition count_pass (accepted : SortedSpool string) : IO Z :=
  accepted_stream ← finish_spool (T := EdgeIdentity) accepted;
  r ← for_each_next count_step (None, 0%Z) accepted_stream;
  mret r.1.2.

Definition connector_pass (a : StagingAccumulator) (connectors : SortedSpool ConnectorKey) : IO (list string * Z) :=
  connector_stream ← finish_spool (T := ConnectorRecord) connectors;
  r ← for_each_next connector_step (new_connector_sink (staging_dir a) (output_chunk_limit a), None)
        connector_stream;
  connector_finish r.1.1.

Definition finish (a : StagingAccumulator) : IO StagingResult :=
  match pending_error a with
  | Some e => io_fail e
  | None =>
      raw ← io_try (ok_or (InvalidInput "staging record spool was not initialized") (raw_records a));
      raw_stream ← finish_spool raw;
      g ← group_pass a raw_stream;
      nodes ← json_finish (g_nodes g);
      resolved ← resolve_pass a (g_endpoints g);
      x ← edge_pass a resolved;
      edges ← json_finish (x_edges x);
      count ← count_pass (x_accepted x);
      written ← connector_pass a (x_connectors x);
      m ← get_metrics;
      _ ← drop_stream (x_resolved x);
      let statements := nodes.1 ++ edges.1 ++ written.1 in
      mret {| copy_statements := statements; node_rows := nodes.2; edge_rows := edges.2;
              connector_rows := written.2; copy_calls := length statements;
              unique_node_count := g_node_count g; unique_edge_count := count;
              spill_bytes := (snapshot m).1; high_water_bytes := (snapshot m).2 |}
  end.
End Accumulator.
