(* ===== verification/StagingSpec.v ===== *)
(** * What staging is to compute

    The specification of the staging accumulator: no spools, no files, no order of passes.
    Then the facts about sorting and grouping by which the passes meet it. *)
From S2P Require Import Prelude Order Text Json Protocol Rows StagedRows Disk Spill Sinks Staging.

(** ** Keys *)
Lemma OrdLaws_inj {A B} `{Ord A} `{OrdLaws B} (f : A -> B) :
  (forall x y, cmp x y = cmp (f x) (f y)) -> (forall x y, f x = f y -> x = y) -> OrdLaws A.
Proof.
  intros Hc Hf. split.
  - intros x y. rewrite Hc, cmp_eq. split; [apply Hf|by intros ->].
  - intros x y. rewrite !Hc. apply cmp_antisym.
  - intros x y z. rewrite !Hc. apply cmp_lt_trans.
Qed.

#[export] Instance OrdLaws_side : OrdLaws EndpointSide.
Proof.
  apply (OrdLaws_inj (fun s => match s with Source => 0 | Target => 1 end)); by intros [] [].
Qed.

(** A raw record's variant and identity, without its place in the input. *)
Definition CoarseKey : Type := nat * (string * string).
Definition raw_coarse (r : RawRecord) : CoarseKey :=
  match r with
  | RawNode table id _ _ => (0, (table, id))
  | RawEdge table id _ _ => (1, (table, id))
  | RawNodeType id _ _ => (2, (id, ""))
  end.
Definition raw_order (r : RawRecord) : Z :=
  match r with RawNode _ _ o _ | RawEdge _ _ o _ | RawNodeType _ _ o => o end.
Definition key_pair (k : RawKey) : CoarseKey * Z :=
  match k with
  | KeyNode table id o => ((0, (table, id)), o)
  | KeyEdge table id o => ((1, (table, id)), o)
  | KeyNodeType id o => ((2, (id, "")), o)
  end.

Lemma cmp_key_pair x y : cmp x y = cmp (key_pair x) (key_pair y).
Proof.
  destruct x as [t i o|t i o|i o], y as [t' i' o'|t' i' o'|i' o']; try done.
  change (then_with (cmp i i') (cmp o o') = then_with (then_with (cmp i i') Eq) (cmp o o')).
  by destruct (cmp i i').
Qed.

#[export] Instance OrdLaws_RawKey : OrdLaws RawKey.
Proof.
  apply (OrdLaws_inj key_pair); [apply cmp_key_pair|].
  intros [] []; simpl; intros Heq; simplify_eq; done.
Qed.

Lemma raw_key_pair r : key_pair (raw_sort_key r) = (raw_coarse r, raw_order r).
Proof. by destruct r. Qed.

(** ** Grouping *)
Section grouping.
Context {K V : Type} `{OrdLaws K} `{EqDecision K} (merge : V -> V -> V).
Implicit Types (l m : list (K * V)) (k : K) (v : V) (x : K * V).

(** The values of one key, merged in order. *)
Definition combine (vs : list V) : option V :=
  match vs with [] => None | v :: vs => Some (fold_left merge vs v) end.
Definition value_of k l : option V := combine (snd <$> with_key fst k l).
(** Each key once, in order, with its merged values. *)
Definition merged l : list (K * V) :=
  omap (fun k => pair k <$> value_of k l) (sort (remove_dups (fst <$> l))).

(** The grouping pass: closed groups and the open one. *)
Definition group_add (st : list (K * V) * option (K * V)) x : list (K * V) * option (K * V) :=
  match st.2 with
  | Some (k, v) => if decide (k = x.1) then (st.1, Some (k, merge v x.2)) else (st.1 ++ [(k, v)], Some x)
  | None => (st.1, Some x)
  end.
Definition grouping l : list (K * V) * option (K * V) := fold_left group_add l ([], None).
Definition option_list {A} (o : option A) : list A := match o with Some a => [a] | None => [] end.
Definition grouped l : list (K * V) := (grouping l).1 ++ option_list (grouping l).2.

Lemma grouping_snoc l x : grouping (l ++ [x]) = group_add (grouping l) x.
Proof. unfold grouping. by rewrite fold_left_app. Qed.

Lemma combine_snoc vs v : combine (vs ++ [v]) = Some match combine vs with Some u => merge u v | None => v end.
Proof. destruct vs as [|u vs]; [done|]. simpl. by rewrite fold_left_app. Qed.

Lemma value_of_snoc k l x :
  value_of k (l ++ [x]) =
    if decide (x.1 = k) then Some match value_of k l with Some u => merge u x.2 | None => x.2 end
    else value_of k l.
Proof.
  unfold value_of. rewrite with_key_app. unfold with_key at 2. cbn [List.filter].
  case_decide as Hk.
  - rewrite (proj2 (has_key_true fst k x) Hk), fmap_app. apply combine_snoc.
  - destruct (has_key fst k x) eqn:E; [by apply has_key_true in E|]. by rewrite app_nil_r.
Qed.

Lemma value_of_None k l : value_of k l = None <-> k ∉ fst <$> l.
Proof.
  unfold value_of. split.
  - intros Hn Hk. apply list_elem_of_fmap in Hk as (x & -> & Hx).
    assert (x ∈ with_key fst x.1 l) as Hin by by apply elem_of_with_key.
    destruct (with_key fst x.1 l); [by apply elem_of_nil in Hin|done].
  - intros Hk. destruct (with_key fst k l) as [|x l'] eqn:E; [done|]. exfalso. apply Hk.
    assert (x ∈ with_key fst k l) as Hx by (rewrite E; apply list_elem_of_here).
    apply elem_of_with_key in Hx as [Hx <-]. by apply list_elem_of_fmap_2.
Qed.

Lemma elem_of_merged k v l : (k, v) ∈ merged l <-> value_of k l = Some v.
Proof.
  unfold merged. rewrite list_elem_of_omap. split.
  - intros (k' & _ & Heq). destruct (value_of k' l) eqn:E; [|done]. simpl in Heq. by simplify_eq.
  - intros Hv. exists k. split; [|by rewrite Hv]. rewrite sort_perm, elem_of_remove_dups.
    destruct (decide (k ∈ fst <$> l)) as [|Hn]; [done|]. apply value_of_None in Hn. congruence.
Qed.

Lemma merged_keys l : fst <$> merged l = sort (remove_dups (fst <$> l)).
Proof.
  unfold merged. assert (forall k, k ∈ sort (remove_dups (fst <$> l)) -> is_Some (value_of k l)) as Hs.
  { intros k. rewrite sort_perm, elem_of_remove_dups. intros Hk.
    destruct (value_of k l) eqn:E; [by eexists|]. by apply value_of_None in E. }
  induction (sort (remove_dups (fst <$> l))) as [|k ks IH]; [done|].
  destruct (Hs k) as [v Hv]; [apply list_elem_of_here|]. cbn [omap list_omap]. rewrite Hv. simpl.
  f_equal. apply IH. intros k' Hk'. apply Hs. by apply list_elem_of_further.
Qed.

Lemma merged_sorted l : StrictlySorted (fst <$> merged l).
Proof.
  rewrite merged_keys. apply sorted_NoDup_strict; [apply sort_sorted|].
  rewrite sort_perm. apply NoDup_remove_dups.
Qed.

Lemma strict_NoDup (ks : list K) : StrictlySorted ks -> NoDup ks.
Proof.
  unfold StrictlySorted. induction 1 as [|k ks _ IH Hk]; constructor; [|done].
  intros Hin. rewrite Forall_forall in Hk. specialize (Hk k Hin). by rewrite lt_b_irrefl in Hk.
Qed.

Lemma strict_sorted (ks : list K) : StrictlySorted ks -> SortedBy le_b ks.
Proof.
  unfold StrictlySorted, SortedBy. induction 1 as [|k ks _ IH Hk]; constructor; [done|].
  eapply Forall_impl; [exact Hk|]. intros k' Hlt. unfold lt_b, le_b in *. by destruct (cmp k k').
Qed.

(** Two association lists in key order with the same entries are equal. *)
Lemma assoc_ext l m :
  StrictlySorted (fst <$> l) -> StrictlySorted (fst <$> m) -> (forall x, x ∈ l <-> x ∈ m) -> l = m.
Proof.
  intros Hl Hm Heq.
  assert (forall n, StrictlySorted (fst <$> n) -> SortedBy (fun x y : K * V => le_b x.1 y.1) n) as Hsort.
  { intros n Hn%strict_sorted. unfold SortedBy in *. induction n as [|x n IH]; [constructor|].
    inversion Hn as [|? ? Hn' Hx]; subst. constructor; [by apply IH|].
    apply Forall_fmap in Hx. exact Hx. }
  eapply (sorted_perm_eq (fun x y : K * V => le_b x.1 y.1)); [|by apply Hsort..|].
  - intros [k v] [k' v'] Hx Hy H1 H2. simpl in *. assert (k = k') as <- by by apply le_b_antisym.
    apply strict_NoDup in Hl. apply list_elem_of_lookup in Hx as [i Hi], Hy as [j Hj].
    assert (i = j) as ->; [|congruence].
    eapply NoDup_lookup; [exact Hl|by rewrite list_lookup_fmap, Hi|by rewrite list_lookup_fmap, Hj].
  - apply NoDup_Permutation; [by eapply NoDup_fmap_1, strict_NoDup..|done].
Qed.

(** On input in key order the pass computes the groups. *)
Lemma grouped_sorted l : SortedBy (fun x y : K * V => le_b x.1 y.1) l -> grouped l = merged l.
Proof.
  intros Hs. assert (
    (l = [] -> grouping l = ([], None)) /\
    (forall l0 x, l = l0 ++ [x] -> exists v, (grouping l).2 = Some (x.1, v)) /\
    StrictlySorted (fst <$> grouped l) /\ forall k v, (k, v) ∈ grouped l <-> value_of k l = Some v) as (_ & _ & H1 & H2).
  2: { apply assoc_ext; [done|apply merged_sorted|]. intros [k v]. by rewrite H2, elem_of_merged. }
  induction l as [|x l IH] using rev_ind.
  { split_and!; [done|by intros [|] ?|constructor|]. intros k v. split; [by intros ?%elem_of_nil|done]. }
  assert (SortedBy (fun x y : K * V => le_b x.1 y.1) l /\ forall y, y ∈ l -> le_b y.1 x.1 = true) as [Hs' Hle].
  { unfold SortedBy in *. clear IH. induction l as [|y l IHl]; [split; [constructor|by intros y ?%elem_of_nil]|].
    inversion Hs as [|? ? Hs1 Hy]; subst. apply Forall_app in Hy as [Hy Hx]. destruct (IHl Hs1) as [Ha Hb].
    split; [by constructor|]. intros z [->|Hz]%elem_of_cons; [by apply Forall_inv in Hx|by apply Hb]. }
  destruct (IH Hs') as (Hnil & Hlast & Hstrict & Hval). clear IH.
  split; [intros Heq; by destruct l|]. unfold grouped in *. rewrite grouping_snoc.
  destruct l as [|z l' _] using rev_ind.
  { rewrite Hnil by done. simpl. split; [|split].
    - intros [|? [|]] y Heq; [|done..]. injection Heq as <-. destruct x as [k v]. by exists v.
    - repeat constructor.
    - intros k v. rewrite list_elem_of_singleton. change [x] with ([] ++ [x]). rewrite value_of_snoc. simpl.
      destruct x as [k' v']. simpl. case_decide; split; intros; simplify_eq; done. }
  destruct (Hlast _ _ eq_refl) as [u Hu]. destruct (grouping (l' ++ [z])) as [acc cur] eqn:Eg.
  simpl in Hu. subst cur. clear Hlast Hnil. unfold group_add. simpl in *.
  assert (forall k, k ∈ fst <$> l' ++ [z] -> k ∈ fst <$> acc ++ [(z.1, u)]) as Hkeys.
  { intros k Hk. destruct (value_of k (l' ++ [z])) as [v|] eqn:E.
    - apply Hval in E. by apply (list_elem_of_fmap_2 fst) in E.
    - by apply value_of_None in E. }
  rewrite fmap_app in Hstrict. simpl in Hstrict.
  assert (forall k, k ∈ fst <$> acc -> lt_b k z.1 = true) as Hacc.
  { intros k Hk. unfold StrictlySorted in Hstrict. clear -Hstrict Hk.
    induction (fst <$> acc) as [|y ks IH]; [by apply elem_of_nil in Hk|].
    inversion Hstrict as [|? ? Hs Hf]; subst. apply elem_of_cons in Hk as [->|Hk]; [|by apply IH].
    apply Forall_app in Hf as [_ Hf]. by apply Forall_inv in Hf. }
  destruct x as [kx vx]. simpl in *. case_decide as Hk; simpl.
  - subst kx. split; [|split].
    + intros l0 y [_ [= <-]]%app_inj_2; [|done]. by eexists.
    + by rewrite fmap_app.
    + intros k v. rewrite value_of_snoc. simpl. rewrite elem_of_app, list_elem_of_singleton.
      specialize (Hval z.1 u) as Hz. rewrite elem_of_app, list_elem_of_singleton in Hz.
      case_decide as Hzk.
      * subst k. rewrite (proj1 Hz) by (by right). split; [|intros [= <-]; by right]. intros [Hin|[= <-]]; [|done].
        apply (list_elem_of_fmap_2 fst), Hacc in Hin. simpl in Hin. by rewrite lt_b_irrefl in Hin.
      * rewrite <- Hval, elem_of_app, list_elem_of_singleton.
        split; intros [?|[= ? ?]]; try (by left); subst; done.
  - assert (forall k, k ∈ fst <$> l' ++ [z] -> lt_b k kx = true) as Hlt.
    { intros k Hin. assert (le_b k z.1 = true) as Hkz.
      { apply Hkeys in Hin. rewrite fmap_app in Hin.
        apply elem_of_app in Hin as [Hin| ->%list_elem_of_singleton]; [|apply le_b_refl].
        apply Hacc in Hin. unfold lt_b, le_b in *. by destruct (cmp k z.1). }
      rewrite lt_b_le_b. destruct (le_b kx k) eqn:E; [|done]. exfalso. apply Hk.
      apply le_b_antisym; [apply Hle; set_solver|by eapply le_b_trans]. }
    split; [|split].
    + intros l0 y [_ [= <-]]%app_inj_2; [|done]. by eexists.
    + rewrite !fmap_app. simpl. unfold StrictlySorted in *.
      assert (forall ks : list K, StronglySorted (fun a b => lt_b a b = true) ks -> (forall k, k ∈ ks -> lt_b k kx = true) ->
        StronglySorted (fun a b => lt_b a b = true) (ks ++ [kx])) as Hsnoc.
      { induction 1 as [|y ks Hy IH Hf]; intros Hall; simpl; [repeat constructor|].
        constructor; [apply IH; set_solver|]. apply Forall_app. split; [done|].
        constructor; [apply Hall; set_solver|constructor]. }
      apply Hsnoc; [done|]. intros k [Hin| ->%list_elem_of_singleton]%elem_of_app.
      * apply Hacc in Hin. assert (lt_b z.1 kx = true) as Hz by (apply Hlt; set_solver).
        unfold lt_b in *. destruct (cmp k z.1) eqn:E1, (cmp z.1 kx) eqn:E2; try done.
        by rewrite (cmp_lt_trans _ _ _ E1 E2).
      * apply Hlt. set_solver.
    + intros k v. rewrite value_of_snoc. simpl. rewrite elem_of_app, list_elem_of_singleton.
      case_decide as Hkx.
      * subst k. assert (value_of kx (l' ++ [z]) = None) as ->.
        { apply value_of_None. intros Hin. apply Hlt in Hin. by rewrite lt_b_irrefl in Hin. }
        split; [|intros [= <-]; by right]. intros [Hin|[= <-]]; [|done]. apply Hval in Hin.
        assert (value_of kx (l' ++ [z]) = None) as Hn; [|congruence].
        apply value_of_None. intros Hin'. apply Hlt in Hin'. by rewrite lt_b_irrefl in Hin'.
      * rewrite <- Hval. split; [intros [?|[= ? ?]]; [done|by subst]|by left].
Qed.

Lemma merged_sort l : merged (sort_by_key fst l) = merged l.
Proof.
  apply assoc_ext; [apply merged_sorted..|]. intros [k v]. rewrite !elem_of_merged. unfold value_of.
  by rewrite with_key_sort.
Qed.

Lemma grouped_sort l : grouped (sort_by_key fst l) = merged l.
Proof. rewrite grouped_sorted by apply sort_by_key_sorted. apply merged_sort. Qed.
End grouping.

(** ** The specification *)
Definition keep_first {V} (v _ : V) : V := v.

(** What a partition contributes: the table of every node, and the rows that the database
    does not have yet. *)
Definition type_items (p : StagedPartition) : list (string * string) :=
  (fun n => (n_id n, n_table n)) <$> sp_nodes p.
Definition staged_node (p : StagedPartition) (n : GraphNodeRow) : NodeStagedRow :=
  node_fields n (if String.eqb (n_table n) "File" then Some (sp_content_hash p) else None).
Definition node_items (p : StagedPartition) : list (string * string * NodeStagedRow) :=
  omap (fun n => if bool_decide (n_id n ∈ sp_retained_nodes p) then None
                 else Some ((n_table n, n_id n), staged_node p n)) (sp_nodes p).
Definition edge_items (p : StagedPartition) : list (string * string * EdgeStagedRow) :=
  omap (fun e => if bool_decide (e_id e ∈ sp_retained_edges p) then None
                 else Some ((e_edge_type e, e_id e), edge_fields e)) (sp_edges p).

(** Merged nodes and edges by table and identifier; the table of every node. *)
Definition merged_nodes (ps : list StagedPartition) : list (string * string * NodeStagedRow) :=
  merged merge_node_value (concat (node_items <$> ps)).
Definition merged_edges (ps : list StagedPartition) : list (string * string * EdgeStagedRow) :=
  merged merge_edge_value (concat (edge_items <$> ps)).
Definition node_tables (ps : list StagedPartition) : list (string * string) :=
  merged keep_first (concat (type_items <$> ps)).

Definition table_of (types : list (string * string)) (id : string) : option string :=
  snd <$> List.find (fun t => String.eqb t.1 id) types.

Definition request_of (e : string * string * EdgeStagedRow) (side : EndpointSide) : EndpointRequest := {|
  er_node_id := match side with Source => es_source_id e.2 | Target => es_target_id e.2 end;
  er_relation := e.1.1; er_edge_id := e.1.2; er_side := side
|}.
Definition requests (edges : list (string * string * EdgeStagedRow)) : list EndpointRequest :=
  concat ((fun e => [request_of e Source; request_of e Target]) <$> edges).

(** The first end, in the order of the requests, that no partition declares. *)
Definition missing (types : list (string * string)) (rs : list EndpointRequest) : option EndpointRequest :=
  List.find (fun r => match table_of types (er_node_id r) with None => true | Some _ => false end)
    (sort_by_key request_sort_key rs).

Definition end_table (types : list (string * string)) (e : string * string * EdgeStagedRow)
    (side : EndpointSide) : string :=
  default "" (table_of types (er_node_id (request_of e side))).
Definition accepted (c : RelationConstraints) (types : list (string * string))
    (e : string * string * EdgeStagedRow) : bool :=
  constraint_allows c e.1.1 (end_table types e Source) (end_table types e Target).

Definition connector_of (types : list (string * string)) (e : string * string * EdgeStagedRow)
    (side : EndpointSide) : ConnectorRecord :=
  match side with
  | Source => {| c_relation := e.1.1; c_side := Source; c_from_type := end_table types e Source;
                 c_to_type := e.1.1; c_from_id := es_source_id e.2; c_to_id := e.1.2; c_role := "source" |}
  | Target => {| c_relation := e.1.1; c_side := Target; c_from_type := e.1.1;
                 c_to_type := end_table types e Target; c_from_id := e.1.2;
                 c_to_id := es_target_id e.2; c_role := "target" |}
  end.
Definition connectors_of (types : list (string * string)) (edges : list (string * string * EdgeStagedRow))
    : list ConnectorRecord :=
  concat ((fun e => [connector_of types e Source; connector_of types e Target]) <$> edges).

Record StagedGraph := {
  sg_nodes : list (string * NodeStagedRow);
  sg_edges : list (string * EdgeStagedRow);
  sg_connectors : list ConnectorRecord;
  sg_node_count : nat;
  sg_edge_count : nat
}.

Definition by_table {R} (x : string * string * R) : string * R := (x.1.1, x.2).

(** The rows to load, or the first end of an edge that is missing. *)
Definition stage (c : RelationConstraints) (ps : list StagedPartition) : native_result StagedGraph :=
  let types := node_tables ps in
  let edges := merged_edges ps in
  match missing types (requests edges) with
  | Some r => Err (missing_error r)
  | None =>
      let kept := List.filter (accepted c types) edges in
      Ok {| sg_nodes := by_table <$> merged_nodes ps;
            sg_edges := by_table <$> kept;
            sg_connectors := sort_by_key connector_sort_key (connectors_of types kept);
            sg_node_count := length types;
            sg_edge_count := size (list_to_set (C := gset string) ((fun e => e.1.2) <$> kept)) |}
  end.

(** ** The records that staging pushes *)
Fixpoint raw_nodes (p : StagedPartition) (order : Z) (nodes : list GraphNodeRow) : list RawRecord :=
  match nodes with
  | [] => []
  | n :: nodes =>
      RawNodeType (n_id n) (n_table n) order
      :: (if bool_decide (n_id n ∈ sp_retained_nodes p) then []
          else [RawNode (n_table n) (n_id n) order (staged_node p n)])
      ++ raw_nodes p (order + 1) nodes
  end.
Fixpoint raw_edges (p : StagedPartition) (order : Z) (edges : list GraphEdgeRow) : list RawRecord :=
  match edges with
  | [] => []
  | e :: edges =>
      if bool_decide (e_id e ∈ sp_retained_edges p) then raw_edges p order edges
      else RawEdge (e_edge_type e) (e_id e) order (edge_fields e) :: raw_edges p (order + 1) edges
  end.
Definition new_edges (p : StagedPartition) (edges : list GraphEdgeRow) : list GraphEdgeRow :=
  List.filter (fun e => negb (bool_decide (e_id e ∈ sp_retained_edges p))) edges.
(** The source orders a partition takes. *)
Definition orders_of (p : StagedPartition) : Z :=
  Z.of_nat (length (sp_nodes p) + length (new_edges p (sp_edges p))).
Fixpoint raw_of (order : Z) (ps : list StagedPartition) : list RawRecord :=
  match ps with
  | [] => []
  | p :: ps =>
      raw_nodes p order (sp_nodes p)
      ++ raw_edges p (order + Z.of_nat (length (sp_nodes p))) (sp_edges p)
      ++ raw_of (order + orders_of p) ps
  end.

Definition raw_node_item (r : RawRecord) : option (string * string * NodeStagedRow) :=
  match r with RawNode table id _ row => Some ((table, id), row) | _ => None end.
Definition raw_edge_item (r : RawRecord) : option (string * string * EdgeStagedRow) :=
  match r with RawEdge table id _ row => Some ((table, id), row) | _ => None end.
Definition raw_type_item (r : RawRecord) : option (string * string) :=
  match r with RawNodeType id table _ => Some (id, table) | _ => None end.

Lemma omap_app {A B} (f : A -> option B) l1 l2 : omap f (l1 ++ l2) = omap f l1 ++ omap f l2.
Proof. induction l1 as [|x l1 IH]; [done|]. cbn. destruct (f x); [cbn; f_equal|]; exact IH. Qed.

Lemma omap_cons {A B} (f : A -> option B) x l :
  omap f (x :: l) = match f x with Some y => y :: omap f l | None => omap f l end.
Proof. done. Qed.

Lemma raw_nodes_items p order nodes :
  omap raw_node_item (raw_nodes p order nodes) =
    omap (fun n => if bool_decide (n_id n ∈ sp_retained_nodes p) then None
                   else Some ((n_table n, n_id n), staged_node p n)) nodes /\
  omap raw_edge_item (raw_nodes p order nodes) = [] /\
  omap raw_type_item (raw_nodes p order nodes) = (fun n => (n_id n, n_table n)) <$> nodes.
Proof.
  revert order. induction nodes as [|n nodes IH]; intros order; [done|].
  destruct (IH (order + 1)%Z) as (H1 & H2 & H3). cbn [raw_nodes].
  rewrite fmap_cons, !omap_cons, !omap_app, H1, H2, H3. by case_bool_decide.
Qed.

Lemma raw_edges_items p order edges :
  omap raw_node_item (raw_edges p order edges) = [] /\
  omap raw_edge_item (raw_edges p order edges) =
    omap (fun e => if bool_decide (e_id e ∈ sp_retained_edges p) then None
                   else Some ((e_edge_type e, e_id e), edge_fields e)) edges /\
  omap raw_type_item (raw_edges p order edges) = [].
Proof.
  revert order. induction edges as [|e edges IH]; intros order; [done|].
  cbn [raw_edges]. rewrite !omap_cons. case_bool_decide; [apply IH|].
  destruct (IH (order + 1)%Z) as (H1 & H2 & H3). rewrite !omap_cons. simpl. by rewrite H1, H2, H3.
Qed.

Lemma raw_of_items order ps :
  omap raw_node_item (raw_of order ps) = concat (node_items <$> ps) /\
  omap raw_edge_item (raw_of order ps) = concat (edge_items <$> ps) /\
  omap raw_type_item (raw_of order ps) = concat (type_items <$> ps).
Proof.
  revert order. induction ps as [|p ps IH]; intros order; [done|].
  cbn [raw_of]. rewrite !omap_app, !fmap_cons, !concat_cons.
  destruct (raw_nodes_items p order (sp_nodes p)) as (-> & -> & ->).
  destruct (raw_edges_items p (order + Z.of_nat (length (sp_nodes p))) (sp_edges p)) as (-> & -> & ->).
  destruct (IH (order + orders_of p)%Z) as (-> & -> & ->). done.
Qed.

(** Orders never decrease, and a record of the same variant always has a later one. *)
Definition orders_within (lo hi : Z) (l : list RawRecord) : Prop :=
  (lo <= hi)%Z /\ Forall (fun r => lo <= raw_order r < hi)%Z l /\
  StronglySorted (fun r r' => raw_coarse r = raw_coarse r' -> raw_order r <= raw_order r')%Z l.

Lemma orders_within_app lo mid hi l1 l2 :
  orders_within lo mid l1 -> orders_within mid hi l2 -> orders_within lo hi (l1 ++ l2).
Proof.
  intros (Hle1 & Hf1 & Hs1) (Hle2 & Hf2 & Hs2). split; [lia|]. split.
  - apply Forall_app. split; (eapply Forall_impl; [eassumption|]); simpl; lia.
  - induction Hs1 as [|r l1 Hs1 IH Hr]; [done|]. apply Forall_cons in Hf1 as [Hr1 Hf1].
    simpl. constructor; [by apply IH|]. apply Forall_app. split; [done|].
    eapply Forall_impl; [exact Hf2|]. simpl. lia.
Qed.

Lemma orders_within_one o r : raw_order r = o -> orders_within o (o + 1) [r].
Proof. intros <-. split; [lia|]. split; [repeat constructor; lia|repeat constructor]. Qed.

Lemma raw_nodes_orders p order nodes :
  orders_within order (order + Z.of_nat (length nodes)) (raw_nodes p order nodes).
Proof.
  revert order. induction nodes as [|n nodes IH]; intros order.
  { simpl. rewrite Z.add_0_r. split; [lia|]. split; constructor. }
  cbn [raw_nodes]. rewrite app_comm_cons. apply (orders_within_app _ (order + 1)).
  - split; [lia|]. split; case_bool_decide; repeat constructor; simpl; try lia; done.
  - replace (order + Z.of_nat (length (n :: nodes)))%Z with (order + 1 + Z.of_nat (length nodes))%Z
      by (simpl; lia). apply IH.
Qed.

Lemma raw_edges_orders p order edges :
  orders_within order (order + Z.of_nat (length (new_edges p edges))) (raw_edges p order edges).
Proof.
  revert order. induction edges as [|e edges IH]; intros order.
  { simpl. rewrite Z.add_0_r. split; [lia|]. split; constructor. }
  cbn [raw_edges]. unfold new_edges. cbn [List.filter]. fold (new_edges p edges).
  case_bool_decide; simpl negb; cbv iota; [apply IH|].
  change (RawEdge ?a ?b ?c ?d :: ?l) with ([RawEdge a b c d] ++ l).
  apply (orders_within_app _ (order + 1)); [by apply orders_within_one|].
  replace (order + Z.of_nat (length (e :: new_edges p edges)))%Z
    with (order + 1 + Z.of_nat (length (new_edges p edges)))%Z by (simpl; lia). apply IH.
Qed.

Definition orders_total (ps : list StagedPartition) : Z := foldr (fun p s => orders_of p + s)%Z 0%Z ps.

Lemma raw_of_orders order ps : orders_within order (order + orders_total ps) (raw_of order ps).
Proof.
  revert order. induction ps as [|p ps IH]; intros order.
  { simpl. rewrite Z.add_0_r. split; [lia|]. split; constructor. }
  cbn [raw_of orders_total foldr]. fold (orders_total ps).
  set (nodes_end := (order + Z.of_nat (length (sp_nodes p)))%Z).
  assert (order + orders_of p = nodes_end + Z.of_nat (length (new_edges p (sp_edges p))))%Z as Hp
    by (unfold orders_of, nodes_end; lia).
  eapply orders_within_app; [apply raw_nodes_orders|].
  eapply orders_within_app; [apply raw_edges_orders|]. rewrite Z.add_assoc, Hp. apply IH.
Qed.

(** ** Sorting the records *)
(** Ordering by the raw key is ordering stably by variant and identity. *)
Lemma sort_raw_coarse lo hi l :
  orders_within lo hi l -> sort_by_key raw_sort_key l = sort_by_key raw_coarse l.
Proof.
  intros (_ & _ & Hs). unfold sort_by_key, sort_by. induction Hs as [|r l Hs IH Hr]; [done|].
  cbn [foldr]. rewrite IH. set (s := foldr _ [] l).
  assert (forall x, x ∈ s -> x ∈ l) as Hin.
  { intros x Hx. exact (proj1 (elem_of_sort_by (fun x y => le_b (raw_coarse x) (raw_coarse y)) x l) Hx). }
  clearbody s. induction s as [|y s IHs]; [done|]. cbn [insert_by].
  assert (le_b (raw_sort_key r) (raw_sort_key y) = le_b (raw_coarse r) (raw_coarse y)) as ->.
  { rewrite Forall_forall in Hr. specialize (Hr y (Hin y (list_elem_of_here _ _))).
    unfold le_b. rewrite (cmp_key_pair (raw_sort_key r)), !raw_key_pair, cmp_prod.
    destruct (cmp (raw_coarse r) (raw_coarse y)) eqn:E; simpl; try done.
    apply cmp_eq in E. specialize (Hr E). unfold cmp, Ord_Z.
    destruct (Z.compare_spec (raw_order r) (raw_order y)); [done|done|lia]. }
  destruct (le_b (raw_coarse r) (raw_coarse y)); [done|]. f_equal. apply IHs.
  intros x Hx. apply Hin. by apply list_elem_of_further.
Qed.

(** Selecting from a sorted list sorts the selection. *)
Lemma omap_sort {A B KA KB : Type} `{OrdLaws KA, OrdLaws KB} (ka : A -> KA) (kb : B -> KB)
    (f : A -> option B) (l : list A) :
  (forall x y x' y', f x = Some x' -> f y = Some y' -> le_b (ka x) (ka y) = le_b (kb x') (kb y')) ->
  omap f (sort_by_key ka l) = sort_by_key kb (omap f l).
Proof.
  intros Hf. induction l as [|x l IH]; [done|].
  change (sort_by_key ka (x :: l)) with (insert_by (fun x y => le_b (ka x) (ka y)) x (sort_by_key ka l)).
  pose proof (sort_by_key_sorted ka l) as Hs.
  assert (omap f (insert_by (fun x y => le_b (ka x) (ka y)) x (sort_by_key ka l)) =
    match f x with
    | Some b => insert_by (fun x y => le_b (kb x) (kb y)) b (omap f (sort_by_key ka l))
    | None => omap f (sort_by_key ka l)
    end) as ->.
  { clear IH. induction Hs as [|y s Hs IH Hy]; [by cbn; destruct (f x)|]. cbn [insert_by].
    destruct (le_b (ka x) (ka y)) eqn:E.
    - rewrite (omap_cons f x). destruct (f x) as [b|] eqn:Ex; [|done]. symmetry. apply insert_by_head.
      apply Forall_forall. intros c Hc. apply list_elem_of_omap in Hc as (z & Hz & Hfz).
      rewrite <- (Hf _ _ _ _ Ex Hfz). apply elem_of_cons in Hz as [->|Hz]; [done|].
      rewrite Forall_forall in Hy. by eapply le_b_trans; [|apply Hy].
    - rewrite !(omap_cons f y), IH. destruct (f x) as [b|] eqn:Ex; [|done].
      destruct (f y) as [c|] eqn:Ey; [|done].
      simpl. by rewrite <- (Hf _ _ _ _ Ex Ey), E. }
  rewrite IH. simpl. by destruct (f x).
Qed.

(** What the sorted stream of raw records holds. *)
Lemma sorted_raw_items lo hi l :
  orders_within lo hi l ->
  let s := sort_by_key raw_sort_key l in
  omap raw_node_item s = sort_by_key fst (omap raw_node_item l) /\
  omap raw_edge_item s = sort_by_key fst (omap raw_edge_item l) /\
  omap raw_type_item s = sort_by_key fst (omap raw_type_item l).
Proof.
  intros Ho s. unfold s. rewrite (sort_raw_coarse _ _ _ Ho). split_and!; apply omap_sort.
  - intros [] [] ? ? [= <-] [= <-]. done.
  - intros [] [] ? ? [= <-] [= <-]. done.
  - intros [|?|a] [|?|b] ? ? [= <-] [= <-]. unfold le_b.
    change (cmp (raw_coarse _) (raw_coarse _)) with (then_with (cmp a b) Eq). cbn [fst].
    by destruct (cmp a b).
Qed.

(** The variants come one after the other. *)
Lemma sorted_raw_variants lo hi l d r rest :
  orders_within lo hi l -> sort_by_key raw_sort_key l = d ++ r :: rest ->
  Forall (fun x => (raw_coarse x).1 <= (raw_coarse r).1) d.
Proof.
  intros Ho. rewrite (sort_raw_coarse _ _ _ Ho). intros Heq.
  pose proof (sort_by_key_sorted raw_coarse l) as Hs. rewrite Heq in Hs. clear Heq.
  induction d as [|x d IH]; constructor; inversion Hs as [|? ? Hs' Hx]; subst; [|by apply IH].
  apply Forall_app in Hx as [_ Hx]. apply Forall_inv in Hx. unfold le_b in Hx.
  change (cmp (raw_coarse x) (raw_coarse r)) with
    (then_with (Nat.compare (raw_coarse x).1 (raw_coarse r).1) (cmp (raw_coarse x).2 (raw_coarse r).2)) in Hx.
  destruct (Nat.compare_spec (raw_coarse x).1 (raw_coarse r).1); [lia|lia|done].
Qed.
