(* ===== verification/StagingFrames.v ===== *)
(** * Who touches which file

    Every file of the staging accumulator lies in the slot of its first letter in the run
    directory, or is an output file; what one part writes leaves the others alone. *)
From S2P Require Import Prelude Order Text Json Hash Protocol Rows StagedRows Disk Spill StreamLaws SpoolLaws Sinks SinkLaws Staging.

(** ** Slots *)
Definition slot (root : string) (c : ascii) (p : string) : Prop :=
  exists rest, p = path_join root (String c rest).

Lemma slot_inj root c c' p : slot root c p -> slot root c' p -> c = c'.
Proof. intros [r ->] [r' Heq]. apply path_join_inj in Heq. congruence. Qed.

Lemma region_slot root c prefix p : region root (String c prefix) p -> slot root c p.
Proof. intros [rest ->]. by eexists. Qed.

Lemma path_slot root c name : slot root c (path_join root (String c name)).
Proof. by eexists. Qed.

(** Joining puts a fixed text in front. *)
Lemma path_join_prefix root : exists pre, forall name, path_join root name = pre +:+ name.
Proof.
  unfold path_join. destruct (is_empty root) eqn:E; [by exists ""|].
  destruct (ends_with root "/"); [by exists root|]. exists (root +:+ "/"). intros name.
  by rewrite app_str_assoc.
Qed.

(** A file of the run directory is no file of the staging directory with another first letter. *)
Lemma slot_outside dir run c p d name :
  slot (path_join dir (String d run)) c p -> forall e, e <> d -> p <> path_join dir (String e name).
Proof.
  intros [rest ->] e Hne. destruct (path_join_prefix dir) as [pre Hpre]. rewrite !Hpre.
  assert (exists s, path_join (pre +:+ String d run) (String c rest) = (pre +:+ String d run) +:+ s) as [s ->].
  { unfold path_join. destruct (is_empty (pre +:+ String d run)) eqn:Ee; [by destruct pre|].
    destruct (ends_with (pre +:+ String d run) "/"); by eexists. }
  rewrite app_str_assoc. intros Heq%app_str_inj_l. rewrite app_str_cons in Heq. congruence.
Qed.

(** ** The first letter of an output file *)
Lemma trim_start_fuel_suffix fuel pats s : exists a, s = a +:+ trim_start_fuel fuel pats s.
Proof.
  revert s. induction fuel as [|fuel IH]; intros s; simpl; [by exists ""|].
  destruct (strip_one pats s) as [r|] eqn:E; [|by exists ""].
  apply find_map_Some in E as (q & _ & Hq%strip_prefix_Some). destruct (IH r) as [a Ha].
  exists (q +:+ a). by rewrite app_str_assoc, <- Ha.
Qed.

(** Trimming keeps a part of the string. *)
Lemma trim_matches_part q s : exists a b, s = a +:+ trim_matches q s +:+ b.
Proof.
  unfold trim_matches, trim_end_matches, trim_start_matches, trim_end_pats, trim_start_pats.
  destruct (trim_start_fuel_suffix (String.length s) [q] s) as [a Ha].
  set (t := trim_start_fuel (String.length s) [q] s) in *.
  destruct (trim_start_fuel_suffix (String.length (srev t)) (srev <$> [q]) (srev t)) as [b Hb].
  apply (f_equal srev) in Hb. rewrite srev_involutive, srev_app_str in Hb.
  exists a, (srev b). by rewrite <- Hb.
Qed.

Definition stem_char (c : ascii) : Prop := is_ascii_alnum c = true \/ c = "_"%char.

Lemma stem_chars_ok s c r t : stem_chars s = r +:+ String c t -> stem_char c.
Proof.
  revert r. induction s as [|x s IH]; intros r; cbn [stem_chars]; [by destruct r|].
  destruct (is_continuation x); [by apply IH|]. destruct r as [|y r].
  - intros [= <- _]. destruct (is_ascii_alnum x) eqn:E; [left|by right].
    revert E. unfold ascii_lower. destruct x as [[] [] [] [] [] [] [] []]; vm_compute; congruence.
  - rewrite app_str_cons. intros [= _ Heq]. by eapply IH.
Qed.

Lemma stage_file_stem_head name : exists c rest, stage_file_stem name = String c rest /\ stem_char c.
Proof.
  unfold stage_file_stem. destruct (trim_matches_part "_" (stem_chars name)) as (a & b & Hs).
  destruct (trim_matches "_" (stem_chars name)) as [|c rest]; simpl.
  - eexists _, _. split; [reflexivity|by left].
  - exists c, rest. split; [done|]. rewrite app_str_cons in Hs. by eapply stem_chars_ok.
Qed.

(** The output files are next to the run directory, not in it. *)
Lemma chunked_output_path_head dir c stem ext index :
  exists rest, chunked_output_path dir (String c stem) ext index = path_join dir (String c rest).
Proof.
  unfold chunked_output_path. destruct (Z.eqb index 0); rewrite app_str_cons; by eexists.
Qed.

Lemma json_path_head dir table index :
  exists c rest, json_chunk_path dir table index = path_join dir (String c rest) /\ stem_char c.
Proof.
  unfold json_chunk_path. destruct (stage_file_stem_head table) as (c & stem & -> & Hc).
  destruct (chunked_output_path_head dir c stem "json" index) as [rest ->]. by exists c, rest.
Qed.

Lemma connector_path_head dir g index :
  exists c rest, connector_chunk_path dir g index = path_join dir (String c rest) /\ stem_char c.
Proof.
  unfold connector_chunk_path, connector_stem.
  destruct (stage_file_stem_head (connector_table g)) as (c & stem & -> & Hc). rewrite app_str_cons.
  match goal with |- context [chunked_output_path dir (String c ?s) "csv" index] =>
    destruct (chunked_output_path_head dir c s "csv" index) as [rest ->] end. by exists c, rest.
Qed.

(** [dir] has this output file. *)
Definition output_path (dir p : string) : Prop :=
  exists c rest, p = path_join dir (String c rest) /\ stem_char c.

Lemma output_not_slot dir run c p :
  output_path dir p -> slot (path_join dir (String "." run)) c p -> False.
Proof.
  intros (e & rest & Hp & He) Hslot. eapply slot_outside; [exact Hslot| |exact Hp].
  intros ->. destruct He as [He|He]; [vm_compute in He|]; congruence.
Qed.

(** ** Record files *)
Definition storable {T} `{RecordCodec T} (r : T) : Prop :=
  encode_record r = Ok (enc r) /\ decode_record (enc r) = Ok r /\
  (Z.of_nat (length (enc r)) <= u32_max)%Z.
Definition record_file {T} `{RecordCodec T} (l : list T) : list Z := concat ((fun r => framed (enc r)) <$> l).

Lemma record_file_snoc {T} `{RecordCodec T} (l : list T) r :
  record_file (l ++ [r]) = record_file l ++ framed (enc r).
Proof. unfold record_file. rewrite fmap_app, concat_app. simpl. by rewrite app_nil_r. Qed.

Lemma wp_push_record {T} `{RecordCodec T} E path (l : list T) r w (Q : () -> World -> Prop) :
  disk w !! path = Some (record_file l) -> storable r ->
  (forall w', disk w' = <[path := record_file (l ++ [r])]> (disk w) -> Q () w') ->
  wp (push_record path r) w E Q.
Proof.
  intros Hp (He & _ & Hl) HQ. unfold push_record. apply wp_bind. eapply wp_try; [exact He|].
  unfold write_encoded. destruct (Z.ltb_spec u32_max (Z.of_nat (length (enc r)))); [lia|].
  apply wp_bind. eapply wp_append; [exact Hp|].
  apply wp_bind. eapply wp_append; [simpl; apply lookup_insert_eq|]. apply wp_account, HQ. simpl.
  by rewrite insert_insert_eq, record_file_snoc, <- app_assoc.
Qed.

Lemma read_next_record {T} `{RecordCodec T} (r : T) (l : list T) :
  storable r -> read_next (record_file (r :: l)) = Ok (Some (r, record_file l)).
Proof.
  intros (_ & Hd & Hl). unfold read_next, record_file. rewrite fmap_cons, concat_cons.
  rewrite read_record_framed by done. simpl. by rewrite Hd.
Qed.

Lemma length_record_file {T} `{RecordCodec T} (l : list T) : length l <= length (record_file l).
Proof.
  unfold record_file. induction l as [|r l IH]; [done|]. rewrite fmap_cons, concat_cons, length_app.
  unfold framed at 1. rewrite length_app. simpl in *. lia.
Qed.

(** A loop over the records of a file. *)
Lemma wp_for_each_record {S T} `{RecordCodec T} E (I : S -> list T -> World -> Prop)
    (f : S -> T -> IO S) (s : S) (l : list T) w (Q : S -> World -> Prop) :
  Forall storable l -> I s [] w ->
  (forall s d r rest w, l = d ++ r :: rest -> I s d w -> wp (f s r) w E (fun s' w' => I s' (d ++ [r]) w')) ->
  (forall s' w', I s' l w' -> Q s' w') ->
  wp (for_each_record (1 + length (record_file l)) f s (record_file l)) w E Q.
Proof.
  intros Hst H0 Hstep Hend. pose proof (length_record_file l) as Hlen.
  assert (forall rest d fuel s w, l = d ++ rest -> length rest < fuel -> I s d w ->
    wp (for_each_record fuel f s (record_file rest)) w E Q) as Hall.
  2: { apply (Hall l []); [done|lia|done]. }
  clear s w H0 Hlen. induction rest as [|r rest IH]; intros d [|n] s w Hl Hn HI; try (simpl in Hn; lia); cbn [for_each_record].
  - apply wp_bind. eapply wp_try; [done|]. apply wp_ret, Hend. by rewrite Hl, app_nil_r.
  - assert (storable r) as Hr by (rewrite Forall_forall in Hst; apply Hst; rewrite Hl; set_solver).
    apply wp_bind. eapply wp_try; [by apply read_next_record|]. apply wp_bind.
    eapply wp_mono; [by eapply Hstep|]. simpl. intros s' w' HI'.
    apply (IH (d ++ [r])); [by rewrite <- app_assoc|simpl in Hn; lia|done].
Qed.

(** ** Streams of a spool *)
(** [R] is the region of the spool the stream was finished from. *)
Record stream_ready {T K : Type} `{Ord K} `{RecordCodec T} `{MemoryLayout T} `{SpillRecord T K}
    (R : string -> Prop) (st : SortedStream T K) (l : list T) w : Prop := {
  sr_yields : yields st l;
  sr_cleanup : cleanup_when_exhausted st = true;
  sr_inputs p : p ∈ input_paths st -> R p;
  sr_rest p : R p -> p ∉ input_paths st -> disk w !! p = None
}.

(** No file of the region is left. *)
Definition gone (R : string -> Prop) w : Prop := forall p, R p -> disk w !! p = None.

Lemma gone_frame R W w w' :
  gone R w -> frame W w w' -> (forall p, W p -> R p -> False) -> gone R w'.
Proof. intros Hg Hf Hd p Hp. rewrite Hf; [by apply Hg|]. intros HW. by eapply Hd. Qed.

Section streams.
Context {T K : Type} `{OrdLaws K} `{RecordCodec T} `{MemoryLayout T} `{SpillRecord T K}.

Lemma stream_ready_frame R W (st : SortedStream T K) l w w' :
  stream_ready R st l w -> frame W w w' -> (forall p, W p -> R p -> False) -> stream_ready R st l w'.
Proof.
  intros [] Hf Hd. split; try done. intros p Hp Hn. rewrite Hf; [by auto|]. intros HW. by eapply Hd.
Qed.

Lemma wp_finish_ready E limit (s : SortedSpool K) (l : list T) w :
  spool_holds limit s l w -> few l ->
  wp (finish_spool s) w E (fun st w' =>
    stream_ready (spool_region s) st (sort_by_key sort_key l) w' /\ frame (spool_region s) w w').
Proof.
  intros Hs Hfew. eapply wp_mono; [by eapply wp_finish_spool|].
  simpl. intros st w' (? & ? & ? & ? & ?). done.
Qed.

(** Dropping what is left of a stream removes its files. *)
Lemma wp_drop_ready E R (st0 st : SortedStream T K) l w :
  stream_ready R st0 l w -> same_inputs st0 st ->
  wp (drop_stream st) w E (fun _ w' => gone R w' /\ frame R w w').
Proof.
  intros [_ Hc Hin Hrest] [Hpaths Hclean]. eapply wp_mono; [apply wp_drop_stream|].
  intros u w' Hrem. unfold inputs_removed in Hrem. rewrite Hclean, Hc, Hpaths in Hrem.
  destruct Hrem as [Hf Hg]. split; [|by eapply frame_weaken; [exact Hin|exact Hf]].
  intros p Hp. destruct (decide (p ∈ input_paths st0)) as [Hi|Hi]; [by apply Hg|].
  rewrite Hf by done. by apply Hrest.
Qed.

(** A loop over a stream: the invariant does not look at the files of the stream, the steps
    do not touch them, and afterwards they are gone. *)
Lemma wp_for_each_next {S} E R (I : S -> list T -> World -> Prop) (f : S -> T -> IO S) (s : S)
    (st : SortedStream T K) l w (Q : S * SortedStream T K -> World -> Prop) :
  stream_ready R st l w -> I s [] w ->
  (forall s d w w', frame R w w' -> I s d w -> I s d w') ->
  (forall s d r rest w, l = d ++ r :: rest -> I s d w ->
     wp (f s r) w E (fun s' w' => I s' (d ++ [r]) w' /\ forall p, R p -> disk w' !! p = disk w !! p)) ->
  (forall s' st' w', I s' l w' -> gone R w' -> Q (s', st') w') ->
  wp (for_each_next f s st) w E Q.
Proof.
  intros [Hy Hc Hin Hrest] H0' Hstable Hstep Hend. unfold for_each_next.
  apply (wp_for_each_item (fun s d v => I s d v /\ forall p, R p -> disk v !! p = disk w !! p)
    (fun s item => f s (item_record item)) (stream_fuel st) s st l).
  - intros s1 d v v' Hd [HI Hsame]. split; [|by intros p Hp; rewrite Hd; apply Hsame].
    apply (Hstable s1 d v v'); [|done]. intros p _. by rewrite Hd.
  - intros s1 d i r rest v Hl [HI Hsame]. eapply wp_mono; [by eapply Hstep|].
    simpl. intros s2 v' [HI' Hsame']. split; [done|]. intros p Hp. by rewrite Hsame', Hsame.
  - done.
  - by apply yields_fuel.
  - done.
  - intros s' st' w1 w2 [HI Hsame] Hrem _. unfold inputs_removed in Hrem. rewrite Hc in Hrem.
    destruct Hrem as [Hf Hg]. assert (frame R w1 w2) as HfR by (eapply frame_weaken; [exact Hin|exact Hf]).
    apply Hend; [by eapply Hstable|]. intros p Hp.
    destruct (decide (p ∈ input_paths st)) as [Hi|Hi]; [by apply Hg|].
    rewrite Hf, Hsame by done. by apply Hrest.
Qed.
End streams.

(** ** Sinks next to others *)
Lemma json_holds_frame {T} `{RecordCodec T} dir limit k (l : list (string * T)) w w' W :
  json_holds dir limit k l w -> frame W w w' -> (forall p, W p -> output_path dir p -> False) ->
  json_holds dir limit k l w'.
Proof.
  intros [Hd Hl Hs Hr He Hla Hf] Hfr Hdisj. split; try done.
  eapply chunk_files_frame; [exact Hf|exact Hfr|]. intros c _ HW. eapply Hdisj; [exact HW|].
  destruct (json_path_head dir (ck_group c) (ck_index c)) as (a & rest & Hp & Ha). by exists a, rest.
Qed.

Lemma connector_path_output dir (c : Chunk ConnectorGroup ConnectorRecord) : output_path dir (connector_path dir c).
Proof.
  destruct (connector_path_head dir (ck_group c) (ck_index c)) as (a & rest & Hp & Ha). by exists a, rest.
Qed.

Lemma connector_holds_frame dir limit k l w w' W :
  connector_holds dir limit k l w -> frame W w w' -> (forall p, W p -> output_path dir p -> False) ->
  connector_holds dir limit k l w'.
Proof.
  intros [Hd Hl Hs Hr He Hla Hf] Hfr Hdisj. split; try done.
  eapply chunk_files_frame; [exact Hf|exact Hfr|]. intros c _ HW. eapply Hdisj; [exact HW|].
  apply connector_path_output.
Qed.

Lemma json_same_disk {T} `{RecordCodec T} dir limit k (l : list (string * T)) w w' :
  json_holds dir limit k l w -> disk w' = disk w -> json_holds dir limit k l w'.
Proof.
  intros Hk Hd. apply (json_holds_frame dir limit k l w w' (fun _ => False)); [done| |by intros p []].
  intros p _. by rewrite Hd.
Qed.

(** A part of the rows has a part of the files. *)
Lemma table_prefix {T} `{RecordCodec T} dir limit (l l' : list (string * T)) :
  json_room (l ++ l') -> NoDup (table_path dir <$> table_chunks limit (l ++ l')) ->
  json_room l /\ NoDup (table_path dir <$> table_chunks limit l) /\
  forall p, p ∈ table_path dir <$> table_chunks limit l -> p ∈ table_path dir <$> table_chunks limit (l ++ l').
Proof.
  intros Hroom Hnd. split_and!.
  - by eapply json_room_prefix.
  - by eapply table_paths_prefix.
  - intros p Hp. destruct (chunks_of_prefix limit json_closed (table_path dir) l l') as [post Hpost]; [done|].
    unfold table_chunks in *. rewrite Hpost. set_solver.
Qed.

Lemma table_path_output {T} dir (c : Chunk string T) : output_path dir (table_path dir c).
Proof.
  destruct (json_path_head dir (ck_group c) (ck_index c)) as (a & rest & Hp & Ha). by exists a, rest.
Qed.

Lemma connector_prefix dir limit l l' :
  connector_room (l ++ l') -> NoDup (connector_path dir <$> connector_chunks limit (l ++ l')) ->
  connector_room l /\ NoDup (connector_path dir <$> connector_chunks limit l) /\
  forall p, p ∈ connector_path dir <$> connector_chunks limit l ->
    p ∈ connector_path dir <$> connector_chunks limit (l ++ l').
Proof.
  unfold connector_room, connector_chunks. rewrite fmap_app, connector_bytes_app. intros Hroom Hnd.
  destruct (chunks_of_prefix limit connector_body (connector_path dir) (by_group <$> l) (by_group <$> l'))
    as [post Hpost]; [done|].
  rewrite Hpost in Hnd |- *. split_and!.
  - pose proof (connector_bytes_length l'). lia.
  - by apply NoDup_app in Hnd as (? & _).
  - intros p Hp. set_solver.
Qed.
