(* ===== verification/StagingLaws.v ===== *)
(** * The passes of the staging accumulator

    Each pass of [finish] does what the specification says, one lemma per operation of the
    pass: adding partitions, grouping the sorted records, resolving the ends of edges.  The
    first pass reads the sorted records once, writes every group of node rows, and stores
    the groups of edges, the requests for their ends, and the table of every node for the
    passes to come. *)
From S2P Require Import Prelude Order Text Json Hash Protocol Rows StagedRows Disk Spill StreamLaws SpoolLaws Sinks SinkLaws Staging StagingSpec StagingFrames.

Section Passes.
Context `{StagingCodecs} (E : abort -> Prop) (dir run : string) (limit olimit : Z).

Definition root : string := path_join dir (String "." run).
Definition merged_path : string := path_join root "merged-edges.bin".
Definition types_path : string := path_join root "node-types.bin".

Definition few_records (l : list RawRecord) : Prop := (Z.of_nat (length l) <= 2 ^ 60)%Z.

(** ** Adding partitions *)
Record acc_ok (a : StagingAccumulator) (l : list RawRecord) (order : Z) w : Prop := {
  ao_dir : staging_dir a = dir;
  ao_root : run_root a = root;
  ao_limit : chunk_limit a = limit;
  ao_output : output_chunk_limit a = olimit;
  ao_raw : exists s, raw_records a = Some s /\ spool_holds limit s l w /\
    spool_region s = region root "staged";
  ao_order : next_source_order a = order;
  ao_error : pending_error a = None
}.

Definition same_constraints (a a' : StagingAccumulator) : Prop :=
  relation_constraints a' = relation_constraints a.

(** What the passes of [finish] read of the accumulator. *)
Definition placed (a : StagingAccumulator) : Prop :=
  staging_dir a = dir /\ run_root a = root /\ chunk_limit a = limit /\ output_chunk_limit a = olimit.

Lemma acc_placed a l order w : acc_ok a l order w -> placed a.
Proof. by intros []. Qed.

Lemma few_records_few l : few_records l -> few l.
Proof. unfold few_records, few. lia. Qed.

Lemma few_records_app l l' : few_records (l ++ l') -> few_records l.
Proof. unfold few_records. rewrite length_app. lia. Qed.

Lemma wp_push_raw a l order r w :
  acc_ok a l order w -> fits limit r -> few_records (l ++ [r]) ->
  wp (push_raw a r) w E (fun a' w' => acc_ok a' (l ++ [r]) order w' /\ same_constraints a a' /\
    frame (region root "staged") w w').
Proof.
  intros [Hd Hr Hl Ho (s & Hs & Hh & Hreg) Hord He] Hfits Hfew. unfold push_raw. rewrite Hs.
  apply wp_bind, wp_ret, wp_bind.
  eapply wp_mono; [apply (wp_push limit s l); [done|done|by apply few_records_few]|].
  simpl. intros s' w' (Hh' & Hsame & Hfr). apply wp_ret. rewrite <- Hreg. split_and!; try done.
  split; try done. exists s'. split_and!; [done..|].
  by rewrite (same_spool_region _ _ Hsame).
Qed.

Lemma wp_take_order a l order w :
  acc_ok a l order w -> (order < u64_max)%Z ->
  wp (take_source_order a) w E (fun r w' => r.1 = order /\ w' = w /\ acc_ok r.2 l (order + 1)%Z w /\
    same_constraints a r.2).
Proof.
  intros [Hd Hr Hl Ho Hs Hord He] Hlt. unfold take_source_order. rewrite Hord. apply wp_bind.
  eapply wp_checked; [apply checked_add_u64_Some; split; [done|lia]|]. apply wp_ret. simpl.
  split_and!; try done; by split.
Qed.

(** Enough of the input is known to fit. *)
Definition raw_fits (l : list RawRecord) : Prop := Forall (fits limit) l /\ few_records l.

Lemma raw_fits_app l l' : raw_fits (l ++ l') -> raw_fits l.
Proof. intros [Hf Hn]. apply Forall_app in Hf as [Hf _]. split; [done|by eapply few_records_app]. Qed.

Lemma raw_fits_snoc l r : raw_fits (l ++ [r]) -> fits limit r.
Proof. intros [Hf _]. apply Forall_app in Hf as [_ Hf]. by apply Forall_inv in Hf. Qed.

Lemma wp_stage_node p a l order n w :
  acc_ok a l order w -> (order < u64_max)%Z -> raw_fits (l ++ raw_nodes p order [n]) ->
  wp (stage_node p a n) w E (fun a' w' => acc_ok a' (l ++ raw_nodes p order [n]) (order + 1)%Z w' /\
    same_constraints a a' /\ frame (region root "staged") w w').
Proof.
  intros Ha Ho Hfits. unfold stage_node. apply wp_bind.
  eapply wp_mono; [by apply wp_take_order|]. intros [o a1] w1 (Heq & -> & Ha1 & Hc1). simpl in Heq. subst o.
  cbn [raw_nodes] in *. rewrite app_nil_r in *. cbn [snd] in *.
  assert (raw_fits (l ++ [RawNodeType (n_id n) (n_table n) order])) as Hf1.
  { eapply (raw_fits_app _ _). rewrite <- app_assoc. exact Hfits. }
  apply wp_bind. eapply wp_mono.
  { apply wp_push_raw; [exact Ha1|by eapply raw_fits_snoc|apply Hf1]. }
  intros a2 w2 (Ha2 & Hc2 & Hfr2). unfold same_constraints in *. case_bool_decide.
  - apply wp_ret. split_and!; [exact Ha2|congruence|done].
  - rewrite (cons_middle _ l) in Hfits |- *. rewrite app_assoc in Hfits |- *.
    eapply wp_mono; [apply wp_push_raw; [exact Ha2|by eapply raw_fits_snoc|apply Hfits]|].
    simpl. intros a3 w3 (Ha3 & Hc3 & Hfr3). split_and!; [exact Ha3|congruence|by etrans].
Qed.

Lemma raw_nodes_cons p order n nodes :
  raw_nodes p order (n :: nodes) = raw_nodes p order [n] ++ raw_nodes p (order + 1) nodes.
Proof. cbn [raw_nodes]. by rewrite app_nil_r. Qed.

Lemma wp_stage_nodes p nodes a l order w :
  acc_ok a l order w -> (order + Z.of_nat (length nodes) <= u64_max)%Z ->
  raw_fits (l ++ raw_nodes p order nodes) ->
  wp (io_fold (stage_node p) a nodes) w E (fun a' w' =>
    acc_ok a' (l ++ raw_nodes p order nodes) (order + Z.of_nat (length nodes))%Z w' /\
    same_constraints a a' /\ frame (region root "staged") w w').
Proof.
  revert a l order w. induction nodes as [|n nodes IH]; intros a l order w Ha Ho Hfits.
  - apply wp_ret. simpl. rewrite app_nil_r, Z.add_0_r. done.
  - rewrite raw_nodes_cons, app_assoc in Hfits |- *. cbn [length] in *. cbn [io_fold]. apply wp_bind.
    eapply wp_mono; [apply (wp_stage_node p a l order n); [done|lia|by eapply raw_fits_app]|].
    simpl. intros a1 w1 (Ha1 & Hc1 & Hf1).
    eapply wp_mono; [apply IH; [exact Ha1|lia|exact Hfits]|].
    simpl. intros a2 w2 (Ha2 & Hc2 & Hf2). unfold same_constraints in *.
    replace (order + Z.of_nat (S (length nodes)))%Z with (order + 1 + Z.of_nat (length nodes))%Z by lia.
    split_and!; [done|congruence|by etrans].
Qed.

Lemma wp_stage_edges p edges a l order w :
  acc_ok a l order w -> (order + Z.of_nat (length (new_edges p edges)) <= u64_max)%Z ->
  raw_fits (l ++ raw_edges p order edges) ->
  wp (io_fold (stage_edge p) a edges) w E (fun a' w' =>
    acc_ok a' (l ++ raw_edges p order edges) (order + Z.of_nat (length (new_edges p edges)))%Z w' /\
    same_constraints a a' /\ frame (region root "staged") w w').
Proof.
  revert a l order w. induction edges as [|e edges IH]; intros a l order w Ha Ho Hfits.
  - apply wp_ret. simpl. rewrite app_nil_r, Z.add_0_r. done.
  - cbn [raw_edges io_fold] in *. unfold new_edges in *. cbn [List.filter] in *.
    apply wp_bind. destruct (bool_decide (e_id e ∈ sp_retained_edges p)) eqn:Eb; cbn [negb] in *.
    { assert (stage_edge p a e = mret a) as -> by (unfold stage_edge; by rewrite Eb).
      apply wp_ret. by apply IH. }
    assert (stage_edge p a e = (taken ← take_source_order a;
      let (order, b) := (taken : Z * StagingAccumulator) in
      push_raw b (RawEdge (e_edge_type e) (e_id e) order (edge_fields e)))) as ->
      by (unfold stage_edge; by rewrite Eb).
    cbn [length] in *. apply wp_bind. eapply wp_mono; [apply wp_take_order; [exact Ha|lia]|].
    intros [o a1] w1 (Heq & -> & Ha1 & Hc1). simpl in Heq. subst o. cbn [snd] in *.
    rewrite (cons_middle _ l) in Hfits |- *. rewrite app_assoc in Hfits |- *.
    eapply wp_mono.
    { apply wp_push_raw; [exact Ha1|by eapply raw_fits_snoc, raw_fits_app|by eapply raw_fits_app]. }
    simpl. intros a2 w2 (Ha2 & Hc2 & Hf2).
    eapply wp_mono; [apply IH; [exact Ha2|lia|exact Hfits]|].
    simpl. intros a3 w3 (Ha3 & Hc3 & Hf3). unfold same_constraints in *.
    replace (order + Z.of_nat (S _))%Z with (order + 1 +
      Z.of_nat (length (List.filter (fun e => negb (bool_decide (e_id e ∈ sp_retained_edges p))) edges)))%Z by lia.
    split_and!; [done|congruence|by etrans].
Qed.

(** Operations that cannot fail are not changed by catching their errors. *)
Lemma wp_catch {A} (m : IO A) w (Q : native_result A -> World -> Prop) :
  wp m w (fun _ => False) (fun a w' => Q (Ok a) w') -> wp (io_catch m) w E Q.
Proof. unfold wp, io_catch. by destruct (m w) as [[a w']|e]. Qed.
End Passes.

Section Adding.
Context `{StagingCodecs} (E : abort -> Prop) (dir run : string) (limit olimit : Z).
Local Abbreviation acc_ok := (acc_ok dir run limit olimit).
Local Abbreviation root := (root dir run).

Lemma wp_add_partition p a l order w :
  acc_ok a l order w -> (order + orders_of p <= u64_max)%Z ->
  raw_fits limit (l ++ raw_nodes p order (sp_nodes p) ++
    raw_edges p (order + Z.of_nat (length (sp_nodes p))) (sp_edges p)) ->
  wp (add_partition_filtered a p) w E (fun a' w' =>
    acc_ok a' (l ++ raw_nodes p order (sp_nodes p) ++
      raw_edges p (order + Z.of_nat (length (sp_nodes p))) (sp_edges p)) (order + orders_of p)%Z w' /\
    same_constraints a a' /\ frame (region root "staged") w w').
Proof.
  intros Ha Ho Hfits. unfold add_partition_filtered. rewrite (ao_error _ _ _ _ _ _ _ _ Ha).
  rewrite app_assoc in Hfits |- *. unfold orders_of in *.
  apply wp_bind, wp_catch, wp_bind.
  eapply wp_mono; [apply wp_stage_nodes; [exact Ha|lia|by eapply raw_fits_app]|].
  simpl. intros a1 w1 (Ha1 & Hc1 & Hf1).
  eapply wp_mono; [apply wp_stage_edges; [exact Ha1|lia|exact Hfits]|].
  simpl. intros a2 w2 (Ha2 & Hc2 & Hf2). apply wp_ret. unfold same_constraints in *.
  replace (order + Z.of_nat (length (sp_nodes p) + length (new_edges p (sp_edges p))))%Z
    with (order + Z.of_nat (length (sp_nodes p)) + Z.of_nat (length (new_edges p (sp_edges p))))%Z by lia.
  split_and!; [done|congruence|by etrans].
Qed.

Lemma wp_add_partitions ps a l order w :
  acc_ok a l order w -> (order + orders_total ps <= u64_max)%Z -> raw_fits limit (l ++ raw_of order ps) ->
  wp (io_fold add_partition_filtered a ps) w E (fun a' w' =>
    acc_ok a' (l ++ raw_of order ps) (order + orders_total ps)%Z w' /\
    same_constraints a a' /\ frame (region root "staged") w w').
Proof.
  revert a l order w. induction ps as [|p ps IH]; intros a l order w Ha Ho Hfits.
  - apply wp_ret. simpl. rewrite app_nil_r, Z.add_0_r. done.
  - cbn [raw_of orders_total foldr io_fold] in *. fold (orders_total ps) in *. apply wp_bind.
    assert (0 <= orders_total ps)%Z as Hnn.
    { unfold orders_total. clear. induction ps as [|q ps IH]; simpl; [lia|]. unfold orders_of at 1. lia. }
    rewrite (app_assoc (raw_nodes _ _ _)), app_assoc in Hfits |- *.
    eapply wp_mono; [apply (wp_add_partition p a l order); [done|lia|by eapply raw_fits_app]|].
    simpl. intros a1 w1 (Ha1 & Hc1 & Hf1).
    eapply wp_mono; [eapply IH; [exact Ha1|lia|exact Hfits]|].
    simpl. intros a2 w2 (Ha2 & Hc2 & Hf2). unfold same_constraints in *. rewrite Z.add_assoc.
    split_and!; [done|congruence|by etrans].
Qed.
End Adding.


(** The groups after some of the stream: the open one is closed once the next variant has
    begun. *)
Definition settled {K V} (b : bool) (st : list (K * V) * option (K * V)) : list (K * V) * option (K * V) :=
  if b then (st.1 ++ option_list st.2, None) else st.

Lemma settled_twice {K V} b (st : list (K * V) * option (K * V)) : settled true (settled b st) = settled true st.
Proof. destruct b; [|done]. unfold settled. simpl. by rewrite app_nil_r. Qed.

Lemma grouping_prefix {K V} `{EqDecision K} (merge : V -> V -> V) (l l' : list (K * V)) :
  (grouping merge l).1 `prefix_of` grouped merge (l ++ l').
Proof.
  unfold grouped. assert ((grouping merge l).1 `prefix_of` (grouping merge (l ++ l')).1) as Hp.
  2: { etrans; [exact Hp|]. by apply prefix_app_r. }
  induction l' as [|x l' IH] using rev_ind; [by rewrite app_nil_r|].
  rewrite app_assoc, grouping_snoc. etrans; [exact IH|]. unfold group_add.
  destruct (grouping merge (l ++ l')) as [acc [[k v]|]]; simpl; [|done]. case_decide; simpl; [done|].
  by apply prefix_app_r.
Qed.

Lemma pair_eqb (a b a' b' : string) :
  String.eqb a a' && String.eqb b b' = bool_decide ((a, b) = (a', b')).
Proof. destruct (String.eqb_spec a a'), (String.eqb_spec b b'); case_bool_decide; simpl; congruence. Qed.

Definition me_of (x : string * string * EdgeStagedRow) : MergedEdge :=
  {| me_table := x.1.1; me_id := x.1.2; me_row := x.2 |}.
Definition rt_of (x : string * string) : ResolvedNodeType := {| rt_id := x.1; rt_table := x.2 |}.

Section Grouping.
Context `{StagingCodecs} (E : abort -> Prop) (dir run : string) (limit olimit : Z).
Local Abbreviation root := (root dir run).
Local Abbreviation merged_path := (merged_path dir run).
Local Abbreviation types_path := (types_path dir run).
Local Abbreviation node_groups := (list (string * string * NodeStagedRow) * option (string * string * NodeStagedRow))%type.
Local Abbreviation edge_groups := (list (string * string * EdgeStagedRow) * option (string * string * EdgeStagedRow))%type.
Local Abbreviation type_groups := (list (string * string) * option (string * string))%type.

(** What will have been written in the end. *)
Context (all_nodes : list (string * string * NodeStagedRow)).
Context (all_edges : list (string * string * EdgeStagedRow)).
Context (all_types : list (string * string)).

Record groups_fit : Prop := {
  gf_nodes : json_room (by_table <$> all_nodes);
  gf_paths : NoDup (table_path dir <$> table_chunks olimit (by_table <$> all_nodes));
  gf_requests : Forall (fits limit) (requests all_edges);
  gf_few : few (requests all_edges);
  gf_merged : Forall storable (me_of <$> all_edges);
  gf_types : Forall storable (rt_of <$> all_types);
  gf_count : (Z.of_nat (length all_types) <= u64_max)%Z
}.

Record groups_ok (n : node_groups) (e : edge_groups) (t : type_groups) (g : GroupState) w : Prop := {
  go_nodes : json_holds dir olimit (g_nodes g) (by_table <$> n.1) w;
  go_node_group : node_group g = n.2;
  go_endpoints : spool_holds limit (g_endpoints g) (requests e.1) w;
  go_region : spool_region (g_endpoints g) = region root "endpoints";
  go_merged : disk w !! merged_path = Some (record_file (me_of <$> e.1));
  go_edge_group : edge_group g = e.2;
  go_types : disk w !! types_path = Some (record_file (rt_of <$> t.1));
  go_type_group : type_group g = t.2;
  go_count : g_node_count g = Z.of_nat (length t.1)
}.

(** The files of this pass. *)
Definition group_files (p : string) : Prop :=
  p ∈ table_path dir <$> table_chunks olimit (by_table <$> all_nodes) \/
  region root "endpoints" p \/ p = merged_path \/ p = types_path.

Lemma endpoints_slot p : region root "endpoints" p -> slot root "e" p.
Proof. apply region_slot. Qed.
Lemma merged_slot : slot root "m" merged_path.
Proof. apply path_slot. Qed.
Lemma types_slot : slot root "n" types_path.
Proof. apply path_slot. Qed.

(** Different slots, or a slot and an output file, do not meet. *)
Lemma slots_apart c c' p : slot root c p -> slot root c' p -> c <> c' -> False.
Proof. intros H1 H2 Hne. apply Hne. by eapply slot_inj. Qed.
Lemma output_apart c p : output_path dir p -> slot root c p -> False.
Proof. apply output_not_slot. Qed.

(** What others write leaves the groups alone. *)
Lemma groups_ok_frame W n e t g w w' :
  groups_ok n e t g w -> frame W w w' -> (forall p, W p -> slot root "s" p) -> groups_ok n e t g w'.
Proof.
  intros [H1 H2 H3 H4 H5 H6 H7 H8 H9] Hf HW. split; try done.
  - eapply json_holds_frame; [exact H1|exact Hf|]. intros p Hp Hout. by eapply output_apart, HW.
  - eapply spool_frame; [exact H3|exact Hf|]. intros p Hp. rewrite H4. intros Hr%endpoints_slot.
    by eapply (slots_apart "s" "e"); [apply HW|..].
  - eapply frame_lookup; [exact Hf| |exact H5]. intros Hp.
    by eapply (slots_apart "s" "m"); [apply HW|apply merged_slot|].
  - eapply frame_lookup; [exact Hf| |exact H7]. intros Hp.
    by eapply (slots_apart "s" "n"); [apply HW|apply types_slot|].
Qed.

Lemma wp_close_nodes n e t g w :
  groups_fit -> groups_ok n e t g w -> n.1 ++ option_list n.2 `prefix_of` all_nodes ->
  wp (close_node_group g) w E (fun g' w' => groups_ok (settled true n) e t g' w' /\ frame group_files w w').
Proof.
  intros Hfit Hg [rest Hall]. destruct Hg as [H1 H2 H3 H4 H5 H6 H7 H8 H9] eqn:Eg. clear Eg.
  unfold close_node_group. rewrite H2.
  destruct n as [acc [[[table id] row]|]]; simpl in *.
  2: { apply wp_ret. split; [|done]. unfold settled. simpl. rewrite app_nil_r. by split. }
  pose proof (gf_nodes Hfit) as Hroom. pose proof (gf_paths Hfit) as Hnd. rewrite Hall, fmap_app in Hroom, Hnd.
  destruct (table_prefix _ _ _ _ Hroom Hnd) as (Hroom' & Hnd' & Hsub).
  rewrite fmap_app in Hroom', Hnd'. cbn [fmap list_fmap] in Hroom', Hnd'. apply wp_bind.
  eapply wp_mono; [apply wp_json_push; [exact H1|exact Hroom'|exact Hnd']|].
  intros k w' [Hk Hfr]. apply wp_ret.
  assert (frame (output_path dir) w w') as Hfo.
  { eapply frame_weaken; [|exact Hfr]. intros p (c & -> & _)%list_elem_of_fmap. apply table_path_output. }
  split.
  - split; try done; simpl.
    + by rewrite fmap_app.
    + eapply spool_frame; [exact H3|exact Hfo|]. intros p Hp. rewrite H4. intros Hr%endpoints_slot.
      by eapply output_apart.
    + eapply frame_lookup; [exact Hfo| |exact H5]. intros Hp. eapply output_apart; [exact Hp|apply merged_slot].
    + eapply frame_lookup; [exact Hfo| |exact H7]. intros Hp. eapply output_apart; [exact Hp|apply types_slot].
  - eapply frame_weaken; [|exact Hfr]. intros p Hp. left. rewrite Hall, fmap_app. apply Hsub.
    rewrite fmap_app. exact Hp.
Qed.

Lemma requests_snoc l x : requests (l ++ [x]) = (requests l ++ [request_of x Source]) ++ [request_of x Target].
Proof. unfold requests. rewrite fmap_app, concat_app. simpl. by rewrite <- app_assoc. Qed.

Lemma requests_app l l' : requests (l ++ l') = requests l ++ requests l'.
Proof. unfold requests. by rewrite fmap_app, concat_app. Qed.

Lemma few_request l l' : few (requests (l ++ l')) -> few (requests l).
Proof. rewrite requests_app. unfold few. rewrite length_app. lia. Qed.

(** The files of the edge groups. *)
Definition edge_files (p : string) : Prop := region root "endpoints" p \/ p = merged_path.

Lemma edge_files_slot p : edge_files p -> slot root "e" p \/ slot root "m" p.
Proof. intros [Hp| ->]; [left; by apply endpoints_slot|right; apply merged_slot]. Qed.

Lemma wp_write_merged s l x w :
  groups_fit -> spool_holds limit s (requests l) w -> spool_region s = region root "endpoints" ->
  disk w !! merged_path = Some (record_file (me_of <$> l)) -> l ++ [x] `prefix_of` all_edges ->
  wp (write_merged_edge merged_path s x.1.1 x.1.2 x.2) w E (fun s' w' =>
    spool_holds limit s' (requests (l ++ [x])) w' /\ spool_region s' = region root "endpoints" /\
    disk w' !! merged_path = Some (record_file (me_of <$> l ++ [x])) /\ frame edge_files w w').
Proof.
  intros Hfit Hs Hreg Hfile [rest Hall].
  pose proof (gf_requests Hfit) as Hreq. pose proof (gf_few Hfit) as Hfew.
  rewrite Hall in Hreq, Hfew. apply few_request in Hfew. rewrite requests_app, requests_snoc in Hreq.
  rewrite requests_snoc in Hfew |- *.
  apply Forall_app in Hreq as [Hreq _]. apply Forall_app in Hreq as [Hreq Hr2].
  apply Forall_app in Hreq as [_ Hr1]. apply Forall_inv in Hr1, Hr2.
  unfold write_merged_edge. apply wp_bind. eapply wp_mono.
  { eapply wp_push; [exact Hs|exact Hr1|by eapply few_app]. }
  intros s1 w1 (Hs1 & Hsame1 & Hf1). apply wp_bind. eapply wp_mono.
  { eapply wp_push; [exact Hs1|exact Hr2|exact Hfew]. }
  intros s2 w2 (Hs2 & Hsame2 & Hf2).
  rewrite (same_spool_region _ _ Hsame1), Hreg in Hf2. rewrite Hreg in Hf1.
  assert (spool_region s2 = region root "endpoints") as Hreg2
    by (by rewrite (same_spool_region _ _ Hsame2), (same_spool_region _ _ Hsame1)).
  assert (frame (region root "endpoints") w w2) as Hf by by etrans.
  assert (~ region root "endpoints" merged_path) as Hm.
  { intros Hr%endpoints_slot. eapply (slots_apart "e" "m"); [exact Hr|apply merged_slot|done]. }
  apply wp_bind. eapply (wp_push_record _ _ (me_of <$> l) (me_of x)).
  - by eapply frame_lookup.
  - pose proof (gf_merged Hfit) as Hst. rewrite Hall, !fmap_app in Hst.
    apply Forall_app in Hst as [Hst _]. apply Forall_app in Hst as [_ Hst]. by apply Forall_inv in Hst.
  - intros w3 Hd. apply wp_ret. rewrite fmap_app.
    assert (frame (fun p => p = merged_path) w2 w3) as Hf3.
    { intros p Hp. by rewrite Hd, lookup_insert_ne by congruence. }
    split_and!; [|done|by rewrite Hd, lookup_insert_eq|].
    + eapply spool_frame; [exact Hs2|exact Hf3|]. intros p ->. by rewrite Hreg2.
    + etrans; (eapply frame_weaken; [|eassumption]); intros p Hp; [by left|by right].
Qed.

Lemma wp_close_edges n e t g w :
  groups_fit -> groups_ok n e t g w -> e.1 ++ option_list e.2 `prefix_of` all_edges ->
  wp (close_edge_group merged_path g) w E (fun g' w' =>
    groups_ok n (settled true e) t g' w' /\ frame group_files w w').
Proof.
  intros Hfit Hg Hall. pose proof Hg as [H1 H2 H3 H4 H5 H6 H7 H8 H9].
  unfold close_edge_group. rewrite H6.
  destruct e as [acc [[[table id] row]|]]; simpl in *.
  2: { apply wp_ret. split; [|done]. unfold settled. simpl. rewrite app_nil_r. done. }
  apply wp_bind. eapply wp_mono; [by apply (wp_write_merged _ acc (table, id, row))|].
  simpl. intros s w' (Hs & Hreg & Hfile & Hf). apply wp_ret. split.
  - split; try done; simpl.
    + eapply json_holds_frame; [exact H1|exact Hf|]. intros p [Hp|Hp]%edge_files_slot Hout;
        by eapply output_apart.
    + eapply frame_lookup; [exact Hf| |exact H7]. intros [Hp|Hp]%edge_files_slot;
        (eapply slots_apart; [exact Hp|apply types_slot|done]).
  - eapply frame_weaken; [|exact Hf]. intros p [Hp|Hp]; unfold group_files; tauto.
Qed.

Lemma wp_close_types n e t g w :
  groups_fit -> groups_ok n e t g w -> t.1 ++ option_list t.2 `prefix_of` all_types ->
  wp (close_type_group types_path g) w E (fun g' w' =>
    groups_ok n e (settled true t) g' w' /\ frame group_files w w').
Proof.
  intros Hfit Hg [rest Hall]. pose proof Hg as [H1 H2 H3 H4 H5 H6 H7 H8 H9].
  unfold close_type_group. rewrite H8.
  destruct t as [acc [[id table]|]]; simpl in *.
  2: { apply wp_ret. split; [|done]. unfold settled. simpl. rewrite app_nil_r. done. }
  pose proof (gf_types Hfit) as Hst. rewrite Hall, !fmap_app in Hst.
  apply Forall_app in Hst as [Hst _]. apply Forall_app in Hst as [_ Hst]. apply Forall_inv in Hst.
  apply wp_bind. eapply (wp_push_record _ _ (rt_of <$> acc) (rt_of (id, table))); [done|done|].
  intros w' Hd. pose proof (gf_count Hfit) as Hcount. rewrite Hall, !length_app in Hcount. simpl in Hcount.
  apply wp_bind. eapply wp_checked.
  { apply checked_add_u64_Some. split; [done|]. rewrite H9. lia. }
  assert (frame (fun p => p = types_path) w w') as Hf.
  { intros p Hp. by rewrite Hd, lookup_insert_ne by congruence. }
  apply wp_ret. split.
  - split; try done; simpl.
    + eapply json_holds_frame; [exact H1|exact Hf|]. intros p -> Hout. eapply output_apart; [exact Hout|apply types_slot].
    + eapply spool_frame; [exact H3|exact Hf|]. intros p ->. rewrite H4. intros Hr%endpoints_slot.
      eapply (slots_apart "e" "n"); [exact Hr|apply types_slot|done].
    + eapply frame_lookup; [exact Hf| |exact H5]. simpl. intros Heq.
      eapply (slots_apart "m" "n"); [apply merged_slot|rewrite Heq; apply types_slot|done].
    + rewrite Hd, lookup_insert_eq. by rewrite fmap_app.
    + rewrite length_app, H9. simpl. lia.
  - eapply frame_weaken; [|exact Hf]. intros p ->. unfold group_files. tauto.
Qed.

(** Replacing an open group. *)
Lemma groups_open_node n e t g w x :
  groups_ok n e t g w -> groups_ok (n.1, x) e t (with_node_group g x) w.
Proof. intros []. by split. Qed.
Lemma groups_open_edge n e t g w x :
  groups_ok n e t g w -> groups_ok n (e.1, x) t (with_edge_group g x) w.
Proof. intros []. by split. Qed.
Lemma groups_open_type n e t g w x :
  groups_ok n e t g w -> groups_ok n e (t.1, x) (with_type_group g x (g_node_count g)) w.
Proof. intros []. by split. Qed.

(** One record of the stream, of each variant. *)
Lemma wp_step_node n e t g w table id order row :
  groups_fit -> groups_ok n e t g w ->
  (group_add merge_node_value n ((table, id), row)).1 `prefix_of` all_nodes ->
  wp (group_step merged_path types_path g (RawNode table id order row)) w E (fun g' w' =>
    groups_ok (group_add merge_node_value n ((table, id), row)) e t g' w' /\ frame group_files w w').
Proof.
  intros Hfit Hg Hall. cbn [group_step]. rewrite (go_node_group _ _ _ _ _ Hg). unfold group_add in *.
  destruct n as [acc [[[table' id'] row']|]]; cbn [fst snd] in *.
  2: { apply wp_ret. split; [|done]. by eapply groups_open_node in Hg. }
  rewrite pair_eqb. case_bool_decide as Hk; [rewrite (decide_True _ _ Hk) in Hall |- *|rewrite (decide_False _ _ Hk) in Hall |- *].
  - apply wp_ret. split; [|done]. by eapply groups_open_node in Hg.
  - apply wp_bind. eapply wp_mono; [by eapply wp_close_nodes|]. simpl. intros g' w' [Hg' Hf].
    apply wp_ret. split; [|done]. by eapply groups_open_node in Hg'.
Qed.

Lemma wp_step_edge n e t g w table id order row :
  groups_fit -> groups_ok n e t g w -> n.1 ++ option_list n.2 `prefix_of` all_nodes ->
  (group_add merge_edge_value e ((table, id), row)).1 `prefix_of` all_edges ->
  wp (group_step merged_path types_path g (RawEdge table id order row)) w E (fun g' w' =>
    groups_ok (settled true n) (group_add merge_edge_value e ((table, id), row)) t g' w' /\
    frame group_files w w').
Proof.
  intros Hfit Hg0 Hn Hall. cbn [group_step]. apply wp_bind.
  eapply wp_mono; [by eapply wp_close_nodes|]. clear g Hg0. simpl. intros g w1 [Hg Hf1].
  rewrite (go_edge_group _ _ _ _ _ Hg). unfold group_add in *.
  destruct e as [acc [[[table' id'] row']|]]; cbn [fst snd] in *.
  2: { apply wp_ret. split; [|done]. by eapply groups_open_edge in Hg. }
  rewrite pair_eqb. case_bool_decide as Hk; [rewrite (decide_True _ _ Hk) in Hall |- *|rewrite (decide_False _ _ Hk) in Hall |- *].
  - apply wp_ret. split; [|done]. by eapply groups_open_edge in Hg.
  - apply wp_bind. eapply wp_mono; [by eapply wp_close_edges|]. simpl. intros g' w' [Hg' Hf].
    apply wp_ret. split; [|by etrans]. by eapply groups_open_edge in Hg'.
Qed.

Lemma wp_step_type n e t g w id table order :
  groups_fit -> groups_ok n e t g w -> e.1 ++ option_list e.2 `prefix_of` all_edges ->
  (group_add keep_first t (id, table)).1 `prefix_of` all_types ->
  wp (group_step merged_path types_path g (RawNodeType id table order)) w E (fun g' w' =>
    groups_ok n (settled true e) (group_add keep_first t (id, table)) g' w' /\ frame group_files w w').
Proof.
  intros Hfit Hg0 He Hall. cbn [group_step]. apply wp_bind.
  eapply wp_mono; [by eapply wp_close_edges|]. clear g Hg0. simpl. intros g w1 [Hg Hf1].
  rewrite (go_type_group _ _ _ _ _ Hg). unfold group_add in *.
  destruct t as [acc [[id' table']|]]; cbn [fst snd] in *.
  2: { apply wp_ret. split; [|done]. by eapply groups_open_type in Hg. }
  destruct (String.eqb_spec id' id) as [->|Hk].
  - rewrite decide_True by done. apply wp_ret. done.
  - rewrite decide_False in Hall |- * by done.
    apply wp_bind. eapply wp_mono; [by eapply wp_close_types|]. simpl. intros g' w' [Hg' Hf].
    apply wp_ret. split; [|by etrans]. by eapply groups_open_type in Hg'.
Qed.
End Grouping.

(** ** The loop *)
Definition is_raw_edge (r : RawRecord) : bool := match r with RawEdge _ _ _ _ => true | _ => false end.
Definition is_raw_type (r : RawRecord) : bool := match r with RawNodeType _ _ _ => true | _ => false end.

Section GroupLoop.
Context `{StagingCodecs} (E : abort -> Prop) (dir run : string) (limit olimit : Z).
Context (lo hi : Z) (input : list RawRecord) (Hinput : orders_within lo hi input).
Local Abbreviation root := (root dir run).
Local Abbreviation stream := (sort_by_key raw_sort_key input).
Local Abbreviation all_nodes := (merged merge_node_value (omap raw_node_item input)).
Local Abbreviation all_edges := (merged merge_edge_value (omap raw_edge_item input)).
Local Abbreviation all_types := (merged keep_first (omap raw_type_item input)).
Local Abbreviation fit := (groups_fit dir limit olimit all_nodes all_edges all_types).
Local Abbreviation files := (group_files dir run olimit all_nodes).

Definition nodes_in (d : list RawRecord) := grouping merge_node_value (omap raw_node_item d).
Definition edges_in (d : list RawRecord) := grouping merge_edge_value (omap raw_edge_item d).
Definition types_in (d : list RawRecord) := grouping keep_first (omap raw_type_item d).

Lemma all_in :
  grouped merge_node_value (omap raw_node_item stream) = all_nodes /\
  grouped merge_edge_value (omap raw_edge_item stream) = all_edges /\
  grouped keep_first (omap raw_type_item stream) = all_types.
Proof.
  destruct (sorted_raw_items _ _ _ Hinput) as (-> & -> & ->). by rewrite !grouped_sort.
Qed.

(** Nodes come before edges, edges before types. *)
Lemma variants_around d r rest :
  stream = d ++ r :: rest ->
  (forall x, x ∈ d -> (raw_coarse x).1 <= (raw_coarse r).1) /\
  (forall x, x ∈ rest -> (raw_coarse r).1 <= (raw_coarse x).1).
Proof.
  intros Hs. split.
  - apply Forall_forall. by eapply sorted_raw_variants.
  - intros x Hx. apply list_elem_of_split in Hx as (r1 & r2 & ->).
    pose proof (sorted_raw_variants lo hi input (d ++ r :: r1) x r2 Hinput) as Hf.
    rewrite <- app_assoc in Hf. specialize (Hf Hs). rewrite Forall_forall in Hf. apply Hf. set_solver.
Qed.

Lemma existsb_none {A} (f : A -> bool) l : (forall x, x ∈ l -> f x = false) -> existsb f l = false.
Proof.
  induction l as [|x l IH]; intros Hl; [done|]. simpl. rewrite Hl by set_solver. apply IH. set_solver.
Qed.

Lemma omap_none {A B} (f : A -> option B) l : (forall x, x ∈ l -> f x = None) -> omap f l = [].
Proof.
  induction l as [|x l IH]; intros Hl; [done|]. rewrite omap_cons, Hl by set_solver. apply IH. set_solver.
Qed.

(** Groups that are closed, or that no later record adds to, are groups of the whole. *)
Lemma closed_prefix {K V} `{EqDecision K} (merge : V -> V -> V) (item : RawRecord -> option (K * V)) d rest all :
  stream = d ++ rest -> grouped merge (omap item stream) = all ->
  (grouping merge (omap item d)).1 `prefix_of` all.
Proof. intros Hs <-. rewrite Hs, omap_app. apply grouping_prefix. Qed.

Lemma ended_prefix {K V} `{EqDecision K} (merge : V -> V -> V) (item : RawRecord -> option (K * V)) d rest all b :
  stream = d ++ rest -> grouped merge (omap item stream) = all -> omap item rest = [] ->
  let st := settled b (grouping merge (omap item d)) in st.1 ++ option_list st.2 `prefix_of` all.
Proof.
  intros Hs <- Hrest. rewrite Hs, omap_app, Hrest, app_nil_r. unfold grouped.
  destruct b; simpl; by rewrite ?app_nil_r.
Qed.

Definition loop_ok (d : list RawRecord) : GroupState -> World -> Prop :=
  groups_ok dir run limit olimit (settled (existsb is_raw_edge d) (nodes_in d))
    (settled (existsb is_raw_type d) (edges_in d)) (types_in d).

Lemma wp_group_step d r rest g w :
  fit -> stream = d ++ r :: rest -> loop_ok d g w ->
  wp (group_step (merged_path dir run) (types_path dir run) g r) w E (fun g' w' =>
    loop_ok (d ++ [r]) g' w' /\ frame files w w').
Proof.
  intros Hfit Hs Hg. destruct (variants_around _ _ _ Hs) as [Hbefore Hafter].
  destruct all_in as (Hn & He & Ht).
  assert (stream = (d ++ [r]) ++ rest) as Hs' by by rewrite <- app_assoc.
  pose proof (closed_prefix merge_node_value raw_node_item _ _ _ Hs' Hn) as Cn.
  pose proof (closed_prefix merge_edge_value raw_edge_item _ _ _ Hs' He) as Ce.
  pose proof (closed_prefix keep_first raw_type_item _ _ _ Hs' Ht) as Ct.
  unfold loop_ok, nodes_in, edges_in, types_in in *. rewrite !existsb_app in *.
  rewrite !omap_app in *.
  destruct r as [table id o row|table id o row|id table o]; cbn in Cn, Ce, Ct |- *;
    rewrite ?orb_false_r, ?orb_true_r, ?app_nil_r in *.
  - rewrite !existsb_none in * by (intros [] Hx%Hbefore; simpl in Hx; (done || lia)).
    rewrite grouping_snoc in *. by eapply wp_step_node with (order := o).
  - rewrite (existsb_none is_raw_type) in * by (intros [] Hx%Hbefore; simpl in Hx; (done || lia)).
    rewrite grouping_snoc in *.
    rewrite <- (settled_twice (existsb is_raw_edge d)). eapply wp_step_edge with (order := o); [done..| |done].
    apply (ended_prefix merge_node_value raw_node_item _ _ _ _ Hs Hn).
    apply omap_none. intros x [->|Hx%Hafter]%elem_of_cons; [done|]. destruct x; simpl in Hx; (done || lia).
  - rewrite grouping_snoc in *.
    rewrite <- (settled_twice (existsb is_raw_type d)). eapply wp_step_type with (order := o); [done..| |done].
    apply (ended_prefix merge_edge_value raw_edge_item _ _ _ _ Hs He).
    apply omap_none. intros x [->|Hx%Hafter]%elem_of_cons; [done|]. destruct x; simpl in Hx; (done || lia).
Qed.
Lemma files_not_staged p : files p -> region root "staged" p -> False.
Proof.
  intros Hp Hr%region_slot. destruct Hp as [(c & -> & _)%list_elem_of_fmap|[Hp|[-> | ->]]].
  - eapply output_apart; [apply (table_path_output dir c)|exact Hr].
  - apply endpoints_slot in Hp. by eapply (slots_apart _ _ "e" "s").
  - by eapply (slots_apart _ _ "m" "s"); [apply merged_slot|..].
  - by eapply (slots_apart _ _ "n" "s"); [apply types_slot|..].
Qed.

Definition group_pass_files (p : string) : Prop := files p \/ region root "staged" p.

Lemma wp_close_groups g w :
  fit -> loop_ok stream g w ->
  wp (g ← close_node_group g; g ← close_edge_group (merged_path dir run) g;
      close_type_group (types_path dir run) g) w E (fun g w' =>
    groups_ok dir run limit olimit (all_nodes, None) (all_edges, None) (all_types, None) g w' /\
    frame files w w').
Proof.
  intros Hfit Hg. destruct all_in as (Hn & He & Ht).
  assert (stream = stream ++ []) as Hs by by rewrite app_nil_r.
  pose proof (ended_prefix merge_node_value raw_node_item _ _ _ (existsb is_raw_edge stream) Hs Hn eq_refl) as Cn.
  pose proof (ended_prefix merge_edge_value raw_edge_item _ _ _ (existsb is_raw_type stream) Hs He eq_refl) as Ce.
  pose proof (ended_prefix keep_first raw_type_item _ _ _ false Hs Ht eq_refl) as Ct.
  apply wp_bind. eapply wp_mono; [by eapply wp_close_nodes|]. cbv beta. intros g1 w1 [Hg1 Hf1].
  apply wp_bind. eapply wp_mono; [by eapply wp_close_edges|]. cbv beta. intros g2 w2 [Hg2 Hf2].
  eapply wp_mono; [by eapply wp_close_types|]. cbv beta. intros g3 w3 [Hg3 Hf3].
  rewrite !settled_twice in Hg3. split; [|by do 2 etrans].
  rewrite <- Hn, <- He, <- Ht. exact Hg3.
Qed.

Lemma wp_group_pass a st w :
  placed dir run limit olimit a -> (0 < limit)%Z -> fit ->
  stream_ready (region root "staged") st stream w -> gone (region root "endpoints") w ->
  wp (group_pass a st) w E (fun g w' =>
    groups_ok dir run limit olimit (all_nodes, None) (all_edges, None) (all_types, None) g w' /\
    gone (region root "staged") w' /\ frame group_pass_files w w').
Proof.
  intros (Hd & Hr & Hl & Hol) Hlim Hfit Hst Hclean. unfold group_pass, merged_edges_path, node_types_path.
  rewrite Hd, Hr, Hl, Hol. fold (merged_path dir run) (types_path dir run).
  apply wp_bind, wp_create. apply wp_bind, wp_create.
  set (w1 := set_disk _ _).
  assert (frame (fun p => p = merged_path dir run \/ p = types_path dir run) w w1) as Hf1.
  { intros p Hp. unfold w1. simpl. rewrite !lookup_insert_ne; [done|..]; intros <-; tauto. }
  apply wp_bind. eapply wp_mono; [apply (wp_new_spool root "endpoints"); [done|]|].
  { intros p Hp. rewrite Hf1; [by apply Hclean|]. apply endpoints_slot in Hp.
    intros [-> | ->]; [eapply (slots_apart _ _ "e" "m")|eapply (slots_apart _ _ "e" "n")]; try done;
      [apply merged_slot|apply types_slot]. }
  intros s w2 (-> & Hs & Hreg). apply wp_bind.
  apply (wp_for_each_next E (region root "staged") (fun g d v => loop_ok d g v /\ frame group_pass_files w v)
    (group_step (merged_path dir run) (types_path dir run)) _ st stream w1).
  - eapply stream_ready_frame; [exact Hst|exact Hf1|]. intros p [-> | ->] Hp%region_slot;
      [eapply (slots_apart _ _ "s" "m")|eapply (slots_apart _ _ "s" "n")]; try done;
      [apply merged_slot|apply types_slot].
  - split.
    + split; try done; [apply wp_new_json|..].
      * unfold w1. simpl. rewrite lookup_insert_ne; [apply lookup_insert_eq|]. intros Heq.
        eapply (slots_apart dir run "m" "n"); [apply merged_slot|rewrite <- Heq; apply types_slot|done].
      * unfold w1. simpl. apply lookup_insert_eq.
    + eapply frame_weaken; [|exact Hf1]. unfold group_pass_files, group_files. tauto.
  - intros g d v v' Hf [Hg Hfr]. split.
    + eapply groups_ok_frame; [exact Hg|exact Hf|]. intros p Hp. by apply region_slot in Hp.
    + etrans; [exact Hfr|]. eapply frame_weaken; [|exact Hf]. unfold group_pass_files. tauto.
  - intros g d r rest v Hsplit [Hg Hfr]. eapply wp_mono; [by eapply wp_group_step|].
    simpl. intros g' v' [Hg' Hf']. split.
    + split; [done|]. etrans; [exact Hfr|]. eapply frame_weaken; [|exact Hf']. unfold group_pass_files. tauto.
    + intros p Hp. apply Hf'. intros Hfp. by eapply files_not_staged.
  - intros g st' v [Hg Hfr] Hgone. eapply wp_mono; [by apply wp_close_groups|].
    simpl. intros g' v' [Hg' Hf']. split_and!; [done| |].
    + eapply gone_frame; [exact Hgone|exact Hf'|]. intros p. apply files_not_staged.
    + etrans; [exact Hfr|]. eapply frame_weaken; [|exact Hf']. unfold group_pass_files. tauto.
Qed.
End GroupLoop.
