(* ===== verification/StagingResolve.v ===== *)
(** * Resolving the ends of edges

    The second pass of [finish] walks the sorted requests and the sorted tables of nodes
    side by side.  It gives every end its table, or fails with the first end that no
    partition declares. *)
From S2P Require Import Prelude Order Text Json Hash Protocol Rows StagedRows Disk Spill StreamLaws SpoolLaws Sinks SinkLaws Staging StagingSpec StagingFrames StagingLaws.

Definition resolved_of (types : list (string * string)) (r : EndpointRequest) : ResolvedEndpoint := {|
  re_relation := er_relation r; re_edge_id := er_edge_id r; re_side := er_side r;
  re_node_type := default "" (table_of types (er_node_id r))
|}.

Lemma request_key_node x y :
  le_b (request_sort_key x) (request_sort_key y) = true -> le_b (er_node_id x) (er_node_id y) = true.
Proof.
  unfold le_b, request_sort_key, RequestKey. rewrite !cmp_prod. by destruct (cmp (er_node_id x) (er_node_id y)).
Qed.

(** Looking up where the walk stands. *)
Lemma table_of_walk dropped rest id :
  StrictlySorted (fst <$> dropped ++ rest) -> Forall (fun t => lt_b t.1 id = true) dropped ->
  (forall t, head rest = Some t -> lt_b t.1 id = false) ->
  table_of (dropped ++ rest) id =
    match head rest with Some t => if String.eqb t.1 id then Some t.2 else None | None => None end.
Proof.
  intros Hs Hd Hh. unfold table_of.
  assert (List.find (fun t : string * string => String.eqb t.1 id) (dropped ++ rest)
    = List.find (fun t => String.eqb t.1 id) rest) as ->.
  { clear Hs. induction Hd as [|t dropped Ht Hd IH]; [done|]. simpl.
    destruct (String.eqb_spec t.1 id) as [He|]; [|done]. by rewrite He, lt_b_irrefl in Ht. }
  destruct rest as [|t rest]; [done|]. simpl. destruct (String.eqb_spec t.1 id) as [|Hne]; [done|].
  assert (List.find (fun t => String.eqb t.1 id) rest = None) as ->; [|done].
  specialize (Hh t eq_refl). unfold StrictlySorted in Hs. rewrite fmap_app in Hs.
  apply sorting.StronglySorted_app_1_r in Hs. inversion Hs as [|? ? _ Hf]; subst.
  clear Hd Hs. induction rest as [|u rest IH]; [done|]. inversion Hf as [|? ? Hu Hf']; subst. simpl.
  destruct (String.eqb_spec u.1 id) as [<-|]; [|by apply IH]. congruence.
Qed.

Section Resolve.
Context `{StagingCodecs} (E : abort -> Prop) (dir run : string) (limit olimit : Z).
Local Abbreviation root := (root dir run).
Local Abbreviation types_path := (types_path dir run).
Context (types : list (string * string)) (edges : list (string * string * EdgeStagedRow)).
Local Abbreviation sorted_requests := (sort_by_key request_sort_key (requests edges)).

Record resolve_fit : Prop := {
  vf_sorted : StrictlySorted (fst <$> types);
  vf_types : Forall storable (rt_of <$> types);
  vf_few : few (requests edges);
  vf_resolved : Forall (fits limit) (resolved_of types <$> requests edges);
  vf_missing m : missing types (requests edges) = Some m -> E (Failed (missing_error m))
}.

(** Reading the file of types when [rest] is left. *)
Definition reading (rest : list (string * string)) : option ResolvedNodeType * list Z :=
  (rt_of <$> head rest, record_file (rt_of <$> tail rest)).

Lemma wp_next_type rest w (Q : option ResolvedNodeType * list Z -> World -> Prop) :
  Forall storable (rt_of <$> rest) -> Q (reading rest) w ->
  wp (next_node_type (record_file (rt_of <$> rest))) w E Q.
Proof.
  intros Hst HQ. unfold next_node_type. apply wp_bind. destruct rest as [|t rest].
  - eapply wp_try; [done|]. by apply wp_ret.
  - rewrite fmap_cons in *. apply Forall_cons in Hst as [Ht _].
    eapply wp_try; [by apply read_next_record|]. by apply wp_ret.
Qed.

Lemma wp_skip fuel id rest w (Q : option ResolvedNodeType * list Z -> World -> Prop) :
  Forall storable (rt_of <$> rest) -> length rest < fuel ->
  (forall dropped rest', rest = dropped ++ rest' -> Forall (fun t => lt_b t.1 id = true) dropped ->
     (forall t, head rest' = Some t -> lt_b t.1 id = false) -> Q (reading rest') w) ->
  wp (skip_node_types fuel id (reading rest).1 (reading rest).2) w E Q.
Proof.
  revert fuel Q. induction rest as [|t rest IH]; intros fuel Q Hst Hfuel HQ;
    (destruct fuel as [|fuel]; [lia|]); cbn [skip_node_types reading head fmap option_fmap option_map fst snd].
  - apply wp_ret. by apply (HQ [] []).
  - cbn [rt_of rt_id]. destruct (lt_b t.1 id) eqn:Et.
    + rewrite fmap_cons in Hst. apply Forall_cons in Hst as [Ht Hst]. apply wp_bind.
      cbn [tail]. apply wp_next_type; [done|]. apply IH; [done|simpl in Hfuel; lia|].
      intros dropped rest' -> Hd Hh. apply (HQ (t :: dropped)); [done|by constructor|done].
    + apply wp_ret. apply (HQ [] (t :: rest)); [done|done|]. by intros ? [= <-].
Qed.

(** After the requests [d]: the tables that are behind, and the resolved ends. *)
Definition resolve_ok (d : list EndpointRequest) (s : ResolveState) w : Prop :=
  (exists dropped rest, types = dropped ++ rest /\
    (current_node_type s, node_type_reader s) = reading rest /\
    Forall (fun t => exists e, e ∈ d /\ lt_b t.1 (er_node_id e) = true) dropped) /\
  Forall (fun e => is_Some (table_of types (er_node_id e))) d /\
  spool_holds limit (resolved_endpoints s) (resolved_of types <$> d) w /\
  spool_region (resolved_endpoints s) = region root "resolved-endpoints".

Lemma sorted_requests_before d e rest :
  sorted_requests = d ++ e :: rest -> Forall (fun x => le_b (er_node_id x) (er_node_id e) = true) d.
Proof.
  intros Hs. pose proof (sort_by_key_sorted request_sort_key (requests edges)) as Hsort. rewrite Hs in Hsort.
  apply Forall_forall. intros x Hx. apply request_key_node.
  by apply (sorted_before _ _ _ _ _ Hsort).
Qed.

Lemma find_first {A} (f : A -> bool) d x rest :
  Forall (fun y => f y = false) d -> f x = true -> List.find f (d ++ x :: rest) = Some x.
Proof. induction 1 as [|y d Hy Hd IH]; intros Hx; simpl; [by rewrite Hx|]. rewrite Hy. by apply IH. Qed.

Lemma wp_resolve_step d e rest s w :
  resolve_fit -> sorted_requests = d ++ e :: rest -> resolve_ok d s w ->
  wp (resolve_step s e) w E (fun s' w' => resolve_ok (d ++ [e]) s' w' /\
    frame (region root "resolved-endpoints") w w').
Proof.
  intros Hfit Hs ((dropped & left_ & Htypes & Hread & Hbehind) & Hfound & Hspool & Hreg).
  pose proof (sorted_requests_before _ _ _ Hs) as Hle. unfold resolve_step. apply wp_bind.
  assert (current_node_type s = (reading left_).1 /\ node_type_reader s = (reading left_).2) as [-> ->]
    by (by rewrite <- Hread).
  pose proof (vf_types Hfit) as Hst. rewrite Htypes, fmap_app in Hst. apply Forall_app in Hst as [_ Hst].
  apply wp_skip; [done| |].
  { pose proof (length_record_file (rt_of <$> tail left_)) as Hlen. rewrite length_fmap in Hlen.
    destruct left_; simpl in *; lia. }
  intros skipped rest' -> Hskip Hhead. rewrite app_assoc in Htypes.
  assert (Forall (fun t => lt_b t.1 (er_node_id e) = true) (dropped ++ skipped)) as Hall.
  { apply Forall_app. split; [|done]. eapply Forall_impl; [exact Hbehind|]. intros t (x & Hx & Hlt).
    rewrite Forall_forall in Hle. specialize (Hle x Hx). rewrite lt_b_le_b in Hlt |- *.
    destruct (le_b (er_node_id e) t.1) eqn:Et; [|done].
    by rewrite (le_b_trans _ _ _ Hle Et) in Hlt. }
  pose proof (vf_sorted Hfit) as Hstrict. rewrite Htypes in Hstrict.
  pose proof (table_of_walk _ _ _ Hstrict Hall Hhead) as Hlook. rewrite <- Htypes in Hlook.
  apply wp_bind. cbn [reading fst snd].
  destruct (table_of types (er_node_id e)) as [table|] eqn:Etable.
  2: { eapply wp_try_err.
       - destruct (head rest') as [t|]; [|done]. cbn [fmap option_fmap option_map rt_of rt_id].
         by destruct (String.eqb t.1 (er_node_id e)).
       - apply (vf_missing Hfit). unfold missing. rewrite Hs. apply find_first; [|by rewrite Etable].
         eapply Forall_impl; [exact Hfound|]. by intros x [t ->]. }
  destruct (head rest') as [t|] eqn:Et; [|done].
  destruct (String.eqb t.1 (er_node_id e)) eqn:Eid; [|done]. injection Hlook as Ht.
  eapply wp_try.
  { cbn [fmap option_fmap option_map rt_of rt_id]. by rewrite Eid. }
  assert ({| re_relation := er_relation e; re_edge_id := er_edge_id e; re_side := er_side e;
             re_node_type := rt_table (rt_of t) |} = resolved_of types e) as ->.
  { unfold resolved_of. by rewrite Etable, Ht. }
  assert (e ∈ requests edges /\ forall n, n = length (d ++ [e]) -> n <= length (requests edges)) as [He Hn].
  { pose proof (sort_by_key_perm request_sort_key (requests edges)) as Hp. rewrite Hs in Hp. split.
    - rewrite <- Hp. set_solver.
    - intros n ->. rewrite <- Hp, !length_app. simpl. lia. }
  apply wp_bind. eapply wp_mono.
  { apply (wp_push limit); [exact Hspool| |].
    - pose proof (vf_resolved Hfit) as Hf. rewrite Forall_forall in Hf. apply Hf. by apply list_elem_of_fmap_2.
    - pose proof (vf_few Hfit) as Hfew. unfold few in *. specialize (Hn _ eq_refl).
      rewrite length_app in Hn |- *. rewrite length_fmap. simpl in *. lia. }
  intros spool w' (Hspool' & Hsame & Hf). apply wp_ret. rewrite Hreg in Hf. split; [|done].
  split_and!.
  - exists (dropped ++ skipped), rest'. cbn. split_and!; [done|by unfold reading; rewrite Et|].
    apply Forall_app. split.
    + eapply Forall_impl; [exact Hbehind|]. intros u (x & Hx & Hlt). exists x. set_solver.
    + eapply Forall_impl; [exact Hskip|]. intros u Hlt. exists e. set_solver.
  - apply Forall_app. split; [done|]. by repeat constructor.
  - by rewrite fmap_app.
  - cbn. by rewrite (same_spool_region _ _ Hsame).
Qed.

(** The files of this pass. *)
Definition resolve_files (p : string) : Prop :=
  region root "endpoints" p \/ region root "resolved-endpoints" p \/ p = types_path.

Lemma resolved_slot p : region root "resolved-endpoints" p -> slot root "r" p.
Proof. apply region_slot. Qed.

Lemma missing_none_iff : missing types (requests edges) = None <->
  Forall (fun e => is_Some (table_of types (er_node_id e))) (requests edges).
Proof.
  unfold missing. rewrite <- (sort_by_key_perm request_sort_key (requests edges)) at 2.
  induction sorted_requests as [|e l IH]; [done|]. simpl.
  destruct (table_of types (er_node_id e)) as [t|] eqn:Et.
  - rewrite IH, Forall_cons, Et. split; [intros ?; by split|by intros [_ ?]].
  - split; [done|]. intros Hf%Forall_inv. rewrite Et in Hf. by destruct Hf.
Qed.

Lemma wp_resolve_pass a s w :
  placed dir run limit olimit a -> (0 < limit)%Z -> resolve_fit ->
  spool_holds limit s (requests edges) w -> spool_region s = region root "endpoints" ->
  disk w !! types_path = Some (record_file (rt_of <$> types)) -> gone (region root "resolved-endpoints") w ->
  wp (resolve_pass a s) w E (fun s' w' =>
    missing types (requests edges) = None /\
    spool_holds limit s' (resolved_of types <$> sorted_requests) w' /\
    spool_region s' = region root "resolved-endpoints" /\
    gone (region root "endpoints") w' /\ disk w' !! types_path = None /\ frame resolve_files w w').
Proof.
  intros (Hd & Hr & Hl & Hol) Hlim Hfit Hs Hreg Hfile Hclean.
  unfold resolve_pass, node_types_path. rewrite Hr, Hl. fold types_path.
  apply wp_bind. eapply wp_mono; [eapply wp_finish_ready; [exact Hs|apply (vf_few Hfit)]|].
  rewrite Hreg. intros st w1 [Hst Hf1].
  assert (disk w1 !! types_path = Some (record_file (rt_of <$> types))) as Hfile1.
  { eapply frame_lookup; [exact Hf1| |exact Hfile]. intros Hp%endpoints_slot.
    eapply (slots_apart _ _ "e" "n"); [exact Hp|apply types_slot|done]. }
  apply wp_bind. eapply wp_open; [exact Hfile1|].
  apply wp_bind, wp_next_type; [apply (vf_types Hfit)|].
  apply wp_bind. eapply wp_mono; [apply (wp_new_spool root "resolved-endpoints"); [done|]|].
  { intros p Hp. rewrite Hf1; [by apply Hclean|]. intros Hq%endpoints_slot.
    apply resolved_slot in Hp. by eapply (slots_apart _ _ "e" "r"). }
  intros spool w2 (-> & Hspool & Hsreg). apply wp_bind.
  apply (wp_for_each_next E (region root "endpoints") (fun s d v => resolve_ok d s v /\
    frame (fun p => region root "endpoints" p \/ region root "resolved-endpoints" p) w1 v)
    resolve_step _ st sorted_requests w1); [done| | | |].
  - split; [|done]. split_and!; try done. by exists [], types.
  - intros s0 d v v' Hf [(H1 & H2 & H3 & H4) Hfr]. split.
    + split_and!; try done. eapply spool_frame; [exact H3|exact Hf|]. intros p Hp. rewrite H4.
      intros Hq%resolved_slot. apply endpoints_slot in Hp. by eapply (slots_apart _ _ "e" "r").
    + etrans; [exact Hfr|]. eapply frame_weaken; [|exact Hf]. tauto.
  - intros s0 d e rest v Hsplit [Hok Hfr]. eapply wp_mono; [by eapply wp_resolve_step|].
    simpl. intros s1 v' [Hok' Hf']. split.
    + split; [done|]. etrans; [exact Hfr|]. eapply frame_weaken; [|exact Hf']. tauto.
    + intros p Hp. apply Hf'. intros Hq%resolved_slot. apply endpoints_slot in Hp.
      by eapply (slots_apart _ _ "e" "r").
  - intros s1 st' v [(_ & Hall & Hsp & Hsr) Hfr] Hgone.
    assert (frame (region root "endpoints") w w1 /\ ~ (region root "endpoints" types_path \/
      region root "resolved-endpoints" types_path)) as [_ Hnot].
    { split; [done|]. intros [Hp%endpoints_slot|Hp%resolved_slot];
        (eapply slots_apart; [exact Hp|apply types_slot|done]). }
    apply wp_bind. eapply wp_remove; [by eapply frame_lookup|]. apply wp_ret. cbn [fst].
    assert (frame (fun p => p = types_path) v (set_disk v (delete types_path (disk v)))) as Hf2.
    { intros p Hp. simpl. by rewrite lookup_delete_ne by congruence. }
    split_and!.
    + apply missing_none_iff. by rewrite <- (sort_by_key_perm request_sort_key (requests edges)).
    + eapply spool_frame; [exact Hsp|exact Hf2|]. intros p ->. rewrite Hsr. tauto.
    + done.
    + eapply gone_frame; [exact Hgone|exact Hf2|]. intros p -> Hp. tauto.
    + simpl. apply lookup_delete_eq.
    + etrans; [eapply frame_weaken; [|exact Hf1]; unfold resolve_files; tauto|].
      etrans; (eapply frame_weaken; [|eassumption]); unfold resolve_files; intros p; tauto.
Qed.
End Resolve.
