(* ===== verification/StagingEdges.v ===== *)
(** * Filtering the merged edges, counting them and writing connectors

    The third pass of [finish] reads the merged edges next to their resolved ends, which
    come in the same order, and keeps the edges that the declared schema allows: their
    rows, their identifiers, and the connectors at their ends.  The last passes read sorted
    streams and skip what repeats the record before: the first counts the different
    identifiers, the second writes every connector, as connectors never repeat. *)
From S2P Require Import Prelude Order Text Json Hash Protocol Rows StagedRows Disk Spill StreamLaws SpoolLaws Sinks SinkLaws Staging StagingSpec StagingFrames StagingLaws StagingResolve.

Section Order.
Context (types : list (string * string)).
Implicit Types (edges : list (string * string * EdgeStagedRow)).

Lemma resolved_le e e' side side' :
  lt_b e.1 e'.1 = true ->
  le_b (resolved_sort_key (resolved_of types (request_of e side)))
       (resolved_sort_key (resolved_of types (request_of e' side'))) = true.
Proof.
  destruct e as [[t i] row], e' as [[t' i'] row']. unfold lt_b, le_b, resolved_sort_key, ResolvedKey.
  cbn. rewrite !cmp_prod. by destruct (then_with (cmp t t') (cmp i i')).
Qed.

Lemma resolved_requests_sorted edges :
  StrictlySorted (fst <$> edges) ->
  SortedBy (fun x y => le_b (resolved_sort_key x) (resolved_sort_key y)) (resolved_of types <$> requests edges).
Proof.
  unfold StrictlySorted, SortedBy. induction edges as [|e edges IH]; intros Hs; [constructor|].
  inversion Hs as [|? ? Hs' Hf]; subst. specialize (IH Hs').
  change (requests (e :: edges)) with (request_of e Source :: request_of e Target :: requests edges).
  rewrite !fmap_cons.
  assert (forall side, Forall (fun y => le_b (resolved_sort_key (resolved_of types (request_of e side)))
    (resolved_sort_key y) = true) (resolved_of types <$> requests edges)) as Hall.
  { intros side. apply Forall_fmap, Forall_forall. intros r Hr. simpl.
    unfold requests in Hr. apply elem_of_concat in Hr as (pair & Hr & (e' & -> & He')%list_elem_of_fmap).
    rewrite Forall_forall in Hf. specialize (Hf e'.1 (list_elem_of_fmap_2 fst _ _ He')).
    rewrite !elem_of_cons, elem_of_nil in Hr. destruct Hr as [->|[->|[]]]; by apply resolved_le. }
  constructor; [constructor; [exact IH|apply Hall]|]. constructor; [|apply Hall].
  unfold le_b, resolved_sort_key, ResolvedKey. cbn. rewrite !cmp_prod.
  destruct e as [[t i] row]. cbn. by rewrite (proj2 (cmp_eq t t) eq_refl), (proj2 (cmp_eq i i) eq_refl).
Qed.

(** The requests of strictly sorted edges differ in what the resolved ends are sorted by. *)
Lemma resolved_keys_differ edges x y :
  StrictlySorted (fst <$> edges) ->
  x ∈ resolved_of types <$> requests edges -> y ∈ resolved_of types <$> requests edges ->
  resolved_sort_key x = resolved_sort_key y -> x = y.
Proof.
  intros Hs%strict_NoDup (r & -> & Hr)%list_elem_of_fmap (r' & -> & Hr')%list_elem_of_fmap Hk.
  assert (forall r, r ∈ requests edges -> exists e side, e ∈ edges /\ r = request_of e side) as Hin.
  { intros q Hq. unfold requests in Hq. apply elem_of_concat in Hq as (pair & Hq & (e & -> & He)%list_elem_of_fmap).
    rewrite !elem_of_cons, elem_of_nil in Hq. destruct Hq as [->|[->|[]]]; eauto. }
  destruct (Hin _ Hr) as (e & side & He & ->), (Hin _ Hr') as (e' & side' & He' & ->).
  unfold resolved_sort_key in Hk. simpl in Hk. injection Hk as Ht Hi <-.
  assert (e.1 = e'.1) as Heq by (destruct e as [[] ?], e' as [[] ?]; simpl in *; congruence).
  apply list_elem_of_lookup in He as [i Hi'], He' as [j Hj].
  assert (i = j) as ->; [|by rewrite Hi' in Hj; injection Hj as ->].
  eapply NoDup_lookup; [exact Hs|by rewrite list_lookup_fmap, Hi'|by rewrite list_lookup_fmap, Hj, Heq].
Qed.

(** Sorted by edge, the resolved ends come as the edges do. *)
Lemma sort_resolved edges :
  StrictlySorted (fst <$> edges) ->
  sort_by_key resolved_sort_key (resolved_of types <$> sort_by_key request_sort_key (requests edges)) =
    resolved_of types <$> requests edges.
Proof.
  intros Hs. eapply (sorted_perm_eq (fun x y => le_b (resolved_sort_key x) (resolved_sort_key y))).
  - intros x y Hx Hy H1 H2.
    assert (sort_by_key resolved_sort_key (resolved_of types <$> sort_by_key request_sort_key (requests edges))
      ≡ₚ resolved_of types <$> requests edges) as Hp by (by rewrite sort_by_key_perm, sort_by_key_perm).
    rewrite Hp in Hx, Hy.
    eapply resolved_keys_differ; [exact Hs|exact Hx|exact Hy|by apply le_b_antisym].
  - apply sort_by_key_sorted.
  - by apply resolved_requests_sorted.
  - by rewrite sort_by_key_perm, sort_by_key_perm.
Qed.
End Order.

Section Edges.
Context `{StagingCodecs} (E : abort -> Prop) (dir run : string) (limit olimit : Z).
Local Abbreviation root := (root dir run).
Local Abbreviation merged_path := (merged_path dir run).
Context (c : RelationConstraints) (types : list (string * string)) (edges : list (string * string * EdgeStagedRow)).

Definition kept (l : list (string * string * EdgeStagedRow)) := List.filter (accepted c types) l.
Definition identity_of (e : string * string * EdgeStagedRow) : EdgeIdentity := {| ei_id := e.1.2 |}.
Local Abbreviation edge_chunks := (table_chunks olimit (by_table <$> kept edges)).

Record edges_fit : Prop := {
  xf_sorted : StrictlySorted (fst <$> edges);
  xf_merged : Forall storable (me_of <$> edges);
  xf_few : few (requests edges);
  xf_room : json_room (by_table <$> kept edges);
  xf_paths : NoDup (table_path dir <$> edge_chunks);
  xf_connectors : Forall (fits limit) (connectors_of types (kept edges));
  xf_identities : Forall (fits limit) (identity_of <$> kept edges)
}.

Lemma kept_app l l' : kept (l ++ l') = kept l ++ kept l'.
Proof. apply List.filter_app. Qed.

Lemma connectors_app l l' : connectors_of types (l ++ l') = connectors_of types l ++ connectors_of types l'.
Proof. unfold connectors_of. by rewrite fmap_app, concat_app. Qed.

Lemma length_connectors l : length (connectors_of types l) = length (requests l).
Proof. unfold connectors_of, requests. induction l as [|e l IH]; [done|].
  by apply (f_equal (fun n => S (S n))). Qed.

Lemma length_requests l : length (requests l) = 2 * length l.
Proof.
  induction l as [|e l IH]; [done|].
  change (length (requests (e :: l))) with (S (S (length (requests l)))). rewrite IH. simpl. lia.
Qed.

Lemma length_kept l : length (kept l) <= length l.
Proof. unfold kept. apply List.filter_length_le. Qed.

(** What is stored of a part of the edges is little. *)
Lemma kept_few l l' : few (requests (l ++ l')) ->
  few (connectors_of types (kept l)) /\ few (identity_of <$> kept l).
Proof.
  unfold few. rewrite length_connectors, length_fmap, !length_requests, length_app.
  pose proof (length_kept l). lia.
Qed.

(** Taking the two ends of the next edge. *)
Lemma wp_take st r l w (Q : ResolvedEndpoint * SortedStream ResolvedEndpoint ResolvedKey -> World -> Prop) :
  yields st (r :: l) ->
  (forall st' w', disk w' = disk w -> same_inputs st st' -> yields st' l -> Q (r, st') w') ->
  wp (take_resolved_endpoint st (re_relation r) (re_edge_id r) (re_side r)) w E Q.
Proof.
  intros Hy HQ. unfold take_resolved_endpoint. apply wp_bind.
  eapply wp_mono; [by apply wp_next|]. intros [o st'] w' (Ho & Hd & Hsame & Hy'). cbn [fst snd] in *. subst o.
  apply wp_bind. eapply wp_try; [done|]. rewrite !String.eqb_refl, bool_decide_true by done.
  apply wp_ret. by apply HQ.
Qed.

(** The files of this pass. *)
Definition edge_out_files (p : string) : Prop :=
  p ∈ table_path dir <$> edge_chunks \/ region root "connectors" p \/ region root "accepted-edge-ids" p.

(** [st0] is the stream of resolved ends at the start. *)
Record edges_ok (st0 : SortedStream ResolvedEndpoint ResolvedKey) (d rest : list (string * string * EdgeStagedRow))
    (s : EdgeState) w : Prop := {
  xo_stream : yields (x_resolved s) (resolved_of types <$> requests rest);
  xo_inputs : same_inputs st0 (x_resolved s);
  xo_edges : json_holds dir olimit (x_edges s) (by_table <$> kept d) w;
  xo_connectors : spool_holds limit (x_connectors s) (connectors_of types (kept d)) w;
  xo_connector_region : spool_region (x_connectors s) = region root "connectors";
  xo_accepted : spool_holds limit (x_accepted s) (identity_of <$> kept d) w;
  xo_accepted_region : spool_region (x_accepted s) = region root "accepted-edge-ids"
}.

Lemma connectors_slot p : region root "connectors" p -> slot root "c" p.
Proof. apply region_slot. Qed.
Lemma accepted_slot p : region root "accepted-edge-ids" p -> slot root "a" p.
Proof. apply region_slot. Qed.

Lemma wp_edge_step st0 d e rest s w :
  edges_fit -> edges = d ++ e :: rest -> edges_ok st0 d (e :: rest) s w ->
  wp (edge_step c s (me_of e)) w E (fun s' w' => edges_ok st0 (d ++ [e]) rest s' w' /\ frame edge_out_files w w').
Proof.
  intros Hfit Hsplit [Hstream Hinputs Hedges Hconn Hcreg Hacc Hareg]. unfold edge_step.
  change (requests (e :: rest)) with (request_of e Source :: request_of e Target :: requests rest) in Hstream.
  rewrite !fmap_cons in Hstream.
  apply wp_bind, (wp_take _ (resolved_of types (request_of e Source)) _ _ _ Hstream).
  intros st1 w1 Hd1 Hsame1 Hy1. cbn [fst snd].
  apply wp_bind, (wp_take _ (resolved_of types (request_of e Target)) _ _ _ Hy1).
  intros st2 w2 Hd2 Hsame2 Hy2. cbn [fst snd].
  assert (disk w2 = disk w) as Hd by congruence.
  assert (same_inputs st0 st2) as Hin.
  { unfold same_inputs in *. destruct Hinputs, Hsame1, Hsame2. split; congruence. }
  assert (json_holds dir olimit (x_edges s) (by_table <$> kept d) w2) as Hedges2
    by by eapply json_same_disk.
  change (constraint_allows c (me_table (me_of e)) _ _) with (accepted c types e).
  assert (kept (d ++ [e]) = kept d ++ (if accepted c types e then [e] else [])) as Hkept
    by (rewrite kept_app; cbn [kept List.filter]; by destruct (accepted c types e)).
  destruct (accepted c types e) eqn:Ea; cbn [negb].
  2: { apply wp_ret. rewrite app_nil_r in Hkept. split; [|by intros p _; rewrite Hd].
       split; cbn [x_edges x_connectors x_accepted x_resolved]; rewrite ?Hkept; try done;
         by eapply spool_same_disk. }
  assert (kept edges = (kept d ++ [e]) ++ kept rest) as Hall
    by (by rewrite <- Hkept, <- kept_app, <- app_assoc, Hsplit).
  pose proof (xf_room Hfit) as Hroom. pose proof (xf_paths Hfit) as Hnd. rewrite Hall, fmap_app in Hroom, Hnd.
  destruct (table_prefix _ _ _ _ Hroom Hnd) as (Hroom' & Hnd' & Hsub). rewrite fmap_app in Hroom', Hnd', Hsub.
  apply wp_bind. eapply wp_mono; [eapply wp_json_push; [exact Hedges2|exact Hroom'|exact Hnd']|].
  intros sink w3 [Hsink Hf3].
  assert (frame (output_path dir) w2 w3) as Ho3.
  { eapply frame_weaken; [|exact Hf3]. intros p (ch & -> & _)%list_elem_of_fmap. apply table_path_output. }
  assert (few (requests ((d ++ [e]) ++ rest))) as Hfew by (rewrite <- app_assoc; simpl; rewrite <- Hsplit; apply (xf_few Hfit)).
  apply kept_few in Hfew as [Hfewc Hfewa]. rewrite Hkept in Hfewc, Hfewa.
  pose proof (xf_connectors Hfit) as Hfc. pose proof (xf_identities Hfit) as Hfi.
  rewrite Hall, !connectors_app in Hfc. rewrite Hall, !fmap_app in Hfi.
  rewrite connectors_app in Hfewc. rewrite fmap_app in Hfewa.
  apply Forall_app in Hfi as [Hfi _]. apply Forall_app in Hfi as [_ Hfi]. apply Forall_inv in Hfi.
  apply Forall_app in Hfc as [Hfc _]. apply Forall_app in Hfc as [_ Hfc].
  change (connectors_of types [e]) with ([connector_of types e Source] ++ [connector_of types e Target]) in Hfc, Hfewc.
  apply Forall_app in Hfc as [Hfc1 Hfc2]. apply Forall_inv in Hfc1, Hfc2. rewrite app_assoc in Hfewc.
  (* the identifier *)
  assert (spool_holds limit (x_accepted s) (identity_of <$> kept d) w3) as Hacc3.
  { eapply spool_frame; [eapply spool_same_disk; [exact Hacc|exact Hd]|exact Ho3|].
    intros p Hp. rewrite Hareg. intros Hq%accepted_slot. by eapply output_apart. }
  apply wp_bind. eapply wp_mono; [eapply wp_push; [exact Hacc3|exact Hfi|exact Hfewa]|].
  intros acc w4 (Hacc4 & Hsame4 & Hf4). rewrite Hareg in Hf4.
  (* the connectors *)
  assert (spool_holds limit (x_connectors s) (connectors_of types (kept d)) w4) as Hconn4.
  { eapply spool_frame; [eapply spool_frame; [eapply spool_same_disk; [exact Hconn|exact Hd]|exact Ho3|]|exact Hf4|].
    all: intros p Hp; rewrite Hcreg; intros Hq%connectors_slot.
    - by eapply output_apart.
    - apply accepted_slot in Hp. by eapply (slots_apart _ _ "c" "a"). }
  apply wp_bind. eapply wp_mono.
  { eapply wp_push; [exact Hconn4|exact Hfc1|by eapply few_app]. }
  intros conn w5 (Hconn5 & Hsame5 & Hf5). rewrite Hcreg in Hf5.
  apply wp_bind. eapply wp_mono.
  { eapply wp_push; [exact Hconn5|exact Hfc2|exact Hfewc]. }
  intros conn' w6 (Hconn6 & Hsame6 & Hf6). rewrite (same_spool_region _ _ Hsame5), Hcreg in Hf6.
  assert (frame (region root "connectors") w4 w6) as Hf46 by by etrans.
  apply wp_ret. split.
  - split; cbn [x_edges x_connectors x_accepted x_resolved]; try done.
    + rewrite Hkept, fmap_app. eapply json_holds_frame; [eapply json_holds_frame; [exact Hsink|exact Hf4|]|exact Hf46|].
      all: intros p Hp Hout; first [apply accepted_slot in Hp|apply connectors_slot in Hp]; by eapply output_apart.
    + rewrite Hkept, connectors_app. by rewrite <- app_assoc in Hconn6.
    + by rewrite (same_spool_region _ _ Hsame6), (same_spool_region _ _ Hsame5).
    + rewrite Hkept, fmap_app. eapply spool_frame; [exact Hacc4|exact Hf46|].
      intros p Hp. rewrite (same_spool_region _ _ Hsame4), Hareg. intros Hq%accepted_slot.
      apply connectors_slot in Hp. by eapply (slots_apart _ _ "c" "a").
    + by rewrite (same_spool_region _ _ Hsame4).
  - intros p Hp. unfold edge_out_files in Hp. rewrite Hf46 by tauto. rewrite Hf4 by tauto. rewrite Hf3, Hd; [done|].
    intros Hq. apply Hp. left. rewrite Hall, !fmap_app. apply Hsub. exact Hq.
Qed.

Definition edge_pass_files (p : string) : Prop :=
  edge_out_files p \/ region root "resolved-endpoints" p \/ p = merged_path.

Lemma edge_out_slots p : edge_out_files p -> output_path dir p \/ slot root "c" p \/ slot root "a" p.
Proof.
  intros [(ch & -> & _)%list_elem_of_fmap|[Hp|Hp]].
  - left. apply table_path_output.
  - right. left. by apply connectors_slot.
  - right. right. by apply accepted_slot.
Qed.

Lemma wp_edge_pass a s w :
  placed dir run limit olimit a -> (0 < limit)%Z -> relation_constraints a = c -> edges_fit ->
  spool_holds limit s (resolved_of types <$> sort_by_key request_sort_key (requests edges)) w ->
  spool_region s = region root "resolved-endpoints" ->
  disk w !! merged_path = Some (record_file (me_of <$> edges)) ->
  gone (region root "connectors") w -> gone (region root "accepted-edge-ids") w ->
  wp (edge_pass a s) w E (fun x w' => disk w' !! merged_path = None /\ frame edge_pass_files w w' /\
    exists st0 l, edges_ok st0 edges [] x w' /\ stream_ready (region root "resolved-endpoints") st0 l w').
Proof.
  intros (Hd & Hr & Hl & Hol) Hlim Hc Hfit Hs Hreg Hfile Hcc Hca.
  unfold edge_pass, merged_edges_path. rewrite Hd, Hr, Hl, Hol, Hc. fold merged_path.
  apply wp_bind. eapply wp_mono.
  { eapply wp_finish_ready; [exact Hs|]. unfold few. rewrite length_fmap, sort_by_key_perm. apply (xf_few Hfit). }
  change (@sort_key ResolvedEndpoint ResolvedKey _) with resolved_sort_key.
  rewrite (sort_resolved _ _ (xf_sorted Hfit)), Hreg. intros st w1 [Hst Hf1].
  assert (forall p, region root "resolved-endpoints" p -> slot root "r" p) as Hslot by apply resolved_slot.
  apply wp_bind. eapply wp_open.
  { eapply frame_lookup; [exact Hf1| |exact Hfile]. intros Hp%Hslot.
    eapply (slots_apart _ _ "r" "m"); [exact Hp|apply merged_slot|done]. }
  apply wp_bind. eapply wp_mono; [apply (wp_new_spool root "connectors" limit w1); [done|]|].
  { intros p Hp. rewrite Hf1; [by apply Hcc|]. intros Hq%Hslot. apply connectors_slot in Hp.
    by eapply (slots_apart _ _ "r" "c"). }
  intros conn w2 (-> & Hconn & Hcreg).
  apply wp_bind. eapply wp_mono; [apply (wp_new_spool root "accepted-edge-ids" limit w1); [done|]|].
  { intros p Hp. rewrite Hf1; [by apply Hca|]. intros Hq%Hslot. apply accepted_slot in Hp.
    by eapply (slots_apart _ _ "r" "a"). }
  intros acc w2 (-> & Hacc & Hareg). apply wp_bind.
  apply (wp_for_each_record E (fun s d v => (exists rest, me_of <$> edges = d ++ (me_of <$> rest) /\
    exists pre, edges = pre ++ rest /\ d = me_of <$> pre /\ edges_ok st pre rest s v) /\ frame edge_out_files w1 v)).
  - apply (xf_merged Hfit).
  - split; [|done]. exists edges. split; [done|]. exists []. split_and!; [done..|].
    split; try done; [apply (sr_yields _ _ _ _ Hst)|apply wp_new_json].
  - intros s0 d r rest v Hsplit [(left_ & Heq & pre & Hpre & -> & Hok) Hfr].
    rewrite Hsplit in Heq. apply app_inv_head in Heq. destruct left_ as [|e left_]; [done|].
    injection Heq as -> ->. eapply wp_mono; [by eapply wp_edge_step|].
    simpl. intros s1 v' [Hok' Hf']. split; [|by etrans].
    assert (edges = (pre ++ [e]) ++ left_) as Hpre' by by rewrite <- app_assoc.
    exists left_. split; [by rewrite Hpre', !fmap_app|]. exists (pre ++ [e]). split_and!; [done|by rewrite fmap_app|done].
  - intros s1 v [(left_ & Heq & pre & Hpre & Hd' & Hok) Hfr].
    assert (left_ = []) as ->.
    { apply (f_equal length) in Heq. rewrite length_app, !length_fmap in Heq. destruct left_; [done|simpl in Heq; lia]. }
    rewrite app_nil_r in Hpre. subst pre.
    assert (~ edge_out_files merged_path) as Hnot.
    { intros [Ho|[Hp|Hp]]%edge_out_slots; [eapply output_apart; [exact Ho|apply merged_slot]|..];
        (eapply slots_apart; [exact Hp|apply merged_slot|done]). }
    apply wp_bind. eapply wp_remove.
    { eapply frame_lookup; [exact Hfr|done|]. eapply frame_lookup; [exact Hf1| |exact Hfile]. intros Hp%Hslot.
      eapply (slots_apart _ _ "r" "m"); [exact Hp|apply merged_slot|done]. }
    apply wp_ret.
    assert (frame (fun p => p = merged_path) v (set_disk v (delete merged_path (disk v)))) as Hf2.
    { intros p Hp. simpl. by rewrite lookup_delete_ne by congruence. }
    split_and!; [simpl; apply lookup_delete_eq| |].
    + etrans; [eapply frame_weaken; [|exact Hf1]; unfold edge_pass_files; tauto|].
      etrans; (eapply frame_weaken; [|eassumption]); unfold edge_pass_files; intros p; tauto.
    + exists st, (resolved_of types <$> requests edges). split.
      * destruct Hok. split; try done.
        -- eapply json_holds_frame; [eassumption|exact Hf2|]. intros p -> Ho. eapply output_apart; [exact Ho|apply merged_slot].
        -- eapply spool_frame; [eassumption|exact Hf2|]. intros p ->. rewrite xo_connector_region0.
           intros Hq%connectors_slot. eapply (slots_apart _ _ "c" "m"); [exact Hq|apply merged_slot|done].
        -- eapply spool_frame; [eassumption|exact Hf2|]. intros p ->. rewrite xo_accepted_region0.
           intros Hq%accepted_slot. eapply (slots_apart _ _ "a" "m"); [exact Hq|apply merged_slot|done].
      * eapply stream_ready_frame; [eapply stream_ready_frame; [exact Hst|exact Hfr|]|exact Hf2|].
        -- intros p [Ho|[Hp|Hp]]%edge_out_slots Hq%Hslot; [by eapply output_apart|..]; (eapply slots_apart; [exact Hp|exact Hq|done]).
        -- intros p -> Hq%Hslot. eapply (slots_apart _ _ "r" "m"); [exact Hq|apply merged_slot|done].
Qed.
End Edges.


(** In a sorted list a key that comes again is the key of the last element. *)
Lemma sorted_repeat {A K} `{OrdLaws K} (key : A -> K) d x rest :
  SortedBy (fun x y => le_b (key x) (key y)) (d ++ x :: rest) -> key x ∈ key <$> d ->
  key <$> last d = Some (key x).
Proof.
  intros Hs (y & Hk & Hy)%list_elem_of_fmap. destruct d as [|z d _] using rev_ind; [by apply elem_of_nil in Hy|].
  rewrite last_snoc. simpl. f_equal.
  assert (le_b (key z) (key x) = true) as Hzx by (apply (sorted_before _ _ _ _ _ Hs); set_solver).
  apply elem_of_app in Hy as [Hy| ->%list_elem_of_singleton]; [|done].
  assert (le_b (key y) (key z) = true) as Hyz.
  { rewrite <- app_assoc in Hs. by apply (sorted_before _ _ _ _ _ Hs). }
  rewrite <- Hk in Hyz. by apply le_b_antisym.
Qed.

Section Output.
Context `{StagingCodecs} (E : abort -> Prop) (dir run : string) (limit olimit : Z).
Local Abbreviation root := (root dir run).

(** The number of different identifiers. *)
Definition distinct (ids : list string) : nat := size (list_to_set (C := gset string) ids).

Lemma distinct_snoc ids id :
  distinct (ids ++ [id]) = if decide (id ∈ ids) then distinct ids else S (distinct ids).
Proof.
  unfold distinct. rewrite list_to_set_app_L. simpl. rewrite union_empty_r_L.
  case_decide as Hin.
  - f_equal. set_solver.
  - rewrite size_union by set_solver. rewrite size_singleton. lia.
Qed.

Lemma distinct_le ids : distinct ids <= length ids.
Proof.
  induction ids as [|id ids IH] using rev_ind; [done|]. rewrite distinct_snoc, length_app. simpl.
  case_decide; lia.
Qed.

Lemma distinct_perm ids ids' : ids ≡ₚ ids' -> distinct ids = distinct ids'.
Proof. intros Hp. unfold distinct. by rewrite (list_to_set_perm_L ids ids' Hp). Qed.

Lemma wp_count_pass s (l : list EdgeIdentity) w :
  spool_holds limit s l w -> few l -> spool_region s = region root "accepted-edge-ids" ->
  wp (count_pass s) w E (fun n w' => n = Z.of_nat (distinct (ei_id <$> l)) /\
    gone (region root "accepted-edge-ids") w' /\ frame (region root "accepted-edge-ids") w w').
Proof.
  intros Hs Hfew Hreg. unfold count_pass. apply wp_bind.
  eapply wp_mono; [by eapply wp_finish_ready|]. rewrite Hreg. intros st w1 [Hst Hf1].
  pose proof (sort_by_key_sorted ei_id l) as Hsorted. pose proof (sort_by_key_perm ei_id l) as Hperm.
  change (sort_by_key sort_key l) with (sort_by_key ei_id l) in Hst.
  set (sl := sort_by_key ei_id l) in *. apply wp_bind.
  apply (wp_for_each_next E (region root "accepted-edge-ids") (fun s d v =>
    s = (ei_id <$> last d, Z.of_nat (distinct (ei_id <$> d))) /\ frame (region root "accepted-edge-ids") w v)
    count_step _ st sl w1); [done| | | |].
  - split; [done|exact Hf1].
  - intros s0 d v v' Hf [-> Hfr]. split; [done|by etrans].
  - intros s0 d e rest v Hl [-> Hfr]. unfold count_step. cbn [fst snd].
    rewrite Hl in Hsorted.
    assert (distinct (ei_id <$> d ++ [e]) = if decide (ei_id e ∈ ei_id <$> d) then distinct (ei_id <$> d)
      else S (distinct (ei_id <$> d))) as Hcount by (rewrite fmap_app; apply distinct_snoc).
    case_bool_decide as Hlast.
    + apply wp_ret. split; [|done]. split; [|done]. rewrite last_snoc, Hcount, Hlast, decide_True; [done|].
      destruct (last d) as [y|] eqn:Ey; [|done]. simpl in Hlast. injection Hlast as <-.
      apply list_elem_of_fmap_2. by apply last_Some_elem_of in Ey.
    + rewrite decide_False in Hcount; [|intros Hin; by apply Hlast, (sorted_repeat ei_id _ _ _ Hsorted)].
      pose proof (distinct_le (ei_id <$> d)) as Hle. rewrite length_fmap in Hle.
      assert (length d <= length l) as Hlen by (rewrite <- Hperm, Hl, length_app; lia).
      unfold few in Hfew. apply wp_bind. eapply wp_checked.
      { apply checked_add_u64_Some. split; [done|]. unfold u64_max. lia. }
      apply wp_ret. split; [|done]. split; [|done]. rewrite last_snoc, Hcount. f_equal. lia.
  - intros s0 st' v [-> Hfr] Hgone. apply wp_ret. cbn [fst snd]. split_and!; [|done|done].
    f_equal. apply distinct_perm. by rewrite Hperm.
Qed.

(** ** Connectors *)
Lemma connectors_differ types edges :
  NoDup (fst <$> edges) -> NoDup (connector_sort_key <$> connectors_of types edges).
Proof.
  intros Hs. unfold connectors_of. induction edges as [|e edges IH]; [constructor|].
  rewrite fmap_cons in Hs. apply NoDup_cons in Hs as [Hn Hs]. specialize (IH Hs).
  rewrite fmap_cons, concat_cons, fmap_app. apply NoDup_app. split_and!; [|intros k Hk Hk2|done].
  - rewrite !fmap_cons, fmap_nil. apply NoDup_cons. split; [|apply NoDup_singleton].
    rewrite list_elem_of_singleton. unfold connector_sort_key. simpl. intros Heq. by simplify_eq.
  - apply Hn. apply list_elem_of_fmap in Hk2 as (x & -> & Hx).
    apply elem_of_concat in Hx as (pair & Hx & (e' & -> & He')%list_elem_of_fmap).
    apply list_elem_of_fmap. exists e'. split; [|done].
    rewrite !fmap_cons, fmap_nil, !elem_of_cons, elem_of_nil in Hk.
    rewrite !elem_of_cons, elem_of_nil in Hx.
    destruct e as [[t i] row], e' as [[t' i'] row'].
    destruct Hx as [->|[->|[]]]; destruct Hk as [Hk|[Hk|[]]];
      unfold connector_sort_key in Hk; simpl in Hk; simplify_eq; done.
Qed.

Lemma wp_connector_pass a s (l : list ConnectorRecord) w :
  placed dir run limit olimit a -> spool_holds limit s l w -> few l ->
  spool_region s = region root "connectors" -> NoDup (connector_sort_key <$> l) ->
  let sl := sort_by_key connector_sort_key l in
  connector_room sl -> NoDup (connector_path dir <$> connector_chunks olimit sl) ->
  wp (connector_pass a s) w E (fun r w' =>
    r = (connector_copy dir <$> connector_chunks olimit sl, Z.of_nat (length l)) /\
    closed_files connector_body (connector_path dir) (connector_chunks olimit sl) w' /\
    gone (region root "connectors") w' /\
    frame (fun p => region root "connectors" p \/ p ∈ connector_path dir <$> connector_chunks olimit sl) w w').
Proof.
  intros (Hd & Hr & Hl & Hol) Hs Hfew Hreg Hdiff sl Hroom Hnd. unfold connector_pass. rewrite Hd, Hol.
  apply wp_bind. eapply wp_mono; [by eapply wp_finish_ready|]. rewrite Hreg. intros st w1 [Hst Hf1].
  pose proof (sort_by_key_sorted connector_sort_key l) as Hsorted.
  pose proof (sort_by_key_perm connector_sort_key l) as Hperm.
  change (sort_by_key sort_key l) with sl in Hst. fold sl in Hsorted, Hperm. rewrite <- Hperm in Hdiff.
  apply wp_bind.
  apply (wp_for_each_next E (region root "connectors") (fun s d v =>
    s.2 = connector_sort_key <$> last d /\ connector_holds dir olimit s.1 d v /\
    frame (fun p => region root "connectors" p \/ p ∈ connector_path dir <$> connector_chunks olimit sl) w v)
    connector_step _ st sl w1); [done| | | |].
  - split_and!; [done|apply wp_new_connector|]. eapply frame_weaken; [|exact Hf1]. tauto.
  - intros s0 d v v' Hf (Hk & Hh & Hfr). split_and!; [done| |].
    + eapply connector_holds_frame; [exact Hh|exact Hf|]. intros p Hp%region_slot Ho. by eapply output_apart.
    + etrans; [exact Hfr|]. eapply frame_weaken; [|exact Hf]. tauto.
  - intros [k prev] d x rest v Hsplit (Hk & Hh & Hfr). cbn [fst snd] in *. unfold connector_step. cbn [fst snd].
    rewrite Hsplit in Hroom, Hnd, Hdiff.
    rewrite bool_decide_false.
    2: { rewrite Hk. intros Heq. destruct (last d) as [y|] eqn:Ey; [|done].
         pose proof (inj Some _ _ Heq : connector_sort_key y = connector_sort_key x) as Hxy.
         rewrite fmap_app, fmap_cons in Hdiff. apply NoDup_app in Hdiff as (_ & Hdisj & _).
         apply (Hdisj (connector_sort_key y)); [|rewrite Hxy; set_solver].
         apply list_elem_of_fmap_2. by apply last_Some_elem_of in Ey. }
    rewrite cons_middle, app_assoc in Hroom, Hnd.
    destruct (connector_prefix _ _ _ _ Hroom Hnd) as (Hroom' & Hnd' & Hsub).
    rewrite <- app_assoc in Hsub. simpl in Hsub. rewrite <- Hsplit in Hsub.
    apply wp_bind. eapply wp_mono; [by apply wp_connector_push|].
    intros k' v' [Hh' Hf']. apply wp_ret. split.
    + split_and!; [by rewrite last_snoc|done|]. etrans; [exact Hfr|]. eapply frame_weaken; [|exact Hf'].
      intros p Hp. right. by apply Hsub.
    + intros p Hp. apply Hf'. intros (ch & -> & _)%list_elem_of_fmap.
      eapply output_apart; [apply connector_path_output|eapply region_slot, Hp].
  - intros [k prev] st' v (_ & Hh & Hfr) Hgone. cbn [fst snd].
    eapply wp_mono; [by apply wp_connector_finish|]. simpl. intros r w' (-> & -> & Hfiles).
    apply Permutation_length in Hperm. split_and!; [by rewrite Hperm|done..].
Qed.
End Output.
