(* ===== verification/StagingRefines.v ===== *)
(** * Staging implements its specification

    The whole of the staging accumulator, from an empty run directory to the files and
    statements for the database, against [stage]: the same rows in the same order, the same
    counts, the same error; every file of the run directory is gone afterwards, and nothing
    else is touched.  The instance has two files that both know one module, three edges of
    which the schema refuses one, spools so small that every record makes its own run, and
    encodings that number the records. *)
From S2P Require Import Prelude Order Text Json Hash Protocol Rows StagedRows Disk Spill StreamLaws SpoolLaws Sinks SinkLaws Staging StagingSpec StagingFrames StagingLaws StagingResolve StagingEdges.

(** Stage partitions with a new accumulator. *)
Definition run_staging `{StagingCodecs} (schema : result string Value) (pid sequence : N) (dir : string)
    (limit olimit : Z) (ps : list StagedPartition) : IO StagingResult :=
  a ← with_limits schema pid sequence dir limit olimit;
  a ← io_fold add_partition_filtered a ps;
  finish a.

(** ** What is written *)
Section Outputs.
Context `{StagingCodecs} (dir : string) (olimit : Z).

Definition node_chunks (g : StagedGraph) := table_chunks olimit (sg_nodes g).
Definition edge_chunks (g : StagedGraph) := table_chunks olimit (sg_edges g).
Definition graph_connectors (g : StagedGraph) := connector_chunks olimit (sg_connectors g).

Definition output_files (g : StagedGraph) : list string :=
  (table_path dir <$> node_chunks g) ++ (table_path dir <$> edge_chunks g)
  ++ (connector_path dir <$> graph_connectors g).
Definition statements (g : StagedGraph) : list string :=
  (table_statement dir <$> node_chunks g) ++ (table_statement dir <$> edge_chunks g)
  ++ (connector_copy dir <$> graph_connectors g).

(** The result and the disk after staging [g]. *)
Record staged (g : StagedGraph) (w : World) (r : StagingResult) (w' : World) : Prop := {
  sd_statements : copy_statements r = statements g;
  sd_calls : copy_calls r = length (statements g);
  sd_node_rows : node_rows r = Z.of_nat (length (sg_nodes g));
  sd_edge_rows : edge_rows r = Z.of_nat (length (sg_edges g));
  sd_connector_rows : connector_rows r = Z.of_nat (length (sg_connectors g));
  sd_node_count : unique_node_count r = Z.of_nat (sg_node_count g);
  sd_edge_count : unique_edge_count r = Z.of_nat (sg_edge_count g);
  sd_nodes : closed_files json_closed (table_path dir) (node_chunks g) w';
  sd_edges : closed_files json_closed (table_path dir) (edge_chunks g) w';
  sd_connectors : closed_files connector_body (connector_path dir) (graph_connectors g) w';
  sd_others p : p ∉ output_files g -> disk w' !! p = disk w !! p
}.
End Outputs.

(** The graph that [stage] gives when no end is missing. *)
Definition graph_of (c : RelationConstraints) (ps : list StagedPartition) : StagedGraph :=
  let types := node_tables ps in
  let kept := kept c types (merged_edges ps) in {|
    sg_nodes := by_table <$> merged_nodes ps; sg_edges := by_table <$> kept;
    sg_connectors := sort_by_key connector_sort_key (connectors_of types kept);
    sg_node_count := length types; sg_edge_count := distinct ((fun e => e.1.2) <$> kept)
  |}.

Lemma stage_cases c ps :
  stage c ps = match missing (node_tables ps) (requests (merged_edges ps)) with
               | Some m => Err (missing_error m)
               | None => Ok (graph_of c ps)
               end.
Proof. done. Qed.

(** ** Occupied files of the run directory *)
Section Occupied.
Context (root : string).

Definition run_file (p : string) : Prop := exists ch, slot root ch p.
Definition clean_but (occupied : string -> Prop) (w : World) : Prop :=
  forall p, run_file p -> ~ occupied p -> disk w !! p = None.

Lemma clean_step occ W occ' w w' :
  clean_but occ w -> frame W w w' ->
  (forall p, W p -> ~ occ' p -> disk w' !! p = None \/ ~ run_file p) ->
  (forall p, occ p -> W p \/ occ' p) -> clean_but occ' w'.
Proof.
  intros Hc Hf Hgone Hocc p Hp Hn. apply dec_stable. intros Hne.
  assert (~ W p) as HW by (intros HW; destruct (Hgone p HW Hn); tauto).
  apply Hne. rewrite Hf by done. apply Hc; [done|]. intros Ho. destruct (Hocc p Ho); tauto.
Qed.
End Occupied.

(** ** The bounds under which staging does not overflow *)
Lemma length_merged {K V} `{OrdLaws K, EqDecision K} (merge : V -> V -> V) (l : list (K * V)) :
  length (merged merge l) <= length l.
Proof.
  pose proof (merged_keys merge l) as Hk. apply (f_equal length) in Hk.
  rewrite length_fmap, sort_perm in Hk. rewrite Hk. clear Hk.
  transitivity (length (fst <$> l)); [|by rewrite length_fmap].
  induction (fst <$> l) as [|k ks IH]; [done|]. cbn [remove_dups]. case_decide; simpl; lia.
Qed.

Lemma length_omap_le {A B} (f : A -> option B) l : length (omap f l) <= length l.
Proof. induction l as [|x l IH]; [done|]. rewrite omap_cons. destruct (f x); simpl; lia. Qed.

Lemma NoDup_fmap_filter {A B} (f : A -> B) (P : A -> bool) l : NoDup (f <$> l) -> NoDup (f <$> List.filter P l).
Proof.
  induction l as [|x l IH]; [done|]. rewrite fmap_cons. intros [Hn Hnd]%NoDup_cons. simpl.
  destruct (P x); [|by apply IH]. rewrite fmap_cons. apply NoDup_cons. split; [|by apply IH].
  intros (y & Hy & Hin)%list_elem_of_fmap. apply Hn. rewrite Hy. apply list_elem_of_fmap_2.
  apply list_elem_of_In, List.filter_In in Hin as [Hin _]. by apply list_elem_of_In.
Qed.

Section Refines.
Context `{StagingCodecs} (dir run : string) (limit olimit : Z) (c : RelationConstraints) (ps : list StagedPartition).
Local Abbreviation root := (root dir run).
Local Abbreviation types := (node_tables ps).
Local Abbreviation edges := (merged_edges ps).
Local Abbreviation graph := (graph_of c ps).
Local Abbreviation kept := (kept c types edges).

(** Every record encodes to something that decodes to it and fits the machine's sizes; the
    paths of the output files differ; the run directory is new. *)
Record staging_fits (w : World) : Prop := {
  st_limit : (0 < limit)%Z;
  st_orders : (orders_total ps <= u64_max)%Z;
  st_raw : raw_fits limit (raw_of 0 ps);
  st_merged : Forall storable (me_of <$> edges);
  st_types : Forall storable (rt_of <$> types);
  st_requests : Forall (fits limit) (requests edges);
  st_resolved : Forall (fits limit) (resolved_of types <$> requests edges);
  st_connectors : Forall (fits limit) (connectors_of types kept);
  st_identities : Forall (fits limit) (identity_of <$> kept);
  st_node_room : json_room (sg_nodes graph);
  st_edge_room : json_room (sg_edges graph);
  st_connector_room : connector_room (sg_connectors graph);
  st_paths : NoDup (output_files dir olimit graph);
  st_run p : run_file root p -> disk w !! p = None
}.

Lemma raw_items :
  merged merge_node_value (omap raw_node_item (raw_of 0 ps)) = merged_nodes ps /\
  merged merge_edge_value (omap raw_edge_item (raw_of 0 ps)) = edges /\
  merged keep_first (omap raw_type_item (raw_of 0 ps)) = types.
Proof. by destruct (raw_of_items 0 ps) as (-> & -> & ->). Qed.

Lemma counts_small w : staging_fits w ->
  few (raw_of 0 ps) /\ few (requests edges) /\ (Z.of_nat (length types) <= u64_max)%Z.
Proof.
  intros Hfit. destruct (st_raw _ Hfit) as [_ Hfew]. unfold few_records, few in *.
  destruct raw_items as (_ & <- & <-). rewrite length_requests.
  pose proof (length_merged merge_edge_value (omap raw_edge_item (raw_of 0 ps))) as H1.
  pose proof (length_merged keep_first (omap raw_type_item (raw_of 0 ps))) as H2.
  pose proof (length_omap_le raw_edge_item (raw_of 0 ps)) as H3.
  pose proof (length_omap_le raw_type_item (raw_of 0 ps)) as H4.
  unfold u64_max. split_and!; lia.
Qed.

(** The errors that staging may end with. *)
Definition stage_error (e : abort) : Prop := exists err, stage c ps = Err err /\ e = Failed err.

Lemma fit_groups w : staging_fits w -> groups_fit dir limit olimit (merged_nodes ps) edges types.
Proof.
  intros Hfit. destruct (counts_small w Hfit) as (_ & Hr & Ht). destruct Hfit.
  apply NoDup_app in st_paths0 as (Hn & _). by split.
Qed.

Lemma fit_resolve w : staging_fits w -> resolve_fit stage_error limit types edges.
Proof.
  intros Hfit. destruct (counts_small w Hfit) as (_ & Hr & _). destruct Hfit. split; try done.
  - apply merged_sorted.
  - intros m Hm. exists (missing_error m). by rewrite stage_cases, Hm.
Qed.

Lemma fit_edges w : staging_fits w -> edges_fit dir limit olimit c types edges.
Proof.
  intros Hfit. destruct (counts_small w Hfit) as (_ & Hr & _). destruct Hfit.
  apply NoDup_app in st_paths0 as (_ & _ & Hn). apply NoDup_app in Hn as (Hn & _).
  split; try done. apply merged_sorted.
Qed.

Lemma region_run ch prefix p : region root (String ch prefix) p -> run_file root p.
Proof. intros Hp%region_slot. by exists ch. Qed.

Lemma output_not_run p : output_path dir p -> ~ run_file root p.
Proof. intros Ho [ch Hs]. by eapply output_apart. Qed.

Lemma tables_output {T} (cs : list (Chunk string T)) p : p ∈ table_path dir <$> cs -> output_path dir p.
Proof. intros (ch & -> & _)%list_elem_of_fmap. apply table_path_output. Qed.

Lemma merged_run : run_file root (merged_path dir run).
Proof. exists "m"%char. apply merged_slot. Qed.
Lemma types_run : run_file root (types_path dir run).
Proof. exists "n"%char. apply types_slot. Qed.

(** What grouping and resolving may write. *)
Definition front_files (p : string) : Prop :=
  run_file root p \/ p ∈ table_path dir <$> node_chunks olimit graph.
(** What is left of it in the run directory. *)
Definition between (p : string) : Prop := p = merged_path dir run \/ region root "resolved-endpoints" p.

Record front_done (g : GroupState) (nodes : list string * Z) (resolved : SortedSpool ResolvedKey) w w' : Prop := {
  fd_missing : missing types (requests edges) = None;
  fd_count : g_node_count g = Z.of_nat (length types);
  fd_nodes : nodes = (table_statement dir <$> node_chunks olimit graph, Z.of_nat (length (sg_nodes graph)));
  fd_files : closed_files json_closed (table_path dir) (node_chunks olimit graph) w';
  fd_resolved : spool_holds limit resolved (resolved_of types <$> sort_by_key request_sort_key (requests edges)) w';
  fd_region : spool_region resolved = region root "resolved-endpoints";
  fd_merged : disk w' !! merged_path dir run = Some (record_file (me_of <$> edges));
  fd_clean : clean_but root between w';
  fd_frame : frame front_files w w'
}.

Lemma wp_front {B} a order w0 w (K : GroupState -> list string * Z -> SortedSpool ResolvedKey -> IO B) Q :
  staging_fits w0 -> acc_ok dir run limit olimit a (raw_of 0 ps) order w ->
  clean_but root (region root "staged") w ->
  (forall g nodes resolved w', front_done g nodes resolved w w' -> wp (K g nodes resolved) w' stage_error Q) ->
  wp (raw ← io_try (ok_or (InvalidInput "staging record spool was not initialized") (raw_records a));
      raw_stream ← finish_spool raw;
      g ← group_pass a raw_stream;
      nodes ← json_finish (g_nodes g);
      resolved ← resolve_pass a (g_endpoints g);
      K g nodes resolved) w stage_error Q.
Proof.
  intros Hfit Ha Hclean HK. pose proof (acc_placed _ _ _ _ _ _ _ _ Ha) as Hpl.
  destruct (ao_raw _ _ _ _ _ _ _ _ Ha) as (s & Hs & Hholds & Hreg).
  destruct (counts_small w0 Hfit) as (Hfew & _ & _).
  destruct raw_items as (Hn & He & Ht).
  apply wp_bind. eapply wp_try; [by rewrite Hs|].
  apply wp_bind. eapply wp_mono; [by eapply wp_finish_ready|]. rewrite Hreg. intros st w1 [Hst Hf1].
  assert (clean_but root (region root "staged") w1) as Hc1.
  { eapply clean_step; [exact Hclean|exact Hf1|tauto|tauto]. }
  apply wp_bind. eapply wp_mono.
  { eapply (wp_group_pass stage_error dir run limit olimit 0 _ (raw_of 0 ps)); [apply raw_of_orders|exact Hpl|
      apply (st_limit _ Hfit)| |exact Hst|].
    - rewrite Hn, He, Ht. by eapply fit_groups.
    - intros p Hp. apply Hc1; [by eapply region_run|]. intros Hq%region_slot. apply endpoints_slot in Hp.
      by eapply (slots_apart _ _ "e" "s"). }
  rewrite Hn, He, Ht. intros g w2 (Hg & Hgone & Hf2).
  set (occ := fun p => region root "endpoints" p \/ p = merged_path dir run \/ p = types_path dir run).
  assert (clean_but root occ w2) as Hc2.
  { eapply clean_step; [exact Hc1|exact Hf2| |unfold group_pass_files; tauto].
    intros p [[Hp|Hp]|Hp] Hno; [right; by eapply output_not_run, tables_output|exfalso; apply Hno, Hp|left; by apply Hgone]. }
  apply wp_bind. eapply wp_mono.
  { eapply (wp_json_finish (T := NodeStagedRow)); [apply (go_nodes _ _ _ _ _ _ _ _ _ Hg)|]. eapply gf_paths, (fit_groups w0 Hfit). }
  intros nodes w3 (Hnodes & Hclosed & Hf3).
  assert (frame (output_path dir) w2 w3) as Ho3 by (eapply frame_weaken; [|exact Hf3]; intros p; apply tables_output).
  assert (clean_but root occ w3) as Hc3.
  { eapply clean_step; [exact Hc2|exact Ho3| |tauto]. intros p Hp _. right. by apply output_not_run. }
  apply wp_bind. eapply wp_mono.
  { eapply (wp_resolve_pass stage_error dir run limit olimit types edges); [exact Hpl|apply (st_limit _ Hfit)|
      by eapply fit_resolve| |apply (go_region _ _ _ _ _ _ _ _ _ Hg)| |].
    - eapply spool_frame; [apply (go_endpoints _ _ _ _ _ _ _ _ _ Hg)|exact Ho3|].
      intros p Hp. rewrite (go_region _ _ _ _ _ _ _ _ _ Hg). intros Hq%endpoints_slot. by eapply output_apart.
    - eapply frame_lookup; [exact Ho3| |apply (go_types _ _ _ _ _ _ _ _ _ Hg)].
      intros Hp. eapply output_not_run; [exact Hp|apply types_run].
    - intros p Hp. apply Hc3; [by eapply region_run|]. apply resolved_slot in Hp.
      intros [Hq|[-> | ->]]; [apply endpoints_slot in Hq; by eapply (slots_apart _ _ "r" "e")|..];
        (eapply slots_apart; [exact Hp|first [apply merged_slot|apply types_slot]|done]). }
  intros resolved w4 (Hmiss & Hres & Hrreg & Hgone4 & Htypes4 & Hf4).
  assert (forall p, resolve_files dir run p -> run_file root p) as Hrun4.
  { intros p [Hp|[Hp| ->]]; [by eapply region_run..|apply types_run]. }
  apply HK. split; try done.
  - by rewrite (go_count _ _ _ _ _ _ _ _ _ Hg).
  - intros ch Hch. rewrite Hf4; [by apply Hclosed|]. intros Hp%Hrun4. eapply output_not_run; [|exact Hp].
    apply table_path_output.
  - eapply frame_lookup; [exact Hf4| |eapply frame_lookup; [exact Ho3| |apply (go_merged _ _ _ _ _ _ _ _ _ Hg)]].
    + intros [Hp%endpoints_slot|[Hp%resolved_slot|Heq]];
        [eapply slots_apart; [exact Hp|apply merged_slot|done]..|].
      eapply (slots_apart _ _ "m" "n"); [apply merged_slot|rewrite Heq; apply types_slot|done].
    + intros Hp. eapply output_not_run; [exact Hp|apply merged_run].
  - eapply clean_step; [exact Hc3|exact Hf4| |unfold occ, between, resolve_files; tauto].
    intros p [Hp|[Hp| ->]] Hno; [left; by apply Hgone4|exfalso; apply Hno; by right|by left].
  - assert (forall p, region root "staged" p -> front_files p) as Hfs by (intros p Hp; left; by eapply region_run).
    etrans; [eapply frame_weaken; [exact Hfs|exact Hf1]|].
    etrans; [eapply frame_weaken; [|exact Hf2]|etrans; [eapply frame_weaken; [|exact Hf3]|eapply frame_weaken; [|exact Hf4]]].
    + intros p [[Hp|[Hp|[-> | ->]]]|Hp]; [rewrite Hn in Hp; by right|left; by eapply region_run|left; apply merged_run|left; apply types_run|by apply Hfs].
    + intros p Hp. by right.
    + intros p Hp. left. by apply Hrun4.
Qed.

(** Files of a list that no other list has stay as they are. *)
Lemma closed_frame {G R} (bytes : list R -> list Z) (path : Chunk G R -> string) cs W w w' :
  closed_files bytes path cs w -> frame W w w' -> (forall p, p ∈ path <$> cs -> ~ W p) ->
  closed_files bytes path cs w'.
Proof. intros Hc Hf Hd ch Hch. rewrite Hf; [by apply Hc|]. apply Hd. by apply list_elem_of_fmap_2. Qed.

Local Abbreviation node_files := (table_path dir <$> node_chunks olimit graph).
Local Abbreviation edge_files := (table_path dir <$> edge_chunks olimit graph).
Local Abbreviation connector_files := (connector_path dir <$> graph_connectors olimit graph).

Lemma connectors_output p : p ∈ connector_files -> output_path dir p.
Proof. intros (ch & -> & _)%list_elem_of_fmap. apply connector_path_output. Qed.

Lemma files_disjoint w : staging_fits w ->
  (forall p, p ∈ node_files -> p ∉ edge_files /\ p ∉ connector_files) /\
  (forall p, p ∈ edge_files -> p ∉ connector_files) /\
  NoDup edge_files /\ NoDup connector_files.
Proof.
  intros Hfit. pose proof (st_paths _ Hfit) as Hnd. unfold output_files in Hnd.
  apply NoDup_app in Hnd as (_ & H1 & Hnd). apply NoDup_app in Hnd as (He & H2 & Hc).
  split_and!; [|exact H2|done|done]. intros p Hp. specialize (H1 p Hp). set_solver.
Qed.

(** After the edges are written: [left_over] is what is still in the run directory. *)
Definition left_over (p : string) : Prop :=
  region root "resolved-endpoints" p \/ region root "connectors" p \/ region root "accepted-edge-ids" p.

Record edges_done (x : EdgeState) (res : list string * Z) w w' : Prop := {
  ed_result : res = (table_statement dir <$> edge_chunks olimit graph, Z.of_nat (length (sg_edges graph)));
  ed_files : closed_files json_closed (table_path dir) (edge_chunks olimit graph) w';
  ed_connectors : spool_holds limit (x_connectors x) (connectors_of types kept) w';
  ed_connector_region : spool_region (x_connectors x) = region root "connectors";
  ed_accepted : spool_holds limit (x_accepted x) (identity_of <$> kept) w';
  ed_accepted_region : spool_region (x_accepted x) = region root "accepted-edge-ids";
  ed_stream : exists st0 l, same_inputs st0 (x_resolved x) /\
    stream_ready (region root "resolved-endpoints") st0 l w';
  ed_clean : clean_but root left_over w';
  ed_frame : frame (fun p => run_file root p \/ p ∈ edge_files) w w'
}.

Lemma wp_edges {B} a g nodes resolved w0 w w1 (K : EdgeState -> list string * Z -> IO B) Q :
  staging_fits w0 -> placed dir run limit olimit a -> relation_constraints a = c ->
  front_done g nodes resolved w w1 ->
  (forall x res w', edges_done x res w1 w' -> wp (K x res) w' stage_error Q) ->
  wp (x ← edge_pass a resolved; res ← json_finish (x_edges x); K x res) w1 stage_error Q.
Proof.
  intros Hfit Hpl Hcc [Hmiss Hcount -> Hclosed Hres Hreg Hmerged Hclean Hframe] HK.
  destruct (files_disjoint _ Hfit) as (_ & _ & Hne & _). pose proof (fit_edges w0 Hfit) as Hxf.
  apply wp_bind. eapply wp_mono.
  { eapply (wp_edge_pass stage_error dir run limit olimit c types edges); [exact Hpl|apply (st_limit _ Hfit)|
      exact Hcc|exact Hxf|exact Hres|exact Hreg|exact Hmerged| |].
    all: intros p Hp; apply Hclean; [by eapply region_run|]; intros [-> |Hq%resolved_slot].
    1: apply connectors_slot in Hp; eapply slots_apart; [exact Hp|apply merged_slot|done].
    1: apply connectors_slot in Hp; by eapply (slots_apart _ _ "c" "r").
    1: apply accepted_slot in Hp; eapply slots_apart; [exact Hp|apply merged_slot|done].
    apply accepted_slot in Hp; by eapply (slots_apart _ _ "a" "r"). }
  intros x w2 (Hm2 & Hf2 & st0 & l & [_ Hin Hje Hsc Hrc Hsa Hra] & Hst2).
  apply wp_bind. eapply wp_mono; [by eapply (wp_json_finish (T := EdgeStagedRow))|].
  intros res w3 (-> & Hclosed3 & Hf3).
  assert (frame (output_path dir) w2 w3) as Ho3 by (eapply frame_weaken; [|exact Hf3]; intros p; apply tables_output).
  assert (clean_but root left_over w2) as Hc2.
  { eapply clean_step; [exact Hclean|exact Hf2| |unfold between, left_over, edge_pass_files; tauto].
    unfold left_over, edge_pass_files, edge_out_files.
    intros p [[Hp|Hp]|[Hp| ->]] Hno; [right; by eapply output_not_run, tables_output|tauto..|by left]. }
  apply HK. split; try done.
  - eapply spool_frame; [exact Hsc|exact Ho3|]. intros p Hp. rewrite Hrc. intros Hq%connectors_slot. by eapply output_apart.
  - eapply spool_frame; [exact Hsa|exact Ho3|]. intros p Hp. rewrite Hra. intros Hq%accepted_slot. by eapply output_apart.
  - exists st0, l. split; [done|]. eapply stream_ready_frame; [exact Hst2|exact Ho3|].
    intros p Hp Hq%resolved_slot. by eapply output_apart.
  - eapply clean_step; [exact Hc2|exact Ho3| |tauto]. intros p Hp _. right. by apply output_not_run.
  - etrans; (eapply frame_weaken; [|first [exact Hf2|exact Hf3]]); unfold edge_pass_files, edge_out_files.
    + intros p [[Hp|[Hp|Hp]]|[Hp| ->]]; [by right|left; by eapply region_run..|left; apply merged_run].
    + intros p Hp. by right.
Qed.

Lemma kept_differ : NoDup (fst <$> kept).
Proof. apply NoDup_fmap_filter, strict_NoDup, merged_sorted. Qed.

(** Counting, writing connectors, and what is known of the disk at the end. *)
Record tail_done (w w' : World) : Prop := {
  td_connectors : closed_files connector_body (connector_path dir) (graph_connectors olimit graph) w';
  td_clean : clean_but root (fun _ => False) w';
  td_frame : frame (fun p => run_file root p \/ p ∈ connector_files) w w'
}.

Lemma wp_tail {B} a x res w0 w w1 (K : Z -> list string * Z -> SpillMetrics -> IO B) Q :
  staging_fits w0 -> placed dir run limit olimit a -> edges_done x res w w1 ->
  (forall m w', tail_done w1 w' ->
     wp (K (Z.of_nat (sg_edge_count graph))
           (connector_copy dir <$> graph_connectors olimit graph, Z.of_nat (length (sg_connectors graph))) m)
       w' stage_error Q) ->
  wp (count ← count_pass (x_accepted x);
      written ← connector_pass a (x_connectors x);
      m ← get_metrics;
      _ ← drop_stream (x_resolved x);
      K count written m) w1 stage_error Q.
Proof.
  intros Hfit Hpl [-> Hclosed Hsc Hrc Hsa Hra (st0 & l & Hin & Hst) Hclean Hframe] HK.
  destruct (files_disjoint _ Hfit) as (_ & _ & _ & Hnc). pose proof (fit_edges w0 Hfit) as Hxf.
  destruct (kept_few c types edges []) as [Hfc Hfi]; [rewrite app_nil_r; apply (counts_small w0 Hfit)|].
  apply wp_bind. eapply wp_mono; [by eapply wp_count_pass|]. intros n w2 (-> & Hg2 & Hf2).
  apply wp_bind. eapply wp_mono.
  { eapply (wp_connector_pass stage_error dir run limit olimit a _ (connectors_of types kept));
      [exact Hpl| |exact Hfc|exact Hrc| |apply (st_connector_room _ Hfit)|exact Hnc].
    - eapply spool_frame; [exact Hsc|exact Hf2|]. intros p Hp%accepted_slot. rewrite Hrc. intros Hq%connectors_slot.
      by eapply (slots_apart _ _ "a" "c").
    - apply connectors_differ, kept_differ. }
  intros written w3 (-> & Hclosed3 & Hg3 & Hf3).
  assert (forall p, region root "connectors" p \/ p ∈ connector_files -> ~ region root "resolved-endpoints" p) as Hdisj.
  { intros p [Hp%connectors_slot|Hp%connectors_output] Hq%resolved_slot;
      [by eapply (slots_apart _ _ "c" "r")|by eapply output_apart]. }
  apply wp_bind. unfold get_metrics, wp at 1. apply wp_bind.
  assert (stream_ready (region root "resolved-endpoints") st0 l w3) as Hst3.
  { eapply stream_ready_frame; [eapply stream_ready_frame; [exact Hst|exact Hf2|]|exact Hf3|].
    - intros p Hp%accepted_slot Hq%resolved_slot. by eapply (slots_apart _ _ "a" "r").
    - intros p Hp Hq. exact (Hdisj p Hp Hq). }
  eapply wp_mono; [by eapply wp_drop_ready|]. intros u w4 [Hg4 Hf4]. clear u.
  assert (length (connectors_of types kept) = length (sg_connectors graph)) as Hlen
    by (symmetry; apply Permutation_length, sort_by_key_perm).
  assert (distinct (ei_id <$> (identity_of <$> kept)) = sg_edge_count graph) as Hcnt
    by (by rewrite <- list_fmap_compose).
  rewrite Hlen, Hcnt. apply HK. split.
  - eapply closed_frame; [exact Hclosed3|exact Hf4|]. intros p Hp. apply Hdisj. by right.
  - assert (clean_but root (fun p => region root "resolved-endpoints" p \/ region root "connectors" p) w2) as Hc2.
    { eapply clean_step; [exact Hclean|exact Hf2| |unfold left_over; cbv beta; tauto]. intros p Hp _. left. by apply Hg2. }
    assert (clean_but root (region root "resolved-endpoints") w3) as Hc3.
    { eapply clean_step; [exact Hc2|exact Hf3| |cbv beta; tauto]. intros p [Hp|Hp] _; [left; by apply Hg3|].
      right. by apply output_not_run, connectors_output. }
    eapply clean_step; [exact Hc3|exact Hf4| |tauto]. intros p Hp _. left. by apply Hg4.
  - etrans; [eapply frame_weaken; [|exact Hf2]|etrans; (eapply frame_weaken; [|first [exact Hf3|exact Hf4]])].
    + intros p Hp. left. by eapply region_run.
    + intros p [Hp|Hp]; [left; by eapply region_run|by right].
    + intros p Hp. left. by eapply region_run.
Qed.

(** The parts together. *)
Lemma staged_intro w0 w w1 w2 w3 g nodes resolved x res m :
  staging_fits w0 -> frame (region root "staged") w0 w -> front_done g nodes resolved w w1 ->
  edges_done x res w1 w2 -> tail_done w2 w3 ->
  let all := nodes.1 ++ res.1 ++ (connector_copy dir <$> graph_connectors olimit graph) in
  staged dir olimit graph w0 {|
    copy_statements := all; node_rows := nodes.2; edge_rows := res.2;
    connector_rows := Z.of_nat (length (sg_connectors graph)); copy_calls := length all;
    unique_node_count := g_node_count g; unique_edge_count := Z.of_nat (sg_edge_count graph);
    spill_bytes := (snapshot m).1; high_water_bytes := (snapshot m).2 |} w3.
Proof.
  intros Hfit Hf0 [_ Hcount -> Hn _ _ _ _ Hf1] [-> He _ _ _ _ _ _ Hf2] [Hc Hclean Hf3].
  destruct (files_disjoint _ Hfit) as (Hne & Hec & _).
  assert (forall p, p ∈ node_files -> ~ run_file root p) as Hnr by (intros p Hp; by eapply output_not_run, tables_output).
  assert (forall p, p ∈ edge_files -> ~ run_file root p) as Her by (intros p Hp; by eapply output_not_run, tables_output).
  split; cbn; try done.
  - eapply closed_frame; [eapply closed_frame; [exact Hn|exact Hf2|]|exact Hf3|];
      intros p Hp [Hr|Hq]; try exact (Hnr p Hp Hr); destruct (Hne p Hp); contradiction.
  - eapply closed_frame; [exact He|exact Hf3|]. intros p Hp [Hr|Hq]; [exact (Her p Hp Hr)|exact (Hec p Hp Hq)].
  - intros p Hp. unfold output_files in Hp. apply dec_stable. intros Hdiff. apply Hdiff.
    assert (~ run_file root p) as Hr.
    { intros Hr. apply Hdiff. rewrite (st_run _ Hfit p Hr). apply Hclean; [exact Hr|tauto]. }
    rewrite Hf3, Hf2, Hf1, Hf0; [done|..]; intros Hin.
    1: by eapply Hr, region_run.
    all: destruct Hin; [by apply Hr|apply Hp; set_solver].
Qed.

Lemma wp_finish a order w0 w :
  staging_fits w0 -> acc_ok dir run limit olimit a (raw_of 0 ps) order w -> relation_constraints a = c ->
  frame (region root "staged") w0 w ->
  wp (finish a) w stage_error (fun r w' =>
    missing types (requests edges) = None /\ staged dir olimit graph w0 r w').
Proof.
  intros Hfit Ha Hc Hf. pose proof (acc_placed _ _ _ _ _ _ _ _ Ha) as Hpl. unfold finish.
  rewrite (ao_error _ _ _ _ _ _ _ _ Ha). eapply wp_front; [exact Hfit|exact Ha| |].
  { eapply (clean_step _ (fun _ => False)); [intros p Hp _; by apply (st_run _ Hfit)|exact Hf|tauto|tauto]. }
  intros g nodes resolved w1 Hfront. eapply wp_edges; [exact Hfit|exact Hpl|exact Hc|exact Hfront|].
  intros x res w2 Hedges. eapply wp_tail; [exact Hfit|exact Hpl|exact Hedges|].
  intros m w3 Htail. apply wp_ret. split; [apply (fd_missing _ _ _ _ _ Hfront)|].
  by eapply staged_intro.
Qed.
End Refines.

Definition run_name (pid sequence : N) : string := "runs-" +:+ show_N pid +:+ "-" +:+ show_N sequence.

Lemma wp_run_staging `{StagingCodecs} schema pid sequence dir limit olimit ps w :
  let c := from_declared_schema schema in
  staging_fits dir (run_name pid sequence) limit olimit c ps w ->
  wp (run_staging schema pid sequence dir limit olimit ps) w (stage_error c ps) (fun r w' =>
    missing (node_tables ps) (requests (merged_edges ps)) = None /\ staged dir olimit (graph_of c ps) w r w').
Proof.
  intros c Hfit. unfold run_staging, with_limits.
  change (path_join dir (".runs-" +:+ show_N pid +:+ "-" +:+ show_N sequence)) with (root dir (run_name pid sequence)).
  apply wp_bind, wp_bind. eapply wp_mono.
  { apply (wp_new_spool (root dir (run_name pid sequence)) "staged" limit w (st_limit _ _ _ _ _ _ _ Hfit)).
    intros p Hp. apply (st_run _ _ _ _ _ _ _ Hfit). by eapply region_run. }
  intros s w' (-> & Hs & Hreg). apply wp_ret, wp_bind.
  eapply wp_mono.
  { eapply (wp_add_partitions _ dir (run_name pid sequence) limit olimit ps _ [] 0).
    - split; try done. by exists s.
    - apply (st_orders _ _ _ _ _ _ _ Hfit).
    - apply (st_raw _ _ _ _ _ _ _ Hfit). }
  intros a w1 (Ha & Hc & Hf). eapply wp_finish; [exact Hfit|exact Ha|exact Hc|exact Hf].
Qed.

(** C4: staging implements its specification.  For every list of partitions, with an empty
    run directory and within the bounds of the machine, the accumulator ends, and: if an
    edge that is new has an end that no partition declares, it fails with the first such
    end in the order of the requests; otherwise it succeeds, its COPY statements load
    files that hold exactly the merged rows of every node, of every edge that the declared
    schema allows between the tables of its ends, and the two connectors of each such
    edge, in the order of the specification; the counts are those of the specification;
    and no other file has changed, the temporary ones all being removed. *)
Theorem staging_correct `{StagingCodecs} schema pid sequence dir limit olimit ps w :
  let c := from_declared_schema schema in
  staging_fits dir (run_name pid sequence) limit olimit c ps w ->
  match stage c ps with
  | Ok g => exists r w', run_staging schema pid sequence dir limit olimit ps w = Ok (r, w') /\
                         staged dir olimit g w r w'
  | Err e => run_staging schema pid sequence dir limit olimit ps w = Err (Failed e)
  end.
Proof.
  intros c Hfit. pose proof (wp_run_staging _ _ _ _ _ _ _ _ Hfit) as Hwp. fold c in Hwp.
  unfold wp in Hwp. destruct (run_staging _ _ _ _ _ _ _ w) as [[r w']|e].
  - destruct Hwp as [Hm Hst]. rewrite stage_cases, Hm. by exists r, w'.
  - destruct Hwp as (err & -> & ->). done.
Qed.


(** ** Encodings that number the records of a table *)
Section Table.
Context {T : Type} (code : T -> Z) (table : list T).

Definition table_codec : RecordCodec T := {|
  encode_record := fun r => Ok [code r];
  decode_record := fun l =>
    match l with
    | [n] => ok_or (JsonError "unknown record") (List.find (fun r => Z.eqb (code r) n) table)
    | _ => Err (JsonError "length")
    end
|}.
Definition small_layout : MemoryLayout T :=
  {| vec_capacity := fun _ => 8%Z; buffered_record_size := 40%Z; heap_item_size := 64%Z |}.

Definition listed (r : T) : Prop := List.find (fun x => Z.eqb (code x) (code r)) table = Some r.

Lemma table_storable r : listed r -> @storable T table_codec r.
Proof.
  intros Hr. split; [done|]. split; [|vm_compute; congruence].
  change (ok_or (JsonError "unknown record") (List.find (fun x => Z.eqb (code x) (code r)) table) = Ok r).
  unfold listed in Hr. by rewrite Hr.
Qed.

Lemma table_fits {K} `{SpillRecord T K} r :
  listed r -> (0 <= key_bytes (sort_key r) <= 1000)%Z ->
  @fits T K table_codec small_layout _ 50 r.
Proof.
  intros Hl%table_storable Hk. destruct Hl as (He & Hd & Hn). split; try done; try (split; done).
  - apply Hk.
  - change (50 + (key_bytes (sort_key r) + (4 + (40 + 8))) <= u64_max)%Z. unfold u64_max. lia.
  - change (32 * (1 + (key_bytes (sort_key r) + (64 + 1))) <= u64_max)%Z. unfold u64_max. lia.
Qed.
End Table.

(** ** The partitions *)
Definition example_node (id table summary : string) : GraphNodeRow := {|
  n_id := id; n_table := table; n_label := id; n_kind := ""; n_language := "rust"; n_grammar_version := None;
  n_path := ""; n_qualified_name := ""; n_scope_id := ""; n_line_start := None; n_line_end := None;
  n_byte_start := None; n_byte_end := None; n_tree_sitter_node_type := ""; n_capture_name := "";
  n_summary := summary; n_metadata := Null
|}.
Definition example_edge (id type_ source target : string) : GraphEdgeRow := {|
  e_id := id; e_edge_type := type_; e_source_id := source; e_target_id := target; e_kind := "";
  e_confidence := f64_one; e_field_name := None; e_child_index := None; e_line_start := None;
  e_line_end := None; e_byte_start := None; e_byte_end := None; e_metadata := Null
|}.
Definition example_partition (nodes : list GraphNodeRow) (edges : list GraphEdgeRow) : StagedPartition := {|
  sp_content_hash := "h"; sp_nodes := nodes; sp_edges := edges; sp_retained_nodes := ∅; sp_retained_edges := ∅
|}.

Definition example_nodes : list GraphNodeRow := [example_node "m" "Module" ""; example_node "s" "Symbol" ""].
Definition example_partitions : list StagedPartition := [
  example_partition example_nodes [example_edge "x" "Calls" "s" "t"; example_edge "y" "Calls" "m" "t"];
  example_partition [example_node "t" "Symbol" ""; example_node "m" "Module" "late"]
    [example_edge "z" "Contains" "m" "s"]
].
(** Only symbols call symbols; what contains what is not declared. *)
Definition example_schema : result string Value := Ok (VObject [("relation_types",
  VArray [VObject [("name", VString "Calls"); ("source_types", VArray [VString "Symbol"]);
                   ("target_types", VArray [VString "Symbol"])]])]).

Definition first_byte (s : string) : Z := match s with EmptyString => 0 | String c _ => Z.of_nat (nat_of_ascii c) end.
Definition raw_code (r : RawRecord) : Z :=
  match r with RawNode _ _ o _ => 3 * o | RawEdge _ _ o _ => 3 * o + 1 | RawNodeType _ _ o => 3 * o + 2 end%Z.
Definition side_code (s : EndpointSide) : Z := match s with Source => 0 | Target => 128 end.

Section Codecs.
Context (ps : list StagedPartition) (c : RelationConstraints).

Definition example_codecs : StagingCodecs :=
  let types := node_tables ps in
  let edges := merged_edges ps in
  let some := kept c types edges in {|
    raw_codec := table_codec raw_code (raw_of 0 ps);
    merged_codec := table_codec (fun e => first_byte (me_id e)) (me_of <$> edges);
    node_type_codec := table_codec (fun t => first_byte (rt_id t)) (rt_of <$> types);
    request_codec := table_codec (fun r => first_byte (er_edge_id r) + side_code (er_side r))%Z (requests edges);
    resolved_codec := table_codec (fun r => first_byte (re_edge_id r) + side_code (re_side r))%Z
      (resolved_of types <$> requests edges);
    identity_codec := table_codec (fun e => first_byte (ei_id e)) (identity_of <$> some);
    connector_codec := table_codec (fun r => match c_side r with Source => first_byte (c_to_id r)
                                             | Target => first_byte (c_from_id r) + 128 end)%Z
      (connectors_of types some);
    node_row_codec := table_codec (fun r => first_byte (ns_id r)) [];
    edge_row_codec := table_codec (fun r => first_byte (es_id r)) [];
    raw_layout := small_layout; request_layout := small_layout; resolved_layout := small_layout;
    identity_layout := small_layout; connector_layout := small_layout;
    node_row_layout := small_layout; edge_row_layout := small_layout
  |}.
End Codecs.

Ltac evaluated := match goal with |- Forall _ ?l =>
  let v := eval vm_compute in l in replace l with v by (vm_compute; reflexivity) end.
Ltac all_listed := evaluated;
  repeat (apply Forall_cons; split; [first [apply table_fits|apply table_storable];
    [vm_compute; reflexivity|try (vm_compute; split; congruence)..]|]); constructor.

Ltac all_fit := split;
  [lia|vm_compute; congruence|split; [all_listed|vm_compute; congruence]|all_listed..
  |split; [apply Forall_forall; done|vm_compute; congruence]
  |split; [apply Forall_forall; done|vm_compute; congruence]|vm_compute; congruence
  |match goal with |- NoDup ?l => let v := eval vm_compute in l in replace l with v by (vm_compute; reflexivity) end;
   apply (bool_decide_unpack _); vm_compute; exact I
  |intros p _; apply lookup_empty].

Local Abbreviation constraints := (from_declared_schema example_schema).
Local Abbreviation fitting ps :=
  (@staging_fits (example_codecs ps constraints) "out" (run_name 7 0) 50 20 constraints ps no_files).

Lemma example_fits : fitting example_partitions.
Proof. all_fit. Qed.

(** The second file alone: its edge ends at a symbol that only the first declares. *)
Definition lonely_partition : list StagedPartition := drop 1 example_partitions.

Lemma lonely_fits : fitting lonely_partition.
Proof. all_fit. Qed.

Lemma staging_correct_witness :
  match stage constraints example_partitions with
  | Ok g => (sg_node_count g = 3 /\ fst <$> sg_edges g = ["Calls"; "Contains"]) /\
            length (output_files (H := example_codecs example_partitions constraints) "out" 20 g) = 8
  | Err _ => False
  end /\
  match stage constraints example_partitions with
  | Ok g => exists r w', run_staging (H := example_codecs example_partitions constraints)
                           example_schema 7 0 "out" 50 20 example_partitions no_files = Ok (r, w') /\
                         staged (H := example_codecs example_partitions constraints) "out" 20 g no_files r w'
  | Err e => False
  end /\
  stage constraints lonely_partition = Err (InvalidInput "edge z references missing target node s") /\
  run_staging (H := example_codecs lonely_partition constraints) example_schema 7 0 "out" 50 20
    lonely_partition no_files = Err (Failed (InvalidInput "edge z references missing target node s")).
Proof.
  split; [vm_compute; done|].
  pose proof (@staging_correct _ example_schema 7 0 "out" 50%Z 20%Z example_partitions no_files example_fits) as H1.
  pose proof (@staging_correct _ example_schema 7 0 "out" 50%Z 20%Z lonely_partition no_files lonely_fits) as H2.
  assert (stage constraints lonely_partition = Err (InvalidInput "edge z references missing target node s")) as Hs
    by (vm_compute; reflexivity).
  assert (match stage constraints example_partitions with Ok _ => true | Err _ => false end = true) as Hok
    by (vm_compute; reflexivity).
  cbv zeta in H1, H2. rewrite Hs in H2. split; [|by split].
  destruct (stage constraints example_partitions); [exact H1|discriminate].
Defined.
