(* ===== verification/SearchBuild.v ===== *)
(** * Building a search index (src/search_index/build.rs)

    One pass over the staged nodes writes the documents and collects the occurrences of
    terms, which are sorted externally and then grouped into the lexicon and the postings.
    A failed build leaves its sidecars behind; the state of the disk after an error is not
    modelled. *)
From S2P Require Import Prelude Order Text Bytes Json Protocol Disk Spill StagedRows Sinks SearchModel.

Definition MAX_TERM_BYTES : Z := 256.
Definition MAX_MERGE_FAN_IN : nat := 32.
Definition MERGE_READER_ACCOUNTED_BYTES : Z := 768.

(** ** Tokens *)
(** The tables behind [char::is_alphanumeric] and [char::to_lowercase]. *)
Class CharTables := {
  is_alphanumeric : Z -> bool;
  char_lowercase : Z -> list Z
}.
Class CharLaws `{CharTables} := {
  lowercase_scalar c : is_scalar c -> Forall is_scalar (char_lowercase c);
  lowercase_some c : char_lowercase c <> []
}.

Section Tokens.
Context `{CharTables}.

Definition is_term_char (c : Z) : bool := is_alphanumeric c || (c =? 95)%Z.

(** [term.push(c)] if there is room; a term is kept as its scalar values. *)
Definition push_char (term : list Z) (c : Z) : list Z :=
  if (Z.of_nat (length (mjoin (encode_utf8 <$> term)) + len_utf8 c) <=? MAX_TERM_BYTES)%Z
  then term ++ [c] else term.

Definition token_step (s : list Z * list string) (c : Z) : list Z * list string :=
  let (term, emitted) := s in
  if is_term_char c then (fold_left push_char (char_lowercase c) term, emitted)
  else match term with
       | [] => s
       | _ => ([], emitted ++ [chars_string term])
       end.

(** The terms in the order in which they are emitted. *)
Definition tokenize (text : string) : list string :=
  let (term, emitted) := fold_left token_step (chars text) ([], []) in
  match term with [] => emitted | _ => emitted ++ [chars_string term] end.
End Tokens.

(** ** Sorting occurrences *)
Record Occurrence := { occ_term : string; occ_document_id : Z }.

Definition occ_key (o : Occurrence) : string * Z := (occ_term o, occ_document_id o).
#[export] Instance Ord_Occurrence : Ord Occurrence := fun x y => cmp (occ_key x) (occ_key y).

(** The size of the structure and the capacities that the allocator grants: of the string
    of a term, and of a vector of some capacity and length that must take one more. *)
Class SearchMemory := {
  occurrence_size : Z;
  term_capacity : string -> Z;
  reserved_capacity : Z -> nat -> Z
}.

Record OccurrenceSorter := {
  sorter_root : string;
  sorter_chunk_limit : Z;
  sorter_buffered : list Occurrence;
  sorter_capacity : Z;
  buffered_term_bytes : Z;
  sorter_bytes : Z;
  sorter_runs : list string;
  sorter_next_run : N;
  sorter_spill_bytes : Z;
  sorter_high_water : Z
}.

Definition saturating_mul_u64 (a b : Z) : Z := Z.min (a * b) u64_max.
Definition checked_add_u32 (a b : Z) : option Z :=
  if decide (a + b <= u32_max)%Z then Some (a + b)%Z else None.

Definition overflow (what : string) : NativeError := invalid (what +:+ " overflow").

Definition write_occurrence (path : string) (o : Occurrence) : IO () :=
  let length := Z.of_nat (String.length (occ_term o)) in
  if (u32_max <? length)%Z then io_fail (invalid "search term length exceeds u32")
  else
    _ ← write_u32 path length;
    _ ← append_file path (str_bytes (occ_term o));
    write_u64 path (occ_document_id o).

Definition open_occurrences (path : string) : IO (list Z) :=
  bytes ← open_file path; io_try (read_magic bytes OCCURRENCES_MAGIC).

Open Scope rust_scope.

(** The next occurrence and what is left of the file. *)
Definition next_occurrence (bytes : list Z) : native_result (option (Occurrence * list Z)) :=
  match bytes with
  | [] => Ok None
  | b0 :: bytes =>
      let? (b, rest) := read_exact 3 bytes in
      let? (term, rest) := read_text "search occurrence term exceeds limit: "
                             "invalid UTF-8 search occurrence: " (from_le (b0 :: b))
                             MAX_TERM_BYTES rest in
      let? (document_id, rest) := read_u64 rest in
      Ok (Some ({| occ_term := term; occ_document_id := document_id |}, rest))
  end.

Record HeapOccurrence := { heap_occurrence : Occurrence; heap_reader : nat }.

Definition heap_occurrence_cmp (x y : HeapOccurrence) : comparison :=
  then_with (cmp (heap_occurrence y) (heap_occurrence x)) (cmp (heap_reader y) (heap_reader x)).

Record MergeState := { merge_readers : list (list Z); merge_heap : list HeapOccurrence }.

(** [if let Some(occurrence) = readers[i].next()? { heap.push(..) }] *)
Definition advance_reader (st : MergeState) (i : nat) : IO MergeState :=
  match merge_readers st !! i with
  | None => io_abort Panicked
  | Some bytes =>
      next ← io_try (next_occurrence bytes);
      match next with
      | None => mret st
      | Some (o, rest) =>
          mret {| merge_readers := <[i := rest]> (merge_readers st);
                  merge_heap := {| heap_occurrence := o; heap_reader := i |} :: merge_heap st |}
      end
  end.

Fixpoint merge_loop (fuel : nat) (output : string) (st : MergeState) : IO () :=
  match fuel with
  | 0 => io_abort OutOfFuel
  | S fuel =>
      match heap_pop heap_occurrence_cmp (merge_heap st) with
      | None => mret ()
      | Some (item, h) =>
          _ ← write_occurrence output (heap_occurrence item);
          st ← advance_reader {| merge_readers := merge_readers st; merge_heap := h |}
                 (heap_reader item);
          merge_loop fuel output st
      end
  end.

(** An item is in the heap, or takes a byte of a file. *)
Definition merge_fuel (st : MergeState) : nat :=
  1 + length (merge_heap st) + sum_list (length <$> merge_readers st).

Definition merge_occurrence_runs (inputs : list string) (output : string) : IO () :=
  readers ← io_fold (fun rs p => r ← open_occurrences p; mret (rs ++ [r])) [] inputs;
  st ← io_fold advance_reader {| merge_readers := readers; merge_heap := [] |}
         (seq 0 (length readers));
  _ ← create_file output;
  _ ← append_file output OCCURRENCES_MAGIC;
  merge_loop (merge_fuel st) output st.

Section Sorter.
Context `{SearchMemory}.

Definition new_sorter (root : string) (chunk_limit : Z) : IO OccurrenceSorter :=
  if (chunk_limit =? 0)%Z then io_fail (invalid "search chunk target must be positive")
  else mret {| sorter_root := root; sorter_chunk_limit := chunk_limit; sorter_buffered := [];
               sorter_capacity := 0; buffered_term_bytes := 0; sorter_bytes := 0;
               sorter_runs := []; sorter_next_run := 0; sorter_spill_bytes := 0;
               sorter_high_water := 0 |}.

(** [self.next_run = self.next_run.checked_add(1)?] *)
Definition take_run (what : string) (s : OccurrenceSorter) : native_result OccurrenceSorter :=
  let? next := ok_or (overflow what) (checked_add_u64 (Z.of_N (sorter_next_run s)) 1) in
  Ok {| sorter_root := sorter_root s; sorter_chunk_limit := sorter_chunk_limit s;
        sorter_buffered := sorter_buffered s; sorter_capacity := sorter_capacity s;
        buffered_term_bytes := buffered_term_bytes s; sorter_bytes := sorter_bytes s;
        sorter_runs := sorter_runs s; sorter_next_run := Z.to_N next;
        sorter_spill_bytes := sorter_spill_bytes s; sorter_high_water := sorter_high_water s |}.

(** [self.spill_bytes = self.spill_bytes.checked_add(fs::metadata(&path)?.len())?] *)
Definition add_spill (path : string) (s : OccurrenceSorter) : IO OccurrenceSorter :=
  len ← file_length path;
  spill ← io_try (ok_or (overflow "search spill byte count")
                    (checked_add_u64 (sorter_spill_bytes s) len));
  mret {| sorter_root := sorter_root s; sorter_chunk_limit := sorter_chunk_limit s;
          sorter_buffered := sorter_buffered s; sorter_capacity := sorter_capacity s;
          buffered_term_bytes := buffered_term_bytes s; sorter_bytes := sorter_bytes s;
          sorter_runs := sorter_runs s; sorter_next_run := sorter_next_run s;
          sorter_spill_bytes := spill; sorter_high_water := sorter_high_water s |}.

Definition with_sorter_runs (s : OccurrenceSorter) (rs : list string) : OccurrenceSorter := {|
  sorter_root := sorter_root s; sorter_chunk_limit := sorter_chunk_limit s;
  sorter_buffered := sorter_buffered s; sorter_capacity := sorter_capacity s;
  buffered_term_bytes := buffered_term_bytes s; sorter_bytes := sorter_bytes s;
  sorter_runs := rs; sorter_next_run := sorter_next_run s;
  sorter_spill_bytes := sorter_spill_bytes s; sorter_high_water := sorter_high_water s
|}.

Definition raise_high_water (s : OccurrenceSorter) (bytes : Z) : OccurrenceSorter := {|
  sorter_root := sorter_root s; sorter_chunk_limit := sorter_chunk_limit s;
  sorter_buffered := sorter_buffered s; sorter_capacity := sorter_capacity s;
  buffered_term_bytes := buffered_term_bytes s; sorter_bytes := sorter_bytes s;
  sorter_runs := sorter_runs s; sorter_next_run := sorter_next_run s;
  sorter_spill_bytes := sorter_spill_bytes s;
  sorter_high_water := Z.max (sorter_high_water s) bytes
|}.

Definition set_buffer (s : OccurrenceSorter) (b : list Occurrence) (capacity terms bytes : Z)
    : OccurrenceSorter := {|
  sorter_root := sorter_root s; sorter_chunk_limit := sorter_chunk_limit s;
  sorter_buffered := b; sorter_capacity := capacity;
  buffered_term_bytes := terms; sorter_bytes := bytes;
  sorter_runs := sorter_runs s; sorter_next_run := sorter_next_run s;
  sorter_spill_bytes := sorter_spill_bytes s; sorter_high_water := sorter_high_water s
|}.

Definition occurrence_run (root kind : string) (n : N) : string :=
  path_join root (kind +:+ "-" +:+ show_N n +:+ ".run").

Definition write_occurrences (path : string) (l : list Occurrence) : IO () :=
  io_fold (fun _ o => write_occurrence path o) tt l.

Definition flush_sorter (s : OccurrenceSorter) : IO OccurrenceSorter :=
  match sorter_buffered s with
  | [] => mret s
  | _ =>
      let sorted := sort (sorter_buffered s) in
      let path := occurrence_run (sorter_root s) "occurrence" (sorter_next_run s) in
      s ← io_try (take_run "search occurrence run count" s);
      _ ← create_file path;
      _ ← append_file path OCCURRENCES_MAGIC;
      _ ← write_occurrences path sorted;
      s ← add_spill path s;
      let s := with_sorter_runs s (sorter_runs s ++ [path]) in
      mret (set_buffer s [] (sorter_capacity s) 0
              (saturating_mul_u64 (sorter_capacity s) occurrence_size))
  end.

Definition push_occurrence (s : OccurrenceSorter) (o : Occurrence) : IO OccurrenceSorter :=
  let term_bytes := term_capacity (occ_term o) in
  projected ← io_try (ok_or (overflow "search occurrence size")
                        (checked_sum (sorter_bytes s) [occurrence_size; term_bytes]));
  s ← (if negb (list_is_empty (sorter_buffered s)) && (sorter_chunk_limit s <? projected)%Z
       then flush_sorter s else mret s);
  let capacity := reserved_capacity (sorter_capacity s) (length (sorter_buffered s)) in
  terms ← io_try (ok_or (overflow "search occurrence size")
                    (checked_add_u64 (buffered_term_bytes s) term_bytes));
  let bytes := saturating_add_u64 (saturating_mul_u64 capacity occurrence_size) terms in
  let s := set_buffer s (sorter_buffered s ++ [o]) capacity terms bytes in
  let s := raise_high_water s bytes in
  if (sorter_chunk_limit s <=? bytes)%Z then flush_sorter s else mret s.

Definition merge_fan_in (s : OccurrenceSorter) : nat :=
  Nat.min MAX_MERGE_FAN_IN
    (Nat.max 2 (Z.to_nat (sorter_chunk_limit s / MERGE_READER_ACCOUNTED_BYTES))).

Definition account_readers (s : OccurrenceSorter) (n : nat) : OccurrenceSorter :=
  raise_high_water s (saturating_mul_u64 (Z.of_nat n) MERGE_READER_ACCOUNTED_BYTES).

(** One group of a merge level: [acc] are the runs of the next level. *)
Definition merge_occurrence_group (acc : list string * OccurrenceSorter) (group : list string)
    : IO (list string * OccurrenceSorter) :=
  match group with
  | [path] => mret (acc.1 ++ [path], acc.2)
  | _ =>
      let s := acc.2 in
      let path := occurrence_run (sorter_root s) "merge" (sorter_next_run s) in
      s ← io_try (take_run "search merge run count" s);
      let s := account_readers s (length group) in
      _ ← merge_occurrence_runs group path;
      s ← add_spill path s;
      _ ← io_fold (fun _ p => remove_file p) tt group;
      mret (acc.1 ++ [path], s)
  end.

Fixpoint merge_occurrence_levels (fuel : nat) (s : OccurrenceSorter) : IO OccurrenceSorter :=
  if Nat.leb (length (sorter_runs s)) (merge_fan_in s) then mret s
  else match fuel with
       | 0 => io_abort OutOfFuel
       | S fuel =>
           r ← io_fold merge_occurrence_group ([], with_sorter_runs s [])
                 (chunks (merge_fan_in s) (sorter_runs s));
           merge_occurrence_levels fuel (with_sorter_runs r.2 r.1)
       end.

(** The path of the sorted occurrences. *)
Definition finish_sorter (s : OccurrenceSorter) : IO (string * OccurrenceSorter) :=
  s ← flush_sorter s;
  s ← (match sorter_runs s with
       | [] =>
           let path := path_join (sorter_root s) "occurrence-empty.run" in
           _ ← create_file path;
           _ ← append_file path OCCURRENCES_MAGIC;
           mret (with_sorter_runs s [path])
       | _ => mret s
       end);
  s ← merge_occurrence_levels (length (sorter_runs s)) s;
  match sorter_runs s with
  | [path] => mret (path, with_sorter_runs s [])
  | rs =>
      let path := path_join (sorter_root s) "occurrence-final.run" in
      let s := account_readers s (length rs) in
      _ ← merge_occurrence_runs rs path;
      s ← add_spill path s;
      _ ← io_fold (fun _ p => remove_file p) tt rs;
      mret (path, with_sorter_runs s [])
  end.
End Sorter.

(** ** The lexicon and the postings *)
Definition write_posting (path : string) (document_id term_frequency : Z) : IO () :=
  _ ← write_u64 path document_id; write_u32 path term_frequency.

(** The variables of the loop of [write_final_index]. *)
Record FinalState := {
  current_term : option string;
  current_document : Z;
  term_frequency : Z;
  document_frequency : Z;
  postings_offset : Z;
  final_term_count : Z
}.

Definition final_start : FinalState := {|
  current_term := None; current_document := 0; term_frequency := 0; document_frequency := 0;
  postings_offset := Z.of_nat (length POSTINGS_MAGIC); final_term_count := 0
|}.

(** The first occurrence of a term, or of a document. *)
Definition begin_posting (o : Occurrence) (s : FinalState) : FinalState := {|
  current_term := Some (occ_term o); current_document := occ_document_id o;
  term_frequency := 1; document_frequency := document_frequency s;
  postings_offset := postings_offset s; final_term_count := final_term_count s
|}.

(** Writes the posting of the current document. *)
Definition end_posting (postings : string) (s : FinalState) : IO FinalState :=
  _ ← write_posting postings (current_document s) (term_frequency s);
  df ← io_try (ok_or (overflow "search document frequency")
                 (checked_add_u32 (document_frequency s) 1));
  mret {| current_term := current_term s; current_document := current_document s;
          term_frequency := term_frequency s; document_frequency := df;
          postings_offset := postings_offset s; final_term_count := final_term_count s |}.

(** Writes the lexicon entry of the current term. *)
Definition end_term (lexicon term : string) (s : FinalState) : IO FinalState :=
  _ ← write_lexicon_entry lexicon
        {| lex_term := term; lex_postings_offset := postings_offset s;
           lex_document_frequency := document_frequency s |};
  count ← io_try (ok_or (overflow "search term count")
                    (checked_add_u64 (final_term_count s) 1));
  mret {| current_term := None; current_document := current_document s;
          term_frequency := term_frequency s; document_frequency := document_frequency s;
          postings_offset := postings_offset s; final_term_count := count |}.

(** Moves the offset behind the postings of the term that ended. *)
Definition next_offset (s : FinalState) : native_result FinalState :=
  let? offset := ok_or (overflow "search postings offset")
                   (checked_add_u64 (postings_offset s) (document_frequency s * POSTING_BYTES)) in
  Ok {| current_term := current_term s; current_document := current_document s;
        term_frequency := term_frequency s; document_frequency := 0;
        postings_offset := offset; final_term_count := final_term_count s |}.

Definition final_step (lexicon postings : string) (s : FinalState) (o : Occurrence)
    : IO FinalState :=
  match current_term s with
  | None => mret (begin_posting o s)
  | Some term =>
      if bool_decide (term = occ_term o) && (current_document s =? occ_document_id o)%Z then
        tf ← io_try (ok_or (overflow "search term frequency")
                       (checked_add_u32 (term_frequency s) 1));
        mret {| current_term := current_term s; current_document := current_document s;
                term_frequency := tf; document_frequency := document_frequency s;
                postings_offset := postings_offset s; final_term_count := final_term_count s |}
      else if bool_decide (term = occ_term o) then
        s ← end_posting postings s;
        mret (begin_posting o s)
      else
        s ← end_posting postings s;
        s ← end_term lexicon term s;
        s ← io_try (next_offset s);
        mret (begin_posting o s)
  end.

(** [while let Some(occurrence) = occurrences.next()? { s = f(s, occurrence)?; }] *)
Fixpoint each_occurrence {S} (fuel : nat) (f : S -> Occurrence -> IO S) (s : S) (bytes : list Z)
    : IO S :=
  match fuel with
  | 0 => io_abort OutOfFuel
  | Datatypes.S fuel =>
      next ← io_try (next_occurrence bytes);
      match next with
      | None => mret s
      | Some (o, rest) => s ← f s o; each_occurrence fuel f s rest
      end
  end.

(** The number of terms, and the bytes of both files. *)
Definition write_final_index (database_path occurrences_path : string) : IO (Z * Z) :=
  occurrences ← open_occurrences occurrences_path;
  let lexicon := sidecar_path database_path LEXICON_SUFFIX in
  let postings := sidecar_path database_path POSTINGS_SUFFIX in
  _ ← create_file lexicon;
  _ ← create_file postings;
  _ ← append_file lexicon LEXICON_MAGIC;
  _ ← append_file postings POSTINGS_MAGIC;
  s ← each_occurrence (1 + length occurrences) (final_step lexicon postings) final_start
        occurrences;
  s ← (match current_term s with
       | None => mret s
       | Some term => s ← end_posting postings s; end_term lexicon term s
       end);
  lexicon_bytes ← file_length lexicon;
  postings_bytes ← file_length postings;
  bytes ← io_try (ok_or (overflow "search index size")
                    (checked_add_u64 lexicon_bytes postings_bytes));
  mret (final_term_count s, bytes).

(** ** The build *)
Record SearchIndexSpec := {
  index_fields : list string;
  index_layer : string;
  index_node_types : list string
}.

Record SearchIndexBuildResult := {
  result_metadata : SearchBackendMetadata;
  result_spill_bytes : Z;
  result_high_water_bytes : Z
}.

Record PassState := {
  pass_sorter : OccurrenceSorter;
  pass_document_count : Z;
  pass_total_tokens : Z;
  pass_index_order : Z
}.

Definition with_sorter (st : PassState) (s : OccurrenceSorter) : PassState := {|
  pass_sorter := s; pass_document_count := pass_document_count st;
  pass_total_tokens := pass_total_tokens st; pass_index_order := pass_index_order st
|}.

Definition stage_file_stem (name : string) : string :=
  let stem := trim_matches "_" (stem_chars name) in
  if is_empty stem then "table" else stem.

(** [StagedNodeChunks::next]: the file of a chunk. *)
Definition staged_chunk_path (staging_dir stem : string) (index : Z) : string :=
  if (index =? 0)%Z then path_join staging_dir (stem +:+ ".json")
  else path_join staging_dir (stem +:+ "__" +:+ pad 6 (Z.to_N index) +:+ ".json").

Definition ensure_targets_absent (database_path : string) : IO () :=
  io_fold (fun _ suffix =>
    let path := sidecar_path database_path suffix in
    exists_ ← path_exists path;
    if exists_ : bool then io_fail (invalid ("search sidecar target already exists: " +:+ path))
    else mret ()) tt SIDECAR_SUFFIXES.

(** [fs::remove_dir_all]: every file below the directory. *)
Definition remove_dir_all (root : string) : IO () := fun w =>
  Ok ((), set_disk w
       (base.filter (fun e => starts_with e.1 (root +:+ "/") = false) (disk w))).

Section Build.
Context `{SearchCodecs, SearchMemory, CharTables}.
Context (database_path staging_dir : string) (chunk_bytes : Z).
Context (search_indexes : list SearchIndexSpec) (process_id : N).

Definition documents_path : string := sidecar_path database_path DOCUMENTS_SUFFIX.
Definition offsets_path : string := sidecar_path database_path DOCUMENT_OFFSETS_SUFFIX.
Definition lengths_path : string := sidecar_path database_path DOCUMENT_LENGTHS_SUFFIX.

(** The callback of [tokenize]. *)
Definition index_term (document_id : Z) (s : OccurrenceSorter * Z) (term : string)
    : IO (OccurrenceSorter * Z) :=
  sorter ← push_occurrence s.1 {| occ_term := term; occ_document_id := document_id |};
  length ← io_try (ok_or (overflow "search document token count") (checked_add_u32 s.2 1));
  mret (sorter, length).

(** The callback of [stream_staged_nodes]. *)
Definition index_node (index : SearchIndexSpec) (node_type : string) (st : PassState)
    (node : StagedNode) : IO PassState :=
  let layer := from_schema (index_layer index) in
  let document_id := pass_document_count st in
  r ← io_fold (fun s field => io_fold (index_term document_id) s (tokenize (staged_field node field)))
        (pass_sorter st, 0%Z) (index_fields index);
  offset ← write_document documents_path
    {| doc_id := sn_id node; doc_node_type := node_type;
       doc_index_order := pass_index_order st; doc_layer := layer |};
  _ ← write_u64 offsets_path offset;
  _ ← write_document_stat lengths_path
    {| stat_length := r.2; stat_index_order := pass_index_order st; stat_layer := layer |};
  count ← io_try (ok_or (overflow "search document count")
                    (checked_add_u64 (pass_document_count st) 1));
  total ← io_try (ok_or (overflow "search token count")
                    (checked_add_u64 (pass_total_tokens st) r.2));
  mret {| pass_sorter := r.1; pass_document_count := count; pass_total_tokens := total;
          pass_index_order := pass_index_order st |}.

(** Every node that is decoded before the end, or before an error in the file. *)
Definition stream_staged_nodes {S} (path : string) (callback : S -> StagedNode -> IO S) (s : S)
    : IO S :=
  bytes ← open_file path;
  let (nodes, ending) := decode_staged_nodes bytes in
  s ← io_fold callback s nodes;
  _ ← io_try ending;
  mret s.

(** [for staged_path in StagedNodeChunks::new(..) { .. }], from chunk [index] on. *)
Fixpoint index_chunks (fuel : nat) (spec : SearchIndexSpec) (node_type : string) (index : Z)
    (st : PassState) : IO PassState :=
  match fuel with
  | 0 => io_abort OutOfFuel
  | S fuel =>
      let path := staged_chunk_path staging_dir (stage_file_stem node_type) index in
      exists_ ← path_exists path;
      if exists_ : bool then
        match checked_add_u64 index 1 with
        | None => mret st
        | Some next =>
            st ← stream_staged_nodes path (index_node spec node_type) st;
            index_chunks fuel spec node_type next st
        end
      else mret st
  end.

(** No more chunks than files. *)
Definition index_node_type (spec : SearchIndexSpec) (st : PassState) (node_type : string)
    : IO PassState := fun w =>
  index_chunks (1 + size (disk w)) spec node_type 0 st w.

Definition index_spec (st : PassState) (spec : SearchIndexSpec) : IO PassState :=
  st ← io_fold (index_node_type spec) st (index_node_types spec);
  order ← io_try (ok_or (overflow "search index order")
                    (checked_add_u32 (pass_index_order st) 1));
  mret {| pass_sorter := pass_sorter st; pass_document_count := pass_document_count st;
          pass_total_tokens := pass_total_tokens st; pass_index_order := order |}.

(** The digests of the sidecars. *)
Definition hash_sidecars : IO (gmap string string) :=
  io_fold (fun files suffix =>
    bytes ← open_file (sidecar_path database_path suffix);
    mret (<[suffix := sha256_hex bytes]> files)) ∅ SIDECAR_SUFFIXES.

(** The files of the documents, with their headers. *)
Definition create_tables : IO () :=
  _ ← create_file documents_path;
  _ ← create_file offsets_path;
  _ ← create_file lengths_path;
  _ ← append_file documents_path DOCUMENTS_MAGIC;
  _ ← append_file offsets_path DOCUMENT_OFFSETS_MAGIC;
  append_file lengths_path DOCUMENT_LENGTHS_MAGIC.

Definition write_metadata (m : SidecarFileMetadata) : IO () :=
  encoded ← io_try (encode_metadata m);
  let metadata_path := sidecar_path database_path METADATA_SUFFIX in
  _ ← create_file metadata_path;
  append_file metadata_path (str_bytes (encoded +:+ String "010" "")).

Definition build_inner (run_root : string) : IO SearchIndexBuildResult :=
  sorter ← new_sorter run_root chunk_bytes;
  _ ← create_tables;
  st ← io_fold index_spec
         {| pass_sorter := sorter; pass_document_count := 0; pass_total_tokens := 0;
            pass_index_order := 0 |} search_indexes;
  finished ← finish_sorter (pass_sorter st);
  let (occurrence_path, sorter) := finished : string * OccurrenceSorter in
  final ← write_final_index database_path occurrence_path;
  let (term_count, final_spill_bytes) := final : Z * Z in
  _ ← remove_file occurrence_path;
  _ ← write_metadata
        {| file_backend := BACKEND_NAME; file_format_version := FORMAT_VERSION;
           file_document_count := pass_document_count st; file_term_count := term_count;
           file_total_tokens := pass_total_tokens st |};
  files ← hash_sidecars;
  spill ← io_try (ok_or (overflow "search spill byte count")
                    (checked_add_u64 (sorter_spill_bytes sorter) final_spill_bytes));
  mret {| result_metadata :=
            {| backend := BACKEND_NAME; format_version := Z.to_N FORMAT_VERSION;
               backend_files := files; document_count := Z.to_N (pass_document_count st);
               term_count := Z.to_N term_count; total_tokens := Z.to_N (pass_total_tokens st) |};
          result_spill_bytes := spill; result_high_water_bytes := sorter_high_water sorter |}.

(** The run directory is removed after an error too, which says nothing that is modelled. *)
Definition build : IO SearchIndexBuildResult :=
  if (chunk_bytes =? 0)%Z then io_fail (invalid "search chunk target must be positive")
  else
    _ ← ensure_targets_absent database_path;
    let run_root := database_path +:+ ".search-runs-" +:+ show_N process_id in
    result ← build_inner run_root;
    _ ← remove_dir_all run_root;
    mret result.
End Build.
