(* ===== verification/SearchCodec.v ===== *)
(** * The sidecar files read back as they were written

    For every writer of the search index, the reader that undoes it. *)
From S2P Require Import Prelude Order Text Bytes Json Protocol Disk SearchModel SearchBuild.

(** ** Readers *)
Lemma read_exact_app a b n : length a = n -> read_exact n (a ++ b) = Ok (a, b).
Proof.
  intros <-. unfold read_exact. rewrite length_app.
  destruct (Nat.ltb_spec (length a + length b) (length a)); [lia|].
  by rewrite take_app_length, drop_app_length.
Qed.

Lemma seek_app a b n : Z.of_nat (length a) = n -> seek (a ++ b) n = b.
Proof. intros <-. unfold seek. by rewrite Nat2Z.id, drop_app_length. Qed.

Lemma read_magic_app magic bytes : length magic = 8 -> read_magic (magic ++ bytes) magic = Ok bytes.
Proof.
  intros Hm. unfold read_magic. rewrite read_exact_app by done. simpl.
  by rewrite decide_True.
Qed.

Definition u32 (v : Z) : Prop := (0 <= v <= u32_max)%Z.
Definition u64 (v : Z) : Prop := (0 <= v <= u64_max)%Z.

Lemma read_u32_app v bytes : u32 v -> read_u32 (to_le 4 v ++ bytes) = Ok (v, bytes).
Proof.
  unfold u32, u32_max. intros Hv. unfold read_u32. rewrite read_exact_app by done. unfold result_bind. cbv beta iota.
  rewrite from_to_le; [done|]. simpl. lia.
Qed.

Lemma read_optional_u32_app v bytes :
  u32 v -> read_optional_u32 (to_le 4 v ++ bytes) = Some (v, bytes).
Proof.
  unfold u32, u32_max. intros Hv. unfold read_optional_u32. rewrite read_exact_app by done.
  cbv beta iota. rewrite from_to_le; [done|]. simpl. lia.
Qed.

Lemma read_u64_app v bytes : u64 v -> read_u64 (to_le 8 v ++ bytes) = Ok (v, bytes).
Proof.
  unfold u64, u64_max. intros Hv. unfold read_u64. rewrite read_exact_app by done. unfold result_bind. cbv beta iota.
  rewrite from_to_le; [done|]. simpl. lia.
Qed.

(** ** Terms *)
(** What the tokenizer emits: text that the readers accept. *)
Definition term_ok (t : string) : Prop :=
  is_utf8 t /\ (Z.of_nat (String.length t) <= MAX_TERM_BYTES)%Z.

Lemma read_text_app a b t bytes :
  term_ok t ->
  read_text a b (Z.of_nat (String.length t)) MAX_TERM_BYTES (str_bytes t ++ bytes) = Ok (t, bytes).
Proof.
  intros [Hu Hl]. unfold read_text. destruct (Z.ltb_spec MAX_TERM_BYTES (Z.of_nat (String.length t))); [lia|].
  rewrite Nat2Z.id, read_exact_app by apply length_str_bytes. simpl.
  by rewrite from_utf8_str.
Qed.

Lemma term_length_u32 t : term_ok t -> u32 (Z.of_nat (String.length t)).
Proof. intros [_ Hl]. unfold u32, u32_max, MAX_TERM_BYTES in *. lia. Qed.

(** ** Occurrences *)
Definition occ_ok (o : Occurrence) : Prop := term_ok (occ_term o) /\ u64 (occ_document_id o).

Definition occ_bytes (o : Occurrence) : list Z :=
  to_le 4 (Z.of_nat (String.length (occ_term o))) ++ str_bytes (occ_term o)
  ++ to_le 8 (occ_document_id o).
Definition occs_bytes (l : list Occurrence) : list Z := concat (occ_bytes <$> l).
Definition run_content (l : list Occurrence) : list Z := OCCURRENCES_MAGIC ++ occs_bytes l.

Lemma next_occurrence_app o bytes :
  occ_ok o -> next_occurrence (occ_bytes o ++ bytes) = Ok (Some (o, bytes)).
Proof.
  intros [Ht Hd]. unfold occ_bytes. rewrite <- !app_assoc.
  pose proof (term_length_u32 _ Ht) as Hl. unfold u32, u32_max in Hl.
  assert (from_le (to_le 4 (Z.of_nat (String.length (occ_term o)))) = Z.of_nat (String.length (occ_term o))) as Hle
    by (apply from_to_le; simpl; lia).
  destruct (to_le 4 (Z.of_nat (String.length (occ_term o)))) as [|b0 b] eqn:E; [done|].
  assert (length b = 3) as Hb.
  { apply (f_equal length) in E. rewrite length_to_le in E. simpl in E. lia. }
  unfold next_occurrence. rewrite <- app_comm_cons. cbv beta iota. rewrite read_exact_app by done.
  cbv beta iota zeta delta [result_bind]. rewrite Hle, read_text_app by done. rewrite read_u64_app by done. by destruct o.
Qed.

Lemma occs_bytes_cons o l : occs_bytes (o :: l) = occ_bytes o ++ occs_bytes l.
Proof. done. Qed.

Lemma next_occurrence_cons o l :
  occ_ok o -> next_occurrence (occs_bytes (o :: l)) = Ok (Some (o, occs_bytes l)).
Proof. intros Ho. rewrite occs_bytes_cons. by apply next_occurrence_app. Qed.

Lemma occs_bytes_app l1 l2 : occs_bytes (l1 ++ l2) = occs_bytes l1 ++ occs_bytes l2.
Proof. unfold occs_bytes. by rewrite fmap_app, concat_app. Qed.

Lemma length_occs_bytes l : length l <= length (occs_bytes l).
Proof.
  induction l as [|o l IH]; [done|]. rewrite occs_bytes_cons, length_app. unfold occ_bytes.
  rewrite length_app, length_to_le. simpl. lia.
Qed.

Lemma wp_write_occurrence E path o old w (Q : () -> World -> Prop) :
  disk w !! path = Some old -> occ_ok o ->
  (forall w', disk w' = <[path := old ++ occ_bytes o]> (disk w) -> Q tt w') ->
  wp (write_occurrence path o) w E Q.
Proof.
  intros Hp [Ht _] HQ. unfold write_occurrence. pose proof (term_length_u32 _ Ht) as [_ Hl].
  destruct (Z.ltb_spec u32_max (Z.of_nat (String.length (occ_term o)))); [lia|].
  apply wp_bind. eapply wp_append; [exact Hp|].
  apply wp_bind. eapply wp_append; [apply lookup_insert_eq|].
  eapply wp_append; [apply lookup_insert_eq|]. apply HQ. simpl.
  rewrite !insert_insert_eq. f_equal. unfold occ_bytes. by rewrite <- !app_assoc.
Qed.

Lemma wp_write_occurrences E path l old w (Q : () -> World -> Prop) :
  disk w !! path = Some old -> Forall occ_ok l ->
  (forall w', disk w' = <[path := old ++ occs_bytes l]> (disk w) -> Q tt w') ->
  wp (write_occurrences path l) w E Q.
Proof.
  intros Hp Hl HQ.
  apply wp_fold with (I := fun _ d v => disk v = <[path := old ++ occs_bytes d]> (disk w)).
  - rewrite app_nil_r, insert_id; done.
  - intros [] d x rest v -> Hv. apply Forall_app in Hl as [_ Hl]. inversion Hl; subst.
    eapply wp_write_occurrence; [by rewrite Hv, lookup_insert_eq|done|].
    intros v' ->. rewrite Hv, insert_insert_eq, occs_bytes_app, <- app_assoc. simpl.
    unfold occs_bytes at 3. simpl. by rewrite app_nil_r.
  - intros [] v Hv. by apply HQ.
Qed.
