(* ===== verification/SearchRead.v ===== *)
(** * Validating and searching an index (src/search_index/read.rs)

    [validate] reads every sidecar and checks that they fit together; [search] merges the
    postings of the terms of a query by document, scores every document, and keeps the best
    ones.  An open file is its bytes, with the position of the next read where the code
    reads on. *)
From S2P Require Import Prelude Order Text Bytes Float64 Json Protocol Disk SearchModel SearchBuild.

Definition MAX_QUERY_TERMS : nat := 32.
Definition MAX_METADATA_BYTES : Z := (64 * 1024)%Z.

Open Scope rust_scope.

(** ** Validation *)
Definition header_bytes : Z := 8.

Section Validate.
Context `{SearchCodecs}.

(** One suffix of the loop that ends [validate_metadata]. *)
Definition validate_sidecar (database_path : string) (metadata : SearchBackendMetadata)
    (checksums : bool) (suffix : string) : IO () :=
  expected ← io_try (ok_or (invalid ("search backend metadata is missing " +:+ suffix))
                       (backend_files metadata !! suffix));
  let path := sidecar_path database_path suffix in
  exists_ ← path_exists path;
  if negb exists_ then io_fail (invalid ("search sidecar file is missing: " +:+ path))
  else if checksums then
    bytes ← open_file path;
    if decide (sha256_hex bytes = expected) then mret ()
    else io_fail (invalid ("search sidecar checksum mismatch: " +:+ path))
  else mret ().

Definition metadata_matches (file : SidecarFileMetadata) (metadata : SearchBackendMetadata) : bool :=
  bool_decide (file_backend file = backend metadata) &&
  (file_format_version file =? Z.of_N (format_version metadata))%Z &&
  (file_document_count file =? Z.of_N (document_count metadata))%Z &&
  (file_term_count file =? Z.of_N (term_count metadata))%Z &&
  (file_total_tokens file =? Z.of_N (total_tokens metadata))%Z.

Definition validate_metadata (database_path : string) (metadata : SearchBackendMetadata)
    (checksums : bool) : IO () :=
  if negb (bool_decide (backend metadata = BACKEND_NAME)
           && (Z.of_N (format_version metadata) =? FORMAT_VERSION)%Z)
  then io_fail (invalid "unsupported search sidecar backend metadata")
  else
    let metadata_path := sidecar_path database_path METADATA_SUFFIX in
    len ← file_length metadata_path;
    if (MAX_METADATA_BYTES <? len)%Z
    then io_fail (invalid "search sidecar metadata exceeds the read limit")
    else
      bytes ← open_file metadata_path;
      file_metadata ← io_try (decode_metadata bytes);
      if negb (metadata_matches file_metadata metadata)
      then io_fail (invalid "search sidecar file metadata does not match manifest metadata")
      else io_fold (fun _ => validate_sidecar database_path metadata checksums) tt SIDECAR_SUFFIXES.

(** The postings of one entry: [remaining] of them, after the document [previous]. *)
Fixpoint validate_postings (remaining : nat) (documents : Z) (previous : option Z)
    (bytes : list Z) : native_result () :=
  match remaining with
  | 0 => Ok tt
  | S remaining =>
      let? (document_id, bytes) := read_u64 bytes in
      let? (term_frequency, bytes) := read_u32 bytes in
      if (documents <=? document_id)%Z || (term_frequency =? 0)%Z
      then Err (invalid "search posting contains invalid values")
      else if match previous with Some p => (document_id <=? p)%Z | None => false end
      then Err (invalid "search postings are not strictly document-sorted")
      else validate_postings remaining documents (Some document_id) bytes
  end.

(** The entries of the lexicon, after [previous_term]: the offset behind the last posting
    and the number of terms.  An entry takes four bytes at least. *)
Fixpoint validate_entries (fuel : nat) (documents : Z) (postings lexicon : list Z)
    (previous_term : option string) (expected_offset terms : Z) : IO (Z * Z) :=
  match fuel with
  | 0 => io_abort OutOfFuel
  | S fuel =>
      next ← io_try (read_lexicon_entry lexicon MAX_TERM_BYTES);
      match next with
      | None => mret (expected_offset, terms)
      | Some (entry, lexicon) =>
          if match previous_term with Some t => le_b (lex_term entry) t | None => false end
          then io_fail (invalid "search lexicon is not strictly sorted")
          else if negb (lex_postings_offset entry =? expected_offset)%Z
          then io_fail (invalid "search lexicon has a non-contiguous postings offset")
          else
            _ ← io_try (validate_postings (Z.to_nat (lex_document_frequency entry)) documents None
                          (seek postings (lex_postings_offset entry)));
            offset ← io_try (ok_or (overflow "search postings size")
                               (checked_add_u64 expected_offset
                                  (lex_document_frequency entry * POSTING_BYTES)));
            terms ← io_try (ok_or (overflow "search term count") (checked_add_u64 terms 1));
            validate_entries fuel documents postings lexicon (Some (lex_term entry)) offset terms
      end
  end.

Definition validate_lexicon_and_postings (database_path : string)
    (metadata : SearchBackendMetadata) : IO () :=
  lexicon ← open_file (sidecar_path database_path LEXICON_SUFFIX);
  postings ← open_file (sidecar_path database_path POSTINGS_SUFFIX);
  entries ← io_try (read_magic lexicon LEXICON_MAGIC);
  _ ← io_try (read_magic postings POSTINGS_MAGIC);
  r ← validate_entries (1 + length entries) (Z.of_N (document_count metadata)) postings
        entries None (Z.of_nat (length POSTINGS_MAGIC)) 0;
  if negb (r.2 =? Z.of_N (term_count metadata))%Z
     || negb (r.1 =? Z.of_nat (length postings))%Z
  then io_fail (invalid "search lexicon/postings counts do not match metadata")
  else mret ().

(** The documents from [document_id] on, [remaining] of them. *)
Fixpoint validate_documents (remaining : nat) (document_id : Z) (offsets lengths documents : list Z)
    : native_result () :=
  match remaining with
  | 0 => Ok tt
  | S remaining =>
      let? (offset, offsets) := read_u64 offsets in
      let? stat := read_document_stat_at lengths header_bytes document_id in
      let? document := read_document_at documents offset MAX_DOCUMENT_RECORD_BYTES in
      if negb (doc_index_order document =? stat_index_order stat)%Z
         || negb (bool_decide (doc_layer document = stat_layer stat))
      then Err (invalid "search document metadata does not match length table")
      else validate_documents remaining (document_id + 1) offsets lengths documents
  end.

Definition table_size (what : string) (documents entry_bytes : Z) : native_result Z :=
  let? entries := ok_or (overflow what) (checked_mul_u64 documents entry_bytes) in
  ok_or (overflow what) (checked_add_u64 header_bytes entries).

Definition validate (database_path : string) (metadata : SearchBackendMetadata) : IO () :=
  _ ← validate_metadata database_path metadata true;
  offsets ← open_file (sidecar_path database_path DOCUMENT_OFFSETS_SUFFIX);
  lengths ← open_file (sidecar_path database_path DOCUMENT_LENGTHS_SUFFIX);
  documents ← open_file (sidecar_path database_path DOCUMENTS_SUFFIX);
  offset_table ← io_try (read_magic offsets DOCUMENT_OFFSETS_MAGIC);
  _ ← io_try (read_magic lengths DOCUMENT_LENGTHS_MAGIC);
  _ ← io_try (read_magic documents DOCUMENTS_MAGIC);
  let count := Z.of_N (document_count metadata) in
  expected_offsets ← io_try (table_size "search document-offset size" count DOCUMENT_OFFSET_BYTES);
  expected_lengths ← io_try (table_size "search document-length size" count DOCUMENT_STAT_BYTES);
  if negb (Z.of_nat (length offsets) =? expected_offsets)%Z
  then io_fail (invalid "search document-offset table has invalid length")
  else if negb (Z.of_nat (length lengths) =? expected_lengths)%Z
  then io_fail (invalid "search document-length table has invalid length")
  else
    _ ← io_try (validate_documents (N.to_nat (document_count metadata)) 0 offset_table lengths
                  documents);
    validate_lexicon_and_postings database_path metadata.
End Validate.

(** ** Scores *)
Section Scores.
Context `{Libm}.

Definition inverse_document_frequency (document_count document_frequency : Z) : f64 :=
  let n := f64_of_Z document_count in
  let df := f64_of_Z document_frequency in
  let half := f64_literal 1 2 in
  f64_ln (f64_add (f64_of_Z 1) (f64_div (f64_add (f64_sub n df) half) (f64_add df half))).

Definition K1 : f64 := f64_literal 12 10.
Definition B : f64 := f64_literal 75 100.

(** [x > 0.0] *)
Definition f64_positive (x : f64) : bool :=
  match f64_partial_cmp x f64_zero with Some Gt => true | _ => false end.

Definition bm25_term_score (term_frequency length : Z) (average_length idf : f64) : f64 :=
  let tf := f64_of_Z term_frequency in
  let one := f64_of_Z 1 in
  let length_ratio :=
    if f64_positive average_length then f64_div (f64_of_Z length) average_length else f64_zero in
  f64_mul idf
    (f64_div (f64_mul tf (f64_add K1 one))
       (f64_add tf (f64_mul K1 (f64_add (f64_sub one B) (f64_mul B length_ratio))))).

Definition round6 (value : f64) : f64 :=
  f64_div (f64_round (f64_mul value (f64_of_Z 1000000))) (f64_of_Z 1000000).
End Scores.

(** ** Candidates *)
Record Candidate := { cand_document_id : Z; cand_index_order : Z; cand_score : f64 }.

Definition candidate_order (left right : Candidate) : comparison :=
  then_with (default Eq (f64_partial_cmp (cand_score right) (cand_score left)))
    (then_with (cmp (cand_index_order left) (cand_index_order right))
       (cmp (cand_document_id left) (cand_document_id right))).

(** [iter().enumerate().max_by(..)]: the last of the greatest elements, with its index. *)
Fixpoint max_by {A} (ord : A -> A -> comparison) (i : nat) (best : option (nat * A)) (l : list A)
    : option (nat * A) :=
  match l with
  | [] => best
  | x :: l =>
      let best :=
        match best with
        | Some (j, y) => match ord y x with Gt => Some (j, y) | _ => Some (i, x) end
        | None => Some (i, x)
        end in
      max_by ord (S i) best l
  end.

(** [Vec::swap_remove]: the last element takes the place of the removed one. *)
Definition swap_remove {A} (i : nat) (l : list A) : list A :=
  match last l with Some x => removelast (<[i := x]> l) | None => l end.

Definition retain_best (best : list Candidate) (candidate : Candidate) (limit : Z)
    : list Candidate :=
  let best := best ++ [candidate] in
  if (Z.of_nat (length best) <=? limit)%Z then best
  else match max_by candidate_order 0 None best with
       | Some (worst, _) => swap_remove worst best
       | None => best
       end.

(** [best.sort_by(candidate_order)] *)
Definition candidate_leb (x y : Candidate) : bool :=
  match candidate_order x y with Gt => false | _ => true end.

(** ** Query terms *)
Definition add_query_term (terms : gset string) (term : string) : gset string :=
  if Nat.ltb (size terms) MAX_QUERY_TERMS || bool_decide (term ∈ terms) then {[term]} ∪ terms
  else terms.

Definition query_terms `{CharTables} (query : string) : gset string :=
  fold_left add_query_term (tokenize query) ∅.

(** The entries of the query's terms; reading stops behind the last of them. *)
Fixpoint find_entries (fuel : nat) (terms : gset string) (last_query : string)
    (found : gmap string LexiconEntry) (lexicon : list Z) : IO (gmap string LexiconEntry) :=
  match fuel with
  | 0 => io_abort OutOfFuel
  | S fuel =>
      next ← io_try (read_lexicon_entry lexicon MAX_TERM_BYTES);
      match next with
      | None => mret found
      | Some (entry, lexicon) =>
          if decide (lex_term entry ∈ terms)
          then find_entries fuel terms last_query (<[lex_term entry := entry]> found) lexicon
          else if lt_b last_query (lex_term entry) then mret found
          else find_entries fuel terms last_query found lexicon
      end
  end.

Definition find_lexicon_entries (database_path : string) (terms : gset string)
    : IO (gmap string LexiconEntry) :=
  bytes ← open_file (sidecar_path database_path LEXICON_SUFFIX);
  lexicon ← io_try (read_magic bytes LEXICON_MAGIC);
  let last_query := default "" (last (btree_elements terms)) in
  find_entries (1 + length lexicon) terms last_query ∅ lexicon.

(** ** Postings *)
Record PostingCursor := { cursor_file : list Z; remaining : Z; cursor_idf : f64 }.

Definition open_cursor (path : string) (offset count : Z) (idf : f64) : IO PostingCursor :=
  file ← open_file path;
  mret {| cursor_file := seek file offset; remaining := count; cursor_idf := idf |}.

Definition next_posting (c : PostingCursor) : native_result (option (Z * Z) * PostingCursor) :=
  if (remaining c =? 0)%Z then Ok (None, c)
  else
    let? (document_id, rest) := read_u64 (cursor_file c) in
    let? (term_frequency, rest) := read_u32 rest in
    Ok (Some (document_id, term_frequency),
        {| cursor_file := rest; remaining := remaining c - 1; cursor_idf := cursor_idf c |}).

Record HeapPosting := {
  posting_document_id : Z;
  posting_term_frequency : Z;
  cursor_index : nat
}.

Definition heap_posting_cmp (x y : HeapPosting) : comparison :=
  then_with (cmp (posting_document_id y) (posting_document_id x))
    (cmp (cursor_index y) (cursor_index x)).

Record SearchState := { cursors : list PostingCursor; posting_heap : list HeapPosting }.

(** [if let Some(posting) = cursors[i].next()? { heap.push(..) }] *)
Definition advance_cursor (st : SearchState) (i : nat) : IO SearchState :=
  match cursors st !! i with
  | None => io_abort Panicked
  | Some cursor =>
      next ← io_try (next_posting cursor);
      let (posting, cursor) := next : option (Z * Z) * PostingCursor in
      let cs := <[i := cursor]> (cursors st) in
      mret match posting with
           | None => {| cursors := cs; posting_heap := posting_heap st |}
           | Some (d, tf) =>
               {| cursors := cs;
                  posting_heap := {| posting_document_id := d; posting_term_frequency := tf;
                                     cursor_index := i |} :: posting_heap st |}
           end
  end.

(** Pops the postings of [document_id]. *)
Fixpoint pop_document (fuel : nat) (document_id : Z) (heap : list HeapPosting)
    : list HeapPosting * list HeapPosting :=
  match fuel with
  | 0 => ([], heap)
  | S fuel =>
      match heap_pop heap_posting_cmp heap with
      | Some (p, rest) =>
          if (posting_document_id p =? document_id)%Z then
            let (ps, rest) := pop_document fuel document_id rest in (p :: ps, rest)
          else ([], heap)
      | None => ([], heap)
      end
  end.

Section Search.
Context `{SearchCodecs, CharTables, Libm}.

Definition score_posting (length : Z) (average_length : f64) (s : f64 * SearchState)
    (p : HeapPosting) : IO (f64 * SearchState) :=
  match cursors s.2 !! cursor_index p with
  | None => io_abort Panicked
  | Some cursor =>
      let score := f64_add s.1 (bm25_term_score (posting_term_frequency p) length average_length
                                  (cursor_idf cursor)) in
      st ← advance_cursor s.2 (cursor_index p);
      mret (score, st)
  end.

(** [while let Some(first) = heap.pop() { .. }] *)
Fixpoint rank_documents (fuel : nat) (lengths : list Z) (average_length : f64)
    (layer : SearchLayer) (limit : Z) (best : list Candidate) (st : SearchState)
    : IO (list Candidate) :=
  match fuel with
  | 0 => io_abort OutOfFuel
  | S fuel =>
      match heap_pop heap_posting_cmp (posting_heap st) with
      | None => mret best
      | Some (first, heap) =>
          let document_id := posting_document_id first in
          let (others, heap) := pop_document (length heap) document_id heap in
          stat ← io_try (read_document_stat_at lengths header_bytes document_id);
          r ← io_fold (score_posting (stat_length stat) average_length)
                (f64_zero, {| cursors := cursors st; posting_heap := heap |}) (first :: others);
          let best :=
            if decide (stat_layer stat = layer) then
              retain_best best
                {| cand_document_id := document_id; cand_index_order := stat_index_order stat;
                   cand_score := round6 r.1 |} limit
            else best in
          rank_documents fuel lengths average_length layer limit best r.2
      end
  end.

(** Every round takes a posting from the heap. *)
Definition rank_fuel (st : SearchState) : nat :=
  1 + length (posting_heap st) + sum_list ((fun c => Z.to_nat (remaining c)) <$> cursors st).

Record RankedDocument := {
  ranked_id : string;
  ranked_node_type : string;
  ranked_index_order : Z;
  ranked_layer : string;
  ranked_score : f64
}.

Definition offset_position (document_id : Z) : native_result Z :=
  let? entries := ok_or (overflow "search document-offset position")
                    (checked_mul_u64 document_id DOCUMENT_OFFSET_BYTES) in
  ok_or (overflow "search document-offset position") (checked_add_u64 header_bytes entries).

Definition read_result (offsets documents : list Z) (candidate : Candidate)
    : native_result RankedDocument :=
  let? position := offset_position (cand_document_id candidate) in
  let? (document_offset, _) := read_u64 (seek offsets position) in
  let? document := read_document_at documents document_offset MAX_DOCUMENT_RECORD_BYTES in
  Ok {| ranked_id := doc_id document; ranked_node_type := doc_node_type document;
        ranked_index_order := doc_index_order document;
        ranked_layer := layer_as_str (doc_layer document); ranked_score := cand_score candidate |}.

Definition requested_layer (layer : string) : native_result SearchLayer :=
  if decide (layer = "semantic") then Ok Semantic
  else if decide (layer = "syntax") then Ok Syntax
  else Err (invalid ("sidecar search requires semantic or syntax layer, received " +:+ layer)).

Definition search (database_path : string) (metadata : SearchBackendMetadata)
    (query layer : string) (limit : Z) : IO (list RankedDocument) :=
  let count := Z.of_N (document_count metadata) in
  if (limit =? 0)%Z || (count =? 0)%Z then mret []
  else
    _ ← validate_metadata database_path metadata false;
    layer ← io_try (requested_layer layer);
    let terms := query_terms query in
    if decide (terms = ∅) then mret []
    else
      entries ← find_lexicon_entries database_path terms;
      if decide (entries = ∅) then mret []
      else
        let postings_path := sidecar_path database_path POSTINGS_SUFFIX in
        cs ← io_fold (fun cs entry =>
               c ← open_cursor postings_path (lex_postings_offset entry)
                     (lex_document_frequency entry)
                     (inverse_document_frequency count (lex_document_frequency entry));
               mret (cs ++ [c])) [] (btree_values entries);
        st ← io_fold advance_cursor {| cursors := cs; posting_heap := [] |} (seq 0 (length cs));
        lengths ← open_file (sidecar_path database_path DOCUMENT_LENGTHS_SUFFIX);
        _ ← io_try (read_magic lengths DOCUMENT_LENGTHS_MAGIC);
        let average_length :=
          f64_div (f64_of_Z (Z.of_N (total_tokens metadata))) (f64_of_Z count) in
        best ← rank_documents (rank_fuel st) lengths average_length layer limit [] st;
        let best := sort_by candidate_leb best in
        offsets ← open_file (sidecar_path database_path DOCUMENT_OFFSETS_SUFFIX);
        documents ← open_file (sidecar_path database_path DOCUMENTS_SUFFIX);
        _ ← io_try (read_magic offsets DOCUMENT_OFFSETS_MAGIC);
        _ ← io_try (read_magic documents DOCUMENTS_MAGIC);
        io_fold (fun results c =>
          r ← io_try (read_result offsets documents c); mret (results ++ [r])) [] best.
End Search.
