(* ===== verification/SearchSort.v ===== *)
(** * The occurrences of the search index, sorted on disk

    What an [OccurrenceSorter] holds, and the laws of its operations: [finish_sorter]
    leaves one file with all the occurrences that were pushed, in their order, whatever the
    chunk limit and however many merge levels it takes. *)
From Stdlib Require Import Numbers.DecimalString Numbers.DecimalPos.
From S2P Require Import Prelude Order Text Bytes Json Protocol Disk Spill SpoolLaws SearchModel SearchBuild SearchCodec.

(** ** Merging *)
Definition occ_item (i : nat) (o : Occurrence) : HeapOccurrence :=
  {| heap_occurrence := o; heap_reader := i |}.
Definition occ_item_key (x : HeapOccurrence) : (string * Z) * nat :=
  (occ_key (heap_occurrence x), heap_reader x).
Abbreviation occ_heads := (heads occ_item).
Abbreviation sort_occs := (sort_by_key occ_key).
Abbreviation sorted_occs := (SortedBy (fun x y => le_b (occ_key x) (occ_key y))).

Lemma sort_occurrences l : sort l = sort_occs l.
Proof. done. Qed.

(** The readers behind the heads of [cs], which are in the heap. *)
Definition merging (st : MergeState) (cs : list (list Occurrence)) : Prop :=
  merge_readers st = (fun c => occs_bytes (tail c)) <$> cs /\
  merge_heap st ≡ₚ occ_heads 0 cs.

Section merge.
Context {E : abort -> Prop}.

(** Reader [length pre] moves on to the list [c], all of which it still has to read. *)
Lemma wp_advance_reader st pre (c : list Occurrence) post before w Q :
  Forall occ_ok c ->
  merge_readers st = ((fun c => occs_bytes (tail c)) <$> pre) ++ occs_bytes c :: post ->
  merge_heap st ≡ₚ before ->
  (forall st', merge_readers st' = ((fun c => occs_bytes (tail c)) <$> pre ++ [c]) ++ post ->
     merge_heap st' ≡ₚ head_item occ_item (length pre) c ++ before -> Q st' w) ->
  wp (advance_reader st (length pre)) w E Q.
Proof.
  intros Hc Hr Hh HQ. unfold advance_reader. rewrite Hr.
  rewrite list_lookup_middle by (by rewrite length_fmap).
  destruct Hc as [|o c Ho Hc].
  - apply wp_bind. eapply wp_try; [done|]. apply wp_ret, HQ; [|done].
    by rewrite Hr, fmap_app, <- app_assoc.
  - apply wp_bind. eapply wp_try; [by apply next_occurrence_cons|]. apply wp_ret, HQ; simpl.
    + rewrite insert_app_r_alt by (by rewrite length_fmap). rewrite length_fmap, Nat.sub_diag.
      simpl. by rewrite fmap_app, <- app_assoc.
    + by rewrite Hh.
Qed.

Lemma wp_prime (cs : list (list Occurrence)) w (Q : MergeState -> World -> Prop) :
  Forall (Forall occ_ok) cs ->
  (forall st, merging st cs -> Q st w) ->
  wp (io_fold advance_reader {| merge_readers := occs_bytes <$> cs; merge_heap := [] |}
        (seq 0 (length cs))) w E Q.
Proof.
  intros Hcs HQ.
  apply wp_fold with (I := fun st d v => v = w /\
    merge_readers st = ((fun c => occs_bytes (tail c)) <$> take (length d) cs)
                       ++ (occs_bytes <$> drop (length d) cs) /\
    merge_heap st ≡ₚ occ_heads 0 (take (length d) cs)).
  - by simpl; rewrite drop_0.
  - intros st d i rest v Hl (-> & Hr & Hh).
    pose proof (f_equal length Hl) as Hlen. rewrite length_seq, length_app in Hlen. simpl in Hlen.
    assert (i = length d) as ->.
    { pose proof (f_equal (lookup (length d)) Hl) as Hi.
      rewrite lookup_seq_lt, list_lookup_middle in Hi by lia. by injection Hi as <-. }
    destruct (lookup_lt_is_Some_2 cs (length d)) as [c Hc]; [lia|].
    rewrite (drop_S _ _ _ Hc) in Hr. rewrite length_app. simpl. rewrite Nat.add_1_r, (take_S_r _ _ _ Hc).
    assert (length (take (length d) cs) = length d) as Ht by (rewrite length_take; lia).
    rewrite <- Ht at 1. eapply wp_advance_reader; [|exact Hr|exact Hh|].
    { rewrite Forall_lookup in Hcs. by eapply Hcs. }
    intros st' Hr' Hh'. split_and!; [done|done|].
    rewrite Hh', heads_app. simpl. rewrite app_nil_r. apply Permutation_app_comm.
  - intros st v (-> & Hr & Hh). rewrite length_seq in *.
    apply HQ. split; [|by rewrite take_ge in Hh].
    rewrite Hr, take_ge, drop_ge by done. apply app_nil_r.
Qed.

Lemma wp_merge_loop fuel output st cs old w (Q : () -> World -> Prop) :
  Forall (Forall occ_ok) cs -> Forall sorted_occs cs -> merging st cs ->
  length (concat cs) < fuel -> disk w !! output = Some old ->
  (forall w', disk w' = <[output := old ++ occs_bytes (sort_occs (concat cs))]> (disk w) -> Q tt w') ->
  wp (merge_loop fuel output st) w E Q.
Proof.
  revert st cs old w. induction fuel as [|fuel IH]; intros st cs old w Hok Hs [Hr Hh] Hfuel Hout HQ; [lia|].
  simpl. destruct (heap_pop heap_occurrence_cmp (merge_heap st)) as [[it h]|] eqn:Epop.
  - destruct (pop_heads occ_key occ_item heap_occurrence_cmp occ_item_key (fun _ _ => eq_refl)
                (fun _ _ => eq_refl) _ _ _ _ Hh Hs Epop) as (pre & o & c & post & -> & -> & Hh' & Hsort & _).
    rewrite fmap_app, fmap_cons in Hr. simpl in Hr.
    assert (Forall (Forall occ_ok) (pre ++ c :: post) /\ occ_ok o) as [Hok' Ho].
    { apply Forall_app in Hok as [? Hok]. inversion Hok as [|? ? Hoc ?]; subst. inversion Hoc; subst.
      split; [|done]. apply Forall_app. split; [done|]. by constructor. }
    apply wp_bind. eapply wp_write_occurrence; [exact Hout|done|]. intros w1 Hw1.
    apply wp_bind. simpl. eapply wp_advance_reader; [|exact Hr|exact Hh'|].
    { apply Forall_app in Hok' as [_ Hok']. by inversion Hok'. }
    intros st' Hr' Hheap'. apply (IH _ (pre ++ c :: post) (old ++ occ_bytes o)).
    + done.
    + apply Forall_app in Hs as [Hs1 Hs2]. inversion Hs2 as [|? ? Hx ?]; subst.
      apply Forall_app. split; [done|]. constructor; [by inversion Hx|done].
    + split.
      * rewrite Hr', fmap_app, <- app_assoc, fmap_app. done.
      * rewrite Hheap'. by apply heads_advance.
    + rewrite concat_app, concat_cons, !length_app in Hfuel. rewrite concat_app, concat_cons, !length_app.
      simpl in *. lia.
    + by rewrite Hw1, lookup_insert_eq.
    + intros w' Hw'. apply HQ. rewrite Hw', Hw1, insert_insert_eq.
      change (sort_occs (concat (pre ++ (o :: c) :: post)) = o :: sort_occs (concat (pre ++ c :: post))) in Hsort.
      rewrite Hsort, occs_bytes_cons.
      by rewrite <- app_assoc.
  - apply heap_pop_None in Epop. rewrite Epop in Hh. apply Permutation_nil_l, eq_sym, heads_nil in Hh.
    apply wp_ret, HQ. rewrite Hh. simpl. rewrite app_nil_r, insert_id; done.
Qed.

(** The runs of [cs] become one. *)
Lemma wp_merge_occurrence_runs inputs (cs : list (list Occurrence)) output w (Q : () -> World -> Prop) :
  Forall2 (fun p c => disk w !! p = Some (run_content (sort_occs c))) inputs cs ->
  Forall (Forall occ_ok) cs ->
  (forall w', disk w' = <[output := run_content (sort_occs (concat cs))]> (disk w) -> Q tt w') ->
  wp (merge_occurrence_runs inputs output) w E Q.
Proof.
  intros Hfiles Hok HQ. unfold merge_occurrence_runs. set (ds := sort_occs <$> cs).
  assert (Forall (Forall occ_ok) ds) as Hokd.
  { unfold ds. apply Forall_fmap. eapply Forall_impl; [exact Hok|]. intros c Hc. simpl.
    by rewrite sort_by_key_perm. }
  apply wp_bind.
  apply wp_fold with (I := fun rs d v => v = w /\ rs = occs_bytes <$> take (length d) ds).
  - done.
  - intros rs d p rest v Hl [-> ->]. subst inputs.
    apply Forall2_app_inv_l in Hfiles as (c1 & c2 & Hc1 & Hc2 & ->).
    inversion Hc2 as [|? c ? c3 Hp Hc3]; subst. pose proof (Forall2_length _ _ _ Hc1) as Hlen.
    apply wp_bind. unfold open_occurrences. apply wp_bind. eapply wp_open; [exact Hp|].
    eapply wp_try; [by apply read_magic_app|]. apply wp_ret. split; [done|].
    unfold ds. rewrite fmap_app, fmap_cons, length_app, Nat.add_1_r.
    rewrite (take_S_r _ _ (sort_occs c)).
    { by rewrite fmap_app. }
    by rewrite list_lookup_middle by (by rewrite length_fmap).
  - intros rs v [-> ->]. pose proof (Forall2_length _ _ _ Hfiles) as Hlen.
    rewrite take_ge by (unfold ds; rewrite length_fmap; lia).
    apply wp_bind. rewrite length_fmap. apply wp_prime; [done|]. intros st Hst.
    apply wp_bind, wp_create, wp_bind. eapply wp_append; [apply lookup_insert_eq|].
    eapply wp_merge_loop; [exact Hokd| |exact Hst| |apply lookup_insert_eq|].
    + unfold ds. apply Forall_fmap, Forall_true. intros c. apply sort_by_key_sorted.
    + unfold merge_fuel. destruct Hst as [-> ->].
      enough (forall i, length (concat ds) <= length (occ_heads i ds) +
        sum_list (length <$> ((fun c => occs_bytes (tail c)) <$> ds))) as Hle by (specialize (Hle 0); lia).
      clear. induction ds as [|[|o c] ds IH]; intros i; simpl; [lia|apply IH|].
      rewrite length_app. pose proof (length_occs_bytes c). specialize (IH (S i)). unfold fmap in IH. lia.
    + intros w' Hw'. apply HQ. rewrite Hw'. simpl. rewrite !insert_insert_eq. f_equal.
      unfold ds. by rewrite sort_by_key_concat.
Qed.
End merge.

(** ** The files of a sorter *)
Definition below (root p : string) : Prop := exists rest, p = path_join root rest.

Lemma occurrence_run_inj root k n m :
  occurrence_run root k n = occurrence_run root k m -> n = m.
Proof.
  unfold occurrence_run. intros Heq%path_join_inj. do 2 apply app_str_inj_l in Heq.
  apply app_str_inj_r_length, proj1 in Heq; [|done]. apply (pad_inj 0).
  unfold pad. simpl. by rewrite Heq.
Qed.

Definition run_kind (k : string) : Prop := k = "occurrence" \/ k = "merge".

Lemma occurrence_run_kind root k1 k2 n m :
  run_kind k1 -> run_kind k2 -> occurrence_run root k1 n = occurrence_run root k2 m -> n = m.
Proof.
  intros [-> | ->] [-> | ->] Heq; try by eapply occurrence_run_inj.
  all: apply path_join_inj in Heq; rewrite !app_str_cons in Heq; discriminate Heq.
Qed.

Lemma show_N_uint n : NilZero.uint_of_string (show_N n) = Some (N.to_uint n).
Proof.
  unfold show_N. rewrite NilZero.usu; [done|]. destruct n as [|p]; [done|]. simpl.
  apply DecimalPos.Unsigned.to_uint_nonnil.
Qed.

Lemma occurrence_run_final root k n :
  run_kind k -> occurrence_run root k n <> path_join root "occurrence-final.run".
Proof.
  intros [-> | ->] Heq; apply path_join_inj in Heq.
  2: rewrite !app_str_cons in Heq; discriminate Heq.
  change "occurrence-final.run" with ("occurrence" +:+ "-" +:+ "final" +:+ ".run") in Heq.
  do 2 apply app_str_inj_l in Heq. apply app_str_inj_r_length, proj1 in Heq; [|done].
  pose proof (show_N_uint n) as Hn. by rewrite Heq in Hn.
Qed.

(** No sidecar is larger than 276 bytes for each occurrence. *)
Definition weight (l : list Occurrence) : Z := (276 * Z.of_nat (length l))%Z.

Lemma weight_app l1 l2 : weight (l1 ++ l2) = (weight l1 + weight l2)%Z.
Proof. unfold weight. rewrite length_app. lia. Qed.

Lemma length_run_content l :
  Forall occ_ok l -> l <> [] -> (Z.of_nat (length (run_content l)) <= weight l)%Z.
Proof.
  intros Hl Hne. assert (Z.of_nat (length (occs_bytes l)) <= 268 * Z.of_nat (length l))%Z as Hb.
  { clear Hne. induction Hl as [|o l [[_ Ho] _] _ IH]; [done|]. rewrite occs_bytes_cons, length_app.
    unfold occ_bytes. rewrite !length_app, !length_to_le, length_str_bytes. simpl length.
    unfold MAX_TERM_BYTES in Ho. lia. }
  unfold run_content, weight. rewrite length_app. destruct l; [done|]. simpl length in *. lia.
Qed.

Lemma length_sorted_run l :
  Forall occ_ok l -> l <> [] -> (Z.of_nat (length (run_content (sort_occs l))) <= weight l)%Z.
Proof.
  intros Hl Hne. replace (weight l) with (weight (sort_occs l)).
  - apply length_run_content; [by rewrite sort_by_key_perm|]. intros Hnil. apply Hne.
    apply Permutation_nil_r. by rewrite <- (sort_by_key_perm occ_key l), Hnil.
  - unfold weight, sort_by_key. by rewrite length_sort_by.
Qed.

Definition same_sorter (s s' : OccurrenceSorter) : Prop :=
  sorter_root s' = sorter_root s /\ sorter_chunk_limit s' = sorter_chunk_limit s.

#[export] Instance same_sorter_preorder : PreOrder same_sorter.
Proof. split; [done|]. intros s1 s2 s3 [? ?] [? ?]. split; congruence. Qed.

Definition owned (s : OccurrenceSorter) (p : string) : Prop :=
  exists k n, run_kind k /\ (n < sorter_next_run s)%N /\ p = occurrence_run (sorter_root s) k n.

Definition holds_run (w : World) (p : string) (c : list Occurrence) : Prop :=
  disk w !! p = Some (run_content (sort_occs c)).

(** The files [paths] hold the runs [rs]. *)
Record runs_hold (s : OccurrenceSorter) (paths : list string) (rs : list (list Occurrence)) w : Prop := {
  rh_files : Forall2 (holds_run w) paths rs;
  rh_owned : Forall (owned s) paths;
  rh_nodup : NoDup paths;
  rh_ok : Forall (fun c => c <> [] /\ Forall occ_ok c) rs
}.

Lemma owned_below s p : owned s p -> below (sorter_root s) p.
Proof. intros (k & n & _ & _ & ->). by eexists. Qed.

Lemma owned_later s s' p :
  same_sorter s s' -> (sorter_next_run s <= sorter_next_run s')%N -> owned s p -> owned s' p.
Proof.
  intros [Hr _] Hn (k & n & Hk & Hlt & ->). exists k, n. rewrite Hr. split_and!; [done|lia|done].
Qed.

Lemma holds_runs_kept w w' paths rs :
  Forall2 (holds_run w) paths rs -> (forall p, p ∈ paths -> disk w' !! p = disk w !! p) ->
  Forall2 (holds_run w') paths rs.
Proof.
  intros Hf Hk. apply Forall2_same_length_lookup_2; [by eapply Forall2_length|].
  intros i p c Hp Hc. unfold holds_run. rewrite Hk by (by eapply list_elem_of_lookup_2).
  eapply Forall2_lookup_lr in Hf; done.
Qed.

Lemma runs_hold_later s s' paths rs w :
  same_sorter s s' -> (sorter_next_run s <= sorter_next_run s')%N ->
  runs_hold s paths rs w -> runs_hold s' paths rs w.
Proof.
  intros Hs Hn [Hf Ho Hnd Hk]. split; try done. eapply Forall_impl; [exact Ho|].
  intros p. by apply owned_later.
Qed.

Lemma runs_hold_frame R s paths rs w w' :
  runs_hold s paths rs w -> frame R w w' -> (forall p, R p -> ~ below (sorter_root s) p) ->
  runs_hold s paths rs w'.
Proof.
  intros [Hf Ho Hn Hk] Hfr Hd. split; try done. eapply holds_runs_kept; [exact Hf|].
  intros p Hp. apply Hfr. intros HR. apply (Hd p HR). rewrite Forall_forall in Ho.
  by apply owned_below, Ho.
Qed.

Lemma runs_ok_weight rs :
  Forall (fun c => c <> [] /\ Forall occ_ok c) rs ->
  Forall (Forall occ_ok) rs /\ length rs <= length (concat rs).
Proof.
  intros Hrs. split.
  - eapply Forall_impl; [exact Hrs|]. by intros c [_ ?].
  - apply length_concat_nonempty. eapply Forall_impl; [exact Hrs|].
    intros [|o c] [? _]; [done|]. simpl. lia.
Qed.

(** ** Writing runs *)
(** The compiler's and the allocator's part: a vector never takes more than [isize::MAX]
    bytes, and the string of a term has a modest capacity. *)
Class SearchMemoryLaws `{SearchMemory} := {
  occurrence_size_bound : (0 <= occurrence_size <= 2 ^ 16)%Z;
  term_capacity_bound t : term_ok t -> (0 <= term_capacity t <= 2 ^ 14)%Z;
  reserved_bound c n : (0 <= reserved_capacity c n * occurrence_size < 2 ^ 63)%Z
}.

(** Counters do not overflow on fewer occurrences. *)
Definition few_occs (l : list Occurrence) : Prop := (Z.of_nat (length l) <= 2 ^ 46)%Z.

Lemma few_occs_app l1 l2 : few_occs (l1 ++ l2) -> few_occs l1.
Proof. unfold few_occs. rewrite length_app. lia. Qed.

Section sorter.
Context `{SearchMemoryLaws} {E : abort -> Prop}.

Lemma wp_take_run what s w (Q : OccurrenceSorter -> World -> Prop) :
  (Z.of_N (sorter_next_run s) < u64_max)%Z ->
  (forall s', same_sorter s s' -> sorter_next_run s' = (sorter_next_run s + 1)%N ->
     sorter_buffered s' = sorter_buffered s -> sorter_runs s' = sorter_runs s ->
     sorter_spill_bytes s' = sorter_spill_bytes s -> sorter_capacity s' = sorter_capacity s ->
     Q s' w) ->
  wp (io_try (take_run what s)) w E Q.
Proof.
  intros Hlt HQ. eapply wp_try.
  { unfold take_run. rewrite (proj2 (checked_add_u64_Some _ 1 _)) by (split; [reflexivity|lia]).
    reflexivity. }
  apply HQ; try done. simpl. lia.
Qed.

Lemma wp_add_spill path s bs w (Q : OccurrenceSorter -> World -> Prop) :
  disk w !! path = Some bs ->
  (sorter_spill_bytes s + Z.of_nat (length bs) <= u64_max)%Z ->
  (forall s', same_sorter s s' -> sorter_next_run s' = sorter_next_run s ->
     sorter_buffered s' = sorter_buffered s -> sorter_runs s' = sorter_runs s ->
     sorter_spill_bytes s' = (sorter_spill_bytes s + Z.of_nat (length bs))%Z ->
     sorter_capacity s' = sorter_capacity s -> Q s' w) ->
  wp (add_spill path s) w E Q.
Proof.
  intros Hp Hlt HQ. unfold add_spill. apply wp_bind. eapply wp_length; [exact Hp|].
  apply wp_bind. eapply wp_try; [by apply ok_or_Ok, checked_add_u64_Some|].
  apply wp_ret. by apply HQ.
Qed.

(** What was pushed is in the runs and in the buffer. *)
Record sorter_holds (s : OccurrenceSorter) (l : list Occurrence) (w : World) : Prop := {
  so_limit : (0 < sorter_chunk_limit s)%Z;
  so_ok : Forall occ_ok l;
  so_runs : exists rs, l = concat rs ++ sorter_buffered s /\
    runs_hold s (sorter_runs s) rs w /\
    (Z.of_N (sorter_next_run s) <= Z.of_nat (length (concat rs)))%Z /\
    (0 <= sorter_spill_bytes s <= weight (concat rs))%Z;
  so_terms : (0 <= buffered_term_bytes s <= 2 ^ 14 * Z.of_nat (length (sorter_buffered s)))%Z;
  so_capacity : (0 <= sorter_capacity s * occurrence_size < 2 ^ 63)%Z;
  so_bytes : (0 <= sorter_bytes s <= 2 ^ 63 + buffered_term_bytes s)%Z
}.

Lemma sorter_frame R s l w w' :
  sorter_holds s l w -> frame R w w' -> (forall p, R p -> ~ below (sorter_root s) p) ->
  sorter_holds s l w'.
Proof.
  intros [Hl Ho (rs & -> & Hr & Hn & Hs) Ht Hc Hb] Hf Hd. split; try done.
  exists rs. split_and!; try done; try apply Hs. by eapply runs_hold_frame.
Qed.

Lemma runs_hold_snoc s s' paths rs w w' c :
  runs_hold s paths rs w -> same_sorter s s' -> sorter_next_run s' = (sorter_next_run s + 1)%N ->
  c <> [] -> Forall occ_ok c ->
  let path := occurrence_run (sorter_root s) "occurrence" (sorter_next_run s) in
  disk w' = <[path := run_content (sort_occs c)]> (disk w) ->
  runs_hold s' (paths ++ [path]) (rs ++ [c]) w'.
Proof.
  intros [Hf Ho Hn Hk] Hs Hnext Hc Hcok path Hw'.
  assert (path ∉ paths) as Hnew.
  { intros Hp. rewrite Forall_forall in Ho. destruct (Ho _ Hp) as (k & n & Hkind & Hlt & Heq).
    apply occurrence_run_kind in Heq; [lia|by left|done]. }
  split.
  - apply Forall2_app; [|by constructor; [unfold holds_run; rewrite Hw', lookup_insert_eq|]].
    eapply holds_runs_kept; [exact Hf|]. intros p Hp. rewrite Hw', lookup_insert_ne; [done|].
    by intros <-.
  - apply Forall_app. split.
    + eapply Forall_impl; [exact Ho|]. intros p. apply owned_later; [done|lia].
    + constructor; [|done]. exists "occurrence", (sorter_next_run s).
      split_and!; [by left|lia|]. by destruct Hs as [-> _].
  - apply NoDup_app. split; [done|]. split; [|apply NoDup_singleton].
    by intros p Hp ->%list_elem_of_singleton.
  - apply Forall_app. split; [done|]. by repeat constructor.
Qed.

Lemma wp_flush_sorter s l w :
  sorter_holds s l w -> few_occs l ->
  wp (flush_sorter s) w E (fun s' w' => sorter_holds s' l w' /\ sorter_buffered s' = [] /\
    same_sorter s s' /\ frame (below (sorter_root s)) w w').
Proof.
  intros Hh Hfew. pose proof Hh as [Hlim Hok (rs & Hl & Hr & Hn & Hs) Ht Hc Hb].
  unfold flush_sorter. destruct (sorter_buffered s) as [|o buf] eqn:Ebuf.
  { apply wp_ret. split_and!; [by split; rewrite ?Ebuf in *; try done; exists rs|done..]. }
  rewrite <- Ebuf in Hl. unfold few_occs in Hfew. rewrite Hl, length_app in Hfew.
  rewrite Hl in Hok. apply Forall_app in Hok as [Hok1 Hok2].
  assert (sorter_buffered s <> []) as Hne by (by rewrite Ebuf).
  set (path := occurrence_run _ _ _).
  apply wp_bind, wp_take_run; [unfold u64_max; lia|]. intros s1 Hs1 Hn1 Hb1 Hr1 Hsp1 Hc1.
  apply wp_bind, wp_create, wp_bind. eapply wp_append; [apply lookup_insert_eq|].
  apply wp_bind. eapply wp_write_occurrences; [apply lookup_insert_eq| |].
  { rewrite sort_occurrences, <- Ebuf. by rewrite sort_by_key_perm. }
  intros w1 Hw1. simpl in Hw1. rewrite !insert_insert_eq in Hw1.
  change (disk w1 = <[path := run_content (sort_occs (o :: buf))]> (disk w)) in Hw1.
  rewrite <- Ebuf in Hw1.
  pose proof (length_sorted_run _ Hok2 Hne) as Hlen'. unfold weight in *.
  apply wp_bind. eapply wp_add_spill; [by rewrite Hw1, lookup_insert_eq|rewrite Hsp1; unfold u64_max; lia|].
  intros s2 Hs2 Hn2 Hb2 Hr2 Hsp2 Hc2. apply wp_ret. cbv beta.
  assert (same_sorter s s2) as Hss by (by etrans).
  split; [|split; [done|split; [by destruct Hss; split|]]].
  - split; simpl.
    + destruct Hss as [_ ->]. done.
    + rewrite Hl. by apply Forall_app.
    + exists (rs ++ [sorter_buffered s]). rewrite concat_app. simpl. rewrite !app_nil_r.
      split; [done|]. split.
      * rewrite Hr2, Hr1. eapply runs_hold_snoc; [exact Hr| |simpl; lia|done|done|exact Hw1].
        destruct Hss. by split.
      * rewrite Hn2, Hn1, Hsp2, Hsp1, !length_app. unfold weight. rewrite length_app, Ebuf in *. simpl in *. lia.
    + lia.
    + by rewrite Hc2, Hc1.
    + rewrite Hc2, Hc1. unfold saturating_mul_u64, u64_max. lia.
  - eapply frame_insert; [exact Hw1|]. by eexists.
Qed.

Lemma wp_push_occurrence s l o w :
  sorter_holds s l w -> occ_ok o -> few_occs (l ++ [o]) ->
  wp (push_occurrence s o) w E (fun s' w' => sorter_holds s' (l ++ [o]) w' /\
    same_sorter s s' /\ frame (below (sorter_root s)) w w').
Proof.
  intros Hh Ho Hfew. pose proof (few_occs_app _ _ Hfew) as Hfew'.
  pose proof occurrence_size_bound as Hsize. pose proof (term_capacity_bound _ (proj1 Ho)) as Hcap.
  assert (forall s, sorter_holds s l w -> length (sorter_buffered s) <= length l) as Hbuf.
  { intros s' Hs'. destruct (so_runs _ _ _ Hs') as (rs & -> & _). rewrite length_app. lia. }
  unfold push_occurrence. unfold few_occs in Hfew'.
  pose proof (Hbuf _ Hh). pose proof (so_terms _ _ _ Hh). pose proof (so_bytes _ _ _ Hh).
  apply wp_bind. eapply wp_try.
  { rewrite checked_sum_Some; [reflexivity| |].
    - repeat constructor; lia.
    - simpl. unfold u64_max. lia. }
  apply wp_bind. eapply (wp_mono _ _ (fun s1 w1 => sorter_holds s1 l w1 /\
    same_sorter s s1 /\ frame (below (sorter_root s)) w w1)).
  { case_match; [|by apply wp_ret].
    eapply wp_mono; [by apply wp_flush_sorter|]. intros s1 w1 (? & _ & ? & ?). done. }
  intros s1 w1 (Hh1 & Hs1 & Hf1). pose proof Hh1 as [Hlim Hok (rs & Hl & Hr & Hn & Hsp) Ht Hc Hb].
  assert (length (sorter_buffered s1) <= length l) by (rewrite Hl, length_app; lia).
  apply wp_bind. eapply wp_try.
  { apply ok_or_Ok, checked_add_u64_Some. split; [reflexivity|]. unfold u64_max. lia. }
  pose proof (reserved_bound (sorter_capacity s1) (length (sorter_buffered s1))) as Hres.
  match goal with |- wp (if _ then flush_sorter ?s else _) _ _ _ => set (s2 := s) end.
  assert (sorter_holds s2 (l ++ [o]) w1) as Hh2.
  { split; simpl; [done|by apply Forall_app; split; [|constructor]| | |done|].
    - exists rs. rewrite Hl, <- app_assoc. split; [done|]. split; [|done].
      apply (runs_hold_later s1); [by split|simpl; lia|exact Hr].
    - rewrite length_app. simpl. lia.
    - unfold saturating_add_u64, saturating_mul_u64, u64_max. lia. }
  assert (same_sorter s s2) as Hs2 by (destruct Hs1; by split).
  destruct (_ <=? _)%Z.
  - eapply wp_mono; [by apply wp_flush_sorter|]. intros s3 w3 (Hh3 & _ & Hs3 & Hf3).
    split; [done|]. split; [by etrans|]. etrans; [done|]. destruct Hs2 as [Hroot _].
    by rewrite Hroot in Hf3.
  - apply wp_ret. done.
Qed.

(** ** Merge levels *)
(** One group: all of its runs become one; a group of one run stays as it is. *)
Lemma wp_merge_occurrence_group s acc ra group rg rest rr w :
  (Z.of_N (sorter_next_run s) < u64_max)%Z ->
  (sorter_spill_bytes s + weight (concat rg) <= u64_max)%Z ->
  runs_hold s (acc ++ group ++ rest) (ra ++ rg ++ rr) w ->
  length acc = length ra -> length group = length rg -> group <> [] ->
  wp (merge_occurrence_group (acc, s) group) w E (fun res w' =>
    runs_hold res.2 (res.1 ++ rest) ((ra ++ [concat rg]) ++ rr) w' /\
    length res.1 = length (ra ++ [concat rg]) /\ same_sorter s res.2 /\
    (sorter_next_run res.2 <= sorter_next_run s + 1)%N /\
    (sorter_spill_bytes s <= sorter_spill_bytes res.2 <= sorter_spill_bytes s + weight (concat rg))%Z /\
    frame (below (sorter_root s)) w w').
Proof.
  intros Hnext Hspill Hruns Hacc Hg Hne. pose proof Hruns as [Hfiles Ho Hnd Hok].
  unfold merge_occurrence_group. cbn [fst snd].
  assert (forall (X : IO (list string * OccurrenceSorter)) (Y : string -> IO (list string * OccurrenceSorter)) Q,
    (forall path, group = [path] -> wp (Y path) w E Q) -> (1 < length group -> wp X w E Q) ->
    wp (match group with [path] => Y path | _ => X end) w E Q) as Hcase.
  { intros X Y Q H1c H2c. destruct group as [|p [|q group]]; [done|exact (H1c p eq_refl)|].
    apply H2c; simpl; lia. }
  apply Hcase; clear Hcase.
  { intros path ->. destruct rg as [|c [|]]; try done. apply wp_ret. simpl. rewrite app_nil_r.
    rewrite <- !app_assoc. assert (0 <= weight c)%Z by (unfold weight; lia).
    split_and!; [done|by rewrite !length_app, Hacc|done|lia|lia|lia|done]. }
  intros H1g. set (output := occurrence_run _ _ _).
  assert (output ∉ acc ++ group ++ rest) as Hnew.
  { intros Hp. rewrite Forall_forall in Ho. destruct (Ho _ Hp) as (k & n & Hkind & Hlt & Heq).
    apply occurrence_run_kind in Heq; [lia|by right|done]. }
  apply Forall2_app_inv in Hfiles as [Hf1 Hf2]; [|done].
  apply Forall2_app_inv in Hf2 as [Hf2 Hf3]; [|done].
  apply NoDup_app in Hnd as (Hn1 & Hd1 & Hn2). apply NoDup_app in Hn2 as (Hn2 & Hd2 & Hn3).
  apply Forall_app in Hok as [Hk1 Hok]. apply Forall_app in Hok as [Hk2 Hk3].
  destruct (runs_ok_weight _ Hk2) as [Hk2' Hlen2].
  assert (concat rg <> [] /\ Forall occ_ok (concat rg)) as Hkg.
  { split; [|by apply Forall_concat]. intros Hnil. rewrite Hnil in Hlen2. simpl in Hlen2. lia. }
  apply wp_bind, wp_take_run; [done|]. intros s1 Hs1 Hn1' _ _ Hsp1 _.
  apply wp_bind. eapply wp_merge_occurrence_runs; [exact Hf2|done|]. intros w1 Hw1.
  pose proof (length_sorted_run _ (proj2 Hkg) (proj1 Hkg)) as Hb.
  apply wp_bind. eapply wp_add_spill; [by rewrite Hw1, lookup_insert_eq| |].
  { cbn [account_readers raise_high_water sorter_spill_bytes]. lia. }
  intros s2 Hs2 Hn2' _ _ Hsp2 _. cbn [account_readers raise_high_water sorter_spill_bytes sorter_next_run] in Hn2', Hsp2. apply wp_bind. apply wp_remove_all; [done| |].
  { intros p Hp. rewrite Hw1, lookup_insert_ne by (intros <-; set_solver).
    apply list_elem_of_lookup in Hp as [i Hi]. destruct (Forall2_lookup_l _ _ _ _ _ Hf2 Hi) as (c & _ & Hc).
    by eexists. }
  intros w2 Hgone Hkept. apply wp_ret. cbn [fst snd].
  assert (same_sorter s s2) as Hss by (etrans; [exact Hs1|exact Hs2]).
  assert (forall p, p ∉ group -> p <> output -> disk w2 !! p = disk w !! p) as Hsame.
  { intros p Hp Hne'. rewrite Hkept, Hw1, lookup_insert_ne by done. done. }
  split; [|split; [by rewrite !length_app, Hacc|split; [done|split; [lia|split; [lia|]]]]].
  - split.
    + apply Forall2_app; [apply Forall2_app|].
      * eapply holds_runs_kept; [done|]. intros p Hp. apply Hsame; [|set_solver].
        intros Hpg. apply (Hd1 p Hp). set_solver.
      * constructor; [|done]. unfold holds_run. rewrite Hkept by set_solver. by rewrite Hw1, lookup_insert_eq.
      * eapply holds_runs_kept; [done|]. intros p Hp. apply Hsame; [|set_solver].
        intros Hpg. by apply (Hd2 p Hpg).
    + rewrite !Forall_app in Ho. rewrite !Forall_app, Forall_singleton. destruct Ho as (Ho1 & _ & Ho3).
      split_and!.
      1,3: eapply Forall_impl; [eassumption|]; intros p; apply owned_later; [done|lia].
      exists "merge", (sorter_next_run s). destruct Hss as [-> _]. split_and!; [by right|lia|done].
    + rewrite <- app_assoc. apply NoDup_app. split; [done|]. split.
      * intros q Hq [->%list_elem_of_singleton|Hq']%elem_of_app; [set_solver|].
        apply (Hd1 q Hq). set_solver.
      * simpl. constructor; [set_solver|done].
    + rewrite !Forall_app, Forall_singleton. done.
  - intros p Hp. apply Hsame; [|intros ->; apply Hp; by eexists].
    intros Hpg. apply Hp, owned_below. rewrite !Forall_app in Ho. destruct Ho as (_ & Ho & _).
    rewrite Forall_forall in Ho. by apply Ho.
Qed.

Lemma wp_merge_occurrence_groups groups s acc ra rb w :
  (Z.of_N (sorter_next_run s) + Z.of_nat (length groups) < u64_max)%Z ->
  (sorter_spill_bytes s + weight (concat rb) <= u64_max)%Z ->
  runs_hold s (acc ++ concat groups) (ra ++ rb) w -> length acc = length ra ->
  Forall (fun g => 0 < length g) groups ->
  wp (io_fold merge_occurrence_group (acc, s) groups) w E (fun res w' => exists ra',
    runs_hold res.2 res.1 (ra ++ ra') w' /\ concat ra' = concat rb /\
    length ra' = length groups /\ same_sorter s res.2 /\
    (sorter_next_run res.2 <= sorter_next_run s + N.of_nat (length groups))%N /\
    (sorter_spill_bytes s <= sorter_spill_bytes res.2 <= sorter_spill_bytes s + weight (concat rb))%Z /\
    frame (below (sorter_root s)) w w').
Proof.
  revert s acc ra rb w. induction groups as [|g groups IH];
    intros s acc ra rb w Hnext Hspill Hruns Hacc Hg; simpl.
  - apply wp_ret. simpl in Hruns. rewrite app_nil_r in Hruns.
    assert (rb = []) as ->.
    { pose proof (Forall2_length _ _ _ (rh_files _ _ _ _ Hruns)) as Hl. rewrite length_app in Hl.
      destruct rb; [done|]. simpl in Hl. lia. }
    exists []. rewrite weight_app || idtac. unfold weight. simpl. split_and!; [done|done|done|done|lia|lia|lia|done].
  - inversion Hg as [|? ? Hg1 Hg2]; subst.
    pose proof (Forall2_length _ _ _ (rh_files _ _ _ _ Hruns)) as Hl. simpl in Hl.
    rewrite !length_app in Hl.
    assert (exists rg rr, rb = rg ++ rr /\ length g = length rg) as (rg & rr & -> & Hlg).
    { exists (take (length g) rb), (drop (length g) rb). rewrite take_drop, length_take. split; [done|lia]. }
    rewrite concat_app, weight_app in *. assert (0 <= weight (concat rr))%Z by (unfold weight; lia).
    simpl in Hnext. apply wp_bind. eapply wp_mono.
    { apply (wp_merge_occurrence_group s acc ra g rg (concat groups) rr); try done; [lia|lia|].
      intros ->. simpl in Hg1. lia. }
    intros [acc1 s1] w1 (Hruns1 & Hlen1 & Hs1 & Hn1 & Hsp1 & Hf1). simpl in *.
    eapply wp_mono; [apply (IH s1 acc1 (ra ++ [concat rg]) rr); try done; lia|].
    intros [acc2 s2] w2 (ra' & Hruns2 & Hc & Hl2 & Hs2 & Hn2 & Hsp2 & Hf2). simpl in *.
    exists (concat rg :: ra'). rewrite <- app_assoc in Hruns2. simpl in *.
    split_and!; [done|by rewrite Hc|lia|by etrans|lia|lia|lia|].
    etrans; [done|]. destruct Hs1 as [Hroot _]. by rewrite Hroot in Hf2.
Qed.

(** What merging levels ends with, having spilled at most [room] bytes. *)
Definition levels_done (s : OccurrenceSorter) (rs : list (list Occurrence)) w (room : Z)
    (s' : OccurrenceSorter) (w' : World) : Prop :=
  exists rs', runs_hold s' (sorter_runs s') rs' w' /\ concat rs' = concat rs /\ same_sorter s s' /\
    (rs <> [] -> rs' <> []) /\
    (sorter_spill_bytes s <= sorter_spill_bytes s' <= sorter_spill_bytes s + room)%Z /\
    frame (below (sorter_root s)) w w'.

Lemma merge_levels_end fuel s :
  length (sorter_runs s) <= merge_fan_in s -> merge_occurrence_levels fuel s = mret s.
Proof. intros Hle%Nat.leb_le. destruct fuel; simpl; by rewrite Hle. Qed.

Lemma wp_levels_end fuel s rs w room :
  length (sorter_runs s) <= merge_fan_in s -> (0 <= room)%Z ->
  runs_hold s (sorter_runs s) rs w ->
  wp (merge_occurrence_levels fuel s) w E (levels_done s rs w room).
Proof.
  intros Hle Hroom Hruns. rewrite merge_levels_end by done.
  apply wp_ret. exists rs. split_and!; try done; lia.
Qed.

(** A level at least halves the number of runs, so [k] levels are enough for [2 ^ k] runs. *)
Lemma wp_merge_occurrence_levels k fuel s rs w :
  (Z.of_nat (length rs) <= 2 ^ Z.of_nat k)%Z -> length rs <= fuel ->
  (Z.of_N (sorter_next_run s) + 2 * Z.of_nat (length rs) < u64_max)%Z ->
  (sorter_spill_bytes s + Z.of_nat k * weight (concat rs) <= u64_max)%Z ->
  runs_hold s (sorter_runs s) rs w ->
  wp (merge_occurrence_levels fuel s) w E (levels_done s rs w (Z.of_nat k * weight (concat rs))).
Proof.
  revert fuel s rs w. induction k as [|k IH]; intros fuel s rs w Hk Hfuel Hnext Hsp Hruns.
  all: pose proof (Forall2_length _ _ _ (rh_files _ _ _ _ Hruns)) as Hlen.
  all: assert (2 <= merge_fan_in s) as Hfan by (unfold merge_fan_in, MAX_MERGE_FAN_IN; lia).
  all: assert (0 <= weight (concat rs))%Z as Hw by (unfold weight; lia).
  { apply wp_levels_end; [simpl in Hk; lia|lia|done]. }
  destruct (Nat.leb_spec (length (sorter_runs s)) (merge_fan_in s)) as [Hle|Hgt].
  { apply wp_levels_end; [done|lia|done]. }
  destruct fuel as [|fuel]; [lia|]. simpl.
  rewrite (proj2 (Nat.leb_gt _ _) Hgt).
  destruct (chunks_spec (merge_fan_in s) (sorter_runs s)) as (Hcat & Hg & Hcount); [lia|].
  set (groups := chunks _ _) in *.
  assert (2 * length groups <= length rs + 1 /\ length groups < length rs) as [Hhalf Hless] by nia.
  apply wp_bind. eapply wp_mono.
  { apply (wp_merge_occurrence_groups groups (with_sorter_runs s []) [] [] rs); simpl.
    - lia.
    - rewrite Nat2Z.inj_succ in Hsp. lia.
    - rewrite Hcat. apply (runs_hold_later s); [by split|simpl; lia|exact Hruns].
    - done.
    - eapply Forall_impl; [exact Hg|]. simpl. lia. }
  intros [acc s1] w1 (ra & Hruns1 & Hc1 & Hl1 & Hs1 & Hn1 & Hsp1 & Hf1). simpl in *.
  set (s2 := with_sorter_runs s1 acc).
  assert (same_sorter s s2) as Hss by (destruct Hs1; by split).
  rewrite Nat2Z.inj_succ, Z.pow_succ_r in Hk by lia. rewrite Nat2Z.inj_succ in Hsp.
  eapply wp_mono.
  { apply (IH fuel s2 ra); simpl; try lia.
    - rewrite Hc1. lia.
    - apply (runs_hold_later s1); [by split|simpl; lia|exact Hruns1]. }
  intros s3 w3 (rs' & Hruns3 & Hc3 & Hs3 & Hne3 & Hsp3 & Hf3). rewrite Hc1 in *. simpl in Hsp3.
  exists rs'. split_and!; [done|done|by etrans| |lia|rewrite Nat2Z.inj_succ; lia|].
  - intros Hrs. apply Hne3. intros ->. simpl in Hl1. destruct groups; [|done].
    destruct (sorter_runs s); [destruct rs; [done|simpl in Hlen; lia]|done].
  - etrans; [exact Hf1|]. destruct Hss as [Hroot _]. by rewrite Hroot in Hf3.
Qed.

(** ** All occurrences in one file *)
Lemma wp_finish_sorter s l w :
  sorter_holds s l w -> few_occs l ->
  wp (finish_sorter s) w E (fun r w' => disk w' !! r.1 = Some (run_content (sort l)) /\
    below (sorter_root s) r.1 /\ frame (below (sorter_root s)) w w' /\
    (0 <= sorter_spill_bytes r.2 <= 50 * weight l)%Z).
Proof.
  intros Hh Hfew. unfold finish_sorter. apply wp_bind. eapply wp_mono; [by apply wp_flush_sorter|].
  intros s1 w1 (Hh1 & Hbuf & Hs1 & Hf1). pose proof Hs1 as [Hroot _].
  pose proof Hh1 as [_ Hok (rs & Hl & Hruns & Hnext & Hsp) _ _ _].
  rewrite Hbuf, app_nil_r in Hl. subst l. unfold few_occs in Hfew.
  pose proof (runs_ok_weight _ (rh_ok _ _ _ _ Hruns)) as [Hokrs Hlen].
  pose proof (Forall2_length _ _ _ (rh_files _ _ _ _ Hruns)) as Hlen1.
  assert (0 <= weight (concat rs))%Z as Hw by (unfold weight; lia).
  destruct (sorter_runs s1) as [|p ps] eqn:Eruns.
  { destruct rs; [|done]. clear Hlen Hlen1. apply wp_bind, wp_bind, wp_create, wp_bind.
    eapply wp_append; [apply lookup_insert_eq|]. apply wp_ret, wp_bind.
    rewrite merge_levels_end by (unfold merge_fan_in, MAX_MERGE_FAN_IN; simpl length; lia).
    apply wp_ret. cbn [with_sorter_runs sorter_runs]. apply wp_ret. simpl. rewrite insert_insert_eq, Hroot.
    split_and!; [by rewrite lookup_insert_eq|by eexists| |simpl in *; lia|simpl in *; lia].
    etrans; [exact Hf1|]. eapply frame_insert; [reflexivity|by eexists]. }
  rewrite <- Eruns in Hruns. clear Hlen1.
  apply wp_bind, wp_ret, wp_bind. eapply wp_mono.
  { apply (wp_merge_occurrence_levels 46 _ s1 rs); [|by rewrite (Forall2_length _ _ _ (rh_files _ _ _ _ Hruns))| | |exact Hruns].
    - simpl. lia.
    - unfold u64_max. lia.
    - change (Z.of_nat 46) with 46%Z. unfold weight in *. unfold u64_max. lia. }
  intros s2 w2 (rs2 & Hruns2 & Hc2 & Hs2 & Hne & Hsp2 & Hf2).
  rewrite Hroot in Hf2. pose proof Hruns2 as [Hf Ho Hn Hk].
  assert (rs2 <> []) as Hne2.
  { apply Hne. intros ->. pose proof (rh_files _ _ _ _ Hruns) as Hx. rewrite Eruns in Hx. by inversion Hx. }
  assert (sorter_root s2 = sorter_root s) as Hroot2 by (destruct Hs2 as [-> _]; done).
  destruct (sorter_runs s2) as [|p2 ps2] eqn:Eruns2; [inversion Hf; congruence|].
  destruct ps2 as [|q2 qs2].
  { inversion Hf as [|? c ? rs3 Hp2 Hrs3]; subst. inversion Hrs3; subst. simpl in Hc2. rewrite app_nil_r in Hc2.
    subst c. apply wp_ret. simpl. split_and!; [exact Hp2| |by etrans|lia|lia].
    rewrite <- Hroot2. apply owned_below. by inversion Ho. }
  rewrite <- Eruns2 in *. set (path := path_join _ _).
  assert (path ∉ sorter_runs s2) as Hnew.
  { intros Hp. rewrite Forall_forall in Ho. destruct (Ho _ Hp) as (k & n & Hkind & _ & Heq).
    symmetry in Heq. by apply occurrence_run_final in Heq. }
  destruct (runs_ok_weight _ Hk) as [Hokrs2 Hlen2].
  apply wp_bind. eapply wp_merge_occurrence_runs; [exact Hf|done|]. intros w3 Hw3. rewrite Hc2 in Hw3.
  assert (Z.of_nat (length (run_content (sort_occs (concat rs)))) <= weight (concat rs))%Z as Hb.
  { apply length_sorted_run; [done|]. intros Hnil. rewrite Hc2, Hnil in Hlen2. simpl in Hlen2.
    destruct rs2; [done|]. simpl in Hlen2. lia. }
  apply wp_bind. eapply wp_add_spill; [by rewrite Hw3, lookup_insert_eq| |].
  { cbn [account_readers raise_high_water sorter_spill_bytes]. unfold weight, u64_max in *. lia. }
  intros s3 _ _ _ _ Hsp3 _. cbn [account_readers raise_high_water sorter_spill_bytes] in Hsp3.
  apply wp_bind. apply wp_remove_all; [done| |].
  { intros p' Hp'. rewrite Hw3, lookup_insert_ne by (intros <-; set_solver).
    apply list_elem_of_lookup in Hp' as [i Hi]. destruct (Forall2_lookup_l _ _ _ _ _ Hf Hi) as (c & _ & Hc).
    by eexists. }
  intros w4 Hgone Hkept. apply wp_ret. cbn [fst snd].
  assert (below (sorter_root s) path) as Hbelow by (unfold path; rewrite Hroot2; by eexists).
  split; [by rewrite Hkept, Hw3, lookup_insert_eq by done|]. split; [done|]. split.
  - etrans; [exact Hf1|]. etrans; [exact Hf2|]. intros q Hq. rewrite Hkept, Hw3, lookup_insert_ne; [done| |].
    + intros <-. done.
    + intros Hin. apply Hq. rewrite <- Hroot2. apply owned_below. rewrite Forall_forall in Ho. by apply Ho.
  - simpl. lia.
Qed.

Lemma wp_new_sorter root limit w (Q : OccurrenceSorter -> World -> Prop) :
  (0 < limit)%Z -> (forall s, sorter_holds s [] w -> sorter_root s = root -> Q s w) ->
  wp (new_sorter root limit) w E Q.
Proof.
  intros Hl HQ. unfold new_sorter. destruct (Z.eqb_spec limit 0); [lia|]. apply wp_ret, HQ; [|done].
  split; simpl; try done; try lia. exists []. split; [done|].
  split; [by split; simpl; try constructor|]. split; [done|]. unfold weight. simpl. lia.
Qed.
End sorter.
