(* ===== verification/SearchIndex.v ===== *)
(** * The inverted index

    The index of a list of documents, each a list of terms: for every term, in order, the
    documents it occurs in with the number of its occurrences.  [write_final_index] groups
    the sorted occurrences into exactly this index ([grouped_index]). *)
From S2P Require Import Prelude Order Text Bytes Json Protocol Disk SearchModel SearchBuild SearchCodec SearchSort.

(** A lexicon: terms with their postings, each a document and a term frequency. *)
Abbreviation lexicon := (list (string * list (Z * Z))).

(** ** The specification *)
Definition count_term (t : string) (terms : list string) : Z :=
  Z.of_nat (length (List.filter (fun x => bool_decide (x = t)) terms)).

(** Document [d] with what it contains of [t]. *)
Definition posting_in (t : string) (d : nat) (terms : list string) : list (Z * Z) :=
  if decide (t ∈ terms) then [(Z.of_nat d, count_term t terms)] else [].
Definition postings_of (docs : list (list string)) (t : string) : list (Z * Z) :=
  concat (imap (posting_in t) docs).
Definition index_of (docs : list (list string)) : lexicon :=
  (fun t => (t, postings_of docs t)) <$> sort (remove_dups (concat docs)).

(** The occurrences of terms in the order of the documents. *)
Definition occurrences_of (docs : list (list string)) : list Occurrence :=
  concat (imap (fun d terms =>
    (fun t => {| occ_term := t; occ_document_id := Z.of_nat d |}) <$> terms) docs).

Definition occ_count (t : string) (d : Z) (l : list Occurrence) : Z :=
  Z.of_nat (length (List.filter (fun o => bool_decide (occ_key o = (t, d))) l)).

(** [lex] is the index of the occurrences [l]. *)
Record indexes (l : list Occurrence) (lex : lexicon) : Prop := {
  ix_terms : StrictlySorted (fst <$> lex);
  ix_documents t ps : (t, ps) ∈ lex -> ps <> [] /\ StrictlySorted (fst <$> ps);
  ix_counts t ps d n : (t, ps) ∈ lex -> (d, n) ∈ ps -> n = occ_count t d l /\ (0 < n)%Z;
  ix_all o : o ∈ l -> exists ps n, (occ_term o, ps) ∈ lex /\ (occ_document_id o, n) ∈ ps
}.

(** ** The index is unique *)
Lemma strictly_sorted_ext {A} `{OrdLaws A} (l1 l2 : list A) :
  StrictlySorted l1 -> StrictlySorted l2 -> (forall x, x ∈ l1 <-> x ∈ l2) -> l1 = l2.
Proof.
  intros H1 H2 Hsame.
  assert (forall l : list A, StrictlySorted l -> SortedBy le_b l /\ NoDup l) as Hs.
  { intros l. unfold StrictlySorted, SortedBy. induction 1 as [|x l Hl [IH1 IH2] Hx].
    { split; constructor. }
    split; constructor; try done.
    - eapply Forall_impl; [exact Hx|]. intros y. unfold lt_b, le_b. by destruct (cmp x y).
    - intros Hin. rewrite Forall_forall in Hx. specialize (Hx _ Hin). by rewrite lt_b_irrefl in Hx. }
  destruct (Hs _ H1) as [Hs1 Hn1], (Hs _ H2) as [Hs2 Hn2].
  eapply (sorted_perm_eq le_b); [|done|done|by apply NoDup_Permutation].
  intros x y _ _. apply le_b_antisym.
Qed.

Lemma occ_count_perm t d l1 l2 : l1 ≡ₚ l2 -> occ_count t d l1 = occ_count t d l2.
Proof.
  intros Hp. unfold occ_count. f_equal. induction Hp as [|x l1 l2 _ IH|x y l|l1 l2 l3 _ IH1 _ IH2]; simpl.
  - done.
  - by destruct (bool_decide _); simpl; rewrite ?IH.
  - by destruct (bool_decide _), (bool_decide _).
  - congruence.
Qed.

Lemma occ_count_pos t d l :
  (0 < occ_count t d l)%Z <-> {| occ_term := t; occ_document_id := d |} ∈ l.
Proof.
  unfold occ_count. induction l as [|o l IH]; simpl.
  - split; [done|by intros ?%elem_of_nil].
  - rewrite elem_of_cons. case_bool_decide as Ho.
    + simpl. split; [|lia]. intros _. left. destruct o. by injection Ho as -> ->.
    + rewrite IH. split; [by right|]. intros [<-|?]; [by destruct Ho|done].
Qed.

Lemma indexes_perm l1 l2 lex : l1 ≡ₚ l2 -> indexes l1 lex -> indexes l2 lex.
Proof.
  intros Hp [H1 H2 H3 H4]. split; try done.
  - intros t ps d n. rewrite <- (occ_count_perm _ _ _ _ Hp). apply H3.
  - intros o. rewrite <- Hp. apply H4.
Qed.

Lemma strict_fst_inj {A B} `{OrdLaws A} (l : list (A * B)) x y z :
  StrictlySorted (fst <$> l) -> (x, y) ∈ l -> (x, z) ∈ l -> y = z.
Proof.
  unfold StrictlySorted. induction l as [|[a b] l IH]; intros Hs Hy Hz; [by apply elem_of_nil in Hy|].
  inversion Hs as [|? ? Hl Ha]; subst. rewrite Forall_forall in Ha. simpl in Ha.
  assert (forall c, (a, c) ∉ l) as Hno.
  { intros c Hc. specialize (Ha a). rewrite lt_b_irrefl in Ha. by specialize (Ha (list_elem_of_fmap_2 fst _ _ Hc)). }
  apply elem_of_cons in Hy as [[= -> ->]|Hy], Hz as [[= ->]|Hz]; subst; try done.
  - by apply Hno in Hz.
  - by apply Hno in Hy.
  - by apply IH.
Qed.

(** A table with distinct keys in order is its set of entries. *)
Lemma strict_assoc_ext {A B} `{OrdLaws A} (l1 l2 : list (A * B)) :
  StrictlySorted (fst <$> l1) -> StrictlySorted (fst <$> l2) ->
  (forall x, x ∈ l1 <-> x ∈ l2) -> l1 = l2.
Proof.
  intros H1 H2 Hx. assert (fst <$> l1 = fst <$> l2) as Hf.
  { apply strictly_sorted_ext; [done..|]. intros x. rewrite !list_elem_of_fmap. by setoid_rewrite Hx. }
  apply (list_eq_same_length _ _ (length l1)); [|done|].
  { by rewrite <- (length_fmap fst), <- Hf, length_fmap. }
  intros i [a b] [a' b'] _ Ha Hb. assert (a = a') as <-.
  { apply (f_equal (lookup i)) in Hf. rewrite !list_lookup_fmap, Ha, Hb in Hf. by injection Hf. }
  f_equal. eapply (strict_fst_inj l2); [done|apply Hx|]; by eapply list_elem_of_lookup_2.
Qed.

Lemma indexes_unique l lex1 lex2 : indexes l lex1 -> indexes l lex2 -> lex1 = lex2.
Proof.
  assert (forall lex lex' t ps, indexes l lex -> indexes l lex' -> (t, ps) ∈ lex ->
            exists ps', (t, ps') ∈ lex' /\ forall d n, (d, n) ∈ ps -> (d, n) ∈ ps') as Hsub.
  { intros lex lex' t ps H1 H2 Hin. destruct (ix_documents _ _ H1 _ _ Hin) as [Hne _].
    assert (forall d n, (d, n) ∈ ps -> exists ps', (t, ps') ∈ lex' /\ (d, n) ∈ ps') as Hd.
    { intros d n Hdn. destruct (ix_counts _ _ H1 _ _ _ _ Hin Hdn) as [-> Hpos].
      apply occ_count_pos, (ix_all _ _ H2) in Hpos as (ps' & m & Hps' & Hm). simpl in *.
      exists ps'. split; [done|]. by destruct (ix_counts _ _ H2 _ _ _ _ Hps' Hm) as [-> _]. }
    destruct ps as [|[d0 n0] ps]; [done|].
    destruct (Hd d0 n0) as (ps' & Hps' & _); [apply list_elem_of_here|]. exists ps'. split; [done|].
    intros d n Hdn. destruct (Hd d n Hdn) as (ps2 & Hps2 & ?).
    by rewrite (strict_fst_inj _ _ _ _ (ix_terms _ _ H2) Hps' Hps2). }
  assert (forall lex lex' t ps, indexes l lex -> indexes l lex' -> (t, ps) ∈ lex -> (t, ps) ∈ lex') as Heq.
  { intros lex lex' t ps H1 H2 Hin. destruct (Hsub _ _ _ _ H1 H2 Hin) as (ps' & Hin' & Hle).
    destruct (Hsub _ _ _ _ H2 H1 Hin') as (ps2 & Hin2 & Hge).
    rewrite (strict_fst_inj _ _ _ _ (ix_terms _ _ H1) Hin2 Hin) in Hge. clear ps2 Hin2.
    rewrite (strict_assoc_ext ps ps'); [done| | |].
    - apply (ix_documents _ _ H1 _ _ Hin).
    - apply (ix_documents _ _ H2 _ _ Hin').
    - intros [d n]. split; auto. }
  intros H1 H2. apply strict_assoc_ext; [apply H1|apply H2|]. intros [t ps]. split; by eapply Heq.
Qed.

(** ** The index of documents *)
Lemma in_occurrences docs t d :
  {| occ_term := t; occ_document_id := d |} ∈ occurrences_of docs <->
  exists i terms, d = Z.of_nat i /\ docs !! i = Some terms /\ t ∈ terms.
Proof.
  unfold occurrences_of. rewrite elem_of_concat. split.
  - intros (l & Hin & Hl). apply list_elem_of_lookup in Hl as [i Hi].
    rewrite list_lookup_imap in Hi. destruct (docs !! i) as [terms|] eqn:Ed; [|done].
    injection Hi as <-. apply list_elem_of_fmap in Hin as (t' & [= -> ->] & Ht). by exists i, terms.
  - intros (i & terms & -> & Hd & Ht). eexists. split; cycle 1.
    + apply list_elem_of_lookup. exists i. by rewrite list_lookup_imap, Hd.
    + by apply (list_elem_of_fmap_2 (fun t => {| occ_term := t; occ_document_id := Z.of_nat i |})).
Qed.

Lemma in_postings docs t d n :
  (d, n) ∈ postings_of docs t <->
  exists i terms, d = Z.of_nat i /\ docs !! i = Some terms /\ t ∈ terms /\ n = count_term t terms.
Proof.
  unfold postings_of. rewrite elem_of_concat. split.
  - intros (l & Hin & Hl). apply list_elem_of_lookup in Hl as [i Hi].
    rewrite list_lookup_imap in Hi. destruct (docs !! i) as [terms|] eqn:Ed; [|done].
    injection Hi as <-. unfold posting_in in Hin. case_decide; [|by apply elem_of_nil in Hin].
    apply list_elem_of_singleton in Hin as [= -> ->]. by exists i, terms.
  - intros (i & terms & -> & Hd & Ht & ->). exists (posting_in t i terms). split.
    + unfold posting_in. rewrite decide_True by done. apply list_elem_of_here.
    + apply list_elem_of_lookup. exists i. by rewrite list_lookup_imap, Hd.
Qed.

Lemma occ_count_app t d l1 l2 : occ_count t d (l1 ++ l2) = (occ_count t d l1 + occ_count t d l2)%Z.
Proof. unfold occ_count. rewrite List.filter_app, length_app. lia. Qed.

Lemma occ_count_document t d j terms :
  occ_count t d ((fun t => {| occ_term := t; occ_document_id := j |}) <$> terms)
  = if (d =? j)%Z then count_term t terms else 0%Z.
Proof.
  unfold occ_count, count_term. induction terms as [|x terms IH]; [by destruct (_ =? _)%Z|].
  rewrite fmap_cons. cbn [List.filter]. case_bool_decide as Ho.
  - injection Ho as -> ->. rewrite Z.eqb_refl in *. rewrite bool_decide_eq_true_2 by done.
    simpl length. lia.
  - rewrite IH. destruct (Z.eqb_spec d j) as [->|]; [|done]. rewrite bool_decide_eq_false_2; [done|].
    intros ->. by apply Ho.
Qed.

Lemma occ_count_zero t d l :
  {| occ_term := t; occ_document_id := d |} ∉ l -> occ_count t d l = 0%Z.
Proof. rewrite <- occ_count_pos. unfold occ_count. lia. Qed.

(** From document [k] on. *)
Lemma occ_count_from k docs t i terms :
  docs !! i = Some terms ->
  occ_count t (Z.of_nat (k + i)) (concat (imap (fun d terms =>
    (fun t => {| occ_term := t; occ_document_id := Z.of_nat (k + d) |}) <$> terms) docs))
  = count_term t terms.
Proof.
  revert k i. induction docs as [|x docs IH]; intros k i Hi; [done|]. rewrite imap_cons, concat_cons.
  rewrite occ_count_app, occ_count_document.
  destruct i as [|i].
  - injection Hi as ->. rewrite Nat.add_0_r, Z.eqb_refl.
    rewrite occ_count_zero; [lia|]. intros (l & Hin & Hl)%elem_of_concat.
    apply list_elem_of_lookup in Hl as [j Hj]. rewrite list_lookup_imap in Hj.
    destruct (docs !! j); [|done]. injection Hj as <-. unfold compose in Hin.
    apply list_elem_of_fmap in Hin as (? & [= _ Heq] & _). lia.
  - destruct (Z.eqb_spec (Z.of_nat (k + S i)) (Z.of_nat (k + 0))); [lia|]. simpl in Hi.
    rewrite Nat.add_succ_r, Z.add_0_l. change (S (k + i)) with (S k + i).
    rewrite <- (IH (S k) i Hi). f_equal. f_equal. apply imap_ext.
    intros j y _. unfold compose. by rewrite Nat.add_succ_r.
Qed.

Lemma count_term_pos t terms : (0 < count_term t terms)%Z <-> t ∈ terms.
Proof.
  unfold count_term. induction terms as [|x terms IH]; simpl.
  - split; [done|by intros ?%elem_of_nil].
  - rewrite elem_of_cons. case_bool_decide as Hx; simpl.
    + split; [by left|lia].
    + rewrite IH. split; [by right|]. intros [->|?]; [by destruct Hx|done].
Qed.

Lemma postings_sorted k docs t :
  StrictlySorted (fst <$> concat (imap (fun d => posting_in t (k + d)) docs)) /\
  forall d n, (d, n) ∈ concat (imap (fun d => posting_in t (k + d)) docs) -> (Z.of_nat k <= d)%Z.
Proof.
  revert k. induction docs as [|x docs IH]; intros k.
  { split; [constructor|]. by intros d n ?%elem_of_nil. }
  rewrite imap_cons, concat_cons. destruct (IH (S k)) as [Hs Hge].
  assert (imap ((fun d => posting_in t (k + d)) ∘ S) docs = imap (fun d => posting_in t (S k + d)) docs) as ->.
  { apply imap_ext. intros j y _. unfold compose. by rewrite Nat.add_succ_r. }
  unfold posting_in at 1 3. rewrite Nat.add_0_r. case_decide as Ht.
  - simpl. split.
    + constructor; [done|]. rewrite Forall_forall. intros d ([d' n] & -> & Hin)%list_elem_of_fmap.
      apply Hge in Hin. unfold lt_b, cmp, Ord_Z. simpl. by rewrite (proj2 (Z.compare_lt_iff _ _)) by lia.
    + intros d n [[= -> ->]|Hin]%elem_of_cons; [lia|]. apply Hge in Hin. lia.
  - simpl. split; [done|]. intros d n Hin. apply Hge in Hin. lia.
Qed.

Theorem index_of_indexes docs : indexes (occurrences_of docs) (index_of docs).
Proof.
  assert (forall t ps, (t, ps) ∈ index_of docs <-> ps = postings_of docs t /\ t ∈ concat docs) as Hin.
  { intros t ps. unfold index_of. rewrite list_elem_of_fmap. split.
    - intros (x & [= -> ->] & Hx). by rewrite sort_perm, elem_of_remove_dups in Hx.
    - intros [-> Ht]. exists t. split; [done|]. by rewrite sort_perm, elem_of_remove_dups. }
  split.
  - unfold index_of. rewrite <- list_fmap_compose. unfold compose. simpl. rewrite list_fmap_id.
    apply sorted_NoDup_strict; [apply sort_sorted|]. rewrite sort_perm. apply NoDup_remove_dups.
  - intros t ps [-> Ht]%Hin. split; [|apply (postings_sorted 0)].
    apply elem_of_concat in Ht as (terms & Ht & Hd). apply list_elem_of_lookup in Hd as [i Hi].
    intros Hnil. assert ((Z.of_nat i, count_term t terms) ∈ postings_of docs t) as Hp.
    { apply in_postings. by exists i, terms. }
    rewrite Hnil in Hp. by apply elem_of_nil in Hp.
  - intros t ps d n [-> Ht]%Hin (i & terms & -> & Hd & Hterm & ->)%in_postings.
    split; [|by apply count_term_pos]. symmetry. by apply (occ_count_from 0).
  - intros [t d] (i & terms & -> & Hd & Ht)%in_occurrences. simpl.
    exists (postings_of docs t), (count_term t terms). split; [apply Hin; split; [done|]|].
    + apply elem_of_concat. exists terms. split; [done|]. by eapply list_elem_of_lookup_2.
    + apply in_postings. by exists i, terms.
Qed.
