(* ===== verification/SearchWrite.v ===== *)
(** * Writing the inverted index

    [write_final_index] reads the sorted occurrences once.  [grouping] is what it does
    without its files: the entry it is about to write, and those it has written. *)
From S2P Require Import Prelude Order Text Bytes Json Protocol Disk SearchModel SearchBuild SearchCodec SearchSort SearchIndex.

(** ** Grouping *)
(** Terms that are complete, then term [t] with the postings [ps] of earlier documents and
    [n] occurrences in document [d] so far, then the occurrences to come. *)
Fixpoint grouping (dn : lexicon) (t : string) (ps : list (Z * Z)) (d n : Z) (l : list Occurrence)
    : lexicon :=
  match l with
  | [] => dn ++ [(t, ps ++ [(d, n)])]
  | o :: l =>
      if bool_decide (t = occ_term o) && (d =? occ_document_id o)%Z then grouping dn t ps d (n + 1) l
      else if bool_decide (t = occ_term o) then grouping dn t (ps ++ [(d, n)]) (occ_document_id o) 1 l
      else grouping (dn ++ [(t, ps ++ [(d, n)])]) (occ_term o) [] (occ_document_id o) 1 l
  end.
Definition group_occurrences (l : list Occurrence) : lexicon :=
  match l with
  | [] => []
  | o :: l => grouping [] (occ_term o) [] (occ_document_id o) 1 l
  end.

(** The pending entry ends up in the lexicon, with more postings and occurrences. *)
Lemma grouping_pending dn t ps d n l :
  (exists n' ps', (n <= n')%Z /\ (t, ps ++ (d, n') :: ps') ∈ grouping dn t ps d n l) /\
  (exists rest, grouping dn t ps d n l = dn ++ rest).
Proof.
  revert dn t ps d n. induction l as [|o l IH]; intros dn t ps d n; simpl.
  - split; [|by eexists]. exists n, []. split; [done|]. apply elem_of_app. right. apply list_elem_of_here.
  - destruct (bool_decide_reflect (t = occ_term o)) as [->|Ht]; simpl.
    + destruct (Z.eqb_spec d (occ_document_id o)) as [->|Hd].
      * destruct (IH dn (occ_term o) ps (occ_document_id o) (n + 1)%Z) as [(n' & ps' & ? & ?) ?].
        split; [|done]. exists n', ps'. split; [lia|done].
      * destruct (IH dn (occ_term o) (ps ++ [(d, n)]) (occ_document_id o) 1%Z) as [(n' & ps' & _ & Hin) ?].
        split; [|done]. exists n, ((occ_document_id o, n') :: ps'). split; [done|].
        by rewrite <- app_assoc in Hin.
    + destruct (IH (dn ++ [(t, ps ++ [(d, n)])]) (occ_term o) [] (occ_document_id o) 1%Z) as [_ [rest Hr]].
      split; [|exists ((t, ps ++ [(d, n)]) :: rest); by rewrite Hr, <- app_assoc].
      exists n, []. split; [done|]. rewrite Hr. apply elem_of_app. left. apply elem_of_app. right.
      apply list_elem_of_here.
Qed.

Lemma strict_snoc {A} `{OrdLaws A} (l : list A) x :
  StrictlySorted (l ++ [x]) <-> StrictlySorted l /\ forall y, y ∈ l -> lt_b y x = true.
Proof.
  unfold StrictlySorted. induction l as [|a l IH]; simpl.
  - split; [|repeat constructor]. split; [constructor|]. by intros y ?%elem_of_nil.
  - split.
    + intros Hs. inversion Hs as [|? ? Hl Ha]; subst. apply IH in Hl as [Hl Hx].
      apply Forall_app in Ha as [Ha Hax]. inversion Hax; subst.
      split; [by constructor|]. by intros y [->|Hy]%elem_of_cons; [|apply Hx].
    + intros [Hs Hx]. inversion Hs as [|? ? Hl Ha]; subst. constructor.
      * apply IH. split; [done|]. intros y Hy. apply Hx. by right.
      * apply Forall_app. split; [done|]. constructor; [|done]. apply Hx, list_elem_of_here.
Qed.

Lemma occ_count_snoc t d l o :
  occ_count t d (l ++ [o]) = (occ_count t d l + if bool_decide (occ_key o = (t, d)) then 1 else 0)%Z.
Proof. rewrite occ_count_app. unfold occ_count at 2. simpl. by case_bool_decide. Qed.

(** What [grouping] has seen is indexed by what it has written and what is pending. *)
Definition grouped (seen : list Occurrence) (dn : lexicon) t ps d n : Prop :=
  indexes seen (dn ++ [(t, ps ++ [(d, n)])]).

Lemma lt_b_Z x y : lt_b x y = true <-> (x < y)%Z.
Proof. unfold lt_b, cmp, Ord_Z. destruct (Z.compare_spec x y); split; (done || lia). Qed.

Lemma occ_lt o t d :
  le_b (t, d) (occ_key o) = true -> t <> occ_term o \/ d <> occ_document_id o ->
  lt_b t (occ_term o) = true \/ t = occ_term o /\ (d < occ_document_id o)%Z.
Proof.
  unfold le_b, lt_b, occ_key. rewrite cmp_prod. destruct (cmp t (occ_term o)) eqn:E; [|by left|done].
  apply cmp_eq in E as ->. simpl. unfold cmp, Ord_Z.
  destruct (Z.compare_spec d (occ_document_id o)); [|by right|done]. intros _ [?|?]; done.
Qed.

Lemma fst_elem {A B} (l : list (A * B)) x y : (x, y) ∈ l -> x ∈ fst <$> l.
Proof. intros Hin. by apply (list_elem_of_fmap_2 fst l (x, y)). Qed.

Lemma indexes_key seen lex t d ps n :
  indexes seen lex -> (t, ps) ∈ lex -> (d, n) ∈ ps ->
  {| occ_term := t; occ_document_id := d |} ∈ seen.
Proof. intros Hi Hin Hd. destruct (ix_counts _ _ Hi _ _ _ _ Hin Hd) as [-> Hp]. by apply occ_count_pos. Qed.

(** Another occurrence of the last term. *)
Lemma indexes_last_term seen dn t qs qs' o :
  indexes seen (dn ++ [(t, qs)]) -> occ_term o = t ->
  qs' <> [] -> StrictlySorted (fst <$> qs') ->
  (forall d n, (d, n) ∈ qs' -> n = occ_count t d (seen ++ [o]) /\ (0 < n)%Z) ->
  (forall d n, (d, n) ∈ qs -> d ∈ fst <$> qs') -> occ_document_id o ∈ fst <$> qs' ->
  indexes (seen ++ [o]) (dn ++ [(t, qs')]).
Proof.
  intros [H1 H2 H3 H4] Ho Hne Hs Hc Hkeep Hnew. rewrite fmap_app in H1. simpl in H1.
  assert (forall t' ps, (t', ps) ∈ dn -> t' <> t) as Hdn.
  { intros t' ps Hin ->. apply strict_snoc in H1 as [_ H1]. specialize (H1 t (fst_elem _ _ _ Hin)).
    by rewrite lt_b_irrefl in H1. }
  split.
  - by rewrite fmap_app.
  - intros t' ps [Hin|[= -> ->]%list_elem_of_singleton]%elem_of_app; [|done].
    apply (H2 t'), elem_of_app. by left.
  - intros t' ps d n [Hin|[= -> ->]%list_elem_of_singleton]%elem_of_app Hd; [|by apply Hc].
    rewrite occ_count_snoc, bool_decide_eq_false_2, Z.add_0_r.
    + apply (H3 _ ps); [|done]. apply elem_of_app. by left.
    + intros [= <- _]. by apply (Hdn _ _ Hin).
  - assert (forall d, d ∈ fst <$> qs' -> exists ps n, (t, ps) ∈ dn ++ [(t, qs')] /\ (d, n) ∈ ps) as Hlast.
    { intros d ([d' n] & -> & Hd)%list_elem_of_fmap. exists qs', n. split; [|done].
      apply elem_of_app. right. apply list_elem_of_here. }
    intros x [Hx| ->%list_elem_of_singleton]%elem_of_app; [|rewrite Ho; by apply Hlast].
    destruct (H4 x Hx) as (ps & n & [Hin|[= Ht ->]%list_elem_of_singleton]%elem_of_app & Hd).
    + exists ps, n. split; [|done]. apply elem_of_app. by left.
    + rewrite Ht. apply Hlast. by eapply Hkeep.
Qed.

(** The first occurrence of a later term. *)
Lemma indexes_new_term seen lex o :
  indexes seen lex -> (forall t ps, (t, ps) ∈ lex -> lt_b t (occ_term o) = true) ->
  indexes (seen ++ [o]) (lex ++ [(occ_term o, [(occ_document_id o, 1%Z)])]).
Proof.
  intros Hi Hlt. pose proof Hi as [H1 H2 H3 H4]. split.
  - rewrite fmap_app. simpl. apply strict_snoc. split; [done|].
    intros t ([t' ps] & -> & Hin)%list_elem_of_fmap. by eapply Hlt.
  - intros t ps [Hin|[= -> ->]%list_elem_of_singleton]%elem_of_app; [by eapply H2|].
    split; [done|]. repeat constructor.
  - intros t ps d n [Hin|[= -> ->]%list_elem_of_singleton]%elem_of_app Hd.
    + rewrite occ_count_snoc, bool_decide_eq_false_2, Z.add_0_r; [by apply (H3 _ ps)|].
      intros [= <- _]. specialize (Hlt _ _ Hin). by rewrite lt_b_irrefl in Hlt.
    + apply list_elem_of_singleton in Hd as [= -> ->]. rewrite occ_count_snoc.
      rewrite bool_decide_eq_true_2 by done. rewrite occ_count_zero; [lia|].
      intros Hin. destruct (H4 _ Hin) as (ps & n & Hps & _). specialize (Hlt _ _ Hps).
      simpl in Hlt. by rewrite lt_b_irrefl in Hlt.
  - intros x [Hx| ->%list_elem_of_singleton]%elem_of_app.
    + destruct (H4 x Hx) as (ps & n & Hin & Hd). exists ps, n. split; [|done]. apply elem_of_app. by left.
    + exists [(occ_document_id o, 1%Z)], 1%Z. split; [|apply list_elem_of_here].
      apply elem_of_app. right. apply list_elem_of_here.
Qed.

(** Another occurrence of the last term in the last document. *)
Lemma grouped_same seen dn t ps d n o :
  grouped seen dn t ps d n -> occ_key o = (t, d) -> grouped (seen ++ [o]) dn t ps d (n + 1).
Proof.
  intros Hg [= Ht Hd]. pose proof (ix_documents _ _ Hg t (ps ++ [(d, n)])) as [_ Hs].
  { apply elem_of_app. right. apply list_elem_of_here. }
  rewrite fmap_app in Hs. simpl in Hs.
  assert (forall d' n', (d', n') ∈ ps ++ [(d, n)] -> n' = occ_count t d' seen /\ (0 < n')%Z) as Hc.
  { intros d' n'. apply (ix_counts _ _ Hg). apply elem_of_app. right. apply list_elem_of_here. }
  eapply indexes_last_term; [exact Hg|done| | | | |].
  - by destruct ps.
  - by rewrite fmap_app.
  - intros d' n' [Hin|[= -> ->]%list_elem_of_singleton]%elem_of_app; rewrite occ_count_snoc.
    + rewrite bool_decide_eq_false_2, Z.add_0_r; [apply Hc, elem_of_app; by left|].
      intros [= _ Hd']. rewrite <- Hd', Hd in Hin. apply strict_snoc in Hs as [_ Hs].
      specialize (Hs d (fst_elem _ _ _ Hin)).
      by rewrite lt_b_irrefl in Hs.
    + rewrite bool_decide_eq_true_2 by (by unfold occ_key; rewrite Ht, Hd).
      destruct (Hc d n) as [-> ?]; [apply elem_of_app; right; apply list_elem_of_here|]. lia.
  - intros d' n' Hin. apply fst_elem in Hin. by rewrite fmap_app in *.
  - rewrite Hd, fmap_app. apply elem_of_app. right. apply list_elem_of_here.
Qed.

(** The last term in a later document. *)
Lemma grouped_document seen dn t ps d n o :
  grouped seen dn t ps d n -> occ_term o = t -> (d < occ_document_id o)%Z ->
  grouped (seen ++ [o]) dn t (ps ++ [(d, n)]) (occ_document_id o) 1.
Proof.
  intros Hg Ht Hd. pose proof (ix_documents _ _ Hg t (ps ++ [(d, n)])) as [_ Hs].
  { apply elem_of_app. right. apply list_elem_of_here. }
  assert (forall d', d' ∈ fst <$> ps ++ [(d, n)] -> (d' < occ_document_id o)%Z) as Hlt.
  { rewrite fmap_app in *. apply strict_snoc in Hs as [_ Hs].
    intros d' [Hin| ->%list_elem_of_singleton]%elem_of_app; [|done].
    specialize (Hs d' Hin). apply lt_b_Z in Hs. simpl in Hs. lia. }
  assert (forall d' n', (d', n') ∈ ps ++ [(d, n)] -> n' = occ_count t d' seen /\ (0 < n')%Z) as Hc.
  { intros d' n'. apply (ix_counts _ _ Hg). apply elem_of_app. right. apply list_elem_of_here. }
  eapply indexes_last_term; [exact Hg|done| | | | |].
  - by destruct ps.
  - rewrite fmap_app. apply strict_snoc. split; [done|]. intros d' Hin. by apply lt_b_Z, Hlt.
  - intros d' n' [Hin|[= -> ->]%list_elem_of_singleton]%elem_of_app; rewrite occ_count_snoc.
    + rewrite bool_decide_eq_false_2, Z.add_0_r; [by apply Hc|].
      intros [= _ <-]. specialize (Hlt _ (fst_elem _ _ _ Hin)). lia.
    + rewrite bool_decide_eq_true_2 by (by unfold occ_key; rewrite Ht).
      rewrite occ_count_zero; [lia|]. intros Hin.
      destruct (ix_all _ _ Hg _ Hin) as (qs & m & [Hq|[= ->]%list_elem_of_singleton]%elem_of_app & Hm); simpl in *.
      * pose proof (ix_terms _ _ Hg) as Hterms. rewrite fmap_app in Hterms.
        apply strict_snoc in Hterms as [_ Hterms]. specialize (Hterms t (fst_elem _ _ _ Hq)).
        by rewrite lt_b_irrefl in Hterms.
      * specialize (Hlt _ (fst_elem _ _ _ Hm)). lia.
  - intros d' n' Hin. apply fst_elem in Hin. rewrite fmap_app. apply elem_of_app. by left.
  - rewrite fmap_app. apply elem_of_app. right. apply list_elem_of_here.
Qed.

(** The occurrences of the loop come in order, none before what is pending. *)
Lemma grouping_indexes seen dn t ps d n l :
  grouped seen dn t ps d n -> sorted_occs ({| occ_term := t; occ_document_id := d |} :: l) ->
  indexes (seen ++ l) (grouping dn t ps d n l).
Proof.
  revert seen dn t ps d n. induction l as [|o l IH]; intros seen dn t ps d n Hg Hs; simpl.
  { by rewrite app_nil_r. }
  replace (seen ++ o :: l) with ((seen ++ [o]) ++ l) by (by rewrite <- app_assoc).
  inversion Hs as [|? ? Hs' Hle]; subst.
  assert (sorted_occs ({| occ_term := occ_term o; occ_document_id := occ_document_id o |} :: l)) as Hs2
    by (by destruct o).
  inversion Hle as [|? ? Hto _]; subst. change (le_b (t, d) (occ_key o) = true) in Hto.
  destruct (bool_decide_reflect (t = occ_term o)) as [Ht|Ht]; simpl.
  - destruct (Z.eqb_spec d (occ_document_id o)) as [Hd|Hd].
    + apply IH; [|by rewrite Ht, Hd]. apply grouped_same; [done|]. by rewrite Ht, Hd.
    + rewrite Ht in Hg |- *. apply IH; [|done]. apply grouped_document; [done|done|].
      destruct (occ_lt o t d Hto) as [Hlt|[_ ?]]; [by right| |done].
      rewrite Ht, lt_b_irrefl in Hlt. done.
  - apply IH; [|done]. apply indexes_new_term; [exact Hg|].
    destruct (occ_lt o t d Hto) as [Hlt|[? _]]; [by left| |done].
    pose proof (ix_terms _ _ Hg) as Hterms. rewrite fmap_app in Hterms. apply strict_snoc in Hterms as [_ Hterms].
    intros t' ps' [Hin|[= -> ->]%list_elem_of_singleton]%elem_of_app; [|done].
    specialize (Hterms _ (fst_elem _ _ _ Hin)). simpl in Hterms. unfold lt_b in *.
    destruct (cmp t' t) eqn:E1; try done. destruct (cmp t (occ_term o)) eqn:E2; try done.
    by rewrite (cmp_lt_trans _ _ _ E1 E2).
Qed.

Lemma indexes_nil : indexes [] [].
Proof.
  split; [constructor|by intros t ps ?%elem_of_nil|by intros t ps d n ?%elem_of_nil|by intros o ?%elem_of_nil].
Qed.

Lemma group_occurrences_indexes l : sorted_occs l -> indexes l (group_occurrences l).
Proof.
  intros Hs. destruct l as [|o l]; [apply indexes_nil|]. simpl.
  apply (grouping_indexes [o]); [|by destruct o].
  apply (indexes_new_term [] []); [apply indexes_nil|]. by intros t ps ?%elem_of_nil.
Qed.

(** The lexicon of documents, from their sorted occurrences. *)
Theorem group_sorted_occurrences docs :
  group_occurrences (sort (occurrences_of docs)) = index_of docs.
Proof.
  eapply indexes_unique; [|apply index_of_indexes].
  eapply indexes_perm; [apply sort_perm|]. apply group_occurrences_indexes.
  rewrite sort_occurrences. apply sort_by_key_sorted.
Qed.

(** ** The files of a lexicon *)
Definition posting_bytes (p : Z * Z) : list Z := to_le 8 p.1 ++ to_le 4 p.2.
Definition postings_bytes (ps : list (Z * Z)) : list Z := concat (posting_bytes <$> ps).

Definition entry_bytes (e : LexiconEntry) : list Z :=
  to_le 4 (Z.of_nat (String.length (lex_term e))) ++ str_bytes (lex_term e)
  ++ to_le 8 (lex_postings_offset e) ++ to_le 4 (lex_document_frequency e).

(** The entries of [lex], whose postings start at [offset]. *)
Fixpoint entries_from (offset : Z) (lex : lexicon) : list LexiconEntry :=
  match lex with
  | [] => []
  | (t, ps) :: lex =>
      {| lex_term := t; lex_postings_offset := offset; lex_document_frequency := Z.of_nat (length ps) |}
      :: entries_from (offset + Z.of_nat (length ps) * POSTING_BYTES) lex
  end.

Definition all_postings (lex : lexicon) : list (Z * Z) := concat (snd <$> lex).
Definition offset_after (lex : lexicon) : Z :=
  (8 + Z.of_nat (length (all_postings lex)) * POSTING_BYTES)%Z.

Definition lexicon_content (lex : lexicon) : list Z :=
  LEXICON_MAGIC ++ concat (entry_bytes <$> entries_from 8 lex).
Definition postings_content (lex : lexicon) : list Z :=
  POSTINGS_MAGIC ++ postings_bytes (all_postings lex).

(** Everything that is written as a number of some width has that width. *)
Record lex_fits (lex : lexicon) : Prop := {
  lf_entries t ps : (t, ps) ∈ lex -> term_ok t /\ u32 (Z.of_nat (length ps));
  lf_postings t ps d n : (t, ps) ∈ lex -> (d, n) ∈ ps -> u64 d /\ u32 n;
  lf_terms : (Z.of_nat (length lex) <= u64_max)%Z;
  lf_offset : (offset_after lex <= u64_max)%Z
}.

Lemma entries_from_app o lex1 lex2 :
  entries_from o (lex1 ++ lex2)
  = entries_from o lex1 ++ entries_from (o + Z.of_nat (length (all_postings lex1)) * POSTING_BYTES) lex2.
Proof.
  revert o. induction lex1 as [|[t ps] lex1 IH]; intros o; simpl.
  - f_equal. unfold all_postings. simpl. lia.
  - rewrite IH. f_equal. f_equal. f_equal. unfold all_postings. rewrite fmap_cons, concat_cons.
    rewrite length_app. simpl. lia.
Qed.

Lemma all_postings_app lex1 lex2 : all_postings (lex1 ++ lex2) = all_postings lex1 ++ all_postings lex2.
Proof. unfold all_postings. by rewrite fmap_app, concat_app. Qed.

Lemma postings_bytes_app l1 l2 : postings_bytes (l1 ++ l2) = postings_bytes l1 ++ postings_bytes l2.
Proof. unfold postings_bytes. by rewrite fmap_app, concat_app. Qed.

Lemma length_postings_bytes ps : length (postings_bytes ps) = 12 * length ps.
Proof.
  induction ps as [|p ps IH]; [done|]. change (postings_bytes (p :: ps)) with (posting_bytes p ++ postings_bytes ps).
  rewrite length_app, IH. unfold posting_bytes. rewrite length_app, !length_to_le. simpl. lia.
Qed.

Lemma offset_after_snoc lex t ps :
  offset_after (lex ++ [(t, ps)]) = (offset_after lex + Z.of_nat (length ps) * POSTING_BYTES)%Z.
Proof.
  unfold offset_after. rewrite all_postings_app, length_app. unfold all_postings at 2.
  simpl. rewrite app_nil_r. lia.
Qed.

Lemma lexicon_content_snoc lex t ps :
  lexicon_content (lex ++ [(t, ps)])
  = lexicon_content lex ++ entry_bytes {| lex_term := t; lex_postings_offset := offset_after lex;
                                         lex_document_frequency := Z.of_nat (length ps) |}.
Proof.
  unfold lexicon_content. rewrite entries_from_app, fmap_app, concat_app, <- app_assoc. simpl.
  by rewrite app_nil_r.
Qed.

Section write.
Context {E : abort -> Prop}.
Context (lx px : string) (Hfiles : lx <> px).

Lemma wp_write_posting path d n old w (Q : () -> World -> Prop) :
  disk w !! path = Some old ->
  (forall w', disk w' = <[path := old ++ posting_bytes (d, n)]> (disk w) -> Q tt w') ->
  wp (write_posting path d n) w E Q.
Proof.
  intros Hp HQ. unfold write_posting. apply wp_bind. eapply wp_append; [exact Hp|].
  eapply wp_append; [apply lookup_insert_eq|]. apply HQ. simpl.
  by rewrite insert_insert_eq, <- app_assoc.
Qed.

Lemma wp_write_lexicon_entry path e old w (Q : () -> World -> Prop) :
  disk w !! path = Some old -> term_ok (lex_term e) ->
  (forall w', disk w' = <[path := old ++ entry_bytes e]> (disk w) -> Q tt w') ->
  wp (write_lexicon_entry path e) w E Q.
Proof.
  intros Hp Ht HQ. unfold write_lexicon_entry. pose proof (term_length_u32 _ Ht) as [_ Hl].
  destruct (Z.ltb_spec u32_max (Z.of_nat (String.length (lex_term e)))); [lia|].
  apply wp_bind. eapply wp_append; [exact Hp|].
  do 2 (apply wp_bind; eapply wp_append; [apply lookup_insert_eq|]).
  eapply wp_append; [apply lookup_insert_eq|]. apply HQ. simpl.
  rewrite !insert_insert_eq. f_equal. unfold entry_bytes. by rewrite <- !app_assoc.
Qed.

(** The state of the loop: [dn] is written, and of term [t] the postings [ps]. *)
Record final_holds (s : FinalState) (dn : lexicon) t ps d n (w0 w : World) : Prop := {
  fh_term : current_term s = Some t;
  fh_document : current_document s = d;
  fh_frequency : term_frequency s = n;
  fh_documents : document_frequency s = Z.of_nat (length ps);
  fh_offset : postings_offset s = offset_after dn;
  fh_count : final_term_count s = Z.of_nat (length dn);
  fh_disk : disk w = <[px := postings_content dn ++ postings_bytes ps]>
                       (<[lx := lexicon_content dn]> (disk w0))
}.

Lemma wp_end_posting s dn t ps d n w0 w (Q : FinalState -> World -> Prop) :
  final_holds s dn t ps d n w0 w -> (Z.of_nat (length ps) < u32_max)%Z ->
  (forall s' w', current_term s' = Some t -> postings_offset s' = offset_after dn ->
     final_term_count s' = Z.of_nat (length dn) ->
     document_frequency s' = Z.of_nat (length (ps ++ [(d, n)])) ->
     disk w' = <[px := postings_content dn ++ postings_bytes (ps ++ [(d, n)])]>
                 (<[lx := lexicon_content dn]> (disk w0)) -> Q s' w') ->
  wp (end_posting px s) w E Q.
Proof.
  intros [Ht <- <- Hdf Ho Hc Hd] Hlt HQ. unfold end_posting. apply wp_bind.
  eapply wp_write_posting; [by rewrite Hd, lookup_insert_eq|]. intros w1 Hw1.
  apply wp_bind. eapply wp_try.
  { apply ok_or_Ok. unfold checked_add_u32. rewrite decide_True by lia. reflexivity. }
  apply wp_ret, HQ; simpl; try done.
  - rewrite length_app, Hdf. simpl. lia.
  - rewrite Hw1, Hd, insert_insert_eq, postings_bytes_app, app_assoc. f_equal.
Qed.

Lemma postings_content_snoc dn t ps :
  postings_content (dn ++ [(t, ps)]) = postings_content dn ++ postings_bytes ps.
Proof.
  unfold postings_content. rewrite all_postings_app, postings_bytes_app, app_assoc. f_equal.
  unfold all_postings. simpl. by rewrite app_nil_r.
Qed.

Lemma wp_end_term s dn t qs w0 w (Q : FinalState -> World -> Prop) :
  current_term s = Some t -> postings_offset s = offset_after dn ->
  final_term_count s = Z.of_nat (length dn) -> document_frequency s = Z.of_nat (length qs) ->
  disk w = <[px := postings_content dn ++ postings_bytes qs]> (<[lx := lexicon_content dn]> (disk w0)) ->
  term_ok t -> (Z.of_nat (length dn) < u64_max)%Z ->
  (forall s' w', postings_offset s' = offset_after dn ->
     final_term_count s' = Z.of_nat (length (dn ++ [(t, qs)])) ->
     document_frequency s' = Z.of_nat (length qs) ->
     disk w' = <[px := postings_content (dn ++ [(t, qs)])]>
                 (<[lx := lexicon_content (dn ++ [(t, qs)])]> (disk w0)) -> Q s' w') ->
  wp (end_term lx t s) w E Q.
Proof.
  intros Ht Ho Hc Hdf Hd Hterm Hlt HQ. unfold end_term. apply wp_bind.
  eapply wp_write_lexicon_entry; [by rewrite Hd, lookup_insert_ne, lookup_insert_eq by done|done|].
  intros w1 Hw1. apply wp_bind. eapply wp_try.
  { apply ok_or_Ok, checked_add_u64_Some. rewrite Hc. split; [reflexivity|lia]. }
  apply wp_ret, HQ; simpl; try done.
  - rewrite length_app. simpl. lia.
  - rewrite Hw1, Hd, postings_content_snoc, lexicon_content_snoc, Ho, Hdf.
    rewrite insert_insert_ne by done. by rewrite insert_insert_eq.
Qed.

Lemma offset_after_prefix lex rest : (offset_after lex <= offset_after (lex ++ rest))%Z.
Proof. unfold offset_after, POSTING_BYTES. rewrite all_postings_app, length_app. lia. Qed.

(** The numbers of the pending entry fit, as they end up in the lexicon. *)
Lemma pending_fits dn t ps d n l :
  lex_fits (grouping dn t ps d n l) ->
  term_ok t /\ (Z.of_nat (length ps) < u32_max)%Z /\ (n <= u32_max)%Z.
Proof.
  intros Hf. destruct (grouping_pending dn t ps d n l) as [(n' & ps' & Hn & Hin) _].
  destruct (lf_entries _ Hf _ _ Hin) as [Ht [_ Hl]]. rewrite length_app in Hl. simpl in Hl.
  destruct (lf_postings _ Hf _ _ d n' Hin) as [_ [_ ?]].
  { apply elem_of_app. right. apply list_elem_of_here. }
  split_and!; [done|lia|lia].
Qed.

Lemma wp_final_step s dn t ps d n o l w0 w :
  final_holds s dn t ps d n w0 w -> lex_fits (grouping dn t ps d n (o :: l)) ->
  wp (final_step lx px s o) w E (fun s' w' => exists dn' t' ps' d' n',
    final_holds s' dn' t' ps' d' n' w0 w' /\
    grouping dn t ps d n (o :: l) = grouping dn' t' ps' d' n' l).
Proof.
  intros Hs Hfits. pose proof Hs as [Ht Hd Hn Hdf Ho Hc Hdisk].
  unfold final_step. rewrite Ht, Hd. cbn [grouping] in *.
  destruct (bool_decide_reflect (t = occ_term o)) as [Hto|Hto]; cbn [andb] in *.
  - destruct (Z.eqb_spec d (occ_document_id o)) as [Hdo|Hdo].
    + apply pending_fits in Hfits as (_ & _ & Hn1).
      apply wp_bind. eapply wp_try.
      { apply ok_or_Ok. unfold checked_add_u32. rewrite Hn, decide_True by lia. reflexivity. }
      apply wp_ret. eexists dn, t, ps, d, _. split; [|reflexivity]. split; simpl; try done.
    + apply pending_fits in Hfits as (_ & Hlen & _). rewrite length_app in Hlen. simpl in Hlen.
      apply wp_bind. eapply wp_end_posting; [exact Hs|lia|]. intros s1 w1 Ht1 Ho1 Hc1 Hdf1 Hd1.
      apply wp_ret. eexists dn, t, _, _, _. split; [|reflexivity].
      split; simpl; try done. by rewrite Hto.
  - pose proof Hfits as Hfits'. apply pending_fits in Hfits' as _.
    destruct (grouping_pending (dn ++ [(t, ps ++ [(d, n)])]) (occ_term o) [] (occ_document_id o) 1 l)
      as [_ [rest Hrest]].
    rewrite Hrest in Hfits. destruct Hfits as [He _ Hterms Hoff].
    assert ((t, ps ++ [(d, n)]) ∈ (dn ++ [(t, ps ++ [(d, n)])]) ++ rest) as Hin.
    { apply elem_of_app. left. apply elem_of_app. right. apply list_elem_of_here. }
    destruct (He _ _ Hin) as [Hterm [_ Hlen]]. rewrite !length_app in *. simpl in *.
    pose proof (offset_after_prefix (dn ++ [(t, ps ++ [(d, n)])]) rest) as Hle.
    rewrite offset_after_snoc in Hle.
    apply wp_bind. eapply wp_end_posting; [exact Hs|lia|]. intros s1 w1 Ht1 Ho1 Hc1 Hdf1 Hd1.
    apply wp_bind. eapply wp_end_term; [exact Ht1|exact Ho1|exact Hc1|exact Hdf1|exact Hd1|done|lia|].
    intros s2 w2 Ho2 Hc2 Hdf2 Hd2. apply wp_bind. eapply wp_try.
    { unfold next_offset. rewrite Ho2, Hdf2. rewrite (proj2 (checked_add_u64_Some _ _ _)) by (split; [reflexivity|lia]).
      reflexivity. }
    apply wp_ret. eexists _, _, [], _, _. split; [|reflexivity]. split; simpl; try done.
    + by rewrite offset_after_snoc.
    + by rewrite app_nil_r.
Qed.

Lemma wp_final_loop fuel l s dn t ps d n w0 w (Q : FinalState -> World -> Prop) :
  final_holds s dn t ps d n w0 w -> Forall occ_ok l -> lex_fits (grouping dn t ps d n l) ->
  length l < fuel ->
  (forall s' w' dn' t' ps' d' n', final_holds s' dn' t' ps' d' n' w0 w' ->
     grouping dn t ps d n l = dn' ++ [(t', ps' ++ [(d', n')])] -> Q s' w') ->
  wp (each_occurrence fuel (final_step lx px) s (occs_bytes l)) w E Q.
Proof.
  intros Hs Hok Hfits Hfuel HQ. revert fuel s dn t ps d n w Hs Hfits Hfuel HQ.
  induction Hok as [|o l Ho Hok IH]; intros fuel s dn t ps d n w Hs Hfits Hfuel HQ;
    (destruct fuel as [|fuel]; [simpl in Hfuel; lia|]); cbn [each_occurrence].
  - apply wp_bind. eapply wp_try; [reflexivity|]. apply wp_ret. by eapply HQ.
  - apply wp_bind. eapply wp_try; [by apply next_occurrence_cons|]. cbv beta iota.
    apply wp_bind. eapply wp_mono; [by eapply wp_final_step|].
    intros s1 w1 (dn' & t' & ps' & d' & n' & Hs1 & Heq). rewrite Heq in *.
    eapply IH; [exact Hs1|done|simpl in Hfuel; lia|exact HQ].
Qed.
End write.

(** The occurrences of a file become the two files of their index. *)
Lemma wp_write_final_index {E} db path l w (Q : Z * Z -> World -> Prop) :
  let lx := sidecar_path db LEXICON_SUFFIX in
  let px := sidecar_path db POSTINGS_SUFFIX in
  disk w !! path = Some (run_content l) -> Forall occ_ok l -> lex_fits (group_occurrences l) ->
  (Z.of_nat (length (lexicon_content (group_occurrences l)))
   + Z.of_nat (length (postings_content (group_occurrences l))) <= u64_max)%Z ->
  (forall w', disk w' = <[px := postings_content (group_occurrences l)]>
       (<[lx := lexicon_content (group_occurrences l)]> (disk w)) ->
     Q (Z.of_nat (length (group_occurrences l)),
        Z.of_nat (length (lexicon_content (group_occurrences l)))
        + Z.of_nat (length (postings_content (group_occurrences l))))%Z w') ->
  wp (write_final_index db path) w E Q.
Proof.
  intros lx px Hp Hok Hfits Hsize HQ.
  assert (lx <> px) as Hne.
  { unfold lx, px, sidecar_path. intros Heq. by do 2 apply app_str_inj_l in Heq. }
  unfold write_final_index. fold lx px. apply wp_bind. unfold open_occurrences. apply wp_bind.
  eapply wp_open; [exact Hp|]. eapply wp_try; [by apply read_magic_app|].
  apply wp_bind, wp_create, wp_bind, wp_create, wp_bind. simpl.
  eapply wp_append; [simpl; by rewrite lookup_insert_ne, lookup_insert_eq by done|].
  apply wp_bind. eapply wp_append; [simpl; by rewrite lookup_insert_ne, lookup_insert_eq by done|].
  simpl. set (w1 := set_disk _ _).
  assert (disk w1 = <[px := POSTINGS_MAGIC]> (<[lx := LEXICON_MAGIC]> (disk w))) as Hw1.
  { simpl. rewrite (insert_insert_ne _ lx px) by done. by rewrite !insert_insert_eq. }
  clearbody w1.
  assert (forall s (Q' : Z * Z -> World -> Prop) w2 G, final_term_count s = Z.of_nat (length G) ->
    disk w2 = <[px := postings_content G]> (<[lx := lexicon_content G]> (disk w)) ->
    (Z.of_nat (length (lexicon_content G)) + Z.of_nat (length (postings_content G)) <= u64_max)%Z ->
    Q' (Z.of_nat (length G), Z.of_nat (length (lexicon_content G)) + Z.of_nat (length (postings_content G)))%Z w2 ->
    wp (lb ← file_length lx; pb ← file_length px;
        b ← io_try (ok_or (overflow "search index size") (checked_add_u64 lb pb));
        mret (final_term_count s, b)) w2 E Q') as Hend.
  { intros s Q' w2 G Hc Hw2 Hle HQ'. apply wp_bind.
    eapply wp_length; [by rewrite Hw2, lookup_insert_ne, lookup_insert_eq by done|].
    apply wp_bind. eapply wp_length; [by rewrite Hw2, lookup_insert_eq|].
    apply wp_bind. eapply wp_try; [by apply ok_or_Ok, checked_add_u64_Some|].
    apply wp_ret. by rewrite Hc. }
  destruct Hok as [|o l Ho Hok].
  - apply wp_bind. simpl. apply wp_bind, wp_ret, wp_ret, wp_bind, wp_ret. apply (Hend final_start _ _ []); [done| |done|by apply HQ].
    rewrite Hw1. f_equal.
  - cbn [group_occurrences] in *. cbn [each_occurrence]. apply wp_bind.
    cbn [each_occurrence Nat.add]. apply wp_bind.
    eapply wp_try; [by apply next_occurrence_cons|]. cbv beta iota. apply wp_bind.
    cbn [final_step current_term final_start]. apply wp_ret.
    eapply (wp_final_loop lx px Hne _ l _ [] (occ_term o) [] (occ_document_id o) 1 w); [|done|done| |].
    + by split.
    + rewrite occs_bytes_cons, length_app. unfold occ_bytes. rewrite length_app, length_to_le.
      pose proof (length_occs_bytes l). simpl. lia.
    + intros s' w' dn t ps d n Hs Heq. rewrite Heq in *. pose proof Hs as [Ht Hd Hn Hdf Hoff Hc Hdisk].
      rewrite Ht. destruct Hfits as [He _ Hterms _].
      destruct (He t (ps ++ [(d, n)])) as [Hterm [_ Hlen]].
      { apply elem_of_app. right. apply list_elem_of_here. }
      rewrite length_app in Hlen, Hterms. simpl in Hlen, Hterms.
      apply wp_bind, wp_bind. eapply wp_end_posting; [exact Hs|lia|].
      intros s1 w2 Ht1 Ho1 Hc1 Hdf1 Hd1.
      eapply (wp_end_term lx px); [done|exact Ht1|exact Ho1|exact Hc1|exact Hdf1|exact Hd1|done|lia|].
      intros s2 w3 Ho2 Hc2 Hdf2 Hd2. eapply Hend; [exact Hc2|exact Hd2|done|by apply HQ].
Qed.
