(* ===== verification/SearchPass.v ===== *)
(** * The pass over the staged nodes

    What the documents of an index are, as a function of the staged files, and that the
    pass writes exactly these documents and collects exactly their terms. *)
From S2P Require Import Prelude Order Text Bytes Json Protocol Disk Sinks SearchModel SearchBuild SearchCodec SearchSort SearchIndex.

(** ** The tokenizer emits terms that can be read back *)
Section tokens.
Context `{CharLaws}.

Definition open_term (term : list Z) : Prop :=
  Forall is_scalar term /\ (Z.of_nat (length (mjoin (encode_utf8 <$> term))) <= MAX_TERM_BYTES)%Z.

Lemma open_term_ok term : open_term term -> term_ok (chars_string term).
Proof.
  intros [Hs Hl]. split; [by apply chars_string_utf8|].
  unfold chars_string. rewrite <- length_str_bytes, str_bytes_str by (by apply chars_string_range). done.
Qed.

Lemma push_char_open term c : open_term term -> is_scalar c -> open_term (push_char term c).
Proof.
  intros [Hs Hl] Hc. unfold push_char. case_match eqn:Hle; [|done]. apply Z.leb_le in Hle.
  split; [apply Forall_app; split; [done|by constructor]|].
  rewrite encode_snoc. lia.
Qed.

Lemma push_chars_open term cs :
  open_term term -> Forall is_scalar cs -> open_term (fold_left push_char cs term).
Proof.
  intros Ht Hcs. revert term Ht. induction Hcs as [|c cs Hc _ IH]; intros term Ht; simpl; [done|].
  apply IH. by apply push_char_open.
Qed.

(** What the loop of [tokenize] keeps. *)
Definition token_state_ok (s : list Z * list string) : Prop :=
  open_term s.1 /\ Forall term_ok s.2.

Lemma token_step_ok s c : token_state_ok s -> is_scalar c -> token_state_ok (token_step s c).
Proof.
  destruct s as [term emitted]. intros [Ht He] Hc. unfold token_step.
  destruct (is_term_char c); [by split; [apply push_chars_open; [|apply lowercase_scalar]|]|].
  destruct term as [|c0 term]; [done|]. split; [by split; [constructor|]|].
  apply Forall_app. split; [done|]. constructor; [by apply open_term_ok|constructor].
Qed.

Lemma tokenize_ok text : Forall term_ok (tokenize text).
Proof.
  unfold tokenize.
  assert (token_state_ok (fold_left token_step (chars text) ([], []))) as Hs.
  { assert (token_state_ok ([], [])) as Hinit by (by split; [split; [constructor|]|constructor]).
    revert Hinit. generalize (@nil Z, @nil string). pose proof (chars_scalar text) as Hc.
    induction Hc as [|c cs Hc _ IH]; intros s Hs; simpl; [done|]. by apply IH, token_step_ok. }
  destruct (fold_left _ _ _) as [term emitted]. destruct Hs as [Ht He]. simpl in *.
  destruct term; [done|]. apply Forall_app. split; [done|].
  constructor; [by apply open_term_ok|constructor].
Qed.
End tokens.

(** ** The documents of the staged files *)
(** A document of the index and its terms, in the order in which they are indexed. *)
Abbreviation corpus := (list (SearchDocument * list string)).

Section corpus.
Context `{SearchCodecs, CharTables} (staging_dir : string).

Definition chunk_path (node_type : string) (index : Z) : string :=
  staged_chunk_path staging_dir (stage_file_stem node_type) index.

(** The chunks of a node type, up to the first that is not there. *)
Fixpoint chunk_files (fuel : nat) (d : gmap string (list Z)) (node_type : string) (index : Z)
    : list (list Z) :=
  match fuel with
  | 0 => []
  | S fuel =>
      match d !! chunk_path node_type index with
      | Some bytes => bytes :: chunk_files fuel d node_type (index + 1)
      | None => []
      end
  end.

Definition staged_files (d : gmap string (list Z)) (node_type : string) : list (list Z) :=
  chunk_files (1 + size d) d node_type 0.
Definition staged_nodes (d : gmap string (list Z)) (node_type : string) : list StagedNode :=
  concat ((fun bytes => (decode_staged_nodes bytes).1) <$> staged_files d node_type).

Definition node_terms (spec : SearchIndexSpec) (n : StagedNode) : list string :=
  concat ((fun field => tokenize (staged_field n field)) <$> index_fields spec).
Definition node_document (order : nat) (spec : SearchIndexSpec) (node_type : string)
    (n : StagedNode) : SearchDocument * list string :=
  ({| doc_id := sn_id n; doc_node_type := node_type; doc_index_order := Z.of_nat order;
      doc_layer := from_schema (index_layer spec) |}, node_terms spec n).

Definition type_documents d order spec node_type : corpus :=
  node_document order spec node_type <$> staged_nodes d node_type.
Definition spec_documents d order spec : corpus :=
  concat (type_documents d order spec <$> index_node_types spec).
(** The documents of all indexes of the schema, in the order of their numbers. *)
Definition corpus_of d (search_indexes : list SearchIndexSpec) : corpus :=
  concat (imap (spec_documents d) search_indexes).

(** *** How many chunks there are *)
Lemma chunk_path_inj node_type i j :
  (0 <= i)%Z -> (0 <= j)%Z -> chunk_path node_type i = chunk_path node_type j -> i = j.
Proof.
  intros Hi Hj. unfold chunk_path, staged_chunk_path.
  destruct (Z.eqb_spec i 0), (Z.eqb_spec j 0); intros Heq%path_join_inj; try lia.
  1,2: apply app_str_inj_l in Heq; rewrite app_str_cons in Heq; discriminate Heq.
  do 2 apply app_str_inj_l in Heq. apply app_str_inj_r_length, proj1, pad_inj in Heq; [lia|done].
Qed.

Lemma chunk_files_lookup fuel d node_type index i bytes :
  chunk_files fuel d node_type index !! i = Some bytes ->
  d !! chunk_path node_type (index + Z.of_nat i) = Some bytes.
Proof.
  revert index i. induction fuel as [|fuel IH]; intros index i Hi; [done|]. simpl in Hi.
  destruct (d !! chunk_path node_type index) as [b|] eqn:Ed; [|done].
  destruct i as [|i]; simpl in Hi; [injection Hi as <-; by rewrite Z.add_0_r|].
  apply IH in Hi. rewrite <- Hi. do 2 f_equal. lia.
Qed.

(** Chunks have different paths, so there are no more than files. *)
Lemma chunks_le_size (d : gmap string (list Z)) node_type (files : list (list Z)) :
  (forall i b, files !! i = Some b -> d !! chunk_path node_type (Z.of_nat i) = Some b) ->
  length files <= size d.
Proof.
  intros Hfiles. set (paths := imap (fun i (_ : list Z) => chunk_path node_type (Z.of_nat i)) files).
  assert (NoDup paths) as Hnd.
  { apply NoDup_alt. intros i j p Hi Hj. unfold paths in *. rewrite list_lookup_imap in Hi, Hj.
    destruct (files !! i), (files !! j); try done. simpl in *.
    injection Hi as Hi. injection Hj as Hj. rewrite <- Hj in Hi. apply chunk_path_inj in Hi; lia. }
  replace (length files) with (length paths) by apply length_imap.
  rewrite <- (size_dom (D := gset string)), <- (size_list_to_set (C := gset string)) by done.
  apply subseteq_size. intros p Hp. apply elem_of_list_to_set, list_elem_of_lookup in Hp as [i Hi].
  unfold paths in Hi. rewrite list_lookup_imap in Hi. destruct (files !! i) as [b|] eqn:Eb; [|done].
  injection Hi as <-. apply elem_of_dom. exists b. by apply Hfiles.
Qed.

Lemma length_staged_files d node_type : length (staged_files d node_type) <= size d.
Proof.
  apply (chunks_le_size d node_type). intros i b Hi. by apply chunk_files_lookup in Hi.
Qed.

Lemma chunk_files_end fuel d node_type index :
  length (chunk_files fuel d node_type index) < fuel ->
  d !! chunk_path node_type (index + Z.of_nat (length (chunk_files fuel d node_type index))) = None.
Proof.
  revert index. induction fuel as [|fuel IH]; intros index Hl; [simpl in Hl; lia|].
  simpl in *. destruct (d !! chunk_path node_type index) as [b|] eqn:Ed; simpl in *.
  - rewrite <- (IH (index + 1)%Z) by lia. do 2 f_equal. lia.
  - by rewrite Z.add_0_r.
Qed.
End corpus.

(** ** The files that the pass writes *)
Section files.
Context `{SearchCodecs}.

(** The encoding of a document, where it has one. *)
Definition document_json (doc : SearchDocument) : list Z :=
  match encode_document doc with Ok e => e | Err _ => [] end.
Definition document_record (doc : SearchDocument) : list Z :=
  to_le 4 (Z.of_nat (length (document_json doc))) ++ document_json doc.

Definition documents_content (docs : list SearchDocument) : list Z :=
  DOCUMENTS_MAGIC ++ concat (document_record <$> docs).

(** The offsets of [docs], the first at [offset]. *)
Fixpoint offsets_from (offset : Z) (docs : list SearchDocument) : list Z :=
  match docs with
  | [] => []
  | doc :: docs => offset :: offsets_from (offset + Z.of_nat (length (document_record doc))) docs
  end.
Definition offsets_content (docs : list SearchDocument) : list Z :=
  DOCUMENT_OFFSETS_MAGIC ++ concat (to_le 8 <$> offsets_from 8 docs).

Definition document_stat (c : SearchDocument * list string) : DocumentStat := {|
  stat_length := Z.of_nat (length c.2); stat_index_order := doc_index_order c.1;
  stat_layer := doc_layer c.1
|}.
Definition stat_bytes (s : DocumentStat) : list Z :=
  to_le 4 (stat_length s) ++ to_le 4 (stat_index_order s) ++ [layer_code (stat_layer s); 0; 0; 0]%Z.
Definition lengths_content (c : corpus) : list Z :=
  DOCUMENT_LENGTHS_MAGIC ++ concat ((stat_bytes ∘ document_stat) <$> c).

Lemma offsets_from_app o docs1 docs2 :
  offsets_from o (docs1 ++ docs2)
  = offsets_from o docs1 ++ offsets_from (o + Z.of_nat (length (concat (document_record <$> docs1)))) docs2.
Proof.
  revert o. induction docs1 as [|doc docs1 IH]; intros o.
  { simpl. by rewrite Z.add_0_r. }
  rewrite <- app_comm_cons. cbn [offsets_from]. rewrite IH, fmap_cons, concat_cons, length_app.
  rewrite <- app_comm_cons. do 3 f_equal. lia.
Qed.

Lemma offsets_content_snoc docs doc :
  offsets_content (docs ++ [doc])
  = offsets_content docs ++ to_le 8 (Z.of_nat (length (documents_content docs))).
Proof.
  unfold offsets_content, documents_content. rewrite offsets_from_app, fmap_app, concat_app, <- app_assoc.
  do 2 f_equal. simpl offsets_from. cbn [fmap list_fmap concat]. rewrite app_nil_r. f_equal.
  rewrite length_app. change (length DOCUMENTS_MAGIC) with 8. lia.
Qed.

Lemma documents_content_snoc docs doc :
  documents_content (docs ++ [doc]) = documents_content docs ++ document_record doc.
Proof.
  unfold documents_content. rewrite fmap_app, concat_app, <- app_assoc. simpl. by rewrite app_nil_r.
Qed.

Lemma lengths_content_snoc c x :
  lengths_content (c ++ [x]) = lengths_content c ++ stat_bytes (document_stat x).
Proof.
  unfold lengths_content. rewrite fmap_app, concat_app, <- app_assoc. cbn [fmap list_fmap concat]. by rewrite app_nil_r.
Qed.

Lemma occurrences_of_snoc docs terms :
  occurrences_of (docs ++ [terms])
  = occurrences_of docs ++ ((fun t => {| occ_term := t; occ_document_id := Z.of_nat (length docs) |}) <$> terms).
Proof.
  unfold occurrences_of. rewrite imap_app, concat_app. simpl. by rewrite app_nil_r, Nat.add_0_r.
Qed.
End files.

(** ** Where the files of an index are *)
Definition run_root (db : string) (process_id : N) : string :=
  db +:+ ".search-runs-" +:+ show_N process_id.
(** The sidecars, and the files of the run directory. *)
Definition index_region (db : string) (pid : N) (p : string) : Prop :=
  (exists suffix, suffix ∈ SIDECAR_SUFFIXES /\ p = sidecar_path db suffix) \/ below (run_root db pid) p.

Lemma below_run_root db pid p :
  below (run_root db pid) p -> exists rest, p = db +:+ ".search" +:+ "-" +:+ rest.
Proof.
  intros [rest ->]. unfold path_join, run_root.
  destruct (is_empty _) eqn:Ee; [by destruct db|].
  change (".search-runs-" +:+ show_N pid) with (".search" +:+ "-" +:+ "runs-" +:+ show_N pid).
  destruct (ends_with _ _); rewrite !app_str_assoc; by eexists.
Qed.

Lemma below_region db pid p : below (run_root db pid) p -> index_region db pid p.
Proof. by right. Qed.

Lemma sidecar_region db pid suffix :
  suffix ∈ SIDECAR_SUFFIXES -> index_region db pid (sidecar_path db suffix).
Proof. intros Hs. left. by exists suffix. Qed.

Lemma sidecar_not_below db pid suffix :
  suffix ∈ SIDECAR_SUFFIXES -> ~ below (run_root db pid) (sidecar_path db suffix).
Proof.
  intros Hs (rest & Heq)%below_run_root. revert Heq. unfold sidecar_path.
  unfold SIDECAR_SUFFIXES in Hs. rewrite !elem_of_cons, elem_of_nil in Hs.
  destruct Hs as [->|[->|[->|[->|[->|[->|[]]]]]]]; intros Heq%app_str_inj_l; discriminate Heq.
Qed.

Lemma sidecar_inj db s1 s2 : sidecar_path db s1 = sidecar_path db s2 -> s1 = s2.
Proof. unfold sidecar_path. intros Heq. by do 2 apply app_str_inj_l in Heq. Qed.

(** ** The pass *)
(** The numbers that the index stores have room for the corpus. *)
Record corpus_fits `{SearchCodecs} (c : corpus) : Prop := {
  cf_documents : (Z.of_nat (length c) <= u32_max)%Z;
  cf_occurrences : few_occs (occurrences_of (snd <$> c));
  cf_lengths x : x ∈ c -> (Z.of_nat (length x.2) <= u32_max)%Z;
  cf_encode x : x ∈ c -> encode_document x.1 = Ok (document_json x.1) /\
    (Z.of_nat (length (document_json x.1)) <= MAX_DOCUMENT_RECORD_BYTES)%Z;
  cf_terms x : x ∈ c -> Forall term_ok x.2
}.

Lemma length_occurrences docs : length (occurrences_of docs) = length (concat docs).
Proof.
  unfold occurrences_of.
  enough (forall f : nat -> Z, length (concat (imap (fun d terms =>
    (fun t => {| occ_term := t; occ_document_id := f d |}) <$> terms) docs)) = length (concat docs)) as Hf
    by apply Hf.
  induction docs as [|terms docs IH]; intros f; [done|].
  rewrite imap_cons, !concat_cons, !length_app, length_fmap. f_equal. apply (IH (f ∘ S)).
Qed.

Section pass.
Context `{SearchCodecs, SearchMemory, CharTables} `{!SearchMemoryLaws, !CharLaws} {E : abort -> Prop}.
Context (db staging_dir : string) (pid : N).
Abbreviation root := (run_root db pid).
Abbreviation docs_path := (documents_path db).
Abbreviation offs_path := (offsets_path db).
Abbreviation lens_path := (lengths_path db).

(** Before the pass the world was [w0]; [c] has been indexed. *)
Record pass_holds (w0 : World) (st : PassState) (c : corpus) (w : World) : Prop := {
  ph_sorter : sorter_holds (pass_sorter st) (occurrences_of (snd <$> c)) w;
  ph_root : sorter_root (pass_sorter st) = root;
  ph_count : pass_document_count st = Z.of_nat (length c);
  ph_total : pass_total_tokens st = Z.of_nat (length (concat (snd <$> c)));
  ph_documents : disk w !! docs_path = Some (documents_content (fst <$> c));
  ph_offsets : disk w !! offs_path = Some (offsets_content (fst <$> c));
  ph_lengths : disk w !! lens_path = Some (lengths_content c);
  ph_frame : frame (index_region db pid) w0 w
}.

Lemma sidecars_distinct :
  docs_path <> offs_path /\ docs_path <> lens_path /\ offs_path <> lens_path.
Proof. split_and!; intros Heq%sidecar_inj; discriminate Heq. Qed.

Lemma tables_not_below p :
  p = docs_path \/ p = offs_path \/ p = lens_path -> ~ below root p.
Proof.
  intros [->|[->| ->]]; apply sidecar_not_below; unfold SIDECAR_SUFFIXES;
    rewrite !elem_of_cons; tauto.
Qed.

(** One term of document [k]: [seen] are its terms so far. *)
Lemma wp_index_term k s n l seen term w :
  let occ := fun t => {| occ_term := t; occ_document_id := Z.of_nat k |} in
  sorter_holds s (l ++ (occ <$> seen)) w -> n = Z.of_nat (length seen) ->
  few_occs (l ++ (occ <$> seen ++ [term])) ->
  (Z.of_nat (length (seen ++ [term])) <= u32_max)%Z -> term_ok term -> (Z.of_nat k <= u32_max)%Z ->
  wp (index_term (Z.of_nat k) (s, n) term) w E (fun r w' =>
    sorter_holds r.1 (l ++ (occ <$> seen ++ [term])) w' /\ r.2 = Z.of_nat (length (seen ++ [term])) /\
    same_sorter s r.1 /\ frame (below (sorter_root s)) w w').
Proof.
  intros occ Hs -> Hfew Hlen Ht Hk. unfold index_term. cbn [fst snd].
  rewrite fmap_app, app_assoc in *. cbn [fmap list_fmap] in *.
  rewrite length_app in *. simpl in Hlen.
  apply wp_bind. eapply wp_mono.
  { apply wp_push_occurrence; [exact Hs| |exact Hfew]. split; [done|]. simpl. unfold u64, u64_max, u32_max in *. lia. }
  intros s' w' (Hs' & Hsame & Hf). apply wp_bind. eapply wp_try.
  { apply ok_or_Ok. unfold checked_add_u32. rewrite decide_True by lia. reflexivity. }
  apply wp_ret. simpl. split_and!; [done|lia|done|done].
Qed.

(** All terms of the fields of a node. *)
Lemma wp_index_fields k s l fields (terms_of : string -> list string) w :
  let occ := fun t => {| occ_term := t; occ_document_id := Z.of_nat k |} in
  let terms := concat (terms_of <$> fields) in
  sorter_holds s l w -> few_occs (l ++ (occ <$> terms)) ->
  (Z.of_nat (length terms) <= u32_max)%Z -> Forall term_ok terms -> (Z.of_nat k <= u32_max)%Z ->
  wp (io_fold (fun s field => io_fold (index_term (Z.of_nat k)) s (terms_of field)) (s, 0%Z) fields)
    w E (fun r w' => sorter_holds r.1 (l ++ (occ <$> terms)) w' /\ r.2 = Z.of_nat (length terms) /\
      same_sorter s r.1 /\ frame (below (sorter_root s)) w w').
Proof.
  intros occ terms Hs Hfew Hlen Hok Hk.
  set (P := fun (seen : list string) (r : OccurrenceSorter * Z) (w' : World) =>
    sorter_holds r.1 (l ++ (occ <$> seen)) w' /\ r.2 = Z.of_nat (length seen) /\
    same_sorter s r.1 /\ frame (below (sorter_root s)) w w').
  apply wp_fold with (I := fun r d w' => P (concat (terms_of <$> d)) r w').
  - unfold P. simpl. rewrite app_nil_r. done.
  - intros r d field rest v Hl HP. unfold terms in *. rewrite Hl in *.
    rewrite fmap_app, concat_app, fmap_cons, concat_cons in *.
    set (seen := concat (terms_of <$> d)) in *.
    apply wp_fold with (I := fun r d w' => P (seen ++ d) r w').
    + by rewrite app_nil_r.
    + intros [s1 n1] d1 term rest1 v1 Hl1 (Hs1 & Hn1 & Hsame & Hf). rewrite Hl1 in *.
      replace (seen ++ (d1 ++ term :: rest1) ++ concat (terms_of <$> rest))
        with (((seen ++ d1) ++ [term]) ++ rest1 ++ concat (terms_of <$> rest)) in * by (by rewrite <- !app_assoc).
      rewrite fmap_app, app_assoc in Hfew. apply few_occs_app in Hfew.
      rewrite length_app in Hlen. apply Forall_app in Hok as [Hok _]. apply Forall_app in Hok as [_ Hok].
      inversion Hok; subst. eapply wp_mono.
      { apply (wp_index_term k s1 n1 l (seen ++ d1) term v1); try done. lia. }
      intros [s2 n2] v2 (Hs2 & Hn2 & Hsame2 & Hf2). rewrite app_assoc. split_and!; [done|done|by etrans|].
      etrans; [done|]. destruct Hsame as [Hroot _]. simpl in *. by rewrite Hroot in Hf2.
    + intros r' v' HP'. cbn [fmap list_fmap concat]. by rewrite app_nil_r.
  - intros r w' HP. exact HP.
Qed.

Lemma wp_write_document p doc old w (Q : Z -> World -> Prop) :
  disk w !! p = Some old -> encode_document doc = Ok (document_json doc) ->
  (Z.of_nat (length (document_json doc)) <= MAX_DOCUMENT_RECORD_BYTES)%Z ->
  (forall w', disk w' = <[p := old ++ document_record doc]> (disk w) -> Q (Z.of_nat (length old)) w') ->
  wp (write_document p doc) w E Q.
Proof.
  intros Hp He Hl HQ. unfold write_document. apply wp_bind. eapply wp_try; [exact He|].
  destruct (Z.ltb_spec MAX_DOCUMENT_RECORD_BYTES (Z.of_nat (length (document_json doc)))); [lia|].
  apply wp_bind. eapply wp_length; [exact Hp|]. apply wp_bind. eapply wp_append; [exact Hp|].
  apply wp_bind. eapply wp_append; [apply lookup_insert_eq|]. apply wp_ret, HQ. simpl.
  rewrite insert_insert_eq. unfold document_record. by rewrite <- app_assoc.
Qed.

Lemma wp_write_document_stat p s old w (Q : () -> World -> Prop) :
  disk w !! p = Some old ->
  (forall w', disk w' = <[p := old ++ stat_bytes s]> (disk w) -> Q tt w') ->
  wp (write_document_stat p s) w E Q.
Proof.
  intros Hp HQ. unfold write_document_stat. apply wp_bind. eapply wp_append; [exact Hp|].
  apply wp_bind. eapply wp_append; [apply lookup_insert_eq|].
  eapply wp_append; [apply lookup_insert_eq|]. apply HQ. simpl. rewrite !insert_insert_eq.
  unfold stat_bytes. by rewrite <- !app_assoc.
Qed.

Lemma corpus_fits_app c1 c2 : corpus_fits (c1 ++ c2) -> corpus_fits c1.
Proof.
  intros [Hd Ho Hl He Ht]. rewrite fmap_app in Ho. rewrite length_app in Hd.
  split; [lia| |intros x Hx; apply Hl|intros x Hx; apply He|intros x Hx; apply Ht];
    try (apply elem_of_app; by left).
  unfold few_occs in *. rewrite length_occurrences, concat_app, length_app in Ho.
  rewrite length_occurrences. lia.
Qed.

(** One node: one more document. *)
Lemma wp_index_node w0 st c order spec node_type node w :
  pass_holds w0 st c w -> pass_index_order st = Z.of_nat order ->
  corpus_fits (c ++ [node_document order spec node_type node]) ->
  wp (index_node db spec node_type st node) w E (fun st' w' =>
    pass_holds w0 st' (c ++ [node_document order spec node_type node]) w' /\
    pass_index_order st' = Z.of_nat order).
Proof.
  intros [Hs Hroot Hcount Htotal Hdocs Hoffs Hlens Hframe] Horder Hfits.
  destruct Hfits as [Hd Hocc Hlen Henc Hterms]. set (x := node_document _ _ _ _) in *.
  assert (x ∈ c ++ [x]) as Hx by (apply elem_of_app; right; apply list_elem_of_here).
  destruct (Henc x Hx) as [He1 He2]. specialize (Hlen x Hx). specialize (Hterms x Hx).
  rewrite length_app in Hd. simpl in Hd.
  assert (concat (snd <$> c ++ [x]) = concat (snd <$> c) ++ x.2) as Hcat.
  { rewrite fmap_app, concat_app. simpl. by rewrite app_nil_r. }
  pose proof Hocc as Hall. unfold few_occs in Hall. rewrite length_occurrences, Hcat, length_app in Hall.
  rewrite fmap_app in Hocc. cbn [fmap list_fmap] in Hocc.
  rewrite occurrences_of_snoc, length_fmap in Hocc.
  unfold index_node. rewrite Hcount, Horder. apply wp_bind. eapply wp_mono.
  { apply (wp_index_fields (length c) (pass_sorter st) (occurrences_of (snd <$> c)) (index_fields spec)
             (fun field => tokenize (staged_field node field)) w); try done. lia. }
  intros [s1 n1] w1 (Hs1 & Hn1 & Hsame & Hf1). cbn [fst snd] in *. rewrite Hroot in Hf1.
  change (n1 = Z.of_nat (length x.2)) in Hn1. subst n1.
  pose proof sidecars_distinct as (Hdo & Hdl & Hol).
  assert (forall p, p = docs_path \/ p = offs_path \/ p = lens_path -> disk w1 !! p = disk w !! p) as Hkeep.
  { intros p Hp. by apply Hf1, tables_not_below. }
  apply wp_bind. eapply (wp_write_document _ (x.1)).
  { rewrite Hkeep by auto. exact Hdocs. }
  { exact He1. } { exact He2. }
  intros w2 Hw2. apply wp_bind. eapply wp_append.
  { rewrite Hw2, lookup_insert_ne by done. rewrite Hkeep by auto. exact Hoffs. }
  apply wp_bind. eapply (wp_write_document_stat _ (document_stat x)).
  { simpl. rewrite lookup_insert_ne by done. rewrite Hw2, lookup_insert_ne by done.
    rewrite Hkeep by auto. exact Hlens. }
  intros w3 Hw3. simpl in Hw3.
  apply wp_bind. eapply wp_try.
  { apply ok_or_Ok, checked_add_u64_Some. split; [reflexivity|]. unfold u64_max, u32_max in *. lia. }
  apply wp_bind. eapply wp_try.
  { apply ok_or_Ok, checked_add_u64_Some. split; [reflexivity|]. rewrite Htotal. unfold u64_max. lia. }
  apply wp_ret. split; [|done].
  assert (frame (fun p => p = docs_path \/ p = offs_path \/ p = lens_path) w1 w3) as Hf3.
  { intros p Hp. rewrite Hw3, lookup_insert_ne by (intros <-; tauto). rewrite lookup_insert_ne by (intros <-; tauto).
    by rewrite Hw2, lookup_insert_ne by (intros <-; tauto). }
  destruct Hsame as [Hroot1 Hlim1].
  split; cbn [pass_sorter pass_document_count pass_total_tokens].
  - rewrite fmap_app. cbn [fmap list_fmap]. rewrite occurrences_of_snoc, length_fmap.
    eapply sorter_frame; [exact Hs1|exact Hf3|]. intros p Hp. rewrite Hroot1, Hroot.
    by apply tables_not_below.
  - by rewrite Hroot1.
  - rewrite length_app. simpl. lia.
  - rewrite Hcat, length_app. lia.
  - rewrite fmap_app. cbn [fmap list_fmap]. rewrite documents_content_snoc.
    rewrite Hw3, lookup_insert_ne, lookup_insert_ne, Hw2, lookup_insert_eq by done. done.
  - rewrite fmap_app. cbn [fmap list_fmap]. rewrite offsets_content_snoc.
    by rewrite Hw3, lookup_insert_ne, lookup_insert_eq by done.
  - by rewrite lengths_content_snoc, Hw3, lookup_insert_eq.
  - etrans; [exact Hframe|]. etrans.
    + eapply frame_weaken; [|exact Hf1]. intros p. apply below_region.
    + eapply frame_weaken; [|exact Hf3]. intros p [->|[->| ->]]; apply sidecar_region;
        unfold SIDECAR_SUFFIXES; rewrite !elem_of_cons; tauto.
Qed.

(** The staged files are not among those that the build writes, and can be decoded. *)
Context (w0 : World).
Context (Hstaged : forall node_type i, ~ index_region db pid (chunk_path staging_dir node_type i)).
Context (Hdecode : forall node_type bytes,
  bytes ∈ staged_files staging_dir (disk w0) node_type -> (decode_staged_nodes bytes).2 = Ok tt).

Lemma staged_kept st c w node_type i :
  pass_holds w0 st c w ->
  disk w !! chunk_path staging_dir node_type i = disk w0 !! chunk_path staging_dir node_type i.
Proof. intros Hp. apply (ph_frame _ _ _ _ Hp), Hstaged. Qed.

Lemma wp_stream_nodes st c order spec node_type path bytes w :
  pass_holds w0 st c w -> pass_index_order st = Z.of_nat order ->
  disk w !! path = Some bytes -> (decode_staged_nodes bytes).2 = Ok tt ->
  corpus_fits (c ++ (node_document order spec node_type <$> (decode_staged_nodes bytes).1)) ->
  wp (stream_staged_nodes path (index_node db spec node_type) st) w E (fun st' w' =>
    pass_holds w0 st' (c ++ (node_document order spec node_type <$> (decode_staged_nodes bytes).1)) w' /\
    pass_index_order st' = Z.of_nat order).
Proof.
  intros Hp Ho Hd Hend Hfits. unfold stream_staged_nodes. apply wp_bind. eapply wp_open; [exact Hd|].
  destruct (decode_staged_nodes bytes) as [nodes ending]. cbn [fst snd] in *. subst ending.
  apply wp_bind.
  apply wp_fold with (I := fun st d w =>
    pass_holds w0 st (c ++ (node_document order spec node_type <$> d)) w /\
    pass_index_order st = Z.of_nat order).
  - by rewrite app_nil_r.
  - intros st1 d node rest w1 -> [Hp1 Ho1]. rewrite fmap_app, fmap_cons in Hfits.
    rewrite fmap_app, app_assoc. apply wp_index_node; [done|done|].
    replace (c ++ _ ++ _ :: _) with (((c ++ (node_document order spec node_type <$> d))
      ++ [node_document order spec node_type node]) ++ (node_document order spec node_type <$> rest))
      in Hfits by (by rewrite <- !app_assoc).
    by eapply corpus_fits_app.
  - intros st1 w1 Hp1. apply wp_bind. by eapply wp_try.
Qed.

Lemma wp_index_chunks files fuel order spec node_type index st c w :
  (forall i b, files !! i = Some b -> disk w0 !! chunk_path staging_dir node_type (index + Z.of_nat i) = Some b) ->
  disk w0 !! chunk_path staging_dir node_type (index + Z.of_nat (length files)) = None ->
  length files < fuel -> (index + Z.of_nat (length files) <= u64_max)%Z ->
  (forall b, b ∈ files -> (decode_staged_nodes b).2 = Ok tt) ->
  let docs := node_document order spec node_type <$> concat ((fun b => (decode_staged_nodes b).1) <$> files) in
  pass_holds w0 st c w -> pass_index_order st = Z.of_nat order -> corpus_fits (c ++ docs) ->
  wp (index_chunks db staging_dir fuel spec node_type index st) w E (fun st' w' =>
    pass_holds w0 st' (c ++ docs) w' /\ pass_index_order st' = Z.of_nat order).
Proof.
  revert fuel index st c w. induction files as [|b files IH];
    intros fuel index st c w Hfiles Hend Hfuel Hmax Hdec docs Hp Ho Hfits;
    (destruct fuel as [|fuel]; [simpl in Hfuel; lia|]); cbn [index_chunks];
    apply wp_bind; unfold wp at 1, path_exists;
    fold (chunk_path staging_dir node_type index); rewrite (staged_kept _ _ _ _ _ Hp).
  - rewrite Z.add_0_r in Hend. rewrite Hend. apply wp_ret. by rewrite app_nil_r.
  - specialize (Hfiles 0 b eq_refl) as Hb. rewrite Z.add_0_r in Hb. rewrite Hb.
    change (wp (match checked_add_u64 index 1 with
      | Some next => st ← stream_staged_nodes (chunk_path staging_dir node_type index) (index_node db spec node_type) st;
                     index_chunks db staging_dir fuel spec node_type next st
      | None => mret st end) w E (fun st' w' =>
        pass_holds w0 st' (c ++ docs) w' /\ pass_index_order st' = Z.of_nat order)).
    simpl length in *.
    rewrite (proj2 (checked_add_u64_Some index 1 _)) by (split; [reflexivity|lia]).
    unfold docs in *. rewrite fmap_cons, concat_cons, fmap_app, app_assoc in *.
    apply wp_bind. eapply wp_mono.
    { eapply wp_stream_nodes; [exact Hp|exact Ho|by rewrite (staged_kept _ _ _ _ _ Hp)| |by eapply corpus_fits_app].
      apply Hdec, list_elem_of_here. }
    intros st1 w1 [Hp1 Ho1]. apply IH; try done.
    + intros i b' Hi. rewrite <- (Hfiles (S i) b' Hi). do 2 f_equal. lia.
    + rewrite <- Hend. do 2 f_equal. lia.
    + lia.
    + lia.
    + intros b' Hb'. apply Hdec. by right.
Qed.

Context (Hfew : (Z.of_nat (size (disk w0)) <= u64_max)%Z).

Lemma wp_index_node_type order spec st c node_type w :
  pass_holds w0 st c w -> pass_index_order st = Z.of_nat order ->
  corpus_fits (c ++ type_documents staging_dir (disk w0) order spec node_type) ->
  wp (index_node_type db staging_dir spec st node_type) w E (fun st' w' =>
    pass_holds w0 st' (c ++ type_documents staging_dir (disk w0) order spec node_type) w' /\
    pass_index_order st' = Z.of_nat order).
Proof.
  intros Hp Ho Hfits. unfold index_node_type.
  pose proof (length_staged_files staging_dir (disk w0) node_type) as Hlen.
  assert (forall i b, staged_files staging_dir (disk w0) node_type !! i = Some b ->
    disk w0 !! chunk_path staging_dir node_type (Z.of_nat i) = Some b) as Hfiles.
  { intros i b Hi. by apply chunk_files_lookup in Hi. }
  eapply (wp_index_chunks (staged_files staging_dir (disk w0) node_type)); try done.
  - apply chunk_files_end. unfold staged_files in Hlen. lia.
  - assert (length (staged_files staging_dir (disk w0) node_type) <= size (disk w)); [|lia].
    apply (chunks_le_size staging_dir _ node_type). intros i b Hi. rewrite (staged_kept _ _ _ _ _ Hp). by apply Hfiles.
  - lia.
  - intros b Hb. by eapply Hdecode.
Qed.

Lemma wp_index_spec order spec st c w :
  pass_holds w0 st c w -> pass_index_order st = Z.of_nat order -> (Z.of_nat order < u32_max)%Z ->
  corpus_fits (c ++ spec_documents staging_dir (disk w0) order spec) ->
  wp (index_spec db staging_dir st spec) w E (fun st' w' =>
    pass_holds w0 st' (c ++ spec_documents staging_dir (disk w0) order spec) w' /\
    pass_index_order st' = Z.of_nat (S order)).
Proof.
  intros Hp Ho Hlt Hfits. unfold index_spec. apply wp_bind.
  apply wp_fold with (I := fun st d w => pass_holds w0 st
      (c ++ concat (type_documents staging_dir (disk w0) order spec <$> d)) w /\
    pass_index_order st = Z.of_nat order).
  - by rewrite app_nil_r.
  - intros st1 d node_type rest w1 Hl [Hp1 Ho1]. unfold spec_documents in Hfits. rewrite Hl in Hfits.
    rewrite fmap_app, fmap_cons, concat_app, concat_cons, !app_assoc in Hfits.
    rewrite fmap_app, concat_app, app_assoc. cbn [fmap list_fmap concat]. rewrite app_nil_r.
    apply wp_index_node_type; [done|done|]. by eapply corpus_fits_app.
  - intros st1 w1 [Hp1 Ho1]. apply wp_bind. eapply wp_try.
    { apply ok_or_Ok. unfold checked_add_u32. rewrite Ho1, decide_True by lia. reflexivity. }
    apply wp_ret. split; [by destruct Hp1; split|]. simpl. lia.
Qed.

(** The whole pass. *)
Lemma wp_index_specs search_indexes st w :
  pass_holds w0 st [] w -> pass_index_order st = 0%Z ->
  (Z.of_nat (length search_indexes) <= u32_max)%Z ->
  corpus_fits (corpus_of staging_dir (disk w0) search_indexes) ->
  wp (io_fold (index_spec db staging_dir) st search_indexes) w E (fun st' w' =>
    pass_holds w0 st' (corpus_of staging_dir (disk w0) search_indexes) w').
Proof.
  intros Hp Ho Hlen Hfits.
  apply wp_fold with (I := fun st d w => pass_holds w0 st (corpus_of staging_dir (disk w0) d) w /\
    pass_index_order st = Z.of_nat (length d)).
  - by rewrite Ho.
  - intros st1 d spec rest w1 -> [Hp1 Ho1]. unfold corpus_of in *. rewrite imap_app, concat_app in *.
    cbn [imap concat] in *. rewrite app_assoc, Nat.add_0_r in Hfits. rewrite Nat.add_0_r, app_nil_r.
    rewrite length_app in *. simpl in Hlen. apply corpus_fits_app in Hfits.
    eapply wp_mono; [apply (wp_index_spec (length d)); [exact Hp1|done|lia|exact Hfits]|].
    intros st2 w2 [Hp2 Ho2]. split; [done|]. rewrite Ho2. simpl. lia.
  - by intros st1 w1 [Hp1 _].
Qed.
End pass.
