(* ===== verification/SearchBuilt.v ===== *)
(** * What a build leaves on disk

    [built] says what the sidecars hold: the encodings of the corpus of the staged files and
    of its inverted index.  A build succeeds, whatever the chunk limit, leaves exactly these
    files, removes its runs, and touches nothing else. *)
From Stdlib Require Import Numbers.DecimalString Numbers.DecimalPos.
From S2P Require Import Prelude Order Text Bytes Json Protocol Disk Sinks SearchModel SearchBuild SearchCodec SearchSort SearchIndex SearchWrite SearchPass.

(** ** The run directory *)
#[local] Instance uint_eq_dec : EqDecision Decimal.uint.
Proof. solve_decision. Defined.

Lemma show_N_snoc n : exists r c, show_N n = r +:+ String c "" /\ c <> "/"%char.
Proof.
  assert (forall d, d <> Decimal.Nil ->
    exists r c, NilEmpty.string_of_uint d = r +:+ String c "" /\ c <> "/"%char) as Hd.
  { intros d. induction d as [|d IH|d IH|d IH|d IH|d IH|d IH|d IH|d IH|d IH|d IH]; intros Hne; [done|..].
    all: destruct (decide (d = Decimal.Nil)) as [->|Hd];
      [eexists "", _; by split|destruct (IH Hd) as (r & c & Heq & Hc); simpl; rewrite Heq].
    all: eexists (String _ r), c; split; [reflexivity|done]. }
  assert (N.to_uint n <> Decimal.Nil) as Hn.
  { destruct n as [|p]; [done|]. simpl. apply DecimalPos.Unsigned.to_uint_nonnil. }
  unfold show_N, NilZero.string_of_uint. destruct (N.to_uint n) eqn:E; [done|..]; rewrite <- E in *; by apply Hd.
Qed.

Lemma run_root_no_slash db pid : ends_with (run_root db pid) "/" = false.
Proof.
  destruct (ends_with (run_root db pid) "/") eqn:E; [|done]. exfalso.
  apply ends_with_spec in E as [r Hr]. unfold run_root in Hr.
  destruct (show_N_snoc pid) as (a & c & Ha & Hc). rewrite Ha, <- !app_str_assoc in Hr.
  by apply app_str_inj_r_length in Hr as [_ [= ->]].
Qed.

Lemma below_run_root_slash db pid p :
  below (run_root db pid) p <-> starts_with p (run_root db pid +:+ "/") = true.
Proof.
  rewrite starts_with_spec. unfold below, path_join. rewrite run_root_no_slash.
  destruct (is_empty (run_root db pid)) eqn:E.
  { unfold run_root in E. by destruct db. }
  split; intros [r ->]; exists r; by rewrite app_str_assoc.
Qed.

Lemma remove_dir_lookup root (d : gmap string (list Z)) p :
  base.filter (fun e => starts_with e.1 (root +:+ "/") = false) d !! p
  = if starts_with p (root +:+ "/") then None else d !! p.
Proof.
  destruct (starts_with p (root +:+ "/")) eqn:E.
  - apply map_lookup_filter_None. right. intros x _. simpl. congruence.
  - destruct (d !! p) as [x|] eqn:Ed.
    + by apply map_lookup_filter_Some.
    + apply map_lookup_filter_None. by left.
Qed.

(** ** The sizes of an index *)
Lemma grouping_sizes dn t ps d n l :
  length (all_postings (grouping dn t ps d n l)) <= length (all_postings dn) + length ps + 1 + length l /\
  length (grouping dn t ps d n l) <= length dn + 1 + length l.
Proof.
  revert dn t ps d n. induction l as [|o l IH]; intros dn t ps d n; cbn [grouping].
  - rewrite all_postings_app, !length_app. unfold all_postings at 2. simpl.
    rewrite app_nil_r, length_app. simpl. lia.
  - destruct (bool_decide _ && _).
    { destruct (IH dn t ps d (n + 1)%Z). simpl. lia. }
    destruct (bool_decide _).
    + destruct (IH dn t (ps ++ [(d, n)]) (occ_document_id o) 1%Z) as [H1 H2].
      rewrite length_app in H1. simpl in *. lia.
    + destruct (IH (dn ++ [(t, ps ++ [(d, n)])]) (occ_term o) [] (occ_document_id o) 1%Z) as [H1 H2].
      rewrite all_postings_app, !length_app in H1. rewrite length_app in H2.
      unfold all_postings at 3 in H1. simpl in *. rewrite app_nil_r, length_app in H1. simpl in *. lia.
Qed.

Lemma index_sizes docs :
  length (all_postings (index_of docs)) <= length (concat docs) /\
  length (index_of docs) <= length (concat docs).
Proof.
  rewrite <- group_sorted_occurrences, <- length_occurrences.
  assert (length (sort (occurrences_of docs)) = length (occurrences_of docs)) as <- by apply length_sort_by.
  destruct (sort (occurrences_of docs)) as [|o l]; [done|]. simpl group_occurrences.
  pose proof (grouping_sizes [] (occ_term o) [] (occ_document_id o) 1 l) as Hl. simpl in *. lia.
Qed.

Lemma in_index docs t ps : (t, ps) ∈ index_of docs <-> ps = postings_of docs t /\ t ∈ concat docs.
Proof.
  unfold index_of. rewrite list_elem_of_fmap. split.
  - intros (x & [= -> ->] & Hx). by rewrite sort_perm, elem_of_remove_dups in Hx.
  - intros [-> Ht]. exists t. split; [done|]. by rewrite sort_perm, elem_of_remove_dups.
Qed.

Lemma length_concat_imap {A B} (f : nat -> A -> list B) (l : list A) :
  (forall i x, length (f i x) <= 1) -> length (concat (imap f l)) <= length l.
Proof.
  revert f. induction l as [|x l IH]; intros f Hf; [done|].
  rewrite imap_cons, concat_cons, length_app. pose proof (Hf 0 x).
  specialize (IH (f ∘ S) (fun i y => Hf (S i) y)). simpl. lia.
Qed.

Lemma length_postings_of docs t : length (postings_of docs t) <= length docs.
Proof.
  unfold postings_of. apply length_concat_imap. intros i x. unfold posting_in.
  case_decide; simpl; lia.
Qed.

Lemma count_term_le t terms : (count_term t terms <= Z.of_nat (length terms))%Z.
Proof. unfold count_term. pose proof (List.filter_length_le (fun x => bool_decide (x = t)) terms). lia. Qed.

Section fits.
Context `{SearchCodecs} (c : corpus) (Hfits : corpus_fits c).

Lemma corpus_tokens : (Z.of_nat (length (concat (snd <$> c))) <= 2 ^ 46)%Z.
Proof. rewrite <- length_occurrences. apply (cf_occurrences _ Hfits). Qed.

Lemma corpus_lookup i terms :
  (snd <$> c) !! i = Some terms -> i < length c /\ (Z.of_nat (length terms) <= u32_max)%Z /\ Forall term_ok terms.
Proof.
  rewrite list_lookup_fmap. destruct (c !! i) as [x|] eqn:Ex; [|done]. intros [= <-].
  split; [by eapply lookup_lt_Some|]. apply list_elem_of_lookup_2 in Ex.
  split; [by apply (cf_lengths _ Hfits)|by apply (cf_terms _ Hfits)].
Qed.

Lemma index_fits : lex_fits (index_of (snd <$> c)).
Proof.
  pose proof (index_sizes (snd <$> c)) as [Hp Hl]. pose proof corpus_tokens as Ht.
  pose proof (cf_documents _ Hfits) as Hd. split.
  - intros t ps [-> (terms & Htin & Hin)%elem_of_concat]%in_index.
    apply list_elem_of_lookup in Hin as [i Hi]. apply corpus_lookup in Hi as (_ & _ & Hok).
    rewrite Forall_forall in Hok. split; [by apply Hok|]. unfold u32.
    pose proof (length_postings_of (snd <$> c) t) as Hlen. rewrite length_fmap in Hlen. lia.
  - intros t ps d n [-> _]%in_index (i & terms & -> & Hi & _ & ->)%in_postings.
    apply corpus_lookup in Hi as (Hlt & Hlen & _). pose proof (count_term_le t terms).
    unfold u64, u32, u64_max, u32_max in *. assert (0 <= count_term t terms)%Z by (unfold count_term; lia). lia.
  - unfold u64_max. lia.
  - unfold offset_after, POSTING_BYTES, u64_max. lia.
Qed.

Lemma entries_length o lex :
  (forall t ps, (t, ps) ∈ lex -> term_ok t) ->
  (Z.of_nat (length (concat (entry_bytes <$> entries_from o lex))) <= 272 * Z.of_nat (length lex))%Z.
Proof.
  revert o. induction lex as [|[t ps] lex IH]; intros o Ht; [done|]. cbn [entries_from].
  rewrite fmap_cons, concat_cons, length_app.
  destruct (Ht t ps) as [_ Hl]; [apply list_elem_of_here|].
  specialize (IH (o + Z.of_nat (length ps) * POSTING_BYTES)%Z (fun t' ps' Hin => Ht t' ps' ltac:(by right))).
  unfold entry_bytes at 1. cbn [lex_term lex_postings_offset lex_document_frequency].
  rewrite !length_app, !length_to_le, length_str_bytes. unfold MAX_TERM_BYTES in Hl. 
  change (length ((t, ps) :: lex)) with (S (length lex)). lia.
Qed.

Lemma index_bytes :
  (Z.of_nat (length (lexicon_content (index_of (snd <$> c))))
   + Z.of_nat (length (postings_content (index_of (snd <$> c)))) <= 2 ^ 62)%Z.
Proof.
  pose proof (index_sizes (snd <$> c)) as [Hp Hl]. pose proof corpus_tokens as Ht.
  pose proof (entries_length 8 (index_of (snd <$> c))) as He.
  unfold lexicon_content, postings_content. rewrite !length_app, length_postings_bytes.
  change (length LEXICON_MAGIC) with 8. change (length POSTINGS_MAGIC) with 8.
  specialize (He (fun t ps Hin => proj1 (lf_entries _ index_fits t ps Hin))). lia.
Qed.

Lemma occurrences_ok : Forall occ_ok (occurrences_of (snd <$> c)).
Proof.
  rewrite Forall_forall. intros [t d] (i & terms & -> & Hi & Ht)%in_occurrences.
  apply corpus_lookup in Hi as (Hlt & _ & Hok). rewrite Forall_forall in Hok.
  split; [by apply Hok|]. pose proof (cf_documents _ Hfits). simpl. unfold u64, u64_max, u32_max in *. lia.
Qed.
End fits.

(** ** The specification of a build *)
Section spec.
Context `{SearchCodecs}.

Definition index_metadata (c : corpus) : SidecarFileMetadata := {|
  file_backend := BACKEND_NAME; file_format_version := FORMAT_VERSION;
  file_document_count := Z.of_nat (length c);
  file_term_count := Z.of_nat (length (index_of (snd <$> c)));
  file_total_tokens := Z.of_nat (length (concat (snd <$> c)))
|}.
Definition metadata_json (c : corpus) : string :=
  match encode_metadata (index_metadata c) with Ok s => s | Err _ => "" end.
Definition metadata_content (c : corpus) : list Z :=
  str_bytes (metadata_json c +:+ String "010" "").

(** The sidecars of [db] in [w] are those of the index of [c]. *)
Record index_files (db : string) (c : corpus) (w : World) : Prop := {
  if_documents : disk w !! documents_path db = Some (documents_content (fst <$> c));
  if_offsets : disk w !! offsets_path db = Some (offsets_content (fst <$> c));
  if_lengths : disk w !! lengths_path db = Some (lengths_content c);
  if_lexicon : disk w !! sidecar_path db LEXICON_SUFFIX = Some (lexicon_content (index_of (snd <$> c)));
  if_postings : disk w !! sidecar_path db POSTINGS_SUFFIX = Some (postings_content (index_of (snd <$> c)));
  if_metadata : disk w !! sidecar_path db METADATA_SUFFIX = Some (metadata_content c)
}.

(** The metadata of a manifest describes the index of [c], with the digests of its files. *)
Record index_described (db : string) (c : corpus) (m : SearchBackendMetadata) (w : World) : Prop := {
  id_backend : backend m = BACKEND_NAME;
  id_version : format_version m = Z.to_N FORMAT_VERSION;
  id_documents : document_count m = N.of_nat (length c);
  id_terms : term_count m = N.of_nat (length (index_of (snd <$> c)));
  id_tokens : total_tokens m = N.of_nat (length (concat (snd <$> c)));
  id_digests suffix : suffix ∈ SIDECAR_SUFFIXES -> exists bytes,
    disk w !! sidecar_path db suffix = Some bytes /\ backend_files m !! suffix = Some (sha256_hex bytes)
}.

(** What a build that started in [w0] ends with. *)
Record built (db : string) (pid : N) (c : corpus) (w0 : World) (r : SearchIndexBuildResult)
    (w : World) : Prop := {
  bt_files : index_files db c w;
  bt_described : index_described db c (result_metadata r) w;
  bt_clean p : below (run_root db pid) p -> disk w !! p = None;
  bt_frame : frame (index_region db pid) w0 w
}.
End spec.

Section build.
Context `{SearchCodecs, SearchMemory, CharTables} `{!SearchMemoryLaws, !CharLaws} {E : abort -> Prop}.
Context (db staging_dir : string) (pid : N) (chunk_bytes : Z) (search_indexes : list SearchIndexSpec).

Lemma wp_targets_absent w (Q : () -> World -> Prop) :
  (forall suffix, suffix ∈ SIDECAR_SUFFIXES -> disk w !! sidecar_path db suffix = None) ->
  Q tt w -> wp (ensure_targets_absent db) w E Q.
Proof.
  intros Habs HQ. apply wp_fold with (I := fun _ _ v => v = w).
  - done.
  - intros [] d suffix rest v Hl ->. apply wp_bind. unfold wp at 1, path_exists.
    rewrite Habs; [done|]. rewrite Hl. apply elem_of_app. right. apply list_elem_of_here.
  - by intros [] v ->.
Qed.

(** The digests of files that are there. *)
Lemma wp_hash_sidecars w (Q : gmap string string -> World -> Prop) :
  (forall suffix, suffix ∈ SIDECAR_SUFFIXES -> is_Some (disk w !! sidecar_path db suffix)) ->
  (forall files, (forall suffix, suffix ∈ SIDECAR_SUFFIXES -> exists bytes,
     disk w !! sidecar_path db suffix = Some bytes /\ files !! suffix = Some (sha256_hex bytes)) -> Q files w) ->
  wp (hash_sidecars db) w E Q.
Proof.
  intros Hex HQ. apply wp_fold with (I := fun files d v => v = w /\ forall suffix, suffix ∈ d ->
    exists bytes, disk w !! sidecar_path db suffix = Some bytes /\ files !! suffix = Some (sha256_hex bytes)).
  - split; [done|]. by intros s ?%elem_of_nil.
  - intros files d suffix rest v Hl [-> Hd].
    destruct (Hex suffix) as [bytes Hb]; [rewrite Hl; apply elem_of_app; right; apply list_elem_of_here|].
    apply wp_bind. eapply wp_open; [exact Hb|]. apply wp_ret. split; [done|].
    intros s [Hs| ->%list_elem_of_singleton]%elem_of_app; [|exists bytes; by rewrite lookup_insert_eq].
    destruct (decide (s = suffix)) as [->|Hne]; [exists bytes; by rewrite lookup_insert_eq|].
    destruct (Hd s Hs) as (b & ? & ?). exists b. by rewrite lookup_insert_ne.
  - intros files v [-> Hd]. by apply HQ.
Qed.

Context (w0 : World).
Abbreviation the_corpus := (corpus_of staging_dir (disk w0) search_indexes).

(** What a build asks of its surroundings. *)
Record build_ready : Prop := {
  br_chunk : (0 < chunk_bytes)%Z;
  br_absent suffix : suffix ∈ SIDECAR_SUFFIXES -> disk w0 !! sidecar_path db suffix = None;
  br_staged node_type i : ~ index_region db pid (chunk_path staging_dir node_type i);
  br_decode node_type bytes : bytes ∈ staged_files staging_dir (disk w0) node_type ->
    (decode_staged_nodes bytes).2 = Ok tt;
  br_few : (Z.of_nat (size (disk w0)) <= u64_max)%Z;
  br_indexes : (Z.of_nat (length search_indexes) <= u32_max)%Z;
  br_fits : corpus_fits the_corpus;
  br_metadata : encode_metadata (index_metadata the_corpus) = Ok (metadata_json the_corpus)
}.

(** The tables of documents are started. *)
Lemma wp_create_tables sorter w (Q : () -> World -> Prop) :
  sorter_holds sorter [] w0 -> w = w0 ->
  sorter_root sorter = run_root db pid ->
  (forall w', pass_holds db pid w0 {| pass_sorter := sorter; pass_document_count := 0;
      pass_total_tokens := 0; pass_index_order := 0 |} [] w' -> Q tt w') ->
  wp (create_tables db) w E Q.
Proof.
  unfold create_tables. intros Hs -> Hroot HQ. pose proof (sidecars_distinct db) as (Hdo & Hdl & Hol).
  apply wp_bind, wp_create, wp_bind, wp_create, wp_bind, wp_create.
  apply wp_bind. eapply wp_append.
  { simpl. rewrite lookup_insert_ne, lookup_insert_ne, lookup_insert_eq by done. reflexivity. }
  apply wp_bind. eapply wp_append.
  { simpl. rewrite lookup_insert_ne, lookup_insert_ne, lookup_insert_eq by done. reflexivity. }
  eapply wp_append.
  { simpl. rewrite lookup_insert_ne, lookup_insert_ne, lookup_insert_eq by done. reflexivity. }
  set (w1 := set_disk _ _).
  assert (frame (fun p => p = documents_path db \/ p = offsets_path db \/ p = lengths_path db) w0 w1) as Hf.
  { intros p Hp. unfold w1. simpl. rewrite !lookup_insert_ne by (intros <-; tauto). done. }
  apply HQ. split; try done; unfold w1; simpl.
  - eapply sorter_frame; [exact Hs|exact Hf|]. intros p Hp. rewrite Hroot. by apply tables_not_below.
  - by rewrite lookup_insert_ne, lookup_insert_ne, lookup_insert_eq by done.
  - by rewrite lookup_insert_ne, lookup_insert_eq by done.
  - by rewrite lookup_insert_eq.
  - eapply frame_weaken; [|exact Hf]. intros p [->|[->| ->]]; apply sidecar_region;
      unfold SIDECAR_SUFFIXES; rewrite !elem_of_cons; tauto.
Qed.

Lemma wp_write_metadata m json w (Q : () -> World -> Prop) :
  encode_metadata m = Ok json ->
  (forall w', disk w' = <[sidecar_path db METADATA_SUFFIX := str_bytes (json +:+ String "010" "")]> (disk w) ->
     Q tt w') ->
  wp (write_metadata db m) w E Q.
Proof.
  intros Hm HQ. unfold write_metadata. apply wp_bind. eapply wp_try; [exact Hm|].
  apply wp_bind, wp_create. eapply wp_append; [apply lookup_insert_eq|]. apply HQ. simpl.
  by rewrite insert_insert_eq.
Qed.

Lemma sidecar_ne s1 s2 : s1 <> s2 -> sidecar_path db s1 <> sidecar_path db s2.
Proof. intros Hne Heq. by apply Hne, (sidecar_inj db). Qed.

(** The disk at the end of the build, from the disk after the pass. *)
Lemma index_files_end c path lexicon_bytes postings_bytes w2 w3 w5 :
  (forall suffix, suffix ∈ SIDECAR_SUFFIXES -> path <> sidecar_path db suffix) ->
  disk w2 !! documents_path db = Some (documents_content (fst <$> c)) ->
  disk w2 !! offsets_path db = Some (offsets_content (fst <$> c)) ->
  disk w2 !! lengths_path db = Some (lengths_content c) ->
  (forall suffix, suffix ∈ SIDECAR_SUFFIXES ->
    disk w3 !! sidecar_path db suffix = disk w2 !! sidecar_path db suffix) ->
  lexicon_bytes = lexicon_content (index_of (snd <$> c)) ->
  postings_bytes = postings_content (index_of (snd <$> c)) ->
  disk w5 = <[sidecar_path db METADATA_SUFFIX := metadata_content c]>
    (delete path (<[sidecar_path db POSTINGS_SUFFIX := postings_bytes]>
      (<[sidecar_path db LEXICON_SUFFIX := lexicon_bytes]> (disk w3)))) ->
  index_files db c w5.
Proof.
  intros Hpne Hd Ho Hl Hkeep -> -> Hw5.
  assert (forall suffix, suffix ∈ SIDECAR_SUFFIXES -> suffix <> METADATA_SUFFIX ->
    disk w5 !! sidecar_path db suffix
    = (<[sidecar_path db POSTINGS_SUFFIX := postings_content (index_of (snd <$> c))]>
        (<[sidecar_path db LEXICON_SUFFIX := lexicon_content (index_of (snd <$> c))]> (disk w3)))
      !! sidecar_path db suffix) as Hat.
  { intros suffix Hs Hne. rewrite Hw5, lookup_insert_ne by (by apply sidecar_ne).
    apply lookup_delete_ne. by apply Hpne. }
  assert (forall suffix, suffix ∈ SIDECAR_SUFFIXES -> suffix <> METADATA_SUFFIX ->
    suffix <> POSTINGS_SUFFIX -> suffix <> LEXICON_SUFFIX ->
    disk w5 !! sidecar_path db suffix = disk w2 !! sidecar_path db suffix) as Hsame.
  { intros suffix Hs N1 N2 N3. rewrite Hat by done.
    rewrite !lookup_insert_ne by (by apply sidecar_ne). by apply Hkeep. }
  split; unfold documents_path, offsets_path, lengths_path in *.
  1-3: rewrite Hsame; try done; unfold SIDECAR_SUFFIXES; rewrite !elem_of_cons; tauto.
  - rewrite Hat; [|unfold SIDECAR_SUFFIXES; rewrite !elem_of_cons; tauto|done].
    rewrite lookup_insert_ne by (by apply sidecar_ne). by rewrite lookup_insert_eq.
  - rewrite Hat; [|unfold SIDECAR_SUFFIXES; rewrite !elem_of_cons; tauto|done].
    by rewrite lookup_insert_eq.
  - by rewrite Hw5, lookup_insert_eq.
Qed.

Lemma index_files_all c w suffix :
  index_files db c w -> suffix ∈ SIDECAR_SUFFIXES -> is_Some (disk w !! sidecar_path db suffix).
Proof.
  intros []. unfold SIDECAR_SUFFIXES. rewrite !elem_of_cons, elem_of_nil.
  intros [->|[->|[->|[->|[->|[->|[]]]]]]]; by eexists.
Qed.

Lemma wp_build_inner :
  build_ready ->
  wp (build_inner db staging_dir chunk_bytes search_indexes (run_root db pid)) w0 E (fun r w =>
    index_files db the_corpus w /\ index_described db the_corpus (result_metadata r) w /\
    frame (index_region db pid) w0 w).
Proof.
  intros [Hchunk Habs Hstaged Hdec Hfew Hlen Hfits Hmeta]. unfold build_inner.
  pose proof (corpus_tokens _ Hfits) as Htokens. pose proof (index_bytes _ Hfits) as Hbytes.
  apply wp_bind, wp_new_sorter; [done|]. intros sorter Hsorter Hroot.
  apply wp_bind. eapply wp_create_tables; [exact Hsorter|done|done|]. intros w1 Hpass.
  apply wp_bind. eapply wp_mono; [by apply (wp_index_specs db staging_dir pid w0)|].
  intros st w2 [Hs Hroot2 Hcount Htotal Hdocs Hoffs Hlens Hframe].
  apply wp_bind. eapply wp_mono; [by apply wp_finish_sorter; [|apply (cf_occurrences _ Hfits)]|].
  intros [path sorter2] w3 (Hpath & Hbelow & Hf3 & Hspill). rewrite Hroot2 in *. cbn [fst snd] in *.
  assert (forall suffix, suffix ∈ SIDECAR_SUFFIXES -> path <> sidecar_path db suffix) as Hpne.
  { intros suffix Hsuf ->. by apply (sidecar_not_below db pid suffix). }
  assert (forall suffix, suffix ∈ SIDECAR_SUFFIXES ->
    disk w3 !! sidecar_path db suffix = disk w2 !! sidecar_path db suffix) as Hkeep3.
  { intros suffix Hsuf. by apply Hf3, sidecar_not_below. }
  apply wp_bind. eapply wp_write_final_index; [exact Hpath| | | |].
  { rewrite sort_perm. by apply occurrences_ok. }
  { rewrite group_sorted_occurrences. by apply index_fits. }
  { rewrite group_sorted_occurrences. unfold u64_max. lia. }
  rewrite group_sorted_occurrences. set (lex := index_of _) in *. intros w4 Hw4.
  apply wp_bind. eapply wp_remove.
  { rewrite Hw4, !lookup_insert_ne; [exact Hpath|..]; symmetry; apply Hpne; unfold SIDECAR_SUFFIXES;
      rewrite !elem_of_cons; tauto. }
  apply wp_bind. eapply wp_write_metadata; [rewrite Hcount, Htotal; exact Hmeta|].
  intros w5 Hw5. simpl in Hw5. rewrite Hw4 in Hw5.
  assert (index_files db the_corpus w5) as Hfiles by (by eapply index_files_end).
  apply wp_bind. apply wp_hash_sidecars; [intros suffix; by eapply index_files_all|].
  intros files Hdigests. apply wp_bind. eapply wp_try.
  { apply ok_or_Ok, checked_add_u64_Some. split; [reflexivity|].
    unfold weight in Hspill. rewrite length_occurrences in Hspill. unfold u64_max. lia. }
  apply wp_ret. split; [done|]. split.
  - split; try done; simpl.
    + rewrite Hcount. lia.
    + fold lex. lia.
    + rewrite Htotal. lia.
  - etrans; [exact Hframe|]. etrans; [eapply frame_weaken; [|exact Hf3]; intros p; apply below_region|].
    intros p Hp. assert (forall suffix, suffix ∈ SIDECAR_SUFFIXES -> p <> sidecar_path db suffix) as Hne.
    { intros suffix Hsuf ->. by apply Hp, sidecar_region. }
    rewrite Hw5, lookup_insert_ne, lookup_delete_ne, !lookup_insert_ne; [done|..].
    1,2,4: symmetry; apply Hne; unfold SIDECAR_SUFFIXES; rewrite !elem_of_cons; tauto.
    intros <-. by apply Hp, below_region.
Qed.

Lemma wp_build :
  build_ready ->
  wp (build db staging_dir chunk_bytes search_indexes pid) w0 E (built db pid the_corpus w0).
Proof.
  intros Hready. unfold build. fold (run_root db pid). destruct (Z.eqb_spec chunk_bytes 0) as [Hz|_].
  { pose proof (br_chunk Hready). lia. }
  apply wp_bind, wp_targets_absent; [apply (br_absent Hready)|].
  apply wp_bind. eapply wp_mono; [by apply wp_build_inner|]. intros r w (Hfiles & Hdesc & Hframe).
  apply wp_bind. unfold wp at 1, remove_dir_all. apply wp_ret.
  assert (forall suffix, suffix ∈ SIDECAR_SUFFIXES ->
    base.filter (fun e => starts_with e.1 (run_root db pid +:+ "/") = false) (disk w) !! sidecar_path db suffix
    = disk w !! sidecar_path db suffix) as Hkeep.
  { intros suffix Hs. rewrite remove_dir_lookup.
    destruct (starts_with (sidecar_path db suffix) _) eqn:Es; [|done].
    apply below_run_root_slash in Es. by apply sidecar_not_below in Es. }
  split.
  - destruct Hfiles. split; simpl; unfold documents_path, offsets_path, lengths_path in *;
      rewrite Hkeep; try done; unfold SIDECAR_SUFFIXES; rewrite !elem_of_cons; tauto.
  - destruct Hdesc. split; try done. intros suffix Hs. simpl. rewrite Hkeep by done. auto.
  - intros p Hp%below_run_root_slash. simpl. by rewrite remove_dir_lookup, Hp.
  - intros p Hp. simpl. rewrite remove_dir_lookup.
    destruct (starts_with p _) eqn:Es; [|by apply Hframe].
    apply below_run_root_slash in Es. exfalso. apply Hp. by right.
Qed.
End build.
