(* ===== verification/SearchRank.v ===== *)
(** * Ranked search

    The specification: every document of the layer that holds a term of the query is scored
    by the sum over the terms, in their order, and the results are the first [limit] in
    the order of candidates.  [search] computes this from any index whose files can be read,
    by merging postings and keeping a bounded list. *)
From S2P Require Import Prelude Order Text Bytes Float64 Json Protocol Disk SearchModel SearchBuild SearchCodec SearchRead SearchIndex SearchWrite.

(** ** What the files of an index say *)
Record Index := {
  ix_docs : list (SearchDocument * Z);
  ix_lexicon : lexicon
}.

Fixpoint lexicon_reads (bytes : list Z) (es : list LexiconEntry) : Prop :=
  match es with
  | [] => read_lexicon_entry bytes MAX_TERM_BYTES = Ok None
  | e :: es => exists rest, read_lexicon_entry bytes MAX_TERM_BYTES = Ok (Some (e, rest)) /\
      lexicon_reads rest es
  end.

Fixpoint postings_reads (bytes : list Z) (ps : list (Z * Z)) : Prop :=
  match ps with
  | [] => True
  | (d, n) :: ps => exists r1 r2, read_u64 bytes = Ok (d, r1) /\ read_u32 r1 = Ok (n, r2) /\
      postings_reads r2 ps
  end.

(** An entry of the lexicon and what it points to. *)
Definition entry_reads (postings : list Z) (e : LexiconEntry) (x : string * list (Z * Z)) : Prop :=
  lex_term e = x.1 /\ lex_document_frequency e = Z.of_nat (length x.2) /\
  postings_reads (seek postings (lex_postings_offset e)) x.2.

Section reads.
Context `{SearchCodecs}.

(** A document with its length and where its record is. *)
Definition document_reads (offsets lengths documents : list Z) (i : nat) (x : SearchDocument * Z) : Prop :=
  read_document_stat_at lengths header_bytes (Z.of_nat i)
    = Ok {| stat_length := x.2; stat_index_order := doc_index_order x.1; stat_layer := doc_layer x.1 |} /\
  exists offset rest, read_u64 (seek offsets (header_bytes + Z.of_nat i * DOCUMENT_OFFSET_BYTES)) = Ok (offset, rest) /\
    read_document_at documents offset MAX_DOCUMENT_RECORD_BYTES = Ok x.1.

(** The sidecars of [db] can be read as [ix]. *)
Record index_reads (db : string) (ix : Index) (w : World) : Prop := {
  ir_lexicon : exists bytes rest postings es,
    disk w !! sidecar_path db LEXICON_SUFFIX = Some bytes /\ read_magic bytes LEXICON_MAGIC = Ok rest /\
    disk w !! sidecar_path db POSTINGS_SUFFIX = Some postings /\
    lexicon_reads rest es /\ Forall2 (entry_reads postings) es (ix_lexicon ix);
  ir_documents : exists offsets lengths documents r1 r2 r3,
    disk w !! sidecar_path db DOCUMENT_OFFSETS_SUFFIX = Some offsets /\
    disk w !! sidecar_path db DOCUMENT_LENGTHS_SUFFIX = Some lengths /\
    disk w !! sidecar_path db DOCUMENTS_SUFFIX = Some documents /\
    read_magic offsets DOCUMENT_OFFSETS_MAGIC = Ok r1 /\
    read_magic lengths DOCUMENT_LENGTHS_MAGIC = Ok r2 /\
    read_magic documents DOCUMENTS_MAGIC = Ok r3 /\
    forall i x, ix_docs ix !! i = Some x -> document_reads offsets lengths documents i x
}.
End reads.

(** Terms in order, each with documents of the index in order, which hold it. *)
Record index_wf (ix : Index) : Prop := {
  wf_terms : StrictlySorted (fst <$> ix_lexicon ix);
  wf_postings t ps : (t, ps) ∈ ix_lexicon ix -> StrictlySorted (fst <$> ps);
  wf_documents t ps d n : (t, ps) ∈ ix_lexicon ix -> (d, n) ∈ ps ->
    (0 <= d < Z.of_nat (length (ix_docs ix)))%Z /\ (0 < n)%Z;
  wf_size : (8 + Z.of_nat (length (ix_docs ix)) * DOCUMENT_STAT_BYTES <= u64_max)%Z
}.

(** ** The specification of a search *)
Section spec.
Context `{Libm}.

Definition frequency_in (ps : list (Z * Z)) (d : Z) : option Z :=
  snd <$> find (fun p => (p.1 =? d)%Z) ps.

(** The terms of a query that the index holds: their weights and postings. *)
Definition query_hits (ix : Index) (terms : gset string) : list (f64 * list (Z * Z)) :=
  (fun x => (inverse_document_frequency (Z.of_nat (length (ix_docs ix))) (Z.of_nat (length x.2)), x.2))
  <$> base.filter (fun x : string * list (Z * Z) => x.1 ∈ terms) (ix_lexicon ix).

Definition add_hit (length : Z) (average : f64) (d : Z) (s : f64) (h : f64 * list (Z * Z)) : f64 :=
  match frequency_in h.2 d with
  | Some tf => f64_add s (bm25_term_score tf length average h.1)
  | None => s
  end.
Definition document_score (hits : list (f64 * list (Z * Z))) (average : f64) (d length : Z) : f64 :=
  fold_left (add_hit length average d) hits f64_zero.

Definition is_hit (d : Z) (h : f64 * list (Z * Z)) : bool :=
  match frequency_in h.2 d with Some _ => true | None => false end.

(** Document [i] as a result of the query, if it is one. *)
Definition candidate_at (hits : list (f64 * list (Z * Z))) (average : f64) (layer : SearchLayer)
    (i : nat) (x : SearchDocument * Z) : list Candidate :=
  if existsb (is_hit (Z.of_nat i)) hits && bool_decide (doc_layer x.1 = layer) then
    [{| cand_document_id := Z.of_nat i; cand_index_order := doc_index_order x.1;
        cand_score := round6 (document_score hits average (Z.of_nat i) x.2) |}]
  else [].

Definition candidates (ix : Index) (total : Z) (terms : gset string) (layer : SearchLayer)
    : list Candidate :=
  let average := f64_div (f64_of_Z total) (f64_of_Z (Z.of_nat (length (ix_docs ix)))) in
  concat (imap (candidate_at (query_hits ix terms) average layer) (ix_docs ix)).

Definition ranked (ix : Index) (c : Candidate) : option RankedDocument :=
  x ← ix_docs ix !! Z.to_nat (cand_document_id c);
  Some {| ranked_id := doc_id x.1; ranked_node_type := doc_node_type x.1;
          ranked_index_order := doc_index_order x.1;
          ranked_layer := layer_as_str (doc_layer x.1); ranked_score := cand_score c |}.

(** The best [limit] candidates, best first. *)
Definition search_spec (ix : Index) (total : Z) (terms : gset string) (layer : SearchLayer)
    (limit : Z) : list RankedDocument :=
  omap (ranked ix) (take (Z.to_nat limit) (sort_by candidate_leb (candidates ix total terms layer))).
End spec.

(** ** The order of candidates *)
(** Better scores first, then the order of the indexes, then that of the documents. *)
Definition cand_key (c : Candidate) : (Z * (Z * Z)) * (Z * Z) :=
  let r := f64_rank (cand_score c) in
  ((- r.1, (- r.2.1, - r.2.2)), (cand_index_order c, cand_document_id c))%Z.

Lemma cmp_opp (x y : Z) : cmp (- x)%Z (- y)%Z = cmp y x.
Proof. unfold cmp, Ord_Z. apply Z.compare_opp. Qed.

Lemma candidate_order_key x y :
  is_nan (cand_score x) = false -> is_nan (cand_score y) = false ->
  candidate_order x y = cmp (cand_key x) (cand_key y).
Proof.
  intros Hx Hy. unfold candidate_order. rewrite f64_partial_cmp_rank by done.
  unfold cand_key. rewrite !cmp_prod. cbn [fst snd default option_map].
  destruct (f64_rank (cand_score x)) as [a [b c]], (f64_rank (cand_score y)) as [a' [b' c']].
  rewrite !cmp_prod. cbn [fst snd]. rewrite !cmp_opp. reflexivity.
Qed.

Definition numbered (l : list Candidate) : Prop :=
  (forall c, c ∈ l -> is_nan (cand_score c) = false) /\ NoDup (cand_document_id <$> l).

Lemma candidate_leb_key x y :
  is_nan (cand_score x) = false -> is_nan (cand_score y) = false ->
  candidate_leb x y = le_b (cand_key x) (cand_key y).
Proof. intros Hx Hy. unfold candidate_leb, le_b. by rewrite candidate_order_key. Qed.

Lemma insert_by_ext {A} (f g : A -> A -> bool) x l :
  (forall y, y ∈ l -> f x y = g x y) -> insert_by f x l = insert_by g x l.
Proof.
  induction l as [|y l IH]; intros Hfg; [done|]. simpl. rewrite Hfg by (apply list_elem_of_here).
  rewrite IH; [done|]. intros z Hz. apply Hfg. by right.
Qed.

Lemma sort_by_ext {A} (f g : A -> A -> bool) l :
  (forall x y, x ∈ l -> y ∈ l -> f x y = g x y) -> sort_by f l = sort_by g l.
Proof.
  unfold sort_by. induction l as [|x l IH]; intros Hfg; [done|]. simpl.
  rewrite IH by (intros y z Hy Hz; apply Hfg; by right).
  apply insert_by_ext. intros y Hy. apply Hfg; [apply list_elem_of_here|right].
  change (foldr (insert_by g) [] l) with (sort_by g l) in Hy. by rewrite elem_of_sort_by in Hy.
Qed.

Lemma sort_candidates l :
  (forall c, c ∈ l -> is_nan (cand_score c) = false) -> sort_by candidate_leb l = sort_by_key cand_key l.
Proof. intros Hl. apply sort_by_ext. intros x y Hx Hy. apply candidate_leb_key; auto. Qed.

(** ** The bounded list keeps the best *)
Lemma cand_key_id x y : cand_key x = cand_key y -> cand_document_id x = cand_document_id y.
Proof. unfold cand_key. by intros [= _ _ _ _ ->]. Qed.

Lemma numbered_keys l : numbered l -> NoDup (cand_key <$> l).
Proof.
  intros [_ Hnd]. revert Hnd. induction l as [|c l IH]; [constructor|].
  rewrite !fmap_cons, !NoDup_cons. intros [Hc Hl]. split; [|by apply IH].
  intros (x & Hx & Hin)%list_elem_of_fmap. apply Hc. rewrite (cand_key_id _ _ Hx).
  by apply list_elem_of_fmap_2.
Qed.

Lemma numbered_perm l1 l2 : l1 ≡ₚ l2 -> numbered l1 -> numbered l2.
Proof. intros Hp [H1 H2]. split; [intros c; rewrite <- Hp; apply H1|by rewrite <- Hp]. Qed.

Lemma take_insert_by {A} (leb : A -> A -> bool) k x l :
  take k (insert_by leb x l) = take k (insert_by leb x (take k l)).
Proof.
  revert l. induction k as [|k IH]; intros l; [done|]. destruct l as [|y l]; simpl; [done|].
  destruct (leb x y); simpl; [|by rewrite IH].
  f_equal. destruct k as [|k]; [done|]. simpl. f_equal. by rewrite take_take, Nat.min_l by lia.
Qed.

Lemma max_by_spec {A} (ord : A -> A -> comparison) (ok : A -> Prop) i best l :
  (forall x y z, ok x -> ok y -> ok z -> ord x y <> Gt -> ord y z <> Gt -> ord x z <> Gt) ->
  (forall x y, ok x -> ok y -> ord x y = Gt -> ord y x <> Gt) ->
  (forall x, ok x -> ord x x <> Gt) ->
  Forall ok l -> (forall j y, best = Some (j, y) -> ok y) ->
  match max_by ord i best l with
  | Some (j, y) => ok y /\ (best = Some (j, y) \/ exists k, j = i + k /\ l !! k = Some y) /\
      (forall z, z ∈ l -> ord z y <> Gt) /\ (forall j' z, best = Some (j', z) -> ord z y <> Gt)
  | None => best = None /\ l = []
  end.
Proof.
  intros Htrans Hasym Hrefl Hl. revert i best. induction Hl as [|x l Hx Hl IH]; intros i best Hbest; simpl.
  - destruct best as [[j y]|]; [|done]. split; [by eapply Hbest|]. split; [by left|].
    split; [by intros z ?%elem_of_nil|]. intros j' z [= _ ->]. by eapply Hrefl, Hbest.
  - set (best' := match best with
      | Some (j, y) => match ord y x with Gt => Some (j, y) | _ => Some (i, x) end
      | None => Some (i, x) end).
    assert (exists j y, best' = Some (j, y) /\ ok y /\ (best = Some (j, y) \/ j = i /\ y = x) /\
      ord x y <> Gt /\ (forall j' z, best = Some (j', z) -> ord z y <> Gt)) as (j0 & y0 & Hb & Hy0 & Hor & Hxy & Hall).
    { unfold best'. destruct best as [[j y]|].
      - pose proof (Hbest j y eq_refl) as Hy. destruct (ord y x) eqn:E.
        1,2: exists i, x; split_and!; [done|done|by right|by apply Hrefl|]; intros j' z [= _ ->]; congruence.
        exists j, y. split_and!; [done|done|by left|by apply Hasym|].
        intros j' z [= _ ->]. by apply Hrefl.
      - exists i, x. split_and!; [done|done|by right|by apply Hrefl|done]. }
    specialize (IH (S i) best'). rewrite Hb in IH |- *.
    destruct (max_by ord (S i) (Some (j0, y0)) l) as [[j y]|].
    + destruct IH as (Hy & Hwhere & Hmax & Hbmax); [by intros ? ? [= _ <-]|]. specialize (Hbmax _ _ eq_refl).
      split; [done|]. split; [|split].
      * destruct Hwhere as [[= <- <-]|(k & -> & Hk)].
        -- destruct Hor as [Hor|[-> ->]]; [by left|right]. exists 0. by rewrite Nat.add_0_r.
        -- right. exists (S k). split; [lia|done].
      * intros z [->|Hz]%elem_of_cons; [|by apply Hmax]. by apply (Htrans _ y0).
      * intros j' z Hz. pose proof (Hbest _ _ Hz). apply (Htrans _ y0); try done. by eapply Hall.
    + by destruct IH as [? _]; [intros ? ? [= _ <-]|].
Qed.

Lemma swap_remove_perm {A} i (l : list A) y : l !! i = Some y -> l ≡ₚ y :: swap_remove i l.
Proof.
  intros Hi. unfold swap_remove. destruct l as [|a l _] using rev_ind; [done|].
  rewrite last_snoc. destruct (decide (i < length l)) as [Hlt|Hge].
  - rewrite insert_app_l by done. rewrite removelast_last. rewrite lookup_app_l in Hi by done.
    rewrite <- (take_drop_middle _ _ _ Hi) at 1. rewrite insert_take_drop by done.
    etrans; [apply Permutation_app_comm|]. simpl. rewrite <- !Permutation_middle. apply perm_swap.
  - apply lookup_lt_Some in Hi as Hlen. rewrite length_app in Hlen. simpl in Hlen.
    assert (i = length l) as -> by lia. rewrite list_lookup_middle in Hi by done. injection Hi as ->.
    rewrite list_insert_id by (by rewrite list_lookup_middle). rewrite removelast_last.
    by rewrite Permutation_app_comm.
Qed.

Lemma sorted_last_max {A} (leb : A -> A -> bool) (l : list A) z x :
  SortedBy leb (l ++ [z]) -> (forall y, leb y y = true) -> x ∈ l ++ [z] -> leb x z = true.
Proof.
  intros Hs Hrefl Hx. apply elem_of_app in Hx as [Hx| ->%list_elem_of_singleton]; [|apply Hrefl].
  by eapply sorted_before.
Qed.

Abbreviation cand_le := (fun x y => le_b (cand_key x) (cand_key y)).

Lemma candidate_order_le x y :
  is_nan (cand_score x) = false -> is_nan (cand_score y) = false ->
  candidate_order x y <> Gt <-> cand_le x y = true.
Proof. intros Hx Hy. rewrite candidate_order_key by done. unfold le_b. by destruct (cmp _ _). Qed.

(** The element that [retain_best] drops is the last in the order. *)
Lemma max_by_last l T z :
  numbered l -> l ≡ₚ T ++ [z] -> SortedBy cand_le (T ++ [z]) ->
  exists j, max_by candidate_order 0 None l = Some (j, z) /\ l !! j = Some z.
Proof.
  intros Hnum Hperm Hs. set (ok := fun x => is_nan (cand_score x) = false).
  pose proof (max_by_spec candidate_order ok 0 None l) as Hmax.
  destruct (max_by candidate_order 0 None l) as [[j y]|].
  2: { destruct Hmax as [_ ->]; try done.
       - intros u v w Hu Hv Hw. rewrite !candidate_order_le by done. apply le_b_trans.
       - intros u v Hu Hv Hg. rewrite candidate_order_le by done. apply le_b_false.
         destruct (le_b (cand_key u) (cand_key v)) eqn:E; [|done]. by apply candidate_order_le in E.
       - intros u Hu. rewrite candidate_order_le by done. apply le_b_refl.
       - rewrite Forall_forall. apply Hnum.
       - apply Permutation_nil_l in Hperm. by destruct T. }
  destruct Hmax as (Hy & [|(i & -> & Hi)] & Hge & _); try done.
  1: intros u v w Hu Hv Hw; rewrite !candidate_order_le by done; apply le_b_trans.
  1: intros u v Hu Hv Hg; rewrite candidate_order_le by done; apply le_b_false;
     destruct (le_b (cand_key u) (cand_key v)) eqn:E; [|done]; by apply candidate_order_le in E.
  1: intros u Hu; rewrite candidate_order_le by done; apply le_b_refl.
  1: rewrite Forall_forall; apply Hnum.
  assert (y = z) as ->; [|by exists (0 + i)].
  assert (z ∈ l) as Hz by (rewrite Hperm; apply elem_of_app; right; apply list_elem_of_here).
  assert (cand_key y = cand_key z) as Hkey.
  { apply le_b_antisym.
    - apply (sorted_last_max cand_le T); [done|intros u; apply le_b_refl|].
      rewrite <- Hperm. by eapply list_elem_of_lookup_2.
    - apply candidate_order_le; [by apply Hnum|done|by apply Hge]. }
  apply cand_key_id in Hkey. apply list_elem_of_lookup in Hz as [i' Hi'].
  assert (i = i') as <-; [|congruence].
  eapply NoDup_lookup; [apply (proj2 Hnum)| |]; rewrite list_lookup_fmap; [by rewrite Hi|].
  rewrite Hi'. simpl. by rewrite Hkey.
Qed.

(** Adding a candidate to the best [k] of some keeps the best [k]. *)
Lemma retain_best_spec k seen best c :
  numbered (seen ++ [c]) -> best ≡ₚ take k (sort_by_key cand_key seen) ->
  retain_best best c (Z.of_nat k) ≡ₚ take k (sort_by_key cand_key (seen ++ [c])).
Proof.
  intros Hnum Hbest. pose proof (sort_by_key_sorted cand_key seen) as HS.
  pose proof (sort_by_key_perm cand_key seen) as Hperm.
  assert (sort_by_key cand_key (seen ++ [c]) = insert_by cand_le c (sort_by_key cand_key seen)) as ->.
  { change (insert_by cand_le c (sort_by_key cand_key seen)) with (sort_by_key cand_key (c :: seen)).
    apply sort_by_key_perm_eq; [by apply numbered_keys|]. symmetry. apply Permutation_cons_append. }
  revert Hbest HS Hperm. generalize (sort_by_key cand_key seen). intros sorted Hbest HS Hperm.
  rewrite take_insert_by. set (T := insert_by cand_le c (take k sorted)).
  assert (best ++ [c] ≡ₚ T) as HT.
  { unfold T. rewrite insert_by_perm, Hbest. symmetry. apply Permutation_cons_append. }
  assert (SortedBy cand_le T) as HTs.
  { apply insert_by_sorted; [intros *; apply le_b_false|intros *; apply le_b_trans|].
    unfold SortedBy in *. rewrite <- (take_drop k sorted) in HS. by eapply sorting.StronglySorted_app_1_l. }
  assert (numbered (best ++ [c])) as HTn.
  { assert (sorted ≡ₚ best ++ drop k sorted) as Hsplit by (by rewrite Hbest, take_drop).
    apply (numbered_perm _ ((best ++ [c]) ++ drop k sorted)) in Hnum.
    2: { rewrite <- Hperm, Hsplit at 1. rewrite <- !app_assoc. apply Permutation_app_head, Permutation_app_comm. }
    destruct Hnum as [Hn Hd]. split; [intros x Hx; apply Hn, elem_of_app; by left|].
    rewrite fmap_app in Hd. by apply NoDup_app in Hd as [? _]. }
  assert (length best <= k) as Hlen by (rewrite Hbest, length_take; lia).
  assert (length T = S (length best)) as HTl by (rewrite <- HT, length_app; simpl; lia).
  unfold retain_best. cbv zeta. rewrite length_app. simpl length.
  destruct (Z.leb_spec (Z.of_nat (length best + 1)) (Z.of_nat k)) as [Hle|Hgt].
  { rewrite take_ge; [done|]. lia. }
  destruct T as [|z T' _] eqn:ET using rev_ind; [done|]. rewrite length_app in HTl. simpl in HTl.
  destruct (max_by_last _ _ _ HTn HT HTs) as (j & -> & Hj).
  assert (T' ++ [z] ≡ₚ z :: swap_remove j (best ++ [c])) as Hrem.
  { etrans; [symmetry; exact HT|by apply swap_remove_perm]. }
  rewrite <- Permutation_cons_append in Hrem. apply Permutation_cons_inv in Hrem.
  rewrite <- Hrem. replace k with (length T') by lia. by rewrite take_app_length.
Qed.

Lemma retain_all k l :
  numbered l ->
  fold_left (fun best c => retain_best best c (Z.of_nat k)) l [] ≡ₚ take k (sort_by_key cand_key l).
Proof.
  induction l as [|c l IH] using rev_ind; intros Hnum; [by destruct k|].
  rewrite fold_left_app. simpl. apply retain_best_spec; [done|]. apply IH.
  destruct Hnum as [Hn Hd]. split; [intros x Hx; apply Hn, elem_of_app; by left|].
  rewrite fmap_app in Hd. by apply NoDup_app in Hd as [? _].
Qed.

(** Sorting what was kept gives the first [k] of all. *)
Lemma sort_retained k l best :
  numbered l -> best ≡ₚ take k (sort_by_key cand_key l) ->
  sort_by candidate_leb best = take k (sort_by candidate_leb l).
Proof.
  intros Hnum Hbest. rewrite (sort_candidates l) by apply Hnum.
  assert (numbered (take k (sort_by_key cand_key l))) as Hn.
  { apply (numbered_perm _ (sort_by_key cand_key l)) in Hnum; [|by rewrite sort_by_key_perm].
    rewrite <- (take_drop k (sort_by_key cand_key l)) in Hnum. destruct Hnum as [Hn Hd]. split.
    - intros x Hx. apply Hn, elem_of_app. by left.
    - rewrite fmap_app in Hd. by apply NoDup_app in Hd as [? _]. }
  rewrite sort_candidates by (intros c; rewrite Hbest; apply Hn).
  rewrite (sort_by_key_perm_eq cand_key best (take k (sort_by_key cand_key l))).
  - apply sort_by_key_id. pose proof (sort_by_key_sorted cand_key l) as Hs. unfold SortedBy in *.
    rewrite <- (take_drop k (sort_by_key cand_key l)) in Hs. by eapply sorting.StronglySorted_app_1_l.
  - rewrite Hbest. by apply numbered_keys.
  - done.
Qed.

(** ** Finding the entries of a query *)
Lemma read_exact_length n bytes a rest :
  read_exact n bytes = Ok (a, rest) -> length bytes = n + length rest.
Proof.
  unfold read_exact. destruct (Nat.ltb_spec (length bytes) n); [done|]. intros [= _ <-].
  rewrite length_drop. lia.
Qed.

Lemma read_entry_length bytes limit e rest :
  read_lexicon_entry bytes limit = Ok (Some (e, rest)) -> length rest < length bytes.
Proof.
  unfold read_lexicon_entry, read_optional_u32. destruct (read_exact 4 bytes) as [[b r]|] eqn:E1; [|done].
  apply read_exact_length in E1. unfold read_text. destruct (_ <? _)%Z; [done|].
  intros Hr. apply result_bind_Ok in Hr as ([t r1] & Ht & Hr).
  apply result_bind_Ok in Ht as ([x r2] & Hx & Ht). apply read_exact_length in Hx.
  destruct (from_utf8 x); [|done]. injection Ht as _ <-.
  apply result_bind_Ok in Hr as ([o r3] & Ho & Hr). unfold read_u64 in Ho.
  apply result_bind_Ok in Ho as ([y r4] & Hy & Ho). apply read_exact_length in Hy. injection Ho as _ <-.
  apply result_bind_Ok in Hr as ([f r5] & Hf & Hr). unfold read_u32 in Hf.
  apply result_bind_Ok in Hf as ([z r6] & Hz & Hf). apply read_exact_length in Hz. injection Hf as _ <-.
  injection Hr as _ <-. lia.
Qed.

Lemma lt_b_trans {A} `{OrdLaws A} (x y z : A) : lt_b x y = true -> lt_b y z = true -> lt_b x z = true.
Proof.
  unfold lt_b. destruct (cmp x y) eqn:E1; try done. destruct (cmp y z) eqn:E2; try done.
  by rewrite (cmp_lt_trans _ _ _ E1 E2).
Qed.

(** What the loop has found among the entries [seen]. *)
Definition found_among (terms : gset string) (seen : list LexiconEntry)
    (found : gmap string LexiconEntry) : Prop :=
  forall t e, found !! t = Some e <-> e ∈ seen /\ lex_term e = t /\ t ∈ terms.

Section find.
Context {E : abort -> Prop} (terms : gset string) (last_query : string).
Context (Hlast : forall t, t ∈ terms -> le_b t last_query = true).

Lemma wp_find_entries fuel es bytes seen found w (Q : gmap string LexiconEntry -> World -> Prop) :
  lexicon_reads bytes es -> length bytes < fuel -> StrictlySorted (lex_term <$> seen ++ es) ->
  found_among terms seen found ->
  (forall found', found_among terms (seen ++ es) found' -> Q found' w) ->
  wp (find_entries fuel terms last_query found bytes) w E Q.
Proof.
  revert es bytes seen found. induction fuel as [|fuel IH]; intros es bytes seen found Hes Hfuel Hs Hf HQ; [lia|].
  cbn [find_entries]. destruct es as [|e es]; simpl in Hes.
  { apply wp_bind. eapply wp_try; [exact Hes|]. apply wp_ret, HQ. by rewrite app_nil_r. }
  destruct Hes as (rest & He & Hes). apply wp_bind. eapply wp_try; [exact He|]. cbv beta iota.
  apply read_entry_length in He.
  assert (seen ++ e :: es = (seen ++ [e]) ++ es) as Heq by (by rewrite <- app_assoc). rewrite Heq in Hs, HQ.
  assert (lex_term e ∉ lex_term <$> seen) as Hnew.
  { intros Hin. rewrite fmap_app in Hs. unfold StrictlySorted in Hs. apply sorting.StronglySorted_app_1_l in Hs.
    rewrite fmap_app in Hs. apply strict_snoc in Hs as [_ Hs]. specialize (Hs _ Hin). simpl in Hs.
    by rewrite lt_b_irrefl in Hs. }
  case_decide as Hin.
  - apply (IH es rest (seen ++ [e])); [done|lia|done| |done].
    intros t e'. destruct (decide (t = lex_term e)) as [->|Hne].
    + rewrite lookup_insert_eq. split.
      * intros [= <-]. split_and!; [|done|done]. apply elem_of_app. right. apply list_elem_of_here.
      * intros ([Hi| ->%list_elem_of_singleton]%elem_of_app & Ht & _); [|done].
        exfalso. apply Hnew. rewrite <- Ht. by apply list_elem_of_fmap_2.
    + rewrite lookup_insert_ne by done. rewrite (Hf t e'). rewrite elem_of_app, list_elem_of_singleton.
      split; [intros (? & ? & ?); split_and!; auto|].
      intros ([Hi| ->] & Ht & ?); [done|congruence].
  - assert (found_among terms (seen ++ [e]) found) as Hf'.
    { intros t e'. rewrite (Hf t e'), elem_of_app, list_elem_of_singleton.
      split; [intros (? & ? & ?); split_and!; auto|]. intros ([Hi| ->] & <- & ?); done. }
    destruct (lt_b last_query (lex_term e)) eqn:Elt.
    + apply wp_ret, HQ. intros t e'. rewrite (Hf' t e'), !elem_of_app.
      split; [intros (? & ? & ?); split_and!; auto|]. intros ([Hi|Hi] & Ht & Hterm); [done|].
      exfalso. specialize (Hlast t Hterm). rewrite fmap_app in Hs.
      assert (lt_b (lex_term e) t = true) as Hlt.
      { eapply (sorting.StronglySorted_app_1_elem_of (fun x y => lt_b x y = true)); [exact Hs|..].
        - rewrite fmap_app. apply elem_of_app. right. apply list_elem_of_here.
        - rewrite <- Ht. by apply list_elem_of_fmap_2. }
      rewrite lt_b_le_b in Elt. pose proof (lt_b_trans last_query (lex_term e) t) as Htr.
      rewrite lt_b_le_b, Elt in Htr. specialize (Htr eq_refl Hlt). rewrite lt_b_le_b, Hlast in Htr. done.
    + apply (IH es rest (seen ++ [e])); [done|lia|done..].
Qed.
End find.

Lemma last_query_le (terms : gset string) t :
  t ∈ terms -> le_b t (default "" (last (btree_elements terms))) = true.
Proof.
  intros Ht. apply elem_of_btree_elements in Ht.
  assert (SortedBy le_b (btree_elements terms)) as Hs by apply sort_sorted.
  destruct (btree_elements terms) as [|x l _] using rev_ind; [by apply elem_of_nil in Ht|].
  rewrite last_snoc. simpl. apply (sorted_last_max le_b l); [done|apply le_b_refl|done].
Qed.

(** The entries of the terms, in order: what [BTreeMap::values] gives. *)
Lemma found_values terms es found :
  StrictlySorted (lex_term <$> es) -> found_among terms es found ->
  btree_values found = base.filter (fun e => lex_term e ∈ terms) es.
Proof.
  intros Hs Hf. unfold btree_values.
  assert (btree_iter found
    = (fun e => (lex_term e, e)) <$> base.filter (fun e => lex_term e ∈ terms) es) as ->.
  { apply strict_assoc_ext.
    - apply btree_keys_sorted.
    - rewrite <- list_fmap_compose. clear Hf. unfold StrictlySorted, compose in *. simpl.
      induction es as [|e es IH]; [constructor|]. rewrite fmap_cons in Hs.
      inversion Hs as [|? ? Hs' Hall]; subst. rewrite filter_cons. case_decide; [|by apply IH].
      rewrite fmap_cons. constructor; [by apply IH|]. rewrite Forall_forall in *.
      intros t (e' & -> & He')%list_elem_of_fmap. apply Hall.
      apply list_elem_of_filter in He' as [_ He']. by apply list_elem_of_fmap_2.
    - intros [t e]. rewrite elem_of_btree_iter, (Hf t e), list_elem_of_fmap.
      setoid_rewrite list_elem_of_filter. split.
      + intros (? & <- & ?). by exists e.
      + by intros (e' & [= -> ->] & ? & ?). }
  rewrite <- list_fmap_compose. unfold compose. simpl. apply list_fmap_id.
Qed.

Lemma found_empty terms es found :
  found_among terms es found ->
  found = ∅ <-> base.filter (fun e => lex_term e ∈ terms) es = [].
Proof.
  intros Hf. split.
  - intros ->. destruct (base.filter _ es) as [|e l] eqn:El; [done|]. exfalso.
    assert (e ∈ base.filter (fun e => lex_term e ∈ terms) es) as He by (rewrite El; apply list_elem_of_here).
    apply list_elem_of_filter in He as [Ht He].
    assert ((∅ : gmap string LexiconEntry) !! lex_term e = Some e) by (by apply Hf). done.
  - intros Hnil. apply map_empty. intros t. destruct (found !! t) as [e|] eqn:Ee; [|done].
    apply Hf in Ee as (He & <- & Ht).
    assert (e ∈ base.filter (fun e => lex_term e ∈ terms) es) as Hin by (by apply list_elem_of_filter).
    rewrite Hnil in Hin. by apply elem_of_nil in Hin.
Qed.

(** ** Cursors *)
Definition posting_item (i : nat) (p : Z * Z) : HeapPosting :=
  {| posting_document_id := p.1; posting_term_frequency := p.2; cursor_index := i |}.
Definition posting_key (p : HeapPosting) : Z * nat := (posting_document_id p, cursor_index p).
Abbreviation posting_heads := (heads posting_item).

(** A cursor of weight [idf] that still has the postings [ps]. *)
Definition cursor_reads (c : PostingCursor) (h : f64 * list (Z * Z)) : Prop :=
  cursor_idf c = h.1 /\ remaining c = Z.of_nat (length h.2) /\ postings_reads (cursor_file c) h.2.

Lemma next_posting_nil c idf : cursor_reads c (idf, []) -> next_posting c = Ok (None, c).
Proof. intros (_ & Hr & _). unfold next_posting. by rewrite Hr. Qed.

Lemma next_posting_cons c idf d n ps :
  cursor_reads c (idf, (d, n) :: ps) ->
  exists c', next_posting c = Ok (Some (d, n), c') /\ cursor_reads c' (idf, ps).
Proof.
  intros (Hi & Hr & (r1 & r2 & H1 & H2 & Hps)). unfold next_posting. rewrite Hr. simpl length.
  destruct (Z.eqb_spec (Z.of_nat (S (length ps))) 0); [lia|]. rewrite H1. simpl. rewrite H2. simpl.
  eexists. split; [reflexivity|]. split_and!; simpl; [done|lia|done].
Qed.

Section cursors.
Context {E : abort -> Prop}.
Implicit Types hs : list (f64 * list (Z * Z)).

(** Cursors whose heads are in the heap. *)
Definition loaded (h : f64 * list (Z * Z)) : f64 * list (Z * Z) := (h.1, tail h.2).
Definition searching (st : SearchState) hs : Prop :=
  Forall2 (fun c h => cursor_reads c (loaded h)) (cursors st) hs /\
  posting_heap st ≡ₚ posting_heads 0 (snd <$> hs).

(** Cursor [i] moves on to [h], all of which it has still to read. *)
Lemma wp_advance_cursor st c h i w (Q : SearchState -> World -> Prop) :
  cursors st !! i = Some c -> cursor_reads c h ->
  (forall st' c', cursor_reads c' (loaded h) -> cursors st' = <[i := c']> (cursors st) ->
     posting_heap st' = head_item posting_item i h.2 ++ posting_heap st -> Q st' w) ->
  wp (advance_cursor st i) w E Q.
Proof.
  intros Hc Hr HQ. unfold advance_cursor. rewrite Hc. destruct h as [idf [|[d n] ps]].
  - apply wp_bind. eapply wp_try; [by eapply next_posting_nil|]. apply wp_ret. by eapply HQ.
  - destruct (next_posting_cons _ _ _ _ _ Hr) as (c' & Hn & Hr').
    apply wp_bind. eapply wp_try; [exact Hn|]. apply wp_ret. by eapply HQ.
Qed.

Lemma wp_open_cursors path file es hs w (Q : list PostingCursor -> World -> Prop)
    (idf : LexiconEntry -> f64) :
  disk w !! path = Some file ->
  Forall2 (fun e h => idf e = h.1 /\ lex_document_frequency e = Z.of_nat (length h.2) /\
    postings_reads (seek file (lex_postings_offset e)) h.2) es hs ->
  (forall cs, Forall2 cursor_reads cs hs -> Q cs w) ->
  wp (io_fold (fun cs entry =>
       c ← open_cursor path (lex_postings_offset entry) (lex_document_frequency entry) (idf entry);
       mret (cs ++ [c])) [] es) w E Q.
Proof.
  intros Hp Hes HQ.
  apply wp_fold with (I := fun cs d v => v = w /\ Forall2 cursor_reads cs (take (length d) hs)).
  - split; [done|constructor].
  - intros cs d e rest v -> [-> Hcs]. apply Forall2_app_inv_l in Hes as (h1 & h2 & H1 & H2 & ->).
    inversion H2 as [|? h ? h3 (Hidf & Hdf & Hps) H3]; subst. pose proof (Forall2_length _ _ _ H1) as Hlen.
    apply wp_bind. unfold open_cursor. apply wp_bind. eapply wp_open; [exact Hp|]. apply wp_ret, wp_ret.
    split; [done|]. rewrite Hlen, take_app_length in Hcs. rewrite length_app, Hlen. simpl.
    rewrite Nat.add_1_r, (take_S_r _ _ h), take_app_length by (by rewrite list_lookup_middle).
    apply Forall2_app; [done|]. constructor; [|constructor]. done.
  - intros cs v [-> Hcs]. rewrite take_ge in Hcs by (rewrite (Forall2_length _ _ _ Hes); lia). by apply HQ.
Qed.

Lemma wp_load_cursors cs hs w (Q : SearchState -> World -> Prop) :
  Forall2 cursor_reads cs hs ->
  (forall st, searching st hs -> Q st w) ->
  wp (io_fold advance_cursor {| cursors := cs; posting_heap := [] |} (seq 0 (length cs))) w E Q.
Proof.
  intros Hcs HQ. pose proof (Forall2_length _ _ _ Hcs) as Hlen.
  apply wp_fold with (I := fun st d v => v = w /\
    Forall2 cursor_reads (cursors st) ((loaded <$> take (length d) hs) ++ drop (length d) hs) /\
    posting_heap st ≡ₚ posting_heads 0 (snd <$> take (length d) hs)).
  - by simpl; rewrite drop_0.
  - intros st d i rest v Hl (-> & Hr & Hh).
    pose proof (f_equal length Hl) as Hl'. rewrite length_seq, length_app in Hl'. simpl in Hl'.
    assert (i = length d) as ->.
    { pose proof (f_equal (lookup (length d)) Hl) as Hi.
      rewrite lookup_seq_lt, list_lookup_middle in Hi by lia. by injection Hi as <-. }
    destruct (lookup_lt_is_Some_2 hs (length d)) as [h Hh']; [lia|].
    rewrite (drop_S _ _ _ Hh') in Hr.
    assert (length (loaded <$> take (length d) hs) = length d) as Ht by (rewrite length_fmap, length_take; lia).
    destruct (Forall2_lookup_r _ _ _ (length d) h Hr) as (c & Hc & Hcr).
    { by rewrite list_lookup_middle. }
    eapply wp_advance_cursor; [exact Hc|exact Hcr|]. intros st' c' Hc' Hcs' Hheap.
    rewrite length_app. simpl. rewrite Nat.add_1_r, (take_S_r _ _ _ Hh'), !fmap_app, <- app_assoc.
    split; [done|]. split.
    + rewrite Hcs'. replace ((loaded <$> take (length d) hs) ++ (loaded <$> [h]) ++ drop (S (length d)) hs)
        with (<[length d := loaded h]> ((loaded <$> take (length d) hs) ++ h :: drop (S (length d)) hs)).
      { by apply Forall2_insert. }
      rewrite insert_app_r_alt by lia. rewrite Ht, Nat.sub_diag. done.
    + rewrite Hheap, Hh, heads_app. simpl. rewrite app_nil_r, length_fmap, length_take.
      rewrite Nat.min_l by lia. apply Permutation_app_comm.
  - intros st v (-> & Hr & Hh). rewrite length_seq, Hlen in *. rewrite take_ge, drop_ge, app_nil_r in * by done.
    apply HQ. split; [|done]. by rewrite Forall2_fmap_r in Hr.
Qed.
End cursors.

(** ** One document *)
Definition at_document (d : Z) (p : HeapPosting) : bool := (posting_document_id p =? d)%Z.

Lemma filter_perm {A} (f : A -> bool) l1 l2 : l1 ≡ₚ l2 -> List.filter f l1 ≡ₚ List.filter f l2.
Proof.
  induction 1 as [|x l1 l2 _ IH|x y l|l1 l2 l3 _ IH1 _ IH2]; simpl; [done| | |by etrans].
  - destruct (f x); by rewrite IH.
  - destruct (f x), (f y); try done; apply perm_swap.
Qed.

Lemma pop_document_spec fuel d heap :
  (forall p, p ∈ heap -> (d <= posting_document_id p)%Z) -> length heap <= fuel ->
  let (ps, rest) := pop_document fuel d heap in
  ps ≡ₚ List.filter (at_document d) heap /\ rest ≡ₚ List.filter (fun p => negb (at_document d p)) heap /\
  SortedBy (fun x y => le_b (posting_key x) (posting_key y)) ps.
Proof.
  revert heap. induction fuel as [|fuel IH]; intros heap Hd Hlen; cbn [pop_document].
  { destruct heap; [|simpl in Hlen; lia]. split_and!; constructor. }
  destruct (heap_pop heap_posting_cmp heap) as [[p rest]|] eqn:Epop.
  2: { apply heap_pop_None in Epop as ->. split_and!; constructor. }
  pose proof (heap_pop_Some heap_posting_cmp posting_key (fun _ _ => eq_refl) _ _ _ Epop) as [Hperm Hle].
  pose proof (fun f => filter_perm f _ _ Hperm) as Hfil.
  destruct (Z.eqb_spec (posting_document_id p) d) as [Hp|Hp].
  - specialize (IH rest). destruct (pop_document fuel d rest) as [ps rest'].
    destruct IH as (H1 & H2 & H3).
    { intros q Hq. apply Hd. rewrite Hperm. by right. }
    { apply Permutation_length in Hperm. simpl in Hperm. lia. }
    rewrite !Hfil. cbn [List.filter].
    assert (at_document d p = true) as -> by (by apply Z.eqb_eq). cbn [negb].
    split; [by rewrite H1|]. split; [done|]. constructor; [done|]. rewrite Forall_forall.
    intros q Hq. rewrite H1, list_elem_of_In, List.filter_In, <- list_elem_of_In in Hq. apply Hle, Hq.
  - assert (forall q, q ∈ heap -> at_document d q = false) as Hno.
    { intros q Hq. apply Z.eqb_neq. pose proof (Hd p) as Hdp. rewrite Hperm in Hq, Hdp.
      specialize (Hdp (list_elem_of_here _ _)). apply elem_of_cons in Hq as [->|Hq]; [done|].
      specialize (Hle q Hq). unfold le_b, posting_key in Hle. rewrite cmp_prod in Hle.
      unfold cmp at 1, Ord_Z in Hle. destruct (Z.compare_spec (posting_document_id p) (posting_document_id q)); simpl in Hle; [lia|lia|done]. }
    assert (List.filter (at_document d) heap = []) as ->.
    { clear -Hno. induction heap as [|q heap IH]; [done|]. simpl. rewrite Hno by apply list_elem_of_here.
      apply IH. intros r Hr. apply Hno. by right. }
    assert (List.filter (fun q => negb (at_document d q)) heap = heap) as ->.
    { clear -Hno. induction heap as [|q heap IH]; [done|]. simpl. rewrite Hno by apply list_elem_of_here.
      simpl. f_equal. apply IH. intros r Hr. apply Hno. by right. }
    split_and!; [done|done|constructor].
Qed.

(** The heads of lists that are at document [d], in the order of the lists. *)
Lemma heads_at_sorted d i (cs : list (list (Z * Z))) :
  SortedBy (fun x y => le_b (posting_key x) (posting_key y)) (List.filter (at_document d) (posting_heads i cs)) /\
  NoDup (posting_key <$> List.filter (at_document d) (posting_heads i cs)) /\
  forall p, p ∈ List.filter (at_document d) (posting_heads i cs) -> posting_document_id p = d /\ i <= cursor_index p.
Proof.
  revert i. induction cs as [|c cs IH]; intros i; cbn [heads].
  { split_and!; [constructor|constructor|by intros p ?%elem_of_nil]. }
  destruct (IH (S i)) as (Hs & Hn & Hp). rewrite List.filter_app.
  destruct c as [|[d' n] c]; cbn [head_item List.filter app].
  { split_and!; [done|done|]. intros p Hin. destruct (Hp p Hin). split; [done|lia]. }
  destruct (at_document d (posting_item i (d', n))) eqn:Ed; cbn [app].
  2: { split_and!; [done|done|]. intros p Hin. destruct (Hp p Hin). split; [done|lia]. }
  apply Z.eqb_eq in Ed. simpl in Ed. subst d'. split_and!.
  - constructor; [done|]. rewrite Forall_forall. intros p Hin. destruct (Hp p Hin) as [Hd Hi].
    unfold posting_key, le_b. rewrite cmp_prod. simpl. rewrite Hd. unfold cmp at 1, Ord_Z.
    rewrite Z.compare_refl. simpl. unfold cmp, Ord_nat. destruct (Nat.compare_spec i (cursor_index p)); (done || lia).
  - rewrite fmap_cons, NoDup_cons. split; [|done]. intros (p & Hk & Hin)%list_elem_of_fmap.
    destruct (Hp p Hin) as [_ Hi]. injection Hk as _ Hk. simpl in Hk. lia.
  - intros p [->|Hin]%elem_of_cons; [split; [done|simpl; lia]|]. destruct (Hp p Hin). split; [done|lia].
Qed.

(** ** Scoring one document *)
(** A list at document [d] moves on. *)
Definition advanced (d : Z) (h : f64 * list (Z * Z)) : f64 * list (Z * Z) :=
  match h.2 with
  | p :: ps => if (p.1 =? d)%Z then (h.1, ps) else h
  | [] => h
  end.

(** The head of a list, where it is document [d], is added to the score. *)
Definition add_head (length : Z) (average : f64) (d : Z) (s : f64) (h : f64 * list (Z * Z)) : f64 :=
  match h.2 with
  | p :: _ => if (p.1 =? d)%Z then f64_add s (bm25_term_score p.2 length average h.1) else s
  | [] => s
  end.

Section score.
Context `{SearchCodecs, CharTables, Libm} {E : abort -> Prop}.
Context (length_d : Z) (average : f64) (d : Z).

(** The lists [pre] have been dealt with, the lists [post] are to come. *)
Definition scoring (st : SearchState) (pre post : list (f64 * list (Z * Z))) : Prop :=
  Forall2 cursor_reads (cursors st) ((loaded ∘ advanced d <$> pre) ++ (loaded <$> post)) /\
  posting_heap st ≡ₚ posting_heads 0 ((snd ∘ advanced d) <$> pre) ++
    List.filter (fun p => negb (at_document d p)) (posting_heads (length pre) (snd <$> post)).

Lemma wp_score_posting st pre h ps post p s w (Q : f64 * SearchState -> World -> Prop) :
  scoring st pre (h :: post) -> h.2 = p :: ps -> (p.1 =? d)%Z = true ->
  (forall st', scoring st' (pre ++ [h]) post -> Q (add_head length_d average d s h, st') w) ->
  wp (score_posting length_d average (s, st) (posting_item (length pre) p)) w E Q.
Proof.
  intros [Hc Hh] Hps Hd HQ. unfold score_posting. cbn [snd fst cursor_index posting_item].
  assert (length (loaded ∘ advanced d <$> pre) = length pre) as Hlen by apply length_fmap.
  destruct (Forall2_lookup_r _ _ _ (length pre) (loaded h) Hc) as (c & Hlc & Hcr).
  { rewrite fmap_cons, list_lookup_middle by done. done. }
  rewrite Hlc. apply wp_bind. eapply (wp_advance_cursor st c (h.1, ps)); [exact Hlc| |].
  { destruct Hcr as (? & ? & ?). unfold loaded in *. rewrite Hps in *. by split_and!. }
  intros st' c' Hc' Hcs' Hheap. apply wp_ret.
  assert (advanced d h = (h.1, ps)) as Hadv by (unfold advanced; by rewrite Hps, Hd).
  replace (f64_add s _) with (add_head length_d average d s h).
  2: { unfold add_head. rewrite Hps, Hd. destruct Hcr as [-> _]. done. }
  apply HQ. split.
  - rewrite Hcs', fmap_app, <- app_assoc. cbn [fmap list_fmap app].
    replace ((loaded ∘ advanced d <$> pre) ++ (loaded ∘ advanced d) h :: list_fmap _ _ loaded post)
      with (<[length pre := loaded (advanced d h)]> ((loaded ∘ advanced d <$> pre) ++ (loaded <$> h :: post))).
    { apply Forall2_insert; [done|]. by rewrite Hadv. }
    rewrite insert_app_r_alt by lia. by rewrite Hlen, Nat.sub_diag.
  - rewrite Hheap. cbn [snd]. rewrite Hh, fmap_app, heads_app, length_fmap, length_app.
    cbn [fmap list_fmap heads]. rewrite Nat.add_0_l, app_nil_r. unfold compose at 3. rewrite Hadv. cbn [snd].
    rewrite Hps. cbn [head_item List.filter app]. unfold at_document at 1. cbn [posting_document_id posting_item].
    rewrite Hd. cbn [negb length]. rewrite Nat.add_1_r. cbn [heads].
    rewrite !app_assoc. apply Permutation_app_tail, Permutation_app_comm.
Qed.

(** A list that is not at document [d] is passed over. *)
Lemma scoring_skip st pre h post :
  scoring st pre (h :: post) -> (forall p ps, h.2 = p :: ps -> (p.1 =? d)%Z = false) ->
  scoring st (pre ++ [h]) post.
Proof.
  intros [Hc Hh] Hne.
  assert (advanced d h = h) as Hadv.
  { unfold advanced. destruct (h.2) as [|p ps] eqn:Eh; [done|]. by rewrite (Hne p ps eq_refl). }
  split.
  - rewrite fmap_app, <- app_assoc. cbn [fmap list_fmap app]. unfold compose at 2. by rewrite Hadv.
  - rewrite Hh, fmap_app, heads_app, length_fmap, length_app. cbn [fmap list_fmap heads length].
    rewrite Nat.add_0_l, app_nil_r, Nat.add_1_r, <- app_assoc. unfold compose at 3. rewrite Hadv.
    apply Permutation_app_head. rewrite List.filter_app. apply Permutation_app_tail.
    destruct (h.2) as [|p ps] eqn:Eh; [done|]. cbn [head_item List.filter]. unfold at_document.
    cbn [posting_document_id posting_item]. by rewrite (Hne p ps eq_refl).
Qed.

Lemma wp_score_all post pre st s w (Q : f64 * SearchState -> World -> Prop) :
  scoring st pre post ->
  (forall st', searching st' (advanced d <$> pre ++ post) ->
     Q (fold_left (add_head length_d average d) post s, st') w) ->
  wp (io_fold (score_posting length_d average) (s, st)
        (List.filter (at_document d) (posting_heads (length pre) (snd <$> post)))) w E Q.
Proof.
  revert pre st s. induction post as [|h post IH]; intros pre st s Hsc HQ.
  - simpl. apply wp_ret. apply HQ. rewrite app_nil_r. destruct Hsc as [Hc Hh].
    simpl in Hh. rewrite !app_nil_r in *. split.
    + rewrite list_fmap_compose in Hc. by rewrite Forall2_fmap_r in Hc.
    + by rewrite <- list_fmap_compose.
  - cbn [fmap list_fmap heads]. rewrite List.filter_app.
    replace (pre ++ h :: post) with ((pre ++ [h]) ++ post) in HQ by (by rewrite <- app_assoc).
    assert (S (length pre) = length (pre ++ [h])) as Hl by (rewrite length_app; simpl; lia).
    rewrite Hl. destruct (h.2) as [|p ps] eqn:Eh.
    + cbn [head_item List.filter app]. apply IH; [apply scoring_skip; [done|]; by rewrite Eh|].
      intros st' Hst'. specialize (HQ st' Hst'). cbn [fold_left] in HQ. unfold add_head at 2 in HQ.
      by rewrite Eh in HQ.
    + cbn [head_item List.filter app]. destruct (at_document d (posting_item (length pre) p)) eqn:Ed.
      * cbn [app io_fold]. apply wp_bind. eapply wp_score_posting; [exact Hsc|exact Eh|exact Ed|].
        intros st' Hsc'. by apply IH.
      * apply IH; [apply scoring_skip; [done|]; rewrite Eh; by intros ? ? [= <- <-]|].
        intros st' Hst'. specialize (HQ st' Hst'). cbn [fold_left] in HQ. unfold add_head at 2 in HQ.
        rewrite Eh in HQ. unfold at_document in Ed. cbn [posting_document_id posting_item] in Ed.
        by rewrite Ed in HQ.
Qed.
End score.
