(* ===== verification/SearchLoop.v ===== *)
(** * The ranking loop, and a search against its specification

    [rank_documents] takes the postings of the query's terms document by document; after
    the documents below [lo] the cursors hold the postings from [lo] on, and the bounded
    list holds what [retain_best] makes of the candidates below [lo].  So over files that
    can be read as an index, with metadata that describes them, [search] gives the
    specified ranking. *)
From S2P Require Import Prelude Order Text Bytes Float64 Json Protocol Disk SearchModel SearchBuild SearchCodec SearchRead SearchIndex SearchWrite SearchRank.

(** ** Postings from a document on *)
Definition from (lo : Z) (ps : list (Z * Z)) : list (Z * Z) :=
  List.filter (fun p => lo <=? p.1)%Z ps.
Definition hits_from (lo : Z) (hits : list (f64 * list (Z * Z))) : list (f64 * list (Z * Z)) :=
  (fun h => (h.1, from lo h.2)) <$> hits.

Lemma elem_of_from lo ps p : p ∈ from lo ps <-> p ∈ ps /\ (lo <= p.1)%Z.
Proof. unfold from. by rewrite !list_elem_of_In, List.filter_In, Z.leb_le. Qed.

Lemma from_all lo ps : (forall p, p ∈ ps -> (lo <= p.1)%Z) -> from lo ps = ps.
Proof.
  induction ps as [|p ps IH]; intros Hp; [done|]. unfold from. simpl.
  assert (lo <= p.1)%Z as Hle by (apply Hp, list_elem_of_here). apply Z.leb_le in Hle as ->.
  f_equal. apply IH. intros q Hq. apply Hp. by right.
Qed.

Section from.
Context (d lo : Z) (Hlo : (lo <= d)%Z).

Lemma sorted_above (p : Z * Z) ps q :
  StrictlySorted (fst <$> p :: ps) -> q ∈ ps -> (p.1 < q.1)%Z.
Proof.
  intros Hs Hq. rewrite fmap_cons in Hs. inversion Hs as [|? ? _ Hall]; subst. rewrite Forall_forall in Hall.
  specialize (Hall q.1 (list_elem_of_fmap_2 _ _ _ Hq)). unfold lt_b, cmp, Ord_Z in Hall.
  by destruct (Z.compare_spec p.1 q.1).
Qed.

Lemma sorted_tail (p : Z * Z) ps : StrictlySorted (fst <$> p :: ps) -> StrictlySorted (fst <$> ps).
Proof. rewrite fmap_cons. by inversion 1. Qed.

(** Where no posting from [lo] on is below [d], advancing gives the postings behind [d]. *)
Lemma advanced_from idf ps :
  StrictlySorted (fst <$> ps) -> (forall p, p ∈ from lo ps -> (d <= p.1)%Z) ->
  advanced d (idf, from lo ps) = (idf, from (d + 1) ps).
Proof.
  intros Hs Hd. induction ps as [|p ps IH]; [done|]. pose proof (fun q => sorted_above p ps q Hs) as Habove.
  unfold from in *. simpl in *. destruct (Z.leb_spec lo p.1) as [Hle|Hlt].
  - assert (d <= p.1)%Z as Hdp by (apply Hd, list_elem_of_here). unfold advanced. cbn [snd fst].
    fold (from lo ps) (from (d + 1) ps). rewrite (from_all lo ps).
    2: { intros q Hq. specialize (Habove q Hq). lia. }
    destruct (Z.eqb_spec p.1 d) as [Heq|Hne].
    + destruct (Z.leb_spec (d + 1) p.1); [lia|]. rewrite from_all; [done|].
      intros q Hq. specialize (Habove q Hq). lia.
    + destruct (Z.leb_spec (d + 1) p.1); [|lia]. rewrite from_all; [done|].
      intros q Hq. specialize (Habove q Hq). lia.
  - destruct (Z.leb_spec (d + 1) p.1); [lia|]. apply IH; [by eapply sorted_tail|done].
Qed.

Lemma frequency_from ps :
  StrictlySorted (fst <$> ps) -> (forall p, p ∈ from lo ps -> (d <= p.1)%Z) ->
  frequency_in ps d = match from lo ps with p :: _ => if (p.1 =? d)%Z then Some p.2 else None | [] => None end.
Proof.
  intros Hs Hd. induction ps as [|p ps IH]; [done|]. pose proof (fun q => sorted_above p ps q Hs) as Habove.
  unfold from, frequency_in in *. simpl in *. destruct (Z.leb_spec lo p.1) as [Hle|Hlt].
  - assert (d <= p.1)%Z as Hdp by (apply Hd, list_elem_of_here).
    destruct (Z.eqb_spec p.1 d) as [Heq|Hne]; [done|].
    destruct (find _ ps) as [q|] eqn:Ef; [|done]. apply find_some in Ef as [Hin Hq].
    apply list_elem_of_In in Hin. specialize (Habove q Hin). apply Z.eqb_eq in Hq. lia.
  - destruct (Z.eqb_spec p.1 d); [lia|]. apply IH; [by eapply sorted_tail|done].
Qed.

Lemma add_head_from `{Libm} len average s idf ps :
  StrictlySorted (fst <$> ps) -> (forall p, p ∈ from lo ps -> (d <= p.1)%Z) ->
  add_head len average d s (idf, from lo ps) = add_hit len average d s (idf, ps).
Proof.
  intros Hs Hd. unfold add_head, add_hit. cbn [fst snd]. rewrite (frequency_from ps) by done.
  destruct (from lo ps) as [|p ?]; [done|]. by destruct (p.1 =? d)%Z.
Qed.
End from.

(** Every posting list of a query is sorted, and names documents of the index. *)
Definition hits_wf (n : nat) (hits : list (f64 * list (Z * Z))) : Prop :=
  Forall (fun h => StrictlySorted (fst <$> h.2) /\ forall p, p ∈ h.2 -> (0 <= p.1 < Z.of_nat n)%Z) hits.

(** No posting is in between [lo] and [d]. *)
Definition gap (lo d : Z) (hits : list (f64 * list (Z * Z))) : Prop :=
  Forall (fun h => forall p, p ∈ from lo h.2 -> (d <= p.1)%Z) hits.

Lemma advanced_hits lo d n hits :
  (lo <= d)%Z -> hits_wf n hits -> gap lo d hits -> advanced d <$> hits_from lo hits = hits_from (d + 1) hits.
Proof.
  intros Hlo Hwf Hgap. induction Hwf as [|h hits [Hs _] _ IH]; [done|].
  inversion Hgap as [|? ? Hh Hg]; subst. unfold hits_from in *. rewrite !fmap_cons, IH by done.
  f_equal. by apply advanced_from.
Qed.

Lemma score_hits `{Libm} lo d n hits len average :
  (lo <= d)%Z -> hits_wf n hits -> gap lo d hits ->
  fold_left (add_head len average d) (hits_from lo hits) f64_zero = document_score hits average d len.
Proof.
  unfold document_score. generalize f64_zero. intros s Hlo Hwf Hgap. revert s.
  induction Hwf as [|[idf ps] hits [Hs _] _ IH]; intros s; [done|]. inversion Hgap as [|? ? Hh Hg]; subst.
  unfold hits_from in *. rewrite fmap_cons. cbn [fold_left fst snd]. rewrite add_head_from by done. by apply IH.
Qed.

Lemma is_hit_iff d h : is_hit d h = true <-> exists n, (d, n) ∈ h.2 /\ frequency_in h.2 d = Some n.
Proof.
  unfold is_hit, frequency_in. destruct (find _ h.2) as [[d' n]|] eqn:Ef; simpl.
  - apply find_some in Ef as [Hin Hd]. apply Z.eqb_eq in Hd. simpl in Hd. subst d'.
    apply list_elem_of_In in Hin. split; [|done]. by exists n.
  - split; [done|]. by intros (n & _ & [=]).
Qed.

(** ** Candidates from a document on *)
Section candidates.
Context `{Libm} (hits : list (f64 * list (Z * Z))) (average : f64) (layer : SearchLayer)
  (docs : list (SearchDocument * Z)).

Definition candidates_from (lo : nat) : list Candidate :=
  concat (imap (fun i => candidate_at hits average layer (lo + i)) (drop lo docs)).

Lemma candidates_step i x :
  docs !! i = Some x ->
  candidates_from i = candidate_at hits average layer i x ++ candidates_from (S i).
Proof.
  intros Hi. unfold candidates_from. rewrite (drop_S _ _ _ Hi), imap_cons, Nat.add_0_r. simpl. f_equal. f_equal.
  apply imap_ext. intros j y _. simpl. by rewrite Nat.add_succ_r.
Qed.

Lemma candidates_end i : length docs <= i -> candidates_from i = [].
Proof. intros Hi. unfold candidates_from. by rewrite drop_ge. Qed.

Lemma candidate_none lo d i x :
  gap lo d hits -> (lo <= Z.of_nat i < d)%Z -> candidate_at hits average layer i x = [].
Proof.
  intros Hgap Hi. unfold candidate_at. destruct (existsb _ _) eqn:Eh; [|done].
  apply existsb_exists in Eh as (h & Hin & (n & Hp & _)%is_hit_iff). apply list_elem_of_In in Hin.
  unfold gap in Hgap. rewrite Forall_forall in Hgap. specialize (Hgap h Hin (Z.of_nat i, n)). simpl in Hgap.
  rewrite elem_of_from in Hgap. simpl in Hgap. destruct Hi as [Hi1 Hi2]. specialize (Hgap (conj Hp Hi1)). lia.
Qed.

Lemma candidates_skip lo d :
  gap (Z.of_nat lo) (Z.of_nat d) hits -> lo <= d -> d <= length docs ->
  candidates_from lo = candidates_from d.
Proof.
  intros Hgap Hle Hd. remember (d - lo) as k eqn:Hk. revert lo Hgap Hle Hk.
  induction k as [|k IH]; intros lo Hgap Hle Hk; [by replace d with lo by lia|].
  destruct (lookup_lt_is_Some_2 docs lo) as [x Hx]; [lia|].
  rewrite (candidates_step lo x Hx), (candidate_none (Z.of_nat lo) (Z.of_nat d)) by (done || lia).
  apply IH; [|lia..]. unfold gap in *. eapply Forall_impl; [exact Hgap|]. intros h Hh p Hp.
  apply Hh. rewrite elem_of_from in *. destruct Hp. split; [done|lia].
Qed.
End candidates.

(** ** Fuel: every round takes at least one posting *)
Definition postings_left (lo : Z) (hits : list (f64 * list (Z * Z))) : nat :=
  sum_list ((fun h => length (from lo h.2)) <$> hits).

Lemma from_length_le lo d ps : (lo <= d)%Z -> length (from d ps) <= length (from lo ps).
Proof.
  intros Hle. unfold from. induction ps as [|p ps IH]; simpl; [done|].
  destruct (Z.leb_spec d p.1), (Z.leb_spec lo p.1); simpl; lia.
Qed.

Lemma from_length_lt d ps n : (d, n) ∈ ps -> length (from (d + 1) ps) < length (from d ps).
Proof.
  intros Hin. unfold from. induction ps as [|p ps IH]; [by apply elem_of_nil in Hin|].
  pose proof (from_length_le d (d + 1) ps ltac:(lia)) as Hle. unfold from in Hle. simpl.
  apply elem_of_cons in Hin as [<-|Hin].
  - simpl. destruct (Z.leb_spec (d + 1) d), (Z.leb_spec d d); simpl; lia.
  - specialize (IH Hin). destruct (Z.leb_spec (d + 1) p.1), (Z.leb_spec d p.1); simpl; lia.
Qed.

Lemma postings_left_step lo d hits h n :
  (lo <= d)%Z -> h ∈ hits -> (d, n) ∈ h.2 -> postings_left (d + 1) hits < postings_left lo hits.
Proof.
  intros Hle Hh Hp. unfold postings_left. induction hits as [|h' hits IH]; [by apply elem_of_nil in Hh|].
  rewrite !fmap_cons. simpl. pose proof (from_length_le lo (d + 1) h'.2 ltac:(lia)).
  assert (postings_left (d + 1) hits <= postings_left lo hits) as Hrest.
  { clear -Hle. unfold postings_left. induction hits as [|h hits IH]; [done|]. rewrite !fmap_cons. simpl.
    pose proof (from_length_le lo (d + 1) h.2 ltac:(lia)). lia. }
  unfold postings_left in Hrest. apply elem_of_cons in Hh as [->|Hh].
  - pose proof (from_length_lt d h'.2 n Hp). pose proof (from_length_le lo d h'.2 Hle). lia.
  - specialize (IH Hh). lia.
Qed.

Lemma rank_fuel_left lo hits st :
  searching st (hits_from lo hits) -> postings_left lo hits < rank_fuel st.
Proof.
  intros [Hc Hh]. unfold rank_fuel. rewrite (Permutation_length Hh).
  assert (forall i, postings_left lo hits = length (posting_heads i (snd <$> hits_from lo hits)) +
    sum_list ((fun c => Z.to_nat (remaining c)) <$> cursors st)) as Hl; [|rewrite (Hl 0); lia].
  clear Hh. revert Hc. generalize (cursors st). intros cs Hc.
  unfold hits_from, postings_left in *. remember (_ <$> hits) as hs eqn:Ehs in Hc. revert hits Ehs.
  induction Hc as [|c h cs hs (_ & Hr & _) _ IH]; intros hits Ehs i.
  { symmetry in Ehs. by apply fmap_nil_inv in Ehs as ->. }
  destruct hits as [|h0 hits]; [done|]. rewrite fmap_cons in Ehs. injection Ehs as -> ->.
  rewrite !fmap_cons. cbn [heads]. rewrite length_app. simpl. specialize (IH hits eq_refl (S i)).
  rewrite IH, Hr. unfold loaded. cbn [fst snd]. destruct (from lo h0.2); simpl; lia.
Qed.

(** ** One round *)
Lemma elem_of_posting_heads lo hits p :
  p ∈ posting_heads 0 (snd <$> hits_from lo hits) ->
  exists h, h ∈ hits /\ (posting_document_id p, posting_term_frequency p) ∈ from lo h.2.
Proof.
  intros (pre & x & c & post & Heq & ->)%elem_of_heads. unfold hits_from in Heq.
  rewrite <- list_fmap_compose in Heq.
  assert (x :: c ∈ (snd ∘ (fun h => (h.1, from lo h.2)) <$> hits)) as (h & Hx & Hin)%list_elem_of_fmap.
  { rewrite Heq. apply elem_of_app. right. apply list_elem_of_here. }
  exists h. split; [done|]. simpl in *. rewrite <- Hx. destruct x. apply list_elem_of_here.
Qed.

(** The smallest head is at the first document that is left. *)
Lemma first_gap lo hits n first rest :
  hits_wf n hits -> posting_heads 0 (snd <$> hits_from lo hits) ≡ₚ first :: rest ->
  (forall y, y ∈ rest -> le_b (posting_key first) (posting_key y) = true) ->
  gap lo (posting_document_id first) hits.
Proof.
  intros Hwf Hperm Hle. unfold gap. rewrite Forall_forall. intros h Hh p Hp.
  unfold hits_wf in Hwf. rewrite Forall_forall in Hwf. destruct (Hwf h Hh) as [Hs _].
  apply list_elem_of_split in Hh as (pre & post & ->).
  destruct (from lo h.2) as [|x c] eqn:Ef; [by apply elem_of_nil in Hp|].
  assert (x.1 <= p.1)%Z as Hxp.
  { apply elem_of_cons in Hp as [->|Hp]; [done|].
    assert (StrictlySorted (fst <$> x :: c)) as Hs'.
    { rewrite <- Ef. clear -Hs. unfold from. induction h.2 as [|q qs IH]; [constructor|].
      pose proof (fun p => sorted_above q qs p Hs) as Habove. apply sorted_tail in Hs. simpl.
      destruct (lo <=? q.1)%Z; [|by apply IH]. rewrite fmap_cons. constructor; [by apply IH|].
      rewrite Forall_forall. intros z (r & -> & Hr)%list_elem_of_fmap.
      rewrite list_elem_of_In, List.filter_In, <- list_elem_of_In in Hr. destruct Hr as [Hr _].
      specialize (Habove r Hr). unfold lt_b, cmp, Ord_Z.
      destruct (Z.compare_spec q.1 r.1); (done || lia). }
    pose proof (sorted_above x c p Hs' Hp). lia. }
  assert (posting_item (length (snd <$> hits_from lo pre)) x ∈ first :: rest) as Hin.
  { rewrite <- Hperm. apply elem_of_heads. exists (snd <$> hits_from lo pre), x, c, (snd <$> hits_from lo post).
    split; [|done]. unfold hits_from. rewrite !fmap_app, !fmap_cons. cbn [snd]. by rewrite Ef. }
  apply elem_of_cons in Hin as [<-|Hin]; [done|]. specialize (Hle _ Hin).
  unfold le_b, posting_key in Hle. rewrite cmp_prod in Hle. cbn [fst snd posting_document_id posting_item] in Hle.
  unfold cmp at 1, Ord_Z in Hle. destruct (Z.compare_spec (posting_document_id first) x.1); simpl in Hle; (lia || done).
Qed.

(** The popped postings of a document are its heads, in the order of the lists. *)
Lemma popped_heads d cs first rest others :
  posting_heads 0 cs ≡ₚ first :: rest -> posting_document_id first = d ->
  (forall y, y ∈ rest -> le_b (posting_key first) (posting_key y) = true) ->
  others ≡ₚ List.filter (at_document d) rest ->
  SortedBy (fun x y => le_b (posting_key x) (posting_key y)) others ->
  first :: others = List.filter (at_document d) (posting_heads 0 cs).
Proof.
  intros Hperm Hd Hle Ho Hs. destruct (heads_at_sorted d 0 cs) as (Hs' & Hn & _).
  assert (first :: others ≡ₚ List.filter (at_document d) (posting_heads 0 cs)) as Hp.
  { rewrite (filter_perm _ _ _ Hperm). simpl. assert (at_document d first = true) as -> by (by apply Z.eqb_eq).
    by rewrite Ho. }
  rewrite <- (sort_by_key_id posting_key (List.filter _ _)) by done.
  rewrite <- (sort_by_key_id posting_key (first :: others)).
  - apply sort_by_key_perm_eq; [|done]. by rewrite Hp.
  - constructor; [done|]. rewrite Forall_forall. intros y Hy. apply Hle. rewrite Ho in Hy.
    rewrite list_elem_of_In, List.filter_In, <- list_elem_of_In in Hy. by destruct Hy.
Qed.

(** ** The loop *)
Section loop.
Context `{SearchCodecs, CharTables, Libm} {E : abort -> Prop}.
Context (docs : list (SearchDocument * Z)) (lengths : list Z) (average : f64) (layer : SearchLayer)
  (limit : Z) (hits : list (f64 * list (Z * Z))).
Context (Hwf : hits_wf (length docs) hits).
Context (Hstat : forall i x, docs !! i = Some x ->
  read_document_stat_at lengths header_bytes (Z.of_nat i)
  = Ok {| stat_length := x.2; stat_index_order := doc_index_order x.1; stat_layer := doc_layer x.1 |}).

Abbreviation keep := (fold_left (fun best c => retain_best best c limit)).

Lemma no_heads lo :
  posting_heads 0 (snd <$> hits_from lo hits) = [] -> gap lo (Z.of_nat (length docs)) hits.
Proof.
  intros Hnil. apply heads_nil in Hnil. unfold gap. rewrite Forall_forall. intros h Hh p Hp.
  exfalso. apply (not_elem_of_nil p). rewrite <- Hnil. apply list_elem_of_In, in_concat.
  exists (from lo h.2). rewrite <- !list_elem_of_In. split; [|done]. apply list_elem_of_fmap.
  exists (h.1, from lo h.2). split; [done|]. unfold hits_from. apply list_elem_of_fmap. by exists h.
Qed.

Lemma candidate_hit h i x n :
  h ∈ hits -> (Z.of_nat i, n) ∈ h.2 ->
  candidate_at hits average layer i x =
    if decide (doc_layer x.1 = layer) then
      [{| cand_document_id := Z.of_nat i; cand_index_order := doc_index_order x.1;
          cand_score := round6 (document_score hits average (Z.of_nat i) x.2) |}]
    else [].
Proof.
  intros Hh Hn. unfold candidate_at. assert (existsb (is_hit (Z.of_nat i)) hits = true) as ->.
  { apply existsb_exists. exists h. split; [by apply list_elem_of_In|]. unfold is_hit, frequency_in.
    destruct (find _ h.2) eqn:Ef; [done|]. eapply find_none in Ef; [|by apply list_elem_of_In].
    simpl in Ef. by rewrite Z.eqb_refl in Ef. }
  by case_bool_decide; case_decide.
Qed.

Lemma wp_rank_documents fuel lo st best w (Q : list Candidate -> World -> Prop) :
  searching st (hits_from (Z.of_nat lo) hits) -> postings_left (Z.of_nat lo) hits < fuel ->
  lo <= length docs ->
  Q (keep (candidates_from hits average layer docs lo) best) w ->
  wp (rank_documents fuel lengths average layer limit best st) w E Q.
Proof.
  revert lo st best. induction fuel as [|fuel IH]; intros lo st best Hst Hfuel Hlo HQ; [lia|].
  cbn [rank_documents]. pose proof (proj2 Hst) as Hh.
  destruct (heap_pop heap_posting_cmp (posting_heap st)) as [[first heap]|] eqn:Epop.
  2: { apply heap_pop_None in Epop. rewrite Epop in Hh. apply Permutation_nil_l in Hh.
       apply wp_ret. rewrite (candidates_skip hits average layer docs lo (length docs)) in HQ by
         (done || by apply no_heads). by rewrite candidates_end in HQ. }
  pose proof (heap_pop_Some heap_posting_cmp posting_key (fun _ _ => eq_refl) _ _ _ Epop) as [Hperm Hmin].
  assert (posting_heads 0 (snd <$> hits_from (Z.of_nat lo) hits) ≡ₚ first :: heap) as Hheads by (by rewrite <- Hh).
  pose proof (first_gap _ _ _ _ _ Hwf Hheads Hmin) as Hgap.
  destruct (elem_of_posting_heads (Z.of_nat lo) hits first) as (h & Hin & (Hp & Hge)%elem_of_from).
  { rewrite Hheads. apply list_elem_of_here. }
  simpl in Hge. unfold hits_wf in Hwf. assert (exists i, posting_document_id first = Z.of_nat i /\ i < length docs) as (i & Hi & Hid).
  { rewrite Forall_forall in Hwf. destruct (Hwf h Hin) as [_ Hr]. specialize (Hr _ Hp). simpl in Hr.
    exists (Z.to_nat (posting_document_id first)). lia. }
  destruct (lookup_lt_is_Some_2 docs i Hid) as [x Hx]. rewrite Hi in *.
  pose proof (pop_document_spec (length heap) (Z.of_nat i) heap) as Hpop.
  destruct (pop_document (length heap) (Z.of_nat i) heap) as [others rest].
  destruct Hpop as (Ho & Hr & Hs); [|done|].
  { intros y Hy. specialize (Hmin y Hy). unfold le_b, posting_key in Hmin. rewrite cmp_prod in Hmin.
    rewrite Hi in Hmin. cbn [fst] in Hmin. unfold cmp at 1, Ord_Z in Hmin.
    destruct (Z.compare_spec (Z.of_nat i) (posting_document_id y)); simpl in Hmin; (lia || done). }
  apply wp_bind. eapply wp_try; [by apply Hstat|]. cbn [stat_length stat_index_order stat_layer].
  rewrite (popped_heads _ _ _ _ _ Hheads Hi Hmin Ho Hs). apply wp_bind.
  apply (wp_score_all _ _ _ (hits_from (Z.of_nat lo) hits) []).
  { split; [cbn [cursors fmap list_fmap app]; apply Forall2_fmap_r, (proj1 Hst)|]. simpl. rewrite Hr, (filter_perm _ _ _ Hheads). simpl.
    assert (at_document (Z.of_nat i) first = true) as -> by (by apply Z.eqb_eq). done. }
  intros st' Hst'. simpl in Hst'. rewrite (advanced_hits _ _ (length docs)) in Hst' by done.
  rewrite (score_hits _ _ (length docs)) by done. cbn [fst snd].
  assert (Z.of_nat i + 1 = Z.of_nat (S i))%Z as Hsucc by lia. rewrite Hsucc in Hst'.
  apply (IH (S i)); [done| |lia|].
  { rewrite <- Hsucc. pose proof (postings_left_step (Z.of_nat lo) (Z.of_nat i) hits h _ Hge Hin Hp). lia. }
  rewrite (candidates_skip hits average layer docs lo i), (candidates_step hits average layer docs i x) in HQ by (done || lia).
  rewrite fold_left_app, (candidate_hit h i x _ Hin Hp) in HQ. by case_decide.
Qed.
End loop.

(** At the start nothing has been read. *)
Lemma from_all_hits n hits : hits_wf n hits -> hits_from (Z.of_nat 0) hits = hits.
Proof.
  intros Hwf. unfold hits_from. induction Hwf as [|[idf ps] hits [_ Hp] _ IH]; [done|].
  rewrite fmap_cons, IH. cbn [fst snd] in *. rewrite from_all; [done|]. intros p Hin. apply Hp in Hin. lia.
Qed.


Section valid.
Context `{SearchCodecs}.

(** The metadata of a manifest is that of the sidecars of [db]. *)
Record metadata_valid (db : string) (m : SearchBackendMetadata) (checksums : bool) (w : World) : Prop := {
  mv_backend : backend m = BACKEND_NAME;
  mv_version : Z.of_N (format_version m) = FORMAT_VERSION;
  mv_file : exists bytes file, disk w !! sidecar_path db METADATA_SUFFIX = Some bytes /\
    (Z.of_nat (length bytes) <= MAX_METADATA_BYTES)%Z /\
    decode_metadata bytes = Ok file /\ metadata_matches file m = true;
  mv_sidecars suffix : suffix ∈ SIDECAR_SUFFIXES -> exists bytes digest,
    disk w !! sidecar_path db suffix = Some bytes /\ backend_files m !! suffix = Some digest /\
    (checksums = true -> sha256_hex bytes = digest)
}.

Lemma metadata_valid_weaken db m w : metadata_valid db m true w -> metadata_valid db m false w.
Proof.
  intros [Hb Hv Hf Hs]. split; try done. intros suffix Hin.
  destruct (Hs suffix Hin) as (bytes & digest & ? & ? & _). by exists bytes, digest.
Qed.

Lemma wp_validate_metadata {E : abort -> Prop} db m checksums w (Q : () -> World -> Prop) :
  metadata_valid db m checksums w -> Q tt w -> wp (validate_metadata db m checksums) w E Q.
Proof.
  intros [Hb Hv (bytes & file & Hd & Hl & Hdec & Hm) Hs] HQ. unfold validate_metadata.
  rewrite bool_decide_true by done. rewrite Hv, Z.eqb_refl. cbn [negb andb].
  apply wp_bind. eapply wp_length; [exact Hd|]. destruct (Z.ltb_spec MAX_METADATA_BYTES (Z.of_nat (length bytes))); [lia|].
  apply wp_bind. eapply wp_open; [exact Hd|]. apply wp_bind. eapply wp_try; [exact Hdec|].
  rewrite Hm. cbn [negb]. apply wp_fold with (I := fun _ _ v => v = w); [done| |by intros [] v ->].
  intros [] d suffix rest v Hl' ->. destruct (Hs suffix) as (b & digest & Hb' & Hdig & Hsum).
  { rewrite Hl'. apply elem_of_app. right. apply list_elem_of_here. }
  unfold validate_sidecar. rewrite Hdig. apply wp_bind. eapply wp_try; [reflexivity|].
  apply wp_bind. unfold wp at 1, path_exists. rewrite Hb'. cbn [is_Some_dec negb bool_decide].
  simpl. destruct checksums; [|by apply wp_ret]. apply wp_bind. eapply wp_open; [exact Hb'|].
  rewrite decide_True by auto. by apply wp_ret.
Qed.
End valid.

(** ** The parts of a search *)
Section search.
Context `{SearchCodecs, CharTables, Libm} {E : abort -> Prop}.
Context (db : string) (ix : Index) (w : World).
Context (Hreads : index_reads db ix w) (Hwf : index_wf ix).

(** The entries of the query, with the postings they point to. *)
Lemma wp_find_lexicon_entries terms (Q : gmap string LexiconEntry -> World -> Prop) :
  (forall found postings,
     disk w !! sidecar_path db POSTINGS_SUFFIX = Some postings ->
     Forall2 (entry_reads postings) (btree_values found)
       (base.filter (fun x : string * list (Z * Z) => x.1 ∈ terms) (ix_lexicon ix)) ->
     (found = ∅ <-> btree_values found = []) -> Q found w) ->
  wp (find_lexicon_entries db terms) w E Q.
Proof.
  intros HQ. destruct (ir_lexicon _ _ _ Hreads) as (bytes & rest & postings & es & Hl & Hm & Hp & Hes & Hall).
  unfold find_lexicon_entries. apply wp_bind. eapply wp_open; [exact Hl|].
  apply wp_bind. eapply wp_try; [exact Hm|].
  assert (lex_term <$> es = fst <$> ix_lexicon ix) as Hterms.
  { clear -Hall. induction Hall as [|e x es l (Ht & _) _ IH]; [done|]. by rewrite !fmap_cons, Ht, IH. }
  assert (StrictlySorted (lex_term <$> es)) as Hs by (rewrite Hterms; apply (wf_terms _ Hwf)).
  eapply (wp_find_entries terms _ (last_query_le terms) _ es _ []); [exact Hes|lia|done|..].
  { intros t e. rewrite lookup_empty. split; [done|]. by intros (?%elem_of_nil & _). }
  intros found Hf. simpl in Hf. apply (HQ found postings Hp).
  - rewrite (found_values terms es) by done. clear -Hall.
    induction Hall as [|e x es l He _ IH]; [constructor|]. destruct He as (Ht & He). rewrite !filter_cons, Ht.
    case_decide; [|done]. constructor; [by split|done].
  - rewrite (found_empty terms es), (found_values terms es) by done. done.
Qed.

Lemma query_hits_wf terms : hits_wf (length (ix_docs ix)) (query_hits ix terms).
Proof.
  unfold hits_wf, query_hits. rewrite Forall_forall. intros h ([t ps] & -> & Hin)%list_elem_of_fmap.
  apply list_elem_of_filter in Hin as [_ Hin]. simpl. split; [by eapply (wf_postings _ Hwf)|].
  intros [d n] Hp. by destruct (wf_documents _ Hwf t ps d n Hin Hp).
Qed.

Lemma seek_documents i :
  i < length (ix_docs ix) ->
  offset_position (Z.of_nat i) = Ok (header_bytes + Z.of_nat i * DOCUMENT_OFFSET_BYTES)%Z.
Proof.
  intros Hi. pose proof (wf_size _ Hwf) as Hsize. unfold offset_position, checked_mul_u64, DOCUMENT_STAT_BYTES, DOCUMENT_OFFSET_BYTES, header_bytes in *.
  rewrite decide_True by (unfold u64_max in *; lia). cbn [ok_or result_bind].
  by rewrite (proj2 (checked_add_u64_Some 8 (Z.of_nat i * 8) (8 + Z.of_nat i * 8)))
    by (split; [done|unfold u64_max in *; lia]).
Qed.

(** ** Candidates *)
Lemma elem_of_candidates total terms layer c :
  c ∈ candidates ix total terms layer ->
  exists i x, ix_docs ix !! i = Some x /\ cand_document_id c = Z.of_nat i.
Proof.
  intros (l & Hc & (i & x & -> & Hi)%elem_of_lookup_imap)%elem_of_concat.
  exists i, x. split; [done|]. unfold candidate_at in Hc. destruct (_ && _); [|by apply elem_of_nil in Hc].
  by apply list_elem_of_singleton in Hc as ->.
Qed.

Lemma candidates_numbered total terms layer :
  (forall c, c ∈ candidates ix total terms layer -> is_nan (cand_score c) = false) ->
  numbered (candidates ix total terms layer).
Proof.
  intros Hnan. split; [done|]. clear Hnan. unfold candidates. cbv zeta. generalize (query_hits ix terms).
  generalize (f64_div (f64_of_Z total) (f64_of_Z (Z.of_nat (length (ix_docs ix))))). intros average hits.
  assert (forall k l, NoDup (cand_document_id <$> concat (imap (fun i => candidate_at hits average layer (k + i)) l)) /\
    forall z, z ∈ (cand_document_id <$> concat (imap (fun i => candidate_at hits average layer (k + i)) l)) ->
      (Z.of_nat k <= z)%Z) as Hall; [|by destruct (Hall 0 (ix_docs ix))].
  intros k l. revert k. induction l as [|x l IH]; intros k; [split; [constructor|by intros z ?%elem_of_nil]|].
  rewrite imap_cons, concat_cons, fmap_app, Nat.add_0_r.
  rewrite (imap_ext _ (fun i => candidate_at hits average layer (S k + i))).
  2: { intros i y _. simpl. by rewrite Nat.add_succ_r. }
  destruct (IH (S k)) as [Hn Hge]. unfold candidate_at at 1 3. destruct (_ && _); simpl.
  - split; [|intros z [->|Hz]%elem_of_cons; [done|]; specialize (Hge z Hz); lia].
    apply NoDup_cons. split; [|done]. intros Hz. specialize (Hge _ Hz). lia.
  - split; [done|]. intros z Hz. specialize (Hge z Hz). lia.
Qed.

(** ** Results *)
Lemma wp_read_results offsets documents best (Q : list RankedDocument -> World -> Prop) :
  (forall i x, ix_docs ix !! i = Some x -> exists offset rest,
     read_u64 (seek offsets (header_bytes + Z.of_nat i * DOCUMENT_OFFSET_BYTES)) = Ok (offset, rest) /\
     read_document_at documents offset MAX_DOCUMENT_RECORD_BYTES = Ok x.1) ->
  (forall c, c ∈ best -> exists i x, ix_docs ix !! i = Some x /\ cand_document_id c = Z.of_nat i) ->
  Q (omap (ranked ix) best) w ->
  wp (io_fold (fun results c =>
       r ← io_try (read_result offsets documents c); mret (results ++ [r])) [] best) w E Q.
Proof.
  intros Hdocs Hbest HQ.
  apply wp_fold with (I := fun rs d v => v = w /\ rs = omap (ranked ix) d); [done| |by intros rs v [-> ->]].
  intros rs d c rest v Hl [-> ->]. destruct (Hbest c) as (i & x & Hx & Hc).
  { rewrite Hl. apply elem_of_app. right. apply list_elem_of_here. }
  destruct (Hdocs i x Hx) as (offset & rest' & Ho & Hd). apply wp_bind. eapply wp_try.
  { unfold read_result. rewrite Hc, seek_documents by (by eapply lookup_lt_Some). simpl.
    rewrite Ho. simpl. rewrite Hd. simpl. reflexivity. }
  apply wp_ret. split; [done|]. rewrite omap_app. simpl. unfold ranked. by rewrite Hc, Nat2Z.id, Hx.
Qed.

(** ** The whole search *)
Definition requested (layer : string) : option SearchLayer :=
  if decide (layer = "semantic") then Some Semantic
  else if decide (layer = "syntax") then Some Syntax else None.

Lemma candidates_no_terms total terms layer :
  base.filter (fun x : string * list (Z * Z) => x.1 ∈ terms) (ix_lexicon ix) = [] ->
  candidates ix total terms layer = [].
Proof.
  intros Hnil. unfold candidates, query_hits. rewrite Hnil. cbv zeta.
  apply concat_nil_Forall. rewrite Forall_forall. intros l (i & x & -> & _)%elem_of_lookup_imap. done.
Qed.

Lemma wp_search m query layer l limit (Q : list RankedDocument -> World -> Prop) :
  metadata_valid db m false w ->
  document_count m = N.of_nat (length (ix_docs ix)) -> requested layer = Some l -> (0 <= limit)%Z ->
  (forall c, c ∈ candidates ix (Z.of_N (total_tokens m)) (query_terms query) l -> is_nan (cand_score c) = false) ->
  Q (search_spec ix (Z.of_N (total_tokens m)) (query_terms query) l limit) w ->
  wp (search db m query layer limit) w E Q.
Proof.
  intros Hm Hcount Hlayer Hlimit Hnan HQ. pose proof (candidates_numbered _ _ _ Hnan) as Hnum.
  unfold search, search_spec in *. set (terms := query_terms query) in *. set (total := Z.of_N (total_tokens m)) in *.
  rewrite Hcount, nat_N_Z. cbv zeta.
  destruct (Z.eqb_spec limit 0) as [->|Hl0]; [by apply wp_ret|].
  destruct (Z.eqb_spec (Z.of_nat (length (ix_docs ix))) 0) as [Hd0|Hd0]; cbn [orb].
  { assert (ix_docs ix = []) as Hnil by (apply length_zero_iff_nil; lia).
    apply wp_ret. unfold candidates in HQ. rewrite Hnil in HQ. simpl in HQ. by rewrite take_nil in HQ. }
  apply wp_bind, wp_validate_metadata; [done|]. apply wp_bind. eapply wp_try.
  { instantiate (1 := l). unfold requested_layer, requested in *. repeat case_decide; congruence. }
  destruct (decide (terms = ∅)) as [Hnone|_].
  { apply wp_ret. rewrite candidates_no_terms in HQ; [by simpl in HQ; rewrite take_nil in HQ|].
    rewrite Hnone. clear. induction (ix_lexicon ix) as [|x lx IH]; [done|].
    rewrite filter_cons, decide_False by set_solver. done. }
  apply wp_bind, wp_find_lexicon_entries. intros found postings Hp Hes Hempty.
  destruct (decide (found = ∅)) as [Hnone|_].
  { apply wp_ret. apply Hempty in Hnone. rewrite Hnone in Hes. inversion Hes as [Hnil|]; subst.
    rewrite candidates_no_terms in HQ by done. by simpl in HQ; rewrite take_nil in HQ. }
  apply wp_bind. eapply (wp_open_cursors _ postings _ (query_hits ix terms)); [exact Hp| |].
  { unfold query_hits. apply Forall2_fmap_r. eapply Forall2_impl; [exact Hes|].
    intros e x (_ & Hdf & Hps). simpl. by rewrite Hdf. }
  intros cs Hcs. apply wp_bind. eapply wp_load_cursors; [exact Hcs|]. intros st Hst.
  destruct (ir_documents _ _ _ Hreads) as (offsets & lengths & documents & r1 & r2 & r3 & Ho & Hle & Hdo & M1 & M2 & M3 & Hdocs).
  apply wp_bind. eapply wp_open; [exact Hle|]. apply wp_bind. eapply wp_try; [exact M2|].
  assert (forall i x, ix_docs ix !! i = Some x -> read_document_stat_at lengths header_bytes (Z.of_nat i)
    = Ok {| stat_length := x.2; stat_index_order := doc_index_order x.1; stat_layer := doc_layer x.1 |}) as Hstat.
  { intros i x Hi. by destruct (Hdocs i x Hi). }
  apply wp_bind. eapply (wp_rank_documents (ix_docs ix) _ _ _ _ (query_hits ix terms) (query_hits_wf terms) Hstat _ 0).
  { rewrite (from_all_hits _ _ (query_hits_wf terms)). exact Hst. }
  { apply rank_fuel_left. by rewrite (from_all_hits _ _ (query_hits_wf terms)). }
  { lia. }
  rewrite <- (Z2Nat.id limit) in HQ |- * by done. rewrite Nat2Z.id in HQ.
  assert (candidates_from (query_hits ix terms) (f64_div (f64_of_Z total) (f64_of_Z (Z.of_nat (length (ix_docs ix))))) l
    (ix_docs ix) 0 = candidates ix total terms l) as -> by done.
  rewrite (sort_retained (Z.to_nat limit) (candidates ix total terms l)) by (done || by apply retain_all).
  apply wp_bind. eapply wp_open; [exact Ho|]. apply wp_bind. eapply wp_open; [exact Hdo|].
  apply wp_bind. eapply wp_try; [exact M1|]. apply wp_bind. eapply wp_try; [exact M3|].
  apply wp_read_results; [by intros i x Hi; destruct (Hdocs i x Hi)| |exact HQ].
  intros c Hc. apply (elem_of_candidates total terms l). apply elem_of_take in Hc as (i & Hi & _).
  apply list_elem_of_lookup_2 in Hi. by rewrite elem_of_sort_by in Hi.
Qed.
End search.
