(* ===== verification/SearchValid.v ===== *)
(** * Validation accepts exactly the well-formed indexes

    [index_exact] says that the sidecars of a database are an index: files of the exact
    size, which can be read as documents and as a lexicon in order, whose entries point to
    their postings one behind the other, with documents that exist.  [validate] returns
    if and only if there is such an index. *)
From S2P Require Import Prelude Order Text Bytes Float64 Json Protocol Disk SearchModel SearchBuild SearchCodec SearchRead SearchIndex SearchWrite SearchRank SearchLoop.

(** ** Inverting runs *)
Lemma bind_run {A B} (m : IO A) (k : A -> IO B) w b w' :
  (m ≫= k) w = Ok (b, w') -> exists a w1, m w = Ok (a, w1) /\ k a w1 = Ok (b, w').
Proof. unfold mbind, IO_bind. destruct (m w) as [[a w1]|]; [|done]. by exists a, w1. Qed.

Lemma try_run {A} (r : native_result A) w a w' : io_try r w = Ok (a, w') -> r = Ok a /\ w' = w.
Proof. unfold io_try. destruct r; [|done]. by intros [= <- <-]. Qed.

Lemma open_run p w bytes w' : open_file p w = Ok (bytes, w') -> disk w !! p = Some bytes /\ w' = w.
Proof. unfold open_file. destruct (disk w !! p); [|done]. by intros [= -> <-]. Qed.

Lemma length_run p w n w' :
  file_length p w = Ok (n, w') ->
  exists bytes, disk w !! p = Some bytes /\ n = Z.of_nat (length bytes) /\ w' = w.
Proof. unfold file_length. destruct (disk w !! p) as [bytes|]; [|done]. intros [= <- <-]. by exists bytes. Qed.

Ltac run_bind H :=
  let a := fresh "a" in let w := fresh "w" in let Ha := fresh "Hrun" in
  apply bind_run in H as (a & w & Ha & H).

(** A run that ends is a run. *)
Lemma run_wp {A} (m : IO A) w a w' :
  wp m w (fun _ => False) (fun b v => b = a /\ v = w') -> m w = Ok (a, w').
Proof. unfold wp. destruct (m w) as [[b v]|]; [|done]. by intros [-> ->]. Qed.

(** ** Readers of bytes *)
Abbreviation bytes_ok := (Forall (fun b => 0 <= b < 256)%Z).

Lemma from_le_bound l : bytes_ok l -> (0 <= from_le l < 256 ^ Z.of_nat (length l))%Z.
Proof.
  induction 1 as [|b l Hb _ IH]; [done|]. unfold from_le in *. simpl foldr. simpl length.
  rewrite Nat2Z.inj_succ, Z.pow_succ_r by lia. lia.
Qed.

Lemma read_exact_ok n bytes a rest :
  bytes_ok bytes -> read_exact n bytes = Ok (a, rest) ->
  a = take n bytes /\ rest = drop n bytes /\ length a = n /\ bytes_ok a /\ bytes_ok rest.
Proof.
  unfold read_exact. destruct (Nat.ltb_spec (length bytes) n); [done|]. intros Hok [= <- <-].
  rewrite length_take. split_and!; [done|done|lia|by apply Forall_take|by apply Forall_drop].
Qed.

Lemma read_u64_rest bytes v rest : read_u64 bytes = Ok (v, rest) -> rest = drop 8 bytes.
Proof.
  intros Hr. apply result_bind_Ok in Hr as ([a r] & Ha & [= _ <-]). unfold read_exact in Ha.
  destruct (Nat.ltb _ _); [done|]. by injection Ha as _ <-.
Qed.

Lemma read_u64_ok bytes v rest :
  bytes_ok bytes -> read_u64 bytes = Ok (v, rest) -> (0 <= v)%Z /\ rest = drop 8 bytes /\ bytes_ok rest.
Proof.
  intros Hok Hr. apply result_bind_Ok in Hr as ([a r] & Ha & [= <- <-]).
  apply read_exact_ok in Ha as (_ & -> & _ & Hb & Hr); [|done]. split_and!; [by apply from_le_bound|done|done].
Qed.

Lemma read_u32_ok bytes v rest :
  bytes_ok bytes -> read_u32 bytes = Ok (v, rest) -> (0 <= v)%Z /\ rest = drop 4 bytes /\ bytes_ok rest.
Proof.
  intros Hok Hr. apply result_bind_Ok in Hr as ([a r] & Ha & [= <- <-]).
  apply read_exact_ok in Ha as (_ & -> & _ & Hb & Hr); [|done]. split_and!; [by apply from_le_bound|done|done].
Qed.

Lemma read_entry_ok bytes limit e rest :
  bytes_ok bytes -> read_lexicon_entry bytes limit = Ok (Some (e, rest)) ->
  (0 <= lex_document_frequency e)%Z /\ bytes_ok rest.
Proof.
  intros Hok Hr. unfold read_lexicon_entry, read_optional_u32 in Hr.
  destruct (read_exact 4 bytes) as [[b r]|] eqn:E1; [|done].
  apply read_exact_ok in E1 as (_ & _ & _ & _ & Hb); [|done].
  apply result_bind_Ok in Hr as ([t r1] & Ht & Hr). unfold read_text in Ht.
  destruct (_ <? _)%Z; [done|]. apply result_bind_Ok in Ht as ([x r2] & Hx & Ht).
  apply read_exact_ok in Hx as (_ & _ & _ & _ & Hb2); [|done]. destruct (from_utf8 x); [|done]. injection Ht as <- <-.
  apply result_bind_Ok in Hr as ([o r3] & Ho & Hr). apply read_u64_ok in Ho as (_ & _ & Ho); [|done].
  apply result_bind_Ok in Hr as ([f r4] & Hf & Hr). apply read_u32_ok in Hf as (Hf & _ & Hb4); [|done].
  by injection Hr as <- <-.
Qed.

(** ** Postings *)
(** The documents of [ps] are in order behind [previous], and exist. *)
Definition postings_ok (documents : Z) (previous : option Z) (ps : list (Z * Z)) : Prop :=
  StrictlySorted (fst <$> ps) /\
  forall d n, (d, n) ∈ ps -> (d < documents)%Z /\ n <> 0%Z /\ (forall p, previous = Some p -> (p < d)%Z).

Lemma postings_ok_cons documents previous d n ps :
  postings_ok documents previous ((d, n) :: ps) <->
  (d < documents)%Z /\ n <> 0%Z /\ (forall p, previous = Some p -> (p < d)%Z) /\
  postings_ok documents (Some d) ps.
Proof.
  unfold postings_ok, StrictlySorted. rewrite fmap_cons. split.
  - intros [Hs Hp]. inversion Hs as [|? ? Hs' Hall]; subst. destruct (Hp d n) as (? & ? & ?); [apply list_elem_of_here|].
    split_and!; try done. intros d' n' Hin. destruct (Hp d' n') as (? & ? & ?); [by right|]. split_and!; try done.
    intros p [= <-]. rewrite Forall_forall in Hall. apply lt_b_Z, Hall. change d' with ((d', n').1). by apply list_elem_of_fmap_2.
  - intros (Hd & Hn & Hprev & Hs & Hp). split.
    + constructor; [done|]. rewrite Forall_forall. intros z ([d' n'] & -> & Hin)%list_elem_of_fmap.
      apply lt_b_Z. simpl. by destruct (Hp d' n' Hin) as (_ & _ & Hlt); apply Hlt.
    + intros d' n' [[= -> ->]|Hin]%elem_of_cons; [done|]. destruct (Hp d' n' Hin) as (? & ? & Hlt).
      split_and!; try done. intros p Hpr. specialize (Hprev p Hpr). specialize (Hlt d eq_refl). lia.
Qed.

Lemma validate_postings_iff k documents previous bytes :
  validate_postings k documents previous bytes = Ok tt <->
  exists ps, length ps = k /\ postings_reads bytes ps /\ postings_ok documents previous ps.
Proof.
  revert previous bytes. induction k as [|k IH]; intros previous bytes; cbn [validate_postings].
  - split; [|done]. intros _. exists []. split; [done|]. split; [done|]. split; [constructor|by intros ? ? ?%elem_of_nil].
  - split.
    + intros Hv. apply result_bind_Ok in Hv as ([d r1] & Hd & Hv). apply result_bind_Ok in Hv as ([n r2] & Hn & Hv).
      destruct (Z.leb_spec documents d), (Z.eqb_spec n 0); try done. cbn [orb] in Hv.
      destruct (match previous with Some p => (d <=? p)%Z | None => false end) eqn:Ep; [done|].
      apply IH in Hv as (ps & Hl & Hr & Hok). exists ((d, n) :: ps). split_and!; [simpl; lia|by exists r1, r2|].
      apply postings_ok_cons. split_and!; try done. intros p ->. by apply Z.leb_gt.
    + intros ([|[d n] ps] & Hl & Hr & Hok); [done|]. destruct Hr as (r1 & r2 & Hd & Hn & Hr).
      apply postings_ok_cons in Hok as (Hlt & Hn0 & Hprev & Hok). rewrite Hd. cbn [result_bind]. rewrite Hn. cbn [result_bind].
      destruct (Z.leb_spec documents d), (Z.eqb_spec n 0); try done || lia. cbn [orb].
      assert (match previous with Some p => (d <=? p)%Z | None => false end = false) as ->.
      { destruct previous as [p|]; [|done]. specialize (Hprev p eq_refl). by apply Z.leb_gt. }
      apply IH. exists ps. simpl in Hl. split_and!; [lia|done|done].
Qed.

(** ** The lexicon *)
(** The terms of [lex] are in order behind [previous], its postings in order. *)
Definition lexicon_ok (documents : Z) (previous : option string) (lex : lexicon) : Prop :=
  StrictlySorted (fst <$> lex) /\
  (forall t ps, (t, ps) ∈ lex ->
     postings_ok documents None ps /\ (forall p, previous = Some p -> lt_b p t = true)).

Lemma lexicon_ok_cons documents previous t ps lex :
  lexicon_ok documents previous ((t, ps) :: lex) <->
  (forall p, previous = Some p -> lt_b p t = true) /\ postings_ok documents None ps /\
  lexicon_ok documents (Some t) lex.
Proof.
  unfold lexicon_ok, StrictlySorted. rewrite fmap_cons. split.
  - intros [Hs Hp]. inversion Hs as [|? ? Hs' Hall]; subst. destruct (Hp t ps) as (? & ?); [apply list_elem_of_here|].
    split_and!; try done. intros t' ps' Hin. destruct (Hp t' ps') as (? & ?); [by right|]. split; [done|].
    intros p [= <-]. rewrite Forall_forall in Hall. apply Hall. change t' with ((t', ps').1). by apply list_elem_of_fmap_2.
  - intros (Hprev & Hps & Hs & Hp). split.
    + constructor; [done|]. rewrite Forall_forall. intros z ([t' ps'] & -> & Hin)%list_elem_of_fmap.
      by destruct (Hp t' ps' Hin) as (_ & Hlt); apply Hlt.
    + intros t' ps' [[= -> ->]|Hin]%elem_of_cons; [done|]. destruct (Hp t' ps' Hin) as (? & Hlt).
      split; [done|]. intros p Hpr. eapply lt_b_trans; [by apply Hprev|by apply Hlt].
Qed.

Lemma lt_b_not_le_b {A} `{OrdLaws A} (x y : A) : lt_b x y = true <-> le_b y x = false.
Proof. rewrite lt_b_le_b. by destruct (le_b y x). Qed.

Definition postings_end (offset : Z) (lex : lexicon) : Z :=
  (offset + Z.of_nat (length (all_postings lex)) * POSTING_BYTES)%Z.

Lemma postings_end_cons offset t ps lex :
  postings_end offset ((t, ps) :: lex) = postings_end (offset + Z.of_nat (length ps) * POSTING_BYTES) lex.
Proof. unfold postings_end, all_postings. rewrite fmap_cons, concat_cons, length_app. simpl. lia. Qed.

Section entries.
Context (documents : Z) (postings : list Z) (Hpostings : bytes_ok postings).

(** What the loop has still to read. *)
Record entries_exact (lexicon : list Z) (previous : option string) (offset terms : Z) (lex : SearchIndex.lexicon) : Prop := {
  ee_reads : lexicon_reads lexicon (entries_from offset lex);
  ee_postings : Forall2 (entry_reads postings) (entries_from offset lex) lex;
  ee_ok : lexicon_ok documents previous lex;
  ee_end : (postings_end offset lex <= u64_max)%Z;
  ee_terms : (terms + Z.of_nat (length lex) <= u64_max)%Z
}.

Lemma bytes_seek offset : bytes_ok (seek postings offset).
Proof. by apply Forall_drop. Qed.

Lemma entries_exact_cons bytes previous offset terms t ps lex rest :
  read_lexicon_entry bytes MAX_TERM_BYTES
    = Ok (Some ({| lex_term := t; lex_postings_offset := offset; lex_document_frequency := Z.of_nat (length ps) |}, rest)) ->
  (forall p, previous = Some p -> lt_b p t = true) ->
  postings_reads (seek postings offset) ps -> postings_ok documents None ps ->
  entries_exact rest (Some t) (offset + Z.of_nat (length ps) * POSTING_BYTES) (terms + 1) lex ->
  entries_exact bytes previous offset terms ((t, ps) :: lex).
Proof.
  intros He Hprev Hps Hok [Hr Hp Hl Hend Ht]. split.
  - exists rest. by split.
  - by constructor.
  - by apply lexicon_ok_cons.
  - by rewrite postings_end_cons.
  - change (length ((t, ps) :: lex)) with (S (length lex)). lia.
Qed.

Lemma validate_entries_sound fuel bytes previous offset terms w r w' :
  bytes_ok bytes -> (offset <= u64_max)%Z -> (terms <= u64_max)%Z ->
  validate_entries fuel documents postings bytes previous offset terms w = Ok (r, w') ->
  w' = w /\ exists lex, entries_exact bytes previous offset terms lex /\
    r = (postings_end offset lex, terms + Z.of_nat (length lex))%Z.
Proof.
  revert bytes previous offset terms. induction fuel as [|fuel IH]; intros bytes previous offset terms Hb Ho Ht Hv; [done|].
  cbn [validate_entries] in Hv. run_bind Hv. apply try_run in Hrun as [He ->].
  destruct a as [[e rest]|].
  2: { injection Hv as <- <-. split; [done|]. exists []. split; [|f_equal; unfold postings_end; simpl; lia].
       split; simpl; [done|constructor| |unfold postings_end; simpl; lia|lia].
       split; [constructor|by intros ? ? ?%elem_of_nil]. }
  destruct (match previous with Some t => le_b (lex_term e) t | None => false end) eqn:Ep; [done|].
  destruct (Z.eqb_spec (lex_postings_offset e) offset) as [Heq|]; [|done]. cbn [negb] in Hv.
  destruct (read_entry_ok _ _ _ _ Hb He) as [Hdf Hrest].
  run_bind Hv. apply try_run in Hrun as [Hps ->]. destruct a.
  apply validate_postings_iff in Hps as (ps & Hlen & Hps & Hok).
  run_bind Hv. apply try_run in Hrun as [Hoff ->]. apply ok_or_Ok, checked_add_u64_Some in Hoff as [-> Hoff].
  run_bind Hv. apply try_run in Hrun as [Hts ->]. apply ok_or_Ok, checked_add_u64_Some in Hts as [-> Hts].
  assert (lex_document_frequency e = Z.of_nat (length ps)) as Hdf' by lia. rewrite Hdf' in *.
  apply IH in Hv as (-> & lex & Hlex & ->); [|done..]. split; [done|]. exists ((lex_term e, ps) :: lex). split.
  - eapply entries_exact_cons; [|..|exact Hlex]; [|intros p ->; by apply lt_b_not_le_b|by rewrite <- Heq|done].
    rewrite He. destruct e. simpl in *. by subst.
  - rewrite postings_end_cons. f_equal. change (length ((lex_term e, ps) :: lex)) with (S (length lex)). lia.
Qed.

Lemma postings_end_ge offset lex : (offset <= postings_end offset lex)%Z.
Proof. unfold postings_end, POSTING_BYTES. lia. Qed.

Lemma wp_validate_entries {E : abort -> Prop} fuel bytes previous offset terms lex w (Q : Z * Z -> World -> Prop) :
  entries_exact bytes previous offset terms lex -> length bytes < fuel ->
  Q (postings_end offset lex, terms + Z.of_nat (length lex))%Z w ->
  wp (validate_entries fuel documents postings bytes previous offset terms) w E Q.
Proof.
  revert bytes previous offset terms lex. induction fuel as [|fuel IH];
    intros bytes previous offset terms lex [Hr Hp Hl Hend Ht] Hfuel HQ; [lia|]. cbn [validate_entries].
  destruct lex as [|[t ps] lex]; simpl in Hr.
  - apply wp_bind. eapply wp_try; [exact Hr|]. apply wp_ret.
    unfold postings_end in HQ. simpl in HQ. by rewrite !Z.add_0_r in HQ.
  - destruct Hr as (rest & He & Hr). apply wp_bind. eapply wp_try; [exact He|]. cbv beta iota.
    apply lexicon_ok_cons in Hl as (Hprev & Hok & Hl). cbn [lex_term lex_postings_offset lex_document_frequency].
    assert (match previous with Some p => le_b t p | None => false end = false) as ->.
    { destruct previous as [p|]; [|done]. apply lt_b_not_le_b. auto. }
    rewrite Z.eqb_refl. cbn [negb]. simpl in Hp. inversion Hp as [|? ? ? ? (_ & _ & Hps) Hp']; subst.
    rewrite postings_end_cons in Hend, HQ. pose proof (postings_end_ge (offset + Z.of_nat (length ps) * POSTING_BYTES) lex).
    change (length ((t, ps) :: lex)) with (S (length lex)) in *.
    apply wp_bind. eapply wp_try.
    { apply validate_postings_iff. exists ps. rewrite Nat2Z.id. split_and!; [done|exact Hps|done]. }
    apply wp_bind. eapply wp_try; [apply ok_or_Ok, checked_add_u64_Some; split; [reflexivity|lia]|].
    apply wp_bind. eapply wp_try; [apply ok_or_Ok, checked_add_u64_Some; split; [reflexivity|lia]|].
    apply read_entry_length in He. apply (IH rest (Some t) _ _ lex); [|lia|].
    + split; try done. lia.
    + replace (terms + 1 + Z.of_nat (length lex))%Z with (terms + Z.of_nat (S (length lex)))%Z by lia. done.
Qed.
End entries.

(** ** The documents *)
Section documents.
Context `{SearchCodecs} (lengths documents : list Z).

(** The document [d], whose offset is next in [offsets]. *)
Definition document_next (offsets : list Z) (d : Z) (x : SearchDocument * Z) : Prop :=
  read_document_stat_at lengths header_bytes d
    = Ok {| stat_length := x.2; stat_index_order := doc_index_order x.1; stat_layer := doc_layer x.1 |} /\
  exists offset rest, read_u64 offsets = Ok (offset, rest) /\
    read_document_at documents offset MAX_DOCUMENT_RECORD_BYTES = Ok x.1.

Lemma validate_documents_iff n d offsets :
  validate_documents n d offsets lengths documents = Ok tt <->
  exists docs, length docs = n /\
    forall i x, docs !! i = Some x -> document_next (drop (8 * i) offsets) (d + Z.of_nat i) x.
Proof.
  revert d offsets. induction n as [|n IH]; intros d offsets; cbn [validate_documents].
  { split; [intros _; by exists []|done]. }
  split.
  - intros Hv. apply result_bind_Ok in Hv as ([offset rest] & Ho & Hv).
    apply result_bind_Ok in Hv as (stat & Hs & Hv). apply result_bind_Ok in Hv as (doc & Hd & Hv).
    destruct (Z.eqb_spec (doc_index_order doc) (stat_index_order stat)) as [Heq|]; [|done].
    destruct (decide (doc_layer doc = stat_layer stat)) as [Hl|]; [|by rewrite bool_decide_false in Hv].
    rewrite bool_decide_true in Hv by done. cbn [negb orb] in Hv.
    apply read_u64_rest in Ho as Hrest. subst rest. apply IH in Hv as (docs & Hlen & Hdocs).
    exists ((doc, stat_length stat) :: docs). split; [simpl; lia|]. intros [|i] x Hx.
    + injection Hx as <-. rewrite Z.add_0_r. split; [|by eexists _, _].
      rewrite Hs. destruct stat. simpl in *. by rewrite Heq, Hl.
    + specialize (Hdocs i x Hx). rewrite drop_drop in Hdocs.
      replace (8 * S i) with (8 + 8 * i) by lia.
      by replace (d + Z.of_nat (S i))%Z with (d + 1 + Z.of_nat i)%Z by lia.
  - intros ([|x docs] & Hlen & Hdocs); [done|]. destruct (Hdocs 0 x eq_refl) as (Hs & offset & rest & Ho & Hd).
    rewrite Z.add_0_r in Hs. rewrite drop_0 in Ho. rewrite Ho. cbn [result_bind]. rewrite Hs. cbn [result_bind].
    rewrite Hd. cbn [result_bind stat_index_order stat_layer]. rewrite Z.eqb_refl, bool_decide_true by done. cbn [negb orb].
    apply read_u64_rest in Ho as Hrest. subst rest. apply IH. exists docs. split; [simpl in Hlen; lia|].
    intros i y Hy. specialize (Hdocs (S i) y Hy). rewrite drop_drop. replace (8 + 8 * i) with (8 * S i) by lia.
    by replace (d + 1 + Z.of_nat i)%Z with (d + Z.of_nat (S i))%Z by lia.
Qed.
End documents.

(** ** The whole index *)
Section exact.
Context `{SearchCodecs}.

Record documents_exact (db : string) (docs : list (SearchDocument * Z)) (w : World) : Prop := {
  de_size : (8 + Z.of_nat (length docs) * DOCUMENT_STAT_BYTES <= u64_max)%Z;
  de_reads : exists offsets lengths documents r1 r2 r3,
    disk w !! sidecar_path db DOCUMENT_OFFSETS_SUFFIX = Some offsets /\
    disk w !! sidecar_path db DOCUMENT_LENGTHS_SUFFIX = Some lengths /\
    disk w !! sidecar_path db DOCUMENTS_SUFFIX = Some documents /\
    read_magic offsets DOCUMENT_OFFSETS_MAGIC = Ok r1 /\
    read_magic lengths DOCUMENT_LENGTHS_MAGIC = Ok r2 /\
    read_magic documents DOCUMENTS_MAGIC = Ok r3 /\
    (Z.of_nat (length offsets) = 8 + Z.of_nat (length docs) * DOCUMENT_OFFSET_BYTES)%Z /\
    (Z.of_nat (length lengths) = 8 + Z.of_nat (length docs) * DOCUMENT_STAT_BYTES)%Z /\
    forall i x, docs !! i = Some x -> document_reads offsets lengths documents i x
}.

Definition lexicon_exact (db : string) (documents : Z) (lex : lexicon) (w : World) : Prop :=
  exists bytes rest postings r,
    disk w !! sidecar_path db LEXICON_SUFFIX = Some bytes /\ read_magic bytes LEXICON_MAGIC = Ok rest /\
    disk w !! sidecar_path db POSTINGS_SUFFIX = Some postings /\ read_magic postings POSTINGS_MAGIC = Ok r /\
    entries_exact documents postings rest None 8 0 lex /\
    (Z.of_nat (length postings) = postings_end 8 lex)%Z.

(** The sidecars of [db] are exactly the index [ix], as the metadata says. *)
Record index_exact (db : string) (ix : Index) (m : SearchBackendMetadata) (w : World) : Prop := {
  ie_metadata : metadata_valid db m true w;
  ie_count : document_count m = N.of_nat (length (ix_docs ix));
  ie_terms : term_count m = N.of_nat (length (ix_lexicon ix));
  ie_documents : documents_exact db (ix_docs ix) w;
  ie_lexicon : lexicon_exact db (Z.of_nat (length (ix_docs ix))) (ix_lexicon ix) w
}.

(** Every file holds bytes. *)
Definition bytes_world (w : World) : Prop := forall p bytes, disk w !! p = Some bytes -> bytes_ok bytes.

Lemma magic_rest bytes magic rest : read_magic bytes magic = Ok rest -> rest = drop 8 bytes.
Proof.
  unfold read_magic. intros Hr. apply result_bind_Ok in Hr as ([a r] & Ha & Hr).
  unfold read_exact in Ha. destruct (Nat.ltb _ _); [done|]. injection Ha as <- <-. case_decide; [|done]. by injection Hr.
Qed.

Lemma seek_table offsets r1 i :
  read_magic offsets DOCUMENT_OFFSETS_MAGIC = Ok r1 ->
  drop (8 * i) r1 = seek offsets (header_bytes + Z.of_nat i * DOCUMENT_OFFSET_BYTES).
Proof.
  intros ->%magic_rest. unfold seek, header_bytes, DOCUMENT_OFFSET_BYTES. rewrite drop_drop. f_equal. lia.
Qed.

(** *** Soundness *)
Lemma metadata_run db m checksums w w' :
  validate_metadata db m checksums w = Ok (tt, w') -> metadata_valid db m checksums w /\ w' = w.
Proof.
  unfold validate_metadata. intros Hv.
  destruct (bool_decide (backend m = BACKEND_NAME)) eqn:Eb; [|done]. apply bool_decide_eq_true in Eb.
  destruct (Z.eqb_spec (Z.of_N (format_version m)) FORMAT_VERSION) as [Ev|]; [|done]. cbn [negb andb] in Hv.
  run_bind Hv. apply length_run in Hrun as (bytes & Hd & -> & ->).
  destruct (Z.ltb_spec MAX_METADATA_BYTES (Z.of_nat (length bytes))) as [|Hl]; [done|].
  run_bind Hv. apply open_run in Hrun as [Hd' ->]. rewrite Hd in Hd'. injection Hd' as <-.
  run_bind Hv. apply try_run in Hrun as [Hdec ->]. destruct (metadata_matches a m) eqn:Em; [|done]. cbn [negb] in Hv.
  assert (forall l v v', io_fold (fun _ => validate_sidecar db m checksums) tt l v = Ok (tt, v') ->
    v' = v /\ forall suffix, suffix ∈ l -> exists b digest, disk v !! sidecar_path db suffix = Some b /\
      backend_files m !! suffix = Some digest /\ (checksums = true -> sha256_hex b = digest)) as Hall.
  { clear. induction l as [|s l IH]; intros v v' Hf; [injection Hf as <-; split; [done|by intros ? ?%elem_of_nil]|].
    cbn [io_fold] in Hf. run_bind Hf. destruct a. unfold validate_sidecar in Hrun.
    run_bind Hrun. apply try_run in Hrun0 as [Hdig ->]. apply ok_or_Ok in Hdig.
    run_bind Hrun. unfold path_exists in Hrun0. injection Hrun0 as <- <-.
    destruct (disk v !! sidecar_path db s) as [b|] eqn:Eb; [|done]. simpl in Hrun.
    assert (w = v /\ (checksums = true -> sha256_hex b = a)) as [-> Hsum].
    { destruct checksums; [|by injection Hrun as <-]. run_bind Hrun. apply open_run in Hrun0 as [Hb ->].
      rewrite Eb in Hb. injection Hb as <-. case_decide; [|done]. by injection Hrun as <-. }
    apply IH in Hf as [-> Hf]. split; [done|]. intros suffix [->|Hin]%elem_of_cons; [by exists b, a|by apply Hf]. }
  apply Hall in Hv as [-> Hs]. split; [|done]. split; try done. by exists bytes, a.
Qed.

Lemma documents_run db m w offsets lengths documents r1 r2 r3 :
  disk w !! sidecar_path db DOCUMENT_OFFSETS_SUFFIX = Some offsets ->
  disk w !! sidecar_path db DOCUMENT_LENGTHS_SUFFIX = Some lengths ->
  disk w !! sidecar_path db DOCUMENTS_SUFFIX = Some documents ->
  read_magic offsets DOCUMENT_OFFSETS_MAGIC = Ok r1 ->
  read_magic lengths DOCUMENT_LENGTHS_MAGIC = Ok r2 -> read_magic documents DOCUMENTS_MAGIC = Ok r3 ->
  (8 + Z.of_N (document_count m) * DOCUMENT_STAT_BYTES <= u64_max)%Z ->
  Z.of_nat (length offsets) = (8 + Z.of_N (document_count m) * DOCUMENT_OFFSET_BYTES)%Z ->
  Z.of_nat (length lengths) = (8 + Z.of_N (document_count m) * DOCUMENT_STAT_BYTES)%Z ->
  validate_documents (N.to_nat (document_count m)) 0 r1 lengths documents = Ok tt ->
  exists docs, document_count m = N.of_nat (length docs) /\ documents_exact db docs w.
Proof.
  intros Ho Hl Hd M1 M2 M3 Hsize Hlo Hll Hv. apply validate_documents_iff in Hv as (docs & Hlen & Hdocs).
  assert (Z.of_N (document_count m) = Z.of_nat (length docs)) as Heq by lia. rewrite Heq in *.
  exists docs. split; [lia|]. split; [done|]. exists offsets, lengths, documents, r1, r2, r3. split_and!; try done.
  intros i x Hx. specialize (Hdocs i x Hx). rewrite (seek_table _ _ _ M1) in Hdocs. exact Hdocs.
Qed.

Lemma table_size_Ok what n k z :
  table_size what n k = Ok z <-> (n * k <= u64_max)%Z /\ (8 + n * k <= u64_max)%Z /\ z = (8 + n * k)%Z.
Proof.
  unfold table_size, checked_mul_u64, header_bytes. case_decide as Hle; cbn [ok_or result_bind].
  - rewrite ok_or_Ok, checked_add_u64_Some. intuition.
  - split; [done|]. intuition.
Qed.

Lemma validate_sound db m w w' :
  bytes_world w -> validate db m w = Ok (tt, w') -> w' = w /\ exists ix, index_exact db ix m w.
Proof.
  intros Hw Hv. unfold validate in Hv. run_bind Hv. destruct a. apply metadata_run in Hrun as [Hm ->].
  do 3 (run_bind Hv; apply open_run in Hrun as [? ->]).
  do 3 (run_bind Hv; apply try_run in Hrun as [? ->]).
  run_bind Hv. apply try_run in Hrun as [(_ & _ & ->)%table_size_Ok ->].
  run_bind Hv. apply try_run in Hrun as [(_ & Hsize & ->)%table_size_Ok ->].
  destruct (Z.eqb_spec (Z.of_nat (length a)) (8 + Z.of_N (document_count m) * DOCUMENT_OFFSET_BYTES)); [|done].
  destruct (Z.eqb_spec (Z.of_nat (length a0)) (8 + Z.of_N (document_count m) * DOCUMENT_STAT_BYTES)); [|done].
  cbn [negb] in Hv. run_bind Hv. apply try_run in Hrun as [Hdocs ->]. destruct a5.
  edestruct documents_run as (docs & Hcount & Hde); [eassumption..|]. clear Hdocs.
  unfold validate_lexicon_and_postings in Hv.
  run_bind Hv; apply open_run in Hrun as [Hlex ->]. run_bind Hv; apply open_run in Hrun as [Hpost ->].
  run_bind Hv; apply try_run in Hrun as [Ml ->]. run_bind Hv; apply try_run in Hrun as [Mp ->].
  run_bind Hv. change (Z.of_nat (length POSTINGS_MAGIC)) with 8%Z in Hrun.
  apply validate_entries_sound in Hrun as (-> & lex & Hlexicon & ->).
  2: rewrite (magic_rest _ _ _ Ml); by apply Forall_drop, (Hw _ _ Hlex).
  2,3: unfold u64_max; lia.
  cbn [fst snd] in Hv. destruct (Z.eqb_spec (0 + Z.of_nat (length lex)) (Z.of_N (term_count m))) as [Ht|]; [|done].
  destruct (Z.eqb_spec (postings_end 8 lex) (Z.of_nat (length a6))) as [Hp|]; [|done].
  injection Hv as <-. split; [done|]. exists {| ix_docs := docs; ix_lexicon := lex |}. split; simpl; [done|done|lia|done|].
  rewrite Hcount, nat_N_Z in Hlexicon. by exists a5, a7, a6, a8.
Qed.

(** *** Completeness *)
Lemma wp_validate {E : abort -> Prop} db m ix w (Q : () -> World -> Prop) :
  index_exact db ix m w -> Q tt w -> wp (validate db m) w E Q.
Proof.
  intros [Hm Hcount Hterms [Hsize Hde] Hlexicon] HQ. unfold validate.
  apply wp_bind, wp_validate_metadata; [done|].
  destruct Hde as (offsets & lengths & documents & r1 & r2 & r3 & Ho & Hl & Hd & M1 & M2 & M3 & Hlo & Hll & Hdocs).
  do 3 (apply wp_bind; eapply wp_open; [eassumption|]). do 3 (apply wp_bind; eapply wp_try; [eassumption|]).
  rewrite Hcount, nat_N_Z.
  apply wp_bind. eapply wp_try.
  { apply table_size_Ok. unfold DOCUMENT_STAT_BYTES, DOCUMENT_OFFSET_BYTES in *. split; [lia|]. split; [lia|reflexivity]. }
  apply wp_bind. eapply wp_try; [apply table_size_Ok; split; [lia|]; split; [lia|reflexivity]|].
  rewrite Hlo, Hll, !Z.eqb_refl. cbn [negb]. apply wp_bind. eapply wp_try.
  { apply validate_documents_iff. exists (ix_docs ix). split; [lia|]. intros i x Hx. rewrite (seek_table _ _ _ M1). by apply Hdocs. }
  destruct Hlexicon as (bytes & rest & postings & r & Hlx & Mx & Hp & Mp & Hee & Hlen).
  unfold validate_lexicon_and_postings. do 2 (apply wp_bind; eapply wp_open; [eassumption|]).
  do 2 (apply wp_bind; eapply wp_try; [eassumption|]). rewrite Hcount, nat_N_Z.
  apply wp_bind, (wp_validate_entries _ _ _ _ _ _ _ (ix_lexicon ix)); [exact Hee|lia|].
  cbn [fst snd]. rewrite Hterms, Hlen, nat_N_Z, Z.add_0_l, !Z.eqb_refl. cbn [negb orb]. by apply wp_ret.
Qed.

(** *** What a valid index gives to a search *)
Lemma postings_nonneg bytes ps d n : bytes_ok bytes -> postings_reads bytes ps -> (d, n) ∈ ps -> (0 <= d /\ 0 <= n)%Z.
Proof.
  revert bytes. induction ps as [|[d' n'] ps IH]; intros bytes Hb Hr Hin; [by apply elem_of_nil in Hin|].
  destruct Hr as (r1 & r2 & H1 & H2 & Hr). apply read_u64_ok in H1 as (? & _ & Hb1); [|done].
  apply read_u32_ok in H2 as (? & _ & Hb2); [|done].
  apply elem_of_cons in Hin as [[= -> ->]|Hin]; [done|by eapply IH].
Qed.

Lemma exact_reads db ix m w : index_exact db ix m w -> index_reads db ix w.
Proof.
  intros [_ _ _ [_ (o & l & d & r1 & r2 & r3 & ? & ? & ? & ? & ? & ? & _ & _ & ?)]
    (bytes & rest & postings & r & Hl & Ml & Hp & Mp & [Hr Hps _ _ _] & _)]. split.
  - by exists bytes, rest, postings, (entries_from 8 (ix_lexicon ix)).
  - by exists o, l, d, r1, r2, r3.
Qed.

Lemma exact_wf db ix m w : bytes_world w -> index_exact db ix m w -> index_wf ix.
Proof.
  intros Hw [_ _ _ [Hsize _] (bytes & rest & postings & r & Hl & Ml & Hp & Mp & [Hr Hps [Hs Hok] _ _] & _)]. split.
  - done.
  - intros t ps Hin. by destruct (Hok t ps Hin) as [[? _] _].
  - intros t ps d n Hin Hd. destruct (Hok t ps Hin) as [[_ Hlt] _]. destruct (Hlt d n Hd) as (? & ? & _).
    apply list_elem_of_lookup in Hin as [i Hi]. destruct (Forall2_lookup_r _ _ _ _ _ Hps Hi) as (e & _ & (_ & _ & Hpr)).
    destruct (postings_nonneg (seek postings (lex_postings_offset e)) ps d n); [by apply bytes_seek, (Hw _ _ Hp)|done|done|lia].
  - done.
Qed.
End exact.
