(* ===== verification/SearchCorpus.v ===== *)
(** * The files of a build are the index of its corpus

    What [built] says byte by byte is what the readers of the index see: the sidecars are
    exactly ([index_exact]) the documents of the corpus and their inverted index. *)
From S2P Require Import Prelude Order Text Bytes Float64 Json Protocol Disk Sinks SearchModel SearchBuild SearchCodec SearchRead SearchSort SearchIndex SearchWrite SearchPass SearchBuilt SearchRank SearchLoop SearchValid.

(** What serde_json promises: decoding undoes encoding. *)
Class SearchCodecLaws `{SearchCodecs} := {
  decode_encoded_document doc bytes : encode_document doc = Ok bytes -> decode_document bytes = Ok doc;
  decode_encoded_metadata m s :
    encode_metadata m = Ok s -> decode_metadata (str_bytes (s +:+ String "010" "")) = Ok m
}.

Definition corpus_index (c : corpus) : Index := {|
  ix_docs := (fun x => (x.1, Z.of_nat (length x.2))) <$> c;
  ix_lexicon := index_of (snd <$> c)
|}.

(** ** Tables of records of one size *)
Lemma concat_fixed {A B} (f : A -> list B) k l :
  (forall x, length (f x) = k) -> length (concat (f <$> l)) = k * length l.
Proof.
  intros Hf. induction l as [|x l IH]; [simpl; lia|]. rewrite fmap_cons, concat_cons, length_app, Hf, IH. simpl. lia.
Qed.

Lemma seek_record {A} magic (f : A -> list Z) k l i x :
  length magic = 8 -> (forall y, length (f y) = k) -> l !! i = Some x ->
  exists rest, seek (magic ++ concat (f <$> l)) (8 + Z.of_nat i * Z.of_nat k) = f x ++ rest.
Proof.
  intros Hm Hf Hx. apply list_elem_of_split_length in Hx as (pre & post & -> & ->).
  rewrite fmap_app, concat_app, fmap_cons, concat_cons, app_assoc.
  exists (concat (f <$> post)). apply seek_app. rewrite length_app, (concat_fixed f k), Hm by done. lia.
Qed.

(** ** Numbers of the corpus *)
Section corpus.
Context `{SearchCodecs} (c : corpus) (Hfits : corpus_fits c).

Lemma document_record_length x : x ∈ c -> (4 <= Z.of_nat (length (document_record x.1)) <= MAX_DOCUMENT_RECORD_BYTES + 4)%Z.
Proof.
  intros Hx. destruct (cf_encode _ Hfits x Hx) as [_ Hl]. unfold document_record.
  rewrite length_app, length_to_le. lia.
Qed.

Lemma documents_before i :
  (Z.of_nat (length (concat (document_record <$> take i c.*1))) <= (MAX_DOCUMENT_RECORD_BYTES + 4) * Z.of_nat (length c))%Z.
Proof.
  rewrite <- fmap_take, <- list_fmap_compose.
  assert (forall l : corpus, (forall x, x ∈ l -> x ∈ c) ->
    (Z.of_nat (length (concat ((document_record ∘ fst) <$> l))) <= (MAX_DOCUMENT_RECORD_BYTES + 4) * Z.of_nat (length l))%Z) as Hl.
  { induction l as [|x l IH]; intros Hin; [simpl; lia|]. rewrite fmap_cons, concat_cons, length_app.
    pose proof (document_record_length x (Hin x (list_elem_of_here _ _))).
    specialize (IH (fun y Hy => Hin y (list_elem_of_further _ _ _ Hy))).
    change (length (x :: l)) with (S (length l)). unfold compose at 1. lia. }
  specialize (Hl (take i c)). rewrite length_take in Hl. rewrite list_fmap_compose in Hl.
  assert (forall x, x ∈ take i c -> x ∈ c) as Hin.
  { intros x (j & Hj & _)%elem_of_take. by eapply list_elem_of_lookup_2. }
  specialize (Hl Hin). rewrite <- list_fmap_compose in Hl.
  unfold MAX_DOCUMENT_RECORD_BYTES in *. lia.
Qed.

(** ** Documents *)
Lemma offsets_lookup o docs i doc :
  docs !! i = Some doc ->
  offsets_from o docs !! i = Some (o + Z.of_nat (length (concat (document_record <$> take i docs))))%Z.
Proof.
  revert o i. induction docs as [|d docs IH]; intros o i Hi; [done|]. destruct i as [|i].
  - simpl. f_equal. lia.
  - cbn [offsets_from]. rewrite lookup_cons. rewrite (IH _ _ Hi). f_equal.
    rewrite firstn_cons, fmap_cons, concat_cons, length_app. lia.
Qed.

Lemma read_record `{!SearchCodecLaws} i x :
  c !! i = Some x ->
  read_document_at (documents_content c.*1) (8 + Z.of_nat (length (concat (document_record <$> take i c.*1))))
    MAX_DOCUMENT_RECORD_BYTES = Ok x.1.
Proof.
  intros Hx. apply list_elem_of_lookup_2 in Hx as Hin. destruct (cf_encode _ Hfits x Hin) as [Henc Hl].
  assert (c.*1 !! i = Some x.1) as Hd by (by rewrite list_lookup_fmap, Hx).
  unfold read_document_at, documents_content. rewrite <- (take_drop_middle _ _ _ Hd) at 1.
  rewrite fmap_app, concat_app, fmap_cons, concat_cons, app_assoc.
  rewrite seek_app by (rewrite length_app; change (length DOCUMENTS_MAGIC) with 8; lia).
  unfold document_record at 1. rewrite <- !app_assoc, read_u32_app.
  2: { unfold u32, u32_max, MAX_DOCUMENT_RECORD_BYTES in *. lia. }
  cbn [result_bind]. destruct (Z.ltb_spec MAX_DOCUMENT_RECORD_BYTES (Z.of_nat (length (document_json x.1)))); [lia|].
  rewrite Nat2Z.id, read_exact_app by done. cbn [result_bind]. by apply decode_encoded_document.
Qed.

Lemma length_stat_bytes s : length (stat_bytes s) = 12.
Proof. unfold stat_bytes. by rewrite !length_app, !length_to_le. Qed.

Lemma from_layer_code l : from_code (layer_code l) = Some l.
Proof. by destruct l. Qed.

Context (Horders : forall x, x ∈ c -> u32 (doc_index_order x.1)).

Lemma read_stat i x :
  c !! i = Some x ->
  read_document_stat_at (lengths_content c) header_bytes (Z.of_nat i) = Ok (document_stat x).
Proof.
  intros Hx. pose proof (cf_documents _ Hfits) as Hc. apply lookup_lt_Some in Hx as Hi.
  apply list_elem_of_lookup_2 in Hx as Hin. unfold read_document_stat_at, stat_offset, checked_mul_u64, DOCUMENT_STAT_BYTES.
  rewrite decide_True by (unfold u64_max, u32_max in *; lia). cbn [mbind option_bind].
  rewrite (proj2 (checked_add_u64_Some (Z.of_nat i * 12) header_bytes (8 + Z.of_nat i * 12))).
  2: { unfold header_bytes, u64_max, u32_max in *. lia. }
  cbn [ok_or result_bind].
  destruct (seek_record DOCUMENT_LENGTHS_MAGIC (stat_bytes ∘ document_stat) 12 c i x) as [rest Hr];
    [done|intros y; apply length_stat_bytes|done|].
  unfold lengths_content. change 12%Z with (Z.of_nat 12). rewrite Hr. unfold compose, stat_bytes. rewrite <- !app_assoc.
  rewrite read_u32_app. 2: { pose proof (cf_lengths _ Hfits x Hin). unfold u32. simpl. lia. }
  cbn [result_bind]. rewrite read_u32_app by (by apply Horders). cbn [result_bind].
  rewrite (read_exact_app [_; _; _; _] rest 4) by done. cbn [result_bind head default].
  unfold id. by rewrite from_layer_code.
Qed.

Lemma read_offset i x :
  c !! i = Some x -> exists rest,
    read_u64 (seek (offsets_content c.*1) (header_bytes + Z.of_nat i * DOCUMENT_OFFSET_BYTES))
    = Ok (8 + Z.of_nat (length (concat (document_record <$> take i c.*1))), rest)%Z.
Proof.
  intros Hx. pose proof (documents_before i) as Hb. pose proof (cf_documents _ Hfits) as Hc.
  assert (c.*1 !! i = Some x.1) as Hd by (by rewrite list_lookup_fmap, Hx).
  destruct (seek_record DOCUMENT_OFFSETS_MAGIC (to_le 8) 8 (offsets_from 8 c.*1) i _ eq_refl (length_to_le 8)
    (offsets_lookup 8 _ _ _ Hd)) as [rest Hr].
  exists rest. unfold offsets_content, header_bytes, DOCUMENT_OFFSET_BYTES. change 8%Z with (Z.of_nat 8) at 3.
  rewrite Hr. apply read_u64_app. unfold u64, u64_max, u32_max, MAX_DOCUMENT_RECORD_BYTES in *. lia.
Qed.

Lemma length_offsets o docs : length (offsets_from o docs) = length docs.
Proof. revert o. induction docs as [|d docs IH]; intros o; simpl; [done|]. by rewrite IH. Qed.

Lemma corpus_documents_exact `{!SearchCodecLaws} db w :
  index_files db c w -> documents_exact db (ix_docs (corpus_index c)) w.
Proof.
  intros [Hd Ho Hl _ _ _]. pose proof (cf_documents _ Hfits) as Hc. simpl. split.
  { rewrite length_fmap. unfold DOCUMENT_STAT_BYTES, u64_max, u32_max in *. lia. }
  exists (offsets_content c.*1), (lengths_content c), (documents_content c.*1).
  eexists _, _, _. split; [exact Ho|]. split; [exact Hl|]. split; [exact Hd|].
  split; [by apply read_magic_app|]. split; [by apply read_magic_app|]. split; [by apply read_magic_app|].
  rewrite length_fmap. split; [|split].
  - unfold offsets_content, DOCUMENT_OFFSET_BYTES. rewrite length_app, (concat_fixed (to_le 8) 8) by apply length_to_le.
    rewrite length_offsets, length_fmap. change (length DOCUMENT_OFFSETS_MAGIC) with 8. lia.
  - unfold lengths_content, DOCUMENT_STAT_BYTES. rewrite length_app, (concat_fixed (stat_bytes ∘ document_stat) 12) by (intros y; apply length_stat_bytes).
    change (length DOCUMENT_LENGTHS_MAGIC) with 8. lia.
  - intros i y Hy. rewrite list_lookup_fmap in Hy. destruct (c !! i) as [x|] eqn:Hx; [|done].
    injection Hy as <-. split; [by apply read_stat|]. destruct (read_offset i x Hx) as [rest Hr].
    eexists _, rest. split; [exact Hr|]. by apply read_record.
Qed.
End corpus.

(** ** The lexicon and the postings *)
Definition entry_fits (e : LexiconEntry) : Prop :=
  term_ok (lex_term e) /\ u64 (lex_postings_offset e) /\ u32 (lex_document_frequency e).

Lemma read_lexicon_entry_app e bytes :
  entry_fits e -> read_lexicon_entry (entry_bytes e ++ bytes) MAX_TERM_BYTES = Ok (Some (e, bytes)).
Proof.
  intros (Ht & Ho & Hd). unfold read_lexicon_entry, entry_bytes. rewrite <- !app_assoc.
  rewrite read_optional_u32_app by (by apply term_length_u32). rewrite read_text_app by done. cbn [result_bind].
  rewrite read_u64_app by done. cbn [result_bind]. rewrite read_u32_app by done. by destruct e.
Qed.

Lemma lexicon_reads_entries es : Forall entry_fits es -> lexicon_reads (concat (entry_bytes <$> es)) es.
Proof.
  induction 1 as [|e es He _ IH]; [done|]. rewrite fmap_cons, concat_cons. simpl.
  exists (concat (entry_bytes <$> es)). split; [by apply read_lexicon_entry_app|done].
Qed.

Lemma postings_reads_app ps bytes :
  (forall d n, (d, n) ∈ ps -> u64 d /\ u32 n) -> postings_reads (postings_bytes ps ++ bytes) ps.
Proof.
  induction ps as [|[d n] ps IH]; intros Hps; [done|]. destruct (Hps d n (list_elem_of_here _ _)) as [Hd Hn].
  change (postings_bytes ((d, n) :: ps)) with (posting_bytes (d, n) ++ postings_bytes ps).
  unfold posting_bytes. rewrite <- !app_assoc. eexists _, _. split; [by apply read_u64_app|].
  split; [by apply read_u32_app|]. apply IH. intros d' n' Hin. apply Hps. by right.
Qed.

Section lexicon.
Context (lex : lexicon) (Hfits : lex_fits lex).

Lemma postings_end_8 : postings_end 8 lex = offset_after lex.
Proof. done. Qed.

Lemma entries_content dn rest :
  lex = dn ++ rest ->
  Forall entry_fits (entries_from (offset_after dn) rest) /\
  Forall2 (entry_reads (postings_content lex)) (entries_from (offset_after dn) rest) rest.
Proof.
  revert dn. induction rest as [|[t ps] rest IH]; intros dn Hlex; [split; constructor|].
  destruct (lf_entries _ Hfits t ps) as [Ht Hlen].
  { rewrite Hlex. apply elem_of_app. right. apply list_elem_of_here. }
  assert (forall d n, (d, n) ∈ ps -> u64 d /\ u32 n) as Hps.
  { intros d n. apply (lf_postings _ Hfits t ps). rewrite Hlex. apply elem_of_app. right. apply list_elem_of_here. }
  pose proof (lf_offset _ Hfits) as Hoff. pose proof (offset_after_prefix dn ((t, ps) :: rest)) as Hpre.
  rewrite <- Hlex in Hpre. cbn [entries_from].
  replace (offset_after dn + Z.of_nat (length ps) * POSTING_BYTES)%Z with (offset_after (dn ++ [(t, ps)]))
    by apply offset_after_snoc.
  destruct (IH (dn ++ [(t, ps)])) as [IHe IHr]; [by rewrite <- app_assoc|].
  split; constructor; try done.
  - split_and!; try done. unfold u64. cbn [lex_postings_offset]. split; [unfold offset_after, POSTING_BYTES; lia|lia].
  - split_and!; try done. cbn [lex_postings_offset snd].
    unfold postings_content. rewrite Hlex, all_postings_app, postings_bytes_app, app_assoc, seek_app.
    + unfold all_postings. rewrite fmap_cons, concat_cons, postings_bytes_app. by apply postings_reads_app.
    + rewrite length_app, length_postings_bytes. unfold offset_after, POSTING_BYTES.
      change (length POSTINGS_MAGIC) with 8. lia.
Qed.

Lemma entries_exact_content documents :
  lexicon_ok documents None lex ->
  entries_exact documents (postings_content lex) (concat (entry_bytes <$> entries_from 8 lex)) None 8 0 lex.
Proof.
  intros Hok. destruct (entries_content [] lex eq_refl) as [He Hr]. split.
  - by apply lexicon_reads_entries.
  - done.
  - done.
  - rewrite postings_end_8. apply (lf_offset _ Hfits).
  - pose proof (lf_terms _ Hfits). lia.
Qed.
End lexicon.

Lemma index_of_ok docs : lexicon_ok (Z.of_nat (length docs)) None (index_of docs).
Proof.
  pose proof (index_of_indexes docs) as Hix. split; [apply (ix_terms _ _ Hix)|]. intros t ps Hin. split; [|done].
  split; [by apply (ix_documents _ _ Hix t)|]. intros d n Hd. destruct (ix_counts _ _ Hix t ps d n Hin Hd) as [_ Hn].
  apply in_index in Hin as [-> _]. apply in_postings in Hd as (i & terms & -> & Hi%lookup_lt_Some & _ & _).
  split_and!; [lia|lia|done].
Qed.

(** ** The whole index *)
Section exact.
Context `{SearchCodecs} `{!SearchCodecLaws} (c : corpus) (Hfits : corpus_fits c).
Context (Horders : forall x, x ∈ c -> u32 (doc_index_order x.1)).
Context (Hencode : encode_metadata (index_metadata c) = Ok (metadata_json c)).
Context (Hsize : (Z.of_nat (length (metadata_content c)) <= MAX_METADATA_BYTES)%Z).

Lemma corpus_metadata_valid db m w :
  index_files db c w -> index_described db c m w -> metadata_valid db m true w.
Proof.
  intros Hfiles [Hb Hv Hd Ht Htok Hdig]. split.
  - done.
  - by rewrite Hv.
  - exists (metadata_content c), (index_metadata c). split; [apply Hfiles|]. split; [done|].
    split; [by apply decode_encoded_metadata|]. unfold metadata_matches. rewrite Hb, Hv, Hd, Ht, Htok, !nat_N_Z.
    simpl. by rewrite !Z.eqb_refl.
  - intros suffix Hin. destruct (Hdig suffix Hin) as (bytes & ? & ?). by exists bytes, (sha256_hex bytes).
Qed.

Lemma corpus_exact db m w :
  index_files db c w -> index_described db c m w -> index_exact db (corpus_index c) m w.
Proof.
  intros Hfiles Hdesc. split.
  - by apply corpus_metadata_valid.
  - simpl. rewrite length_fmap. apply Hdesc.
  - apply Hdesc.
  - by apply corpus_documents_exact.
  - pose proof (index_fits c Hfits) as Hlf. unfold lexicon_exact. simpl. rewrite length_fmap.
    exists (lexicon_content (index_of c.*2)), (concat (entry_bytes <$> entries_from 8 (index_of c.*2))),
      (postings_content (index_of c.*2)), (postings_bytes (all_postings (index_of c.*2))).
    split; [apply Hfiles|]. split; [by apply read_magic_app|]. split; [apply Hfiles|]. split; [by apply read_magic_app|].
    split.
    + apply entries_exact_content; [done|]. pose proof (index_of_ok c.*2) as Hok. by rewrite length_fmap in Hok.
    + unfold postings_content, postings_end, POSTING_BYTES. rewrite length_app, length_postings_bytes.
      change (length POSTINGS_MAGIC) with 8. lia.
Qed.

Lemma corpus_wf : index_wf (corpus_index c).
Proof.
  pose proof (index_of_indexes c.*2) as Hix. pose proof (cf_documents _ Hfits) as Hc. split; simpl.
  - apply (ix_terms _ _ Hix).
  - intros t ps Hin. by apply (ix_documents _ _ Hix t).
  - intros t ps d n Hin Hd. destruct (ix_counts _ _ Hix t ps d n Hin Hd) as [_ Hn]. split; [|done].
    apply in_index in Hin as [-> _]. apply in_postings in Hd as (i & terms & -> & Hi%lookup_lt_Some & _ & _).
    rewrite length_fmap in Hi. rewrite length_fmap. lia.
  - rewrite length_fmap. unfold DOCUMENT_STAT_BYTES, u64_max, u32_max in *. lia.
Qed.
End exact.

(** The orders of the documents of a corpus are positions of indexes in the schema. *)
Lemma corpus_orders `{SearchCodecs, CharTables} staging_dir d search_indexes (x : SearchDocument * list string) :
  (Z.of_nat (length search_indexes) <= u32_max)%Z ->
  x ∈ corpus_of staging_dir d search_indexes -> u32 (doc_index_order x.1).
Proof.
  intros Hlen (l & Hx & (i & spec & -> & Hi)%elem_of_lookup_imap)%elem_of_concat.
  apply lookup_lt_Some in Hi. unfold spec_documents in Hx.
  apply elem_of_concat in Hx as (l & Hx & (node_type & -> & _)%list_elem_of_fmap).
  apply list_elem_of_fmap in Hx as (n & -> & _). unfold u32. simpl. lia.
Qed.
