(* ===== verification/SearchText.v ===== *)
(** * Terms of a text and of a query

    [tokenize] is one pass over the characters; the reference definition splits the text
    into words first.  The terms of a query are its first [MAX_QUERY_TERMS] distinct ones. *)
From S2P Require Import Prelude Order Text Bytes Json Protocol Disk SearchModel SearchBuild SearchCodec SearchRead SearchSort SearchIndex SearchWrite SearchPass.

Section text.
Context `{CharTables} `{!CharLaws}.

(** The maximal runs of word characters, in order. *)
Fixpoint words (cs : list Z) : list (list Z) :=
  match cs with
  | [] => []
  | c :: cs =>
      if is_term_char c then
        match cs with
        | c' :: _ =>
            if is_term_char c' then
              match words cs with w :: ws => (c :: w) :: ws | [] => [[c]] end
            else [c] :: words cs
        | [] => [[c]]
        end
      else words cs
  end.

(** A word in lower case, without the characters for which there is no room. *)
Definition word_term (w : list Z) : list Z := fold_left push_char (concat (char_lowercase <$> w)) [].

Lemma push_char_nonempty c term : push_char term c <> [].
Proof.
  unfold push_char. destruct term as [|x term].
  - pose proof (len_utf8_bounds c). change (length (mjoin (encode_utf8 <$> []))) with 0. unfold MAX_TERM_BYTES.
    destruct (Z.leb_spec (Z.of_nat (0 + len_utf8 c)) 256); [done|lia].
  - by destruct (_ <=? _)%Z.
Qed.

Lemma push_chars_nonempty cs term : cs <> [] \/ term <> [] -> fold_left push_char cs term <> [].
Proof.
  revert term. induction cs as [|c cs IH]; intros term; simpl; [tauto|]. intros _.
  apply IH. right. apply push_char_nonempty.
Qed.

Lemma lowercase_word_nonempty c term : fold_left push_char (char_lowercase c) term <> [].
Proof. apply push_chars_nonempty. left. apply lowercase_some. Qed.

Definition finish (s : list Z * list string) : list string :=
  match s.1 with [] => s.2 | _ => s.2 ++ [chars_string s.1] end.

(** In the middle of a word the term goes on; between words the next word starts. *)
Lemma tokens_from cs :
  (forall emitted, finish (fold_left token_step cs ([], emitted)) = emitted ++ (chars_string ∘ word_term <$> words cs)) /\
  (forall term emitted, term <> [] ->
     finish (fold_left token_step cs (term, emitted)) = emitted ++
       match cs with
       | c :: _ =>
           if is_term_char c then
             match words cs with
             | w :: ws => chars_string (fold_left push_char (concat (char_lowercase <$> w)) term)
                          :: (chars_string ∘ word_term <$> ws)
             | [] => []
             end
           else chars_string term :: (chars_string ∘ word_term <$> words cs)
       | [] => [chars_string term]
       end).
Proof.
  induction cs as [|c cs [IH0 IH1]].
  { split; [intros emitted; by rewrite app_nil_r|]. intros term emitted Ht. by destruct term. }
  assert (forall term, fold_left push_char (concat (char_lowercase <$> [c])) term
    = fold_left push_char (char_lowercase c) term) as Hone by (intros term; cbn; by rewrite app_nil_r).
  assert (forall term emitted, is_term_char c = true ->
    finish (fold_left token_step (c :: cs) (term, emitted)) = emitted ++
      match words (c :: cs) with
      | w :: ws => chars_string (fold_left push_char (concat (char_lowercase <$> w)) term)
                   :: (chars_string ∘ word_term <$> ws)
      | [] => []
      end) as Hterm.
  { intros term emitted Hc. cbn [fold_left]. unfold token_step at 2. rewrite Hc, IH1 by apply lowercase_word_nonempty.
    f_equal. cbn [words]. rewrite Hc. destruct cs as [|c' cs]; [by rewrite Hone|].
    destruct (is_term_char c') eqn:Hc'; [|by rewrite Hone].
    destruct (words (c' :: cs)) as [|w ws] eqn:Ew; [|].
    - exfalso. clear -Ew Hc'. cbn [words] in Ew. rewrite Hc' in Ew. destruct cs as [|c2 cs]; [done|].
      destruct (is_term_char c2); [|done]. by destruct (words (c2 :: cs)).
    - by rewrite fmap_cons, concat_cons, fold_left_app. }
  split.
  - intros emitted. destruct (is_term_char c) eqn:Hc.
    + rewrite Hterm by done. f_equal. destruct (words (c :: cs)); done.
    + cbn [fold_left words]. unfold token_step at 2. rewrite Hc. apply IH0.
  - intros term emitted Ht. destruct (is_term_char c) eqn:Hc; [by apply Hterm|].
    cbn [fold_left words]. unfold token_step at 2. rewrite Hc. destruct term as [|x term]; [done|].
    rewrite IH0, <- app_assoc. done.
Qed.

Lemma tokenize_finish text : tokenize text = finish (fold_left token_step (chars text) ([], [])).
Proof. unfold tokenize, finish. by destruct (fold_left _ _ _) as [[|c term] emitted]. Qed.

End text.

(** ** Query terms *)
(** The distinct elements in the order of their first occurrences. *)
Definition distinct (l : list string) : list string := reverse (remove_dups (reverse l)).

Lemma distinct_terms_snoc l x : distinct (l ++ [x]) = if decide (x ∈ l) then distinct l else distinct l ++ [x].
Proof.
  unfold distinct. rewrite reverse_app. simpl.
  destruct (decide_rel elem_of x (reverse l)) as [Hin|Hin]; rewrite elem_of_reverse in Hin.
  - by rewrite decide_True.
  - rewrite decide_False by done. by rewrite reverse_cons.
Qed.

Lemma elem_of_distinct l x : x ∈ distinct l <-> x ∈ l.
Proof. unfold distinct. by rewrite elem_of_reverse, elem_of_remove_dups, elem_of_reverse. Qed.

Lemma NoDup_distinct l : NoDup (distinct l).
Proof. unfold distinct. rewrite reverse_Permutation. apply NoDup_remove_dups. Qed.

Lemma size_first k l : size (list_to_set (take k (distinct l)) : gset string) = Nat.min k (length (distinct l)).
Proof.
  rewrite size_list_to_set, length_take; [done|]. pose proof (NoDup_distinct l) as Hn.
  rewrite <- (take_drop k (distinct l)) in Hn. by apply NoDup_app in Hn as [? _].
Qed.

Lemma query_terms_fold l :
  fold_left add_query_term l ∅ = list_to_set (take MAX_QUERY_TERMS (distinct l)).
Proof.
  induction l as [|x l IH] using rev_ind; [done|]. rewrite fold_left_app, IH. simpl. unfold add_query_term.
  rewrite size_first, distinct_terms_snoc. set (S := take MAX_QUERY_TERMS (distinct l)).
  destruct (decide (x ∈ l)) as [Hin|Hin].
  - destruct (Nat.ltb_spec (Nat.min MAX_QUERY_TERMS (length (distinct l))) MAX_QUERY_TERMS) as [Hlt|Hge]; cbn [orb].
    + assert (x ∈ (list_to_set S : gset string)) as Hx; [|set_solver].
      apply elem_of_list_to_set. unfold S. rewrite take_ge by lia. by apply elem_of_distinct.
    + case_bool_decide; [set_solver|done].
  - assert (x ∉ (list_to_set S : gset string)) as Hx.
    { rewrite elem_of_list_to_set. intros Hx%elem_of_take. destruct Hx as (i & Hi & _).
      apply Hin, elem_of_distinct. by eapply list_elem_of_lookup_2. }
    rewrite bool_decide_false by done.
    destruct (Nat.ltb_spec (Nat.min MAX_QUERY_TERMS (length (distinct l))) MAX_QUERY_TERMS) as [Hlt|Hge]; cbn [orb].
    + rewrite (take_ge (distinct l ++ [x])) by (rewrite length_app; simpl; lia). unfold S. rewrite take_ge by lia. set_solver.
    + unfold S. by rewrite take_app_le by lia.
Qed.
