(* ===== verification/SearchRefines.v ===== *)
(** * The promises of the search index

    What a client of the index relies on: a search over a freshly built index ranks the
    documents of the staged nodes; validation accepts what a build leaves, and nothing that
    is not an index; a search over a validated index gives the specified ranking.  Whatever
    the sidecars hold, a search leaves every file as it is and stays within its limit.

    The instance has three documents about graphs, a schema with one semantic index over two
    node types, ASCII tables, and codecs that write numbers in little-endian and texts as
    they are: an instance of every promise, with sorted runs of one or two occurrences. *)
From S2P Require Import Prelude Order Text Bytes Float64 Json Protocol Disk StagedRows Sinks SearchModel SearchBuild SearchCodec SearchRead SearchSort SearchIndex SearchWrite SearchPass SearchBuilt SearchRank SearchLoop SearchValid SearchCorpus SearchText.

Section refines.
Context `{SearchCodecs, SearchMemory, CharTables, Libm} `{!SearchCodecLaws, !SearchMemoryLaws, !CharLaws}.

(** Nothing fails. *)
Definition never : abort -> Prop := fun _ => False.

Section built.
Context (db staging_dir : string) (pid : N) (chunk_bytes : Z) (search_indexes : list SearchIndexSpec) (w0 : World).
Abbreviation the_corpus := (corpus_of staging_dir (disk w0) search_indexes).

Definition build_accepted : Prop :=
  build_ready db staging_dir pid chunk_bytes search_indexes w0 /\
  (Z.of_nat (length (metadata_content the_corpus)) <= MAX_METADATA_BYTES)%Z.

Lemma built_exact r w :
  build_accepted -> built db pid the_corpus w0 r w ->
  index_exact db (corpus_index the_corpus) (result_metadata r) w.
Proof.
  intros [Hready Hsize] [Hfiles Hdesc _ _]. apply corpus_exact; [|intros x; apply corpus_orders| | | |]; try apply Hready; done.
Qed.

(** C5: A search over a freshly built index answers from the staged nodes: every document
    that holds a term of the query, in the layer that is asked for, is scored by BM25 over
    the texts of the staged nodes, and the [limit] best documents come back, best first.
    The size of the sorted runs of the build, their merges and the binary files in between
    have no influence. *)
Theorem build_then_search query layer l limit :
  build_accepted -> requested layer = Some l -> (0 <= limit)%Z ->
  let ix := corpus_index the_corpus in
  let total := Z.of_nat (length (concat the_corpus.*2)) in
  (forall c, c ∈ candidates ix total (query_terms query) l -> is_nan (cand_score c) = false) ->
  wp (r ← build db staging_dir chunk_bytes search_indexes pid;
      search db (result_metadata r) query layer limit) w0 never
    (fun results w => results = search_spec ix total (query_terms query) l limit /\
       frame (index_region db pid) w0 w).
Proof.
  intros Hacc Hlayer Hlimit ix total Hnan. apply wp_bind. eapply wp_mono; [apply wp_build, (proj1 Hacc)|].
  intros r w Hbuilt. pose proof (built_exact r w Hacc Hbuilt) as Hexact. pose proof (bt_described _ _ _ _ _ _ Hbuilt) as Hd.
  assert (Z.of_N (total_tokens (result_metadata r)) = total) as Htotal.
  { rewrite (id_tokens _ _ _ _ Hd). apply nat_N_Z. }
  eapply (wp_search db ix w); [by eapply exact_reads| |by apply metadata_valid_weaken, Hexact|apply Hexact|done|done|..].
  - apply corpus_wf, (proj1 Hacc).
  - by rewrite Htotal.
  - rewrite Htotal. split; [done|]. apply Hbuilt.
Qed.

(** C6: A build succeeds, leaves sidecars that [validate] accepts, whose metadata carries
    the digests of the files, removes its sorted runs, and changes no other file. *)
Theorem build_then_validate :
  build_accepted ->
  wp (r ← build db staging_dir chunk_bytes search_indexes pid;
      _ ← validate db (result_metadata r); mret r) w0 never
    (built db pid the_corpus w0).
Proof.
  intros Hacc. apply wp_bind. eapply wp_mono; [apply wp_build, (proj1 Hacc)|].
  intros r w Hbuilt. apply wp_bind. eapply wp_validate; [by apply built_exact|by apply wp_ret].
Qed.
End built.

(** C7: [validate] accepts the sidecars of a database if and only if they are an index that
    the metadata describes: digests and counts agree, the tables have the exact size, every
    document can be read and agrees with its entry in the table of lengths, terms and
    postings are strictly sorted and point into the documents, and the postings of the
    entries fill the file of postings without gaps. *)
Theorem validate_accepts_exactly db m w w' :
  bytes_world w ->
  validate db m w = Ok (tt, w') <-> w' = w /\ exists ix, index_exact db ix m w.
Proof.
  intros Hw. split; [by apply validate_sound|]. intros (-> & ix & Hix).
  apply run_wp. eapply wp_validate; [exact Hix|done].
Qed.

(** C8: Over validated sidecars a search succeeds, changes nothing, and gives the specified
    ranking of the documents that the index holds. *)
Theorem validated_search_correct db m w query layer l limit :
  bytes_world w -> validate db m w = Ok (tt, w) -> requested layer = Some l -> (0 <= limit)%Z ->
  exists ix, index_exact db ix m w /\
    ((forall c, c ∈ candidates ix (Z.of_N (total_tokens m)) (query_terms query) l ->
        is_nan (cand_score c) = false) ->
     search db m query layer limit w
     = Ok (search_spec ix (Z.of_N (total_tokens m)) (query_terms query) l limit, w)).
Proof.
  intros Hw [_ (ix & Hix)]%validate_sound Hlayer Hlimit; [|done]. exists ix. split; [done|]. intros Hnan.
  apply run_wp. eapply wp_search; [by eapply exact_reads|by eapply exact_wf| |apply Hix|done..].
  apply metadata_valid_weaken, Hix.
Qed.

(** The terms of a text are its maximal runs of alphanumeric characters and underscores,
    each in lower case and cut to 256 bytes at a character boundary; every term is UTF-8
    that the readers of the index accept. *)
Theorem tokenize_words text :
  tokenize text = chars_string ∘ word_term <$> words (chars text) /\ Forall term_ok (tokenize text).
Proof.
  split; [|apply tokenize_ok]. rewrite tokenize_finish. by rewrite (proj1 (tokens_from (chars text))).
Qed.

(** The terms of a query are the first 32 distinct terms of its text. *)
Theorem query_terms_first query :
  query_terms query = list_to_set (take 32 (distinct (tokenize query))).
Proof. apply query_terms_fold. Qed.
End refines.

(** * A search reads, and never returns too much *)
(** An operation that only reads. *)
Definition reads_only {A} (m : IO A) : Prop := forall w a w', m w = Ok (a, w') -> w' = w.

Create HintDb reads.

Lemma reads_ret {A} (a : A) : reads_only (mret a).
Proof. by intros w b w' [= _ <-]. Qed.
Lemma reads_try {A} (r : native_result A) : reads_only (io_try r).
Proof. by intros w a w' [_ ->]%try_run. Qed.
Lemma reads_abort {A} e : reads_only (@io_abort A e).
Proof. by intros w a w' [=]. Qed.
Lemma reads_open p : reads_only (open_file p).
Proof. by intros w a w' [_ ->]%open_run. Qed.
Lemma reads_length p : reads_only (file_length p).
Proof. intros w a w' (bytes & _ & _ & ->)%length_run. done. Qed.
Lemma reads_exists p : reads_only (path_exists p).
Proof. by intros w a w' [= _ <-]. Qed.
Lemma reads_bind {A B} (m : IO A) (k : A -> IO B) :
  reads_only m -> (forall a, reads_only (k a)) -> reads_only (m ≫= k).
Proof. intros Hm Hk w b w' (a & w1 & H1%Hm & H2%Hk)%bind_run. by subst. Qed.
Lemma reads_fold {S A} (f : S -> A -> IO S) l : (forall s x, reads_only (f s x)) -> forall s, reads_only (io_fold f s l).
Proof. intros Hf. induction l as [|x l IH]; intros s; [apply reads_ret|]. apply reads_bind; [apply Hf|apply IH]. Qed.

#[export] Hint Resolve reads_ret reads_try reads_abort reads_open reads_length reads_exists reads_bind reads_fold : reads.
Ltac reads_step := repeat first
  [progress auto with reads|apply reads_bind|apply reads_fold
  |match goal with |- forall _, _ => intros ? end|case_match|case_decide].

Section safe.
Context `{SearchCodecs, CharTables, Libm}.

Lemma advance_reads st i : reads_only (advance_cursor st i).
Proof. unfold advance_cursor. reads_step. Qed.
Lemma score_reads len average s p : reads_only (score_posting len average s p).
Proof. unfold score_posting. reads_step. apply advance_reads. Qed.
#[local] Hint Resolve advance_reads score_reads : reads.

Lemma rank_reads fuel lengths average layer limit best st :
  reads_only (rank_documents fuel lengths average layer limit best st).
Proof.
  revert best st. induction fuel as [|fuel IH]; intros best st; [apply reads_abort|]. cbn [rank_documents].
  destruct (heap_pop _ _) as [[first heap]|]; [|apply reads_ret].
  destruct (pop_document _ _ heap) as [others rest]. cbv zeta. reads_step; apply IH.
Qed.

Lemma find_reads fuel terms last_query found bytes : reads_only (find_entries fuel terms last_query found bytes).
Proof.
  revert found bytes. induction fuel as [|fuel IH]; intros found bytes; [apply reads_abort|]. cbn [find_entries].
  reads_step; apply IH.
Qed.
#[local] Hint Resolve rank_reads find_reads : reads.

Lemma metadata_reads db m checksums : reads_only (validate_metadata db m checksums).
Proof. unfold validate_metadata, validate_sidecar, io_fail. cbv zeta. reads_step. Qed.
#[local] Hint Resolve metadata_reads : reads.

(** ** At most [limit] *)
Lemma removelast_length {A} (l : list A) : length (removelast l) = length l - 1.
Proof. induction l as [|x l _] using rev_ind; [done|]. rewrite removelast_last, length_app. simpl. lia. Qed.

Lemma retain_best_length best c limit :
  (1 <= limit)%Z -> (Z.of_nat (length best) <= limit)%Z -> (Z.of_nat (length (retain_best best c limit)) <= limit)%Z.
Proof.
  intros Hl Hb. unfold retain_best. cbv zeta. destruct (Z.leb_spec (Z.of_nat (length (best ++ [c]))) limit); [done|].
  rewrite length_app in *. simpl in *. assert (exists w, max_by candidate_order 0 None (best ++ [c]) = Some w) as [[j y] ->].
  { assert (forall i b l, b <> None -> exists w, max_by candidate_order i b l = Some w) as Hmax.
    { intros i b l. revert i b. induction l as [|x l IH]; intros i [[j y]|] Hne; try done; simpl; [by eexists|].
      apply IH. by destruct (candidate_order y x). }
    destruct best as [|x best]; simpl; [by eexists|by apply Hmax]. }
  unfold swap_remove. rewrite last_snoc, removelast_length, length_insert, length_app. simpl. lia.
Qed.

Lemma rank_length fuel lengths average layer limit best st w best' w' :
  (1 <= limit)%Z -> (Z.of_nat (length best) <= limit)%Z ->
  rank_documents fuel lengths average layer limit best st w = Ok (best', w') -> (Z.of_nat (length best') <= limit)%Z.
Proof.
  intros Hl. revert best st w. induction fuel as [|fuel IH]; intros best st w Hb Hr; [done|]. cbn [rank_documents] in Hr.
  destruct (heap_pop _ _) as [[first heap]|]; [|by injection Hr as <- _].
  destruct (pop_document _ _ heap) as [others rest]. cbv zeta in Hr. run_bind Hr. run_bind Hr.
  eapply IH; [|exact Hr]. case_decide; [by apply retain_best_length|done].
Qed.

Lemma read_results_length offsets documents l rs w rs' w' :
  io_fold (fun results c => r ← io_try (read_result offsets documents c); mret (results ++ [r])) rs l w = Ok (rs', w') ->
  length rs' = length rs + length l.
Proof.
  revert rs w. induction l as [|c l IH]; intros rs w Hr; [injection Hr as <- _; simpl; lia|]. cbn [io_fold] in Hr.
  run_bind Hr. run_bind Hrun. injection Hrun as <- <-. apply IH in Hr. rewrite length_app in Hr. simpl in *. lia.
Qed.

(** A search that returns has changed no file, and gives at most [limit] documents,
    whatever the sidecars hold. *)
Theorem search_reads_within_limit db m query layer limit w results w' :
  (0 <= limit)%Z -> search db m query layer limit w = Ok (results, w') ->
  w' = w /\ (Z.of_nat (length results) <= limit)%Z.
Proof.
  intros Hlimit Hs. split.
  - revert Hs. apply (fun Hr : reads_only (search db m query layer limit) => Hr w results w').
    unfold search, find_lexicon_entries, open_cursor. cbv zeta. reads_step.
  - unfold search in Hs. cbv zeta in Hs.
    destruct (Z.eqb_spec limit 0) as [->|Hne]; cbn [orb] in Hs; [by injection Hs as <- _|].
    destruct (_ =? 0)%Z; [injection Hs as <- _; simpl; lia|]. run_bind Hs. run_bind Hs.
    case_decide; [injection Hs as <- _; simpl; lia|]. run_bind Hs. case_decide; [injection Hs as <- _; simpl; lia|].
    do 5 (run_bind Hs). do 4 (run_bind Hs). apply rank_length in Hrun6; [|lia|simpl; lia].
    apply read_results_length in Hs. rewrite Hs. simpl. by rewrite sort_by_perm.
Qed.
End safe.

(** ** Three documents about graphs *)

(** *** Codecs *)
#[local] Open Scope rust_scope.

Definition fits_u32 (v : Z) : bool := (0 <=? v)%Z && (v <=? u32_max)%Z.
Definition fits_u64 (v : Z) : bool := (0 <=? v)%Z && (v <=? u64_max)%Z.

Definition plain_document (doc : SearchDocument) : native_result (list Z) :=
  if fits_u32 (doc_index_order doc) && fits_u32 (Z.of_nat (String.length (doc_id doc))) then
    Ok (to_le 4 (doc_index_order doc) ++ [layer_code (doc_layer doc)]
        ++ to_le 4 (Z.of_nat (String.length (doc_id doc))) ++ str_bytes (doc_id doc) ++ str_bytes (doc_node_type doc))
  else Err (JsonError "number").

Definition read_plain_document (bytes : list Z) : native_result SearchDocument :=
  let? (order, bytes) := read_u32 bytes in
  let? (layer, bytes) := read_exact 1 bytes in
  let? layer := ok_or (JsonError "layer") (from_code (default 0%Z (head layer))) in
  let? (length, bytes) := read_u32 bytes in
  let? (id, bytes) := read_exact (Z.to_nat length) bytes in
  Ok {| doc_id := bytes_str id; doc_node_type := bytes_str bytes; doc_index_order := order; doc_layer := layer |}.

Definition metadata_bytes (m : SidecarFileMetadata) : list Z :=
  to_le 8 (file_format_version m) ++ to_le 8 (file_document_count m) ++ to_le 8 (file_term_count m)
  ++ to_le 8 (file_total_tokens m) ++ str_bytes (file_backend m).

Definition plain_metadata (m : SidecarFileMetadata) : native_result string :=
  if forallb fits_u64 [file_format_version m; file_document_count m; file_term_count m; file_total_tokens m]
  then Ok (bytes_str (metadata_bytes m)) else Err (JsonError "number").

Definition read_plain_metadata (bytes : list Z) : native_result SidecarFileMetadata :=
  let? (version, bytes) := read_u64 bytes in
  let? (documents, bytes) := read_u64 bytes in
  let? (terms, bytes) := read_u64 bytes in
  let? (tokens, bytes) := read_u64 bytes in
  Ok {| file_backend := bytes_str (removelast bytes); file_format_version := version;
        file_document_count := documents; file_term_count := terms; file_total_tokens := tokens |}.

(** A node per line, whose first character is its identifier. *)
Definition line_nodes (bytes : list Z) : list StagedNode :=
  (fun line => {| sn_id := substring 0 1 line; sn_label := ""; sn_path := ""; sn_qualified_name := "";
                  sn_summary := ""; sn_text := line; sn_tree_sitter_node_type := "" |})
  <$> split "010"%char (bytes_str bytes).

#[export] Instance example_codecs : SearchCodecs := {
  encode_document := plain_document;
  decode_document := read_plain_document;
  encode_metadata := plain_metadata;
  decode_metadata := read_plain_metadata;
  decode_staged_nodes := fun bytes => (line_nodes bytes, Ok tt);
  sha256_hex := fun bytes => show_Z (foldr (fun b n => (b + 257 * n) mod 1000003)%Z 0%Z bytes)
}.

Lemma Ok_inj {A} (a b : A) : @Ok NativeError A a = Ok b -> a = b.
Proof. congruence. Qed.

Lemma fits_u32_true v : fits_u32 v = true -> u32 v.
Proof. unfold fits_u32, u32. intros [?%Z.leb_le ?%Z.leb_le]%andb_prop. done. Qed.
Lemma fits_u64_true v : fits_u64 v = true -> u64 v.
Proof. unfold fits_u64, u64. intros [?%Z.leb_le ?%Z.leb_le]%andb_prop. done. Qed.

Lemma to_le_range n v : Forall (fun b => 0 <= b < 256)%Z (to_le n v).
Proof.
  revert v. induction n as [|n IH]; intros v; constructor; [|apply IH].
  apply Z.mod_pos_bound. lia.
Qed.

#[export] Instance example_codec_laws : SearchCodecLaws.
Proof.
  split.
  - intros doc bytes. cbn [encode_document decode_document example_codecs]. unfold plain_document.
    destruct (fits_u32 (doc_index_order doc) && _) eqn:Hf; [|done]. intros <-%Ok_inj.
    apply andb_prop in Hf as [Ho%fits_u32_true Hl%fits_u32_true]. unfold read_plain_document.
    rewrite read_u32_app by done. cbn [result_bind]. rewrite read_exact_app by done. cbn [result_bind head default].
    unfold id. rewrite from_layer_code. cbn [ok_or result_bind]. rewrite read_u32_app by done. cbn [result_bind].
    rewrite Nat2Z.id, read_exact_app by apply length_str_bytes. cbn [result_bind].
    rewrite !bytes_str_bytes. by destruct doc.
  - intros m s. cbn [encode_metadata decode_metadata example_codecs]. unfold plain_metadata. destruct (forallb fits_u64 _) eqn:Hf; [|done]. intros <-%Ok_inj.
    simpl in Hf. rewrite andb_true_r in Hf. apply andb_prop in Hf as [H1%fits_u64_true Hf].
    apply andb_prop in Hf as [H2%fits_u64_true Hf]. apply andb_prop in Hf as [H3%fits_u64_true H4%fits_u64_true].
    rewrite str_bytes_app, str_bytes_str.
    2: { unfold metadata_bytes. repeat (apply Forall_app; split; [apply to_le_range|]). apply str_bytes_range. }
    unfold metadata_bytes, read_plain_metadata. rewrite <- !app_assoc.
    do 4 (rewrite read_u64_app by done; cbn [result_bind]).
    change (str_bytes (String "010" "")) with [10%Z]. rewrite removelast_last, bytes_str_bytes. by destruct m.
Qed.

(** ** ASCII *)
#[export] Instance ascii_tables : CharTables := {
  is_alphanumeric := fun c => in_range 48 57 c || in_range 65 90 c || in_range 97 122 c;
  char_lowercase := fun c => [if in_range 65 90 c then c + 32 else c]%Z
}.

#[export] Instance ascii_laws : CharLaws.
Proof.
  split; [|done]. intros c Hc. simpl. constructor; [|constructor].
  destruct (in_range 65 90 c) eqn:Er; [|done]. apply in_range_spec in Er. left. lia.
Qed.

#[export] Instance small_memory : SearchMemory := {
  occurrence_size := 32;
  term_capacity := fun t => Z.of_nat (String.length t);
  reserved_capacity := fun _ n => Z.min (Z.of_nat n + 1) (2 ^ 40)
}.

#[export] Instance small_memory_laws : SearchMemoryLaws.
Proof.
  split; simpl.
  - lia.
  - intros t [_ Ht]. unfold MAX_TERM_BYTES in Ht. lia.
  - intros c n. lia.
Qed.

(** The Pade approximation of the logarithm near 1. *)
#[export] Instance pade_libm : Libm := fun x =>
  let y := f64_sub x (f64_of_Z 1) in f64_div (f64_mul (f64_of_Z 2) y) (f64_add (f64_of_Z 2) y).

(** ** The staged nodes *)
Definition newline_string : string := String "010" "".
Definition example_world : World := {|
  disk := {["stage/symbol.json" := str_bytes ("a Graph builder" +:+ newline_string +:+ "b parser");
            "stage/module.json" := str_bytes "c graph of the graph index"]};
  metrics := {| bytes_written := 0; current_bytes := 0; high_water_bytes := 0 |}
|}.
Definition example_specs : list SearchIndexSpec := [
  {| index_fields := ["text"]; index_layer := "semantic"; index_node_types := ["Symbol"; "Module"] |}
].
Abbreviation example_corpus := (corpus_of "stage" (disk example_world) example_specs).

Definition example_document (id node_type : string) : SearchDocument :=
  {| doc_id := id; doc_node_type := node_type; doc_index_order := 0; doc_layer := Semantic |}.

Example example_corpus_value : example_corpus = [
  (example_document "a" "Symbol", ["a"; "graph"; "builder"]);
  (example_document "b" "Symbol", ["b"; "parser"]);
  (example_document "c" "Module", ["c"; "graph"; "of"; "the"; "graph"; "index"])].
Proof. vm_compute. reflexivity. Qed.

(** ** A build is accepted *)
Lemma example_fits_corpus : corpus_fits example_corpus.
Proof.
  rewrite example_corpus_value. split.
  - vm_compute. congruence.
  - unfold few_occs. vm_compute. congruence.
  - apply Forall_forall. repeat constructor; vm_compute; congruence.
  - apply Forall_forall. repeat constructor; vm_compute; congruence.
  - apply Forall_forall. repeat constructor; vm_compute; congruence.
Qed.

Lemma first_char_ne a b s t : a <> b -> String a s <> String b t.
Proof. by intros Hab [= ?]. Qed.

Lemma staged_outside node_type i : ~ index_region "db" 7 (chunk_path "stage" node_type i).
Proof.
  assert (exists s, chunk_path "stage" node_type i = String "s" s) as [s ->].
  { unfold chunk_path, staged_chunk_path. destruct (i =? 0)%Z; by eexists. }
  intros [(suffix & _ & Heq)|[r Heq]].
  - by apply (first_char_ne "s" "d" s ("b." +:+ suffix)) in Heq.
  - by injection Heq.
Qed.

Lemma example_accepted : build_accepted "db" "stage" 7 20 example_specs example_world.
Proof.
  split; [split|].
  - done.
  - apply Forall_forall. repeat constructor; vm_compute; reflexivity.
  - apply staged_outside.
  - done.
  - vm_compute. congruence.
  - vm_compute. congruence.
  - apply example_fits_corpus.
  - vm_compute. reflexivity.
  - vm_compute. congruence.
Qed.

(** ** Witnesses *)
Definition not_nan_candidates (ix : Index) (total : Z) (query : string) (l : SearchLayer) : bool :=
  forallb (fun c => negb (is_nan (cand_score c))) (candidates ix total (query_terms query) l).

Lemma not_nan_spec ix total query l :
  not_nan_candidates ix total query l = true ->
  forall c, c ∈ candidates ix total (query_terms query) l -> is_nan (cand_score c) = false.
Proof.
  intros Hall c Hc. unfold not_nan_candidates in Hall. rewrite forallb_forall in Hall.
  apply list_elem_of_In, Hall in Hc. by destruct (is_nan _).
Qed.

Definition found (results : list RankedDocument) : list string := ranked_id <$> results.

(** The documents that hold "graph" or "parser", the best two of three. *)
Lemma build_then_search_witness :
  found (search_spec (corpus_index example_corpus) 11 (query_terms "Graph parser") Semantic 2) = ["b"; "c"] /\
  wp (r ← build "db" "stage" 20 example_specs 7;
      search "db" (result_metadata r) "Graph parser" "semantic" 2) example_world never
    (fun results w =>
       results = search_spec (corpus_index example_corpus) 11 (query_terms "Graph parser") Semantic 2 /\
       frame (index_region "db" 7) example_world w).
Proof.
  split; [vm_compute; reflexivity|].
  apply (build_then_search "db" "stage" 7 20 example_specs example_world "Graph parser" "semantic" Semantic 2
    example_accepted eq_refl ltac:(lia)).
  apply not_nan_spec. vm_compute. reflexivity.
Defined.

Lemma build_then_validate_witness :
  wp (r ← build "db" "stage" 20 example_specs 7; _ ← validate "db" (result_metadata r); mret r)
    example_world never (built "db" 7 example_corpus example_world).
Proof. apply (build_then_validate "db" "stage" 7 20 example_specs example_world example_accepted). Defined.

(** The disk after the build, and the metadata of its result. *)
Definition built_metadata : SearchBackendMetadata :=
  match build "db" "stage" 20 example_specs 7 example_world with
  | Ok (r, _) => result_metadata r
  | Err _ => {| backend := ""; format_version := 0; backend_files := ∅; document_count := 0; term_count := 0; total_tokens := 0 |}
  end.
Definition built_world : World :=
  match build "db" "stage" 20 example_specs 7 example_world with Ok (_, w) => w | Err _ => example_world end.

Lemma built_bytes : bytes_world built_world.
Proof.
  assert (map_Forall (fun _ bytes => bytes_ok bytes) (disk built_world)) as Hall.
  { assert (forallb (fun e => forallb (fun b => (0 <=? b) && (b <? 256))%Z e.2) (map_to_list (disk built_world)) = true) as Hb
      by (vm_compute; reflexivity).
    rewrite forallb_forall in Hb. intros p bytes Hp. apply elem_of_map_to_list, list_elem_of_In, Hb in Hp. simpl in Hp.
    rewrite Forall_forall. rewrite forallb_forall in Hp. intros b Hin%list_elem_of_In.
    apply Hp, andb_prop in Hin as [?%Z.leb_le ?%Z.ltb_lt]. done. }
  intros p bytes Hp. by apply (Hall p).
Qed.

Lemma built_validated : validate "db" built_metadata built_world = Ok (tt, built_world).
Proof. vm_compute. reflexivity. Qed.

Lemma validate_accepts_exactly_witness :
  (exists ix, index_exact "db" ix built_metadata built_world) /\
  ~ exists ix, index_exact "db" ix built_metadata example_world.
Proof.
  assert (bytes_world example_world) as He.
  { intros p bytes Hp. unfold example_world in Hp. cbn [disk] in Hp. apply lookup_insert_Some in Hp as [[_ <-]|[_ Hp]]; [apply str_bytes_range|].
    apply lookup_singleton_Some in Hp as [_ <-]. apply str_bytes_range. }
  split.
  - apply (validate_accepts_exactly "db" built_metadata built_world built_world built_bytes). apply built_validated.
  - intros Hix. assert (validate "db" built_metadata example_world = Ok (tt, example_world)) as Hv.
    { apply (validate_accepts_exactly "db" built_metadata example_world example_world He). by split. }
    vm_compute in Hv. discriminate Hv.
Defined.

Lemma validated_search_correct_witness :
  exists ix, index_exact "db" ix built_metadata built_world /\
    ((forall c, c ∈ candidates ix (Z.of_N (total_tokens built_metadata)) (query_terms "index of a parser") Semantic ->
        is_nan (cand_score c) = false) ->
     search "db" built_metadata "index of a parser" "semantic" 5 built_world
     = Ok (search_spec ix (Z.of_N (total_tokens built_metadata)) (query_terms "index of a parser") Semantic 5, built_world)).
Proof.
  apply (validated_search_correct "db" built_metadata built_world "index of a parser" "semantic" Semantic 5
    built_bytes built_validated eq_refl). lia.
Defined.

(** "32_bit Graphs" has two terms. *)
Lemma tokenize_words_witness :
  words (chars "32_bit Graphs!") = [chars "32_bit"; chars "Graphs"] /\
  tokenize "32_bit Graphs!" = ["32_bit"; "graphs"] /\ Forall term_ok (tokenize "32_bit Graphs!").
Proof.
  split; [vm_compute; reflexivity|]. destruct (tokenize_words "32_bit Graphs!") as [-> Hok].
  split; [vm_compute; reflexivity|exact Hok].
Defined.

Lemma search_reads_within_limit_witness :
  match search "db" built_metadata "graph" "semantic" 1 built_world with
  | Ok (results, w') => w' = built_world /\ (Z.of_nat (length results) <= 1)%Z
  | Err _ => False
  end.
Proof.
  destruct (search "db" built_metadata "graph" "semantic" 1 built_world) as [[results w']|e] eqn:E.
  - apply (search_reads_within_limit "db" built_metadata "graph" "semantic" 1 built_world results w'); [lia|exact E].
  - vm_compute in E. discriminate E.
Defined.
