(* ===== verification/Budget.v ===== *)
(** * The memory budget of the storage maintenance (src/storage/maintenance_budget.rs)

    One account, shared by reference counting, bounds what the maintenance allocates.  Its
    counters are atomics, so the operations of several threads interleave between any two
    atomic instructions: [step] is one instruction, told apart by an [event].  Every
    instruction on one counter takes effect at once (the modification order of a single
    atomic); what the orderings of the code add is the publication of other memory. *)
From S2P Require Import Prelude Order.

Definition wrap_u64 (z : Z) : Z := (z mod 2 ^ 64)%Z.
Definition isize_max : Z := (2 ^ 63 - 1)%Z.

Inductive ResourceLimit := ArithmeticOverflow | CeilingExceeded | AllocationFailed.
#[export] Instance ResourceLimit_eq_dec : EqDecision ResourceLimit.
Proof. solve_decision. Defined.

Record Account := {
  references : Z;
  limit : Z;
  used : Z;
  peak : Z
}.

(** ** Atomic instructions *)
Definition fetch_add_references (a : Account) : Account :=
  {| references := wrap_u64 (references a + 1); limit := limit a; used := used a; peak := peak a |}.
Definition fetch_sub_references (a : Account) : Account :=
  {| references := wrap_u64 (references a - 1); limit := limit a; used := used a; peak := peak a |}.
Definition fetch_sub_used (a : Account) (bytes : Z) : Account :=
  {| references := references a; limit := limit a; used := wrap_u64 (used a - bytes); peak := peak a |}.
Definition fetch_max_peak (a : Account) (new : Z) : Account :=
  {| references := references a; limit := limit a; used := used a; peak := Z.max (peak a) new |}.
Definition store_used (a : Account) (new : Z) : Account :=
  {| references := references a; limit := limit a; used := new; peak := peak a |}.

Section budget.
(** [Layout::new::<Account>().size()] *)
Context (account_size : Z).

Definition new_account (ceiling : Z) (allocated : bool) : result ResourceLimit Account :=
  if (ceiling <? account_size)%Z then Err CeilingExceeded
  else if negb allocated then Err AllocationFailed
  else Ok {| references := 1; limit := ceiling; used := account_size; peak := account_size |}.
End budget.

Open Scope rust_scope.

(** What [reserve] computes before it exchanges. *)
Definition charge (ceiling bytes old : Z) : result ResourceLimit Z :=
  let? new := ok_or ArithmeticOverflow (checked_add_u64 old bytes) in
  if (ceiling <? new)%Z then Err CeilingExceeded else Ok new.

(** ** Threads and owners *)
(** Where a thread is in [reserve], called on handle [h]: before the exchange, behind it,
    behind [fetch_max]. *)
Inductive Reserving :=
| Looping (h : nat) (bytes old : Z)
| Charged (h : nat) (bytes new : Z)
| Raised (h : nat) (bytes : Z).

(** A reservation, and one that owns an allocation of [len] bytes ([ReservedBytes],
    [MemoryBox]).  [Dropping] has given its bytes back and not yet its reference. *)
Inductive Reservation :=
| Live (bytes : Z)
| Backed (bytes len : Z)
| Dropping.

Record System := {
  account : option Account;
  handles : gset nat;
  reservations : gmap nat Reservation;
  threads : gmap nat Reserving
}.

Definition with_account (s : System) (a : option Account) : System :=
  {| account := a; handles := handles s; reservations := reservations s; threads := threads s |}.
Definition with_handles (s : System) (hs : gset nat) : System :=
  {| account := account s; handles := hs; reservations := reservations s; threads := threads s |}.
Definition with_reservation (s : System) (r : nat) (x : Reservation) : System :=
  {| account := account s; handles := handles s; reservations := <[r := x]> (reservations s);
     threads := threads s |}.
Definition without_reservation (s : System) (r : nat) : System :=
  {| account := account s; handles := handles s; reservations := delete r (reservations s);
     threads := threads s |}.
Definition with_thread (s : System) (t : nat) (x : Reserving) : System :=
  {| account := account s; handles := handles s; reservations := reservations s;
     threads := <[t := x]> (threads s) |}.
Definition without_thread (s : System) (t : nat) : System :=
  {| account := account s; handles := handles s; reservations := reservations s;
     threads := delete t (threads s) |}.

Definition borrows (h : nat) (x : Reserving) : bool :=
  match x with Looping h' _ _ | Charged h' _ _ | Raised h' _ => bool_decide (h' = h) end.
(** A handle that some thread has borrowed is not dropped. *)
Definition is_borrowed (s : System) (h : nat) : bool :=
  existsb (fun e => borrows h e.2) (map_to_list (threads s)).

Inductive event :=
| ELoad (t h : nat) (bytes : Z)          (* reserve: load *)
| ERefuse (t : nat) (e : ResourceLimit)  (* reserve: return Err *)
| EExchange (t : nat)                    (* reserve: compare_exchange_weak succeeds *)
| ELose (t : nat) (spurious : bool)      (* reserve: compare_exchange_weak fails *)
| ERaise (t : nat)                       (* reserve: fetch_max *)
| EReserve (t r : nat)                   (* reserve: clone, return Ok *)
| EClone (h h' : nat)
| EDropHandle (h : nat)
| EAllocate (r : nat) (len : Z) (allocated : bool)
| EFree (r : nat)
| ERelease (r : nat)                     (* drop of a reservation: fetch_sub *)
| EDropReservation (r : nat).            (* drop of a reservation: drop of its handle *)

(** [CleanupMemory::clone]; no value where the process aborts. *)
Definition clone_account (a : Account) : option Account :=
  if (isize_max <=? references a)%Z then None else Some (fetch_add_references a).
(** [CleanupMemory::drop]; [None] where the account is deallocated. *)
Definition drop_account (a : Account) : option Account :=
  if (references a =? 1)%Z then None else Some (fetch_sub_references a).

(** [MemoryReservation::bytes] and [MemoryBox::new]: the allocation is behind the check. *)
Definition allocate (bytes len : Z) (allocated : bool) : result ResourceLimit () :=
  if (bytes <? len)%Z then Err CeilingExceeded
  else if (isize_max <? len)%Z then Err ArithmeticOverflow
  else if negb (len =? 0)%Z && negb allocated then Err AllocationFailed
  else Ok tt.

(** One instruction of one thread, on an account that is there. *)
Definition step_on (s : System) (a : Account) (e : event) : option System :=
  match e with
  | ELoad t h bytes =>
      if bool_decide (h ∈ handles s) && bool_decide (threads s !! t = None) && (0 <=? bytes)%Z && (bytes <=? u64_max)%Z
      then Some (with_thread s t (Looping h bytes (used a))) else None
  | ERefuse t e =>
      match threads s !! t with
      | Some (Looping _ bytes old) =>
          match charge (limit a) bytes old with
          | Err e' => if decide (e = e') then Some (without_thread s t) else None
          | Ok _ => None
          end
      | _ => None
      end
  | EExchange t =>
      match threads s !! t with
      | Some (Looping h bytes old) =>
          match charge (limit a) bytes old with
          | Ok new =>
              if (used a =? old)%Z then
                Some (with_account (with_thread s t (Charged h bytes new)) (Some (store_used a new)))
              else None
          | Err _ => None
          end
      | _ => None
      end
  | ELose t spurious =>
      match threads s !! t with
      | Some (Looping h bytes old) =>
          match charge (limit a) bytes old with
          | Ok _ =>
              if spurious || negb (used a =? old)%Z then Some (with_thread s t (Looping h bytes (used a)))
              else None
          | Err _ => None
          end
      | _ => None
      end
  | ERaise t =>
      match threads s !! t with
      | Some (Charged h bytes new) =>
          Some (with_account (with_thread s t (Raised h bytes)) (Some (fetch_max_peak a new)))
      | _ => None
      end
  | EReserve t r =>
      match threads s !! t, reservations s !! r with
      | Some (Raised h bytes), None =>
          a ← clone_account a;
          Some (with_account (with_reservation (without_thread s t) r (Live bytes)) (Some a))
      | _, _ => None
      end
  | EClone h h' =>
      if bool_decide (h ∈ handles s) && bool_decide (h' ∉ handles s) then
        a ← clone_account a;
        Some (with_account (with_handles s ({[h']} ∪ handles s)) (Some a))
      else None
  | EDropHandle h =>
      if bool_decide (h ∈ handles s) && negb (is_borrowed s h) then
        Some (with_account (with_handles s (handles s ∖ {[h]})) (drop_account a))
      else None
  | EAllocate r len allocated =>
      match reservations s !! r with
      | Some (Live bytes) =>
          if (len <? 0)%Z then None
          else match allocate bytes len allocated with
               | Ok _ => Some (with_reservation s r (Backed bytes len))
               | Err _ => Some s
               end
      | _ => None
      end
  | EFree r =>
      match reservations s !! r with
      | Some (Backed bytes _) => Some (with_reservation s r (Live bytes))
      | _ => None
      end
  | ERelease r =>
      match reservations s !! r with
      | Some (Live bytes) => Some (with_account (with_reservation s r Dropping) (Some (fetch_sub_used a bytes)))
      | _ => None
      end
  | EDropReservation r =>
      match reservations s !! r with
      | Some Dropping => Some (with_account (without_reservation s r) (drop_account a))
      | _ => None
      end
  end.

(** Nothing refers to an account that is gone. *)
Definition step (s : System) (e : event) : option System :=
  a ← account s; step_on s a e.

Definition run (s : System) (es : list event) : option System := foldl (fun s e => s ≫= fun s => step s e) (Some s) es.

(** The system of a fresh account, with its first handle. *)
Definition start (a : Account) : System :=
  {| account := Some a; handles := {[0]}; reservations := ∅; threads := ∅ |}.

(** ** Grants *)
Inductive GrantExhausted := Entries | Time.

(** [started] and [duration] in nanoseconds; the clock is an argument. *)
Record MutationGrant := { started : Z; duration : Z; remaining_entries : Z }.

Definition with_limits (now entries duration : Z) : MutationGrant :=
  {| started := now; duration := duration; remaining_entries := entries |}.
Definition start_grant (now : Z) : MutationGrant := with_limits now 100 100000000.

Definition check_time (g : MutationGrant) (now : Z) : result GrantExhausted () :=
  if (duration g <=? now - started g)%Z then Err Time else Ok tt.
Definition check (g : MutationGrant) (now : Z) : result GrantExhausted () :=
  let? _ := check_time g now in
  if (remaining_entries g =? 0)%Z then Err Entries else Ok tt.
Definition take_entries (g : MutationGrant) (now count : Z) : result GrantExhausted () * MutationGrant :=
  match check g now with
  | Err e => (Err e, g)
  | Ok _ =>
      if (remaining_entries g <? count)%Z then (Err Entries, g)
      else (Ok tt, {| started := started g; duration := duration g;
                      remaining_entries := remaining_entries g - count |})
  end.
Definition take_entry (g : MutationGrant) (now : Z) : result GrantExhausted () * MutationGrant :=
  take_entries g now 1.
