(* ===== verification/BudgetLaws.v ===== *)
(** * The budget holds under every interleaving

    [budget_ok] is the invariant: the counter is the sum of what is reserved, within the
    limit, and the account lives exactly as long as something refers to it.  Reservations
    make progress: an exchange that fails because of contention was overtaken, and every
    such failure of a thread is paid for by a change that another thread made.  A thread
    that is left alone finishes in four instructions.  Grants run out. *)
From S2P Require Import Prelude Order Budget.

(** ** Sums over a map *)
Definition total {A} (f : A -> Z) (m : gmap nat A) : Z := map_fold (fun _ x n => f x + n)%Z 0%Z m.

Section total.
Context {A} (f : A -> Z).
Implicit Types m : gmap nat A.

Lemma total_empty : total f ∅ = 0%Z.
Proof. apply map_fold_empty. Qed.
Lemma total_insert m i x : m !! i = None -> total f (<[i := x]> m) = (f x + total f m)%Z.
Proof. intros Hi. unfold total. rewrite map_fold_insert_L; [done| |done]. intros. lia. Qed.
Lemma total_delete m i x : m !! i = Some x -> total f (delete i m) = (total f m - f x)%Z.
Proof.
  intros Hi. rewrite <- (insert_delete_id m i x Hi) at 2. rewrite total_insert by apply lookup_delete_eq. lia.
Qed.
Lemma total_update m i x y : m !! i = Some x -> total f (<[i := y]> m) = (total f m - f x + f y)%Z.
Proof.
  intros Hi. rewrite <- insert_delete_eq, total_insert by apply lookup_delete_eq. rewrite (total_delete _ _ _ Hi). lia.
Qed.
Lemma total_nonneg m : (forall i x, m !! i = Some x -> 0 <= f x)%Z -> (0 <= total f m)%Z.
Proof.
  induction m as [|i x m Hi IH] using map_ind; intros Hm; [by rewrite total_empty|]. rewrite total_insert by done.
  pose proof (Hm i x (lookup_insert_eq _ _ _)). assert (0 <= total f m)%Z; [|lia].
  apply IH. intros j y Hj. apply (Hm j). rewrite lookup_insert_ne; [done|]. by intros ->; rewrite Hi in Hj.
Qed.
Lemma total_ge m i x : (forall i x, m !! i = Some x -> 0 <= f x)%Z -> m !! i = Some x -> (f x <= total f m)%Z.
Proof.
  intros Hm Hi. assert (0 <= total f (delete i m))%Z.
  { apply total_nonneg. intros j y [_ Hj]%lookup_delete_Some. by apply (Hm j). }
  rewrite (total_delete _ _ _ Hi) in *. lia.
Qed.
End total.

Lemma total_le {A} (f g : A -> Z) (m : gmap nat A) :
  (forall i x, m !! i = Some x -> f x <= g x)%Z -> (total f m <= total g m)%Z.
Proof.
  induction m as [|i x m Hi IH] using map_ind; intros Hm; [done|]. rewrite !total_insert by done.
  pose proof (Hm i x (lookup_insert_eq _ _ _)). assert (total f m <= total g m)%Z; [|lia].
  apply IH. intros j y Hj. apply (Hm j). rewrite lookup_insert_ne; [done|]. by intros ->; rewrite Hi in Hj.
Qed.

(** ** What is reserved *)
Definition reserved_bytes (x : Reservation) : Z :=
  match x with Live b | Backed b _ => b | Dropping => 0 end.
Definition allocated_bytes (x : Reservation) : Z := match x with Backed _ len => len | _ => 0 end.
Definition charged_bytes (x : Reserving) : Z :=
  match x with Looping _ _ _ => 0 | Charged _ b _ | Raised _ b => b end.

Definition reservation_ok (x : Reservation) : Prop :=
  match x with Live b => 0 <= b | Backed b len => 0 <= len <= b | Dropping => True end%Z.
Definition thread_ok (ceiling : Z) (hs : gset nat) (x : Reserving) : Prop :=
  match x with
  | Looping h b old => h ∈ hs /\ (0 <= b <= u64_max)%Z /\ (0 <= old <= ceiling)%Z
  | Charged h b new => h ∈ hs /\ (0 <= b)%Z /\ (new <= ceiling)%Z
  | Raised h b => h ∈ hs /\ (0 <= b)%Z
  end.

Section laws.
Context (account_size ceiling : Z) (Hsize : (0 < account_size)%Z) (Hceiling : (ceiling <= u64_max)%Z).

Record account_ok (s : System) (a : Account) : Prop := {
  ok_limit : limit a = ceiling;
  ok_references : references a = Z.of_nat (size (handles s) + size (reservations s));
  ok_counted : (1 <= references a <= isize_max)%Z;
  ok_used : used a = (account_size + total reserved_bytes (reservations s) + total charged_bytes (threads s))%Z;
  ok_within : (used a <= ceiling)%Z;
  ok_peak : (peak a <= ceiling)%Z;
  ok_raised : (used a <= peak a)%Z \/
    exists t h b new, threads s !! t = Some (Charged h b new) /\ (used a <= new)%Z;
  ok_reservations r x : reservations s !! r = Some x -> reservation_ok x;
  ok_threads t x : threads s !! t = Some x -> thread_ok ceiling (handles s) x
}.

Definition budget_ok (s : System) : Prop :=
  match account s with
  | Some a => account_ok s a
  | None => handles s = ∅ /\ reservations s = ∅ /\ threads s = ∅
  end.

Lemma charge_Ok bytes old new :
  charge ceiling bytes old = Ok new <-> new = (old + bytes)%Z /\ (new <= ceiling)%Z.
Proof.
  unfold charge. split.
  - intros Hc. apply result_bind_Ok in Hc as (n & Hn & Hc). apply ok_or_Ok, checked_add_u64_Some in Hn as [-> _].
    destruct (Z.ltb_spec ceiling (old + bytes)); [done|]. by injection Hc as <-.
  - intros [-> Hle]. rewrite (proj2 (checked_add_u64_Some old bytes (old + bytes))) by (split; [done|lia]). simpl.
    destruct (Z.ltb_spec ceiling (old + bytes)); [lia|done].
Qed.

Lemma wrap_small z : (0 <= z < 2 ^ 64)%Z -> wrap_u64 z = z.
Proof. intros Hz. by apply Z.mod_small. Qed.

(** *** Sums that the counters track *)
Section sums.
Context (s : System) (a : Account) (Hok : account_ok s a).

Lemma reserved_nonneg i x : reservations s !! i = Some x -> (0 <= reserved_bytes x)%Z.
Proof. intros Hx%(ok_reservations _ _ Hok). destruct x; simpl in *; lia. Qed.
Lemma charged_nonneg i x : threads s !! i = Some x -> (0 <= charged_bytes x)%Z.
Proof. intros Hx%(ok_threads _ _ Hok). destruct x; simpl in *; lia. Qed.
Lemma used_bounds : (account_size <= used a <= ceiling)%Z.
Proof.
  pose proof (total_nonneg reserved_bytes _ reserved_nonneg). pose proof (total_nonneg charged_bytes _ charged_nonneg).
  rewrite (ok_used _ _ Hok). pose proof (ok_within _ _ Hok). rewrite (ok_used _ _ Hok) in *. lia.
Qed.
End sums.

(** *** Preservation *)
Definition charged_at (s : System) (t : nat) : Z :=
  match threads s !! t with Some y => charged_bytes y | None => 0 end.

Lemma total_thread_set s t x :
  total charged_bytes (<[t := x]> (threads s)) = (total charged_bytes (threads s) - charged_at s t + charged_bytes x)%Z.
Proof.
  unfold charged_at. destruct (threads s !! t) as [y|] eqn:Et; [by apply total_update|]. rewrite total_insert by done. lia.
Qed.
Lemma total_thread_delete s t :
  total charged_bytes (delete t (threads s)) = (total charged_bytes (threads s) - charged_at s t)%Z.
Proof.
  unfold charged_at. destruct (threads s !! t) as [y|] eqn:Et; [by apply total_delete|]. rewrite delete_id by done. lia.
Qed.

(** A thread moves on. *)
Lemma thread_set s a a' s' t x :
  account_ok s a -> handles s' = handles s -> reservations s' = reservations s -> threads s' = <[t := x]> (threads s) ->
  limit a' = limit a -> references a' = references a ->
  used a' = (used a - charged_at s t + charged_bytes x)%Z -> (used a' <= ceiling)%Z -> (peak a' <= ceiling)%Z ->
  thread_ok ceiling (handles s) x ->
  ((used a' <= peak a')%Z \/ exists t h b new, threads s' !! t = Some (Charged h b new) /\ (used a' <= new)%Z) ->
  account_ok s' a'.
Proof.
  intros [Hl Hr Hc Hu Hw Hp Hra Hres Hth] Eh Er Et Hl' Hr' Hu' Hw' Hp' Hx Hra'. split; rewrite ?Eh, ?Er; try done; try congruence.
  - rewrite Hu', Et, total_thread_set, Hu. lia.
  - intros t' y. rewrite Et. intros [[_ <-]|[_ Hy]]%lookup_insert_Some; [done|by eapply Hth].
Qed.

(** The counter of a thread that has not raised the peak. *)
Lemma raised_other s a t x :
  account_ok s a -> (forall h b n, threads s !! t <> Some (Charged h b n)) ->
  (used a <= peak a)%Z \/ exists t' h b new, <[t := x]> (threads s) !! t' = Some (Charged h b new) /\ (used a <= new)%Z.
Proof.
  intros Hok Ht. destruct (ok_raised _ _ Hok) as [|(t' & h & b & n & Ht' & Hn)]; [by left|right].
  exists t', h, b, n. split; [|done]. rewrite lookup_insert_ne; [done|]. intros ->. by eapply Ht.
Qed.

Lemma step_reserve s a e s' :
  account s = Some a -> account_ok s a -> step_on s a e = Some s' ->
  match e with ELoad _ _ _ | EExchange _ | ELose _ _ | ERaise _ => True | _ => False end -> budget_ok s'.
Proof.
  intros Ha Hok Hs He. pose proof (used_bounds _ _ Hok) as Hb. pose proof (ok_limit _ _ Hok) as Hlim.
  destruct e as [t h b|t e|t|t sp|t|t r|h h'|h|r len al|r|r|r]; try done; cbn [step_on] in Hs.
  - destruct (decide (h ∈ handles s)) as [Hh|]; [|by rewrite bool_decide_false in Hs].
    rewrite bool_decide_true in Hs by done. destruct (decide (threads s !! t = None)) as [Ht|]; [|by rewrite (bool_decide_false (_ = None)) in Hs].
    rewrite bool_decide_true in Hs by done. destruct (Z.leb_spec 0 b), (Z.leb_spec b u64_max); try done.
    injection Hs as <-. unfold budget_ok. simpl. rewrite Ha.
    apply (thread_set s a a _ t (Looping h b (used a))); try done; simpl; [unfold charged_at; rewrite Ht; lia|apply Hok|apply Hok|split_and!; (done || lia)|].
    apply raised_other; [done|]. by rewrite Ht.
  - destruct (threads s !! t) as [[h b old|h b n|h b]|] eqn:Ht; try done. pose proof (ok_threads _ _ Hok t _ Ht) as (Hh & Hbb & Hold).
    destruct (charge (limit a) b old) as [new|] eqn:Ec; [|done]. rewrite Hlim in Ec. apply charge_Ok in Ec as [-> Hle].
    destruct (Z.eqb_spec (used a) old) as [<-|]; [|done]. injection Hs as <-. unfold budget_ok. simpl.
    apply (thread_set s a _ _ t (Charged h b (used a + b))); try done; simpl; [unfold charged_at; rewrite Ht; simpl; lia|apply Hok|split_and!; (done || lia)|].
    right. exists t, h, b, (used a + b)%Z. by rewrite lookup_insert_eq.
  - destruct (threads s !! t) as [[h b old|h b n|h b]|] eqn:Ht; try done. pose proof (ok_threads _ _ Hok t _ Ht) as (Hh & Hbb & Hold).
    destruct (charge (limit a) b old) as [new|] eqn:Ec; [|done]. destruct (sp || _); [|done]. injection Hs as <-.
    unfold budget_ok. simpl. rewrite Ha.
    apply (thread_set s a a _ t (Looping h b (used a))); try done; simpl; [unfold charged_at; rewrite Ht; simpl; lia|apply Hok|apply Hok|split_and!; (done || lia)|].
    apply raised_other; [done|]. by rewrite Ht.
  - destruct (threads s !! t) as [[h b old|h b n|h b]|] eqn:Ht; try done. pose proof (ok_threads _ _ Hok t _ Ht) as (Hh & Hbb & Hn).
    injection Hs as <-. unfold budget_ok. simpl.
    apply (thread_set s a _ _ t (Raised h b)); try done; simpl; [unfold charged_at; rewrite Ht; simpl; lia|apply Hok|pose proof (ok_peak _ _ Hok); lia|].
    destruct (ok_raised _ _ Hok) as [|(t' & h' & b' & n' & Ht' & Hn')]; [left; lia|].
    destruct (decide (t' = t)) as [->|Hne]; [rewrite Ht in Ht'; injection Ht' as -> -> ->; left; lia|].
    right. exists t', h', b', n'. by rewrite lookup_insert_ne.
Qed.

Lemma raised_delete s a t :
  account_ok s a -> (forall h b n, threads s !! t <> Some (Charged h b n)) ->
  (used a <= peak a)%Z \/ exists t' h b new, delete t (threads s) !! t' = Some (Charged h b new) /\ (used a <= new)%Z.
Proof.
  intros Hok Ht. destruct (ok_raised _ _ Hok) as [|(t' & h & b & n & Ht' & Hn)]; [by left|right].
  exists t', h, b, n. split; [|done]. rewrite lookup_delete_ne; [done|]. intros ->. by eapply Ht.
Qed.

Lemma deleted_threads s a t : account_ok s a -> forall t' x, delete t (threads s) !! t' = Some x -> thread_ok ceiling (handles s) x.
Proof. intros Hok t' x [_ Hx]%lookup_delete_Some. by eapply (ok_threads _ _ Hok). Qed.

Lemma clone_counted s a a' :
  account_ok s a -> clone_account a = Some a' ->
  a' = {| references := references a + 1; limit := limit a; used := used a; peak := peak a |} /\ (references a + 1 <= isize_max)%Z.
Proof.
  intros Hok. unfold clone_account. destruct (Z.leb_spec isize_max (references a)); [done|]. intros [= <-].
  pose proof (ok_counted _ _ Hok). unfold fetch_add_references, isize_max in *. rewrite wrap_small by lia. split; [done|lia].
Qed.

Lemma step_leave s a e s' :
  account s = Some a -> account_ok s a -> step_on s a e = Some s' ->
  match e with ERefuse _ _ | EReserve _ _ => True | _ => False end -> budget_ok s'.
Proof.
  intros Ha Hok Hs He. destruct e as [t h b|t e|t|t sp|t|t r|h h'|h|r len al|r|r|r]; try done; cbn [step_on] in Hs.
  - destruct (threads s !! t) as [[h b old|h b n|h b]|] eqn:Ht; try done. destruct (charge _ _ _); [done|].
    case_decide; [|done]. injection Hs as <-. unfold budget_ok. simpl. rewrite Ha.
    assert (charged_at s t = 0%Z) as Hz by (unfold charged_at; by rewrite Ht). destruct Hok eqn:E. split; simpl; try done.
    + rewrite total_thread_delete. lia.
    + apply raised_delete; [done|]. by rewrite Ht.
    + by eapply deleted_threads.
  - destruct (threads s !! t) as [[h b old|h b n|h b]|] eqn:Ht; try done. destruct (reservations s !! r) eqn:Hr; [done|].
    destruct (clone_account a) as [a'|] eqn:Ec; [|done]. injection Hs as <-.
    destruct (clone_counted _ _ _ Hok Ec) as [-> Hmax].
    pose proof (ok_threads _ _ Hok t _ Ht) as (Hh & Hb).
    assert (charged_at s t = b) as Hz by (unfold charged_at; by rewrite Ht). unfold budget_ok. simpl.
    destruct Hok eqn:E. split; simpl; try done.
    + rewrite map_size_insert_None by done. lia.
    + lia.
    + rewrite total_insert by done. rewrite total_thread_delete. simpl. lia.
    + apply raised_delete; [done|]. by rewrite Ht.
    + intros r' x [[_ <-]|[_ Hx]]%lookup_insert_Some; [done|by eapply ok_reservations0].
    + by eapply deleted_threads.
Qed.

Lemma thread_ok_mono hs hs' x : (forall h, h ∈ hs -> h ∈ hs') -> thread_ok ceiling hs x -> thread_ok ceiling hs' x.
Proof. intros Hsub. destruct x; simpl; intuition. Qed.

(** A reservation changes, or its bytes go back. *)
Lemma reservation_set s a a' s' r x y :
  account_ok s a -> reservations s !! r = Some x -> handles s' = handles s -> threads s' = threads s ->
  reservations s' = <[r := y]> (reservations s) -> limit a' = limit a -> references a' = references a -> peak a' = peak a ->
  used a' = (used a - reserved_bytes x + reserved_bytes y)%Z -> (reserved_bytes y <= reserved_bytes x)%Z ->
  reservation_ok y -> account_ok s' a'.
Proof.
  intros [Hl Hr Hc Hu Hw Hp Hra Hres Hth] Hx Eh Et Er Hl' Hr' Hp' Hu' Hle Hy. split; rewrite ?Eh, ?Et; try done; try congruence.
  - rewrite Er, map_size_insert_Some by (by rewrite Hx). congruence.
  - rewrite Hu', Er, (total_update _ _ _ x) by done. lia.
  - lia.
  - destruct Hra as [|(t & h & b & n & Ht & Hn)]; [left; lia|right; exists t, h, b, n; split; [done|lia]].
  - intros r' z. rewrite Er. intros [[_ <-]|[_ Hz]]%lookup_insert_Some; [done|by eapply Hres].
Qed.

Lemma step_reservation s a e s' :
  account s = Some a -> account_ok s a -> step_on s a e = Some s' ->
  match e with EAllocate _ _ _ | EFree _ | ERelease _ => True | _ => False end -> budget_ok s'.
Proof.
  intros Ha Hok Hs He. destruct e as [t h b|t e|t|t sp|t|t r|h h'|h|r len al|r|r|r]; try done; cbn [step_on] in Hs;
    destruct (reservations s !! r) as [[b|b l|]|] eqn:Hr; try done; pose proof (ok_reservations _ _ Hok r _ Hr) as Hrok; simpl in Hrok.
  - destruct (Z.ltb_spec len 0); [done|]. destruct (allocate b len al) as [|] eqn:Eal.
    + injection Hs as <-. unfold budget_ok. simpl. rewrite Ha.
      apply (reservation_set s a a _ r (Live b) (Backed b len)); try done; simpl; [lia|].
      unfold allocate in Eal. destruct (Z.ltb_spec b len); [done|lia].
    + injection Hs as <-. unfold budget_ok. by rewrite Ha.
  - injection Hs as <-. unfold budget_ok. simpl. rewrite Ha.
    apply (reservation_set s a a _ r (Backed b l) (Live b)); try done; simpl; lia.
  - injection Hs as <-. unfold budget_ok. simpl. pose proof (used_bounds _ _ Hok) as Hub.
    pose proof (total_ge reserved_bytes _ r _ (reserved_nonneg _ _ Hok) Hr) as Hge. simpl in Hge.
    pose proof (total_nonneg charged_bytes _ (charged_nonneg _ _ Hok)). pose proof (ok_used _ _ Hok).
    apply (reservation_set s a _ _ r (Live b) Dropping); try done; simpl.
    unfold u64_max in Hceiling. rewrite wrap_small by lia. lia.
Qed.

(** *** Owners come and go *)
Lemma drop_counted a :
  (1 <= references a <= isize_max)%Z ->
  match drop_account a with
  | Some a' => a' = {| references := references a - 1; limit := limit a; used := used a; peak := peak a |} /\ (1 < references a)%Z
  | None => references a = 1%Z
  end.
Proof.
  intros Hr. unfold drop_account. destruct (Z.eqb_spec (references a) 1); [done|]. split; [|lia].
  unfold fetch_sub_references, isize_max in *. by rewrite wrap_small by lia.
Qed.

Lemma not_borrowed s h t x : is_borrowed s h = false -> threads s !! t = Some x -> borrows h x = false.
Proof.
  unfold is_borrowed. intros Hb Ht. destruct (borrows h x) eqn:E; [|done]. rewrite <- Hb. symmetry.
  apply existsb_exists. exists (t, x). split; [by apply list_elem_of_In, elem_of_map_to_list|done].
Qed.

Lemma thread_handle hs x : thread_ok ceiling hs x -> exists h, h ∈ hs /\ borrows h x = true.
Proof. destruct x as [h b old|h b n|h b]; simpl; intros Hx; exists h; (split; [tauto|by apply bool_decide_true]). Qed.

(** Without handles nobody reserves. *)
Lemma no_handles s a : account_ok s a -> handles s = ∅ -> threads s = ∅.
Proof.
  intros Hok Hh. apply map_empty. intros t. destruct (threads s !! t) as [x|] eqn:Ht; [|done].
  pose proof (ok_threads _ _ Hok t x Ht) as Hx. apply thread_handle in Hx as (h & Hin & _). rewrite Hh in Hin. set_solver.
Qed.

Lemma step_owner s a e s' :
  account s = Some a -> account_ok s a -> step_on s a e = Some s' ->
  match e with EClone _ _ | EDropHandle _ | EDropReservation _ => True | _ => False end -> budget_ok s'.
Proof.
  intros Ha Hok Hs He. pose proof (ok_counted _ _ Hok) as Hc. pose proof (ok_references _ _ Hok) as Href.
  destruct e as [t h b|t e|t|t sp|t|t r|h h'|h|r len al|r|r|r]; try done; cbn [step_on] in Hs.
  - destruct (bool_decide (h ∈ handles s) && _) eqn:Eh; [|done]. apply andb_prop in Eh as [_ Hnew%bool_decide_eq_true].
    destruct (clone_account a) as [a'|] eqn:Ec; [|done]. injection Hs as <-.
    destruct (clone_counted _ _ _ Hok Ec) as [-> Hmax]. unfold budget_ok. simpl. destruct Hok eqn:E. split; simpl; try done; try lia.
    + rewrite size_union by set_solver. rewrite size_singleton. lia.
    + intros t x Hx. eapply thread_ok_mono; [|by eapply ok_threads0]. set_solver.
  - destruct (bool_decide (h ∈ handles s) && _) eqn:Eh; [|done]. injection Hs as <-.
    apply andb_prop in Eh as [Hin%bool_decide_eq_true Hnb%negb_true_iff].
    pose proof (drop_counted a Hc) as Hd. unfold budget_ok. simpl.
    assert (size (handles s ∖ {[h]}) = size (handles s) - 1 /\ 1 <= size (handles s)) as [Hsz Hpos].
    { rewrite size_difference by set_solver. rewrite size_singleton. split; [done|].
      assert (size (handles s) <> 0); [|lia]. intros H0%size_empty_iff. set_solver. }
    assert (forall t x, threads s !! t = Some x -> thread_ok ceiling (handles s ∖ {[h]}) x) as Hth.
    { intros t x Hx. pose proof (ok_threads _ _ Hok t x Hx) as Hx'. pose proof (not_borrowed s h t x Hnb Hx) as Hn.
      destruct x; simpl in *; apply bool_decide_eq_false in Hn; set_solver. }
    destruct (drop_account a) as [a'|].
    + destruct Hd as [-> Hgt]. destruct Hok eqn:E. split; simpl; try done; lia.
    + assert (handles s ∖ {[h]} = ∅) as He0 by (apply leibniz_equiv, size_empty_iff; lia).
      split; [done|]. split; [apply map_size_empty_iff; lia|]. rewrite He0 in Hth. apply map_empty. intros t.
      destruct (threads s !! t) as [x|] eqn:Ht; [|done]. pose proof (Hth t x Ht) as Hx.
      apply thread_handle in Hx as (h' & Hin' & _). set_solver.
  - destruct (reservations s !! r) as [[b|b l|]|] eqn:Hr; try done. injection Hs as <-.
    pose proof (drop_counted a Hc) as Hd. unfold budget_ok. simpl.
    assert (size (delete r (reservations s)) = size (reservations s) - 1 /\ 1 <= size (reservations s)) as [Hsz Hpos].
    { rewrite map_size_delete_Some by (by rewrite Hr). split; [lia|].
      assert (size (reservations s) <> 0); [|lia]. intros H0%map_size_empty_iff. by rewrite H0 in Hr. }
    destruct (drop_account a) as [a'|].
    + destruct Hd as [-> Hgt]. destruct Hok eqn:E. split; simpl; try done; try lia.
      * rewrite (total_delete _ _ _ _ Hr). simpl. lia.
      * intros r' x [_ Hx]%lookup_delete_Some. by eapply ok_reservations0.
    + assert (handles s = ∅) as Hh by (apply leibniz_equiv, size_empty_iff; lia).
      split; [done|]. split; [apply map_size_empty_iff; lia|]. by apply (no_handles s a).
Qed.

Lemma step_ok s e s' : budget_ok s -> step s e = Some s' -> budget_ok s'.
Proof.
  unfold budget_ok at 1, step. destruct (account s) as [a|] eqn:Ha; [|done]. intros Hok Hs. simpl in Hs.
  destruct e; first [by apply (step_reserve _ _ _ _ Ha Hok Hs)|by apply (step_leave _ _ _ _ Ha Hok Hs)
    |by apply (step_owner _ _ _ _ Ha Hok Hs)|by apply (step_reservation _ _ _ _ Ha Hok Hs)].
Qed.

Lemma run_ok s es s' : budget_ok s -> run s es = Some s' -> budget_ok s'.
Proof.
  intros Hok Hr. unfold run in Hr. revert s Hok Hr. induction es as [|e es IH]; intros s Hok Hr; simpl in Hr.
  - by injection Hr as <-.
  - destruct (step s e) as [s1|] eqn:Es; [eapply IH; [by eapply step_ok|done]|].
    exfalso. clear -Hr. by induction es.
Qed.

Lemma start_ok a : new_account account_size ceiling true = Ok a -> budget_ok (start a).
Proof.
  unfold new_account. destruct (Z.ltb_spec ceiling account_size); [done|]. intros [= <-]. unfold budget_ok. simpl.
  split; simpl; try done; try lia.
  rewrite !total_empty. lia.
Qed.
End laws.

(** C39: Under every interleaving of reservations, clones and drops, what is allocated never
    exceeds the limit of the account: the counter covers every allocation, stays within the
    limit, and is exactly what is reserved whenever no thread is inside [reserve]; the peak
    is within the limit and covers the counter.  The account is deallocated exactly when the
    last handle and the last reservation are gone, and nothing refers to it afterwards. *)
Theorem budget_never_exceeded account_size ceiling a es s :
  (0 < account_size)%Z -> (ceiling <= u64_max)%Z ->
  new_account account_size ceiling true = Ok a -> run (start a) es = Some s ->
  match account s with
  | Some a' =>
      (account_size + total allocated_bytes (reservations s) <= used a' <= ceiling)%Z /\ (peak a' <= ceiling)%Z /\
      (threads s = ∅ -> used a' = account_size + total reserved_bytes (reservations s) /\ used a' <= peak a')%Z /\
      (handles s <> ∅ \/ reservations s <> ∅)
  | None => handles s = ∅ /\ reservations s = ∅ /\ threads s = ∅
  end.
Proof.
  intros Hsize Hceiling Hnew Hrun. pose proof (run_ok _ _ Hsize Hceiling _ _ _ (start_ok _ _ _ Hnew) Hrun) as Hok.
  unfold budget_ok in Hok. destruct (account s) as [a'|]; [|done].
  assert (total allocated_bytes (reservations s) <= total reserved_bytes (reservations s))%Z as Hle.
  { apply total_le. intros r x Hx. pose proof (ok_reservations _ _ _ _ Hok r x Hx) as Hrx. destruct x; simpl in *; lia. }
  pose proof (total_nonneg charged_bytes _ (charged_nonneg _ _ _ _ Hok)) as Hch.
  destruct Hok as [Hl Hr Hc Hu Hw Hp Hra Hres Hth]. split; [lia|]. split; [done|]. split.
  - intros Hnone. rewrite Hnone, total_empty in Hu. split; [lia|].
    destruct Hra as [|(t & h & b & n & Ht & _)]; [done|]. by rewrite Hnone in Ht.
  - destruct (decide (handles s = ∅)) as [Hh|]; [right|by left]. intros Hr0. rewrite Hh, Hr0 in Hr.
    rewrite size_empty, map_size_empty in Hr. simpl in Hr. lia.
Qed.

(** Two threads race for a budget of 100 bytes; one is refused. *)
Definition race : list event :=
  [EClone 0 1; ELoad 5 0 40; ELoad 6 1 30; EExchange 5; ELose 6 false; ERaise 5; ERefuse 6 CeilingExceeded;
   EReserve 5 9; EAllocate 9 32 true; EDropHandle 0; EDropHandle 1; EFree 9].

Lemma budget_never_exceeded_witness :
  match new_account 40 100 true with
  | Ok a =>
      match run (start a) race with
      | Some s =>
          match account s with
          | Some a' =>
              used a' = 80%Z /\ peak a' = 80%Z /\
              (40 + total allocated_bytes (reservations s) <= used a' <= 100)%Z /\ (peak a' <= 100)%Z /\
              (threads s = ∅ -> used a' = 40 + total reserved_bytes (reservations s) /\ used a' <= peak a')%Z /\
              (handles s <> ∅ \/ reservations s <> ∅)
          | None => False
          end
      | None => False
      end
  | Err _ => False
  end.
Proof.
  destruct (new_account 40 100 true) as [a|] eqn:Ha; [|discriminate Ha].
  destruct (run (start a) race) as [s|] eqn:Hs; [|vm_compute in Ha; injection Ha as <-; vm_compute in Hs; discriminate Hs].
  pose proof (budget_never_exceeded 40 100 a race s ltac:(lia) ltac:(unfold u64_max; lia) Ha Hs) as Hok.
  vm_compute in Ha. injection Ha as <-. vm_compute in Hs. injection Hs as <-.
  split; [reflexivity|]. split; [reflexivity|exact Hok].
Defined.

(** * Progress, and grants *)
(** [ELose] without a spurious failure. *)
Definition lost (t : nat) (e : event) : nat :=
  match e with ELose t' false => if decide (t' = t) then 1 else 0 | _ => 0 end.
(** Changes of the counter that are not the thread's own exchange. *)
Definition changed (t : nat) (e : event) : nat :=
  match e with EExchange t' => if decide (t' = t) then 0 else 1 | ERelease _ => 1 | _ => 0 end.
Definition losses (t : nat) (es : list event) : nat := sum_list (lost t <$> es).
Definition changes (t : nat) (es : list event) : nat := sum_list (changed t <$> es).

(** The thread has read a value that is gone. *)
Definition outdated (t : nat) (s : System) : nat :=
  match account s, threads s !! t with
  | Some a, Some (Looping _ _ old) => if (used a =? old)%Z then 0 else 1
  | _, _ => 0
  end.

Lemma outdated_le t s : outdated t s <= 1.
Proof. unfold outdated. destruct (account s), (threads s !! t) as [[]|]; try lia. destruct (_ =? _)%Z; lia. Qed.

Lemma outdated_none t s : account s = None -> outdated t s = 0.
Proof. unfold outdated. by intros ->. Qed.

(** Neither the counter nor the thread has changed. *)
Lemma outdated_same t s s' a a' :
  account s = Some a -> account s' = Some a' -> used a' = used a -> threads s' !! t = threads s !! t ->
  outdated t s' = outdated t s.
Proof. unfold outdated. by intros -> -> -> ->. Qed.

Lemma outdated_fresh t s a h b : account s = Some a -> threads s !! t = Some (Looping h b (used a)) -> outdated t s = 0.
Proof. unfold outdated. intros -> ->. by rewrite Z.eqb_refl. Qed.

Lemma outdated_through t s : (forall h b old, threads s !! t <> Some (Looping h b old)) -> outdated t s = 0.
Proof. unfold outdated. intros Hn. destruct (account s); [|done]. destruct (threads s !! t) as [[]|]; try done. by exfalso; eapply Hn. Qed.

(** Instructions that neither touch the counter nor begin or repeat a reservation. *)
Lemma step_kept t s a e s' :
  account s = Some a -> step_on s a e = Some s' ->
  match e with EReserve _ _ | EClone _ _ | EDropHandle _ | EAllocate _ _ _ | EFree _ | EDropReservation _ | ERefuse _ _ | ERaise _ => True | _ => False end ->
  outdated t s' <= outdated t s.
Proof.
  intros Ha Hs He.
  assert (forall u, outdated t (without_thread s u) <= outdated t s) as Hdel.
  { intros u. destruct (decide (u = t)) as [->|Hne].
    - rewrite outdated_through; [lia|]. intros h b old. simpl. by rewrite lookup_delete_eq.
    - by rewrite (outdated_same t s _ a a) by (done || simpl; by rewrite lookup_delete_ne). }
  assert (forall b, match drop_account a with Some a' => used a' = used a | None => True end /\
     (clone_account a = Some b -> used b = used a)) as Hused.
  { intros b. unfold drop_account, clone_account. destruct (references a =? 1)%Z, (isize_max <=? references a)%Z; (split; [done|]); intros [= <-]; done. }
  destruct e as [u h b|u e|u|u sp|u|u r|h h'|h|r len al|r|r|r]; try done; cbn [step_on] in Hs.
  - destruct (threads s !! u) as [[h b old|h b n|h b]|] eqn:Hu; try done. destruct (charge _ _ _); [done|]. case_decide; [|done].
    injection Hs as <-. apply Hdel.
  - destruct (threads s !! u) as [[h b old|h b n|h b]|] eqn:Hu; try done. injection Hs as <-.
    destruct (decide (u = t)) as [->|Hne].
    + rewrite outdated_through; [lia|]. intros h' b' old. simpl. by rewrite lookup_insert_eq.
    + erewrite (outdated_same t s _ a); [done|done|done|done|]. simpl. by rewrite lookup_insert_ne.
  - destruct (threads s !! u) as [[h b old|h b n|h b]|] eqn:Hu; try done. destruct (reservations s !! r); [done|].
    destruct (clone_account a) as [a'|] eqn:Ec; [|done]. injection Hs as <-. destruct (Hused a') as [_ Hb].
    etrans; [|apply (Hdel u)]. unfold outdated. simpl. rewrite Ha, (Hb eq_refl). done.
  - destruct (_ && _); [|done]. destruct (clone_account a) as [a'|] eqn:Ec; [|done]. injection Hs as <-.
    destruct (Hused a') as [_ Hb]. unfold outdated. simpl. by rewrite Ha, (Hb eq_refl).
  - destruct (_ && _); [|done]. injection Hs as <-. destruct (Hused a) as [Hd _]. unfold outdated. simpl. rewrite Ha.
    destruct (drop_account a); [by rewrite Hd|lia].
  - destruct (reservations s !! r) as [[]|]; try done. destruct (len <? 0)%Z; [done|].
    destruct (allocate _ _ _); injection Hs as <-; [|done]. unfold outdated. simpl. done.
  - destruct (reservations s !! r) as [[]|]; try done. injection Hs as <-. unfold outdated. simpl. done.
  - destruct (reservations s !! r) as [[]|]; try done. injection Hs as <-. destruct (Hused a) as [Hd _].
    unfold outdated. simpl. rewrite Ha. destruct (drop_account a); [by rewrite Hd|lia].
Qed.

Lemma step_paid t s e s' : step s e = Some s' -> lost t e + outdated t s' <= changed t e + outdated t s.
Proof.
  unfold step. destruct (account s) as [a|] eqn:Ha; [|done]. simpl. intros Hs.
  pose proof (outdated_le t s') as Hle.
  destruct e as [u h b|u e|u|u sp|u|u r|h h'|h|r len al|r|r|r];
    try (pose proof (step_kept t s a _ s' Ha Hs I); simpl; lia).
  - cbn [step_on] in Hs. destruct (_ && _); [|done]. injection Hs as <-. simpl. destruct (decide (u = t)) as [->|Hne].
    + rewrite (outdated_fresh _ _ a h b); [lia|done|]. simpl. by rewrite lookup_insert_eq.
    + rewrite (outdated_same t s _ a a); [lia|done..|]. simpl. by rewrite lookup_insert_ne.
  - cbn [step_on] in Hs. destruct (threads s !! u) as [[h b old|h b n|h b]|] eqn:Hu; try done.
    destruct (charge _ _ _); [|done]. destruct (_ =? _)%Z; [|done]. injection Hs as <-. simpl.
    case_decide as Ht; [subst u|lia]. rewrite outdated_through; [lia|]. intros h' b' old'. simpl. by rewrite lookup_insert_eq.
  - cbn [step_on] in Hs. destruct (threads s !! u) as [[h b old|h b n|h b]|] eqn:Hu; try done.
    destruct (charge _ _ _); [|done]. destruct (sp || _) eqn:Esp; [|done]. injection Hs as <-. simpl.
    destruct (decide (u = t)) as [->|Hne].
    + rewrite (outdated_fresh _ _ a h b); [|done|simpl; by rewrite lookup_insert_eq].
      unfold outdated. rewrite Ha, Hu. destruct sp; [lia|]. simpl in Esp. apply negb_true_iff in Esp. rewrite Esp. lia.
    + rewrite (outdated_same t s _ a a); [by destruct sp|done..|]. simpl. by rewrite lookup_insert_ne.
  - simpl. lia.
Qed.

Lemma run_snoc s es e : run s (es ++ [e]) = run s es ≫= fun s => step s e.
Proof. unfold run. by rewrite foldl_app. Qed.

Lemma run_paid t s es s' : outdated t s = 0 -> run s es = Some s' -> losses t es + outdated t s' <= changes t es.
Proof.
  intros H0. revert s'. induction es as [|e es IH] using rev_ind; intros s' Hr.
  - injection Hr as <-. by rewrite H0.
  - rewrite run_snoc in Hr. destruct (run s es) as [s1|]; [|done]. simpl in Hr.
    specialize (IH s1 eq_refl). pose proof (step_paid t s1 e s' Hr).
    unfold losses, changes in *. rewrite !fmap_app, !sum_list_with_app in *. simpl in *. lia.
Qed.

(** ** Left alone *)
Definition of_thread (t : nat) (e : event) : Prop :=
  match e with ELoad u _ _ | ERefuse u _ | EExchange u | ELose u _ | ERaise u | EReserve u _ => u = t | _ => False end.

Lemma run_cons s e es s1 : step s e = Some s1 -> run s (e :: es) = run s1 es.
Proof. intros Hs. unfold run. simpl. by rewrite Hs. Qed.

(** A thread that finishes: its instructions, and the state without it. *)
Definition finishes (t k : nat) (s : System) : Prop :=
  exists es s', length es <= k /\ Forall (of_thread t) es /\ run s es = Some s' /\ threads s' !! t = None.

Lemma finishes_step t k s e s1 : step s e = Some s1 -> of_thread t e -> finishes t k s1 -> finishes t (S k) s.
Proof.
  intros Hs He (es & s' & Hl & Hall & Hr & Ht). exists (e :: es), s'. split; [simpl; lia|]. split; [by constructor|].
  split; [by rewrite (run_cons _ _ _ _ Hs)|done].
Qed.

Lemma finishes_done t k s : threads s !! t = None -> finishes t k s.
Proof. intros Ht. exists [], s. split; [simpl; lia|]. by split; [constructor|]. Qed.

Section alone.
Context (t r : nat).

Lemma raised_finishes s a h b :
  account s = Some a -> (references a < isize_max)%Z -> reservations s !! r = None ->
  threads s !! t = Some (Raised h b) -> finishes t 1 s.
Proof.
  intros Ha Href Hr Ht. eapply (finishes_step t 0 s (EReserve t r)); [|done|].
  { unfold step. rewrite Ha. simpl. rewrite Ht, Hr. unfold clone_account.
    destruct (Z.leb_spec isize_max (references a)); [lia|]. reflexivity. }
  apply finishes_done. simpl. by rewrite lookup_delete_eq.
Qed.

Lemma charged_finishes s a h b n :
  account s = Some a -> (references a < isize_max)%Z -> reservations s !! r = None ->
  threads s !! t = Some (Charged h b n) -> finishes t 2 s.
Proof.
  intros Ha Href Hr Ht. eapply (finishes_step t 1 s (ERaise t)); [|done|].
  { unfold step. rewrite Ha. simpl. rewrite Ht. reflexivity. }
  eapply raised_finishes; simpl; [done| |done|by rewrite lookup_insert_eq]. done.
Qed.

Lemma current_finishes s a h b :
  account s = Some a -> (references a < isize_max)%Z -> reservations s !! r = None ->
  threads s !! t = Some (Looping h b (used a)) -> finishes t 3 s.
Proof.
  intros Ha Href Hr Ht. destruct (charge (limit a) b (used a)) as [n|e] eqn:Ec.
  - eapply (finishes_step t 2 s (EExchange t)); [|done|].
    { unfold step. rewrite Ha. simpl. rewrite Ht, Ec, Z.eqb_refl. reflexivity. }
    eapply charged_finishes; simpl; [done| |done|by rewrite lookup_insert_eq]. done.
  - eapply (finishes_step t 2 s (ERefuse t e)); [|done|].
    { unfold step. rewrite Ha. simpl. rewrite Ht, Ec, decide_True by done. reflexivity. }
    apply finishes_done. simpl. by rewrite lookup_delete_eq.
Qed.

Lemma alone_finishes s a x :
  account s = Some a -> (references a < isize_max)%Z -> reservations s !! r = None ->
  threads s !! t = Some x -> finishes t 4 s.
Proof.
  intros Ha Href Hr Ht. destruct x as [h b old|h b n|h b].
  - destruct (charge (limit a) b old) as [n|e] eqn:Ec.
    + eapply (finishes_step t 3 s (ELose t true)); [|done|].
      { unfold step. rewrite Ha. simpl. rewrite Ht, Ec. reflexivity. }
      eapply current_finishes; simpl; [exact Ha|done|done|by rewrite lookup_insert_eq].
    + eapply (finishes_step t 3 s (ERefuse t e)); [|done|].
      { unfold step. rewrite Ha. simpl. rewrite Ht, Ec, decide_True by done. reflexivity. }
      apply finishes_done. simpl. by rewrite lookup_delete_eq.
  - destruct (charged_finishes s a h b n Ha Href Hr Ht) as (es & s' & ? & ?). exists es, s'. split; [lia|done].
  - destruct (raised_finishes s a h b Ha Href Hr Ht) as (es & s' & ? & ?). exists es, s'. split; [lia|done].
Qed.
End alone.

(** [reserve] is lock-free: in every run from a fresh account, an exchange of a thread
    fails by contention at most as often as other threads changed the counter; and from
    every reachable state a thread that is left alone leaves [reserve] in four
    instructions of its own, whatever the others were doing when they stopped. *)
Theorem reserve_lock_free a es s :
  run (start a) es = Some s ->
  (forall t, losses t es <= changes t es) /\
  (forall t r x a', threads s !! t = Some x -> account s = Some a' -> (references a' < isize_max)%Z ->
     reservations s !! r = None -> finishes t 4 s).
Proof.
  intros Hr. split.
  - intros t. pose proof (run_paid t (start a) es s) as Hp. specialize (Hp eq_refl Hr). lia.
  - intros t r x a' Ht Ha Href Hres. by eapply alone_finishes.
Qed.

Lemma reserve_lock_free_witness :
  match new_account 40 100 true with
  | Ok a =>
      match run (start a) race with
      | Some s => losses 6 race = 1 /\ changes 6 race = 1 /\ (forall t, losses t race <= changes t race)
      | None => False
      end
  | Err _ => False
  end.
Proof.
  destruct (new_account 40 100 true) as [a|] eqn:Ha; [|discriminate Ha].
  destruct (run (start a) race) as [s|] eqn:Hs; [|vm_compute in Ha; injection Ha as <-; vm_compute in Hs; discriminate Hs].
  split; [reflexivity|]. split; [reflexivity|]. apply (reserve_lock_free a race s Hs).
Defined.

(** ** Grants *)
(** The attempts of a caller, each at a time and for some entries: what was granted. *)
Fixpoint take_all (g : MutationGrant) (attempts : list (Z * Z)) : list (Z * Z) * MutationGrant :=
  match attempts with
  | [] => ([], g)
  | (now, count) :: attempts =>
      let (r, g) := take_entries g now count in
      let (granted, g) := take_all g attempts in
      (match r with Ok _ => (now, count) :: granted | Err _ => granted end, g)
  end.

Definition granted_entries (l : list (Z * Z)) : Z := foldr (fun e n => e.2 + n)%Z 0%Z l.

Lemma take_entries_spec g now count r g' :
  (0 <= count)%Z -> (0 <= remaining_entries g)%Z -> take_entries g now count = (r, g') ->
  started g' = started g /\ duration g' = duration g /\ (0 <= remaining_entries g')%Z /\
  match r with
  | Ok _ => (now < started g + duration g)%Z /\ remaining_entries g' = (remaining_entries g - count)%Z
  | Err _ => g' = g
  end.
Proof.
  intros Hc Hg. unfold take_entries, check, check_time.
  destruct (Z.leb_spec (duration g) (now - started g)); [by intros [= <- <-]|]. simpl.
  destruct (Z.eqb_spec (remaining_entries g) 0); [by intros [= <- <-]|].
  destruct (Z.ltb_spec (remaining_entries g) count); [by intros [= <- <-]|].
  intros [= <- <-]. simpl. split_and!; (done || lia).
Qed.

(** However often a caller asks, a grant gives at most its entries in total, and none
    at or after its deadline. *)
Theorem grant_bounds now entries duration attempts :
  (0 <= entries)%Z -> Forall (fun e => 0 <= e.2)%Z attempts ->
  let (granted, g) := take_all (with_limits now entries duration) attempts in
  (granted_entries granted + remaining_entries g = entries)%Z /\ (0 <= remaining_entries g)%Z /\
  forall t n, (t, n) ∈ granted -> (t < now + duration)%Z.
Proof.
  intros He Hall. assert (forall g, (0 <= remaining_entries g)%Z ->
    let (granted, g') := take_all g attempts in
    (granted_entries granted + remaining_entries g' = remaining_entries g)%Z /\ (0 <= remaining_entries g')%Z /\
    forall t n, (t, n) ∈ granted -> (t < started g + Budget.duration g)%Z) as Hg; [|by apply (Hg (with_limits now entries duration))].
  induction Hall as [|[t c] attempts Hc _ IH]; intros g Hg; cbn [take_all].
  - split; [simpl; lia|]. split; [done|]. by intros ? ? ?%elem_of_nil.
  - destruct (take_entries g t c) as [r g1] eqn:Et. destruct (take_entries_spec _ _ _ _ _ Hc Hg Et) as (Hs & Hd & Hr & Hcase).
    specialize (IH g1 Hr). destruct (take_all g1 attempts) as [granted g2]. destruct IH as (Hsum & Hr2 & Htime).
    rewrite Hs, Hd in Htime. destruct r as [u|e].
    + destruct Hcase as [Hlt Hrem]. split; [change (granted_entries ((t, c) :: granted)) with (c + granted_entries granted)%Z; simpl in Hrem; lia|]. split; [done|].
      intros t' n [[= -> ->]|Hin]%elem_of_cons; [done|by eapply Htime].
    + subst g1. by split.
Qed.

Lemma grant_bounds_witness :
  (take_all (with_limits 1000 100 100000000) [(1000, 60); (2000, 50); (3000, 40); (4000, 1); (100001000, 1)]%Z).1
    = [(1000, 60); (3000, 40)]%Z /\
  let (granted, g) := take_all (with_limits 1000 100 100000000) [(1000, 60); (2000, 50); (3000, 40); (4000, 1); (100001000, 1)]%Z in
  (granted_entries granted + remaining_entries g = 100)%Z /\ (0 <= remaining_entries g)%Z /\
  forall t n, (t, n) ∈ granted -> (t < 1000 + 100000000)%Z.
Proof.
  split; [vm_compute; reflexivity|]. apply grant_bounds; [lia|]. repeat (constructor; [simpl; lia|]). constructor.
Defined.
