(* ===== verification/Scheduler.v ===== *)
(** * The scheduler of the storage maintenance (src/storage/maintenance_scheduler.rs)

    One worker thread runs a driver; any number of threads ask for attempts, wait for them,
    confirm them and move them to another target.  What they share is a [Control] under one
    mutex and one condition variable.  An operation here is one critical section; [step] is
    one critical section of one thread, or one answer of a callback of the driver, told
    apart by an [event], so that a run is an interleaving.  Times are in nanoseconds since
    the worker has started. *)
From S2P Require Import Prelude Order Budget.

Open Scope rust_scope.

(** ** Data *)
(** The 32 bytes of a target; they are only compared. *)
Definition TargetBinding : Type := string.

Inductive DriverError := ResourceLimited | Preparation | Mutation | Panicked.
#[export] Instance DriverError_eq_dec : EqDecision DriverError.
Proof. solve_decision. Defined.

Inductive AttemptOutcome := Complete | Pending | Deferred | Cancelled | FailedWith (e : DriverError).
#[export] Instance AttemptOutcome_eq_dec : EqDecision AttemptOutcome.
Proof. solve_decision. Defined.

Inductive DriverLiveness := Running | Stopping | Stopped | Failed.
#[export] Instance DriverLiveness_eq_dec : EqDecision DriverLiveness.
Proof. solve_decision. Defined.

Inductive RequestDisposition := Enqueued | UnboundConfirmation | RequestStopped | RequestFailed.
Inductive Trigger := Startup | Completion | Health | Continuation.

Definition trigger_bits (t : Trigger) : Z :=
  match t with Startup => 1 | Completion => 2 | Health => 4 | Continuation => 8 end.

Record AttemptRecord := {
  record_binding : TargetBinding;
  record_generation : Z;
  request_sequence : Z;
  record_triggers : Z;
  record_outcome : AttemptOutcome
}.

Record DriverSnapshot := {
  snapshot_binding : TargetBinding;
  snapshot_generation : Z;
  requested : bool;
  snapshot_pending : bool;
  running : bool;
  liveness : DriverLiveness;
  last_attempt : option AttemptRecord;
  failure : option DriverError
}.

(** ** The clock *)
(** [Duration::MAX] *)
Definition duration_max : Z := (u64_max * 1000000000 + 999999999)%Z.
Definition saturating_add_duration (a b : Z) : Z := Z.min (a + b) duration_max.

Record MaintenanceScheduler := {
  interval : Z;
  next_due : Z;
  pending : Z;
  sequence : Z
}.

Definition new_scheduler (interval : Z) : MaintenanceScheduler :=
  {| interval := interval; next_due := 0; pending := trigger_bits Startup; sequence := 0 |}.

Definition add_pending (m : MaintenanceScheduler) (t : Trigger) : MaintenanceScheduler :=
  {| interval := interval m; next_due := next_due m; pending := Z.lor (pending m) (trigger_bits t);
     sequence := sequence m |}.
Definition set_next_due (m : MaintenanceScheduler) (due : Z) : MaintenanceScheduler :=
  {| interval := interval m; next_due := due; pending := pending m; sequence := sequence m |}.

Definition scheduler_request (m : MaintenanceScheduler) (t : Trigger) : MaintenanceScheduler :=
  {| interval := interval m; next_due := next_due m; pending := Z.lor (pending m) (trigger_bits t);
     sequence := saturating_add_u64 (sequence m) 1 |}.

Definition scheduler_begin (m : MaintenanceScheduler) (now : Z) : option (Z * Z * MaintenanceScheduler) :=
  if (now <? next_due m)%Z then None
  else Some (pending m, sequence m,
             {| interval := interval m; next_due := saturating_add_duration now (interval m); pending := 0;
                sequence := sequence m |}).

Definition scheduler_complete (m : MaintenanceScheduler) (now : Z) (outcome : AttemptOutcome) : MaintenanceScheduler :=
  let m := set_next_due m (saturating_add_duration now (interval m)) in
  if decide (outcome = Complete) then m else add_pending m Continuation.

(** ** The mailbox *)
Section scheduler.
(** A prepared source is handed through; what it says of itself is compared. *)
Context {Source Facts : Type} `{EqDecision Facts} (facts : Source -> Facts).

Record Control := {
  binding : TargetBinding;
  generation : Z;
  confirmation : bool;
  confirmation_source : option Source;
  claimed_source : option Source;
  capturing_source : bool;
  source_payloads_parked : bool;
  stopping : bool;
  scheduler : MaintenanceScheduler;
  snapshot : DriverSnapshot
}.

Definition set_target (c : Control) (b : TargetBinding) (g : Z) : Control :=
  {| binding := b; generation := g; confirmation := confirmation c; confirmation_source := confirmation_source c;
     claimed_source := claimed_source c; capturing_source := capturing_source c;
     source_payloads_parked := source_payloads_parked c; stopping := stopping c; scheduler := scheduler c;
     snapshot := snapshot c |}.
Definition set_confirmation (c : Control) (on : bool) (source : option Source) : Control :=
  {| binding := binding c; generation := generation c; confirmation := on; confirmation_source := source;
     claimed_source := claimed_source c; capturing_source := capturing_source c;
     source_payloads_parked := source_payloads_parked c; stopping := stopping c; scheduler := scheduler c;
     snapshot := snapshot c |}.
Definition set_claimed (c : Control) (source : option Source) : Control :=
  {| binding := binding c; generation := generation c; confirmation := confirmation c;
     confirmation_source := confirmation_source c; claimed_source := source;
     capturing_source := capturing_source c; source_payloads_parked := source_payloads_parked c;
     stopping := stopping c; scheduler := scheduler c; snapshot := snapshot c |}.
Definition set_capturing (c : Control) (on : bool) : Control :=
  {| binding := binding c; generation := generation c; confirmation := confirmation c;
     confirmation_source := confirmation_source c; claimed_source := claimed_source c; capturing_source := on;
     source_payloads_parked := source_payloads_parked c; stopping := stopping c; scheduler := scheduler c;
     snapshot := snapshot c |}.
Definition set_parked (c : Control) (on : bool) : Control :=
  {| binding := binding c; generation := generation c; confirmation := confirmation c;
     confirmation_source := confirmation_source c; claimed_source := claimed_source c;
     capturing_source := capturing_source c; source_payloads_parked := on; stopping := stopping c;
     scheduler := scheduler c; snapshot := snapshot c |}.
Definition set_stopping (c : Control) : Control :=
  {| binding := binding c; generation := generation c; confirmation := confirmation c;
     confirmation_source := confirmation_source c; claimed_source := claimed_source c;
     capturing_source := capturing_source c; source_payloads_parked := source_payloads_parked c;
     stopping := true; scheduler := scheduler c; snapshot := snapshot c |}.
Definition set_scheduler (c : Control) (m : MaintenanceScheduler) : Control :=
  {| binding := binding c; generation := generation c; confirmation := confirmation c;
     confirmation_source := confirmation_source c; claimed_source := claimed_source c;
     capturing_source := capturing_source c; source_payloads_parked := source_payloads_parked c;
     stopping := stopping c; scheduler := m; snapshot := snapshot c |}.
Definition set_snapshot (c : Control) (x : DriverSnapshot) : Control :=
  {| binding := binding c; generation := generation c; confirmation := confirmation c;
     confirmation_source := confirmation_source c; claimed_source := claimed_source c;
     capturing_source := capturing_source c; source_payloads_parked := source_payloads_parked c;
     stopping := stopping c; scheduler := scheduler c; snapshot := x |}.

Definition snap_target (x : DriverSnapshot) (b : TargetBinding) (g : Z) : DriverSnapshot :=
  {| snapshot_binding := b; snapshot_generation := g; requested := requested x; snapshot_pending := snapshot_pending x;
     running := running x; liveness := liveness x; last_attempt := last_attempt x; failure := failure x |}.
Definition snap_requested (x : DriverSnapshot) : DriverSnapshot :=
  {| snapshot_binding := snapshot_binding x; snapshot_generation := snapshot_generation x; requested := true;
     snapshot_pending := true; running := running x; liveness := liveness x; last_attempt := last_attempt x;
     failure := failure x |}.
Definition snap_pending (x : DriverSnapshot) (on : bool) : DriverSnapshot :=
  {| snapshot_binding := snapshot_binding x; snapshot_generation := snapshot_generation x; requested := requested x;
     snapshot_pending := on; running := running x; liveness := liveness x; last_attempt := last_attempt x;
     failure := failure x |}.
Definition snap_running (x : DriverSnapshot) (on : bool) : DriverSnapshot :=
  {| snapshot_binding := snapshot_binding x; snapshot_generation := snapshot_generation x; requested := requested x;
     snapshot_pending := snapshot_pending x; running := on; liveness := liveness x; last_attempt := last_attempt x;
     failure := failure x |}.
Definition snap_liveness (x : DriverSnapshot) (l : DriverLiveness) : DriverSnapshot :=
  {| snapshot_binding := snapshot_binding x; snapshot_generation := snapshot_generation x; requested := requested x;
     snapshot_pending := snapshot_pending x; running := running x; liveness := l; last_attempt := last_attempt x;
     failure := failure x |}.
Definition snap_attempt (x : DriverSnapshot) (r : AttemptRecord) : DriverSnapshot :=
  {| snapshot_binding := snapshot_binding x; snapshot_generation := snapshot_generation x; requested := requested x;
     snapshot_pending := snapshot_pending x; running := running x; liveness := liveness x; last_attempt := Some r;
     failure := failure x |}.
Definition snap_failure (x : DriverSnapshot) (e : DriverError) : DriverSnapshot :=
  {| snapshot_binding := snapshot_binding x; snapshot_generation := snapshot_generation x; requested := requested x;
     snapshot_pending := snapshot_pending x; running := running x; liveness := liveness x;
     last_attempt := last_attempt x; failure := Some e |}.

Definition new_control (b : TargetBinding) (initial_confirmation : bool) (initial_source : option Source)
    (interval : Z) : Control :=
  {| binding := b; generation := 0; confirmation := initial_confirmation; confirmation_source := initial_source;
     claimed_source := None; capturing_source := false; source_payloads_parked := false; stopping := false;
     scheduler := new_scheduler interval;
     snapshot := {| snapshot_binding := b; snapshot_generation := 0; requested := false; snapshot_pending := true;
                    running := false; liveness := Running; last_attempt := None; failure := None |} |}.

(** How an operation wakes the threads on the condition variable. *)
Inductive Notify := NotifyNone | NotifyOne | NotifyAll.

(** *** Operations of a handle *)
Definition mismatched (c : Control) (confirming : option TargetBinding) : bool :=
  match confirming with Some b => negb (bool_decide (b = binding c)) | None => false end.

(** What an accepted request changes. *)
Definition enqueue (c : Control) (t : Trigger) (confirming : option TargetBinding) (source : option Source) : Control :=
  let c := match confirming with
           | Some _ => set_confirmation c (confirmation c) source
           | None => c
           end in
  let c := set_confirmation c (confirmation c || bool_decide (is_Some confirming)) (confirmation_source c) in
  let c := set_scheduler c (scheduler_request (scheduler c) t) in
  set_snapshot c (snap_requested (snapshot c)).

Definition request_with_source (c : Control) (t : Trigger) (confirming : option TargetBinding)
    (source : option Source) : RequestDisposition * Control * Notify :=
  if bool_decide (liveness (snapshot c) = Failed) then (RequestFailed, c, NotifyNone)
  else if stopping c then (RequestStopped, c, NotifyNone)
  else if mismatched c confirming then (UnboundConfirmation, c, NotifyNone)
  else (Enqueued, enqueue c t confirming source, NotifyOne).

Definition request (c : Control) (t : Trigger) (confirming : option TargetBinding) :=
  request_with_source c t confirming None.

(** What a waiting thread remembers: the target it waits for and, behind a request of its
    own, the sequence of it. *)
Record Waiter := {
  waits_binding : TargetBinding;
  waits_generation : Z;
  waits_sequence : option Z;
  asleep : bool
}.
Definition set_asleep (w : Waiter) (on : bool) : Waiter :=
  {| waits_binding := waits_binding w; waits_generation := waits_generation w; waits_sequence := waits_sequence w;
     asleep := on |}.

Definition is_terminal (l : DriverLiveness) : bool :=
  match l with Stopped | Failed => true | _ => false end.

(** Does the recorded attempt answer the waiter? *)
Definition answers (w : Waiter) (r : AttemptRecord) : bool :=
  bool_decide (record_binding r = waits_binding w) && (record_generation r =? waits_generation w)%Z &&
  match waits_sequence w with Some n => (n <=? request_sequence r)%Z | None => true end.

(** The condition of the two waiting loops. *)
Definition wait_over (c : Control) (w : Waiter) : bool :=
  negb (bool_decide (binding c = waits_binding w)) || negb (generation c =? waits_generation w)%Z ||
  is_terminal (liveness (snapshot c)) ||
  match last_attempt (snapshot c) with Some r => answers w r | None => false end.

(** The first critical section of [wait_for_first_attempt]. *)
Definition wait_for_first_attempt (c : Control) : Waiter :=
  {| waits_binding := binding c; waits_generation := generation c; waits_sequence := None; asleep := false |}.

(** The first critical section of [request_and_wait_with_source]; no waiter where it
    returns at once. *)
Definition request_and_wait_with_source (c : Control) (t : Trigger) (confirming : option TargetBinding)
    (source : option Source) : option Waiter * Control * Notify :=
  if stopping c || bool_decide (liveness (snapshot c) = Failed) || mismatched c confirming
  then (None, c, NotifyNone)
  else
    let c := enqueue c t confirming source in
    (Some {| waits_binding := binding c; waits_generation := generation c;
             waits_sequence := Some (sequence (scheduler c)); asleep := false |}, c, NotifyAll).

(** [None] where no capture is granted. *)
Definition begin_source_capture (c : Control) : option Control :=
  if stopping c || bool_decide (liveness (snapshot c) = Failed) || running (snapshot c) ||
     source_payloads_parked c || bool_decide (is_Some (claimed_source c)) || capturing_source c
  then None
  else Some (set_confirmation (set_capturing c true) false None).
Definition drop_source_capture (c : Control) : Control * Notify := (set_capturing c false, NotifyAll).

(** The change to a new target, of [rebind] and of the worker. *)
Definition move_target (c : Control) (b : TargetBinding) (g : Z) : Control :=
  let c := set_confirmation (set_target c b g) false None in
  let c := set_snapshot c (snap_target (snapshot c) b g) in
  set_scheduler c (scheduler_request (scheduler c) Startup).

Definition rebind (c : Control) (b : TargetBinding) : RequestDisposition * Control * Notify :=
  if bool_decide (liveness (snapshot c) = Failed) then (RequestFailed, c, NotifyNone)
  else if stopping c then (RequestStopped, c, NotifyNone)
  else if bool_decide (b = binding c) then (Enqueued, c, NotifyOne)
  else match checked_add_u64 (generation c) 1 with
       | None => (RequestFailed, set_snapshot (set_stopping c) (snap_liveness (snapshot c) Failed), NotifyOne)
       | Some g =>
           let c := move_target c b g in
           (Enqueued, set_snapshot c (snap_pending (snapshot c) true), NotifyOne)
       end.

Definition request_stop (c : Control) : Control * Notify :=
  let c := set_confirmation (set_stopping c) false None in
  (if decide (liveness (snapshot c) = Running) then set_snapshot c (snap_liveness (snapshot c) Stopping) else c,
   NotifyAll).

(** *** Operations of the worker *)
(** What [run_driver] takes from the mailbox when it begins an attempt. *)
Record Attempt := {
  attempt_binding : TargetBinding;
  attempt_generation : Z;
  attempt_triggers : Z;
  attempt_sequence : Z
}.

(** One round of the loop that waits for the next attempt. *)
Inductive Scanned :=
| ScanStops (c : Control)
| ScanWaits (until : option Z)     (* [wait], or [wait_timeout] *)
| ScanBegins (a : Attempt) (c : Control).

Definition scan_mailbox (c : Control) (now : Z) : Scanned :=
  if stopping c then ScanStops (set_snapshot c (snap_running (snapshot c) false))
  else if capturing_source c then ScanWaits None
  else match scheduler_begin (scheduler c) now with
       | Some (triggers, sequence, m) =>
           ScanBegins {| attempt_binding := binding c; attempt_generation := generation c;
                         attempt_triggers := triggers; attempt_sequence := sequence |}
             (set_snapshot (set_scheduler c m) (snap_running (snapshot c) true))
       | None => ScanWaits (Some (next_due (scheduler c)))
       end.

Definition is_cancelled (c : Control) (a : Attempt) : bool :=
  stopping c || negb (generation c =? attempt_generation a)%Z.

Definition legacy_interest (c : Control) (a : Attempt) : bool :=
  negb (stopping c) && (generation c =? attempt_generation a)%Z &&
  bool_decide (binding c = attempt_binding a) && confirmation c.

(** What is known of a confirmation before it is claimed. *)
Definition Metadata : Type := option (Z * option Facts).
Definition legacy_metadata (c : Control) (a : Attempt) : Metadata :=
  if legacy_interest c a then Some (attempt_generation a, facts <$> confirmation_source c) else None.

(** [LegacyQuiescenceConfirmation], the permission that [mutate] is given. *)
Record Confirmation := {
  confirmed_binding : TargetBinding;
  confirmed_generation : Z;
  confirmed_source : option Facts
}.

(** The gate behind the permit; [None] where there is to be no mutation. *)
Definition claim (c : Control) (a : Attempt) (prepared : Metadata) (requires_confirmation : bool)
    : option (bool * option Facts) * Control :=
  let current := if confirmation c then Some (attempt_generation a, facts <$> confirmation_source c) else None in
  if stopping c || negb (generation c =? attempt_generation a)%Z || negb (bool_decide (binding c = attempt_binding a))
     || (requires_confirmation && confirmation c && negb (bool_decide (current = prepared)))
  then (None, c)
  else if requires_confirmation && negb (bool_decide (is_Some (claimed_source c))) then
    let confirmed := confirmation c in
    let c := set_confirmation c false (confirmation_source c) in
    if confirmed then
      let c := set_confirmation (set_claimed c (confirmation_source c)) (confirmation c) None in
      (Some (true, facts <$> claimed_source c), c)
    else (Some (false, None), c)
  else (Some (false, None), c).

Definition release_source (c : Control) : Control := set_claimed c None.

(** The publication of an attempt. *)
Definition publish (c : Control) (a : Attempt) (outcome : AttemptOutcome) (desired : option TargetBinding)
    (parked : bool) (completed_at : Z) : Control * Notify :=
  let c := set_parked (set_snapshot c (snap_running (snapshot c) false)) parked in
  let c := if (generation c =? attempt_generation a)%Z then
             set_snapshot c (snap_attempt (snapshot c)
               {| record_binding := attempt_binding a; record_generation := attempt_generation a;
                  request_sequence := attempt_sequence a; record_triggers := attempt_triggers a;
                  record_outcome := outcome |})
           else c in
  let c := set_scheduler c (scheduler_complete (scheduler c) completed_at outcome) in
  let c := match desired with
           | Some b =>
               if (generation c =? attempt_generation a)%Z && negb (bool_decide (b = binding c)) then
                 match checked_add_u64 (generation c) 1 with
                 | Some g =>
                     let c := move_target c b g in
                     set_scheduler c (set_next_due (scheduler c) completed_at)
                 | None => set_snapshot (set_stopping c) (snap_failure (snapshot c) Preparation)
                 end
               else c
           | None => c
           end in
  let c := if confirmation c then set_scheduler c (add_pending (scheduler c) Continuation) else c in
  (set_snapshot c (snap_pending (snapshot c) (negb (pending (scheduler c) =? 0)%Z)), NotifyAll).

Definition fail_worker (c : Control) (e : DriverError) : Control * Notify :=
  let c := set_claimed (set_confirmation (set_stopping c) false None) None in
  let x := snap_pending (snap_running (snapshot c) false) true in
  (set_snapshot c (snap_failure (snap_liveness x Stopping) e), NotifyAll).

(** [WorkerExit::drop] *)
Definition worker_exit (c : Control) (panicking : bool) : Control * Notify :=
  let c := set_claimed (set_confirmation (set_stopping c) false None) None in
  let x := snap_running (snapshot c) false in
  let x := if panicking then snap_pending (snap_failure x Panicked) true else x in
  (set_snapshot c (snap_liveness x (if failure x then Failed else Stopped)), NotifyAll).

(** ** Threads *)
(** What a callback of the driver answers. *)
Inductive Called (A : Type) :=
| Returned (r : result DriverError A)
| Panicking.
#[global] Arguments Returned {A} r.
#[global] Arguments Panicking {A}.

(** The outcome that [run_driver] makes of an answer, and whether it was a panic. *)
Definition called_outcome (r : Called AttemptOutcome) : AttemptOutcome * bool :=
  match r with
  | Returned (Ok outcome) => (outcome, false)
  | Returned (Err e) => (FailedWith e, false)
  | Panicking => (FailedWith Panicked, true)
  end.

(** What the worker still has to drop behind [fail_worker] or [run_driver]. *)
Inductive Remains :=
| DriverRemains     (* the driver: its destructor may panic *)
| NothingRemains
| PayloadRemains.   (* the payload of a panic: its destructor may panic *)

(** Where the worker is; between two phases lies one critical section or one callback. *)
Inductive Phase :=
| Starting                                   (* in [prepare_driver_boxed] *)
| Scanning                                   (* about to look at the mailbox *)
| Asleep (until : option Z)                  (* in [wait] or [wait_timeout] *)
| Sampling (a : Attempt)                     (* before [legacy_metadata] *)
| Preparing (a : Attempt) (prepared : Metadata)
| Judging (a : Attempt) (error : option DriverError)   (* nothing prepared: cancelled? *)
| Admitting (a : Attempt) (prepared : Metadata) (requires_confirmation : bool)
| AtGate (a : Attempt) (prepared : Metadata) (requires_confirmation : bool)
| Mutating (a : Attempt) (confirmation : option Confirmation)
| Releasing (a : Attempt) (result : AttemptOutcome * bool)
| Finishing (a : Attempt) (outcome : AttemptOutcome)
| Disposing (a : Attempt) (outcome : AttemptOutcome)   (* [drop(work)], [after_disposal] *)
| Publishing (a : Attempt) (outcome : AttemptOutcome) (panicked : bool)
| Failing (e : DriverError) (remains : Remains)        (* before [fail_worker] *)
| Leaving (remains : Remains)
| Exited.

(** [captures] are the live [SourceCapture]s, [waiters] the threads in a waiting loop. *)
Record System := {
  control : Control;
  phase : Phase;
  waiters : gmap nat Waiter;
  captures : gset nat;
  clock : Z
}.

Definition with_control (s : System) (c : Control) : System :=
  {| control := c; phase := phase s; waiters := waiters s; captures := captures s; clock := clock s |}.
Definition with_phase (s : System) (p : Phase) : System :=
  {| control := control s; phase := p; waiters := waiters s; captures := captures s; clock := clock s |}.
Definition with_waiters (s : System) (ws : gmap nat Waiter) : System :=
  {| control := control s; phase := phase s; waiters := ws; captures := captures s; clock := clock s |}.
Definition with_captures (s : System) (cs : gset nat) : System :=
  {| control := control s; phase := phase s; waiters := waiters s; captures := cs; clock := clock s |}.
Definition with_clock (s : System) (now : Z) : System :=
  {| control := control s; phase := phase s; waiters := waiters s; captures := captures s; clock := now |}.

Inductive Thread := Worker | Client (t : nat).

Definition wake_worker (s : System) : System :=
  match phase s with Asleep _ => with_phase s Scanning | _ => s end.
Definition wake_all (s : System) : System :=
  let s := wake_worker s in
  with_waiters s ((fun w => set_asleep w false) <$> waiters s).

(** Wakes one thread that sleeps. *)
Definition wake (s : System) (th : Thread) : option System :=
  match th with
  | Worker => match phase s with Asleep _ => Some (with_phase s Scanning) | _ => None end
  | Client t =>
      match waiters s !! t with
      | Some w => if asleep w then Some (with_waiters s (<[t := set_asleep w false]> (waiters s))) else None
      | None => None
      end
  end.

Definition nobody_sleeps (s : System) : bool :=
  match phase s with Asleep _ => false | _ => true end &&
  forallb (fun e => negb (asleep e.2)) (map_to_list (waiters s)).

(** [notify_one] wakes a thread of the system's choice, if one sleeps. *)
Definition notify (n : Notify) (choice : option Thread) (s : System) : option System :=
  match n, choice with
  | NotifyNone, None => Some s
  | NotifyAll, None => Some (wake_all s)
  | NotifyOne, Some th => wake s th
  | NotifyOne, None => if nobody_sleeps s then Some s else None
  | _, Some _ => None
  end.

Inductive event :=
(* the other threads *)
| ERequest (t : Trigger) (confirming : option TargetBinding) (source : option Source) (woken : option Thread)
| ERequestAndWait (i : nat) (t : Trigger) (confirming : option TargetBinding) (source : option Source)
| EWaitForFirst (i : nat)
| EWaiter (i : nat)                        (* a waiter that is awake looks again *)
| ERebind (b : TargetBinding) (woken : option Thread)
| EStop
| ECapture (i : nat)
| EDropCapture (i : nat)
| ESpurious (th : Thread)
(* the worker *)
| EFactory (r : Called ())
| ETimeout (now : Z)
| EScan (now : Z)
| ESample
| EPrepared (r : Called (option bool))     (* [Some]: the work, and whether it requires a confirmation *)
| EJudge
| EAdmit (acquired : bool)
| EClaim (granted now : Z)                 (* the gate, and behind it the check of the grant, by the system's clock *)
| EMutated (r : Called AttemptOutcome)
| ERelease
| EFinished (r : Called AttemptOutcome)
| EDisposed (r : Called AttemptOutcome)
| EPublish (desired : option TargetBinding) (parked : bool) (now : Z)
| EUnwind                                  (* a panic outside the callbacks that are caught *)
| EFail
| EExit (panicking : bool).

(** A waiter looks at the control: it returns or falls asleep. *)
Definition look (s : System) (i : nat) (w : Waiter) : System :=
  if wait_over (control s) w then with_waiters s (delete i (waiters s))
  else with_waiters s (<[i := set_asleep w true]> (waiters s)).

Definition client_step (s : System) (e : event) : option System :=
  match e with
  | ERequest t confirming source woken =>
      let '(_, c, n) := request_with_source (control s) t confirming source in
      notify n woken (with_control s c)
  | ERequestAndWait i t confirming source =>
      if decide (waiters s !! i = None) then
        let '(w, c, n) := request_and_wait_with_source (control s) t confirming source in
        s ← notify n None (with_control s c);
        Some (match w with Some w => look s i w | None => s end)
      else None
  | EWaitForFirst i =>
      if decide (waiters s !! i = None) then Some (look s i (wait_for_first_attempt (control s))) else None
  | EWaiter i =>
      match waiters s !! i with
      | Some w => if asleep w then None else Some (look s i w)
      | None => None
      end
  | ERebind b woken =>
      let '(_, c, n) := rebind (control s) b in
      notify n woken (with_control s c)
  | EStop =>
      let '(c, n) := request_stop (control s) in
      notify n None (with_control s c)
  | ECapture i =>
      c ← begin_source_capture (control s);
      Some (with_captures (with_control s c) ({[i]} ∪ captures s))
  | EDropCapture i =>
      if bool_decide (i ∈ captures s) then
        let '(c, n) := drop_source_capture (control s) in
        notify n None (with_captures (with_control s c) (captures s ∖ {[i]}))
      else None
  | ESpurious th => wake s th
  | _ => None
  end.

(** Behind [run_driver]'s panics: the driver is still there. *)
Definition unwinds (p : Phase) : option Phase :=
  match p with
  | Preparing _ _ | Admitting _ _ _ | Releasing _ _ | Finishing _ _ | Disposing _ _ | Publishing _ _ _ =>
      Some (Failing Panicked DriverRemains)
  | Leaving DriverRemains => Some (Failing Panicked PayloadRemains)
  | _ => None
  end.

Definition confirm (a : Attempt) (claimed : bool * option Facts) : option Confirmation :=
  if claimed.1 then Some {| confirmed_binding := attempt_binding a; confirmed_generation := attempt_generation a;
                            confirmed_source := claimed.2 |}
  else None.

Definition may_read (s : System) (now : Z) : bool := (clock s <=? now)%Z && (now <=? duration_max)%Z.

Definition worker_step (s : System) (e : event) : option System :=
  match phase s, e with
  | Starting, EFactory (Returned (Ok _)) => Some (with_phase s Scanning)
  | Starting, EFactory (Returned (Err e)) => Some (with_phase s (Failing e NothingRemains))
  | Starting, EFactory Panicking => Some (with_phase s (Failing Panicked PayloadRemains))
  | Asleep (Some due), ETimeout now =>
      if may_read s now && (due <=? now)%Z then Some (with_clock (with_phase s Scanning) now) else None
  | Scanning, EScan now =>
      if may_read s now then
        Some (match scan_mailbox (control s) now with
              | ScanStops c => with_phase (with_control s c) (Leaving DriverRemains)
              | ScanWaits due => with_clock (with_phase s (Asleep due)) now
              | ScanBegins a c => with_clock (with_phase (with_control s c) (Sampling a)) now
              end)
      else None
  | Sampling a, ESample => Some (with_phase s (Preparing a (legacy_metadata (control s) a)))
  | Preparing a _, EPrepared (Returned (Ok None)) => Some (with_phase s (Judging a None))
  | Preparing a _, EPrepared (Returned (Err e)) => Some (with_phase s (Judging a (Some e)))
  | Preparing a prepared, EPrepared (Returned (Ok (Some requires))) => Some (with_phase s (Admitting a prepared requires))
  | Judging a error, EJudge =>
      let outcome := if is_cancelled (control s) a then Cancelled
                     else match error with Some e => FailedWith e | None => Complete end in
      Some (with_phase s (Publishing a outcome false))
  | Admitting a prepared requires, EAdmit acquired =>
      Some (with_phase s (if acquired then AtGate a prepared requires else Releasing a (Deferred, false)))
  | AtGate a prepared requires, EClaim granted now =>
      let '(confirmation, c) := claim (control s) a prepared requires in
      let s := with_control s c in
      Some (match confirmation with
            | None => with_phase s (Releasing a (Deferred, false))
            | Some claimed =>
                if is_ok (Budget.check (start_grant granted) now) then with_phase s (Mutating a (confirm a claimed))
                else with_phase s (Releasing a (Deferred, false))
            end)
  | Mutating a _, EMutated r => Some (with_phase s (Releasing a (called_outcome r)))
  | Releasing a (outcome, panicked), ERelease =>
      let s := with_control s (release_source (control s)) in
      Some (with_phase s (if panicked then Publishing a outcome true else Finishing a outcome))
  | Finishing a outcome, EFinished r =>
      let '(outcome, panicked) := called_outcome r in
      Some (with_phase s (if panicked then Publishing a outcome true else Disposing a outcome))
  | Disposing a outcome, EDisposed r =>
      let '(outcome, panicked) := called_outcome r in
      Some (with_phase s (Publishing a outcome panicked))
  | Publishing a outcome panicked, EPublish desired parked now =>
      if may_read s now then
        let '(c, n) := publish (control s) a outcome desired parked now in
        notify n None (with_clock (with_phase (with_control s c)
          (if panicked then Failing Panicked DriverRemains else Scanning)) now)
      else None
  | p, EUnwind => p ← unwinds p; Some (with_phase s p)
  | Failing e remains, EFail =>
      let '(c, n) := fail_worker (control s) e in
      notify n None (with_phase (with_control s c) (Leaving remains))
  | Leaving remains, EExit panicking =>
      if panicking && negb match remains with PayloadRemains => true | _ => false end then None
      else
        let '(c, n) := worker_exit (control s) panicking in
        notify n None (with_phase (with_control s c) Exited)
  | _, _ => None
  end.

Definition is_worker_event (e : event) : bool :=
  match e with
  | ERequest _ _ _ _ | ERequestAndWait _ _ _ _ | EWaitForFirst _ | EWaiter _ | ERebind _ _ | EStop
  | ECapture _ | EDropCapture _ | ESpurious _ => false
  | _ => true
  end.

Definition step (s : System) (e : event) : option System :=
  if is_worker_event e then worker_step s e else client_step s e.
Definition run (s : System) (es : list event) : option System :=
  foldl (fun s e => s ≫= fun s => step s e) (Some s) es.

(** ** The start of a runtime *)
Inductive StartError := StartLimit (e : ResourceLimit) | SpawnFailed.

Definition thread_stack : Z := (256 * 1024)%Z.
Definition thread_startup_allowance : Z := 4096%Z.

(** The charge of the fixed layouts: [sizes] are the ones that the compiler chooses, in the
    order of the sum, behind the layout of the shared state. *)
Definition startup_charge (shared : Z) (sizes : list Z) : result StartError Z :=
  try_fold (fun n size => ok_or (StartLimit ArithmeticOverflow) (checked_add_u64 n size)) shared
    (thread_stack :: thread_startup_allowance :: sizes).

Definition start_system (b : TargetBinding) (confirmation : bool) (source : option Source) (interval : Z) : System :=
  {| control := new_control b confirmation source interval; phase := Starting; waiters := ∅; captures := ∅;
     clock := 0 |}.

(** [reserve] is the answer of the account; [spawned] of the operating system. *)
Definition start_with_options (shared : Z) (sizes : list Z) (reserve : Z -> result ResourceLimit ())
    (b : TargetBinding) (interval : Z) (confirmation : bool) (source : option Source) (spawned : bool)
    : result StartError System :=
  let? charge := startup_charge shared sizes in
  let? _ := map_err StartLimit (reserve charge) in
  if spawned then Ok (start_system b confirmation source interval) else Err SpawnFailed.
End scheduler.
