(* ===== verification/SchedulerLaws.v ===== *)
(** * The invariant of the maintenance scheduler

    What holds of the mailbox, of the worker and of the waiting threads in every state that
    an interleaving of [Scheduler.step] reaches. *)
From S2P Require Import Prelude Order Budget Scheduler.

Section laws.
Context {Source Facts : Type} `{!EqDecision Facts} (facts : Source -> Facts).
Implicit Types (c : Control (Source:=Source)) (s : System (Source:=Source) (Facts:=Facts)).
Implicit Types (p : Phase (Facts:=Facts)) (w : Waiter) (a : Attempt).

(** A target of the past or of the present; a generation names one target. *)
Definition dated c (b : TargetBinding) (g : Z) : Prop :=
  (g <= generation c)%Z /\ (g = generation c -> b = binding c).

(** The control moves on: no generation is used for two targets. *)
Definition later c c' : Prop :=
  ((generation c < generation c')%Z \/ generation c = generation c' /\ binding c = binding c') /\
  (sequence (scheduler c) <= sequence (scheduler c'))%Z.

Lemma dated_later c c' b g : later c c' -> dated c b g -> dated c' b g.
Proof. unfold later, dated. intros [[?|[Hg Hb]] _] [? Hd]; split; [lia|lia|lia|rewrite <- Hb, <- Hg; exact Hd]. Qed.

Record control_ok c : Prop := {
  ok_target : snapshot_binding (snapshot c) = binding c /\ snapshot_generation (snapshot c) = generation c;
  ok_generation : (0 <= generation c <= u64_max)%Z;
  ok_sequence : (0 <= sequence (scheduler c) <= u64_max)%Z;
  ok_record : forall r, last_attempt (snapshot c) = Some r ->
    dated c (record_binding r) (record_generation r) /\ (request_sequence r <= sequence (scheduler c))%Z;
  ok_pending : pending (scheduler c) <> 0%Z -> snapshot_pending (snapshot c) = true;
  ok_due : (0 <= interval (scheduler c))%Z /\ (0 <= next_due (scheduler c) <= duration_max)%Z;
  ok_stopping : is_terminal (liveness (snapshot c)) = true -> stopping c = true
}.

Definition attempt_of p : option Attempt :=
  match p with
  | Sampling a | Preparing a _ | Judging a _ | Admitting a _ _ | AtGate a _ _ | Mutating a _ | Releasing a _
  | Finishing a _ | Disposing a _ | Publishing a _ _ => Some a
  | _ => None
  end.
Definition is_failing p : bool := match p with Failing _ _ => true | _ => false end.
(** Where a claimed source may be held. *)
Definition holds_claim p : bool :=
  match p with Mutating _ _ | Releasing _ _ | Failing _ _ => true | _ => false end.
Definition is_exited p : bool := match p with Exited => true | _ => false end.

(** [strict]: also what only holds when everyone has been told of the last change. *)
Record phase_ok (strict : bool) c p : Prop := {
  ok_attempt : forall a, attempt_of p = Some a ->
    dated c (attempt_binding a) (attempt_generation a) /\ (attempt_sequence a <= sequence (scheduler c))%Z /\
    running (snapshot c) = true /\ capturing_source c = false;
  ok_running : running (snapshot c) = true -> attempt_of p <> None \/ is_failing p = true;
  ok_claimed : claimed_source c <> None -> holds_claim p = true;
  ok_untimed : strict = true -> p = Asleep None -> capturing_source c = true;
  ok_timed : forall due, p = Asleep (Some due) -> due = next_due (scheduler c);
  ok_exited : is_exited p = true -> stopping c = true /\ confirmation c = false /\ confirmation_source c = None /\
    liveness (snapshot c) = (if failure (snapshot c) then Failed else Stopped);
  ok_terminal : is_terminal (liveness (snapshot c)) = true ->
    is_exited p = true \/ liveness (snapshot c) = Failed /\ generation c = u64_max
}.

Record waiter_ok (strict : bool) c p w : Prop := {
  ok_waits : dated c (waits_binding w) (waits_generation w);
  ok_waits_sequence : forall n, waits_sequence w = Some n -> (n <= sequence (scheduler c))%Z;
  ok_asleep : strict = true -> asleep w = true -> is_exited p = false /\
    (wait_over c w = true -> (waits_generation w < generation c)%Z \/ liveness (snapshot c) = Failed)
}.

Record system_ok (strict : bool) s : Prop := {
  ok_control : control_ok (control s);
  ok_phase : phase_ok strict (control s) (phase s);
  ok_waiters : forall i w, waiters s !! i = Some w -> waiter_ok strict (control s) (phase s) w;
  ok_captures : if capturing_source (control s) then exists i, captures s = {[i]} else captures s = ∅;
  ok_clock : (0 <= clock s <= duration_max)%Z
}.

(** ** Waking threads *)
Record woken s s' : Prop := {
  woken_control : control s' = control s;
  woken_captures : captures s' = captures s;
  woken_clock : clock s' = clock s;
  woken_phase : phase s' = phase s \/ (exists u, phase s = Asleep u) /\ phase s' = Scanning;
  woken_waiters : forall i, waiters s' !! i = waiters s !! i \/
    exists w, waiters s !! i = Some w /\ waiters s' !! i = Some (set_asleep w false)
}.

Lemma wait_over_awake c w on : wait_over c (set_asleep w on) = wait_over c w.
Proof. done. Qed.

Lemma woken_refl s : woken s s.
Proof. by constructor; try left. Qed.

Lemma wake_woken s th s' : wake s th = Some s' -> woken s s'.
Proof.
  intros Hw. destruct th as [|t]; simpl in Hw.
  - destruct (phase s) eqn:Hp; simplify_eq. constructor; simpl; try done; [|by left]. right. split; [eauto|done].
  - destruct (waiters s !! t) as [w|] eqn:Hl; [|done]. destruct (asleep w) eqn:Ha; simplify_eq.
    constructor; simpl; try done; [by left|]. intros i. destruct (decide (i = t)) as [->|].
    + right. exists w. by rewrite lookup_insert_eq.
    + left. by rewrite lookup_insert_ne.
Qed.

Lemma wake_all_woken s : woken s (wake_all s).
Proof.
  unfold wake_all, wake_worker. constructor; simpl; try (by destruct (phase s)).
  - destruct (phase s) eqn:Hp; simpl; try (by left). right. split; [eauto|done].
  - intros i. destruct (phase s); simpl; rewrite lookup_fmap; destruct (waiters s !! i) as [w|]; simpl; eauto.
Qed.

Lemma notify_woken n choice s s' : notify n choice s = Some s' -> woken s s'.
Proof.
  destruct n, choice; simpl; intros; simplify_eq; try apply woken_refl; try apply wake_all_woken.
  - by eapply wake_woken.
  - destruct (nobody_sleeps s); simplify_eq. apply woken_refl.
Qed.

Lemma wake_all_phase s u : phase (wake_all s) <> Asleep u.
Proof. unfold wake_all, wake_worker. by destruct (phase s) eqn:Hp; simpl; rewrite ?Hp. Qed.
Lemma wake_all_awake s i w : waiters (wake_all s) !! i = Some w -> asleep w = false.
Proof.
  unfold wake_all, wake_worker. destruct (phase s); simpl; rewrite lookup_fmap; destruct (waiters s !! i); simpl; intros; by simplify_eq.
Qed.

Lemma phase_ok_woken strict s s' :
  woken s s' -> phase_ok strict (control s) (phase s) -> phase_ok strict (control s') (phase s').
Proof.
  intros [-> _ _ [->|[[u Hu] ->]] _] Hok; [done|]. rewrite Hu in Hok. destruct Hok as [_ Hr Hc _ _ _ Ht].
  constructor; simpl in *; try done.
Qed.

Lemma waiter_ok_awake strict c p p' w : waiter_ok strict c p w -> waiter_ok true c p' (set_asleep w false).
Proof. intros [Hd Hn _]. by constructor. Qed.

Lemma system_ok_woken s s' : woken s s' -> system_ok true s -> system_ok true s'.
Proof.
  intros Hw [Hc Hp Hws Hcap Hclock]. pose proof (phase_ok_woken _ _ _ Hw Hp) as Hp'.
  destruct Hw as [Hc' Hcap' Hclock' Hp1 Hws']. rewrite Hc' in *. constructor; rewrite ?Hc', ?Hcap', ?Hclock'; try done.
  intros i w Hi. destruct (Hws' i) as [Heq|(w0 & Hw0 & Heq)]; rewrite Heq in Hi.
  - destruct (Hws _ _ Hi) as [Hd Hn Ha]. constructor; [done|done|]. intros Hst Has. destruct (Ha Hst Has) as [He Ho].
    split; [|done]. by destruct Hp1 as [->|[_ ->]].
  - simplify_eq. eapply waiter_ok_awake; eauto.
Qed.

Lemma system_ok_wake_all s : system_ok false s -> system_ok true (wake_all s).
Proof.
  intros [Hc Hp Hws Hcap Hclock]. pose proof (wake_all_woken s) as Hw. pose proof (phase_ok_woken _ _ _ Hw Hp) as [].
  destruct Hw as [Hc' Hcap' Hclock' _ Hws']. rewrite Hc' in *. constructor; rewrite ?Hc', ?Hcap', ?Hclock'; try done.
  - constructor; try done. intros _ Ha. by destruct (wake_all_phase s None).
  - intros i w Hi. destruct (Hws' i) as [Heq|(w0 & Hw0 & Heq)].
    + pose proof (wake_all_awake _ _ _ Hi) as Ha. rewrite Heq in Hi. destruct (Hws _ _ Hi). constructor; try done.
      by rewrite Ha.
    + rewrite Heq in Hi. simplify_eq. eapply waiter_ok_awake; eauto.
Qed.

Definition tells_all (n : Notify) : bool := match n with NotifyAll => true | _ => false end.

Lemma notify_ok n choice s s' : notify n choice s = Some s' -> system_ok (negb (tells_all n)) s -> system_ok true s'.
Proof.
  intros Hn Hok. destruct n; simpl in Hok; [by eapply system_ok_woken, Hok; eapply notify_woken..|].
  destruct choice; simpl in Hn; simplify_eq. by apply system_ok_wake_all.
Qed.

(** ** One thread at the mailbox *)
Record frame c c' : Prop := {
  frame_later : later c c';
  frame_running : running (snapshot c') = running (snapshot c);
  frame_capturing : capturing_source c' = capturing_source c;
  frame_claimed : claimed_source c' = claimed_source c;
  frame_due : next_due (scheduler c') = next_due (scheduler c)
}.

(** Nobody who sleeps has to be told of the change. *)
Definition untold c c' : Prop :=
  forall w, dated c (waits_binding w) (waits_generation w) -> wait_over c' w = true ->
    (wait_over c w = true /\ liveness (snapshot c') = liveness (snapshot c)) \/
    liveness (snapshot c') = Failed \/ (waits_generation w < generation c')%Z.

Lemma phase_ok_frame strict c c' p :
  phase_ok true c p -> frame c c' ->
  (is_exited p = true -> stopping c' = true /\ confirmation c' = false /\ confirmation_source c' = None /\
    liveness (snapshot c') = (if failure (snapshot c') then Failed else Stopped)) ->
  (is_terminal (liveness (snapshot c')) = true ->
    is_exited p = true \/ liveness (snapshot c') = Failed /\ generation c' = u64_max) ->
  phase_ok strict c' p.
Proof.
  intros [Ha Hr Hc Hu Hd _ _] [Hl Er Ec Ecl Edue] He Ht. constructor; rewrite ?Er, ?Ec, ?Ecl, ?Edue; try done.
  - intros a Hp. destruct (Ha a Hp) as (Hda & Hs & Hrun & Hcap). split_and!; [by eapply dated_later| |done|done].
    destruct Hl. lia.
  - intros _. by apply Hu.
Qed.

Lemma waiter_ok_frame strict c c' p w :
  waiter_ok true c p w -> later c c' -> (strict = true -> untold c c') -> waiter_ok strict c' p w.
Proof.
  intros [Hd Hn Ha] Hl Hu. constructor; [by eapply dated_later| |].
  - intros n E. specialize (Hn n E). destruct Hl. lia.
  - intros Hs Has. destruct (Ha eq_refl Has) as [He Ho]. split; [done|]. intros Hov.
    destruct (Hu Hs w Hd Hov) as [[Hov0 Eq]|[|]]; [|by right|by left].
    destruct (Ho Hov0) as [?|?]; [left; destruct Hl; lia|right; congruence].
Qed.

Lemma with_control_ok strict s c' :
  system_ok true s -> control_ok c' -> frame (control s) c' -> (strict = true -> untold (control s) c') ->
  (is_exited (phase s) = true -> stopping c' = true /\ confirmation c' = false /\ confirmation_source c' = None /\
    liveness (snapshot c') = (if failure (snapshot c') then Failed else Stopped)) ->
  (is_terminal (liveness (snapshot c')) = true ->
    is_exited (phase s) = true \/ liveness (snapshot c') = Failed /\ generation c' = u64_max) ->
  system_ok strict (with_control s c').
Proof.
  intros [Hc Hp Hws Hcap Hclock] Hc' Hf Hu He Ht. constructor; simpl; try done.
  - by eapply phase_ok_frame.
  - intros i w Hi. eapply waiter_ok_frame; [by eapply Hws|by destruct Hf|done].
  - by rewrite (frame_capturing _ _ Hf).
Qed.

Lemma untold_same c c' :
  binding c' = binding c -> generation c' = generation c -> liveness (snapshot c') = liveness (snapshot c) ->
  last_attempt (snapshot c') = last_attempt (snapshot c) -> untold c c'.
Proof. intros Hb Hg Hl Hr w _ Ho. left. split; [|done]. revert Ho. unfold wait_over. by rewrite Hb, Hg, Hl, Hr. Qed.

Lemma untold_moved c c' : (generation c < generation c')%Z -> untold c c'.
Proof. intros Hg w [Hw _] _. right. right. lia. Qed.

Lemma later_same c c' :
  binding c' = binding c -> generation c' = generation c ->
  (sequence (scheduler c) <= sequence (scheduler c'))%Z -> later c c'.
Proof. intros Hb Hg Hs. unfold later. rewrite Hb, Hg. split; [by right|done]. Qed.

Lemma request_sequence_le m t :
  (0 <= sequence m <= u64_max)%Z ->
  (sequence m <= sequence (scheduler_request m t))%Z /\ (0 <= sequence (scheduler_request m t) <= u64_max)%Z.
Proof. unfold scheduler_request, saturating_add_u64. simpl. lia. Qed.

Lemma enqueue_ok c t confirming source :
  control_ok c -> is_terminal (liveness (snapshot c)) = false ->
  control_ok (enqueue c t confirming source) /\ frame c (enqueue c t confirming source) /\
  untold c (enqueue c t confirming source) /\
  is_terminal (liveness (snapshot (enqueue c t confirming source))) = false.
Proof.
  intros [Ht Hg Hs Hr Hp Hd Hst] Hl. destruct (request_sequence_le (scheduler c) t Hs) as [Hle Hb].
  assert (binding (enqueue c t confirming source) = binding c /\
          generation (enqueue c t confirming source) = generation c /\
          snapshot (enqueue c t confirming source) = snap_requested (snapshot c) /\
          scheduler (enqueue c t confirming source) = scheduler_request (scheduler c) t /\
          frame c (enqueue c t confirming source)) as (Eb & Eg & Es & Em & Hf).
  { unfold enqueue. destruct confirming; split_and!; try done; constructor; simpl; try done; by apply later_same. }
  split_and!; [|done|by apply untold_same; rewrite ?Es|by rewrite Es]. constructor; rewrite ?Es, ?Em, ?Eg, ?Eb; simpl; try done.
  - intros r Hlr. destruct (Hr r Hlr) as [Hda Hseq]. split; [by destruct Hf; eapply dated_later|]. simpl in Hle. lia.
  - by rewrite Hl.
Qed.

Lemma not_terminal c p :
  control_ok c -> phase_ok true c p -> stopping c = false -> is_terminal (liveness (snapshot c)) = false /\ is_exited p = false.
Proof.
  intros Hc Hp Hs. split.
  - destruct (is_terminal _) eqn:E; [|done]. rewrite (ok_stopping _ Hc E) in Hs. done.
  - destruct (is_exited p) eqn:E; [|done]. destruct (ok_exited _ _ _ Hp E) as [E' _]. congruence.
Qed.

Lemma enqueue_system_ok strict s t confirming source :
  system_ok true s -> stopping (control s) = false ->
  system_ok strict (with_control s (enqueue (control s) t confirming source)).
Proof.
  intros Hok Hs. destruct (not_terminal _ _ (ok_control _ _ Hok) (ok_phase _ _ Hok) Hs) as [Hl He].
  destruct (enqueue_ok _ t confirming source (ok_control _ _ Hok) Hl) as (Hc & Hf & Hu & Hl').
  apply with_control_ok; try done; [by rewrite He|by rewrite Hl'].
Qed.

Lemma system_ok_weaken strict s : system_ok true s -> system_ok strict s.
Proof.
  destruct strict; [done|]. intros [Hc [] Hws Hcap Hclock]. constructor; try done.
  intros i w Hi. by destruct (Hws i w Hi).
Qed.

Lemma with_control_same s : with_control s (control s) = s.
Proof. by destruct s. Qed.

Lemma request_with_source_ok s t confirming source r c n :
  system_ok true s -> request_with_source (control s) t confirming source = (r, c, n) ->
  system_ok (negb (tells_all n)) (with_control s c).
Proof.
  unfold request_with_source. intros Hok Hr. repeat case_match; simplify_eq; rewrite ?with_control_same; try done.
  by apply enqueue_system_ok.
Qed.

Lemma look_ok s i w :
  system_ok true s -> waiter_ok true (control s) (phase s) (set_asleep w false) -> system_ok true (look s i w).
Proof.
  intros [Hc Hp Hws Hcap Hclock] Hw. unfold look. destruct (wait_over (control s) w) eqn:Ho; constructor; simpl; try done.
  - intros j x [_ Hj]%lookup_delete_Some. by eapply Hws.
  - intros j x [[_ <-]|[_ Hj]]%lookup_insert_Some; [|by eapply Hws]. destruct Hw as [Hd Hn _]. constructor; try done.
    intros _ _. change (wait_over (control s) (set_asleep w true)) with (wait_over (control s) w). rewrite Ho. split; [|done].
    destruct (is_exited (phase s)) eqn:He; [|done]. destruct (ok_exited _ _ _ Hp He) as (_ & _ & _ & Hl).
    unfold wait_over in Ho. rewrite Hl in Ho. destruct (failure _); simpl in Ho; by rewrite orb_true_r in Ho.
Qed.

Lemma request_and_wait_ok s i t confirming source entry c n s' :
  system_ok true s -> request_and_wait_with_source (control s) t confirming source = (entry, c, n) ->
  notify n None (with_control s c) = Some s' ->
  system_ok true match entry with Some w => look s' i w | None => s' end.
Proof.
  unfold request_and_wait_with_source. intros Hok Hr Hn. destruct (stopping (control s)) eqn:Hs; simpl in Hr.
  { simplify_eq. simpl in Hn. simplify_eq. by rewrite with_control_same. }
  destruct (_ || _); simplify_eq; [simpl in Hn; simplify_eq; by rewrite with_control_same|].
  pose proof (notify_woken _ _ _ _ Hn) as Hw. apply look_ok.
  - eapply notify_ok; [done|]. by apply enqueue_system_ok.
  - rewrite (woken_control _ _ Hw). simpl. constructor; simpl; try done. intros n [= <-]. lia.
Qed.

Lemma move_target_ok c b g :
  checked_add_u64 (generation c) 1 = Some g -> (0 <= generation c)%Z -> (0 <= sequence (scheduler c) <= u64_max)%Z ->
  frame c (move_target c b g) /\ (generation c < generation (move_target c b g))%Z /\
  (snapshot_binding (snapshot (move_target c b g)) = b /\ snapshot_generation (snapshot (move_target c b g)) = g) /\
  (0 <= g <= u64_max)%Z.
Proof.
  intros [-> Hle]%checked_add_u64_Some Hg Hs. destruct (request_sequence_le (scheduler c) Startup Hs) as [Hle' Hb].
  split_and!; try done; simpl; try lia. constructor; simpl; try done. split; [left; simpl; lia|done].
Qed.

(** The record and the sequence of a control that has moved on. *)
Lemma record_later c c' r :
  control_ok c -> later c c' -> last_attempt (snapshot c) = Some r ->
  dated c' (record_binding r) (record_generation r) /\ (request_sequence r <= sequence (scheduler c'))%Z.
Proof.
  intros Hc Hl Hr. destruct (ok_record _ Hc r Hr) as [Hd Hs]. split; [by eapply dated_later|]. destruct Hl. lia.
Qed.

Lemma rebind_ok s b r c n :
  system_ok true s -> rebind (control s) b = (r, c, n) -> system_ok (negb (tells_all n)) (with_control s c).
Proof.
  unfold rebind. intros Hok Hr. repeat case_match; simplify_eq; rewrite ?with_control_same; try done;
    destruct (not_terminal _ _ (ok_control _ _ Hok) (ok_phase _ _ Hok)) as [Hl He]; try done;
    pose proof (ok_control _ _ Hok) as Hc.
  - destruct (move_target_ok _ b _ ltac:(eassumption) (proj1 (ok_generation _ Hc)) (ok_sequence _ Hc)) as (Hf & Hg & [Hb1 Hb2] & Hgb). apply with_control_ok; try done.
    + destruct Hc as [Ht Hgen Hs Hrec Hp Hd Hst]. constructor; simpl; try done; [unfold saturating_add_u64; lia|].
      intros x Hx. by apply (record_later _ _ _ (ok_control _ _ Hok) (frame_later _ _ Hf)).
    + destruct Hf. by constructor.
    + intros _. by apply untold_moved.
    + by rewrite He.
    + simpl. by rewrite Hl.
  - apply with_control_ok; simpl; try done; [| | | by rewrite He|].
    + destruct Hc as [Ht Hgen Hs Hrec Hp Hd Hst]. by constructor.
    + constructor; simpl; try done. by apply later_same.
    + intros _ w _ _. right. by left.
    + intros _. right. split; [done|]. pose proof (ok_generation _ Hc). unfold checked_add_u64 in *. case_decide; [done|]. lia.
Qed.

Lemma request_stop_ok s c n :
  system_ok true s -> request_stop (control s) = (c, n) -> system_ok (negb (tells_all n)) (with_control s c).
Proof.
  unfold request_stop. intros Hok Hr. simplify_eq. simpl.
  pose proof (ok_control _ _ Hok) as [Ht Hgen Hs Hrec Hp Hd Hst]. pose proof (ok_phase _ _ Hok) as [_ _ _ _ _ He Hte].
  destruct (decide _) as [El|El]; simpl in *; apply with_control_ok; simpl; try done; try (by constructor; [..|done]);
    try (constructor; simpl; try done; by apply later_same).
  - intros Hx. destruct (He Hx) as (_ & _ & _ & El'). rewrite El in El'. by destruct (failure _).
  - intros Hx. destruct (He Hx) as (_ & _ & _ & El'). done.
Qed.

Lemma begin_source_capture_ok s i c :
  system_ok true s -> begin_source_capture (control s) = Some c ->
  system_ok true (with_captures (with_control s c) ({[i]} ∪ captures s)).
Proof.
  unfold begin_source_capture. intros Hok Hr. destruct (stopping (control s)) eqn:Hs; [done|]. simpl in Hr.
  destruct (bool_decide (liveness _ = _)); [done|]. destruct (running _) eqn:Hrun; [done|].
  destruct (source_payloads_parked _); [done|]. destruct (bool_decide _); [done|]. destruct (capturing_source _) eqn:Hcap; [done|].
  simpl in Hr. simplify_eq. destruct (not_terminal _ _ (ok_control _ _ Hok) (ok_phase _ _ Hok) Hs) as [Hl He].
  destruct Hok as [[Ht Hgen Hse Hrec Hp Hd Hst] [Ha Hr Hc Hu Hti Hx Hte] Hws Hcs Hclock]. rewrite Hcap in Hcs.
  constructor; simpl; try done.
  - constructor; simpl; try done; [|by rewrite He]. intros a Hpa. destruct (Ha a Hpa) as (_ & _ & E & _). congruence.
  - intros j w Hj. destruct (Hws j w Hj). by constructor.
  - exists i. rewrite Hcs. set_solver.
Qed.

Lemma drop_source_capture_ok s i c n :
  system_ok true s -> i ∈ captures s -> drop_source_capture (control s) = (c, n) ->
  system_ok (negb (tells_all n)) (with_captures (with_control s c) (captures s ∖ {[i]})).
Proof.
  unfold drop_source_capture. intros Hok Hi Hr. simplify_eq. simpl.
  destruct Hok as [[Ht Hgen Hse Hrec Hp Hd Hst] [Ha Hr Hc Hu Hti Hx Hte] Hws Hcs Hclock].
  destruct (capturing_source (control s)) eqn:Hcap; [destruct Hcs as [j Hj]|set_solver]. assert (i = j) as -> by set_solver.
  constructor; simpl; try done.
  - constructor; simpl; try done. intros a Hpa. by destruct (Ha a Hpa) as (? & ? & ? & ?).
  - intros k w Hk. by destruct (Hws k w Hk).
  - rewrite Hj. set_solver.
Qed.

Lemma client_step_ok s e s' : system_ok true s -> client_step s e = Some s' -> system_ok true s'.
Proof.
  intros Hok Hs. destruct e; simpl in Hs; try done.
  - destruct (request_with_source _ _ _ _) as [[r c] n] eqn:E. eapply notify_ok; [done|]. by eapply request_with_source_ok.
  - destruct (decide _); [|done]. destruct (request_and_wait_with_source _ _ _ _) as [[w c] n] eqn:E.
    apply bind_Some in Hs as (s1 & Hn & [= <-]). by eapply request_and_wait_ok.
  - destruct (decide _); simplify_eq. apply look_ok; [done|]. constructor; simpl; try done.
  - destruct (waiters s !! i) as [w|] eqn:Hw; [|done]. destruct (asleep w); simplify_eq. apply look_ok; [done|].
    eapply waiter_ok_awake. by eapply ok_waiters.
  - destruct (rebind _ _) as [[r c] n] eqn:E. eapply notify_ok; [done|]. by eapply rebind_ok.
  - eapply (notify_ok NotifyAll None); [exact Hs|]. by eapply (request_stop_ok s).
  - apply bind_Some in Hs as (c & Hc & [= <-]). by apply begin_source_capture_ok.
  - destruct (bool_decide (i ∈ captures s)) eqn:Hi; [|done]. apply bool_decide_eq_true in Hi.
    eapply (notify_ok NotifyAll None); [exact Hs|]. by eapply (drop_source_capture_ok s).
  - eapply system_ok_woken, Hok. by eapply wake_woken.
Qed.

(** ** The worker *)
Lemma worker_moves strict s c' p' now :
  system_ok true s -> control_ok c' -> later (control s) c' -> capturing_source c' = capturing_source (control s) ->
  (strict = true -> untold (control s) c' /\ is_exited p' = false) -> phase_ok strict c' p' ->
  (0 <= now <= duration_max)%Z ->
  system_ok strict (with_clock (with_phase (with_control s c') p') now).
Proof.
  intros [Hc Hp Hws Hcap Hclock] Hc' Hl Ecap Hu Hp' Hnow. constructor; simpl; try done; [|by rewrite Ecap].
  intros i w Hi. pose proof (waiter_ok_frame strict _ _ _ _ (Hws i w Hi) Hl (fun E => proj1 (Hu E))) as [Hd Hn Ha].
  constructor; try done. intros Hs Has. destruct (Ha Hs Has) as [_ Ho]. split; [by destruct (Hu Hs)|done].
Qed.

Lemma later_refl c : later c c.
Proof. by apply later_same. Qed.
Lemma untold_refl c : untold c c.
Proof. by apply untold_same. Qed.

(** The worker goes on without a change of the mailbox. *)
Lemma worker_continues s p' now :
  system_ok true s -> is_exited (phase s) = false -> is_exited p' = false ->
  (forall a, attempt_of p' = Some a -> attempt_of (phase s) = Some a) ->
  (running (snapshot (control s)) = true -> attempt_of p' <> None \/ is_failing p' = true) ->
  (claimed_source (control s) <> None -> holds_claim p' = true) ->
  (forall u, p' = Asleep u -> match u with None => capturing_source (control s) = true
                              | Some due => due = next_due (scheduler (control s)) end) ->
  (0 <= now <= duration_max)%Z ->
  system_ok true (with_clock (with_phase s p') now).
Proof.
  intros Hok Hx Hx' Ha Hr Hc Hsl Hnow. rewrite <- (with_control_same s) at 1. pose proof (ok_phase _ _ Hok) as Hp.
  apply worker_moves; try done; [by destruct Hok|apply later_refl|split; [apply untold_refl|done]|].
  constructor; try done.
  - intros a Hpa. by apply (ok_attempt _ _ _ Hp), Ha.
  - intros _ E. by apply (Hsl None).
  - intros due E. by apply (Hsl (Some due)).
  - by rewrite Hx'.
  - intros Ht. right. destruct (ok_terminal _ _ _ Hp Ht) as [E|]; [congruence|done].
Qed.

Lemma with_clock_same s : with_clock s (clock s) = s.
Proof. by destruct s. Qed.

Lemma worker_phase s p' :
  system_ok true s -> is_exited (phase s) = false -> is_exited p' = false ->
  (forall a, attempt_of p' = Some a -> attempt_of (phase s) = Some a) ->
  (running (snapshot (control s)) = true -> attempt_of p' <> None \/ is_failing p' = true) ->
  (claimed_source (control s) <> None -> holds_claim p' = true) ->
  (forall u, p' <> Asleep u) ->
  system_ok true (with_phase s p').
Proof.
  intros Hok Hx Hx' Ha Hr Hc Hsl. rewrite <- (with_clock_same (with_phase s p')). simpl.
  apply worker_continues; try done; [|by destruct Hok]. intros u E. by destruct (Hsl u).
Qed.

Lemma idle_running s : system_ok true s -> attempt_of (phase s) = None -> is_failing (phase s) = false ->
  running (snapshot (control s)) = false.
Proof.
  intros Hok Ha Hf. destruct (running _) eqn:E; [|done].
  destruct (ok_running _ _ _ (ok_phase _ _ Hok) E); congruence.
Qed.

Lemma idle_claimed s : system_ok true s -> holds_claim (phase s) = false -> claimed_source (control s) = None.
Proof.
  intros Hok Ha. destruct (claimed_source _) eqn:E; [|done].
  pose proof (ok_claimed _ _ _ (ok_phase _ _ Hok)) as Hc. rewrite E in Hc. rewrite Hc in Ha; done.
Qed.

Lemma may_read_bounds s now : system_ok true s -> may_read s now = true -> (0 <= now <= duration_max)%Z.
Proof. intros [_ _ _ _ Hc] [?%Z.leb_le ?%Z.leb_le]%andb_true_iff. lia. Qed.

Lemma scan_ok s now :
  system_ok true s -> phase s = Scanning -> (0 <= now <= duration_max)%Z ->
  system_ok true match scan_mailbox (control s) now with
                 | ScanStops c => with_phase (with_control s c) (Leaving DriverRemains)
                 | ScanWaits due => with_clock (with_phase s (Asleep due)) now
                 | ScanBegins a c => with_clock (with_phase (with_control s c) (Sampling a)) now
                 end.
Proof.
  intros Hok Hp Hnow. pose proof (idle_running s Hok) as Hr. pose proof (idle_claimed s Hok) as Hcl. rewrite Hp in Hr, Hcl.
  specialize (Hr eq_refl eq_refl). specialize (Hcl eq_refl). unfold scan_mailbox.
  pose proof (ok_control _ _ Hok) as Hc. destruct (stopping (control s)) eqn:Hs.
  - assert (set_snapshot (control s) (snap_running (snapshot (control s)) false) = control s) as ->.
    { rewrite <- Hr. destruct (control s) as [? ? ? ? ? ? ? ? ? []]; done. }
    rewrite with_control_same. apply worker_phase; rewrite ?Hp, ?Hr, ?Hcl; done.
  - destruct (capturing_source (control s)) eqn:Hcap.
    { apply worker_continues; rewrite ?Hp, ?Hr, ?Hcl; try done. by intros u [= <-]. }
    unfold scheduler_begin. destruct (now <? next_due _)%Z.
    { apply worker_continues; rewrite ?Hp, ?Hr, ?Hcl; try done. by intros u [= <-]. }
    destruct (not_terminal _ _ Hc (ok_phase _ _ Hok) Hs) as [Hl _]. pose proof (ok_due _ Hc) as [Hi Hd].
    apply worker_moves; simpl; try done; [|by apply later_same| |].
    + destruct Hc. constructor; simpl; try done. split; [done|]. unfold saturating_add_duration. lia.
    + split; [|done]. by apply untold_same.
    + constructor; simpl; try done; [|by left|by rewrite Hl]. intros a [= <-]. simpl. by split_and!.
Qed.

(** What the gate may change. *)
Definition claims c c' : Prop :=
  c' = c \/ (stopping c = false /\
    (c' = set_confirmation c false (confirmation_source c) \/
     c' = set_confirmation (set_claimed (set_confirmation c false (confirmation_source c)) (confirmation_source c)) false None)).

Lemma claim_claims c a prepared requires x c' : claim facts c a prepared requires = (x, c') -> claims c c'.
Proof.
  unfold claim, claims. intros E. repeat case_match; simplify_eq; try (by left); right; split; try (by right); try (by left);
    by destruct (stopping c).
Qed.

Lemma claim_ok s a prepared requires x c' p' :
  system_ok true s -> phase s = AtGate a prepared requires -> claim facts (control s) a prepared requires = (x, c') ->
  attempt_of p' = Some a -> holds_claim p' = true -> system_ok true (with_phase (with_control s c') p').
Proof.
  intros Hok Hp Hc Ha Hh. pose proof (ok_phase _ _ Hok) as [Hat Hr Hcl _ _ _ Ht]. rewrite Hp in *.
  destruct (Hat a eq_refl) as (Hda & Hseq & Hrun & Hcap).
  assert (control_ok c' /\ later (control s) c' /\ capturing_source c' = capturing_source (control s) /\
          untold (control s) c' /\ snapshot c' = snapshot (control s) /\ scheduler c' = scheduler (control s) /\
          generation c' = generation (control s) /\ binding c' = binding (control s)) as (Hc' & Hl & Ecap & Hu & Es & Em & Eg & Eb).
  { pose proof (ok_control _ _ Hok) as []. destruct (claim_claims _ _ _ _ _ _ Hc) as [->|[_ [-> | ->]]];
      (split_and!; first [done | by apply later_same | by apply untold_same | by constructor]). }
  change (system_ok true (with_clock (with_phase (with_control s c') p') (clock s))).
  assert (is_exited p' = false) as He by (by destruct p').
  apply worker_moves; try done; [|by destruct Hok]. constructor; rewrite ?Es, ?Em, ?Ecap, ?Eg; try done.
  - rewrite Ha. intros b [= <-]. split_and!; try done. unfold dated. by rewrite Eg, Eb.
  - intros _. left. by rewrite Ha.
  - by intros _ ->.
  - by intros due ->.
  - by rewrite He.
  - intros Hte. right. by destruct (Ht Hte).
Qed.

Lemma release_ok s a result p' :
  system_ok true s -> phase s = Releasing a result -> attempt_of p' = Some a ->
  system_ok true (with_phase (with_control s (release_source (control s))) p').
Proof.
  intros Hok Hp Ha. pose proof (ok_phase _ _ Hok) as [Hat Hr Hcl _ _ _ Ht]. rewrite Hp in *.
  destruct (Hat a eq_refl) as (Hda & Hseq & Hrun & Hcap).
  change (system_ok true (with_clock (with_phase (with_control s (release_source (control s))) p') (clock s))).
  assert (is_exited p' = false) as He by (by destruct p').
  apply worker_moves; try done; [by destruct Hok as [[] ]|by apply later_same|split; [by apply untold_same|done]| |by destruct Hok].
  constructor; simpl; try done.
  - rewrite Ha. intros b [= <-]. by split_and!.
  - intros _. left. by rewrite Ha.
  - by intros _ ->.
  - by intros due ->.
  - by rewrite He.
  - intros Hte. right. by destruct (Ht Hte).
Qed.

Lemma fail_worker_ok s e remains c n :
  system_ok true s -> phase s = Failing e remains -> fail_worker (control s) e = (c, n) ->
  system_ok false (with_phase (with_control s c) (Leaving remains)).
Proof.
  intros Hok Hp [= <- <-].
  match goal with |- system_ok _ ?x => change (system_ok false (with_clock x (clock s))) end.
  pose proof (ok_control _ _ Hok) as [Ht Hgen Hs Hrec Hpe Hd Hst].
  apply worker_moves; simpl; first [done | by apply later_same | by constructor | by destruct Hok].
Qed.

Lemma worker_exit_ok s remains panicking c n :
  system_ok true s -> phase s = Leaving remains -> worker_exit (control s) panicking = (c, n) ->
  system_ok false (with_phase (with_control s c) Exited).
Proof.
  intros Hok Hp [= <- <-].
  match goal with |- system_ok _ ?x => change (system_ok false (with_clock x (clock s))) end.
  pose proof (ok_control _ _ Hok) as [Ht Hgen Hs Hrec Hpe Hd Hst].
  apply worker_moves; simpl; try done; [|by apply later_same| |by destruct Hok].
  - destruct panicking; by constructor.
  - destruct panicking; constructor; simpl; try done; by left.
Qed.

(** *** The publication, in its stages *)
Definition record_of a outcome : AttemptRecord :=
  {| record_binding := attempt_binding a; record_generation := attempt_generation a;
     request_sequence := attempt_sequence a; record_triggers := attempt_triggers a; record_outcome := outcome |}.

Definition recorded c a outcome parked now : Control :=
  let c := set_parked (set_snapshot c (snap_running (snapshot c) false)) parked in
  let c := if (generation c =? attempt_generation a)%Z
           then set_snapshot c (snap_attempt (snapshot c) (record_of a outcome)) else c in
  set_scheduler c (scheduler_complete (scheduler c) now outcome).

Definition handed_over c a (desired : option TargetBinding) now : Control :=
  match desired with
  | Some b =>
      if (generation c =? attempt_generation a)%Z && negb (bool_decide (b = binding c)) then
        match checked_add_u64 (generation c) 1 with
        | Some g => let c := move_target c b g in set_scheduler c (set_next_due (scheduler c) now)
        | None => set_snapshot (set_stopping c) (snap_failure (snapshot c) Preparation)
        end
      else c
  | None => c
  end.

Definition continued c : Control :=
  if confirmation c then set_scheduler c (add_pending (scheduler c) Continuation) else c.
Definition finished c : Control :=
  set_snapshot c (snap_pending (snapshot c) (negb (pending (scheduler c) =? 0)%Z)).

Lemma publish_stages c a outcome desired parked now :
  publish c a outcome desired parked now = (finished (continued (handed_over (recorded c a outcome parked now) a desired now)), NotifyAll).
Proof. done. Qed.

(** All but what the last stage writes. *)
Definition nearly_ok c : Prop := control_ok (set_snapshot c (snap_pending (snapshot c) true)).

Lemma nearly_finished c : nearly_ok c -> control_ok (finished c).
Proof. intros []. constructor; simpl in *; try done. intros Hp. apply Z.eqb_neq in Hp. by rewrite Hp. Qed.

Lemma complete_fields m now outcome :
  interval (scheduler_complete m now outcome) = interval m /\ sequence (scheduler_complete m now outcome) = sequence m /\
  next_due (scheduler_complete m now outcome) = saturating_add_duration now (interval m).
Proof. unfold scheduler_complete. by destruct (decide _). Qed.

(** What the stages keep. *)
Record stage_ok c c' : Prop := {
  stage_nearly : nearly_ok c';
  stage_later : later c c';
  stage_capturing : capturing_source c' = capturing_source c;
  stage_running : running (snapshot c') = false;
  stage_claimed : claimed_source c' = claimed_source c;
  stage_liveness : liveness (snapshot c') = liveness (snapshot c)
}.

Lemma recorded_ok c a outcome parked now :
  control_ok c -> dated c (attempt_binding a) (attempt_generation a) ->
  (attempt_sequence a <= sequence (scheduler c))%Z -> (0 <= now <= duration_max)%Z ->
  stage_ok c (recorded c a outcome parked now).
Proof.
  intros [Ht Hgen Hs Hrec Hpe [Hi Hd] Hst] Hda Hseq Hnow. destruct (complete_fields (scheduler c) now outcome) as (Ei & Es & Ed).
  unfold recorded. simpl. destruct (generation c =? _)%Z eqn:Eg.
  all: constructor; simpl; try done; [|by apply later_same; simpl; rewrite ?Es].
  all: constructor; simpl; rewrite ?Ei, ?Es, ?Ed; try done;
    try (split; [done|]; unfold saturating_add_duration; lia).
  by intros r [= <-].
Qed.

Lemma handed_over_ok c a desired now :
  nearly_ok c -> running (snapshot c) = false -> (0 <= now <= duration_max)%Z ->
  stage_ok c (handed_over c a desired now).
Proof.
  intros Hn Hr Hnow. assert (stage_ok c c) as Hsame by (constructor; [done|apply later_refl|done..]).
  unfold handed_over. destruct desired as [b|]; [|done]. destruct (_ && _); [|done].
  destruct (checked_add_u64 _ _) as [g|] eqn:Hg.
  - destruct (move_target_ok _ b g Hg (proj1 (ok_generation _ Hn)) (ok_sequence _ Hn)) as (Hf & Hlt & _ & Hgb). simpl in Hlt. destruct Hf as [Hl _ _ _ _].
    assert (later c (set_scheduler (move_target c b g) (set_next_due (scheduler (move_target c b g)) now))) as Hl'.
    { destruct Hl as [? Hs]. split; [by left|]. exact Hs. }
    constructor; try done. destruct Hn as [Ht Hgen Hs Hre Hpe [Hi Hd] Hst]. simpl in *.
    constructor; simpl; try done.
    + unfold saturating_add_u64. lia.
    + intros r Hlr. destruct (Hre r Hlr) as [Hda Hsq]. split; [by eapply (dated_later c)|]. unfold saturating_add_u64.
      simpl in *. lia.
  - constructor; simpl; try done; [|by apply later_same]. destruct Hn. by constructor.
Qed.

Lemma continued_ok c : nearly_ok c -> running (snapshot c) = false -> stage_ok c (continued c).
Proof.
  intros Hn Hr. unfold continued. destruct (confirmation c); [|by constructor; [done|apply later_refl|..]].
  constructor; simpl; try done; [|by apply later_same]. destruct Hn. by constructor.
Qed.

Lemma later_trans c c' c'' : later c c' -> later c' c'' -> later c c''.
Proof.
  intros [Hg1 Hs1] [Hg2 Hs2]. split; [|lia]. destruct Hg1 as [|[]], Hg2 as [|[]]; try (left; lia). right. split; congruence.
Qed.

Lemma stage_trans c c' c'' : stage_ok c c' -> stage_ok c' c'' -> stage_ok c c''.
Proof.
  intros [_ Hl1 Hc1 _ Hcl1 Hli1] [Hn Hl2 Hc2 Hr Hcl2 Hli2]. constructor; try congruence; try done.
  by eapply later_trans.
Qed.

Lemma publish_ok s a outcome desired parked panicked now c n :
  system_ok true s -> phase s = Publishing a outcome panicked -> may_read s now = true ->
  publish (control s) a outcome desired parked now = (c, n) ->
  system_ok false (with_clock (with_phase (with_control s c) (if panicked then Failing Panicked DriverRemains else Scanning)) now).
Proof.
  intros Hok Hp Hm Hpub. pose proof (may_read_bounds _ _ Hok Hm) as Hnow. rewrite publish_stages in Hpub. simplify_eq.
  pose proof (ok_phase _ _ Hok) as [Hat _ Hcl _ _ _ Ht]. rewrite Hp in *. destruct (Hat a eq_refl) as (Hda & Hseq & Hrun & Hcap).
  pose proof (recorded_ok _ _ outcome parked now (ok_control _ _ Hok) Hda Hseq Hnow) as H1.
  pose proof (handed_over_ok _ a desired now (stage_nearly _ _ H1) (stage_running _ _ H1) Hnow) as H2.
  pose proof (continued_ok _ (stage_nearly _ _ H2) (stage_running _ _ H2)) as H3.
  pose proof (stage_trans _ _ _ H1 (stage_trans _ _ _ H2 H3)) as [Hn Hl Ecap Er Ecl Eli]. clear H1 H2 H3.
  set (c3 := continued _) in *.
  assert (is_terminal (liveness (snapshot c3)) = true -> liveness (snapshot c3) = Failed /\ generation c3 = u64_max) as Hter.
  { rewrite Eli. intros Hte. destruct (Ht Hte) as [|[E Eg]]; [done|]. split; [done|].
    pose proof (ok_generation _ Hn) as Hb. simpl in Hb. destruct Hl as [Hl _]. lia. }
  apply worker_moves; simpl; try done; [by apply nearly_finished|].
  destruct panicked; constructor; simpl; try done; try (by rewrite Er); try (rewrite Ecl; intros Hx; by specialize (Hcl Hx));
    intros Hte; right; by apply Hter.
Qed.

(** *** Steps and runs *)
(** A phase without effect: the attempt stays, and a claimed source with it. *)
Ltac quiet_phase Hp :=
  apply worker_phase; rewrite ?Hp; simpl; try done;
  try (by intros _; first [left | right]).

Lemma unwind_ok s p' : system_ok true s -> unwinds (phase s) = Some p' -> system_ok true (with_phase s p').
Proof.
  intros Hok Hu.
  assert (is_exited (phase s) = false /\ exists e r, p' = Failing e r) as [Hx (e & r & ->)].
  { unfold unwinds in Hu. repeat case_match; simplify_eq; eauto. }
  apply worker_phase; simpl; try done. intros _. by right.
Qed.

Lemma publish_tells c a outcome desired parked now c' n : publish c a outcome desired parked now = (c', n) -> n = NotifyAll.
Proof. by rewrite publish_stages; intros [= _ <-]. Qed.
Lemma fail_worker_tells c e c' n : fail_worker c e = (c', n) -> n = NotifyAll.
Proof. by intros [= _ <-]. Qed.
Lemma worker_exit_tells c panicking c' n : worker_exit c panicking = (c', n) -> n = NotifyAll.
Proof. by intros [= _ <-]. Qed.
#[local] Opaque publish fail_worker worker_exit notify.

Lemma unwind_step s s' : worker_step facts s EUnwind = Some s' -> exists p, unwinds (phase s) = Some p /\ s' = with_phase s p.
Proof.
  unfold worker_step. intros Hs. destruct (phase s) as [| | | | | | | | |a [outcome panicked]| | | | | |] eqn:Hp;
    apply bind_Some in Hs as (p & Hu & [= <-]); by exists p.
Qed.

Lemma worker_step_ok s e s' : system_ok true s -> worker_step facts s e = Some s' -> system_ok true s'.
Proof.
  intros Hok Hs. pose proof (idle_running s Hok) as Hrun. pose proof (idle_claimed s Hok) as Hcl.
  assert (e = EUnwind -> system_ok true s') as Hunwind.
  { intros ->. destruct (unwind_step _ _ Hs) as (p' & Hu & ->); by apply unwind_ok. }
  unfold worker_step in Hs. destruct e; try (by apply Hunwind); clear Hunwind; destruct (phase s) eqn:Hp; simpl in *; try done;
    try match type of Hs with
    | (let (_, _) := ?r in None) = _ => by destruct r
    | match ?u with Some _ | None => None end = _ => by destruct u
    end.
  - repeat case_match; simplify_eq; quiet_phase Hp; by rewrite ?Hrun, ?Hcl.
  - destruct until as [due|]; [|done]. destruct (may_read s now) eqn:Hm; simpl in Hs; [|done]. destruct (due <=? now)%Z; simplify_eq.
    apply worker_continues; rewrite ?Hp, ?Hrun, ?Hcl; try done. by eapply may_read_bounds.
  - destruct (may_read s now) eqn:Hm; simplify_eq. apply scan_ok; try done. by eapply may_read_bounds.
  - simplify_eq. quiet_phase Hp. by rewrite Hcl.
  - repeat case_match; simplify_eq; quiet_phase Hp; by rewrite Hcl.
  - simplify_eq. quiet_phase Hp. by rewrite Hcl.
  - simplify_eq. destruct acquired; quiet_phase Hp; by rewrite Hcl.
  - destruct (claim _ _ _ _ _) as [x c] eqn:Ec. simplify_eq. by repeat case_match; eapply claim_ok.
  - simplify_eq. quiet_phase Hp.
  - destruct result as [outcome panicked]. simplify_eq. by destruct panicked; eapply release_ok.
  - destruct (called_outcome r) as [outcome' panicked]. simplify_eq. destruct panicked; quiet_phase Hp; by rewrite Hcl.
  - destruct (called_outcome r) as [outcome' panicked]. simplify_eq. destruct panicked; quiet_phase Hp; by rewrite Hcl.
  - destruct (may_read s now) eqn:Hm; [|done]. destruct (publish _ _ _ _ _ _) as [c n] eqn:Ec. pose proof (publish_tells _ _ _ _ _ _ _ _ Ec) as ->.
    eapply notify_ok; [done|]. by eapply publish_ok.
  - destruct (fail_worker _ _) as [c n] eqn:Ec. pose proof (fail_worker_tells _ _ _ _ Ec) as ->. eapply notify_ok; [done|]. by eapply fail_worker_ok.
  - destruct (panicking && _); [done|]. destruct (worker_exit _ _) as [c n] eqn:Ec. pose proof (worker_exit_tells _ _ _ _ Ec) as ->.
    eapply notify_ok; [done|]. by eapply worker_exit_ok.
Qed.

#[local] Transparent publish fail_worker worker_exit notify.

Lemma step_system_ok s e s' : system_ok true s -> step facts s e = Some s' -> system_ok true s'.
Proof. unfold step. destruct (is_worker_event e); [apply worker_step_ok|apply client_step_ok]. Qed.

Lemma trace_app s es1 es2 : run facts s (es1 ++ es2) = run facts s es1 ≫= fun s1 => run facts s1 es2.
Proof.
  unfold run. rewrite foldl_app. destruct (foldl _ _ es1) as [s1|]; [done|]. simpl.
  induction es2 as [|e es2 IH]; [done|exact IH].
Qed.

Lemma trace_snoc s es e : run facts s (es ++ [e]) = run facts s es ≫= fun s1 => step facts s1 e.
Proof. rewrite trace_app. destruct (run facts s es) as [s1|]; [|done]. unfold run. simpl. by destruct (step facts s1 e). Qed.

Lemma trace_cons s e es s1 : step facts s e = Some s1 -> run facts s (e :: es) = run facts s1 es.
Proof. intros E. unfold run. simpl. by rewrite E. Qed.

Lemma trace_head s e es s' : run facts s (e :: es) = Some s' -> exists s1, step facts s e = Some s1 /\ run facts s1 es = Some s'.
Proof.
  intros Hr. destruct (step facts s e) as [s1|] eqn:E; [exists s1; by rewrite (trace_cons _ _ _ _ E) in Hr|].
  unfold run in Hr. simpl in Hr. rewrite E in Hr. exfalso. clear -Hr. by induction es.
Qed.

(** What every step keeps, every run keeps. *)
Lemma run_keeps (I : System -> Prop) s es s' :
  (forall t e t', I t -> step facts t e = Some t' -> I t') -> I s -> run facts s es = Some s' -> I s'.
Proof.
  intros Hstep Hs. revert s'. induction es as [|e es IH] using rev_ind; intros s' Hr; [by unfold run in Hr; simplify_eq/=|].
  rewrite trace_snoc in Hr. apply bind_Some in Hr as (s1 & H1 & H2). exact (Hstep s1 e s' (IH s1 H1) H2).
Qed.

Lemma trace_ok s es s' : system_ok true s -> run facts s es = Some s' -> system_ok true s'.
Proof. apply run_keeps, step_system_ok. Qed.

Lemma start_system_ok b confirmation source interval :
  (0 <= interval)%Z -> system_ok true (start_system b confirmation source interval).
Proof.
  intros Hi. constructor; simpl; try done.
Qed.
End laws.
