(* ===== verification/SchedulerClaims.v ===== *)
(** * Confirmations of the maintenance scheduler

    A confirmation permits one mutation, of the target it was given for. *)
From S2P Require Import Prelude Order Budget Scheduler SchedulerLaws.

Section claims.
Context {Source Facts : Type} `{!EqDecision Facts} (facts : Source -> Facts).
Implicit Types (c : Control (Source:=Source)) (s : System (Source:=Source) (Facts:=Facts)).
Implicit Types (e : event (Source:=Source)) (a : Attempt).

(** ** The mailbox behind a step *)
Definition next_control s e : Control :=
  match e with
  | ERequest t confirming source _ => (request_with_source (control s) t confirming source).1.2
  | ERequestAndWait _ t confirming source => (request_and_wait_with_source (control s) t confirming source).1.2
  | ERebind b _ => (rebind (control s) b).1.2
  | EStop => (request_stop (control s)).1
  | ECapture _ => default (control s) (begin_source_capture (control s))
  | EDropCapture _ => (drop_source_capture (control s)).1
  | EScan now =>
      match scan_mailbox (control s) now with ScanStops c | ScanBegins _ c => c | ScanWaits _ => control s end
  | EClaim _ _ =>
      match phase s with AtGate a prepared requires => (claim facts (control s) a prepared requires).2 | _ => control s end
  | ERelease => release_source (control s)
  | EPublish desired parked now =>
      match phase s with
      | Publishing a outcome _ => (publish (control s) a outcome desired parked now).1
      | _ => control s
      end
  | EFail => match phase s with Failing err _ => (fail_worker (control s) err).1 | _ => control s end
  | EExit panicking => (worker_exit (control s) panicking).1
  | _ => control s
  end.

Lemma look_control s i w : control (look s i w) = control s.
Proof. unfold look. by destruct (wait_over _ _). Qed.

#[local] Opaque publish fail_worker worker_exit notify claim request_with_source request_and_wait_with_source rebind
  request_stop begin_source_capture drop_source_capture scan_mailbox.

Lemma client_control s e s' : client_step s e = Some s' -> control s' = next_control s e.
Proof.
  intros Hs. destruct e; simpl in *; try done.
  - destruct (request_with_source _ _ _ _) as [[r c] n]. by rewrite (woken_control _ _ (notify_woken _ _ _ _ Hs)).
  - destruct (decide _); [|done]. destruct (request_and_wait_with_source _ _ _ _) as [[w c] n].
    apply bind_Some in Hs as (s1 & Hn & [= <-]). pose proof (woken_control _ _ (notify_woken _ _ _ _ Hn)) as E.
    destruct w; [by rewrite look_control|done].
  - destruct (decide _); simplify_eq. apply look_control.
  - destruct (waiters s !! i) as [w|]; [|done]. destruct (asleep w); simplify_eq. apply look_control.
  - destruct (rebind _ _) as [[r c] n]. by rewrite (woken_control _ _ (notify_woken _ _ _ _ Hs)).
  - destruct (request_stop _) as [c n]. by rewrite (woken_control _ _ (notify_woken _ _ _ _ Hs)).
  - apply bind_Some in Hs as (c & -> & [= <-]). done.
  - destruct (bool_decide _); [|done]. destruct (drop_source_capture _) as [c n].
    by rewrite (woken_control _ _ (notify_woken _ _ _ _ Hs)).
  - by rewrite (woken_control _ _ (wake_woken _ _ _ Hs)).
Qed.

Lemma worker_control s e s' : worker_step facts s e = Some s' -> control s' = next_control s e.
Proof.
  intros Hs.
  assert (e = EUnwind -> control s' = next_control s e) as Hunwind.
  { intros ->. by destruct (unwind_step facts _ _ Hs) as (p' & _ & ->). }
  unfold worker_step in Hs. destruct e; try (by apply Hunwind); clear Hunwind; destruct (phase s) eqn:Hp; simpl in *; try done;
    rewrite ?Hp; try (by repeat case_match; simplify_eq).
  - destruct (may_read s now); [|done]. destruct (publish _ _ _ _ _ _) as [c n].
    by rewrite (woken_control _ _ (notify_woken _ _ _ _ Hs)).
  - destruct (fail_worker _ _) as [c n]. by rewrite (woken_control _ _ (notify_woken _ _ _ _ Hs)).
  - destruct (panicking && _); [done|]. destruct (worker_exit _ _) as [c n].
    by rewrite (woken_control _ _ (notify_woken _ _ _ _ Hs)).
Qed.

Lemma step_control s e s' : step facts s e = Some s' -> control s' = next_control s e.
Proof. unfold step. destruct (is_worker_event e); [apply worker_control|apply client_control]. Qed.

#[local] Transparent publish fail_worker worker_exit notify claim request_with_source request_and_wait_with_source rebind
  request_stop begin_source_capture drop_source_capture scan_mailbox.

(** ** Demands *)
(** The source of a confirmation that an operation brings and the mailbox accepts. *)
Definition accepted c e : option (option Source) :=
  match e with
  | ERequest _ (Some b) source _ | ERequestAndWait _ _ (Some b) source =>
      if stopping c || bool_decide (liveness (snapshot c) = Failed) || negb (bool_decide (b = binding c)) then None
      else Some source
  | _ => None
  end.

(** The permission with which a step begins a mutation. *)
Definition granted s s' : option Confirmation :=
  match phase s, phase s' with AtGate _ _ _, Mutating _ k => k | _, _ => None end.

(** A demand for [k] that nothing has taken or discarded. *)
Definition demands (k : TargetBinding * Z) (source : option Source) c : Prop :=
  stopping c = false /\ confirmation c = true /\ binding c = k.1 /\ generation c = k.2 /\ confirmation_source c = source.

(** What each stage of a publication does to a demand. *)
Lemma recorded_demand c a outcome parked now (c' := recorded c a outcome parked now) :
  stopping c' = stopping c /\ confirmation c' = confirmation c /\ confirmation_source c' = confirmation_source c /\
  binding c' = binding c /\ generation c' = generation c.
Proof. unfold c', recorded. by case_match. Qed.
Lemma handed_over_demand c a desired now (c' := handed_over c a desired now) :
  c' = c \/ stopping c' = true \/ stopping c' = stopping c /\ confirmation c' = false.
Proof. unfold c', handed_over. repeat case_match; auto. Qed.
Lemma finished_demand c (c' := finished (continued c)) :
  stopping c' = stopping c /\ confirmation c' = confirmation c /\ confirmation_source c' = confirmation_source c /\
  binding c' = binding c /\ generation c' = generation c.
Proof. unfold c', finished, continued. by case_match. Qed.

Lemma publish_demand c a outcome desired parked now (c' := (publish c a outcome desired parked now).1) :
  (stopping c = true -> stopping c' = true) /\
  (stopping c' = false -> confirmation c' = true ->
   stopping c = false /\ confirmation c = true /\ confirmation_source c' = confirmation_source c /\
   binding c' = binding c /\ generation c' = generation c).
Proof.
  unfold c'. rewrite publish_stages. cbn [fst]. destruct (recorded_demand c a outcome parked now) as (E1 & E2 & E3 & E4 & E5).
  set (c1 := recorded _ _ _ _ _) in *. destruct (finished_demand (handed_over c1 a desired now)) as (F1 & F2 & F3 & F4 & F5).
  rewrite F1, F2, F3, F4, F5, <- E1, <- E2, <- E3, <- E4, <- E5. clear E1 E2 E3 E4 E5 F1 F2 F3 F4 F5.
  destruct (handed_over_demand c1 a desired now) as [->|[->|[-> ->]]]; [by split|by split|]. by split.
Qed.

Lemma next_stopping s e : stopping (control s) = true -> stopping (next_control s e) = true.
Proof.
  intros Hs. unfold next_control. destruct e; try done.
  - unfold request_with_source. by repeat case_match.
  - unfold request_and_wait_with_source. by rewrite Hs.
  - unfold rebind. by repeat case_match.
  - unfold request_stop. simpl. by destruct (decide _).
  - unfold begin_source_capture. by rewrite Hs.
  - unfold scan_mailbox. by rewrite Hs.
  - destruct (phase s); try done. unfold claim. by repeat case_match.
  - destruct (phase s); try done. by apply publish_demand.
  - by destruct (phase s).
Qed.

Lemma enqueue_demands c t confirming source :
  binding (enqueue c t confirming source) = binding c /\ generation (enqueue c t confirming source) = generation c /\
  confirmation (enqueue c t confirming source) = confirmation c || bool_decide (is_Some confirming) /\
  confirmation_source (enqueue c t confirming source) = (if confirming then source else confirmation_source c) /\
  stopping (enqueue c t confirming source) = stopping c.
Proof. unfold enqueue. by destruct confirming. Qed.

Lemma accepted_enqueue c t confirming source e k :
  (exists i, e = ERequestAndWait i t confirming source) \/ (exists woken, e = ERequest t confirming source woken) ->
  stopping c = false -> liveness (snapshot c) <> Failed -> mismatched c confirming = false ->
  demands k (confirmation_source (enqueue c t confirming source)) (enqueue c t confirming source) ->
  accepted c e = Some (confirmation_source (enqueue c t confirming source)) \/
  demands k (confirmation_source c) c /\ confirmation_source (enqueue c t confirming source) = confirmation_source c.
Proof.
  intros He Hs Hl Hm (_ & Hc & Hb & Hg & _). destruct (enqueue_demands c t confirming source) as (Eb & Eg & Ec & Es & _).
  rewrite Es. destruct confirming as [b|].
  - left. simpl in Hm. apply negb_false_iff in Hm. rewrite bool_decide_eq_true in Hm. subst b.
    destruct He as [[i ->]|[woken ->]]; simpl;
      by rewrite Hs, (bool_decide_false (liveness _ = _)), (bool_decide_true (binding c = binding c)).
  - right. rewrite Ec, orb_false_r in Hc. rewrite Eb in Hb. rewrite Eg in Hg. by split.
Qed.

Lemma demand_step s e k source :
  demands k source (next_control s e) ->
  accepted (control s) e = Some source \/ demands k source (control s).
Proof.
  intros Hd. pose proof Hd as (Hs & Hc & Hb & Hg & Es). unfold next_control in *. destruct e; try (by right).
  - unfold request_with_source in *. repeat case_match; cbn [fst snd] in *; try (by right). subst source.
    destruct (accepted_enqueue (control s) t confirming source0 (ERequest t confirming source0 woken) k) as [?|[? E']];
      [right; eauto|done|by eapply bool_decide_eq_false|done|done|by left|right; by rewrite E'].
  - unfold request_and_wait_with_source in *. case_match eqn:E; cbn [fst snd] in *; [by right|]. subst source.
    apply orb_false_iff in E as [[Es El]%orb_false_iff Em].
    destruct (accepted_enqueue (control s) t confirming source0 (ERequestAndWait i t confirming source0) k) as [?|[? E']];
      [left; eauto|done|by eapply bool_decide_eq_false|done|done|by left|right; by rewrite E'].
  - unfold rebind in *. by repeat case_match; simpl in *; try (by right).
  - unfold request_stop in *. simpl in *. by destruct (decide _).
  - unfold begin_source_capture in *. case_match; simpl in *; [by right|done].
  - unfold scan_mailbox in *. repeat case_match; try (by right); simplify_eq; right; by (unfold demands; split_and!).
  - destruct (phase s); try (by right). unfold claim in *. repeat case_match; simpl in *; try done; right; by (unfold demands; split_and!).
  - destruct (phase s); try (by right). destruct (publish_demand (control s) a outcome desired parked now) as [_ Hp].
    destruct (Hp Hs Hc) as (? & ? & E3 & E4 & E5). right. rewrite E3 in Es. rewrite E4 in Hb. rewrite E5 in Hg. by (unfold demands; split_and!).
  - destruct (phase s); try (by right).
Qed.

Lemma look_phase s i w : phase (look s i w) = phase s.
Proof. unfold look. by destruct (wait_over _ _). Qed.

Lemma client_phase s e s' :
  client_step s e = Some s' -> phase s' = phase s \/ (exists u, phase s = Asleep u) /\ phase s' = Scanning.
Proof.
  intros Hs. destruct e; simpl in *; try done.
  - destruct (request_with_source _ _ _ _) as [[r c] n]. apply (woken_phase _ _ (notify_woken _ _ _ _ Hs)).
  - destruct (decide _); [|done]. destruct (request_and_wait_with_source _ _ _ _) as [[w c] n].
    apply bind_Some in Hs as (s1 & Hn & [= <-]). pose proof (woken_phase _ _ (notify_woken _ _ _ _ Hn)) as E.
    destruct w; [by rewrite look_phase|done].
  - destruct (decide _); simplify_eq. rewrite look_phase. by left.
  - destruct (waiters s !! i) as [w|]; [|done]. destruct (asleep w); simplify_eq. rewrite look_phase. by left.
  - destruct (rebind _ _) as [[r c] n]. apply (woken_phase _ _ (notify_woken _ _ _ _ Hs)).
  - apply (woken_phase _ _ (notify_woken NotifyAll None _ _ Hs)).
  - apply bind_Some in Hs as (c & _ & [= <-]). by left.
  - destruct (bool_decide _); [|done]. apply (woken_phase _ _ (notify_woken NotifyAll None _ _ Hs)).
  - apply (woken_phase _ _ (wake_woken _ _ _ Hs)).
Qed.

Lemma at_gate s e s' a prepared requires a' k :
  step facts s e = Some s' -> phase s = AtGate a prepared requires -> phase s' = Mutating a' k ->
  exists granted now, e = EClaim granted now.
Proof.
  unfold step. intros Hs Hp Hp'. destruct (is_worker_event e) eqn:He.
  - unfold worker_step in Hs. rewrite Hp in Hs. destruct e; try done. by eexists _, _.
  - apply client_phase in Hs. rewrite Hp, Hp' in Hs. by destruct Hs as [|[[]]].
Qed.

(** A permission is given for the demand that the mailbox holds and that the preparation
    has seen, and it takes it. *)
Lemma grant_step s e s' k :
  step facts s e = Some s' -> granted s s' = Some k ->
  exists a prepared, phase s = AtGate a prepared true /\ phase s' = Mutating a (Some k) /\
    demands (confirmed_binding k, confirmed_generation k) (confirmation_source (control s)) (control s) /\
    confirmed_source k = facts <$> confirmation_source (control s) /\
    attempt_binding a = confirmed_binding k /\ attempt_generation a = confirmed_generation k /\
    prepared = Some (confirmed_generation k, confirmed_source k) /\ confirmation (control s') = false.
Proof.
  intros Hstep Hg. unfold granted in Hg. destruct (phase s) as [| | | | | | |a prepared requires| | | | | | | |] eqn:Hp; try done.
  destruct (phase s') as [| | | | | | | |a' k'| | | | | | |] eqn:Hp'; try done. simplify_eq.
  pose proof (step_control _ _ _ Hstep) as Ec. destruct (at_gate _ _ _ _ _ _ _ _ Hstep Hp Hp') as (granted & now & ->).
  unfold step in Hstep. simpl in Hstep, Ec. unfold worker_step in Hstep. rewrite Hp in Hstep, Ec.
  destruct (claim facts (control s) a prepared requires) as [x c] eqn:Ecl. simpl in Ec. rewrite Ec.
  assert (exists source, x = Some (true, source) /\ confirm a (true, source) = Some k /\ a' = a) as (source & -> & Ek & ->).
  { injection Hstep as <-. destruct x as [[[] source]|]; simpl in Hp'; try done; destruct (is_ok _); simpl in Hp'; try done.
    injection Hp' as <- Hk. subst k. by exists source. }
  unfold claim in Ecl. case_match eqn:Eg; [done|]. case_match eqn:Er; [|by simplify_eq].
  destruct (confirmation (control s)) eqn:Econ; [|by simplify_eq]. simpl in Ecl. injection Ecl as <- <-. injection Ek as <-.
  apply andb_true_iff in Er as [-> _]. apply orb_false_iff in Eg as [[[Es Eg]%orb_false_iff Eb]%orb_false_iff Em].
  apply negb_false_iff in Eg, Eb, Em. apply Z.eqb_eq in Eg. apply bool_decide_eq_true in Eb, Em. subst prepared.
  exists a. eexists. unfold demands. simpl. by split_and!.
Qed.

(** ** Traces *)
(** [P] of the mailbox in every state of a run. *)
Fixpoint throughout (P : Control -> Prop) s (es : list event) : Prop :=
  P (control s) /\
  match es with
  | [] => True
  | e :: es => match step facts s e with Some s' => throughout P s' es | None => False end
  end.

Lemma throughout_snoc (P : Control -> Prop) s es s1 e s' :
  throughout P s es -> run facts s es = Some s1 -> step facts s1 e = Some s' -> P (control s') ->
  throughout P s (es ++ [e]).
Proof.
  revert s. induction es as [|e0 es IH]; simpl; intros s [Hp Ht] Hr Hs HP.
  - unfold run in Hr. simpl in Hr. simplify_eq. by rewrite Hs.
  - destruct (step facts s e0) as [s0|] eqn:E0; [|done]. rewrite (trace_cons facts _ _ _ _ E0) in Hr. split; [done|]. by eapply IH.
Qed.

(** How often a step of a run does something. *)
Fixpoint tally (f : System -> event -> System -> bool) s (es : list event) : nat :=
  match es with
  | [] => 0
  | e :: es => match step facts s e with Some s' => (if f s e s' then 1 else 0) + tally f s' es | None => 0 end
  end.

Definition accepts s e (s' : System (Source:=Source) (Facts:=Facts)) : bool := bool_decide (is_Some (accepted (control s) e)).
Definition grants s e s' : bool := bool_decide (is_Some (granted s s')).

Section run.
Context (b0 : TargetBinding) (initial : bool) (source0 : option Source) (interval : Z).
Let s0 : System (Source:=Source) (Facts:=Facts) := start_system b0 initial source0 interval.

(** The demand of [k] with [source] that the mailbox holds at the end of the run: it came
    with the start or with an accepted request, and has been there ever since. *)
Definition demanded (es : list event) (k : TargetBinding * Z) (source : option Source) : Prop :=
  exists es1 es2 s1, es = es1 ++ es2 /\ run facts s0 es1 = Some s1 /\
    (es1 = [] /\ initial = true /\ source = source0 \/
     exists before e s, es1 = before ++ [e] /\ run facts s0 before = Some s /\ accepted (control s) e = Some source) /\
    throughout (demands k source) s1 es2.

Lemma demanded_snoc es s e s' k source :
  run facts s0 es = Some s -> step facts s e = Some s' ->
  (demands k source (control s) -> demanded es k source) -> demands k source (control s') -> demanded (es ++ [e]) k source.
Proof.
  intros Hr Hs Hold Hd. pose proof Hd as Hd'. rewrite (step_control _ _ _ Hs) in Hd'.
  destruct (demand_step _ _ _ _ Hd') as [Ha|Hc].
  - exists (es ++ [e]), [], s'. split; [by rewrite app_nil_r|]. split; [by rewrite trace_snoc, Hr|]. split; [|by simpl].
    right. eauto 6.
  - destruct (Hold Hc) as (es1 & es2 & s1 & -> & Hr1 & Horigin & Ht). exists es1, (es2 ++ [e]), s1.
    split; [by rewrite app_assoc|]. do 2 (split; [done|]). rewrite trace_app, Hr1 in Hr. by eapply throughout_snoc.
Qed.

Lemma run_demanded es s k source :
  run facts s0 es = Some s -> demands k source (control s) -> demanded es k source.
Proof.
  revert s. induction es as [|e es IH] using rev_ind; intros s Hr Hd.
  - unfold run in Hr. simpl in Hr. simplify_eq. exists [], [], s0. split_and!; try done. left. by destruct Hd as (_ & ? & _ & _ & ?).
  - rewrite trace_snoc in Hr. apply bind_Some in Hr as (s1 & H1 & H2). eapply demanded_snoc; eauto.
Qed.
End run.

(** What a preparation knows it has read from the mailbox when its attempt had begun. *)
Definition prepared_of (p : Phase (Facts:=Facts)) : option (Attempt * Metadata (Facts:=Facts)) :=
  match p with
  | Preparing a m | Admitting a m _ | AtGate a m _ => Some (a, m)
  | _ => None
  end.

Definition sampled s0 (es : list event) a (m : Metadata (Facts:=Facts)) : Prop :=
  exists es1 es2 s1, es = es1 ++ ESample :: es2 /\ run facts s0 es1 = Some s1 /\ phase s1 = Sampling a /\
    legacy_metadata facts (control s1) a = m.

#[local] Opaque publish fail_worker worker_exit notify claim scan_mailbox.

(** The phases between which the worker goes. *)
Lemma notify_phase n choice s s' : notify n choice s = Some s' -> phase s' = phase s \/ phase s' = Scanning.
Proof. intros Hn. by destruct (woken_phase _ _ (notify_woken _ _ _ _ Hn)) as [|[_ ->]]; [left|right]. Qed.

Lemma prepared_worker s e s' a m :
  worker_step facts s e = Some s' -> prepared_of (phase s') = Some (a, m) ->
  prepared_of (phase s) = Some (a, m) \/ e = ESample /\ phase s = Sampling a /\ legacy_metadata facts (control s) a = m.
Proof.
  intros Hs Hp.
  assert (e = EUnwind -> prepared_of (phase s) = Some (a, m)) as Hunwind.
  { intros ->. destruct (unwind_step facts _ _ Hs) as (p' & Hu & ->); unfold unwinds in Hu; by repeat case_match; simplify_eq. }
  unfold worker_step in Hs. destruct e; try (by left; apply Hunwind); clear Hunwind; destruct (phase s) eqn:Ep; simpl in *; try done.
  all: try (by repeat case_match; simplify_eq; simpl in Hp; simplify_eq; auto).
  - destruct (may_read s now); [|done]. destruct (publish _ _ _ _ _ _) as [c n].
    destruct (notify_phase _ _ _ _ Hs) as [E|E]; rewrite E in Hp; simpl in Hp; by destruct panicked.
  - destruct (fail_worker _ _) as [c n]. by destruct (notify_phase _ _ _ _ Hs) as [E|E]; rewrite E in Hp.
  - destruct (panicking && _); [done|]. destruct (worker_exit _ _) as [c n].
    by destruct (notify_phase _ _ _ _ Hs) as [E|E]; rewrite E in Hp.
Qed.

#[local] Transparent publish fail_worker worker_exit notify claim scan_mailbox.

Lemma prepared_step s e s' a m :
  step facts s e = Some s' -> prepared_of (phase s') = Some (a, m) ->
  prepared_of (phase s) = Some (a, m) \/ e = ESample /\ phase s = Sampling a /\ legacy_metadata facts (control s) a = m.
Proof.
  unfold step. destruct (is_worker_event e); [apply prepared_worker|]. intros Hs%client_phase Hp. left.
  destruct Hs as [<-|[_ E]]; [done|]. by rewrite E in Hp.
Qed.

Lemma run_sampled s0 es s a m :
  prepared_of (phase s0) = None -> run facts s0 es = Some s -> prepared_of (phase s) = Some (a, m) -> sampled s0 es a m.
Proof.
  intros H0. revert s. induction es as [|e es IH] using rev_ind; intros s Hr Hp.
  - unfold run in Hr. simpl in Hr. simplify_eq.
  - rewrite trace_snoc in Hr. apply bind_Some in Hr as (s1 & H1 & H2). destruct (prepared_step _ _ _ _ _ H2 Hp) as [Hp1|(-> & Hp1 & Hm)].
    + destruct (IH _ H1 Hp1) as (es1 & es2 & s2 & -> & ? & ? & ?). exists es1, (es2 ++ [e]), s2. by rewrite <- app_assoc.
    + by exists es, [], s1.
Qed.

(** A permission is paid for with a confirmation. *)
Definition stock s : nat := if confirmation (control s) && negb (stopping (control s)) then 1 else 0.

Lemma demands_stock k source s : demands k source (control s) -> stock s = 1.
Proof. intros (Hs & Hc & _). unfold stock. by rewrite Hs, Hc. Qed.
Lemma stock_demands s : stock s = 0 \/ demands (binding (control s), generation (control s)) (confirmation_source (control s)) (control s).
Proof. unfold stock, demands. destruct (confirmation _), (stopping _); auto. right. by split_and!. Qed.

Lemma paid_step s e s' :
  step facts s e = Some s' ->
  (if grants s e s' then 1 else 0) + stock s' <= (if accepts s e s' then 1 else 0) + stock s.
Proof.
  intros Hs. unfold grants, accepts. destruct (bool_decide_reflect (is_Some (granted s s'))) as [[k Hk]|_].
  - destruct (grant_step _ _ _ _ Hs Hk) as (a & prepared & _ & _ & Hd%demands_stock & _ & _ & _ & _ & Hc).
    unfold stock at 1. rewrite Hc, Hd. simpl. lia.
  - destruct (stock_demands s') as [->|Hd]; [lia|]. rewrite (demands_stock _ _ _ Hd).
    rewrite (step_control _ _ _ Hs) in Hd at 4. destruct (demand_step _ _ _ _ Hd) as [Ha|Hd'%demands_stock]; [|lia].
    rewrite bool_decide_true; [lia|]. by eexists.
Qed.

Lemma trace_paid s es s' : run facts s es = Some s' -> tally grants s es + stock s' <= tally accepts s es + stock s.
Proof.
  revert s. induction es as [|e es IH]; intros s Hr; simpl.
  - unfold run in Hr. simpl in Hr. simplify_eq. lia.
  - apply trace_head in Hr as (s1 & E & Hr). rewrite E. pose proof (IH _ Hr). pose proof (paid_step _ _ _ E). lia.
Qed.
End claims.

(** C36: Whenever a mutation begins with a permission, in any interleaving, the permission is
    for the target and the generation of its attempt; it answers a demand that came with the
    start or with an accepted request for that target and that neither a stop nor a change
    of target nor another claim has touched since; the preparation of the attempt had
    already seen the demand with the same facts; the demand is gone afterwards; and all
    mutations together use no more permissions than were demanded. *)
Theorem confirmation_safety {Source Facts : Type} `{!EqDecision Facts} (facts : Source -> Facts)
    b0 initial source0 interval es s e s' k (s0 := start_system b0 initial source0 interval) :
  run facts s0 es = Some s -> step facts s e = Some s' -> granted s s' = Some k ->
  (exists a source,
    phase s' = Mutating a (Some k) /\ attempt_binding a = confirmed_binding k /\
    attempt_generation a = confirmed_generation k /\ confirmed_source k = facts <$> source /\
    demanded facts b0 initial source0 interval es (confirmed_binding k, confirmed_generation k) source /\
    sampled facts s0 es a (Some (confirmed_generation k, confirmed_source k))) /\
  confirmation (control s') = false /\
  tally facts grants s0 (es ++ [e]) <= tally facts accepts s0 (es ++ [e]) + (if initial then 1 else 0).
Proof.
  intros Hr Hs Hg. destruct (grant_step facts _ _ _ _ Hs Hg) as (a & prepared & Hp & Hp' & Hd & Ek & Eb & Egen & -> & Hc).
  split; [|split; [done|]].
  - exists a, (confirmation_source (control s)). split_and!; try done; [by eapply run_demanded|].
    eapply run_sampled; [done|done|]. by rewrite Hp.
  - assert (run facts s0 (es ++ [e]) = Some s') as Hr' by (by rewrite trace_snoc, Hr).
    pose proof (trace_paid facts _ _ _ Hr') as Hpaid. unfold stock in Hpaid at 2. simpl in Hpaid. rewrite andb_true_r in Hpaid. lia.
Qed.
