(* ===== verification/SchedulerWaits.v ===== *)
(** * Waiting for the maintenance scheduler

    Every thread in one of the waiting loops is answered, by an attempt that began behind
    its request, a change of target or the end of the worker, whatever the callbacks of
    the driver answer and however the threads interleave. *)
From S2P Require Import Prelude Order Budget Scheduler SchedulerLaws SchedulerClaims.

Section waits.
Context {Source Facts : Type} `{!EqDecision Facts} (facts : Source -> Facts).
Implicit Types (c : Control (Source:=Source)) (s : System (Source:=Source) (Facts:=Facts)).
Implicit Types (e : event (Source:=Source)) (a : Attempt) (w : Waiter) (p : Phase (Facts:=Facts)).

(** ** The steps of the worker *)
(** A step that brings the worker on: neither a wake-up nor a look that ends in sleep. *)
Definition active s e s' : bool :=
  match e with
  | ETimeout _ => false
  | EScan _ => match phase s' with Asleep _ => false | _ => true end
  | _ => is_worker_event e
  end.
Definition publication s e s' : bool := match e with EPublish _ _ _ => true | _ => false end.

(** How many such steps there are at most before the next publication or the end. *)
Definition rank p : nat :=
  match p with
  | Exited => 0
  | Leaving NothingRemains | Leaving PayloadRemains => 1
  | Failing _ NothingRemains | Failing _ PayloadRemains => 2
  | Leaving DriverRemains => 3
  | Failing _ DriverRemains => 4
  | Publishing _ _ _ => 5
  | Disposing _ _ | Judging _ _ => 6
  | Finishing _ _ => 7
  | Releasing _ _ => 8
  | Mutating _ _ => 9
  | AtGate _ _ _ => 10
  | Admitting _ _ _ => 11
  | Preparing _ _ => 12
  | Sampling _ => 13
  | Scanning | Asleep _ => 14
  | Starting => 15
  end.

#[local] Opaque publish fail_worker worker_exit notify claim scan_mailbox.

Lemma woken_rank s s' : woken s s' -> rank (phase s') = rank (phase s).
Proof. intros Hw. by destruct (woken_phase _ _ Hw) as [->|[[u ->] ->]]. Qed.

Lemma unwinds_rank p p' : unwinds p = Some p' -> rank p' + 1 <= rank p.
Proof. unfold unwinds. intros. repeat case_match; simplify_eq/=; lia. Qed.

Lemma worker_rank s e s' :
  worker_step facts s e = Some s' ->
  (if active s e s' then 1 else 0) + rank (phase s') <= rank (phase s) + (if publication s e s' then 14 else 0).
Proof.
  intros Hs.
  assert (e = EUnwind -> rank (phase s') + 1 <= rank (phase s)) as Hunwind.
  { intros ->. destruct (unwind_step facts _ _ Hs) as (p' & Hu & ->); by apply unwinds_rank. }
  unfold worker_step in Hs. destruct e; try (by specialize (Hunwind eq_refl); simpl; lia); clear Hunwind; destruct (phase s) eqn:Ep; simpl in *; try done.
  all: try (by repeat case_match; simplify_eq/=; lia).
  - destruct (may_read s now); [|done]. destruct (publish _ _ _ _ _ _) as [c n].
    rewrite (woken_rank _ _ (notify_woken _ _ _ _ Hs)). simpl. destruct panicked; simpl; lia.
  - destruct (fail_worker _ _) as [c n]. rewrite (woken_rank _ _ (notify_woken _ _ _ _ Hs)). simpl. destruct remains; simpl; lia.
  - destruct (panicking && _); [done|]. destruct (worker_exit _ _) as [c n].
    rewrite (woken_rank _ _ (notify_woken _ _ _ _ Hs)). simpl. destruct remains; simpl; lia.
Qed.

Lemma step_rank s e s' :
  step facts s e = Some s' ->
  (if active s e s' then 1 else 0) + rank (phase s') <= rank (phase s) + (if publication s e s' then 14 else 0).
Proof.
  unfold step. destruct (is_worker_event e) eqn:He; [apply worker_rank|]. intros Hs%client_phase.
  assert (active s e s' = false) as -> by (by destruct e). simpl.
  destruct Hs as [->|[[u ->] ->]]; simpl; lia.
Qed.

Lemma run_rank s es s' :
  run facts s es = Some s' -> tally facts active s es + rank (phase s') <= rank (phase s) + 14 * tally facts publication s es.
Proof.
  revert s. induction es as [|e es IH]; intros s Hr.
  - unfold run in Hr. simplify_eq/=. lia.
  - apply trace_head in Hr as (s1 & E & Hr). simpl. rewrite E. pose proof (IH _ Hr). pose proof (step_rank _ _ _ E).
    destruct (publication s e s1); lia.
Qed.

(** ** A waiter and the attempts *)
Definition stale c w : Prop := (waits_generation w < generation c)%Z.
(** Answered by a change of target or by an attempt that has been recorded. *)
Definition settled c w : Prop :=
  stale c w \/ exists r, last_attempt (snapshot c) = Some r /\ answers w r = true.
(** The attempt under way will answer. *)
Definition promised c p w : Prop :=
  forall a, attempt_of p = Some a -> stale c w \/ forall outcome, answers w (record_of a outcome) = true.

(** The same call of a waiting loop. *)
Definition same_wait w w' : Prop :=
  waits_binding w' = waits_binding w /\ waits_generation w' = waits_generation w /\ waits_sequence w' = waits_sequence w.

Lemma settled_over c w : settled c w -> wait_over c w = true.
Proof.
  unfold settled, stale, wait_over. intros [Hs|(r & -> & ->)]; [|by rewrite orb_true_r].
  rewrite (proj2 (Z.eqb_neq _ _)) by lia. simpl. by rewrite orb_true_r.
Qed.

Lemma same_settled c w w' : same_wait w w' -> settled c w -> settled c w'.
Proof. unfold settled, stale, answers. by intros (-> & -> & ->). Qed.
Lemma same_promised c p w w' : same_wait w w' -> promised c p w -> promised c p w'.
Proof. unfold promised, stale, answers. by intros (-> & -> & ->). Qed.
Lemma same_trans w1 w2 w3 : same_wait w1 w2 -> same_wait w2 w3 -> same_wait w1 w3.
Proof. unfold same_wait. intros (-> & -> & ->). done. Qed.

Lemma later_stale c c' w : later c c' -> stale c w -> stale c' w.
Proof. unfold later, stale. lia. Qed.

(** *** Each step and a waiter *)
Lemma woken_waiter s s' i w :
  woken s s' -> waiters s !! i = Some w ->
  exists w', waiters s' !! i = Some w' /\ same_wait w w' /\ (asleep w' = true -> asleep w = true).
Proof.
  intros Hw Hi. destruct (woken_waiters _ _ Hw i) as [E|(w0 & Hi0 & E)]; rewrite E.
  - by exists w.
  - rewrite Hi in Hi0. injection Hi0 as <-. by eexists.
Qed.

Lemma look_waiter s i j w w0 :
  waiters s !! i = Some w -> (i = j -> w0 = w) ->
  waiters (look s j w0) !! i = None \/
  exists w', waiters (look s j w0) !! i = Some w' /\ same_wait w w' /\
    (asleep w' = true -> asleep w = true \/ wait_over (control s) w = false).
Proof.
  intros Hi Hj. unfold look. destruct (wait_over (control s) w0) eqn:Ho; simpl; destruct (decide (i = j)) as [->|Hne].
  - left. by rewrite lookup_delete_eq.
  - right. exists w. rewrite lookup_delete_ne by done. split; [done|]. split; [done|by left].
  - right. rewrite Hj in * by done. exists (set_asleep w true). rewrite lookup_insert_eq. split; [done|]. split; [done|by right].
  - right. exists w. rewrite lookup_insert_ne by done. split; [done|]. split; [done|by left].
Qed.

Lemma client_waiter s e s' i w :
  client_step s e = Some s' -> waiters s !! i = Some w ->
  waiters s' !! i = None \/
  exists w', waiters s' !! i = Some w' /\ same_wait w w' /\
    (asleep w' = true -> asleep w = true \/ wait_over (control s') w = false).
Proof.
  intros Hs Hi.
  assert (forall t, woken t s' -> waiters t = waiters s -> exists w', waiters s' !! i = Some w' /\ same_wait w w' /\
    (asleep w' = true -> asleep w = true \/ wait_over (control s') w = false)) as Hwoken.
  { intros t Ht E. destruct (woken_waiter t s' i w Ht) as (w' & ? & ? & ?); [by rewrite E|]. exists w'. split_and!; auto. }
  destruct e; simpl in Hs; try done.
  - destruct (request_with_source _ _ _ _) as [[r c] n]. right. by apply (Hwoken (with_control s c)); [eapply notify_woken|].
  - destruct (decide _) as [Hn|]; [|done]. destruct (request_and_wait_with_source _ _ _ _) as [[w0 c] n].
    apply bind_Some in Hs as (s1 & Hs1 & [= <-]). assert (i0 <> i) as Hne by congruence.
    destruct (woken_waiter _ _ _ _ (notify_woken _ _ _ _ Hs1) Hi) as (w1 & Hw1 & Hsame & Ha).
    destruct w0 as [w0|]; [|right; exists w1; split_and!; auto]. unfold look.
    right. exists w1. destruct (wait_over (control s1) w0); simpl; rewrite ?lookup_delete_ne, ?lookup_insert_ne by done; auto 6.
  - destruct (decide _); simplify_eq. rewrite look_control. apply look_waiter; [done|congruence].
  - destruct (waiters s !! i0) as [w0|] eqn:Hw0; [|done]. destruct (asleep w0); simplify_eq. rewrite look_control.
    apply look_waiter; [done|]. intros ->. congruence.
  - destruct (rebind _ _) as [[r c] n]. right. by apply (Hwoken (with_control s c)); [eapply notify_woken|].
  - right. by apply (Hwoken _ (notify_woken NotifyAll None _ _ Hs)).
  - apply bind_Some in Hs as (c & _ & [= <-]). right. exists w. split_and!; auto. done.
  - destruct (bool_decide _); [|done]. right. by apply (Hwoken _ (notify_woken NotifyAll None _ _ Hs)).
  - right. by apply (Hwoken s); [eapply wake_woken|].
Qed.

Lemma worker_waiter s e s' i w :
  worker_step facts s e = Some s' -> waiters s !! i = Some w ->
  exists w', waiters s' !! i = Some w' /\ same_wait w w' /\ (asleep w' = true -> asleep w = true).
Proof.
  intros Hs Hi.
  assert (e = EUnwind -> waiters s' = waiters s) as Hunwind.
  { intros ->. by destruct (unwind_step facts _ _ Hs) as (p' & _ & ->). }
  assert (waiters s' = waiters s -> exists w', waiters s' !! i = Some w' /\ same_wait w w' /\ (asleep w' = true -> asleep w = true)) as Hsame.
  { intros ->. by exists w. }
  unfold worker_step in Hs. destruct e; try (by apply Hsame, Hunwind); clear Hunwind; destruct (phase s) eqn:Ep; simpl in *; try done.
  all: try (by apply Hsame; repeat case_match; simplify_eq/=).
  - destruct (may_read s now); [|done]. destruct (publish _ _ _ _ _ _) as [c n]. by eapply woken_waiter; [eapply notify_woken|].
  - destruct (fail_worker _ _) as [c n]. by eapply woken_waiter; [eapply notify_woken|].
  - destruct (panicking && _); [done|]. destruct (worker_exit _ _) as [c n]. by eapply woken_waiter; [eapply notify_woken|].
Qed.

Lemma step_waiter s e s' i w :
  step facts s e = Some s' -> waiters s !! i = Some w ->
  waiters s' !! i = None \/
  exists w', waiters s' !! i = Some w' /\ same_wait w w' /\
    (asleep w' = true -> asleep w = true \/ wait_over (control s') w = false).
Proof.
  unfold step. destruct (is_worker_event e); [|apply client_waiter]. intros Hs Hi. right.
  destruct (worker_waiter _ _ _ _ _ Hs Hi) as (w' & ? & ? & ?). exists w'. split_and!; auto.
Qed.

(** *** Each step and the mailbox *)
Lemma attempt_worker s e s' a :
  worker_step facts s e = Some s' -> attempt_of (phase s') = Some a ->
  attempt_of (phase s) = Some a \/ exists now c, e = EScan now /\ scan_mailbox (control s) now = ScanBegins a c.
Proof.
  intros Hs Ha.
  assert (e = EUnwind -> attempt_of (phase s) = Some a) as Hunwind.
  { intros ->. destruct (unwind_step facts _ _ Hs) as (p' & Hu & ->); unfold unwinds in Hu; by repeat case_match; simplify_eq. }
  unfold worker_step in Hs. destruct e; try (by left; apply Hunwind); clear Hunwind; destruct (phase s) eqn:Ep; simpl in *; try done.
  all: try (by left; repeat case_match; simplify_eq/=).
  - destruct (may_read s now); [|done]. destruct (scan_mailbox (control s) now) eqn:E; simplify_eq/=. right. by eexists _, _.
  - destruct (may_read s now); [|done]. destruct (publish _ _ _ _ _ _) as [c n].
    destruct (notify_phase _ _ _ _ Hs) as [E|E]; rewrite E in Ha; simpl in Ha; by destruct panicked.
  - destruct (fail_worker _ _) as [c n]. by destruct (notify_phase _ _ _ _ Hs) as [E|E]; rewrite E in Ha.
  - destruct (panicking && _); [done|]. destruct (worker_exit _ _) as [c n].
    by destruct (notify_phase _ _ _ _ Hs) as [E|E]; rewrite E in Ha.
Qed.

Lemma attempt_step s e s' a :
  step facts s e = Some s' -> attempt_of (phase s') = Some a ->
  attempt_of (phase s) = Some a \/ exists now c, e = EScan now /\ scan_mailbox (control s) now = ScanBegins a c.
Proof.
  unfold step. destruct (is_worker_event e); [apply attempt_worker|]. intros Hs%client_phase Ha. left.
  destruct Hs as [<-|[_ E]]; [done|]. by rewrite E in Ha.
Qed.

#[local] Transparent publish fail_worker worker_exit notify claim scan_mailbox.

Lemma enqueue_later c t confirming source :
  (0 <= sequence (scheduler c) <= u64_max)%Z -> later c (enqueue c t confirming source).
Proof. intros Hs. destruct (request_sequence_le _ t Hs). unfold enqueue. destruct confirming; by apply later_same. Qed.

(** A publication after its record moves on, and keeps the record. *)
Lemma publish_later c a outcome desired parked now (c' := (publish c a outcome desired parked now).1) :
  (0 <= generation c)%Z -> (0 <= sequence (scheduler c) <= u64_max)%Z ->
  later c c' /\
  last_attempt (snapshot c') = if (generation c =? attempt_generation a)%Z then Some (record_of a outcome) else last_attempt (snapshot c).
Proof.
  intros Hg Hs. unfold c'. rewrite publish_stages. cbn [fst].
  assert (later c (recorded c a outcome parked now) /\
    sequence (scheduler (recorded c a outcome parked now)) = sequence (scheduler c) /\
    generation (recorded c a outcome parked now) = generation c /\
    last_attempt (snapshot (recorded c a outcome parked now)) =
      if (generation c =? attempt_generation a)%Z then Some (record_of a outcome) else last_attempt (snapshot c)) as (Hl & Es & Eg & Er).
  { destruct (complete_fields (scheduler c) now outcome) as (_ & E & _). unfold recorded. simpl.
    destruct (_ =? _)%Z; simpl; rewrite ?E; split_and!; try done; by apply later_same; simpl; rewrite ?E. }
  set (c1 := recorded _ _ _ _ _) in *. rewrite <- Er. clear Er.
  assert (later c1 (handed_over c1 a desired now) /\
    last_attempt (snapshot (handed_over c1 a desired now)) = last_attempt (snapshot c1)) as [Hl2 Er].
  { unfold handed_over. destruct desired as [b|]; [|by split; [apply later_refl|]].
    destruct (_ && _); [|by split; [apply later_refl|]]. destruct (checked_add_u64 _ _) as [g|] eqn:E; [|by split; [apply later_same|]].
    destruct (move_target_ok c1 b g E) as (Hf & Hlt & _); [by rewrite Eg|by rewrite Es|]. split; [|done].
    destruct (frame_later _ _ Hf) as [_ Hseq]. split; [by left|]. exact Hseq. }
  set (c2 := handed_over _ _ _ _) in *.
  assert (later c2 (finished (continued c2)) /\ last_attempt (snapshot (finished (continued c2))) = last_attempt (snapshot c2)) as [Hl3 ->].
  { unfold finished, continued. destruct (confirmation c2); split; try done; by apply later_same. }
  split; [|done]. by eapply later_trans; [|eapply later_trans].
Qed.

(** What a step does to the record: only a publication writes it. *)
Definition next_record s e : option AttemptRecord :=
  match phase s, e with
  | Publishing a outcome _, EPublish _ _ _ =>
      if (generation (control s) =? attempt_generation a)%Z then Some (record_of a outcome) else last_attempt (snapshot (control s))
  | _, _ => last_attempt (snapshot (control s))
  end.

Lemma next_record_other s e : (forall desired parked now, e <> EPublish desired parked now) -> next_record s e = last_attempt (snapshot (control s)).
Proof. intros He. unfold next_record. destruct (phase s); try done. destruct e; try done. by destruct (He desired parked now). Qed.

Lemma next_moves s e :
  control_ok (control s) -> later (control s) (next_control facts s e) /\
  last_attempt (snapshot (next_control facts s e)) = next_record s e.
Proof.
  intros Hc. pose proof (ok_sequence _ Hc) as Hs. pose proof (ok_generation _ Hc) as [Hg _].
  assert (later (control s) (control s) /\ last_attempt (snapshot (control s)) = last_attempt (snapshot (control s))) as Hsame
    by (split; [apply later_refl|done]).
  assert (forall t confirming source, later (control s) (enqueue (control s) t confirming source) /\
    last_attempt (snapshot (enqueue (control s) t confirming source)) = last_attempt (snapshot (control s))) as Henqueue.
  { intros. split; [by apply enqueue_later|]. unfold enqueue. by destruct confirming. }
  unfold next_control. destruct e; try (rewrite next_record_other by done); try exact Hsame.
  - unfold request_with_source. by repeat case_match; cbn [fst snd].
  - unfold request_and_wait_with_source. by case_match; cbn [fst snd].
  - unfold rebind. repeat case_match; cbn [fst snd]; try exact Hsame.
    destruct (move_target_ok (control s) b z) as (Hf & _); try done. split; [exact (frame_later _ _ Hf)|done].
  - unfold request_stop. cbn [fst snd]. destruct (decide _); (split; [by apply later_same|done]).
  - unfold begin_source_capture. case_match; simpl; (split; [by apply later_same|done]).
  - unfold scan_mailbox, scheduler_begin. repeat case_match; simplify_eq/=; (split; [by apply later_same|done]).
  - destruct (phase s); try exact Hsame. destruct (claim _ _ _ _ _) as [x c] eqn:Ec.
    destruct (claim_claims _ _ _ _ _ _ _ Ec) as [->|[_ [-> | ->]]]; (split; [by apply later_same|done]).
  - unfold next_record. destruct (phase s); try exact Hsame. by apply publish_later.
  - destruct (phase s); try exact Hsame; (split; [by apply later_same|done]).
  - destruct panicking; (split; [by apply later_same|done]).
Qed.

Lemma step_moves s e s' :
  system_ok true s -> step facts s e = Some s' ->
  later (control s) (control s') /\ last_attempt (snapshot (control s')) = next_record s e.
Proof. intros Hok Hs. rewrite (step_control _ _ _ _ Hs). apply next_moves, Hok. Qed.

(** ** The two publications *)
Lemma step_promised s e s' w :
  system_ok true s -> step facts s e = Some s' -> waiter_ok true (control s) (phase s) w ->
  promised (control s) (phase s) w -> promised (control s') (phase s') w.
Proof.
  intros Hok Hs Hw Hp a Ha. destruct (step_moves _ _ _ Hok Hs) as [Hl _].
  destruct (attempt_step _ _ _ _ Hs Ha) as [Ha0|(now & c & -> & Hscan)].
  - destruct (Hp a Ha0) as [?|?]; [left; by eapply later_stale|by right].
  - unfold scan_mailbox, scheduler_begin in Hscan. repeat case_match; simplify_eq. destruct Hw as [[Hg Hb] Hn _].
    destruct (decide (waits_generation w < generation (control s))%Z) as [Hst|]; [left; by eapply later_stale|right].
    intros outcome. assert (waits_generation w = generation (control s)) as Eg by lia. unfold answers. simpl.
    rewrite bool_decide_true by (symmetry; by apply Hb). rewrite Eg, Z.eqb_refl. simpl.
    destruct (waits_sequence w) as [target|] eqn:En; [|done]. apply Z.leb_le. by apply Hn.
Qed.

Lemma step_settled s e s' w :
  system_ok true s -> step facts s e = Some s' -> waiter_ok true (control s) (phase s) w ->
  promised (control s) (phase s) w -> settled (control s) w \/ publication s e s' = true -> settled (control s') w.
Proof.
  intros Hok Hs Hw Hp Hor. destruct (step_moves _ _ _ Hok Hs) as [Hl Hr].
  assert (settled (control s) w -> last_attempt (snapshot (control s')) = last_attempt (snapshot (control s)) -> settled (control s') w) as Hkeep.
  { intros [?|(r & Er & ?)] E; [left; by eapply later_stale|]. right. exists r. by rewrite E. }
  destruct (publication s e s') eqn:Hpub.
  - clear Hor. destruct e; try done. unfold step in Hs. simpl in Hs. unfold next_record in Hr. unfold worker_step in Hs.
    destruct (phase s) as [| |[]| | | | | | |? []| | |a outcome panicked| | |] eqn:Ep; try done.
    destruct (Z.eqb_spec (generation (control s)) (attempt_generation a)) as [Eg|Eg].
    + destruct (Hp a eq_refl) as [?|Hans]; [left; by eapply later_stale|]. right. eauto.
    + destruct (ok_attempt _ _ _ (ok_phase _ _ Hok) a) as [[Hle _] _]; [by rewrite Ep|].
      left. eapply later_stale; [done|]. unfold stale. destruct (Hp a eq_refl) as [?|Hans]; [done|]. specialize (Hans outcome).
      unfold answers in Hans. apply andb_true_iff in Hans as [[_ E%Z.eqb_eq]%andb_true_iff _]. simpl in E. lia.
  - apply Hkeep; [by destruct Hor|]. rewrite Hr. apply next_record_other. by intros ? ? ? ->.
Qed.

(** *** The waiter behind a number of publications *)
(** It has returned on the way. *)
Definition returns i s es : Prop :=
  exists es1 es2 s1, es = es1 ++ es2 /\ run facts s es1 = Some s1 /\ waiters s1 !! i = None.

Definition progressed (published : nat) s w : Prop :=
  (1 <= published -> promised (control s) (phase s) w) /\
  (2 <= published -> settled (control s) w /\ asleep w = false).

Lemma tally_snoc f s es s1 e s' :
  run facts s es = Some s1 -> step facts s1 e = Some s' -> tally facts f s (es ++ [e]) = tally facts f s es + (if f s1 e s' then 1 else 0).
Proof.
  revert s. induction es as [|e0 es IH]; intros s Hr Hs; simpl.
  - unfold run in Hr. simplify_eq/=. rewrite Hs. lia.
  - apply trace_head in Hr as (s0 & E & Hr). rewrite E. rewrite (IH _ Hr Hs). lia.
Qed.

(** A publication leaves no attempt and nobody asleep. *)
Lemma publication_step s e s' :
  step facts s e = Some s' -> publication s e s' = true ->
  attempt_of (phase s') = None /\ forall i w, waiters s' !! i = Some w -> asleep w = false.
Proof.
  intros Hs Hp. destruct e; try done. unfold step in Hs. simpl in Hs. unfold worker_step in Hs.
  destruct (phase s) as [| |[]| | | | | | |? []| | |a outcome panicked| | |]; try done.
  destruct (may_read s now); [|done]. destruct (publish _ _ _ _ _ _) as [c n] eqn:Ec. apply publish_tells in Ec as ->.
  injection Hs as <-. split; [|apply wake_all_awake]. unfold wake_all, wake_worker. by destruct panicked.
Qed.

Lemma run_progressed s es s' i w :
  system_ok true s -> waiters s !! i = Some w -> run facts s es = Some s' ->
  returns i s es \/ exists w', waiters s' !! i = Some w' /\ same_wait w w' /\ progressed (tally facts publication s es) s' w'.
Proof.
  intros Hok Hi. revert s'. induction es as [|e es IH] using rev_ind; intros s' Hr.
  { right. unfold run in Hr. simplify_eq/=. exists w. split; [done|]. split; [done|]. unfold progressed. simpl. lia. }
  pose proof Hr as Hr0. rewrite trace_snoc in Hr. apply bind_Some in Hr as (s1 & H1 & Hs). pose proof (trace_ok facts _ _ _ Hok H1) as Hok1.
  destruct (IH _ H1) as [(es1 & es2 & s2 & -> & ? & ?)|(w1 & Hi1 & Hsame & Hp1 & Hp2)].
  { left. exists es1, (es2 ++ [e]), s2. by rewrite app_assoc. }
  destruct (step_waiter _ _ _ _ _ Hs Hi1) as [Hnone|(w' & Hi' & Hsame' & Ha)].
  { left. exists (es ++ [e]), [], s'. by rewrite app_nil_r. }
  right. exists w'. split; [done|]. split; [by eapply same_trans|]. rewrite (tally_snoc _ _ _ _ _ _ H1 Hs).
  pose proof (ok_waiters _ _ Hok1 _ _ Hi1) as Hw1. unfold progressed.
  destruct (publication s1 e s') eqn:Hpub.
  - destruct (publication_step _ _ _ Hs Hpub) as [Hnone Hawake]. split; [intros _ a Ea; congruence|]. intros Hn.
    split; [|by eapply Hawake]. eapply same_settled; [done|]. eapply step_settled; eauto. apply Hp1. lia.
  - rewrite Nat.add_0_r. split.
    + intros Hn. eapply same_promised; [done|]. by eapply step_promised; eauto.
    + intros Hn. destruct (Hp2 Hn) as [Hset Hawake]. assert (settled (control s') w1) as Hset'.
      { eapply step_settled; eauto. apply Hp1. lia. }
      split; [by eapply same_settled|]. destruct (asleep w') eqn:Ea; [|done].
      destruct (Ha eq_refl) as [?|Ho]; [congruence|]. rewrite (settled_over _ _ Hset') in Ho. done.
Qed.

(** ** The worker is never stuck *)
(** A step of the worker, or the end of a capture, for which it waits. *)
Definition own e : Prop := is_worker_event e = true \/ exists i, e = EDropCapture i.

(** At most [n] such steps, without a spurious wake-up, one of which brings the worker on. *)
Definition goes_on (n : nat) s : Prop :=
  exists es s', run facts s es = Some s' /\ length es <= n /\ Forall own es /\ 1 <= tally facts active s es.

Lemma goes_on_now s e s' : step facts s e = Some s' -> own e -> active s e s' = true -> goes_on 1 s.
Proof.
  intros Hs Ho Ha. exists [e], s'. rewrite (trace_cons facts _ _ _ _ Hs). split; [done|]. split; [done|]. split; [by constructor|].
  simpl. rewrite Hs, Ha. lia.
Qed.
Lemma goes_on_later n s e s1 : step facts s e = Some s1 -> own e -> goes_on n s1 -> goes_on (S n) s.
Proof.
  intros Hs Ho (es & s' & Hr & Hl & Hf & Ht). exists (e :: es), s'. rewrite (trace_cons facts _ _ _ _ Hs). split; [done|].
  simpl. split; [lia|]. split; [by constructor|]. rewrite Hs. lia.
Qed.
Lemma goes_on_mono n m s : n <= m -> goes_on n s -> goes_on m s.
Proof. intros Hle (es & s' & ? & ? & ?). exists es, s'. split; [done|]. split; [lia|done]. Qed.

Lemma capture_ends s :
  system_ok true s -> capturing_source (control s) = true ->
  exists i s1, step facts s (EDropCapture i) = Some s1 /\ control s1 = set_capturing (control s) false /\
    (phase s1 = phase s \/ (exists u, phase s = Asleep u) /\ phase s1 = Scanning) /\ (forall u, phase s1 <> Asleep u).
Proof.
  intros Hok Hcap. pose proof (ok_captures _ _ Hok) as Hc. rewrite Hcap in Hc. destruct Hc as [i Hi]. exists i.
  unfold step. simpl. rewrite bool_decide_true by set_solver. eexists. split; [done|].
  set (t := with_captures _ _). split; [exact (woken_control _ _ (wake_all_woken t))|].
  split; [exact (woken_phase _ _ (wake_all_woken t))|]. apply wake_all_phase.
Qed.

Lemma scanning_goes_on s : system_ok true s -> phase s = Scanning -> capturing_source (control s) = false \/ stopping (control s) = true -> goes_on 1 s.
Proof.
  intros Hok Hp Hc. set (now := Z.max (clock s) (next_due (scheduler (control s)))).
  assert (may_read s now = true) as Hm.
  { unfold may_read, now. pose proof (ok_clock _ _ Hok). pose proof (ok_due _ (ok_control _ _ Hok)).
    rewrite (proj2 (Z.leb_le _ _)), (proj2 (Z.leb_le _ _)); [done|lia|lia]. }
  assert (forall due, scan_mailbox (control s) now <> ScanWaits due) as Hscan.
  { unfold scan_mailbox, scheduler_begin. intros due. destruct (stopping _); [done|]. destruct Hc as [-> | Hc]; [|done].
    rewrite (proj2 (Z.ltb_ge _ _)); [done|]. unfold now. lia. }
  eapply (goes_on_now s (EScan now)).
  - unfold step. simpl. unfold worker_step. rewrite Hp, Hm. done.
  - by left.
  - simpl. destruct (scan_mailbox _ _) eqn:E; [done| |done]. by destruct (Hscan until).
Qed.

Lemma worker_goes_on s : system_ok true s -> phase s <> Exited -> goes_on 3 s.
Proof.
  intros Hok Hx.
  assert (forall t, system_ok true t -> phase t = Scanning -> goes_on 2 t) as Hscanning.
  { intros t Ht Hp. destruct (capturing_source (control t)) eqn:Hcap; [|apply (goes_on_mono 1); [lia|]; apply scanning_goes_on; auto].
    destruct (capture_ends _ Ht Hcap) as (i & t1 & Hs & Hc & Hp1 & _). eapply goes_on_later; [exact Hs|right; by eexists|].
    apply scanning_goes_on; [by eapply step_system_ok|destruct Hp1 as [->|[_ ->]]; [done|done]|left; by rewrite Hc]. }
  assert (forall e s', step facts s e = Some s' -> is_worker_event e = true -> active s e s' = true -> goes_on 3 s) as Hone.
  { intros e s' Hs He Ha. apply (goes_on_mono 1); [lia|]. eapply goes_on_now; [done|by left|done]. }
  destruct (phase s) as [| |[due|]|a|a m|a err|a m r|a m r|a k|a [outcome panicked]|a outcome|a outcome|a outcome panicked|err r|r|] eqn:Hp; try done.
  - eapply (Hone (EFactory (Returned (Ok ())))); [unfold step, worker_step; simpl; by rewrite Hp|done..].
  - apply (goes_on_mono 2); [lia|]. by apply Hscanning.
  - assert (exists now, may_read s now = true /\ (due <=? now)%Z = true) as (now & Hm & Hd).
    { exists (Z.max (clock s) due). pose proof (ok_clock _ _ Hok). pose proof (ok_due _ (ok_control _ _ Hok)).
      pose proof (ok_timed _ _ _ (ok_phase _ _ Hok) due Hp). unfold may_read.
      rewrite !(proj2 (Z.leb_le _ _)); [done|lia..]. }
    eapply (goes_on_later 2 s (ETimeout now)).
    + unfold step, worker_step. simpl. rewrite Hp, Hm, Hd. done.
    + by left.
    + apply Hscanning; [|done]. eapply (step_system_ok facts s (ETimeout now)); [done|]. unfold step, worker_step. simpl. by rewrite Hp, Hm, Hd.
  - apply (goes_on_mono 2); [lia|]. pose proof (ok_untimed _ _ _ (ok_phase _ _ Hok) eq_refl Hp) as Hcap.
    destruct (capture_ends _ Hok Hcap) as (i & t1 & Hs & Hc & Hp1 & Hawake). eapply goes_on_later; [exact Hs|right; by eexists|].
    apply scanning_goes_on; [by eapply step_system_ok| |left; by rewrite Hc]. destruct Hp1 as [E|[_ ->]]; [|done]. rewrite Hp in E. by destruct (Hawake None).
  - eapply (Hone ESample); [unfold step, worker_step; simpl; by rewrite Hp|done..].
  - eapply (Hone (EPrepared (Returned (Ok None)))); [unfold step, worker_step; simpl; by rewrite Hp|done..].
  - eapply (Hone EJudge); [unfold step, worker_step; simpl; by rewrite Hp|done..].
  - eapply (Hone (EAdmit false)); [unfold step, worker_step; simpl; by rewrite Hp|done..].
  - destruct (claim facts (control s) a m r) as [x c] eqn:Ec.
    eapply (Hone (EClaim 0 0)); [unfold step, worker_step; simpl; by rewrite Hp, Ec|done..].
  - eapply (Hone (EMutated (Returned (Ok Complete)))); [unfold step, worker_step; simpl; by rewrite Hp|done..].
  - eapply (Hone ERelease); [unfold step, worker_step; simpl; by rewrite Hp|done..].
  - eapply (Hone (EFinished (Returned (Ok Complete)))); [unfold step, worker_step; simpl; by rewrite Hp|done..].
  - eapply (Hone (EDisposed (Returned (Ok Complete)))); [unfold step, worker_step; simpl; by rewrite Hp|done..].
  - assert (may_read s (clock s) = true) as Hm.
    { unfold may_read. pose proof (ok_clock _ _ Hok). rewrite !(proj2 (Z.leb_le _ _)); [done|lia..]. }
    eapply (Hone (EPublish None false (clock s))); [unfold step, worker_step; simpl; rewrite Hp, Hm; done|done..].
  - eapply (Hone EFail); [unfold step, worker_step; simpl; by rewrite Hp|done..].
  - eapply (Hone (EExit false)); [unfold step, worker_step; simpl; by rewrite Hp|done..].
Qed.

(** An attempt that has begun before a request does not answer it. *)
Lemma answer_is_fresh s t confirming source w c n :
  system_ok true s -> (sequence (scheduler (control s)) < u64_max)%Z ->
  request_and_wait_with_source (control s) t confirming source = (Some w, c, n) ->
  (forall a outcome, attempt_of (phase s) = Some a -> answers w (record_of a outcome) = false) /\
  (forall r, last_attempt (snapshot c) = Some r -> answers w r = false).
Proof.
  intros Hok Hlt Hr. unfold request_and_wait_with_source in Hr. destruct (_ || _); [done|].
  assert (sequence (scheduler (enqueue (control s) t confirming source)) = (sequence (scheduler (control s)) + 1)%Z /\
    last_attempt (snapshot (enqueue (control s) t confirming source)) = last_attempt (snapshot (control s))) as [Es El].
  { split; [|by unfold enqueue; destruct confirming].
    transitivity (sequence (scheduler_request (scheduler (control s)) t)); [by unfold enqueue; destruct confirming|].
    simpl. unfold saturating_add_u64. lia. }
  set (q := enqueue _ _ _ _) in *. clearbody q. injection Hr as <- <- <-. rewrite El.
  unfold answers. cbn [waits_sequence waits_binding waits_generation]. rewrite Es. split.
  - intros a outcome Ha. destruct (ok_attempt _ _ _ (ok_phase _ _ Hok) a Ha) as (_ & Hseq & _).
    rewrite (proj2 (Z.leb_gt _ _)) by (simpl; lia). apply andb_false_r.
  - intros r Hl. destruct (ok_record _ (ok_control _ _ Hok) r Hl) as [_ Hseq].
    rewrite (proj2 (Z.leb_gt _ _)) by lia. apply andb_false_r.
Qed.
End waits.

(** C37: Nobody waits for ever.  From every state that an interleaving reaches: a thread in a
    waiting loop has returned, or is awake with its condition fulfilled, once the worker has
    ended or taken thirty steps, whatever the callbacks of the driver answered and the
    other threads did meanwhile; as long as the worker has not ended, it takes such a step
    within three of its own, or of ending a capture, and without a spurious wake-up; and no
    attempt that had begun before a request counts as an answer to it. *)
Theorem waiters_served {Source Facts : Type} `{!EqDecision Facts} (facts : Source -> Facts)
    b0 initial source0 interval es s :
  (0 <= interval)%Z -> run facts (start_system b0 initial source0 interval) es = Some s ->
  (forall i w es' s', waiters s !! i = Some w -> run facts s es' = Some s' ->
    30 <= tally facts active s es' \/ phase s' = Exited ->
    returns facts i s es' \/
    exists w', waiters s' !! i = Some w' /\ asleep w' = false /\ wait_over (control s') w' = true) /\
  (phase s <> Exited -> goes_on facts 3 s) /\
  (forall t confirming source w c n,
    (sequence (scheduler (control s)) < u64_max)%Z ->
    request_and_wait_with_source (control s) t confirming source = (Some w, c, n) ->
    (forall a outcome, attempt_of (phase s) = Some a -> answers w (record_of a outcome) = false) /\
    (forall r, last_attempt (snapshot c) = Some r -> answers w r = false)).
Proof.
  intros Hi Hr. pose proof (trace_ok facts _ _ _ (start_system_ok b0 initial source0 interval Hi) Hr) as Hok. split_and!.
  - intros i w es' s' Hw Hr' Hend. pose proof (trace_ok facts _ _ _ Hok Hr') as Hok'.
    destruct (run_progressed facts _ _ _ _ _ Hok Hw Hr') as [?|(w' & Hw' & _ & _ & Hp)]; [by left|right]. exists w'. split; [done|].
    destruct Hend as [Hn|Hx].
    + pose proof (run_rank facts _ _ _ Hr') as Hrank. assert (rank (phase s) <= 15) by (destruct (phase s) as [| | | | | | | | | | | | |? []|[]|]; simpl; lia).
      destruct Hp as [Hset Ha]; [lia|]. split; [done|]. by apply settled_over.
    + pose proof (ok_waiters _ _ Hok' _ _ Hw') as [_ _ Ha]. rewrite Hx in Ha. split.
      * destruct (asleep w'); [|done]. by destruct (Ha eq_refl eq_refl).
      * pose proof (ok_exited _ _ _ (ok_phase _ _ Hok')) as He. rewrite Hx in He. destruct (He eq_refl) as (_ & _ & _ & El).
        unfold wait_over. rewrite El. destruct (failure _); simpl; by rewrite orb_true_r.
  - by apply worker_goes_on.
  - intros t confirming source w c n. by apply answer_is_fresh.
Qed.
