(* ===== verification/SchedulerPace.v ===== *)
(** * The pace of the maintenance scheduler, and what its mailbox promises

    In the run at the end, a waiting thread asks for an attempt and confirms it; the worker
    claims the confirmation, mutates and publishes, and looks again after the interval. *)
From S2P Require Import Prelude Order Budget Scheduler SchedulerLaws SchedulerClaims SchedulerWaits.

Section pace.
Context {Source Facts : Type} `{!EqDecision Facts} (facts : Source -> Facts).
Implicit Types (c : Control (Source:=Source)) (s : System (Source:=Source) (Facts:=Facts)).
Implicit Types (e : event (Source:=Source)) (a : Attempt).

Definition same_pace c c' : Prop :=
  interval (scheduler c') = interval (scheduler c) /\ next_due (scheduler c') = next_due (scheduler c).

(** Only the beginning and the end of an attempt move the due time. *)
Lemma next_pace s e :
  (forall now, e <> EScan now) -> (forall desired parked now, e <> EPublish desired parked now) ->
  same_pace (control s) (next_control facts s e).
Proof.
  intros Hscan Hpub.
  assert (forall t confirming source, same_pace (control s) (enqueue (control s) t confirming source)) as Henqueue
    by (intros; unfold enqueue; by destruct confirming).
  unfold next_control. destruct e; try done; try (by destruct (Hscan now)); try (by destruct (Hpub desired parked now)).
  - unfold request_with_source. by repeat case_match; cbn [fst snd].
  - unfold request_and_wait_with_source. by case_match; cbn [fst snd].
  - unfold rebind. by repeat case_match.
  - unfold request_stop. cbn [fst snd]. by destruct (decide _).
  - unfold begin_source_capture. by case_match.
  - destruct (phase s); try done. destruct (claim _ _ _ _ _) as [x c] eqn:Ec.
    by destruct (claim_claims _ _ _ _ _ _ _ Ec) as [->|[_ [-> | ->]]].
  - by destruct (phase s).
Qed.

Lemma publish_pace c a outcome desired parked now (c' := (publish c a outcome desired parked now).1) :
  interval (scheduler c') = interval (scheduler c) /\
  (generation c' = generation c -> next_due (scheduler c') = saturating_add_duration now (interval (scheduler c))) /\
  (generation c' <> generation c -> next_due (scheduler c') = now).
Proof.
  unfold c'. rewrite publish_stages. cbn [fst]. destruct (complete_fields (scheduler c) now outcome) as (Ei & _ & Ed).
  assert (interval (scheduler (recorded c a outcome parked now)) = interval (scheduler c) /\
    next_due (scheduler (recorded c a outcome parked now)) = saturating_add_duration now (interval (scheduler c)) /\
    generation (recorded c a outcome parked now) = generation c) as (E1 & E2 & E3).
  { unfold recorded. simpl. by destruct (_ =? _)%Z. }
  set (c1 := recorded _ _ _ _ _) in *. rewrite <- E2, <- E1, <- E3. clear E1 E2 E3 Ei Ed c'. clearbody c1.
  assert (forall x : Control (Source:=Source), interval (scheduler (finished (continued x))) = interval (scheduler x) /\
    next_due (scheduler (finished (continued x))) = next_due (scheduler x) /\
    generation (finished (continued x)) = generation x) as Hf.
  { intros x. unfold finished, continued. by destruct (confirmation x). }
  destruct (Hf (handed_over c1 a desired now)) as (-> & -> & ->). clear Hf. unfold handed_over.
  repeat case_match; simpl; split_and!; try done.
  intros Hg. match goal with E : checked_add_u64 _ _ = Some _ |- _ => apply checked_add_u64_Some in E as [-> _] end. lia.
Qed.

#[local] Opaque publish fail_worker worker_exit notify claim scan_mailbox.

Lemma client_clock s e s' : client_step s e = Some s' -> clock s' = clock s.
Proof.
  intros Hs. assert (forall (t : System (Source:=Source) (Facts:=Facts)) i w, clock (look t i w) = clock t) as Hlook by (intros; unfold look; by destruct (wait_over _ _)).
  destruct e; simpl in *; try done.
  - destruct (request_with_source _ _ _ _) as [[r c] n]. by rewrite (woken_clock _ _ (notify_woken _ _ _ _ Hs)).
  - destruct (decide _); [|done]. destruct (request_and_wait_with_source _ _ _ _) as [[w c] n].
    apply bind_Some in Hs as (s1 & Hn & [= <-]). pose proof (woken_clock _ _ (notify_woken _ _ _ _ Hn)) as E.
    destruct w; [by rewrite Hlook|done].
  - destruct (decide _); simplify_eq. apply Hlook.
  - destruct (waiters s !! i) as [w|]; [|done]. destruct (asleep w); simplify_eq. apply Hlook.
  - destruct (rebind _ _) as [[r c] n]. by rewrite (woken_clock _ _ (notify_woken _ _ _ _ Hs)).
  - by rewrite (woken_clock _ _ (notify_woken NotifyAll None _ _ Hs)).
  - by apply bind_Some in Hs as (c & _ & [= <-]).
  - destruct (bool_decide _); [|done]. by rewrite (woken_clock _ _ (notify_woken NotifyAll None _ _ Hs)).
  - by rewrite (woken_clock _ _ (wake_woken _ _ _ Hs)).
Qed.

Lemma may_read_le s now : may_read s now = true -> (clock s <= now)%Z.
Proof. unfold may_read. intros [?%Z.leb_le _]%andb_true_iff. lia. Qed.

(** The clock goes forward; a beginning and an end are read from it. *)
Lemma worker_clock s e s' :
  worker_step facts s e = Some s' ->
  (clock s <= clock s')%Z /\
  (forall now, e = EScan now -> attempt_of (phase s') <> None -> clock s' = now) /\
  (forall desired parked now, e = EPublish desired parked now -> clock s' = now /\ attempt_of (phase s') = None /\ attempt_of (phase s) <> None).
Proof.
  intros Hs.
  assert (e = EUnwind -> clock s' = clock s) as Hunwind.
  { intros ->. by destruct (unwind_step facts _ _ Hs) as (p' & _ & ->). }
  assert (clock s' = clock s -> (forall now, e <> EScan now) -> (forall desired parked now, e <> EPublish desired parked now) ->
    (clock s <= clock s')%Z /\ (forall now, e = EScan now -> attempt_of (phase s') <> None -> clock s' = now) /\
    (forall desired parked now, e = EPublish desired parked now -> clock s' = now /\ attempt_of (phase s') = None /\ attempt_of (phase s) <> None)) as Hsame.
  { intros -> Hn1 Hn2. split; [lia|]. split; [by intros now ->; destruct (Hn1 now)|by intros d p now ->; destruct (Hn2 d p now)]. }
  unfold worker_step in Hs. destruct e; try (by apply Hsame; [apply Hunwind|..]); clear Hunwind; destruct (phase s) eqn:Ep; simpl in *; try done.
  all: try (by apply Hsame; repeat case_match; simplify_eq/=).
  - destruct until as [due|]; [|done]. destruct (may_read s now) eqn:Hm; [|done]. apply may_read_le in Hm. simpl in Hs.
    destruct (due <=? now)%Z; simplify_eq. simpl. split; [lia|done].
  - destruct (may_read s now) eqn:Hm; [|done]. apply may_read_le in Hm.
    destruct (scan_mailbox (control s) now); simplify_eq/=; (split; [lia|]; split; [by intros ? [= <-]|done]).
  - destruct (may_read s now) eqn:Hm; [|done]. apply may_read_le in Hm. destruct (publish _ _ _ _ _ _) as [c n].
    rewrite (woken_clock _ _ (notify_woken _ _ _ _ Hs)). simpl. split; [lia|]. split; [done|]. intros ? ? ? [= <- <- <-]. split; [done|].
    destruct (notify_phase _ _ _ _ Hs) as [E|E]; rewrite E; simpl; by destruct panicked.
  - destruct (fail_worker _ _) as [c n]. apply Hsame; [|done..]. by rewrite (woken_clock _ _ (notify_woken _ _ _ _ Hs)).
  - destruct (panicking && _); [done|]. destruct (worker_exit _ _) as [c n].
    apply Hsame; [|done..]. by rewrite (woken_clock _ _ (notify_woken _ _ _ _ Hs)).
Qed.

#[local] Transparent publish fail_worker worker_exit notify claim scan_mailbox.

Lemma step_interval s e s' : step facts s e = Some s' -> interval (scheduler (control s')) = interval (scheduler (control s)).
Proof.
  intros Hs. rewrite (step_control _ _ _ _ Hs). destruct e; try (by apply next_pace); unfold next_control.
  - unfold scan_mailbox, scheduler_begin. by repeat case_match; simplify_eq/=.
  - destruct (phase s); try done. by apply publish_pace.
Qed.

Lemma run_interval s es s' : run facts s es = Some s' -> interval (scheduler (control s')) = interval (scheduler (control s)).
Proof.
  apply (run_keeps facts (fun t => interval (scheduler (control t)) = interval (scheduler (control s)))); [|done].
  intros t e t' Ht Hs. rewrite <- Ht. by eapply step_interval.
Qed.

Lemma step_clock s e s' : step facts s e = Some s' -> (clock s <= clock s')%Z.
Proof.
  unfold step. destruct (is_worker_event e); [apply worker_clock|]. intros ->%client_clock. lia.
Qed.

(** No attempt before [due]: it lies in the past, or the clock of the scheduler says so. *)
Definition paced (due : Z) s : Prop :=
  (due <= clock s)%Z \/ attempt_of (phase s) = None /\ (due <= next_due (scheduler (control s)))%Z.

Lemma scan_due s now s' :
  step facts s (EScan now) = Some s' -> attempt_of (phase s') <> None ->
  (next_due (scheduler (control s)) <= now)%Z /\ (clock s <= now)%Z /\ clock s' = now.
Proof.
  unfold step. simpl. intros Hs Ha. destruct (worker_clock _ _ _ Hs) as (_ & Hc & _). split; [|split; [|by apply Hc]].
  - unfold worker_step in Hs. destruct (phase s) as [| |[]| | | | | | |? []| | | | | |]; try done.
    destruct (may_read s now); [|done]. unfold scan_mailbox, scheduler_begin in Hs.
    destruct (stopping _); [by simplify_eq/=|]. destruct (capturing_source _); [by simplify_eq/=|].
    destruct (Z.ltb_spec now (next_due (scheduler (control s)))); [by simplify_eq/=|lia].
  - unfold worker_step in Hs. destruct (phase s) as [| |[]| | | | | | |? []| | | | | |]; try done.
    destruct (may_read s now) eqn:Hm; [by apply may_read_le|done].
Qed.

Lemma step_paced due s e s' : step facts s e = Some s' -> paced due s -> paced due s'.
Proof.
  intros Hs [Hc|[Hn Hd]]; [left; pose proof (step_clock _ _ _ Hs); lia|].
  destruct (attempt_of (phase s')) as [a|] eqn:Ha.
  - left. destruct (attempt_step facts _ _ _ _ Hs Ha) as [?|(now & c & -> & _)]; [congruence|].
    destruct (scan_due _ _ _ Hs) as (? & _ & ->); [by rewrite Ha|lia].
  - right. split; [done|]. rewrite (step_control _ _ _ _ Hs).
    assert ((forall now, e <> EScan now) -> (forall desired parked now, e <> EPublish desired parked now) ->
      (due <= next_due (scheduler (next_control facts s e)))%Z) as Hother.
    { intros H1 H2. by rewrite (proj2 (next_pace s e H1 H2)). }
    destruct e; try (by apply Hother); clear Hother.
    + unfold next_control. destruct (scan_mailbox (control s) now) as [c|until|a c] eqn:Escan; [|done|].
      * unfold scan_mailbox, scheduler_begin in Escan. by repeat case_match; simplify_eq/=.
      * exfalso. unfold step in Hs. simpl in Hs. unfold worker_step in Hs.
        destruct (phase s) as [| |[]| | | | | | |? []| | | | | |]; try done. rewrite Escan in Hs.
        destruct (may_read s now); simplify_eq/=.
    + exfalso. unfold step in Hs. simpl in Hs. destruct (worker_clock _ _ _ Hs) as (_ & _ & Hp).
      by destruct (Hp desired parked now eq_refl) as (_ & _ & ?).
Qed.
End pace.

(** The worker keeps its pace: an attempt begins no earlier than one interval after the
    publication of the one before, however many requests arrive and whatever else the
    threads do in between; only a publication that hands the worker over to another target
    makes the next attempt due at once. *)
Theorem attempts_paced {Source Facts : Type} `{!EqDecision Facts} (facts : Source -> Facts)
    b0 initial source0 interval es s desired parked published s1 :
  run facts (start_system b0 initial source0 interval) es = Some s ->
  step facts s (EPublish desired parked published) = Some s1 ->
  (generation (control s1) = generation (control s) ->
   forall es' s2 begun s3,
     run facts s1 es' = Some s2 -> step facts s2 (EScan begun) = Some s3 -> attempt_of (phase s3) <> None ->
     (saturating_add_duration published interval <= begun)%Z) /\
  (generation (control s1) <> generation (control s) -> next_due (scheduler (control s1)) = published).
Proof.
  intros Hr Hs. pose proof (run_interval facts _ _ _ Hr) as Hi. simpl in Hi.
  pose proof (step_control facts _ _ _ Hs) as Ec. pose proof Hs as Hw. unfold step in Hw. simpl in Hw.
  destruct (worker_clock facts _ _ _ Hw) as (_ & _ & Hp). destruct (Hp _ _ _ eq_refl) as (_ & Hnone & Hsome). clear Hp.
  unfold next_control in Ec. assert (exists a outcome panicked, phase s = Publishing a outcome panicked) as (a & outcome & panicked & Ep).
  { unfold worker_step in Hw. destruct (phase s) as [| |[]| | | | | | |? []| | | | | |]; try done. eauto. }
  rewrite Ep in Ec. destruct (publish_pace (control s) a outcome desired parked published) as (_ & Hkeep & Hmove).
  rewrite <- Ec in Hkeep, Hmove. rewrite Hi in Hkeep. split; [|done]. intros Hg es' s2 begun s3 Hr' Hs' Ha.
  assert (paced (saturating_add_duration published interval) s2) as Hpaced.
  { revert Hr'. apply (run_keeps facts (paced _)); [|right; split; [done|rewrite (Hkeep Hg); lia]]. intros t e t' Ht Hst. by eapply step_paced. }
  destruct (scan_due facts _ _ _ Hs' Ha) as (? & ? & _). destruct Hpaced as [|[_ ?]]; lia.
Qed.

(** C38: In every state that an interleaving reaches: the snapshot shows the current target;
    while an attempt is under way it is shown as running and no source is being captured,
    and at most one capture is ever alive; a claimed source is only held between the gate
    and the end of the mutation; the recorded attempt keeps the target it was made for, of
    an earlier generation or the current one; requests that wait are shown as pending; a
    terminal state is published by the end of the worker, which leaves no confirmation and
    no source behind, or by the exhaustion of the generations; and whoever sleeps although
    its condition holds is told by the next publication: its target has changed. *)
Theorem mailbox_invariant {Source Facts : Type} `{!EqDecision Facts} (facts : Source -> Facts)
    b0 initial source0 interval es s :
  (0 <= interval)%Z -> run facts (start_system b0 initial source0 interval) es = Some s ->
  let c := control s in
  (snapshot_binding (snapshot c) = binding c /\ snapshot_generation (snapshot c) = generation c) /\
  (attempt_of (phase s) <> None -> running (snapshot c) = true /\ captures s = ∅) /\
  (captures s = ∅ \/ exists i, captures s = {[i]}) /\
  (claimed_source c <> None -> holds_claim (phase s) = true) /\
  (forall r, last_attempt (snapshot c) = Some r ->
     (record_generation r <= generation c)%Z /\ (request_sequence r <= sequence (scheduler c))%Z /\
     (record_generation r = generation c -> record_binding r = binding c)) /\
  (pending (scheduler c) <> 0%Z -> snapshot_pending (snapshot c) = true) /\
  (phase s = Exited -> stopping c = true /\ confirmation c = false /\ confirmation_source c = None /\ claimed_source c = None /\
     liveness (snapshot c) = if failure (snapshot c) then Failed else Stopped) /\
  (is_terminal (liveness (snapshot c)) = true -> phase s = Exited \/ generation c = u64_max) /\
  (forall i w, waiters s !! i = Some w -> asleep w = true -> wait_over c w = true ->
     phase s <> Exited /\ ((waits_generation w < generation c)%Z \/ generation c = u64_max)).
Proof.
  intros Hi Hr c. pose proof (trace_ok facts _ _ _ (start_system_ok b0 initial source0 interval Hi) Hr) as [Hc Hp Hw Hcap _]. fold c in Hc, Hp, Hw, Hcap.
  assert (is_terminal (liveness (snapshot c)) = true -> phase s = Exited \/ generation c = u64_max) as Hterm.
  { intros Ht. destruct (ok_terminal _ _ _ Hp Ht) as [He|[_ ?]]; [left; by destruct (phase s)|by right]. }
  split_and!; try done; try (by apply Hc).
  - destruct (attempt_of (phase s)) as [a|] eqn:Ha; [intros _|done]. destruct (ok_attempt _ _ _ Hp a Ha) as (_ & _ & ? & E). by rewrite E in Hcap.
  - destruct (capturing_source c); [by right|by left].
  - apply Hp.
  - intros r Er. by destruct (ok_record _ Hc r Er) as [[? ?] ?].
  - intros He. destruct (ok_exited _ _ _ Hp) as (? & ? & ? & ?); [by rewrite He|]. split_and!; try done.
    destruct (claimed_source c) eqn:Ecl; [|done]. pose proof (ok_claimed _ _ _ Hp) as Hh. rewrite Ecl, He in Hh. by specialize (Hh ltac:(done)).
  - intros i w Hiw Ha Ho. destruct (ok_asleep _ _ _ _ (Hw i w Hiw) eq_refl Ha) as [He Hov].
    assert (phase s <> Exited) as Hne by (intros E; by rewrite E in He). split; [done|].
    destruct (Hov Ho) as [?|El]; [by left|right]. destruct Hterm; [by rewrite El|done|done].
Qed.

(** When the generations are exhausted, [rebind] reports a failure that it does not record,
    so that the end of the worker reports an ordinary stop. *)
Lemma rebind_failure_forgotten {Source : Type} (c : Control (Source:=Source)) b :
  stopping c = false -> liveness (snapshot c) <> Failed -> failure (snapshot c) = None ->
  b <> binding c -> generation c = u64_max ->
  let c' := (rebind c b).1.2 in
  (rebind c b).1.1 = RequestFailed /\ liveness (snapshot c') = Failed /\ liveness (snapshot (worker_exit c' false).1) = Stopped.
Proof.
  intros Hs Hl Hf Hb Hg. unfold rebind. rewrite bool_decide_false, Hs, bool_decide_false, Hg by done. simpl. by rewrite Hf.
Qed.


Definition minute : Z := 60000000000%Z.
Definition example_event : Type := event (Source:=nat).
Definition example_facts (source : nat) : Z := Z.of_nat source.
Definition example_start : System (Source:=nat) (Facts:=Z) := start_system "target" false None minute.

(** Up to the gate. *)
Definition approach : list example_event :=
  [EFactory (Returned (Ok ())); ERequestAndWait 1 Completion (Some "target"%string) (Some 7);
   EScan 5; ESample; EPrepared (Returned (Ok (Some true))); EAdmit true].
(** Through the mutation, up to the publication. *)
Definition through : list example_event :=
  approach ++ [EClaim 10 20; EMutated (Returned (Ok Complete)); ERelease; EFinished (Returned (Ok Complete));
               EDisposed (Returned (Ok Complete))].
(** A publication, and rounds that find nothing to do. *)
Definition idle_round (n : nat) : list example_event :=
  [EScan (Z.of_nat n * 2 * minute); ESample; EPrepared (Returned (Ok None)); EJudge; EPublish None false (Z.of_nat n * 2 * minute)].
Definition idle : list example_event := EPublish None false 30 :: flat_map idle_round (seq 1 6).

Definition state_after (es : list example_event) : option (System (Source:=nat) (Facts:=Z)) := run example_facts example_start es.

(** Evaluates a run of the example that is among the hypotheses. *)
Ltac evaluate H := vm_compute in H; first [discriminate H | injection H as <-].

Definition example_confirmation : Confirmation (Facts:=Z) :=
  {| confirmed_binding := "target"; confirmed_generation := 0; confirmed_source := Some 7%Z |}.

Lemma confirmation_safety_witness :
  match state_after approach with
  | Some s =>
      match step example_facts s (EClaim 10 20) with
      | Some s' =>
          granted s s' = Some example_confirmation /\ confirmation (control s') = false /\
          (exists a, phase s' = Mutating a (Some example_confirmation) /\
             sampled example_facts example_start approach a (Some (0, Some 7)%Z)) /\
          tally example_facts grants example_start (approach ++ [EClaim 10 20]) = 1
      | None => False
      end
  | None => False
  end.
Proof.
  destruct (state_after approach) as [s|] eqn:Hs; [|evaluate Hs].
  destruct (step example_facts s (EClaim 10 20)) as [s'|] eqn:Hs'; [|evaluate Hs; evaluate Hs'].
  assert (granted s s' = Some example_confirmation) as Hg by (evaluate Hs; evaluate Hs'; reflexivity).
  destruct (confirmation_safety example_facts "target" false None minute approach s (EClaim 10 20) s' example_confirmation Hs Hs' Hg)
    as ((a & source & Ha & _ & _ & _ & _ & Hsample) & Hc & Hn).
  split; [exact Hg|]. split; [exact Hc|]. split; [exists a; by split|]. vm_compute. reflexivity.
Defined.

Lemma waiters_served_witness :
  match state_after through with
  | Some s =>
      match run example_facts s idle with
      | Some s' =>
          30 <= tally example_facts active s idle /\ goes_on example_facts 3 s /\
          (returns example_facts 1 s idle \/
           exists w, waiters s' !! 1 = Some w /\ asleep w = false /\ wait_over (control s') w = true)
      | None => False
      end
  | None => False
  end.
Proof.
  destruct (state_after through) as [s|] eqn:Hs; [|evaluate Hs].
  destruct (run example_facts s idle) as [s'|] eqn:Hs'; [|evaluate Hs; evaluate Hs'].
  destruct (waiters_served example_facts "target" false None minute through s ltac:(unfold minute; lia) Hs) as (Hserved & Hgo & _).
  assert (30 <= tally example_facts active s idle) as Hn.
  { clear -Hs. evaluate Hs. vm_compute. lia. }
  assert (exists w, waiters s !! 1 = Some w) as [w Hw] by (clear -Hs; evaluate Hs; eexists; vm_compute; reflexivity).
  split; [exact Hn|]. split; [apply Hgo|].
  - clear -Hs. evaluate Hs. vm_compute. discriminate.
  - apply (Hserved 1 w idle s' Hw Hs'). by left.
Defined.

Lemma attempts_paced_witness :
  match state_after through with
  | Some s =>
      match step example_facts s (EPublish None false 30) with
      | Some s1 =>
          match step example_facts s1 (EScan (30 + minute)) with
          | Some s3 => attempt_of (phase s3) <> None /\ (saturating_add_duration 30 minute <= 30 + minute)%Z
          | None => False
          end
      | None => False
      end
  | None => False
  end.
Proof.
  destruct (state_after through) as [s|] eqn:Hs; [|evaluate Hs].
  destruct (step example_facts s (EPublish None false 30)) as [s1|] eqn:Hs1; [|evaluate Hs; evaluate Hs1].
  destruct (step example_facts s1 (EScan (30 + minute))) as [s3|] eqn:Hs3; [|evaluate Hs; evaluate Hs1; evaluate Hs3].
  destruct (attempts_paced example_facts "target" false None minute through s None false 30 s1 Hs Hs1) as [Hpace _].
  assert (attempt_of (phase s3) <> None) as Ha by (evaluate Hs; evaluate Hs1; evaluate Hs3; vm_compute; discriminate).
  split; [exact Ha|]. apply (Hpace ltac:(clear -Hs Hs1; evaluate Hs; evaluate Hs1; vm_compute; reflexivity) [] s1 (30 + minute)%Z s3 eq_refl Hs3 Ha).
Defined.

Lemma mailbox_invariant_witness :
  match state_after through with
  | Some s => captures s = ∅ /\ running (snapshot (control s)) = true /\ snapshot_binding (snapshot (control s)) = binding (control s)
  | None => False
  end.
Proof.
  destruct (state_after through) as [s|] eqn:Hs; [|evaluate Hs].
  destruct (mailbox_invariant example_facts "target" false None minute through s ltac:(unfold minute; lia) Hs)
    as ([Hb _] & Hat & _).
  destruct Hat as [Hr Hc]; [clear -Hs; evaluate Hs; vm_compute; discriminate|]. split; [exact Hc|]. split; [exact Hr|exact Hb].
Defined.
