(* ===== verification/JsonReader.v ===== *)
(** * The JSON reader of the storage maintenance (src/storage/maintenance_json.rs)

    Reads a document through a buffer of fixed size and hands out its tokens one by one,
    with the digests of their decoded text, and at the end the digests of the document and
    of the document without its white space.  Nothing of the document is kept. *)
From S2P Require Import Prelude Order Bytes Budget.

Definition io_bytes : Z := 4096%Z.
Definition max_containers : nat := 127.

Inductive JsonFailure :=
| ResourceFailure (e : ResourceLimit)
| IoFailure (kind : string)
| MalformedJson
| LoaderDepthExceeded
| OffsetOverflow.

Inductive TokenKind :=
| ObjectStart | ObjectEnd | ArrayStart | ArrayEnd
| StringToken (key : bool) (decoded_len : Z) (decoded_sha256 : list Z) (producer_escapes : bool)
| NumberToken
| BoolToken (b : bool)
| NullToken.

Record JsonToken := { token_start : Z; token_end : Z; token_kind : TokenKind }.

Inductive Frame :=
| ObjectFirst | ObjectKey | Colon | ObjectValue | ObjectNext
| ArrayFirst | ArrayValue | ArrayNext.

(** The answers of [Read::read] to come; behind them it answers that the input is at its end. *)
Inductive ReadOutcome :=
| ReadOk (bytes : list Z)
| ReadInterrupted
| ReadErr (kind : string).

(** [buffer] is its filled part.  [frames] is the used part of the array, the innermost
    container first, so that the depth is its length.  A hasher is what it was given. *)
Record Reader := {
  input : list ReadOutcome;
  buffer : list Z;
  cursor : nat;
  offset : Z;
  frames : list Frame;
  started : bool;
  failed : bool;
  raw_hash : list Z;
  compact_hash : list Z
}.

Definition set_frames (r : Reader) (fs : list Frame) : Reader :=
  {| input := input r; buffer := buffer r; cursor := cursor r; offset := offset r; frames := fs; started := started r;
     failed := failed r; raw_hash := raw_hash r; compact_hash := compact_hash r |}.
Definition set_started (r : Reader) : Reader :=
  {| input := input r; buffer := buffer r; cursor := cursor r; offset := offset r; frames := frames r; started := true;
     failed := failed r; raw_hash := raw_hash r; compact_hash := compact_hash r |}.
Definition set_failed (r : Reader) : Reader :=
  {| input := input r; buffer := buffer r; cursor := cursor r; offset := offset r; frames := frames r; started := started r;
     failed := true; raw_hash := raw_hash r; compact_hash := compact_hash r |}.
Definition set_buffer (r : Reader) (i : list ReadOutcome) (b : list Z) (c : nat) : Reader :=
  {| input := i; buffer := b; cursor := c; offset := offset r; frames := frames r; started := started r;
     failed := failed r; raw_hash := raw_hash r; compact_hash := compact_hash r |}.

(** ** Operations that may fail *)
(** No value where a loop has run out of fuel. *)
Definition M (A : Type) : Type := Reader -> option (result JsonFailure A * Reader).
#[export] Instance M_ret : MRet M := fun A a r => Some (Ok a, r).
#[export] Instance M_bind : MBind M := fun A B k m r =>
  match m r with
  | Some (Ok a, r) => k a r
  | Some (Err e, r) => Some (Err e, r)
  | None => None
  end.
Definition fail {A} (e : JsonFailure) : M A := fun r => Some (Err e, r).
Definition get : M Reader := fun r => Some (Ok r, r).
Definition modify (f : Reader -> Reader) : M () := fun r => Some (Ok (), f r).

(** What the input can still give: the fuel of the loops. *)
Definition outcome_bytes (o : ReadOutcome) : list Z := match o with ReadOk b => b | _ => [] end.
Definition rest (r : Reader) : list Z := drop (cursor r) (buffer r) ++ (input r ≫= outcome_bytes).
Definition with_fuel {A} (m : nat -> M A) : M A := fun r => m (S (length (rest r))) r.

(** ** Bytes *)
Fixpoint refill (i : list ReadOutcome) : result JsonFailure (list Z) * list ReadOutcome :=
  match i with
  | [] => (Ok [], [])
  | ReadOk b :: i => (Ok b, i)
  | ReadInterrupted :: i => refill i
  | ReadErr k :: i => (Err (IoFailure k), i)
  end.

Definition peek : M (option Z) := fun r =>
  if decide (cursor r = length (buffer r)) then
    match refill (input r) with
    | (Ok b, i) => Some (Ok (head b), set_buffer r i b 0)
    | (Err e, i) => Some (Err e, set_buffer r i (buffer r) (cursor r))
    end
  else Some (Ok (buffer r !! cursor r), r).

Definition consume (b : Z) (compact : bool) (r : Reader) : Reader :=
  {| input := input r; buffer := buffer r; cursor := S (cursor r); offset := offset r + 1; frames := frames r;
     started := started r; failed := failed r; raw_hash := raw_hash r ++ [b];
     compact_hash := if compact then compact_hash r ++ [b] else compact_hash r |}.

Definition byte (compact : bool) : M Z :=
  b ← peek;
  match b with
  | None => fail MalformedJson
  | Some b =>
      r ← get;
      match checked_add_u64 (offset r) 1 with
      | None => fail OffsetOverflow
      | Some _ => _ ← modify (consume b compact); mret b
      end
  end.

(** [while p(self.peek()?) { self.byte(compact)?; }] *)
Fixpoint skip_while (p : Z -> bool) (compact : bool) (fuel : nat) : M () :=
  match fuel with
  | 0 => fun _ => None
  | S fuel =>
      b ← peek;
      match b with
      | Some b => if p b then _ ← byte compact; skip_while p compact fuel else mret ()
      | None => mret ()
      end
  end.

Definition is_blank (b : Z) : bool := (b =? 32)%Z || (b =? 10)%Z || (b =? 13)%Z || (b =? 9)%Z.
Definition is_digit (b : Z) : bool := in_range 48 57 b.

Definition whitespace : M () := with_fuel (skip_while is_blank false).
Definition digits : M () := with_fuel (skip_while is_digit true).

Definition expected (b : Z) : M () :=
  x ← byte true;
  if (x =? b)%Z then mret () else fail MalformedJson.

(** ** Lexemes *)
Definition hex_digit (b : Z) : option Z :=
  if in_range 48 57 b then Some (b - 48)%Z
  else if in_range 97 102 b then Some (b - 97 + 10)%Z
  else if in_range 65 70 b then Some (b - 65 + 10)%Z
  else None.

Fixpoint hex_loop (n : nat) (value : Z) : M Z :=
  match n with
  | 0 => mret value
  | S n =>
      b ← byte true;
      match hex_digit b with
      | None => fail MalformedJson
      | Some d => hex_loop n (value * 16 + d)%Z
      end
  end.
Definition hex4 : M Z := hex_loop 4 0.

(** [char::from_u32] *)
Definition scalar_value (c : Z) : bool := in_range 0 55295 c || in_range 57344 1114111 c.

Definition unicode_escape : M Z :=
  first ← hex4;
  code ← (if in_range 55296 56319 first then
            _ ← expected 92; _ ← expected 117; low ← hex4;
            if in_range 56320 57343 low then mret (65536 + Z.shiftl (first - 55296) 10 + low - 56320)%Z
            else fail MalformedJson
          else mret first);
  if scalar_value code then mret code else fail MalformedJson.

(** An escape behind its backslash: the bytes that it stands for, and whether a producer
    would write it. *)
Definition escape : M (list Z * bool) :=
  e ← byte true;
  if (e =? 34)%Z || (e =? 92)%Z then mret ([e], true)
  else if (e =? 47)%Z then mret ([47%Z], false)
  else if (e =? 98)%Z then mret ([8%Z], true)
  else if (e =? 102)%Z then mret ([12%Z], true)
  else if (e =? 110)%Z then mret ([10%Z], true)
  else if (e =? 114)%Z then mret ([13%Z], true)
  else if (e =? 116)%Z then mret ([9%Z], true)
  else if (e =? 117)%Z then code ← unicode_escape; mret (encode_utf8 code, false)
  else fail MalformedJson.

Fixpoint bytes_loop (n : nat) : M (list Z) :=
  match n with
  | 0 => mret []
  | S n => b ← byte true; l ← bytes_loop n; mret (b :: l)
  end.

(** The length of a sequence, by its first byte. *)
Definition sequence_length (b : Z) : option nat :=
  if in_range 194 223 b then Some 2
  else if in_range 224 239 b then Some 3
  else if in_range 240 244 b then Some 4
  else None.

(** A character that is not escaped. *)
Definition raw_char (b : Z) : M (list Z) :=
  match sequence_length b with
  | None => fail MalformedJson
  | Some count =>
      tail ← bytes_loop (count - 1);
      if is_ok (utf8_decode (b :: tail)) then mret (b :: tail) else fail MalformedJson
  end.

Fixpoint string_loop (fuel : nat) (decoded : list Z) (producer_escapes : bool) : M (list Z * bool) :=
  match fuel with
  | 0 => fun _ => None
  | S fuel =>
      b ← byte true;
      if (b =? 34)%Z then mret (decoded, producer_escapes)
      else if in_range 0 31 b then fail MalformedJson
      else
        piece ← (if (b =? 92)%Z then escape
                 else if in_range 32 127 b then mret ([b], true)
                 else (scalar ← raw_char b; mret (scalar, true)));
        match checked_add_u64 (Z.of_nat (length decoded)) (Z.of_nat (length piece.1)) with
        | None => fail OffsetOverflow
        | Some _ => string_loop fuel (decoded ++ piece.1) (producer_escapes && piece.2)
        end
  end.

Definition number : M () :=
  b ← peek;
  _ ← (if decide (b = Some 45%Z) then (_ ← byte true; mret ()) else mret ());
  b ← byte true;
  _ ← (if (b =? 48)%Z then mret () else if in_range 49 57 b then digits else fail MalformedJson);
  b ← peek;
  _ ← (if decide (b = Some 46%Z) then
         _ ← byte true; d ← peek;
         match d with
         | Some d => if is_digit d then digits else fail MalformedJson
         | None => fail MalformedJson
         end
       else mret ());
  b ← peek;
  if decide (b = Some 101%Z \/ b = Some 69%Z) then
    _ ← byte true; s ← peek;
    _ ← (if decide (s = Some 43%Z \/ s = Some 45%Z) then (_ ← byte true; mret ()) else mret ());
    d ← peek;
    match d with
    | Some d => if is_digit d then digits else fail MalformedJson
    | None => fail MalformedJson
    end
  else mret ().

Fixpoint expect_all (l : list Z) : M () :=
  match l with
  | [] => mret ()
  | b :: l => _ ← expected b; expect_all l
  end.

(** ** Tokens *)
Section tokens.
Context (sha256 : list Z -> list Z).

Definition string_token (key : bool) : M TokenKind :=
  _ ← expected 34;
  s ← with_fuel (fun fuel => string_loop fuel [] true);
  mret (StringToken key (Z.of_nat (length s.1)) (sha256 s.1) s.2).

Definition value : M TokenKind :=
  b ← peek;
  match b with
  | None => fail MalformedJson
  | Some b =>
      if (b =? 123)%Z || (b =? 91)%Z then
        r ← get;
        if decide (length (frames r) = max_containers) then fail LoaderDepthExceeded
        else
          b ← byte true;
          _ ← modify (fun r => set_frames r ((if (b =? 123)%Z then ObjectFirst else ArrayFirst) :: frames r));
          mret (if (b =? 123)%Z then ObjectStart else ArrayStart)
      else if (b =? 34)%Z then string_token false
      else if (b =? 45)%Z || is_digit b then _ ← number; mret NumberToken
      else if (b =? 116)%Z then _ ← expect_all [116; 114; 117; 101]%Z; mret (BoolToken true)
      else if (b =? 102)%Z then _ ← expect_all [102; 97; 108; 115; 101]%Z; mret (BoolToken false)
      else if (b =? 110)%Z then _ ← expect_all [110; 117; 108; 108]%Z; mret NullToken
      else fail MalformedJson
  end.

(** The innermost frame, and leaving its container. *)
Definition set_frame (f : Frame) : M () := modify (fun r => set_frames r (f :: tail (frames r))).
Definition pop_frame : M () := modify (fun r => set_frames r (tail (frames r))).

(** One round of the loop of [next_inner]; [None] where it goes round again. *)
Definition next_round : M (option (option JsonToken)) :=
  _ ← whitespace;
  r ← get;
  let start := offset r in
  let token (kind : M TokenKind) : M (option (option JsonToken)) :=
    (kind ← kind; r ← get;
     mret (Some (Some {| token_start := start; token_end := offset r; token_kind := kind |}))) in
  match frames r with
  | [] =>
      if started r then
        b ← peek;
        match b with None => mret (Some None) | Some _ => fail MalformedJson end
      else token (_ ← modify set_started; value)
  | Colon :: _ => _ ← expected 58; _ ← set_frame ObjectValue; mret None
  | ObjectFirst :: _ =>
      b ← peek;
      if decide (b = Some 125%Z) then token (_ ← byte true; _ ← pop_frame; mret ObjectEnd)
      else token (k ← string_token true; _ ← set_frame Colon; mret k)
  | ObjectKey :: _ => token (k ← string_token true; _ ← set_frame Colon; mret k)
  | ObjectValue :: _ => token (_ ← set_frame ObjectNext; value)
  | ArrayFirst :: _ =>
      b ← peek;
      if decide (b = Some 93%Z) then token (_ ← byte true; _ ← pop_frame; mret ArrayEnd)
      else token (_ ← set_frame ArrayNext; value)
  | ArrayValue :: _ => token (_ ← set_frame ArrayNext; value)
  | ObjectNext :: _ =>
      b ← peek;
      if decide (b = Some 44%Z) then _ ← byte true; _ ← set_frame ObjectKey; mret None
      else token (_ ← expected 125; _ ← pop_frame; mret ObjectEnd)
  | ArrayNext :: _ =>
      b ← peek;
      if decide (b = Some 44%Z) then _ ← byte true; _ ← set_frame ArrayValue; mret None
      else token (_ ← expected 93; _ ← pop_frame; mret ArrayEnd)
  end.

Fixpoint next_loop (fuel : nat) : M (option JsonToken) :=
  match fuel with
  | 0 => fun _ => None
  | S fuel =>
      x ← next_round;
      match x with Some token => mret token | None => next_loop fuel end
  end.
Definition next_inner : M (option JsonToken) := with_fuel next_loop.

Definition next_token : M (option JsonToken) := fun r =>
  if failed r then Some (Err MalformedJson, r)
  else match next_inner r with
       | Some (Err e, r) => Some (Err e, set_failed r)
       | x => x
       end.

(** A caller takes the tokens up to the end. *)
Fixpoint tokens_loop (fuel : nat) (taken : list JsonToken) : M (list JsonToken) :=
  match fuel with
  | 0 => fun _ => None
  | S fuel =>
      t ← next_token;
      match t with Some t => tokens_loop fuel (taken ++ [t]) | None => mret taken end
  end.
Definition all_tokens : M (list JsonToken) := with_fuel (fun fuel => tokens_loop fuel []).

Fixpoint finish_loop (fuel : nat) : M () :=
  match fuel with
  | 0 => fun _ => None
  | S fuel =>
      t ← next_token;
      match t with Some _ => finish_loop fuel | None => mret () end
  end.
Definition finish : M (list Z * list Z) :=
  _ ← with_fuel finish_loop; r ← get; mret (sha256 (raw_hash r), sha256 (compact_hash r)).
End tokens.

Definition position (r : Reader) : Z := offset r.

Definition fresh_reader (input : list ReadOutcome) : Reader :=
  {| input := input; buffer := []; cursor := 0; offset := 0; frames := []; started := false; failed := false;
     raw_hash := []; compact_hash := [] |}.

(** [size] is the size of the reader, [reserve] the answer of the account to each
    reservation, [allocate] that of the buffer. *)
Definition new (size : Z) (reserve : Z -> result ResourceLimit ()) (allocated : bool) (input : list ReadOutcome)
    : result JsonFailure Reader :=
  result_bind (ok_or (ResourceFailure ArithmeticOverflow) (checked_add_u64 size 512)) (fun floor =>
  result_bind (map_err ResourceFailure (reserve floor)) (fun _ =>
  result_bind (map_err ResourceFailure (reserve io_bytes)) (fun _ =>
  result_bind (map_err ResourceFailure (allocate io_bytes io_bytes allocated)) (fun _ =>
  Ok (fresh_reader input))))).
