(* ===== verification/JsonGrammar.v ===== *)
(** * JSON documents

    The grammar of RFC 8259, for the proofs about [JsonReader]: a tree of the values, the
    byte strings that are texts of a tree, its tokens, and its text without white space.
    [follows] is the same grammar read from the left, with the open containers as a stack:
    a document can be read from the left if and only if it is the text of a tree. *)
From S2P Require Import Prelude Bytes JsonReader.

Definition blank (l : list Z) : Prop := Forall (fun b => is_blank b = true) l.

(** ** Lexemes *)
Definition some_digits (l : list Z) : Prop := l <> [] /\ Forall (fun b => is_digit b = true) l.

Definition integer_part (l : list Z) : Prop :=
  l = [48%Z] \/ exists d ds, l = d :: ds /\ in_range 49 57 d = true /\ Forall (fun b => is_digit b = true) ds.
Definition fraction_part (l : list Z) : Prop := l = [] \/ exists ds, l = 46%Z :: ds /\ some_digits ds.
Definition exponent_part (l : list Z) : Prop :=
  l = [] \/ exists e sign ds, l = e :: sign ++ ds /\ (e = 101%Z \/ e = 69%Z) /\
    (sign = [] \/ sign = [43%Z] \/ sign = [45%Z]) /\ some_digits ds.
Definition number_text (l : list Z) : Prop :=
  exists minus i f e, l = minus ++ i ++ f ++ e /\ (minus = [] \/ minus = [45%Z]) /\
    integer_part i /\ fraction_part f /\ exponent_part e.

(** The value of hexadecimal digits. *)
Definition hex_value (l : list Z) : option Z :=
  foldl (fun v b => v ≫= fun v => d ← hex_digit b; Some (v * 16 + d)%Z) (Some 0%Z) l.
Definition hex_code (l : list Z) (c : Z) : Prop := length l = 4 /\ hex_value l = Some c.

(** One character of a string: its text, the bytes it stands for, and whether a producer
    would write it this way. *)
Inductive string_char : list Z -> list Z -> bool -> Prop :=
| CharRaw c : is_scalar c -> (32 <= c)%Z -> c <> 34%Z -> c <> 92%Z -> string_char (encode_utf8 c) (encode_utf8 c) true
| CharShort e d :
    (e, d) ∈ [(34, 34); (92, 92); (98, 8); (102, 12); (110, 10); (114, 13); (116, 9)]%Z ->
    string_char [92; e]%Z [d] true
| CharSlash : string_char [92; 47]%Z [47%Z] false
| CharUnicode hs c : hex_code hs c -> is_scalar c -> string_char (92 :: 117 :: hs)%Z (encode_utf8 c) false
| CharSurrogates hs1 hs2 high low :
    hex_code hs1 high -> (55296 <= high <= 56319)%Z -> hex_code hs2 low -> (56320 <= low <= 57343)%Z ->
    string_char (92 :: 117 :: hs1 ++ 92 :: 117 :: hs2)%Z (encode_utf8 (65536 + (high - 55296) * 1024 + (low - 56320))) false.

Inductive string_chars : list Z -> list Z -> bool -> Prop :=
| CharsEnd : string_chars [] [] true
| CharsMore src dec plain l d p :
    string_char src dec plain -> string_chars l d p -> string_chars (src ++ l) (dec ++ d) (plain && p).

(** A string of a document: its text with the quotes, what it stands for, and whether all
    of it is written as a producer would. *)
Record Str := { str_text : list Z; str_decoded : list Z; str_plain : bool }.
Definition string_text (s : Str) : Prop :=
  exists body, str_text s = 34%Z :: body ++ [34%Z] /\ string_chars body (str_decoded s) (str_plain s).

(** ** Values *)
Inductive Json :=
| JNull
| JBool (b : bool)
| JNumber (text : list Z)
| JString (s : Str)
| JArray (elements : list Json)
| JObject (members : list (Str * Json)).

Definition keyword (j : Json) : list Z :=
  match j with
  | JNull => [110; 117; 108; 108]
  | JBool true => [116; 114; 117; 101]
  | JBool false => [102; 97; 108; 115; 101]
  | _ => []
  end%Z.

(** [value_text j l]: [l] is a text of [j] without white space around it. *)
Inductive value_text : Json -> list Z -> Prop :=
| TextNull : value_text JNull (keyword JNull)
| TextBool b : value_text (JBool b) (keyword (JBool b))
| TextNumber l : number_text l -> value_text (JNumber l) l
| TextString s : string_text s -> value_text (JString s) (str_text s)
| TextNoElements w : blank w -> value_text (JArray []) (91 :: w ++ [93])%Z
| TextElements js l : elements_text js l -> value_text (JArray js) (91 :: l ++ [93])%Z
| TextNoMembers w : blank w -> value_text (JObject []) (123 :: w ++ [125])%Z
| TextMembers ms l : members_text ms l -> value_text (JObject ms) (123 :: l ++ [125])%Z
with elements_text : list Json -> list Z -> Prop :=
| ElementsLast j w1 l w2 : blank w1 -> value_text j l -> blank w2 -> elements_text [j] (w1 ++ l ++ w2)
| ElementsMore j w1 l w2 js k :
    blank w1 -> value_text j l -> blank w2 -> elements_text js k ->
    elements_text (j :: js) (w1 ++ l ++ w2 ++ 44%Z :: k)
with members_text : list (Str * Json) -> list Z -> Prop :=
| MembersLast s j w1 w2 w3 l w4 :
    blank w1 -> string_text s -> blank w2 -> blank w3 -> value_text j l -> blank w4 ->
    members_text [(s, j)] (w1 ++ str_text s ++ w2 ++ 58%Z :: w3 ++ l ++ w4)
| MembersMore s j w1 w2 w3 l w4 ms k :
    blank w1 -> string_text s -> blank w2 -> blank w3 -> value_text j l -> blank w4 -> members_text ms k ->
    members_text ((s, j) :: ms) (w1 ++ str_text s ++ w2 ++ 58%Z :: w3 ++ l ++ w4 ++ 44%Z :: k).

Definition document_text (j : Json) (l : list Z) : Prop :=
  exists w1 v w2, l = w1 ++ v ++ w2 /\ blank w1 /\ value_text j v /\ blank w2.

(** The number of containers one inside the other. *)
Fixpoint depth (j : Json) : nat :=
  match j with
  | JArray js => S (list_max (map depth js))
  | JObject ms => S (list_max (map (fun m => depth m.2) ms))
  | _ => 0
  end.

(** Each element behind the first has a comma before it. *)
Definition commas (ls : list (list Z)) : list Z :=
  match ls with [] => [] | l :: ls => l ++ (ls ≫= fun l => 44%Z :: l) end.

(** The text without white space. *)
Fixpoint compact (j : Json) : list Z :=
  match j with
  | JNumber l => l
  | JString s => str_text s
  | JArray js => 91 :: commas (map compact js) ++ [93]
  | JObject ms => 123 :: commas (map (fun m => str_text m.1 ++ 58 :: compact m.2) ms) ++ [125]
  | j => keyword j
  end%Z.

Section tokens.
Context (sha256 : list Z -> list Z).

(** A token and its text. *)
Definition Lexeme : Type := TokenKind * list Z.
Definition string_lexeme (key : bool) (s : Str) : Lexeme :=
  (StringToken key (Z.of_nat (length (str_decoded s))) (sha256 (str_decoded s)) (str_plain s), str_text s).

Fixpoint lexemes (j : Json) : list Lexeme :=
  match j with
  | JNull => [(NullToken, keyword JNull)]
  | JBool b => [(BoolToken b, keyword (JBool b))]
  | JNumber l => [(NumberToken, l)]
  | JString s => [string_lexeme false s]
  | JArray js => (ArrayStart, [91%Z]) :: concat (map lexemes js) ++ [(ArrayEnd, [93%Z])]
  | JObject ms =>
      (ObjectStart, [123%Z]) :: concat (map (fun m => string_lexeme true m.1 :: lexemes m.2) ms) ++ [(ObjectEnd, [125%Z])]
  end.

(** ** Reading from the left *)
(** Before the document, or within the open containers. *)
Inductive Place := Before | Within (fs : list Frame).

(** Where a value may come, and the place behind it. *)
Definition after_value (x : Place) : option Place :=
  match x with
  | Before => Some (Within [])
  | Within (ObjectValue :: fs) => Some (Within (ObjectNext :: fs))
  | Within ((ArrayFirst | ArrayValue) :: fs) => Some (Within (ArrayNext :: fs))
  | _ => None
  end.

(** The values that are one lexeme. *)
Definition scalar_lexeme (x : Lexeme) : Prop :=
  (exists b, x = (BoolToken b, keyword (JBool b))) \/ x = (NullToken, keyword JNull) \/
  (exists l, x = (NumberToken, l) /\ number_text l) \/ (exists s, x = string_lexeme false s /\ string_text s).

(** [follows x l ts c]: at [x] a document can go on with [l], which has the tokens [ts] and
    is [c] without white space. *)
Inductive follows : Place -> list Z -> list Lexeme -> list Z -> Prop :=
| FollowsEnd w : blank w -> follows (Within []) w [] []
| FollowsScalar x y w t l ts c :
    after_value x = Some y -> blank w -> scalar_lexeme t -> follows y l ts c ->
    follows x (w ++ t.2 ++ l) (t :: ts) (t.2 ++ c)
| FollowsArray x fs w l ts c :
    after_value x = Some (Within fs) -> length fs < max_containers -> blank w -> follows (Within (ArrayFirst :: fs)) l ts c ->
    follows x (w ++ 91%Z :: l) ((ArrayStart, [91%Z]) :: ts) (91%Z :: c)
| FollowsObject x fs w l ts c :
    after_value x = Some (Within fs) -> length fs < max_containers -> blank w -> follows (Within (ObjectFirst :: fs)) l ts c ->
    follows x (w ++ 123%Z :: l) ((ObjectStart, [123%Z]) :: ts) (123%Z :: c)
| FollowsKey f fs w s l ts c :
    f = ObjectFirst \/ f = ObjectKey -> blank w -> string_text s -> follows (Within (Colon :: fs)) l ts c ->
    follows (Within (f :: fs)) (w ++ str_text s ++ l) (string_lexeme true s :: ts) (str_text s ++ c)
| FollowsColon fs w l ts c :
    blank w -> follows (Within (ObjectValue :: fs)) l ts c ->
    follows (Within (Colon :: fs)) (w ++ 58%Z :: l) ts (58%Z :: c)
| FollowsComma f g fs w l ts c :
    f = ObjectNext /\ g = ObjectKey \/ f = ArrayNext /\ g = ArrayValue -> blank w -> follows (Within (g :: fs)) l ts c ->
    follows (Within (f :: fs)) (w ++ 44%Z :: l) ts (44%Z :: c)
| FollowsObjectEnd f fs w l ts c :
    f = ObjectFirst \/ f = ObjectNext -> blank w -> follows (Within fs) l ts c ->
    follows (Within (f :: fs)) (w ++ 125%Z :: l) ((ObjectEnd, [125%Z]) :: ts) (125%Z :: c)
| FollowsArrayEnd f fs w l ts c :
    f = ArrayFirst \/ f = ArrayNext -> blank w -> follows (Within fs) l ts c ->
    follows (Within (f :: fs)) (w ++ 93%Z :: l) ((ArrayEnd, [93%Z]) :: ts) (93%Z :: c).
End tokens.

(** * The two readings agree *)
Scheme value_text_min := Minimality for value_text Sort Prop
with elements_text_min := Minimality for elements_text Sort Prop
with members_text_min := Minimality for members_text Sort Prop.
Combined Scheme text_mutual from value_text_min, elements_text_min, members_text_min.

Lemma commas_cons l m ls : commas (l :: m :: ls) = l ++ 44%Z :: commas (m :: ls).
Proof. done. Qed.
Lemma commas_one l : commas [l] = l.
Proof. unfold commas. simpl. apply app_nil_r. Qed.

Lemma elements_nonempty js l : elements_text js l -> js <> [].
Proof. by destruct 1. Qed.
Lemma members_nonempty ms l : members_text ms l -> ms <> [].
Proof. by destruct 1. Qed.

Section tree.
Context (sha256 : list Z -> list Z).
Notation follows := (follows sha256).
Notation lexemes := (lexemes sha256).

Definition elements_lexemes (js : list Json) : list Lexeme := concat (map lexemes js).
Definition members_lexemes (ms : list (Str * Json)) : list Lexeme :=
  concat (map (fun m => string_lexeme sha256 true m.1 :: lexemes m.2) ms).
Definition elements_compact (js : list Json) : list Z := commas (map compact js).
Definition member_compact (m : Str * Json) : list Z := str_text m.1 ++ 58%Z :: compact m.2.
Definition members_compact (ms : list (Str * Json)) : list Z := commas (map member_compact ms).
Definition members_depth (ms : list (Str * Json)) : nat := list_max (map (fun m => depth m.2) ms).

(** ** From a tree to the left *)
Definition value_follows (j : Json) (l : list Z) : Prop :=
  forall x fs w k ts c,
    after_value x = Some (Within fs) -> depth j + length fs <= max_containers -> blank w -> follows (Within fs) k ts c ->
    follows x (w ++ l ++ k) (lexemes j ++ ts) (compact j ++ c).
Definition elements_follow (js : list Json) (l : list Z) : Prop :=
  forall f fs k ts c,
    f = ArrayFirst \/ f = ArrayValue -> list_max (map depth js) + S (length fs) <= max_containers -> follows (Within fs) k ts c ->
    follows (Within (f :: fs)) (l ++ 93%Z :: k) (elements_lexemes js ++ (ArrayEnd, [93%Z]) :: ts) (elements_compact js ++ 93%Z :: c).
Definition members_follow (ms : list (Str * Json)) (l : list Z) : Prop :=
  forall f fs k ts c,
    f = ObjectFirst \/ f = ObjectKey -> members_depth ms + S (length fs) <= max_containers -> follows (Within fs) k ts c ->
    follows (Within (f :: fs)) (l ++ 125%Z :: k) (members_lexemes ms ++ (ObjectEnd, [125%Z]) :: ts) (members_compact ms ++ 125%Z :: c).

Lemma after_array f fs : f = ArrayFirst \/ f = ArrayValue -> after_value (Within (f :: fs)) = Some (Within (ArrayNext :: fs)).
Proof. by intros [-> | ->]. Qed.

Lemma scalar_follows j l t : scalar_lexeme sha256 t -> t.2 = l -> lexemes j = [t] -> compact j = l -> value_follows j l.
Proof.
  intros Ht <- Hj Hc x fs w k ts c Hx _ Hw Hk. rewrite Hj, Hc. by eapply (FollowsScalar sha256 x _ w t).
Qed.

(** The member behind its key. *)
Lemma member_follows s j w1 w2 w3 l f fs k ts c :
  f = ObjectFirst \/ f = ObjectKey -> blank w1 -> string_text s -> blank w2 -> blank w3 -> value_follows j l ->
  depth j + S (length fs) <= max_containers -> follows (Within (ObjectNext :: fs)) k ts c ->
  follows (Within (f :: fs)) (w1 ++ str_text s ++ w2 ++ 58%Z :: w3 ++ l ++ k)
    (string_lexeme sha256 true s :: lexemes j ++ ts) (member_compact (s, j) ++ c).
Proof.
  intros Hf Hw1 Hs Hw2 Hw3 Hv Hd Hk. unfold member_compact. simpl. rewrite <- app_assoc.
  apply FollowsKey; try done. simpl. apply FollowsColon; [done|]. by eapply Hv.
Qed.

Lemma tree_follows :
  (forall j l, value_text j l -> value_follows j l) /\
  (forall js l, elements_text js l -> elements_follow js l) /\
  (forall ms l, members_text ms l -> members_follow ms l).
Proof.
  apply text_mutual.
  - eapply scalar_follows; [right; by left|done..].
  - intros b. eapply scalar_follows; [left; by exists b|by destruct b..].
  - intros l Hl. eapply (scalar_follows _ _ (NumberToken, l)); [right; right; left; by exists l|done..].
  - intros s Hs. eapply (scalar_follows _ _ (string_lexeme sha256 false s)); [right; right; right; by exists s|done..].
  - intros w Hw x fs w0 k ts c Hx Hd Hw0 Hk. simpl in Hd. change (follows x (w0 ++ 91%Z :: (w ++ [93%Z]) ++ k) ((ArrayStart, [91%Z]) :: (ArrayEnd, [93%Z]) :: ts) (91%Z :: 93%Z :: c)).
    rewrite <- app_assoc. eapply FollowsArray; [done|unfold max_containers in *; lia|done|]. apply FollowsArrayEnd; auto.
  - intros js l Hl IH x fs w0 k ts c Hx Hd Hw0 Hk. simpl in Hd |- *. rewrite <- !app_assoc.
    eapply FollowsArray; [done|unfold max_containers in *; lia|done|]. apply IH; auto. lia.
  - intros w Hw x fs w0 k ts c Hx Hd Hw0 Hk. simpl in Hd. change (follows x (w0 ++ 123%Z :: (w ++ [125%Z]) ++ k) ((ObjectStart, [123%Z]) :: (ObjectEnd, [125%Z]) :: ts) (123%Z :: 125%Z :: c)).
    rewrite <- app_assoc. eapply FollowsObject; [done|unfold max_containers in *; lia|done|]. apply FollowsObjectEnd; auto.
  - intros ms l Hl IH x fs w0 k ts c Hx Hd Hw0 Hk. simpl in Hd |- *. rewrite <- !app_assoc.
    eapply FollowsObject; [done|unfold max_containers in *; lia|done|]. apply IH; auto. unfold members_depth. lia.
  - intros j w1 l w2 Hw1 _ IH Hw2 f fs k ts c Hf Hd Hk. unfold elements_lexemes, elements_compact. simpl in Hd |- *.
    rewrite !app_nil_r, <- ?app_assoc. apply (IH _ (ArrayNext :: fs)); [by apply after_array|simpl; lia|done|].
    apply FollowsArrayEnd; auto.
  - intros j w1 l w2 js k0 Hw1 _ IH Hw2 Hjs IHs f fs k ts c Hf Hd Hk. destruct js as [|j' js]; [by destruct (elements_nonempty _ _ Hjs)|].
    unfold elements_lexemes, elements_compact in *. simpl in Hd |- *. rewrite <- ?app_assoc. simpl. rewrite <- ?app_assoc.
    apply (IH _ (ArrayNext :: fs)); [by apply after_array|simpl; lia|done|].
    apply (FollowsComma _ _ ArrayValue); auto. specialize (IHs ArrayValue fs k ts c). unfold elements_lexemes, elements_compact in IHs.
    simpl in IHs. rewrite <- ?app_assoc in IHs. apply IHs; auto. lia.
  - intros s j w1 w2 w3 l w4 Hw1 Hs Hw2 Hw3 _ IH Hw4 f fs k ts c Hf Hd Hk. unfold members_lexemes, members_compact, members_depth in *.
    simpl in Hd |- *. rewrite !app_nil_r, <- ?app_assoc. simpl. rewrite <- ?app_assoc. apply member_follows; try done; [lia|].
    apply FollowsObjectEnd; auto.
  - intros s j w1 w2 w3 l w4 ms k0 Hw1 Hs Hw2 Hw3 _ IH Hw4 Hms IHs f fs k ts c Hf Hd Hk.
    destruct ms as [|m ms]; [by destruct (members_nonempty _ _ Hms)|]. unfold members_lexemes, members_compact, members_depth in *.
    simpl in Hd |- *. rewrite <- ?app_assoc. simpl. rewrite <- ?app_assoc. simpl. rewrite <- ?app_assoc.
    apply member_follows; try done; [lia|]. apply (FollowsComma _ _ ObjectKey); auto.
    specialize (IHs ObjectKey fs k ts c). unfold members_lexemes, members_compact, members_depth in IHs. simpl in IHs.
    rewrite <- ?app_assoc in IHs. apply IHs; auto. lia.
Qed.

(** ** From the left to a tree *)
(** How an open container goes on, up to its end: its text, its tokens, its text without
    white space; [n] containers are open around it. *)
Inductive elements_rest (n : nat) : list Z -> list Lexeme -> list Z -> Prop :=
| ElementsRest js l :
    elements_text js l -> list_max (map depth js) + S n <= max_containers ->
    elements_rest n (l ++ [93%Z]) (elements_lexemes js ++ [(ArrayEnd, [93%Z])]) (elements_compact js ++ [93%Z]).
Inductive members_rest (n : nat) : list Z -> list Lexeme -> list Z -> Prop :=
| MembersRest ms l :
    members_text ms l -> members_depth ms + S n <= max_containers ->
    members_rest n (l ++ [125%Z]) (members_lexemes ms ++ [(ObjectEnd, [125%Z])]) (members_compact ms ++ [125%Z]).

(** Behind an element or a member. *)
Inductive next_rest (end_ : Lexeme) (more : list Z -> list Lexeme -> list Z -> Prop) : list Z -> list Lexeme -> list Z -> Prop :=
| RestEnds w : blank w -> next_rest end_ more (w ++ end_.2) [end_] end_.2
| RestMore w l ts c : blank w -> more l ts c -> next_rest end_ more (w ++ 44%Z :: l) ts (44%Z :: c).

Definition array_end : Lexeme := (ArrayEnd, [93%Z]).
Definition object_end : Lexeme := (ObjectEnd, [125%Z]).

(** A value, and what comes behind it. *)
Inductive value_then (n : nat) (more : list Z -> list Lexeme -> list Z -> Prop) : list Z -> list Lexeme -> list Z -> Prop :=
| ValueThen j w l k ts c :
    blank w -> value_text j l -> depth j + n <= max_containers -> more k ts c ->
    value_then n more (w ++ l ++ k) (lexemes j ++ ts) (compact j ++ c).

Inductive colon_then (n : nat) : list Z -> list Lexeme -> list Z -> Prop :=
| ColonThen w l ts c :
    blank w -> value_then (S n) (next_rest object_end (members_rest n)) l ts c -> colon_then n (w ++ 58%Z :: l) ts (58%Z :: c).

Definition container_rest (f : Frame) (n : nat) : list Z -> list Lexeme -> list Z -> Prop :=
  match f with
  | ArrayFirst => fun l ts c => (exists w, blank w /\ l = w ++ [93%Z] /\ ts = [array_end] /\ c = [93%Z]) \/ elements_rest n l ts c
  | ArrayValue => elements_rest n
  | ArrayNext => next_rest array_end (elements_rest n)
  | ObjectFirst => fun l ts c => (exists w, blank w /\ l = w ++ [125%Z] /\ ts = [object_end] /\ c = [125%Z]) \/ members_rest n l ts c
  | ObjectKey => members_rest n
  | Colon => colon_then n
  | ObjectValue => value_then (S n) (next_rest object_end (members_rest n))
  | ObjectNext => next_rest object_end (members_rest n)
  end.

(** The same, followed by what comes behind the container. *)
Inductive closes (f : Frame) (fs : list Frame) : list Z -> list Lexeme -> list Z -> Prop :=
| Closes l ts c k ts' c' :
    container_rest f (length fs) l ts c -> l <> [] -> follows (Within fs) k ts' c' ->
    closes f fs (l ++ k) (ts ++ ts') (c ++ c').

Lemma elements_one n j w l k ts c :
  blank w -> value_text j l -> depth j + S n <= max_containers -> next_rest array_end (elements_rest n) k ts c ->
  elements_rest n (w ++ l ++ k) (lexemes j ++ ts) (compact j ++ c).
Proof.
  intros Hw Hl Hd Hr. destruct Hr as [w' Hw'|w' k ts c Hw' [js e He Hde]].
  - pose proof (ElementsRest n [j] (w ++ l ++ w')) as H. unfold elements_lexemes, elements_compact in H. simpl in H.
    rewrite !app_nil_r, <- !app_assoc in H. apply H; [by constructor|lia].
  - pose proof (ElementsRest n (j :: js) (w ++ l ++ w' ++ 44%Z :: e)) as H.
    unfold elements_lexemes, elements_compact in *. destruct js as [|j' js]; [by destruct (elements_nonempty _ _ He)|].
    simpl in H. rewrite <- ?app_assoc in H. simpl in H. rewrite <- ?app_assoc in H. simpl. rewrite <- ?app_assoc.
    simpl in Hde. apply H; [by constructor|lia].
Qed.

Lemma members_one n s j w1 w2 w3 l k ts c :
  blank w1 -> string_text s -> blank w2 -> blank w3 -> value_text j l -> depth j + S n <= max_containers ->
  next_rest object_end (members_rest n) k ts c ->
  members_rest n (w1 ++ str_text s ++ w2 ++ 58%Z :: w3 ++ l ++ k) (string_lexeme sha256 true s :: lexemes j ++ ts)
    (str_text s ++ 58%Z :: compact j ++ c).
Proof.
  intros Hw1 Hs Hw2 Hw3 Hl Hd Hr. destruct Hr as [w' Hw'|w' k ts c Hw' [ms e He Hde]].
  - pose proof (MembersRest n [(s, j)] (w1 ++ str_text s ++ w2 ++ 58%Z :: w3 ++ l ++ w')) as H.
    unfold members_lexemes, members_compact, members_depth, member_compact in H. simpl in H.
    rewrite ?app_nil_r, <- ?app_assoc in H. simpl in H. rewrite <- ?app_assoc in H. apply H; [by constructor|lia].
  - pose proof (MembersRest n ((s, j) :: ms) (w1 ++ str_text s ++ w2 ++ 58%Z :: w3 ++ l ++ w' ++ 44%Z :: e)) as H.
    unfold members_lexemes, members_compact, members_depth, member_compact in *.
    destruct ms as [|m ms]; [by destruct (members_nonempty _ _ He)|].
    simpl in H. rewrite <- ?app_assoc in H. simpl in H. rewrite <- ?app_assoc in H. simpl in H. rewrite <- ?app_assoc in H.
    simpl. rewrite <- ?app_assoc. simpl in Hde. apply H; [by constructor|lia].
Qed.

Lemma number_nonempty l : number_text l -> l <> [].
Proof.
  intros (minus & i & f & e & -> & _ & Hi & _ & _) E. destruct minus; [|done]. by destruct Hi as [->|(d & ds & -> & _)].
Qed.
Lemma value_nonempty j l : value_text j l -> l <> [].
Proof.
  destruct 1; try done.
  - by destruct b.
  - by apply number_nonempty.
  - by destruct H as (body & -> & _).
Qed.

(** A value at a place, provided that shorter texts close their containers. *)
Definition close_below (n : nat) : Prop :=
  forall f fs l ts c, length l < n -> S (length fs) <= max_containers -> follows (Within (f :: fs)) l ts c -> closes f fs l ts c.

Inductive value_here (fs : list Frame) : list Z -> list Lexeme -> list Z -> Prop :=
| ValueHere j w v k ts c :
    blank w -> value_text j v -> depth j + length fs <= max_containers -> follows (Within fs) k ts c ->
    value_here fs (w ++ v ++ k) (lexemes j ++ ts) (compact j ++ c).

Lemma scalar_json t : scalar_lexeme sha256 t -> exists j, value_text j t.2 /\ lexemes j = [t] /\ compact j = t.2 /\ depth j = 0.
Proof.
  intros [(b & ->)|[->|[(n & -> & Hn)|(s & -> & Hs)]]].
  - exists (JBool b). split; [constructor|by destruct b].
  - exists JNull. split; [constructor|done].
  - exists (JNumber n). split; [by constructor|done].
  - exists (JString s). split; [by constructor|done].
Qed.

Lemma close_value x fs l ts c :
  close_below (length l) -> after_value x = Some (Within fs) -> length fs <= max_containers -> follows x l ts c ->
  value_here fs l ts c \/
  exists fs' w k ts' c', x = Within (ArrayFirst :: fs') /\ l = w ++ 93%Z :: k /\ blank w /\ ts = array_end :: ts' /\ c = 93%Z :: c' /\
    follows (Within fs') k ts' c'.
Proof.
  intros IH Hx Hlen Hf. destruct Hf as [w Hw|x y w t l ts c Hy Hw Ht Hl|x fs' w l ts c Hy Hd Hw Hl|x fs' w l ts c Hy Hd Hw Hl
    |f fs' w s l ts c Hf Hw Hs Hl|fs' w l ts c Hw Hl|f g fs' w l ts c Hf Hw Hl|f fs' w l ts c Hf Hw Hl|f fs' w l ts c Hf Hw Hl].
  - done.
  - left. rewrite Hx in Hy. injection Hy as <-. destruct (scalar_json _ Ht) as (j & Hv & Ej & Ec & Ed).
    change (t :: ts) with ([t] ++ ts). rewrite <- Ej, <- Ec at 1. rewrite <- Ec at 1.
    pose proof (ValueHere fs j w t.2 l ts c Hw Hv) as H. rewrite Ec in *. apply H; [lia|done].
  - left. rewrite Hx in Hy. injection Hy as <-.
    assert (closes ArrayFirst fs l ts c) as Hcl by (apply IH; [rewrite length_app; simpl; lia|lia|done]).
    destruct Hcl as [b tb cb k ts c [(w' & Hw' & -> & -> & ->)|[js e He Hde]] _ Hk].
    + pose proof (ValueHere fs (JArray []) w (91%Z :: w' ++ [93%Z]) k ts c Hw) as H. simpl in H.
      rewrite <- !app_assoc in *. apply H; [by constructor|unfold max_containers in *; lia|done].
    + pose proof (ValueHere fs (JArray js) w (91%Z :: e ++ [93%Z]) k ts c Hw) as H. simpl in H.
      rewrite <- !app_assoc in *. apply H; [by constructor|lia|done].
  - left. rewrite Hx in Hy. injection Hy as <-.
    assert (closes ObjectFirst fs l ts c) as Hcl by (apply IH; [rewrite length_app; simpl; lia|lia|done]).
    destruct Hcl as [b tb cb k ts c [(w' & Hw' & -> & -> & ->)|[ms e He Hde]] _ Hk].
    + pose proof (ValueHere fs (JObject []) w (123%Z :: w' ++ [125%Z]) k ts c Hw) as H. simpl in H.
      rewrite <- !app_assoc in *. apply H; [by constructor|unfold max_containers in *; lia|done].
    + pose proof (ValueHere fs (JObject ms) w (123%Z :: e ++ [125%Z]) k ts c Hw) as H. simpl in H.
      rewrite <- !app_assoc in *. apply H; [by constructor|unfold members_depth in *; lia|done].
  - by destruct Hf as [-> | ->].
  - done.
  - by destruct Hf as [[-> _]|[-> _]].
  - by destruct Hf as [-> | ->].
  - destruct Hf as [-> | ->]; [|done]. right. by exists fs', w, l, ts, c.
Qed.

Lemma text_app_nonempty (a b : list Z) : b <> [] -> a ++ b <> [].
Proof. intros Hb [_ ?]%app_eq_nil. done. Qed.

(** What closes behind a value. *)
Lemma closes_value f g fs l ts c :
  close_below (length l) -> S (length fs) <= max_containers -> value_here (g :: fs) l ts c ->
  (forall j w v k ts' c', blank w -> value_text j v -> depth j + S (length fs) <= max_containers ->
     container_rest g (length fs) k ts' c' -> container_rest f (length fs) (w ++ v ++ k) (lexemes j ++ ts') (compact j ++ c')) ->
  closes f fs l ts c.
Proof.
  intros IH Hlen Hvh Hrest. inversion Hvh as [j w v k ts' c' Hw Hv Hd Hk E1 E2 E3]. subst l ts c. pose proof (value_nonempty _ _ Hv) as Hne.
  assert (closes g fs k ts' c') as Hcl.
  { apply IH; [|done|done]. rewrite !length_app. destruct v; [done|]. simpl. lia. }
  destruct Hcl as [b tb cb k ts' c' Hb _ Hk'].
  replace (w ++ v ++ b ++ k) with ((w ++ v ++ b) ++ k) by (by rewrite <- !app_assoc). rewrite !(app_assoc _ _ ts'), !(app_assoc _ _ c').
  constructor; [by apply Hrest|by apply text_app_nonempty; destruct v|done].
Qed.

Lemma follows_close n : close_below n.
Proof.
  induction n as [|n IH]; intros f fs l ts c Hl Hlen Hf; [lia|].
  assert (close_below (length l)) as Hbelow.
  { intros f' fs' l' ts' c' Hl'. apply IH. lia. }
  assert (forall e, e = array_end \/ e = object_end -> forall w k ts' c', blank w -> follows (Within fs) k ts' c' ->
    container_rest f (length fs) (w ++ e.2) [e] e.2 -> closes f fs (w ++ e.2 ++ k) (e :: ts') (e.2 ++ c')) as Hend.
  { intros e He w k ts' c' Hw Hk Hc. rewrite app_assoc. apply (Closes _ _ _ [e]); [done| |done].
    apply text_app_nonempty. by destruct He as [-> | ->]. }
  destruct (after_value (Within (f :: fs))) as [[|gs]|] eqn:Hx.
  - by destruct f.
  - assert (length gs <= max_containers) as Hgs by (destruct f; simplify_eq/=; lia).
    destruct (close_value _ _ _ _ _ Hbelow Hx Hgs Hf) as [Hv|(fs' & w & k & ts' & c' & [= -> ->] & -> & Hw & -> & -> & Hk)].
    + destruct f; simplify_eq/=; (eapply closes_value; [done|done|done|]); intros j w v k ts' c' Hw Hv' Hd Hr; simpl in *.
      * by constructor.
      * right. by apply elements_one.
      * by apply elements_one.
    + apply (Hend array_end); auto. simpl. left. by exists w.
  - inversion Hf as [|? y ? t ? ? ? Hy|? ? ? ? ? ? Hy|? ? ? ? ? ? Hy|f' fs' w s k ts' c' Hf' Hw Hs Hk|fs' w k ts' c' Hw Hk
      |f' g fs' w k ts' c' Hfg Hw Hk|f' fs' w k ts' c' Hf' Hw Hk|f' fs' w k ts' c' Hf' Hw Hk]; subst; try congruence.
    + assert (closes Colon fs k ts' c') as Hcl.
      { apply Hbelow; [|done|done]. destruct Hs as (body & -> & _). rewrite !length_app. simpl. lia. }
      destruct Hcl as [b tb cb k ts' c' [w2 b1 tb1 cb1 Hw2 [j w3 v b2 tb2 cb2 Hw3 Hv Hd Hr]] _ Hk'].
      pose proof (members_one _ s j w w2 w3 v b2 tb2 cb2 Hw Hs Hw2 Hw3 Hv Hd Hr) as Hone.
      assert (container_rest f (length fs) (w ++ str_text s ++ w2 ++ 58%Z :: w3 ++ v ++ b2)
        (string_lexeme sha256 true s :: lexemes j ++ tb2) (str_text s ++ 58%Z :: compact j ++ cb2)) as Hrest
        by (destruct Hf' as [-> | ->]; [by right|done]).
      pose proof (Closes f fs _ _ _ k ts' c' Hrest) as Hc. repeat (rewrite <- ?app_assoc in Hc; simpl in Hc).
      repeat (rewrite <- ?app_assoc; simpl). apply Hc; [|done]. apply text_app_nonempty. by destruct Hs as (? & -> & _).
    + assert (closes ObjectValue fs k ts c') as Hcl by (apply Hbelow; [rewrite length_app; simpl; lia|done|done]).
      destruct Hcl as [b tb cb k ts' c' Hb _ Hk']. rewrite !app_comm_cons, (app_assoc w).
      constructor; [by constructor|by apply text_app_nonempty|done].
    + assert (closes g fs k ts c') as Hcl by (apply Hbelow; [rewrite length_app; simpl; lia|done|done]).
      destruct Hcl as [b tb cb k ts' c' Hb _ Hk']. rewrite !app_comm_cons, (app_assoc w).
      constructor; [|by apply text_app_nonempty|done]. by destruct Hfg as [[-> ->]|[-> ->]]; constructor.
    + apply (Hend object_end); auto. destruct Hf' as [-> | ->]; simpl; [left; by exists w|by constructor].
    + apply (Hend array_end); auto. destruct Hf' as [-> | ->]; simpl; [left; by exists w|by constructor].
Qed.

(** The grammar read from the left is the grammar of the trees. *)
Lemma follows_tree l ts c :
  follows Before l ts c <-> exists j, document_text j l /\ depth j <= max_containers /\ ts = lexemes j /\ c = compact j.
Proof.
  split.
  - intros Hf. destruct (close_value Before [] l ts c) as [Hv|(? & ? & ? & ? & ? & ? & _)]; try done; [apply follows_close|simpl; lia|].
    destruct Hv as [j w v k ts c Hw Hv Hd Hk]. simpl in Hd. inversion Hk as [w2 Hw2 | | | | | | | |]; subst; try done.
    exists j. rewrite !app_nil_r. split_and!; try done; [by exists w, v, k|lia].
  - intros (j & (w1 & v & w2 & -> & Hw1 & Hv & Hw2) & Hd & -> & ->).
    destruct tree_follows as [Hval _]. specialize (Hval j v Hv Before [] w1 w2 [] [] eq_refl). rewrite !app_nil_r in Hval.
    apply Hval; [simpl; lia|done|by constructor].
Qed.
End tree.
