(* ===== verification/JsonLexer.v ===== *)
(** * The lexemes that the JSON reader takes

    The reader byte by byte first.  Then each operation of [JsonReader] on the bytes of one
    lexeme takes a text of the grammar, whatever the input holds, and takes a text that is
    there without an error. *)
From S2P Require Import Prelude Order Bytes Budget JsonReader JsonGrammar.

(** ** Readers and what they have read *)
(** [Read::read] answers no bytes only at the end of the input. *)
Definition live (o : ReadOutcome) : Prop := match o with ReadOk b => b <> [] | _ => True end.

Record ready (r : Reader) : Prop := {
  ready_cursor : cursor r <= length (buffer r);
  ready_input : Forall live (input r);
  ready_offset : (0 <= offset r)%Z;
  ready_bound : (offset r + Z.of_nat (length (rest r)) <= u64_max)%Z
}.

(** [l] has been read, and [c] of it goes to the compact digest. *)
Record advanced (r r' : Reader) (l c : list Z) : Prop := {
  adv_ready : ready r';
  adv_rest : rest r = l ++ rest r';
  adv_offset : offset r' = (offset r + Z.of_nat (length l))%Z;
  adv_raw : raw_hash r' = raw_hash r ++ l;
  adv_compact : compact_hash r' = compact_hash r ++ c;
  adv_frames : frames r' = frames r;
  adv_started : started r' = started r;
  adv_failed : failed r' = failed r
}.

Lemma advanced_refl r : ready r -> advanced r r [] [].
Proof. intros Hr. constructor; rewrite ?app_nil_r; try done. simpl. lia. Qed.

Lemma advanced_trans r1 r2 r3 l1 l2 c1 c2 :
  advanced r1 r2 l1 c1 -> advanced r2 r3 l2 c2 -> advanced r1 r3 (l1 ++ l2) (c1 ++ c2).
Proof.
  intros [_ E1 O1 R1 C1 F1 S1 X1] [Hr E2 O2 R2 C2 F2 S2 X2]. constructor; try congruence; try done.
  - by rewrite E1, E2, app_assoc.
  - rewrite O2, O1, length_app. lia.
  - by rewrite R2, R1, app_assoc.
  - by rewrite C2, C1, app_assoc.
Qed.

(** ** Weakest preconditions *)
(** [m] ends with [Q], or with an error of the input, or with one that [E] allows. *)
Definition leads {A} (E : JsonFailure -> Prop) (m : M A) (r : Reader) (Q : A -> Reader -> Prop) : Prop :=
  match m r with
  | Some (Ok a, r') => (forall o, o ∈ input r' -> o ∈ input r) /\ Q a r'
  | Some (Err e, r') => E e \/ exists k, e = IoFailure k /\ ReadErr k ∈ input r
  | None => False
  end.

Definition never (e : JsonFailure) : Prop := False.
Definition syntax (e : JsonFailure) : Prop := e = MalformedJson \/ e = LoaderDepthExceeded.

Section leads.
Context (E : JsonFailure -> Prop).

Lemma leads_ret {A} (a : A) r (Q : A -> Reader -> Prop) : Q a r -> leads E (mret a) r Q.
Proof. by split. Qed.
Lemma leads_get r (Q : Reader -> Reader -> Prop) : Q r r -> leads E get r Q.
Proof. by split. Qed.
Lemma leads_fail {A} e r (Q : A -> Reader -> Prop) : E e -> leads E (fail e) r Q.
Proof. by left. Qed.
Lemma leads_modify f r (Q : () -> Reader -> Prop) : input (f r) = input r -> Q () (f r) -> leads E (modify f) r Q.
Proof. intros Hi HQ. split; [by rewrite Hi|done]. Qed.

Lemma leads_bind {A B} (m : M A) (k : A -> M B) r Q : leads E m r (fun a r' => leads E (k a) r' Q) -> leads E (m ≫= k) r Q.
Proof.
  unfold leads, mbind, M_bind. destruct (m r) as [[[a|e] r1]|]; try done. intros [Hi Hk].
  destruct (k a r1) as [[[b|e] r2]|]; [|by destruct Hk as [?|(kind & ? & ?)]; [left|right; eauto]|done].
  destruct Hk as [Hi2 HQ]. split; [by auto|done].
Qed.

Lemma leads_mono {A} (m : M A) r (Q Q' : A -> Reader -> Prop) : leads E m r Q -> (forall a r', Q a r' -> Q' a r') -> leads E m r Q'.
Proof. unfold leads. destruct (m r) as [[[a|e] r1]|]; try done. intros [Hi HQ] H. split; [done|by apply H]. Qed.

(** *** Bytes *)
Lemma refill_spec i :
  Forall live i ->
  match refill i with
  | (Ok b, i') => Forall live i' /\ b ++ (i' ≫= outcome_bytes) = (i ≫= outcome_bytes) /\
      (b = [] -> i' = []) /\ forall o, o ∈ i' -> o ∈ i
  | (Err e, i') => exists k, e = IoFailure k /\ ReadErr k ∈ i
  end.
Proof.
  induction 1 as [|o i Ho Hi IH]; [done|]. destruct o as [b| |k]; simpl.
  - split_and!; try done. intros o Ho'. by right.
  - destruct (refill i) as [[b|e] i']; [|destruct IH as (k & -> & ?); exists k; split; [done|by right]].
    destruct IH as (? & ? & ? & Hin). split_and!; try done. intros o Ho'. right. by apply Hin.
  - exists k. split; [done|left].
Qed.

Lemma leads_peek r (Q : option Z -> Reader -> Prop) :
  ready r -> (forall r', advanced r r' [] [] -> (rest r <> [] -> cursor r' < length (buffer r')) -> Q (head (rest r)) r') -> leads E peek r Q.
Proof.
  intros [Hc Hi Ho Hb] HQ. unfold leads, peek. destruct (decide _) as [Heq|Hne].
  - pose proof (refill_spec _ Hi) as Hf. destruct (refill (input r)) as [[b|e] i]; [|by right].
    destruct Hf as (Hi' & Hrest & Hend & Hin). split; [done|].
    assert (rest (set_buffer r i b 0) = rest r) as Er.
    { unfold rest. simpl. rewrite Heq, drop_all. simpl. by rewrite drop_0. }
    assert (head (rest r) = head b) as Hh.
    { unfold rest. rewrite Heq, drop_all. simpl. rewrite <- Hrest. destruct b; [by rewrite (Hend eq_refl)|done]. }
    rewrite <- Hh. apply HQ.
    + constructor; simpl; rewrite ?app_nil_r; try done; [|lia]. constructor; simpl; try done; [lia|by rewrite Er].
    + simpl. rewrite <- Er. unfold rest. simpl. destruct b; [rewrite (Hend eq_refl); done|simpl; lia].
  - assert (cursor r < length (buffer r)) as Hlt by lia. apply lookup_lt_is_Some in Hlt as [x Hx]. split; [done|].
    assert (head (rest r) = Some x) as Hh by (unfold rest; by rewrite (drop_S _ x)). rewrite Hx, <- Hh.
    apply HQ; [by apply advanced_refl|]. intros _. by eapply lookup_lt_Some.
Qed.

Lemma leads_byte_some (compact : bool) r b k (Q : Z -> Reader -> Prop) :
  ready r -> rest r = b :: k -> (forall r', advanced r r' [b] (if compact then [b] else []) -> Q b r') -> leads E (byte compact) r Q.
Proof.
  intros Hr Hrest HQ. unfold byte. apply leads_bind, leads_peek; [done|]. intros r1 H1 Hc. rewrite Hrest. simpl. apply leads_bind, leads_get.
  pose proof (adv_ready _ _ _ _ H1) as [Hcur Hi Ho Hb]. pose proof (adv_rest _ _ _ _ H1) as Hr1. simpl in Hr1. rewrite <- Hr1, Hrest in Hb.
  simpl in Hb. unfold checked_add_u64. rewrite decide_True by lia. apply leads_bind, leads_modify; [done|]. apply leads_ret. apply HQ.
  assert (drop (cursor r1) (buffer r1) = b :: drop (S (cursor r1)) (buffer r1)) as Hd.
  { rewrite Hrest in Hc. specialize (Hc ltac:(done)). apply lookup_lt_is_Some in Hc as [x Hx]. rewrite (drop_S _ x) by done.
    rewrite Hrest in Hr1. unfold rest in Hr1. rewrite (drop_S _ x) in Hr1 by done. by injection Hr1 as <-. }
  assert (rest r = [b] ++ rest (consume b compact r1)) as Er.
  { rewrite Hr1. unfold rest. simpl. by rewrite Hd. }
  destruct H1 as [_ _ O1 R1 C1 F1 S1 X1]. simpl in O1. rewrite app_nil_r in R1, C1. constructor; simpl; try congruence; try done.
  - constructor; simpl; try done; [|lia|].
    + rewrite Hrest in Hc. specialize (Hc ltac:(done)). lia.
    + rewrite Hrest in Er. injection Er as ->. lia.
  - lia.
  - rewrite C1. by destruct compact; rewrite ?app_nil_r.
Qed.

Lemma leads_byte (compact : bool) r (Q : Z -> Reader -> Prop) :
  ready r -> E MalformedJson -> (forall b r', advanced r r' [b] (if compact then [b] else []) -> Q b r') -> leads E (byte compact) r Q.
Proof.
  intros Hr He HQ. destruct (rest r) as [|b k] eqn:Hrest; [|eapply leads_byte_some; eauto].
  unfold byte. apply leads_bind, leads_peek; [done|]. intros r1 _ _. rewrite Hrest. by apply leads_fail.
Qed.

(** Everything up to the first byte that does not satisfy [p]. *)
Definition stops (p : Z -> bool) (l : list Z) : Prop := match l with [] => True | b :: _ => p b = false end.

Lemma leads_skip_loop p (compact : bool) fuel r (Q : () -> Reader -> Prop) :
  ready r -> length (rest r) < fuel ->
  (forall l r', advanced r r' l (if compact then l else []) -> Forall (fun b => p b = true) l -> stops p (rest r') -> Q () r') ->
  leads E (skip_while p compact fuel) r Q.
Proof.
  revert r Q. induction fuel as [|fuel IH]; intros r Q Hr Hf HQ; [lia|]. simpl. apply leads_bind, leads_peek; [done|]. intros r1 H1 _.
  pose proof (adv_ready _ _ _ _ H1) as Hr1. pose proof (adv_rest _ _ _ _ H1) as E1. simpl in E1.
  destruct (rest r) as [|b k] eqn:Hrest; simpl.
  - apply leads_ret, (HQ []); [by destruct compact|done|by rewrite <- E1].
  - destruct (p b) eqn:Hp; [|apply leads_ret, (HQ []); [by destruct compact|done|by rewrite <- E1]].
    apply leads_bind. eapply leads_byte_some; [done|by rewrite <- E1|]. intros r2 H2.
    pose proof (advanced_trans _ _ _ _ _ _ _ H1 H2) as H12. simpl in H12. pose proof (adv_rest _ _ _ _ H12) as E2.
    apply IH; [by destruct H2|rewrite Hrest in E2; simpl in E2; injection E2 as E2; rewrite <- E2; simpl in Hf; lia|].
    intros l r3 H3 Hl Hs. apply (HQ (b :: l)); [|by constructor|done].
    pose proof (advanced_trans _ _ _ _ _ _ _ H12 H3) as H13. by destruct compact.
Qed.

Lemma leads_whitespace r (Q : () -> Reader -> Prop) :
  ready r -> (forall w r', advanced r r' w [] -> blank w -> stops is_blank (rest r') -> Q () r') -> leads E whitespace r Q.
Proof. intros Hr HQ. unfold whitespace, with_fuel. apply (leads_skip_loop is_blank false); [done|lia|]. done. Qed.

Lemma leads_digits r (Q : () -> Reader -> Prop) :
  ready r -> (forall l r', advanced r r' l l -> Forall (fun b => is_digit b = true) l -> stops is_digit (rest r') -> Q () r') -> leads E digits r Q.
Proof. intros Hr HQ. unfold digits, with_fuel. apply (leads_skip_loop is_digit true); [done|lia|]. done. Qed.
End leads.


Lemma advanced_left r r' l c k : advanced r r' l c -> rest r = l ++ k -> rest r' = k.
Proof. intros [_ H _ _ _ _ _ _] E. rewrite H in E. by apply app_inv_head in E. Qed.

Ltac chain H1 H2 H := pose proof (advanced_trans _ _ _ _ _ _ _ H1 H2) as H; clear H1 H2.

(** The longest run of [p] is determined. *)
Lemma run_unique (p : Z -> bool) l k l' k' :
  l ++ k = l' ++ k' -> Forall (fun b => p b = true) l -> stops p k -> Forall (fun b => p b = true) l' -> stops p k' ->
  l = l' /\ k = k'.
Proof.
  revert l'. induction l as [|b l IH]; intros [|b' l'] E H1 H2 H3 H4; simpl in *; [done| | |].
  - subst k. simpl in H2. apply Forall_inv in H3. congruence.
  - subst k'. simpl in H4. apply Forall_inv in H1. congruence.
  - injection E as -> E. inversion_clear H1. inversion_clear H3. destruct (IH l' E) as [-> ->]; done.
Qed.

Section lexer.
Context (E : JsonFailure -> Prop).

(** ** Fixed bytes *)
Lemma leads_expected b r Q :
  ready r -> E MalformedJson -> (forall r', advanced r r' [b] [b] -> Q () r') -> leads E (expected b) r Q.
Proof.
  intros Hr He HQ. apply leads_bind, leads_byte; [done..|]. intros x r1 H1. simpl in H1.
  destruct (Z.eqb_spec x b) as [->|_]; [by apply leads_ret, HQ|by apply leads_fail].
Qed.

Lemma leads_expected_ok b k r Q :
  ready r -> rest r = b :: k -> (forall r', advanced r r' [b] [b] -> Q () r') -> leads E (expected b) r Q.
Proof.
  intros Hr Hk HQ. apply leads_bind. eapply leads_byte_some; [done..|]. intros r1 H1. simpl in H1.
  rewrite Z.eqb_refl. by apply leads_ret, HQ.
Qed.

Lemma leads_expect_all l r Q :
  ready r -> E MalformedJson -> (forall r', advanced r r' l l -> Q () r') -> leads E (expect_all l) r Q.
Proof.
  revert r Q. induction l as [|b l IH]; intros r Q Hr He HQ; simpl; [apply leads_ret, HQ; by apply advanced_refl|].
  apply leads_bind, leads_expected; [done..|]. intros r1 H1. apply IH; [by destruct H1|done|]. intros r2 H2.
  apply HQ. by chain H1 H2 H.
Qed.

Lemma leads_expect_all_ok l k r Q :
  ready r -> rest r = l ++ k -> (forall r', advanced r r' l l -> Q () r') -> leads E (expect_all l) r Q.
Proof.
  revert r Q. induction l as [|b l IH]; intros r Q Hr Hk HQ; simpl; [apply leads_ret, HQ; by apply advanced_refl|].
  apply leads_bind. eapply leads_expected_ok; [done..|]. intros r1 H1. apply IH; [by destruct H1| |].
  - by eapply advanced_left.
  - intros r2 H2. apply HQ. by chain H1 H2 H.
Qed.

Lemma leads_bytes_loop n r Q :
  ready r -> E MalformedJson -> (forall l r', length l = n -> advanced r r' l l -> Q l r') -> leads E (bytes_loop n) r Q.
Proof.
  revert r Q. induction n as [|n IH]; intros r Q Hr He HQ; simpl; [apply leads_ret, HQ; [done|by apply advanced_refl]|].
  apply leads_bind, leads_byte; [done..|]. intros b r1 H1. simpl in H1. apply leads_bind, IH; [by destruct H1|done|].
  intros l r2 Hl H2. apply leads_ret, HQ; [simpl; by rewrite Hl|]. by chain H1 H2 H.
Qed.

Lemma leads_bytes_loop_ok n l k r Q :
  ready r -> rest r = l ++ k -> length l = n -> (forall r', advanced r r' l l -> Q l r') -> leads E (bytes_loop n) r Q.
Proof.
  revert l r Q. induction n as [|n IH]; intros [|b l] r Q Hr Hk Hl HQ; try discriminate Hl; simpl;
    [apply leads_ret, HQ; by apply advanced_refl|].
  apply leads_bind. eapply leads_byte_some; [done..|]. intros r1 H1. simpl in H1. apply leads_bind, (IH l); [by destruct H1| | |].
  - by eapply advanced_left.
  - simpl in Hl. lia.
  - intros r2 H2. apply leads_ret, HQ. by chain H1 H2 H.
Qed.

Lemma leads_digits_ok ds k r Q :
  ready r -> rest r = ds ++ k -> Forall (fun b => is_digit b = true) ds -> stops is_digit k ->
  (forall r', advanced r r' ds ds -> Q () r') -> leads E digits r Q.
Proof.
  intros Hr Hk Hd Hs HQ. apply leads_digits; [done|]. intros l r' H Hl Hst. apply HQ.
  pose proof (adv_rest _ _ _ _ H) as Er. rewrite Hk in Er. apply (run_unique is_digit) in Er as [-> _]; done.
Qed.

Lemma leads_whitespace_ok w k r Q :
  ready r -> rest r = w ++ k -> blank w -> stops is_blank k -> (forall r', advanced r r' w [] -> Q () r') ->
  leads E whitespace r Q.
Proof.
  intros Hr Hk Hd Hs HQ. apply leads_whitespace; [done|]. intros l r' H Hl Hst. apply HQ.
  pose proof (adv_rest _ _ _ _ H) as Er. rewrite Hk in Er. apply (run_unique is_blank) in Er as [-> _]; done.
Qed.

(** ** Escapes *)
Definition hex_from (v : Z) (l : list Z) : option Z :=
  foldl (fun v b => v ≫= fun v => d ← hex_digit b; Some (v * 16 + d)%Z) (Some v) l.

Lemma hex_from_none l : foldl (fun v b => v ≫= fun v => d ← hex_digit b; Some (v * 16 + d)%Z) None l = None.
Proof. by induction l. Qed.
Lemma hex_from_cons v b l : hex_from v (b :: l) = match hex_digit b with Some d => hex_from (v * 16 + d) l | None => None end.
Proof. unfold hex_from. simpl. destruct (hex_digit b); [done|apply hex_from_none]. Qed.

Lemma leads_hex_loop n v r Q :
  ready r -> E MalformedJson -> (forall l c r', length l = n -> hex_from v l = Some c -> advanced r r' l l -> Q c r') ->
  leads E (hex_loop n v) r Q.
Proof.
  revert v r Q. induction n as [|n IH]; intros v r Q Hr He HQ; simpl; [apply leads_ret, (HQ []); [done..|by apply advanced_refl]|].
  apply leads_bind, leads_byte; [done..|]. intros b r1 H1. simpl in H1. destruct (hex_digit b) as [d|] eqn:Hd; [|by apply leads_fail].
  apply IH; [by destruct H1|done|]. intros l c r2 Hl Hc H2. chain H1 H2 H.
  apply (HQ (b :: l)); [simpl; by rewrite Hl|by rewrite hex_from_cons, Hd|done].
Qed.

Lemma leads_hex_loop_ok n v l k c r Q :
  ready r -> rest r = l ++ k -> length l = n -> hex_from v l = Some c -> (forall r', advanced r r' l l -> Q c r') ->
  leads E (hex_loop n v) r Q.
Proof.
  revert v l r Q. induction n as [|n IH]; intros v [|b l] r Q Hr Hk Hl Hc HQ; try discriminate Hl; simpl.
  { injection Hc as <-. apply leads_ret, HQ. by apply advanced_refl. }
  apply leads_bind. eapply leads_byte_some; [done..|]. intros r1 H1. simpl in H1. rewrite hex_from_cons in Hc.
  destruct (hex_digit b) as [d|]; [|done]. apply (IH _ l); [by destruct H1|by eapply advanced_left|simpl in Hl; lia|done|].
  intros r2 H2. apply HQ. by chain H1 H2 H.
Qed.

Lemma leads_hex4 r Q :
  ready r -> E MalformedJson -> (forall l c r', hex_code l c -> advanced r r' l l -> Q c r') -> leads E hex4 r Q.
Proof. intros Hr He HQ. apply leads_hex_loop; [done..|]. intros l c r' Hl Hc H. by apply (HQ l). Qed.
Lemma leads_hex4_ok l k c r Q :
  ready r -> rest r = l ++ k -> hex_code l c -> (forall r', advanced r r' l l -> Q c r') -> leads E hex4 r Q.
Proof. intros Hr Hk [Hl Hc] HQ. by eapply (leads_hex_loop_ok 4 0 l k). Qed.

(** The characters behind [\u]: their bytes, and the scalar value. *)
Inductive unicode_text : list Z -> Z -> Prop :=
| UnicodePlain hs c : hex_code hs c -> is_scalar c -> unicode_text hs c
| UnicodePair hs1 hs2 high low :
    hex_code hs1 high -> (55296 <= high <= 56319)%Z -> hex_code hs2 low -> (56320 <= low <= 57343)%Z ->
    unicode_text (hs1 ++ 92%Z :: 117%Z :: hs2) (65536 + (high - 55296) * 1024 + (low - 56320)).

Lemma unicode_scalar l c : unicode_text l c -> is_scalar c.
Proof. intros [hs c' _ ?|hs1 hs2 high low _ ? _ ?]; [done|]. unfold is_scalar. lia. Qed.
Lemma unicode_char l c : unicode_text l c -> string_char (92 :: 117 :: l)%Z (encode_utf8 c) false.
Proof. intros [hs c' ? ?|hs1 hs2 high low ? ? ? ?]; by constructor. Qed.

Lemma scalar_value_spec c : scalar_value c = true <-> is_scalar c.
Proof. unfold scalar_value, is_scalar. rewrite orb_true_iff, !in_range_spec. lia. Qed.

Lemma leads_unicode_escape r Q :
  ready r -> E MalformedJson -> (forall l c r', unicode_text l c -> advanced r r' l l -> Q c r') ->
  leads E unicode_escape r Q.
Proof.
  intros Hr He HQ. apply leads_bind, leads_hex4; [done..|]. intros hs1 first r1 Hh H1. apply leads_bind.
  apply (leads_mono _ _ _ (fun c r' => is_scalar c -> exists l, unicode_text l c /\ advanced r r' l l)).
  2:{ intros c r' Hc. destruct (scalar_value c) eqn:Hs; [|by apply leads_fail]. apply scalar_value_spec in Hs.
      destruct (Hc Hs) as (l & Hl & H). by apply leads_ret, (HQ l). }
  destruct (in_range 55296 56319 first) eqn:Hf; [|apply leads_ret; eauto using unicode_text].
  apply in_range_spec in Hf. apply leads_bind, leads_expected; [by destruct H1|done|]. intros r2 H2. chain H1 H2 H12.
  apply leads_bind, leads_expected; [by destruct H12|done|]. intros r3 H3. chain H12 H3 H13.
  apply leads_bind, leads_hex4; [by destruct H13|done|]. intros hs2 low r4 Hl H4. chain H13 H4 H14.
  destruct (in_range 56320 57343 low) eqn:Hlow; [|by apply leads_fail]. apply in_range_spec in Hlow. apply leads_ret. intros _.
  rewrite Z.shiftl_mul_pow2 by lia. exists (hs1 ++ 92%Z :: 117%Z :: hs2). split.
  - replace (65536 + (first - 55296) * 2 ^ 10 + low - 56320)%Z with (65536 + (first - 55296) * 1024 + (low - 56320))%Z by lia.
    by constructor.
  - rewrite <- !app_assoc in H14. exact H14.
Qed.

Lemma leads_unicode_escape_ok l k c r Q :
  ready r -> rest r = l ++ k -> unicode_text l c -> (forall r', advanced r r' l l -> Q c r') -> leads E unicode_escape r Q.
Proof.
  intros Hr Hk Hl HQ. pose proof (unicode_scalar _ _ Hl) as Hs. apply scalar_value_spec in Hs.
  destruct Hl as [hs c Hc Hsc|hs1 hs2 high low Hh Hhigh Hl Hlow].
  { apply leads_bind. eapply leads_hex4_ok; [done..|]. intros r1 H1. apply leads_bind.
    rewrite in_range_false by (unfold is_scalar in Hsc; lia). apply leads_ret. rewrite Hs. by apply leads_ret, HQ. }
  rewrite <- app_assoc in Hk. apply leads_bind. eapply leads_hex4_ok; [done..|]. intros r1 H1. apply leads_bind.
  pose proof (advanced_left _ _ _ _ _ H1 Hk) as K1. rewrite in_range_true by lia.
  apply leads_bind. eapply leads_expected_ok; [by destruct H1|done|]. intros r2 H2.
  pose proof (advanced_left _ _ [_] _ _ H2 K1) as K2. chain H1 H2 H12.
  apply leads_bind. eapply leads_expected_ok; [by destruct H12|done|]. intros r3 H3.
  pose proof (advanced_left _ _ [_] _ _ H3 K2) as K3. chain H12 H3 H13.
  apply leads_bind. eapply leads_hex4_ok; [by destruct H13|done..|]. intros r4 H4. chain H13 H4 H14.
  rewrite in_range_true by lia. rewrite Z.shiftl_mul_pow2 by lia. apply leads_ret.
  replace (65536 + (high - 55296) * 2 ^ 10 + low - 56320)%Z with (65536 + (high - 55296) * 1024 + (low - 56320))%Z by lia.
  rewrite Hs. apply leads_ret, HQ. rewrite <- !app_assoc in H14. exact H14.
Qed.

Lemma leads_escape r Q :
  ready r -> E MalformedJson ->
  (forall l d p r', string_char (92%Z :: l) d p -> advanced r r' l l -> Q (d, p) r') -> leads E escape r Q.
Proof.
  intros Hr He HQ. apply leads_bind, leads_byte; [done..|]. intros e r1 H1. simpl in H1.
  assert (forall d, (e, d) ∈ [(34, 34); (92, 92); (98, 8); (102, 12); (110, 10); (114, 13); (116, 9)]%Z ->
    leads E (mret ([d], true)) r1 Q) as Hshort.
  { intros d Hd. apply leads_ret, (HQ [e]); [by constructor|done]. }
  destruct (Z.eqb_spec e 34) as [->|]; [apply Hshort; set_solver|].
  destruct (Z.eqb_spec e 92) as [->|]; [apply Hshort; set_solver|]. simpl.
  destruct (Z.eqb_spec e 47) as [->|]; [apply leads_ret, (HQ [47%Z]); [constructor|done]|].
  destruct (Z.eqb_spec e 98) as [->|]; [apply Hshort; set_solver|].
  destruct (Z.eqb_spec e 102) as [->|]; [apply Hshort; set_solver|].
  destruct (Z.eqb_spec e 110) as [->|]; [apply Hshort; set_solver|].
  destruct (Z.eqb_spec e 114) as [->|]; [apply Hshort; set_solver|].
  destruct (Z.eqb_spec e 116) as [->|]; [apply Hshort; set_solver|].
  destruct (Z.eqb_spec e 117) as [->|]; [|by apply leads_fail].
  apply leads_bind, leads_unicode_escape; [by destruct H1|done|]. intros l c r2 Hl H2. chain H1 H2 H.
  apply leads_ret, (HQ (117%Z :: l)); [by apply unicode_char|done].
Qed.

Lemma leads_escape_ok l k d p r Q :
  ready r -> rest r = l ++ k -> string_char (92%Z :: l) d p -> (forall r', advanced r r' l l -> Q (d, p) r') ->
  leads E escape r Q.
Proof.
  intros Hr Hk Hl HQ.
  assert ((exists l', l = 117%Z :: l' /\ p = false /\ exists c, unicode_text l' c /\ d = encode_utf8 c) \/
    exists e, l = [e] /\ (e = 47%Z /\ d = [47%Z] /\ p = false \/ p = true /\ exists x, d = [x] /\
      (e, x) ∈ [(34, 34); (92, 92); (98, 8); (102, 12); (110, 10); (114, 13); (116, 9)]%Z)) as Hcase.
  { inversion Hl as [c Hc Hge Hq Hb Henc Hd|e x He|  |hs c Hh Hc|hs1 hs2 high low]; subst.
    - exfalso. assert (utf8_next (encode_utf8 c ++ []) = Scalar c (len_utf8 c)) as Hn by (by apply utf8_next_encode).
      rewrite app_nil_r, Henc in Hn. cbn in Hn. congruence.
    - right. exists e. split; [done|]. right. eauto.
    - right. exists 47%Z. auto.
    - left. eexists. split_and!; [done..|]. exists c. split; [by constructor|done].
    - left. eexists. split_and!; [done..|]. eexists. split; [by constructor|done]. }
  destruct Hcase as [(l' & -> & -> & c & Hc & ->)|(e & -> & He)].
  - apply leads_bind. eapply leads_byte_some; [done..|]. intros r1 H1. simpl in H1 |- *. apply leads_bind.
    eapply leads_unicode_escape_ok; [by destruct H1|exact (advanced_left _ _ [_] _ _ H1 Hk)|done|]. intros r2 H2.
    apply leads_ret, HQ. by chain H1 H2 H.
  - apply leads_bind. eapply leads_byte_some; [done..|]. intros r1 H1. simpl in H1.
    destruct He as [(-> & -> & ->)|(-> & x & -> & He)]; [by apply leads_ret, HQ|].
    rewrite !elem_of_cons, elem_of_nil in He.
    destruct_or! He; try done; simplify_eq; simpl; by apply leads_ret, HQ.
Qed.
End lexer.

(** * Strings *)
(** ** Characters that are not escaped *)
(** Decoding gives back what was encoded: each scalar value has one sequence. *)
Lemma utf8_next_inv l c n : utf8_next l = Scalar c n -> take n l = encode_utf8 c.
Proof.
  unfold utf8_next, encode_utf8. destruct l as [|b0 l]; [done|].
  destruct (in_range 0 127 b0) eqn:E0.
  { apply in_range_spec in E0. intros [= <- <-]. destruct (Z.ltb_spec b0 128); [done|lia]. }
  destruct (in_range 194 223 b0) eqn:E1; [apply in_range_spec in E1|].
  { destruct l as [|b1 l]; [done|]. destruct (utf8_tail b1) eqn:Ht; [|done]. apply in_range_spec in Ht. intros [= <- <-].
    rewrite (proj2 (Z.ltb_ge _ _)), (proj2 (Z.ltb_lt _ _)) by lia. simpl. repeat f_equal; utf8_bounds. }
  destruct (in_range 224 239 b0) eqn:E2; [apply in_range_spec in E2|].
  { destruct l as [|b1 [|b2 l]]; [done| |]; destruct (utf8_second b0 b1) eqn:H1; try done.
    simpl. destruct (utf8_tail b2) eqn:Ht; [|done]. apply in_range_spec in Ht. apply utf8_second_spec in H1. intros [= <- <-].
    rewrite (proj2 (Z.ltb_ge _ 128)), (proj2 (Z.ltb_ge _ 2048)), (proj2 (Z.ltb_lt _ _)) by lia. simpl. repeat f_equal; utf8_bounds. }
  destruct (in_range 240 244 b0) eqn:E3; [apply in_range_spec in E3|done].
  destruct l as [|b1 l]; [done|]. destruct (utf8_second b0 b1) eqn:H1; [|done]. simpl.
  destruct l as [|b2 l]; [done|]. destruct (utf8_tail b2) eqn:H2; [|done]. simpl.
  destruct l as [|b3 l]; [done|]. destruct (utf8_tail b3) eqn:H3; [|done].
  apply in_range_spec in H2, H3. apply utf8_second_spec in H1. intros [= <- <-].
  rewrite (proj2 (Z.ltb_ge _ 128)), (proj2 (Z.ltb_ge _ 2048)), (proj2 (Z.ltb_ge _ 65536)) by lia. simpl. repeat f_equal; utf8_bounds.
Qed.

(** The first byte gives the length of the sequence. *)
Lemma sequence_length_next b l c n m : sequence_length b = Some m -> utf8_next (b :: l) = Scalar c n -> n = m /\ (128 <= b)%Z.
Proof.
  unfold sequence_length, utf8_next. intros Hm.
  destruct (in_range 0 127 b) eqn:E0.
  { exfalso. apply in_range_spec in E0. rewrite !in_range_false in Hm by lia. done. }
  destruct (in_range 194 223 b) eqn:E1; [apply in_range_spec in E1; injection Hm as <-; intros H; repeat case_match; simplify_eq; lia|].
  destruct (in_range 224 239 b) eqn:E2; [apply in_range_spec in E2; injection Hm as <-; intros H; repeat case_match; simplify_eq; lia|].
  destruct (in_range 240 244 b) eqn:E3; [apply in_range_spec in E3; injection Hm as <-; intros H; repeat case_match; simplify_eq; lia|done].
Qed.

Lemma decode_one b l m :
  sequence_length b = Some m -> length l = m - 1 -> is_ok (utf8_decode (b :: l)) = true ->
  exists c, is_scalar c /\ b :: l = encode_utf8 c.
Proof.
  intros Hm Hl Hd. unfold utf8_decode in Hd. cbn [length utf8_decode_from] in Hd.
  destruct (utf8_next (b :: l)) as [c n|n|] eqn:Hn; try done.
  destruct (sequence_length_next _ _ _ _ _ Hm Hn) as [-> _]. exists c. split; [by eapply utf8_next_scalar|].
  rewrite <- (utf8_next_inv _ _ _ Hn). symmetry. apply take_ge. simpl.
  assert (1 <= m) by (unfold sequence_length in Hm; repeat case_match; simplify_eq; lia). lia.
Qed.

Lemma encode_first c : is_scalar c -> (128 <= c)%Z ->
  exists b l, encode_utf8 c = b :: l /\ sequence_length b = Some (S (length l)) /\ (128 <= b)%Z.
Proof.
  intros Hs Hc. unfold encode_utf8, sequence_length, is_scalar in *. destruct (Z.ltb_spec c 128); [lia|].
  destruct (Z.ltb_spec c 2048); [|destruct (Z.ltb_spec c 65536)]; eexists _, _; (split; [done|]); utf8_range; (split; [done|utf8_bounds]).
Qed.
Lemma encode_low c : (c < 128)%Z -> encode_utf8 c = [c].
Proof. intros Hc. unfold encode_utf8. by rewrite (proj2 (Z.ltb_lt _ _)). Qed.

Lemma decode_encode c : is_scalar c -> is_ok (utf8_decode (encode_utf8 c)) = true.
Proof.
  intros Hc. unfold utf8_decode. pose proof (utf8_decode_from_encode [c] (length (encode_utf8 c)) 0) as H.
  simpl in H. rewrite app_nil_r in H. rewrite H; [done|by constructor|done].
Qed.

Lemma string_char_length l d p : string_char l d p -> length d <= length l.
Proof.
  assert (forall c, length (encode_utf8 c) <= 4) by (intros c; pose proof (len_utf8_bounds c); unfold len_utf8 in *; lia).
  destruct 1 as [| | |hs c [Hl _] _|hs1 hs2 high low [Hl _] _ _ _]; simpl; rewrite ?length_app; try lia.
  - rewrite Hl. specialize (H c). lia.
  - rewrite Hl. simpl. etrans; [apply H|lia].
Qed.

Section strings.
Context (E : JsonFailure -> Prop).

Lemma leads_raw_char b r Q :
  ready r -> E MalformedJson -> (b < 0 \/ 127 < b)%Z ->
  (forall l r', string_char (b :: l) (b :: l) true -> advanced r r' l l -> Q (b :: l) r') -> leads E (raw_char b) r Q.
Proof.
  intros Hr He Hb HQ. unfold raw_char. destruct (sequence_length b) as [m|] eqn:Hm; [|by apply leads_fail].
  apply leads_bind, leads_bytes_loop; [done..|]. intros l r1 Hl H1. destruct (is_ok _) eqn:Hd; [|by apply leads_fail].
  apply leads_ret, HQ; [|done]. destruct (decode_one _ _ _ Hm Hl Hd) as (c & Hc & Hcode). rewrite Hcode.
  assert (~ c < 128)%Z by (intros Hlow; rewrite encode_low in Hcode by done; injection Hcode as -> _; unfold is_scalar in Hc; lia).
  constructor; [done|lia..].
Qed.

Lemma leads_raw_char_ok c b l k r Q :
  ready r -> is_scalar c -> (128 <= c)%Z -> encode_utf8 c = b :: l -> rest r = l ++ k ->
  (forall r', advanced r r' l l -> Q (b :: l) r') -> leads E (raw_char b) r Q.
Proof.
  intros Hr Hc Hge Hcode Hk HQ. destruct (encode_first _ Hc Hge) as (b' & l' & Hcode' & Hm & _).
  rewrite Hcode in Hcode'. injection Hcode' as <- <-. unfold raw_char. rewrite Hm.
  apply leads_bind. eapply leads_bytes_loop_ok; [done|done|simpl; lia|]. intros r1 H1.
  rewrite <- Hcode, decode_encode by done. rewrite Hcode. by apply leads_ret, HQ.
Qed.

(** ** Strings *)
(** One round of the loop of a string: a character, in one of its three forms. *)
Definition string_piece (b : Z) : M (list Z * bool) :=
  if (b =? 92)%Z then escape
  else if in_range 32 127 b then mret ([b], true)
  else (scalar ← raw_char b; mret (scalar, true)).

Lemma leads_piece b r Q :
  ready r -> E MalformedJson -> b <> 34%Z -> in_range 0 31 b = false ->
  (forall l d p r', string_char (b :: l) d p -> advanced r r' l l -> Q (d, p) r') -> leads E (string_piece b) r Q.
Proof.
  intros Hr He Hq Hc HQ. unfold string_piece. destruct (Z.eqb_spec b 92) as [->|Hb]; [by apply leads_escape|].
  destruct (in_range 32 127 b) eqn:Hlow.
  - apply in_range_spec in Hlow. apply leads_ret, (HQ []); [|by apply advanced_refl]. rewrite <- (encode_low b) by lia.
    constructor; unfold is_scalar; lia.
  - assert (b < 0 \/ 127 < b)%Z as Hb'.
    { destruct (decide (0 <= b <= 31)%Z); [by rewrite in_range_true in Hc|].
      destruct (decide (32 <= b <= 127)%Z); [by rewrite in_range_true in Hlow|]. lia. }
    apply leads_bind, leads_raw_char; [done..|]. intros l r1 Hl H1. by apply leads_ret, (HQ l).
Qed.

Lemma leads_piece_ok b l k d p r Q :
  ready r -> rest r = l ++ k -> string_char (b :: l) d p -> (forall r', advanced r r' l l -> Q (d, p) r') ->
  leads E (string_piece b) r Q.
Proof.
  intros Hr Hk Hl HQ. unfold string_piece. destruct (Z.eqb_spec b 92) as [->|Hb]; [by eapply leads_escape_ok|].
  inversion Hl as [c Hs Hge Hq Hb' Hcode Hd| | | |]; subst; try done. destruct (decide (c < 128)%Z) as [Hlow|Hhigh].
  - rewrite encode_low in Hcode by done. injection Hcode as <- <-. rewrite in_range_true by lia. rewrite encode_low in HQ by done.
    apply leads_ret, HQ. by apply advanced_refl.
  - destruct (encode_first c) as (b' & l' & Hcode' & _ & Hb128); [done|lia|]. rewrite Hcode in Hcode'. injection Hcode' as <- <-.
    assert (in_range 32 127 b = false) as -> by (apply in_range_false; lia).
    apply leads_bind. eapply leads_raw_char_ok; [done..|lia|done|done|]. intros r1 H1. rewrite Hcode in HQ. by apply leads_ret, HQ.
Qed.

(** The first byte of a character is neither a quote nor a control character. *)
Lemma string_char_first l d p : string_char l d p -> exists b k, l = b :: k /\ b <> 34%Z /\ in_range 0 31 b = false.
Proof.
  destruct 1 as [c Hs Hge Hq Hb| | | |]; try by eexists _, _.
  destruct (decide (c < 128)%Z).
  - rewrite encode_low by done. eexists _, _. split_and!; [done..|]. by rewrite in_range_false by lia.
  - destruct (encode_first c) as (b & l & -> & _ & Hb128); [done|lia|]. eexists _, _. split_and!; [done|lia|].
    by rewrite in_range_false by lia.
Qed.

Lemma leads_string_loop fuel decoded plain r Q :
  ready r -> E MalformedJson -> length (rest r) < fuel -> (Z.of_nat (length decoded) <= offset r)%Z ->
  (forall l d p r', string_chars l d p -> advanced r r' (l ++ [34%Z]) (l ++ [34%Z]) -> Q (decoded ++ d, plain && p) r') ->
  leads E (string_loop fuel decoded plain) r Q.
Proof.
  revert decoded plain r Q. induction fuel as [|fuel IH]; intros decoded plain r Q Hr He Hf Hd HQ; [lia|].
  cbn [string_loop]. apply leads_bind, leads_byte; [done..|]. intros b r1 H1. simpl in H1.
  destruct (Z.eqb_spec b 34) as [->|Hq].
  { apply leads_ret. specialize (HQ [] [] true r1). rewrite app_nil_r, andb_true_r in HQ. apply HQ; [constructor|done]. }
  destruct (in_range 0 31 b) eqn:Hc; [by apply leads_fail|]. apply leads_bind.
  apply (leads_piece b); [by destruct H1|done..|]. intros l d p r2 Hl H2. pose proof (string_char_length _ _ _ Hl) as Hlen.
  chain H1 H2 H. simpl in H. pose proof (adv_ready _ _ _ _ H) as [_ _ _ Hb]. pose proof (adv_offset _ _ _ _ H) as Ho.
  pose proof (adv_rest _ _ _ _ H) as Er. apply (f_equal length) in Er. rewrite length_app in Er. simpl in *.
  unfold checked_add_u64. rewrite decide_True by lia. apply IH; [by destruct H|done|lia| |].
  - rewrite length_app. lia.
  - intros l' d' p' r3 Hl' H3. chain H H3 H'. specialize (HQ ((b :: l) ++ l') (d ++ d') (p && p') r3).
    rewrite !app_assoc, andb_assoc in HQ. apply HQ; [by constructor|]. by rewrite <- !app_assoc in *.
Qed.

Lemma leads_string_loop_ok fuel l d p decoded plain k r Q :
  string_chars l d p -> ready r -> rest r = l ++ 34%Z :: k -> length (rest r) < fuel ->
  (Z.of_nat (length decoded) <= offset r)%Z ->
  (forall r', advanced r r' (l ++ [34%Z]) (l ++ [34%Z]) -> Q (decoded ++ d, plain && p) r') ->
  leads E (string_loop fuel decoded plain) r Q.
Proof.
  intros Hl. revert fuel decoded plain r Q. induction Hl as [|src dec p1 l d p Hsrc Hl IH];
    intros [|fuel] decoded plain r Q Hr Hk Hf Hd HQ; try lia; cbn [string_loop]; apply leads_bind.
  { eapply leads_byte_some; [done..|]. intros r1 H1. simpl in H1 |- *. apply leads_ret.
    rewrite app_nil_r, andb_true_r in HQ. by apply HQ. }
  destruct (string_char_first _ _ _ Hsrc) as (b & src' & -> & Hq & Hc). pose proof (string_char_length _ _ _ Hsrc) as Hlen.
  rewrite <- !app_assoc in Hk. simpl in Hk. rewrite <- ?app_assoc in Hk.
  eapply leads_byte_some; [done..|]. intros r1 H1. simpl in H1. rewrite (proj2 (Z.eqb_neq _ _) Hq), Hc.
  pose proof (advanced_left _ _ [b] _ _ H1 Hk) as K1.
  apply leads_bind. apply (leads_piece_ok b src' (l ++ 34%Z :: k) dec p1); [by destruct H1|done|done|]. intros r2 H2.
  pose proof (advanced_left _ _ _ _ _ H2 K1) as K2. chain H1 H2 H. simpl in H.
  pose proof (adv_ready _ _ _ _ H) as [_ _ _ Hb]. pose proof (adv_offset _ _ _ _ H) as Ho.
  pose proof (adv_rest _ _ _ _ H) as Er. apply (f_equal length) in Er. rewrite length_app in Er. simpl in *.
  unfold checked_add_u64. rewrite decide_True by lia. apply IH; [by destruct H|done|lia| |].
  - rewrite length_app. lia.
  - intros r3 H3. chain H H3 H'. rewrite !app_assoc, andb_assoc in HQ. apply HQ. by rewrite <- !app_assoc in *.
Qed.

(** A whole string, its quotes included. *)
Lemma leads_string_token sha256 key r Q :
  ready r -> E MalformedJson ->
  (forall s r', string_text s -> advanced r r' (str_text s) (str_text s) -> Q (string_lexeme sha256 key s).1 r') ->
  leads E (string_token sha256 key) r Q.
Proof.
  intros Hr He HQ. apply leads_bind, leads_expected; [done..|]. intros r1 H1. apply leads_bind. unfold with_fuel, leads.
  change (leads E (string_loop (S (length (rest r1))) [] true) r1 
    (fun s r' => leads E (mret (StringToken key (Z.of_nat (length s.1)) (sha256 s.1) s.2)) r' Q)).
  apply leads_string_loop; [by destruct H1|done|lia|by destruct H1 as [[]]|]. intros l d p r2 Hl H2. chain H1 H2 H.
  apply leads_ret, (HQ {| str_text := 34%Z :: l ++ [34%Z]; str_decoded := d; str_plain := p |}); [|done]. by exists l.
Qed.

Lemma leads_string_token_ok sha256 key s k r Q :
  ready r -> string_text s -> rest r = str_text s ++ k ->
  (forall r', advanced r r' (str_text s) (str_text s) -> Q (string_lexeme sha256 key s).1 r') ->
  leads E (string_token sha256 key) r Q.
Proof.
  intros Hr (l & Hs & Hl) Hk HQ. rewrite Hs in Hk. simpl in Hk. rewrite <- app_assoc in Hk.
  apply leads_bind. eapply leads_expected_ok; [done..|]. intros r1 H1. apply leads_bind. unfold with_fuel, leads.
  change (leads E (string_loop (S (length (rest r1))) [] true) r1 
    (fun s r' => leads E (mret (StringToken key (Z.of_nat (length s.1)) (sha256 s.1) s.2)) r' Q)).
  eapply leads_string_loop_ok; [done|by destruct H1|exact (advanced_left _ _ [_] _ _ H1 Hk)|lia|by destruct H1 as [[]]|].
  intros r2 H2. chain H1 H2 H. apply leads_ret, HQ. by rewrite Hs.
Qed.
End strings.

(** * Numbers *)
(** What may stand behind a number. *)
Definition number_stop (b : Z) : bool := is_digit b || (b =? 46)%Z || (b =? 101)%Z || (b =? 69)%Z.

Section numbers.
Context (E : JsonFailure -> Prop).

(** *** The parts of the operation *)
(** Looking at the next byte only. *)
Lemma leads_peek_at {A} (k : option Z -> M A) r Q :
  ready r -> (forall r', advanced r r' [] [] -> leads E (k (head (rest r'))) r' Q) -> leads E (b ← peek; k b) r Q.
Proof.
  intros Hr HQ. apply leads_bind, leads_peek; [done|]. intros r' H _. pose proof (adv_rest _ _ _ _ H) as Er. simpl in Er.
  rewrite Er. by apply HQ.
Qed.

Definition sign_part : M () := b ← peek; if decide (b = Some 45%Z) then (_ ← byte true; mret ()) else mret ().
Definition required_digits : M () :=
  d ← peek; match d with Some d => if is_digit d then digits else fail MalformedJson | None => fail MalformedJson end.
Definition leading_part : M () :=
  b ← byte true; if (b =? 48)%Z then mret () else if in_range 49 57 b then digits else fail MalformedJson.
Definition dot_part : M () := b ← peek; if decide (b = Some 46%Z) then (_ ← byte true; required_digits) else mret ().
Definition power_sign : M () :=
  s ← peek; if decide (s = Some 43%Z \/ s = Some 45%Z) then (_ ← byte true; mret ()) else mret ().
Definition power_part : M () :=
  b ← peek; if decide (b = Some 101%Z \/ b = Some 69%Z) then (_ ← byte true; _ ← power_sign; required_digits) else mret ().

Lemma M_assoc {A B C} (m : M A) (f : A -> M B) (g : B -> M C) r : ((m ≫= f) ≫= g) r = (m ≫= (fun a => f a ≫= g)) r.
Proof. unfold mbind, M_bind. by destruct (m r) as [[[a|e] r']|]. Qed.
Lemma M_bind_ext {A B} (m : M A) (f g : A -> M B) r : (forall a r, f a r = g a r) -> (m ≫= f) r = (m ≫= g) r.
Proof. intros H. unfold mbind, M_bind. destruct (m r) as [[[a|e] r']|]; [apply H|done..]. Qed.

Lemma number_parts r : number r = (_ ← sign_part; _ ← leading_part; _ ← dot_part; power_part) r.
Proof.
  unfold number, sign_part, leading_part, dot_part, power_part, power_sign, required_digits.
  rewrite M_assoc. apply M_bind_ext. intros b r1. apply M_bind_ext. intros _ r2.
  rewrite M_assoc. apply M_bind_ext. intros b' r3. apply M_bind_ext. intros _ r4.
  rewrite M_assoc. apply M_bind_ext. intros b2 r5. apply M_bind_ext. intros _ r6.
  apply M_bind_ext. intros b3 r7. case_decide; [|done]. apply M_bind_ext. intros _ r8.
  by rewrite M_assoc.
Qed.

(** *** What they take *)
Lemma leads_byte_at b r Q :
  ready r -> head (rest r) = Some b -> (forall r', advanced r r' [b] [b] -> Q b r') -> leads E (byte true) r Q.
Proof. intros Hr Hh HQ. destruct (rest r) as [|b' k] eqn:Hk; [done|]. injection Hh as ->. by eapply leads_byte_some. Qed.

Lemma leads_required_digits r Q :
  ready r -> E MalformedJson -> (forall l r', some_digits l -> advanced r r' l l -> Q () r') -> leads E required_digits r Q.
Proof.
  intros Hr He HQ. apply leads_peek_at; [done|]. intros r1 H1. destruct (head (rest r1)) as [d|] eqn:Hd; [|by apply leads_fail].
  destruct (is_digit d) eqn:Hdig; [|by apply leads_fail]. apply leads_digits; [by destruct H1|]. intros l r2 H2 Hl Hs.
  apply (HQ l); [|by chain H1 H2 H]. split; [|done]. intros ->. pose proof (adv_rest _ _ _ _ H2) as Er. simpl in Er.
  rewrite Er in Hd. unfold stops in Hs. destruct (rest r2); [done|]. simplify_eq/=. congruence.
Qed.

Lemma leads_required_digits_ok l k r Q :
  ready r -> some_digits l -> rest r = l ++ k -> stops is_digit k -> (forall r', advanced r r' l l -> Q () r') ->
  leads E required_digits r Q.
Proof.
  intros Hr [Hne Hl] Hk Hs HQ. apply leads_peek_at; [done|]. intros r1 H1. pose proof (advanced_left _ _ [] _ _ H1 Hk) as K1.
  destruct l as [|d l]; [done|]. rewrite K1. simpl. pose proof (Forall_inv Hl) as ->.
  eapply (leads_digits_ok _ (d :: l)); [by destruct H1|done..|]. intros r2 H2. apply HQ. by chain H1 H2 H.
Qed.

Lemma leads_sign_part r Q :
  ready r -> (forall l r', l = [] \/ l = [45%Z] -> advanced r r' l l -> Q () r') -> leads E sign_part r Q.
Proof.
  intros Hr HQ. apply leads_peek_at; [done|]. intros r1 H1. destruct (decide _) as [Hb|_]; [|apply leads_ret; eauto].
  apply leads_bind. eapply leads_byte_at; [by destruct H1|done|]. intros r2 H2. chain H1 H2 H. apply leads_ret; eauto.
Qed.

Lemma leads_leading_part r Q :
  ready r -> E MalformedJson -> (forall l r', integer_part l -> advanced r r' l l -> Q () r') -> leads E leading_part r Q.
Proof.
  intros Hr He HQ. apply leads_bind, leads_byte; [done..|]. intros b r1 H1. simpl in H1.
  destruct (Z.eqb_spec b 48) as [->|_]; [apply leads_ret, (HQ [48%Z]); [by left|done]|].
  destruct (in_range 49 57 b) eqn:Hb; [|by apply leads_fail]. apply leads_digits; [by destruct H1|]. intros l r2 H2 Hl _.
  chain H1 H2 H. apply (HQ (b :: l)); [|done]. right. eauto.
Qed.

Lemma leads_dot_part r Q :
  ready r -> E MalformedJson -> (forall l r', fraction_part l -> advanced r r' l l -> Q () r') -> leads E dot_part r Q.
Proof.
  intros Hr He HQ. apply leads_peek_at; [done|]. intros r1 H1.
  destruct (decide _) as [Hb|_]; [|apply leads_ret, (HQ []); [by left|done]].
  apply leads_bind. eapply leads_byte_at; [by destruct H1|done|]. intros r2 H2. chain H1 H2 H12.
  apply leads_required_digits; [by destruct H12|done|]. intros l r3 Hl H3. chain H12 H3 H.
  apply (HQ (46%Z :: l)); [|done]. right. eauto.
Qed.

Lemma leads_power_sign r Q :
  ready r -> (forall l r', l = [] \/ l = [43%Z] \/ l = [45%Z] -> advanced r r' l l -> Q () r') -> leads E power_sign r Q.
Proof.
  intros Hr HQ. apply leads_peek_at; [done|]. intros r1 H1. destruct (decide _) as [Hb|_]; [|apply leads_ret; eauto].
  apply leads_bind. destruct Hb as [Hb|Hb]; (eapply leads_byte_at; [by destruct H1|done|]); intros r2 H2; chain H1 H2 H; apply leads_ret; eauto.
Qed.

Lemma leads_power_part r Q :
  ready r -> E MalformedJson -> (forall l r', exponent_part l -> advanced r r' l l -> Q () r') -> leads E power_part r Q.
Proof.
  intros Hr He HQ. apply leads_peek_at; [done|]. intros r1 H1.
  destruct (decide _) as [Hb|_]; [|apply leads_ret, (HQ []); [by left|done]].
  assert (exists e, head (rest r1) = Some e /\ (e = 101%Z \/ e = 69%Z)) as (e & Hhead & Hexp) by (destruct Hb; eauto).
  apply leads_bind. eapply leads_byte_at; [by destruct H1|done|]. intros r2 H2. chain H1 H2 H12.
  apply leads_bind, leads_power_sign; [by destruct H12|]. intros sign r3 Hsign H3. chain H12 H3 H13.
  apply leads_required_digits; [by destruct H13|done|]. intros l r4 Hl H4. chain H13 H4 H. rewrite <- app_assoc in H.
  apply (HQ (e :: sign ++ l)); [|done]. right. eexists _, _, _. eauto.
Qed.

Lemma leads_number r Q :
  ready r -> E MalformedJson -> (forall l r', number_text l -> advanced r r' l l -> Q () r') -> leads E number r Q.
Proof.
  intros Hr He HQ. unfold leads. rewrite number_parts. change (leads E (_ ← sign_part; _ ← leading_part; _ ← dot_part; power_part) r Q).
  apply leads_bind, leads_sign_part; [done|]. intros minus r1 Hm H1.
  apply leads_bind, leads_leading_part; [by destruct H1|done|]. intros i r2 Hi H2. chain H1 H2 H12.
  apply leads_bind, leads_dot_part; [by destruct H12|done|]. intros f r3 Hf H3. chain H12 H3 H13.
  apply leads_power_part; [by destruct H13|done|]. intros e r4 He' H4. chain H13 H4 H. rewrite <- !app_assoc in H.
  eapply HQ; [|done]. eexists _, _, _, _. eauto.
Qed.

(** *** That they take it *)
Lemma stops_head p l b : stops p l -> p b = true -> head l <> Some b.
Proof. destruct l as [|b' l]; simpl; [done|]. intros H1 H2 [= ->]. congruence. Qed.
Lemma stops_app (p : Z -> bool) l k : stops p l -> stops p k -> stops p (l ++ k).
Proof. by destruct l. Qed.
Lemma stops_mono (p q : Z -> bool) l : (forall b, q b = true -> p b = true) -> stops p l -> stops q l.
Proof. intros H. destruct l as [|b l]; [done|]. simpl. intros Hp. destruct (q b) eqn:Hq; [|done]. apply H in Hq. congruence. Qed.

Lemma leads_leading_part_ok l k r Q :
  ready r -> integer_part l -> rest r = l ++ k -> stops is_digit k -> (forall r', advanced r r' l l -> Q () r') ->
  leads E leading_part r Q.
Proof.
  intros Hr Hl Hk Hs HQ. destruct Hl as [->|(d & ds & -> & Hd & Hds)]; apply leads_bind;
    (eapply leads_byte_some; [done..|]); intros r1 H1; simpl in H1; [by apply leads_ret, HQ|].
  rewrite Hd. apply in_range_spec in Hd. rewrite (proj2 (Z.eqb_neq _ _)) by lia.
  eapply (leads_digits_ok _ ds); [by destruct H1|exact (advanced_left _ _ [_] _ _ H1 Hk)|done..|].
  intros r2 H2. apply HQ. by chain H1 H2 H.
Qed.

Lemma leads_dot_part_ok l k r Q :
  ready r -> fraction_part l -> rest r = l ++ k -> stops (fun b => is_digit b || (b =? 46)%Z) k ->
  (forall r', advanced r r' l l -> Q () r') -> leads E dot_part r Q.
Proof.
  intros Hr Hl Hk Hs HQ. apply leads_peek_at; [done|]. intros r1 H1. pose proof (advanced_left _ _ [] _ _ H1 Hk) as K1.
  rewrite K1. destruct Hl as [->|(ds & -> & Hds)].
  - rewrite decide_False by (by apply (stops_head _ _ _ Hs)). by apply leads_ret, HQ.
  - rewrite decide_True by done. apply leads_bind. eapply leads_byte_some; [by destruct H1|done|]. intros r2 H2.
    pose proof (advanced_left _ _ [_] _ _ H2 K1) as K2. chain H1 H2 H12.
    eapply (leads_required_digits_ok ds); [by destruct H12|done..| |].
    + eapply stops_mono; [|done]. intros b Hb. simpl. by rewrite Hb.
    + intros r3 H3. apply HQ. by chain H12 H3 H.
Qed.

Lemma leads_power_part_ok l k r Q :
  ready r -> exponent_part l -> rest r = l ++ k -> stops number_stop k ->
  (forall r', advanced r r' l l -> Q () r') -> leads E power_part r Q.
Proof.
  intros Hr Hl Hk Hs HQ. apply leads_peek_at; [done|]. intros r1 H1. pose proof (advanced_left _ _ [] _ _ H1 Hk) as K1.
  rewrite K1. destruct Hl as [->|(e & sign & ds & -> & He & Hsign & Hds)].
  { rewrite decide_False by (intros [He|He]; revert He; by apply (stops_head _ _ _ Hs)). by apply leads_ret, HQ. }
  rewrite decide_True by (simpl; naive_solver). rewrite <- app_comm_cons, <- app_assoc in K1.
  apply leads_bind. eapply leads_byte_some; [by destruct H1|done|]. intros r2 H2.
  pose proof (advanced_left _ _ [_] _ _ H2 K1) as K2. chain H1 H2 H12. apply leads_bind, leads_peek_at; [by destruct H12|].
  intros r3 H3. pose proof (advanced_left _ _ [] _ _ H3 K2) as K3. chain H12 H3 H13. rewrite K3. simpl in H13.
  assert (forall r4, advanced r r4 (e :: sign) (e :: sign) -> rest r4 = ds ++ k -> leads E required_digits r4 Q) as Hgo.
  { intros r4 H4 K4. eapply (leads_required_digits_ok ds); [by destruct H4|done..| |].
    - eapply stops_mono; [|done]. intros b Hb. unfold number_stop. simpl. by rewrite Hb.
    - intros r5 H5. apply HQ. by chain H4 H5 H. }
  destruct Hsign as [->|Hsign].
  - rewrite decide_False; [by apply leads_ret, Hgo|]. destruct Hds as [Hne Hds]. destruct ds as [|d ds]; [done|].
    apply Forall_inv in Hds. apply in_range_spec in Hds. simpl. intros [[= ->]|[= ->]]; lia.
  - assert (exists b, sign = [b] /\ (b = 43%Z \/ b = 45%Z)) as (b & -> & Hb) by naive_solver.
    rewrite decide_True by (simpl; naive_solver). apply leads_bind. eapply leads_byte_some; [by destruct H13|done|].
    intros r4 H4. apply leads_ret, Hgo; [by chain H13 H4 H|by eapply (advanced_left _ _ [b])].
Qed.

Lemma leads_number_ok l k r Q :
  ready r -> number_text l -> rest r = l ++ k -> stops number_stop k -> (forall r', advanced r r' l l -> Q () r') ->
  leads E number r Q.
Proof.
  intros Hr (minus & i & f & e & -> & Hm & Hi & Hf & He) Hk Hs HQ. rewrite <- !app_assoc in Hk.
  unfold leads. rewrite number_parts. change (leads E (_ ← sign_part; _ ← leading_part; _ ← dot_part; power_part) r Q).
  assert (stops (fun b => is_digit b || (b =? 46)%Z) (e ++ k)) as Hs1.
  { apply stops_app; [destruct He as [->|(x & ? & ? & -> & [->| ->] & _)]; done|].
    eapply stops_mono; [|done]. intros b Hb. unfold number_stop. simpl. by rewrite Hb. }
  assert (stops is_digit (f ++ e ++ k)) as Hs2.
  { apply stops_app; [destruct Hf as [->|(? & -> & _)]; done|]. eapply stops_mono; [|done]. intros b Hb. simpl. by rewrite Hb. }
  apply leads_bind. assert (forall r1, advanced r r1 minus minus -> leads E (_ ← leading_part; _ ← dot_part; power_part) r1 Q) as Hgo.
  { intros r1 H1. pose proof (advanced_left _ _ _ _ _ H1 Hk) as K1.
    apply leads_bind. eapply leads_leading_part_ok; [by destruct H1|done..|]. intros r2 H2.
    pose proof (advanced_left _ _ _ _ _ H2 K1) as K2. chain H1 H2 H12.
    apply leads_bind. eapply leads_dot_part_ok; [by destruct H12|done..|]. intros r3 H3.
    pose proof (advanced_left _ _ _ _ _ H3 K2) as K3. chain H12 H3 H13.
    eapply leads_power_part_ok; [by destruct H13|done..|]. intros r4 H4. chain H13 H4 H. rewrite <- !app_assoc in H. by apply HQ. }
  apply leads_peek_at; [done|]. intros r1 H1. pose proof (advanced_left _ _ [] _ _ H1 Hk) as K1. rewrite K1.
  destruct Hm as [->| ->].
  - rewrite decide_False; [by apply leads_ret, Hgo|]. simpl. destruct Hi as [->|(d & ds & -> & Hd & _)]; [done|].
    apply in_range_spec in Hd. simpl. intros [= ->]. lia.
  - rewrite decide_True by done. apply leads_bind. eapply leads_byte_some; [by destruct H1|done|]. intros r2 H2.
    apply leads_ret, Hgo. by chain H1 H2 H.
Qed.
End numbers.
