(* ===== verification/JsonRounds.v ===== *)
(** * A step of the JSON reader against the grammar read from the left

    First what a reader is and where it is in the grammar, and its values.  Then one round
    of [next_inner]: what it takes is what the grammar has there, and where the grammar goes
    on it takes it. *)
From S2P Require Import Prelude Order Bytes Budget JsonReader JsonGrammar JsonLexer.

(** Where a reader is. *)
Definition place (r : Reader) : Place := if started r then Within (frames r) else Before.

Record wf (r : Reader) : Prop := {
  wf_ready : ready r;
  wf_started : started r = false -> frames r = [];
  wf_depth : length (frames r) <= max_containers
}.

(** [l] has been read, whatever has become of the frames. *)
Record took (r r' : Reader) (l c : list Z) : Prop := {
  took_ready : ready r';
  took_rest : rest r = l ++ rest r';
  took_offset : offset r' = (offset r + Z.of_nat (length l))%Z;
  took_raw : raw_hash r' = raw_hash r ++ l;
  took_compact : compact_hash r' = compact_hash r ++ c;
  took_failed : failed r' = failed r
}.

Lemma took_of r r' l c : advanced r r' l c -> took r r' l c.
Proof. by intros []. Qed.
Lemma took_refl r : ready r -> took r r [] [].
Proof. intros Hr. by apply took_of, advanced_refl. Qed.
Lemma took_trans r1 r2 r3 l1 l2 c1 c2 : took r1 r2 l1 c1 -> took r2 r3 l2 c2 -> took r1 r3 (l1 ++ l2) (c1 ++ c2).
Proof.
  intros [_ E1 O1 R1 C1 X1] [Hr E2 O2 R2 C2 X2]. constructor; try congruence; try done.
  - by rewrite E1, E2, app_assoc.
  - rewrite O2, O1, length_app. lia.
  - by rewrite R2, R1, app_assoc.
  - by rewrite C2, C1, app_assoc.
Qed.

Lemma ready_frames r fs : ready r -> ready (set_frames r fs).
Proof. intros []. by constructor. Qed.
Lemma ready_started r : ready r -> ready (set_started r).
Proof. intros []. by constructor. Qed.
Lemma took_frames r r' fs l c : took r r' l c -> took r (set_frames r' fs) l c.
Proof. intros [Hr ? ? ? ? ?]. constructor; try done. by apply ready_frames. Qed.

Lemma took_left r r' l c k : took r r' l c -> rest r = l ++ k -> rest r' = k.
Proof. intros [_ H _ _ _ _] E. rewrite H in E. by apply app_inv_head in E. Qed.

Section tokens.
Context (sha256 : list Z -> list Z).

(** ** Values *)
Lemma leads_value E r Q :
  ready r -> length (frames r) <= max_containers -> E MalformedJson -> E LoaderDepthExceeded ->
  (forall t x r', scalar_lexeme sha256 (t, x) -> advanced r r' x x -> Q t r') ->
  (forall r', length (frames r) < max_containers -> advanced r r' [91%Z] [91%Z] ->
     Q ArrayStart (set_frames r' (ArrayFirst :: frames r'))) ->
  (forall r', length (frames r) < max_containers -> advanced r r' [123%Z] [123%Z] ->
     Q ObjectStart (set_frames r' (ObjectFirst :: frames r'))) ->
  leads E (value sha256) r Q.
Proof.
  intros Hr Hd He Hdeep HQ Harray Hobject. apply leads_peek_at; [done|]. intros r1 H1.
  assert (ready r1) as Hr1 by (by destruct H1). assert (frames r1 = frames r) as F1 by (by destruct H1).
  assert (forall t x r', scalar_lexeme sha256 (t, x) -> advanced r1 r' x x -> Q t r') as HQ'.
  { intros t x r' Ht H. apply (HQ t x); [done|]. by chain H1 H H'. }
  destruct (head (rest r1)) as [b|] eqn:Hb; [|by apply leads_fail].
  destruct ((b =? 123)%Z || (b =? 91)%Z) eqn:Hopen.
  { apply leads_bind, leads_get. rewrite F1. destruct (decide _) as [_|Hne]; [by apply leads_fail|].
    apply leads_bind. eapply leads_byte_at; [done..|]. intros r2 H2. chain H1 H2 H. apply leads_bind, leads_modify; [done|]. apply leads_ret.
    destruct (Z.eqb_spec b 123) as [->|Hb']; [apply Hobject; [lia|done]|].
    apply orb_true_iff in Hopen as [?|Hopen]; [done|]. apply Z.eqb_eq in Hopen as ->. apply Harray; [lia|done]. }
  destruct (b =? 34)%Z.
  { apply leads_string_token; [done..|]. intros s r2 Hs H2. apply (HQ' _ (str_text s)); [|done]. do 3 right. by exists s. }
  destruct ((b =? 45)%Z || is_digit b).
  { apply leads_bind, leads_number; [done..|]. intros l r2 Hl H2. apply leads_ret, (HQ' _ l); [|done]. do 2 right. left. by exists l. }
  destruct (b =? 116)%Z.
  { apply leads_bind, leads_expect_all; [done..|]. intros r2 H2. apply leads_ret, (HQ' _ (keyword (JBool true))); [|done]. left. by exists true. }
  destruct (b =? 102)%Z.
  { apply leads_bind, leads_expect_all; [done..|]. intros r2 H2. apply leads_ret, (HQ' _ (keyword (JBool false))); [|done]. left. by exists false. }
  destruct (b =? 110)%Z; [|by apply leads_fail].
  apply leads_bind, leads_expect_all; [done..|]. intros r2 H2. apply leads_ret, (HQ' _ (keyword JNull)); [|done]. right. by left.
Qed.

(** The first byte of a number. *)
Lemma number_first l : number_text l -> exists b k, l = b :: k /\ (b = 45%Z \/ is_digit b = true).
Proof.
  intros (minus & i & f & e & -> & [->| ->] & Hi & _); [|by eexists _, _; split; [done|left]].
  destruct Hi as [->|(d & ds & -> & Hd & _)]; eexists _, _; (split; [done|]); right; [done|].
  apply in_range_spec in Hd. apply in_range_true. lia.
Qed.

Lemma leads_value_ok E t x k r Q :
  ready r -> scalar_lexeme sha256 (t, x) -> rest r = x ++ k -> stops number_stop k ->
  (forall r', advanced r r' x x -> Q t r') -> leads E (value sha256) r Q.
Proof.
  intros Hr Ht Hk Hs HQ. apply leads_peek_at; [done|]. intros r1 H1. pose proof (advanced_left _ _ [] _ _ H1 Hk) as K1.
  assert (ready r1) as Hr1 by (by destruct H1). rewrite K1.
  assert (forall r', advanced r1 r' x x -> Q t r') as HQ' by (intros r' H; apply HQ; by chain H1 H H').
  destruct Ht as [([] & Ht)|[Ht|[(l & Ht & Hl)|(s & Ht & Hs')]]]; simplify_eq.
  - apply leads_bind. eapply leads_expect_all_ok; [done..|]. intros r2 H2. by apply leads_ret, HQ'.
  - apply leads_bind. eapply leads_expect_all_ok; [done..|]. intros r2 H2. by apply leads_ret, HQ'.
  - apply leads_bind. eapply leads_expect_all_ok; [done..|]. intros r2 H2. by apply leads_ret, HQ'.
  - destruct (number_first _ Hl) as (b & l' & Hb & Hfirst).
    assert (head (l ++ k) = Some b) as -> by (by rewrite Hb).
    assert ((b =? 123)%Z || (b =? 91)%Z = false /\ (b =? 34)%Z = false /\ (b =? 45)%Z || is_digit b = true) as (-> & -> & ->).
    { destruct Hfirst as [->|Hd]; [done|]. rewrite Hd, orb_true_r. apply in_range_spec in Hd. split_and!; [|lia|done].
      apply orb_false_iff. lia. }
    apply leads_bind. eapply leads_number_ok; [done..|]. intros r2 H2. by apply leads_ret, HQ'.
  - injection Ht as -> ->. destruct Hs' as (body & Htext & Hbody).
    assert (head (str_text s ++ k) = Some 34%Z) as -> by (by rewrite Htext). simpl.
    eapply leads_string_token_ok; [done|by exists body|done|]. intros r2 H2. by apply HQ'.
Qed.

Lemma leads_value_open E (b : Z) k r Q :
  ready r -> b = 91%Z \/ b = 123%Z -> rest r = b :: k -> length (frames r) < max_containers ->
  (forall r', advanced r r' [b] [b] ->
     Q (if (b =? 123)%Z then ObjectStart else ArrayStart) (set_frames r' ((if (b =? 123)%Z then ObjectFirst else ArrayFirst) :: frames r'))) ->
  leads E (value sha256) r Q.
Proof.
  intros Hr Hb Hk Hd HQ. apply leads_peek_at; [done|]. intros r1 H1. pose proof (advanced_left _ _ [] _ _ H1 Hk) as K1. rewrite K1.
  simpl. assert ((b =? 123)%Z || (b =? 91)%Z = true) as -> by (destruct Hb as [->| ->]; done).
  assert (frames r1 = frames r) as F1 by (by destruct H1). apply leads_bind, leads_get. rewrite F1, decide_False by lia.
  apply leads_bind. eapply leads_byte_some; [by destruct H1|done|]. intros r2 H2. chain H1 H2 H. simpl in H.
  apply leads_bind, leads_modify; [done|]. by apply leads_ret, HQ.
Qed.
End tokens.

Section rounds.
Context (sha256 : list Z -> list Z).

(** ** Blanks *)
Lemma blank_nil : blank [].
Proof. constructor. Qed.

Lemma follows_blank x w l ts c : blank w -> follows sha256 x l ts c -> follows sha256 x (w ++ l) ts c.
Proof.
  intros Hw. destruct 1; rewrite ?(app_assoc w); econstructor; eauto; by apply Forall_app.
Qed.

Lemma stops_blank_head w b l : blank w -> is_blank b = false -> stops is_blank (w ++ b :: l) -> w = [].
Proof. destruct w as [|b' w]; [done|]. intros Hw _ Hs. apply Forall_inv in Hw. simpl in Hs. congruence. Qed.

(** Every continuation is blanks and then something else. *)
Lemma follows_trim x l ts c : follows sha256 x l ts c ->
  exists w k, l = w ++ k /\ blank w /\ stops is_blank k /\ follows sha256 x k ts c.
Proof.
  destruct 1 as [w Hw|x y w [t txt] l ts c Hy Hw Ht H|x fs w l ts c Hy Hd Hw H|x fs w l ts c Hy Hd Hw H|f fs w s l ts c Hf Hw Hs H
    |fs w l ts c Hw H|f g fs w l ts c Hf Hw H|f fs w l ts c Hf Hw H|f fs w l ts c Hf Hw H].
  - exists w, []. rewrite app_nil_r. split_and!; try done. apply FollowsEnd, blank_nil.
  - exists w, (txt ++ l). split_and!; try done; [|eapply (FollowsScalar _ _ _ [] (t, txt)); eauto using blank_nil].
    destruct Ht as [([] & Ht)|[Ht|[(n & Ht & Hn)|(s & Ht & Hs)]]].
    1-3: by injection Ht as -> ->.
    + injection Ht as -> ->. destruct (number_first _ Hn) as (b & k & -> & Hb). simpl. destruct Hb as [->|Hb]; [done|].
      apply in_range_spec in Hb. unfold is_blank. rewrite !orb_false_iff. lia.
    + injection Ht as -> ->. by destruct Hs as (body & -> & _).
  - exists w, (91%Z :: l). split_and!; try done. eapply (FollowsArray _ _ _ []); eauto using blank_nil.
  - exists w, (123%Z :: l). split_and!; try done. eapply (FollowsObject _ _ _ []); eauto using blank_nil.
  - exists w, (str_text s ++ l). split_and!; try done; [by destruct Hs as (body & -> & _)|]. eapply (FollowsKey _ _ _ []); eauto using blank_nil.
  - exists w, (58%Z :: l). split_and!; try done. eapply (FollowsColon _ _ []); eauto using blank_nil.
  - exists w, (44%Z :: l). split_and!; try done. eapply (FollowsComma _ _ g _ []); eauto using blank_nil.
  - exists w, (125%Z :: l). split_and!; try done. eapply (FollowsObjectEnd _ _ _ []); eauto using blank_nil.
  - exists w, (93%Z :: l). split_and!; try done. eapply (FollowsArrayEnd _ _ _ []); eauto using blank_nil.
Qed.

(** Behind a value no number goes on. *)
Lemma follows_stop x y l ts c : after_value x = Some y -> follows sha256 y l ts c -> stops number_stop l.
Proof.
  intros Hy H.
  assert (forall w b k, blank w -> number_stop b = false -> stops number_stop (w ++ b :: k)) as Hgo.
  { intros [|b' w] b k Hw Hb; [done|]. apply Forall_inv in Hw. simpl. unfold is_blank in Hw.
    rewrite !orb_true_iff, !Z.eqb_eq in Hw. by destruct_or! Hw; subst. }
  destruct x as [|[|f fs]]; [|done|]; [injection Hy as <-|destruct f; try done; injection Hy as <-];
    inversion H as [w Hw| | | | | | | |]; simplify_eq/=; try naive_solver.
  destruct Hw as [|b w Hb]; [done|]. simpl. unfold is_blank in Hb. rewrite !orb_true_iff, !Z.eqb_eq in Hb. by destruct_or! Hb; subst.
Qed.

(** ** What a round does *)
Definition extends (r r' : Reader) (l : list Z) (ts : list Lexeme) (c : list Z) : Prop :=
  forall k ts' c', follows sha256 (place r') k ts' c' -> follows sha256 (place r) (l ++ k) (ts ++ ts') (c ++ c').

(** The token [t], whose text is [x], behind [pre]. *)
Record token_read (r : Reader) (t : JsonToken) (pre x : list Z) : Prop := {
  read_some : x <> [];
  read_start : token_start t = (offset r + Z.of_nat (length pre))%Z;
  read_end : token_end t = (offset r + Z.of_nat (length (pre ++ x)))%Z
}.

Inductive rounds (r : Reader) : option (option JsonToken) -> Reader -> Prop :=
| RoundAgain r' l c : wf r' -> l <> [] -> took r r' l c -> extends r r' l [] c -> rounds r None r'
| RoundEnd r' l c : wf r' -> took r r' l c -> rest r' = [] -> follows sha256 (place r) l [] c -> rounds r (Some None) r'
| RoundToken r' t pre x c :
    wf r' -> took r r' (pre ++ x) (c ++ x) -> token_read r t pre x -> extends r r' (pre ++ x) [(token_kind t, x)] (c ++ x) ->
    rounds r (Some (Some t)) r'.

Lemma rounds_before r r1 l c o r' : took r r1 l c -> extends r r1 l [] c -> rounds r1 o r' -> rounds r o r'.
Proof.
  intros H1 X1 [r2 l2 c2 Hwf Hl H2 X2|r2 l2 c2 Hwf H2 Hend X2|r2 t pre x c2 Hwf H2 [Hx Hs He] X2];
    pose proof (took_trans _ _ _ _ _ _ _ H1 H2) as H.
  - apply (RoundAgain _ _ (l ++ l2) (c ++ c2)); [done| |done|]; [by intros [_ ?]%app_nil|].
    intros k ts c' Hk. rewrite <- !app_assoc. by apply (X1 _ ts), (X2 _ ts).
  - apply (RoundEnd _ _ (l ++ l2) (c ++ c2)); try done. by apply (X1 l2 []).
  - rewrite !app_assoc in H. apply (RoundToken _ _ _ (l ++ pre) x (c ++ c2)); [done|done| |].
    + destruct H1 as [_ _ O1 _ _ _]. constructor; [done|..]; rewrite ?Hs, ?He, ?length_app in *; lia.
    + intros k ts c' Hk. rewrite <- !app_assoc. apply (X1 _ (_ :: ts)). specialize (X2 _ _ _ Hk). by rewrite <- !app_assoc in X2.
Qed.

(** *** The operation, cut in two *)
Definition token_at (start : Z) (kind : M TokenKind) : M (option (option JsonToken)) :=
  kind ← kind; r ← get;
  mret (Some (Some {| token_start := start; token_end := offset r; token_kind := kind |})).

Definition at_frame (r : Reader) : M (option (option JsonToken)) :=
  match frames r with
  | [] =>
      if started r then
        b ← peek;
        match b with None => mret (Some None) | Some _ => fail MalformedJson end
      else token_at (offset r) (_ ← modify set_started; value sha256)
  | Colon :: _ => _ ← expected 58; _ ← set_frame ObjectValue; mret None
  | ObjectFirst :: _ =>
      b ← peek;
      if decide (b = Some 125%Z) then token_at (offset r) (_ ← byte true; _ ← pop_frame; mret ObjectEnd)
      else token_at (offset r) (k ← string_token sha256 true; _ ← set_frame Colon; mret k)
  | ObjectKey :: _ => token_at (offset r) (k ← string_token sha256 true; _ ← set_frame Colon; mret k)
  | ObjectValue :: _ => token_at (offset r) (_ ← set_frame ObjectNext; value sha256)
  | ArrayFirst :: _ =>
      b ← peek;
      if decide (b = Some 93%Z) then token_at (offset r) (_ ← byte true; _ ← pop_frame; mret ArrayEnd)
      else token_at (offset r) (_ ← set_frame ArrayNext; value sha256)
  | ArrayValue :: _ => token_at (offset r) (_ ← set_frame ArrayNext; value sha256)
  | ObjectNext :: _ =>
      b ← peek;
      if decide (b = Some 44%Z) then _ ← byte true; _ ← set_frame ObjectKey; mret None
      else token_at (offset r) (_ ← expected 125; _ ← pop_frame; mret ObjectEnd)
  | ArrayNext :: _ =>
      b ← peek;
      if decide (b = Some 44%Z) then _ ← byte true; _ ← set_frame ArrayValue; mret None
      else token_at (offset r) (_ ← expected 93; _ ← pop_frame; mret ArrayEnd)
  end.

Lemma next_round_parts : next_round sha256 = (_ ← whitespace; r ← get; at_frame r).
Proof. reflexivity. Qed.

Lemma leads_token_at E start kind r Q :
  leads E kind r (fun k r' => Q (Some (Some {| token_start := start; token_end := offset r'; token_kind := k |})) r') ->
  leads E (token_at start kind) r Q.
Proof. intros H. apply leads_bind. eapply leads_mono; [done|]. intros k r' HQ. apply leads_bind, leads_get. by apply leads_ret. Qed.

(** ** A round gives what the grammar has *)
(** What a token is, for the round that takes it. *)
Definition taken (r : Reader) (kind : TokenKind) (r' : Reader) : Prop :=
  exists x, wf r' /\ x <> [] /\ took r r' x x /\ extends r r' x [(kind, x)] x.

Lemma leads_round_token E r m : leads E m r (taken r) -> leads E (token_at (offset r) m) r (rounds r).
Proof.
  intros H. apply leads_token_at. eapply leads_mono; [done|]. intros kind r' (x & Hwf & Hx & Ht & HX).
  apply (RoundToken _ _ _ [] x []); [done|done| |done]. constructor; simpl; [done|lia|]. by destruct Ht.
Qed.

Lemma scalar_not_empty t x : scalar_lexeme sha256 (t, x) -> x <> [].
Proof.
  intros [([] & Ht)|[Ht|[(l & Ht & Hl)|(s & Ht & body & Hs & _)]]]; injection Ht as -> ->; try done.
  - by destruct (number_first _ Hl) as (b & k & -> & _).
  - by rewrite Hs.
Qed.

Lemma place_started r : started r = true -> place r = Within (frames r).
Proof. unfold place. by intros ->. Qed.

(** The reader once a value is being read: its innermost frame is set already. *)
Record value_place (r r0 : Reader) : Prop := {
  vp_took : took r r0 [] [];
  vp_started : started r0 = true;
  vp_after : after_value (place r) = Some (Within (frames r0));
  vp_depth : length (frames r0) <= max_containers
}.

Lemma leads_value_taken E r r0 :
  value_place r r0 -> E MalformedJson -> E LoaderDepthExceeded -> leads E (value sha256) r0 (taken r).
Proof.
  intros [H0 S0 A0 D0] He Hdeep. assert (ready r0) as Hr by by destruct H0.
  assert (forall r' f b, length (frames r0) < max_containers -> advanced r0 r' [b] [b] ->
    wf (set_frames r' (f :: frames r')) /\ took r (set_frames r' (f :: frames r')) [b] [b] /\
    place (set_frames r' (f :: frames r')) = Within (f :: frames r0)) as Hopen.
  { intros r' f b Hlt H. assert (frames r' = frames r0 /\ started r' = true) as [F S] by (destruct H; split; congruence). split_and!.
    - constructor; [by apply ready_frames; destruct H|simpl; congruence|simpl; rewrite F; lia].
    - apply took_frames. by apply (took_trans _ _ _ [] _ [] _ H0), took_of.
    - rewrite place_started by done. simpl. by rewrite F. }
  apply leads_value; [done..| | |].
  - intros t x r' Ht H. assert (frames r' = frames r0 /\ started r' = true) as [F S] by (destruct H; split; congruence).
    exists x. split_and!.
    + constructor; [by destruct H|congruence|by rewrite F].
    + by eapply scalar_not_empty.
    + by apply (took_trans _ _ _ [] _ [] _ H0), took_of.
    + intros k ts c Hk. rewrite place_started, F in Hk by done.
      eapply (FollowsScalar _ _ _ [] (t, x)); [done|apply blank_nil|done|done].
  - intros r' Hlt H. destruct (Hopen r' ArrayFirst 91%Z Hlt H) as (Hwf & Ht & Hp). exists [91%Z]. split_and!; try done.
    intros k ts c Hk. rewrite Hp in Hk. by eapply (FollowsArray _ _ _ []); [done|done|apply blank_nil|].
  - intros r' Hlt H. destruct (Hopen r' ObjectFirst 123%Z Hlt H) as (Hwf & Ht & Hp). exists [123%Z]. split_and!; try done.
    intros k ts c Hk. rewrite Hp in Hk. by eapply (FollowsObject _ _ _ []); [done|done|apply blank_nil|].
Qed.

(** The reader before a value, and once it has set its frame. *)
Lemma value_place_frame r f fs g :
  wf r -> started r = true -> frames r = f :: fs -> after_value (Within (f :: fs)) = Some (Within (g :: fs)) ->
  value_place r (set_frames r (g :: fs)).
Proof.
  intros [Hr _ Hd] Hs Hf Hg. rewrite Hf in Hd. constructor; [by apply took_frames, took_refl|done| |done].
  by rewrite place_started, Hf.
Qed.
Lemma value_place_start r : wf r -> started r = false -> value_place r (set_started r).
Proof.
  intros [Hr Hs' Hd] Hs. specialize (Hs' Hs). constructor; [|done| |done].
  - pose proof (ready_started _ Hr). constructor; simpl; rewrite ?app_nil_r; try done. lia.
  - unfold place. simpl. by rewrite Hs, Hs'.
Qed.

(** The reader once bytes have been read and the innermost frame is another. *)
Lemma frame_moved r r' b fs :
  wf r -> started r = true -> advanced r r' b b -> length fs <= length (frames r) ->
  wf (set_frames r' fs) /\ took r (set_frames r' fs) b b /\ place (set_frames r' fs) = Within fs.
Proof.
  intros [Hr _ Hd] Hs H Hfs. assert (started r' = true) as S by (destruct H; congruence). split_and!.
  - constructor; [by apply ready_frames; destruct H|simpl; congruence|simpl; lia].
  - by apply took_frames, took_of.
  - by rewrite place_started.
Qed.

Lemma leads_close E r f fs (b : Z) kind :
  wf r -> started r = true -> frames r = f :: fs ->
  (f = ObjectFirst \/ f = ObjectNext) /\ b = 125%Z /\ kind = ObjectEnd \/
  (f = ArrayFirst \/ f = ArrayNext) /\ b = 93%Z /\ kind = ArrayEnd ->
  forall r1, advanced r r1 [b] [b] -> leads E (_ ← pop_frame; mret kind) r1 (taken r).
Proof.
  intros Hwf Hs Hf Hb r1 H1. apply leads_bind, leads_modify; [done|]. apply leads_ret. assert (frames r1 = f :: fs) as -> by (destruct H1; congruence). simpl.
  destruct (frame_moved r r1 [b] fs) as (Hwf' & Ht & Hp); [done..|rewrite Hf; simpl; lia|].
  exists [b]. split_and!; try done. intros k ts c Hk. rewrite Hp in Hk. rewrite place_started, Hf by done.
  destruct Hb as [(Hb & -> & ->)|(Hb & -> & ->)].
  - by apply (FollowsObjectEnd _ _ _ []); [|apply blank_nil|].
  - by apply (FollowsArrayEnd _ _ _ []); [|apply blank_nil|].
Qed.

Lemma leads_key E r f fs :
  wf r -> started r = true -> frames r = f :: fs -> f = ObjectFirst \/ f = ObjectKey -> E MalformedJson ->
  leads E (k ← string_token sha256 true; _ ← set_frame Colon; mret k) r (taken r).
Proof.
  intros Hwf Hs Hf Hk He. pose proof Hwf as [Hr _ _]. apply leads_bind, leads_string_token; [done..|]. intros s r1 Hstr H1.
  apply leads_bind, leads_modify; [done|]. apply leads_ret. assert (frames r1 = f :: fs) as -> by (destruct H1; congruence). simpl.
  destruct (frame_moved r r1 (str_text s) (Colon :: fs)) as (Hwf' & Ht & Hp); [done..|rewrite Hf; simpl; lia|].
  exists (str_text s). split_and!; try done; [by destruct Hstr as (? & -> & _)|].
  intros k ts c Hk'. rewrite Hp in Hk'. rewrite place_started, Hf by done.
  by apply (FollowsKey _ _ _ []); [|apply blank_nil|..].
Qed.

Lemma leads_separator E r f fs g (b : Z) :
  wf r -> started r = true -> frames r = f :: fs ->
  (f = Colon /\ g = ObjectValue /\ b = 58%Z \/ (f = ObjectNext /\ g = ObjectKey \/ f = ArrayNext /\ g = ArrayValue) /\ b = 44%Z) ->
  forall r1, advanced r r1 [b] [b] -> leads E (_ ← set_frame g; mret None) r1 (rounds r).
Proof.
  intros Hwf Hs Hf Hb r1 H1. apply leads_bind, leads_modify; [done|]. apply leads_ret. assert (frames r1 = f :: fs) as -> by (destruct H1; congruence). simpl.
  destruct (frame_moved r r1 [b] (g :: fs)) as (Hwf' & Ht & Hp); [done..|rewrite Hf; simpl; lia|].
  apply (RoundAgain _ _ [b] [b]); try done. intros k ts c Hk. rewrite Hp in Hk. rewrite place_started, Hf by done.
  destruct Hb as [(-> & -> & ->)|(Hb & ->)]; simpl.
  - by apply (FollowsColon _ _ []); [apply blank_nil|].
  - by apply (FollowsComma _ _ g _ []); [|apply blank_nil|].
Qed.

(** Nothing happens to a reader that looks ahead. *)
Lemma advanced_wf r r1 c l : wf r -> advanced r r1 l c -> wf r1.
Proof. intros [_ Hs Hd] []. constructor; [done|intros ?; rewrite adv_frames; apply Hs; congruence|by rewrite adv_frames]. Qed.
Lemma advanced_place r r1 c l : advanced r r1 l c -> place r1 = place r.
Proof. intros []. unfold place. by rewrite adv_frames, adv_started. Qed.
Lemma blank_rounds r r1 w o r' : advanced r r1 w [] -> blank w -> rounds r1 o r' -> rounds r o r'.
Proof.
  intros H Hw. apply (rounds_before _ _ w []); [by apply took_of|]. intros k ts c Hk. rewrite (advanced_place _ _ _ _ H) in Hk.
  by apply follows_blank.
Qed.

Lemma leads_peek_rounds E (k : option Z -> M (option (option JsonToken))) r :
  wf r ->
  (forall r1, wf r1 -> started r1 = started r -> frames r1 = frames r -> offset r1 = offset r ->
     leads E (k (head (rest r1))) r1 (rounds r1)) ->
  leads E (b ← peek; k b) r (rounds r).
Proof.
  intros Hwf Hk. apply leads_peek_at; [by destruct Hwf|]. intros r1 H1. eapply leads_mono.
  - apply Hk; [by eapply advanced_wf|by destruct H1..|]. destruct H1. simpl in *. lia.
  - intros o r'. by apply (blank_rounds _ _ []); [|apply blank_nil].
Qed.

Lemma leads_at_frame E r : wf r -> E MalformedJson -> E LoaderDepthExceeded -> leads E (at_frame r) r (rounds r).
Proof.
  intros Hwf He Hdeep. pose proof Hwf as [Hr Hst _]. unfold at_frame. destruct (frames r) as [|f fs] eqn:Hf.
  { destruct (started r) eqn:Hs.
    - apply leads_peek_rounds; [done|]. intros r1 Hwf1 S1 F1 _. destruct (rest r1) as [|b k] eqn:Hend; [|by apply leads_fail].
      apply leads_ret, (RoundEnd _ _ [] []); [done|apply took_refl; by destruct Hwf1|done|].
      rewrite place_started, F1, Hf by congruence. apply FollowsEnd, blank_nil.
    - apply leads_round_token, leads_bind, leads_modify; [done|]. apply leads_value_taken; [by apply value_place_start|done..]. }
  assert (started r = true) as Hs by (destruct (started r); [done|]; by specialize (Hst eq_refl)).
  destruct f.
  - apply leads_peek_rounds; [done|]. intros r1 Hwf1 S1 F1 <-. rewrite Hf in F1. rewrite Hs in S1. pose proof Hwf1 as [Hr1 _ _].
    destruct (decide _) as [Hb|_]; apply leads_round_token; [|by eapply leads_key; eauto].
    apply leads_bind. eapply leads_byte_at; [done..|]. eapply leads_close; eauto 10.
  - apply leads_round_token. eapply leads_key; eauto.
  - apply leads_bind, leads_expected; [done..|]. eapply leads_separator; eauto 10.
  - apply leads_round_token, leads_bind, leads_modify; [done|]. rewrite Hf. by eapply leads_value_taken; [eapply value_place_frame|..].
  - apply leads_peek_rounds; [done|]. intros r1 Hwf1 S1 F1 <-. rewrite Hf in F1. rewrite Hs in S1. pose proof Hwf1 as [Hr1 _ _].
    destruct (decide _) as [Hb|_].
    + apply leads_bind. eapply leads_byte_at; [done..|]. eapply leads_separator; eauto 10.
    + apply leads_round_token, leads_bind, leads_expected; [done..|]. eapply leads_close; eauto 10.
  - apply leads_peek_rounds; [done|]. intros r1 Hwf1 S1 F1 <-. rewrite Hf in F1. rewrite Hs in S1. pose proof Hwf1 as [Hr1 _ _].
    destruct (decide _) as [Hb|_]; apply leads_round_token.
    + apply leads_bind. eapply leads_byte_at; [done..|]. eapply leads_close; eauto 10.
    + apply leads_bind, leads_modify; [done|]. rewrite F1. by eapply leads_value_taken; [eapply value_place_frame|..].
  - apply leads_round_token, leads_bind, leads_modify; [done|]. rewrite Hf. by eapply leads_value_taken; [eapply value_place_frame|..].
  - apply leads_peek_rounds; [done|]. intros r1 Hwf1 S1 F1 <-. rewrite Hf in F1. rewrite Hs in S1. pose proof Hwf1 as [Hr1 _ _].
    destruct (decide _) as [Hb|_].
    + apply leads_bind. eapply leads_byte_at; [done..|]. eapply leads_separator; eauto 10.
    + apply leads_round_token, leads_bind, leads_expected; [done..|]. eapply leads_close; eauto 10.
Qed.

Lemma leads_next_round E r : wf r -> E MalformedJson -> E LoaderDepthExceeded -> leads E (next_round sha256) r (rounds r).
Proof.
  intros Hwf He Hdeep. rewrite next_round_parts. apply leads_bind, leads_whitespace; [by destruct Hwf|]. intros w r1 H1 Hw _.
  apply leads_bind, leads_get. eapply leads_mono; [apply leads_at_frame; [by eapply advanced_wf|done..]|].
  intros o r'. by apply (blank_rounds _ _ w).
Qed.
End rounds.

(** * A round takes what is there *)
Section complete.
Context (sha256 : list Z -> list Z) (E : JsonFailure -> Prop).

(** ** What a round does where the grammar goes on with [ts] and [c] *)
Inductive goes_on (r : Reader) (ts : list Lexeme) (c : list Z) : option (option JsonToken) -> Reader -> Prop :=
| OnAgain r' l c1 c2 :
    wf r' -> l <> [] -> took r r' l c1 -> c = c1 ++ c2 -> follows sha256 (place r') (rest r') ts c2 -> goes_on r ts c None r'
| OnEnd r' l : wf r' -> took r r' l c -> rest r' = [] -> ts = [] -> goes_on r ts c (Some None) r'
| OnToken r' t pre x c1 c2 ts' :
    wf r' -> took r r' (pre ++ x) (c1 ++ x) -> token_read r t pre x -> ts = (token_kind t, x) :: ts' -> c = (c1 ++ x) ++ c2 ->
    follows sha256 (place r') (rest r') ts' c2 -> goes_on r ts c (Some (Some t)) r'.

Definition token_goes (r : Reader) (ts : list Lexeme) (c : list Z) (kind : TokenKind) (r' : Reader) : Prop :=
  exists x ts' c2, wf r' /\ x <> [] /\ took r r' x x /\ ts = (kind, x) :: ts' /\ c = x ++ c2 /\ follows sha256 (place r') (rest r') ts' c2.

Lemma leads_token_goes r m ts c : leads E m r (token_goes r ts c) -> leads E (token_at (offset r) m) r (goes_on r ts c).
Proof.
  intros H. apply leads_token_at. eapply leads_mono; [done|]. intros kind r' (x & ts' & c2 & Hwf & Hx & Ht & -> & -> & HX).
  apply (OnToken _ _ _ _ _ [] x [] c2 ts'); try done. constructor; simpl; [done|lia|]. by destruct Ht.
Qed.

Lemma goes_on_before r r1 l c1 c ts o r' : took r r1 l c1 -> goes_on r1 ts c o r' -> goes_on r ts (c1 ++ c) o r'.
Proof.
  intros H1 [r2 l2 c2 c3 Hwf Hl H2 -> X2|r2 l2 Hwf H2 Hend ->|r2 t pre x c2 c3 ts' Hwf H2 [Hx Hs He] -> -> X2];
    pose proof (took_trans _ _ _ _ _ _ _ H1 H2) as H.
  - apply (OnAgain _ _ _ _ (l ++ l2) (c1 ++ c2) c3); try done; [by intros [_ ?]%app_nil|by rewrite app_assoc].
  - by apply (OnEnd _ _ _ _ (l ++ l2)).
  - rewrite !app_assoc in H. apply (OnToken _ _ _ _ _ (l ++ pre) x (c1 ++ c2) c3 ts'); try done; [|by rewrite !app_assoc].
    destruct H1 as [_ _ O1 _ _ _]. constructor; [done|..]; rewrite ?Hs, ?He, ?length_app in *; lia.
Qed.
Lemma blank_goes_on r r1 w ts c o r' : advanced r r1 w [] -> goes_on r1 ts c o r' -> goes_on r ts c o r'.
Proof. intros H. apply (goes_on_before _ _ w []). by apply took_of. Qed.

Lemma leads_peek_goes (k : option Z -> M (option (option JsonToken))) r ts c :
  wf r ->
  (forall r1, wf r1 -> started r1 = started r -> frames r1 = frames r -> offset r1 = offset r -> rest r1 = rest r ->
     leads E (k (head (rest r))) r1 (goes_on r1 ts c)) ->
  leads E (b ← peek; k b) r (goes_on r ts c).
Proof.
  intros Hwf Hk. apply leads_peek_at; [by destruct Hwf|]. intros r1 H1. pose proof (adv_rest _ _ _ _ H1) as Er. simpl in Er.
  rewrite <- Er. eapply leads_mono.
  - apply Hk; [by eapply advanced_wf|by destruct H1..| |done]. destruct H1. simpl in *. lia.
  - intros o r'. by apply (blank_goes_on _ _ []).
Qed.

(** ** Values *)
Lemma value_scalar_goes r r0 t x l ts c :
  value_place r r0 -> scalar_lexeme sha256 (t, x) -> rest r = x ++ l -> follows sha256 (Within (frames r0)) l ts c ->
  leads E (value sha256) r0 (token_goes r ((t, x) :: ts) (x ++ c)).
Proof.
  intros [H0 S0 A0 D0] Ht Hl Hf. assert (ready r0) as Hr by by destruct H0.
  pose proof (took_left _ _ [] _ _ H0 Hl) as Hl0.
  apply (leads_value_ok _ _ t x l); [done..|by eapply follows_stop|]. intros r' H.
  assert (frames r' = frames r0 /\ started r' = true) as [F S] by (destruct H; split; congruence).
  exists x, ts, c. split_and!; try done.
  - constructor; [by destruct H|congruence|by rewrite F].
  - by eapply scalar_not_empty.
  - by apply (took_trans _ _ _ [] _ [] _ H0), took_of.
  - rewrite place_started, F by done. by rewrite (advanced_left _ _ _ _ _ H Hl0).
Qed.

Lemma value_open_goes r r0 (b : Z) f kind l ts c :
  value_place r r0 -> b = 91%Z /\ f = ArrayFirst /\ kind = ArrayStart \/ b = 123%Z /\ f = ObjectFirst /\ kind = ObjectStart ->
  length (frames r0) < max_containers -> rest r = b :: l -> follows sha256 (Within (f :: frames r0)) l ts c ->
  leads E (value sha256) r0 (token_goes r ((kind, [b]) :: ts) (b :: c)).
Proof.
  intros [H0 S0 A0 D0] Hb Hd Hl Hf. assert (ready r0) as Hr by by destruct H0.
  pose proof (took_left _ _ [] _ _ H0 Hl) as Hl0.
  apply (leads_value_open _ _ b l); [done|naive_solver|done|done|]. intros r' H.
  assert (frames r' = frames r0 /\ started r' = true) as [F S] by (destruct H; split; congruence).
  assert ((if (b =? 123)%Z then ObjectStart else ArrayStart) = kind /\ (if (b =? 123)%Z then ObjectFirst else ArrayFirst) = f) as [-> ->]
    by (destruct Hb as [(-> & -> & ->)|(-> & -> & ->)]; done).
  exists [b], ts, c. split_and!; try done.
  - constructor; [by apply ready_frames; destruct H|simpl; congruence|simpl; rewrite F; lia].
  - apply took_frames. by apply (took_trans _ _ _ [] _ [] _ H0), took_of.
  - rewrite place_started by done. simpl. rewrite F. change (rest (set_frames r' _)) with (rest r').
    by rewrite (advanced_left _ _ [_] _ _ H Hl0).
Qed.

Lemma place_inv r fs : wf r -> place r = Within fs -> started r = true /\ frames r = fs.
Proof. unfold place. destruct (started r); [|done]. by intros _ [= ->]. Qed.

(** Wherever a value may come, the round reads one. *)
Lemma leads_value_round r y ts c :
  wf r -> after_value (place r) = Some y -> head (rest r) <> Some 93%Z ->
  (forall r1 r0, value_place r1 r0 -> y = Within (frames r0) -> rest r1 = rest r -> leads E (value sha256) r0 (token_goes r1 ts c)) ->
  leads E (at_frame sha256 r) r (goes_on r ts c).
Proof.
  intros Hwf Hy Hb Hv. pose proof Hwf as [Hr Hst _]. destruct (place r) as [|[|f fs]] eqn:Hp; [|done|].
  { assert (started r = false) as Hs by (unfold place in Hp; by destruct (started r)).
    unfold at_frame. rewrite Hst, Hs by done. apply leads_token_goes, leads_bind, leads_modify; [done|].
    apply Hv; [by apply value_place_start| |done]. injection Hy as <-. simpl. by rewrite Hst. }
  destruct (place_inv _ _ Hwf Hp) as [Hs Hf]. unfold at_frame. rewrite Hf. destruct f; try done; injection Hy as <-.
  - apply leads_token_goes, leads_bind, leads_modify; [done|]. rewrite Hf. by apply Hv; [eapply value_place_frame|..].
  - apply leads_peek_goes; [done|]. intros r1 Hwf1 S1 F1 <- Hrest. rewrite decide_False by done.
    apply leads_token_goes, leads_bind, leads_modify; [done|]. rewrite F1, Hf. apply Hv; [|done..].
    eapply value_place_frame; [done|congruence|by rewrite F1|done].
  - apply leads_token_goes, leads_bind, leads_modify; [done|]. rewrite Hf. by apply Hv; [eapply value_place_frame|..].
Qed.

(** ** Keys, separators and ends *)
Lemma leads_key_goes r f fs s l ts c :
  wf r -> started r = true -> frames r = f :: fs -> string_text s -> rest r = str_text s ++ l ->
  follows sha256 (Within (Colon :: fs)) l ts c ->
  leads E (k ← string_token sha256 true; _ ← set_frame Colon; mret k) r
    (token_goes r (string_lexeme sha256 true s :: ts) (str_text s ++ c)).
Proof.
  intros Hwf Hs Hf Hstr Hl Hfol. pose proof Hwf as [Hr _ _]. apply leads_bind. eapply leads_string_token_ok; [done..|]. intros r1 H1.
  apply leads_bind, leads_modify; [done|]. apply leads_ret. assert (frames r1 = f :: fs) as -> by (destruct H1; congruence). simpl.
  destruct (frame_moved r r1 (str_text s) (Colon :: fs)) as (Hwf' & Ht & Hp); [done..|rewrite Hf; simpl; lia|].
  exists (str_text s), ts, c. split_and!; try done; [by destruct Hstr as (? & -> & _)|].
  rewrite Hp. by rewrite (took_left _ _ _ _ _ Ht Hl).
Qed.

Lemma leads_close_goes r f fs (b : Z) kind l ts c :
  wf r -> started r = true -> frames r = f :: fs -> rest r = b :: l -> follows sha256 (Within fs) l ts c ->
  forall r1, advanced r r1 [b] [b] -> leads E (_ ← pop_frame; mret kind) r1 (token_goes r ((kind, [b]) :: ts) (b :: c)).
Proof.
  intros Hwf Hs Hf Hl Hfol r1 H1. apply leads_bind, leads_modify; [done|]. apply leads_ret.
  assert (frames r1 = f :: fs) as -> by (destruct H1; congruence). simpl.
  destruct (frame_moved r r1 [b] fs) as (Hwf' & Ht & Hp); [done..|rewrite Hf; simpl; lia|].
  exists [b], ts, c. split_and!; try done. rewrite Hp. by rewrite (took_left _ _ [_] _ _ Ht Hl).
Qed.

Lemma leads_separator_goes r f fs g (b : Z) l ts c :
  wf r -> started r = true -> frames r = f :: fs -> rest r = b :: l -> follows sha256 (Within (g :: fs)) l ts c ->
  forall r1, advanced r r1 [b] [b] -> leads E (_ ← set_frame g; mret None) r1 (goes_on r ts (b :: c)).
Proof.
  intros Hwf Hs Hf Hl Hfol r1 H1. apply leads_bind, leads_modify; [done|]. apply leads_ret.
  assert (frames r1 = f :: fs) as -> by (destruct H1; congruence). simpl.
  destruct (frame_moved r r1 [b] (g :: fs)) as (Hwf' & Ht & Hp); [done..|rewrite Hf; simpl; lia|].
  apply (OnAgain _ _ _ _ [b] [b] c); try done. rewrite Hp. by rewrite (took_left _ _ [_] _ _ Ht Hl).
Qed.

(** A separator or an end that [expected] or [byte] reads. *)
Lemma leads_read_ok {A} (b : Z) l r (m : M A) Q :
  ready r -> rest r = b :: l -> (forall r1, advanced r r1 [b] [b] -> leads E m r1 Q) ->
  leads E (_ ← byte true; m) r Q /\ leads E (_ ← expected b; m) r Q.
Proof.
  intros Hr Hl Hm. split; apply leads_bind; [by eapply leads_byte_some|by eapply leads_expected_ok].
Qed.

(** ** A round *)
Local Ltac no_blank :=
  match goal with
  | Hw : blank ?w, Hst : stops is_blank (?w ++ _) |- _ =>
      assert (w = []) as -> by (destruct w; [done|]; apply Forall_inv in Hw; simpl in Hst; congruence)
  end.

Lemma scalar_head t x l : scalar_lexeme sha256 (t, x) -> head (x ++ l) <> Some 93%Z.
Proof.
  intros [([] & Ht)|[Ht|[(n & Ht & Hn)|(s & Ht & body & Hs & _)]]]; injection Ht as -> ->; try done; [|by rewrite Hs].
  destruct (number_first _ Hn) as (b & k & -> & Hb). simpl. destruct Hb as [->|Hb]; [done|]. intros [= ->]. done.
Qed.

Lemma leads_at_frame_ok r x l ts c :
  wf r -> follows sha256 x l ts c -> x = place r -> l = rest r -> stops is_blank l -> leads E (at_frame sha256 r) r (goes_on r ts c).
Proof.
  intros Hwf. pose proof Hwf as [Hr _ Hd].
  destruct 1 as [w Hw|x y w [t txt] l ts c Hy Hw Ht H|x fs w l ts c Hy Hlt Hw H|x fs w l ts c Hy Hlt Hw H|f fs w s l ts c Hf Hw Hs H
    |fs w l ts c Hw H|f g fs w l ts c Hf Hw H|f fs w l ts c Hf Hw H|f fs w l ts c Hf Hw H]; intros Hx Hl Hst.
  - symmetry in Hx. destruct (place_inv _ _ Hwf Hx) as [S F]. unfold at_frame. rewrite F, S.
    apply leads_peek_goes; [done|]. intros r1 Hwf1 _ _ _ Hrest. rewrite <- Hl in *.
    destruct w as [|b w]; [|apply Forall_inv in Hw; simpl in Hst; congruence].
    apply leads_ret, (OnEnd _ _ _ _ []); try done. apply took_refl. by destruct Hwf1.
  - no_blank. subst x. simpl in *.
    eapply leads_value_round; [done|done|rewrite <- Hl; by eapply scalar_head|]. intros r1 r0 Hv -> Hrest.
    eapply value_scalar_goes; [done|done|by rewrite Hrest, <- Hl|done].
  - no_blank. subst x. simpl in *.
    eapply leads_value_round; [done|done|by rewrite <- Hl|]. intros r1 r0 Hv [= ->] Hrest.
    eapply value_open_goes; [done|by left|done|by rewrite Hrest, <- Hl|done].
  - no_blank. subst x. simpl in *.
    eapply leads_value_round; [done|done|by rewrite <- Hl|]. intros r1 r0 Hv [= ->] Hrest.
    eapply value_open_goes; [done|by right|done|by rewrite Hrest, <- Hl|done].
  - no_blank. simpl in *.
    symmetry in Hx. destruct (place_inv _ _ Hwf Hx) as [S F]. unfold at_frame. rewrite F. destruct Hf as [->| ->].
    + apply leads_peek_goes; [done|]. intros r1 Hwf1 S1 F1 <- Hrest.
      rewrite decide_False by (rewrite <- Hl; by destruct Hs as (? & -> & _)).
      apply leads_token_goes. eapply leads_key_goes; [done|congruence|by rewrite F1|done|by rewrite Hrest, <- Hl|done].
    + apply leads_token_goes. by eapply leads_key_goes.
  - no_blank. simpl in *.
    symmetry in Hx. destruct (place_inv _ _ Hwf Hx) as [S F]. unfold at_frame. rewrite F. symmetry in Hl.
    eapply leads_read_ok; [done..|]. by eapply leads_separator_goes.
  - no_blank. simpl in *.
    symmetry in Hx. destruct (place_inv _ _ Hwf Hx) as [S F]. unfold at_frame. rewrite F.
    destruct Hf as [(-> & ->)|(-> & ->)]; (apply leads_peek_goes; [done|]); intros r1 Hwf1 S1 F1 <- Hrest; rewrite <- Hl in *; simpl;
      rewrite F in F1; rewrite S in S1; pose proof Hwf1 as [Hr1 _ _];
      (eapply leads_read_ok; [done..|]); by eapply leads_separator_goes.
  - no_blank. simpl in *.
    symmetry in Hx. destruct (place_inv _ _ Hwf Hx) as [S F]. unfold at_frame. rewrite F.
    destruct Hf as [->| ->]; (apply leads_peek_goes; [done|]); intros r1 Hwf1 S1 F1 <- Hrest; rewrite <- Hl in *; simpl;
      rewrite F in F1; rewrite S in S1; pose proof Hwf1 as [Hr1 _ _]; apply leads_token_goes;
      (eapply leads_read_ok; [done..|]); by eapply leads_close_goes.
  - no_blank. simpl in *.
    symmetry in Hx. destruct (place_inv _ _ Hwf Hx) as [S F]. unfold at_frame. rewrite F.
    destruct Hf as [->| ->]; (apply leads_peek_goes; [done|]); intros r1 Hwf1 S1 F1 <- Hrest; rewrite <- Hl in *; simpl;
      rewrite F in F1; rewrite S in S1; pose proof Hwf1 as [Hr1 _ _]; apply leads_token_goes;
      (eapply leads_read_ok; [done..|]); by eapply leads_close_goes.
Qed.

Lemma leads_next_round_ok r ts c : wf r -> follows sha256 (place r) (rest r) ts c -> leads E (next_round sha256) r (goes_on r ts c).
Proof.
  intros Hwf H. destruct (follows_trim _ _ _ _ _ H) as (w & k & Hk & Hw & Hs & Hf). rewrite next_round_parts.
  apply leads_bind. eapply leads_whitespace_ok; [by destruct Hwf|done..|]. intros r1 H1. apply leads_bind, leads_get.
  rewrite <- (advanced_place _ _ _ _ H1) in Hf. rewrite <- (advanced_left _ _ _ _ _ H1 Hk) in Hs, Hf.
  eapply leads_mono; [eapply leads_at_frame_ok; [by eapply advanced_wf|done..]|]. intros o r'. by apply (blank_goes_on _ _ w).
Qed.
End complete.
