(* ===== verification/JsonClaims.v ===== *)
(** * The JSON reader reads JSON

    Whatever the pieces in which its input arrives: it takes the documents of the grammar
    that are not too deep and no others, and its tokens and digests are theirs. *)
From S2P Require Import Prelude Order Bytes Budget JsonReader JsonGrammar JsonLexer JsonRounds.

(** The text of a token in the document. *)
Definition text_of (bs : list Z) (t : JsonToken) : list Z :=
  take (Z.to_nat (token_end t) - Z.to_nat (token_start t)) (drop (Z.to_nat (token_start t)) bs).
Definition lexemes_of (bs : list Z) (ts : list JsonToken) : list Lexeme := map (fun t => (token_kind t, text_of bs t)) ts.

(** [r] is reading [bs]. *)
Definition reads (bs : list Z) (r : Reader) : Prop := bs = raw_hash r ++ rest r /\ offset r = Z.of_nat (length (raw_hash r)).

Lemma took_reads bs r r' l c : reads bs r -> took r r' l c -> reads bs r'.
Proof.
  intros [Hb Ho] [_ E1 O1 R1 _ _]. split; [by rewrite Hb, R1, E1, app_assoc|]. rewrite O1, R1, length_app, Ho. lia.
Qed.
Lemma token_text bs r r' t pre x c : reads bs r -> took r r' (pre ++ x) c -> token_read r t pre x -> text_of bs t = x.
Proof.
  intros [Hb Ho] [_ E1 _ _ _ _] [_ Hs He]. unfold text_of. rewrite Hb, E1, Hs, He, Ho, length_app.
  replace (Z.to_nat (Z.of_nat (length (raw_hash r)) + Z.of_nat (length pre))) with (length (raw_hash r ++ pre)) by (rewrite length_app; lia).
  replace (_ - _) with (length x) by (rewrite length_app; lia).
  rewrite <- !app_assoc, (app_assoc (raw_hash r)), drop_app_length. apply take_app_length.
Qed.

Section loops.
Context (sha256 : list Z -> list Z).

(** ** One token *)
Lemma leads_next_loop E fuel r :
  wf r -> E MalformedJson -> E LoaderDepthExceeded -> length (rest r) < fuel ->
  leads E (next_loop sha256 fuel) r (fun o => rounds sha256 r (Some o)).
Proof.
  revert r. induction fuel as [|fuel IH]; intros r Hwf He Hd Hf; [lia|]. cbn [next_loop]. apply leads_bind.
  eapply leads_mono; [by apply leads_next_round|]. intros [o|] r1 H1; [by apply leads_ret|].
  inversion H1 as [? l c Hwf1 Hl Ht HX| |]; subst. eapply leads_mono.
  - apply IH; [done..|]. destruct Ht as [_ Er _ _ _ _]. apply (f_equal length) in Er. rewrite length_app in Er.
    destruct l; [done|simpl in Er; lia].
  - intros o r2. by apply (rounds_before _ _ _ l c).
Qed.

Lemma leads_next_token E r :
  wf r -> failed r = false -> E MalformedJson -> E LoaderDepthExceeded ->
  leads E (next_token sha256) r (fun o => rounds sha256 r (Some o)).
Proof.
  intros Hwf Hf He Hd. pose proof (leads_next_loop E (S (length (rest r))) r Hwf He Hd ltac:(lia)) as H.
  unfold leads, next_token, next_inner, with_fuel in *. rewrite Hf. by destruct (next_loop _ _ _) as [[[o|e] r']|].
Qed.

Lemma leads_next_loop_ok E fuel r ts c :
  wf r -> follows sha256 (place r) (rest r) ts c -> length (rest r) < fuel ->
  leads E (next_loop sha256 fuel) r (fun o => goes_on sha256 r ts c (Some o)).
Proof.
  revert r c. induction fuel as [|fuel IH]; intros r c Hwf Hfol Hf; [lia|]. cbn [next_loop]. apply leads_bind.
  eapply leads_mono; [by apply leads_next_round_ok|]. intros [o|] r1 H1; [by apply leads_ret|].
  inversion H1 as [? l c1 c2 Hwf1 Hl Ht Hc Hfol1| |]; subst. eapply leads_mono.
  - apply IH; [done..|]. destruct Ht as [_ Er _ _ _ _]. apply (f_equal length) in Er. rewrite length_app in Er.
    destruct l; [done|simpl in Er; lia].
  - intros o r2. by apply (goes_on_before _ _ _ l).
Qed.

Lemma leads_next_token_ok E r ts c :
  wf r -> failed r = false -> follows sha256 (place r) (rest r) ts c ->
  leads E (next_token sha256) r (fun o => goes_on sha256 r ts c (Some o)).
Proof.
  intros Hwf Hf Hfol. pose proof (leads_next_loop_ok E (S (length (rest r))) r ts c Hwf Hfol ltac:(lia)) as H.
  unfold leads, next_token, next_inner, with_fuel in *. rewrite Hf. by destruct (next_loop _ _ _) as [[[o|e] r']|].
Qed.

(** ** All tokens *)
(** The document has been read to its end, with these tokens behind [before]. *)
Definition all_read (bs : list Z) (r : Reader) (before : list JsonToken) (ts : list Lexeme) (c : list Z)
    (toks : list JsonToken) (r' : Reader) : Prop :=
  exists more, toks = before ++ more /\ lexemes_of bs more = ts /\ raw_hash r' = bs /\ compact_hash r' = compact_hash r ++ c.

Lemma took_end bs r r' l c : reads bs r -> took r r' l c -> rest r' = [] -> raw_hash r' = bs.
Proof. intros Hb Ht Hr. destruct (took_reads _ _ _ _ _ Hb Ht) as [-> _]. by rewrite Hr, app_nil_r. Qed.

Lemma leads_tokens_loop E fuel bs before r :
  wf r -> reads bs r -> failed r = false -> E MalformedJson -> E LoaderDepthExceeded -> length (rest r) < fuel ->
  leads E (tokens_loop sha256 fuel before) r (fun toks r' =>
    exists ts c, follows sha256 (place r) (rest r) ts c /\ all_read bs r before ts c toks r').
Proof.
  revert before r. induction fuel as [|fuel IH]; intros before r Hwf Hb Hfail He Hd Hf; [lia|].
  cbn [tokens_loop]. apply leads_bind. eapply leads_mono; [by apply leads_next_token|]. intros o r1 H1.
  inversion H1 as [|? l c Hwf1 Ht Hend HX|? t pre x c Hwf1 Ht Hread HX]; subst.
  - apply leads_ret. exists [], c. pose proof (took_rest _ _ _ _ Ht) as Er. rewrite Hend, app_nil_r in Er. rewrite Er. split; [done|].
    exists []. rewrite app_nil_r. split_and!; [done..|by eapply took_end|by destruct Ht].
  - eapply leads_mono.
    + apply IH; [done|by eapply took_reads|destruct Ht; congruence|done..|].
      destruct Ht as [_ Er _ _ _ _], Hread as [Hx _ _]. apply (f_equal length) in Er. rewrite !length_app in Er.
      destruct x; [done|simpl in Er; lia].
    + intros toks r2 (ts & c2 & Hfol & more & -> & Hts & Hraw & Hc). exists ((token_kind t, x) :: ts), ((c ++ x) ++ c2).
      split; [rewrite (took_rest _ _ _ _ Ht); by apply (HX _ ts)|]. exists (t :: more). split_and!.
      * by rewrite <- app_assoc.
      * simpl. by rewrite (token_text _ _ _ _ _ _ _ Hb Ht Hread), <- Hts.
      * done.
      * rewrite Hc. destruct Ht as [_ _ _ _ -> _]. by rewrite <- !app_assoc.
Qed.

Lemma leads_tokens_loop_ok E fuel bs before r ts c :
  wf r -> reads bs r -> failed r = false -> follows sha256 (place r) (rest r) ts c -> length (rest r) < fuel ->
  leads E (tokens_loop sha256 fuel before) r (all_read bs r before ts c).
Proof.
  revert before r ts c. induction fuel as [|fuel IH]; intros before r ts c Hwf Hb Hfail Hfol Hf; [lia|].
  cbn [tokens_loop]. apply leads_bind. eapply leads_mono; [by apply leads_next_token_ok|]. intros o r1 H1.
  inversion H1 as [|? l Hwf1 Ht Hend Hts|? t pre x c1 c2 ts' Hwf1 Ht Hread Hts Hc Hfol1]; subst.
  - apply leads_ret. exists []. rewrite app_nil_r. split_and!; [done..|by eapply took_end|by destruct Ht].
  - eapply leads_mono.
    + apply IH; [done|by eapply took_reads|destruct Ht; congruence|done|].
      destruct Ht as [_ Er _ _ _ _], Hread as [Hx _ _]. apply (f_equal length) in Er. rewrite !length_app in Er.
      destruct x; [done|simpl in Er; lia].
    + intros toks r2 (more & -> & Hts & Hraw & Hc). exists (t :: more). split_and!.
      * by rewrite <- app_assoc.
      * simpl. by rewrite (token_text _ _ _ _ _ _ _ Hb Ht Hread), <- Hts.
      * done.
      * rewrite Hc. destruct Ht as [_ _ _ _ -> _]. by rewrite <- !app_assoc.
Qed.

(** [finish] takes the same tokens and drops them. *)
Lemma finish_loop_tokens fuel before r :
  finish_loop sha256 fuel r =
  match tokens_loop sha256 fuel before r with Some (Ok _, r') => Some (Ok (), r') | Some (Err e, r') => Some (Err e, r') | None => None end.
Proof.
  revert before r. induction fuel as [|fuel IH]; intros before r; [done|]. cbn [finish_loop tokens_loop].
  unfold mbind, M_bind. destruct (next_token sha256 r) as [[[[t|]|e] r']|]; [by apply IH|done..].
Qed.

(** ** The reader of a whole document *)
Section document.
Context (i : list ReadOutcome) (Hlive : Forall live i).
Let bs := i ≫= outcome_bytes.
Context (Hsize : (Z.of_nat (length bs) <= u64_max)%Z).

Lemma fresh_rest : rest (fresh_reader i) = bs.
Proof. done. Qed.
Lemma fresh_wf : wf (fresh_reader i).
Proof. constructor; [|done|simpl; lia]. constructor; simpl; [lia|done|lia|rewrite fresh_rest; lia]. Qed.
Lemma fresh_reads : reads bs (fresh_reader i).
Proof. done. Qed.

Lemma leads_all_tokens :
  leads syntax (all_tokens sha256) (fresh_reader i) (fun toks r' =>
    exists j, document_text j bs /\ depth j <= max_containers /\ lexemes_of bs toks = lexemes sha256 j /\
      raw_hash r' = bs /\ compact_hash r' = compact j).
Proof.
  eapply (leads_mono _ (all_tokens sha256)).
  - unfold all_tokens, with_fuel, leads.
    apply (leads_tokens_loop syntax _ bs [] (fresh_reader i)); [apply fresh_wf|apply fresh_reads|done|by left|by right|rewrite fresh_rest; lia].
  - intros toks r' (ts & c & Hfol & more & -> & Hts & Hraw & Hc). rewrite fresh_rest in Hfol. apply follows_tree in Hfol as (j & Hj & Hd & -> & ->).
    by exists j.
Qed.

Lemma leads_all_tokens_ok j :
  document_text j bs -> depth j <= max_containers ->
  leads never (all_tokens sha256) (fresh_reader i) (fun toks r' =>
    lexemes_of bs toks = lexemes sha256 j /\ raw_hash r' = bs /\ compact_hash r' = compact j).
Proof.
  intros Hj Hd. eapply (leads_mono _ (all_tokens sha256)).
  - unfold all_tokens, with_fuel, leads.
    apply (leads_tokens_loop_ok never _ bs [] (fresh_reader i) (lexemes sha256 j) (compact j)); [apply fresh_wf|apply fresh_reads|done| |rewrite fresh_rest; lia].
    rewrite fresh_rest. apply follows_tree. by exists j.
  - intros toks r' (more & -> & Hts & Hraw & Hc). done.
Qed.
End document.
End loops.

(** * What a user of the JSON reader may rely on *)
(** The bytes of an input, and that reading it gives no error. *)
Definition input_bytes (i : list ReadOutcome) : list Z := i ≫= outcome_bytes.
Record good_input (i : list ReadOutcome) : Prop := {
  good_live : Forall live i;
  good_size : (Z.of_nat (length (input_bytes i)) <= u64_max)%Z
}.
Definition no_error (i : list ReadOutcome) : Prop := forall k, ReadErr k ∉ i.

(** [bs] is a document, of the value [j], that is not too deep. *)
Definition readable (j : Json) (bs : list Z) : Prop := document_text j bs /\ depth j <= max_containers.

(** ** Without white space *)
Lemma compact_text :
  (forall j l, value_text j l -> value_text j (compact j)) /\
  (forall js l, elements_text js l -> elements_text js (commas (map compact js))) /\
  (forall ms l, members_text ms l -> members_text ms (commas (map (fun m => str_text m.1 ++ 58%Z :: compact m.2) ms))).
Proof.
  assert (blank []) as Hb by constructor. apply text_mutual.
  1-3: by intros; constructor. 1: by intros s Hs; apply TextString.
  - intros w _. by apply (TextNoElements []).
  - intros js l _ IH. by apply TextElements.
  - intros w _. by apply (TextNoMembers []).
  - intros ms l _ IH. by apply TextMembers.
  - intros j w1 l w2 _ _ IH _. simpl map. rewrite commas_one. rewrite <- (app_nil_r (compact j)). by apply (ElementsLast j [] _ []).
  - intros j w1 l w2 js k _ _ IH _ Hjs IHs. destruct js as [|j' js]; [by apply elements_nonempty in Hjs|].
    apply (ElementsMore j [] _ [] _ _ Hb IH Hb IHs).
  - intros s j w1 w2 w3 l w4 _ Hs _ _ _ IH _. simpl map. rewrite commas_one. 
    pose proof (MembersLast s j [] [] [] _ [] Hb Hs Hb Hb IH Hb) as H. simpl in H. by rewrite app_nil_r in H.
  - intros s j w1 w2 w3 l w4 ms k _ Hs _ _ _ IH _ Hms IHs. destruct ms as [|m ms]; [by apply members_nonempty in Hms|].
    pose proof (MembersMore s j [] [] [] _ [] _ _ Hb Hs Hb Hb IH Hb IHs) as H. simpl in H |- *. by rewrite <- app_assoc.
Qed.

(** The text without white space is a text of the same value. *)
Lemma compact_readable j bs : readable j bs -> readable j (compact j).
Proof.
  intros [(w1 & v & w2 & _ & _ & Hv & _) Hd]. split; [|done]. exists [], (compact j), []. rewrite app_nil_r.
  split_and!; [done|constructor| |constructor]. by apply (proj1 compact_text) in Hv.
Qed.

Section claims.
Context (sha256 : list Z -> list Z).

(** ** Tokens *)
Lemma all_tokens_spec i :
  good_input i ->
  match all_tokens sha256 (fresh_reader i) with
  | Some (Ok toks, r) =>
      exists j, readable j (input_bytes i) /\ lexemes_of (input_bytes i) toks = lexemes sha256 j /\
        raw_hash r = input_bytes i /\ compact_hash r = compact j
  | Some (Err e, _) => syntax e /\ (forall j, ~ readable j (input_bytes i)) \/ exists k, e = IoFailure k /\ ReadErr k ∈ i
  | None => False
  end.
Proof.
  intros [Hl Hs]. pose proof (leads_all_tokens sha256 i Hl Hs) as H. unfold leads in H.
  destruct (all_tokens sha256 (fresh_reader i)) as [[[toks|e] r']|] eqn:Ha; [| |done].
  - destruct H as (_ & j & Hj & Hd & Ht). by exists j.
  - destruct H as [H|H]; [|by right]. left. split; [done|]. intros j [Hj Hd].
    pose proof (leads_all_tokens_ok sha256 i Hl Hs j Hj Hd) as Hok. unfold leads in Hok. rewrite Ha in Hok.
    destruct Hok as [[]|(k & -> & _)]. by destruct H.
Qed.

(** C16: Whatever the input, and in whatever pieces and with whatever interruptions it
    arrives, taking the tokens ends.  Either the bytes are a document of the grammar with
    no more than 127 containers one inside the other, and the tokens are its lexemes in
    order, each with the bounds of its text, with the length and the digest of what a
    string stands for and with whether a producer would write it this way; or they are
    not, and the error says so; or it is an error of the input. *)
Theorem tokens_are_the_document i :
  good_input i ->
  match all_tokens sha256 (fresh_reader i) with
  | Some (Ok toks, _) => exists j, readable j (input_bytes i) /\ lexemes_of (input_bytes i) toks = lexemes sha256 j
  | Some (Err e, _) =>
      (e = MalformedJson \/ e = LoaderDepthExceeded) /\ (forall j, ~ readable j (input_bytes i)) \/
      exists k, e = IoFailure k /\ ReadErr k ∈ i
  | None => False
  end.
Proof.
  intros Hi. pose proof (all_tokens_spec i Hi) as H. destruct (all_tokens _ _) as [[[toks|e] r']|]; [|done..].
  destruct H as (j & Hj & Ht & _). by exists j.
Qed.

Lemma all_tokens_read i j :
  good_input i -> no_error i -> readable j (input_bytes i) ->
  exists toks r, all_tokens sha256 (fresh_reader i) = Some (Ok toks, r) /\
    lexemes_of (input_bytes i) toks = lexemes sha256 j /\ raw_hash r = input_bytes i /\ compact_hash r = compact j.
Proof.
  intros [Hl Hs] He [Hj Hd]. pose proof (leads_all_tokens_ok sha256 i Hl Hs j Hj Hd) as H. unfold leads in H.
  destruct (all_tokens sha256 (fresh_reader i)) as [[[toks|e] r']|]; [|destruct H as [[]|(k & _ & H)]; by apply He in H|done].
  destruct H as (_ & Ht). by exists toks, r'.
Qed.

(** A document is read, and to the lexemes of each of its values: the grammar is not
    ambiguous. *)
Theorem document_is_read i j :
  good_input i -> no_error i -> readable j (input_bytes i) ->
  exists toks r', all_tokens sha256 (fresh_reader i) = Some (Ok toks, r') /\ lexemes_of (input_bytes i) toks = lexemes sha256 j.
Proof. intros Hi He Hj. destruct (all_tokens_read i j Hi He Hj) as (toks & r & Ha & Ht & _). by exists toks, r. Qed.

(** ** Digests *)
Lemma finish_tokens i :
  finish sha256 (fresh_reader i) =
  match all_tokens sha256 (fresh_reader i) with
  | Some (Ok _, r) => Some (Ok (sha256 (raw_hash r), sha256 (compact_hash r)), r)
  | Some (Err e, r) => Some (Err e, r)
  | None => None
  end.
Proof.
  unfold finish, all_tokens, with_fuel, mbind, M_bind. rewrite (finish_loop_tokens _ _ []).
  by destruct (tokens_loop _ _ _ _) as [[[toks|e] r]|].
Qed.

Lemma finish_reads i j :
  good_input i -> no_error i -> readable j (input_bytes i) ->
  exists r, finish sha256 (fresh_reader i) = Some (Ok (sha256 (input_bytes i), sha256 (compact j)), r).
Proof.
  intros Hi He Hj. destruct (all_tokens_read i j Hi He Hj) as (toks & r & Ha & _ & <- & <-). exists r.
  by rewrite finish_tokens, Ha.
Qed.
Lemma finish_read i d r :
  good_input i -> finish sha256 (fresh_reader i) = Some (Ok d, r) ->
  exists j, readable j (input_bytes i) /\ d = (sha256 (input_bytes i), sha256 (compact j)).
Proof.
  intros Hi Hf. pose proof (all_tokens_spec i Hi) as H. rewrite finish_tokens in Hf.
  destruct (all_tokens _ _) as [[[toks|e] r']|]; [|done..]. destruct H as (j & Hj & _ & Hr & Hc).
  rewrite Hr, Hc in Hf. injection Hf as <- _. by exists j.
Qed.

(** [finish] succeeds on the documents and on nothing else; its first digest is that of
    the bytes, its second that of the text of the document's value without white space. *)
Theorem finish_digests i d :
  good_input i -> no_error i ->
  (exists r, finish sha256 (fresh_reader i) = Some (Ok d, r)) <->
  exists j, readable j (input_bytes i) /\ d = (sha256 (input_bytes i), sha256 (compact j)).
Proof.
  intros Hi He. split; [intros (r & Hf); by eapply finish_read|]. intros (j & Hj & ->). by apply finish_reads.
Qed.

(** C17: The digests of a document.  The first is that of the bytes that were read; the
    second is that of the compact text of the document that these bytes write, its tokens
    without white space between them.  Every other writing of the document, in whatever
    pieces it is read, has the same second digest; the compact text is one of them, and
    reading it gives this digest twice. *)
Theorem compact_digest i a b r :
  good_input i -> finish sha256 (fresh_reader i) = Some (Ok (a, b), r) ->
  exists j, readable j (input_bytes i) /\ a = sha256 (input_bytes i) /\ b = sha256 (compact j) /\
    (forall i', good_input i' -> no_error i' -> readable j (input_bytes i') ->
       exists r', finish sha256 (fresh_reader i') = Some (Ok (sha256 (input_bytes i'), b), r')) /\
    (forall i', good_input i' -> no_error i' -> input_bytes i' = compact j ->
       exists r', finish sha256 (fresh_reader i') = Some (Ok (b, b), r')).
Proof.
  intros Hi Hf. destruct (finish_read i _ r Hi Hf) as (j & Hj & [= -> ->]). exists j.
  do 3 (split; [done|]). split.
  - intros i' Hi' He' Hj'. by apply finish_reads.
  - intros i' Hi' He' Hl. apply compact_readable in Hj. rewrite <- Hl in Hj.
    destruct (finish_reads i' j Hi' He' Hj) as (r' & Hr'). exists r'. by rewrite Hr', Hl.
Qed.
End claims.

(** ** A document *)
(** A text with its quotes written as grave accents. *)
Definition quoted (s : string) : list Z := map (fun b => if (b =? 96)%Z then 34%Z else b) (str_bytes s).

(** A document that is cut within a number, an escape and white space, with an interruption. *)
Definition sample : list ReadOutcome :=
  [ReadOk (quoted "{`k`: [-0."); ReadInterrupted; ReadOk (quoted "5e+1, `\u00"); ReadOk (quoted "e9\n`],  ");
   ReadOk (quoted " `d`: {}} ")].

Lemma sample_good : good_input sample.
Proof. split; [repeat constructor; done|vm_compute; done]. Qed.
Lemma sample_no_error : no_error sample.
Proof. intros k. unfold sample. rewrite !elem_of_cons, elem_of_nil. intros H. by destruct_or! H. Qed.

Example sample_tokens :
  (fun x => match x with Some (Ok toks, _) => Some (lexemes_of (input_bytes sample) toks) | _ => None end)
    (all_tokens (fun l => l) (fresh_reader sample)) =
  Some [(ObjectStart, quoted "{"); (StringToken true 1 (quoted "k") true, quoted "`k`"); (ArrayStart, quoted "[");
    (NumberToken, quoted "-0.5e+1"); (StringToken false 3 [195; 169; 10]%Z false, quoted "`\u00e9\n`"); (ArrayEnd, quoted "]");
    (StringToken true 1 (quoted "d") true, quoted "`d`"); (ObjectStart, quoted "{"); (ObjectEnd, quoted "}"); (ObjectEnd, quoted "}")].
Proof. vm_compute. reflexivity. Qed.

Lemma tokens_are_the_document_witness :
  good_input sample /\ exists j, readable j (input_bytes sample).
Proof.
  split; [exact sample_good|]. pose proof (tokens_are_the_document (fun l => l) sample sample_good) as H.
  destruct (all_tokens _ _) as [[[toks|e] r']|] eqn:Ha; [|exfalso; vm_compute in Ha; discriminate Ha..].
  destruct H as (j & Hj & _). exists j. exact Hj.
Defined.

Lemma finish_digests_witness :
  good_input sample /\ exists j, readable j (input_bytes sample) /\ compact j = quoted "{`k`:[-0.5e+1,`\u00e9\n`],`d`:{}}".
Proof.
  split; [exact sample_good|].
  pose proof (proj1 (finish_digests (fun l => l) sample (input_bytes sample, quoted "{`k`:[-0.5e+1,`\u00e9\n`],`d`:{}}")
    sample_good sample_no_error)) as H.
  destruct H as (j & Hj & Hd); [eexists; vm_compute; reflexivity|]. exists j. split; [exact Hj|]. congruence.
Defined.

Lemma compact_digest_witness :
  good_input sample /\
  exists j, readable j (input_bytes sample) /\ compact j = quoted "{`k`:[-0.5e+1,`\u00e9\n`],`d`:{}}" /\
    forall i', good_input i' -> no_error i' -> input_bytes i' = compact j ->
      exists r', finish (fun l => l) (fresh_reader i') = Some (Ok (compact j, compact j), r').
Proof.
  split; [exact sample_good|].
  edestruct (compact_digest (fun l => l) sample (input_bytes sample) (quoted "{`k`:[-0.5e+1,`\u00e9\n`],`d`:{}}"))
    as (j & Hj & _ & Hb & _ & H); [exact sample_good|vm_compute; reflexivity|].
  cbv beta in Hb. exists j. split; [exact Hj|]. split; [symmetry; exact Hb|].
  intros i' Hi' He' Hl. rewrite <- Hb. apply H; assumption.
Defined.
