(* ===== verification/Controls.v ===== *)
(** * Control records of the storage maintenance (src/storage/maintenance_controls.rs)

    The fixed records of a publication: two data slots, and a selector with two regions of
    its own, the commit, which names the slot in force, and the intent, which holds the
    whole of the slot that is to follow.  Each ends with the digest of what is before it.
    [recovery_step] tells from what can be decoded how far a publication has come. *)
From S2P Require Import Prelude Order Bytes.
#[local] Open Scope rust_scope.

(** ** Ranges of bytes *)
(** [bytes[lo..hi]] *)
Definition sub (lo hi : nat) (bytes : list Z) : list Z := take (hi - lo) (drop lo bytes).
(** [bytes[at..at + l.len()].copy_from_slice(l)] *)
Definition put (at_ : nat) (l bytes : list Z) : list Z := take at_ bytes ++ l ++ drop (at_ + length l) bytes.
Definition zeros (n : nat) : list Z := replicate n 0%Z.
(** [bytes.iter().all(|b| *b == 0)] *)
Definition all_zero (bytes : list Z) : bool := forallb (fun b => (b =? 0)%Z) bytes.

Definition PAYLOAD_BYTES : nat := Z.to_nat 2048.
Definition SLOT_BYTES : nat := 56 + PAYLOAD_BYTES + 32.
Definition COMMIT_BYTES : nat := 128.
Definition INTENT_BYTES : nat := 96 + SLOT_BYTES + 32.
Definition SELECTOR_BYTES : nat := COMMIT_BYTES + INTENT_BYTES.
Definition SLOT_MAGIC : list Z := str_bytes "CGSLOT01".
Definition COMMIT_MAGIC : list Z := str_bytes "CGCOMM01".
Definition INTENT_MAGIC : list Z := str_bytes "CGINTN01".

Inductive ControlFailure := Size | Version | Checksum | Incarnation | Sequence.
#[export] Instance ControlFailure_eq_dec : EqDecision ControlFailure.
Proof. solve_decision. Defined.

Record SlotFact := { slot_generation : Z; payload_len : Z; digest : list Z }.
Record CommitFact := { generation : Z; active : nat; slot_digest : list Z }.
Record IntentFact := { before : Z; after : Z; target : nat; intent_digest : list Z }.
#[export] Instance SlotFact_eq_dec : EqDecision SlotFact.
Proof. solve_decision. Defined.
#[export] Instance CommitFact_eq_dec : EqDecision CommitFact.
Proof. solve_decision. Defined.
#[export] Instance IntentFact_eq_dec : EqDecision IntentFact.
Proof. solve_decision. Defined.

Inductive RecoveryStep :=
| Committed (c : CommitFact)
| RewriteIntendedSlot (i : IntentFact)
| CommitIntendedSlot (i : IntentFact)
| Unknown.
#[export] Instance RecoveryStep_eq_dec : EqDecision RecoveryStep.
Proof. solve_decision. Defined.

(** [u64::from_le_bytes]; [to_le_bytes]; a [usize] has 64 bits. *)
Definition number (bytes : list Z) : Z := from_le bytes.
Definition le_bytes (v : Z) : list Z := to_le 8 v.

Section codec.
Context (sha256 : list Z -> list Z).

Definition finish (bytes : list Z) : list Z :=
  let end_ := length bytes - 32 in put end_ (sha256 (take end_ bytes)) bytes.

Definition validate (bytes : list Z) (len : nat) (magic incarnation : list Z) : result ControlFailure (list Z) :=
  if negb (length bytes =? len) then Err Size
  else if negb (bool_decide (take 8 bytes = magic)) then Err Version
  else if negb (bool_decide (sub 8 40 bytes = incarnation)) then Err Incarnation
  else
    let end_ := len - 32 in
    if negb (bool_decide (sha256 (take end_ bytes) = drop end_ bytes)) then Err Checksum
    else Ok bytes.

(** *** Slots *)
Definition decode_slot (bytes incarnation : list Z) : result ControlFailure SlotFact :=
  let? bytes := validate bytes SLOT_BYTES SLOT_MAGIC incarnation in
  let payload_len := number (sub 48 56 bytes) in
  if (Z.of_nat PAYLOAD_BYTES <? payload_len)%Z then Err Size
  else if negb (all_zero (sub (56 + Z.to_nat payload_len) (SLOT_BYTES - 32) bytes)) then Err Size
  else Ok {| slot_generation := number (sub 40 48 bytes); payload_len := payload_len; digest := drop (SLOT_BYTES - 32) bytes |}.

(** The encoders give what is in the buffer afterwards, too. *)
Definition encode_slot (bytes incarnation : list Z) (generation : Z) (payload : list Z)
    : list Z * result ControlFailure SlotFact :=
  if negb (length bytes =? SLOT_BYTES) || (PAYLOAD_BYTES <? length payload) then (bytes, Err Size)
  else
    let bytes := zeros (length bytes) in
    let bytes := put 0 SLOT_MAGIC bytes in
    let bytes := put 8 incarnation bytes in
    let bytes := put 40 (le_bytes generation) bytes in
    let bytes := put 48 (le_bytes (Z.of_nat (length payload))) bytes in
    let bytes := put 56 payload bytes in
    let bytes := finish bytes in
    (bytes, decode_slot bytes incarnation).

(** *** Commits *)
Definition encode_commit (bytes incarnation : list Z) (fact : CommitFact) : list Z * result ControlFailure () :=
  if negb (length bytes =? COMMIT_BYTES) || (1 <? active fact) then (bytes, Err Size)
  else
    let bytes := zeros (length bytes) in
    let bytes := put 0 COMMIT_MAGIC bytes in
    let bytes := put 8 incarnation bytes in
    let bytes := put 40 (le_bytes (generation fact)) bytes in
    let bytes := put 48 (le_bytes (Z.of_nat (active fact))) bytes in
    let bytes := put 56 (slot_digest fact) bytes in
    (finish bytes, Ok ()).

Definition decode_commit (bytes incarnation : list Z) : result ControlFailure CommitFact :=
  let? bytes := validate bytes COMMIT_BYTES COMMIT_MAGIC incarnation in
  let active := number (sub 48 56 bytes) in
  if (1 <? active)%Z || negb (all_zero (sub 88 96 bytes)) then Err Size
  else Ok {| generation := number (sub 40 48 bytes); active := Z.to_nat active; slot_digest := sub 56 88 bytes |}.

(** *** Intents *)
Definition decode_intent (bytes incarnation : list Z) : result ControlFailure IntentFact :=
  let? bytes := validate bytes INTENT_BYTES INTENT_MAGIC incarnation in
  let before := number (sub 40 48 bytes) in
  let after := number (sub 48 56 bytes) in
  let target := number (sub 56 64 bytes) in
  let? slot := decode_slot (sub 96 (96 + SLOT_BYTES) bytes) incarnation in
  if negb (bool_decide (checked_add_u64 before 1 = Some after)) || negb (slot_generation slot =? after)%Z || (1 <? target)%Z
     || negb (bool_decide (digest slot = sub 64 96 bytes))
  then Err Sequence
  else Ok {| before := before; after := after; target := Z.to_nat target; intent_digest := digest slot |}.

Definition encode_intent (bytes incarnation : list Z) (current : CommitFact) (next_slot : list Z)
    : list Z * result ControlFailure IntentFact :=
  if negb (length bytes =? INTENT_BYTES) || (1 <? active current) then (bytes, Err Size)
  else
    match decode_slot next_slot incarnation with
    | Err e => (bytes, Err e)
    | Ok next =>
        if negb (bool_decide (checked_add_u64 (generation current) 1 = Some (slot_generation next))) then (bytes, Err Sequence)
        else
          let bytes := zeros (length bytes) in
          let bytes := put 0 INTENT_MAGIC bytes in
          let bytes := put 8 incarnation bytes in
          let bytes := put 40 (le_bytes (generation current)) bytes in
          let bytes := put 48 (le_bytes (slot_generation next)) bytes in
          let bytes := put 56 (le_bytes (Z.of_nat (1 - active current))) bytes in
          let bytes := put 64 (digest next) bytes in
          let bytes := put 96 next_slot bytes in
          let bytes := finish bytes in
          (bytes, decode_intent bytes incarnation)
    end.
End codec.

(** ** Recovery *)
(** The closure [matches]. *)
Definition slot_matches (slots : list (option SlotFact)) (index : nat) (generation : Z) (d : list Z) : bool :=
  match slots !! index with
  | Some (Some s) => (slot_generation s =? generation)%Z && bool_decide (digest s = d)
  | _ => false
  end.

Definition recovery_step (commit : option CommitFact) (intent : option IntentFact) (slots : list (option SlotFact)) : RecoveryStep :=
  if match commit with Some c => 1 <? active c | None => false end
     || match intent with Some i => (1 <? target i) || negb (bool_decide (checked_add_u64 (before i) 1 = Some (after i))) | None => false end
  then Unknown
  else
    let in_force c := slot_matches slots (active c) (generation c) (slot_digest c) in
    let pending i :=
      if slot_matches slots (target i) (after i) (intent_digest i) then CommitIntendedSlot i else RewriteIntendedSlot i in
    match commit, intent with
    | Some c, None => if in_force c then Committed c else Unknown
    | Some c, Some i =>
        if (generation c =? after i)%Z && (active c =? target i) && bool_decide (slot_digest c = intent_digest i) && in_force c
        then Committed c
        else if (generation c =? before i)%Z && (active c =? 1 - target i) && in_force c then pending i
        else Unknown
    | None, Some i => pending i
    | None, None => Unknown
    end.

(** ** Bindings *)
Definition BINDING_BYTES : nat := 512.
Definition BINDING_MAGIC : list Z := str_bytes "CGBIND01".

(** src/storage/locks.rs: a file, whatever names it has. *)
Record FileIdentity := { volume : Z; index : Z }.
#[export] Instance FileIdentity_eq_dec : EqDecision FileIdentity.
Proof. solve_decision. Defined.
#[export] Program Instance FileIdentity_countable : Countable FileIdentity :=
  inj_countable' (fun f => (volume f, index f)) (fun p => {| volume := p.1; index := p.2 |}) _.
Next Obligation. by intros []. Qed.

Record PublisherBinding := {
  root : FileIdentity;
  coordination : FileIdentity;
  data : FileIdentity * FileIdentity;
  selector : FileIdentity;
  stream : option FileIdentity;
  incarnation : list Z
}.
#[export] Instance PublisherBinding_eq_dec : EqDecision PublisherBinding.
Proof. solve_decision. Defined.

Definition identity_into (at_ : nat) (identity : FileIdentity) (bytes : list Z) : list Z :=
  put (at_ + 8) (le_bytes (index identity)) (put at_ (le_bytes (volume identity)) bytes).
Definition identity_from (bytes : list Z) : FileIdentity :=
  {| volume := number (sub 0 8 bytes); index := number (sub 8 16 bytes) |}.

Section binding.
Context (sha256 : list Z -> list Z).

Definition encode (b : PublisherBinding) (bytes : list Z) : list Z * result ControlFailure () :=
  if negb (length bytes =? BINDING_BYTES) then (bytes, Err Size)
  else
    let bytes := zeros (length bytes) in
    let bytes := put 0 BINDING_MAGIC bytes in
    let bytes := put 8 (le_bytes 1) bytes in
    let bytes := put 16 (incarnation b) bytes in
    let bytes := foldl (fun bytes x => identity_into x.1 x.2 bytes) bytes
      [(48, root b); (64, coordination b); (80, (data b).1); (96, (data b).2); (112, selector b)] in
    let bytes := match stream b with
      | Some stream => identity_into 136 stream (put 128 (le_bytes 1) bytes)
      | None => bytes
      end in
    (finish sha256 bytes, Ok ()).

Definition decode (bytes : list Z) : result ControlFailure PublisherBinding :=
  if negb (length bytes =? BINDING_BYTES) then Err Size
  else if negb (bool_decide (take 8 bytes = BINDING_MAGIC)) || negb (number (sub 8 16 bytes) =? 1)%Z then Err Version
  else if negb (bool_decide (sha256 (take (BINDING_BYTES - 32) bytes) = drop (BINDING_BYTES - 32) bytes)) then Err Checksum
  else if negb (all_zero (sub 152 (BINDING_BYTES - 32) bytes)) then Err Size
  else
    let? stream :=
      (if (number (sub 128 136 bytes) =? 0)%Z && all_zero (sub 136 152 bytes) then Ok None
       else if (number (sub 128 136 bytes) =? 1)%Z then Ok (Some (identity_from (sub 136 152 bytes)))
       else Err Version) in
    Ok {| root := identity_from (sub 48 64 bytes); coordination := identity_from (sub 64 80 bytes);
          data := (identity_from (sub 80 96 bytes), identity_from (sub 96 112 bytes));
          selector := identity_from (sub 112 128 bytes); stream := stream; incarnation := sub 16 48 bytes |}.
End binding.
