(* ===== verification/ControlsCodec.v ===== *)
(** * Control records are read back, and nothing else is

    What the encoders write is an image: its fields one after the other, and their digest.
    A decoder accepts the images and nothing else, so that a record has one image and an
    image one record. *)
From S2P Require Import Prelude Order Bytes Controls.

Definition is_byte (b : Z) : Prop := (0 <= b < 256)%Z.
Definition bytes_ok (l : list Z) : Prop := Forall is_byte l.
Definition is_u64 (v : Z) : Prop := (0 <= v <= u64_max)%Z.

(** ** Ranges *)
Lemma sub_skip a b lo hi : length a <= lo -> sub lo hi (a ++ b) = sub (lo - length a) (hi - length a) b.
Proof. intros H. unfold sub. rewrite drop_app_ge by done. f_equal. lia. Qed.
Lemma sub_here a b lo hi : lo = 0 -> hi = length a -> sub lo hi (a ++ b) = a.
Proof. intros -> ->. unfold sub. rewrite drop_0, Nat.sub_0_r. apply take_app_length. Qed.
Lemma sub_all a lo hi : lo = 0 -> hi = length a -> sub lo hi a = a.
Proof. intros -> ->. unfold sub. rewrite drop_0. apply take_ge. lia. Qed.
Lemma sub_none lo hi l : hi <= lo -> sub lo hi l = [].
Proof. intros H. unfold sub. by replace (hi - lo) with 0 by lia. Qed.
Lemma put_skip a b at_ l : length a <= at_ -> put at_ l (a ++ b) = a ++ put (at_ - length a) l b.
Proof.
  intros H. unfold put. rewrite take_app_ge, drop_app_ge by lia. rewrite <- app_assoc. do 4 f_equal. lia.
Qed.
Lemma put_here a b l at_ : at_ = 0 -> length a = length l -> put at_ l (a ++ b) = l ++ b.
Proof. intros -> H. unfold put. simpl. rewrite <- H, drop_app_length. done. Qed.
Lemma length_sub lo hi l : lo <= hi -> hi <= length l -> length (sub lo hi l) = hi - lo.
Proof. intros H1 H2. unfold sub. rewrite length_take, length_drop. lia. Qed.
Lemma length_put at_ l bytes : at_ + length l <= length bytes -> length (put at_ l bytes) = length bytes.
Proof. intros H. unfold put. rewrite !length_app, length_take, length_drop. lia. Qed.
Lemma zeros_split n k : k <= n -> zeros n = zeros k ++ zeros (n - k).
Proof. intros H. unfold zeros. rewrite <- replicate_add. f_equal. lia. Qed.
Lemma length_zeros n : length (zeros n) = n.
Proof. apply length_replicate. Qed.
Lemma cut_at n (l : list Z) : n <= length l -> exists a b, l = a ++ b /\ length a = n.
Proof. intros H. exists (take n l), (drop n l). split; [by rewrite take_drop|]. rewrite length_take. lia. Qed.

Lemma all_zero_spec l : all_zero l = true <-> l = zeros (length l).
Proof.
  unfold all_zero, zeros. induction l as [|b l IH]; [done|]. simpl. rewrite andb_true_iff, IH, Z.eqb_eq. split; [intros [-> ->]|].
  - by rewrite length_replicate.
  - intros [= -> H]. done.
Qed.
Lemma all_zero_zeros n : all_zero (zeros n) = true.
Proof. apply all_zero_spec. by rewrite length_zeros. Qed.
Lemma zeros_bytes n : bytes_ok (zeros n).
Proof. apply Forall_replicate. unfold is_byte. lia. Qed.

(** ** Numbers *)
Lemma length_le v : length (le_bytes v) = 8.
Proof. apply length_to_le. Qed.
Lemma number_le v : is_u64 v -> number (le_bytes v) = v.
Proof. intros H. apply from_to_le. unfold is_u64, u64_max in H. simpl. lia. Qed.
Lemma to_from_le l : bytes_ok l -> to_le (length l) (from_le l) = l /\ (0 <= from_le l < 256 ^ Z.of_nat (length l))%Z.
Proof.
  induction 1 as [|b l Hb Hl [IH1 IH2]]; [done|]. cbn [length from_le foldr to_le]. change (foldr _ _ l) with (from_le l).
  unfold is_byte in Hb. rewrite Nat2Z.inj_succ, Z.pow_succ_r by lia.
  assert ((b + 256 * from_le l) mod 256 = b /\ (b + 256 * from_le l) / 256 = from_le l)%Z as [E1 E2].
  { rewrite (Z.mul_comm 256), Z.mod_add, Z.div_add, Z.mod_small, Z.div_small by lia. split; lia. }
  rewrite E1, E2, IH1. split; [done|lia].
Qed.
Lemma le_number l : bytes_ok l -> length l = 8 -> le_bytes (number l) = l /\ is_u64 (number l).
Proof.
  intros Hl H8. destruct (to_from_le l Hl) as [H1 H2]. rewrite H8 in *. split; [done|].
  unfold is_u64, u64_max, number. simpl in H2. lia.
Qed.
Lemma le_bytes_ok v : bytes_ok (le_bytes v).
Proof.
  unfold le_bytes. generalize 8 as n. intros n. revert v. induction n as [|n IH]; intros v; constructor; [|apply IH].
  apply Z.mod_pos_bound. lia.
Qed.

(** ** Images *)
Lemma payload_small : (Z.of_nat PAYLOAD_BYTES = 2048)%Z.
Proof. unfold PAYLOAD_BYTES. lia. Qed.
#[global] Opaque PAYLOAD_BYTES.

Ltac lengths := rewrite ?length_app, ?length_le, ?length_zeros in *; simpl length in *; lia.
(** Reads a field of an image. *)
Ltac field := repeat (rewrite sub_skip by lengths); first [rewrite sub_here by lengths | rewrite sub_all by lengths].
(** Writes a field over zeros. *)
Ltac fill := repeat (rewrite put_skip by lengths).

Section images.
Context (sha256 : list Z -> list Z) (length_sha : forall l, length (sha256 l) = 32).

Definition seal (body : list Z) : list Z := body ++ sha256 body.

Lemma length_seal body : length (seal body) = length body + 32.
Proof. unfold seal. by rewrite length_app, length_sha. Qed.
Lemma finish_seal body : finish sha256 (body ++ zeros 32) = seal body.
Proof.
  unfold finish. rewrite length_app, length_zeros. replace (_ + 32 - 32) with (length body) by lia.
  rewrite take_app_length. rewrite put_skip, Nat.sub_diag by lia. rewrite <- (app_nil_r (zeros 32)).
  rewrite put_here; [by rewrite app_nil_r|done|]. by rewrite length_zeros, length_sha.
Qed.

Definition slot_body (inc : list Z) (g : Z) (p : list Z) : list Z :=
  SLOT_MAGIC ++ inc ++ le_bytes g ++ le_bytes (Z.of_nat (length p)) ++ p ++ zeros (PAYLOAD_BYTES - length p).
Definition slot_image inc g p : list Z := seal (slot_body inc g p).
Definition slot_fact (inc : list Z) (g : Z) (p : list Z) : SlotFact :=
  {| slot_generation := g; payload_len := Z.of_nat (length p); digest := sha256 (slot_body inc g p) |}.

Definition commit_body (inc : list Z) (c : CommitFact) : list Z :=
  COMMIT_MAGIC ++ inc ++ le_bytes (generation c) ++ le_bytes (Z.of_nat (active c)) ++ slot_digest c ++ zeros 8.
Definition commit_image inc c : list Z := seal (commit_body inc c).

Definition intent_body (inc : list Z) (i : IntentFact) (slot : list Z) : list Z :=
  INTENT_MAGIC ++ inc ++ le_bytes (before i) ++ le_bytes (after i) ++ le_bytes (Z.of_nat (target i)) ++ intent_digest i ++ slot.
Definition intent_image inc i slot : list Z := seal (intent_body inc i slot).

Context (inc : list Z) (length_inc : length inc = 32).

Lemma length_slot_body g p : length p <= PAYLOAD_BYTES -> length (slot_body inc g p) = 56 + PAYLOAD_BYTES.
Proof. intros H. unfold slot_body. rewrite !length_app, !length_le, length_zeros, length_inc. simpl length. lia. Qed.
Lemma length_slot_image g p : length p <= PAYLOAD_BYTES -> length (slot_image inc g p) = SLOT_BYTES.
Proof. intros H. unfold slot_image. rewrite length_seal, length_slot_body by done. done. Qed.
Lemma length_commit_body c : length (slot_digest c) = 32 -> length (commit_body inc c) = 96.
Proof. intros H. unfold commit_body. rewrite !length_app, !length_le, length_zeros, length_inc, H. done. Qed.
Lemma length_commit_image c : length (slot_digest c) = 32 -> length (commit_image inc c) = COMMIT_BYTES.
Proof. intros H. unfold commit_image. by rewrite length_seal, length_commit_body. Qed.
Lemma length_intent_body i slot :
  length (intent_digest i) = 32 -> length slot = SLOT_BYTES -> length (intent_body inc i slot) = 96 + SLOT_BYTES.
Proof. intros H1 H2. unfold intent_body. rewrite !length_app, !length_le, length_inc, H1, H2. simpl length. lia. Qed.
Lemma length_intent_image i slot :
  length (intent_digest i) = 32 -> length slot = SLOT_BYTES -> length (intent_image inc i slot) = INTENT_BYTES.
Proof. intros H1 H2. unfold intent_image. rewrite length_seal, length_intent_body by done. done. Qed.

(** *** A valid record is a sealed body that starts with its magic and incarnation *)
Lemma validate_spec b len magic b' :
  40 + 32 <= len -> length magic = 8 ->
  validate sha256 b len magic inc = Ok b' <-> exists fields, b' = b /\ b = seal (magic ++ inc ++ fields) /\ length fields = len - 72.
Proof.
  intros Hlen Hm. unfold validate. split.
  - destruct (Nat.eqb_spec (length b) len) as [Hl|]; [simpl|done].
    case_bool_decide as E1; [simpl|done]. case_bool_decide as E2; [simpl|done]. case_bool_decide as E3; [simpl|done]. intros [= <-].
    destruct (cut_at 8 b) as (m & b1 & -> & L1); [lia|]. rewrite length_app in Hl. destruct (cut_at 32 b1) as (i & b2 & -> & L2); [lia|].
    rewrite length_app in Hl. destruct (cut_at (len - 72) b2) as (f & d & -> & L3); [lia|]. rewrite length_app in Hl.
    rewrite <- L1, take_app_length in E1. revert E2. field. intros ->.
    assert (len - 32 = length (m ++ inc ++ f)) as Hend by (rewrite !length_app; lia).
    rewrite Hend, !app_assoc, drop_app_length, take_app_length in E3. exists f. split_and!; [done| |done].
    unfold seal. rewrite <- E1. rewrite <- !app_assoc in *. by rewrite E3.
  - intros (f & -> & -> & Lf). unfold seal. rewrite !length_app, length_sha, Hm, length_inc, Lf.
    rewrite (proj2 (Nat.eqb_eq _ _)) by lia. simpl.
    rewrite bool_decide_true by (rewrite <- !app_assoc, <- Hm; apply take_app_length). simpl.
    rewrite bool_decide_true by (rewrite <- !app_assoc; by field). simpl.
    assert (len - 32 = length (magic ++ inc ++ f)) as -> by (rewrite !length_app; lia).
    rewrite take_app_length, drop_app_length. by rewrite bool_decide_true.
Qed.

(** *** Slots *)
Lemma encode_slot_image buf g p :
  length buf = SLOT_BYTES -> length p <= PAYLOAD_BYTES ->
  encode_slot sha256 buf inc g p = (slot_image inc g p, decode_slot sha256 (slot_image inc g p) inc).
Proof.
  intros Hb Hp. unfold encode_slot. rewrite Hb, Nat.eqb_refl, (proj2 (Nat.ltb_ge _ _)) by done. simpl negb. cbv iota zeta.
  assert (forall b, b = slot_image inc g p -> (b, decode_slot sha256 b inc) = (slot_image inc g p, decode_slot sha256 (slot_image inc g p) inc)) as H
    by (by intros ? ->). apply H. clear H.
  unfold SLOT_BYTES. rewrite (zeros_split _ 8) by lia. rewrite put_here by lengths.
  rewrite (zeros_split (_ - 8) 32) by lia. fill. rewrite put_here by lengths.
  rewrite (zeros_split (_ - 32) 8) by lia. fill. rewrite put_here by lengths.
  rewrite (zeros_split (_ - 8) 8) by lia. fill. rewrite put_here by lengths.
  rewrite (zeros_split (_ - 8) (length p)) by lia. fill. rewrite put_here by lengths.
  rewrite (zeros_split (_ - length p) (PAYLOAD_BYTES - length p)) by lia.
  replace (_ - (PAYLOAD_BYTES - length p)) with 32 by lia.
  rewrite !app_assoc, finish_seal. unfold slot_image, slot_body. by rewrite <- !app_assoc.
Qed.

(** [validate] on an image. *)
Lemma validate_seal len magic fields :
  40 + 32 <= len -> length magic = 8 -> length fields = len - 72 ->
  validate sha256 (seal (magic ++ inc ++ fields)) len magic inc = Ok (seal (magic ++ inc ++ fields)).
Proof. intros H1 H2 H3. apply validate_spec; [done..|]. by exists fields. Qed.

Lemma drop_seal body n : n = length body -> drop n (seal body) = sha256 body.
Proof. intros ->. apply drop_app_length. Qed.

Lemma decode_slot_image g p :
  is_u64 g -> length p <= PAYLOAD_BYTES -> decode_slot sha256 (slot_image inc g p) inc = Ok (slot_fact inc g p).
Proof.
  intros Hg Hp. pose proof (length_slot_body g p Hp) as Hlen. unfold decode_slot, slot_image, slot_body.
  rewrite validate_seal; [|unfold SLOT_BYTES; lia|done|unfold SLOT_BYTES; lengths]. cbn [result_bind]. cbv zeta.
  fold (slot_body inc g p). rewrite drop_seal by (rewrite Hlen; unfold SLOT_BYTES; lia).
  unfold seal. set (d := sha256 (slot_body inc g p)). assert (length d = 32) as Hd by apply length_sha.
  unfold slot_body. rewrite <- !app_assoc.
  assert (sub 48 56 (SLOT_MAGIC ++ inc ++ le_bytes g ++ le_bytes (Z.of_nat (length p)) ++ p ++ zeros (PAYLOAD_BYTES - length p) ++ d)
    = le_bytes (Z.of_nat (length p))) as -> by (by field).
  rewrite number_le by (unfold is_u64, u64_max; pose proof payload_small; lia).
  rewrite (proj2 (Z.ltb_ge _ _)) by lia. rewrite Nat2Z.id.
  assert (sub (56 + length p) (SLOT_BYTES - 32)
    (SLOT_MAGIC ++ inc ++ le_bytes g ++ le_bytes (Z.of_nat (length p)) ++ p ++ zeros (PAYLOAD_BYTES - length p) ++ d)
    = zeros (PAYLOAD_BYTES - length p)) as -> by (unfold SLOT_BYTES; by field).
  rewrite all_zero_zeros. simpl negb. cbv iota.
  assert (sub 40 48 (SLOT_MAGIC ++ inc ++ le_bytes g ++ le_bytes (Z.of_nat (length p)) ++ p ++ zeros (PAYLOAD_BYTES - length p) ++ d)
    = le_bytes g) as -> by (by field).
  rewrite number_le by done. done.
Qed.

(** The payload and its length, where they are in an image. *)
Lemma slot_image_payload g p : length p <= PAYLOAD_BYTES ->
  sub 48 56 (slot_image inc g p) = le_bytes (Z.of_nat (length p)) /\ sub 56 (56 + length p) (slot_image inc g p) = p.
Proof.
  intros Hp. unfold slot_image, seal. set (d := sha256 _). assert (length d = 32) as Hd by apply length_sha.
  unfold slot_body. rewrite <- !app_assoc. split; by field.
Qed.

Lemma decode_slot_exact b f :
  bytes_ok b ->
  decode_slot sha256 b inc = Ok f <->
  exists g p, is_u64 g /\ length p <= PAYLOAD_BYTES /\ bytes_ok p /\ b = slot_image inc g p /\ f = slot_fact inc g p.
Proof.
  intros Hb. split; [|intros (g & p & Hg & Hp & _ & -> & ->); by apply decode_slot_image].
  unfold decode_slot. intros H. apply result_bind_Ok in H as (b' & Hv & H).
  apply validate_spec in Hv as (fields & -> & -> & Hlen); [|unfold SLOT_BYTES; lia|done]. unfold SLOT_BYTES in Hlen.
  destruct (cut_at 8 fields) as (bg & r1 & -> & L1); [lia|]. rewrite length_app in Hlen.
  destruct (cut_at 8 r1) as (bl & r2 & -> & L2); [lia|]. rewrite length_app in Hlen.
  set (body := SLOT_MAGIC ++ inc ++ bg ++ bl ++ r2) in *. assert (length body = 56 + PAYLOAD_BYTES) as Lb by (unfold body; lengths).
  unfold seal in Hb. apply Forall_app in Hb as [Hb _]. unfold body in Hb. rewrite !Forall_app in Hb.
  destruct Hb as (_ & _ & Bg & Bl & Br). destruct (le_number bg Bg L1) as [Eg Hg]. destruct (le_number bl Bl L2) as [El Hl].
  rewrite (drop_seal body) in H by (rewrite Lb; unfold SLOT_BYTES; lia). revert H. unfold seal.
  set (d := sha256 body). assert (length d = 32) as Hd by apply length_sha. unfold body. rewrite <- !app_assoc.
  assert (sub 48 56 (SLOT_MAGIC ++ inc ++ bg ++ bl ++ r2 ++ d) = bl) as -> by (by field).
  assert (sub 40 48 (SLOT_MAGIC ++ inc ++ bg ++ bl ++ r2 ++ d) = bg) as -> by (by field).
  destruct (Z.ltb_spec (Z.of_nat PAYLOAD_BYTES) (number bl)) as [|Hle]; [done|].
  destruct (cut_at (Z.to_nat (number bl)) r2) as (p & z & -> & Lp); [unfold is_u64 in Hl; lia|].
  rewrite length_app in Hlen. rewrite <- Lp.
  assert (sub (56 + length p) (SLOT_BYTES - 32) (SLOT_MAGIC ++ inc ++ bg ++ bl ++ (p ++ z) ++ d) = z) as ->
    by (rewrite <- !app_assoc; unfold SLOT_BYTES; by field).
  destruct (all_zero z) eqn:Hz; [simpl|done]. apply all_zero_spec in Hz. intros [= <-].
  assert (Z.of_nat (length p) = number bl) as Hpl by (unfold is_u64 in Hl; lia).
  assert (body = slot_body inc (number bg) p) as Hbody.
  { unfold body, slot_body. rewrite Eg, Hpl, El. do 5 f_equal. rewrite Hz. f_equal. lia. }
  apply Forall_app in Br as [Bp _]. exists (number bg), p. split_and!; [done|lia|done| |].
  - unfold slot_image. rewrite <- Hbody. unfold seal. fold d. unfold body. by rewrite <- !app_assoc.
  - unfold slot_fact. rewrite <- Hbody, Hpl. done.
Qed.

(** *** Commits *)
Definition commit_ok (c : CommitFact) : Prop := is_u64 (generation c) /\ active c <= 1 /\ length (slot_digest c) = 32.

Lemma encode_commit_image buf c :
  length buf = COMMIT_BYTES -> active c <= 1 -> length (slot_digest c) = 32 ->
  encode_commit sha256 buf inc c = (commit_image inc c, Ok ()).
Proof.
  intros Hb Ha Hd. unfold encode_commit. rewrite Hb, Nat.eqb_refl, (proj2 (Nat.ltb_ge _ _)) by done. simpl negb. cbv iota zeta.
  f_equal. unfold COMMIT_BYTES. rewrite (zeros_split _ 8) by lia. rewrite put_here by lengths.
  rewrite (zeros_split (_ - 8) 32) by lia. fill. rewrite put_here by lengths.
  rewrite (zeros_split (_ - 32) 8) by lia. fill. rewrite put_here by lengths.
  rewrite (zeros_split (_ - 8) 8) by lia. fill. rewrite put_here by lengths.
  rewrite (zeros_split (_ - 8) 32) by lia. fill. rewrite put_here by lengths.
  rewrite (zeros_split (_ - 32) 8) by lia. replace (_ - 8) with 32 by lia.
  rewrite !app_assoc, finish_seal. unfold commit_image, commit_body. by rewrite <- !app_assoc.
Qed.

Lemma decode_commit_image c : commit_ok c -> decode_commit sha256 (commit_image inc c) inc = Ok c.
Proof.
  intros (Hg & Ha & Hd). unfold decode_commit, commit_image, commit_body.
  rewrite validate_seal; [|unfold COMMIT_BYTES; lia|done|unfold COMMIT_BYTES; lengths]. cbn [result_bind]. cbv zeta.
  unfold seal. set (d := sha256 _). assert (length d = 32) as Hd' by apply length_sha. rewrite <- !app_assoc.
  set (b := COMMIT_MAGIC ++ _).
  assert (sub 48 56 b = le_bytes (Z.of_nat (active c))) as -> by (unfold b; by field).
  assert (sub 88 96 b = zeros 8) as -> by (unfold b; by field).
  assert (sub 40 48 b = le_bytes (generation c)) as -> by (unfold b; by field).
  assert (sub 56 88 b = slot_digest c) as -> by (unfold b; by field).
  rewrite !number_le by (done || (unfold is_u64, u64_max; lia)). rewrite (proj2 (Z.ltb_ge _ _)) by lia.
  rewrite all_zero_zeros, Nat2Z.id. simpl. by destruct c.
Qed.

Lemma decode_commit_exact b c :
  bytes_ok b ->
  decode_commit sha256 b inc = Ok c <-> commit_ok c /\ bytes_ok (slot_digest c) /\ b = commit_image inc c.
Proof.
  intros Hb. split; [|intros (Hc & _ & ->); by apply decode_commit_image].
  unfold decode_commit. intros H. apply result_bind_Ok in H as (b' & Hv & H).
  apply validate_spec in Hv as (fields & -> & -> & Hlen); [|unfold COMMIT_BYTES; lia|done]. unfold COMMIT_BYTES in Hlen.
  destruct (cut_at 8 fields) as (bg & r1 & -> & L1); [lia|]. rewrite length_app in Hlen.
  destruct (cut_at 8 r1) as (ba & r2 & -> & L2); [lia|]. rewrite length_app in Hlen.
  destruct (cut_at 32 r2) as (bd & z & -> & L3); [lia|]. rewrite length_app in Hlen.
  unfold seal, bytes_ok in Hb. rewrite !Forall_app in Hb. destruct Hb as ((_ & _ & Bg & Ba & Bd & _) & _).
  destruct (le_number bg Bg L1) as [Eg Hg]. destruct (le_number ba Ba L2) as [Ea Ha].
  revert H. unfold seal. set (d := sha256 _). assert (length d = 32) as Hd by apply length_sha. rewrite <- !app_assoc. cbv zeta.
  set (b := COMMIT_MAGIC ++ _).
  assert (sub 48 56 b = ba) as -> by (unfold b; by field). assert (sub 88 96 b = z) as -> by (unfold b; by field).
  assert (sub 40 48 b = bg) as -> by (unfold b; by field). assert (sub 56 88 b = bd) as -> by (unfold b; by field).
  destruct (Z.ltb_spec 1 (number ba)) as [|Hle]; [done|]. destruct (all_zero z) eqn:Hz; [simpl|done].
  apply all_zero_spec in Hz. intros [= <-]. unfold commit_ok. simpl. unfold is_u64 in Ha.
  split_and!; [done|lia|done|done|]. unfold commit_image, commit_body, seal. cbn [generation active slot_digest]. rewrite Eg, Z2Nat.id, Ea by lia.
  assert (z = zeros 8) as Hz8 by (rewrite Hz; f_equal; lia). unfold b, d. by rewrite Hz8, <- !app_assoc.
Qed.

(** *** Intents *)
(** The slot that an intent holds. *)
Definition intended (i : IntentFact) (p : list Z) : Prop :=
  is_u64 (before i) /\ (before i + 1 = after i)%Z /\ is_u64 (after i) /\ target i <= 1 /\ length p <= PAYLOAD_BYTES /\
  intent_digest i = sha256 (slot_body inc (after i) p).
Definition full_intent (i : IntentFact) (p : list Z) : list Z := intent_image inc i (slot_image inc (after i) p).

Lemma length_full_intent i p : intended i p -> length (full_intent i p) = INTENT_BYTES.
Proof. intros (_ & _ & _ & _ & Hp & Hd). apply length_intent_image; [by rewrite Hd, length_sha|by apply length_slot_image]. Qed.

Lemma sub_slot i p (d : list Z) : intended i p -> length d = 32 ->
  sub 96 (96 + SLOT_BYTES) (intent_body inc i (slot_image inc (after i) p) ++ d) = slot_image inc (after i) p.
Proof.
  intros (_ & _ & _ & _ & Hp & Hd) Hl. pose proof (length_slot_image (after i) p Hp) as Hs.
  assert (length (intent_digest i) = 32) by (by rewrite Hd, length_sha). unfold intent_body. rewrite <- !app_assoc. by field.
Qed.

Lemma decode_intent_image i p : intended i p -> decode_intent sha256 (full_intent i p) inc = Ok i.
Proof.
  intros Hi. pose proof Hi as (Hb & Hba & Ha & Ht & Hp & Hd). pose proof (length_slot_image (after i) p Hp) as Hs.
  assert (length (intent_digest i) = 32) as Hd32 by (by rewrite Hd, length_sha).
  unfold decode_intent, full_intent, intent_image. pose proof (sub_slot i p (sha256 (intent_body inc i (slot_image inc (after i) p))) Hi (length_sha _)) as Hsub.
  unfold intent_body at 1. rewrite validate_seal; [|unfold INTENT_BYTES; lia|done|unfold INTENT_BYTES; lengths]. cbn [result_bind]. cbv zeta.
  fold (intent_body inc i (slot_image inc (after i) p)). unfold seal. rewrite Hsub, decode_slot_image by done. cbn [result_bind].
  unfold intent_body. set (d := sha256 _). assert (length d = 32) as Hd' by apply length_sha. rewrite <- !app_assoc.
  set (b := INTENT_MAGIC ++ _).
  assert (sub 40 48 b = le_bytes (before i)) as -> by (unfold b; by field).
  assert (sub 48 56 b = le_bytes (after i)) as -> by (unfold b; by field).
  assert (sub 56 64 b = le_bytes (Z.of_nat (target i))) as -> by (unfold b; by field).
  assert (sub 64 96 b = intent_digest i) as -> by (unfold b; by field).
  rewrite !number_le by (done || (unfold is_u64, u64_max; lia)). simpl slot_generation. simpl digest. rewrite <- Hd.
  rewrite bool_decide_true by (apply checked_add_u64_Some; unfold is_u64 in Ha; lia).
  rewrite Z.eqb_refl, (proj2 (Z.ltb_ge _ _)) by lia. rewrite bool_decide_true by done. simpl. rewrite Nat2Z.id. by destruct i.
Qed.

(** C21: The bytes from which an intent is decoded are exactly the images of intents: the
    magic, the incarnation, two generations that follow each other, the target, the digest
    of a slot of the later generation, that whole slot padded with zeros, and the digest of
    all this.  So what is written is read back, and nothing else is taken for an intent. *)
Lemma decode_intent_exact b i :
  bytes_ok b -> decode_intent sha256 b inc = Ok i <-> exists p, intended i p /\ bytes_ok p /\ b = full_intent i p.
Proof.
  intros Hb. split; [|intros (p & Hi & _ & ->); by apply decode_intent_image].
  unfold decode_intent. intros H. apply result_bind_Ok in H as (b' & Hv & H).
  apply validate_spec in Hv as (fields & -> & -> & Hlen); [|unfold INTENT_BYTES; lia|done]. unfold INTENT_BYTES in Hlen.
  destruct (cut_at 8 fields) as (bb & r1 & -> & L1); [lia|]. rewrite length_app in Hlen.
  destruct (cut_at 8 r1) as (ba & r2 & -> & L2); [lia|]. rewrite length_app in Hlen.
  destruct (cut_at 8 r2) as (bt & r3 & -> & L3); [lia|]. rewrite length_app in Hlen.
  destruct (cut_at 32 r3) as (bd & slot & -> & L4); [lia|]. rewrite length_app in Hlen.
  assert (length slot = SLOT_BYTES) as Ls by lia.
  unfold seal, bytes_ok in Hb. rewrite !Forall_app in Hb. destruct Hb as ((_ & _ & Bb & Ba & Bt & Bd & Bs) & _).
  destruct (le_number bb Bb L1) as [Eb Hb]. destruct (le_number ba Ba L2) as [Ea Ha]. destruct (le_number bt Bt L3) as [Et Ht].
  revert H. unfold seal. set (d := sha256 _). assert (length d = 32) as Hd by apply length_sha. rewrite <- !app_assoc. cbv zeta.
  set (b := INTENT_MAGIC ++ _).
  assert (sub 40 48 b = bb) as -> by (unfold b; by field). assert (sub 48 56 b = ba) as -> by (unfold b; by field).
  assert (sub 56 64 b = bt) as -> by (unfold b; by field). assert (sub 64 96 b = bd) as -> by (unfold b; by field).
  assert (sub 96 (96 + SLOT_BYTES) b = slot) as -> by (unfold b; by field).
  intros H. apply result_bind_Ok in H as (f & Hf & H).
  apply decode_slot_exact in Hf as (g & p & Hg & Hp & Bp & -> & ->); [|done]. simpl slot_generation in H. simpl digest in H.
  case_bool_decide as E1; [simpl in H|done]. destruct (Z.eqb_spec g (number ba)) as [->|]; [simpl in H|done].
  destruct (Z.ltb_spec 1 (number bt)) as [|Hle]; [done|]. case_bool_decide as E2; [simpl in H|done]. injection H as <-.
  apply checked_add_u64_Some in E1 as [E1 _]. unfold is_u64 in Ht. exists p. split_and!; [|done|].
  - unfold intended. simpl. split_and!; [done|lia|done|lia|done|done].
  - unfold full_intent, intent_image, intent_body, seal. cbn [before after target intent_digest]. rewrite Eb, Ea, Z2Nat.id, Et, E2 by lia.
    unfold b, d. by rewrite <- !app_assoc.
Qed.

Lemma encode_intent_image buf c p :
  length buf = INTENT_BYTES -> commit_ok c -> length p <= PAYLOAD_BYTES -> (generation c + 1 <= u64_max)%Z ->
  let i := {| before := generation c; after := generation c + 1; target := 1 - active c;
              intent_digest := sha256 (slot_body inc (generation c + 1) p) |} in
  intended i p /\ encode_intent sha256 buf inc c (slot_image inc (generation c + 1) p) = (full_intent i p, Ok i).
Proof.
  intros Hb (Hg & Ha & Hd) Hp Hmax i. unfold is_u64 in Hg.
  assert (intended i p) as Hi by (unfold intended, is_u64, i; simpl; split_and!; (done || lia)). split; [done|].
  unfold encode_intent. rewrite Hb, Nat.eqb_refl, (proj2 (Nat.ltb_ge _ _)) by done. simpl negb. cbv iota.
  rewrite decode_slot_image by (done || (unfold is_u64; lia)). simpl slot_generation. simpl digest.
  rewrite bool_decide_true by (apply checked_add_u64_Some; lia). simpl negb. cbv iota zeta.
  assert (forall b, b = full_intent i p -> (b, decode_intent sha256 b inc) = (full_intent i p, Ok i)) as H
    by (intros ? ->; by rewrite decode_intent_image). apply H. clear H.
  pose proof (length_slot_image (generation c + 1) p Hp) as Hs. pose proof (length_sha (slot_body inc (generation c + 1) p)) as Hsha.
  unfold INTENT_BYTES. rewrite (zeros_split _ 8) by lia. rewrite put_here by lengths.
  rewrite (zeros_split (_ - 8) 32) by lia. fill. rewrite put_here by lengths.
  rewrite (zeros_split (_ - 32) 8) by lia. fill. rewrite put_here by lengths.
  rewrite (zeros_split (_ - 8) 8) by lia. fill. rewrite put_here by lengths.
  rewrite (zeros_split (_ - 8) 8) by lia. fill. rewrite put_here by lengths.
  rewrite (zeros_split (_ - 8) 32) by lia. fill. rewrite put_here by lengths.
  rewrite (zeros_split (_ - 32) SLOT_BYTES) by lia. fill. rewrite put_here by lengths.
  replace (_ - SLOT_BYTES) with 32 by lia.
  rewrite !app_assoc, finish_seal. unfold full_intent, intent_image, intent_body, i. cbn [before after target intent_digest]. by rewrite <- !app_assoc.
Qed.
End images.

(** ** Bindings *)
Lemma checksum_split (bytes : list Z) n : 32 <= n -> length bytes = n ->
  exists body d, bytes = body ++ d /\ length body = n - 32 /\ take (n - 32) bytes = body /\ drop (n - 32) bytes = d.
Proof.
  intros Hn Hl. exists (take (n - 32) bytes), (drop (n - 32) bytes). rewrite take_drop, length_take. split_and!; (done || lia).
Qed.

Section bindings.
Context (sha256 : list Z -> list Z) (length_sha : forall l, length (sha256 l) = 32).

Definition identity_ok (f : FileIdentity) : Prop := is_u64 (volume f) /\ is_u64 (index f).
Definition binding_ok (b : PublisherBinding) : Prop :=
  identity_ok (root b) /\ identity_ok (coordination b) /\ identity_ok (data b).1 /\ identity_ok (data b).2 /\
  identity_ok (selector b) /\ (forall s, stream b = Some s -> identity_ok s) /\ length (incarnation b) = 32.

Definition identity_bytes (f : FileIdentity) : list Z := le_bytes (volume f) ++ le_bytes (index f).
Definition stream_bytes (s : option FileIdentity) : list Z :=
  match s with Some f => le_bytes 1 ++ identity_bytes f | None => zeros 24 end.
Definition binding_body (b : PublisherBinding) : list Z :=
  BINDING_MAGIC ++ le_bytes 1 ++ incarnation b ++ identity_bytes (root b) ++ identity_bytes (coordination b) ++
  identity_bytes (data b).1 ++ identity_bytes (data b).2 ++ identity_bytes (selector b) ++ stream_bytes (stream b) ++ zeros 328.
Definition binding_image (b : PublisherBinding) : list Z := seal sha256 (binding_body b).

Lemma length_identity f : length (identity_bytes f) = 16.
Proof. unfold identity_bytes. by rewrite length_app, !length_le. Qed.
Lemma length_stream s : length (stream_bytes s) = 24.
Proof. destruct s as [f|]; unfold stream_bytes; [by rewrite length_app, length_le, length_identity|apply length_zeros]. Qed.
Lemma identity_from_bytes f : identity_ok f -> identity_from (identity_bytes f) = f.
Proof.
  intros [Hv Hi]. unfold identity_from, identity_bytes.
  assert (sub 0 8 (le_bytes (volume f) ++ le_bytes (index f)) = le_bytes (volume f)) as -> by (by field).
  assert (sub 8 16 (le_bytes (volume f) ++ le_bytes (index f)) = le_bytes (index f)) as -> by (by field).
  rewrite !number_le by done. by destruct f.
Qed.
Lemma identity_bytes_from l : bytes_ok l -> length l = 16 -> identity_bytes (identity_from l) = l /\ identity_ok (identity_from l).
Proof.
  intros Hl H16. destruct (cut_at 8 l) as (a & b & -> & La); [lia|]. rewrite length_app in H16.
  unfold bytes_ok in Hl. apply Forall_app in Hl as [Ha Hb]. unfold identity_from, identity_bytes, identity_ok. cbn [volume index].
  assert (sub 0 8 (a ++ b) = a) as -> by (by field). assert (sub 8 16 (a ++ b) = b) as -> by (by field).
  destruct (le_number a Ha La) as [-> ?]. destruct (le_number b Hb) as [-> ?]; [lia|]. done.
Qed.

Lemma put_identity f bytes : put 8 (le_bytes (index f)) (put 0 (le_bytes (volume f)) (zeros 16 ++ bytes)) = identity_bytes f ++ bytes.
Proof.
  change (zeros 16) with (zeros 8 ++ zeros 8). rewrite <- app_assoc, put_here by lengths. fill. rewrite put_here by lengths.
  unfold identity_bytes. by rewrite <- app_assoc.
Qed.
Lemma identity_into_skip a b at_ f : length a <= at_ -> identity_into at_ f (a ++ b) = a ++ identity_into (at_ - length a) f b.
Proof.
  intros H. unfold identity_into. rewrite (put_skip a b at_), put_skip by lia. do 3 f_equal. lia.
Qed.
Lemma identity_into_here f at_ n : at_ = 0 -> 16 <= n -> identity_into at_ f (zeros n) = identity_bytes f ++ zeros (n - 16).
Proof. intros -> H. rewrite (zeros_split n 16) by lia. apply put_identity. Qed.

Ltac lengths2 := rewrite ?length_app, ?length_identity, ?length_stream, ?length_le, ?length_zeros in *; simpl length in *; lia.

Lemma encode_binding_image b buf :
  length buf = BINDING_BYTES -> length (incarnation b) = 32 -> encode sha256 b buf = (binding_image b, Ok ()).
Proof.
  intros Hb Hi. unfold encode. rewrite Hb, Nat.eqb_refl. simpl negb. cbv iota zeta. f_equal. unfold BINDING_BYTES. cbn [foldl fst snd].
  rewrite (zeros_split _ 8) by lia. rewrite put_here by lengths2.
  rewrite (zeros_split (_ - 8) 8) by lia. fill. rewrite put_here by lengths2.
  rewrite (zeros_split (_ - 8) 32) by lia. fill. rewrite put_here by lengths2.
  do 5 (repeat (rewrite identity_into_skip by lengths2); rewrite identity_into_here by lengths2).
  match goal with |- finish _ ?x = _ => assert (x = binding_body b ++ zeros 32) as -> end; [|by apply finish_seal].
  unfold binding_body. rewrite <- !app_assoc. destruct (stream b) as [f|]; unfold stream_bytes.
  - rewrite (zeros_split (_ - 16) 8) by lia. repeat (rewrite put_skip by lengths2). rewrite put_here by lengths2.
    repeat (rewrite identity_into_skip by lengths2). rewrite identity_into_here by lengths2.
    rewrite <- !app_assoc. reflexivity.
  - reflexivity.
Qed.

Lemma decode_binding_inv bytes b :
  bytes_ok bytes -> decode sha256 bytes = Ok b -> binding_ok b /\ bytes_ok (incarnation b) /\ bytes = binding_image b.
Proof.
  intros Hb. unfold decode.
  destruct (Nat.eqb_spec (length bytes) BINDING_BYTES) as [Hl|]; [cbn [negb]; cbv iota|done].
  destruct (checksum_split bytes BINDING_BYTES) as (body & d & -> & Lb & -> & ->); [unfold BINDING_BYTES; lia|done|].
  rewrite length_app in Hl. unfold BINDING_BYTES in *. assert (length d = 32) as Hd by lia.
  destruct (cut_at 8 body) as (m & r & -> & L1); [lia|]. rewrite length_app in Lb.
  destruct (cut_at 8 r) as (v & r2 & -> & L2); [lia|]. rewrite length_app in Lb.
  destruct (cut_at 32 r2) as (i & r3 & -> & L3); [lia|]. rewrite length_app in Lb.
  destruct (cut_at 16 r3) as (f1 & r4 & -> & L4); [lia|]. rewrite length_app in Lb.
  destruct (cut_at 16 r4) as (f2 & r5 & -> & L5); [lia|]. rewrite length_app in Lb.
  destruct (cut_at 16 r5) as (f3 & r6 & -> & L6); [lia|]. rewrite length_app in Lb.
  destruct (cut_at 16 r6) as (f4 & r7 & -> & L7); [lia|]. rewrite length_app in Lb.
  destruct (cut_at 16 r7) as (f5 & r8 & -> & L8); [lia|]. rewrite length_app in Lb.
  destruct (cut_at 8 r8) as (t & r9 & -> & L9); [lia|]. rewrite length_app in Lb.
  destruct (cut_at 16 r9) as (f6 & z & -> & L10); [lia|]. rewrite length_app in Lb.
  set (body := m ++ _) in *. unfold body in Hb. unfold bytes_ok in Hb. rewrite !Forall_app in Hb.
  destruct Hb as ((Bm & Bv & Bi & B1 & B2 & B3 & B4 & B5 & Bt & B6 & Bz) & _).
  case_bool_decide as Em; [cbn [orb]|done]. destruct (Z.eqb_spec (number (sub 8 16 (body ++ d))) 1) as [Ev|]; [cbn [negb]; cbv iota|done].
  case_bool_decide as Es; [cbn [negb]; cbv iota|done]. revert Em Ev. unfold body. rewrite <- !app_assoc. set (b' := m ++ _).
  assert (take 8 b' = m) as -> by (unfold b'; rewrite <- L1; apply take_app_length).
  assert (sub 8 16 b' = v) as -> by (unfold b'; by field).
  assert (sub 152 (512 - 32) b' = z) as -> by (unfold b'; by field).
  assert (sub 128 136 b' = t) as -> by (unfold b'; by field). assert (sub 136 152 b' = f6) as -> by (unfold b'; by field).
  assert (sub 48 64 b' = f1) as -> by (unfold b'; by field). assert (sub 64 80 b' = f2) as -> by (unfold b'; by field).
  assert (sub 80 96 b' = f3) as -> by (unfold b'; by field). assert (sub 96 112 b' = f4) as -> by (unfold b'; by field).
  assert (sub 112 128 b' = f5) as -> by (unfold b'; by field). assert (sub 16 48 b' = i) as -> by (unfold b'; by field).
  intros -> Ev. destruct (all_zero z) eqn:Hz; [cbn [negb]; cbv iota|done]. apply all_zero_spec in Hz.
  destruct (identity_bytes_from f1 B1 L4) as [E1 O1]. destruct (identity_bytes_from f2 B2 L5) as [E2 O2].
  destruct (identity_bytes_from f3 B3 L6) as [E3 O3]. destruct (identity_bytes_from f4 B4 L7) as [E4 O4].
  destruct (identity_bytes_from f5 B5 L8) as [E5 O5]. destruct (identity_bytes_from f6 B6 L10) as [E6 O6].
  destruct (le_number v Bv L2) as [Evv _]. destruct (le_number t Bt L9) as [Ett _]. rewrite Ev in Evv.
  intros H. apply result_bind_Ok in H as (s & Hs & [= <-]).
  assert (stream_bytes s = t ++ f6 /\ forall x, s = Some x -> identity_ok x) as [Est Ost].
  { destruct (Z.eqb_spec (number t) 0) as [E0|]; cbn [andb] in Hs.
    - destruct (all_zero f6) eqn:H6; [|by rewrite E0 in Hs]. injection Hs as <-. split; [|done]. apply all_zero_spec in H6.
      rewrite H6, L10, <- Ett, E0. done.
    - destruct (Z.eqb_spec (number t) 1) as [E1'|]; [|done]. injection Hs as <-. split; [|by intros x [= <-]].
      unfold stream_bytes. by rewrite E6, <- Ett, E1'. }
  split; [|split; [done|]].
  + unfold binding_ok. cbn [root coordination data selector stream incarnation fst snd]. by split_and!.
  + unfold binding_image, seal. assert (binding_body {| root := identity_from f1; coordination := identity_from f2; data := (identity_from f3, identity_from f4);
      selector := identity_from f5; stream := s; incarnation := i |} = body) as Hbody.
    { unfold binding_body. cbn [root coordination data selector stream incarnation fst snd].
      rewrite E1, E2, E3, E4, E5, Est, Evv, <- !app_assoc. unfold body. do 10 f_equal. rewrite Hz. f_equal. lia. }
    rewrite Hbody, Es. unfold b', body. by rewrite <- !app_assoc.
Qed.

Lemma length_binding_image b : length (incarnation b) = 32 -> length (binding_image b) = BINDING_BYTES.
Proof.
  intros Li. unfold binding_image. rewrite (length_seal sha256 length_sha). unfold binding_body.
  by rewrite !length_app, !length_identity, length_stream, Li, length_zeros, length_le.
Qed.

Lemma decode_binding_image b : binding_ok b -> decode sha256 (binding_image b) = Ok b.
Proof.
  unfold decode.
  intros (O1 & O2 & O3 & O4 & O5 & O6 & Li).
  assert (length (binding_body b) = 480) as Lb by (unfold binding_body; rewrite !length_app, !length_identity, length_stream, Li, length_zeros, length_le; done).
  assert (length (binding_image b) = 512) as -> by (unfold binding_image; by rewrite (length_seal sha256 length_sha), Lb).
  unfold BINDING_BYTES. rewrite Nat.eqb_refl. cbn [negb]. cbv iota.
  assert (forall n, n = 480 -> take n (binding_image b) = binding_body b /\ drop n (binding_image b) = sha256 (binding_body b)) as Hts.
  { intros n ->. unfold binding_image, seal. rewrite <- Lb. by rewrite take_app_length, drop_app_length. }
  destruct (Hts (512 - 32) eq_refl) as [-> ->]. clear Hts. unfold binding_image, seal. set (d := sha256 _) in *.
  assert (length d = 32) as Hd by apply length_sha. rewrite bool_decide_true by done. unfold binding_body. rewrite <- !app_assoc.
  pose proof (length_identity (root b)). pose proof (length_identity (coordination b)). pose proof (length_identity (data b).1).
  pose proof (length_identity (data b).2). pose proof (length_identity (selector b)). pose proof (length_stream (stream b)).
  destruct (cut_at 8 (stream_bytes (stream b))) as (t & u & Htu & Lt); [lia|]. rewrite Htu in *.
  assert (length u = 16) by (rewrite length_app in *; lia). rewrite <- !app_assoc. set (b' := BINDING_MAGIC ++ _).
  assert (sub 8 16 b' = le_bytes 1) as -> by (unfold b'; by field).
  assert (sub 152 (512 - 32) b' = zeros 328) as -> by (unfold b'; by field).
  assert (sub 48 64 b' = identity_bytes (root b)) as -> by (unfold b'; by field).
  assert (sub 64 80 b' = identity_bytes (coordination b)) as -> by (unfold b'; by field).
  assert (sub 80 96 b' = identity_bytes (data b).1) as -> by (unfold b'; by field).
  assert (sub 96 112 b' = identity_bytes (data b).2) as -> by (unfold b'; by field).
  assert (sub 112 128 b' = identity_bytes (selector b)) as -> by (unfold b'; by field).
  assert (sub 16 48 b' = incarnation b) as -> by (unfold b'; by field).
  assert (sub 128 136 b' = t) as -> by (unfold b'; by field). assert (sub 136 152 b' = u) as -> by (unfold b'; by field).
  rewrite number_le by (unfold is_u64, u64_max; lia). rewrite bool_decide_true by done. cbn [negb]. cbn [orb]. cbv iota.
  rewrite !identity_from_bytes by done. destruct b as [rt co [d1 d2] se st i]. cbn [root coordination data selector stream incarnation fst snd] in *.
  destruct st as [f|]; unfold stream_bytes in Htu; [|change (zeros 24) with (zeros 8 ++ zeros 16) in Htu; by apply app_inj_1 in Htu as [<- <-]].
  apply app_inj_1 in Htu as [<- <-]; [|by rewrite Lt].
  rewrite number_le by (unfold is_u64, u64_max; lia). cbn [andb]. cbv iota. cbn [result_bind]. by rewrite identity_from_bytes by auto.
Qed.

Lemma decode_binding_exact bytes b :
  bytes_ok bytes ->
  decode sha256 bytes = Ok b <-> binding_ok b /\ bytes_ok (incarnation b) /\ bytes = binding_image b.
Proof.
  intros Hb. split; [by apply decode_binding_inv|]. intros (Ho & _ & ->). by apply decode_binding_image.
Qed.
End bindings.
