(* ===== verification/Publication.v ===== *)
(** * Publications of control records

    The producer's side in src/storage/maintenance_controls.rs and the maintenance side in
    src/storage/maintenance_admission.rs: making the files of a publication, taking the
    lease, publishing a payload, reading it, and finishing a publication that was
    interrupted.  A write may tear: any part of its bytes may have reached the file when it
    ends with an error, when the time of a grant is over, or when the process dies. *)
From S2P Require Import Prelude Order Bytes Budget Controls.
#[local] Open Scope rust_scope.

(** ** Files *)
(** A name leads to a file, and an open file is one whatever becomes of its name.  Nobody
    else writes the files during a call: the callers hold the lock on the selector. *)
Record World := { names : gmap string FileIdentity; inodes : gmap FileIdentity (list Z) }.

Inductive IoError := InvalidData | NotFound | AlreadyExists | DeviceError.

Definition content (id : FileIdentity) (w : World) : list Z := default [] (inodes w !! id).
Definition set_content (id : FileIdentity) (l : list Z) (w : World) : World :=
  {| names := names w; inodes := <[id := l]> (inodes w) |}.
(** [open_existing], [open_readonly_file] *)
Definition open_file (name : string) (w : World) : result IoError FileIdentity :=
  match names w !! name with Some id => Ok id | None => Err NotFound end.
Definition read_exact_image (n : nat) (id : FileIdentity) (w : World) : result IoError (list Z) :=
  if length (content id w) =? n then Ok (content id w) else Err InvalidData.

Definition DATA_NAME (i : nat) : string := if i =? 0 then ".publication.data0" else ".publication.data1".
Definition SELECTOR_NAME : string := ".publication.selector".
Definition STREAM_NAME : string := ".publication.stream".
Definition BINDING_NAME : string := ".publication.binding".
Definition data_identity (b : PublisherBinding) (i : nat) : FileIdentity := if i =? 0 then (data b).1 else (data b).2.

(** How a write ends.  [Torn mask]: with an error, the bytes marked having been written. *)
Inductive WriteOutcome := Written | Torn (mask : list bool).

Fixpoint mix (mask : list bool) (old new : list Z) : list Z :=
  match old, new with
  | o :: old, n :: new => (match mask with true :: _ => n | _ => o end) :: mix (tail mask) old new
  | _, _ => old
  end.

(** [primary_range] *)
Definition primary_range (id : FileIdentity) (offset : nat) (bytes : list Z) (o : WriteOutcome) (w : World)
    : result IoError () * World :=
  let c := content id w in
  match o with
  | Torn mask => (Err DeviceError, set_content id (put offset (mix mask (sub offset (offset + length bytes) c) bytes) c) w)
  | Written =>
      let w := set_content id (put offset bytes c) w in
      if negb (bool_decide (sub offset (offset + length bytes) (content id w) = bytes)) then (Err InvalidData, w)
      else (Ok (), w)
  end.

Section publication.
Context (sha256 : list Z -> list Z).

(** ** Making the files *)
Definition factory_write (name : string) (bytes : list Z) (fresh : FileIdentity) (w : World)
    : result IoError FileIdentity * World :=
  match names w !! name with
  | Some _ => (Err AlreadyExists, w)
  | None =>
      let w := {| names := <[name := fresh]> (names w); inodes := <[fresh := bytes]> (inodes w) |} in
      if negb (length (content fresh w) =? length bytes) then (Err InvalidData, w)
      else if negb (bool_decide (content fresh w = bytes)) then (Err InvalidData, w)
      else
        match open_file name w with
        | Err e => (Err e, w)
        | Ok named => if negb (bool_decide (named = fresh)) then (Err InvalidData, w) else (Ok fresh, w)
        end
  end.

(** The root that was made, and the identities that the file system gives to new files. *)
Record FreshPublicationRoot := {
  anchor_identity : FileIdentity;
  fresh_coordination : FileIdentity;
  fresh_incarnation : list Z;
  new_files : nat -> FileIdentity
}.

Definition invalid_control_io {E A} (r : result E A) : result IoError A := map_err (fun _ => InvalidData) r.

Definition bind_io {A B} (x : result IoError A * World) (k : A -> World -> result IoError B * World) : result IoError B * World :=
  match x with (Ok a, w) => k a w | (Err e, w) => (Err e, w) end.
(** A step that does not touch the files. *)
Definition pure_io {A B} (x : result IoError A) (w : World) (k : A -> result IoError B * World) : result IoError B * World :=
  match x with Ok a => k a | Err e => (Err e, w) end.

Definition initialize_creation_controls (fresh : FreshPublicationRoot) (initial : list Z) (w : World)
    : result IoError PublisherBinding * World :=
  let nonce := fresh_incarnation fresh in
  let '(slot, first) := encode_slot sha256 (zeros SLOT_BYTES) nonce 0 initial in
  pure_io (invalid_control_io first) w (fun first =>
  bind_io (factory_write (DATA_NAME 0) slot (new_files fresh 0) w) (fun data0 w =>
  let '(slot, second) := encode_slot sha256 slot nonce 0 [] in
  pure_io (invalid_control_io second) w (fun _ =>
  bind_io (factory_write (DATA_NAME 1) slot (new_files fresh 1) w) (fun data1 w =>
  let '(commit, done) := encode_commit sha256 (zeros COMMIT_BYTES) nonce
    {| generation := 0; active := 0; slot_digest := digest first |} in
  pure_io (invalid_control_io done) w (fun _ =>
  bind_io (factory_write SELECTOR_NAME (commit ++ zeros INTENT_BYTES) (new_files fresh 2) w) (fun selector w =>
  bind_io (factory_write STREAM_NAME [] (new_files fresh 3) w) (fun stream w =>
  let binding := {| root := anchor_identity fresh; coordination := fresh_coordination fresh; data := (data0, data1);
                    selector := selector; stream := Some stream; incarnation := nonce |} in
  let '(bytes, done) := encode sha256 binding (zeros BINDING_BYTES) in
  pure_io (invalid_control_io done) w (fun _ =>
  bind_io (factory_write BINDING_NAME bytes (new_files fresh 4) w) (fun _ w =>
  (Ok binding, w)))))))))).

(** ** The producer *)
Record Capability := {
  root_identity : FileIdentity;
  coordination_identity : FileIdentity;
  cap_incarnation : list Z;
  revalidate : bool
}.

Record RootPublicationLease := {
  lease_selector : FileIdentity;
  lease_directory : FileIdentity;
  lease_binding : PublisherBinding;
  binding_identity : FileIdentity;
  lease_commit : CommitFact;
  usable : bool
}.

Definition revalidate_existing (cap : Capability) (l : RootPublicationLease) (w : World) : result IoError bool :=
  if negb (usable l) || negb (revalidate cap) then Ok false
  else
    let? named := open_file SELECTOR_NAME w in
    let? binding := open_file BINDING_NAME w in
    let b := lease_binding l in
    Ok (bool_decide (binding = binding_identity l)
        && bool_decide (match read_exact_image BINDING_BYTES binding w with
                        | Ok bytes => result_ok (decode sha256 bytes) | Err _ => None end = Some b)
        && bool_decide (named = selector b)
        && bool_decide (lease_selector l = selector b)
        && bool_decide (match read_exact_image SELECTOR_BYTES (lease_selector l) w with
                        | Ok bytes => result_ok (decode_commit sha256 (take COMMIT_BYTES bytes) (incarnation b))
                        | Err _ => None end = Some (lease_commit l))
        && bool_decide (lease_directory l = root b)).

(** One round of the loop over the slots; [None] where the caller returns [Ok(None)]. *)
Definition read_slot (b : PublisherBinding) (i : nat) (w : World) : result IoError (option (option SlotFact)) :=
  let? file := open_file (DATA_NAME i) w in
  if negb (bool_decide (file = data_identity b i)) then Ok None
  else match read_exact_image SLOT_BYTES file w with
       | Err _ => Ok None
       | Ok image => Ok (Some (result_ok (decode_slot sha256 image (incarnation b))))
       end.

Definition check_stream (b : PublisherBinding) (w : World) : result IoError bool :=
  match stream b with
  | None => Ok true
  | Some expected => let? s := open_file STREAM_NAME w in Ok (bool_decide (s = expected))
  end.

(** [locked]: [try_lock] got the lock on the selector. *)
Definition try_begin_publication (cap : Capability) (locked : bool) (w : World) : result IoError (option RootPublicationLease) :=
  if negb (revalidate cap) then Ok None
  else
    match open_file BINDING_NAME w with
    | Err NotFound => Ok None
    | Err e => Err e
    | Ok binding_file =>
        match read_exact_image BINDING_BYTES binding_file w with
        | Err _ => Ok None
        | Ok binding_bytes =>
            match decode sha256 binding_bytes with
            | Err _ => Ok None
            | Ok b =>
                if negb (bool_decide (root b = root_identity cap)) || negb (bool_decide (coordination b = coordination_identity cap))
                   || negb (bool_decide (incarnation b = cap_incarnation cap)) then Ok None
                else
                  let? selector_file := open_file SELECTOR_NAME w in
                  if negb (bool_decide (selector_file = selector b)) then Ok None
                  else if negb locked then Ok None
                  else
                    let? named_binding := open_file BINDING_NAME w in
                    if negb (bool_decide (named_binding = binding_file))
                       || negb (bool_decide (result_ok (read_exact_image BINDING_BYTES named_binding w) = Some binding_bytes)) then Ok None
                    else
                    match read_exact_image SELECTOR_BYTES selector_file w with
                    | Err _ => Ok None
                    | Ok selector_bytes =>
                        let? s0 := read_slot b 0 w in
                        match s0 with None => Ok None | Some s0 =>
                        let? s1 := read_slot b 1 w in
                        match s1 with None => Ok None | Some s1 =>
                        let? stream := check_stream b w in
                        if negb stream then Ok None
                        else
                          let commit := result_ok (decode_commit sha256 (take COMMIT_BYTES selector_bytes) (incarnation b)) in
                          let intent := result_ok (decode_intent sha256 (drop COMMIT_BYTES selector_bytes) (incarnation b)) in
                          match recovery_step commit intent [s0; s1] with
                          | Committed commit =>
                              let lease := {| lease_selector := selector_file; lease_directory := root_identity cap;
                                              lease_binding := b; binding_identity := binding_file;
                                              lease_commit := commit; usable := true |} in
                              let? valid := revalidate_existing cap lease w in
                              Ok (if valid then Some lease else None)
                          | _ => Ok None
                          end
                        end end
                    end
            end
        end
    end.

Definition read_primary_control (cap : Capability) (l : RootPublicationLease) (w : World) : result IoError (list Z) :=
  let? valid := revalidate_existing cap l w in
  if negb valid then Err InvalidData
  else
    let c := lease_commit l in
    let b := lease_binding l in
    let? file := open_file (DATA_NAME (active c)) w in
    if negb (bool_decide (file = data_identity b (active c))) then Err InvalidData
    else
      let? image := read_exact_image SLOT_BYTES file w in
      let? fact := invalid_control_io (decode_slot sha256 image (incarnation b)) in
      if negb (slot_generation fact =? generation c)%Z || negb (bool_decide (digest fact = slot_digest c)) then Err InvalidData
      else Ok (sub 56 (56 + Z.to_nat (payload_len fact)) image).

(** The writes of a publication, one after the other. *)
Record Outcomes := { intent_outcome : WriteOutcome; slot_outcome : WriteOutcome; commit_outcome : WriteOutcome }.

Definition set_lease (l : RootPublicationLease) (c : CommitFact) (u : bool) : RootPublicationLease :=
  {| lease_selector := lease_selector l; lease_directory := lease_directory l; lease_binding := lease_binding l;
     binding_identity := binding_identity l; lease_commit := c; usable := u |}.

Definition publish_primary_control (cap : Capability) (l : RootPublicationLease) (payload : list Z) (o : Outcomes) (w : World)
    : result IoError CommitFact * RootPublicationLease * World :=
  let failed e := (Err e, l, w) in
  match revalidate_existing cap l w with
  | Err e => failed e
  | Ok false => failed InvalidData
  | Ok true =>
  match read_exact_image SELECTOR_BYTES (lease_selector l) w with
  | Err e => failed e
  | Ok image =>
  let inc := incarnation (lease_binding l) in
  if negb (bool_decide (result_ok (decode_commit sha256 (take COMMIT_BYTES image) inc) = Some (lease_commit l))) then failed InvalidData
  else
  match checked_add_u64 (generation (lease_commit l)) 1 with
  | None => failed InvalidData
  | Some next_generation =>
  let '(slot, fact) := encode_slot sha256 (zeros SLOT_BYTES) inc next_generation payload in
  match fact with
  | Err _ => failed InvalidData
  | Ok fact =>
  let '(intent_bytes, intent) := encode_intent sha256 (zeros INTENT_BYTES) inc (lease_commit l) slot in
  match intent with
  | Err _ => failed InvalidData
  | Ok intent =>
  let next := {| generation := next_generation; active := target intent; slot_digest := digest fact |} in
  let '(commit_bytes, encoded) := encode_commit sha256 (zeros COMMIT_BYTES) inc next in
  match encoded with
  | Err _ => failed InvalidData
  | Ok _ =>
  match open_file (DATA_NAME (active next)) w with
  | Err e => failed e
  | Ok file =>
  if negb (bool_decide (file = data_identity (lease_binding l) (active next))) || negb (length (content file w) =? SLOT_BYTES)
  then failed InvalidData
  else
    (* self.usable = false *)
    let l := set_lease l (lease_commit l) false in
    match primary_range (lease_selector l) COMMIT_BYTES intent_bytes (intent_outcome o) w with
    | (Err e, w) => (Err e, l, w)
    | (Ok _, w) =>
    match primary_range file 0 slot (slot_outcome o) w with
    | (Err e, w) => (Err e, l, w)
    | (Ok _, w) =>
    match primary_range (lease_selector l) 0 commit_bytes (commit_outcome o) w with
    | (Err e, w) => (Err e, l, w)
    | (Ok _, w) => (Ok next, set_lease l next true, w)
    end end end
  end end end end end end end.

(** ** The maintenance *)
(** src/storage/locks.rs: [FixedControlProblem], [FixedControlError] *)
Inductive FixedControlProblem :=
| InvalidPath | PathTooLong | WrongKind | Aliased | Changed | Oversized | BufferTooSmall | InvalidRecord
| EpochMismatch | EpochExhausted | GuardMismatch | Busy.
Inductive AdmissionError := AdmissionIo (e : IoError) | Invalid (p : FixedControlProblem) | Resource (r : ResourceLimit) | Grant (g : GrantExhausted).

Record RootOriginBinding := {
  origin_root : FileIdentity;
  origin_coordination : FileIdentity;
  origin_incarnation : list Z;
  publication_binding : FileIdentity
}.

Record PreparedPrivateMetadata := {
  origin : RootOriginBinding;
  prep_selector : FileIdentity;
  prep_data : FileIdentity * FileIdentity;
  slot_images : list Z * list Z;
  selector_image : list Z;
  committed : option CommitFact;
  recovery : RecoveryStep
}.

Definition admission_io {A} (r : result IoError A) : result AdmissionError A := map_err AdmissionIo r.
(** [read_fixed_range] of a file whose length was checked. *)
Definition fixed_image (n : nat) (id : FileIdentity) (w : World) : result AdmissionError (list Z) :=
  map_err (fun _ => Invalid InvalidRecord) (read_exact_image n id w).

Definition prepare_private_metadata (og : RootOriginBinding) (w : World) : result AdmissionError PreparedPrivateMetadata :=
  let? binding_file := admission_io (open_file BINDING_NAME w) in
  if negb (bool_decide (binding_file = publication_binding og)) then Err (Invalid Changed)
  else
    let? publisher := map_err (fun _ => Invalid InvalidRecord) (decode sha256 (content binding_file w)) in
    if negb (bool_decide ((root publisher, coordination publisher, incarnation publisher)
                          = (origin_root og, origin_coordination og, origin_incarnation og))) then Err (Invalid Changed)
    else
      let? selector_file := admission_io (open_file SELECTOR_NAME w) in
      let? data0 := admission_io (open_file (DATA_NAME 0) w) in
      let? data1 := admission_io (open_file (DATA_NAME 1) w) in
      if negb (bool_decide (selector_file = selector publisher)) || negb (bool_decide (data0 = (data publisher).1))
         || negb (bool_decide (data1 = (data publisher).2)) then Err (Invalid Changed)
      else
        let? image0 := fixed_image SLOT_BYTES data0 w in
        let? image1 := fixed_image SLOT_BYTES data1 w in
        let? image := fixed_image SELECTOR_BYTES selector_file w in
        let inc := origin_incarnation og in
        let slots := [result_ok (decode_slot sha256 image0 inc); result_ok (decode_slot sha256 image1 inc)] in
        let committed := result_ok (decode_commit sha256 (take COMMIT_BYTES image) inc) in
        let intent := result_ok (decode_intent sha256 (drop COMMIT_BYTES image) inc) in
        let recovery := recovery_step committed intent slots in
        if bool_decide (recovery = Unknown) then Err (Invalid InvalidRecord)
        else
          let? stream_file := admission_io (open_file STREAM_NAME w) in
          if negb (bool_decide (Some stream_file = stream publisher)) then Err (Invalid Changed)
          else Ok {| origin := og; prep_selector := selector_file; prep_data := (data0, data1);
                     slot_images := (image0, image1); selector_image := image; committed := committed; recovery := recovery |}.

(** [PreparedPrivateMetadata::payload] *)
Definition prepared_payload (p : PreparedPrivateMetadata) : option (list Z) :=
  c ← committed p;
  let slot := if active c =? 0 then (slot_images p).1 else (slot_images p).2 in
  let len := number (sub 48 56 slot) in
  if (Z.of_nat (length slot) <? 56 + len)%Z then None else Some (sub 56 (56 + Z.to_nat len) slot).

(** [images] are the slot, the intent and the commit one after the other. *)
Record PreparedControlUpdate := {
  update_incarnation : list Z;
  update_before : option CommitFact;
  update_next : CommitFact;
  update_slot : list Z;
  update_intent : list Z;
  update_commit : list Z;
  effects : nat;
  is_recovery : bool
}.

Definition prepare_metadata_control (og : RootOriginBinding) (c : CommitFact) (payload : list Z)
    : result AdmissionError PreparedControlUpdate :=
  let inc := origin_incarnation og in
  let? next_generation := ok_or (Invalid EpochExhausted) (checked_add_u64 (generation c) 1) in
  let '(slot, fact) := encode_slot sha256 (zeros SLOT_BYTES) inc next_generation payload in
  let? fact := map_err (fun _ => Invalid InvalidRecord) fact in
  let '(intent, intended) := encode_intent sha256 (zeros INTENT_BYTES) inc c slot in
  let? intended := map_err (fun _ => Invalid InvalidRecord) intended in
  let next := {| generation := next_generation; active := target intended; slot_digest := digest fact |} in
  let '(commit, encoded) := encode_commit sha256 (zeros COMMIT_BYTES) inc next in
  let? _ := map_err (fun _ => Invalid InvalidRecord) encoded in
  Ok {| update_incarnation := inc; update_before := Some c; update_next := next; update_slot := slot; update_intent := intent;
        update_commit := commit; effects := 6; is_recovery := false |}.

Definition prepare_metadata_recovery (p : PreparedPrivateMetadata) : result AdmissionError (option PreparedControlUpdate) :=
  let finish (i : IntentFact) (n : nat) :=
    (let source := drop COMMIT_BYTES (selector_image p) in
     let next := {| generation := after i; active := target i; slot_digest := intent_digest i |} in
     let '(commit, encoded) := encode_commit sha256 (zeros COMMIT_BYTES) (origin_incarnation (origin p)) next in
     let? _ := map_err (fun _ => Invalid InvalidRecord) encoded in
     Ok (Some {| update_incarnation := origin_incarnation (origin p); update_before := committed p; update_next := next;
                 update_slot := sub 96 (96 + SLOT_BYTES) source; update_intent := source; update_commit := commit;
                 effects := n; is_recovery := true |})) in
  match recovery p with
  | Committed _ => Ok None
  | RewriteIntendedSlot i => finish i 4
  | CommitIntendedSlot i => finish i 2
  | Unknown => Err (Invalid InvalidRecord)
  end.

(** What a mutation may still do. *)
Record PrivateMetadataMutation := {
  mut_origin : RootOriginBinding;
  mut_selector : FileIdentity;
  mut_data : FileIdentity * FileIdentity;
  mut_committed : option CommitFact;
  remaining_effects : nat;
  mut_usable : bool;
  recovery_pending : bool
}.

(** [with_private_metadata_inner], up to its callback: what was prepared is still there. *)
Definition start_mutation (p : PreparedPrivateMetadata) (effect_entries : nat) (w : World)
    : result AdmissionError PrivateMetadataMutation :=
  if negb (bool_decide (content (prep_data p).1 w = (slot_images p).1))
     || negb (bool_decide (content (prep_data p).2 w = (slot_images p).2))
     || negb (bool_decide (content (prep_selector p) w = selector_image p)) then Err (Invalid Changed)
  else Ok {| mut_origin := origin p; mut_selector := prep_selector p; mut_data := prep_data p; mut_committed := committed p;
             remaining_effects := effect_entries; mut_usable := true;
             recovery_pending := match recovery p with Committed _ => false | _ => true end |}.

Definition set_mutation (m : PrivateMetadataMutation) (c : option CommitFact) (left : nat) (u pending : bool) : PrivateMetadataMutation :=
  {| mut_origin := mut_origin m; mut_selector := mut_selector m; mut_data := mut_data m; mut_committed := c;
     remaining_effects := left; mut_usable := u; recovery_pending := pending |}.

(** [PrivateMetadataMutation::range]; the time of the grant may be over before or
    behind the write, which is one more way to end with an error. *)
Definition range (id : FileIdentity) (offset : nat) (bytes : list Z) (o : WriteOutcome) (w : World)
    : result AdmissionError () * World :=
  let '(r, w) := primary_range id offset bytes o w in
  (map_err (fun e => match e with InvalidData => Invalid Changed | e => AdmissionIo e end) r, w).

Definition publish_control (m : PrivateMetadataMutation) (u : PreparedControlUpdate) (o : Outcomes) (w : World)
    : result AdmissionError () * PrivateMetadataMutation * World :=
  if negb (mut_usable m) || negb (Bool.eqb (recovery_pending m) (is_recovery u))
     || negb (bool_decide (origin_incarnation (mut_origin m) = update_incarnation u))
     || negb (bool_decide (mut_committed m = update_before u)) then (Err (Invalid Changed), m, w)
  else if remaining_effects m <? effects u then (Err (Grant Entries), m, w)
  else
    let left := remaining_effects m - effects u in
    let m := set_mutation m (mut_committed m) left false (recovery_pending m) in
    let data := if active (update_next u) =? 0 then (mut_data m).1 else (mut_data m).2 in
    match (if is_recovery u then (Ok (), w) else range (mut_selector m) COMMIT_BYTES (update_intent u) (intent_outcome o) w) with
    | (Err e, w) => (Err e, m, w)
    | (Ok _, w) =>
    match (if 4 <=? effects u then range data 0 (update_slot u) (slot_outcome o) w else (Ok (), w)) with
    | (Err e, w) => (Err e, m, w)
    | (Ok _, w) =>
    match range (mut_selector m) 0 (update_commit u) (commit_outcome o) w with
    | (Err e, w) => (Err e, m, w)
    | (Ok _, w) => (Ok (), set_mutation m (Some (update_next u)) left true false, w)
    end end end.
End publication.
