(* ===== verification/PublicationSafe.v ===== *)
(** * Publications survive torn writes

    What the files of a publication hold, whatever writes were interrupted: a payload, or a
    payload and the one that is to follow.  The writes of a publication, one by one. *)
From S2P Require Import Prelude Order Bytes Controls ControlsCodec Publication.

#[global] Opaque SLOT_BYTES INTENT_BYTES COMMIT_BYTES.

Lemma selector_size : SELECTOR_BYTES = COMMIT_BYTES + INTENT_BYTES.
Proof. done. Qed.

Lemma sizes : 72 <= SLOT_BYTES /\ 72 <= COMMIT_BYTES /\ 72 <= INTENT_BYTES.
Proof.
  split_and!; [|apply Nat.leb_le; vm_compute; done|]; apply (Nat.le_trans _ 88); try lia.
  - change SLOT_BYTES with (56 + PAYLOAD_BYTES + 32). lia.
  - change INTENT_BYTES with (96 + (56 + PAYLOAD_BYTES + 32) + 32). lia.
Qed.

Section safe.
Context (sha256 : list Z -> list Z) (length_sha : forall l, length (sha256 l) = 32).
Context (b : PublisherBinding) (b_ok : binding_ok b) (binding_file : FileIdentity).
Local Abbreviation inc := (incarnation b).

(** ** The files *)
Record Layout (w : World) : Prop := {
  layout_binding : names w !! BINDING_NAME = Some binding_file;
  layout_selector : names w !! SELECTOR_NAME = Some (selector b);
  layout_data i : names w !! DATA_NAME i = Some (data_identity b i);
  layout_stream s : stream b = Some s -> names w !! STREAM_NAME = Some s;
  layout_distinct : NoDup [binding_file; selector b; (data b).1; (data b).2];
  layout_image : content binding_file w = binding_image sha256 b;
  layout_selector_size : length (content (selector b) w) = SELECTOR_BYTES;
  layout_slot_size i : length (content (data_identity b i) w) = SLOT_BYTES
}.

Definition commit_region (w : World) : list Z := take COMMIT_BYTES (content (selector b) w).
Definition intent_region (w : World) : list Z := drop COMMIT_BYTES (content (selector b) w).
Definition slot_region (i : nat) (w : World) : list Z := content (data_identity b i) w.

(** [w'] is [w] with these regions. *)
Record with_regions (w w' : World) (c i : list Z) (s : nat -> list Z) : Prop := {
  wr_layout : Layout w';
  wr_commit : commit_region w' = c;
  wr_intent : intent_region w' = i;
  wr_slot n : slot_region n w' = s n
}.

Lemma length_regions w : Layout w -> length (commit_region w) = COMMIT_BYTES /\ length (intent_region w) = INTENT_BYTES.
Proof.
  intros Hl. unfold commit_region, intent_region. rewrite length_take, length_drop, (layout_selector_size _ Hl), selector_size. lia.
Qed.

Lemma content_same id l w : content id (set_content id l w) = l.
Proof. unfold content, set_content. simpl. by rewrite lookup_insert_eq. Qed.
Lemma content_other id id' l w : id <> id' -> content id' (set_content id l w) = content id' w.
Proof. intros H. unfold content, set_content. simpl. by rewrite lookup_insert_ne. Qed.

Lemma data_identity_in i : data_identity b i = (data b).1 \/ data_identity b i = (data b).2.
Proof. unfold data_identity. destruct (i =? 0); auto. Qed.
Lemma layout_ne w : Layout w -> binding_file <> selector b /\ (forall i, data_identity b i <> selector b) /\
  (forall i, data_identity b i <> binding_file) /\ (data b).1 <> (data b).2.
Proof.
  intros Hl. pose proof (layout_distinct _ Hl) as H. rewrite !NoDup_cons, !elem_of_cons, elem_of_nil in H.
  destruct H as (H1 & H2 & H3 & _). split_and!; [by intros E; apply H1; auto| | |by intros E; apply H3; auto].
  - intros i. destruct (data_identity_in i) as [-> | ->]; intros E; apply H2; auto.
  - intros i. destruct (data_identity_in i) as [-> | ->]; intros E; apply H1; auto.
Qed.

Lemma set_selector w l : Layout w -> length l = SELECTOR_BYTES ->
  with_regions w (set_content (selector b) l w) (take COMMIT_BYTES l) (drop COMMIT_BYTES l) (fun n => slot_region n w).
Proof.
  intros Hl Hlen. destruct (layout_ne _ Hl) as (Hb & Hd & _ & _). destruct Hl. constructor.
  - constructor; try done; [by rewrite content_other|by rewrite content_same|intros i; by rewrite content_other].
  - unfold commit_region. by rewrite content_same.
  - unfold intent_region. by rewrite content_same.
  - intros n. unfold slot_region. by rewrite content_other.
Qed.

Lemma data_identity_eq i j : (data b).1 <> (data b).2 -> i <= 1 -> j <= 1 -> data_identity b i = data_identity b j -> i = j.
Proof. intros H Hi Hj. unfold data_identity. destruct i as [|[|]], j as [|[|]]; simpl; try lia; congruence. Qed.
Lemma data_identity_big n : data_identity b n = data_identity b (if n =? 0 then 0 else 1).
Proof. by destruct n. Qed.

(** The index [n] of a slot as the array has it. *)
Definition same_slot (i n : nat) : bool := Bool.eqb (i =? 0) (n =? 0).

Lemma set_slot w i l : Layout w -> length l = SLOT_BYTES ->
  with_regions w (set_content (data_identity b i) l w) (commit_region w) (intent_region w)
    (fun n => if same_slot i n then l else slot_region n w).
Proof.
  intros Hl Hlen. destruct (layout_ne _ Hl) as (Hb & Hd & Hdb & H12). pose proof Hl as [L1 L2 L3 L4 L5 L6 L7 L8].
  assert (forall n, content (data_identity b n) (set_content (data_identity b i) l w) = if same_slot i n then l else slot_region n w) as Hs.
  { intros n. unfold same_slot. destruct (Bool.eqb (i =? 0) (n =? 0)) eqn:E.
    - apply Bool.eqb_prop in E. assert (data_identity b n = data_identity b i) as -> by (unfold data_identity; by rewrite E). apply content_same.
    - apply Bool.eqb_false_iff in E. apply content_other. unfold data_identity. destruct (i =? 0), (n =? 0); done || congruence. }
  constructor.
  - constructor; try done; [by rewrite content_other|by rewrite content_other|]. intros n. rewrite Hs. destruct (same_slot i n); [done|apply L8].
  - unfold commit_region. by rewrite content_other.
  - unfold intent_region. by rewrite content_other.
  - done.
Qed.

(** ** One write *)
Lemma length_mix mask old new : length (mix mask old new) = length old.
Proof. revert mask new. induction old as [|o old IH]; intros mask [|n new]; simpl; [done..|]. by rewrite IH. Qed.

(** A torn image is found out: what passes its checksum is one of the two. *)
Definition checks (m : list Z) : Prop := sha256 (take (length m - 32) m) = drop (length m - 32) m.
Definition detects (old new : list Z) (o : WriteOutcome) : Prop :=
  match o with Torn mask => checks (mix mask old new) -> mix mask old new = old \/ mix mask old new = new | Written => True end.

(** What a region holds after a write. *)
Definition written (old new : list Z) (o : WriteOutcome) : list Z :=
  match o with Torn mask => mix mask old new | Written => new end.
Lemma length_written old new o : length old = length new -> length (written old new o) = length new.
Proof. intros H. destruct o; simpl; [done|by rewrite length_mix]. Qed.

Lemma sub_put at_ l bytes : at_ + length l <= length bytes -> sub at_ (at_ + length l) (put at_ l bytes) = l.
Proof.
  intros H. unfold put. assert (length (take at_ bytes) = at_) as Ht by (rewrite length_take; lia).
  rewrite sub_skip, Ht by lia. apply sub_here; lia.
Qed.

Lemma primary_range_spec id at_ bytes o w :
  at_ + length bytes <= length (content id w) ->
  exists r, primary_range id at_ bytes o w =
    (r, set_content id (put at_ (written (sub at_ (at_ + length bytes) (content id w)) bytes o) (content id w)) w) /\
  (r = Ok () <-> o = Written).
Proof.
  intros H. unfold primary_range. destruct o as [|mask]; simpl written.
  - rewrite content_same, sub_put by done. rewrite bool_decide_true by done. exists (Ok ()). done.
  - eexists. split; [done|]. done.
Qed.

Lemma write_intent w bytes o : Layout w -> length bytes = INTENT_BYTES ->
  exists r w', primary_range (selector b) COMMIT_BYTES bytes o w = (r, w') /\ (r = Ok () <-> o = Written) /\
    with_regions w w' (commit_region w) (written (intent_region w) bytes o) (fun n => slot_region n w).
Proof.
  intros Hl Hb. pose proof (layout_selector_size _ Hl) as Hs. destruct (length_regions _ Hl) as [Hc Hi].
  destruct (primary_range_spec (selector b) COMMIT_BYTES bytes o w) as (r & -> & Hr); [rewrite Hs, selector_size; lia|].
  eexists _, _. split; [done|]. split; [done|].
  assert (sub COMMIT_BYTES (COMMIT_BYTES + length bytes) (content (selector b) w) = intent_region w) as ->.
  { unfold sub, intent_region. apply take_ge. rewrite length_drop, Hs, selector_size. lia. }
  set (x := written _ _ _). assert (length x = INTENT_BYTES) as Hx by (unfold x; rewrite length_written; lia).
  assert (put COMMIT_BYTES x (content (selector b) w) = commit_region w ++ x) as ->.
  { unfold put, commit_region. rewrite drop_ge by (rewrite Hs, selector_size; lia). by rewrite app_nil_r. }
  assert (take COMMIT_BYTES (commit_region w ++ x) = commit_region w /\ drop COMMIT_BYTES (commit_region w ++ x) = x) as [E1 E2].
  { rewrite <- Hc. by rewrite take_app_length, drop_app_length. }
  pose proof (set_selector w (commit_region w ++ x) Hl) as H. rewrite E1, E2 in H. apply H. by rewrite length_app, Hc, Hx.
Qed.

Lemma write_commit w bytes o : Layout w -> length bytes = COMMIT_BYTES ->
  exists r w', primary_range (selector b) 0 bytes o w = (r, w') /\ (r = Ok () <-> o = Written) /\
    with_regions w w' (written (commit_region w) bytes o) (intent_region w) (fun n => slot_region n w).
Proof.
  intros Hl Hb. pose proof (layout_selector_size _ Hl) as Hs. destruct (length_regions _ Hl) as [Hc Hi].
  destruct (primary_range_spec (selector b) 0 bytes o w) as (r & -> & Hr); [rewrite Hs, selector_size; lia|].
  eexists _, _. split; [done|]. split; [done|].
  assert (sub 0 (0 + length bytes) (content (selector b) w) = commit_region w) as ->.
  { unfold sub, commit_region. rewrite drop_0. f_equal. lia. }
  set (x := written _ _ _). assert (length x = COMMIT_BYTES) as Hx by (unfold x; rewrite length_written; lia).
  assert (put 0 x (content (selector b) w) = x ++ intent_region w) as -> by (unfold put, intent_region; simpl; by rewrite Hx).
  assert (take COMMIT_BYTES (x ++ intent_region w) = x /\ drop COMMIT_BYTES (x ++ intent_region w) = intent_region w) as [E1 E2].
  { rewrite <- Hx. by rewrite take_app_length, drop_app_length. }
  pose proof (set_selector w (x ++ intent_region w) Hl) as H. rewrite E1, E2 in H. apply H. by rewrite length_app, Hi, Hx.
Qed.

Lemma write_slot w i bytes o : Layout w -> length bytes = SLOT_BYTES ->
  exists r w', primary_range (data_identity b i) 0 bytes o w = (r, w') /\ (r = Ok () <-> o = Written) /\
    with_regions w w' (commit_region w) (intent_region w)
      (fun n => if same_slot i n then written (slot_region i w) bytes o else slot_region n w).
Proof.
  intros Hl Hb. pose proof (layout_slot_size _ Hl i) as Hs.
  destruct (primary_range_spec (data_identity b i) 0 bytes o w) as (r & -> & Hr); [lia|].
  eexists _, _. split; [done|]. split; [done|].
  assert (sub 0 (0 + length bytes) (content (data_identity b i) w) = slot_region i w) as -> by (apply sub_all; [done|]; unfold slot_region; lia).
  set (x := written _ _ _). assert (length x = SLOT_BYTES) as Hx by (unfold x; rewrite length_written; [done|]; unfold slot_region; lia).
  assert (put 0 x (content (data_identity b i) w) = x) as ->.
  { unfold put. simpl. rewrite drop_ge by lia. apply app_nil_r. }
  by apply set_slot.
Qed.

(** ** What the files hold *)
Definition bounded (g : Z) (v : list Z) : Prop := is_u64 g /\ length v <= PAYLOAD_BYTES.
Definition payload_digest (g : Z) (v : list Z) : list Z := sha256 (slot_body inc g v).
Definition commit_of (g : Z) (a : nat) (v : list Z) : CommitFact :=
  {| generation := g; active := a; slot_digest := payload_digest g v |}.
Definition intent_of (g : Z) (a : nat) (u : list Z) : IntentFact :=
  {| before := g; after := g + 1; target := 1 - a; intent_digest := payload_digest (g + 1) u |}.
Definition slot_bytes (g : Z) (v : list Z) : list Z := slot_image sha256 inc g v.
Definition commit_bytes (g : Z) (a : nat) (v : list Z) : list Z := commit_image sha256 inc (commit_of g a v).
Definition intent_bytes (g : Z) (a : nat) (u : list Z) : list Z := full_intent sha256 inc (intent_of g a u) u.

(** Nothing in this slot is newer than [g]. *)
Definition old_slot (i : nat) (g : Z) (w : World) : Prop :=
  forall f, decode_slot sha256 (slot_region i w) inc = Ok f -> (slot_generation f <= g)%Z.
(** An intent that is read is that of [v] itself, already done. *)
Definition no_intent (a : nat) (g : Z) (v : list Z) (w : World) : Prop :=
  forall i, decode_intent sha256 (intent_region w) inc = Ok i -> after i = g /\ target i = a /\ intent_digest i = payload_digest g v.
Definition commit_torn (w : World) : Prop := forall c, decode_commit sha256 (commit_region w) inc <> Ok c.

Record in_force (a : nat) (g : Z) (v : list Z) (w : World) : Prop := {
  if_layout : Layout w;
  if_active : a <= 1;
  if_bounded : bounded g v;
  if_slot : slot_region a w = slot_bytes g v
}.
Definition ready (a : nat) (g : Z) (u : list Z) (w : World) : Prop := slot_region (1 - a) w = slot_bytes (g + 1) u.

(** [v] is stored. *)
Record clean_at (a : nat) (g : Z) (v : list Z) (w : World) : Prop := {
  cl_force : in_force a g v w;
  cl_commit : commit_region w = commit_bytes g a v;
  cl_old : old_slot (1 - a) g w;
  cl_intent : no_intent a g v w
}.
(** [v] is stored, and [u] is to follow it. *)
Record underway (a : nat) (g : Z) (v u : list Z) (w : World) : Prop := {
  uw_force : in_force a g v w;
  uw_bounded : bounded (g + 1) u;
  uw_intent : intent_region w = intent_bytes g a u
}.
Definition pending_at (a : nat) (g : Z) (v u : list Z) (w : World) : Prop :=
  underway a g v u w /\
  (commit_region w = commit_bytes g a v /\ (ready a g u w \/ old_slot (1 - a) g w) \/ ready a g u w /\ commit_torn w).

Definition clean (g : Z) (v : list Z) (w : World) : Prop := exists a, clean_at a g v w.
Definition pending (g : Z) (v u : list Z) (w : World) : Prop := exists a, pending_at a g v u w.

(** ** Images *)
Let length_inc : length inc = 32.
Proof. by destruct b_ok as (_ & _ & _ & _ & _ & _ & ?). Qed.

Lemma commit_of_ok g a v : bounded g v -> a <= 1 -> commit_ok (commit_of g a v).
Proof. intros [Hg _] Ha. split_and!; [done|done|]. apply length_sha. Qed.
Lemma intent_of_ok g a u : is_u64 g -> bounded (g + 1) u -> a <= 1 -> intended sha256 inc (intent_of g a u) u.
Proof. intros Hg [Hg1 Hu] Ha. unfold intended. cbn [before after target intent_digest intent_of]. split_and!; try done. lia. Qed.
Lemma length_slot_bytes g v : bounded g v -> length (slot_bytes g v) = SLOT_BYTES.
Proof. intros [_ Hv]. by apply length_slot_image. Qed.
Lemma length_commit_bytes g a v : length (commit_bytes g a v) = COMMIT_BYTES.
Proof. apply length_commit_image; [done|done|apply length_sha]. Qed.
Lemma length_intent_bytes g a u : is_u64 g -> bounded (g + 1) u -> a <= 1 -> length (intent_bytes g a u) = INTENT_BYTES.
Proof. intros Hg Hu Ha. apply length_full_intent; [done|done|by apply intent_of_ok]. Qed.

Lemma decode_slot_bytes g v : bounded g v -> decode_slot sha256 (slot_bytes g v) inc = Ok (slot_fact sha256 inc g v).
Proof. intros [Hg Hv]. by apply decode_slot_image. Qed.
Lemma decode_commit_bytes g a v : bounded g v -> a <= 1 -> decode_commit sha256 (commit_bytes g a v) inc = Ok (commit_of g a v).
Proof. intros Hg Ha. apply decode_commit_image; [done|done|by apply commit_of_ok]. Qed.
Lemma decode_intent_bytes g a u : is_u64 g -> bounded (g + 1) u -> a <= 1 ->
  decode_intent sha256 (intent_bytes g a u) inc = Ok (intent_of g a u).
Proof. intros Hg Hu Ha. apply decode_intent_image; [done|done|by apply intent_of_ok]. Qed.

(** *** What is decoded passes its checksum *)
Lemma validate_checks m len magic m' : 72 <= len -> length magic = 8 -> validate sha256 m len magic inc = Ok m' -> checks m.
Proof.
  intros Hlen Hm H. apply validate_spec in H as (f & _ & -> & Hf); [|done|done|lia|done]. unfold checks.
  rewrite length_seal by done. replace (_ + 32 - 32) with (length (magic ++ inc ++ f)) by lia.
  unfold seal. by rewrite take_app_length, drop_app_length.
Qed.
Lemma slot_checks m f : decode_slot sha256 m inc = Ok f -> checks m.
Proof. intros H. apply result_bind_Ok in H as (m' & H & _). by eapply (validate_checks _ SLOT_BYTES SLOT_MAGIC); [apply sizes| |]. Qed.
Lemma commit_checks m f : decode_commit sha256 m inc = Ok f -> checks m.
Proof. intros H. apply result_bind_Ok in H as (m' & H & _). by eapply (validate_checks _ COMMIT_BYTES COMMIT_MAGIC); [apply sizes| |]. Qed.
Lemma intent_checks m f : decode_intent sha256 m inc = Ok f -> checks m.
Proof. intros H. apply result_bind_Ok in H as (m' & H & _). by eapply (validate_checks _ INTENT_BYTES INTENT_MAGIC); [apply sizes| |]. Qed.

(** What is read from a region after a write is what was there, or what was written. *)
Lemma written_checks old new o : detects old new o -> checks (written old new o) -> written old new o = old \/ written old new o = new.
Proof. destruct o as [|mask]; simpl; auto. Qed.

(** ** The writes of a publication *)
Section writes.
Context (a : nat) (g : Z) (v u : list Z) (w w' : World).

Lemma force_regions c i s : in_force a g v w -> with_regions w w' c i s -> s a = slot_region a w -> in_force a g v w'.
Proof. intros [Hl Ha Hg Hs] [Hl' _ _ Hn] E. constructor; [done..|]. by rewrite Hn, E. Qed.

(** The intent. *)
Lemma after_intent o :
  clean_at a g v w -> bounded (g + 1) u -> detects (intent_region w) (intent_bytes g a u) o ->
  with_regions w w' (commit_region w) (written (intent_region w) (intent_bytes g a u) o) (fun n => slot_region n w) ->
  (o = Written -> underway a g v u w' /\ commit_region w' = commit_bytes g a v /\ old_slot (1 - a) g w') /\
  (clean_at a g v w' \/ pending_at a g v u w').
Proof.
  intros [Hf Hc Hold Hi] Hu Hd Hw. pose proof (force_regions _ _ _ Hf Hw eq_refl) as Hf'. destruct Hw as [_ Wc Wi Ws].
  assert (old_slot (1 - a) g w') as Hold' by (unfold old_slot; by rewrite Ws). rewrite Hc in Wc.
  assert (intent_region w' = intent_bytes g a u -> pending_at a g v u w' /\ underway a g v u w') as Hnew.
  { intros E. assert (underway a g v u w') by done. split; [|done]. split; [done|]. left. auto. }
  split; [intros ->; simpl in Wi; split_and!; [by apply Hnew|done..]|].
  destruct (decode_intent sha256 (intent_region w') inc) as [i|e] eqn:E.
  - rewrite Wi in E. destruct (written_checks _ _ _ Hd (intent_checks _ _ E)) as [Eold|Enew].
    + left. constructor; [done..|]. unfold no_intent. by rewrite Wi, Eold.
    + right. apply Hnew. by rewrite Wi.
  - left. constructor; [done..|]. intros i Ei. congruence.
Qed.

(** The slot. *)
Lemma after_slot o :
  underway a g v u w -> commit_region w = commit_bytes g a v -> ready a g u w \/ old_slot (1 - a) g w ->
  detects (slot_region (1 - a) w) (slot_bytes (g + 1) u) o ->
  with_regions w w' (commit_region w) (intent_region w)
    (fun n => if same_slot (1 - a) n then written (slot_region (1 - a) w) (slot_bytes (g + 1) u) o else slot_region n w) ->
  underway a g v u w' /\ commit_region w' = commit_bytes g a v /\ (ready a g u w' \/ old_slot (1 - a) g w') /\
  (o = Written -> ready a g u w').
Proof.
  intros [Hf Hu Hi] Hc Hr Hd Hw. assert (a <= 1) as Ha by by destruct Hf.
  assert (same_slot (1 - a) a = false /\ same_slot (1 - a) (1 - a) = true) as [Hn Hy] by (destruct a as [|[|]]; [done|done|lia]).
  assert (in_force a g v w') as Hf' by (eapply force_regions; [done|done|]; cbv beta; by rewrite Hn). destruct Hw as [_ Wc Wi Ws].
  specialize (Ws (1 - a)). cbv beta in Ws. rewrite Hy in Ws. split_and!.
  - constructor; [done..|]. by rewrite Wi.
  - by rewrite Wc.
  - destruct (decode_slot sha256 (slot_region (1 - a) w') inc) as [f|e] eqn:E; [|right; intros f Ef; congruence].
    rewrite Ws in E. destruct (written_checks _ _ _ Hd (slot_checks _ _ E)) as [Eold|Enew].
    + unfold ready, old_slot in *. rewrite Ws, Eold. done.
    + left. unfold ready. by rewrite Ws.
  - intros ->. unfold ready. by rewrite Ws.
Qed.

(** The commit. *)
Lemma after_commit o :
  underway a g v u w -> ready a g u w -> commit_region w = commit_bytes g a v \/ commit_torn w ->
  detects (commit_region w) (commit_bytes (g + 1) (1 - a) u) o ->
  with_regions w w' (written (commit_region w) (commit_bytes (g + 1) (1 - a) u) o) (intent_region w) (fun n => slot_region n w) ->
  (o = Written -> clean_at (1 - a) (g + 1) u w') /\ (pending_at a g v u w' \/ clean_at (1 - a) (g + 1) u w').
Proof.
  intros [Hf Hu Hi] Hr Hc Hd Hw. pose proof (force_regions _ _ _ Hf Hw eq_refl) as Hf'. pose proof Hf' as [Hl' Ha Hg Hs'].
  destruct Hw as [_ Wc Wi Ws]. assert (ready a g u w') as Hr' by (unfold ready; by rewrite Ws).
  assert (underway a g v u w') as Hu' by (constructor; [done|done|by rewrite Wi]).
  assert (commit_region w' = commit_bytes (g + 1) (1 - a) u -> clean_at (1 - a) (g + 1) u w') as Hnew.
  { intros E. constructor; [constructor; [done|lia|done|done]|done| |].
    - replace (1 - (1 - a)) with a by lia. intros f Ef. rewrite Hs', decode_slot_bytes in Ef by done. injection Ef as <-. simpl. lia.
    - intros i Ei. rewrite Wi, Hi, decode_intent_bytes in Ei by (done || apply Hg). injection Ei as <-. done. }
  split; [intros ->; by apply Hnew|].
  destruct (decode_commit sha256 (commit_region w') inc) as [c|e] eqn:E.
  - rewrite Wc in E. destruct (written_checks _ _ _ Hd (commit_checks _ _ E)) as [Eold|Enew].
    + left. split; [done|]. destruct Hc as [Hc|Hc]; [left; rewrite Wc, Eold; auto|]. by rewrite Eold in E; apply Hc in E.
    + right. apply Hnew. by rewrite Wc.
  - left. split; [done|]. right. split; [done|]. intros c Ec. congruence.
Qed.
End writes.

(** ** What is read *)
Definition commit_fact (w : World) : option CommitFact := result_ok (decode_commit sha256 (commit_region w) inc).
Definition intent_fact (w : World) : option IntentFact := result_ok (decode_intent sha256 (intent_region w) inc).
Definition slot_facts (w : World) : list (option SlotFact) :=
  [result_ok (decode_slot sha256 (slot_region 0 w) inc); result_ok (decode_slot sha256 (slot_region 1 w) inc)].

Lemma slot_facts_lookup w n : n <= 1 -> slot_facts w !! n = Some (result_ok (decode_slot sha256 (slot_region n w) inc)).
Proof. intros H. destruct n as [|[|]]; [done|done|lia]. Qed.

Lemma decode_intent_facts m i : decode_intent sha256 m inc = Ok i ->
  checked_add_u64 (before i) 1 = Some (after i) /\ target i <= 1.
Proof.
  unfold decode_intent. intros H. apply result_bind_Ok in H as (m' & _ & H). apply result_bind_Ok in H as (f & _ & H).
  case_bool_decide as E1; [simpl in H|done]. destruct (_ =? _)%Z; [simpl in H|done].
  destruct (Z.ltb_spec 1 (number (sub 56 64 m'))); [done|]. destruct (bool_decide _); [simpl in H|done].
  injection H as <-. simpl. split; [done|lia].
Qed.

Lemma in_force_matches a g v w : in_force a g v w -> slot_matches (slot_facts w) a g (payload_digest g v) = true.
Proof.
  intros [_ Ha Hg Hs]. unfold slot_matches. rewrite slot_facts_lookup, Hs, decode_slot_bytes by done. simpl.
  by rewrite Z.eqb_refl, bool_decide_true.
Qed.

Lemma read_clean a g v w : clean_at a g v w -> recovery_step (commit_fact w) (intent_fact w) (slot_facts w) = Committed (commit_of g a v).
Proof.
  intros [Hf Hc _ Hi]. pose proof (in_force_matches _ _ _ _ Hf) as Hm. destruct Hf as [_ Ha Hg _].
  unfold commit_fact. rewrite Hc, decode_commit_bytes by done. unfold intent_fact, recovery_step. simpl result_ok.
  cbn [active commit_of]. rewrite (proj2 (Nat.ltb_ge _ _)) by done.
  destruct (decode_intent sha256 (intent_region w) inc) as [i|e] eqn:E; simpl result_ok; cbn [orb commit_of generation active slot_digest].
  - destruct (decode_intent_facts _ _ E) as [E1 E2]. destruct (Hi i E) as (-> & -> & ->).
    rewrite (proj2 (Nat.ltb_ge _ _)) by done. destruct (Hi i E) as (E3 & _ & _). rewrite E3 in E1. rewrite E1, bool_decide_true by done.
    cbn [orb negb]. by rewrite Z.eqb_refl, Nat.eqb_refl, bool_decide_true, Hm by done.
  - by rewrite Hm.
Qed.

Lemma read_pending a g v u w : pending_at a g v u w ->
  recovery_step (commit_fact w) (intent_fact w) (slot_facts w) = CommitIntendedSlot (intent_of g a u) /\ ready a g u w /\
    (commit_region w = commit_bytes g a v \/ commit_torn w) \/
  recovery_step (commit_fact w) (intent_fact w) (slot_facts w) = RewriteIntendedSlot (intent_of g a u) /\
    commit_region w = commit_bytes g a v /\ old_slot (1 - a) g w.
Proof.
  intros [[Hf Hu Hi] H]. pose proof (in_force_matches _ _ _ _ Hf) as Hm. destruct Hf as [_ Ha Hg _].
  assert (is_u64 g) as Hg64 by apply Hg.
  assert (intent_fact w = Some (intent_of g a u)) as Ei by (unfold intent_fact; by rewrite Hi, decode_intent_bytes).
  assert (checked_add_u64 g 1 = Some (g + 1)%Z) as Eadd by (apply checked_add_u64_Some; destruct Hu as [[_ ?] _]; done).
  set (m := slot_matches (slot_facts w) (1 - a) (g + 1) (payload_digest (g + 1) u)).
  assert (m = true -> ready a g u w \/ old_slot (1 - a) g w -> ready a g u w) as Hready.
  { intros Em [Hr|Hold]; [done|]. exfalso. revert Em. unfold m, slot_matches. rewrite slot_facts_lookup by lia.
    destruct (decode_slot sha256 (slot_region (1 - a) w) inc) as [f|e] eqn:E; simpl; [|done]. specialize (Hold f E).
    destruct (Z.eqb_spec (slot_generation f) (g + 1)); [lia|done]. }
  assert (ready a g u w -> m = true) as Hmatch.
  { intros Hr. unfold m, slot_matches. rewrite slot_facts_lookup, Hr, decode_slot_bytes by (done || lia). simpl.
    by rewrite Z.eqb_refl, bool_decide_true. }
  assert (forall c, (c = None \/ c = Some (commit_of g a v)) ->
    recovery_step c (Some (intent_of g a u)) (slot_facts w) = if m then CommitIntendedSlot (intent_of g a u) else RewriteIntendedSlot (intent_of g a u)) as Hstep.
  { intros c Hc. unfold recovery_step. cbn [before after target intent_digest intent_of]. rewrite (proj2 (Nat.ltb_ge 1 (1 - a))) by lia.
    rewrite Eadd, bool_decide_true by done. destruct Hc as [->| ->]; cbn [orb negb]; [done|].
    cbn [generation active slot_digest commit_of]. rewrite (proj2 (Nat.ltb_ge 1 a)) by done. cbn [orb].
    rewrite (proj2 (Z.eqb_neq g (g + 1))) by lia. cbn [andb]. rewrite Z.eqb_refl, Hm.
    replace (1 - (1 - a)) with a by lia. rewrite Nat.eqb_refl. done. }
  rewrite Ei. destruct H as [[Hc Hr]|[Hr Hc]].
  - assert (commit_fact w = Some (commit_of g a v)) as -> by (unfold commit_fact; by rewrite Hc, decode_commit_bytes).
    rewrite Hstep by auto. destruct m eqn:Em.
    + left. split_and!; [done|by apply Hready|by left].
    + right. split_and!; [done..|]. destruct Hr as [Hr|Hold]; [|done]. apply Hmatch in Hr. congruence.
  - assert (commit_fact w = None) as ->.
    { unfold commit_fact. destruct (decode_commit _ _ _) as [c|] eqn:E; [|done]. by apply Hc in E. }
    rewrite Hstep, (Hmatch Hr) by auto. left. split_and!; [done..|by right].
Qed.
End safe.
