(* ===== verification/PublicationEvents.v ===== *)
(** * The operations of a publication, and the events of its history

    The writes in a row, the operations of the producer and of the maintenance over files
    that hold a payload or two, and what an event does to them: what it does to a value
    that changes at once or not at all. *)
From S2P Require Import Prelude Order Bytes Controls ControlsCodec Publication PublicationSafe.

Section claims.
Context (sha256 : list Z -> list Z) (length_sha : forall l, length (sha256 l) = 32).
Context (b : PublisherBinding) (b_ok : binding_ok b) (binding_file : FileIdentity).
Local Abbreviation inc := (incarnation b).
Local Abbreviation Layout := (Layout sha256 b binding_file).
Local Abbreviation clean_at := (clean_at sha256 b binding_file).
Local Abbreviation pending_at := (pending_at sha256 b binding_file).
Local Abbreviation underway := (underway sha256 b binding_file).
Local Abbreviation slot_bytes := (slot_bytes sha256 b).
Local Abbreviation commit_bytes := (commit_bytes sha256 b).
Local Abbreviation intent_bytes := (intent_bytes sha256 b).
Local Abbreviation commit_of := (commit_of sha256 b).
Local Abbreviation intent_of := (intent_of sha256 b).
Local Abbreviation detects := (detects sha256).
Local Abbreviation commit_region := (commit_region b).
Local Abbreviation intent_region := (intent_region b).
Local Abbreviation slot_region := (slot_region b).

(** ** The writes in a row *)
Section rows.
Context (a : nat) (g : Z) (v u : list Z) (o : Outcomes).

Lemma row_commit w :
  underway a g v u w -> ready sha256 b a g u w -> commit_region w = commit_bytes g a v \/ commit_torn sha256 b w ->
  detects (commit_region w) (commit_bytes (g + 1) (1 - a) u) (commit_outcome o) ->
  exists r w', primary_range (selector b) 0 (commit_bytes (g + 1) (1 - a) u) (commit_outcome o) w = (r, w') /\
    (r = Ok () <-> commit_outcome o = Written) /\
    (r = Ok () -> clean_at (1 - a) (g + 1) u w') /\ (pending_at a g v u w' \/ clean_at (1 - a) (g + 1) u w').
Proof.
  intros Hu Hr Hc Hd. assert (Layout w) as Hl by by destruct Hu as [[] _ _].
  destruct (write_commit sha256 b binding_file w (commit_bytes (g + 1) (1 - a) u) (commit_outcome o) Hl) as (r & w' & -> & Ho & Hw).
  { by apply length_commit_bytes. }
  exists r, w'. split; [done|]. split; [done|].
  destruct (after_commit sha256 length_sha b b_ok binding_file a g v u w w' (commit_outcome o) Hu Hr Hc Hd Hw) as [H1 H2].
  split; [|done]. intros Hok. by apply H1, Ho.
Qed.

Lemma row_slot w :
  underway a g v u w -> commit_region w = commit_bytes g a v -> ready sha256 b a g u w \/ old_slot sha256 b (1 - a) g w ->
  detects (slot_region (1 - a) w) (slot_bytes (g + 1) u) (slot_outcome o) ->
  exists r w', primary_range (data_identity b (1 - a)) 0 (slot_bytes (g + 1) u) (slot_outcome o) w = (r, w') /\
    (r = Ok () <-> slot_outcome o = Written) /\
    underway a g v u w' /\ commit_region w' = commit_bytes g a v /\ commit_region w' = commit_region w /\ pending_at a g v u w' /\
    (r = Ok () -> ready sha256 b a g u w').
Proof.
  intros Hu Hc Hr Hd. assert (Layout w) as Hl by by destruct Hu as [[] _ _].
  destruct (write_slot sha256 b binding_file w (1 - a) (slot_bytes (g + 1) u) (slot_outcome o) Hl) as (r & w' & -> & Ho & Hw).
  { by apply length_slot_bytes; destruct Hu. }
  exists r, w'. split; [done|]. split; [done|].
  destruct (after_slot sha256 length_sha b b_ok binding_file a g v u w w' (slot_outcome o) Hu Hc Hr Hd Hw) as (H1 & H2 & H3 & H4).
  split_and!; [done|done|congruence|split; [done|left; done]|]. intros Hok. by apply H4, Ho.
Qed.

Lemma row_intent w :
  clean_at a g v w -> bounded (g + 1) u -> detects (intent_region w) (intent_bytes g a u) (intent_outcome o) ->
  exists r w', primary_range (selector b) COMMIT_BYTES (intent_bytes g a u) (intent_outcome o) w = (r, w') /\
    (r = Ok () <-> intent_outcome o = Written) /\
    (r = Ok () -> underway a g v u w' /\ commit_region w' = commit_bytes g a v /\ old_slot sha256 b (1 - a) g w') /\
    (clean_at a g v w' \/ pending_at a g v u w') /\ commit_region w' = commit_region w /\ slot_region (1 - a) w' = slot_region (1 - a) w.
Proof.
  intros Hcl Hu Hd. pose proof Hcl as [[Hl Ha [Hg _] _] _ _ _].
  destruct (write_intent sha256 b binding_file w (intent_bytes g a u) (intent_outcome o) Hl) as (r & w' & -> & Ho & Hw).
  { by apply length_intent_bytes. }
  exists r, w'. split; [done|]. split; [done|].
  destruct (after_intent sha256 length_sha b b_ok binding_file a g v u w w' (intent_outcome o) Hcl Hu Hd Hw) as (H1 & H2).
  split_and!; [intros Hok; by apply H1, Ho|done|by destruct Hw|]. destruct Hw as [_ _ _ Hs]. apply Hs.
Qed.
End rows.

(** *** The tears of an operation are found out *)
Definition tears_found (w : World) (i : list Z) (t : nat) (s c : list Z) (o : Outcomes) : Prop :=
  detects (intent_region w) i (intent_outcome o) /\ detects (slot_region t w) s (slot_outcome o) /\
  detects (commit_region w) c (commit_outcome o).
Definition publish_found (w : World) (u : list Z) (o : Outcomes) : Prop :=
  forall c, decode_commit sha256 (commit_region w) inc = Ok c ->
  tears_found w (intent_bytes (generation c) (active c) u) (1 - active c) (slot_bytes (generation c + 1) u)
    (commit_bytes (generation c + 1) (1 - active c) u) o.
Definition recover_found (w : World) (o : Outcomes) : Prop :=
  forall i, decode_intent sha256 (intent_region w) inc = Ok i ->
  tears_found w (intent_region w) (target i) (sub 96 (96 + SLOT_BYTES) (intent_region w))
    (commit_image sha256 inc {| generation := after i; active := target i; slot_digest := intent_digest i |}) o.

Definition no_tears (o : Outcomes) : Prop := intent_outcome o = Written /\ slot_outcome o = Written /\ commit_outcome o = Written.

(** ** The producer *)
Context (cap : Capability).
Record cap_of : Prop := {
  cap_root : root_identity cap = root b;
  cap_coordination : coordination_identity cap = coordination b;
  cap_inc : Publication.cap_incarnation cap = inc;
  cap_valid : revalidate cap = true
}.
Context (Hcap : cap_of).

Definition lease_of (c : CommitFact) : RootPublicationLease :=
  {| lease_selector := selector b; lease_directory := root b; lease_binding := b; binding_identity := binding_file;
     lease_commit := c; usable := true |}.

Let length_inc : length inc = 32.
Proof. by destruct b_ok as (_ & _ & _ & _ & _ & _ & ?). Qed.

Lemma read_binding w : Layout w -> read_exact_image BINDING_BYTES binding_file w = Ok (binding_image sha256 b) /\
  decode sha256 (binding_image sha256 b) = Ok b.
Proof.
  intros Hl. unfold read_exact_image. rewrite (layout_image _ _ _ _ Hl), length_binding_image by done. rewrite Nat.eqb_refl.
  split; [done|]. by apply decode_binding_image.
Qed.
Lemma read_selector w : Layout w -> read_exact_image SELECTOR_BYTES (selector b) w = Ok (content (selector b) w).
Proof. intros Hl. unfold read_exact_image. by rewrite (layout_selector_size _ _ _ _ Hl), Nat.eqb_refl. Qed.
Lemma open_names w : Layout w -> open_file BINDING_NAME w = Ok binding_file /\ open_file SELECTOR_NAME w = Ok (selector b) /\
  forall i, open_file (DATA_NAME i) w = Ok (data_identity b i).
Proof.
  intros Hl. unfold open_file. rewrite (layout_binding _ _ _ _ Hl), (layout_selector _ _ _ _ Hl). split_and!; [done..|].
  intros i. by rewrite (layout_data _ _ _ _ Hl).
Qed.

Lemma revalidate_layout w c : Layout w -> decode_commit sha256 (commit_region w) inc = Ok c ->
  revalidate_existing sha256 cap (lease_of c) w = Ok true.
Proof.
  intros Hl Hc. unfold revalidate_existing. rewrite (cap_valid Hcap). cbn [usable lease_of negb orb].
  destruct (open_names w Hl) as (-> & -> & _). cbn [result_bind lease_of lease_binding lease_selector binding_identity lease_commit lease_directory].
  destruct (read_binding w Hl) as [-> ->]. rewrite (read_selector w Hl). simpl result_ok.
  rewrite !bool_decide_true; [done|done|by unfold commit_region in Hc; rewrite Hc|done..].
Qed.

Lemma read_slot_layout w i : Layout w ->
  read_slot sha256 b i w = Ok (Some (result_ok (decode_slot sha256 (slot_region i w) inc))).
Proof.
  intros Hl. unfold read_slot. destruct (open_names w Hl) as (_ & _ & ->). cbn [result_bind].
  rewrite bool_decide_true by done. cbn [negb]. unfold read_exact_image. by rewrite (layout_slot_size _ _ _ _ Hl), Nat.eqb_refl.
Qed.
Lemma check_stream_layout w : Layout w -> check_stream b w = Ok true.
Proof.
  intros Hl. unfold check_stream. pose proof (layout_stream _ _ _ _ Hl) as Hs. destruct (stream b) as [s|]; [|done].
  unfold open_file. rewrite (Hs s eq_refl). cbn [result_bind]. by rewrite bool_decide_true.
Qed.

Lemma try_begin_layout w : Layout w ->
  try_begin_publication sha256 cap true w =
  Ok (match recovery_step (commit_fact sha256 b w) (intent_fact sha256 b w) (slot_facts sha256 b w) with
      | Committed c => Some (lease_of c) | _ => None end).
Proof.
  intros Hl. unfold try_begin_publication. rewrite (cap_valid Hcap). cbn [negb].
  destruct (open_names w Hl) as (-> & Hsel & _). destruct (read_binding w Hl) as [-> ->].
  rewrite (cap_root Hcap), (cap_coordination Hcap), (cap_inc Hcap). rewrite !bool_decide_true by done. cbn [negb orb].
  rewrite Hsel. cbn [result_bind]. destruct (read_binding w Hl) as [-> _].
  rewrite !bool_decide_true by done. cbn [negb orb]. rewrite (read_selector w Hl).
  rewrite !read_slot_layout by done. cbn [result_bind]. rewrite check_stream_layout by done. cbn [result_bind negb].
  fold (commit_region w) (intent_region w). fold (commit_fact sha256 b w) (intent_fact sha256 b w) (slot_facts sha256 b w).
  destruct (recovery_step _ _ _) as [c|i|i|] eqn:E; try done. fold (lease_of c).
  rewrite revalidate_layout; [done|done|].
  assert (commit_fact sha256 b w = Some c) as Hc.
  { revert E. unfold recovery_step. destruct (commit_fact sha256 b w), (intent_fact sha256 b w); repeat case_match; congruence. }
  unfold commit_fact, result_ok in Hc. destruct (decode_commit _ _ _); [congruence|done].
Qed.

(** What an update of [v] to [u] may leave. *)
Definition updated (g : Z) (v u : list Z) (w : World) : Prop :=
  clean sha256 b binding_file g v w \/ pending sha256 b binding_file g v u w \/ clean sha256 b binding_file (g + 1) u w.

Lemma encode_update a g v p :
  bounded g v -> a <= 1 -> bounded (g + 1) p ->
  encode_slot sha256 (zeros SLOT_BYTES) inc (g + 1) p = (slot_bytes (g + 1) p, Ok (slot_fact sha256 inc (g + 1) p)) /\
  encode_intent sha256 (zeros INTENT_BYTES) inc (commit_of g a v) (slot_bytes (g + 1) p) = (intent_bytes g a p, Ok (intent_of g a p)) /\
  encode_commit sha256 (zeros COMMIT_BYTES) inc (commit_of (g + 1) (1 - a) p) = (commit_bytes (g + 1) (1 - a) p, Ok ()).
Proof.
  intros Hg Ha [Hg1 Hp]. split_and!.
  - rewrite encode_slot_image by (done || apply length_zeros). unfold PublicationSafe.slot_bytes. by rewrite decode_slot_image.
  - apply (encode_intent_image sha256 length_sha inc length_inc (zeros INTENT_BYTES) (commit_of g a v) p);
      [apply length_zeros|by apply commit_of_ok|done|apply Hg1].
  - apply encode_commit_image; [done|done|apply length_zeros|simpl; lia|apply length_sha].
Qed.
Lemma encode_too_long g p : ~ length p <= PAYLOAD_BYTES -> exists l, encode_slot sha256 (zeros SLOT_BYTES) inc g p = (l, Err Size).
Proof. intros H. unfold encode_slot. rewrite (proj2 (Nat.ltb_lt _ _)), orb_true_r by lia. by eexists. Qed.

Lemma publish_clean a g v w p o :
  clean_at a g v w -> publish_found w p o ->
  match publish_primary_control sha256 cap (lease_of (commit_of g a v)) p o w with
  | (Ok c, l, w') => clean_at (1 - a) (g + 1) p w' /\ l = lease_of (commit_of (g + 1) (1 - a) p) /\ c = commit_of (g + 1) (1 - a) p
  | (Err _, l, w') => (l = lease_of (commit_of g a v) \/ usable l = false) /\ updated g v p w' /\ ~ (bounded (g + 1) p /\ no_tears o)
  end.
Proof.
  intros Hcl Hfound. pose proof Hcl as [[Hl Ha Hg _] Hc _ _].
  assert (decode_commit sha256 (commit_region w) inc = Ok (commit_of g a v)) as Hdec by (rewrite Hc; by apply decode_commit_bytes).
  destruct (Hfound _ Hdec) as (F1 & F2 & F3). cbn [generation active PublicationSafe.commit_of] in F1, F2, F3.
  assert (updated g v p w) as Hsame by (left; by exists a).
  unfold publish_primary_control. rewrite revalidate_layout by done. cbn [lease_of lease_selector lease_binding lease_commit].
  rewrite read_selector by done. fold (commit_region w). rewrite Hdec. cbn [result_ok]. rewrite bool_decide_true by done. cbn [negb].
  cbn [generation PublicationSafe.commit_of]. destruct (checked_add_u64 g 1) as [n|] eqn:Hadd.
  2:{ split_and!; [by left|done|]. intros [[[_ Hmax] _] _]. unfold checked_add_u64 in Hadd. rewrite decide_True in Hadd by done. done. }
  apply checked_add_u64_Some in Hadd as [-> Hmax]. destruct (decide (length p <= PAYLOAD_BYTES)) as [Hp|Hp].
  2:{ destruct (encode_too_long (g + 1) p Hp) as (? & ->). split_and!; [by left|done|]. by intros [[_ ?] _]. }
  assert (bounded (g + 1) p) as Hu by (split; [destruct Hg as [[? ?] _]; split; lia|done]).
  destruct (encode_update a g v p Hg Ha Hu) as (-> & Hei & Hec). fold (commit_of g a v). rewrite Hei. cbn [target PublicationSafe.intent_of].
  cbn [digest slot_fact]. fold (payload_digest sha256 b (g + 1) p). fold (commit_of (g + 1) (1 - a) p). rewrite Hec.
  cbn [active PublicationSafe.commit_of]. destruct (open_names w Hl) as (_ & _ & ->). rewrite bool_decide_true by done. cbn [negb orb].
  rewrite (layout_slot_size _ _ _ _ Hl), Nat.eqb_refl. cbn [negb set_lease lease_of lease_selector]. unfold no_tears.
  destruct (row_intent a g v p o w Hcl Hu F1) as (r1 & w1 & -> & O1 & K1 & K1' & C1 & S1).
  destruct r1 as [[]|e1].
  2:{ split_and!; [by right|destruct K1'; [left|right; left]; by exists a|]. intros (_ & H & _). by apply O1 in H. }
  destruct (K1 eq_refl) as (U1 & Q1 & Old1). rewrite <- S1 in F2. rewrite <- C1 in F3.
  destruct (row_slot a g v p o w1 U1 Q1 (or_intror Old1) F2) as (r2 & w2 & -> & O2 & U2 & Q2 & C2 & K2 & R2).
  destruct r2 as [[]|e2].
  2:{ split_and!; [by right|right; left; by exists a|]. intros (_ & _ & H & _). by apply O2 in H. }
  rewrite <- C2 in F3.
  destruct (row_commit a g v p o w2 U2 (R2 eq_refl) (or_introl Q2) F3) as (r3 & w3 & -> & O3 & K3 & K3').
  destruct r3 as [[]|e3]; [by split_and!; [apply K3|..]|].
  split_and!; [by right|destruct K3'; [right; left; by exists a|right; right; by exists (1 - a)]|]. intros (_ & _ & _ & H). by apply O3 in H.
Qed.

(** ** The maintenance *)
Context (og : RootOriginBinding) (stream_file : FileIdentity).
Record origin_of : Prop := {
  og_ids : (root b, coordination b, inc) = (origin_root og, origin_coordination og, origin_incarnation og);
  og_binding : publication_binding og = binding_file;
  og_stream : stream b = Some stream_file
}.
Context (Hog : origin_of).

Definition recovery_of (w : World) : RecoveryStep :=
  recovery_step (commit_fact sha256 b w) (intent_fact sha256 b w) (slot_facts sha256 b w).
Definition prepared_of (w : World) : PreparedPrivateMetadata :=
  {| origin := og; prep_selector := selector b; prep_data := (data_identity b 0, data_identity b 1);
     slot_images := (slot_region 0 w, slot_region 1 w); selector_image := content (selector b) w;
     committed := commit_fact sha256 b w; recovery := recovery_of w |}.

Lemma og_inc : origin_incarnation og = inc.
Proof. pose proof (og_ids Hog) as H. congruence. Qed.

Lemma prepare_layout w : Layout w -> recovery_of w <> Unknown -> prepare_private_metadata sha256 og w = Ok (prepared_of w).
Proof.
  intros Hl Hr. unfold prepare_private_metadata. destruct (open_names w Hl) as (-> & -> & Hdata). cbn [admission_io map_err result_bind].
  rewrite (og_binding Hog), bool_decide_true by done. cbn [negb].
  assert (decode sha256 (content binding_file w) = Ok b) as -> by (rewrite (layout_image _ _ _ _ Hl); by apply read_binding with w).
  cbn [admission_io map_err result_bind]. rewrite (og_ids Hog), bool_decide_true by done. cbn [negb]. rewrite !Hdata. cbn [admission_io map_err result_bind].
  rewrite !bool_decide_true by done. cbn [negb orb]. unfold fixed_image.
  assert (forall i, read_exact_image SLOT_BYTES (data_identity b i) w = Ok (slot_region i w)) as Hi.
  { intros i. unfold read_exact_image. by rewrite (layout_slot_size _ _ _ _ Hl), Nat.eqb_refl. }
  rewrite !Hi, (read_selector w Hl). cbn [admission_io map_err result_bind]. cbv zeta. rewrite og_inc.
  fold (commit_region w) (intent_region w). fold (commit_fact sha256 b w) (intent_fact sha256 b w) (slot_facts sha256 b w).
  fold (recovery_of w). rewrite bool_decide_false by done. unfold open_file.
  rewrite (layout_stream _ _ _ _ Hl _ (og_stream Hog)). cbn [admission_io map_err result_bind]. rewrite (og_stream Hog), bool_decide_true by done. done.
Qed.

Definition mutation_of (w : World) (n : nat) : PrivateMetadataMutation :=
  {| mut_origin := og; mut_selector := selector b; mut_data := (data_identity b 0, data_identity b 1);
     mut_committed := commit_fact sha256 b w; remaining_effects := n; mut_usable := true;
     recovery_pending := match recovery_of w with Committed _ => false | _ => true end |}.
Lemma start_layout w n : start_mutation (prepared_of w) n w = Ok (mutation_of w n).
Proof. unfold start_mutation. cbn [prepared_of prep_data prep_selector slot_images selector_image fst snd]. by rewrite !bool_decide_true by done. Qed.

Lemma range_ok id at_ bytes o w r w' : primary_range id at_ bytes o w = (r, w') ->
  exists r', range id at_ bytes o w = (r', w') /\ (r' = Ok () <-> r = Ok ()).
Proof. intros H. unfold range. rewrite H. eexists. split; [done|]. destruct r as [[]|e]; simpl; split; done. Qed.

Lemma mutation_data a w n : a <= 1 -> (if (1 - a) =? 0 then (mut_data (mutation_of w n)).1 else (mut_data (mutation_of w n)).2) = data_identity b (1 - a).
Proof. intros Ha. destruct a as [|[|]]; [done|done|lia]. Qed.

(** *** An update *)
Lemma maintain_clean a g v w p n o :
  clean_at a g v w -> publish_found w p o ->
  match prepare_metadata_control sha256 og (commit_of g a v) p with
  | Err _ => ~ bounded (g + 1) p
  | Ok up =>
      match publish_control (mutation_of w n) up o w with
      | (Ok _, _, w') => clean_at (1 - a) (g + 1) p w'
      | (Err _, _, w') => updated g v p w' /\ ~ (no_tears o /\ 6 <= n)
      end
  end.
Proof.
  intros Hcl Hfound. pose proof Hcl as [[Hl Ha Hg _] Hc _ _].
  assert (decode_commit sha256 (commit_region w) inc = Ok (commit_of g a v)) as Hdec by (rewrite Hc; by apply decode_commit_bytes).
  destruct (Hfound _ Hdec) as (F1 & F2 & F3). cbn [generation active PublicationSafe.commit_of] in F1, F2, F3.
  unfold prepare_metadata_control. rewrite og_inc. cbn [generation PublicationSafe.commit_of].
  destruct (checked_add_u64 g 1) as [g1|] eqn:Hadd; cbn [ok_or result_bind].
  2:{ intros [[_ Hmax] _]. unfold checked_add_u64 in Hadd. by rewrite decide_True in Hadd. }
  apply checked_add_u64_Some in Hadd as [-> Hmax]. destruct (decide (length p <= PAYLOAD_BYTES)) as [Hp|Hp].
  2:{ destruct (encode_too_long (g + 1) p Hp) as (? & ->). by intros [_ ?]. }
  assert (bounded (g + 1) p) as Hu by (split; [destruct Hg as [[? ?] _]; split; lia|done]).
  destruct (encode_update a g v p Hg Ha Hu) as (-> & Hei & Hec). cbn [map_err result_bind]. fold (commit_of g a v). rewrite Hei.
  cbn [map_err result_bind target PublicationSafe.intent_of digest slot_fact]. fold (payload_digest sha256 b (g + 1) p).
  fold (commit_of (g + 1) (1 - a) p). rewrite Hec. cbn [map_err result_bind].
  unfold publish_control. cbn [mutation_of mut_usable recovery_pending is_recovery mut_origin update_incarnation mut_committed update_before
    remaining_effects effects update_next update_intent update_slot update_commit set_mutation mut_selector mut_data active PublicationSafe.commit_of negb orb].
  assert (recovery_of w = Committed (commit_of g a v)) as -> by (by apply (read_clean _ length_sha b b_ok binding_file)).
  assert (commit_fact sha256 b w = Some (commit_of g a v)) as -> by (unfold commit_fact; by rewrite Hdec).
  rewrite og_inc, !bool_decide_true by done. cbn [Bool.eqb negb orb].
  destruct (Nat.ltb_spec n 6) as [Hn|Hn]; [split; [left; by exists a|lia]|]. cbn [Nat.leb].
  pose proof (mutation_data a w n Ha) as Hdata. cbn [mutation_of mut_data] in Hdata. rewrite Hdata. unfold no_tears.
  destruct (row_intent a g v p o w Hcl Hu F1) as (r1 & w1 & E1 & O1 & K1 & K1' & C1 & S1).
  apply range_ok in E1 as (q1 & -> & P1). rewrite O1 in P1. rewrite <- O1 in P1. destruct q1 as [[]|e1].
  2:{ split; [destruct K1'; [left|right; left]; by exists a|]. intros [(H & _) _]. by apply O1, P1 in H. }
  destruct (K1 (proj1 P1 eq_refl)) as (U1 & Q1 & Old1). rewrite <- S1 in F2. rewrite <- C1 in F3.
  destruct (row_slot a g v p o w1 U1 Q1 (or_intror Old1) F2) as (r2 & w2 & E2 & O2 & U2 & Q2 & C2 & K2 & R2).
  apply range_ok in E2 as (q2 & -> & P2). destruct q2 as [[]|e2].
  2:{ split; [right; left; by exists a|]. intros [(_ & H & _) _]. by apply O2, P2 in H. }
  rewrite <- C2 in F3.
  destruct (row_commit a g v p o w2 U2 (R2 (proj1 P2 eq_refl)) (or_introl Q2) F3) as (r3 & w3 & E3 & O3 & K3 & K3').
  apply range_ok in E3 as (q3 & -> & P3). destruct q3 as [[]|e3]; [by apply K3, P3|].
  split; [destruct K3'; [right; left; by exists a|right; right; by exists (1 - a)]|]. intros [(_ & _ & H) _]. by apply O3, P3 in H.
Qed.

(** *** A recovery *)
Lemma recover_pending a g v u w n o :
  pending_at a g v u w -> recover_found w o ->
  exists up, prepare_metadata_recovery sha256 (prepared_of w) = Ok (Some up) /\
    match publish_control (mutation_of w n) up o w with
    | (Ok _, _, w') => clean_at (1 - a) (g + 1) u w'
    | (Err _, _, w') => (pending_at a g v u w' \/ clean_at (1 - a) (g + 1) u w') /\ ~ (no_tears o /\ 4 <= n)
    end.
Proof.
  intros Hp Hfound. pose proof Hp as [Huw _]. pose proof Huw as [[Hl Ha Hg _] Hu Hi].
  assert (is_u64 g) as Hg64 by apply Hg.
  assert (decode_intent sha256 (intent_region w) inc = Ok (intent_of g a u)) as Hdec by (rewrite Hi; by apply decode_intent_bytes).
  assert (sub 96 (96 + SLOT_BYTES) (intent_region w) = slot_bytes (g + 1) u) as Hslot.
  { rewrite Hi. apply (sub_slot sha256 length_sha inc length_inc (intent_of g a u) u); [by apply intent_of_ok|apply length_sha]. }
  destruct (Hfound _ Hdec) as (_ & F2 & F3). rewrite Hslot in F2. cbn [target PublicationSafe.intent_of] in F2.
  change (commit_image _ _ _) with (commit_bytes (g + 1) (1 - a) u) in F3.
  destruct (encode_update a g v u Hg Ha Hu) as (_ & _ & Hec). unfold prepare_metadata_recovery.
  cbn [prepared_of recovery selector_image origin committed]. rewrite og_inc. fold (intent_region w). rewrite Hslot.
  assert (forall e, e = 2 \/ e = 4 -> exists up,
    (let '(commit, encoded) := encode_commit sha256 (zeros COMMIT_BYTES) inc
       {| generation := after (intent_of g a u); active := target (intent_of g a u); slot_digest := intent_digest (intent_of g a u) |} in
     result_bind (map_err (fun _ => Invalid InvalidRecord) encoded) (fun _ =>
     Ok (Some {| update_incarnation := inc; update_before := commit_fact sha256 b w;
                 update_next := {| generation := after (intent_of g a u); active := target (intent_of g a u); slot_digest := intent_digest (intent_of g a u) |};
                 update_slot := slot_bytes (g + 1) u; update_intent := intent_region w; update_commit := commit; effects := e; is_recovery := true |})))
    = Ok (Some up) /\ up = {| update_incarnation := inc; update_before := commit_fact sha256 b w; update_next := commit_of (g + 1) (1 - a) u;
        update_slot := slot_bytes (g + 1) u; update_intent := intent_region w; update_commit := commit_bytes (g + 1) (1 - a) u; effects := e; is_recovery := true |}) as Hup.
  { intros e _. change {| generation := _; active := _; slot_digest := _ |} with (commit_of (g + 1) (1 - a) u). rewrite Hec. by eexists. }
  assert (forall w1 n', underway a g v u w1 -> ready sha256 b a g u w1 -> commit_region w1 = commit_bytes g a v \/ commit_torn sha256 b w1 ->
    commit_region w1 = commit_region w -> exists r w2, range (selector b) 0 (commit_bytes (g + 1) (1 - a) u) (commit_outcome o) w1 = (r, w2) /\
    match r with Ok _ => clean_at (1 - a) (g + 1) u w2
    | Err _ => (pending_at a g v u w2 \/ clean_at (1 - a) (g + 1) u w2) /\ ~ (no_tears o /\ n' <= n) end) as Hlast.
  { intros w1 n' U1 R1 Q1 C1. rewrite <- C1 in F3. destruct (row_commit a g v u o w1 U1 R1 Q1 F3) as (r3 & w3 & E3 & O3 & K3 & K3').
    apply range_ok in E3 as (q3 & E3 & P3). exists q3, w3. split; [done|]. destruct q3 as [[]|e3]; [by apply K3, P3|].
    split; [done|]. intros [(_ & _ & H) _]. by apply O3, P3 in H. }
  destruct (read_pending _ length_sha b b_ok binding_file a g v u w Hp) as [(Er & Hr & Hc)|(Er & Hc & Hold)]; fold (recovery_of w) in Er; rewrite Er.
  - destruct (Hup 2 (or_introl eq_refl)) as (up & -> & ->). eexists. split; [done|]. unfold publish_control.
    cbn [mutation_of mut_usable recovery_pending is_recovery mut_origin update_incarnation mut_committed update_before
      remaining_effects effects update_next update_commit set_mutation mut_selector negb orb Nat.leb].
    rewrite Er, og_inc, !bool_decide_true by done. cbn [Bool.eqb negb orb].
    destruct (Nat.ltb_spec n 2) as [Hn|Hn]; [split; [by left|lia]|].
    destruct (Hlast w 4 Huw Hr Hc eq_refl) as (r & w2 & -> & H). by destruct r as [[]|e].
  - destruct (Hup 4 (or_intror eq_refl)) as (up & -> & ->). eexists. split; [done|]. unfold publish_control.
    cbn [mutation_of mut_usable recovery_pending is_recovery mut_origin update_incarnation mut_committed update_before
      remaining_effects effects update_next update_slot update_commit set_mutation mut_selector mut_data active PublicationSafe.commit_of negb orb Nat.leb].
    rewrite Er, og_inc, !bool_decide_true by done. cbn [Bool.eqb negb orb].
    destruct (Nat.ltb_spec n 4) as [Hn|Hn]; [split; [by left|lia]|].
    pose proof (mutation_data a w n Ha) as Hdata. cbn [mutation_of mut_data] in Hdata. rewrite Hdata.
    destruct (row_slot a g v u o w Huw Hc (or_intror Hold) F2) as (r2 & w2 & E2 & O2 & U2 & Q2 & C2 & K2 & R2).
    apply range_ok in E2 as (q2 & -> & P2). destruct q2 as [[]|e2].
    2:{ split; [by left|]. intros [(_ & H & _) _]. by apply O2, P2 in H. }
    destruct (Hlast w2 4 U2 (R2 (proj1 P2 eq_refl)) (or_introl Q2) C2) as (r & w3 & -> & H). by destruct r as [[]|e].
Qed.

(** ** Events *)
Inductive Event :=
| Publish (payload : list Z) (o : Outcomes)
| Maintain (payload : list Z) (o : Outcomes) (entries : nat)
| Recover (o : Outcomes) (entries : nat).

(** A lease is taken and used; what is prepared is carried out.  Whether it succeeded. *)
Definition run_event (e : Event) (w : World) : bool * World :=
  match e with
  | Publish p o =>
      match try_begin_publication sha256 cap true w with
      | Ok (Some l) =>
          match publish_primary_control sha256 cap l p o w with (Ok _, _, w) => (true, w) | (Err _, _, w) => (false, w) end
      | _ => (false, w)
      end
  | Maintain p o n =>
      match prepare_private_metadata sha256 og w with
      | Ok prepared =>
          match committed prepared, start_mutation prepared n w with
          | Some c, Ok m =>
              match prepare_metadata_control sha256 og c p with
              | Ok up => match publish_control m up o w with (Ok _, _, w) => (true, w) | (Err _, _, w) => (false, w) end
              | Err _ => (false, w)
              end
          | _, _ => (false, w)
          end
      | Err _ => (false, w)
      end
  | Recover o n =>
      match prepare_private_metadata sha256 og w with
      | Ok prepared =>
          match prepare_metadata_recovery sha256 prepared, start_mutation prepared n w with
          | Ok (Some up), Ok m => match publish_control m up o w with (Ok _, _, w) => (true, w) | (Err _, _, w) => (false, w) end
          | _, _ => (false, w)
          end
      | Err _ => (false, w)
      end
  end.

Definition event_found (w : World) (e : Event) : Prop :=
  match e with Publish p o | Maintain p o _ => publish_found w p o | Recover o _ => recover_found w o end.
Definition event_payload (e : Event) : list (list Z) := match e with Publish p _ | Maintain p _ _ => [p] | Recover _ _ => [] end.

(** *** What the same events do to a value *)
Inductive Stored := Holds (g : Z) (v : list Z) | Underway (g : Z) (v u : list Z).
Definition stored (s : Stored) (w : World) : Prop :=
  match s with Holds g v => clean sha256 b binding_file g v w | Underway g v u => pending sha256 b binding_file g v u w end.

Inductive spec_step : Event -> bool -> Stored -> Stored -> Prop :=
| SpecUpdated e p g v : event_payload e = [p] -> spec_step e true (Holds g v) (Holds (g + 1) p)
| SpecFailed e p g v s :
    event_payload e = [p] -> s = Holds g v \/ s = Underway g v p \/ s = Holds (g + 1) p -> spec_step e false (Holds g v) s
| SpecBusy e p g v u : event_payload e = [p] -> spec_step e false (Underway g v u) (Underway g v u)
| SpecRecovered o n g v u : spec_step (Recover o n) true (Underway g v u) (Holds (g + 1) u)
| SpecRecovering o n g v u s : s = Underway g v u \/ s = Holds (g + 1) u -> spec_step (Recover o n) false (Underway g v u) s
| SpecIdle o n g v : spec_step (Recover o n) false (Holds g v) (Holds g v).

Lemma updated_stored g v u w e : event_payload e = [u] -> updated g v u w -> exists s, spec_step e false (Holds g v) s /\ stored s w.
Proof.
  intros He [H|[H|H]]; [exists (Holds g v)|exists (Underway g v u)|exists (Holds (g + 1) u)];
    (split; [by eapply SpecFailed; eauto|done]).
Qed.

Lemma clean_try_begin a g v w : clean_at a g v w -> try_begin_publication sha256 cap true w = Ok (Some (lease_of (commit_of g a v))).
Proof.
  intros Hc. rewrite try_begin_layout by (by destruct Hc as [[] _ _ _]).
  by rewrite (read_clean _ length_sha b b_ok binding_file a g v w Hc).
Qed.
Lemma clean_recovery a g v w : clean_at a g v w -> recovery_of w = Committed (commit_of g a v) /\ commit_fact sha256 b w = Some (commit_of g a v).
Proof.
  intros Hc. split; [by apply (read_clean _ length_sha b b_ok binding_file)|]. destruct Hc as [[_ Ha Hg _] Hc _ _].
  unfold commit_fact. by rewrite Hc, decode_commit_bytes.
Qed.
Lemma pending_recovery a g v u w : pending_at a g v u w ->
  recovery_of w = CommitIntendedSlot (intent_of g a u) \/ recovery_of w = RewriteIntendedSlot (intent_of g a u).
Proof.
  intros Hp. destruct (read_pending _ length_sha b b_ok binding_file a g v u w Hp) as [(H & _)|(H & _)]; auto.
Qed.
Lemma pending_prepared a g v u w : pending_at a g v u w ->
  try_begin_publication sha256 cap true w = Ok None /\ prepare_private_metadata sha256 og w = Ok (prepared_of w).
Proof.
  intros Hp. assert (Layout w) as Hl by by destruct Hp as [[[] _ _] _]. pose proof (pending_recovery _ _ _ _ _ Hp) as Hr. split.
  - rewrite try_begin_layout by done. fold (recovery_of w). by destruct Hr as [-> | ->].
  - apply prepare_layout; [done|]. by destruct Hr as [-> | ->].
Qed.

Lemma control_not_recovery og' c p up : prepare_metadata_control sha256 og' c p = Ok up -> is_recovery up = false.
Proof.
  unfold prepare_metadata_control. destruct (checked_add_u64 _ _) as [n|]; cbn [ok_or result_bind]; [|done].
  destruct (encode_slot _ _ _ _ _) as [slot [f|]]; cbn [map_err result_bind]; [|done].
  destruct (encode_intent _ _ _ _ _) as [i [f'|]]; cbn [map_err result_bind]; [|done].
  destruct (encode_commit _ _ _ _) as [c' [[]|]]; cbn [map_err result_bind]; [|done]. by intros [= <-].
Qed.

Lemma event_step e w s :
  stored s w -> event_found w e -> exists s', spec_step e (run_event e w).1 s s' /\ stored s' (run_event e w).2.
Proof.
  intros Hs Hf. destruct s as [g v|g v u]; destruct Hs as [a Hs].
  - pose proof Hs as [[Hl _ _ _] _ _ _]. destruct (clean_recovery _ _ _ _ Hs) as [Hr Hcf].
    assert (prepare_private_metadata sha256 og w = Ok (prepared_of w)) as Hprep by (apply prepare_layout; [done|by rewrite Hr]).
    destruct e as [p o|p o n|o n]; unfold run_event.
    + rewrite (clean_try_begin _ _ _ _ Hs). pose proof (publish_clean a g v w p o Hs Hf) as H.
      destruct (publish_primary_control _ _ _ _ _ _) as [[[c|err] l] w'].
      * exists (Holds (g + 1) p). split; [by apply SpecUpdated|]. exists (1 - a). apply H.
      * by apply (updated_stored g v p); [|apply H].
    + rewrite Hprep, start_layout. cbn [prepared_of committed]. rewrite Hcf. pose proof (maintain_clean a g v w p n o Hs Hf) as H.
      destruct (prepare_metadata_control _ _ _ _) as [up|err]; [|apply (updated_stored g v p); [done|left; by exists a]].
      destruct (publish_control _ _ _ _) as [[[c|err] l] w'].
      * exists (Holds (g + 1) p). split; [by apply SpecUpdated|]. by exists (1 - a).
      * by apply (updated_stored g v p); [|apply H].
    + rewrite Hprep. unfold prepare_metadata_recovery. cbn [prepared_of recovery]. rewrite Hr.
      exists (Holds g v). split; [apply SpecIdle|]. by exists a.
  - destruct (pending_prepared _ _ _ _ _ Hs) as [Htry Hprep]. pose proof (pending_recovery _ _ _ _ _ Hs) as Hr.
    destruct e as [p o|p o n|o n]; unfold run_event.
    + rewrite Htry. exists (Underway g v u). split; [by eapply SpecBusy|]. by exists a.
    + rewrite Hprep, start_layout. exists (Underway g v u).
      assert (forall c, (match prepare_metadata_control sha256 og c p with
        | Ok up => match publish_control (mutation_of w n) up o w with (Ok _, _, w) => (true, w) | (Err _, _, w) => (false, w) end
        | Err _ => (false, w) end) = (false, w)) as Hno.
      { intros c. destruct (prepare_metadata_control _ _ _ _) as [up|err] eqn:Eup; [|done]. unfold publish_control.
        rewrite (control_not_recovery _ _ _ _ Eup).
        cbn [mutation_of mut_usable recovery_pending]. by destruct Hr as [-> | ->]. }
      cbn [prepared_of committed]. destruct (commit_fact sha256 b w) as [c|]; [rewrite Hno|]; (split; [by eapply SpecBusy|by exists a]).
    + rewrite Hprep, start_layout. destruct (recover_pending a g v u w n o Hs Hf) as (up & -> & H).
      destruct (publish_control _ _ _ _) as [[[c|err] l] w'].
      * exists (Holds (g + 1) u). split; [apply SpecRecovered|]. by exists (1 - a).
      * destruct H as [[H|H] _]; [exists (Underway g v u)|exists (Holds (g + 1) u)];
          (split; [apply SpecRecovering; auto|]); [by exists a|by exists (1 - a)].
Qed.
End claims.
