(* ===== verification/PublicationClaims.v ===== *)
(** * What a publication promises

    Every history of publications, by the producer and by the maintenance, and of
    recoveries, each of whose writes may tear, does what the same history does to a value
    that changes at once or not at all.  What was acknowledged is not lost. *)
From S2P Require Import Prelude Order Bytes Controls ControlsCodec Publication PublicationSafe PublicationEvents.

Section claims.
Context (sha256 : list Z -> list Z) (length_sha : forall l, length (sha256 l) = 32).
Context (b : PublisherBinding) (b_ok : binding_ok b) (binding_file : FileIdentity).
Context (cap : Capability) (Hcap : cap_of b cap) (og : RootOriginBinding) (stream_file : FileIdentity).
Context (Hog : origin_of b binding_file og stream_file).
Local Abbreviation inc := (incarnation b).
Local Abbreviation stored := (stored sha256 b binding_file).
Local Abbreviation run_event := (run_event sha256 cap og).
Local Abbreviation event_found := (event_found sha256 b).

(** ** Histories *)
Fixpoint run_history (es : list Event) (w : World) : list bool * World :=
  match es with
  | [] => ([], w)
  | e :: es => let '(acks, w') := run_history es (run_event e w).2 in ((run_event e w).1 :: acks, w')
  end.
Fixpoint history_found (w : World) (es : list Event) : Prop :=
  match es with [] => True | e :: es => event_found w e /\ history_found (run_event e w).2 es end.

Inductive spec_run : list Event -> list bool -> Stored -> Stored -> Prop :=
| SpecDone s : spec_run [] [] s s
| SpecMore e es ack acks s1 s2 s3 : spec_step e ack s1 s2 -> spec_run es acks s2 s3 -> spec_run (e :: es) (ack :: acks) s1 s3.

Lemma history_step es w s : stored s w -> history_found w es ->
  exists s', spec_run es (run_history es w).1 s s' /\ stored s' (run_history es w).2.
Proof.
  revert w s. induction es as [|e es IH]; intros w s Hs Hf; [exists s; split; [constructor|done]|].
  destruct Hf as [Hf Hes]. cbn [run_history].
  destruct (event_step sha256 length_sha b b_ok binding_file cap Hcap og stream_file Hog e w s Hs Hf) as (s1 & H1 & Hs1).
  destruct (IH _ _ Hs1 Hes) as (s2 & H2 & Hs2). exists s2. destruct (run_history es _) as [acks w']. split; [by eapply SpecMore|done].
Qed.

(** C18: Publications, maintenance updates and recoveries, in any order and with any of
    their writes torn or failed, do to the files what they do to a value that an update
    replaces at once: an acknowledged update has replaced it, one that failed has replaced
    it, has not, or is on its way until a recovery completes it, and meanwhile others are
    refused.  The files always hold one of these.  A torn image must not pass its checksum
    by accident. *)
Theorem histories_refine es w s :
  stored s w -> history_found w es ->
  exists s', spec_run es (run_history es w).1 s s' /\ stored s' (run_history es w).2.
Proof. apply history_step. Qed.

(** ** Reading *)
Let length_inc : length inc = 32.
Proof. by destruct b_ok as (_ & _ & _ & _ & _ & _ & ?). Qed.

Lemma holds_is_read g v w : stored (Holds g v) w ->
  exists l, try_begin_publication sha256 cap true w = Ok (Some l) /\ generation (lease_commit l) = g /\
    read_primary_control sha256 cap l w = Ok v.
Proof.
  intros [a Hc]. pose proof Hc as [[Hl Ha Hg Hs] Hcb _ _]. exists (lease_of b binding_file (commit_of sha256 b g a v)).
  split; [by apply (clean_try_begin sha256 length_sha b b_ok binding_file cap Hcap)|]. split; [done|].
  assert (decode_commit sha256 (commit_region b w) inc = Ok (commit_of sha256 b g a v)) as Hdec by (rewrite Hcb; by apply decode_commit_bytes).
  unfold read_primary_control.
  rewrite (revalidate_layout sha256 length_sha b b_ok binding_file cap Hcap) by done. cbn [result_bind negb lease_of lease_commit lease_binding].
  destruct (open_names sha256 b binding_file w Hl) as (_ & _ & ->). cbn [result_bind active commit_of]. rewrite bool_decide_true by done. cbn [negb].
  unfold read_exact_image. rewrite (layout_slot_size _ _ _ _ Hl), Nat.eqb_refl. cbn [result_bind]. fold (slot_region b a w). rewrite Hs.
  rewrite (decode_slot_bytes sha256 length_sha b b_ok) by done. cbn [invalid_control_io map_err result_bind slot_generation slot_fact generation commit_of digest slot_digest payload_len].
  rewrite Z.eqb_refl, bool_decide_true by done. cbn [negb orb]. rewrite Nat2Z.id. f_equal.
  by apply (slot_image_payload sha256 length_sha inc length_inc g v), Hg.
Qed.

(** ** Progress *)
Lemma no_tears_found w t i s c o : no_tears o -> tears_found sha256 b w i t s c o.
Proof. intros (H1 & H2 & H3). unfold tears_found. by rewrite H1, H2, H3. Qed.

Lemma recover_step g v u w o n : stored (Underway g v u) w -> no_tears o -> 4 <= n ->
  (run_event (Recover o n) w).1 = true /\ stored (Holds (g + 1) u) (run_event (Recover o n) w).2.
Proof.
  intros [a Hp] Ho Hn. destruct (pending_prepared sha256 length_sha b b_ok binding_file cap Hcap og stream_file Hog a g v u w Hp) as [_ Hprep].
  assert (recover_found sha256 b w o) as Hf by (intros i _; by apply no_tears_found).
  destruct (recover_pending sha256 length_sha b b_ok binding_file og stream_file Hog a g v u w n o Hp Hf) as (up & Hup & H).
  unfold PublicationEvents.run_event. rewrite Hprep, Hup, start_layout.
  destruct (publish_control _ _ _ _) as [[[c|err] l] w']; [split; [done|]; by exists (1 - a)|]. by destruct H as [_ []].
Qed.
Lemma idle_step g v w o n : stored (Holds g v) w -> run_event (Recover o n) w = (false, w).
Proof.
  intros [a Hc]. assert (PublicationSafe.Layout sha256 b binding_file w) as Hl by by destruct Hc as [[] _ _ _].
  destruct (clean_recovery sha256 length_sha b b_ok binding_file a g v w Hc) as [Hr _].
  unfold PublicationEvents.run_event. rewrite (prepare_layout sha256 length_sha b b_ok binding_file og stream_file Hog) by (done || by rewrite Hr).
  unfold prepare_metadata_recovery. cbn [prepared_of recovery]. by rewrite Hr.
Qed.

(** C20: Nothing is ever stuck.  When an update is on its way, a recovery that is not
    interrupted and may spend four effects completes it; and when none is, an update that
    fits, is not interrupted and is not the last generation, succeeds: by the producer,
    and by the maintenance when it may spend six effects. *)
Theorem publication_progress s w o n p :
  stored s w -> no_tears o ->
  match s with
  | Underway g v u => 4 <= n ->
      (run_event (Recover o n) w).1 = true /\ stored (Holds (g + 1) u) (run_event (Recover o n) w).2
  | Holds g v => bounded (g + 1) p ->
      ((run_event (Publish p o) w).1 = true /\ stored (Holds (g + 1) p) (run_event (Publish p o) w).2) /\
      (6 <= n ->
       (run_event (Maintain p o n) w).1 = true /\ stored (Holds (g + 1) p) (run_event (Maintain p o n) w).2)
  end.
Proof.
  intros Hs Ho. destruct s as [g v|g v u]; [|by intros Hn; apply (recover_step g v u)]. intros Hp. destruct Hs as [a Hc].
  assert (PublicationSafe.Layout sha256 b binding_file w) as Hl by by destruct Hc as [[] _ _ _].
  destruct (clean_recovery sha256 length_sha b b_ok binding_file a g v w Hc) as [Hr Hcf].
  assert (publish_found sha256 b w p o) as Hf by (intros c _; by apply no_tears_found).
  split; [|intros Hn]; unfold PublicationEvents.run_event.
  - rewrite (clean_try_begin sha256 length_sha b b_ok binding_file cap Hcap a g v w Hc).
    pose proof (publish_clean sha256 length_sha b b_ok binding_file cap Hcap a g v w p o Hc Hf) as H.
    destruct (publish_primary_control _ _ _ _ _ _) as [[[c|err] l] w']; [|by destruct H as (_ & _ & [])].
    split; [done|]. exists (1 - a). apply H.
  - rewrite (prepare_layout sha256 length_sha b b_ok binding_file og stream_file Hog) by (done || by rewrite Hr).
    rewrite start_layout. cbn [prepared_of committed]. rewrite Hcf.
    pose proof (maintain_clean sha256 length_sha b b_ok binding_file og stream_file Hog a g v w p n o Hc Hf) as H.
    destruct (prepare_metadata_control _ _ _ _) as [up|err]; [|done].
    destruct (publish_control _ _ _ _) as [[[c|err] l] w']; [split; [done|]; by exists (1 - a)|]. by destruct H as [_ []].
Qed.

(** ** What was acknowledged stays *)
Definition values (s : Stored) : list (list Z) := match s with Holds _ v => [v] | Underway _ v u => [v; u] end.

Lemma spec_step_values e ack s s' : spec_step e ack s s' -> forall v, v ∈ values s' -> v ∈ values s ++ event_payload e.
Proof.
  destruct 1 as [e p g v He|e p g v s He Hs|e p g v u He|o n g v u|o n g v u s Hs|o n g v]; rewrite ?He; intros x Hx.
  - set_solver.
  - destruct Hs as [->|[->| ->]]; set_solver.
  - set_solver.
  - set_solver.
  - destruct Hs as [->| ->]; set_solver.
  - set_solver.
Qed.
Lemma spec_run_values es acks s s' : spec_run es acks s s' -> forall v, v ∈ values s' -> v ∈ values s ++ (es ≫= event_payload).
Proof.
  induction 1 as [s|e es ack acks s1 s2 s3 H1 H2 IH]; intros v Hv; [set_solver|]. apply IH in Hv.
  pose proof (spec_step_values _ _ _ _ H1 v). simpl. set_solver.
Qed.

(** C19: A payload whose update was acknowledged is not lost and not rolled back: whatever
    events follow, torn or not, once a recovery has run without interruption the producer
    gets the lease and reads this payload, or one that a later event wanted to store. *)
Theorem acknowledged_is_durable es e p w s o n :
  stored s w -> history_found w (e :: es) -> event_payload e = [p] -> (run_event e w).1 = true -> no_tears o -> 4 <= n ->
  let w' := (run_event (Recover o n) (run_history (e :: es) w).2).2 in
  exists l v, try_begin_publication sha256 cap true w' = Ok (Some l) /\ read_primary_control sha256 cap l w' = Ok v /\
    v ∈ p :: (es ≫= event_payload).
Proof.
  intros Hs [Hf Hes] He Hack Ho Hn w'.
  destruct (event_step sha256 length_sha b b_ok binding_file cap Hcap og stream_file Hog e w s Hs Hf) as (s1 & H1 & Hs1).
  rewrite Hack in H1. assert (values s1 = [p]) as Hv1 by (inversion H1; subst; simpl in *; congruence).
  destruct (history_step es _ s1 Hs1 Hes) as (s2 & H2 & Hs2). pose proof (spec_run_values _ _ _ _ H2) as Hv. rewrite Hv1 in Hv.
  assert ((run_history (e :: es) w).2 = (run_history es (run_event e w).2).2) as Ew by (cbn [run_history]; by destruct (run_history es _)).
  assert (exists g v, stored (Holds g v) w' /\ v ∈ values s2) as (g & v & Hw' & Hin).
  { unfold w'. rewrite Ew. destruct s2 as [g v|g v u].
    - exists g, v. rewrite (idle_step g v) by done. split; [done|set_solver].
    - exists (g + 1)%Z, u. split; [by apply (recover_step g v u)|set_solver]. }
  destruct (holds_is_read g v w' Hw') as (l & Hl & _ & Hr). exists l, v. split_and!; [done|done|]. by apply Hv in Hin.
Qed.
End claims.

(** ** The first files *)
Lemma factory_write_new name bytes id w : names w !! name = None ->
  factory_write name bytes id w = (Ok id, {| names := <[name := id]> (names w); inodes := <[id := bytes]> (inodes w) |}).
Proof.
  intros Hn. unfold factory_write, content, open_file. rewrite Hn. cbn [inodes names]. rewrite !lookup_insert_eq. cbn [default].
  by rewrite Nat.eqb_refl, !bool_decide_true.
Qed.

Section initialize.
Context (sha256 : list Z -> list Z) (length_sha : forall l, length (sha256 l) = 32).
Context (fresh : FreshPublicationRoot).

Definition first_binding : PublisherBinding :=
  {| root := anchor_identity fresh; coordination := fresh_coordination fresh; data := (new_files fresh 0, new_files fresh 1);
     selector := new_files fresh 2; stream := Some (new_files fresh 3); incarnation := fresh_incarnation fresh |}.

Record fresh_ok (w : World) : Prop := {
  fo_anchor : identity_ok (anchor_identity fresh);
  fo_coordination : identity_ok (fresh_coordination fresh);
  fo_files i : identity_ok (new_files fresh i);
  fo_inc : length (fresh_incarnation fresh) = 32;
  fo_distinct : NoDup (map (new_files fresh) [0; 1; 2; 3; 4]);
  fo_names : Forall (fun n => names w !! n = None) [DATA_NAME 0; DATA_NAME 1; SELECTOR_NAME; STREAM_NAME; BINDING_NAME]
}.

Lemma first_binding_ok w : fresh_ok w -> binding_ok first_binding.
Proof. intros []. unfold binding_ok, first_binding. cbn. split_and!; try done. by intros s [= <-]. Qed.

(** The files that are made. *)
Definition first_world (initial : list Z) (w : World) : World :=
  {| names := <[BINDING_NAME := new_files fresh 4]> (<[STREAM_NAME := new_files fresh 3]> (<[SELECTOR_NAME := new_files fresh 2]>
       (<[DATA_NAME 1 := new_files fresh 1]> (<[DATA_NAME 0 := new_files fresh 0]> (names w)))));
     inodes := <[new_files fresh 4 := binding_image sha256 first_binding]> (<[new_files fresh 3 := []]>
       (<[new_files fresh 2 := commit_bytes sha256 first_binding 0 0 initial ++ zeros INTENT_BYTES]>
       (<[new_files fresh 1 := slot_bytes sha256 first_binding 0 []]> (<[new_files fresh 0 := slot_bytes sha256 first_binding 0 initial]> (inodes w))))) |}.

Lemma first_contents initial w : fresh_ok w ->
  content (new_files fresh 0) (first_world initial w) = slot_bytes sha256 first_binding 0 initial /\
  content (new_files fresh 1) (first_world initial w) = slot_bytes sha256 first_binding 0 [] /\
  content (new_files fresh 2) (first_world initial w) = commit_bytes sha256 first_binding 0 0 initial ++ zeros INTENT_BYTES /\
  content (new_files fresh 4) (first_world initial w) = binding_image sha256 first_binding.
Proof.
  intros [_ _ _ _ Hd _]. simpl in Hd. rewrite !NoDup_cons, !not_elem_of_cons in Hd. destruct Hd as (D0 & D1 & D2 & D3 & _).
  destruct D0 as (? & ? & ? & ? & _), D1 as (? & ? & ? & _), D2 as (? & ? & _), D3 as (? & _).
  unfold content, first_world. cbn [inodes]. split_and!; rewrite ?lookup_insert_ne by done; by rewrite lookup_insert_eq.
Qed.

Lemma first_layout initial w : fresh_ok w -> length initial <= PAYLOAD_BYTES ->
  PublicationSafe.Layout sha256 first_binding (new_files fresh 4) (first_world initial w).
Proof.
  intros Hw Hp. destruct (first_contents initial w Hw) as (C0 & C1 & C2 & C4). pose proof Hw as [_ _ _ Hi Hd _].
  assert (is_u64 0) as H0 by (unfold is_u64, u64_max; lia).
  assert (forall p, length p <= PAYLOAD_BYTES -> length (slot_bytes sha256 first_binding 0 p) = SLOT_BYTES) as Hl.
  { intros p Hpl. by apply length_slot_image. }
  constructor.
  - unfold first_world. cbn [names]. by rewrite lookup_insert_eq.
  - unfold first_world. cbn [names]. rewrite !lookup_insert_ne by done. by rewrite lookup_insert_eq.
  - intros i. unfold first_world, DATA_NAME, data_identity. cbn [names]. destruct (i =? 0); simpl;
      rewrite ?lookup_insert_ne by done; by rewrite lookup_insert_eq.
  - intros s [= <-]. unfold first_world. cbn [names]. rewrite !lookup_insert_ne by done. by rewrite lookup_insert_eq.
  - simpl in *. rewrite !NoDup_cons, !not_elem_of_cons in *. destruct Hd as (D0 & D1 & D2 & D3 & _).
    destruct D0 as (? & ? & ? & ? & _), D1 as (? & ? & ? & _), D2 as (? & ? & _), D3 as (? & _).
    split_and!; try done; try apply not_elem_of_nil; by apply NoDup_nil.
  - done.
  - cbn [selector first_binding]. rewrite C2, length_app, length_zeros. unfold commit_bytes. rewrite length_commit_image; [done|done|done|apply length_sha].
  - intros i. unfold data_identity. cbn [data first_binding fst snd]. destruct (i =? 0); [rewrite C0|rewrite C1]; apply Hl; [done|simpl; lia].
Qed.

Lemma no_intent_yet inc i : decode_intent sha256 (zeros INTENT_BYTES) inc <> Ok i.
Proof.
  unfold decode_intent, validate. rewrite length_zeros, Nat.eqb_refl. cbn [negb].
  rewrite bool_decide_false; [done|]. rewrite (zeros_split INTENT_BYTES 8) by (pose proof sizes; lia).
  rewrite (take_app_length' _ _ 8) by (by rewrite length_zeros). done.
Qed.

(** Making the files succeeds, and they hold the initial payload. *)
Theorem initialize_establishes initial w :
  fresh_ok w -> length initial <= PAYLOAD_BYTES ->
  exists w', initialize_creation_controls sha256 fresh initial w = (Ok first_binding, w') /\
    binding_ok first_binding /\ stored sha256 first_binding (new_files fresh 4) (Holds 0 initial) w'.
Proof.
  intros Hw Hp. pose proof (first_binding_ok w Hw) as Hb. pose proof Hw as [_ _ _ Hi Hd Hn].
  assert (is_u64 0) as H0 by (unfold is_u64, u64_max; lia).
  unfold initialize_creation_controls. rewrite encode_slot_image by (done || apply length_zeros). rewrite decode_slot_image by done.
  cbn [invalid_control_io map_err pure_io]. rewrite !Forall_cons in Hn. destruct Hn as (N0 & N1 & N2 & N3 & N4 & _).
  rewrite factory_write_new by done. cbn [bind_io].
  rewrite encode_slot_image by (done || (simpl; lia) || by apply length_slot_image). rewrite decode_slot_image by (done || simpl; lia).
  cbn [invalid_control_io map_err pure_io]. rewrite factory_write_new by (cbn [names]; by rewrite lookup_insert_ne). cbn [bind_io names inodes].
  rewrite encode_commit_image by (done || apply length_zeros || (simpl; lia) || apply length_sha). cbn [invalid_control_io map_err pure_io].
  rewrite factory_write_new by (cbn [names]; by rewrite !lookup_insert_ne). cbn [bind_io names inodes].
  rewrite factory_write_new by (cbn [names]; by rewrite !lookup_insert_ne). cbn [bind_io names inodes].
  rewrite encode_binding_image by (done || apply length_zeros). cbn [invalid_control_io map_err pure_io].
  rewrite factory_write_new by (cbn [names]; by rewrite !lookup_insert_ne). cbn [bind_io names inodes].
  exists (first_world initial w). split; [done|]. split; [done|]. exists 0.
  destruct (first_contents initial w Hw) as (C0 & C1 & C2 & _). pose proof (first_layout initial w Hw Hp) as Hl.
  assert (length (commit_bytes sha256 first_binding 0 0 initial) = COMMIT_BYTES) as Hc by (apply length_commit_image; [done|done|apply length_sha]).
  constructor.
  - constructor; [done|lia|by split|done].
  - unfold commit_region. cbn [selector first_binding]. rewrite C2, <- Hc. apply take_app_length.
  - intros f. unfold slot_region. change (data_identity first_binding (1 - 0)) with (new_files fresh 1). rewrite C1.
    rewrite (decode_slot_bytes sha256 length_sha) by (done || (split; [done|simpl; lia])). by intros [= <-].
  - intros i. unfold intent_region. cbn [selector first_binding]. rewrite C2, <- Hc, drop_app_length. intros H. by apply no_intent_yet in H.
Qed.
End initialize.

(** ** A history *)
(** A checksum of 32 numbers, for the examples. *)
Definition sum32 (l : list Z) : list Z := (foldl Z.add 7 l mod 256)%Z :: zeros 31.
Lemma length_sum32 l : length (sum32 l) = 32.
Proof. done. Qed.

Definition sample_intent : IntentFact :=
  {| before := 4; after := 5; target := 1; intent_digest := sum32 (slot_body (replicate 32 9%Z) 5 (str_bytes "next")) |}.
Definition sample_intent_image : list Z := full_intent sum32 (replicate 32 9%Z) sample_intent (str_bytes "next").
Lemma decode_intent_exact_witness :
  bytes_ok sample_intent_image /\ decode_intent sum32 sample_intent_image (replicate 32 9%Z) = Ok sample_intent /\
  exists p, intended sum32 (replicate 32 9%Z) sample_intent p.
Proof.
  assert (bytes_ok sample_intent_image) as Hb.
  { apply Forall_forall. intros x Hx. assert (forallb (fun x => (0 <=? x)%Z && (x <? 256)%Z) sample_intent_image = true) as H by (vm_compute; reflexivity).
    rewrite forallb_forall in H. apply list_elem_of_In in Hx. specialize (H x Hx). unfold is_byte. lia. }
  assert (decode_intent sum32 sample_intent_image (replicate 32 9%Z) = Ok sample_intent) as Hd by (vm_compute; reflexivity).
  split; [exact Hb|]. split; [exact Hd|].
  destruct (proj1 (decode_intent_exact sum32 length_sum32 (replicate 32 9%Z) eq_refl sample_intent_image sample_intent Hb) Hd) as (p & Hp & _).
  exists p. exact Hp.
Defined.

Definition file (i : nat) : FileIdentity := {| volume := 1; index := Z.of_nat i mod 256 |}.
Definition sample_root : FreshPublicationRoot :=
  {| anchor_identity := file 10; fresh_coordination := file 11; fresh_incarnation := replicate 32 9%Z; new_files := file |}.
Definition no_files : World := {| names := ∅; inodes := ∅ |}.
Definition sample_binding : PublisherBinding := first_binding sample_root.
Definition sample_world : World := (initialize_creation_controls sum32 sample_root (str_bytes "CGBUILD1") no_files).2.
Definition sample_cap : Capability :=
  {| root_identity := file 10; coordination_identity := file 11; cap_incarnation := replicate 32 9%Z; revalidate := true |}.
Definition sample_origin : RootOriginBinding :=
  {| origin_root := file 10; origin_coordination := file 11; origin_incarnation := replicate 32 9%Z; publication_binding := file 4 |}.

Lemma file_ok i : identity_ok (file i).
Proof. unfold identity_ok, is_u64, u64_max, file. simpl. pose proof (Z.mod_pos_bound (Z.of_nat i) 256). lia. Qed.
Lemma sample_fresh : fresh_ok sample_root no_files.
Proof.
  constructor; try apply file_ok; [done| |repeat constructor].
  apply (bool_decide_unpack _). vm_compute. done.
Qed.
Lemma sample_ok : binding_ok sample_binding.
Proof. apply (first_binding_ok sample_root no_files), sample_fresh. Qed.
Lemma sample_capability : cap_of sample_binding sample_cap.
Proof. by constructor. Qed.
Lemma sample_origin_ok : origin_of sample_binding (file 4) sample_origin (file 3).
Proof. by constructor. Qed.
Lemma sample_stored : stored sum32 sample_binding (file 4) (Holds 0 (str_bytes "CGBUILD1")) sample_world.
Proof.
  destruct (initialize_establishes sum32 length_sum32 sample_root (str_bytes "CGBUILD1") no_files sample_fresh) as (w & Hw & _ & H).
  - apply Nat.leb_le. vm_compute. done.
  - unfold sample_world. by rewrite Hw.
Qed.

(** A torn image that does not pass its checksum is found out. *)
Lemma torn_found sha256 old new mask :
  (let m := mix mask old new in bool_decide (sha256 (take (length m - 32) m) = drop (length m - 32) m)) = false ->
  detects sha256 old new (Torn mask).
Proof. intros H Hc. apply bool_decide_eq_false in H. by apply H in Hc. Qed.

Definition whole : Outcomes := {| intent_outcome := Written; slot_outcome := Written; commit_outcome := Written |}.
(** The first bytes of the slot have reached the file; one byte of the commit has not. *)
Definition torn_slot : Outcomes := {| intent_outcome := Written; slot_outcome := Torn (replicate 60 true); commit_outcome := Written |}.
Definition torn_commit : Outcomes :=
  {| intent_outcome := Written; slot_outcome := Written; commit_outcome := Torn (replicate 56 true ++ [false] ++ replicate 71 true) |}.

Definition sample_first : Event := Publish (str_bytes "first") whole.
(** The publication is interrupted, and so is its first recovery, and an update is refused. *)
Definition sample_events : list Event :=
  [Publish (str_bytes "second") torn_slot; Recover torn_commit 6; Maintain (str_bytes "third") whole 6].

Lemma sample_history : history_found sum32 sample_binding sample_cap sample_origin sample_world (sample_first :: sample_events).
Proof.
  assert (no_tears whole) as Hw by done. split; [intros c _; by apply no_tears_found|].
  split; [|split; [|split; [intros c _; by apply no_tears_found|exact I]]].
  - intros c Hc. assert (c = commit_of sum32 sample_binding 1 1 (str_bytes "first")) as ->.
    { enough (Ok c = Ok (E := ControlFailure) (commit_of sum32 sample_binding 1 1 (str_bytes "first"))) by congruence.
      rewrite <- Hc. vm_compute. reflexivity. }
    split; [exact I|]. split; [apply torn_found; vm_compute; reflexivity|exact I].
  - intros i Hi. assert (i = intent_of sum32 sample_binding 1 1 (str_bytes "second")) as ->.
    { enough (Ok i = Ok (E := ControlFailure) (intent_of sum32 sample_binding 1 1 (str_bytes "second"))) by congruence.
      rewrite <- Hi. vm_compute. reflexivity. }
    split; [exact I|]. split; [exact I|apply torn_found; vm_compute; reflexivity].
Qed.

Example sample_acks : (run_history sum32 sample_cap sample_origin (sample_first :: sample_events) sample_world).1 = [true; false; false; false].
Proof. vm_compute. reflexivity. Qed.

Lemma histories_refine_witness :
  exists s', stored sum32 sample_binding (file 4) s' (run_history sum32 sample_cap sample_origin (sample_first :: sample_events) sample_world).2 /\
    spec_run (sample_first :: sample_events) [true; false; false; false] (Holds 0 (str_bytes "CGBUILD1")) s'.
Proof.
  destruct (histories_refine sum32 length_sum32 sample_binding sample_ok (file 4) sample_cap sample_capability sample_origin (file 3)
    sample_origin_ok (sample_first :: sample_events) sample_world _ sample_stored sample_history) as (s' & H1 & H2).
  exists s'. split; [exact H2|]. rewrite sample_acks in H1. exact H1.
Defined.

Lemma publication_progress_witness :
  ((run_event sum32 sample_cap sample_origin sample_first sample_world).1 = true /\
   stored sum32 sample_binding (file 4) (Holds 1 (str_bytes "first")) (run_event sum32 sample_cap sample_origin sample_first sample_world).2) /\
  (6 <= 6 ->
   (run_event sum32 sample_cap sample_origin (Maintain (str_bytes "first") whole 6) sample_world).1 = true /\
   stored sum32 sample_binding (file 4) (Holds 1 (str_bytes "first"))
     (run_event sum32 sample_cap sample_origin (Maintain (str_bytes "first") whole 6) sample_world).2).
Proof.
  assert (bounded 1 (str_bytes "first")) as Hb by (split; [unfold is_u64, u64_max; lia|apply Nat.leb_le; vm_compute; reflexivity]).
  assert (no_tears whole) as Hw by (split; [|split]; reflexivity).
  exact (publication_progress sum32 length_sum32 sample_binding sample_ok (file 4) sample_cap sample_capability sample_origin (file 3)
    sample_origin_ok (Holds 0 (str_bytes "CGBUILD1")) sample_world whole 6 (str_bytes "first") sample_stored Hw Hb).
Defined.

Lemma acknowledged_is_durable_witness :
  exists l v, v ∈ [str_bytes "first"; str_bytes "second"; str_bytes "third"] /\
    let w' := (run_event sum32 sample_cap sample_origin (Recover whole 6)
      (run_history sum32 sample_cap sample_origin (sample_first :: sample_events) sample_world).2).2 in
    try_begin_publication sum32 sample_cap true w' = Ok (Some l) /\ read_primary_control sum32 sample_cap l w' = Ok v.
Proof.
  assert (4 <= 6) as Hn by lia. assert (no_tears whole) as Hw by (split; [|split]; reflexivity).
  assert ((run_event sum32 sample_cap sample_origin sample_first sample_world).1 = true) as Hack by (vm_compute; reflexivity).
  destruct (acknowledged_is_durable sum32 length_sum32 sample_binding sample_ok (file 4) sample_cap sample_capability sample_origin (file 3)
    sample_origin_ok sample_events sample_first (str_bytes "first") sample_world _ whole 6 sample_stored sample_history eq_refl Hack Hw Hn)
    as (l & v & H1 & H2 & H3).
  exists l, v. split; [exact H3|]. split; [exact H1|exact H2].
Defined.
