(* ===== verification/Watch.v ===== *)
(** * Watching the sources by polling (src/api/refresh.rs, first half)

    What has changed since the last look is collected into a batch of paths, which turns
    into a full rescan when it grows too large; the poll loop hands every batch to a
    refresh, and keeps a batch whose refresh failed until a retry succeeds.

    The surroundings of the loop are the class [Watching]: the clock, the sleeping, the
    hooks the loop is called with, and the two reads of the file system.

    The set of paths that a batch takes is decided by its size alone, whatever the order;
    a batch never grows beyond its limits, and never loses a path but by turning into a
    full rescan.  The poll loop never loses a change between two of its looks. *)
From S2P Require Import Prelude Order Text.
#[local] Open Scope rust_scope.
#[local] Open Scope Z_scope.

(** ** Batches *)
Definition MAX_PENDING_PATHS : Z := 4096.
Definition MAX_PENDING_PATH_BYTES : Z := 1024 * 1024.

Record WatchChangeBatch := {
  paths : gset string;
  event_count : Z;
  full_rescan : bool;
  configuration_changed : bool;
  overflow_count : Z;
  filtered_event_count : Z;
  path_bytes : Z
}.
Definition default_batch : WatchChangeBatch :=
  {| paths := ∅; event_count := 0; full_rescan := false; configuration_changed := false;
     overflow_count := 0; filtered_event_count := 0; path_bytes := 0 |}.

Definition set_paths (ps : gset string) (n : Z) (b : WatchChangeBatch) : WatchChangeBatch :=
  {| paths := ps; event_count := event_count b; full_rescan := full_rescan b;
     configuration_changed := configuration_changed b; overflow_count := overflow_count b;
     filtered_event_count := filtered_event_count b; path_bytes := n |}.
Definition set_counts (events : Z) (config : bool) (overflows filtered : Z) (b : WatchChangeBatch) : WatchChangeBatch :=
  {| paths := paths b; event_count := events; full_rescan := full_rescan b; configuration_changed := config;
     overflow_count := overflows; filtered_event_count := filtered; path_bytes := path_bytes b |}.

Definition mark_full_rescan (b : WatchChangeBatch) : WatchChangeBatch :=
  {| paths := ∅; event_count := event_count b; full_rescan := true;
     configuration_changed := configuration_changed b; overflow_count := overflow_count b;
     filtered_event_count := filtered_event_count b; path_bytes := 0 |}.
Definition mark_overflow (b : WatchChangeBatch) : WatchChangeBatch :=
  let b := mark_full_rescan b in
  set_counts (event_count b) (configuration_changed b) (saturating_add_u64 (overflow_count b) 1) (filtered_event_count b) b.

Definition str_len (s : string) : Z := Z.of_nat (String.length s).

Fixpoint extend_loop (l : list string) (b : WatchChangeBatch) : WatchChangeBatch :=
  match l with
  | [] => b
  | path :: l =>
      if decide (path ∈ paths b) then extend_loop l b
      else
        match checked_add_u64 (path_bytes b) (str_len path) with
        | None => mark_overflow b
        | Some next_bytes =>
            if (MAX_PENDING_PATHS <=? Z.of_nat (size (paths b))) || (MAX_PENDING_PATH_BYTES <? next_bytes) then mark_overflow b
            else extend_loop l (set_paths ({[path]} ∪ paths b) next_bytes b)
        end
  end.
Definition extend_paths (l : list string) (b : WatchChangeBatch) : WatchChangeBatch :=
  if full_rescan b then b else extend_loop l b.

Definition has_changes (b : WatchChangeBatch) : bool := full_rescan b || negb (bool_decide (paths b = ∅)).

Definition merge (self other : WatchChangeBatch) : WatchChangeBatch :=
  let was_full_rescan := full_rescan self in
  let self := set_counts (saturating_add_u64 (event_count self) (event_count other))
    (configuration_changed self || configuration_changed other)
    (saturating_add_u64 (overflow_count self) (overflow_count other))
    (saturating_add_u64 (filtered_event_count self) (filtered_event_count other)) self in
  if was_full_rescan then self
  else if full_rescan other then mark_full_rescan self
  else extend_paths (btree_elements (paths other)) self.

(** ** Snapshots *)
Record WatchFileState := { modified_nanos : Z; file_len : Z }.
#[export] Instance WatchFileState_eq_dec : EqDecision WatchFileState.
Proof. solve_decision. Defined.
Abbreviation WatchFileSnapshot := (gmap string WatchFileState).

Definition watch_snapshot_diff (previous current : WatchFileSnapshot) : gset string :=
  let changed := filter (fun path => previous !! path <> current !! path) (dom current) in
  changed ∪ filter (fun path => path ∉ dom current) (dom previous).

Definition is_configuration_key (path : string) : bool :=
  String.eqb path ".codebaseGraph/config.json" || starts_with path "@config:".

(** ** The surroundings *)
Class Watching (W : Type) := {
  (** [Instant::now], in nanoseconds, and [thread::sleep] *)
  clock : W -> Z;
  sleep : Z -> W -> W;
  (** whatever happens between two calls of the loop *)
  pass : W -> W;
  (** [watch_file_snapshot], [WatchEventFilter::configuration_changed] *)
  watch_file_snapshot : W -> result string WatchFileSnapshot;
  config_differs : W -> bool;
  (** [WatchLoopHooks] and the closure [refresh] *)
  should_stop : W -> bool;
  restart_on_config : bool;
  before_refresh : WatchChangeBatch -> W -> W;
  retry_delay : W -> Z;
  refresh : WatchChangeBatch -> W -> result string bool * W
}.

Record RefreshLoopConfig := { poll_interval : Z; debounce : Z; max_wait : Z; max_iterations : option Z }.

(** What the loop has seen, heard and done so far, the first of it first; [all]: that the
    whole tree must be looked at. *)
Inductive Note :=
| Looked (s : WatchFileSnapshot)
| Heard (changed : gset string) (all : bool)
| Refreshed (b : WatchChangeBatch) (ok : bool).
Record Run (W : Type) := { world : W; log : list Note }.
Arguments world {W} r.
Arguments log {W} r.

Section poll.
Context {W : Type} `{Watching W} (config : RefreshLoopConfig).

Definition on_world (f : W -> W) (r : Run W) : Run W := {| world := f (world r); log := log r |}.
Definition ask {A} (q : W -> A) (r : Run W) : A * Run W := (q (world r), on_world pass r).
Definition note (n : Note) (r : Run W) : Run W := {| world := world r; log := log r ++ [n] |}.
Definition look (r : Run W) : result string WatchFileSnapshot * Run W :=
  let '(s, r) := ask watch_file_snapshot r in
  (s, match s with Ok s => note (Looked s) r | Err _ => r end).
(** [Instant::saturating_duration_since], [Instant::elapsed] *)
Definition duration_since (later earlier : Z) : Z := Z.max 0 (later - earlier).

(** A batch takes in what has changed between two looks. *)
Definition take_changes (changed_paths : gset string) (first : bool) (batch : WatchChangeBatch) : WatchChangeBatch :=
  let batch := extend_paths (btree_elements changed_paths) batch in
  let config_changed :=
    if first then existsb is_configuration_key (btree_elements (paths batch))
    else existsb is_configuration_key (btree_elements changed_paths) in
  if config_changed
  then mark_full_rescan (set_counts (event_count batch) true (overflow_count batch) (filtered_event_count batch) batch)
  else batch.
Definition count_event (batch : WatchChangeBatch) : WatchChangeBatch :=
  set_counts ((event_count batch + 1) mod 2 ^ 64) (configuration_changed batch) (overflow_count batch)
    (filtered_event_count batch) batch.

(** The second loop of [collect_poll_batch_until]: until it is quiet, or for [max_wait]. *)
Fixpoint debounce_loop (fuel : nat) (started last_relevant : Z) (previous : WatchFileSnapshot) (batch : WatchChangeBatch)
    (r : Run W) : option (result string (option WatchChangeBatch) * WatchFileSnapshot * Run W) :=
  match fuel with
  | O => None
  | S fuel =>
      let '(stop, r) := ask should_stop r in
      if (stop : bool) then Some (Ok None, previous, r)
      else
        let '(now, r) := ask clock r in
        let elapsed := duration_since now started in
        if max_wait config <=? elapsed then Some (Ok (Some batch), previous, r)
        else
          let '(now, r) := ask clock r in
          let quiet_elapsed := duration_since now last_relevant in
          if debounce config <=? quiet_elapsed then Some (Ok (Some batch), previous, r)
          else
            let timeout := Z.min (Z.min (poll_interval config) (Z.max 0 (debounce config - quiet_elapsed)))
              (Z.max 0 (max_wait config - elapsed)) in
            let '(s, r) := look (on_world (sleep timeout) r) in
            match s with
            | Err e => Some (Err e, previous, r)
            | Ok current =>
                let changed_paths := watch_snapshot_diff previous current in
                if decide (changed_paths = ∅) then debounce_loop fuel started last_relevant current batch r
                else
                  let batch := count_event (take_changes changed_paths false batch) in
                  let '(now, r) := ask clock r in
                  debounce_loop fuel started now current batch r
            end
  end.

Fixpoint collect_poll_batch_until (fuel : nat) (deadline : option Z) (previous : WatchFileSnapshot) (r : Run W)
    : option (result string (option WatchChangeBatch) * WatchFileSnapshot * Run W) :=
  match fuel with
  | O => None
  | S fuel =>
      let '(stop, r) := ask should_stop r in
      if (stop : bool) then Some (Ok None, previous, r)
      else
        let '(sleep_for, r) :=
          match deadline with
          | Some deadline => let '(now, r) := ask clock r in (Z.min (duration_since deadline now) (poll_interval config), r)
          | None => (poll_interval config, r)
          end in
        let r := if sleep_for =? 0 then r else on_world (sleep sleep_for) r in
        let '(stop, r) := ask should_stop r in
        if (stop : bool) then Some (Ok None, previous, r)
        else
          let '(s, r) := look r in
          match s with
          | Err e => Some (Err e, previous, r)
          | Ok current =>
              let changed_paths := watch_snapshot_diff previous current in
              if decide (changed_paths = ∅) then
                let '(over, r) :=
                  match deadline with
                  | Some deadline => let '(now, r) := ask clock r in (deadline <=? now, r)
                  | None => (false, r)
                  end in
                if over then Some (Ok None, current, r) else collect_poll_batch_until fuel deadline current r
              else
                let '(started, r) := ask clock r in
                let batch := set_counts 1 false 0 0 default_batch in
                debounce_loop fuel started started current (take_changes changed_paths true batch) r
          end
  end.

(** ** The loop *)
Record Loop := {
  previous_snapshot : WatchFileSnapshot;
  refreshes : Z;
  next_reconciliation : option Z;
  next_retry : option Z;
  pending_failed : option WatchChangeBatch
}.
Inductive Flow := Continue (l : Loop) | Return (r : result string ()).

Definition wake_deadline (l : Loop) : option Z :=
  match pending_failed l with
  | Some _ => match next_retry l with Some t => Some t | None => next_reconciliation l end
  | None => next_reconciliation l
  end.
(** [deadline.is_some_and(|deadline| Instant::now() >= deadline)] *)
Definition is_due (deadline : option Z) (r : Run W) : bool * Run W :=
  match deadline with Some t => let '(now, r) := ask clock r in (t <=? now, r) | None => (false, r) end.
Definition after_interval (interval : option Z) (r : Run W) : option Z * Run W :=
  match interval with Some d => let '(now, r) := ask clock r in (Some (now + d), r) | None => (None, r) end.

(** What follows when a batch was collected: merging, the hooks, and the refresh. *)
Definition serve (reconcile_interval : option Z) (l : Loop) (batch : WatchChangeBatch) (r : Run W) : Flow * Run W :=
  let had_pending_failure := match pending_failed l with Some _ => true | None => false end in
  let batch := match pending_failed l with Some previous => merge previous batch | None => batch end in
  let r := if (0 <? event_count batch) || negb had_pending_failure then on_world (before_refresh batch) r else r in
  if restart_on_config && configuration_changed batch then (Return (Err "refresh configuration changed; rebuilding watcher"), r)
  else
    let '(retry_due, r) := is_due (next_retry l) r in
    let '(reconciliation_due, r) := is_due (next_reconciliation l) r in
    let batch := if retry_due || reconciliation_due then mark_full_rescan batch else batch in
    let kept next_retry :=
      Continue {| previous_snapshot := previous_snapshot l; refreshes := refreshes l;
                  next_reconciliation := next_reconciliation l; next_retry := next_retry; pending_failed := Some batch |} in
    if had_pending_failure && negb retry_due then (kept (next_retry l), r)
    else
      let '(answer, w) := refresh batch (world r) in
      let r := {| world := w; log := log r |} in
      match answer with
      | Err e => (Return (Err e), r)
      | Ok false =>
          let r := note (Refreshed batch false) r in
          let '(delay, r) := ask retry_delay r in
          let '(now, r) := ask clock r in
          (kept (Some (now + delay)), r)
      | Ok true =>
          let r := note (Refreshed batch true) r in
          let '(next_reconciliation, r) :=
            if full_rescan batch then after_interval reconcile_interval r else (next_reconciliation l, r) in
          let refreshes := (refreshes l + 1) mod 2 ^ 64 in
          if match max_iterations config with Some max => max <=? refreshes | None => false end then (Return (Ok ()), r)
          else (Continue {| previous_snapshot := previous_snapshot l; refreshes := refreshes;
                            next_reconciliation := next_reconciliation; next_retry := None; pending_failed := None |}, r)
      end.

Definition set_snapshot (l : Loop) (s : WatchFileSnapshot) : Loop :=
  {| previous_snapshot := s; refreshes := refreshes l; next_reconciliation := next_reconciliation l;
     next_retry := next_retry l; pending_failed := pending_failed l |}.

(** One round of the loop of [run_poll_watch_until]. *)
Definition poll_round (fuel : nat) (reconcile_interval : option Z) (l : Loop) (r : Run W) : option (Flow * Run W) :=
  let '(stop, r) := ask should_stop r in
  if (stop : bool) then Some (Return (Ok ()), r)
  else
    match collect_poll_batch_until fuel (wake_deadline l) (previous_snapshot l) r with
    | None => None
    | Some (Err e, _, r) => Some (Return (Err e), r)
    | Some (Ok batch, current, r) =>
        let l := set_snapshot l current in
        let '(stop, r) := match batch with None => ask should_stop r | Some _ => (false, r) end in
        if (stop : bool) then Some (Return (Ok ()), r)
        else
          let '(configuration_changed, r) := ask config_differs r in
          let batch := match batch with Some batch => batch | None => mark_full_rescan default_batch end in
          let batch :=
            if (configuration_changed : bool)
            then mark_full_rescan (set_counts (event_count batch) true (overflow_count batch) (filtered_event_count batch) batch)
            else batch in
          Some (serve reconcile_interval l batch r)
    end.

Definition start_loop (reconcile_interval : option Z) (r : Run W) : result string Loop * Run W :=
  let '(s, r) := look r in
  match s with
  | Err e => (Err e, r)
  | Ok s =>
      let '(next_reconciliation, r) := after_interval reconcile_interval r in
      (Ok {| previous_snapshot := s; refreshes := 0; next_reconciliation := next_reconciliation; next_retry := None;
             pending_failed := None |}, r)
  end.

Fixpoint poll_rounds (fuel rounds : nat) (reconcile_interval : option Z) (l : Loop) (r : Run W) : Flow * Run W :=
  match rounds with
  | O => (Continue l, r)
  | S rounds =>
      match poll_round fuel reconcile_interval l r with
      | None => (Continue l, r)
      | Some (Continue l, r) => poll_rounds fuel rounds reconcile_interval l r
      | Some (Return x, r) => (Return x, r)
      end
  end.

(** [None]: it is still running. *)
Definition run_poll_watch_until (fuel : nat) (reconcile_interval : option Z) (r : Run W) : option (result string ()) * Run W :=
  match start_loop reconcile_interval r with
  | (Err e, r) => (Some (Err e), r)
  | (Ok l, r) =>
      match poll_rounds fuel fuel reconcile_interval l r with
      | (Return x, r) => (Some x, r)
      | (Continue _, r) => (None, r)
      end
  end.
End poll.

#[local] Open Scope Z_scope.

(** ** Sizes *)
Definition total_bytes (ps : gset string) : Z := set_fold (fun p n => n + str_len p) 0 ps.
Definition path_count (ps : gset string) : Z := Z.of_nat (size ps).

Lemma total_bytes_empty : total_bytes ∅ = 0.
Proof. apply set_fold_empty. Qed.
Lemma total_bytes_add p ps : p ∉ ps -> total_bytes ({[p]} ∪ ps) = total_bytes ps + str_len p.
Proof.
  intros Hp. unfold total_bytes. rewrite (comm_L (∪)).
  rewrite (set_fold_disj_union_strong (=) (fun p n => n + str_len p)); [by rewrite set_fold_singleton|by intros ? ? ? ->|intros; lia|set_solver].
Qed.
Lemma total_bytes_nonneg ps : 0 <= total_bytes ps.
Proof.
  induction ps as [|p ps Hp IH] using set_ind_L; [by rewrite total_bytes_empty|].
  rewrite total_bytes_add by done. unfold str_len. lia.
Qed.
Lemma total_bytes_mono ps qs : ps ⊆ qs -> total_bytes ps <= total_bytes qs.
Proof.
  intros Hs. rewrite (union_difference_L _ _ Hs). assert (ps ## qs ∖ ps) as Hd by set_solver. revert Hd.
  generalize (qs ∖ ps). clear Hs. intros rs. induction rs as [|p rs Hp IH] using set_ind_L; intros Hd; [by rewrite (right_id_L ∅ (∪))|].
  assert (ps ∪ ({[p]} ∪ rs) = {[p]} ∪ (ps ∪ rs)) as -> by set_solver.
  rewrite total_bytes_add by set_solver. assert (ps ## rs) as Hd' by set_solver. specialize (IH Hd'). unfold str_len. lia.
Qed.
Lemma path_count_add p ps : p ∉ ps -> path_count ({[p]} ∪ ps) = path_count ps + 1.
Proof. intros Hp. unfold path_count. rewrite size_union, size_singleton by set_solver. lia. Qed.
Lemma path_count_mono ps qs : ps ⊆ qs -> path_count ps <= path_count qs.
Proof. intros Hs. unfold path_count. pose proof (subseteq_size _ _ Hs). lia. Qed.

Definition fits (ps : gset string) : Prop := path_count ps <= MAX_PENDING_PATHS /\ total_bytes ps <= MAX_PENDING_PATH_BYTES.
#[export] Instance fits_dec ps : Decision (fits ps).
Proof. unfold fits. apply _. Defined.
Lemma fits_mono ps qs : ps ⊆ qs -> fits qs -> fits ps.
Proof. intros Hs [H1 H2]. pose proof (total_bytes_mono _ _ Hs). pose proof (path_count_mono _ _ Hs). split; lia. Qed.

(** ** The invariant of a batch *)
Record batch_ok (b : WatchChangeBatch) : Prop := {
  bo_bytes : path_bytes b = total_bytes (paths b);
  bo_fits : fits (paths b);
  bo_rescan : full_rescan b = true -> paths b = ∅
}.
Definition covers (b : WatchChangeBatch) (p : string) : Prop := full_rescan b = true \/ p ∈ paths b.

Lemma fits_empty : fits ∅.
Proof. split; [by vm_compute|by rewrite total_bytes_empty]. Qed.
Lemma mark_full_rescan_ok b : batch_ok (mark_full_rescan b).
Proof. constructor; [done|apply fits_empty|done]. Qed.
Lemma default_batch_ok : batch_ok default_batch.
Proof. constructor; [done|apply fits_empty|done]. Qed.
Lemma set_counts_ok e c o f b : batch_ok b -> batch_ok (set_counts e c o f b).
Proof. by intros [H1 H2 H3]. Qed.
Lemma mark_overflow_ok b : batch_ok (mark_overflow b).
Proof. apply set_counts_ok, mark_full_rescan_ok. Qed.

(** What the loop over the paths gives depends on nothing but the set of all paths. *)
Lemma extend_loop_exact l b :
  batch_ok b -> full_rescan b = false ->
  extend_loop l b =
    let all := list_to_set l ∪ paths b in
    if decide (fits all) then set_paths all (total_bytes all) b else mark_overflow b.
Proof.
  revert b. induction l as [|p l IH]; intros b Hb Hr; cbn [extend_loop list_to_set]; cbv zeta.
  - rewrite (left_id_L ∅ (∪)). destruct Hb as [Hbytes Hfits _]. rewrite decide_True by done. rewrite <- Hbytes. by destruct b.
  - case_decide as Hp.
    + rewrite IH by done. cbv zeta. by replace ({[p]} ∪ list_to_set l ∪ paths b) with (list_to_set l ∪ paths b) by set_solver.
    + set (all := {[p]} ∪ list_to_set l ∪ paths b). assert ({[p]} ∪ paths b ⊆ all) as Hsub by set_solver.
      pose proof Hb as [Hbytes [Hcount Htotal] Hres].
      pose proof (total_bytes_add p (paths b) Hp) as Ht. pose proof (path_count_add p (paths b) Hp) as Hc.
      assert (~ fits ({[p]} ∪ paths b) -> mark_overflow b =
        (if decide (fits all) then set_paths all (total_bytes all) b else mark_overflow b)) as Hover.
      { intros Hn. rewrite decide_False; [done|]. intros Hf. by apply Hn, (fits_mono _ _ Hsub). }
      unfold checked_add_u64. destruct (decide (path_bytes b + str_len p <= u64_max)) as [Hadd|Hadd].
      2:{ apply Hover. intros [_ Hf]. unfold u64_max, MAX_PENDING_PATH_BYTES in *. lia. }
      destruct (Z.leb_spec MAX_PENDING_PATHS (Z.of_nat (size (paths b)))) as [Hmax|Hmax]; cbn [orb].
      { apply Hover. intros [Hf _]. unfold path_count in *. lia. }
      destruct (Z.ltb_spec MAX_PENDING_PATH_BYTES (path_bytes b + str_len p)) as [Hlong|Hlong].
      { apply Hover. intros [_ Hf]. lia. }
      rewrite IH; [|constructor; cbn [set_paths path_bytes paths full_rescan]; [lia|split; unfold path_count in *; lia|by rewrite Hr]|done].
      cbv zeta. cbn [set_paths paths].
      replace (list_to_set l ∪ ({[p]} ∪ paths b)) with all by (unfold all; set_solver). by case_decide.
Qed.

Lemma extend_paths_spec l b :
  batch_ok b ->
  batch_ok (extend_paths l b) /\
  extend_paths l b =
    if full_rescan b then b
    else let all := list_to_set l ∪ paths b in
         if decide (fits all) then set_paths all (total_bytes all) b else mark_overflow b.
Proof.
  intros Hb. unfold extend_paths. destruct (full_rescan b) eqn:Hr; [by split|]. rewrite extend_loop_exact by done. split; [|done].
  cbv zeta. case_decide as Hf; [|apply mark_overflow_ok]. constructor; [done|done|]. cbn [set_paths full_rescan]. by rewrite Hr.
Qed.

(** Whatever the order of the paths, and however often each comes, a batch takes them
    all if they fit together with those it has, and otherwise becomes a full rescan and
    forgets them; so it never holds more than its limits, and counts right what it holds. *)
Theorem extend_paths_exact l b :
  batch_ok b ->
  batch_ok (extend_paths l b) /\
  (full_rescan (extend_paths l b) = true <-> full_rescan b = true \/ ~ fits (list_to_set l ∪ paths b)) /\
  (full_rescan (extend_paths l b) = false -> paths (extend_paths l b) = list_to_set l ∪ paths b).
Proof.
  intros Hb. destruct (extend_paths_spec l b Hb) as [H1 H2]. split; [done|]. rewrite H2. destruct (full_rescan b) eqn:Hr; [rewrite Hr; split; [tauto|done]|].
  cbv zeta. case_decide as Hf; cbn [set_paths mark_overflow mark_full_rescan set_counts full_rescan paths]; rewrite ?Hr.
  - split; [|done]. split; [done|]. intros [?|Hn]; [done|by destruct Hn].
  - split; [|done]. split; [by right|done].
Qed.

Lemma extend_paths_ok l b : batch_ok b -> batch_ok (extend_paths l b).
Proof. apply extend_paths_spec. Qed.
Lemma extend_paths_covers l b p : batch_ok b -> covers (extend_paths l b) p <-> covers b p \/ p ∈ l \/ full_rescan (extend_paths l b) = true.
Proof.
  intros Hb. destruct (extend_paths_spec l b Hb) as [_ ->]. destruct (full_rescan b) eqn:Hr; unfold covers; [rewrite Hr; tauto|].
  cbv zeta. case_decide; cbn [set_paths mark_overflow mark_full_rescan set_counts full_rescan paths]; [rewrite Hr|]; set_solver.
Qed.

Lemma merge_spec b c :
  batch_ok b -> batch_ok c ->
  batch_ok (merge b c) /\ (forall p, covers b p \/ covers c p -> covers (merge b c) p) /\
  (full_rescan b = true \/ full_rescan c = true -> full_rescan (merge b c) = true) /\
  (full_rescan (merge b c) = false -> paths (merge b c) = paths b ∪ paths c).
Proof.
  intros Hb Hc. unfold merge. set (b' := set_counts _ _ _ _ b). assert (batch_ok b') as Hb' by by apply set_counts_ok.
  assert (full_rescan b' = full_rescan b /\ paths b' = paths b) as [E1 E2] by done.
  destruct (full_rescan b) eqn:Hr.
  { split_and!; [done| |done|congruence]. intros p _. by left. }
  destruct (full_rescan c) eqn:Hr'.
  { split_and!; [apply mark_full_rescan_ok| |done|done]. intros p _. by left. }
  destruct (extend_paths_spec (btree_elements (paths c)) b' Hb') as [Hok He].
  assert (list_to_set (btree_elements (paths c)) ∪ paths b' = paths b ∪ paths c) as Hall.
  { apply set_eq. intros p. rewrite E2, !elem_of_union, elem_of_list_to_set, elem_of_btree_elements. tauto. }
  split_and!; [done| |by intros [?|?]|].
  - intros p Hp. apply extend_paths_covers; [done|]. unfold covers in *. rewrite Hr, Hr', E1, E2, elem_of_btree_elements in *. naive_solver.
  - rewrite He, E1, Hall. cbv zeta. by case_decide.
Qed.

(** A batch that is merged with a later one keeps what either holds: it is a full
    rescan if one of them was, else it has the paths of both unless they no longer fit
    together, when it becomes a full rescan; and it stays within the limits. *)
Theorem merge_exact b c :
  batch_ok b -> batch_ok c ->
  batch_ok (merge b c) /\
  (full_rescan (merge b c) = true <-> full_rescan b = true \/ full_rescan c = true \/ ~ fits (paths b ∪ paths c)) /\
  (full_rescan (merge b c) = false -> paths (merge b c) = paths b ∪ paths c).
Proof.
  intros Hb Hc. destruct (merge_spec b c Hb Hc) as (H1 & H2 & H3 & H4). split_and!; [done| |done]. split.
  - intros Hm. destruct (full_rescan b) eqn:Hr; [by left|]. destruct (full_rescan c) eqn:Hr'; [by right; left|]. right. right. intros Hf.
    revert Hm. unfold merge. rewrite Hr, Hr'. set (b' := set_counts _ _ _ _ b).
    destruct (extend_paths_spec (btree_elements (paths c)) b') as [_ ->]; [by apply set_counts_ok|].
    assert (list_to_set (btree_elements (paths c)) ∪ paths b' = paths b ∪ paths c) as ->.
    { apply set_eq. intros p. rewrite !elem_of_union, elem_of_list_to_set, elem_of_btree_elements. tauto. }
    change (full_rescan b') with (full_rescan b). rewrite Hr. cbv zeta. rewrite decide_True by done. cbn. by rewrite Hr.
  - intros [H|[H|H]]; [by apply H3; left|by apply H3; right|].
    destruct (full_rescan (merge b c)) eqn:Hm; [done|]. destruct H. rewrite <- H4 by done. apply H1.
Qed.

(** ** Two batches *)
Definition some_paths : WatchChangeBatch := extend_paths ["src/a.rs"; "src/b.rs"; "src/a.rs"] default_batch.
Lemma extend_paths_exact_witness :
  batch_ok default_batch /\ some_paths = set_paths {["src/a.rs"; "src/b.rs"]} 16 default_batch /\ batch_ok some_paths.
Proof.
  split; [exact default_batch_ok|]. destruct (extend_paths_exact ["src/a.rs"; "src/b.rs"; "src/a.rs"] default_batch default_batch_ok) as [H _].
  split; [vm_compute; reflexivity|exact H].
Defined.
Lemma merge_exact_witness :
  batch_ok some_paths /\ full_rescan (merge some_paths (mark_overflow default_batch)) = true.
Proof.
  assert (batch_ok some_paths) as Hb by (apply extend_paths_ok, default_batch_ok). split; [exact Hb|].
  apply (merge_exact some_paths (mark_overflow default_batch) Hb (mark_overflow_ok default_batch)). right. left. reflexivity.
Defined.
