(* ===== verification/WatchClaims.v ===== *)
(** * The poll loop loses no change

    Between two looks at the files the loop notices what differs; from then on the path is
    in the batch that is being collected, in the batch whose refresh failed, or in a batch
    whose refresh has succeeded since. *)
From S2P Require Import Prelude Order Text Watch.
#[local] Open Scope Z_scope.

(** ** What a log says *)
Definition no_look (l : list Note) : Prop := forall s, Looked s ∉ l.
Definition last_look (l : list Note) : option WatchFileSnapshot :=
  foldl (fun acc n => match n with Looked s => Some s | _ => acc end) None l.

(** Two looks that follow each other in the log differ at [p]; [l2] is what came later. *)
Definition seen (l : list Note) (p : string) (l2 : list Note) : Prop :=
  exists l1 s mid s', l = l1 ++ Looked s :: mid ++ Looked s' :: l2 /\ no_look mid /\ s !! p <> s' !! p.
(** The watcher told of [p]. *)
Definition heard (l : list Note) (p : string) (l2 : list Note) : Prop :=
  exists l1 changed all, l = l1 ++ Heard changed all :: l2 /\ (all = true \/ p ∈ changed).
Definition noticed (l : list Note) (p : string) (l2 : list Note) : Prop := seen l p l2 \/ heard l p l2.
(** Every change that was noticed has been refreshed since, or is in [pend]. *)
Definition accounted (l : list Note) (pend : string -> Prop) : Prop :=
  forall p l2, noticed l p l2 -> (exists b, Refreshed b true ∈ l2 /\ covers b p) \/ pend p.
(** Every refresh was asked with something to do, within the limits. *)
Definition refreshes_ok (l : list Note) : Prop := forall b ok, Refreshed b ok ∈ l -> batch_ok b /\ has_changes b = true.

Lemma last_look_app l n : last_look (l ++ [n]) = match n with Looked s => Some s | _ => last_look l end.
Proof. unfold last_look. by rewrite foldl_app. Qed.
Lemma no_look_last l : no_look l -> last_look l = None.
Proof.
  induction l as [|n l IH] using rev_ind; intros Hn; [done|]. rewrite last_look_app. destruct n as [s| |].
  - destruct (Hn s). set_solver.
  - apply IH. intros s Hs. apply (Hn s). set_solver.
  - apply IH. intros s Hs. apply (Hn s). set_solver.
Qed.
Lemma last_look_mid l1 s mid : no_look mid -> last_look (l1 ++ Looked s :: mid) = Some s.
Proof.
  induction mid as [|n mid IH] using rev_ind; intros Hn; [by rewrite last_look_app|].
  rewrite app_comm_cons, app_assoc, last_look_app. destruct n as [s'| |]; [destruct (Hn s'); set_solver|..];
    apply IH; intros s' Hs; apply (Hn s'); set_solver.
Qed.

(** The log ends with [n]: the second look is [n], or came before it. *)
Lemma noticed_app l n p l2 : noticed (l ++ [n]) p l2 ->
  (exists l2', l2 = l2' ++ [n] /\ noticed l p l2') \/
  (l2 = [] /\ ((exists s s', n = Looked s' /\ last_look l = Some s /\ s !! p <> s' !! p) \/
               (exists changed all, n = Heard changed all /\ (all = true \/ p ∈ changed)))).
Proof.
  intros [(l1 & s & mid & s' & E & Hm & Hp)|(l1 & ps & all & E & Hp)]; destruct l2 as [|n' l2 _] using rev_ind.
  - right. split; [done|]. left. rewrite app_comm_cons, app_assoc in E. apply app_inj_tail in E as [-> ->].
    exists s, s'. split_and!; [done|by apply last_look_mid|done].
  - left. assert (l1 ++ Looked s :: mid ++ Looked s' :: l2 ++ [n'] = (l1 ++ Looked s :: mid ++ Looked s' :: l2) ++ [n']) as E'.
    { rewrite <- app_assoc. simpl. by rewrite <- app_assoc. }
    rewrite E' in E. apply app_inj_tail in E as [-> ->]. exists l2. split; [done|]. left. by exists l1, s, mid, s'.
  - right. split; [done|]. right. apply app_inj_tail in E as [-> ->]. by exists ps, all.
  - left. rewrite app_comm_cons, app_assoc in E. apply app_inj_tail in E as [-> ->]. exists l2. split; [done|]. right. by exists l1, ps, all.
Qed.

Lemma accounted_nil P : accounted [] P.
Proof. by intros p l2 [([|? ?] & s & mid & s' & E & _)|([|? ?] & ps & all & E & _)]. Qed.
Lemma accounted_weaken l (P Q : string -> Prop) : accounted l P -> (forall p, P p -> Q p) -> accounted l Q.
Proof. intros Ha HPQ p l2 Hn. destruct (Ha p l2 Hn); [by left|right; auto]. Qed.
Lemma accounted_look l s s' (P Q : string -> Prop) :
  accounted l P -> last_look l = Some s -> (forall p, P p \/ s !! p <> s' !! p -> Q p) -> accounted (l ++ [Looked s']) Q.
Proof.
  intros Ha Hs HQ p l2 [(l2' & -> & Hn)|(-> & [(s1 & s2 & [= <-] & Hs1 & Hp)|(ps & all & [=] & _)])]%noticed_app.
  - destruct (Ha p l2' Hn) as [(b & Hb & Hc)|HP]; [left; exists b; set_solver|right; auto].
  - right. apply HQ. right. congruence.
Qed.
Lemma accounted_refreshed l b ok (P Q : string -> Prop) :
  accounted l P -> (forall p, P p -> covers b p /\ ok = true \/ Q p) -> accounted (l ++ [Refreshed b ok]) Q.
Proof.
  intros Ha HQ p l2 [(l2' & -> & Hn)|(_ & [(s1 & s2 & [=] & _)|(ps & all & [=] & _)])]%noticed_app.
  destruct (Ha p l2' Hn) as [(b' & Hb & Hc)|[[Hc ->]|HP]%HQ]; [left; exists b'; set_solver|left; exists b; set_solver|by right].
Qed.

Lemma accounted_heard l changed all (P Q : string -> Prop) :
  accounted l P -> (forall p, P p \/ all = true \/ p ∈ changed -> Q p) -> accounted (l ++ [Heard changed all]) Q.
Proof.
  intros Ha HQ p l2 [(l2' & -> & Hn)|(-> & [(s1 & s2 & [=] & _)|(ps & all' & [= <- <-] & Hp)])]%noticed_app.
  - destruct (Ha p l2' Hn) as [(b & Hb & Hc)|HP]; [left; exists b; set_solver|right; auto].
  - right. apply HQ. by right.
Qed.

(** ** Taking in what has changed *)
Lemma elem_of_watch_snapshot_diff p s s' : p ∈ watch_snapshot_diff s s' <-> s !! p <> s' !! p.
Proof.
  unfold watch_snapshot_diff. rewrite elem_of_union, !elem_of_filter, !elem_of_dom. split.
  - intros [[H _]|[H [x Hx]]]; [done|]. rewrite Hx. intros E. apply H. rewrite <- E. by eexists.
  - intros H. destruct (s' !! p) eqn:E'; [left; by eauto|]. right. destruct (s !! p) eqn:E; [|done].
    split; [by intros [? ?]|by eexists].
Qed.

Lemma mark_config_spec b c : let b' := mark_full_rescan (set_counts (event_count b) c (overflow_count b) (filtered_event_count b) b) in
  batch_ok b' /\ has_changes b' = true /\ forall p, covers b' p.
Proof. split_and!; [apply mark_full_rescan_ok|done|by left]. Qed.

Lemma extend_loop_extend l b : full_rescan b = false -> extend_loop l b = extend_paths l b.
Proof. intros Hr. unfold extend_paths. by rewrite Hr. Qed.
Lemma has_changes_covers b p : covers b p -> has_changes b = true.
Proof. unfold covers, has_changes. intros [->|Hp]; [done|]. rewrite bool_decide_false by set_solver. by rewrite orb_true_r. Qed.
Lemma has_changes_extend l b : batch_ok b -> has_changes b = true \/ l <> [] -> has_changes (extend_paths l b) = true.
Proof.
  intros Hb H. assert (exists p, covers b p \/ p ∈ l) as [p Hp].
  { destruct H as [H|H].
    - unfold has_changes in H. apply orb_true_iff in H as [H|H]; [exists ""; by left; left|].
      apply negb_true_iff, bool_decide_eq_false in H. apply set_choose_L in H as [p Hp]. exists p. left. by right.
    - destruct l as [|p l]; [done|]. exists p. right. set_solver. }
  apply (has_changes_covers _ p), extend_paths_covers; [done|]. tauto.
Qed.

Lemma take_changes_spec (c : gset string) first b :
  batch_ok b -> c <> ∅ ->
  batch_ok (take_changes c first b) /\ has_changes (take_changes c first b) = true /\
  forall p, covers b p \/ p ∈ c -> covers (take_changes c first b) p.
Proof.
  intros Hb Hc. unfold take_changes. set (b1 := extend_paths _ b). assert (batch_ok b1) as Hb1 by by apply extend_paths_ok.
  assert (forall p, covers b p \/ p ∈ c -> covers b1 p) as Hcov.
  { intros p Hp. apply extend_paths_covers; [done|]. rewrite elem_of_btree_elements. tauto. }
  assert (has_changes b1 = true) as Hch.
  { apply set_choose_L in Hc as [p Hp]. apply (has_changes_covers _ p), Hcov. by right. }
  destruct (if first then _ else _); [|done]. destruct (mark_config_spec b1 true) as (H1 & H2 & H3). split_and!; [done|done|by intros].
Qed.
Lemma count_event_spec b : (batch_ok b -> batch_ok (count_event b)) /\ has_changes (count_event b) = has_changes b /\
  forall p, covers (count_event b) p <-> covers b p.
Proof. split_and!; [apply set_counts_ok|done|done]. Qed.

(** ** The loops *)
Section poll.
Context {W : Type} `{Watching W} (config : RefreshLoopConfig) (interval : option Z).
Implicit Types (r : Run W) (l : Loop) (b : WatchChangeBatch).

Definition stopped : Prop := exists w : W, should_stop w = true.

(** What the loop holds back: the batch whose refresh failed. *)
Definition pending l (p : string) : Prop := exists b, pending_failed l = Some b /\ covers b p.
(** [L]: the last look, which the loop keeps *)
Record loop_ok (L : option WatchFileSnapshot) l r : Prop := {
  lo_look : last_look (log r) = L;
  lo_refreshes : refreshes_ok (log r);
  lo_accounted : accounted (log r) (pending l);
  lo_pending b : pending_failed l = Some b -> batch_ok b /\ has_changes b = true /\ is_Some (next_retry l)
}.

Lemma refreshes_ok_look (l : list Note) s : refreshes_ok l -> refreshes_ok (l ++ [Looked s]).
Proof. intros Hl b ok Hb. apply (Hl b ok). set_solver. Qed.
Lemma refreshes_ok_refreshed (l : list Note) b ok : refreshes_ok l -> batch_ok b -> has_changes b = true -> refreshes_ok (l ++ [Refreshed b ok]).
Proof.
  intros Hl H1 H2 b' ok' [Hb|Hb]%elem_of_app; [by apply (Hl b' ok')|]. apply list_elem_of_singleton in Hb. by injection Hb as -> ->.
Qed.

Lemma look_spec r s r' : look r = (s, r') ->
  match s with Ok s => log r' = log r ++ [Looked s] | Err _ => log r' = log r end.
Proof. unfold look, ask. intros [= <- <-]. by destruct (watch_file_snapshot _). Qed.

(** Looking again keeps account of what has changed. *)
Lemma look_again r s s' (P : string -> Prop) b :
  last_look (log r) = Some s -> accounted (log r) (fun p => P p \/ covers b p) ->
  (watch_snapshot_diff s s' = ∅ -> accounted (log r ++ [Looked s']) (fun p => P p \/ covers b p)) /\
  (forall b', (forall p, covers b p \/ p ∈ watch_snapshot_diff s s' -> covers b' p) ->
     accounted (log r ++ [Looked s']) (fun p => P p \/ covers b' p)).
Proof.
  intros Hs Ha. split.
  - intros Hd. apply (accounted_look _ s s' _ _ Ha Hs). intros p [?|Hp]; [done|]. apply elem_of_watch_snapshot_diff in Hp. set_solver.
  - intros b' Hb. apply (accounted_look _ s s' _ _ Ha Hs). intros p Hp. rewrite <- elem_of_watch_snapshot_diff in Hp.
    specialize (Hb p). tauto.
Qed.

Definition collected (P : string -> Prop) (x : result string (option WatchChangeBatch)) (cur : WatchFileSnapshot) r : Prop :=
  last_look (log r) = Some cur /\ refreshes_ok (log r) /\
  match x with
  | Ok (Some b) => batch_ok b /\ has_changes b = true /\ accounted (log r) (fun p => P p \/ covers b p)
  | Ok None => stopped \/ accounted (log r) P
  | Err _ => True
  end.

Lemma debounce_spec P fuel started last_relevant prev b r x cur r' :
  debounce_loop config fuel started last_relevant prev b r = Some (x, cur, r') ->
  batch_ok b -> has_changes b = true -> refreshes_ok (log r) -> last_look (log r) = Some prev ->
  accounted (log r) (fun p => P p \/ covers b p) -> collected P x cur r'.
Proof.
  revert last_relevant prev b r. induction fuel as [|fuel IH]; intros last_relevant prev b r; [done|].
  cbn [debounce_loop]. unfold ask. intros Hrun Hb Hch Hrs Hl Ha.
  destruct (should_stop (world r)) eqn:Hstop.
  { injection Hrun as <- <- <-. split_and!; [done|done|]. left. by eexists. }
  destruct (max_wait config <=? _); [by injection Hrun as <- <- <-|].
  destruct (debounce config <=? _); [by injection Hrun as <- <- <-|]. cbv zeta in Hrun.
  match type of Hrun with context [look ?rr] => destruct (look rr) as [s r1] eqn:Hlook; apply look_spec in Hlook; cbn [log on_world] in Hlook end.
  destruct s as [s|e]; [|injection Hrun as <- <- <-; split_and!; [by rewrite Hlook|by rewrite Hlook|done]].
  destruct (look_again r prev s P b Hl Ha) as [Hsame Hnew].
  case_decide as Hd.
  - apply IH in Hrun; [done|done|done|rewrite Hlook; by apply refreshes_ok_look|by rewrite Hlook, last_look_app|rewrite Hlook; by apply Hsame].
  - destruct (take_changes_spec (watch_snapshot_diff prev s) false b Hb Hd) as (T1 & T2 & T3).
    destruct (count_event_spec (take_changes (watch_snapshot_diff prev s) false b)) as (N1 & N2 & N3).
    apply IH in Hrun; cbn [log on_world]; rewrite ?Hlook; [done|by apply N1|by rewrite N2|by apply refreshes_ok_look|by rewrite last_look_app|].
    apply Hnew. intros p Hp. by apply N3, T3.
Qed.

Lemma collect_spec P fuel deadline prev r x cur r' :
  collect_poll_batch_until config fuel deadline prev r = Some (x, cur, r') ->
  refreshes_ok (log r) -> last_look (log r) = Some prev -> accounted (log r) P -> collected P x cur r'.
Proof.
  revert prev r. induction fuel as [|fuel IH]; intros prev r; [done|].
  cbn [collect_poll_batch_until]. unfold ask. intros Hrun Hrs Hl Ha.
  destruct (should_stop (world r)) eqn:Hstop.
  { injection Hrun as <- <- <-. split_and!; [done|done|]. left. by eexists. }
  cbv zeta in Hrun.
  match type of Hrun with context [let '(sleep_for, r0) := ?e in _] => set (q := e) in Hrun end.
  assert (log q.2 = log r) as Hq by (unfold q; by destruct deadline). destruct q as [sleep_for r0]. simpl in Hq.
  set (r2 := if sleep_for =? 0 then r0 else _) in Hrun. assert (log r2 = log r) as Hr2 by (unfold r2; by destruct (_ =? _)).
  destruct (should_stop (world r2)) eqn:Hstop'.
  { injection Hrun as <- <- <-. cbn [log on_world]. rewrite <- Hr2 in *. split_and!; [done|done|]. left. by eexists. }
  match type of Hrun with context [look ?rr] => destruct (look rr) as [s r3] eqn:Hlook; apply look_spec in Hlook; cbn [log on_world] in Hlook end.
  rewrite Hr2 in Hlook.
  destruct s as [s|e]; [|injection Hrun as <- <- <-; split_and!; [by rewrite Hlook|by rewrite Hlook|done]].
  assert (accounted (log r) (fun p => P p \/ covers default_batch p)) as Ha' by (apply (accounted_weaken _ _ _ Ha); tauto).
  destruct (look_again r prev s P default_batch Hl Ha') as [Hsame Hnew]. rewrite <- Hlook in Hsame, Hnew.
  assert (refreshes_ok (log r3)) as Hrs3 by (rewrite Hlook; by apply refreshes_ok_look).
  assert (last_look (log r3) = Some s) as Hl3 by by rewrite Hlook, last_look_app.
  case_decide as Hd.
  - assert (accounted (log r3) P) as HP.
    { apply (accounted_weaken _ _ _ (Hsame Hd)). intros p [?|[?|Hp]]; [done|done|]. cbn in Hp. set_solver. }
    match type of Hrun with context [let '(over, r0) := ?e in _] => set (q := e) in Hrun end.
    assert (log q.2 = log r3) as Hq' by (unfold q; by destruct deadline). destruct q as [over r4]. simpl in Hq'. rewrite <- Hq' in *.
    destruct over; [|by apply IH in Hrun]. injection Hrun as <- <- <-. split_and!; [done|done|by right].
  - set (b0 := set_counts _ _ _ _ _) in Hrun. assert (batch_ok b0) as Hb0 by by apply set_counts_ok, default_batch_ok.
    destruct (take_changes_spec (watch_snapshot_diff prev s) true b0 Hb0 Hd) as (T1 & T2 & T3).
    apply (debounce_spec P) in Hrun; [done|done|done|done|done|]. cbn [log on_world]. apply Hnew. exact T3.
Qed.

(** *** A round *)
Definition flow_ok (L : option WatchFileSnapshot) (f : Flow) r : Prop :=
  match f with
  | Continue l => loop_ok L l r
  | Return (Ok _) => refreshes_ok (log r) /\ (stopped \/ accounted (log r) (fun _ => False))
  | Return (Err _) => refreshes_ok (log r)
  end.

Lemma is_due_log deadline r : log (is_due deadline r).2 = log r.
Proof. by destruct deadline. Qed.
Lemma after_interval_log d r : log (after_interval d r).2 = log r.
Proof. by destruct d. Qed.

(** The batch that is served: the collected one, with what was held back. *)
Definition joined l b : WatchChangeBatch := match pending_failed l with Some previous => merge previous b | None => b end.
Lemma joined_spec l b :
  (forall c, pending_failed l = Some c -> batch_ok c /\ has_changes c = true /\ is_Some (next_retry l)) ->
  batch_ok b -> has_changes b = true ->
  batch_ok (joined l b) /\ has_changes (joined l b) = true /\ forall p, pending l p \/ covers b p -> covers (joined l b) p.
Proof.
  intros Hp Hb Hch.
  unfold joined, pending. destruct (pending_failed l) as [c|] eqn:E.
  - destruct (Hp c eq_refl) as (Hc & Hcc & _). destruct (merge_spec c b Hc Hb) as (M1 & M2 & M3 & _). split_and!; [done| |].
    + unfold has_changes in Hcc. apply orb_true_iff in Hcc as [Hcc|Hcc].
      * unfold has_changes. by rewrite M3 by (by left).
      * apply negb_true_iff, bool_decide_eq_false in Hcc. apply set_choose_L in Hcc as [p Hp']. apply (has_changes_covers _ p), M2. left. by right.
    + intros p [(c' & [= <-] & Hcv)|Hcv]; apply M2; tauto.
  - split_and!; [done|done|]. intros p [(c' & ? & _)|Hcv]; [done|done].
Qed.

Lemma serve_spec L l b r f r' :
  serve config interval l b r = (f, r') ->
  refreshes_ok (log r) -> last_look (log r) = L ->
  (forall c, pending_failed l = Some c -> batch_ok c /\ has_changes c = true /\ is_Some (next_retry l)) ->
  batch_ok b -> has_changes b = true -> accounted (log r) (fun p => pending l p \/ covers b p) -> flow_ok L f r'.
Proof.
  intros Hrun Hrs Hl Hpend Hb Hch Ha. destruct (joined_spec l b Hpend Hb Hch) as (J1 & J2 & J3).
  unfold serve in Hrun. cbv zeta in Hrun. fold (joined l b) in Hrun. set (j := joined l b) in *.
  set (r1 := if (0 <? event_count j) || _ then _ else r) in Hrun. assert (log r1 = log r) as Hr1 by (unfold r1; by destruct (_ || _)).
  destruct (restart_on_config && configuration_changed j); [injection Hrun as <- <-; cbn [flow_ok]; by rewrite Hr1|].
  destruct (is_due (next_retry l) r1) as [retry_due r2] eqn:E2. pose proof (is_due_log (next_retry l) r1) as L2. rewrite E2 in L2. cbn [snd] in L2.
  destruct (is_due (next_reconciliation l) r2) as [rec_due r3] eqn:E3. pose proof (is_due_log (next_reconciliation l) r2) as L3. rewrite E3 in L3. cbn [snd] in L3.
  assert (log r3 = log r) as Hr3 by congruence. clear E2 E3 L2 L3.
  set (k := if retry_due || rec_due then mark_full_rescan j else j) in Hrun.
  assert (batch_ok k /\ has_changes k = true /\ forall p, covers j p -> covers k p) as (K1 & K2 & K3).
  { unfold k. destruct (retry_due || rec_due); [|done]. split_and!; [apply mark_full_rescan_ok|done|by left]. }
  assert (forall p, pending l p \/ covers b p -> covers k p) as Hk by (intros p Hp; by apply K3, J3).
  assert (forall q nr r0, log r0 = log r \/ log r0 = log r ++ [Refreshed k false] -> is_Some nr ->
    loop_ok L {| previous_snapshot := previous_snapshot l; refreshes := refreshes l; next_reconciliation := q; next_retry := nr;
               pending_failed := Some k |} r0) as Hkept.
  { intros q nr r0 Hlog Hnr. assert (forall p, pending l p \/ covers b p -> pending {| previous_snapshot := previous_snapshot l;
      refreshes := refreshes l; next_reconciliation := q; next_retry := nr; pending_failed := Some k |} p) as Hpd by (intros p Hp; exists k; auto).
    constructor; cbn [previous_snapshot pending_failed next_retry].
    - destruct Hlog as [->| ->]; [done|]. by rewrite last_look_app.
    - destruct Hlog as [->| ->]; [done|]. by apply refreshes_ok_refreshed.
    - destruct Hlog as [->| ->]; [by apply (accounted_weaken _ _ _ Ha)|]. apply (accounted_refreshed _ _ _ _ _ Ha). auto.
    - by intros c [= <-]. }
  destruct (_ && negb retry_due) eqn:Hwait.
  { injection Hrun as <- <-. apply Hkept; [by left|]. apply andb_true_iff in Hwait as [Hpf _].
    destruct (pending_failed l) as [c|]; [by apply (Hpend c)|done]. }
  destruct (refresh k (world r3)) as [[[]|e] w].
  - set (r4 := note (Refreshed k true) _) in Hrun. assert (log r4 = log r ++ [Refreshed k true]) as Hr4 by (unfold r4; simpl; by rewrite Hr3).
    match type of Hrun with context [let '(next_reconciliation, r0) := ?e in _] => set (q := e) in Hrun end.
    assert (log q.2 = log r4) as Hq by (unfold q; destruct (full_rescan k); [apply after_interval_log|done]). destruct q as [nrec r5]. cbn [snd] in Hq.
    rewrite Hr4 in Hq. clearbody r4.
    assert (forall P, accounted (log r5) P) as Hdone.
    { intros P. rewrite Hq. apply (accounted_refreshed _ _ _ _ _ Ha). intros p Hp. left. by split; [apply Hk|]. }
    assert (refreshes_ok (log r5)) as Hrs5 by (rewrite Hq; by apply refreshes_ok_refreshed).
    destruct (match max_iterations config with Some _ => _ | None => _ end); injection Hrun as <- <-.
    + split; [done|]. by right.
    + constructor; cbn [previous_snapshot pending_failed next_retry]; [by rewrite Hq, last_look_app|done|done|done].
  - injection Hrun as <- <-. apply Hkept; [|by eexists]. right. simpl. by rewrite Hr3.
  - injection Hrun as <- <-. cbn [flow_ok log]. by rewrite Hr3.
Qed.

Lemma serve_snapshot l b r l' r' : serve config interval l b r = (Continue l', r') -> previous_snapshot l' = previous_snapshot l.
Proof.
  unfold serve. cbv zeta. destruct (restart_on_config && _); [done|]. destruct (is_due _ _) as [d1 r1]. destruct (is_due _ r1) as [d2 r2].
  destruct (_ && negb d1); [by intros [= <- _]|]. destruct (refresh _ _) as [[[]|e] w]; [|by intros [= <- _]|done].
  destruct (if full_rescan _ then _ else _) as [q r3]. by destruct (match max_iterations config with Some _ => _ | None => _ end); [|intros [= <- _]].
Qed.

(** *** A round of polling *)
Definition poll_ok (f : Flow) r : Prop := flow_ok (match f with Continue l => Some (previous_snapshot l) | Return _ => None end) f r.
Lemma round_spec fuel l r f r' : poll_round config fuel interval l r = Some (f, r') -> poll_ok (Continue l) r -> poll_ok f r'.
Proof.
  intros Hrun [Hl Hrs Ha Hp]. unfold poll_round, ask in Hrun. destruct (should_stop (world r)) eqn:Hstop.
  { injection Hrun as <- <-. split; [done|]. left. by eexists. }
  destruct (collect_poll_batch_until _ _ _ _ _) as [[[x cur] r1]|] eqn:Hc; [|done].
  apply (collect_spec (pending l)) in Hc as (C1 & C2 & C3); [|done|done|done].
  destruct x as [x|e]; [|injection Hrun as <- <-; done].
  match type of Hrun with context [let '(stop, r0) := ?e in _] => set (q := e) in Hrun end.
  assert (log q.2 = log r1 /\ (q.1 = true -> stopped)) as [Hq Hst].
  { unfold q. destruct x; split; try done. simpl. intros Hs. by eexists. }
  destruct q as [stop r2]. simpl in Hq, Hst. destruct stop.
  { injection Hrun as <- <-. split; [by rewrite Hq|]. left. by apply Hst. }
  injection Hrun as Hrun. cbv zeta in Hrun. set (b0 := match x with Some b => b | None => _ end) in Hrun.
  assert (batch_ok b0 /\ has_changes b0 = true /\ accounted (log r1) (fun p => pending l p \/ covers b0 p)) as (B1 & B2 & B3).
  { unfold b0. destruct x as [b|]; [done|]. split_and!; [apply mark_full_rescan_ok|done|].
    intros p l2 _. right. right. by left. }
  set (b1 := if config_differs _ then _ else _) in Hrun.
  assert (batch_ok b1 /\ has_changes b1 = true /\ forall p, covers b0 p -> covers b1 p) as (D1 & D2 & D3).
  { unfold b1. destruct (config_differs _); [|done]. destruct (mark_config_spec b0 true) as (H1 & H2 & H3). by split_and!; [| |intros]. }
  pose proof Hrun as Hsnap. eapply (serve_spec (Some cur)) in Hrun; cbn [set_snapshot previous_snapshot pending_failed next_retry on_world log]; rewrite ?Hq; [|done..|].
  { destruct f as [l'|]; [|done]. apply serve_snapshot in Hsnap. unfold poll_ok. by rewrite Hsnap. }
  apply (accounted_weaken _ _ _ B3). intros p [?|Hcv]; [by left|right; by apply D3].
Qed.

Lemma rounds_spec fuel rounds l r f r' : poll_rounds config fuel rounds interval l r = (f, r') -> poll_ok (Continue l) r -> poll_ok f r'.
Proof.
  revert l r. induction rounds as [|n IH]; intros l r; [by intros [= <- <-]|]. cbn [poll_rounds]. intros Hrun Hl.
  destruct (poll_round config fuel interval l r) as [[f1 r1]|] eqn:E; [|by injection Hrun as <- <-].
  apply round_spec in E; [|done]. destruct f1 as [l1|x]; [by apply IH in Hrun|by injection Hrun as <- <-].
Qed.

Lemma start_spec r l r' : log r = [] -> start_loop interval r = (Ok l, r') -> poll_ok (Continue l) r'.
Proof.
  intros Hr Hrun. unfold start_loop in Hrun. destruct (look r) as [s r1] eqn:E. apply look_spec in E. destruct s as [s|e]; [|done].
  rewrite Hr in E. simpl in E. destruct (after_interval interval r1) as [q r2] eqn:E2. pose proof (after_interval_log interval r1) as L2.
  rewrite E2 in L2. simpl in L2. injection Hrun as <- <-. constructor; cbn [previous_snapshot pending_failed next_retry]; rewrite ?L2, ?E.
  - done.
  - intros b ok Hb. set_solver.
  - intros p l2 [(l1 & s1 & mid & s2 & El & _)|(l1 & ps & all & El & _)].
    + destruct l1 as [|? l1]; [|by destruct l1]. injection El as _ El. by destruct mid.
    + destruct l1 as [|? l1]; [done|by destruct l1].
  - done.
Qed.

(** C22: The poll loop loses no change.  After any number of rounds, whatever the clock, the
    files, the hooks and the refreshes do: what differed between two looks has been in a
    batch (or a full rescan) whose refresh succeeded since, or is in the batch that the loop
    keeps for a retry; and when the loop ends without having been told to, nothing is left. *)
Theorem no_change_lost fuel rounds r l r0 f r' :
  log r = [] -> start_loop interval r = (Ok l, r0) -> poll_rounds config fuel rounds interval l r0 = (f, r') ->
  match f with
  | Continue l' => accounted (log r') (pending l')
  | Return (Ok _) => (exists w, should_stop w = true) \/ accounted (log r') (fun _ => False)
  | Return (Err _) => True
  end.
Proof.
  intros Hr Hs Hrun. apply start_spec in Hs; [|done]. apply rounds_spec in Hrun; [|done].
  destruct f as [l'|[[]|e]]; [apply Hrun|apply Hrun|done].
Qed.

(** C24: Every batch that the loop hands to a refresh has something to do, and is within the
    limits: at most 4096 paths of at most one mebibyte together, or a full rescan. *)
Theorem refreshes_within_limits fuel r b ok :
  log r = [] -> Refreshed b ok ∈ log (run_poll_watch_until config fuel interval r).2 ->
  has_changes b = true /\ path_count (paths b) <= 4096 /\ total_bytes (paths b) <= 1048576 /\ path_bytes b = total_bytes (paths b) /\
  (full_rescan b = true -> paths b = ∅).
Proof.
  intros Hr. unfold run_poll_watch_until. destruct (start_loop interval r) as [[l|e] r1] eqn:Hs.
  - apply start_spec in Hs; [|done]. destruct (poll_rounds _ _ _ _ _ _) as [f r2] eqn:Hrun. apply rounds_spec in Hrun; [|done].
    assert (refreshes_ok (log r2)) as Hok by (destruct f as [l'|[]]; apply Hrun). intros Hb.
    assert (Refreshed b ok ∈ log r2) as Hb' by by destruct f.
    destruct (Hok b ok Hb') as [[B1 [B2 B3] B4] Hc]. unfold MAX_PENDING_PATHS, MAX_PENDING_PATH_BYTES in *. split_and!; [done|lia|lia|done|done].
  - unfold start_loop in Hs. destruct (look r) as [s r2] eqn:E. apply look_spec in E. destruct s as [s|e']; [by destruct (after_interval interval r2)|].
    injection Hs as <- <-. cbn [snd]. rewrite E, Hr. intros Hb. set_solver.
Qed.

(** ** Every round ends, and a retry is not put off *)
Class WatchingLaws := {
  pass_clock w : clock w <= clock (pass w);
  sleep_clock d w : 0 <= d -> clock w + d <= clock (sleep d w);
  before_refresh_clock b w : clock w <= clock (before_refresh b w)
}.
Context `{WatchingLaws} (Hpoll : 0 < poll_interval config).

Definition time r : Z := clock (world r).
Lemma time_ask r : time r <= time (on_world pass r).
Proof. apply pass_clock. Qed.
Lemma look_time r s r' : look r = (s, r') -> time r <= time r'.
Proof. unfold look, ask. intros [= <- <-]. pose proof (time_ask r). by destruct (watch_file_snapshot _). Qed.

(** Enough fuel for the rest of a batch that began at [started]. *)
Definition quiet_fuel (started now : Z) : nat := S (Z.to_nat (Z.max 0 (max_wait config - (now - started)))).

Lemma debounce_ends fuel started last_relevant prev b r :
  (quiet_fuel started (time r) <= fuel)%nat ->
  exists x cur r', debounce_loop config fuel started last_relevant prev b r = Some (x, cur, r') /\ time r <= time r'.
Proof.
  revert last_relevant prev b r. induction fuel as [|fuel IH]; intros last_relevant prev b r Hf; [unfold quiet_fuel in Hf; lia|].
  cbn [debounce_loop]. unfold ask. pose proof (time_ask r) as T1. set (r1 := on_world pass r) in *.
  destruct (should_stop (world r)); [by do 3 eexists|]. pose proof (time_ask r1) as T2. set (r2 := on_world pass r1) in *.
  change (clock (world r1)) with (time r1). destruct (Z.leb_spec (max_wait config) (duration_since (time r1) started)) as [|He]; [do 3 eexists; split; [done|lia]|].
  pose proof (time_ask r2) as T3. set (r3 := on_world pass r2) in *. change (clock (world r2)) with (time r2).
  destruct (Z.leb_spec (debounce config) (duration_since (time r2) last_relevant)) as [|Hq]; [do 3 eexists; split; [done|lia]|]. cbv zeta.
  set (timeout := Z.min _ _). assert (1 <= timeout) as Ht by (unfold timeout; lia).
  pose proof (sleep_clock timeout (world r3) ltac:(lia)) as T4. set (r4 := on_world (sleep timeout) r3) in *.
  change (clock (world r3)) with (time r3) in T4. change (clock (sleep timeout (world r3))) with (time r4) in T4.
  destruct (look r4) as [s r5] eqn:Hl. apply look_time in Hl. destruct s as [s|e]; [|do 3 eexists; split; [done|lia]].
  unfold quiet_fuel, duration_since in *.
  case_decide as Hd.
  - destruct (IH last_relevant s b r5) as (x & cur & r' & -> & T5); [lia|]. do 3 eexists. split; [done|lia].
  - pose proof (time_ask r5) as T6. set (r6 := on_world pass r5) in *.
    destruct (IH (clock (world r5)) s (count_event (take_changes (watch_snapshot_diff prev s) false b)) r6) as (x & cur & r' & -> & T5); [lia|].
    do 3 eexists. split; [done|lia].
Qed.

Definition collect_fuel (deadline now : Z) : nat := S (S (Z.to_nat (Z.max 0 (deadline - now)) + Z.to_nat (Z.max 0 (max_wait config)))).

Lemma collect_ends fuel deadline prev r :
  (collect_fuel deadline (time r) <= fuel)%nat ->
  exists x cur r', collect_poll_batch_until config fuel (Some deadline) prev r = Some (x, cur, r') /\ time r <= time r' /\
    (stopped \/ deadline <= time r' \/ time r + 1 <= time r').
Proof.
  revert prev r. induction fuel as [|fuel IH]; intros prev r Hf; [unfold collect_fuel in Hf; lia|].
  cbn [collect_poll_batch_until]. unfold ask. pose proof (time_ask r) as T1. set (r1 := on_world pass r) in *.
  destruct (should_stop (world r)) eqn:S1; [do 3 eexists; split_and!; [done|done|left; by eexists]|]. cbv zeta.
  pose proof (time_ask r1) as T2. set (r2 := on_world pass r1) in *. change (clock (world r1)) with (time r1).
  set (d := Z.min (duration_since deadline (time r1)) (poll_interval config)).
  set (r3 := if d =? 0 then r2 else on_world (sleep d) r2).
  assert (time r2 + d <= time r3) as T3.
  { unfold r3. destruct (Z.eqb_spec d 0) as [E|]; [rewrite E; lia|]. unfold time. simpl. apply sleep_clock. unfold d, duration_since. lia. }
  assert (0 <= d /\ (d = 0 -> deadline <= time r1)) as [D0 D1] by (unfold d, duration_since; lia).
  pose proof (time_ask r3) as T4. set (r4 := on_world pass r3) in *.
  destruct (should_stop (world r3)) eqn:S2; [do 3 eexists; split_and!; [done|lia|left; by eexists]|].
  destruct (look r4) as [s r5] eqn:Hl. apply look_time in Hl.
  destruct s as [s|e]; [|do 3 eexists; split_and!; [done|lia|lia]].
  case_decide as Hd.
  - pose proof (time_ask r5) as T5. set (r6 := on_world pass r5) in *. change (clock (world r5)) with (time r5).
    destruct (Z.leb_spec deadline (time r5)) as [|Hlate]; [do 3 eexists; split_and!; [done|lia|lia]|].
    destruct (IH s r6) as (x & cur & r' & -> & T6 & T7); [unfold collect_fuel in *; lia|]. do 3 eexists. split_and!; [done|lia|]. lia.
  - pose proof (time_ask r5) as T5. set (r6 := on_world pass r5) in *. change (clock (world r5)) with (time r5).
    destruct (debounce_ends fuel (time r5) (time r5) s (take_changes (watch_snapshot_diff prev s) true (set_counts 1 false 0 0 default_batch)) r6)
      as (x & cur & r' & -> & T6); [unfold quiet_fuel, collect_fuel in *; lia|].
    do 3 eexists. split_and!; [done|lia|]. lia.
Qed.

(** A round of the loop ends when it has a time to wake at, as it has whenever there is
    a reconciliation interval: it looks at most once for every nanosecond until then, and
    collects for at most [max_wait]. *)
Theorem poll_round_ends fuel l deadline r :
  wake_deadline l = Some deadline -> (collect_fuel deadline (clock (pass (world r))) <= fuel)%nat ->
  is_Some (poll_round config fuel interval l r).
Proof.
  intros Hw Hf. unfold poll_round, ask. destruct (should_stop (world r)); [by eexists|]. rewrite Hw.
  destruct (collect_ends fuel deadline (previous_snapshot l) (on_world pass r) Hf) as (x & cur & r' & -> & _).
  destruct x as [x|e]; [|by eexists]. cbv zeta. by destruct x as [b|]; [|destruct (should_stop (world r'))]; eexists.
Qed.

Lemma is_due_time deadline r : time r <= time (is_due deadline r).2 /\
  ((is_due deadline r).1 = false -> forall t, deadline = Some t -> time r < t).
Proof.
  destruct deadline as [t|]; [|by split]. unfold is_due, ask. pose proof (time_ask r). split; [done|]. intros E%Z.leb_gt t' [= <-]. exact E.
Qed.

(** A look has failed with [e]. *)
Definition look_fails (e : string) : Prop := exists w : W, watch_file_snapshot w = Err e.
(** What a collection leaves of the log, and what its error is. *)
Definition looked_since (before : list Note) (x : result string (option WatchChangeBatch)) r : Prop :=
  before `prefix_of` log r /\ match x with Err e => look_fails e | Ok _ => True end.

Lemma look_since r s r' : look r = (s, r') ->
  log r `prefix_of` log r' /\ match s with Err e => look_fails e | Ok _ => True end.
Proof.
  unfold look, ask. intros [= <- <-]. destruct (watch_file_snapshot (world r)) eqn:E; cbn [note on_world log].
  - split; [by apply prefix_app_r|done].
  - split; [done|by eexists].
Qed.

Lemma debounce_since fuel started last_relevant prev b r x cur r' :
  debounce_loop config fuel started last_relevant prev b r = Some (x, cur, r') -> looked_since (log r) x r'.
Proof.
  revert last_relevant prev b r. induction fuel as [|fuel IH]; intros last_relevant prev b r; [done|].
  cbn [debounce_loop]. unfold ask. intros Hrun.
  destruct (should_stop (world r)); [by injection Hrun as <- <- <-|].
  destruct (max_wait config <=? _); [by injection Hrun as <- <- <-|].
  destruct (debounce config <=? _); [by injection Hrun as <- <- <-|]. cbv zeta in Hrun.
  match type of Hrun with context [look ?rr] => destruct (look rr) as [s r1] eqn:Hlook; apply look_since in Hlook as [Hlog He] end.
  destruct s as [s|e]; [|by injection Hrun as <- <- <-].
  case_decide; apply IH in Hrun as [Hp Hx]; (split; [by etrans|done]).
Qed.

Lemma collect_since fuel deadline prev r x cur r' :
  collect_poll_batch_until config fuel deadline prev r = Some (x, cur, r') -> looked_since (log r) x r'.
Proof.
  revert prev r. induction fuel as [|fuel IH]; intros prev r; [done|].
  cbn [collect_poll_batch_until]. unfold ask. intros Hrun.
  destruct (should_stop (world r)); [by injection Hrun as <- <- <-|]. cbv zeta in Hrun.
  match type of Hrun with context [let '(sleep_for, r0) := ?e in _] => set (q := e) in Hrun end.
  assert (log q.2 = log r) as Hq by (unfold q; by destruct deadline). destruct q as [sleep_for r0]. simpl in Hq.
  set (r2 := if sleep_for =? 0 then r0 else _) in Hrun. assert (log r2 = log r) as Hr2 by (unfold r2; by destruct (_ =? _)).
  destruct (should_stop (world r2)); [injection Hrun as <- <- <-; split; [by rewrite <- Hr2|done]|].
  match type of Hrun with context [look ?rr] => destruct (look rr) as [s r3] eqn:Hlook; apply look_since in Hlook as [Hlog He] end.
  cbn [log on_world] in Hlog. rewrite Hr2 in Hlog.
  destruct s as [s|e]; [|by injection Hrun as <- <- <-].
  case_decide.
  - match type of Hrun with context [let '(over, r0) := ?e in _] => set (q := e) in Hrun end.
    assert (log q.2 = log r3) as Hq' by (unfold q; by destruct deadline). destruct q as [over r4]. simpl in Hq'.
    rewrite <- Hq' in Hlog. destruct over; [by injection Hrun as <- <- <-|].
    apply IH in Hrun as [Hp Hx]. split; [by etrans|done].
  - apply debounce_since in Hrun as [Hp Hx]. split; [by etrans|done].
Qed.

(** The rounds behind the log [before] have refreshed with a full rescan; or they ended
    with an error, which is one of a look or of such a refresh, or the one by which a
    watcher that restarts for its configuration asks to be built again. *)
Definition retried (before : list Note) (f : Flow) r : Prop :=
  match f with
  | Return (Err e) =>
      look_fails e
      \/ (restart_on_config = true /\ e = "refresh configuration changed; rebuilding watcher")
      \/ (exists b (w : W), full_rescan b = true /\ (refresh b w).1 = Err e)
  | _ => exists looks b ok, log r = before ++ looks ++ [Refreshed b ok] /\ full_rescan b = true
  end.
Lemma retried_since before before' f r : before `prefix_of` before' -> retried before' f r -> retried before f r.
Proof.
  intros [l ->]. assert ((exists looks b ok, log r = (before ++ l) ++ looks ++ [Refreshed b ok] /\ full_rescan b = true) ->
    exists looks b ok, log r = before ++ looks ++ [Refreshed b ok] /\ full_rescan b = true) as Hlonger.
  { intros (looks & b & ok & Hl & Hb). exists (l ++ looks), b, ok. by rewrite Hl, <- !app_assoc. }
  by destruct f as [l'|[]].
Qed.

(** A round that begins with a batch held back comes to its refresh, or waits for the same
    time, which is closer then. *)
(** What [serve] does when the retry is due. *)
Lemma retry_refreshes l b r before :
  log r = before ->
  let '(f, r') :=
    (let '(answer, w) := refresh (mark_full_rescan b) (world r) in
     let r := {| world := w; log := log r |} in
     match answer with
     | Err e => (Return (Err e), r)
     | Ok false =>
         let r := note (Refreshed (mark_full_rescan b) false) r in
         let '(delay, r) := ask retry_delay r in
         let '(now, r) := ask clock r in
         (Continue {| previous_snapshot := previous_snapshot l; refreshes := refreshes l;
                      next_reconciliation := next_reconciliation l; next_retry := Some (now + delay);
                      pending_failed := Some (mark_full_rescan b) |}, r)
     | Ok true =>
         let r := note (Refreshed (mark_full_rescan b) true) r in
         let '(next_reconciliation, r) :=
           if full_rescan (mark_full_rescan b) then after_interval interval r else (next_reconciliation l, r) in
         let refreshes := (refreshes l + 1) mod 2 ^ 64 in
         if match max_iterations config with Some max => max <=? refreshes | None => false end then (Return (Ok ()), r)
         else (Continue {| previous_snapshot := previous_snapshot l; refreshes := refreshes;
                           next_reconciliation := next_reconciliation; next_retry := None; pending_failed := None |}, r)
     end) in
  retried before f r'.
Proof.
  intros <-. destruct (refresh (mark_full_rescan b) (world r)) as [[[]|e] w] eqn:Hr; cbn [full_rescan mark_full_rescan].
  - match goal with |- context [after_interval interval ?rr] => set (r4 := rr) end.
    pose proof (after_interval_log interval r4) as L. destruct (after_interval interval r4) as [q r5]. cbn [snd] in L.
    destruct (match max_iterations config with Some _ => _ | None => _ end);
      exists [], (mark_full_rescan b), true; (split; [by rewrite L|done]).
  - by exists [], (mark_full_rescan b), false.
  - right. right. exists (mark_full_rescan b), (world r). by rewrite Hr.
Qed.

Lemma serve_pending l b c t r :
  pending_failed l = Some c -> next_retry l = Some t ->
  let '(f, r') := serve config interval l b r in
  retried (log r) f r' \/ exists l', f = Continue l' /\ is_Some (pending_failed l') /\ next_retry l' = Some t /\
    time r <= time r' /\ time r < t /\ log r `prefix_of` log r'.
Proof.
  intros Hp Ht. unfold serve. cbv zeta. rewrite Hp, Ht. set (j := merge c b). set (r1 := if _ || negb true then _ else r).
  assert (time r <= time r1) as T1 by (unfold r1; destruct (_ || _); [apply before_refresh_clock|done]).
  assert (log r1 = log r) as L1 by (unfold r1; by destruct (_ || _)).
  destruct (restart_on_config && configuration_changed j) eqn:Hrc; [apply andb_prop in Hrc as [Hrc _]; by left; right; left|].
  pose proof (is_due_time (Some t) r1) as [T2 D2]. pose proof (is_due_log (Some t) r1) as L2.
  destruct (is_due (Some t) r1) as [retry_due r2]. cbn [fst snd] in T2, D2, L2.
  pose proof (is_due_time (next_reconciliation l) r2) as [T3 _]. pose proof (is_due_log (next_reconciliation l) r2) as L3.
  destruct (is_due (next_reconciliation l) r2) as [rec_due r3]. cbn [fst snd] in T3, L3.
  assert (log r3 = log r) as L by congruence. destruct retry_due; cbn [andb negb orb].
  - pose proof (retry_refreshes l j r3 (log r) L) as Hq. revert Hq.
    match goal with |- (let '(f, r') := ?x in _) -> _ => destruct x as [f r'] end. by left.
  - right. eexists. split; [done|]. cbn [pending_failed next_retry]. specialize (D2 eq_refl t eq_refl).
    split_and!; [by eexists|done|lia|lia|by rewrite L].
Qed.

Lemma round_pending fuel l c t r :
  pending_failed l = Some c -> next_retry l = Some t -> (forall w : W, should_stop w = false) ->
  (collect_fuel t (time r) <= fuel)%nat ->
  exists f r', poll_round config fuel interval l r = Some (f, r') /\
    (retried (log r) f r' \/ exists l', f = Continue l' /\ is_Some (pending_failed l') /\ next_retry l' = Some t /\
       time r + 1 <= time r' /\ time r < t /\ log r `prefix_of` log r').
Proof.
  intros Hp Ht Hns Hf. unfold poll_round, ask, wake_deadline. rewrite !Hns, Hp, Ht. pose proof (time_ask r) as T1. set (r1 := on_world pass r) in *.
  destruct (collect_ends fuel t (previous_snapshot l) r1) as (x & cur & r2 & Hc & T2 & T3); [unfold collect_fuel in *; lia|].
  rewrite Hc. apply collect_since in Hc as [L2 He]. change (log r1) with (log r) in L2.
  assert (t <= time r2 \/ time r1 + 1 <= time r2) as T4 by (destruct T3 as [[w Hw]|T3]; [by rewrite Hns in Hw|done]).
  destruct x as [x|e]; [|do 2 eexists; split; [done|by left; left]]. cbv zeta.
  match goal with |- context [let '(stop, r0) := ?e in _] => set (q := e) end.
  assert (q.1 = false /\ time r2 <= time q.2 /\ log q.2 = log r2) as (Q1 & Q2 & Q3)
    by (unfold q; destruct x; split_and!; try done; [apply Hns|apply time_ask]).
  destruct q as [stop r3]. cbn [fst snd] in Q1, Q2, Q3. subst stop. pose proof (time_ask r3) as T5. set (r4 := on_world pass r3) in *.
  assert (log r `prefix_of` log r4) as L4 by by (change (log r4) with (log r3); rewrite Q3).
  match goal with |- context [serve config interval ?l0 ?b0 r4] => pose proof (serve_pending l0 b0 c t r4 Hp Ht) as Hserve; destruct (serve config interval l0 b0 r4) as [f r'] end.
  exists f, r'. split; [done|]. destruct Hserve as [Hs|(l' & H1 & H2 & H3 & H4 & H5 & H6)]; [left; by apply (retried_since _ _ _ _ L4)|].
  right. exists l'. split_and!; [done|done|done|lia|lia|by etrans].
Qed.

(** C23: A failed refresh is repeated: a loop that is never told to stop, holding a batch
    back until [t], refreshes with a full rescan after at most as many rounds as there are
    nanoseconds left, however often changes arrive in between.  Nothing but an error ends
    the loop before that refresh, and the error is that of a look, that of the refresh
    itself, or the one by which a watcher that restarts for its configuration asks to be
    built again. *)
Theorem retry_not_starved l r t :
  is_Some (pending_failed l) -> next_retry l = Some t -> (forall w : W, should_stop w = false) ->
  exists fuel rounds, (1 <= rounds <= S (Z.to_nat (Z.max 0 (t - clock (world r)))))%nat /\
    let '(f, r') := poll_rounds config fuel rounds interval l r in retried (log r) f r'.
Proof.
  intros Hp Ht Hns. exists (collect_fuel t (time r)). change (clock (world r)) with (time r).
  assert (forall n l r0, is_Some (pending_failed l) -> next_retry l = Some t -> (Z.to_nat (Z.max 0 (t - time r0)) <= n)%nat -> time r <= time r0 ->
    log r `prefix_of` log r0 ->
    exists rounds, (1 <= rounds <= S n)%nat /\ let '(f, r') := poll_rounds config (collect_fuel t (time r)) rounds interval l r0 in retried (log r) f r') as Hind.
  { clear l Hp Ht. intros n. induction n as [|n IH]; intros l r0 [c Hp] Ht Hn Hr Hl;
      destruct (round_pending (collect_fuel t (time r)) l c t r0 Hp Ht Hns) as (f & r' & E & [Hd|(l' & -> & H2 & H3 & H4 & H5 & H6)]);
      try (unfold collect_fuel; lia).
    - exists 1%nat. split; [lia|]. cbn [poll_rounds]. rewrite E. apply (retried_since _ _ _ _ Hl) in Hd. by destruct f.
    - exists 1%nat. split; [lia|]. cbn [poll_rounds]. rewrite E. apply (retried_since _ _ _ _ Hl) in Hd. by destruct f.
    - destruct (IH l' r' H2 H3) as (k & Hk & Hrun); [lia|lia|by etrans|]. exists (S k). split; [lia|]. cbn [poll_rounds]. by rewrite E. }
  by apply (Hind _ l r Hp Ht (le_n _) (Z.le_refl _)).
Qed.
End poll.

(** ** A loop of three refreshes, the first of which fails *)
Module Sample.
Record World := { now : Z; answers : list bool }.
Definition file (n : Z) : WatchFileState := {| modified_nanos := n; file_len := 10 |}.
(** One file changes at 250, and another appears. *)
Definition files (t : Z) : WatchFileSnapshot :=
  if t <? 250 then {[ "a.rs" := file 1 ]} else {[ "a.rs" := file 2; "b.rs" := file 3 ]}.
#[local] Instance watching : Watching World := {
  clock := now;
  sleep d w := {| now := now w + Z.max 0 d; answers := answers w |};
  pass w := {| now := now w + 1; answers := answers w |};
  watch_file_snapshot w := Ok (files (now w));
  config_differs _ := false;
  should_stop _ := false;
  restart_on_config := true;
  before_refresh _ w := w;
  retry_delay _ := 1000;
  refresh b w := (Ok (hd true (answers w)), {| now := now w + 30; answers := tail (answers w) |})
}.
#[local] Instance watching_laws : WatchingLaws.
Proof. constructor; intros; simpl; lia. Qed.
Definition config : RefreshLoopConfig := {| poll_interval := 100; debounce := 50; max_wait := 400; max_iterations := Some 2 |}.
Definition first_run : Run World := {| world := {| now := 0; answers := [false] |}; log := [] |}.
Definition reconcile : option Z := Some 5000.
Definition first_loop : Loop :=
  {| previous_snapshot := files 0; refreshes := 0; next_reconciliation := Some 5001; next_retry := None; pending_failed := None |}.
Definition started : Run World := (start_loop reconcile first_run).2.
Definition after_failure : Flow * Run World := poll_rounds config 40 1 reconcile first_loop started.

Lemma first_start : start_loop reconcile first_run = (Ok first_loop, started).
Proof. vm_compute. reflexivity. Qed.
Definition failed_batch : WatchChangeBatch := set_paths {["a.rs"; "b.rs"]} 8 (set_counts 1 false 0 0 default_batch).

Lemma no_change_lost_witness :
  match after_failure with
  | (Continue l, r) => pending_failed l = Some failed_batch /\ accounted (log r) (pending l)
  | (Return _, _) => False
  end.
Proof.
  pose proof (no_change_lost config reconcile 40 1 first_run first_loop started after_failure.1 after_failure.2 eq_refl first_start eq_refl) as H.
  assert (exists l r, after_failure = (Continue l, r) /\ pending_failed l = Some failed_batch) as (l & r & E & Hp).
  { do 2 eexists. split; vm_compute; reflexivity. }
  rewrite E in *. split; [exact Hp|exact H].
Defined.

Lemma refreshes_within_limits_witness :
  Refreshed failed_batch false ∈ log (run_poll_watch_until config 40 reconcile first_run).2 /\
  path_count (paths failed_batch) <= 4096 /\ path_bytes failed_batch = total_bytes (paths failed_batch).
Proof.
  assert (exists l1 l2, log (run_poll_watch_until config 40 reconcile first_run).2 = l1 ++ Refreshed failed_batch false :: l2) as (l1 & l2 & E).
  { exists (take 5 (log (run_poll_watch_until config 40 reconcile first_run).2)), (drop 6 (log (run_poll_watch_until config 40 reconcile first_run).2)).
    vm_compute. reflexivity. }
  assert (Refreshed failed_batch false ∈ log (run_poll_watch_until config 40 reconcile first_run).2) as Hin by (rewrite E; apply elem_of_app; right; apply list_elem_of_here).
  destruct (refreshes_within_limits config reconcile 40 first_run failed_batch false eq_refl Hin) as (_ & H1 & _ & H2 & _).
  split; [exact Hin|]. split; [exact H1|exact H2].
Defined.

Lemma poll_round_ends_witness :
  wake_deadline first_loop = Some 5001 /\ is_Some (poll_round config 6000 reconcile first_loop started).
Proof.
  split; [reflexivity|]. apply (poll_round_ends config reconcile) with (deadline := 5001); [reflexivity|reflexivity|].
  apply Nat.leb_le. vm_compute. reflexivity.
Defined.

Definition failed_loop : Loop :=
  match after_failure.1 with Continue l => l | Return _ => first_loop end.
Lemma retry_not_starved_witness :
  pending_failed failed_loop = Some failed_batch /\
  exists fuel rounds, (1 <= rounds)%nat /\
    let '(f, r') := poll_rounds config fuel rounds reconcile failed_loop after_failure.2 in
    retried (log after_failure.2) f r'.
Proof.
  assert (pending_failed failed_loop = Some failed_batch) as Hp by (vm_compute; reflexivity).
  assert (exists t, next_retry failed_loop = Some t) as [t Ht] by (eexists; vm_compute; reflexivity).
  split; [exact Hp|].
  destruct (retry_not_starved config reconcile eq_refl failed_loop after_failure.2 t) as (fuel & rounds & H1 & H2).
  - rewrite Hp. eexists. reflexivity.
  - exact Ht.
  - intros w. reflexivity.
  - exists fuel, rounds. split; [apply H1|exact H2].
Defined.
End Sample.
