(* ===== verification/Native.v ===== *)
(** * Watching the sources through the operating system (src/api/refresh.rs)

    What the watcher tells (an [Event] of the notify crate) is filtered by the selection of
    the sources and by what must not trigger a refresh, collected into the batches of
    [Watch], and served by the same loop.  The channel that the events come through holds
    one message; what does not fit sets a flag, which turns a batch into a full rescan.
    Nothing that is taken out of the channel is lost. *)
From S2P Require Import Prelude Order Text Json Protocol SourceSelection Markdown Profiles Diff Scan Watch WatchClaims.
#[local] Open Scope rust_scope.
#[local] Open Scope Z_scope.

(** ** Events of the notify crate, as far as the code tells them apart *)
Inductive EventKind :=
| Any | Access (close_write : bool) | Create | Modify (name : bool) | Remove | Other.
Record Event := { kind : EventKind; event_paths : list string; need_rescan : bool }.
Inductive WatchMessage := EventMessage (e : Event) | ErrorMessage (error : string).

Definition watch_event_refreshes (event : Event) : bool :=
  match kind event with
  | Any | Create | Modify _ | Remove | Other | Access true => true
  | Access false => false
  end.

(** ** Paths: [Path::is_absolute], [Path::join], [Path::starts_with], [Path::strip_prefix] *)
Definition is_absolute (path : string) : bool := starts_with path "/".
Definition join_path (base path : string) : string :=
  if is_absolute path then path else path_join base path.
Definition path_starts_with (path base : string) : bool :=
  match strip_components (components base) (components path) with Some _ => true | None => false end.
Definition strip_prefix_path (path base : string) : option string :=
  match strip_components (components base) (components path) with
  | Some ("/" :: rest) => Some ("/" +:+ join "/" rest)
  | Some rest => Some (join "/" rest)
  | None => None
  end.

(** ** The filter *)
Record WatchEventFilter := {
  source_root : string;
  current_dir : string;
  config_path : string;
  selection : SourceSelection;
  profiles : ProfileSet;
  protected_roots : list string;
  config_signatures : option string * option string;
  ignore_signature : option string
}.

Section filter.
Context `{Unicode} (f : WatchEventFilter).

Definition absolute_path (path : string) : string := if is_absolute path then path else join_path (current_dir f) path.
Definition is_configuration_path (path : string) : bool :=
  let absolute := absolute_path path in
  same_path absolute (config_path f) || same_path absolute (join_path (source_root f) ".codebaseGraphignore").
Definition is_protected_path (path : string) : bool :=
  existsb (path_starts_with (absolute_path path)) (protected_roots f).
Definition relative_event_path (path : string) : option string :=
  match strip_prefix_path path (source_root f) with
  | Some relative => Some relative
  | None =>
      if negb (is_absolute path) then
        match strip_prefix_path (join_path (current_dir f) path) (source_root f) with
        | Some relative => Some relative
        | None => Some path
        end
      else None
  end.
Definition relevant_path (path : string) : option string :=
  if is_configuration_path path then replace_char backslash slash <$> relative_event_path path
  else if is_protected_path path then None
  else
    match relative_event_path path with
    | None => None
    | Some relative =>
        if is_empty relative then None
        else
          let relative := replace_char backslash slash relative in
          if negb (includes_file (selection f) relative) || bool_decide (language_for_path (profiles f) relative = None) then None
          else Some relative
    end.
Definition relevant_paths (event : Event) : gset string :=
  if negb (watch_event_refreshes event) then ∅ else list_to_set (omap relevant_path (event_paths event)).

(** [is_dir] is [Path::is_dir]. *)
Definition directory_change_path (is_dir : string -> bool) (path : string) : bool :=
  if is_configuration_path path || is_protected_path path then false
  else
    match relative_event_path path with
    | None => false
    | Some relative =>
        if is_empty relative || negb (should_descend (selection f) relative) then false
        else is_dir path || bool_decide (path_extension path = None)
    end.
Definition directory_rescan_path_count (is_dir : string -> bool) (event : Event) : Z :=
  match kind event with
  | Remove | Modify true => Z.of_nat (length (List.filter (directory_change_path is_dir) (event_paths event)))
  | _ => 0
  end.

(** [apply_watch_message], when the message is an event *)
Definition apply_event (is_dir : string -> bool) (event : Event) (batch : WatchChangeBatch) : WatchChangeBatch :=
  let configuration_changed := existsb is_configuration_path (event_paths event) in
  let configured (b : WatchChangeBatch) := Watch.configuration_changed b || configuration_changed in
  if need_rescan event then
    mark_full_rescan (set_counts (saturating_add_u64 (event_count batch) 1) (configured batch) (overflow_count batch)
      (filtered_event_count batch) batch)
  else
    let candidate_count := Z.of_nat (length (event_paths event)) in
    let directory_rescan_count := directory_rescan_path_count is_dir event in
    let paths := relevant_paths event in
    let filtered := saturating_sub_u64 (saturating_sub_u64 candidate_count (Z.of_nat (size paths))) directory_rescan_count in
    let batch := set_counts (event_count batch) (Watch.configuration_changed batch) (overflow_count batch)
      (saturating_add_u64 (filtered_event_count batch) filtered) batch in
    let has_paths := negb (bool_decide (paths = ∅)) in
    let batch := if has_paths then extend_paths (btree_elements paths) batch else batch in
    let batch := if 0 <? directory_rescan_count then mark_full_rescan batch else batch in
    let batch := set_counts (event_count batch) (configured batch) (overflow_count batch) (filtered_event_count batch) batch in
    let batch := if configuration_changed then mark_full_rescan batch else batch in
    if has_paths || (0 <? directory_rescan_count) then count_event batch else batch.
Definition apply_watch_message (is_dir : string -> bool) (message : WatchMessage) (batch : WatchChangeBatch)
    : result string WatchChangeBatch :=
  match message with
  | EventMessage event => Ok (apply_event is_dir event batch)
  | ErrorMessage error => Err ("filesystem watcher error: " +:+ error)
  end.

(** ** The callback of the watcher ([start_native_watcher]) *)
Definition watch_path_is_under_dir (path directory : string) : bool :=
  path_starts_with path directory
  || (negb (is_absolute path)
      && (path_starts_with (join_path (current_dir f) path) directory || path_starts_with (join_path (source_root f) path) directory)).
Definition probe_dir : string := join_path (join_path (source_root f) ".codebaseGraph") "watch-probe".
Definition is_probe_event (event : Event) : bool := existsb (fun path => watch_path_is_under_dir path probe_dir) (event_paths event).
Definition is_relevant_event (is_dir : string -> bool) (event : Event) : bool :=
  need_rescan event || is_probe_event event
  || (watch_event_refreshes event
      && existsb (fun path => negb (bool_decide (relevant_path path = None)) || directory_change_path is_dir path) (event_paths event)).
(** Whether the status is told of a change, and the message that is sent. *)
Definition watch_callback (is_dir : string -> bool) (notified : result string Event) : bool * option WatchMessage :=
  match notified with
  | Err error => (false, Some (ErrorMessage error))
  | Ok event => if is_relevant_event is_dir event then (negb (is_probe_event event), Some (EventMessage event)) else (false, None)
  end.
End filter.

(** ** The channel *)
Inductive Received := Message (message : WatchMessage) | Timeout | Disconnected.
Class NativeWatching (W : Type) := {
  (** [Receiver::recv_timeout], and [swap(false)] of the flag *)
  recv_timeout : Z -> W -> Received * W;
  take_overflow : W -> bool * W;
  is_dir : W -> string -> bool
}.

Section native.
Context {W : Type} `{Watching W} `{NativeWatching W} `{Unicode} (filter : WatchEventFilter) (config : RefreshLoopConfig).

Definition receive (timeout : Z) (r : Run W) : Received * Run W :=
  let '(m, w) := recv_timeout timeout (world r) in (m, {| world := w; log := log r |}).
Definition check_overflow (batch : WatchChangeBatch) (r : Run W) : WatchChangeBatch * Run W :=
  let '(overflowed, w) := take_overflow (world r) in
  let r := {| world := w; log := log r |} in
  if (overflowed : bool) then (mark_overflow batch, note (Heard ∅ true) r) else (batch, r).
(** A message is heard when it is applied. *)
Definition heard_of (is_dir : string -> bool) (message : WatchMessage) : list Note :=
  match message with
  | EventMessage event =>
      [Heard (relevant_paths filter event)
         (need_rescan event || existsb (is_configuration_path filter) (event_paths event)
          || (0 <? directory_rescan_path_count filter is_dir event))]
  | ErrorMessage _ => []
  end.
Definition hear (message : WatchMessage) (batch : WatchChangeBatch) (r : Run W) : result string WatchChangeBatch * Run W :=
  let '(dirs, r) := ask is_dir r in
  (apply_watch_message filter dirs message batch, {| world := world r; log := log r ++ heard_of dirs message |}).

(** The loop of [collect_watch_batch]. *)
Fixpoint collect_more (fuel : nat) (started last_relevant : Z) (batch : WatchChangeBatch) (queued : list WatchMessage) (r : Run W)
    : option (result string (option WatchChangeBatch) * list WatchMessage * Run W) :=
  match fuel with
  | O => None
  | S fuel =>
      let finish r := let '(batch, r) := check_overflow batch r in Some (Ok (Some batch), queued, r) in
      let '(now, r) := ask clock r in
      let elapsed := duration_since now started in
      if max_wait config <=? elapsed then finish r
      else
        let '(now, r) := ask clock r in
        let quiet_elapsed := duration_since now last_relevant in
        if debounce config <=? quiet_elapsed then finish r
        else
          let timeout := Z.min (Z.max 0 (debounce config - quiet_elapsed)) (Z.max 0 (max_wait config - elapsed)) in
          let apply message queued r :=
            let '(applied, r) := hear message batch r in
            match applied with
            | Err e => Some (Err e, queued, r)
            | Ok batch' =>
                let '(last_relevant, r) :=
                  if negb (size (paths batch') =? size (paths batch))%nat || negb (event_count batch' =? event_count batch)
                  then ask clock r else (last_relevant, r) in
                collect_more fuel started last_relevant batch' queued r
            end in
          match queued with
          | message :: queued => apply message queued r
          | [] =>
              match receive timeout r with
              | (Message message, r) => apply message [] r
              | (Timeout, r) => finish r
              | (Disconnected, r) => Some (Err "filesystem watcher stopped", queued, r)
              end
          end
  end.
Definition collect_watch_batch (fuel : nat) (first : WatchMessage) (queued : list WatchMessage) (r : Run W)
    : option (result string (option WatchChangeBatch) * list WatchMessage * Run W) :=
  let '(applied, r) := hear first default_batch r in
  match applied with
  | Err e => Some (Err e, queued, r)
  | Ok batch =>
      let '(batch, r) := check_overflow batch r in
      if negb (has_changes batch) then Some (Ok None, queued, r)
      else let '(started, r) := ask clock r in collect_more fuel started started batch queued r
  end.

(** ** The loop *)
Definition RECEIVE_TIMEOUT : Z := 250000000.
Definition wake_message : WatchMessage := EventMessage {| kind := Other; event_paths := []; need_rescan := false |}.

(** What a message leads to; [None]: out of fuel. *)
Definition serve_message (fuel : nat) (reconcile_interval : option Z) (l : Loop) (first : WatchMessage) (queued : list WatchMessage)
    (r : Run W) : option (Flow * list WatchMessage * Run W) :=
  match collect_watch_batch fuel first queued r with
  | None => None
  | Some (Err e, queued, r) => Some (Return (Err e), queued, r)
  | Some (Ok batch, queued, r) =>
      let '(batch, r) :=
        match batch with
        | Some batch => (Some batch, r)
        | None =>
            let '(due, r) := is_due (wake_deadline l) r in
            (if (due : bool) then Some (mark_full_rescan default_batch) else None, r)
        end in
      match batch with
      | None => Some (Continue l, queued, r)
      | Some batch =>
          let '(configuration_changed, r) := ask config_differs r in
          let batch :=
            if (configuration_changed : bool)
            then mark_full_rescan (set_counts (event_count batch) true (overflow_count batch) (filtered_event_count batch) batch)
            else batch in
          let '(flow, r) := serve config reconcile_interval l batch r in
          Some (flow, queued, r)
      end
  end.

(** One round of the loop of [run_native_watch_until]. *)
Definition native_round (fuel : nat) (reconcile_interval : option Z) (l : Loop) (queued : list WatchMessage) (r : Run W)
    : option (Flow * list WatchMessage * Run W) :=
  let '(stop, r) := ask should_stop r in
  if (stop : bool) then Some (Return (Ok ()), queued, r)
  else
    match queued with
    | first :: queued => serve_message fuel reconcile_interval l first queued r
    | [] =>
        let '(timeout, r) :=
          match wake_deadline l with
          | Some deadline => let '(now, r) := ask clock r in (Z.min (duration_since deadline now) RECEIVE_TIMEOUT, r)
          | None => (RECEIVE_TIMEOUT, r)
          end in
        match receive timeout r with
        | (Message first, r) => serve_message fuel reconcile_interval l first [] r
        | (Timeout, r) =>
            let '(stop, r) := ask should_stop r in
            if (stop : bool) then Some (Return (Ok ()), [], r)
            else
              let '(due, r) := is_due (wake_deadline l) r in
              if (due : bool) then serve_message fuel reconcile_interval l wake_message [] r else Some (Continue l, [], r)
        | (Disconnected, r) => Some (Return (Err "filesystem watcher stopped"), [], r)
        end
    end.

Fixpoint native_rounds (fuel rounds : nat) (reconcile_interval : option Z) (l : Loop) (queued : list WatchMessage) (r : Run W)
    : Flow * list WatchMessage * Run W :=
  match rounds with
  | O => (Continue l, queued, r)
  | S rounds =>
      match native_round fuel reconcile_interval l queued r with
      | None => (Continue l, queued, r)
      | Some (Continue l, queued, r) => native_rounds fuel rounds reconcile_interval l queued r
      | Some x => x
      end
  end.
(** This loop compares no snapshots. *)
Definition start_native (reconcile_interval : option Z) (r : Run W) : Loop * Run W :=
  let '(next_reconciliation, r) := after_interval reconcile_interval r in
  ({| previous_snapshot := ∅; refreshes := 0; next_reconciliation := next_reconciliation; next_retry := None; pending_failed := None |}, r).
(** [None]: it is still running. *)
Definition run_native_watch_until (fuel : nat) (reconcile_interval : option Z) (queued : list WatchMessage) (r : Run W)
    : option (result string ()) * Run W :=
  let '(l, r) := start_native reconcile_interval r in
  match native_rounds fuel fuel reconcile_interval l queued r with
  | (Return x, _, r) => (Some x, r)
  | (Continue _, _, r) => (None, r)
  end.
End native.

(** ** The watcher and the scan agree *)
(** The components that name something. *)
Definition names (p : string) : list string := List.filter (fun c => negb (is_one_of c [""; "."])) (split "/" p).
Lemma split_plain c p : contains_char p c = false -> split c p = [p].
Proof.
  induction p as [|a p IH]; [done|]. cbn [contains_char split]. intros [Ha Hp]%orb_false_iff. rewrite Ha. by rewrite IH.
Qed.
Lemma split_join c l : l <> [] -> Forall (fun p => contains_char p c = false) l -> split c (join (String c "") l) = l.
Proof.
  induction l as [|x [|y l] IH]; intros Hne Hl; [done|apply Forall_cons in Hl as [Hx _]; by apply split_plain|].
  apply Forall_cons in Hl as [Hx Hl]. change (join (String c "") (x :: y :: l)) with (x +:+ String c (join (String c "") (y :: l))).
  rewrite split_app, (split_plain c x) by done. rewrite IH by done. done.
Qed.
Lemma names_named p : Forall (fun c => contains_char c "/" = false /\ is_one_of c [""; "."] = false) (names p).
Proof.
  apply Forall_forall. intros c [Hc Hn]%list_elem_of_In%List.filter_In. apply list_elem_of_In in Hc.
  split; [by apply (split_pieces _ p)|by apply negb_true_iff].
Qed.
Lemma names_join l : l <> [] -> Forall (fun c => contains_char c "/" = false /\ is_one_of c [""; "."] = false) l -> names (join "/" l) = l.
Proof.
  intros Hne Hl. unfold names. rewrite split_join; [|done|by apply (Forall_impl _ _ _ Hl); intros c []].
  induction Hl as [|c l [_ Hc] Hl IH]; [done|]. cbn [List.filter]. rewrite Hc. cbn [negb]. f_equal. destruct l; [done|by apply IH].
Qed.
Lemma components_absolute p : is_absolute p = true -> components p = "/" :: names p.
Proof.
  destruct p as [|a p]; [done|]. unfold is_absolute, starts_with. cbn [strip_prefix]. destruct (Ascii.eqb_spec "/" a) as [<-|]; [intros _|done].
  unfold components, names. cbn [split]. destruct (split "/" p) eqn:E; [by apply split_nonempty in E|done].
Qed.
Lemma strip_components_Some base p rest : strip_components base p = Some rest <-> p = base ++ rest.
Proof.
  revert p. induction base as [|b base IH]; intros p; cbn [strip_components app]; [naive_solver|].
  destruct p as [|c p]; [done|]. destruct (String.eqb_spec b c) as [->|Hbc]; [rewrite IH; naive_solver|naive_solver].
Qed.
Lemma path_extension_names p q : last (names p) = last (names q) -> path_extension p = path_extension q.
Proof. unfold path_extension, path_file_name. fold (names p) (names q). by intros ->. Qed.
Lemma replace_char_none a b s : contains_char s a = false -> replace_char a b s = s.
Proof.
  unfold replace_char. induction s as [|c s IH]; [done|]. cbn [contains_char smap]. intros [Hc Hs]%orb_false_iff. rewrite Hc. f_equal. by apply IH.
Qed.
Lemma join_names_without c p l : (forall n, n ∈ l -> n ∈ names p) -> c <> "/"%char -> contains_char p c = false -> contains_char (join "/" l) c = false.
Proof.
  intros Hl Hc Hp. assert (forall n, n ∈ l -> contains_char n c = false) as Hn.
  { intros n [Hn _]%Hl%list_elem_of_In%List.filter_In. apply list_elem_of_In in Hn. destruct (contains_char n c) eqn:E; [|done].
    rewrite <- Hp, <- (join_split "/" p). symmetry. by apply (contains_char_join _ n). }
  clear Hl Hp. induction l as [|x [|y l] IH]; [done|apply Hn; set_solver|].
  change (join "/" (x :: y :: l)) with (x +:+ String "/" (join "/" (y :: l))). rewrite contains_char_app. cbn [contains_char].
  rewrite Hn by set_solver. rewrite IH by set_solver. rewrite orb_false_r. cbn [orb]. by apply Ascii.eqb_neq.
Qed.

(** An absolute path below the root, without a backslash, that is neither the configuration
    nor protected. *)
Definition ordinary (f : WatchEventFilter) (path : string) : Prop :=
  is_absolute path = true /\ contains_char path backslash = false /\ same_path path (source_root f) = false /\
  is_configuration_path f path = false /\ is_protected_path f path = false.

(** The filter of the watcher and the test of the scan, of an ordinary file. *)
Lemma relevant_path_selects `{Unicode} f path rel :
  is_absolute (source_root f) = true -> ordinary f path ->
  relevant_path f path = Some rel <->
  selects (selection f) (profiles f) (source_root f) {| we_path := path; we_is_dir := false; we_is_file := true |} rel.
Proof.
  intros Hroot (Hpath & Hbs & Hsame & Hconf & Hprot). unfold relevant_path, selects, relative_event_path, strip_prefix_path, relative_path. cbn [we_path we_is_file].
  rewrite Hconf, Hprot, Hpath, Hsame. cbn [negb]. destruct (strip_components _ _) as [rest|] eqn:E; [|naive_solver].
  apply strip_components_Some in E. rewrite !components_absolute in E by done. injection E as E.
  assert (rest <> []) as Hne.
  { intros ->. rewrite app_nil_r in E. unfold same_path in Hsame. rewrite !components_absolute, E in Hsame by done. by rewrite bool_decide_true in Hsame. }
  assert (Forall (fun c => contains_char c "/" = false /\ is_one_of c [""; "."] = false) rest) as Hrest.
  { pose proof (names_named path) as Hn. rewrite E in Hn. by apply Forall_app in Hn as [_ Hn]. }
  assert (match rest with "/" :: rest => Some ("/" +:+ join "/" rest) | _ => Some (join "/" rest) end = Some (join "/" rest)) as ->.
  { destruct rest as [|x rest]; [done|]. apply Forall_cons in Hrest as [[Hx _] _]. destruct (String.eqb_spec x "/") as [->|Hd]; [done|].
    repeat (match goal with |- context [match ?x with EmptyString => _ | String _ _ => _ end] => destruct x | |- context [match ?a with Ascii _ _ _ _ _ _ _ _ => _ end] => destruct a | |- context [if ?b then _ else _] => destruct b end; try done). }
  rewrite (replace_char_none backslash) by (apply (join_names_without _ path); [rewrite E; set_solver|done|done]).
  assert (is_empty (join "/" rest) = false) as ->.
  { destruct rest as [|x rest]; [done|]. apply Forall_cons in Hrest as [[_ Hx] _]. destruct x as [|a x]; [done|]. by destruct rest. }
  assert (language_for_path (profiles f) (join "/" rest) = language_for_path (profiles f) path) as ->.
  { unfold language_for_path. rewrite (path_extension_names (join "/" rest) path); [done|]. rewrite names_join, E, last_app by done.
    destruct (last rest) eqn:El; [done|]. by apply last_None in El. }
  destruct (includes_file (selection f) (join "/" rest)) eqn:Hi; cbn [negb orb]; [|by split; [|intros (_ & _ & [= <-] & Hi' & _); rewrite Hi in Hi']]. case_bool_decide as Hl.
  - rewrite Hl. split; [done|]. intros (_ & _ & _ & _ & [? ?]). done.
  - split; [intros [= <-]; split_and!; try done; by apply not_eq_None_Some|by intros (_ & _ & [= <-] & _)].
Qed.

(** C26: What the watcher finds relevant is what a scan of the same request keeps.  Over a
    tree with ordinary names, and with no include pattern that becomes a comment when its
    leading "./" is dropped, let the walk of a scan succeed.  A file of the tree whose
    change the filter reports, under a relative path, has been found by the scan under
    that path; and a file found by the scan is reported under the path it was found
    under.  The files are ordinary ones: their paths are absolute and have no backslash,
    and they are neither the configuration nor below a protected directory. *)
Theorem watcher_agrees_with_scan `{FileSystem, Unicode} f r all st :
  selection f = request_selection r -> profiles f = Profiles.new (Protocol.profiles r) ->
  source_root f = Protocol.source_root r -> is_absolute (source_root f) = true ->
  walk_lawful (source_root f) all -> plain_tree (source_root f) all ->
  Forall (fun p => starts_with (normalize_relative_pattern p) "#" = true -> starts_with (trim p) "#" = true)
    (request_include_patterns r) ->
  scan_walk r = Ok st ->
  (forall e rel, e ∈ all -> we_is_file e = true -> ordinary f (we_path e) ->
     relevant_path f (we_path e) = Some rel -> is_Some (supported (scan_maps st) !! rel)) /\
  (forall rel s, supported (scan_maps st) !! rel = Some s -> ordinary f (Protocol.absolute_path s) ->
     relevant_path f (Protocol.absolute_path s) = Some rel).
Proof.
  intros Hsel Hps Hr Hroot Hw Ht Hinc Hst. rewrite Hr in Hw, Ht. split.
  - intros e rel Hin Hfile Ho Hrel. apply (relevant_path_selects f) in Hrel; [|done|done].
    rewrite Hsel, Hps, Hr in Hrel. apply (scan_finds_selected_files r all st Hw Ht Hinc Hst). exists e. split; [done|].
    unfold selects in *. by rewrite Hfile.
  - intros rel s Hs Ho. apply scan_fold_spec in Hst as [Hfound _]. cbn in Hfound.
    destruct (Hfound rel s Hs) as [Hbad|(e & _ & Hsl & (_ & _ & _ & Hp & _))]; [by rewrite lookup_empty in Hbad|].
    rewrite Hp in *. apply (relevant_path_selects f); [done|done|]. rewrite Hsel, Hps, Hr.
    unfold selects in *. cbn [we_path we_is_file]. by destruct Hsl as (? & _ & ?).
Qed.

(** ** Nothing that is heard is lost *)
Definition rescans `{Unicode} (f : WatchEventFilter) (dirs : string -> bool) (event : Event) : bool :=
  need_rescan event || existsb (is_configuration_path f) (event_paths event) || (0 <? directory_rescan_path_count f dirs event).
Lemma mark_full_rescan_covers b p : covers (mark_full_rescan b) p.
Proof. by left. Qed.
Lemma set_counts_covers e c o n b p : covers (set_counts e c o n b) p <-> covers b p.
Proof. done. Qed.

Lemma apply_event_spec `{Unicode} f dirs event b :
  batch_ok b ->
  batch_ok (apply_event f dirs event b) /\ (has_changes b = true -> has_changes (apply_event f dirs event b) = true) /\
  (forall p, covers b p \/ rescans f dirs event = true \/ p ∈ relevant_paths f event -> covers (apply_event f dirs event b) p).
Proof.
  intros Hb. unfold apply_event, rescans. destruct (need_rescan event).
  { split_and!; [apply mark_full_rescan_ok|done|intros; apply mark_full_rescan_covers]. }
  cbn [orb]. set (configured := existsb _ _). set (n := directory_rescan_path_count f dirs event). set (ps := relevant_paths f event). cbv zeta.
  set (b0 := set_counts _ _ _ _ b). assert (batch_ok b0) as H0 by by apply set_counts_ok.
  set (b1 := if negb (bool_decide (ps = ∅)) then _ else b0).
  assert (batch_ok b1 /\ (has_changes b = true -> has_changes b1 = true) /\ forall p, covers b p \/ p ∈ ps -> covers b1 p) as (O1 & C1 & V1).
  { unfold b1. destruct (bool_decide_reflect (ps = ∅)) as [->|Hne]; cbn [negb].
    - split_and!; [done|done|]. intros p [Hp|Hp]; [by apply set_counts_covers|set_solver].
    - split_and!; [by apply extend_paths_ok|intros Hc; apply has_changes_extend; [done|by left]|].
      intros p Hp. apply extend_paths_covers; [done|]. rewrite elem_of_btree_elements. destruct Hp as [Hp|Hp]; [left; exact Hp|right; by left]. }
  clearbody b1. set (b2 := if 0 <? n then mark_full_rescan b1 else b1).
  assert (batch_ok b2 /\ (has_changes b = true -> has_changes b2 = true) /\ forall p, covers b p \/ (0 <? n) = true \/ p ∈ ps -> covers b2 p) as (O2 & C2 & V2).
  { unfold b2. destruct (0 <? n); [split_and!; [apply mark_full_rescan_ok|done|intros; apply mark_full_rescan_covers]|].
    split_and!; [done|done|]. intros p [?|[?|?]]; [auto|done|auto]. }
  clearbody b2. set (b3 := set_counts _ _ _ _ b2). set (b4 := if configured then mark_full_rescan b3 else b3).
  assert (batch_ok b4 /\ (has_changes b = true -> has_changes b4 = true) /\
    forall p, covers b p \/ configured || (0 <? n) = true \/ p ∈ ps -> covers b4 p) as H4.
  { unfold b4. destruct configured; [split_and!; [apply mark_full_rescan_ok|done|intros; apply mark_full_rescan_covers]|].
    split_and!; [by apply set_counts_ok|done|]. intros p Hp. by apply set_counts_covers, V2. }
  clearbody b4. destruct (negb _ || (0 <? n)); [|exact H4]. destruct (count_event_spec b4) as (N1 & N2 & N3), H4 as (O4 & C4 & V4).
  split_and!; [by apply N1|by rewrite N2|]. intros p Hp. apply N3. auto.
Qed.

(** The callback of the watcher keeps back nothing that the loop would act on: an event
    below the root, of a kind that refreshes, that would give a batch something to do is
    sent, and the status is told of it unless it is one of the watcher's own probes. *)
Theorem callback_sends_changes `{Unicode} f dirs event :
  watch_event_refreshes event = true -> Forall (fun path => is_Some (relative_event_path f path)) (event_paths event) ->
  has_changes (apply_event f dirs event default_batch) = true ->
  watch_callback f dirs (Ok event) = (negb (is_probe_event f event), Some (EventMessage event)).
Proof.
  intros Hk Hroot Hc. unfold watch_callback. assert (is_relevant_event f dirs event = true) as ->; [|done].
  unfold is_relevant_event. rewrite Hk. cbn [andb]. destruct (need_rescan event) eqn:Hn; [done|]. cbn [orb].
  apply orb_true_iff. right. apply existsb_exists.
  assert ((exists path, path ∈ event_paths event /\ is_configuration_path f path = true) \/ relevant_paths f event <> ∅ \/
    0 < directory_rescan_path_count f dirs event) as [(path & Hp & Hconf)|[Hr|Hd]].
  { unfold apply_event in Hc. rewrite Hn in Hc. destruct (existsb (is_configuration_path f) (event_paths event)) eqn:He.
    { apply existsb_exists in He as (path & Hp & He). left. exists path. split; [by apply list_elem_of_In|done]. }
    right. destruct (decide (relevant_paths f event = ∅)) as [E|]; [right|by left]. destruct (Z.ltb_spec 0 (directory_rescan_path_count f dirs event)) as [|Hd]; [done|].
    rewrite bool_decide_true in Hc by done. by cbn in Hc. }
  - exists path. split; [by apply list_elem_of_In|]. rewrite Forall_forall in Hroot. specialize (Hroot path Hp) as [rel Hrel].
    unfold relevant_path. by rewrite Hconf, Hrel.
  - unfold relevant_paths in Hr. rewrite Hk in Hr. cbn [negb] in Hr. apply set_choose_L in Hr as [rel Hrel].
    apply elem_of_list_to_set, list_elem_of_omap in Hrel as (path & Hp & Hrel). exists path. split; [by apply list_elem_of_In|]. by rewrite Hrel.
  - unfold directory_rescan_path_count in Hd. assert (exists path, path ∈ List.filter (directory_change_path f dirs) (event_paths event)) as [path Hp].
    { destruct (kind event) as [| | |[]| |]; try done; destruct (List.filter _ _) as [|path ?]; try done; exists path; set_solver. }
    apply list_elem_of_In, List.filter_In in Hp as [Hp Hd']. exists path. split; [done|]. by rewrite Hd', orb_true_r.
Qed.

Section native_laws.
Context {W : Type} `{HW : Watching W} `{HN : NativeWatching W} `{HU : Unicode} (filter : WatchEventFilter) (config : RefreshLoopConfig).
Context (interval : option Z) (L : option WatchFileSnapshot).
Implicit Types (r : Run W) (l : Loop) (b : WatchChangeBatch) (P : string -> Prop).

(** What the loop holds while it collects [b]. *)
Definition holds P b r : Prop :=
  batch_ok b /\ refreshes_ok (log r) /\ last_look (log r) = L /\ accounted (log r) (fun p => P p \/ covers b p).

Lemma refreshes_ok_heard (l : list Note) ps all : refreshes_ok l -> refreshes_ok (l ++ [Heard ps all]).
Proof. intros Hl b ok Hb. apply (Hl b ok). set_solver. Qed.
Lemma holds_ask {A} (q : W -> A) P b r : holds P b r -> holds P b (ask q r).2.
Proof. done. Qed.

Lemma hear_spec message P b r x r' :
  hear filter message b r = (x, r') -> holds P b r ->
  match x with Ok b' => holds P b' r' /\ (has_changes b = true -> has_changes b' = true) | Err _ => refreshes_ok (log r') end.
Proof.
  unfold hear, ask. intros [= <- <-] (Hb & Hr & Hl & Ha). destruct message as [event|e]; cbn; [|by rewrite app_nil_r].
  destruct (apply_event_spec filter (is_dir (world r)) event b Hb) as (O & C & V). split; [|done]. split_and!; [done|by apply refreshes_ok_heard| |].
  - cbn [log]. by rewrite last_look_app.
  - apply (accounted_heard _ _ _ _ _ Ha). intros p [[?|?]|?]; [by left|right; apply V; by left|right; apply V; by right].
Qed.
Lemma check_overflow_spec P b r b' r' :
  check_overflow b r = (b', r') -> holds P b r -> holds P b' r' /\ (has_changes b = true -> has_changes b' = true).
Proof.
  unfold check_overflow. destruct (take_overflow (world r)) as [[] w]; intros [= <- <-] (Hb & Hr & Hl & Ha); [|done].
  split; [|done]. cbn. split_and!; [apply mark_overflow_ok|by apply refreshes_ok_heard|simpl; by rewrite last_look_app|].
  apply (accounted_heard _ _ _ _ _ Ha). intros p _. right. by left.
Qed.

Definition gathered P (x : result string (option WatchChangeBatch)) r : Prop :=
  refreshes_ok (log r) /\
  match x with
  | Ok (Some b) => holds P b r /\ has_changes b = true
  | Ok None => last_look (log r) = L /\ accounted (log r) P
  | Err _ => True
  end.
Lemma finish_spec P b r : holds P b r -> has_changes b = true -> gathered P (Ok (Some (check_overflow b r).1)) (check_overflow b r).2.
Proof.
  intros Hb Hc. destruct (check_overflow b r) as [b' r'] eqn:E. destruct (check_overflow_spec P b r b' r' E Hb) as [H1 H2].
  split; [apply H1|auto].
Qed.

Lemma collect_more_spec P fuel started last_relevant b queued r x queued' r' :
  collect_more filter config fuel started last_relevant b queued r = Some (x, queued', r') ->
  holds P b r -> has_changes b = true -> gathered P x r'.
Proof.
  revert last_relevant b queued r. induction fuel as [|fuel IH]; intros last_relevant b queued r; [done|].
  cbn [collect_more]. intros Hrun Hb Hc.
  assert (forall r0 q, holds P b r0 -> (let '(b', r1) := check_overflow b r0 in Some (Ok (Some b'), q, r1)) = Some (x, queued', r') ->
    gathered P x r') as Hfin.
  { intros r0 q H0 E. pose proof (finish_spec P b r0 H0 Hc) as Hg. destruct (check_overflow b r0) as [b' r1]. by injection E as <- <- <-. }
  unfold ask in Hrun. set (r1 := on_world pass (on_world pass r)) in Hrun.
  assert (holds P b r1) as Hb1 by done. cbv zeta in Hrun.
  destruct (max_wait config <=? _); [by apply Hfin in Hrun|]. destruct (debounce config <=? _); [by apply Hfin in Hrun|].
  set (timeout := Z.min _ _) in Hrun. clearbody timeout r1.
  assert (forall message q r0, holds P b r0 ->
    (let '(applied, r2) := hear filter message b r0 in
     match applied with
     | Ok batch' =>
         let '(last_relevant0, r3) :=
           if negb (size (paths batch') =? size (paths b))%nat || negb (event_count batch' =? event_count b)
           then (clock (world r2), on_world pass r2) else (last_relevant, r2) in
         collect_more filter config fuel started last_relevant0 batch' q r3
     | Err e => Some (Err e, q, r2)
     end) = Some (x, queued', r') -> gathered P x r') as Happly.
  { intros message q r0 H0 E. destruct (hear filter message b r0) as [applied r2] eqn:Eh. apply (hear_spec _ P) in Eh; [|done].
    destruct applied as [b'|e]; [|by injection E as <- <- <-]. destruct Eh as [Hb' Hc'].
    destruct (negb _ || negb _); by apply IH in E; auto. }
  destruct queued as [|message q]; [|by apply Happly in Hrun].
  unfold receive in Hrun. destruct (recv_timeout timeout (world r1)) as [[message| |] w].
  - by apply Happly in Hrun.
  - by apply Hfin in Hrun.
  - injection Hrun as <- <- <-. split; [apply Hb1|done].
Qed.

Lemma collect_watch_spec P fuel first queued r x queued' r' :
  collect_watch_batch filter config fuel first queued r = Some (x, queued', r') ->
  refreshes_ok (log r) -> last_look (log r) = L -> accounted (log r) P -> gathered P x r'.
Proof.
  unfold collect_watch_batch. intros Hrun Hr Hl Ha. assert (holds P default_batch r) as H0.
  { split_and!; [apply default_batch_ok|done|done|]. apply (accounted_weaken _ _ _ Ha). tauto. }
  destruct (hear filter first default_batch r) as [[b|e] r1] eqn:E; apply (hear_spec _ P) in E; [|done| |done]; [|by injection Hrun as <- <- <-].
  destruct E as [H1 _]. destruct (check_overflow b r1) as [b' r2] eqn:E. destruct (check_overflow_spec P b r1 b' r2 E H1) as [H2 _].
  destruct (has_changes b') eqn:Hc; cbn [negb] in Hrun; [by apply (collect_more_spec P) in Hrun|].
  injection Hrun as <- <- <-. split; [apply H2|]. destruct H2 as (_ & _ & Hl2 & Ha2). split; [done|]. apply (accounted_weaken _ _ _ Ha2).
  intros p [?|Hp]; [done|]. apply has_changes_covers in Hp. congruence.
Qed.

Lemma serve_message_spec fuel l first queued r f queued' r' :
  serve_message filter config fuel interval l first queued r = Some (f, queued', r') -> loop_ok L l r -> flow_ok L f r'.
Proof.
  intros Hrun [Hl Hrs Ha Hp]. unfold serve_message in Hrun.
  destruct (collect_watch_batch _ _ _ _ _ _) as [[[x q] r1]|] eqn:Hc; [|done].
  apply (collect_watch_spec (pending l)) in Hc as [C1 C2]; [|done|done|done].
  destruct x as [x|e]; [|by injection Hrun as <- <- <-].
  match type of Hrun with context [let '(batch, r0) := ?e in _] => set (y := e) in Hrun end.
  assert (log y.2 = log r1 /\ last_look (log r1) = L /\
    match y.1 with
    | Some b => batch_ok b /\ has_changes b = true /\ accounted (log r1) (fun p => pending l p \/ covers b p)
    | None => accounted (log r1) (pending l)
    end) as (Hy & Hl1 & Hacc).
  { unfold y. destruct x as [b|]; [by destruct C2 as [(? & ? & ? & ?) ?]|]. destruct C2 as [C2 C3].
    pose proof (is_due_log (wake_deadline l) r1) as Hd. destruct (is_due (wake_deadline l) r1) as [[] r2]; cbn in Hd |- *; [|done].
    split_and!; [done|done|apply mark_full_rescan_ok|done|]. intros p l2 _. right. right. by left. }
  clearbody y. destruct y as [y r2]. cbn [fst snd] in *. destruct y as [b|].
  - unfold ask in Hrun. set (b1 := if config_differs (world r2) then _ else b) in Hrun.
    assert (batch_ok b1 /\ has_changes b1 = true /\ accounted (log r1) (fun p => pending l p \/ covers b1 p)) as (D1 & D2 & D3).
    { unfold b1. destruct Hacc as (B1 & B2 & B3). destruct (config_differs _); [|done]. split_and!; [apply mark_full_rescan_ok|done|].
      apply (accounted_weaken _ _ _ B3). intros p _. right. by left. }
    destruct (serve config interval l b1 (on_world pass r2)) as [flow r3] eqn:E. injection Hrun as <- <- <-.
    apply (serve_spec config interval L) in E; cbn [on_world log]; rewrite ?Hy; done.
  - injection Hrun as <- <- <-. constructor; rewrite ?Hy; done.
Qed.

Lemma native_round_spec fuel l queued r f queued' r' :
  native_round filter config fuel interval l queued r = Some (f, queued', r') -> loop_ok L l r -> flow_ok L f r'.
Proof.
  intros Hrun Hl. unfold native_round, ask in Hrun. destruct (should_stop (world r)) eqn:Hstop.
  { injection Hrun as <- <- <-. split; [apply Hl|]. left. by eexists. }
  destruct queued as [|first q]; [|by apply serve_message_spec in Hrun; [|destruct Hl; constructor]].
  match type of Hrun with context [let '(timeout, r0) := ?e in _] => set (y := e) in Hrun end.
  assert (log y.2 = log r) as Hy by (unfold y; by destruct (wake_deadline l)). clearbody y. destruct y as [timeout r1]. cbn [snd] in Hy.
  assert (forall r0, log r0 = log r -> loop_ok L l r0) as Hkeep by (intros r0 E; destruct Hl; constructor; rewrite ?E; done).
  unfold receive in Hrun. destruct (recv_timeout timeout (world r1)) as [[first| |] w].
  - apply serve_message_spec in Hrun; [done|]. by apply Hkeep.
  - destruct (should_stop _) eqn:Hs in Hrun.
    { injection Hrun as <- <- <-. split; [rewrite Hy; apply Hl|]. left. by eexists. }
    match type of Hrun with context [is_due ?d ?r0] => pose proof (is_due_log d r0) as Hd; destruct (is_due d r0) as [[] r2] end; cbn in Hd.
    + apply serve_message_spec in Hrun; [done|]. apply Hkeep. congruence.
    + injection Hrun as <- <- <-. apply Hkeep. congruence.
  - injection Hrun as <- <- <-. cbn. rewrite Hy. apply Hl.
Qed.
Lemma native_rounds_spec fuel rounds l queued r f queued' r' :
  native_rounds filter config fuel rounds interval l queued r = (f, queued', r') -> loop_ok L l r -> flow_ok L f r'.
Proof.
  revert l queued r. induction rounds as [|n IH]; intros l queued r; [by intros [= <- <- <-]|]. cbn [native_rounds]. intros Hrun Hl.
  destruct (native_round filter config fuel interval l queued r) as [[[f1 q1] r1]|] eqn:E; [|by injection Hrun as <- <- <-].
  apply native_round_spec in E; [|done]. destruct f1 as [l1|x]; [by apply IH in Hrun|by injection Hrun as <- <- <-].
Qed.

(** ** A collection ends *)
(** Receiving a message, and asking for the flag, take time. *)
Class NativeLaws := {
  recv_clock d w : clock w + 1 <= clock (recv_timeout d w).2;
  overflow_clock w : clock w <= clock (take_overflow w).2
}.
Context `{!WatchingLaws} `{!NativeLaws}.
Lemma hear_time message b r : time r <= time (hear filter message b r).2.
Proof. unfold hear, ask. cbn. apply (time_ask r). Qed.
Definition gather_fuel (queued : list WatchMessage) (started now : Z) : nat :=
  S (length queued + Z.to_nat (Z.max 0 (max_wait config - (now - started)))).
Lemma collect_more_ends fuel started last_relevant b queued r :
  (gather_fuel queued started (time r) <= fuel)%nat -> is_Some (collect_more filter config fuel started last_relevant b queued r).
Proof.
  revert last_relevant b queued r. induction fuel as [|fuel IH]; intros last_relevant b queued r Hf; [unfold gather_fuel in Hf; lia|].
  assert (forall r0 q, is_Some (let '(b', r1) := check_overflow b r0 in Some (Ok (Some b'), q, r1) : option (result string (option WatchChangeBatch) * list WatchMessage * Run W))) as Hfin
    by (intros r0 q; destruct (check_overflow b r0); by eexists).
  cbn [collect_more]. unfold ask. pose proof (time_ask r) as T1. set (r1 := on_world pass r) in *. change (clock (world r)) with (time r).
  destruct (Z.leb_spec (max_wait config) (duration_since (time r) started)) as [|He]; [apply Hfin|].
  pose proof (time_ask r1) as T2. set (r2 := on_world pass r1) in *. destruct (debounce config <=? _); [apply Hfin|].
  set (timeout := Z.min _ _). clearbody timeout r2.
  assert (forall message q r0, time r <= time r0 -> (length q < length queued)%nat \/ queued = [] /\ q = [] /\ time r + 1 <= time r0 ->
    is_Some (let '(applied, r3) := hear filter message b r0 in
     match applied with
     | Ok batch' =>
         let '(last_relevant0, r4) :=
           if negb (size (paths batch') =? size (paths b))%nat || negb (event_count batch' =? event_count b)
           then (clock (world r3), on_world pass r3) else (last_relevant, r3) in
         collect_more filter config fuel started last_relevant0 batch' q r4
     | Err e => Some (Err e, q, r3)
     end)) as Happly.
  { intros message q r0 T0 Hq. pose proof (hear_time message b r0) as T3. destruct (hear filter message b r0) as [[b'|e] r3]; cbn [snd] in T3; [|by eexists].
    pose proof (time_ask r3) as T4. unfold gather_fuel, duration_since in *.
    destruct (negb _ || negb _); apply IH; destruct Hq as [Hq|(-> & -> & Hq)]; cbn [length] in *; lia. }
  destruct queued as [|message q]; [|apply Happly; [lia|left; cbn; lia]].
  unfold receive. pose proof (recv_clock timeout (world r2)) as T5. destruct (recv_timeout timeout (world r2)) as [[message| |] w]; cbn [snd] in T5.
  - apply Happly; [|right]; unfold time in *; cbn [world]; split_and?; try done; lia.
  - apply Hfin.
  - by eexists.
Qed.
Lemma collect_watch_ends fuel first queued r :
  (S (S (length queued + Z.to_nat (Z.max 0 (max_wait config)))) <= fuel)%nat -> is_Some (collect_watch_batch filter config fuel first queued r).
Proof.
  intros Hf. unfold collect_watch_batch. destruct (hear _ _ _ _) as [[b|e] r1]; [|by eexists].
  destruct (check_overflow b r1) as [b' r2]. destruct (negb _); [by eexists|]. unfold ask.
  apply collect_more_ends. unfold gather_fuel. pose proof (time_ask r2) as T. unfold time in *. lia.
Qed.

(** The native loop comes to the end of every round: it waits a quarter of a second at
    most for a message, and then collects for [max_wait] at most. *)
Theorem native_round_ends fuel l queued r :
  (S (S (length queued + Z.to_nat (Z.max 0 (max_wait config)))) <= fuel)%nat ->
  is_Some (native_round filter config fuel interval l queued r).
Proof.
  intros Hf. assert (forall first q r0, (length q <= length queued)%nat -> is_Some (serve_message filter config fuel interval l first q r0)) as Hs.
  { intros first q r0 Hq. unfold serve_message. destruct (collect_watch_ends fuel first q r0) as [[[x q1] r1] ->]; [lia|].
    destruct x as [x|e]; [|by eexists]. destruct (match x with Some _ => _ | None => _ end) as [[b|] r2]; [|by eexists].
    unfold ask. destruct (serve _ _ _ _ _). by eexists. }
  unfold native_round, ask. destruct (should_stop _); [by eexists|]. destruct queued as [|first q]; [|apply Hs; cbn; lia].
  destruct (match wake_deadline l with Some _ => _ | None => _ end) as [timeout r1].
  destruct (receive timeout r1) as [[first| |] r2]; [apply Hs; done| |by eexists].
  destruct (should_stop _); [by eexists|]. destruct (is_due _ _) as [[] r3]; [apply Hs; done|by eexists].
Qed.
End native_laws.

(** C25: The native loop loses nothing that it hears.  Whatever arrives through the channel,
    in whatever order, and whatever the clock, the hooks and the refreshes do: a path that
    the filter found relevant in an event taken from the channel -- any path, when the event
    or the flag of the full channel asked for a look at everything -- has been in a batch
    whose refresh succeeded since, or is in the batch kept for a retry. *)
Theorem no_event_lost {W} `{Watching W} `{NativeWatching W} `{Unicode} filter config interval fuel rounds queued (r : Run W) f queued' r' :
  log r = [] ->
  native_rounds filter config fuel rounds interval (start_native interval r).1 queued (start_native interval r).2 = (f, queued', r') ->
  match f with
  | Continue l => accounted (log r') (pending l)
  | Return (Ok _) => (exists w, should_stop w = true) \/ accounted (log r') (fun _ => False)
  | Return (Err _) => True
  end.
Proof.
  intros Hr Hrun. apply (native_rounds_spec filter config interval None) in Hrun.
  - destruct f as [l|[[]|e]]; [apply Hrun|apply Hrun|done].
  - unfold start_native. pose proof (after_interval_log interval r) as Hl. destruct (after_interval interval r) as [q r1]. cbn [fst snd] in *.
    constructor; cbn [pending_failed]; rewrite ?Hl, ?Hr; [done|intros b ok Hb; set_solver|apply accounted_nil|done].
Qed.

(** ** An edit that the watcher tells of, and whose refresh fails *)
Module NativeSample.
#[local] Existing Instance ascii_unicode.
Definition filter : WatchEventFilter := {|
  source_root := "/repo"; current_dir := "/"; config_path := "/repo/.codebaseGraph/config.json";
  selection := {| excluded_parts := {[ "target" ]}; include_patterns := []; exclude_patterns := []; ignore_patterns := [] |};
  profiles := Profiles.new []; protected_roots := ["/repo/.codebaseGraph"]; config_signatures := (None, None); ignore_signature := None
|}.
Record World := { now : Z; inbox : list WatchMessage; answers : list bool }.
Definition tick (d : Z) (w : World) : World := {| now := now w + Z.max 0 d; inbox := inbox w; answers := answers w |}.
#[local] Instance watching : Watching World := {
  clock := now;
  sleep := tick;
  pass := tick 1;
  watch_file_snapshot _ := Ok ∅;
  config_differs _ := false;
  should_stop _ := false;
  restart_on_config := true;
  before_refresh _ w := w;
  retry_delay _ := 1000;
  refresh b w := (Ok (hd true (answers w)), {| now := now w + 30; inbox := inbox w; answers := tail (answers w) |})
}.
#[local] Instance native_watching : NativeWatching World := {
  recv_timeout d w :=
    match inbox w with
    | message :: inbox => (Message message, {| now := now w + 1; inbox := inbox; answers := answers w |})
    | [] => (Timeout, tick (Z.max 1 d) w)
    end;
  take_overflow w := (false, w);
  is_dir _ _ := false
}.
Definition config : RefreshLoopConfig := {| poll_interval := 100; debounce := 50; max_wait := 400; max_iterations := None |}.
Definition edit (path : string) : WatchMessage := EventMessage {| kind := Modify false; event_paths := [path]; need_rescan := false |}.
Definition first_run : Run World :=
  {| world := {| now := 0; inbox := [edit "/repo/src/a.rs"; edit "/repo/target/b.rs"]; answers := [false] |}; log := [] |}.
Definition after_failure : Flow * list WatchMessage * Run World :=
  native_rounds filter config 20 1 (Some 5000) (start_native (Some 5000) first_run).1 [] (start_native (Some 5000) first_run).2.

Lemma no_event_lost_witness :
  match after_failure with
  | (Continue l, _, r) => heard (log r) "src/a.rs" [Heard ∅ false; Refreshed (set_paths {[ "src/a.rs" ]} 8 (set_counts 1 false 0 1 default_batch)) false] /\
      accounted (log r) (pending l)
  | (Return _, _, _) => False
  end.
Proof.
  pose proof (no_event_lost filter config (Some 5000) 20 1 [] first_run after_failure.1.1 after_failure.1.2 after_failure.2 eq_refl) as H.
  assert (native_rounds filter config 20 1 (Some 5000) (start_native (Some 5000) first_run).1 [] (start_native (Some 5000) first_run).2 =
    (after_failure.1.1, after_failure.1.2, after_failure.2)) as E by (vm_compute; reflexivity).
  specialize (H E).
  assert (exists l q r, after_failure = (Continue l, q, r) /\ heard (log r) "src/a.rs"
    [Heard ∅ false; Refreshed (set_paths {[ "src/a.rs" ]} 8 (set_counts 1 false 0 1 default_batch)) false]) as (l & q & r & Ef & Hh).
  { do 3 eexists. split; [vm_compute; reflexivity|]. exists [], {[ "src/a.rs" ]}, false. split; [vm_compute; reflexivity|right; set_solver]. }
  rewrite Ef in *. split; [exact Hh|exact H].
Defined.

(** The filter of a watcher for the request of the sample scan. *)
Definition sample_filter : WatchEventFilter := {|
  source_root := Protocol.source_root sample_request; current_dir := "/"; config_path := "/repo/.codebaseGraph/config.json";
  selection := request_selection sample_request; profiles := Profiles.new (Protocol.profiles sample_request);
  protected_roots := ["/repo/.codebaseGraph"]; config_signatures := (None, None); ignore_signature := None
|}.
Lemma watcher_agrees_with_scan_witness :
  relevant_path sample_filter "/repo/src/lib.rs" = Some "src/lib.rs" /\
  exists st, @scan_walk (listed_system sample_tree) ascii_unicode sample_request = Ok st /\
    is_Some (supported (scan_maps st) !! "src/lib.rs").
Proof.
  destruct (is_ok_true _ sample_walk_ok) as [st Hst].
  assert (relevant_path sample_filter "/repo/src/lib.rs" = Some "src/lib.rs") as Hrel by (vm_compute; reflexivity).
  split; [exact Hrel|]. exists st. split; [exact Hst|].
  refine (proj1 (@watcher_agrees_with_scan (listed_system sample_tree) ascii_unicode sample_filter sample_request sample_tree st
    eq_refl eq_refl eq_refl eq_refl (list_walk_lawful sample_tree "/repo") sample_tree_plain (List.Forall_nil _) Hst)
    {| we_path := "/repo/src/lib.rs"; we_is_dir := false; we_is_file := true |} "src/lib.rs" _ eq_refl _ Hrel).
  - unfold sample_tree. do 3 apply list_elem_of_further. apply list_elem_of_here.
  - repeat split; vm_compute; reflexivity.
Defined.

Lemma callback_sends_changes_witness :
  watch_callback filter (fun _ => false) (Ok {| kind := Remove; event_paths := ["/repo/docs"]; need_rescan := false |}) =
    (true, Some (EventMessage {| kind := Remove; event_paths := ["/repo/docs"]; need_rescan := false |})).
Proof.
  refine (callback_sends_changes filter (fun _ => false) {| kind := Remove; event_paths := ["/repo/docs"]; need_rescan := false |} _ _ _);
    [reflexivity|repeat constructor; eexists; vm_compute; reflexivity|vm_compute; reflexivity].
Defined.

(** The converse fails: when a file without an extension is written, the status is told
    that there is a change, and the batch that the event gives has nothing to do, so that
    the status has work pending that no refresh is asked for. *)
Theorem told_without_batch :
  let event := {| kind := Modify false; event_paths := ["/repo/Makefile"]; need_rescan := false |} in
  watch_callback filter (fun _ => false) (Ok event) = (true, Some (EventMessage event)) /\
  has_changes (apply_event filter (fun _ => false) event default_batch) = false.
Proof. vm_compute. by split. Qed.
End NativeSample.
