(* ===== verification/Refresh.v ===== *)
(** * Refreshing and its status (src/api/refresh.rs, second half)

    Retries with growing delays, around refreshes (execute_refresh_with_policy_limit) and
    around the database (src/db_writer/access.rs); the status of the refresh service, which
    counts the changes of the sources in epochs, with every operation on it; and the
    service's way of refreshing a batch, which ties the two together. *)
From S2P Require Import Prelude Order Text Json Watch.
#[local] Open Scope rust_scope.
#[local] Open Scope Z_scope.

(** ** Errors worth another try *)
(** [str::contains] *)
Fixpoint contains (s needle : string) : bool :=
  starts_with s needle || match s with EmptyString => false | String _ s => contains s needle end.

(** src/db_writer/access.rs *)
Definition is_transient_database_error (message : string) : bool :=
  let message := to_ascii_lowercase message in
  existsb (contains message)
    ["could not set lock"; "lock is held"; "database is locked"; "database busy"; "resource busy";
     "couldn't replay shadow pages"; "read-only mode"].

(** src/api/lifecycle.rs; [from_str] is serde_json's parser. *)
Definition is_retryable_refresh_failure (from_str : string -> option Value) (error : string) : bool :=
  let normalized := to_ascii_lowercase error in
  let source_changed :=
    match (from_str error ≫= value_get "error") ≫= as_str with Some kind => String.eqb kind "source_changed" | None => false end in
  is_transient_database_error error || source_changed || contains normalized "materialization worker exited"
  || contains normalized "worker process exited" || contains normalized "worker disconnected".

(** ** Retries *)
(** Durations, in nanoseconds, saturate at [Duration::MAX]. *)
Definition DURATION_MAX : Z := (2 ^ 64 - 1) * 10 ^ 9 + 999999999.
Definition saturating_mul_duration (d : Z) (n : Z) : Z := Z.min (d * n) DURATION_MAX.
Definition next_delay (max_delay delay : Z) : Z := Z.min (saturating_mul_duration delay 2) max_delay.

Record RetryPolicy := { max_attempts : Z; initial_delay : Z; max_delay : Z }.
Definition READ_RETRY_POLICY : RetryPolicy := {| max_attempts := 3; initial_delay := 40000000; max_delay := 160000000 |}.
Definition WRITE_RETRY_POLICY : RetryPolicy := {| max_attempts := 8; initial_delay := 100000000; max_delay := 1000000000 |}.

Section database.
Context {S T E : Type} (operation : S -> result E T * S) (to_string : E -> string) (thread_sleep : Z -> S -> S).

(** [attempts] are left. *)
Fixpoint database_attempts (attempts : nat) (policy : RetryPolicy) (delay : Z) (s : S) : result E T * S :=
  match operation s with
  | (Ok value, s) => (Ok value, s)
  | (Err error, s) =>
      match attempts with
      | O | 1%nat => (Err error, s)
      | Datatypes.S attempts =>
          if negb (is_transient_database_error (to_string error)) then (Err error, s)
          else database_attempts attempts policy (next_delay (max_delay policy) delay) (thread_sleep delay s)
      end
  end.
Definition retry_transient_database (policy : RetryPolicy) (s : S) : result E T * S :=
  database_attempts (Z.to_nat (Z.max 1 (max_attempts policy))) policy (initial_delay policy) s.
End database.

Record RefreshRetryPolicy := { refresh_initial_delay : Z; refresh_max_delay : Z }.
Definition default_retry_policy : RefreshRetryPolicy := {| refresh_initial_delay := 100000000; refresh_max_delay := 1000000000 |}.

(** [RefreshObserver] *)
Record RefreshObserver (S R : Type) := {
  before_attempt : Z -> Z -> S -> result string () * S;
  on_success : R -> Z -> Z -> S -> result string () * S;
  on_error : string -> bool -> Z -> Z -> S -> result string () * S
}.
Arguments before_attempt {S R} _.
Arguments on_success {S R} _.
Arguments on_error {S R} _.

Section refresh.
Context {S R : Type} (from_str : string -> option Value) (thread_sleep : Z -> S -> S).
Context (observer : RefreshObserver S R) (refresh : list string -> S -> result string R * S).

(** [None]: another attempt is to follow. *)
Definition refresh_attempt (attempts event_count changed_paths : Z) (candidate_paths : list string) (max_attempts : option Z) (s : S)
    : option (result string bool) * S :=
  match before_attempt observer event_count changed_paths s with
  | (Err e, s) => (Some (Err e), s)
  | (Ok _, s) =>
      match refresh candidate_paths s with
      | (Ok response, s) =>
          match on_success observer response event_count changed_paths s with
          | (Err e, s) => (Some (Err e), s)
          | (Ok _, s) => (Some (Ok true), s)
          end
      | (Err error, s) =>
          let retrying := is_retryable_refresh_failure from_str error in
          match on_error observer error retrying event_count changed_paths s with
          | (Err e, s) => (Some (Err e), s)
          | (Ok _, s) =>
              if negb retrying || match max_attempts with Some max => Z.max max 1 <=? attempts | None => false end
              then (Some (Ok false), s) else (None, s)
          end
      end
  end.

(** The loop; [None] when the fuel ran out, as it may if [max_attempts] is [None]. *)
Fixpoint refresh_attempts (fuel : nat) (policy : RefreshRetryPolicy) (attempts delay event_count changed_paths : Z)
    (candidate_paths : list string) (max_attempts : option Z) (s : S) : option (result string bool) * S :=
  match fuel with
  | O => (None, s)
  | Datatypes.S fuel =>
      let attempts := saturating_add_u64 attempts 1 in
      match refresh_attempt attempts event_count changed_paths candidate_paths max_attempts s with
      | (Some r, s) => (Some r, s)
      | (None, s) =>
          refresh_attempts fuel policy attempts (next_delay (refresh_max_delay policy) delay) event_count changed_paths
            candidate_paths max_attempts (thread_sleep delay s)
      end
  end.

Definition execute_refresh_with_policy_limit (fuel : nat) (policy : RefreshRetryPolicy) (event_count : Z) (paths : gset string)
    (full_rescan : bool) (max_attempts : option Z) (s : S) : option (result string bool) * S :=
  let changed_paths := Z.of_nat (size paths) in
  if (changed_paths =? 0) && negb full_rescan then (Some (Ok true), s)
  else
    let candidate_paths := if full_rescan then [] else btree_elements paths in
    refresh_attempts fuel policy 0 (refresh_initial_delay policy) event_count changed_paths candidate_paths max_attempts s.
End refresh.

(** ** The status *)
Record RefreshStatus := {
  enabled : bool;
  task_alive : bool;
  state : string;
  role : string;
  leader_pid : option Z;
  worker_pid : option Z;
  backend : string;
  effective_root : option string;
  refreshing : bool;
  pending : bool;
  last_refresh_unix_ms : option Z;
  last_successful_reconciliation_unix_ms : option Z;
  oldest_pending_unix_ms : option Z;
  next_retry_unix_ms : option Z;
  reconcile_interval_ms : Z;
  dirty_epoch : Z;
  reconciled_epoch : Z;
  last_error : option string;
  last_error_count : Z;
  last_retry_unix_ms : option Z;
  last_event_count : Z;
  last_changed_paths : Z;
  last_rebuilt : Z;
  last_deleted : Z;
  last_database_written : bool;
  coalesced_event_count : Z;
  filtered_event_count : Z;
  overflow_count : Z;
  deduplicated_refresh_count : Z;
  last_noop_reason : option string;
  spill_chunk_mib : Z;
  max_parallelism : Z;
  phase_high_water_marks : gmap string Z;
  spill_bytes : Z;
  refreshing_epoch : Z;
  blocked_retry_count : Z
}.

(** *** Assignments to one field *)
Definition same_status (s : RefreshStatus) : RefreshStatus :=
  {| enabled := enabled s; task_alive := task_alive s; state := state s; role := role s; leader_pid := leader_pid s;
     worker_pid := worker_pid s; backend := backend s; effective_root := effective_root s; refreshing := refreshing s;
     pending := pending s; last_refresh_unix_ms := last_refresh_unix_ms s; last_successful_reconciliation_unix_ms :=
     last_successful_reconciliation_unix_ms s; oldest_pending_unix_ms := oldest_pending_unix_ms s; next_retry_unix_ms
     := next_retry_unix_ms s; reconcile_interval_ms := reconcile_interval_ms s; dirty_epoch := dirty_epoch s;
     reconciled_epoch := reconciled_epoch s; last_error := last_error s; last_error_count := last_error_count s;
     last_retry_unix_ms := last_retry_unix_ms s; last_event_count := last_event_count s; last_changed_paths :=
     last_changed_paths s; last_rebuilt := last_rebuilt s; last_deleted := last_deleted s; last_database_written :=
     last_database_written s; coalesced_event_count := coalesced_event_count s; filtered_event_count :=
     filtered_event_count s; overflow_count := overflow_count s; deduplicated_refresh_count :=
     deduplicated_refresh_count s; last_noop_reason := last_noop_reason s; spill_chunk_mib := spill_chunk_mib s;
     max_parallelism := max_parallelism s; phase_high_water_marks := phase_high_water_marks s; spill_bytes :=
     spill_bytes s; refreshing_epoch := refreshing_epoch s; blocked_retry_count := blocked_retry_count s |}.
Ltac assign proj v s :=
  let e := eval unfold same_status in (same_status s) in
  let p := eval pattern (proj s) in e in
  match p with ?h _ => let r := eval cbv beta in (h v) in exact r end.
Definition with_enabled (v : bool) (s : RefreshStatus) : RefreshStatus := ltac:(assign enabled v s).
Definition with_task_alive (v : bool) (s : RefreshStatus) : RefreshStatus := ltac:(assign task_alive v s).
Definition with_state (v : string) (s : RefreshStatus) : RefreshStatus := ltac:(assign state v s).
Definition with_role (v : string) (s : RefreshStatus) : RefreshStatus := ltac:(assign role v s).
Definition with_leader_pid (v : option Z) (s : RefreshStatus) : RefreshStatus := ltac:(assign leader_pid v s).
Definition with_worker_pid (v : option Z) (s : RefreshStatus) : RefreshStatus := ltac:(assign worker_pid v s).
Definition with_backend (v : string) (s : RefreshStatus) : RefreshStatus := ltac:(assign backend v s).
Definition with_effective_root (v : option string) (s : RefreshStatus) : RefreshStatus := ltac:(assign effective_root v s).
Definition with_refreshing (v : bool) (s : RefreshStatus) : RefreshStatus := ltac:(assign refreshing v s).
Definition with_pending (v : bool) (s : RefreshStatus) : RefreshStatus := ltac:(assign pending v s).
Definition with_last_refresh_unix_ms (v : option Z) (s : RefreshStatus) : RefreshStatus := ltac:(assign last_refresh_unix_ms v s).
Definition with_last_successful_reconciliation_unix_ms (v : option Z) (s : RefreshStatus) : RefreshStatus := ltac:(assign last_successful_reconciliation_unix_ms v s).
Definition with_oldest_pending_unix_ms (v : option Z) (s : RefreshStatus) : RefreshStatus := ltac:(assign oldest_pending_unix_ms v s).
Definition with_next_retry_unix_ms (v : option Z) (s : RefreshStatus) : RefreshStatus := ltac:(assign next_retry_unix_ms v s).
Definition with_reconcile_interval_ms (v : Z) (s : RefreshStatus) : RefreshStatus := ltac:(assign reconcile_interval_ms v s).
Definition with_dirty_epoch (v : Z) (s : RefreshStatus) : RefreshStatus := ltac:(assign dirty_epoch v s).
Definition with_reconciled_epoch (v : Z) (s : RefreshStatus) : RefreshStatus := ltac:(assign reconciled_epoch v s).
Definition with_last_error (v : option string) (s : RefreshStatus) : RefreshStatus := ltac:(assign last_error v s).
Definition with_last_error_count (v : Z) (s : RefreshStatus) : RefreshStatus := ltac:(assign last_error_count v s).
Definition with_last_retry_unix_ms (v : option Z) (s : RefreshStatus) : RefreshStatus := ltac:(assign last_retry_unix_ms v s).
Definition with_last_event_count (v : Z) (s : RefreshStatus) : RefreshStatus := ltac:(assign last_event_count v s).
Definition with_last_changed_paths (v : Z) (s : RefreshStatus) : RefreshStatus := ltac:(assign last_changed_paths v s).
Definition with_last_rebuilt (v : Z) (s : RefreshStatus) : RefreshStatus := ltac:(assign last_rebuilt v s).
Definition with_last_deleted (v : Z) (s : RefreshStatus) : RefreshStatus := ltac:(assign last_deleted v s).
Definition with_last_database_written (v : bool) (s : RefreshStatus) : RefreshStatus := ltac:(assign last_database_written v s).
Definition with_coalesced_event_count (v : Z) (s : RefreshStatus) : RefreshStatus := ltac:(assign coalesced_event_count v s).
Definition with_filtered_event_count (v : Z) (s : RefreshStatus) : RefreshStatus := ltac:(assign filtered_event_count v s).
Definition with_overflow_count (v : Z) (s : RefreshStatus) : RefreshStatus := ltac:(assign overflow_count v s).
Definition with_deduplicated_refresh_count (v : Z) (s : RefreshStatus) : RefreshStatus := ltac:(assign deduplicated_refresh_count v s).
Definition with_last_noop_reason (v : option string) (s : RefreshStatus) : RefreshStatus := ltac:(assign last_noop_reason v s).
Definition with_spill_chunk_mib (v : Z) (s : RefreshStatus) : RefreshStatus := ltac:(assign spill_chunk_mib v s).
Definition with_max_parallelism (v : Z) (s : RefreshStatus) : RefreshStatus := ltac:(assign max_parallelism v s).
Definition with_phase_high_water_marks (v : gmap string Z) (s : RefreshStatus) : RefreshStatus := ltac:(assign phase_high_water_marks v s).
Definition with_spill_bytes (v : Z) (s : RefreshStatus) : RefreshStatus := ltac:(assign spill_bytes v s).
Definition with_refreshing_epoch (v : Z) (s : RefreshStatus) : RefreshStatus := ltac:(assign refreshing_epoch v s).
Definition with_blocked_retry_count (v : Z) (s : RefreshStatus) : RefreshStatus := ltac:(assign blocked_retry_count v s).
#[local] Notation "s |> f" := (f s) (at level 50, left associativity, only parsing).

(** *** The operations
    [now] is what [unix_ms] gives, and [pid] is [std::process::id]. *)
Definition u128_max : Z := 2 ^ 128 - 1.
Definition saturating_add_u128 (a b : Z) : Z := Z.min (a + b) u128_max.

Definition default_status (interval chunk parallelism : Z) : RefreshStatus :=
  {| enabled := true; task_alive := true; state := "starting"; role := "starting"; leader_pid := None; worker_pid := None;
     backend := "starting"; effective_root := None; refreshing := false; pending := false; last_refresh_unix_ms := None;
     last_successful_reconciliation_unix_ms := None; oldest_pending_unix_ms := None; next_retry_unix_ms := None;
     reconcile_interval_ms := interval; dirty_epoch := 0; reconciled_epoch := 0; last_error := None; last_error_count := 0;
     last_retry_unix_ms := None; last_event_count := 0; last_changed_paths := 0; last_rebuilt := 0; last_deleted := 0;
     last_database_written := false; coalesced_event_count := 0; filtered_event_count := 0; overflow_count := 0;
     deduplicated_refresh_count := 0; last_noop_reason := None; spill_chunk_mib := chunk; max_parallelism := parallelism;
     phase_high_water_marks := ∅; spill_bytes := 0; refreshing_epoch := 0; blocked_retry_count := 0 |}.

Definition mark_leader (pid : Z) (s : RefreshStatus) : RefreshStatus :=
  s |> with_task_alive true |> with_state "running" |> with_role "leader" |> with_leader_pid (Some pid) |> with_enabled true.
Definition mark_standby (s : RefreshStatus) : RefreshStatus :=
  s |> with_task_alive true |> with_state "standby" |> with_role "standby" |> with_leader_pid None |> with_worker_pid None
    |> with_backend "standby" |> with_refreshing false |> with_enabled true.
Definition set_effective_root (root : string) (s : RefreshStatus) : RefreshStatus := s |> with_effective_root (Some root).
(** [interval] in milliseconds *)
Definition set_reconcile_interval (interval : Z) (s : RefreshStatus) : RefreshStatus :=
  s |> with_reconcile_interval_ms (Z.min interval u64_max).
Definition set_execution_settings (chunk parallelism : Z) (s : RefreshStatus) : RefreshStatus :=
  s |> with_spill_chunk_mib chunk |> with_max_parallelism parallelism.

Definition running_unless_standby (s : RefreshStatus) : RefreshStatus :=
  if negb (String.eqb (state s) "standby") then s |> with_state "running" else s.
Definition set_backend (name : string) (s : RefreshStatus) : RefreshStatus :=
  s |> with_task_alive true |> running_unless_standby |> with_backend name |> with_enabled true |> with_last_error None
    |> with_next_retry_unix_ms None.
Definition count_error (error : string) (s : RefreshStatus) : RefreshStatus :=
  s |> with_last_error (Some error) |> with_last_error_count (saturating_add_u64 (last_error_count s) 1).
Definition set_error (name error : string) (s : RefreshStatus) : RefreshStatus :=
  let s := s |> with_backend name |> with_enabled true in
  let s :=
    if String.eqb name "failed"
    then s |> with_task_alive false |> with_state "stopped" |> with_role "stopped" |> with_leader_pid None |> with_worker_pid None
           |> with_refreshing false
    else s |> with_task_alive true |> running_unless_standby in
  s |> with_next_retry_unix_ms None |> count_error error.
Definition disable (name error : string) (s : RefreshStatus) : RefreshStatus :=
  s |> with_backend name |> with_enabled false |> with_task_alive false |> with_state "disabled" |> with_role "disabled"
    |> with_leader_pid None |> with_worker_pid None |> with_refreshing false |> with_pending false
    |> with_next_retry_unix_ms None |> count_error error.
Definition mark_policy_disabled (s : RefreshStatus) : RefreshStatus :=
  s |> with_enabled false |> with_task_alive true |> with_state "disabled" |> with_role "disabled" |> with_leader_pid None
    |> with_worker_pid None |> with_refreshing false |> with_next_retry_unix_ms None.
Definition mark_policy_disabled_until (next_retry : Z) (s : RefreshStatus) : RefreshStatus :=
  s |> mark_policy_disabled |> with_next_retry_unix_ms (Some next_retry).

Definition oldest_is (now : Z) (s : RefreshStatus) : RefreshStatus :=
  match oldest_pending_unix_ms s with None => s |> with_oldest_pending_unix_ms (Some now) | Some _ => s end.
Definition mark_pending (now : Z) (s : RefreshStatus) : RefreshStatus := s |> with_pending true |> oldest_is now.
(** It returns the epoch, too. *)
Definition mark_dirty_at (now : Z) (s : RefreshStatus) : Z * RefreshStatus :=
  let s := s |> with_dirty_epoch (saturating_add_u64 (dirty_epoch s) 1) |> with_pending true |> oldest_is now in
  (dirty_epoch s, s).
Definition acknowledge_reconciliation_locked (epoch now : Z) (s : RefreshStatus) : RefreshStatus :=
  let acknowledged := Z.min epoch (dirty_epoch s) in
  let s := s |> with_reconciled_epoch (Z.max (reconciled_epoch s) acknowledged)
             |> with_last_successful_reconciliation_unix_ms (Some now) in
  if dirty_epoch s <=? reconciled_epoch s then s |> with_pending false |> with_oldest_pending_unix_ms None
  else s |> with_pending true.
Definition mark_retrying (next_retry now : Z) (s : RefreshStatus) : RefreshStatus :=
  s |> with_task_alive true |> with_state "retrying" |> with_refreshing false |> with_pending true |> oldest_is now
    |> with_next_retry_unix_ms (Some next_retry).
Definition oldest_if_pending (now : Z) (s : RefreshStatus) : RefreshStatus := if pending s then oldest_is now s else s.
Definition mark_blocked (now : Z) (s : RefreshStatus) : RefreshStatus :=
  s |> with_task_alive true |> with_state "blocked" |> with_role "blocked" |> with_leader_pid None |> with_worker_pid None
    |> with_refreshing false |> oldest_if_pending now |> with_next_retry_unix_ms None.
Definition mark_blocked_until (next_retry now : Z) (s : RefreshStatus) : RefreshStatus :=
  s |> mark_blocked now |> with_next_retry_unix_ms (Some next_retry).
Definition mark_stopped (now : Z) (s : RefreshStatus) : RefreshStatus :=
  s |> with_task_alive false |> with_state "stopped" |> with_role "stopped" |> with_leader_pid None |> with_worker_pid None
    |> with_refreshing false |> oldest_if_pending now |> with_next_retry_unix_ms None.
Definition set_worker_pid (pid : option Z) (s : RefreshStatus) : RefreshStatus := s |> with_worker_pid pid.
Definition mark_refreshing (name : string) (now : Z) (s : RefreshStatus) : RefreshStatus :=
  s |> with_task_alive true |> with_state "running" |> with_refreshing_epoch (dirty_epoch s) |> with_backend name
    |> with_refreshing true |> with_pending true |> oldest_is now |> with_next_retry_unix_ms None |> with_last_error None.

(** The wait of a service that is blocked for the [count]th time in a row, in milliseconds. *)
Definition blocked_delay_ms (count : Z) : Z :=
  let shift := Z.min (saturating_sub_u64 count 1) 4 in
  let delay_seconds := Z.min (5 * Z.shiftl 1 shift) u64_max in
  Z.min delay_seconds 60 * 1000.
Definition mark_refresh_error (name : string) (events changed : Z) (error : string) (retrying : bool) (now : Z) (s : RefreshStatus)
    : RefreshStatus :=
  let s := s |> with_backend name |> with_refreshing false |> with_pending true |> oldest_is now in
  let s :=
    if retrying then s |> with_task_alive true |> with_state "retrying" |> with_next_retry_unix_ms None
    else
      let s := s |> with_task_alive true |> with_state "blocked" |> with_role "blocked" |> with_leader_pid None
                 |> with_worker_pid None |> with_blocked_retry_count (Z.min (blocked_retry_count s + 1) u32_max) in
      s |> with_next_retry_unix_ms (Some (saturating_add_u128 now (blocked_delay_ms (blocked_retry_count s)))) in
  let s := s |> count_error error |> with_last_retry_unix_ms (if retrying then Some now else None) in
  let s := if retrying then s |> with_next_retry_unix_ms None else s in
  s |> with_last_event_count events |> with_last_changed_paths changed.

Record RefreshStatusMetrics := {
  m_backend : string;
  m_event_count : Z;
  m_changed_paths : Z;
  m_rebuilt : Z;
  m_deleted : Z;
  m_database_written : bool;
  m_overflow_count : Z;
  m_filtered_event_count : Z;
  m_phase_high_water_marks : gmap string Z;
  m_spill_bytes : Z
}.
Definition mark_refreshed (m : RefreshStatusMetrics) (pid now : Z) (s : RefreshStatus) : RefreshStatus :=
  let s := s |> with_backend (m_backend m) |> with_task_alive true |> with_state "running" in
  let s := if String.eqb (role s) "blocked" then s |> with_role "leader" |> with_leader_pid (Some pid) else s in
  let s := s |> with_refreshing false |> with_last_refresh_unix_ms (Some now) |> with_next_retry_unix_ms None
             |> with_last_error None |> with_last_error_count 0 |> with_last_retry_unix_ms None |> with_blocked_retry_count 0
             |> with_last_event_count (m_event_count m) |> with_last_changed_paths (m_changed_paths m)
             |> with_last_rebuilt (m_rebuilt m) |> with_last_deleted (m_deleted m)
             |> with_last_database_written (m_database_written m)
             |> with_coalesced_event_count
                  (saturating_add_u64 (coalesced_event_count s) (saturating_sub_u64 (m_event_count m) 1))
             |> with_overflow_count (saturating_add_u64 (overflow_count s) (m_overflow_count m))
             |> with_filtered_event_count (saturating_add_u64 (filtered_event_count s) (m_filtered_event_count m)) in
  let acknowledged_epoch := Z.min (refreshing_epoch s) (dirty_epoch s) in
  let s := s |> acknowledge_reconciliation_locked acknowledged_epoch now in
  if m_database_written m
  then s |> with_last_noop_reason None |> with_phase_high_water_marks (m_phase_high_water_marks m)
         |> with_spill_bytes (m_spill_bytes m)
  else s |> with_deduplicated_refresh_count (saturating_add_u64 (deduplicated_refresh_count s) 1)
         |> with_last_noop_reason (Some "active_generation_current").

(** ** The service *)
(** [RefreshServiceContext::retry_delay], in milliseconds *)
Definition service_retry_delay (now : Z) (s : RefreshStatus) : Z :=
  match next_retry_unix_ms s with
  | Some deadline =>
      if deadline <? now then 1000
      else let delay := Z.min (deadline - now) u64_max in if delay =? 0 then 1000 else delay
  | None => 1000
  end.

(** What the service lives in: its status, and the rest. *)
Class Service (S R : Type) := {
  status : S -> RefreshStatus;
  on_status : (RefreshStatus -> RefreshStatus) -> S -> S;
  service_unix_ms : S -> Z;
  process_id : Z;
  service_sleep : Z -> S -> S;
  task_should_stop : S -> bool;
  (** [execute_isolated] *)
  execute_isolated : list string -> S -> result string R * S;
  parse_json : string -> option Value;
  (** what the observer takes from a response *)
  rebuild_count : R -> Z;
  deleted_count : R -> Z;
  database_written : R -> bool;
  response_marks : R -> gmap string Z;
  response_spill : R -> Z
}.

Section service.
Context {S R : Type} `{Service S R}.

(** [StateRefreshObserver] *)
Definition StateRefreshObserver (name : string) (overflows filtered : Z) : RefreshObserver S R := {|
  before_attempt _ _ s :=
    let s := on_status (mark_pending (service_unix_ms s)) s in (Ok (), on_status (mark_refreshing name (service_unix_ms s)) s);
  on_success response events changed s :=
    (Ok (), on_status (mark_refreshed {|
       m_backend := name; m_event_count := events; m_changed_paths := changed; m_rebuilt := rebuild_count response;
       m_deleted := deleted_count response; m_database_written := database_written response; m_overflow_count := overflows;
       m_filtered_event_count := filtered; m_phase_high_water_marks := response_marks response;
       m_spill_bytes := response_spill response |} process_id (service_unix_ms s)) s);
  on_error error retrying events changed s :=
    (Ok (), on_status (mark_refresh_error name events changed error retrying (service_unix_ms s)) s)
|}.

(** The maintenance is told of the end, whatever it is; that does not concern the status. *)
Definition refresh_batch (fuel : nat) (name : string) (batch : WatchChangeBatch) (s : S) : option (result string bool) * S :=
  match execute_refresh_with_policy_limit parse_json service_sleep
          (StateRefreshObserver name (Watch.overflow_count batch) (Watch.filtered_event_count batch)) execute_isolated fuel
          default_retry_policy (event_count batch) (paths batch) (full_rescan batch) (Some 4) s with
  | (Some (Ok result), s) =>
      if task_should_stop s then (Some (Ok false), s)
      else if negb result then
        if String.eqb (state (status s)) "retrying" then
          (Some (Ok result), on_status (mark_retrying (saturating_add_u128 (service_unix_ms s) 1000) (service_unix_ms s)) s)
        else if String.eqb (state (status s)) "blocked" && bool_decide (next_retry_unix_ms (status s) = None) then
          (Some (Ok result), on_status (mark_blocked_until (saturating_add_u128 (service_unix_ms s) 5000) (service_unix_ms s)) s)
        else (Some (Ok result), s)
      else (Some (Ok result), s)
  | r => r
  end.
End service.

(** ** The poll loop of the service ([run_service_poll_loop]) *)
Class Files (S : Type) := {
  service_clock : S -> Z;
  service_pass : S -> S;
  service_snapshot : S -> result string WatchFileSnapshot;
  service_config_differs : S -> bool
}.
(** What a loop of the service lives in: [name] is its backend, and [marks] tells of which
    batches it tells the status.  Delays are milliseconds in the status, and nanoseconds
    for the loop.  The refresh has the four attempts it is limited to as fuel, and does not
    run out of it. *)
Definition service_watching {S R} `{Service S R} `{Files S} (name : string) (marks : WatchChangeBatch -> bool) : Watching S := {|
  clock := service_clock;
  sleep := service_sleep;
  pass := service_pass;
  watch_file_snapshot := service_snapshot;
  config_differs := service_config_differs;
  should_stop := task_should_stop;
  restart_on_config := true;
  before_refresh batch s := if marks batch then on_status (fun st => (mark_dirty_at (service_unix_ms s) st).2) s else s;
  retry_delay s := service_retry_delay (service_unix_ms s) (status s) * 1000000;
  refresh batch s := match refresh_batch 4 name batch s with (Some r, s) => (r, s) | (None, s) => (Err "", s) end
|}.
Definition run_service_poll_loop {S R} `{Service S R} `{Files S} (fuel : nat) (config : RefreshLoopConfig) (interval : Z) (s : S)
    : option (result string ()) * Run S :=
  run_poll_watch_until (H := service_watching "poll" has_changes) config fuel (Some interval)
    {| world := on_status (set_backend "poll") s; log := [] |}.
