(* ===== verification/RefreshLaws.v ===== *)
(** * Retries end, and no change of the sources is forgotten by the status

    A retry loop makes the attempts its policy allows, and returns what the last one gave.
    Whatever operations a refresh service performs on its status, in whatever order, the
    status stays well formed; and it says that nothing is pending only when every change
    was followed by the start and then the success of a refresh. *)
From S2P Require Import Prelude Order Text Json Watch Refresh.
#[local] Open Scope Z_scope.

(** ** Retrying the database *)
Section database.
Context {S T E : Type} (operation : S -> result E T * S) (to_string : E -> string) (thread_sleep : Z -> S -> S).

(** The state before the [k]th attempt, counted from 0, when all before it have failed. *)
Fixpoint before_attempt_number (policy : RetryPolicy) (delay : Z) (s : S) (k : nat) : S :=
  match k with
  | O => s
  | Datatypes.S k => before_attempt_number policy (next_delay (max_delay policy) delay) (thread_sleep delay (operation s).2) k
  end.
Definition transient (r : result E T) : Prop := exists e, r = Err e /\ is_transient_database_error (to_string e) = true.

Lemma database_attempts_spec n policy delay s :
  (1 <= n)%nat ->
  exists k, (k < n)%nat /\
    database_attempts operation to_string thread_sleep n policy delay s = operation (before_attempt_number policy delay s k) /\
    (forall j, (j < k)%nat -> transient (operation (before_attempt_number policy delay s j)).1) /\
    (Datatypes.S k = n \/ ~ transient (operation (before_attempt_number policy delay s k)).1).
Proof.
  revert delay s. induction n as [|n IH]; intros delay s Hn; [lia|]. cbn [database_attempts].
  destruct (operation s) as [[v|e] s1] eqn:Ho.
  { exists 0%nat. cbn. rewrite Ho. split_and!; [lia|done|lia|]. right. by intros (e & ? & _). }
  destruct n as [|n]; [exists 0%nat; cbn; rewrite Ho; split_and!; [lia|done|lia|by left]|].
  destruct (is_transient_database_error (to_string e)) eqn:Ht; cbn [negb].
  - destruct (IH (next_delay (max_delay policy) delay) (thread_sleep delay s1) ltac:(lia)) as (k & Hk & Hr & Hj & Hl).
    exists (Datatypes.S k). cbn [before_attempt_number]. rewrite Ho. split_and!; [lia|done| |by destruct Hl; [left; lia|right]].
    intros [|j] Hlt; [cbn; rewrite Ho; by exists e|]. cbn [before_attempt_number]. rewrite Ho. apply Hj. lia.
  - exists 0%nat. cbn. rewrite Ho. split_and!; [lia|done|lia|]. right. intros (e' & [= <-] & ?). congruence.
Qed.

(** An operation on the database is tried at most as often as its policy says, and once
    at least; every attempt but the last failed with an error that may pass, and the last
    one decides: it succeeded, or failed for good, or was the last allowed. *)
Theorem retry_transient_database_spec policy s :
  exists k, (k < Z.to_nat (Z.max 1 (max_attempts policy)))%nat /\
    let last := before_attempt_number policy (initial_delay policy) s k in
    retry_transient_database operation to_string thread_sleep policy s = operation last /\
    (forall j, (j < k)%nat -> transient (operation (before_attempt_number policy (initial_delay policy) s j)).1) /\
    (Datatypes.S k = Z.to_nat (Z.max 1 (max_attempts policy)) \/ ~ transient (operation last).1).
Proof. apply database_attempts_spec. lia. Qed.
End database.

(** ** The status of a service *)
Inductive StatusEvent :=
| MarkLeader (pid : Z) | MarkStandby | SetEffectiveRoot (root : string) | SetReconcileInterval (ms : Z)
| SetExecutionSettings (chunk parallelism : Z) | SetBackend (name : string) | SetError (name error : string)
| Disable (name error : string) | MarkPolicyDisabled | MarkPolicyDisabledUntil (t : Z) | MarkPending (now : Z)
| MarkDirty (now : Z) | Acknowledge (epoch now : Z) | MarkRetrying (t now : Z) | MarkBlocked (now : Z)
| MarkBlockedUntil (t now : Z) | MarkStopped (now : Z) | SetWorkerPid (pid : option Z) | MarkRefreshing (name : string) (now : Z)
| MarkRefreshError (name : string) (events changed : Z) (error : string) (retrying : bool) (now : Z)
| MarkRefreshed (m : RefreshStatusMetrics) (pid now : Z).

Definition on_event (e : StatusEvent) (s : RefreshStatus) : RefreshStatus :=
  match e with
  | MarkLeader pid => mark_leader pid s
  | MarkStandby => mark_standby s
  | SetEffectiveRoot root => set_effective_root root s
  | SetReconcileInterval ms => set_reconcile_interval ms s
  | SetExecutionSettings chunk parallelism => set_execution_settings chunk parallelism s
  | SetBackend name => set_backend name s
  | SetError name error => set_error name error s
  | Disable name error => disable name error s
  | MarkPolicyDisabled => mark_policy_disabled s
  | MarkPolicyDisabledUntil t => mark_policy_disabled_until t s
  | MarkPending now => mark_pending now s
  | MarkDirty now => (mark_dirty_at now s).2
  | Acknowledge epoch now => acknowledge_reconciliation_locked epoch now s
  | MarkRetrying t now => mark_retrying t now s
  | MarkBlocked now => mark_blocked now s
  | MarkBlockedUntil t now => mark_blocked_until t now s
  | MarkStopped now => mark_stopped now s
  | SetWorkerPid pid => set_worker_pid pid s
  | MarkRefreshing name now => mark_refreshing name now s
  | MarkRefreshError name events changed error retrying now => mark_refresh_error name events changed error retrying now s
  | MarkRefreshed m pid now => mark_refreshed m pid now s
  end.
Definition run_events (es : list StatusEvent) (s : RefreshStatus) : RefreshStatus := foldl (fun s e => on_event e s) s es.

Definition states : list string := ["starting"; "running"; "retrying"; "blocked"; "stopped"; "standby"; "disabled"].
Definition roles : list string := ["starting"; "leader"; "standby"; "blocked"; "stopped"; "disabled"].

Record status_ok (s : RefreshStatus) : Prop := {
  so_state : state s ∈ states;
  so_role : role s ∈ roles;
  so_epochs : 0 <= reconciled_epoch s <= dirty_epoch s /\ 0 <= refreshing_epoch s <= dirty_epoch s /\ dirty_epoch s <= u64_max;
  so_dead : task_alive s = false -> (state s = "stopped" \/ state s = "disabled") /\ leader_pid s = None /\ refreshing s = false;
  so_refreshing : refreshing s = true -> task_alive s = true /\ state s = "running";
  so_oldest : pending s = true \/ reconciled_epoch s < dirty_epoch s -> is_Some (oldest_pending_unix_ms s);
  so_error : is_Some (last_error s) -> 1 <= last_error_count s;
  so_counts : 0 <= last_error_count s /\ 0 <= blocked_retry_count s
}.

(** Cases of the operations, and what can be read off each field of the result. *)
Ltac status_cases :=
  unfold set_error, set_backend, mark_refresh_error, mark_refreshed, acknowledge_reconciliation_locked, mark_dirty_at, mark_pending,
    mark_retrying, mark_blocked_until, mark_blocked, mark_stopped, mark_refreshing, running_unless_standby, oldest_if_pending, oldest_is,
    saturating_add_u64, saturating_sub_u64, count_error in *; cbn in *;
  repeat (match goal with |- context [if ?b then _ else _] => destruct b eqn:?
                     | |- context [match ?o with Some _ => _ | None => _ end] => destruct o eqn:? end; cbn in *).

Lemma default_status_ok interval chunk parallelism : status_ok (default_status interval chunk parallelism).
Proof. constructor; cbn; try done; [apply (bool_decide_unpack _); done|apply (bool_decide_unpack _); done|by intros [?|?]]. Qed.

Lemma listed (x : string) (l : list string) : bool_decide (x ∈ l) = true -> x ∈ l.
Proof. apply bool_decide_eq_true. Qed.

Ltac status_field :=
  first [done | (apply listed; reflexivity) | lia | (intros; lia) | (intros; by eexists) | (intros; split_and!; (done || tauto || (by left) || (by right)))
        | tauto | (intros; split; lia) | (intros []; done)].
Lemma on_event_ok e s : status_ok s -> status_ok (on_event e s).
Proof.
  intros [H1 H2 H3 H4 H5 H6 H7 H8]. destruct s; cbn in *.
  destruct e; cbn [on_event]; status_cases; constructor; cbn; unfold saturating_add_u64, u64_max, u32_max in *; try status_field.
  all: intros; apply H6; right; lia.
Qed.

Lemma run_events_ok es s : status_ok s -> status_ok (run_events es s).
Proof. revert s. induction es as [|e es IH]; intros s Hs; [done|]. by apply IH, on_event_ok. Qed.

(** C29: Whatever operations are performed on the status of a refresh service, in whatever
    order: its state and its role are ones the contract names; no more epochs are reconciled
    than are dirty; a task that is over is stopped or disabled and leads and refreshes
    nothing; one that refreshes is alive and running; what is pending has an age; and an
    error has been counted. *)
Theorem status_well_formed interval chunk parallelism es : status_ok (run_events es (default_status interval chunk parallelism)).
Proof. apply run_events_ok, default_status_ok. Qed.

(** ** What the epochs say of a history *)
Definition is_dirty (e : StatusEvent) : bool := match e with MarkDirty _ => true | _ => false end.
Definition starts (e : StatusEvent) : bool := match e with MarkRefreshing _ _ => true | _ => false end.
Definition succeeds (e : StatusEvent) : bool := match e with MarkRefreshed _ _ _ => true | _ => false end.
(** [disable] gives the pending work up, and [acknowledge_reconciliation] has no caller. *)
Definition keeps_work (e : StatusEvent) : bool := match e with Disable _ _ | Acknowledge _ _ => false | _ => true end.
Definition dirt (es : list StatusEvent) : Z := Z.of_nat (length (List.filter is_dirty es)).

Lemma on_event_epochs e s :
  dirty_epoch (on_event e s) = (if is_dirty e then Z.min (dirty_epoch s + 1) u64_max else dirty_epoch s) /\
  refreshing_epoch (on_event e s) = (if starts e then dirty_epoch s else refreshing_epoch s) /\
  (keeps_work e = true ->
   reconciled_epoch (on_event e s) = (if succeeds e then Z.max (reconciled_epoch s) (Z.min (refreshing_epoch s) (dirty_epoch s)) else reconciled_epoch s)).
Proof.
  destruct s, e; cbn [on_event is_dirty starts succeeds keeps_work]; status_cases; split_and!; intros; try done; lia.
Qed.
Lemma on_event_pending e s :
  keeps_work e = true -> pending (on_event e s) = false ->
  (pending s = false /\ is_dirty e = false /\ succeeds e = false) \/
  (succeeds e = true /\ dirty_epoch (on_event e s) <= reconciled_epoch (on_event e s)).
Proof.
  destruct s, e; cbn [on_event is_dirty starts succeeds keeps_work]; status_cases; intros; try done; try (by left); right; split; try done; lia.
Qed.

Lemma dirt_app es e : dirt (es ++ [e]) = dirt es + (if is_dirty e then 1 else 0).
Proof. unfold dirt. rewrite List.filter_app, length_app. cbn. destruct (is_dirty e); cbn; lia. Qed.
Lemma dirt_app_mono es1 es2 : dirt es1 <= dirt (es1 ++ es2).
Proof. unfold dirt. rewrite List.filter_app, length_app. lia. Qed.

(** A change was followed by the start of a refresh, or by a start and a success. *)
Definition started_since (es : list StatusEvent) : Prop := exists e, e ∈ es /\ starts e = true.
Definition refreshed_since (es : list StatusEvent) : Prop :=
  exists es1 e1 es2 e2 es3, es = es1 ++ e1 :: es2 ++ e2 :: es3 /\ starts e1 = true /\ succeeds e2 = true.

Record history_ok (es : list StatusEvent) (s : RefreshStatus) : Prop := {
  ho_dirty : dirty_epoch s = dirt es;
  ho_started es1 e es2 : es = es1 ++ e :: es2 -> is_dirty e = true -> dirt es1 < refreshing_epoch s -> started_since es2;
  ho_refreshed es1 e es2 : es = es1 ++ e :: es2 -> is_dirty e = true -> dirt es1 < reconciled_epoch s -> refreshed_since es2;
  ho_pending : pending s = false -> dirty_epoch s <= reconciled_epoch s
}.

Lemma app_cons_snoc {A} (l : list A) x l1 y l2 : l1 ++ y :: l2 = l ++ [x] ->
  (l2 = [] /\ y = x /\ l1 = l) \/ exists l2', l2 = l2' ++ [x] /\ l = l1 ++ y :: l2'.
Proof.
  destruct l2 as [|z l2 _] using rev_ind; intros E.
  - left. by apply app_inj_tail in E as [-> ->].
  - right. exists l2. rewrite app_comm_cons, app_assoc in E. by apply app_inj_tail in E as [<- ->].
Qed.
Lemma started_since_snoc es e : started_since es \/ starts e = true -> started_since (es ++ [e]).
Proof. intros [(x & Hx & Hs)|Hs]; [exists x|exists e]; split; set_solver. Qed.
Lemma refreshed_since_snoc es e : refreshed_since es \/ (started_since es /\ succeeds e = true) -> refreshed_since (es ++ [e]).
Proof.
  intros [(es1 & e1 & es2 & e2 & es3 & -> & H1 & H2)|[(e1 & Hx & H1) H2]].
  - exists es1, e1, es2, e2, (es3 ++ [e]). split; [|done]. rewrite <- app_assoc. simpl. by rewrite <- app_assoc.
  - apply list_elem_of_split in Hx as (es1 & es2 & ->). exists es1, e1, es2, e, []. split; [|done]. by rewrite <- app_assoc.
Qed.

Lemma run_events_snoc es e s : run_events (es ++ [e]) s = on_event e (run_events es s).
Proof. unfold run_events. by rewrite foldl_app. Qed.

Lemma history_holds es interval chunk parallelism :
  Forall (fun e => keeps_work e = true) es -> dirt es <= u64_max ->
  history_ok es (run_events es (default_status interval chunk parallelism)).
Proof.
  set (s0 := default_status _ _ _). induction es as [|e es IH] using rev_ind; intros Hk Hd.
  { constructor; [done|by intros [|? ?]..|done]. }
  apply Forall_app in Hk as [Hk [Hke _]%Forall_cons]. rewrite dirt_app in Hd.
  destruct IH as [H1 H2 H3 H4]; [done|destruct (is_dirty e); lia|]. rewrite run_events_snoc.
  pose proof (run_events_ok es s0 (default_status_ok _ _ _)) as [_ _ [Hr [Hf Hmax]] _ _ _ _ _]. set (s := run_events es s0) in *.
  destruct (on_event_epochs e s) as (E1 & E2 & E3). specialize (E3 Hke). constructor.
  - rewrite E1, dirt_app, H1. destruct (is_dirty e); lia.
  - intros es1 e1 es2 El He1 Hlt. symmetry in El. apply app_cons_snoc in El as [(-> & -> & ->)|(es2' & -> & El)].
    + rewrite E2 in Hlt. destruct e; cbn in *; try done. lia.
    + apply started_since_snoc. rewrite E2 in Hlt. destruct (starts e); [by right|left]. by apply (H2 es1 e1).
  - intros es1 e1 es2 El He1 Hlt. symmetry in El. apply app_cons_snoc in El as [(-> & -> & ->)|(es2' & -> & El)].
    + rewrite E3 in Hlt. destruct e; cbn in *; try done. lia.
    + apply refreshed_since_snoc. rewrite E3 in Hlt. destruct (succeeds e); [|left; by apply (H3 es1 e1)].
      apply Z.max_lt_iff in Hlt as [Hlt|Hlt]; [left; by apply (H3 es1 e1)|]. right. split; [|done]. apply (H2 es1 e1); [done|done|lia].
  - intros Hp. destruct (on_event_pending e s Hke Hp) as [(P1 & P2 & P3)|[_ P2]]; [|done]. rewrite E1, E3, P2, P3. by apply H4.
Qed.

(** No change of the sources is forgotten.  In a history of a refresh service in which
    pending work is not given up, and that has no more changes than an epoch can count, the
    status says that nothing is pending only if every change was followed by the start of a
    refresh, and that by a success; an edit that arrives while a refresh runs is not taken
    for done by it. *)
Theorem changes_not_forgotten es1 now es2 interval chunk parallelism :
  let es := es1 ++ MarkDirty now :: es2 in
  Forall (fun e => keeps_work e = true) es -> dirt es <= u64_max ->
  pending (run_events es (default_status interval chunk parallelism)) = false ->
  exists a e1 b e2 c, es2 = a ++ e1 :: b ++ e2 :: c /\ starts e1 = true /\ succeeds e2 = true.
Proof.
  intros es Hk Hd Hp. destruct (history_holds es interval chunk parallelism Hk Hd) as [H1 _ H3 H4].
  apply (H3 es1 (MarkDirty now)); [done|done|]. specialize (H4 Hp). rewrite H1 in H4. unfold es in H4 at 1.
  pose proof (dirt_app_mono (es1 ++ [MarkDirty now]) es2) as Hm. rewrite <- app_assoc, dirt_app in Hm. cbn in Hm. fold es in Hm. unfold es in Hm.
  cbn in *. lia.
Qed.

(** And conversely: a success, behind which no change and no other start lie since the
    start of its refresh, leaves nothing pending. *)
Theorem success_clears es1 name now es2 m pid now' interval chunk parallelism :
  existsb (fun e => is_dirty e || starts e) es2 = false ->
  let s := run_events (es1 ++ MarkRefreshing name now :: es2 ++ [MarkRefreshed m pid now']) (default_status interval chunk parallelism) in
  pending s = false /\ refreshing s = false /\ state s = "running" /\ reconciled_epoch s = dirty_epoch s /\ next_retry_unix_ms s = None.
Proof.
  intros Hno s. set (s1 := run_events es1 (default_status interval chunk parallelism)).
  assert (status_ok s1) as Hs1 by apply run_events_ok, default_status_ok.
  assert (forall es s, status_ok s -> existsb (fun e => is_dirty e || starts e) es = false -> refreshing_epoch s = dirty_epoch s ->
    status_ok (run_events es s) /\ refreshing_epoch (run_events es s) = dirty_epoch (run_events es s)) as Hkeep.
  { clear. intros es. induction es as [|e es IH]; intros s Hs Hno He; [done|]. cbn in Hno. apply orb_false_iff in Hno as [[Hd Hst]%orb_false_iff Hno].
    apply IH; [by apply on_event_ok|done|]. destruct (on_event_epochs e s) as (E1 & E2 & _). by rewrite E1, E2, Hd, Hst. }
  assert (s = on_event (MarkRefreshed m pid now') (run_events es2 (on_event (MarkRefreshing name now) s1))) as ->.
  { unfold s, s1, run_events. rewrite foldl_app. cbn [foldl]. by rewrite foldl_app. }
  destruct (Hkeep es2 (on_event (MarkRefreshing name now) s1)) as [H1 H2]; [by apply on_event_ok|done| |].
  { destruct (on_event_epochs (MarkRefreshing name now) s1) as (E1 & E2 & _). by rewrite E1, E2. }
  set (s2 := run_events es2 _) in *. destruct H1 as [_ _ Hep _ _ _ _ _]. clearbody s2. destruct s2; cbn in *.
  cbn [on_event]; status_cases; split_and!; try done; lia.
Qed.

(** ** The waits of a service that is blocked *)
Definition fails (e : StatusEvent) : bool := match e with MarkRefreshError _ _ _ _ false _ => true | _ => false end.
(** Failures that were not worth another try, since the last success *)
Definition failures (es : list StatusEvent) : Z :=
  foldl (fun k e => if fails e then k + 1 else if succeeds e then 0 else k) 0 es.

Lemma on_event_blocked e s :
  blocked_retry_count (on_event e s) =
  if fails e then Z.min (blocked_retry_count s + 1) u32_max else if succeeds e then 0 else blocked_retry_count s.
Proof. destruct s, e as [| | | | | | | | | | | | | | | | | | |? ? ? ? []|]; cbn [on_event fails succeeds]; status_cases; done. Qed.
Lemma failures_nonneg es : 0 <= failures es.
Proof.
  unfold failures. induction es as [|e es IH] using rev_ind; [done|]. rewrite foldl_app. cbn. destruct (fails e), (succeeds e); lia.
Qed.
Lemma blocked_count es interval chunk parallelism :
  blocked_retry_count (run_events es (default_status interval chunk parallelism)) = Z.min (failures es) u32_max.
Proof.
  induction es as [|e es IH] using rev_ind; [done|]. rewrite run_events_snoc, on_event_blocked, IH.
  pose proof (failures_nonneg es) as Hn. unfold failures in *. rewrite foldl_app. cbn.
  destruct (fails e), (succeeds e); unfold u32_max in *; lia.
Qed.
Lemma blocked_delay_eq k : 0 <= k -> blocked_delay_ms (Z.min (k + 1) u32_max) = 1000 * Z.min 60 (5 * 2 ^ k).
Proof.
  intros Hk. unfold blocked_delay_ms. assert (k < 4 \/ 4 <= k) as [Hs|Hs] by lia.
  - assert (k = 0 \/ k = 1 \/ k = 2 \/ k = 3) as [-> | [-> | [-> | ->]]] by lia; reflexivity.
  - assert (2 ^ 4 <= 2 ^ k) as Hp by (apply Z.pow_le_mono_r; lia). change (2 ^ 4) with 16 in Hp.
    assert (Z.min (saturating_sub_u64 (Z.min (k + 1) u32_max) 1) 4 = 4) as ->
      by (unfold saturating_sub_u64, u32_max; lia). change (Z.shiftl 1 4) with 16. unfold u64_max. lia.
Qed.
Lemma retry_delay_bounds now now' d s :
  next_retry_unix_ms s = Some (saturating_add_u128 now d) -> now <= now' -> 1000 <= d -> 0 < service_retry_delay now' s <= d.
Proof.
  intros Hs Hn Hd. unfold service_retry_delay. rewrite Hs. unfold saturating_add_u128, u64_max in *.
  destruct (Z.ltb_spec (Z.min (now + d) u128_max) now'); [lia|]. destruct (Z.eqb_spec (Z.min (Z.min (now + d) u128_max - now') (2 ^ 64 - 1)) 0); lia.
Qed.

(** A refresh that fails for good makes the service wait 5 s, and twice as long with each
    further failure before a success, up to a minute; whenever the wait is then computed, it
    is neither empty nor longer than that. *)
Theorem blocked_backoff es name events changed error now interval chunk parallelism :
  let s := run_events (es ++ [MarkRefreshError name events changed error false now]) (default_status interval chunk parallelism) in
  let wait := 1000 * Z.min 60 (5 * 2 ^ failures es) in
  next_retry_unix_ms s = Some (saturating_add_u128 now wait) /\ 5000 <= wait <= 60000 /\
  forall now', now <= now' -> 0 < service_retry_delay now' s <= wait.
Proof.
  intros s wait. pose proof (failures_nonneg es) as Hn. assert (1 <= 2 ^ failures es) as Hp by lia.
  assert (next_retry_unix_ms s = Some (saturating_add_u128 now wait)) as Hs.
  { unfold s. rewrite run_events_snoc. unfold wait. rewrite <- (blocked_delay_eq (failures es)) by done.
    pose proof (blocked_count es interval chunk parallelism) as Hc. set (s0 := run_events es _) in *. clearbody s0.
    replace (Z.min (failures es + 1) u32_max) with (Z.min (blocked_retry_count s0 + 1) u32_max) by (unfold u32_max in *; lia).
    destruct s0 as [? ? ? ? ? ? ? ? ? ? ? ? [] ? ? ? ? ? ? ? ? ? ? ? ? ? ? ? ? ? ? ? ? ? ? ?]; reflexivity. }
  split_and!; [done|unfold wait; lia..|]. intros now' Hle. apply (retry_delay_bounds now); [done|done|unfold wait; lia].
Qed.

(** ** A service that is told of a change, fails once, and then succeeds *)
Module Sample.
Definition metrics : RefreshStatusMetrics :=
  {| m_backend := "poll"; m_event_count := 1; m_changed_paths := 1; m_rebuilt := 1; m_deleted := 0; m_database_written := true;
     m_overflow_count := 0; m_filtered_event_count := 0; m_phase_high_water_marks := ∅; m_spill_bytes := 0 |}.
Definition later : list StatusEvent :=
  [MarkRefreshing "poll" 20; MarkRefreshError "poll" 1 1 "database is locked" true 30; MarkRetrying 1030 30;
   MarkRefreshing "poll" 1040; MarkRefreshed metrics 7 1050].
Definition history : list StatusEvent := [MarkLeader 7; SetBackend "poll"] ++ MarkDirty 10 :: later.

Lemma changes_not_forgotten_witness :
  pending (run_events history (default_status 300000 64 4)) = false /\
  exists a e1 b e2 c, later = a ++ e1 :: b ++ e2 :: c /\ starts e1 = true /\ succeeds e2 = true.
Proof.
  split; [vm_compute; reflexivity|].
  apply (changes_not_forgotten [MarkLeader 7; SetBackend "poll"] 10 later 300000 64 4);
    [repeat constructor|vm_compute; discriminate|vm_compute; reflexivity].
Defined.

Definition before : list StatusEvent := [MarkLeader 7; SetBackend "poll"; MarkDirty 10; MarkDirty 15].
Lemma success_clears_witness :
  existsb (fun e => is_dirty e || starts e) [SetWorkerPid (Some 9)] = false /\
  pending (run_events (before ++ [MarkRefreshing "poll" 20; SetWorkerPid (Some 9); MarkRefreshed metrics 7 30]) (default_status 300000 64 4)) = false.
Proof. split; [reflexivity|]. apply (success_clears before "poll" 20 [SetWorkerPid (Some 9)] metrics 7 30 300000 64 4). reflexivity. Defined.
End Sample.
