(* ===== verification/Service.v ===== *)
(** * The refresh service as a whole

    What the service promises, of its surroundings, to the theorems ([ServiceLaws]): they
    touch its status by the status's own operations alone.  A batch is then refreshed in
    at most four attempts, with an outcome that the status tells; and the service's poll
    loop, however long it runs, keeps its status well formed and forgets no change. *)
From S2P Require Import Prelude Order Text Json Watch Refresh RefreshLaws.
#[local] Open Scope rust_scope.
#[local] Open Scope Z_scope.

(** ** Worlds a loop leads to *)
Section kept.
Context {W : Type} `{Watching W} (config : RefreshLoopConfig) (P : W -> Prop).
Context (Hpass : forall w, P w -> P (pass w)) (Hsleep : forall d w, P w -> P (sleep d w)).
Context (Hbefore : forall b w, P w -> P (before_refresh b w)) (Hrefresh : forall b w, P w -> P (Watch.refresh b w).2).
Implicit Types (r : Run W).

Lemma ask_kept {A} (q : W -> A) r x r' : ask q r = (x, r') -> P (world r) -> P (world r').
Proof. intros [= <- <-]. apply Hpass. Qed.
Lemma look_kept r s r' : look r = (s, r') -> P (world r) -> P (world r').
Proof. unfold look, ask. intros [= <- <-] Hr. destruct (watch_file_snapshot _); by apply Hpass. Qed.
Lemma is_due_kept deadline r x r' : is_due deadline r = (x, r') -> P (world r) -> P (world r').
Proof. destruct deadline; intros [= <- <-]; [apply Hpass|done]. Qed.
Lemma after_interval_kept d r x r' : after_interval d r = (x, r') -> P (world r) -> P (world r').
Proof. destruct d; intros [= <- <-]; [apply Hpass|done]. Qed.

(** One step of a run: the operations are taken apart, first to last. *)
Ltac kept_step :=
  match goal with
  | Hr : P (world ?r) |- context [ask ?q ?r] =>
      let E := fresh "E" in destruct (ask q r) as [? ?] eqn:E; apply (ask_kept _ _ _ _ E) in Hr as ?; clear E
  | Hr : P (world ?r) |- context [look ?r] =>
      let E := fresh "E" in destruct (look r) as [? ?] eqn:E; apply (look_kept _ _ _ E) in Hr as ?; clear E
  | Hr : P (world ?r) |- context [is_due ?d ?r] =>
      let E := fresh "E" in destruct (is_due d r) as [? ?] eqn:E; apply (is_due_kept _ _ _ _ E) in Hr as ?; clear E
  | Hr : P (world ?r) |- context [after_interval ?d ?r] =>
      let E := fresh "E" in destruct (after_interval d r) as [? ?] eqn:E; apply (after_interval_kept _ _ _ _ E) in Hr as ?; clear E
  end.
Ltac stop_step := kept_step; match goal with |- context [if ?b then _ else _] => is_var b; destruct b; [by intros [= <-]|] end.
Ltac look_step := kept_step; match goal with |- context [match ?s with Ok _ => _ | Err _ => _ end] => is_var s; destruct s; [|by intros [= <-]] end.

Lemma debounce_kept fuel started last previous batch r x : debounce_loop config fuel started last previous batch r = Some x ->
  P (world r) -> P (world x.2).
Proof.
  revert last previous batch r. induction fuel as [|fuel IH]; intros last previous batch r; [done|]. cbn [debounce_loop]. intros Hrun Hr.
  revert Hrun. stop_step. kept_step. destruct (max_wait config <=? _); [by intros [= <-]|].
  kept_step. destruct (debounce config <=? _); [by intros [= <-]|]. cbv zeta.
  match goal with |- context [look (on_world (sleep ?d) ?r)] => assert (P (world (on_world (sleep d) r))) by (simpl; auto) end.
  look_step. case_decide; [|kept_step]; intros Hrun; by apply IH in Hrun.
Qed.
Lemma collect_kept fuel deadline previous r x : collect_poll_batch_until config fuel deadline previous r = Some x -> P (world r) -> P (world x.2).
Proof.
  revert previous r. induction fuel as [|fuel IH]; intros previous r; [done|]. cbn [collect_poll_batch_until]. intros Hrun Hr.
  revert Hrun. stop_step.
  match goal with |- context [let '(sleep_for, r0) := ?e in _] => assert (P (world e.2)) by (destruct deadline; [apply Hpass|]; done); destruct e as [d r1] end.
  cbn [snd] in *. match goal with |- context [ask should_stop ?r] => assert (P (world r)) by (destruct (d =? 0); simpl; auto) end.
  stop_step. look_step. case_decide.
  - match goal with |- context [let '(over, r0) := ?e in _] => assert (P (world e.2)) by (destruct deadline; [apply Hpass|]; done); destruct e as [[] ?] end;
      [by intros [= <-]|]. intros Hrun. by apply IH in Hrun.
  - kept_step. intros Hrun. by apply debounce_kept in Hrun.
Qed.
Lemma serve_kept interval l b r : P (world r) -> P (world (serve config interval l b r).2).
Proof.
  intros Hr. unfold serve. cbv zeta. set (j := match pending_failed l with Some _ => _ | None => _ end).
  set (r1 := if _ || _ then _ else r). assert (P (world r1)) by (unfold r1; destruct (_ || _); simpl; auto). clearbody r1 j.
  destruct (restart_on_config && _); [done|]. kept_step. kept_step. set (k := if _ || _ then _ else j). destruct (_ && negb b0); [done|].
  pose proof (Hrefresh k (world r2)) as Hw. destruct (Watch.refresh k (world r2)) as [[[]|e] w]; cbn [snd] in Hw.
  - match goal with |- context [let '(next, r0) := ?e in _] => assert (P (world e.2)) by (destruct (full_rescan k), interval; simpl; auto); destruct e as [? ?] end.
    destruct (match max_iterations config with Some _ => _ | None => _ end); done.
  - simpl. auto.
  - simpl. auto.
Qed.
Lemma round_kept fuel interval l r x : poll_round config fuel interval l r = Some x -> P (world r) -> P (world x.2).
Proof.
  unfold poll_round. intros Hrun Hr. revert Hrun. stop_step.
  destruct (collect_poll_batch_until _ _ _ _ _) as [[[s cur] r1]|] eqn:Hc; [|done]. apply collect_kept in Hc; [|done]. cbn [snd] in Hc.
  destruct s as [s|e]; [|by intros [= <-]].
  match goal with |- context [let '(stop, r0) := ?e in _] => assert (P (world e.2)) by (destruct s; simpl; auto); destruct e as [[] ?] end;
    [by intros [= <-]|]. intros [= <-]. by apply serve_kept, Hpass.
Qed.
Lemma rounds_kept fuel rounds interval l r : P (world r) -> P (world (poll_rounds config fuel rounds interval l r).2).
Proof.
  revert l r. induction rounds as [|n IH]; intros l r Hr; [done|]. cbn [poll_rounds].
  destruct (poll_round config fuel interval l r) as [[f r1]|] eqn:E; [|done]. apply round_kept in E; [|done]. destruct f; [by apply IH|done].
Qed.
Lemma run_kept fuel interval r : P (world r) -> P (world (run_poll_watch_until config fuel interval r).2).
Proof.
  intros Hr. unfold run_poll_watch_until, start_loop. kept_step. destruct r0 as [s|e]; [|done]. kept_step.
  match goal with |- context [poll_rounds config fuel fuel interval ?l ?r] => pose proof (rounds_kept fuel fuel interval l r) as Hk; destruct (poll_rounds config fuel fuel interval l r) as [[] ?] end;
    by apply Hk.
Qed.
End kept.

(** ** What surrounds the service *)
Definition work_known (st : RefreshStatus) : Prop := pending st = false -> dirty_epoch st <= reconciled_epoch st.
Definition keeping (es : list StatusEvent) : Prop := Forall (fun e => keeps_work e = true) es.

Section service.
Context {S R : Type} `{Service S R} `{Files S}.
Implicit Types (s : S).

(** The status went on by operations that give no work up. *)
Definition steps s s' : Prop := exists es, keeping es /\ status s' = run_events es (status s).
Class ServiceLaws := {
  status_on f s : status (on_status f s) = f (status s);
  unix_ms_on f s : service_unix_ms (on_status f s) = service_unix_ms s;
  sleep_steps d s : steps s (service_sleep d s);
  pass_steps s : steps s (service_pass s);
  execute_steps l s : steps s (execute_isolated l s).2
}.
Context `{!ServiceLaws}.

#[local] Instance steps_preorder : PreOrder steps.
Proof.
  split; [intros s; exists []; split; [by constructor|done]|]. intros s1 s2 s3 (es1 & K1 & E1) (es2 & K2 & E2). exists (es1 ++ es2).
  split; [by apply Forall_app|]. unfold run_events in *. by rewrite foldl_app, <- E1.
Qed.
Lemma on_status_step e f s : keeps_work e = true -> (forall st, f st = on_event e st) -> steps s (on_status f s).
Proof. intros He Hf. exists [e]. split; [by repeat constructor|]. by rewrite status_on, Hf. Qed.
Lemma steps_keep s s' : steps s s' -> status_ok (status s) /\ work_known (status s) -> status_ok (status s') /\ work_known (status s').
Proof.
  intros (es & Hk & ->) Hs. induction es as [|e es IH] using rev_ind; [done|]. apply Forall_app in Hk as [Hk [He _]%Forall_cons].
  destruct (IH Hk) as [I1 I2]. rewrite run_events_snoc. split; [by apply on_event_ok|]. set (st := run_events es _) in *.
  intros Hp. destruct (on_event_pending e st He Hp) as [(P1 & P2 & P3)|[_ P2]]; [|done].
  destruct (on_event_epochs e st) as (E1 & _ & E3). specialize (E3 He). rewrite E1, E3, P2, P3. by apply I2.
Qed.

(** ** A batch *)
(** What the status says after a success and after a failure at [now]. *)
Definition settled (st : RefreshStatus) : Prop :=
  task_alive st = true /\ state st = "running" /\ refreshing st = false /\ next_retry_unix_ms st = None /\ last_error st = None.
Definition unsettled (now : Z) (st : RefreshStatus) : Prop :=
  pending st = true /\ refreshing st = false /\
  ((state st = "retrying" /\ next_retry_unix_ms st = None) \/
   (state st = "blocked" /\ exists d, 5000 <= d <= 60000 /\ next_retry_unix_ms st = Some (saturating_add_u128 now d))).

Lemma mark_refreshed_settled m pid now st : settled (mark_refreshed m pid now st).
Proof. destruct st. status_cases; done. Qed.
Lemma blocked_delay_bounds k : 5000 <= blocked_delay_ms k <= 60000.
Proof.
  unfold blocked_delay_ms. assert (0 <= Z.min (saturating_sub_u64 k 1) 4 <= 4) as Hs by (unfold saturating_sub_u64; lia).
  set (shift := Z.min (saturating_sub_u64 k 1) 4) in *. clearbody shift.
  assert (shift = 0 \/ shift = 1 \/ shift = 2 \/ shift = 3 \/ shift = 4) as [-> | [-> | [-> | [-> | ->]]]] by lia; by vm_compute.
Qed.
Lemma mark_refresh_error_unsettled name events changed error retrying now st :
  unsettled now (mark_refresh_error name events changed error retrying now st).
Proof.
  destruct st as [? ? ? ? ? ? ? ? ? ? ? ? [] ? ? ? ? ? ? ? ? ? ? ? ? ? ? ? ? ? ? ? ? ? ? n], retrying;
    (split; [done|]; split; [done|]); (left; done) || (right; split; [done|]; eexists; split; [apply (blocked_delay_bounds (Z.min (n + 1) u32_max))|done]).
Qed.

Section batch.
Context (name : string) (overflows filtered : Z).
Let attempt := refresh_attempt parse_json (StateRefreshObserver name overflows filtered) execute_isolated.

Lemma attempt_spec k events changed l s :
  exists x s', attempt k events changed l (Some 4) s = (x, s') /\ steps s s' /\
    match x with
    | Some (Ok true) => settled (status s')
    | Some (Ok false) => unsettled (service_unix_ms s') (status s')
    | Some (Err _) => False
    | None => k < 4
    end.
Proof.
  unfold attempt, refresh_attempt. cbn -[mark_pending mark_refreshing mark_refreshed mark_refresh_error].
  set (s1 := on_status (mark_pending _) s). set (s2 := on_status _ s1).
  assert (steps s s1) as S1 by (by apply (on_status_step (MarkPending (service_unix_ms s)))).
  assert (steps s1 s2) as S2 by (by apply (on_status_step (MarkRefreshing name (service_unix_ms s1)))).
  pose proof (execute_steps l s2) as S3. destruct (execute_isolated l s2) as [[response|error] s3]; cbn [snd] in S3.
  - do 2 eexists. split; [done|]. split.
    + rewrite S1, S2, S3. by eapply (on_status_step (MarkRefreshed _ _ _)).
    + rewrite status_on. apply mark_refreshed_settled.
  - set (retrying := is_retryable_refresh_failure _ _). set (s4 := on_status _ s3).
    assert (steps s s4) as S4.
    { rewrite S1, S2, S3. by apply (on_status_step (MarkRefreshError name events changed error retrying (service_unix_ms s3))). }
    change (4 `max` 1) with 4. destruct (negb retrying || (4 <=? k)) eqn:Hlast; do 2 eexists; (split; [done|]; split; [done|]).
    + unfold s4. rewrite status_on, unix_ms_on. apply mark_refresh_error_unsettled.
    + apply orb_false_iff in Hlast as [_ Hlast]. lia.
Qed.

Lemma attempts_spec fuel k delay events changed l s :
  0 <= k < 4 -> (Z.to_nat (4 - k) <= fuel)%nat ->
  exists ok s', refresh_attempts parse_json service_sleep (StateRefreshObserver name overflows filtered) execute_isolated fuel
      default_retry_policy k delay events changed l (Some 4) s = (Some (Ok ok), s') /\ steps s s' /\
    if (ok : bool) then settled (status s') else unsettled (service_unix_ms s') (status s').
Proof.
  revert k delay s. induction fuel as [|fuel IH]; intros k delay s Hk Hf; [lia|]. cbn [refresh_attempts].
  assert (saturating_add_u64 k 1 = k + 1) as -> by (unfold saturating_add_u64, u64_max; lia).
  destruct (attempt_spec (k + 1) events changed l s) as (x & s1 & E & S1 & Hx). unfold attempt in E. rewrite E.
  destruct x as [[[]|e]|]; [by exists true, s1|by exists false, s1|done|].
  destruct (IH (k + 1) (next_delay (refresh_max_delay default_retry_policy) delay) (service_sleep delay s1)) as (ok & s' & -> & S2 & Hok); [lia|lia|].
  exists ok, s'. split; [done|]. split; [|done]. etrans; [done|]. etrans; [apply sleep_steps|done].
Qed.
End batch.

Lemma has_changes_condition batch : (Z.of_nat (size (paths batch)) =? 0) && negb (full_rescan batch) = negb (has_changes batch).
Proof.
  unfold has_changes. rewrite negb_orb, negb_involutive, andb_comm. f_equal. apply eq_bool_prop_intro. rewrite Is_true_true, Z.eqb_eq, bool_decide_spec.
  split; [intros Hz; apply leibniz_equiv, size_empty_inv; lia|by intros ->].
Qed.
Lemma refresh_batch_spec fuel name batch s :
  has_changes batch = true -> (4 <= fuel)%nat ->
  exists ok s', refresh_batch fuel name batch s = (Some (Ok ok), s') /\ steps s s' /\
    (ok = true -> settled (status s')) /\
    (ok = false -> task_should_stop s' = true \/
       (pending (status s') = true /\ refreshing (status s') = false /\ (state (status s') = "retrying" \/ state (status s') = "blocked") /\
        is_Some (next_retry_unix_ms (status s')) /\ 0 < service_retry_delay (service_unix_ms s') (status s') <= 60000)).
Proof.
  intros Hch Hf. unfold refresh_batch, execute_refresh_with_policy_limit.
  rewrite has_changes_condition, Hch. cbn [negb].
  match goal with |- context [refresh_attempts _ _ (StateRefreshObserver _ ?o ?f) _ _ _ _ ?d ?e ?c ?l _ _] =>
    destruct (attempts_spec name o f fuel 0 d e c l s) as (ok & s1 & -> & S1 & Hok); [lia|lia|] end.
  destruct (task_should_stop s1) eqn:Hstop; [exists false, s1; split_and!; [done|done|done|by left]|].
  destruct ok; [exists true, s1; by split_and!|]. cbn [negb]. destruct Hok as (U1 & U2 & [(U3 & U4)|(U3 & d & Hd & U4)]); rewrite U3; cbn [String.eqb Ascii.eqb Bool.eqb andb].
  - do 2 eexists. split; [done|]. split_and!.
    + rewrite S1. by apply (on_status_step (MarkRetrying (saturating_add_u128 (service_unix_ms s1) 1000) (service_unix_ms s1))).
    + done.
    + intros _. right. rewrite status_on, unix_ms_on. set (st := mark_retrying _ _ (status s1)).
      assert (next_retry_unix_ms st = Some (saturating_add_u128 (service_unix_ms s1) 1000)) as Hn by (unfold st; destruct (status s1); status_cases; done).
      pose proof (retry_delay_bounds (service_unix_ms s1) (service_unix_ms s1) 1000 st Hn) as Hb.
      split_and!; [unfold st; destruct (status s1); status_cases; done| | |by rewrite Hn|lia|lia];
        [unfold st; destruct (status s1); status_cases; done|left; unfold st; destruct (status s1); status_cases; done].
  - rewrite bool_decide_false by (by rewrite U4). exists false, s1. split_and!; [done|done|done|]. intros _. right.
    pose proof (retry_delay_bounds (service_unix_ms s1) (service_unix_ms s1) d (status s1) U4) as Hb. split_and!; [done|done|by right|by rewrite U4|lia|lia].
Qed.
Lemma refresh_batch_steps name batch s : exists ok s', refresh_batch 4 name batch s = (Some (Ok ok), s') /\ steps s s'.
Proof.
  destruct (has_changes batch) eqn:Hch.
  - destruct (refresh_batch_spec 4 name batch s Hch (le_n 4)) as (ok & s' & E & St & _). by exists ok, s'.
  - unfold refresh_batch, execute_refresh_with_policy_limit. rewrite has_changes_condition, Hch. cbn [negb].
    destruct (task_should_stop s); by do 2 eexists.
Qed.

(** C30: A batch with something to do is refreshed in at most four attempts, to an end.  A
    success leaves the service running, with no retry and no error; after a failure that
    was not a request to stop, the work is still pending, and the status names the time of
    a retry, at most a minute ahead.  The status has only been told of what happened. *)
Theorem refresh_batch_outcome fuel name batch s :
  has_changes batch = true -> (4 <= fuel)%nat ->
  exists ok s', refresh_batch fuel name batch s = (Some (Ok ok), s') /\ steps s s' /\
    (ok = true -> settled (status s')) /\
    (ok = false -> task_should_stop s' = true \/
       (pending (status s') = true /\ refreshing (status s') = false /\ (state (status s') = "retrying" \/ state (status s') = "blocked") /\
        is_Some (next_retry_unix_ms (status s')) /\ 0 < service_retry_delay (service_unix_ms s') (status s') <= 60000)).
Proof. apply refresh_batch_spec. Qed.

(** ** The poll loop *)
Section loops.
Context (name : string) (marks : WatchChangeBatch -> bool) (s : S).
#[local] Instance loop_watching : Watching S := service_watching name marks.
Lemma loop_pass w : steps s w -> steps s (pass w).
Proof. intros ->. apply pass_steps. Qed.
Lemma loop_sleep d w : steps s w -> steps s (sleep d w).
Proof. intros ->. apply sleep_steps. Qed.
Lemma loop_before b w : steps s w -> steps s (before_refresh b w).
Proof. intros ->. cbn. destruct (marks b); [|done]. by apply (on_status_step (MarkDirty (service_unix_ms w))). Qed.
Lemma loop_refresh b w : steps s w -> steps s (Watch.refresh b w).2.
Proof. intros ->. cbn. destruct (refresh_batch_steps name b w) as (ok & w' & -> & St). exact St. Qed.
End loops.

Lemma poll_loop_steps fuel config interval s : steps s (world (run_service_poll_loop fuel config interval s).2).
Proof.
  unfold run_service_poll_loop.
  apply (run_kept (H := service_watching "poll" has_changes) config (steps s)
           (loop_pass "poll" has_changes s) (loop_sleep "poll" has_changes s) (loop_before "poll" has_changes s) (loop_refresh "poll" has_changes s)).
  by apply (on_status_step (SetBackend "poll")).
Qed.

(** Whatever the clock, the files and the refreshes do, and however long its poll loop
    runs: the status of the service stays well formed, and has only gone through operations
    that give no work up, so that it never says that nothing is pending with a change
    unreconciled. *)
Theorem service_loop_status fuel config interval s :
  status_ok (status s) -> work_known (status s) ->
  let s' := world (run_service_poll_loop fuel config interval s).2 in
  steps s s' /\ status_ok (status s') /\ work_known (status s').
Proof.
  intros Hs Hw s'. assert (steps s s') as St by apply poll_loop_steps. split; [done|]. by apply (steps_keep s s').
Qed.
End service.

(** ** A service whose first refresh is refused *)
Module ServiceSample.
Record World := { st : RefreshStatus; time : Z; outcomes : list (result string bool) }.
Definition tick (d : Z) (w : World) : World := {| st := st w; time := time w + d; outcomes := outcomes w |}.
#[local] Instance service : Service World bool := {
  status := st;
  on_status f w := {| st := f (st w); time := time w; outcomes := outcomes w |};
  service_unix_ms := time;
  process_id := 7;
  service_sleep d := tick (d / 1000000);
  task_should_stop _ := false;
  execute_isolated _ w := (hd (Ok true) (outcomes w), {| st := st w; time := time w + 30; outcomes := tail (outcomes w) |});
  parse_json _ := None;
  rebuild_count written := if (written : bool) then 1 else 0;
  deleted_count _ := 0;
  database_written written := written;
  response_marks _ := ∅;
  response_spill _ := 0
}.
#[local] Instance files : Files World := {
  service_clock w := time w * 1000000;
  service_pass := tick 1;
  service_snapshot w := Ok (if time w <? 200 then ∅ else {[ "a.rs" := {| modified_nanos := 1; file_len := 2 |} ]});
  service_config_differs _ := false
}.
#[local] Instance service_laws : ServiceLaws.
Proof. constructor; intros; try reflexivity; (exists []; split; [constructor|reflexivity]). Qed.
Definition start : World :=
  {| st := default_status 300000 64 4; time := 100; outcomes := [Err "database is locked"; Err "no such table"] |}.
Definition batch : WatchChangeBatch := set_paths {["a.rs"]} 4 (set_counts 1 false 0 0 default_batch).

Lemma refresh_batch_outcome_witness :
  exists ok s', refresh_batch 4 "poll" batch start = (Some (Ok ok), s') /\ ok = false /\ state (status s') = "blocked" /\
    0 < service_retry_delay (service_unix_ms s') (status s') <= 60000.
Proof.
  destruct (refresh_batch_outcome 4 "poll" batch start) as (ok & s' & E & _ & _ & H); [reflexivity|apply le_n|].
  exists ok, s'. assert (ok = false /\ state (status s') = "blocked") as [H1 H2].
  { vm_compute in E. injection E as <- <-. vm_compute. split; reflexivity. }
  split; [exact E|]. split; [exact H1|]. split; [exact H2|]. destruct (H H1) as [Hs|(_ & _ & _ & _ & Hd)]; [discriminate Hs|exact Hd].
Defined.

Definition config : RefreshLoopConfig := {| poll_interval := 100000000; debounce := 50000000; max_wait := 400000000; max_iterations := Some 1 |}.
Lemma service_start_ok : status_ok (status start) /\ work_known (status start).
Proof. split; [apply default_status_ok|]. intros _. reflexivity || (vm_compute; discriminate). Qed.
Lemma service_loop_status_witness :
  let run := run_service_poll_loop 80 config 300000000000 start in
  run.1 = Some (Ok ()) /\ reconciled_epoch (status (world run.2)) = 2 /\ status_ok (status (world run.2)).
Proof.
  split; [vm_compute; reflexivity|]. split; [vm_compute; reflexivity|].
  destruct (service_loop_status 80 config 300000000000 start (proj1 service_start_ok) (proj2 service_start_ok)) as (_ & H & _). exact H.
Defined.
End ServiceSample.
