(* ===== verification/Supervisor.v ===== *)
(** * The supervisor of the refresh service (src/api/refresh.rs)

    A thread that resolves the repository, competes for its lock, and as the leader brings
    the database up to date and then watches the sources, through the operating system or
    by polling; after a failure it waits and begins again, until it is told to stop.  What
    it resolves, locks and starts are the operations of the class [Supervision]. *)
From S2P Require Import Prelude Order Text Json SourceSelection Watch WatchClaims Native Refresh RefreshLaws Service.
#[local] Open Scope rust_scope.
#[local] Open Scope Z_scope.

(** ** Settings *)
Inductive GraphRefreshPolicy := Off | Leader.
Inductive GraphRefreshBackend := Auto | Poll | NativeBackend.
Record RefreshConfigOverrides := {
  o_policy : bool; o_include_fts : bool; o_spill_chunk_mib : bool; o_max_parallelism : bool; o_backend : bool; o_reconcile_interval : bool
}.
Record Settings := {
  policy : GraphRefreshPolicy;
  include_fts : bool;
  chunk_mib : Z;
  parallelism : Z;
  loop_backend : GraphRefreshBackend;
  interval_ms : Z
}.
(** [RefreshServiceConfig]; an interval is milliseconds. *)
Record RefreshServiceConfig := { settings : Settings; explicit_overrides : RefreshConfigOverrides }.

(** [installed]: the settings of the repository's configuration file, if it has one. *)
Definition resolve_service_config (installed : result string (option Settings)) (configured : RefreshServiceConfig)
    : result string RefreshServiceConfig :=
  match installed with
  | Err e => Err e
  | Ok None => Ok configured
  | Ok (Some install) =>
      let o := explicit_overrides configured in
      let c := settings configured in
      Ok {| settings := {|
              policy := if o_policy o then policy c else policy install;
              include_fts := if o_include_fts o then include_fts c else include_fts install;
              chunk_mib := if o_spill_chunk_mib o then chunk_mib c else chunk_mib install;
              parallelism := if o_max_parallelism o then parallelism c else parallelism install;
              loop_backend := if o_backend o then loop_backend c else loop_backend install;
              interval_ms := if o_reconcile_interval o then interval_ms c else interval_ms install |};
            explicit_overrides := o |}
  end.

(** ** The surroundings *)
Class Supervision (S Id Runtime : Type) := {
  (** [RepositoryIdentity::capture] and [validate], [resolve_refresh_runtime] *)
  capture : S -> result string Id * S;
  validate : Id -> S -> result string () * S;
  resolve_refresh_runtime : S -> result string Runtime * S;
  repo_root : Runtime -> string;
  installed_settings : Runtime -> S -> result string (option Settings) * S;
  require_graph_write : Runtime -> S -> result string () * S;
  (** [initialize_refresh_destination] and [try_open_locked]: whether the lock is ours, and
      giving it back *)
  acquire_refresh_lock : Runtime -> S -> result string bool * S;
  release_refresh_lock : Runtime -> S -> S;
  (** [RefreshExecutionPlan::new] *)
  plan_execution : Runtime -> S -> result string () * S;
  event_filter : Runtime -> S -> result string WatchEventFilter * S;
  start_native_watcher : Runtime -> S -> result string () * S;
  (** [probe_native_watcher]: whether a probe arrived, why not, and what else arrived *)
  probe_native_watcher : Runtime -> S -> result string (bool * option string * list WatchMessage) * S
}.

Section supervisor.
Context {S R Id Runtime : Type} `{Service S R} `{Files S} `{NativeWatching S} `{Unicode} `{Supervision S Id Runtime}.
Implicit Types (s : S).

Definition tell (f : RefreshStatus -> RefreshStatus) (s : S) : S := on_status f s.
(** Reads the clock, in milliseconds. *)
Definition tell_at (f : Z -> RefreshStatus -> RefreshStatus) (s : S) : S := on_status (f (service_unix_ms s)) s.
Definition now_and (q : S -> Z) (s : S) : Z * S := (q s, service_pass s).

(** ** The loops *)
Definition run_service_native_loop (fuel : nat) (filter : WatchEventFilter) (config : RefreshLoopConfig) (interval : Z)
    (queued : list WatchMessage) (s : S) : option (result string ()) * Run S :=
  run_native_watch_until (H := service_watching "native" (fun batch => (event_count batch =? 0) && has_changes batch)) filter config fuel
    (Some interval) queued {| world := s; log := [] |}.

Definition SERVICE_LOOP : RefreshLoopConfig :=
  {| poll_interval := 500000000; debounce := 250000000; max_wait := 1000000000; max_iterations := None |}.
(** The reconciliation at the start of a leader. *)
Definition startup (name : string) (s : S) : result string () * S :=
  let s := tell_at (fun now st => (mark_dirty_at now st).2) s in
  match refresh_batch 4 name (mark_full_rescan default_batch) s with
  | (Some (Ok true), s) => (Ok (), s)
  | (Some (Ok false), s) => (Err (default "startup repository reconciliation failed" (last_error (status s))), s)
  | (Some (Err e), s) => (Err e, s)
  | (None, s) => (Err "", s)
  end.
Definition poll_after (fuel : nat) (interval : Z) (started : result string () * S) : option (result string ()) * S :=
  match started with
  | (Err e, s) => (Some (Err e), s)
  | (Ok _, s) => let '(x, r) := run_service_poll_loop fuel SERVICE_LOOP interval s in (x, world r)
  end.

Definition lead (fuel : nat) (runtime : Runtime) (config : RefreshServiceConfig) (s : S) : option (result string ()) * S :=
  let interval := interval_ms (settings config) * 1000000 in
  let polling := loop_backend (settings config) in
  match event_filter runtime s with
  | (Err e, s) => (Some (Err e), s)
  | (Ok filter, s) =>
      match polling with
      | Poll => poll_after fuel interval (startup "poll" (tell (set_backend "poll") s))
      | _ =>
          let auto := match polling with Auto => true | _ => false end in
          match start_native_watcher runtime s with
          | (Err e, s) =>
              if auto then poll_after fuel interval (startup "poll" (tell (set_error "poll" e) s)) else (Some (Err e), s)
          | (Ok _, s) =>
              match probe_native_watcher runtime s with
              | (Err e, s) => (Some (Err e), s)
              | (Ok (delivered, reason, queued), s) =>
                  if negb delivered && auto
                  then poll_after fuel interval (startup "poll" (tell (set_error "poll" (default "native probe failed" reason)) s))
                  else
                    match startup "native" (tell (set_backend "native") s) with
                    | (Err e, s) => (Some (Err e), s)
                    | (Ok _, s) =>
                        match run_service_native_loop fuel filter SERVICE_LOOP interval queued s with
                        | (Some (Err e), r) =>
                            if auto && negb (contains e "configuration changed")
                            then poll_after fuel interval (Ok (), tell (set_error "poll" e) (world r))
                            else (Some (Err e), world r)
                        | (x, r) => (x, world r)
                        end
                    end
              end
          end
      end
  end.
Definition run_refresh_leader (fuel : nat) (runtime : Runtime) (config : RefreshServiceConfig) (s : S) : option (result string ()) * S :=
  let '(installed, s) := installed_settings runtime s in
  match resolve_service_config installed config with
  | Err e => (Some (Err e), s)
  | Ok config =>
      let c := settings config in
      let s := tell (set_execution_settings (chunk_mib c) (parallelism c)) (tell (set_reconcile_interval (interval_ms c)) s) in
      match plan_execution runtime s with
      | (Err e, s) => (Some (Err e), s)
      | (Ok _, s) => lead fuel runtime config s
      end
  end.

(** ** The supervisor *)
Definition MILLISECOND : Z := 1000000.
Fixpoint wait_loop (fuel : nat) (started delay : Z) (s : S) : option bool * S :=
  match fuel with
  | O => (None, s)
  | Datatypes.S fuel =>
      let '(now, s) := now_and service_clock s in
      if duration_since now started <? delay then
        if task_should_stop s then (Some true, s)
        else
          let '(now, s) := now_and service_clock s in
          wait_loop fuel started delay (service_sleep (Z.min (50 * MILLISECOND) (Z.max 0 (delay - duration_since now started))) s)
      else (Some false, s)
  end.
Definition supervisor_wait (fuel : nat) (delay : Z) (s : S) : option bool * S :=
  let '(started, s) := now_and service_clock s in wait_loop fuel started delay s.

Inductive RefreshServiceExit := StoppedAfterDrain | LegacyDisabled (reason : string).
(** The delays are milliseconds. *)
Record Supervisor := { identity : option Id; retry_delay_ms : Z; blocked_delay : Z }.
Inductive Turn := Again (v : Supervisor) | Exit (r : result string RefreshServiceExit) | Running.

Definition wait_and (fuel : nat) (delay : Z) (v : Supervisor) (s : S) : Turn * S :=
  match supervisor_wait fuel (delay * MILLISECOND) s with
  | (Some true, s) => (Exit (Ok StoppedAfterDrain), s)
  | (Some false, s) => (Again v, s)
  | (None, s) => (Running, s)
  end.
Definition double_ms (delay most : Z) : Z := Z.min (delay * 2) most.
(** An error that is not worth a quick retry. *)
Definition block (fuel : nat) (name error : string) (v : Supervisor) (s : S) : Turn * S :=
  let s := tell (set_error name error) s in
  let s := tell_at (fun now => mark_blocked_until (saturating_add_u128 now (blocked_delay v)) now) s in
  wait_and fuel (blocked_delay v)
    {| identity := identity v; retry_delay_ms := retry_delay_ms v; blocked_delay := double_ms (blocked_delay v) 60000 |} s.

Definition election_delay_ms (process_id : Z) : Z := 1000 + process_id mod 251.

(** A leader is done with [answer]. *)
Definition after_leader (fuel : nat) (answer : result string ()) (v : Supervisor) (s : S) : Turn * S :=
  match answer with
  | Ok _ =>
      if task_should_stop s then (Exit (Ok StoppedAfterDrain), s)
      else (Again {| identity := identity v; retry_delay_ms := 250; blocked_delay := 5000 |}, s)
  | Err error =>
      if is_retryable_refresh_failure parse_json error || contains error "refresh configuration changed" then
        let s := tell_at (fun now => mark_retrying (saturating_add_u128 now (retry_delay_ms v)) now) s in
        wait_and fuel (retry_delay_ms v)
          {| identity := identity v; retry_delay_ms := double_ms (retry_delay_ms v) 5000; blocked_delay := blocked_delay v |} s
      else block fuel "blocked" error v s
  end.

Definition compete (fuel : nat) (runtime : Runtime) (config : RefreshServiceConfig) (v : Supervisor) (s : S) : Turn * S :=
  match acquire_refresh_lock runtime s with
  | (Err e, s) => block fuel "lock" e v s
  | (Ok false, s) => wait_and fuel (election_delay_ms process_id) v (tell mark_standby s)
  | (Ok true, s) =>
      let '(answer, s) := run_refresh_leader fuel runtime config (tell (mark_leader process_id) s) in
      let s := release_refresh_lock runtime s in
      match answer with None => (Running, s) | Some answer => after_leader fuel answer v s end
  end.

Definition supervise (fuel : nat) (runtime : Runtime) (config : RefreshServiceConfig) (v : Supervisor) (s : S) : Turn * S :=
  let s := tell (set_effective_root (repo_root runtime)) s in
  let '(installed, s) := installed_settings runtime s in
  match resolve_service_config installed config with
  | Err e => block fuel "config" e v s
  | Ok config =>
      let c := settings config in
      let s := tell (set_execution_settings (chunk_mib c) (parallelism c)) (tell (set_reconcile_interval (interval_ms c)) s) in
      match policy c with
      | Off => wait_and fuel 5000 v (tell_at (fun now => mark_policy_disabled_until (saturating_add_u128 now 5000)) s)
      | Leader =>
          match require_graph_write runtime s with
          | (Err e, s) => (Exit (Ok (LegacyDisabled e)), s)
          | (Ok _, s) => compete fuel runtime config v s
          end
      end
  end.

(** One turn of the loop of [run_refresh_service]. *)
Definition supervisor_turn (fuel : nat) (config : RefreshServiceConfig) (v : Supervisor) (s : S) : Turn * S :=
  if task_should_stop s then (Exit (Ok StoppedAfterDrain), s)
  else
    match (match identity v with Some id => (Ok id, s) | None => capture s end) with
    | (Err e, s) => block fuel "identity" e v s
    | (Ok id, s) =>
        let v := {| identity := Some id; retry_delay_ms := retry_delay_ms v; blocked_delay := blocked_delay v |} in
        match validate id s with
        | (Err e, s) => block fuel "identity" e v s
        | (Ok _, s) =>
            match resolve_refresh_runtime s with
            | (Err e, s) => block fuel "config" e v s
            | (Ok runtime, s) => supervise fuel runtime config v s
            end
        end
    end.

Fixpoint supervisor_turns (fuel turns : nat) (config : RefreshServiceConfig) (v : Supervisor) (s : S) : Turn * S :=
  match turns with
  | O => (Again v, s)
  | Datatypes.S turns =>
      match supervisor_turn fuel config v s with
      | (Again v, s) => supervisor_turns fuel turns config v s
      | x => x
      end
  end.
Definition first_supervisor : Supervisor := {| identity := None; retry_delay_ms := 250; blocked_delay := 5000 |}.
(** [None]: it is still running. *)
Definition run_refresh_service (fuel : nat) (config : RefreshServiceConfig) (s : S) : option (result string RefreshServiceExit) * S :=
  match supervisor_turns fuel fuel config first_supervisor s with
  | (Exit r, s) => (Some r, s)
  | (_, s) => (None, s)
  end.

(** ** The end of the thread *)
(** What [catch_unwind] gives; [Finalizing]: a panic while the answer is disposed of. *)
Inductive Outcome := Finished (r : result string RefreshServiceExit) | Panicked | Finalizing.
(** [spawn_refresh_task], with [RefreshExitFinalizer] *)
Definition finish_refresh_task (outcome : Outcome) (s : S) : S :=
  match outcome with
  | Finished (Ok StoppedAfterDrain) => tell_at mark_stopped s
  | Finished (Ok (LegacyDisabled reason)) => tell (disable "disabled" reason) s
  | Finished (Err error) => tell (set_error "failed" error) s
  | Panicked => tell (set_error "failed" "refresh supervisor panicked; retry requires service restart") s
  | Finalizing => tell (set_error "failed" "refresh supervisor panicked during teardown") s
  end.
End supervisor.

(** ** What the supervisor does to the status *)
Section native_kept.
Context {W : Type} `{HW : Watching W} `{HN : NativeWatching W} `{HU : Unicode} (filter : WatchEventFilter) (config : RefreshLoopConfig) (P : W -> Prop).
Context (Hpass : forall w, P w -> P (pass w)) (Hsleep : forall d w, P w -> P (sleep d w)).
Context (Hbefore : forall b w, P w -> P (before_refresh b w)) (Hrefresh : forall b w, P w -> P (Watch.refresh b w).2).
Context (Hreceive : forall d w, P w -> P (recv_timeout d w).2) (Hoverflow : forall w, P w -> P (take_overflow w).2).
Implicit Types (r : Run W).

Lemma hear_kept m b r : P (world r) -> P (world (hear filter m b r).2).
Proof. intros Hr. unfold hear, ask. cbn. auto. Qed.
Lemma check_overflow_kept b r : P (world r) -> P (world (check_overflow b r).2).
Proof. intros Hr. unfold check_overflow. apply Hoverflow in Hr. by destruct (take_overflow (world r)) as [[] w]. Qed.
Lemma receive_kept d r : P (world r) -> P (world (receive d r).2).
Proof. intros Hr. unfold receive. apply (Hreceive d) in Hr. by destruct (recv_timeout d (world r)). Qed.
Lemma collect_more_kept fuel started last b queued r x : collect_more filter config fuel started last b queued r = Some x -> P (world r) -> P (world x.2).
Proof.
  revert last b queued r. induction fuel as [|fuel IH]; intros last b queued r; [done|]. cbn [collect_more]. intros Hrun Hr.
  assert (forall q r0, P (world r0) -> (let '(b', r1) := check_overflow b r0 in Some (Ok (Some b'), q, r1)) = Some x -> P (world x.2)) as Hfin.
  { intros q r0 H0 E. apply (check_overflow_kept b) in H0. destruct (check_overflow b r0). by injection E as <-. }
  unfold ask in Hrun. set (r1 := on_world pass r) in Hrun. assert (P (world r1)) as H1 by (cbn; auto).
  destruct (max_wait config <=? _); [by apply Hfin in Hrun|]. set (r2 := on_world pass r1) in Hrun. assert (P (world r2)) as H2 by (cbn; auto).
  destruct (debounce config <=? _); [by apply Hfin in Hrun|]. set (timeout := Z.min _ _) in Hrun. clearbody timeout r2.
  assert (forall m q r0, P (world r0) ->
    (let '(applied, r3) := hear filter m b r0 in
     match applied with
     | Ok b' =>
         let '(last0, r4) :=
           if negb (size (paths b') =? size (paths b))%nat || negb (event_count b' =? event_count b)
           then (clock (world r3), on_world pass r3) else (last, r3) in
         collect_more filter config fuel started last0 b' q r4
     | Err e => Some (Err e, q, r3)
     end) = Some x -> P (world x.2)) as Happly.
  { intros m q r0 H0 E. apply (hear_kept m b) in H0. destruct (hear filter m b r0) as [[b'|e] r3]; [|by injection E as <-].
    destruct (negb _ || negb _); apply IH in E; [done|cbn in *; auto|done|done]. }
  destruct queued as [|m q]; [|by apply Happly in Hrun]. apply (receive_kept timeout) in H2.
  destruct (receive timeout r2) as [[m| |] r3]; [by apply Happly in Hrun|by apply Hfin in Hrun|by injection Hrun as <-].
Qed.
Lemma serve_message_kept fuel interval l m q r x : serve_message filter config fuel interval l m q r = Some x -> P (world r) -> P (world x.2).
Proof.
  unfold serve_message, collect_watch_batch. intros Hrun Hr. apply (hear_kept m default_batch) in Hr. destruct (hear filter m default_batch r) as [[b|e] r1]; [|by injection Hrun as <-].
  apply (check_overflow_kept b) in Hr. cbn [snd] in Hr. destruct (check_overflow b r1) as [b1 r2]. cbn [snd] in Hr.
  set (collected := if negb (has_changes b1) then _ else _) in Hrun.
  assert (match collected with Some y => P (world y.2) | None => True end) as Hc.
  { unfold collected. destruct (negb _); [done|]. unfold ask. destruct (collect_more _ _ _ _ _ _ _ _) eqn:E; [|done].
    apply collect_more_kept in E; [done|]. cbn. auto. }
  clearbody collected. destruct collected as [[[y q1] r3]|]; [|done]. cbn [snd] in Hc. destruct y as [y|e]; [|by injection Hrun as <-].
  match type of Hrun with context [let '(batch, r0) := ?e in _] => set (z := e) in Hrun end.
  assert (P (world z.2)) as Hz.
  { unfold z. destruct y; [done|]. destruct (is_due (wake_deadline l) r3) as [[] r4] eqn:E; apply (is_due_kept P Hpass) in E; done. }
  clearbody z. destruct z as [[b2|] r4]; [|by injection Hrun as <-]. unfold ask in Hrun.
  match type of Hrun with context [serve config interval l ?b3 ?r5] =>
    pose proof (serve_kept config P Hpass Hbefore Hrefresh interval l b3 r5 (Hpass _ Hz)) as Hs; destruct (serve config interval l b3 r5) as [f r6] end.
  by injection Hrun as <-.
Qed.
Lemma native_round_kept fuel interval l q r x : native_round filter config fuel interval l q r = Some x -> P (world r) -> P (world x.2).
Proof.
  unfold native_round, ask. intros Hrun Hr. destruct (should_stop _); [injection Hrun as <-; cbn; auto|].
  destruct q as [|m q]; [|apply serve_message_kept in Hrun; [done|cbn; auto]].
  match type of Hrun with context [let '(timeout, r0) := ?e in _] => set (y := e) in Hrun; assert (P (world y.2)) as Hy by (unfold y; destruct (wake_deadline l); cbn; auto) end.
  clearbody y. destruct y as [timeout r1]. apply (receive_kept timeout) in Hy. cbn [snd] in Hy. destruct (receive timeout r1) as [[m| |] r2]; cbn [snd] in Hy.
  - by apply serve_message_kept in Hrun.
  - destruct (should_stop _); [injection Hrun as <-; cbn; auto|].
    destruct (is_due (wake_deadline l) (on_world pass r2)) as [[] r3] eqn:E; apply (is_due_kept P Hpass) in E; try (cbn; auto).
    + by apply serve_message_kept in Hrun.
    + by injection Hrun as <-.
  - by injection Hrun as <-.
Qed.
Lemma native_run_kept fuel interval q r : P (world r) -> P (world (run_native_watch_until filter config fuel interval q r).2).
Proof.
  intros Hr. unfold run_native_watch_until, start_native. destruct (after_interval interval r) as [d r1] eqn:E. apply (after_interval_kept P Hpass) in E; [|done].
  match goal with |- context [native_rounds filter config fuel fuel interval ?l q r1] => generalize l end.
  assert (forall n l q r0, P (world r0) -> P (world (native_rounds filter config fuel n interval l q r0).2)) as Hn.
  { intros n. induction n as [|n IH]; intros l q0 r0 H0; [done|]. cbn [native_rounds].
    destruct (native_round filter config fuel interval l q0 r0) as [[[f q1] r2]|] eqn:Er; [|done]. apply native_round_kept in Er; [|done].
    destruct f; [by apply IH|done]. }
  intros l. specialize (Hn fuel l q r1 E). by destruct (native_rounds filter config fuel fuel interval l q r1) as [[[] ?] ?].
Qed.
End native_kept.

Section laws.
Context {S R Id Runtime : Type} `{HS : Service S R} `{HF : Files S} `{HN : NativeWatching S} `{HU : Unicode} `{HV : Supervision S Id Runtime}.
Implicit Types (s : S) (v : @Supervisor Id).

(** The surroundings tell the status of nothing that gives work up. *)
Class SupervisionLaws := {
  capture_steps s : steps s (capture s).2;
  validate_steps id s : steps s (validate id s).2;
  resolve_steps s : steps s (resolve_refresh_runtime s).2;
  installed_steps r s : steps s (installed_settings r s).2;
  require_steps r s : steps s (require_graph_write r s).2;
  acquire_steps r s : steps s (acquire_refresh_lock r s).2;
  release_steps r s : steps s (release_refresh_lock r s);
  plan_steps r s : steps s (plan_execution r s).2;
  filter_steps r s : steps s (event_filter r s).2;
  start_steps r s : steps s (start_native_watcher r s).2;
  probe_steps r s : steps s (probe_native_watcher r s).2;
  receive_steps d s : steps s (recv_timeout d s).2;
  overflow_steps s : steps s (take_overflow s).2
}.
Context `{HL : !ServiceLaws} `{HVL : !SupervisionLaws}.
#[local] Existing Instance steps_preorder.

(** The state [s0] came to by steps, [s1] so far: each operation adds its own. *)
Lemma via {A} (s0 : S) (x : A * S) s1 : steps s0 s1 -> steps s1 x.2 -> steps s0 x.2.
Proof. by intros -> ->. Qed.
Lemma tell_steps e f s0 s : keeps_work e = true -> (forall st, f st = on_event e st) -> steps s0 s -> steps s0 (tell f s).
Proof. intros He Hf ->. by apply (on_status_step e). Qed.

Lemma tell_at_steps (e : Z -> StatusEvent) f s0 s :
  (forall now, keeps_work (e now) = true) -> (forall now st, f now st = on_event (e now) st) -> steps s0 s -> steps s0 (tell_at f s).
Proof. intros He Hf ->. by apply (on_status_step (e (service_unix_ms s))). Qed.

Ltac told := try (match goal with |- steps _ ?x => unfold x end); match goal with
  | |- steps ?s0 (tell (set_backend ?n) ?s) => apply (tell_steps (SetBackend n)); [done|done|]
  | |- steps ?s0 (tell (set_error ?n ?e) ?s) => apply (tell_steps (SetError n e)); [done|done|]
  | |- steps ?s0 (tell (mark_leader ?p) ?s) => apply (tell_steps (MarkLeader p)); [done|done|]
  | |- steps ?s0 (tell mark_standby ?s) => apply (tell_steps MarkStandby); [done|done|]
  | |- steps ?s0 (tell (set_effective_root ?p) ?s) => apply (tell_steps (SetEffectiveRoot p)); [done|done|]
  | |- steps ?s0 (tell (set_reconcile_interval ?p) ?s) => apply (tell_steps (SetReconcileInterval p)); [done|done|]
  | |- steps ?s0 (tell (set_execution_settings ?p ?q) ?s) => apply (tell_steps (SetExecutionSettings p q)); [done|done|]
  end.
(** Runs the next operation, which is [x]. *)
Ltac first_by law := etrans; [apply law|].
Ltac run_op law x := let Hx := fresh "Hx" in pose proof law as Hx; destruct x as [? ?]; cbn [snd] in Hx.

Lemma wait_loop_steps fuel started delay s : steps s (wait_loop fuel started delay s).2.
Proof.
  revert s. induction fuel as [|fuel IH]; intros s; [done|]. cbn [wait_loop]. unfold now_and. pose proof (pass_steps s) as H1.
  set (s1 := service_pass s) in *. destruct (_ <? delay); [|done]. destruct (task_should_stop s1); [done|].
  first_by H1. first_by (pass_steps s1). etrans; [apply sleep_steps|apply IH].
Qed.
Lemma wait_and_steps fuel delay v s : steps s (wait_and fuel delay v s).2.
Proof.
  unfold wait_and, supervisor_wait, now_and. pose proof (wait_loop_steps fuel (service_clock s) (delay * MILLISECOND) (service_pass s)) as Hw.
  destruct (wait_loop _ _ _ _) as [[[]|] s1]; cbn [snd] in *; (etrans; [apply pass_steps|done]).
Qed.
Lemma block_steps fuel name error v s : steps s (block fuel name error v s).2.
Proof.
  unfold block. cbv zeta. etrans; [|apply wait_and_steps].
  apply (tell_at_steps (fun now => MarkBlockedUntil (saturating_add_u128 now (blocked_delay v)) now)); [done|done|]. by told.
Qed.

Lemma startup_steps name s : steps s (startup name s).2.
Proof.
  unfold startup. set (s1 := tell_at _ s). assert (steps s s1) as H1 by (by apply (tell_at_steps MarkDirty)).
  destruct (refresh_batch_steps name (mark_full_rescan default_batch) s1) as (ok & s2 & -> & H2). destruct ok; cbn; by first_by H1.
Qed.
Lemma poll_after_steps fuel interval s started : steps s started.2 -> steps s (poll_after fuel interval started).2.
Proof.
  unfold poll_after. destruct started as [[|e] s1]; [|done]. cbn [snd]. intros H1. first_by H1. pose proof (poll_loop_steps fuel SERVICE_LOOP interval s1) as Hp.
  by destruct (run_service_poll_loop _ _ _ _).
Qed.
Lemma native_loop_steps fuel filter config interval q s : steps s (world (run_service_native_loop fuel filter config interval q s).2).
Proof.
  unfold run_service_native_loop. set (marks := fun batch => _ && _).
  apply (native_run_kept (HW := service_watching "native" marks) filter config (steps s)
    (loop_pass "native" marks s) (loop_before "native" marks s) (loop_refresh "native" marks s)); [..|done].
  - intros d w ->. apply receive_steps.
  - intros w ->. apply overflow_steps.
Qed.

Lemma lead_steps fuel runtime config s : steps s (lead fuel runtime config s).2.
Proof.
  unfold lead. cbv zeta. run_op (filter_steps runtime s) (event_filter runtime s). destruct r as [filter|e]; [|done].
  assert (forall name s1, steps s s1 -> steps s (startup name s1).2) as Hstart by (intros name s1 H1; etrans; [done|apply startup_steps]).
  destruct (loop_backend (settings config)); cbn zeta iota.
  2: { apply poll_after_steps, Hstart. by told. }
  all: run_op (start_steps runtime s0) (start_native_watcher runtime s0); assert (steps s s1) as H1 by (by etrans);
    destruct r as [[]|e]; [|first [done|apply poll_after_steps, Hstart; by told]];
    run_op (probe_steps runtime s1) (probe_native_watcher runtime s1); assert (steps s s2) as H2 by (by etrans);
    destruct r as [[[delivered reason] queued]|e]; [|done];
    (destruct (negb delivered && _); [first [done|apply poll_after_steps, Hstart; by told]|]);
    (assert (steps s (tell (set_backend "native") s2)) as H3 by (by told));
    apply (Hstart "native") in H3; destruct (startup "native" _) as [[[]|e] s3]; cbn [snd] in H3; [|done];
    pose proof (native_loop_steps fuel filter SERVICE_LOOP (interval_ms (settings config) * 1000000) queued s3) as H4;
    destruct (run_service_native_loop _ _ _ _ _ _) as [[[x|e]|] r]; cbn [snd] in H4; (assert (steps s (world r)) as H5 by (by etrans)); try done;
    (destruct (_ && negb _); [|done]); apply poll_after_steps; cbn [snd]; by told.
Qed.
Lemma leader_steps fuel runtime config s : steps s (run_refresh_leader fuel runtime config s).2.
Proof.
  unfold run_refresh_leader. run_op (installed_steps runtime s) (installed_settings runtime s). destruct (resolve_service_config r config) as [c|e]; [|done].
  set (s1 := tell _ _). assert (steps s s1) as H1 by (by do 2 told). pose proof (plan_steps runtime s1) as H2.
  destruct (plan_execution runtime s1) as [[[]|e] s2]; cbn [snd] in H2; [|by etrans]. first_by H1. first_by H2. apply lead_steps.
Qed.

Lemma after_leader_steps fuel answer v s : steps s (after_leader fuel answer v s).2.
Proof.
  unfold after_leader. destruct answer as [[]|e]; [by destruct (task_should_stop s)|]. destruct (_ || _); [|apply block_steps].
  etrans; [|apply wait_and_steps]. by apply (tell_at_steps (fun now => MarkRetrying (saturating_add_u128 now (retry_delay_ms v)) now)).
Qed.
Lemma compete_steps fuel runtime config v s : steps s (compete fuel runtime config v s).2.
Proof.
  unfold compete. run_op (acquire_steps runtime s) (acquire_refresh_lock runtime s). first_by Hx. destruct r as [[]|e].
  - set (s1 := tell _ s0). assert (steps s0 s1) as H1 by (by told). run_op (leader_steps fuel runtime config s1) (run_refresh_leader fuel runtime config s1).
    pose proof (release_steps runtime s2) as H2. first_by H1. first_by Hx0. first_by H2. destruct o; [apply after_leader_steps|done].
  - etrans; [|apply wait_and_steps]. by told.
  - apply block_steps.
Qed.
Lemma supervise_steps fuel runtime config v s : steps s (supervise fuel runtime config v s).2.
Proof.
  unfold supervise. set (s1 := tell _ s). assert (steps s s1) as H1 by (by told). run_op (installed_steps runtime s1) (installed_settings runtime s1).
  first_by H1. first_by Hx. destruct (resolve_service_config r config) as [c|e]; [|apply block_steps]. set (s2 := tell _ _).
  assert (steps s0 s2) as H2 by (by do 2 told). first_by H2. destruct (policy (settings c)).
  - etrans; [|apply wait_and_steps]. by apply (tell_at_steps (fun now => MarkPolicyDisabledUntil (saturating_add_u128 now 5000))).
  - run_op (require_steps runtime s2) (require_graph_write runtime s2). first_by Hx0. destruct r0; [apply compete_steps|done].
Qed.
Lemma turn_steps fuel config v s : steps s (supervisor_turn fuel config v s).2.
Proof.
  unfold supervisor_turn. destruct (task_should_stop s); [done|]. set (captured := match identity v with Some _ => _ | None => _ end).
  assert (steps s captured.2) as H1 by (unfold captured; destruct (identity v); [done|apply capture_steps]). destruct captured as [[id|e] s1]; cbn [snd] in H1; first_by H1;
    [|apply block_steps]. cbv zeta. run_op (validate_steps id s1) (validate id s1). first_by Hx. destruct r; [|apply block_steps].
  run_op (resolve_steps s0) (resolve_refresh_runtime s0). first_by Hx0. destruct r; [apply supervise_steps|apply block_steps].
Qed.
Lemma turns_steps fuel turns config v s : steps s (supervisor_turns fuel turns config v s).2.
Proof.
  revert v s. induction turns as [|n IH]; intros v s; [done|]. cbn [supervisor_turns]. pose proof (turn_steps fuel config v s) as H1.
  destruct (supervisor_turn fuel config v s) as [[v1|r|] s1]; cbn [snd] in H1; [|done|done]. first_by H1. apply IH.
Qed.

(** C27: The refresh service as a whole forgets no change.  Whatever its surroundings answer,
    and however long it runs, as the leader or not, with either way of watching: its status
    is well formed and has only gone through operations that give no work up; and when it
    says that nothing is pending, every change that it was told of was followed by the start
    of a refresh, and that by a success. *)
Theorem service_forgets_nothing fuel config s interval chunk parallelism :
  status s = default_status interval chunk parallelism ->
  let st := status (run_refresh_service fuel config s).2 in
  status_ok st /\ work_known st /\
  exists es, keeping es /\ st = run_events es (default_status interval chunk parallelism) /\
    (dirt es <= u64_max -> pending st = false -> forall es1 now es2, es = es1 ++ MarkDirty now :: es2 -> refreshed_since es2).
Proof.
  intros Hs st. assert (steps s (run_refresh_service fuel config s).2) as Hst.
  { unfold run_refresh_service. pose proof (turns_steps fuel fuel config first_supervisor s) as Ht.
    by destruct (supervisor_turns _ _ _ _ _) as [[]]. }
  pose proof (steps_keep s _ Hst) as Hkeep. rewrite Hs in Hkeep. destruct Hkeep as [K1 K2]; [split; [apply default_status_ok|done]|].
  split; [done|]. split; [done|]. destruct Hst as (es & He & E). rewrite Hs in E. exists es. split; [done|]. split; [done|].
  intros Hd Hp es1 now es2 ->. destruct (history_holds _ interval chunk parallelism He Hd) as [H1 _ H3 H4]. rewrite <- E in *.
  apply (H3 es1 (MarkDirty now)); [done|done|]. specialize (H4 Hp). rewrite H1 in H4.
  pose proof (dirt_app_mono (es1 ++ [MarkDirty now]) es2) as Hm. rewrite <- app_assoc, dirt_app in Hm. cbn in Hm, H4. lia.
Qed.

(** However the thread of the service ends -- told to stop, disabled, with an error, in a
    panic, or in a panic while it cleans up -- its status says so: the task is not alive,
    leads nothing and refreshes nothing, and work that was pending still is, unless the
    service is disabled. *)
Theorem task_ends_dead outcome s :
  let st := status (finish_refresh_task outcome s) in
  task_alive st = false /\ state st = role st /\ (state st = "stopped" \/ state st = "disabled") /\ leader_pid st = None /\ worker_pid st = None /\
  refreshing st = false /\ next_retry_unix_ms st = None /\
  (state st = "stopped" -> pending st = pending (status s) /\ dirty_epoch st = dirty_epoch (status s) /\ reconciled_epoch st = reconciled_epoch (status s)).
Proof.
  intros st. subst st. unfold finish_refresh_task, tell_at, tell. destruct outcome as [[[]|]| |]; rewrite status_on; destruct (status s); status_cases; split_and!; try done; tauto.
Qed.

(** ** Waiting *)
Class ServiceClock := {
  service_pass_clock s : service_clock s <= service_clock (service_pass s);
  service_sleep_clock d s : 0 <= d -> service_clock s + d <= service_clock (service_sleep d s)
}.
Context `{HC : !ServiceClock}.
Lemma wait_loop_spec fuel started delay s :
  started + delay - service_clock s <= (Z.of_nat fuel - 2) * (50 * MILLISECOND) -> (2 <= fuel)%nat \/ (1 <= fuel)%nat /\ started + delay <= service_clock s ->
  started <= service_clock s ->
  exists stop s', wait_loop fuel started delay s = (Some stop, s') /\
    if (stop : bool) then exists w, task_should_stop w = true else started + delay <= service_clock s'.
Proof.
  revert s. induction fuel as [|fuel IH]; intros s Hf Hf2 Hn; [lia|]. cbn [wait_loop]. unfold now_and, MILLISECOND in *.
  pose proof (service_pass_clock s) as T1. set (s1 := service_pass s) in *. unfold duration_since at 1.
  destruct (Z.ltb_spec (Z.max 0 (service_clock s - started)) delay) as [Hlt|]; [|exists false, s1; split; [done|lia]].
  destruct (task_should_stop s1) eqn:Hstop; [exists true, s1; split; [done|by exists s1]|].
  pose proof (service_pass_clock s1) as T2. set (s2 := service_pass s1) in *. unfold duration_since. set (d := Z.min _ _).
  pose proof (service_sleep_clock d s2 ltac:(unfold d; lia)) as T3. set (s3 := service_sleep d s2) in *.
  apply IH; unfold d in *; lia.
Qed.

(** The supervisor waits as long as it should: given one turn of its loop for every fifty
    milliseconds, and two, a wait ends, and not before its time unless the service was told
    to stop. *)
Theorem supervisor_wait_correct fuel delay s :
  delay <= (Z.of_nat fuel - 2) * (50 * MILLISECOND) -> 0 <= delay ->
  exists stop s', supervisor_wait fuel delay s = (Some stop, s') /\
    if (stop : bool) then exists w, task_should_stop w = true else service_clock s + delay <= service_clock s'.
Proof.
  intros Hf Hd. unfold supervisor_wait, now_and. pose proof (service_pass_clock s) as T1.
  apply wait_loop_spec; unfold MILLISECOND in *; lia.
Qed.

Definition delays_ok v : Prop := 250 <= retry_delay_ms v <= 5000 /\ 5000 <= blocked_delay v <= 60000.
Definition turn_ok (x : Turn * S) : Prop := match x.1 with Again v => delays_ok v | _ => True end.
Lemma wait_and_ok fuel delay v s : delays_ok v -> turn_ok (wait_and fuel delay v s).
Proof. intros Hv. unfold wait_and. by destruct (supervisor_wait _ _ _) as [[[]|] ?]. Qed.
Lemma block_ok fuel name error v s : delays_ok v -> turn_ok (block fuel name error v s).
Proof. intros [H1 H2]. apply wait_and_ok. unfold delays_ok, double_ms in *. cbn [retry_delay_ms blocked_delay]. lia. Qed.
Lemma compete_ok fuel runtime config v s : delays_ok v -> turn_ok (compete fuel runtime config v s).
Proof.
  intros Hv. unfold compete. destruct (acquire_refresh_lock runtime s) as [[[]|e] s1]; [|by apply wait_and_ok|by apply block_ok].
  destruct (run_refresh_leader _ _ _ _) as [[[[]|e]|] s2]; cbn zeta iota; [| |done]; unfold after_leader.
  - destruct (task_should_stop _); [done|]. unfold turn_ok, delays_ok. cbn. lia.
  - destruct (_ || _); [|by apply block_ok]. apply wait_and_ok. unfold delays_ok, double_ms in *. cbn [retry_delay_ms blocked_delay]. lia.
Qed.
Lemma turn_delays fuel config v s : delays_ok v -> turn_ok (supervisor_turn fuel config v s).
Proof.
  intros Hv. unfold supervisor_turn. destruct (task_should_stop s); [done|]. destruct (match identity v with Some _ => _ | None => _ end) as [[id|e] s1]; [|by apply block_ok].
  cbv zeta. set (v1 := {| identity := Some id; retry_delay_ms := _; blocked_delay := _ |}). assert (delays_ok v1) as H1 by done. clearbody v1.
  destruct (validate id s1) as [[] ?]; [|by apply block_ok]. destruct (resolve_refresh_runtime _) as [[runtime|] ?]; [|by apply block_ok].
  unfold supervise. destruct (installed_settings _ _) as [installed ?]. destruct (resolve_service_config _ _) as [c|e]; [|by apply block_ok].
  destruct (policy (settings c)); [by apply wait_and_ok|]. destruct (require_graph_write _ _) as [[] ?]; [by apply compete_ok|done].
Qed.

(** Between two turns the supervisor waits from a quarter of a second to five seconds
    for a retry, and from five seconds to a minute when it is blocked, whatever has failed
    how often; only a leader that ended without an error starts the delays anew. *)
Theorem supervisor_delays_bounded fuel turns config s :
  match (supervisor_turns fuel turns config first_supervisor s).1 with
  | Again v => 250 <= retry_delay_ms v <= 5000 /\ 5000 <= blocked_delay v <= 60000
  | _ => True
  end.
Proof.
  assert (forall v s, delays_ok v -> turn_ok (supervisor_turns fuel turns config v s)) as Ht; [|apply (Ht first_supervisor s); unfold delays_ok; cbn; lia].
  clear s. induction turns as [|n IH]; intros v s Hv; [done|]. cbn [supervisor_turns]. pose proof (turn_delays fuel config v s Hv) as H1.
  destruct (supervisor_turn fuel config v s) as [[v1|r|] s1]; [by apply IH|done|done].
Qed.
End laws.

(** ** A service that is told to stop after twenty seconds *)
Module SupervisorSample.
#[local] Existing Instance ascii_unicode.
Record World := { st : RefreshStatus; time : Z; inbox : list WatchMessage; executed : nat }.
Definition set_st (f : RefreshStatus -> RefreshStatus) (w : World) : World :=
  {| st := f (st w); time := time w; inbox := inbox w; executed := executed w |}.
Definition tick (d : Z) (w : World) : World := {| st := st w; time := time w + Z.max 0 d; inbox := inbox w; executed := executed w |}.
Definition seconds (n : Z) : Z := n * 1000000000.
#[local] Instance service : Service World bool := {
  status := st;
  on_status := set_st;
  service_unix_ms w := time w / MILLISECOND;
  process_id := 7;
  service_sleep := tick;
  task_should_stop w := seconds 20 <=? time w;
  execute_isolated _ w := (Ok true, {| st := st w; time := time w + 30 * MILLISECOND; inbox := inbox w; executed := S (executed w) |});
  parse_json _ := None;
  rebuild_count written := if (written : bool) then 1 else 0;
  deleted_count _ := 0;
  database_written written := written;
  response_marks _ := ∅;
  response_spill _ := 0
}.
#[local] Instance files : Files World := {
  service_clock := time;
  service_pass := tick 1000;
  service_snapshot _ := Ok {[ "a.rs" := {| modified_nanos := 1; file_len := 2 |} ]};
  service_config_differs _ := false
}.
(** The watcher's callback has told the status of an event when it arrives. *)
#[local] Instance native_watching : NativeWatching World := {
  recv_timeout d w :=
    match inbox w with
    | message :: inbox =>
        let w := tick 1000 {| st := st w; time := time w; inbox := inbox; executed := executed w |} in
        (Message message,
         match message with EventMessage _ => set_st (fun s => (mark_dirty_at (time w / MILLISECOND) s).2) w | ErrorMessage _ => w end)
    | [] => (Timeout, tick d w)
    end;
  take_overflow w := (false, w);
  is_dir _ _ := false
}.
#[local] Instance supervision : Supervision World unit unit := {
  capture w := (Ok (), w);
  validate _ w := (Ok (), w);
  resolve_refresh_runtime w := (Ok (), w);
  repo_root _ := "/repo";
  installed_settings _ w := (Ok None, w);
  require_graph_write _ w := (Ok (), w);
  acquire_refresh_lock _ w := (Ok true, w);
  release_refresh_lock _ w := w;
  plan_execution _ w := (Ok (), w);
  event_filter _ w := (Ok NativeSample.filter, w);
  start_native_watcher _ w := (Ok (), w);
  probe_native_watcher _ w := (Ok (true, None, []), w)
}.
#[local] Instance service_laws : ServiceLaws.
Proof. constructor; intros; try reflexivity; (exists []; split; [constructor|reflexivity]). Qed.
#[local] Instance supervision_laws : SupervisionLaws.
Proof.
  constructor; intros; try (exists []; split; [constructor|reflexivity]). destruct s as [s t [|[e|e] q] n]; cbn.
  - exists []. split; [constructor|reflexivity].
  - exists [MarkDirty ((t + Z.max 0 1000) / MILLISECOND)]. split; [repeat constructor|reflexivity].
  - exists []. split; [constructor|reflexivity].
Qed.
#[local] Instance clock_laws : ServiceClock.
Proof. constructor; intros; cbn; lia. Qed.

Definition no_overrides : RefreshConfigOverrides :=
  {| o_policy := false; o_include_fts := false; o_spill_chunk_mib := false; o_max_parallelism := false; o_backend := false; o_reconcile_interval := false |}.
Definition config : RefreshServiceConfig := {|
  settings := {| policy := Leader; include_fts := true; chunk_mib := 64; parallelism := 4; loop_backend := Auto; interval_ms := 30000 |};
  explicit_overrides := no_overrides
|}.
Definition start (messages : list WatchMessage) : World :=
  {| st := default_status 30000 64 4; time := seconds 1; inbox := messages; executed := 0 |}.
Definition edit : WatchMessage := NativeSample.edit "/repo/src/a.rs".

Lemma service_forgets_nothing_witness :
  let w := (run_refresh_service 200 config (start [edit])).2 in
  executed w = 2%nat /\ pending (status w) = false /\ dirty_epoch (status w) = 2 /\ work_known (status w).
Proof.
  split; [vm_compute; reflexivity|]. split; [vm_compute; reflexivity|]. split; [vm_compute; reflexivity|].
  destruct (service_forgets_nothing 200 config (start [edit]) 30000 64 4) as (_ & H & _); [reflexivity|exact H].
Defined.
Lemma task_ends_dead_witness :
  let s := status (finish_refresh_task (Finished (Err "lock lost")) (start [])) in task_alive s = false /\ state s = "stopped".
Proof. destruct (task_ends_dead (Finished (Err "lock lost")) (start [])) as (H & _). split; [exact H|vm_compute; reflexivity]. Defined.
Lemma supervisor_wait_correct_witness :
  exists w, supervisor_wait 102 (seconds 5) (start []) = (Some false, w) /\ seconds 6 <= service_clock w.
Proof.
  destruct (supervisor_wait_correct 102 (seconds 5) (start [])) as (stop & w & E & H); [vm_compute; discriminate|vm_compute; discriminate|].
  exists w. assert (stop = false) as Hs by (vm_compute in E; injection E as <- _; reflexivity). rewrite Hs in *. split; [exact E|exact H].
Defined.

(** When the native watcher fails while a change is being collected, the leader goes over
    to polling without the reconciliation that begins every other way of polling: the change
    stays pending, for eighteen seconds and more here, until the interval is over. *)
Theorem fallback_without_reconciliation :
  let '(answer, w) := run_refresh_leader 200 () config (start [edit; ErrorMessage "queue overflow"]) in
  answer = Some (Ok ()) /\ seconds 20 <= time w /\ executed w = 1%nat /\ pending (status w) = true /\ reconciled_epoch (status w) < dirty_epoch (status w).
Proof. vm_compute. split_and!; reflexivity || (intros [=]). Qed.
End SupervisorSample.
