(* ===== verification/Requests.v ===== *)
(** * Requests and their normalization (src/api/normalization.rs, src/api/contracts.rs)

    A registered operation is prepared from its arguments, brought into a normal form, and
    checked before anything is executed; a graph query is moreover accepted only when it
    holds none of the words that change a database (src/api/graph_read.rs). *)
From S2P Require Import Prelude Order Text Json Refresh.
#[local] Open Scope rust_scope.
#[local] Open Scope Z_scope.

(** ** Requests (contracts.rs) *)
Inductive OutputFormat := Typed | Block.
Inductive McpTransport := AutoTransport | Stdio | HttpDaemon.
Record RepoSelector := {
  repo_root_path : option string; repo_config_path : option string; repo_db_path : option string; repo_manifest_path : option string
}.
Record ApiError := { code : string; message : string; details : option Value; retryable : bool }.
Definition api_error_new (code message : string) : ApiError := {| code := code; message := message; details := None; retryable := false |}.
Record HealthRequest := { h_repo : RepoSelector; confirm_legacy_quiescence : bool; refresh_status : option Value; h_format : OutputFormat }.
Record SearchRequest := {
  s_repo : RepoSelector; s_query : string; s_layer : string; s_profile : string; s_limit : Z; s_budget : Z; s_context_limit : Z;
  s_max_depth : option Z; s_detail : string; s_format : OutputFormat
}.
Record ContextRequest := {
  c_repo : RepoSelector; c_query : option string; c_layer : string; c_profile : string; c_limit : Z; c_budget : Z; c_context_limit : Z;
  c_max_depth : option Z; c_detail : string; node_id : option string; node_type : option string; c_format : OutputFormat
}.
Record QueryRequest := { q_repo : RepoSelector; statement : string; parameters : Value; q_limit : Z; q_format : OutputFormat }.
Record MaterializationRequest := {
  m_repo : RepoSelector; native_request_path : option string; m_source_root : option string; m_mode : string; m_include_fts : bool;
  use_git : bool; git_diff : bool; git_base : option string; m_include_patterns : list string; m_exclude_patterns : list string;
  candidate_paths : list string; m_parallel : bool; m_spill_chunk_mib : option Z; m_max_parallelism : option Z; m_progress : bool;
  m_format : OutputFormat
}.
Record RepositoryLifecycleRequest := {
  l_repo : RepoSelector; action : string; l_format : OutputFormat; l_dry_run : bool; mcp_client : option string; l_agent_hooks : string;
  mcp_config_path : option string; instructions_target : option string; skip_mcp_config : bool; mcp_transport : McpTransport;
  mcp_daemon_port : option Z; l_mode : string; l_include_fts : bool
}.
Record McpInstallRequest := {
  i_repo : RepoSelector; client : string; scope : string; i_name : option string; client_config_path : option string;
  i_agent_hooks : string; i_dry_run : bool; transport : McpTransport; daemon_port : option Z; i_format : OutputFormat
}.
Record RefreshRequest := {
  r_repo : RepoSelector; r_paths : list string; r_mode : string; r_include_fts : bool; r_parallel : bool; r_progress : bool;
  r_format : OutputFormat
}.
Inductive OperationRequest :=
| Health (r : HealthRequest)
| Search (r : SearchRequest)
| Context (r : ContextRequest)
| Query (r : QueryRequest)
| Materialize (r : MaterializationRequest)
| Plan (r : MaterializationRequest)
| Catalog (kind : string) (group : option string) (format : OutputFormat)
| Setup (r : RepositoryLifecycleRequest)
| Reinstall (r : RepositoryLifecycleRequest)
| Uninstall (r : RepositoryLifecycleRequest)
| InstallMcp (r : McpInstallRequest)
| RefreshNow (r : RefreshRequest).
Record OperationInvocation := { repo : RepoSelector; arguments : Value; output_format : OutputFormat }.

(** ** Arguments *)
Definition DEFAULT_PROFILE : string := "brief".
Definition DEFAULT_LAYER : string := "semantic".
Definition DEFAULT_DETAIL : string := "standard".
Definition DEFAULT_SEARCH_LIMIT : Z := 3.
Definition DEFAULT_SEARCH_BUDGET : Z := 600.
Definition DEFAULT_CONTEXT_LIMIT : Z := 3.
Definition DEFAULT_QUERY_LIMIT : Z := 100.
Definition DEFAULT_MATERIALIZATION_MODE : string := "changed".

(** [Value::as_u64] of a number, which is known by its text *)
Definition digit_value (a : ascii) : option Z :=
  let n := Z.of_N (N_of_ascii a) in if (48 <=? n) && (n <=? 57) then Some (n - 48) else None.
Fixpoint digits_value (acc : Z) (s : string) : option Z :=
  match s with
  | EmptyString => Some acc
  | String a s => match digit_value a with Some d => digits_value (acc * 10 + d) s | None => None end
  end.
Definition as_u64 (v : Value) : option Z :=
  match v with
  | VNumber display =>
      match digits_value 0 display with Some n => if is_empty display || (u64_max <? n) then None else Some n | None => None end
  | _ => None
  end.
Definition argument_string (arguments : Value) (key : string) : string := default "" (value_get key arguments ≫= as_str).
Definition argument_optional_string (arguments : Value) (key : string) : option string := value_get key arguments ≫= as_str.
Definition argument_usize (arguments : Value) (key : string) : option Z := value_get key arguments ≫= as_u64.

(** ** Normal forms *)
Definition default_string (value fallback : string) : string :=
  let normalized := trim value in if is_empty normalized then fallback else normalized.
Definition normalized_optional_string (value : option string) : option string :=
  match trim <$> value with Some s => if is_empty s then None else Some s | None => None end.
Definition normalize_layer (layer : string) : string := default_string (to_ascii_lowercase (trim layer)) DEFAULT_LAYER.
Definition normalize_agent_hooks_selection (value : string) : string :=
  let normalized := to_ascii_lowercase (trim value) in if is_empty normalized then "auto" else normalized.
Definition normalize_path (path : string) : string := replace_char "\" "/" (trim_start_matches "./" (trim path)).
(** [Vec::dedup] *)
Fixpoint dedup (l : list string) : list string :=
  match l with
  | x :: (y :: _) as l => if String.eqb x y then dedup l else x :: dedup l
  | _ => l
  end.
Definition normalize_paths (paths : list string) : list string :=
  dedup (sort (List.filter (fun path => negb (is_empty path)) (map normalize_path paths))).

Section environment.
(** [HOME] and the current directory *)
Context (home : option string) (current_dir : option string).
Definition home_dir : string := default "." home.
Definition join_paths (base path : string) : string :=
  if starts_with path "/" then path else if is_empty base || ends_with base "/" then base +:+ path else base +:+ "/" +:+ path.
Definition expand_path (value : string) : string :=
  match strip_prefix "~/" value with
  | Some rest => join_paths home_dir rest
  | None => if starts_with value "/" then value else join_paths (default "." current_dir) value
  end.

Definition set_repo_root (root : option string) (r : RepoSelector) : RepoSelector :=
  {| repo_root_path := root; repo_config_path := repo_config_path r; repo_db_path := repo_db_path r; repo_manifest_path := repo_manifest_path r |}.
Definition normalize_materialization (r : MaterializationRequest) : MaterializationRequest :=
  let source_root := normalized_optional_string (m_source_root r) in
  {| m_repo := match repo_root_path (m_repo r) with None => set_repo_root source_root (m_repo r) | Some _ => m_repo r end;
     native_request_path := native_request_path r; m_source_root := source_root;
     m_mode := default_string (m_mode r) DEFAULT_MATERIALIZATION_MODE; m_include_fts := m_include_fts r; use_git := use_git r;
     git_diff := git_diff r; git_base := normalized_optional_string (git_base r); m_include_patterns := m_include_patterns r;
     m_exclude_patterns := m_exclude_patterns r; candidate_paths := normalize_paths (candidate_paths r); m_parallel := m_parallel r;
     m_spill_chunk_mib := m_spill_chunk_mib r; m_max_parallelism := m_max_parallelism r; m_progress := m_progress r;
     m_format := m_format r |}.
Definition normalize_refresh (r : RefreshRequest) : RefreshRequest :=
  {| r_repo := r_repo r; r_paths := normalize_paths (r_paths r); r_mode := default_string (r_mode r) DEFAULT_MATERIALIZATION_MODE;
     r_include_fts := r_include_fts r; r_parallel := r_parallel r; r_progress := r_progress r; r_format := r_format r |}.
Definition normalize_lifecycle (r : RepositoryLifecycleRequest) : RepositoryLifecycleRequest :=
  {| l_repo := l_repo r; action := trim (action r); l_format := l_format r; l_dry_run := l_dry_run r;
     mcp_client := normalized_optional_string (mcp_client r); l_agent_hooks := normalize_agent_hooks_selection (l_agent_hooks r);
     mcp_config_path := mcp_config_path r; instructions_target := normalized_optional_string (instructions_target r);
     skip_mcp_config := skip_mcp_config r; mcp_transport := mcp_transport r; mcp_daemon_port := mcp_daemon_port r;
     l_mode := default_string (l_mode r) DEFAULT_MATERIALIZATION_MODE; l_include_fts := l_include_fts r |}.
Definition normalize_mcp_install (r : McpInstallRequest) : McpInstallRequest :=
  {| i_repo := {| repo_root_path := expand_path <$> repo_root_path (i_repo r); repo_config_path := expand_path <$> repo_config_path (i_repo r);
                  repo_db_path := repo_db_path (i_repo r); repo_manifest_path := repo_manifest_path (i_repo r) |};
     client := to_ascii_lowercase (trim (client r)); scope := to_ascii_lowercase (trim (scope r)); i_name := normalized_optional_string (i_name r);
     client_config_path := expand_path <$> client_config_path r; i_agent_hooks := normalize_agent_hooks_selection (i_agent_hooks r);
     i_dry_run := i_dry_run r; transport := transport r; daemon_port := daemon_port r; i_format := i_format r |}.

Definition normalize_request (request : OperationRequest) : OperationRequest :=
  match request with
  | Search r =>
      Search {| s_repo := s_repo r; s_query := trim (s_query r); s_layer := normalize_layer (s_layer r);
                s_profile := default_string (s_profile r) DEFAULT_PROFILE; s_limit := s_limit r; s_budget := s_budget r;
                s_context_limit := s_context_limit r; s_max_depth := s_max_depth r; s_detail := default_string (s_detail r) DEFAULT_DETAIL;
                s_format := s_format r |}
  | Context r =>
      Context {| c_repo := c_repo r; c_query := normalized_optional_string (c_query r); c_layer := normalize_layer (c_layer r);
                 c_profile := default_string (c_profile r) DEFAULT_PROFILE; c_limit := c_limit r; c_budget := c_budget r;
                 c_context_limit := c_context_limit r; c_max_depth := c_max_depth r; c_detail := default_string (c_detail r) DEFAULT_DETAIL;
                 node_id := normalized_optional_string (node_id r); node_type := normalized_optional_string (node_type r);
                 c_format := c_format r |}
  | Query r =>
      Query {| q_repo := q_repo r; statement := trim (statement r); parameters := parameters r; q_limit := q_limit r; q_format := q_format r |}
  | Materialize r => Materialize (normalize_materialization r)
  | Plan r => Plan (normalize_materialization r)
  | Setup r => Setup (normalize_lifecycle r)
  | Reinstall r => Reinstall (normalize_lifecycle r)
  | Uninstall r => Uninstall (normalize_lifecycle r)
  | InstallMcp r => InstallMcp (normalize_mcp_install r)
  | RefreshNow r => RefreshNow (normalize_refresh r)
  | Catalog kind group format => Catalog (trim kind) (normalized_optional_string group) format
  | Health r => Health r
  end.

(** ** Preparing a registered operation *)
Definition prepare_operation_request (operation_id : string) (invocation : OperationInvocation) : result ApiError OperationRequest :=
  let arguments := arguments invocation in
  let repo := repo invocation in
  let format := output_format invocation in
  let request :=
    if String.eqb operation_id "health" then
      match value_get "confirm_legacy_quiescence" arguments with
      | None => Ok (Health {| h_repo := repo; confirm_legacy_quiescence := false; refresh_status := None; h_format := format |})
      | Some (VBool value) => Ok (Health {| h_repo := repo; confirm_legacy_quiescence := value; refresh_status := None; h_format := format |})
      | Some _ => Err (api_error_new "invalid_request" "confirm_legacy_quiescence must be a boolean")
      end
    else if String.eqb operation_id "search" then
      Ok (Search {| s_repo := repo; s_query := argument_string arguments "query"; s_layer := argument_string arguments "layer";
        s_profile := argument_string arguments "profile"; s_limit := default DEFAULT_SEARCH_LIMIT (argument_usize arguments "limit");
        s_budget := default DEFAULT_SEARCH_BUDGET (argument_usize arguments "budget");
        s_context_limit := default DEFAULT_CONTEXT_LIMIT (argument_usize arguments "context_limit");
        s_max_depth := argument_usize arguments "max_depth"; s_detail := argument_string arguments "detail"; s_format := format |})
    else if String.eqb operation_id "context" then
      Ok (Context {| c_repo := repo; c_query := argument_optional_string arguments "query"; c_layer := argument_string arguments "layer";
        c_profile := argument_string arguments "profile"; c_limit := default DEFAULT_SEARCH_LIMIT (argument_usize arguments "limit");
        c_budget := default DEFAULT_SEARCH_BUDGET (argument_usize arguments "budget");
        c_context_limit := default DEFAULT_CONTEXT_LIMIT (argument_usize arguments "context_limit");
        c_max_depth := argument_usize arguments "max_depth"; c_detail := argument_string arguments "detail";
        node_id := argument_optional_string arguments "node_id"; node_type := argument_optional_string arguments "node_type"; c_format := format |})
    else if String.eqb operation_id "query" then
      Ok (Query {| q_repo := repo; statement := argument_string arguments "statement";
        parameters := default (VObject []) (value_get "parameters" arguments);
        q_limit := default DEFAULT_QUERY_LIMIT (argument_usize arguments "limit"); q_format := format |})
    else if String.eqb operation_id "schema" || String.eqb operation_id "query-helpers" then Ok (Catalog operation_id None format)
    else if String.eqb operation_id "architecture-queries" then Ok (Catalog operation_id (argument_optional_string arguments "group") format)
    else if String.eqb operation_id "syntax" then Ok (Catalog operation_id (argument_optional_string arguments "language") format)
    else Err (api_error_new "unsupported_operation" ("unsupported registered operation input: " +:+ operation_id)) in
  (let? r := request in Ok (normalize_request r)).
Definition required_fields (operation_id : string) : list string :=
  if String.eqb operation_id "search" then ["query"]
  else if String.eqb operation_id "query" then ["statement"]
  else if String.eqb operation_id "syntax" then ["language"]
  else [].
End environment.

(** ** Validation *)
Definition api_error {A} (code message : string) : result ApiError A := Err (api_error_new code message).
Definition ensure (b : bool) (code message : string) : result ApiError () := if b then Ok () else api_error code message.
Definition supported_mcp_clients : list string :=
  ["claude"; "claude-project"; "codex"; "copilot-studio"; "generic"; "github-copilot"; "hermes"; "lmstudio"; "microsoft-copilot"; "openclaw"].
Definition is_some {A} (o : option A) : bool := match o with Some _ => true | None => false end.

Definition validate_graph_layer (layer : string) : result ApiError () :=
  ensure (is_one_of layer ["semantic"; "syntax"; "hybrid"]) "invalid_graph_layer" "graph layer must be one of semantic, syntax, or hybrid".
Definition validate_context_layer_target (layer : string) (node_type : option string) : result ApiError () :=
  match node_type with
  | Some node_type =>
      if String.eqb layer "semantic" && String.eqb node_type "SyntaxCapture"
      then api_error "invalid_graph_layer_target" "semantic context does not accept SyntaxCapture targets"
      else if String.eqb layer "syntax" && negb (String.eqb node_type "SyntaxCapture")
      then api_error "invalid_graph_layer_target" "syntax context requires a SyntaxCapture target"
      else Ok ()
  | None => Ok ()
  end.
Definition validate_agent_hooks_selection (value : string) : result ApiError () :=
  ensure (is_one_of value ["auto"; "none"; "codex"; "claude"; "github-copilot"; "all"]) "invalid_agent_hooks"
    "agent_hooks must be auto, none, codex, claude, github-copilot, or all".
Definition validate_detail_and_limit (detail : string) (limit : Z) : result ApiError () :=
  let? _ := ensure (is_one_of detail ["standard"; "slim"]) "invalid_detail" "detail must be standard or slim" in
  ensure (negb (limit =? 0)) "invalid_limit" "search limit must be greater than zero".
Definition validate_search_fields (query detail : string) (limit : Z) : result ApiError () :=
  let? _ := ensure (negb (is_empty (trim query))) "missing_query" "Search query must not be empty" in
  validate_detail_and_limit detail limit.
Definition validate_materialization_fields (mode operation : string) : result ApiError () :=
  ensure (is_one_of mode ["full"; "changed"]) "invalid_materialization_mode" (operation +:+ " mode must be full or changed").
Definition validate_lifecycle (r : RepositoryLifecycleRequest) (expected_action : string) : result ApiError () :=
  let? _ := ensure (String.eqb (action r) expected_action) "invalid_lifecycle_action"
    ("lifecycle request action " +:+ action r +:+ " does not match " +:+ expected_action) in
  let? _ := validate_materialization_fields (l_mode r) expected_action in
  let? _ := validate_agent_hooks_selection (l_agent_hooks r) in
  let? _ :=
    match mcp_client r with
    | Some client =>
        let special_allowed := if String.eqb expected_action "uninstall" then String.eqb client "all" else String.eqb client "none" in
        ensure (special_allowed || is_one_of client supported_mcp_clients) "invalid_mcp_client" ("unsupported MCP client: " +:+ client)
    | None => Ok ()
    end in
  ensure (negb (match mcp_daemon_port r with Some port => port =? 0 | None => false end)) "invalid_mcp_daemon_port"
    "MCP daemon port must be between 1 and 65535".
Definition validate_mcp_install (r : McpInstallRequest) : result ApiError () :=
  let? _ := validate_agent_hooks_selection (i_agent_hooks r) in
  let? _ := ensure (String.eqb (client r) "all" || is_one_of (client r) supported_mcp_clients) "invalid_mcp_client"
    ("unsupported MCP client: " +:+ client r) in
  let? _ := ensure (is_one_of (scope r) ["local"; "user"; "project"]) "invalid_mcp_scope"
    "MCP install scope must be local, user, or project" in
  let? _ := ensure (negb (String.eqb (client r) "all" && is_some (client_config_path r))) "invalid_mcp_config_path"
    "client_config_path requires one selected MCP client" in
  ensure (negb (match daemon_port r with Some port => port =? 0 | None => false end)) "invalid_mcp_daemon_port"
    "MCP daemon port must be between 1 and 65535".

Definition validate_request (request : OperationRequest) : result ApiError () :=
  match request with
  | Search r =>
      let? _ := validate_search_fields (s_query r) (s_detail r) (s_limit r) in
      validate_graph_layer (s_layer r)
  | Context r =>
      let? _ := ensure (Bool.eqb (is_some (node_id r)) (is_some (node_type r))) "invalid_node_reference"
        "context operation requires both node_id and node_type" in
      let? _ := ensure (is_some (c_query r) || is_some (node_id r)) "missing_query"
        "context operation requires a query or explicit node reference" in
      let? _ := validate_detail_and_limit (c_detail r) (c_limit r) in
      let? _ := validate_graph_layer (c_layer r) in
      validate_context_layer_target (c_layer r) (node_type r)
  | Query r =>
      let? _ := ensure (negb (is_empty (statement r))) "missing_query" "graph_query requires a non-empty statement" in
      let? _ := ensure (negb ((q_limit r =? 0) || (1000 <? q_limit r))) "invalid_limit" "graph_query limit must be between 1 and 1000" in
      ensure (is_some (as_object (parameters r))) "query_invalid_parameters" "query parameters must be an object"
  | Materialize r | Plan r => validate_materialization_fields (m_mode r) "materialization"
  | RefreshNow r => validate_materialization_fields (r_mode r) "refresh"
  | Setup r => validate_lifecycle r "setup"
  | Reinstall r => validate_lifecycle r "reinstall"
  | Uninstall r => validate_lifecycle r "uninstall"
  | InstallMcp r => validate_mcp_install r
  | Catalog kind group _ =>
      if is_empty kind then api_error "invalid_catalog_kind" "catalog kind must not be empty"
      else if String.eqb kind "syntax" && negb (is_some group) then api_error "invalid_catalog_group" "syntax catalog requires a language"
      else Ok ()
  | Health _ => Ok ()
  end.

(** ** Graph queries (graph_read.rs) *)
Definition is_keyword_char (c : ascii) : bool :=
  let n := Z.of_N (N_of_ascii c) in
  ((48 <=? n) && (n <=? 57)) || ((65 <=? n) && (n <=? 90)) || ((97 <=? n) && (n <=? 122)) || Ascii.eqb c "_".
Definition ascii_upper (c : ascii) : ascii :=
  let n := N_of_ascii c in if ((97 <=? n) && (n <=? 122))%N then ascii_of_N (n - 32) else c.
Definition to_ascii_uppercase (s : string) : string := smap ascii_upper s.

(** [find]: what is before the first occurrence, and what is after it. *)
Fixpoint find_str (needle s : string) : option (string * string) :=
  match strip_prefix needle s with
  | Some rest => Some ("", rest)
  | None =>
      match s with
      | EmptyString => None
      | String a s => match find_str needle s with Some (before, after) => Some (String a before, after) | None => None end
      end
  end.
Definition last_char (s : string) : option ascii := last (as_bytes s).
Definition first_char (s : string) : option ascii := head (as_bytes s).
Definition in_word (c : option ascii) : bool := match c with Some c => is_keyword_char c | None => false end.

(** [before] is what the search has left behind, [s] what is ahead of it. *)
Fixpoint keyword_loop (fuel : nat) (keyword before s : string) : bool :=
  match fuel with
  | O => false
  | S fuel =>
      match find_str keyword s with
      | None => false
      | Some (skipped, rest) =>
          if negb (in_word (last_char (before +:+ skipped))) && negb (in_word (first_char rest)) then true
          else keyword_loop fuel keyword (before +:+ skipped +:+ keyword) rest
      end
  end.
Definition contains_keyword (statement keyword : string) : bool :=
  let uppercase := to_ascii_uppercase statement in keyword_loop (S (String.length uppercase)) keyword "" uppercase.

Definition BLOCKED_KEYWORDS : list string :=
  ["ALTER"; "ATTACH"; "CALL"; "COPY"; "CREATE"; "DELETE"; "DETACH"; "DROP"; "EXPORT"; "IMPORT"; "INSERT"; "INSTALL"; "LOAD"; "MERGE";
   "REMOVE"; "RENAME"; "SET"; "TRUNCATE"; "UPDATE"; "USE"].
Definition validate_read_only_statement (statement : string) : result string () :=
  let stripped := trim_end_matches ";" (trim statement) in
  if contains_char stripped ";" then Err "graph_query accepts one read-only statement at a time"
  else
    match find (contains_keyword stripped) BLOCKED_KEYWORDS with
    | Some keyword => Err ("graph_query is read-only; blocked keyword: " +:+ keyword)
    | None => Ok ()
    end.

Definition backslash : ascii := "\".
Definition quote : ascii := "'".
Fixpoint double_char (c : ascii) (s : string) : string :=
  match s with EmptyString => "" | String a s => if Ascii.eqb a c then String a (String a (double_char c s)) else String a (double_char c s) end.
Fixpoint escape_char (c : ascii) (s : string) : string :=
  match s with
  | EmptyString => ""
  | String a s => if Ascii.eqb a c then String backslash (String a (escape_char c s)) else String a (escape_char c s)
  end.
Definition cypher_single_quoted (value : string) : string := escape_char quote (double_char backslash value).
Definition cypher_identifier (value : string) : string := double_char "`" value.

(** ** Normal forms are kept *)
Lemma is_empty_false s : is_empty s = false -> s <> "".
Proof. by destruct s. Qed.
Lemma default_string_idemp value fallback : trim fallback = fallback -> is_empty fallback = false ->
  default_string (default_string value fallback) fallback = default_string value fallback.
Proof.
  intros Ht He. unfold default_string. destruct (is_empty (trim value)) eqn:E; [by rewrite Ht, He|by rewrite trim_idemp, E].
Qed.
Lemma normalized_optional_idemp value : normalized_optional_string (normalized_optional_string value) = normalized_optional_string value.
Proof.
  unfold normalized_optional_string. destruct value as [s|]; [|done]. cbn. destruct (is_empty (trim s)) eqn:E; [done|]. cbn. by rewrite trim_idemp, E.
Qed.

(** Lower-casing leaves white space as it is, so it can be done before trimming. *)
Definition no_letter (a : ascii) : bool := negb (is_ascii_upper a) && negb (is_ascii_lower a).
Lemma upper_lower u : is_ascii_upper u = true -> is_ascii_lower (ascii_lower u) = true.
Proof. destruct u as [[] [] [] [] [] [] [] []]; vm_compute; done. Qed.
Lemma lower_no_letter a u : no_letter a = true -> Ascii.eqb a (ascii_lower u) = Ascii.eqb a u.
Proof.
  intros [Hu Hl]%andb_true_iff. destruct (is_ascii_upper u) eqn:E.
  - pose proof (upper_lower u E) as Hlow. destruct (Ascii.eqb_spec a (ascii_lower u)) as [->|]; [by rewrite Hlow in Hl|].
    destruct (Ascii.eqb_spec a u) as [->|]; [by rewrite E in Hu|done].
  - unfold ascii_lower. by rewrite E.
Qed.
Lemma strip_prefix_lower p s : forallb no_letter (as_bytes p) = true -> strip_prefix p (smap ascii_lower s) = smap ascii_lower <$> strip_prefix p s.
Proof.
  revert s. induction p as [|a p IH]; intros s Hp; [done|]. cbn [as_bytes list_ascii_of_string forallb] in Hp. apply andb_true_iff in Hp as [Ha Hp].
  destruct s as [|u s]; [done|]. cbn [strip_prefix smap]. rewrite lower_no_letter by done. destruct (Ascii.eqb a u); [by apply IH|done].
Qed.
Lemma strip_one_lower pats s : forallb (fun p => forallb no_letter (as_bytes p)) pats = true ->
  strip_one pats (smap ascii_lower s) = smap ascii_lower <$> strip_one pats s.
Proof.
  unfold strip_one. induction pats as [|p pats IH]; [done|]. cbn [forallb find_map]. intros [Hp Hps]%andb_true_iff.
  rewrite strip_prefix_lower by done. destruct (strip_prefix p s); [done|]. by apply IH.
Qed.
Lemma smap_length f s : String.length (smap f s) = String.length s.
Proof. induction s; [done|]. cbn. by rewrite IHs. Qed.
Lemma smap_app f s t : smap f (s +:+ t) = smap f s +:+ smap f t.
Proof. induction s; [done|]. rewrite app_str_cons. cbn. by rewrite IHs. Qed.
Lemma smap_srev f s : smap f (srev s) = srev (smap f s).
Proof. induction s as [|a s IH]; [done|]. cbn [smap]. rewrite !srev_cons, smap_app, IH. done. Qed.
Lemma trim_start_lower pats s : forallb (fun p => forallb no_letter (as_bytes p)) pats = true ->
  trim_start_pats pats (smap ascii_lower s) = smap ascii_lower (trim_start_pats pats s).
Proof.
  intros Hp. unfold trim_start_pats. rewrite smap_length. generalize (String.length s) as n. intros n. revert s.
  induction n as [|n IH]; intros s; [done|]. cbn [trim_start_fuel]. rewrite strip_one_lower by done. destruct (strip_one pats s); [apply IH|done].
Qed.
Lemma trim_lower s : trim (to_ascii_lowercase s) = to_ascii_lowercase (trim s).
Proof.
  unfold trim, trim_start, trim_end, trim_end_pats, to_ascii_lowercase. rewrite trim_start_lower by (vm_compute; done).
  rewrite <- smap_srev, trim_start_lower by (vm_compute; done). by rewrite smap_srev.
Qed.
Lemma lower_idemp s : to_ascii_lowercase (to_ascii_lowercase s) = to_ascii_lowercase s.
Proof.
  unfold to_ascii_lowercase. induction s as [|a s IH]; [done|]. cbn. rewrite IH. f_equal. by destruct a as [[] [] [] [] [] [] [] []].
Qed.
Lemma is_empty_lower s : is_empty (to_ascii_lowercase s) = is_empty s.
Proof. by destruct s. Qed.

Lemma normalize_layer_idemp layer : normalize_layer (normalize_layer layer) = normalize_layer layer.
Proof.
  unfold normalize_layer, default_string. rewrite !trim_lower, !trim_idemp, !is_empty_lower.
  destruct (is_empty (trim layer)) eqn:E; [done|]. by rewrite trim_lower, !trim_idemp, is_empty_lower, E, lower_idemp.
Qed.
Lemma agent_hooks_idemp value : normalize_agent_hooks_selection (normalize_agent_hooks_selection value) = normalize_agent_hooks_selection value.
Proof.
  unfold normalize_agent_hooks_selection. cbv zeta. rewrite !is_empty_lower. destruct (is_empty (trim value)) eqn:E; [reflexivity|].
  by rewrite trim_lower, trim_idemp, is_empty_lower, E, lower_idemp.
Qed.

(** *** Paths *)
(** The list is that of a set, in order. *)
Lemma dedup_spec l : SortedBy le_b l -> StrictlySorted (dedup l) /\ forall x, x ∈ dedup l <-> x ∈ l.
Proof.
  unfold SortedBy. induction l as [|x [|y l] IH]; intros Hl; [by split; [constructor|]|by split; [repeat constructor|]|].
  change (dedup (x :: y :: l)) with (if String.eqb x y then dedup (y :: l) else x :: dedup (y :: l)).
  apply StronglySorted_inv in Hl as [Hl Hx]. destruct (IH Hl) as [S1 S2]. destruct (String.eqb_spec x y) as [->|Hne].
  { split; [done|]. intros z. rewrite S2, !elem_of_cons. tauto. }
  split; [|intros z; rewrite !elem_of_cons, S2, elem_of_cons; tauto]. constructor; [done|]. apply Forall_forall. intros z Hz.
  apply S2 in Hz. rewrite Forall_forall in Hx. assert (le_b x z = true) as Hxz by by apply Hx.
  rewrite lt_b_le_b. destruct (le_b z x) eqn:E; [|done]. exfalso. assert (z = x) as -> by by apply le_b_antisym.
  apply Hne. apply le_b_antisym; [apply Hx; set_solver|]. apply elem_of_cons in Hz as [->|Hz]; [done|].
  apply StronglySorted_inv in Hl as [_ Hy]. rewrite Forall_forall in Hy. by apply Hy.
Qed.
Lemma sorted_set_ext (l1 l2 : list string) : StrictlySorted l1 -> StrictlySorted l2 -> (forall x, x ∈ l1 <-> x ∈ l2) -> l1 = l2.
Proof.
  unfold StrictlySorted. intros H1. revert l2. induction H1 as [|x l1 H1 IH Hx]; intros l2 H2 He.
  { destruct l2 as [|y l2]; [done|]. specialize (He y). set_solver. }
  destruct H2 as [|y l2 H2 Hy]; [specialize (He x); set_solver|]. rewrite Forall_forall in Hx, Hy.
  assert (x = y) as ->.
  { assert (x ∈ y :: l2) as [->|Hin]%elem_of_cons by (apply He; left); [done|]. assert (y ∈ x :: l1) as [->|Hin']%elem_of_cons by (apply He; left); [done|].
    pose proof (Hx y Hin') as A. pose proof (Hy x Hin) as B. rewrite lt_b_le_b in A, B. apply negb_true_iff in A, B.
    exfalso. pose proof (le_b_false _ _ A). congruence. }
  f_equal. apply IH; [done|]. intros z. specialize (He z). rewrite !elem_of_cons in He.
  split; intros Hz.
  - destruct He as [[->|?] _]; [by right| |done]. specialize (Hx y Hz). by rewrite lt_b_irrefl in Hx.
  - destruct He as [_ [->|?]]; [by right| |done]. specialize (Hy y Hz). by rewrite lt_b_irrefl in Hy.
Qed.

Lemma contains_char_suffix p s c : contains_char (p +:+ s) c = false -> contains_char s c = false.
Proof. rewrite contains_char_app. by intros [_ ?]%orb_false_iff. Qed.
Lemma contains_char_prefix s w c : contains_char (s +:+ w) c = false -> contains_char s c = false.
Proof. rewrite contains_char_app. by intros [? _]%orb_false_iff. Qed.
Lemma trim_contains s c : contains_char s c = false -> contains_char (trim s) c = false.
Proof.
  intros H. destruct (trim_start_pats_suffix white_space s) as [p Hp]. rewrite Hp in H. apply contains_char_suffix in H.
  unfold trim. destruct (trim_end_pats_prefix white_space (trim_start s)) as [w Hw]. unfold trim_start in *. rewrite Hw in H.
  by apply contains_char_prefix in H.
Qed.
Lemma replace_char_id a b s : contains_char s a = false -> replace_char a b s = s.
Proof.
  unfold replace_char. induction s as [|c s IH]; [done|]. cbn. intros [H1 H2]%orb_false_iff. by rewrite H1, IH.
Qed.

(** A path that is its own normal form once it is trimmed and its leading "./" are gone. *)
Definition plain_path (path : string) : bool :=
  negb (contains_char path backslash) && (let t := trim_start_matches "./" (trim path) in String.eqb (trim t) t).
Lemma normalize_path_stable path : plain_path path = true -> normalize_path (normalize_path path) = normalize_path path.
Proof.
  unfold plain_path. intros [Hb%negb_true_iff Ht%String.eqb_eq]%andb_true_iff.
  assert (normalize_path path = trim_start_matches "./" (trim path)) as E.
  { apply replace_char_id. destruct (trim_start_pats_suffix ["./"] (trim path)) as [p Hp]. apply trim_contains in Hb. rewrite Hp in Hb.
    by apply contains_char_suffix in Hb. }
  assert (contains_char (normalize_path path) backslash = false) as Hn.
  { rewrite E. destruct (trim_start_pats_suffix ["./"] (trim path)) as [p Hp]. apply trim_contains in Hb. rewrite Hp in Hb.
    by apply contains_char_suffix in Hb. }
  rewrite E in Hn |- *. unfold normalize_path at 1. rewrite Ht. unfold trim_start_matches at 1. rewrite trim_start_pats_id.
  - by apply replace_char_id.
  - apply trim_start_pats_stripped. by repeat constructor.
Qed.

(** The normal form of a list of paths depends only on the set of the paths' normal forms; it is sorted, without
    repetition and without an empty path. *)
Lemma normalize_paths_spec paths :
  StrictlySorted (normalize_paths paths) /\
  forall p, p ∈ normalize_paths paths <-> p <> "" /\ p ∈ (normalize_path <$> paths).
Proof.
  unfold normalize_paths. destruct (dedup_spec (sort (List.filter (fun path => negb (is_empty path)) (map normalize_path paths)))) as [S1 S2].
  { apply sort_sorted. }
  split; [done|]. intros p. rewrite S2. unfold sort. rewrite elem_of_sort_by, !list_elem_of_In, filter_In.
  change (map normalize_path paths) with (normalize_path <$> paths). split.
  - intros [H1 H2]. split; [|done]. by intros ->.
  - intros [H1 H2]. split; [done|]. by destruct p.
Qed.
Lemma normalize_paths_stable paths : forallb plain_path paths = true -> normalize_paths (normalize_paths paths) = normalize_paths paths.
Proof.
  intros Hp. destruct (normalize_paths_spec paths) as [S1 S2], (normalize_paths_spec (normalize_paths paths)) as [T1 T2].
  apply sorted_set_ext; [done..|]. intros p. rewrite T2, S2.
  assert (forall q, q ∈ normalize_paths paths -> normalize_path q = q) as Hfix.
  { intros q [_ [r [-> Hr]]%list_elem_of_fmap]%S2. apply normalize_path_stable. rewrite forallb_elem_of in Hp. by apply Hp. }
  rewrite list_elem_of_fmap. split.
  - intros [H1 [q [-> Hq]]]. rewrite Hfix by done. by apply S2.
  - intros H. split; [by apply H|]. exists p. split; [|by apply S2]. by rewrite Hfix by by apply S2.
Qed.

(** *** Requests *)
Definition absolute (path : string) : bool := starts_with path "/".
Lemma expand_path_absolute home cwd value : absolute (home_dir home) = true -> absolute (default "." cwd) = true -> absolute (expand_path home cwd value) = true.
Proof.
  intros Hh Hc. unfold expand_path.
  assert (forall base p, absolute base = true -> absolute (join_paths base p) = true) as Hj.
  { intros base p Hb. unfold join_paths. destruct (starts_with p "/") eqn:E; [done|]. unfold absolute in *.
    destruct (is_empty base || ends_with base "/"); apply starts_with_spec in Hb as [r ->]; apply starts_with_spec; eexists; by rewrite ?app_str_assoc. }
  destruct (strip_prefix "~/" value); [by apply Hj|]. destruct (starts_with value "/") eqn:E; [done|by apply Hj].
Qed.
Lemma expand_path_id home cwd value : absolute value = true -> expand_path home cwd value = value.
Proof.
  unfold absolute, expand_path. intros Ha. rewrite Ha. apply starts_with_spec in Ha as [r ->]. done.
Qed.
Lemma expand_path_idemp home cwd (path : option string) : absolute (home_dir home) = true -> absolute (default "." cwd) = true ->
  expand_path home cwd <$> (expand_path home cwd <$> path) = expand_path home cwd <$> path.
Proof. intros Hh Hc. destruct path as [p|]; [|done]. cbn. f_equal. apply expand_path_id. by apply expand_path_absolute. Qed.

Definition operation_name (request : OperationRequest) : string :=
  match request with
  | Health _ => "health" | Search _ => "search" | Context _ => "context" | Query _ => "query" | Materialize _ => "materialize"
  | Plan _ => "plan" | Catalog kind _ _ => kind | Setup _ => "setup" | Reinstall _ => "reinstall" | Uninstall _ => "uninstall"
  | InstallMcp _ => "mcp-install" | RefreshNow _ => "refresh"
  end.
Definition repo_selector (request : OperationRequest) : option RepoSelector :=
  match request with
  | Health r => Some (h_repo r) | Search r => Some (s_repo r) | Context r => Some (c_repo r) | Query r => Some (q_repo r)
  | Materialize r | Plan r => Some (m_repo r) | Catalog _ _ _ => None | Setup r | Reinstall r | Uninstall r => Some (l_repo r)
  | InstallMcp r => Some (i_repo r) | RefreshNow r => Some (r_repo r)
  end.

(** The requests whose paths normalization brings into their normal form at once. *)
Definition plain_request (home cwd : option string) (request : OperationRequest) : bool :=
  match request with
  | Materialize r | Plan r => forallb plain_path (candidate_paths r)
  | RefreshNow r => forallb plain_path (r_paths r)
  | InstallMcp _ => absolute (home_dir home) && absolute (default "." cwd)
  | _ => true
  end.

#[local] Arguments normalize_paths : simpl never.
#[local] Arguments default_string : simpl never.
#[local] Arguments normalized_optional_string : simpl never.
#[local] Arguments normalize_layer : simpl never.
#[local] Arguments normalize_agent_hooks_selection : simpl never.
#[local] Arguments trim : simpl never.
#[local] Arguments to_ascii_lowercase : simpl never.
Lemma normalize_materialization_idemp r : forallb plain_path (candidate_paths r) = true ->
  normalize_materialization (normalize_materialization r) = normalize_materialization r.
Proof.
  intros Hp. unfold normalize_materialization. cbn. rewrite normalize_paths_stable, !normalized_optional_idemp, default_string_idemp by done.
  f_equal. destruct (repo_root_path (m_repo r)) eqn:E; [by rewrite E|]. cbn. by destruct (normalized_optional_string (m_source_root r)).
Qed.
Lemma normalize_lifecycle_idemp r : normalize_lifecycle (normalize_lifecycle r) = normalize_lifecycle r.
Proof.
  unfold normalize_lifecycle. cbn. by rewrite trim_idemp, !normalized_optional_idemp, agent_hooks_idemp, default_string_idemp.
Qed.
Lemma normalize_refresh_idemp r : forallb plain_path (r_paths r) = true -> normalize_refresh (normalize_refresh r) = normalize_refresh r.
Proof. intros Hp. unfold normalize_refresh. cbn. by rewrite normalize_paths_stable, default_string_idemp. Qed.
Lemma normalize_mcp_install_idemp home cwd r : absolute (home_dir home) = true -> absolute (default "." cwd) = true ->
  normalize_mcp_install home cwd (normalize_mcp_install home cwd r) = normalize_mcp_install home cwd r.
Proof.
  intros Hh Hc. unfold normalize_mcp_install. cbn. rewrite !trim_lower, !trim_idemp, !lower_idemp.
  by rewrite normalized_optional_idemp, agent_hooks_idemp, !expand_path_idemp.
Qed.

Lemma normalize_idemp home cwd request : plain_request home cwd request = true ->
  normalize_request home cwd (normalize_request home cwd request) = normalize_request home cwd request.
Proof.
  destruct request; cbn; intros Hp; try done; f_equal; cbn;
    rewrite ?trim_idemp, ?normalized_optional_idemp, ?normalize_layer_idemp, ?default_string_idemp by done; try done.
  - by apply normalize_materialization_idemp.
  - by apply normalize_materialization_idemp.
  - apply normalize_lifecycle_idemp.
  - apply normalize_lifecycle_idemp.
  - apply normalize_lifecycle_idemp.
  - apply andb_true_iff in Hp as [? ?]. by apply normalize_mcp_install_idemp.
  - by apply normalize_refresh_idemp.
Qed.

(** ** Prepared operations *)
Definition prepared_operations : list string := ["health"; "search"; "context"; "query"; "schema"; "query-helpers"; "architecture-queries"; "syntax"].
Lemma prepare_cases home cwd id inv r : prepare_operation_request home cwd id inv = Ok r ->
  id ∈ prepared_operations /\ exists r0, r = normalize_request home cwd r0 /\ operation_name r0 = id /\ plain_request home cwd r0 = true /\
  (is_one_of id ["health"; "search"; "context"; "query"] = true -> repo_selector r0 = Some (repo inv)) /\
  (id = "search" -> exists s, r0 = Search s /\ s_query s = argument_string (arguments inv) "query") /\
  (id = "query" -> exists q, r0 = Query q /\ statement q = argument_string (arguments inv) "statement") /\
  (id = "syntax" -> exists f, r0 = Catalog "syntax" (argument_optional_string (arguments inv) "language") f).
Proof.
  unfold prepare_operation_request. intros H. apply result_bind_Ok in H as [r0 [H [= <-]]].
  assert (forall i (P : Prop), i ∈ prepared_operations -> P -> i ∈ prepared_operations /\ P) as Hi by done.
  repeat (match type of H with context [String.eqb ?a ?b] => destruct (String.eqb_spec a b) as [->|]; cbn [orb] in H end);
    try discriminate H; try (apply Hi; [unfold prepared_operations; set_solver|]);
    try (injection H as <-; eexists; repeat split; try done; intros; try discriminate; eexists; by split || by eexists).
  destruct (value_get "confirm_legacy_quiescence" (arguments inv)) as [[]|]; try discriminate H;
    (injection H as <-; eexists; repeat split; try done; intros; discriminate).
Qed.

Lemma prepared_trim id : id ∈ prepared_operations -> trim id = id.
Proof.
  intros H. unfold prepared_operations in H.
  repeat (apply elem_of_cons in H as [->|H]; [by vm_compute|]). by apply elem_of_nil in H.
Qed.
Lemma normalize_operation_name home cwd r : trim (operation_name r) = operation_name r -> operation_name (normalize_request home cwd r) = operation_name r.
Proof. by destruct r. Qed.

(** A registered operation that is prepared asks for the operation that was named, and is in normal form: executing it,
    which normalizes again, works on the request that was prepared. *)
Theorem prepared_request_normal home cwd id inv r :
  prepare_operation_request home cwd id inv = Ok r ->
  operation_name r = id /\ normalize_request home cwd r = r.
Proof.
  intros (Hid & r0 & -> & Hn & Hp & _)%prepare_cases. split; [|by apply normalize_idemp].
  rewrite normalize_operation_name; [done|]. rewrite Hn. by apply prepared_trim.
Qed.

Lemma blank_optional value : trim (default "" value) = "" -> normalized_optional_string value = None.
Proof. unfold normalized_optional_string. destruct value as [s|]; [|done]. cbn. intros ->. done. Qed.

(** What the schemas of the operations require is what validation insists on. *)
Theorem required_fields_enforced home cwd id inv r field :
  field ∈ required_fields id -> trim (argument_string (arguments inv) field) = "" ->
  prepare_operation_request home cwd id inv = Ok r ->
  exists e, validate_request r = Err e.
Proof.
  intros Hf Hb (_ & r0 & -> & _ & _ & _ & Hs & Hq & Hx)%prepare_cases. unfold required_fields in Hf.
  destruct (String.eqb_spec id "search") as [->|_].
  { apply list_elem_of_singleton in Hf as ->. destruct (Hs eq_refl) as (s & -> & Hs'). cbn. rewrite Hs', Hb. by eexists. }
  destruct (String.eqb_spec id "query") as [->|_].
  { apply list_elem_of_singleton in Hf as ->. destruct (Hq eq_refl) as (q & -> & Hq'). cbn. rewrite Hq', Hb. by eexists. }
  destruct (String.eqb_spec id "syntax") as [->|_]; [|by apply elem_of_nil in Hf].
  apply list_elem_of_singleton in Hf as ->. destruct (Hx eq_refl) as (f & ->). cbn.
  rewrite blank_optional by done. replace (trim "syntax") with "syntax"; [by eexists|by vm_compute].
Qed.

(** ** The guard of graph queries *)
Lemma find_str_Some needle s before after : find_str needle s = Some (before, after) ->
  s = before +:+ needle +:+ after /\ forall b a, s = b +:+ needle +:+ a -> (String.length before <= String.length b)%nat.
Proof.
  revert before. induction s as [|c s IH]; intros before; cbn [find_str].
  - destruct (strip_prefix needle "") eqn:E; [|done]. intros [= <- <-]. apply strip_prefix_Some in E. split; [done|]. intros. cbn. lia.
  - destruct (strip_prefix needle (String c s)) eqn:E.
    { intros [= <- <-]. apply strip_prefix_Some in E. split; [done|]. intros. cbn. lia. }
    destruct (find_str needle s) as [[before' after']|] eqn:F; [|done]. intros [= <- <-]. destruct (IH _ eq_refl) as [-> Hmin].
    split; [done|]. intros b a Hb. destruct b as [|c' b].
    + rewrite app_str_nil_l in Hb. assert (strip_prefix needle (String c (before' +:+ needle +:+ after')) = Some a) by by apply strip_prefix_Some. congruence.
    + rewrite app_str_cons in Hb. injection Hb as _ Hb. cbn. apply Hmin in Hb. lia.
Qed.
Lemma find_str_None needle s : find_str needle s = None -> forall b a, ~ s = b +:+ needle +:+ a.
Proof.
  induction s as [|c s IH]; cbn [find_str]; destruct (strip_prefix needle _) eqn:E; try done.
  - intros _ b a Hb. destruct b; [|done]. rewrite app_str_nil_l in Hb. apply strip_prefix_Some in Hb. congruence.
  - destruct (find_str needle s) as [[]|] eqn:F; [done|]. intros _ b a Hb. destruct b as [|c' b].
    + rewrite app_str_nil_l in Hb. apply strip_prefix_Some in Hb. congruence.
    + rewrite app_str_cons in Hb. injection Hb as _ Hb. by apply (IH eq_refl b a).
Qed.

(** [keyword] is in [s] as a word of its own. *)
Definition word_occurs (keyword s : string) : Prop :=
  exists b a, s = b +:+ keyword +:+ a /\ in_word (last_char b) = false /\ in_word (first_char a) = false.
Lemma last_char_app b c s : last_char (b +:+ String c s) = Some (default c (last_char s)).
Proof.
  unfold last_char. rewrite list_ascii_of_string_app. unfold as_bytes. cbn [list_ascii_of_string]. rewrite last_app, last_cons.
  destruct (last (list_ascii_of_string s)); done.
Qed.
Lemma app_str_split a b x y : a +:+ x = b +:+ y -> (String.length a <= String.length b)%nat -> exists c, b = a +:+ c /\ x = c +:+ y.
Proof.
  revert b. induction a as [|c a IH]; intros b E Hl; [by exists b|]. destruct b as [|c' b]; [cbn in Hl; lia|].
  rewrite !app_str_cons in E. injection E as -> E. destruct (IH b E ltac:(cbn in Hl; lia)) as [d [-> ->]]. by exists d.
Qed.
Lemma in_word_prefix k1 k2 : forallb is_keyword_char (as_bytes (k1 +:+ k2)) = true -> k1 <> "" -> forall before, in_word (last_char (before +:+ k1)) = true.
Proof.
  intros Hk Hne before. destruct k1 as [|c k1]; [done|]. rewrite last_char_app. rewrite list_ascii_of_string_app, forallb_app in Hk.
  apply andb_true_iff in Hk as [Hk _]. rewrite forallb_elem_of in Hk. cbn. apply Hk. unfold as_bytes in *. cbn [list_ascii_of_string].
  unfold last_char, as_bytes. destruct (last (list_ascii_of_string k1)) as [x|] eqn:E; cbn; [|left]. right. apply last_Some in E as [l ->]. set_solver.
Qed.

Lemma keyword_loop_spec keyword : keyword <> "" -> forallb is_keyword_char (as_bytes keyword) = true -> forall fuel before s,
  (String.length s < fuel)%nat ->
  keyword_loop fuel keyword before s = true <->
  exists b a, s = b +:+ keyword +:+ a /\ in_word (last_char (before +:+ b)) = false /\ in_word (first_char a) = false.
Proof.
  intros Hne Hk. induction fuel as [|fuel IH]; intros before s Hf; [lia|]. cbn [keyword_loop].
  destruct (find_str keyword s) as [[skipped rest]|] eqn:F.
  2:{ split; [done|]. intros (b & a & Hs & _). by apply (find_str_None _ _ F) in Hs. }
  destruct (find_str_Some _ _ _ _ F) as [-> Hmin].
  destruct (negb (in_word (last_char (before +:+ skipped))) && negb (in_word (first_char rest))) eqn:E.
  { apply andb_true_iff in E as [E1%negb_true_iff E2%negb_true_iff]. split; [|done]. intros _. by exists skipped, rest. }
  rewrite IH.
  2:{ rewrite !length_app_str in Hf. destruct keyword; [done|]. cbn in Hf. lia. }
  split.
  - intros (b & a & -> & Hb & Ha). exists (skipped +:+ keyword +:+ b), a. rewrite !app_str_assoc in *. done.
  - intros (b & a & Hs & Hb & Ha). destruct (app_str_split _ _ _ _ Hs (Hmin _ _ Hs)) as [c [-> Hc]].
    destruct (Nat.le_gt_cases (String.length keyword) (String.length c)) as [Hl|Hl].
    + destruct (app_str_split _ _ _ _ Hc Hl) as [b [-> ->]]. exists b, a. rewrite !app_str_assoc in *. done.
    + symmetry in Hc. destruct (app_str_split _ _ _ _ Hc ltac:(lia)) as [k2 [Hk2 Hr]].
      destruct c as [|x c].
      * rewrite app_str_nil_r, app_str_nil_l in *. subst k2. apply app_str_inj_l in Hr. subst. by rewrite Hb, Ha in E.
      * rewrite <- app_str_assoc in Hb. rewrite Hk2 in Hk. by rewrite (in_word_prefix _ _ Hk) in Hb.
Qed.

(** The search finds a keyword exactly when it is there as a word, whatever the case of its letters. *)
Lemma contains_keyword_spec statement keyword : keyword <> "" -> forallb is_keyword_char (as_bytes keyword) = true ->
  contains_keyword statement keyword = true <-> word_occurs keyword (to_ascii_uppercase statement).
Proof. intros Hne Hk. unfold contains_keyword. rewrite keyword_loop_spec by (done || lia). done. Qed.

Lemma blocked_keywords_words keyword : keyword ∈ BLOCKED_KEYWORDS -> keyword <> "" /\ forallb is_keyword_char (as_bytes keyword) = true.
Proof.
  intros H. assert (forallb (fun k => negb (is_empty k) && forallb is_keyword_char (as_bytes k)) BLOCKED_KEYWORDS = true) as Hall by by vm_compute.
  rewrite forallb_elem_of in Hall. apply Hall, andb_true_iff in H as [H1 H2]. split; [|done]. by intros ->.
Qed.

(** C33: A statement passes the guard exactly when, without its trailing semicolons, it is a single statement in which no
    keyword that changes the database is a word; an error names the first such keyword of the list. *)
Theorem read_only_guard_exact st :
  (validate_read_only_statement st = Ok () <->
    contains_char (trim_end_matches ";" (trim st)) ";" = false /\
    forall keyword, keyword ∈ BLOCKED_KEYWORDS -> ~ word_occurs keyword (to_ascii_uppercase (trim_end_matches ";" (trim st)))) /\
  forall keyword, keyword ∈ BLOCKED_KEYWORDS ->
    validate_read_only_statement st = Err ("graph_query is read-only; blocked keyword: " +:+ keyword) ->
    word_occurs keyword (to_ascii_uppercase (trim_end_matches ";" (trim st))).
Proof.
  unfold validate_read_only_statement. cbv zeta. set (stripped := trim_end_matches ";" (trim st)).
  destruct (contains_char stripped ";") eqn:Ec.
  { split; [by split; [|intros []]|]. intros keyword _ [=]. }
  destruct (find _ BLOCKED_KEYWORDS) as [k|] eqn:Ef.
  - apply find_some in Ef as [Hin%list_elem_of_In Hk]. destruct (blocked_keywords_words k Hin) as [K1 K2].
    rewrite contains_keyword_spec in Hk by done. split.
    + split; [done|]. intros [_ Hno]. by destruct (Hno k Hin).
    + intros keyword _ [= E]. apply app_str_inj_l in E as <-. done.
  - split; [|done]. split; [|done]. intros _. split; [done|]. intros keyword Hin Hw. destruct (blocked_keywords_words keyword Hin) as [K1 K2].
    rewrite <- contains_keyword_spec in Hw by done. apply list_elem_of_In in Hin. by rewrite (find_none _ _ Ef keyword Hin) in Hw.
Qed.

(** ** Values in statements *)
(** How a Cypher literal in single quotes is read, and a name in back quotes: the value, and what follows. *)
Fixpoint read_single_quoted (s : string) : option (string * string) :=
  match s with
  | EmptyString => None
  | String a s =>
      if Ascii.eqb a quote then Some ("", s)
      else if Ascii.eqb a backslash then
        match s with
        | EmptyString => None
        | String b s => match read_single_quoted s with Some (value, rest) => Some (String b value, rest) | None => None end
        end
      else match read_single_quoted s with Some (value, rest) => Some (String a value, rest) | None => None end
  end.
Definition back_quote : ascii := "`".
Fixpoint read_back_quoted (fuel : nat) (s : string) : option (string * string) :=
  match fuel, s with
  | S fuel, String a s' =>
      if Ascii.eqb a back_quote then
        match s' with
        | String b s'' =>
            if Ascii.eqb b back_quote
            then match read_back_quoted fuel s'' with Some (value, rest) => Some (String back_quote value, rest) | None => None end
            else Some ("", s')
        | EmptyString => Some ("", "")
        end
      else match read_back_quoted fuel s' with Some (value, rest) => Some (String a value, rest) | None => None end
  | _, _ => None
  end.

(** C40: Whatever a value holds, it is read back from the statement as it was, and the statement goes on where the template
    does: no value can end its literal early. *)
Theorem quoted_values_read_back value rest :
  read_single_quoted (cypher_single_quoted value +:+ String quote rest) = Some (value, rest) /\
  (first_char rest <> Some back_quote ->
    read_back_quoted (S (String.length (cypher_identifier value))) (cypher_identifier value +:+ String back_quote rest) = Some (value, rest)).
Proof.
  split.
  - unfold cypher_single_quoted. induction value as [|a value IH]; [done|]. cbn [double_char]. destruct (Ascii.eqb_spec a backslash) as [->|Hb].
    + change (escape_char quote (String backslash (String backslash (double_char backslash value))))
        with (String backslash (String backslash (escape_char quote (double_char backslash value)))).
      rewrite !app_str_cons. cbn [read_single_quoted]. change (Ascii.eqb backslash quote) with false. by rewrite Ascii.eqb_refl, IH.
    + cbn [escape_char]. destruct (Ascii.eqb_spec a quote) as [->|Hq].
      { rewrite !app_str_cons. cbn [read_single_quoted]. change (Ascii.eqb backslash quote) with false. by rewrite Ascii.eqb_refl, IH. }
      rewrite app_str_cons. cbn [read_single_quoted]. apply Ascii.eqb_neq in Hb, Hq. by rewrite Hq, Hb, IH.
  - intros Hr. unfold cypher_identifier. change "`"%char with back_quote.
    assert (forall fuel, (String.length (double_char back_quote value) < fuel)%nat ->
      read_back_quoted fuel (double_char back_quote value +:+ String back_quote rest) = Some (value, rest)) as H; [|apply H; lia].
    induction value as [|a value IH]; intros [|fuel] Hf; try (cbn in Hf; lia).
    + cbn [double_char read_back_quoted]. rewrite app_str_nil_l, Ascii.eqb_refl. destruct rest as [|b rest]; [done|].
      destruct (Ascii.eqb_spec b back_quote) as [->|]; [by destruct Hr|done].
    + cbn [double_char] in *. destruct (Ascii.eqb_spec a back_quote) as [->|Ha]; cbn in Hf; rewrite !app_str_cons; cbn [read_back_quoted].
      * rewrite Ascii.eqb_refl, IH by lia. done.
      * apply Ascii.eqb_neq in Ha. rewrite Ha, IH by lia. done.
Qed.

(** Normalizing twice is not normalizing once when a path begins with ".\". *)
Example backslash_paths :
  normalize_paths [".\src\a.rs"; "./src/a.rs"] = ["./src/a.rs"; "src/a.rs"] /\
  normalize_paths (normalize_paths [".\src\a.rs"; "./src/a.rs"]) = ["src/a.rs"].
Proof. by vm_compute. Qed.
