(* ===== verification/Core.v ===== *)
(** * The operations of the API (src/api/core.rs)

    The registry of operations and their handlers; what an execution decides before its work
    is done: the request is normalized and validated, the repository is resolved, writes to a
    graph in the legacy format are refused, read leases are given up where the graph may be
    replaced, and the handler of the operation picks the work.  The work itself (reading the
    graph, materializing, installing) is a [Task].  The health of the refresh service is
    computed from the JSON of its status. *)
From Stdlib Require Import Numbers.DecimalString Numbers.DecimalZ.
From S2P Require Import Prelude Order Text Json Refresh Requests.
#[local] Open Scope rust_scope.
#[local] Open Scope Z_scope.

(** ** Repositories (context.rs) *)
Inductive StorageMode := Direct | LegacyManagedV1 | ManagedV2.
(** Of a resolved repository, what decides about an operation; a lease is held or not. *)
Record RepoRuntime := { repo_root : string; storage_mode : StorageMode; active_read : bool; direct_read : bool }.
Definition legacy_schema_version (r : RepoRuntime) : option Z := match storage_mode r with LegacyManagedV1 => Some 1 | _ => None end.
Definition reinstall_command (r : RepoRuntime) : string := "codebase-graph reinstall --repo-root " +:+ repo_root r.
Definition require_graph_write (r : RepoRuntime) : result string () :=
  match legacy_schema_version r with
  | Some _ => Err ("legacy installed graph storage requires reinstall before writes; run `" +:+ reinstall_command r +:+ "`")
  | None => Ok ()
  end.
Definition remediation (r : RepoRuntime) : option string := (fun _ => "Run `" +:+ reinstall_command r +:+ "`.") <$> legacy_schema_version r.
Definition release_read_leases (r : RepoRuntime) : RepoRuntime :=
  {| repo_root := repo_root r; storage_mode := storage_mode r; active_read := false; direct_read := false |}.

(** [json!] of an object *)
Definition json_object (fields : list (string * Value)) : Value := VObject (map_extend [] fields).
Definition json_number (n : Z) : Value := VNumber (show_Z n).
Definition json_option {A} (f : A -> Value) (o : option A) : Value := match o with Some x => f x | None => Null end.

Definition legacy_error (message : string) (remediation : string) : ApiError :=
  {| code := "legacy_storage_requires_reinstall"; message := message;
     details := Some (json_object [("schema_version", json_number 1); ("remediation", VString remediation)]); retryable := false |}.
Definition reject_legacy_write_operation (runtime : RepoRuntime) : result ApiError () :=
  map_err (fun message =>
    {| code := "legacy_storage_requires_reinstall"; message := message;
       details := Some (json_object [("schema_version", json_number (default 1 (legacy_schema_version runtime)));
                                     ("remediation", VString (default "Run `codebase-graph reinstall`." (remediation runtime)))]);
       retryable := false |}) (require_graph_write runtime).

(** ** Handlers *)
(** The work of an operation *)
Inductive Task :=
| HealthTask (r : HealthRequest) (runtime : RepoRuntime)
| SearchTask (r : SearchRequest) (runtime : RepoRuntime)
| ContextTask (r : ContextRequest) (runtime : RepoRuntime)
| QueryTask (r : QueryRequest) (parameters : Map) (runtime : RepoRuntime)
| MaterializationTask (r : MaterializationRequest) (runtime : RepoRuntime) (dry_plan : bool)
| IsolatedMaterializationTask (r : MaterializationRequest) (runtime : RepoRuntime)
| CatalogTask (kind : string) (group : option string) (format : OutputFormat)
| SetupTask (r : RepositoryLifecycleRequest) (runtime : RepoRuntime)
| ReinstallTask (r : RepositoryLifecycleRequest) (runtime : RepoRuntime)
| UninstallTask (r : RepositoryLifecycleRequest) (runtime : RepoRuntime)
| McpInstallTask (r : McpInstallRequest) (runtime : RepoRuntime)
| RefreshTask (r : RefreshRequest) (runtime : RepoRuntime).

(** What comes of an execution before its work: the work or an error, or a panic. *)
Inductive Decision := Decided (r : result ApiError Task) | Panicked (message : string).
Definition decide_next {A} (r : result ApiError A) (k : A -> Decision) : Decision := match r with Ok x => k x | Err e => Decided (Err e) end.
Notation "'let!' x ':=' m 'in' k" := (decide_next m (fun x => k)) (at level 10, x pattern, k at level 200) : rust_scope.

Definition required_runtime (operation : string) (runtime : option RepoRuntime) : result ApiError RepoRuntime :=
  ok_or (api_error_new "runtime_resolution_failed" (operation +:+ " operation requires a repository selector")) runtime.
Definition invalid_request (expected : string) (request : OperationRequest) : Decision :=
  Decided (api_error "invalid_operation_request" ("operation handler expected " +:+ expected +:+ ", received " +:+ operation_name request)).

Definition Handler := OperationRequest -> option RepoRuntime -> Decision.
Definition handle_health : Handler := fun request runtime =>
  match request with
  | Health r => let! runtime := required_runtime "health" runtime in Decided (Ok (HealthTask r runtime))
  | _ => invalid_request "health" request
  end.
Definition execute_context (r : ContextRequest) (runtime : RepoRuntime) : Decision :=
  match node_id r, node_type r with
  | Some _, Some _ => Decided (Ok (ContextTask r runtime))
  | _, _ =>
      if is_empty (default "" (c_query r)) then Decided (api_error "context_validation_failed" "query is required")
      else Decided (Ok (ContextTask r runtime))
  end.
Definition execute_query (r : QueryRequest) (runtime : RepoRuntime) : Decision :=
  let! _ := map_err (api_error_new "query_validation_failed") (validate_read_only_statement (statement r)) in
  match as_object (parameters r) with
  | Some parameters => Decided (Ok (QueryTask r parameters runtime))
  | None => Panicked "normalized query parameters must be an object"
  end.
Definition handle_search : Handler := fun request runtime =>
  match request with
  | Search r => let! runtime := required_runtime "search" runtime in Decided (Ok (SearchTask r runtime))
  | _ => invalid_request "search" request
  end.
Definition handle_context : Handler := fun request runtime =>
  match request with
  | Context r => let! runtime := required_runtime "context" runtime in execute_context r runtime
  | _ => invalid_request "context" request
  end.
Definition handle_query : Handler := fun request runtime =>
  match request with
  | Query r => let! runtime := required_runtime "query" runtime in execute_query r runtime
  | _ => invalid_request "query" request
  end.
Definition execute_materialization (r : MaterializationRequest) (runtime : RepoRuntime) (dry_plan : bool) : Decision :=
  let! _ := if dry_plan then Ok () else reject_legacy_write_operation runtime in
  Decided (Ok (MaterializationTask r runtime dry_plan)).
Definition execute_isolated_materialization (r : MaterializationRequest) (runtime : RepoRuntime) : Decision :=
  let! _ := reject_legacy_write_operation runtime in Decided (Ok (IsolatedMaterializationTask r runtime)).
Definition handle_materialize : Handler := fun request runtime =>
  match request with
  | Materialize r => let! runtime := required_runtime "materialize" runtime in execute_materialization r runtime false
  | _ => invalid_request "materialize" request
  end.
Definition handle_plan : Handler := fun request runtime =>
  match request with
  | Plan r => let! runtime := required_runtime "plan" runtime in execute_materialization r runtime true
  | _ => invalid_request "plan" request
  end.
Definition handle_catalog : Handler := fun request _ =>
  match request with
  | Catalog kind group format => Decided (Ok (CatalogTask kind group format))
  | _ => invalid_request "catalog" request
  end.
Definition handle_setup : Handler := fun request runtime =>
  match request with
  | Setup r =>
      let! runtime := required_runtime "setup" runtime in
      let! _ := reject_legacy_write_operation runtime in Decided (Ok (SetupTask r runtime))
  | _ => invalid_request "setup" request
  end.
Definition handle_reinstall : Handler := fun request runtime =>
  match request with
  | Reinstall r => let! runtime := required_runtime "reinstall" runtime in Decided (Ok (ReinstallTask r runtime))
  | _ => invalid_request "reinstall" request
  end.
Definition handle_uninstall : Handler := fun request runtime =>
  match request with
  | Uninstall r => let! runtime := required_runtime "uninstall" runtime in Decided (Ok (UninstallTask r runtime))
  | _ => invalid_request "uninstall" request
  end.
Definition handle_mcp_install : Handler := fun request runtime =>
  match request with
  | InstallMcp r => let! runtime := required_runtime "mcp-install" runtime in Decided (Ok (McpInstallTask r runtime))
  | _ => invalid_request "mcp-install" request
  end.
Definition handle_refresh : Handler := fun request runtime =>
  match request with
  | RefreshNow r =>
      let! runtime := required_runtime "refresh" runtime in
      let! _ := reject_legacy_write_operation runtime in Decided (Ok (RefreshTask r runtime))
  | _ => invalid_request "refresh" request
  end.

(** ** The registry *)
Record OperationDescriptor := {
  op_id : string; op_summary : string; op_surfaces : list string; supported_outputs : list OutputFormat; mcp_tool_name : option string
}.
Definition handler_of (id : string) : option Handler :=
  if String.eqb id "health" then Some handle_health
  else if String.eqb id "search" then Some handle_search
  else if String.eqb id "context" then Some handle_context
  else if String.eqb id "query" then Some handle_query
  else if String.eqb id "materialize" then Some handle_materialize
  else if String.eqb id "plan" then Some handle_plan
  else if is_one_of id ["schema"; "syntax"; "query-helpers"; "architecture-queries"] then Some handle_catalog
  else if String.eqb id "setup" then Some handle_setup
  else if String.eqb id "reinstall" then Some handle_reinstall
  else if String.eqb id "uninstall" then Some handle_uninstall
  else if String.eqb id "mcp-install" then Some handle_mcp_install
  else if String.eqb id "refresh" then Some handle_refresh
  else None.
Definition RegisteredOperation : Type := OperationDescriptor * Handler.
Abbreviation OperationRegistry := (gmap string RegisteredOperation).
Definition add_operation (registry : OperationRegistry) (d : OperationDescriptor) : result string OperationRegistry :=
  match handler_of (op_id d) with
  | None => Err ("operation " +:+ op_id d +:+ " does not have a handler registration")
  | Some handler =>
      if list_is_empty (supported_outputs d) then Err ("operation " +:+ op_id d +:+ " must expose at least one output format")
      else if negb (Bool.eqb (is_one_of "mcp" (op_surfaces d)) (is_some (mcp_tool_name d)))
      then Err ("operation " +:+ op_id d +:+ " has inconsistent MCP exposure")
      else if is_some (registry !! op_id d) then Err ("duplicate operation registration: " +:+ op_id d)
      else Ok (<[op_id d := (d, handler)]> registry)
  end.
(** An error is a panic. *)
Definition build_registry (descriptors : list OperationDescriptor) : result string OperationRegistry := try_fold add_operation ∅ descriptors.
Definition operation (id summary : string) (mcp : option string) : OperationDescriptor :=
  {| op_id := id; op_summary := summary; op_surfaces := match mcp with Some _ => ["api"; "cli"; "mcp"] | None => ["api"; "cli"] end;
     supported_outputs := [Typed; Block]; mcp_tool_name := mcp |}.
Definition descriptors : list OperationDescriptor := [
  operation "health" "Check codebase graph and manifest availability" (Some "graph_health");
  operation "search" "Search for code graph entities" (Some "graph_search");
  operation "context" "Return graph context for matches or explicit nodes" (Some "graph_context");
  operation "query" "Execute read-only graph query" (Some "graph_query");
  operation "materialize" "Scan and build full graph materialization" None;
  operation "plan" "Plan materialization without database write" None;
  operation "schema" "Return graph schema catalog" (Some "graph_schema");
  operation "syntax" "Return a language syntax catalog" (Some "graph_syntax");
  operation "query-helpers" "Return query helper catalog" (Some "graph_query_helpers");
  operation "architecture-queries" "Return architecture query catalog" (Some "graph_architecture_queries");
  operation "setup" "Install graph state and optional MCP configuration" None;
  operation "reinstall" "Rebuild graph state after backup/restore choreography" None;
  operation "uninstall" "Remove graph state and related MCP configuration" None;
  operation "mcp-install" "Register the graph tool with a supported client" None;
  operation "refresh" "Refresh changed paths via incremental materialization" None
].
Definition register_operations : result string OperationRegistry := build_registry descriptors.
Definition resolve_operation (registry : OperationRegistry) (id : string) : option RegisteredOperation := registry !! id.
Definition operations (registry : OperationRegistry) : list OperationDescriptor := sort_by_key op_id (fst <$> btree_values registry).
Definition resolve_mcp_operation (registry : OperationRegistry) (tool_name : string) : option OperationDescriptor :=
  find (fun d => match mcp_tool_name d with Some n => String.eqb n tool_name | None => false end) (operations registry).

(** ** Execution *)
Definition operation_requires_graph_write (request : OperationRequest) : bool :=
  match request with Materialize _ | Setup _ | RefreshNow _ => true | _ => false end.
Definition operation_may_replace_graph_state (request : OperationRequest) : bool :=
  operation_requires_graph_write request || match request with Reinstall _ | Uninstall _ => true | _ => false end.
Definition with_refresh_status (status : option Value) (request : OperationRequest) : OperationRequest :=
  match request, status with
  | Health r, Some status =>
      Health {| h_repo := h_repo r; confirm_legacy_quiescence := confirm_legacy_quiescence r;
                refresh_status := match refresh_status r with None => Some status | s => s end; h_format := h_format r |}
  | _, _ => request
  end.

Section execute.
Context (home current_dir : option string).
(** [resolve_runtime], and [resolve_runtime_for_rebuild] when the flag is set *)
Context (resolve_runtime : bool -> RepoSelector -> result string RepoRuntime).
(** The JSON of the status of the refresh service, where there is one, and whether materializations run in a process of
    their own. *)
Context (refresh : option Value) (isolate_materialization : bool).

Definition resolve_request (request : OperationRequest) : result ApiError (option RepoRuntime) :=
  match repo_selector request with
  | None => Ok None
  | Some selector =>
      let rebuild := match request with Materialize m => String.eqb (m_mode m) "full" | _ => false end in
      map_err (api_error_new "runtime_resolution_failed") (result_map Some (resolve_runtime rebuild selector))
  end.
Definition check_graph_write (request : OperationRequest) (runtime : option RepoRuntime) : result ApiError () :=
  match runtime with
  | Some r =>
      if operation_requires_graph_write request
      then map_err (fun message => legacy_error message (reinstall_command r)) (require_graph_write r)
      else Ok ()
  | None => Ok ()
  end.
Definition execute_inner (registry : OperationRegistry) (request : OperationRequest) : Decision :=
  let request := with_refresh_status refresh (normalize_request home current_dir request) in
  let! _ := validate_request request in
  let! op := ok_or (api_error_new "unsupported_operation" ("unsupported operation: " +:+ operation_name request))
               (resolve_operation registry (operation_name request)) in
  let! runtime := resolve_request request in
  let! _ := check_graph_write request runtime in
  let runtime := if operation_may_replace_graph_state request then release_read_leases <$> runtime else runtime in
  match request, runtime with
  | Materialize r, Some runtime =>
      if isolate_materialization then execute_isolated_materialization r runtime else op.2 request (Some runtime)
  | _, _ => op.2 request runtime
  end.
End execute.

(** ** What the registry holds *)
Lemma build_registry_spec ds registry : build_registry ds = Ok registry ->
  forall id d h, registry !! id = Some (d, h) -> op_id d = id /\ handler_of id = Some h /\ d ∈ ds.
Proof.
  unfold build_registry. revert registry. revert ds. refine (rev_ind _ _ _).
  - intros registry [= <-] id d h. by rewrite lookup_empty.
  - intros x l IH registry H. rewrite try_fold_app in H. apply result_bind_Ok in H as [reg [H1 H2]]. specialize (IH _ H1). intros id d h Hl.
    cbn in H2. apply result_bind_Ok in H2 as [reg' [H2 [= <-]]]. unfold add_operation in H2. destruct (handler_of (op_id x)) as [h'|] eqn:Eh; [|done].
    destruct (list_is_empty _); [done|]. destruct (negb _); [done|]. destruct (is_some _); [done|]. injection H2 as <-.
    apply lookup_insert_Some in Hl as [[<- [= <- <-]]|[_ Hl]].
    + repeat split; [done|set_solver].
    + destruct (IH _ _ _ Hl) as (? & ? & ?). repeat split; [done..|set_solver].
Qed.
Definition the_registry : OperationRegistry := match register_operations with Ok r => r | Err _ => ∅ end.
Lemma register_operations_ok : register_operations = Ok the_registry.
Proof.
  assert (is_ok register_operations = true) as H by by vm_compute. unfold the_registry. by destruct register_operations.
Qed.
Lemma operation_registered id : id ∈ map op_id descriptors -> is_Some (the_registry !! id).
Proof.
  intros H. assert (forallb (fun id => is_some (the_registry !! id)) (map op_id descriptors) = true) as Hall by by vm_compute.
  rewrite forallb_elem_of in Hall. specialize (Hall id H). destruct (the_registry !! id); [by eexists|done].
Qed.

(** ** What an execution may do *)
Definition legacy (r : RepoRuntime) : bool := match storage_mode r with LegacyManagedV1 => true | _ => false end.

Lemma decide_next_cases {A} (m : result ApiError A) k (P : Decision -> Prop) :
  (forall x, m = Ok x -> P (k x)) -> (forall e, m = Err e -> P (Decided (Err e))) -> P (decide_next m k).
Proof. intros H1 H2. destruct m; [by apply H1|by apply H2]. Qed.
Lemma require_graph_write_Ok r : require_graph_write r = Ok () <-> legacy r = false.
Proof. unfold require_graph_write, legacy_schema_version, legacy. by destruct (storage_mode r). Qed.
Lemma reject_legacy_Ok r : reject_legacy_write_operation r = Ok () <-> legacy r = false.
Proof. unfold reject_legacy_write_operation. rewrite <- require_graph_write_Ok. by destruct (require_graph_write r) as [[]|]. Qed.

(** What an execution may set out to do with a valid request on the repository that its
    selector resolves to. *)
Inductive work (isolate : bool) : OperationRequest -> option RepoRuntime -> Task -> Prop :=
| WorkHealth r rt : work isolate (Health r) (Some rt) (HealthTask r rt)
| WorkSearch r rt : work isolate (Search r) (Some rt) (SearchTask r rt)
| WorkContext r rt : is_Some (node_id r) \/ (exists q, c_query r = Some q /\ q <> "") ->
    work isolate (Context r) (Some rt) (ContextTask r rt)
| WorkQuery r ps rt : as_object (parameters r) = Some ps -> validate_read_only_statement (statement r) = Ok () ->
    work isolate (Query r) (Some rt) (QueryTask r ps rt)
| WorkMaterialize r rt : isolate = false -> legacy rt = false ->
    work isolate (Materialize r) (Some rt) (MaterializationTask r (release_read_leases rt) false)
| WorkMaterializeIsolated r rt : isolate = true -> legacy rt = false ->
    work isolate (Materialize r) (Some rt) (IsolatedMaterializationTask r (release_read_leases rt))
| WorkPlan r rt : work isolate (Plan r) (Some rt) (MaterializationTask r rt true)
| WorkCatalog kind group format : kind ∈ ["schema"; "syntax"; "query-helpers"; "architecture-queries"] ->
    work isolate (Catalog kind group format) None (CatalogTask kind group format)
| WorkSetup r rt : legacy rt = false -> work isolate (Setup r) (Some rt) (SetupTask r (release_read_leases rt))
| WorkReinstall r rt : work isolate (Reinstall r) (Some rt) (ReinstallTask r (release_read_leases rt))
| WorkUninstall r rt : work isolate (Uninstall r) (Some rt) (UninstallTask r (release_read_leases rt))
| WorkInstallMcp r rt : work isolate (InstallMcp r) (Some rt) (McpInstallTask r rt)
| WorkRefreshNow r rt : legacy rt = false -> work isolate (RefreshNow r) (Some rt) (RefreshTask r (release_read_leases rt)).
(** The operations that write to the graph as it is; a reinstallation replaces it. *)
Definition writes_graph (request : OperationRequest) : Prop :=
  match request with Materialize _ | Setup _ | RefreshNow _ => True | _ => False end.

(** The decision [d] sets out exactly on the tasks of [P]. *)
Definition decides (d : Decision) (P : Task -> Prop) : Prop :=
  (forall m, d <> Panicked m) /\ forall t, d = Decided (Ok t) <-> P t.
Lemma decides_error e (P : Task -> Prop) : (forall t, ~ P t) -> decides (Decided (Err e)) P.
Proof. intros HP. split; [done|]. intros t. split; [done|]. intros H. by destruct (HP t). Qed.
Lemma decides_task t0 (P : Task -> Prop) : (forall t, P t <-> t = t0) -> decides (Decided (Ok t0)) P.
Proof. intros HP. split; [done|]. intros t. rewrite HP. split; [by intros [= <-]|by intros ->]. Qed.

Definition own_handler (request : OperationRequest) : Handler :=
  match request with
  | Health _ => handle_health | Search _ => handle_search | Context _ => handle_context | Query _ => handle_query
  | Materialize _ => handle_materialize | Plan _ => handle_plan | Catalog _ _ _ => handle_catalog | Setup _ => handle_setup
  | Reinstall _ => handle_reinstall | Uninstall _ => handle_uninstall | InstallMcp _ => handle_mcp_install | RefreshNow _ => handle_refresh
  end.
Lemma handler_of_name request : (forall kind group format, request <> Catalog kind group format) ->
  handler_of (operation_name request) = Some (own_handler request).
Proof. intros Hr. destruct request; try reflexivity. by destruct (Hr kind group format). Qed.
Lemma handler_registered id : handler_of id <> None -> id ∈ map op_id descriptors.
Proof.
  unfold handler_of, is_one_of. cbn [existsb]. intros H.
  repeat (match type of H with context [String.eqb ?a ?b] => destruct (String.eqb_spec a b) as [E|?] end;
    [clear H; rewrite E; cbn; set_solver|]); cbn in H; congruence.
Qed.
Lemma registry_exact id :
  match handler_of id with
  | Some h => exists d, resolve_operation the_registry id = Some (d, h)
  | None => resolve_operation the_registry id = None
  end.
Proof.
  unfold resolve_operation. destruct (the_registry !! id) as [[d h]|] eqn:El.
  - destruct (build_registry_spec _ _ register_operations_ok _ _ _ El) as (_ & -> & _). by exists d.
  - destruct (handler_of id) as [h|] eqn:Eh; [|done].
    destruct (operation_registered id) as [x Hx]; [apply handler_registered; by rewrite Eh|congruence].
Qed.

Lemma check_graph_write_Ok request rt : check_graph_write request (Some rt) = Ok () <-> (writes_graph request -> legacy rt = false).
Proof.
  unfold check_graph_write. rewrite <- (require_graph_write_Ok rt).
  destruct request; cbn [operation_requires_graph_write writes_graph]; destruct (require_graph_write rt) as [[]|]; naive_solver.
Qed.

Ltac one_task := apply decides_task; intros t; split; [inversion 1; by subst|intros ->; by constructor].

Lemma ensure_Ok b c m : ensure b c m = Ok () -> b = true.
Proof. by destruct b. Qed.
(** The two operations that look into their request before they do it. *)
Lemma context_decides isolate r rt : validate_request (Context r) = Ok () ->
  decides (handle_context (Context r) (Some rt)) (work isolate (Context r) (Some rt)).
Proof.
  cbn. intros Hv. apply result_bind_Ok in Hv as ([] & Hboth%ensure_Ok & _).
  assert (decides (Decided (Ok (ContextTask r rt))) (work isolate (Context r) (Some rt)) \/
    ~ (is_Some (node_id r) \/ (exists q, c_query r = Some q /\ q <> ""))) as Hdone.
  { destruct (decide (is_Some (node_id r))) as [Hn|Hn].
    - left. apply decides_task. intros t. split; [inversion 1; by subst|intros ->; constructor; by left].
    - destruct (c_query r) as [q|] eqn:Eq; [destruct (decide (q = "")) as [->|Hq]|]; [right; naive_solver| |right; naive_solver].
      left. apply decides_task. intros t. split; [inversion 1; by subst|intros ->; constructor; right; eauto]. }
  unfold execute_context. destruct Hdone as [Hdone|Hno].
  - destruct (node_id r) as [i|] eqn:Ei, (node_type r) as [ty|] eqn:Et; try discriminate Hboth; [exact Hdone|].
    destruct (is_empty (default "" (c_query r))) eqn:Eq; [|exact Hdone]. exfalso.
    destruct Hdone as [_ Hd]. specialize (Hd (ContextTask r rt)) as [Hd _]. specialize (Hd eq_refl). inversion Hd as [| |? ? Hn| | | | | | | | | |]; subst.
    destruct Hn as [[? Hn]|(q & Hq & Hne)]; [congruence|]. rewrite Hq in Eq. by destruct q.
  - destruct (node_id r) as [i|] eqn:Ei; [destruct Hno; by left|].
    destruct (is_empty (default "" (c_query r))) eqn:Eq.
    + apply decides_error. intros t Hw. inversion Hw; subst. rewrite Ei in *. by destruct Hno.
    + destruct Hno. right. destruct (c_query r) as [q|]; [|done]. exists q. split; [done|]. by intros ->.
Qed.
Lemma query_decides isolate r rt : validate_request (Query r) = Ok () ->
  decides (handle_query (Query r) (Some rt)) (work isolate (Query r) (Some rt)).
Proof.
  cbn. intros Hv. apply result_bind_Ok in Hv as ([] & _ & Hv). apply result_bind_Ok in Hv as ([] & _ & Hps%ensure_Ok).
  unfold execute_query. destruct (as_object (parameters r)) as [ps|] eqn:Eps; [|done].
  destruct (validate_read_only_statement (statement r)) as [[]|m] eqn:Es; cbn.
  - apply decides_task. intros t. split; [inversion 1; subst; congruence|intros ->; by constructor].
  - apply decides_error. intros t. inversion 1; subst. congruence.
Qed.

Definition is_catalog (request : OperationRequest) : bool := match request with Catalog _ _ _ => true | _ => false end.
Lemma resolved_some resolve_runtime request : (forall kind group format, request <> Catalog kind group format) ->
  resolve_request resolve_runtime request = Ok None -> False.
Proof.
  intros Hc. unfold resolve_request. destruct request; cbn [repo_selector]; try (by destruct (Hc kind group format));
    match goal with |- context [resolve_runtime ?a ?b] => by destruct (resolve_runtime a b) end.
Qed.
Lemma check_graph_write_code request rt e : check_graph_write request (Some rt) = Err e -> code e = "legacy_storage_requires_reinstall".
Proof.
  unfold check_graph_write. destruct (operation_requires_graph_write request); [|done]. destruct (require_graph_write rt); [done|]. by intros [= <-].
Qed.
(** The handler of a catalog's kind is that of the catalogs, or one that does not take a catalog. *)
Lemma catalog_handler isolate kind group format h : handler_of kind = Some h ->
  decides (h (Catalog kind group format) None) (work isolate (Catalog kind group format) None).
Proof.
  intros Hh. destruct (is_one_of kind ["schema"; "syntax"; "query-helpers"; "architecture-queries"]) eqn:Ek.
  - assert (kind ∈ ["schema"; "syntax"; "query-helpers"; "architecture-queries"]) as Hin by by apply is_one_of_true.
    assert (h = handle_catalog) as ->.
    { repeat (apply elem_of_cons in Hin as [->|Hin]; [by injection Hh as <-|]). by apply elem_of_nil in Hin. }
    one_task.
  - assert (forall t, ~ work isolate (Catalog kind group format) None t) as Hno.
    { intros t. inversion 1 as [| | | | | | |? ? ? Hin| | | | |]; subst. apply is_one_of_true in Hin. congruence. }
    unfold handler_of in Hh. rewrite Ek in Hh.
    repeat (match type of Hh with context [if ?b then _ else _] => destruct b end; [injection Hh as <-; by apply decides_error|]). done.
Qed.
Lemma catalog_decides resolve_runtime isolate kind group format :
  let request := Catalog kind group format in
  let decision :=
    decide_next (ok_or (api_error_new "unsupported_operation" ("unsupported operation: " +:+ operation_name request))
                   (resolve_operation the_registry (operation_name request))) (fun op =>
    decide_next (resolve_request resolve_runtime request) (fun runtime =>
    decide_next (check_graph_write request runtime) (fun _ =>
      op.2 request (if operation_may_replace_graph_state request then release_read_leases <$> runtime else runtime)))) in
  (forall m, decision <> Panicked m) /\
  (forall t, decision = Decided (Ok t) <->
     Ok () = Ok (E := ApiError) () /\
     exists resolved, resolve_request resolve_runtime request = Ok resolved /\ work isolate request resolved t) /\
  (forall rt, Ok () = Ok (E := ApiError) () -> resolve_request resolve_runtime request = Ok (Some rt) ->
     writes_graph request -> legacy rt = true ->
     exists e, decision = Decided (Err e) /\ code e = "legacy_storage_requires_reinstall").
Proof.
  cbv zeta. cbn [operation_name]. pose proof (registry_exact kind) as Hreg. destruct (handler_of kind) as [h|] eqn:Eh.
  - destruct Hreg as [d ->]. cbn. destruct (catalog_handler isolate kind group format h Eh) as [H1 H2]. split; [exact H1|]. split; [|done].
    intros t. rewrite H2. split; [by eauto|]. by intros (_ & resolved & [= <-] & ?).
  - rewrite Hreg. cbn. split; [done|]. split; [|done]. intros t. split; [done|]. intros (_ & resolved & _ & Hw). exfalso.
    inversion Hw as [| | | | | | |? ? ? Hin| | | | |]; subst.
    repeat (apply elem_of_cons in Hin as [->|Hin]; [done|]). by apply elem_of_nil in Hin.
Qed.

(** The handler of a valid request that passed the check of its writes. *)
Lemma handler_decides (isolate : bool) request rt :
  (forall kind group format, request <> Catalog kind group format) ->
  validate_request request = Ok () -> (writes_graph request -> legacy rt = false) ->
  let runtime := if operation_may_replace_graph_state request then release_read_leases <$> Some rt else Some rt in
  decides (match request, runtime with
           | Materialize r, Some runtime =>
               if isolate then execute_isolated_materialization r runtime else own_handler request request (Some runtime)
           | _, _ => own_handler request request runtime
           end) (work isolate request (Some rt)).
Proof.
  intros Hc Hv Hw. cbv zeta. destruct request as [r|r|r|r|r|r|kind group format|r|r|r|r|r];
    cbn [operation_may_replace_graph_state operation_requires_graph_write orb own_handler writes_graph fmap option_fmap option_map] in *;
    try (specialize (Hw I); apply reject_legacy_Ok in Hw as Hl; change (legacy rt) with (legacy (release_read_leases rt)) in Hw;
         apply reject_legacy_Ok in Hw).
  all: try (unfold handle_health, handle_search, handle_plan, handle_reinstall, handle_uninstall, handle_mcp_install; cbn; one_task).
  all: try (unfold handle_setup, handle_refresh; cbn; rewrite Hw; apply reject_legacy_Ok in Hl; cbn; one_task).
  - apply context_decides. exact Hv.
  - apply query_decides. exact Hv.
  - apply reject_legacy_Ok in Hl. unfold execute_isolated_materialization, handle_materialize, execute_materialization.
    destruct isolate; cbn; rewrite Hw; cbn; one_task.
  - by destruct (Hc kind group format).
Qed.

(** C31: An execution decides exactly what it may.  The decision before its work never
    panics, and it is to set out on a task precisely when the normalized request is valid,
    its selector resolves, and the task is the one of this request on that repository: a
    materialization, a setup or a refresh only of a graph that is not in the legacy format,
    a query only with a read-only statement, a context only with a node or words to search
    for, a catalog only of the four kinds; and without read leases where the graph may be
    replaced.  A valid request to write to a graph in the legacy format is refused with
    the error that asks for a reinstallation. *)
Theorem execution_guarded home cwd resolve_runtime refresh isolate request :
  let request' := with_refresh_status refresh (normalize_request home cwd request) in
  let decision := execute_inner home cwd resolve_runtime refresh isolate the_registry request in
  (forall m, decision <> Panicked m) /\
  (forall t, decision = Decided (Ok t) <->
     validate_request request' = Ok () /\
     exists resolved, resolve_request resolve_runtime request' = Ok resolved /\ work isolate request' resolved t) /\
  (forall rt, validate_request request' = Ok () -> resolve_request resolve_runtime request' = Ok (Some rt) ->
     writes_graph request' -> legacy rt = true ->
     exists e, decision = Decided (Err e) /\ code e = "legacy_storage_requires_reinstall").
Proof.
  cbv zeta. unfold execute_inner. cbv zeta. set (n := with_refresh_status refresh (normalize_request home cwd request)). clearbody n.
  destruct (validate_request n) as [[]|e] eqn:Hv; cbn [decide_next]; [|split_and!; naive_solver].
  destruct (decide (is_catalog n = true)) as [Hcat|Hcat].
  - destruct n as [| | | | | |kind group format| | | | |]; try done. apply catalog_decides.
  - assert (forall kind group format, n <> Catalog kind group format) as Hc by (intros ? ? ? ->; by destruct Hcat).
    pose proof (registry_exact (operation_name n)) as Hreg. rewrite (handler_of_name n Hc) in Hreg. destruct Hreg as [d ->].
    cbn [ok_or decide_next snd].
    destruct (resolve_request resolve_runtime n) as [resolved|e] eqn:Hrt; cbn [decide_next]; [|split_and!; naive_solver].
    destruct resolved as [rt|]; [|by destruct (resolved_some _ _ Hc Hrt)].
    destruct (check_graph_write n (Some rt)) as [[]|e] eqn:Hck; cbn [decide_next].
    + rewrite check_graph_write_Ok in Hck. destruct (handler_decides isolate n rt Hc Hv Hck) as [H1 H2].
      split; [exact H1|]. split.
      * intros t. etrans; [apply H2|]. split; [by eauto|]. by intros (_ & resolved & [= <-] & ?).
      * intros rt' _ [= <-] Hw Hl. specialize (Hck Hw). congruence.
    + split; [done|]. split.
      * intros t. split; [done|]. intros (_ & resolved & [= <-] & Hw). exfalso.
        assert (check_graph_write n (Some rt) = Ok ()) as E; [|congruence]. apply check_graph_write_Ok. intros Hwr.
        by inversion Hw; subst.
      * intros rt' _ _ _ _. exists e. split; [done|]. by apply (check_graph_write_code n rt).
Qed.

(** A request that is not valid is refused before its repository is looked at. *)
Theorem invalid_requests_refused home cwd resolve_runtime refresh isolate registry request e :
  validate_request (with_refresh_status refresh (normalize_request home cwd request)) = Err e ->
  execute_inner home cwd resolve_runtime refresh isolate registry request = Decided (Err e).
Proof. intros H. unfold execute_inner. cbv zeta. by rewrite H. Qed.

Lemma own_next {A} (m : result ApiError A) k e : code e = "invalid_operation_request" ->
  (forall e', m = Err e' -> code e' <> "invalid_operation_request") -> (forall x, m = Ok x -> k x <> Decided (Err e)) ->
  decide_next m k <> Decided (Err e).
Proof. intros Hc H1 H2. apply decide_next_cases; [done|]. intros e' He [= <-]. by apply (H1 e'). Qed.
Lemma required_runtime_code operation runtime e : required_runtime operation runtime = Err e -> code e <> "invalid_operation_request".
Proof. unfold required_runtime. destruct runtime; [done|]. by intros [= <-]. Qed.
Lemma reject_legacy_code r e : reject_legacy_write_operation r = Err e -> code e <> "invalid_operation_request".
Proof. unfold reject_legacy_write_operation. destruct (require_graph_write r); [done|]. by intros [= <-]. Qed.
(** Registration succeeds: the operations are the declared ones by identifier, each tool name leads back to its
    operation, and every request other than a catalog's finds a handler that takes it. *)
Theorem registry_complete :
  register_operations = Ok the_registry /\ operations the_registry = sort_by_key op_id descriptors /\
  (forall d tool, d ∈ descriptors -> mcp_tool_name d = Some tool -> resolve_mcp_operation the_registry tool = Some d) /\
  forall request, (forall kind group format, request <> Catalog kind group format) ->
    exists d h, resolve_operation the_registry (operation_name request) = Some (d, h) /\
      forall runtime e, code e = "invalid_operation_request" -> h request runtime <> Decided (Err e).
Proof.
  split; [apply register_operations_ok|]. split; [by vm_compute|]. split.
  - intros d tool Hd Ht. unfold descriptors in Hd.
    repeat (apply elem_of_cons in Hd as [->|Hd]; [cbn in Ht; first [discriminate Ht|injection Ht as <-; by vm_compute]|]).
    by apply elem_of_nil in Hd.
  - intros request Hr. assert (operation_name request ∈ map op_id descriptors) as Hin.
    { destruct request; try (cbn; set_solver). }
    destruct (operation_registered _ Hin) as [[d h] Hl]. exists d, h. split; [done|]. intros runtime e Hc.
    destruct (build_registry_spec _ _ register_operations_ok _ _ _ Hl) as (_ & Hh & _).
    rewrite handler_of_name in Hh by done. injection Hh as <-.
    destruct request; try (by destruct (Hr kind group format)); cbn [own_handler]; apply (own_next _ _ _ Hc);
      try (apply required_runtime_code); intros rt _; try done;
      try (apply (own_next _ _ _ Hc); [apply reject_legacy_code|done]).
    + unfold execute_context. destruct (node_id r), (node_type r); try destruct (is_empty _); intros E; try discriminate E; injection E as <-; discriminate Hc.
    + apply (own_next _ _ _ Hc); [|by destruct (as_object (parameters r))]. intros e'. destruct (validate_read_only_statement _); [done|]. by intros [= <-].
Qed.

(** ** The health of the refresh service *)
Definition json_bool_option (o : option bool) : Value := json_option VBool o.
(** [RefreshState::as_json] (refresh.rs) *)
Definition as_json (st : RefreshStatus) : Value :=
  json_object [
    ("enabled", VBool (enabled st)); ("task_alive", VBool (task_alive st)); ("state", VString (state st)); ("role", VString (role st));
    ("leader_pid", json_option json_number (leader_pid st)); ("worker_pid", json_option json_number (worker_pid st));
    ("backend", VString (backend st)); ("effective_root", json_option VString (effective_root st));
    ("refreshing", VBool (refreshing st)); ("pending", VBool (pending st));
    ("last_refresh_unix_ms", json_option json_number (last_refresh_unix_ms st));
    ("last_successful_reconciliation_unix_ms", json_option json_number (last_successful_reconciliation_unix_ms st));
    ("oldest_pending_unix_ms", json_option json_number (oldest_pending_unix_ms st));
    ("next_retry_unix_ms", json_option json_number (next_retry_unix_ms st));
    ("reconcile_interval_ms", json_number (reconcile_interval_ms st)); ("dirty_epoch", json_number (dirty_epoch st));
    ("reconciled_epoch", json_number (reconciled_epoch st)); ("last_error", json_option VString (last_error st));
    ("last_error_count", json_number (last_error_count st)); ("last_retry_unix_ms", json_option json_number (last_retry_unix_ms st));
    ("last_event_count", json_number (last_event_count st)); ("last_changed_paths", json_number (last_changed_paths st));
    ("last_rebuilt", json_number (last_rebuilt st)); ("last_deleted", json_number (last_deleted st));
    ("last_database_written", VBool (last_database_written st)); ("coalesced_event_count", json_number (coalesced_event_count st));
    ("filtered_event_count", json_number (filtered_event_count st)); ("overflow_count", json_number (overflow_count st));
    ("deduplicated_refresh_count", json_number (deduplicated_refresh_count st));
    ("last_noop_reason", json_option VString (last_noop_reason st));
    ("execution_settings", json_object [("spill_chunk_mib", json_number (spill_chunk_mib st)); ("max_parallelism", json_number (max_parallelism st))]);
    ("phase_high_water_marks", VObject (prod_map id json_number <$> btree_iter (phase_high_water_marks st)));
    ("spill_bytes", json_number (spill_bytes st))].

Definition as_bool (v : Value) : option bool := match v with VBool b => Some b | _ => None end.
(** [str::parse::<u128>] *)
Definition parse_u128 (s : string) : option Z :=
  let digits := default s (strip_prefix "+" s) in
  if is_empty digits then None
  else match digits_value 0 digits with Some n => if u128_max <? n then None else Some n | None => None end.
Definition value_u128 (value : option Value) : option Z :=
  match value with
  | Some (VNumber display) => as_u64 (VNumber display)
  | Some (VString s) => parse_u128 s
  | _ => None
  end.
Definition refresh_interval_unix_ms (status : Map) : option Z := value_u128 (map_get "reconcile_interval_ms" status).

Definition refresh_readiness (state : string) (enabled task_alive : option bool) : string :=
  if bool_decide (enabled = Some false) || is_one_of state ["disabled"; "off"] then "disabled"
  else if String.eqb state "running" then match task_alive with Some true => "ready" | Some false => "stopped" | None => "unknown" end
  else if is_one_of state ["starting"; "retrying"; "blocked"; "standby"; "stopped"] then state
  else "unknown".

Record RefreshHealthFacts := {
  graph_readable : bool; f_state : string; f_enabled : option bool; f_task_alive : option bool; f_pending : bool; f_dirty_epoch : option Z;
  f_reconciled_epoch : option Z; last_success : option Z; has_error : bool; interval_unix_ms : option Z
}.
Definition refresh_freshness (facts : RefreshHealthFacts) (now : Z) : string :=
  if negb (graph_readable facts) || bool_decide (f_enabled facts = Some false) || negb (String.eqb (f_state facts) "running")
     || negb (bool_decide (f_task_alive facts = Some true)) || has_error facts then "unknown"
  else if f_pending facts then "pending"
  else
    match f_dirty_epoch facts, f_reconciled_epoch facts, last_success facts with
    | Some dirty, Some reconciled, Some last_success =>
        if reconciled <? dirty then "pending"
        else if now <? last_success then "unknown"
        else
          match interval_unix_ms facts with
          | Some interval => if saturating_add_u128 last_success interval <? now then "overdue" else "current"
          | None => "current"
          end
    | _, _, _ => "unknown"
    end.

Definition cloned (key : string) (status : Map) : Value := default Null (map_get key status).
Definition health_pending (status : Map) : bool :=
  let epoch_behind :=
    match value_u128 (map_get "dirty_epoch" status), value_u128 (map_get "reconciled_epoch" status) with
    | Some dirty, Some reconciled => reconciled <? dirty
    | _, _ => false
    end in
  default false (map_get "pending" status ≫= as_bool) || epoch_behind.
Definition health_facts (readable : bool) (status : Map) : RefreshHealthFacts :=
  {| graph_readable := readable; f_state := default "unknown" (map_get "state" status ≫= as_str);
     f_enabled := map_get "enabled" status ≫= as_bool; f_task_alive := map_get "task_alive" status ≫= as_bool;
     f_pending := health_pending status; f_dirty_epoch := value_u128 (map_get "dirty_epoch" status);
     f_reconciled_epoch := value_u128 (map_get "reconciled_epoch" status);
     last_success := value_u128 (map_get "last_successful_reconciliation_unix_ms" status);
     has_error := match map_get "last_error" status ≫= as_str with Some error => negb (is_empty error) | None => false end;
     interval_unix_ms := refresh_interval_unix_ms status |}.
Definition refresh_health_payload (refresh_status : option Value) (readable : bool) (now : Z) : Value :=
  match refresh_status ≫= as_object with
  | None =>
      json_object [("freshness", VString "unknown"); ("readiness", VString "unknown"); ("state", VString "unknown"); ("task_alive", Null);
        ("effective_root", Null); ("last_successful_reconciliation_unix_ms", Null); ("oldest_pending_unix_ms", Null); ("next_retry_unix_ms", Null);
        ("pending", Null); ("dirty_epoch", Null); ("reconciled_epoch", Null); ("last_error", Null)]
  | Some status =>
      let facts := health_facts readable status in
      json_object [("freshness", VString (refresh_freshness facts now));
        ("readiness", VString (refresh_readiness (f_state facts) (f_enabled facts) (f_task_alive facts)));
        ("state", VString (f_state facts)); ("task_alive", json_bool_option (f_task_alive facts));
        ("effective_root", cloned "effective_root" status);
        ("last_successful_reconciliation_unix_ms", cloned "last_successful_reconciliation_unix_ms" status);
        ("oldest_pending_unix_ms", cloned "oldest_pending_unix_ms" status); ("next_retry_unix_ms", cloned "next_retry_unix_ms" status);
        ("pending", VBool (f_pending facts)); ("dirty_epoch", cloned "dirty_epoch" status);
        ("reconciled_epoch", cloned "reconciled_epoch" status); ("last_error", cloned "last_error" status)]
  end.

(** *** Numbers survive their text *)
Lemma digits_value_uint d p : digits_value (Z.pos p) (NilEmpty.string_of_uint d) = Some (Z.pos (Pos.of_uint_acc d p)).
Proof.
  revert p. induction d; intros p; [done|..]; cbn [NilEmpty.string_of_uint digits_value Pos.of_uint_acc];
    match goal with |- context [digit_value ?c] => let v := eval vm_compute in (digit_value c) in change (digit_value c) with v end;
    cbv iota beta; rewrite <- IHd; do 2 f_equal; lia.
Qed.
Lemma digits_value_of_uint d : digits_value 0 (NilEmpty.string_of_uint d) = Some (Z.of_uint d).
Proof.
  unfold Z.of_uint. induction d; [done|..]; cbn [NilEmpty.string_of_uint digits_value Pos.of_uint];
    match goal with |- context [digit_value ?c] => let v := eval vm_compute in (digit_value c) in change (digit_value c) with v end;
    cbv iota beta; [exact IHd|apply digits_value_uint..].
Qed.
Lemma digits_value_show n : 0 <= n -> digits_value 0 (show_Z n) = Some n /\ is_empty (show_Z n) = false.
Proof.
  intros Hn. destruct n as [|p|]; [done| |lia]. unfold show_Z. cbn [Z.to_int NilZero.string_of_int].
  pose proof (DecimalZ.of_to (Z.pos p)) as E. cbn [Z.to_int Z.of_int] in E. unfold NilZero.string_of_uint.
  destruct (Pos.to_uint p) eqn:Ed; [done|..]; rewrite <- Ed in *; rewrite digits_value_of_uint; (split; [by f_equal|by rewrite Ed]).
Qed.
Lemma value_u128_number n : 0 <= n <= u64_max -> value_u128 (Some (json_number n)) = Some n.
Proof.
  intros [H1 H2]. destruct (digits_value_show n H1) as [E1 E2]. cbn. rewrite E1, E2. cbn. by destruct (Z.ltb_spec u64_max n); [lia|].
Qed.

(** *** The status, as its JSON tells it *)
Definition in_u64 (n : Z) : Prop := 0 <= n <= u64_max.
Record status_in_u64 (st : RefreshStatus) : Prop := {
  siu_dirty : in_u64 (dirty_epoch st); siu_reconciled : in_u64 (reconciled_epoch st); siu_interval : in_u64 (reconcile_interval_ms st);
  siu_last : forall t, last_successful_reconciliation_unix_ms st = Some t -> in_u64 t
}.
Lemma health_facts_as_json st readable : status_in_u64 st ->
  health_facts readable (default [] (as_object (as_json st))) =
  {| graph_readable := readable; f_state := state st; f_enabled := Some (enabled st); f_task_alive := Some (task_alive st);
     f_pending := pending st || (reconciled_epoch st <? dirty_epoch st); f_dirty_epoch := Some (dirty_epoch st);
     f_reconciled_epoch := Some (reconciled_epoch st); last_success := last_successful_reconciliation_unix_ms st;
     has_error := match last_error st with Some e => negb (is_empty e) | None => false end;
     interval_unix_ms := Some (reconcile_interval_ms st) |}.
Proof.
  intros [H1 H2 H3 H4]. unfold health_facts, health_pending, refresh_interval_unix_ms.
  change (map_get "dirty_epoch" (default [] (as_object (as_json st)))) with (Some (json_number (dirty_epoch st))).
  change (map_get "reconciled_epoch" (default [] (as_object (as_json st)))) with (Some (json_number (reconciled_epoch st))).
  change (map_get "reconcile_interval_ms" (default [] (as_object (as_json st)))) with (Some (json_number (reconcile_interval_ms st))).
  change (map_get "last_successful_reconciliation_unix_ms" (default [] (as_object (as_json st))))
    with (Some (json_option json_number (last_successful_reconciliation_unix_ms st))).
  change (map_get "last_error" (default [] (as_object (as_json st)))) with (Some (json_option VString (last_error st))).
  change (map_get "pending" (default [] (as_object (as_json st)))) with (Some (VBool (pending st))).
  change (map_get "enabled" (default [] (as_object (as_json st)))) with (Some (VBool (enabled st))).
  change (map_get "task_alive" (default [] (as_object (as_json st)))) with (Some (VBool (task_alive st))).
  change (map_get "state" (default [] (as_object (as_json st)))) with (Some (VString (state st))).
  rewrite !value_u128_number by done. f_equal.
  - destruct (last_successful_reconciliation_unix_ms st) as [t|] eqn:E; [|done]. apply value_u128_number. by apply H4.
  - by destruct (last_error st).
Qed.

(** What the health operation says of the refresh service. *)
Definition reported (key : string) (payload : Value) : option string := value_get key payload ≫= as_str.
Lemma reported_freshness st readable now : status_in_u64 st ->
  reported "freshness" (refresh_health_payload (Some (as_json st)) readable now)
  = Some (refresh_freshness (health_facts readable (default [] (as_object (as_json st)))) now).
Proof. done. Qed.

(** C35: Health reports a current graph exactly when it can be read, the service is enabled, alive and running without an error,
    nothing is pending, every change that was noticed has been reconciled, and the last reconciliation is neither in the
    future nor longer ago than the interval. *)
Theorem current_is_reconciled st readable now : status_in_u64 st ->
  reported "freshness" (refresh_health_payload (Some (as_json st)) readable now) = Some "current" <->
  readable = true /\ enabled st = true /\ task_alive st = true /\ state st = "running" /\ default "" (last_error st) = "" /\
  pending st = false /\ dirty_epoch st <= reconciled_epoch st /\
  exists last, last_successful_reconciliation_unix_ms st = Some last /\ last <= now <= saturating_add_u128 last (reconcile_interval_ms st).
Proof.
  intros Hst. rewrite reported_freshness, health_facts_as_json by done. unfold refresh_freshness. cbn.
  assert (match last_error st with Some e => negb (is_empty e) | None => false end = negb (is_empty (default "" (last_error st)))) as -> by by destruct (last_error st).
  assert (default "" (last_error st) = "" <-> is_empty (default "" (last_error st)) = true) as -> by by destruct (default "" (last_error st)).
  destruct readable; cbn; [|by split; [|intros []]]. destruct (enabled st); cbn; [|by split; [|intros (_ & ? & _)]].
  destruct (String.eqb_spec (state st) "running") as [->|]; cbn; [|split; [done|]; intros (_ & _ & _ & ? & _); done].
  destruct (task_alive st); cbn; [|by split; [|intros (_ & _ & ? & _)]].
  destruct (is_empty (default "" (last_error st))); cbn; [|by split; [|intros (_ & _ & _ & _ & ? & _)]].
  destruct (pending st); cbn; [by split; [|intros (_ & _ & _ & _ & _ & ? & _)]|].
  destruct (Z.ltb_spec (reconciled_epoch st) (dirty_epoch st)); [by split; [|intros (_ & _ & _ & _ & _ & _ & ? & _); lia]|].
  destruct (last_successful_reconciliation_unix_ms st) as [t|]; [|by split; [|intros (_ & _ & _ & _ & _ & _ & _ & t & ? & _)]].
  destruct (Z.ltb_spec now t); [by split; [|intros (_ & _ & _ & _ & _ & _ & _ & t' & [= <-] & ?); lia]|].
  destruct (Z.ltb_spec (saturating_add_u128 t (reconcile_interval_ms st)) now).
  - split; [done|]. intros (_ & _ & _ & _ & _ & _ & _ & t' & [= <-] & ?). lia.
  - split; [|done]. intros _. repeat split; [done|]. exists t. split; [done|lia].
Qed.

Definition settled : RefreshStatus :=
  with_last_successful_reconciliation_unix_ms (Some 1000) (with_pending false (mark_leader 7 (default_status 30000 32 2))).
Lemma settled_in_u64 : status_in_u64 settled.
Proof. split; cbn; try (unfold in_u64, u64_max; cbn; lia). intros t [= <-]. unfold in_u64, u64_max. lia. Qed.
Lemma current_is_reconciled_witness :
  reported "freshness" (refresh_health_payload (Some (as_json settled)) true 1100) = Some "current".
Proof.
  apply (current_is_reconciled settled true 1100 settled_in_u64). repeat split; try done. exists 1000. split; [done|]. by vm_compute.
Defined.
(** A change that was noticed and not reconciled is pending, whatever the flag says. *)
Example noticed_is_pending :
  reported "freshness" (refresh_health_payload (Some (as_json (with_pending false (mark_dirty_at 1050 settled).2))) true 1100) = Some "pending".
Proof. by vm_compute. Qed.
