(* ===== verification/GraphRead.v ===== *)
(** * Reading the graph (src/api/graph_read.rs)

    Queries with their parameters and rows, the context of a node (a walk over the relations
    of a profile, in breadth, within a limit of rows and of depth), and the search that ranks
    the hits of both layers.  The database answers statements; the index of a search is that
    of the search components. *)
From S2P Require Import Prelude Order Text Json Protocol Disk SearchModel Float64 SearchBuild SearchRead SearchRank Refresh Requests Core.
#[local] Open Scope rust_scope.
#[local] Open Scope Z_scope.

(** ** Values of the database *)
(** The values of [lbug] that the program tells apart; any other is known by its text. *)
Inductive DbValue :=
| DbNull
| DbBool (b : bool)
| DbInt64 (n : Z) | DbInt32 (n : Z) | DbInt16 (n : Z) | DbInt8 (n : Z)
| DbUInt64 (n : Z) | DbUInt32 (n : Z) | DbUInt16 (n : Z) | DbUInt8 (n : Z)
| DbInt128 (n : Z)
| DbDouble (x : f64)
| DbFloat (x : f64)
| DbString (s : string)
| DbJson (v : Value)
| DbList (values : list DbValue)
| DbArray (values : list DbValue)
| DbStruct (fields : list (string * DbValue))
| DbOther (display : string).
Definition Row := list DbValue.

(** What the libraries do with values: the texts of values and numbers, and numbers from texts. *)
Class DbTexts := {
  show_value : DbValue -> string;
  show_f64 : f64 -> string;
  number_from_f64 : f64 -> option string;
  parse_f64 : string -> option f64
}.
(** A connection to a database opened for reading: what it answers, and whether it holds a statement to be read-only. *)
Class Database := {
  query : string -> result string (list Row);
  prepared_read_only : string -> result string bool;
  execute_prepared : string -> list (string * DbValue) -> result string (list Row)
}.

Definition value_str (key : string) (v : Value) : string := default "" (value_get key v ≫= as_str).
Definition value_array (key : string) (v : Value) : list Value := default [] (value_get key v ≫= as_array).

Section read.
Context `{DbTexts, Database}.

Definition value_to_string (v : option DbValue) : string :=
  match v with
  | Some (DbString s) => s
  | Some (DbInt64 n) | Some (DbUInt64 n) | Some (DbInt32 n) | Some (DbUInt32 n) => show_Z n
  | Some DbNull | None => ""
  | Some v => show_value v
  end.
Definition i64_max : Z := 2 ^ 63 - 1.
Definition i64_min : Z := - 2 ^ 63.
Definition value_to_i64 (v : option DbValue) : option Z :=
  match v with
  | Some (DbInt64 n) | Some (DbInt32 n) | Some (DbInt16 n) | Some (DbInt8 n) => Some n
  | Some (DbUInt64 n) => if n <=? i64_max then Some n else None
  | Some (DbUInt32 n) | Some (DbUInt16 n) | Some (DbUInt8 n) => Some n
  | _ => None
  end.
Definition value_to_u64 (v : DbValue) : option Z :=
  match v with
  | DbInt64 n | DbInt32 n | DbInt16 n | DbInt8 n => if 0 <=? n then Some n else None
  | DbUInt64 n | DbUInt32 n | DbUInt16 n | DbUInt8 n => Some n
  | _ => None
  end.
Definition value_to_f64 (v : option DbValue) : f64 :=
  match v with
  | Some (DbDouble x) | Some (DbFloat x) => x
  | Some (DbInt64 n) | Some (DbUInt64 n) | Some (DbInt32 n) | Some (DbUInt32 n) => f64_of_Z n
  | _ => f64_zero
  end.
Definition json_f64 (x : f64) : Value := match number_from_f64 x with Some display => VNumber display | None => Null end.
Definition json_f64_or_text (x : f64) : Value := match number_from_f64 x with Some display => VNumber display | None => VString (show_f64 x) end.
Fixpoint json_safe_value (v : DbValue) : Value :=
  match v with
  | DbNull => Null
  | DbBool b => VBool b
  | DbInt64 n | DbInt32 n | DbInt16 n | DbInt8 n | DbUInt64 n | DbUInt32 n | DbUInt16 n | DbUInt8 n => json_number n
  | DbInt128 n => VString (show_Z n)
  | DbDouble x | DbFloat x => json_f64_or_text x
  | DbString s => VString s
  | DbJson v => v
  | DbList values | DbArray values => VArray (map json_safe_value values)
  | DbStruct fields => json_object (map (fun kv => (kv.1, json_safe_value kv.2)) fields)
  | DbOther _ => VString (show_value v)
  end.
Definition span_json (line_start line_end : option Z) : Value :=
  json_object (option_list ((fun n => ("line_start", json_number n)) <$> line_start)
               ++ option_list ((fun n => ("line_end", json_number n)) <$> line_end)).

(** ** Counting *)
Definition first_value (rows : list Row) : option DbValue := head rows ≫= head.
Definition count_graph_nodes : result string Z :=
  let? rows := map_err (fun e => "failed to query graph health: " +:+ e) (query "MATCH (n) RETURN count(n) AS total_nodes LIMIT 1") in
  let? row := ok_or "graph health query returned no rows" (head rows) in
  ok_or "graph health query returned a non-numeric node count" (head row ≫= value_to_u64).
Definition count_graph_edges : result string Z :=
  let? rows := map_err (fun e => "failed to query graph edge count: " +:+ e) (query "MATCH ()-[r]->() RETURN count(r) AS total_edges LIMIT 1") in
  let? row := ok_or "graph edge count query returned no rows" (head rows) in
  ok_or "graph edge count query returned a non-numeric count" (head row ≫= value_to_u64).

(** ** Queries *)
Definition as_i64 (v : Value) : option Z :=
  match v with
  | VNumber display =>
      match strip_prefix "-" display with
      | Some digits =>
          match digits_value 0 digits with Some n => if is_empty digits || (- n <? i64_min) then None else Some (- n) | None => None end
      | None => match as_u64 v with Some n => if i64_max <? n then None else Some n | None => None end
      end
  | _ => None
  end.
Definition json_parameter_to_lbug_value (v : Value) : result string DbValue :=
  match v with
  | VBool b => Ok (DbBool b)
  | VNumber display =>
      match as_i64 v, as_u64 v, parse_f64 display with
      | Some n, _, _ => Ok (DbInt64 n)
      | None, Some n, _ => Ok (DbUInt64 n)
      | None, None, Some x => Ok (DbDouble x)
      | None, None, None => Err "graph_query numeric parameter is not representable"
      end
  | VString s => Ok (DbString s)
  | Null | VArray _ | VObject _ => Ok (DbJson v)
  end.
Definition add_parameter (converted : list (string * DbValue)) (parameter : string * Value) : result string (list (string * DbValue)) :=
  if is_empty (trim parameter.1) then Err "graph_query parameter names must not be blank"
  else let? v := json_parameter_to_lbug_value parameter.2 in Ok (converted ++ [(parameter.1, v)]).
Definition lbug_query_parameters (parameters : Map) : result string (list (string * DbValue)) := try_fold add_parameter [] parameters.
(** The rows pushed so far; the loop sees at most [limit + 1] rows. *)
Fixpoint collect_rows (limit : Z) (rows : list (list Value)) (result : list Row) : list (list Value) * bool :=
  match result with
  | [] => (rows, false)
  | row :: result =>
      if Z.of_nat (length rows) =? limit then (rows, true)
      else collect_rows limit (rows ++ [map json_safe_value row]) result
  end.
Definition execute_read_only_query (statement : string) (parameters : Map) (limit : Z) : result string (list (list Value) * bool) :=
  let? result :=
    if list_is_empty parameters then map_err (fun e => "failed to execute graph query: " +:+ e) (query statement)
    else
      let? named := lbug_query_parameters parameters in
      let? read_only := map_err (fun e => "failed to prepare graph query: " +:+ e) (prepared_read_only statement) in
      if read_only then map_err (fun e => "failed to execute graph query: " +:+ e) (execute_prepared statement named)
      else Err "graph-query prepared statement is not read-only" in
  Ok (collect_rows limit [] (take (Z.to_nat (limit + 1)) result)).

(** ** Neighbours *)
Definition is_missing_search_target_error (error : string) : bool :=
  contains error "does not exist" || contains error "doesn't have an index" || contains error "Index not found".
Definition relation_type (schema : Value) (relation : string) : option Value :=
  find (fun v => String.eqb (value_str "name" v) relation) (value_array "relation_types" schema).
Definition string_items (key : string) (v : Value) : list string := omap as_str (value_array key v).

Definition neighbor_fields : string :=
  " RETURN neighbor.id, neighbor.label, neighbor.qualified_name, neighbor.path, neighbor.line_start, neighbor.line_end, neighbor.summary, edge.id, edge.kind, edge.source_id, edge.target_id, edge.confidence, edge.metadata, edge.field_name, edge.child_index".
Definition neighbor_statement (node_type neighbor_type relation direction node_id : string) (limit : Z) : string :=
  let ordering := if String.eqb relation "SyntaxChild" then " ORDER BY edge.child_index, neighbor.id" else "" in
  let r := cypher_identifier relation in
  let node := cypher_identifier node_type +:+ "` {id: '" +:+ cypher_single_quoted node_id +:+ "'})" in
  let edge := "-[:`FROM_" +:+ r +:+ "`]->(edge:`" +:+ r +:+ "`)-[:`TO_" +:+ r +:+ "`]->" in
  (if String.eqb direction "outgoing"
   then "MATCH (source:`" +:+ node +:+ edge +:+ "(neighbor:`" +:+ cypher_identifier neighbor_type +:+ "`)"
   else "MATCH (neighbor:`" +:+ cypher_identifier neighbor_type +:+ "`)" +:+ edge +:+ "(target:`" +:+ node)
  +:+ neighbor_fields +:+ ordering +:+ " LIMIT " +:+ show_Z limit.

Definition set_field (b : bool) (key : string) (v : Value) (m : Map) : Map := if b then map_insert key v m else m.
Definition neighbor_payload (direction relation neighbor_type : string) (row : Row) : Value :=
  let label := value_to_string (row !! 1%nat) in
  let label := if is_empty label then value_to_string (row !! 2%nat) else label in
  let summary := value_to_string (row !! 6%nat) in
  let field_name := value_to_string (row !! 13%nat) in
  let payload := map_extend [] [
    ("direction", VString direction); ("relation", VString relation);
    ("layer", VString (if String.eqb neighbor_type "SyntaxCapture" then "syntax" else "semantic"));
    ("type", VString neighbor_type); ("label", VString label); ("path", VString (value_to_string (row !! 3%nat)));
    ("span", span_json (value_to_i64 (row !! 4%nat)) (value_to_i64 (row !! 5%nat))); ("id", VString (value_to_string (row !! 0%nat)))] in
  let payload := set_field (negb (is_empty summary) && negb (String.eqb summary label)) "summary" (VString summary) payload in
  let payload := set_field (negb (is_empty (value_to_string (row !! 7%nat)))) "evidence_path"
    (json_object [("chain", VString (relation +:+ ":" +:+ value_to_string (row !! 9%nat) +:+ "->" +:+ value_to_string (row !! 10%nat)))]) payload in
  VObject
    (if String.eqb relation "SyntaxChild" then
       let payload := set_field (negb (is_empty field_name)) "field_name" (VString field_name) payload in
       match value_to_i64 (row !! 14%nat) with Some child_index => map_insert "child_index" (json_number child_index) payload | None => payload end
     else payload).
Fixpoint push_neighbors (limit : Z) (payload : Row -> Value) (neighbors : list Value) (rows : list Row) : list Value :=
  match rows with
  | [] => neighbors
  | row :: rows =>
      let neighbors := neighbors ++ [payload row] in
      if limit <=? Z.of_nat (length neighbors) then neighbors else push_neighbors limit payload neighbors rows
  end.
Fixpoint query_neighbor_types (node_id node_type relation direction : string) (limit : Z) (neighbors : list Value) (types : list string)
    : result string (list Value) :=
  match types with
  | [] => Ok neighbors
  | neighbor_type :: types =>
      if limit <=? Z.of_nat (length neighbors) then Ok neighbors
      else
        let remaining := limit - Z.of_nat (length neighbors) in
        match query (neighbor_statement node_type neighbor_type relation direction node_id remaining) with
        | Ok rows =>
            query_neighbor_types node_id node_type relation direction limit
              (push_neighbors limit (neighbor_payload direction relation neighbor_type) neighbors rows) types
        | Err error =>
            if is_missing_search_target_error error
            then query_neighbor_types node_id node_type relation direction limit neighbors types
            else Err ("failed to query " +:+ direction +:+ " " +:+ relation +:+ " neighbors for " +:+ node_type +:+ ": " +:+ error)
        end
  end.
Definition query_relation_neighbors (schema : Value) (node_id node_type relation direction : string) (limit : Z) : result string (list Value) :=
  match relation_type schema relation with
  | None => Ok []
  | Some relation_type =>
      let source_types := string_items "source_types" relation_type in
      let target_types := string_items "target_types" relation_type in
      if String.eqb direction "outgoing" then
        if is_one_of node_type source_types then query_neighbor_types node_id node_type relation direction limit [] target_types else Ok []
      else if is_one_of node_type target_types then query_neighbor_types node_id node_type relation direction limit [] source_types else Ok []
  end.

(** ** The context of a node *)
Record GraphSearchRequest := {
  g_query : string; g_layer : string; g_limit : Z; g_profile : string; g_budget : Z; g_context_limit : Z; g_max_depth : option Z; g_detail : string
}.
Definition syntax_context_relations : list string := ["SyntaxChild"; "EvidencedBy"; "DerivedFrom"].
Definition push_relation (relations : list string) (relation : string) : list string :=
  if is_one_of relation relations then relations else relations ++ [relation].
Definition context_relations (options : GraphSearchRequest) (semantic_relations : list Value) : list string :=
  let semantic_relations := omap as_str semantic_relations in
  if String.eqb (g_layer options) "hybrid" then fold_left push_relation syntax_context_relations semantic_relations else semantic_relations.

(** *** Order of the rows *)
Definition option_cmp (a b : option Z) : comparison :=
  match a, b with
  | None, None => Eq | None, Some _ => Lt | Some _, None => Gt | Some a, Some b => cmp a b
  end.
Definition is_syntax_child (v : Value) : bool := String.eqb (value_str "relation" v) "SyntaxChild".
Definition context_row_order (left right : Value) : comparison :=
  match is_syntax_child left, is_syntax_child right with
  | true, true =>
      then_with (option_cmp (value_get "child_index" left ≫= as_i64) (value_get "child_index" right ≫= as_i64))
        (cmp (value_str "id" left) (value_str "id" right))
  | true, false => Lt
  | false, true => Gt
  | false, false => Eq
  end.
Definition not_after {A} (order : A -> A -> comparison) (x y : A) : bool := match order x y with Gt => false | _ => true end.
Definition order_context_rows (context : list Value) (options : GraphSearchRequest) : list Value :=
  if String.eqb (g_layer options) "semantic" then context else sort_by (not_after context_row_order) context.

(** *** The walk *)
Definition Visited : Type := string * string * Z.
Record Walk := { context : list Value; seen : gset string; frontier : list Visited }.
(** The walk goes on, or the context is full. *)
Inductive Visit := More (w : Walk) | Full (context : list Value).
Definition dedupe_key (direction relation neighbor_type neighbor_id : string) : string :=
  direction +:+ ":" +:+ relation +:+ ":" +:+ neighbor_type +:+ ":" +:+ neighbor_id.
Fixpoint add_neighbors (limit depth_limit depth : Z) (relation direction : string) (neighbors : list Value) (w : Walk) : Visit :=
  match neighbors with
  | [] => More w
  | neighbor :: neighbors =>
      let neighbor_id := value_str "id" neighbor in
      let neighbor_type := value_str "type" neighbor in
      let key := dedupe_key direction relation neighbor_type neighbor_id in
      if is_empty neighbor_id || is_empty neighbor_type || bool_decide (key ∈ seen w)
      then add_neighbors limit depth_limit depth relation direction neighbors w
      else
        let w :=
          {| context := context w ++ [neighbor]; seen := {[ key ]} ∪ seen w;
             frontier := if depth + 1 <? depth_limit then frontier w ++ [(neighbor_id, neighbor_type, depth + 1)] else frontier w |} in
        if limit <=? Z.of_nat (length (context w)) then Full (context w)
        else add_neighbors limit depth_limit depth relation direction neighbors w
  end.
Fixpoint visit_edges (schema : Value) (limit depth_limit depth : Z) (node_id node_type : string) (edges : list (string * string)) (w : Walk)
    : result string Visit :=
  match edges with
  | [] => Ok (More w)
  | (relation, direction) :: edges =>
      let remaining := Z.max 0 (limit - Z.of_nat (length (context w))) in
      if remaining =? 0 then Ok (Full (context w))
      else
        let? neighbors := query_relation_neighbors schema node_id node_type relation direction remaining in
        match add_neighbors limit depth_limit depth relation direction neighbors w with
        | More w => visit_edges schema limit depth_limit depth node_id node_type edges w
        | Full context => Ok (Full context)
        end
  end.
Definition both_directions (relations : list string) : list (string * string) :=
  relations ≫= (fun relation => [(relation, "outgoing"); (relation, "incoming")]).
(** [None]: out of fuel *)
Fixpoint context_loop (fuel : nat) (schema : Value) (limit depth_limit : Z) (relations : list string) (w : Walk) : option (result string (list Value)) :=
  match fuel with
  | O => None
  | S fuel =>
      match frontier w with
      | [] => Some (Ok (context w))
      | (current_id, current_type, depth) :: rest =>
          let w := {| context := context w; seen := seen w; frontier := rest |} in
          if (depth_limit <=? depth) || (limit <=? Z.of_nat (length (context w))) then context_loop fuel schema limit depth_limit relations w
          else
            match visit_edges schema limit depth_limit depth current_id current_type (both_directions relations) w with
            | Err e => Some (Err e)
            | Ok (Full context) => Some (Ok context)
            | Ok (More w) => context_loop fuel schema limit depth_limit relations w
            end
      end
  end.
Definition context_scope (schema : Value) (options : GraphSearchRequest) : result string (list string * Z) :=
  if String.eqb (g_layer options) "syntax" then Ok (syntax_context_relations, default 1 (g_max_depth options))
  else
    let? profile := ok_or ("Unknown context profile: " +:+ g_profile options)
      (value_get "context_profiles" schema ≫= value_get (g_profile options)) in
    let? semantic_relations := ok_or ("Context profile " +:+ g_profile options +:+ " has no relations") (value_get "relations" profile ≫= as_array) in
    Ok (context_relations options semantic_relations, default (default 1 (value_get "max_depth" profile ≫= as_u64)) (g_max_depth options)).
(** A row enters the frontier only when it enters the context, so that this many rounds are enough. *)
Definition context_fuel (limit : Z) : nat := S (S (Z.to_nat limit)).
Definition execute_graph_context (schema : Value) (node_id node_type : string) (options : GraphSearchRequest) : option (result string (list Value)) :=
  if (g_context_limit options =? 0) || (g_budget options =? 0) then Some (Ok [])
  else
    match context_scope schema options with
    | Err e => Some (Err e)
    | Ok (relations, depth_limit) =>
        if depth_limit =? 0 then Some (Ok [])
        else
          result_map (fun context => order_context_rows context options)
          <$> context_loop (context_fuel (g_context_limit options)) schema (g_context_limit options) depth_limit relations
                {| context := []; seen := ∅; frontier := [(node_id, node_type, 0)] |}
    end.

(** ** Searching *)
Record SearchHitRow := {
  hit_id : string; hit_node_type : string; hit_label : string; hit_qualified_name : string; hit_path : string; hit_line_start : option Z;
  hit_line_end : option Z; hit_summary : string; hit_grammar_version : string; hit_tree_sitter_node_type : string; hit_score : f64;
  hit_rank_score : f64; hit_index_order : Z; hit_layer : string
}.
Definition hit_of_row (node_type : string) (score : f64) (index_order : Z) (layer : string) (row : Row) : SearchHitRow :=
  {| hit_id := value_to_string (row !! 0%nat); hit_node_type := node_type; hit_label := value_to_string (row !! 1%nat);
     hit_qualified_name := value_to_string (row !! 2%nat); hit_path := value_to_string (row !! 3%nat);
     hit_line_start := value_to_i64 (row !! 4%nat); hit_line_end := value_to_i64 (row !! 5%nat);
     hit_summary := value_to_string (row !! 6%nat); hit_grammar_version := value_to_string (row !! 7%nat);
     hit_tree_sitter_node_type := value_to_string (row !! 8%nat); hit_score := score; hit_rank_score := f64_zero;
     hit_index_order := index_order; hit_layer := layer |}.
Definition search_layer_includes (requested_layer index_layer : string) : bool :=
  String.eqb requested_layer "hybrid" || String.eqb requested_layer index_layer.
Definition search_index_layer (index : Value) : string := if String.eqb (value_str "layer" index) "syntax" then "syntax" else "semantic".

Definition hydrate_sidecar_hit (ranked : RankedDocument) : result string (option SearchHitRow) :=
  let statement := "MATCH (node:`" +:+ cypher_identifier (ranked_node_type ranked) +:+ "` {id: '" +:+ cypher_single_quoted (ranked_id ranked)
    +:+ "'}) RETURN node.id, node.label, node.qualified_name, node.path, node.line_start, node.line_end, node.summary, node.grammar_version, node.tree_sitter_node_type LIMIT 1" in
  let? rows := map_err (fun e => "failed to hydrate sidecar search result: " +:+ e) (query statement) in
  Ok (hit_of_row (ranked_node_type ranked) (ranked_score ranked) (ranked_index_order ranked) (ranked_layer ranked) <$> head rows).
Definition push_hit (hits : list SearchHitRow) (ranked : RankedDocument) : result string (list SearchHitRow) :=
  let? hit := hydrate_sidecar_hit ranked in Ok (hits ++ option_list hit).
(** [search_index] is the search of the sidecars, by layer and limit. *)
Definition sidecar_layer (search_index : string -> Z -> result string (list RankedDocument)) (options : GraphSearchRequest) (layer : string)
    (candidate_limit : Z) : result string (list SearchHitRow) :=
  if search_layer_includes (g_layer options) layer
  then let? ranked := search_index layer candidate_limit in try_fold push_hit [] ranked
  else Ok [].
Definition search_sidecar (search_index : string -> Z -> result string (list RankedDocument)) (options : GraphSearchRequest) (candidate_limit : Z)
    : result string (list SearchHitRow * list SearchHitRow) :=
  let? semantic := sidecar_layer search_index options "semantic" candidate_limit in
  let? syntax := sidecar_layer search_index options "syntax" candidate_limit in
  Ok (semantic, syntax).

Definition search_fts_index (node_type index_name text : string) (limit index_order : Z) (layer : string) : result string (list SearchHitRow) :=
  let statement := "CALL QUERY_FTS_INDEX('" +:+ cypher_single_quoted node_type +:+ "', '" +:+ cypher_single_quoted index_name +:+ "', '"
    +:+ cypher_single_quoted text +:+ "', TOP := " +:+ show_Z limit +:+ ") RETURN node.id, node.label, node.qualified_name, node.path, node.line_start, node.line_end, node.summary, node.grammar_version, node.tree_sitter_node_type, score" in
  match query statement with
  | Ok rows => Ok ((fun row => hit_of_row node_type (value_to_f64 (row !! 9%nat)) index_order layer row) <$> rows)
  | Err error =>
      if is_missing_search_target_error error then Ok []
      else Err ("failed to search FTS index " +:+ index_name +:+ " for " +:+ node_type +:+ ": " +:+ error)
  end.
(** The hits of both layers, and the order of the next index *)
Definition FtsHits : Type := list SearchHitRow * list SearchHitRow * Z.
Definition search_node_type (options : GraphSearchRequest) (candidate_limit : Z) (index_layer index_name : string) (s : FtsHits) (node_type : string)
    : result string FtsHits :=
  let '(semantic, syntax, order) := s in
  let? hits := search_fts_index node_type (index_name +:+ "_" +:+ node_type) (g_query options) candidate_limit order index_layer in
  Ok (if String.eqb index_layer "syntax" then (semantic, syntax ++ hits, order + 1) else (semantic ++ hits, syntax, order + 1)).
Definition search_schema_index (options : GraphSearchRequest) (candidate_limit : Z) (s : FtsHits) (index : Value) : result string FtsHits :=
  let index_layer := search_index_layer index in
  if search_layer_includes (g_layer options) index_layer
  then try_fold (search_node_type options candidate_limit index_layer (value_str "name" index)) s (string_items "node_types" index)
  else Ok s.
Definition search_ladybug_fts (schema : Value) (options : GraphSearchRequest) (candidate_limit : Z)
    : result string (list SearchHitRow * list SearchHitRow) :=
  let? _ := map_err (fun e => "failed to load FTS extension for graph search: " +:+ e) (query "LOAD fts") in
  let? s := try_fold (search_schema_index options candidate_limit) ([], [], 0) (value_array "search_indexes" schema) in
  Ok s.1.

(** *** Ranking *)
Definition lexical_score (text : string) (hit : SearchHitRow) : f64 :=
  let normalized := to_ascii_lowercase text in
  if is_empty normalized then f64_zero
  else
    let label := to_ascii_lowercase (hit_label hit) in
    let qualified_name := to_ascii_lowercase (hit_qualified_name hit) in
    if String.eqb label normalized || String.eqb qualified_name normalized then f64_of_Z 1
    else if contains label normalized || contains qualified_name normalized then f64_literal 8 10
    else if contains (to_ascii_lowercase (hit_path hit)) normalized then f64_literal 5 10
    else f64_zero.
Definition entity_priority_score (node_type : string) : f64 :=
  if is_one_of node_type ["Class"; "Function"; "Method"; "Module"; "Variable"; "Parameter"; "Field"; "Enum"; "Interface"; "Trait"; "Struct"]
  then f64_of_Z 1
  else if is_one_of node_type ["File"; "DocumentationChunk"; "DocumentationSource"] then f64_literal 8 10
  else if is_one_of node_type ["CallExpression"; "Reference"; "ImportDeclaration"; "Assignment"] then f64_literal 6 10
  else if String.eqb node_type "Symbol" then f64_literal 25 100
  else if String.eqb node_type "Dependency" then f64_literal 2 10
  else if String.eqb node_type "SyntaxCapture" then f64_literal 1 10
  else f64_literal 5 10.
(** [f64::max], which ignores a NaN *)
Definition f64_max (a b : f64) : f64 :=
  if is_nan a then b else match f64_partial_cmp a b with Some Lt => b | _ => a end.
Definition with_rank (rank : f64) (h : SearchHitRow) : SearchHitRow :=
  {| hit_id := hit_id h; hit_node_type := hit_node_type h; hit_label := hit_label h; hit_qualified_name := hit_qualified_name h;
     hit_path := hit_path h; hit_line_start := hit_line_start h; hit_line_end := hit_line_end h; hit_summary := hit_summary h;
     hit_grammar_version := hit_grammar_version h; hit_tree_sitter_node_type := hit_tree_sitter_node_type h; hit_score := hit_score h;
     hit_rank_score := rank; hit_index_order := hit_index_order h; hit_layer := hit_layer h |}.
Definition rank_search_hits (hits : list SearchHitRow) (text : string) : list SearchHitRow :=
  let max_score := fold_left f64_max (hit_score <$> hits) f64_zero in
  (fun hit =>
     let fts_score := if f64_positive max_score then f64_div (hit_score hit) max_score else f64_zero in
     with_rank (round6 (f64_add (f64_add (f64_mul (f64_literal 25 100) fts_score) (f64_mul (f64_literal 25 100) (lexical_score text hit)))
                          (f64_mul (f64_literal 50 100) (entity_priority_score (hit_node_type hit))))) hit) <$> hits.
Definition hit_order (left right : SearchHitRow) : comparison :=
  then_with (default Eq (f64_partial_cmp (hit_rank_score right) (hit_rank_score left)))
    (then_with (cmp (hit_index_order left) (hit_index_order right))
      (then_with (cmp (hit_path left) (hit_path right))
        (then_with (option_cmp (hit_line_start left) (hit_line_start right)) (cmp (hit_id left) (hit_id right))))).
(** [dedup_by]: a hit is dropped when the last one kept has its identifier. *)
Fixpoint dedup_hits (last : option SearchHitRow) (hits : list SearchHitRow) : list SearchHitRow :=
  match hits with
  | [] => []
  | hit :: hits =>
      match last with
      | Some kept => if String.eqb (hit_id hit) (hit_id kept) then dedup_hits last hits else hit :: dedup_hits (Some hit) hits
      | None => hit :: dedup_hits (Some hit) hits
      end
  end.
Definition sort_search_hits (hits : list SearchHitRow) (text : string) : list SearchHitRow :=
  dedup_hits None (sort_by (not_after hit_order) (rank_search_hits hits text)).
Definition select_search_hits (options : GraphSearchRequest) (semantic_hits syntax_hits : list SearchHitRow) : list SearchHitRow :=
  let semantic_hits := sort_search_hits semantic_hits (g_query options) in
  let syntax_hits := sort_search_hits syntax_hits (g_query options) in
  let limit := Z.to_nat (g_limit options) in
  if String.eqb (g_layer options) "syntax" then take limit syntax_hits
  else if String.eqb (g_layer options) "hybrid" then
    let semantic_count := Nat.min (length semantic_hits) limit in
    take semantic_count semantic_hits ++ take (limit - semantic_count) syntax_hits
  else take limit semantic_hits.

(** *** Results *)
Definition syntax_fields (h : SearchHitRow) (payload : Map) : Map :=
  if String.eqb (hit_layer h) "syntax"
  then map_insert "tree_sitter_node_type" (VString (hit_tree_sitter_node_type h)) (map_insert "grammar_version" (VString (hit_grammar_version h)) payload)
  else payload.
Definition into_json (h : SearchHitRow) (options : GraphSearchRequest) : Map :=
  let span := span_json (hit_line_start h) (hit_line_end h) in
  if String.eqb (g_detail options) "slim" then
    let payload := map_extend [] [("id", VString (hit_id h)); ("type", VString (hit_node_type h)); ("label", VString (hit_label h));
      ("layer", VString (hit_layer h)); ("rank_score", json_f64 (hit_rank_score h))] in
    let payload := set_field (negb (is_empty (hit_path h))) "path" (VString (hit_path h)) payload in
    let payload := set_field (negb (list_is_empty (default [] (as_object span)))) "span" span payload in
    let payload := set_field (negb (is_empty (hit_summary h)) && negb (String.eqb (hit_summary h) (hit_label h))) "summary"
      (VString (hit_summary h)) payload in
    syntax_fields h payload
  else
    syntax_fields h (map_extend [] [("id", VString (hit_id h)); ("type", VString (hit_node_type h)); ("label", VString (hit_label h));
      ("layer", VString (hit_layer h)); ("qualified_name", VString (hit_qualified_name h)); ("path", VString (hit_path h)); ("span", span);
      ("score", json_f64 (hit_score h)); ("rank_score", json_f64 (hit_rank_score h));
      ("score_components", json_object [("fts", json_f64 (hit_score h)); ("lexical", json_f64 (lexical_score (g_query options) h));
                                        ("entity", json_f64 (entity_priority_score (hit_node_type h)))]);
      ("summary", VString (hit_summary h)); ("context", VArray [])]).
Definition hit_payload (schema : Value) (options : GraphSearchRequest) (h : SearchHitRow) : option (result string Value) :=
  let add context :=
    let payload := into_json h options in
    VObject (if is_some (map_get "context" payload ≫= as_array) then map_insert "context" (VArray context) payload else payload) in
  if (0 <? g_context_limit options) && (0 <? g_budget options)
  then result_map add <$> execute_graph_context schema (hit_id h) (hit_node_type h) options
  else Some (Ok (add [])).
Fixpoint hit_payloads (schema : Value) (options : GraphSearchRequest) (payloads : list Value) (hits : list SearchHitRow) : option (result string (list Value)) :=
  match hits with
  | [] => Some (Ok payloads)
  | h :: hits =>
      match hit_payload schema options h with
      | Some (Ok payload) => hit_payloads schema options (payloads ++ [payload]) hits
      | Some (Err e) => Some (Err e)
      | None => None
      end
  end.
(** [backend] is what the manifest says of the search backend, with the search over its sidecars. *)
Definition execute_graph_search (schema : Value) (backend : result string (option (string -> Z -> result string (list RankedDocument))))
    (options : GraphSearchRequest) : option (result string (list Value)) :=
  let candidate_limit := Z.max 10 (Z.min (g_limit options) 50) in
  match (let? backend := backend in
         match backend with
         | Some search_index => search_sidecar search_index options candidate_limit
         | None => search_ladybug_fts schema options candidate_limit
         end) with
  | Err e => Some (Err e)
  | Ok (semantic_hits, syntax_hits) => hit_payloads schema options [] (select_search_hits options semantic_hits syntax_hits)
  end.
End read.

(** ** Rows and their limits *)
Section laws.
Context `{DbTexts, Database}.

Lemma collect_rows_spec limit rows result : Z.of_nat (length rows) <= limit ->
  collect_rows limit rows result =
  (rows ++ take (Z.to_nat limit - length rows) (map json_safe_value <$> result), (limit <? Z.of_nat (length rows + length result))).
Proof.
  revert rows. induction result as [|row result IH]; intros rows Hl; cbn [collect_rows].
  - cbn. rewrite take_nil, app_nil_r, Nat.add_0_r. f_equal. symmetry. by apply Z.ltb_ge.
  - destruct (Z.eqb_spec (Z.of_nat (length rows)) limit) as [E|E].
    + replace (Z.to_nat limit - length rows)%nat with 0%nat by lia. rewrite take_0, app_nil_r. f_equal. symmetry. apply Z.ltb_lt. cbn. lia.
    + rewrite IH by (rewrite length_app; cbn; lia). rewrite length_app. cbn [length].
      replace (Z.to_nat limit - length rows)%nat with (S (Z.to_nat limit - (length rows + 1)))%nat by lia. rewrite fmap_cons. cbn [take].
      rewrite <- app_assoc. cbn [app]. by replace (length rows + 1 + length result)%nat with (length rows + S (length result))%nat by lia.
Qed.

Lemma push_neighbors_spec limit payload neighbors rows : Z.of_nat (length neighbors) < limit ->
  push_neighbors limit payload neighbors rows = neighbors ++ take (Z.to_nat limit - length neighbors) (payload <$> rows).
Proof.
  revert neighbors. induction rows as [|row rows IH]; intros neighbors Hl; cbn [push_neighbors].
  - by rewrite fmap_nil, take_nil, app_nil_r.
  - rewrite fmap_cons. replace (Z.to_nat limit - length neighbors)%nat with (S (Z.to_nat limit - (length neighbors + 1)))%nat by lia. cbn [take].
    destruct (Z.leb_spec limit (Z.of_nat (length (neighbors ++ [payload row])))) as [E|E]; rewrite length_app in E; cbn in E.
    + replace (Z.to_nat limit - (length neighbors + 1))%nat with 0%nat by lia. by rewrite take_0.
    + rewrite IH by (rewrite length_app; cbn; lia). rewrite length_app. cbn [length]. by rewrite <- app_assoc.
Qed.

(** [v] is what the database answers when asked for a neighbour of a node. *)
Definition neighbour_answers (node_id node_type relation direction : string) (v : Value) : Prop :=
  exists neighbor_type remaining rows row,
    0 < remaining /\ query (neighbor_statement node_type neighbor_type relation direction node_id remaining) = Ok rows /\
    row ∈ rows /\ v = neighbor_payload direction relation neighbor_type row.
Lemma query_neighbor_types_spec node_id node_type relation direction limit neighbors types result :
  query_neighbor_types node_id node_type relation direction limit neighbors types = Ok result -> Z.of_nat (length neighbors) <= limit ->
  (forall v, v ∈ neighbors -> neighbour_answers node_id node_type relation direction v) ->
  Z.of_nat (length result) <= limit /\ forall v, v ∈ result -> neighbour_answers node_id node_type relation direction v.
Proof.
  revert neighbors. induction types as [|t types IH]; intros neighbors; cbn [query_neighbor_types]; [by intros [= <-]|].
  destruct (Z.leb_spec limit (Z.of_nat (length neighbors))) as [E|E]; [by intros [= <-]|]. intros Hq Hl Hv.
  destruct (query _) as [rows|error] eqn:Q.
  - rewrite push_neighbors_spec in Hq by done. apply IH in Hq; [done| |].
    + rewrite length_app, length_take. lia.
    + intros v [Hin|Hin]%elem_of_app; [by apply Hv|]. apply elem_of_take in Hin as [i [Hi _]]. apply list_elem_of_lookup_2 in Hi.
      apply list_elem_of_fmap in Hi as [row [-> Hrow]]. eexists t, _, rows, row. split; [|by split]. lia.
  - destruct (is_missing_search_target_error error); [|done]. by apply IH in Hq.
Qed.
Lemma query_relation_neighbors_spec schema node_id node_type relation direction limit result :
  query_relation_neighbors schema node_id node_type relation direction limit = Ok result -> 0 <= limit ->
  Z.of_nat (length result) <= limit /\ forall v, v ∈ result -> neighbour_answers node_id node_type relation direction v.
Proof.
  unfold query_relation_neighbors. intros Hq Hl. assert (Z.of_nat (length ([] : list Value)) <= limit /\ forall v, v ∈ ([] : list Value) -> neighbour_answers node_id node_type relation direction v) as Hnil.
  { split; [done|]. by intros v ?%elem_of_nil. }
  destruct (relation_type schema relation); [|by injection Hq as <-].
  destruct (String.eqb direction "outgoing"), (is_one_of node_type _); try (injection Hq as <-; done);
    eapply query_neighbor_types_spec; first [exact Hq|apply Hnil|done].
Qed.

(** What the payload of a neighbour says of it *)
Lemma map_get_set_field k k' b v m : k <> k' -> map_get k (set_field b k' v m) = map_get k m.
Proof. intros Hk. unfold set_field. destruct b; [|done]. by apply map_get_insert_ne. Qed.
Definition row_key (v : Value) : string := dedupe_key (value_str "direction" v) (value_str "relation" v) (value_str "type" v) (value_str "id" v).
Lemma neighbor_payload_field k direction relation t row : k ∈ ["direction"; "relation"; "type"; "id"] ->
  value_str k (neighbor_payload direction relation t row) =
  (if String.eqb k "direction" then direction else if String.eqb k "relation" then relation else if String.eqb k "type" then t
   else value_to_string (row !! 0%nat)).
Proof.
  intros Hk. assert (k <> "summary" /\ k <> "evidence_path" /\ k <> "field_name" /\ k <> "child_index") as (K1 & K2 & K3 & K4).
  { repeat (apply elem_of_cons in Hk as [->|Hk]; [done|]). by apply elem_of_nil in Hk. }
  unfold value_str, value_get, neighbor_payload. cbv zeta. set (base := map_extend [] _). cbn [as_object].
  assert (forall m : Map, map_get k m = map_get k base -> default "" ((Some m ≫= map_get k) ≫= as_str) =
    (if String.eqb k "direction" then direction else if String.eqb k "relation" then relation else if String.eqb k "type" then t
     else value_to_string (row !! 0%nat))) as Hbase.
  { intros m Hm. cbn. rewrite Hm. clear -Hk. repeat (apply elem_of_cons in Hk as [->|Hk]; [reflexivity|]). by apply elem_of_nil in Hk. }
  apply Hbase. clear Hbase. clearbody base. destruct (String.eqb relation "SyntaxChild").
  - destruct (value_to_i64 _); rewrite ?map_get_insert_ne by done; by rewrite !map_get_set_field by done.
  - by rewrite !map_get_set_field by done.
Qed.
Lemma neighbour_row_key node_id node_type relation direction v : neighbour_answers node_id node_type relation direction v ->
  row_key v = dedupe_key direction relation (value_str "type" v) (value_str "id" v).
Proof.
  intros (t & remaining & rows & row & _ & _ & _ & ->). unfold row_key.
  by rewrite (neighbor_payload_field "direction"), (neighbor_payload_field "relation") by set_solver.
Qed.
End laws.

(** ** The walk stays within its limits *)
Section walk.
Context `{DbTexts, Database}.
Context (schema : Value) (limit depth_limit : Z) (relations : list string) (node_id node_type : string).

(** The nodes at a distance from the start, and the rows at a distance below the limit of depth. *)
Inductive reached : Z -> string -> string -> Prop :=
| reached_start : reached 0 node_id node_type
| reached_step d id type relation direction v :
    reached d id type -> relation ∈ relations -> neighbour_answers id type relation direction v ->
    reached (d + 1) (value_str "id" v) (value_str "type" v).
Definition near (v : Value) : Prop :=
  exists d id type relation direction, reached d id type /\ d < depth_limit /\ relation ∈ relations /\ neighbour_answers id type relation direction v.
Record good_rows (rows : list Value) : Prop := {
  good_length : Z.of_nat (length rows) <= limit;
  good_keys : NoDup (row_key <$> rows);
  good_near : forall v, v ∈ rows -> near v
}.
Record walk_ok (w : Walk) : Prop := {
  walk_rows : good_rows (context w);
  walk_seen : forall v, v ∈ context w -> row_key v ∈ seen w;
  walk_frontier : forall id type d, (id, type, d) ∈ frontier w -> reached d id type
}.
(** What is left to do: each entry of the frontier came with a row. *)
Definition potential (w : Walk) : Z := Z.of_nat (length (frontier w)) + limit - Z.of_nat (length (context w)).
Definition visit_ok (before : Z) (v : Visit) : Prop :=
  match v with More w => walk_ok w /\ potential w <= before | Full rows => good_rows rows end.

Lemma add_neighbors_ok depth id type relation direction neighbors w :
  reached depth id type -> depth < depth_limit -> relation ∈ relations ->
  (forall v, v ∈ neighbors -> neighbour_answers id type relation direction v) ->
  walk_ok w -> Z.of_nat (length (context w)) < limit ->
  visit_ok (potential w) (add_neighbors limit depth_limit depth relation direction neighbors w).
Proof.
  intros Hr Hd Hrel. revert w. induction neighbors as [|v neighbors IH]; intros w Hv Hw Hl; cbn [add_neighbors]; [by split; [|lia]|].
  assert (neighbour_answers id type relation direction v) as Ha by (apply Hv; left).
  assert (forall u, u ∈ neighbors -> neighbour_answers id type relation direction u) as Hv' by (intros u Hu; apply Hv; by right).
  destruct (is_empty (value_str "id" v) || is_empty (value_str "type" v) || bool_decide _) eqn:E; [by apply IH|].
  apply orb_false_iff in E as [_ Hseen%bool_decide_eq_false]. rewrite <- (neighbour_row_key id type) in * by done.
  destruct Hw as [[G1 G2 G3] W2 W3]. cbv zeta. cbn [context seen frontier].
  assert (walk_ok {| context := context w ++ [v]; seen := {[row_key v]} ∪ seen w;
    frontier := if depth + 1 <? depth_limit then frontier w ++ [(value_str "id" v, value_str "type" v, depth + 1)] else frontier w |}) as Hw'.
  { split; cbn [context seen frontier].
    - split.
      + rewrite length_app. cbn. lia.
      + rewrite fmap_app. apply NoDup_app. split; [done|]. split; [|by apply NoDup_singleton]. intros k [u [-> Hu]]%list_elem_of_fmap Hk.
        apply list_elem_of_singleton in Hk. apply Hseen. rewrite <- Hk. by apply W2.
      + intros u [Hu| ->%list_elem_of_singleton]%elem_of_app; [by apply G3|]. by exists depth, id, type, relation, direction.
    - intros u [Hu|Hu%list_elem_of_singleton]%elem_of_app; apply elem_of_union; [right; by apply W2|left; subst; by apply elem_of_singleton].
    - intros i t d Hin. destruct (depth + 1 <? depth_limit); [|by apply W3]. apply elem_of_app in Hin as [Hin|Hin]; [by apply W3|].
      apply list_elem_of_singleton in Hin. injection Hin as -> -> ->. by eapply reached_step. }
  destruct (Z.leb_spec limit (Z.of_nat (length (context w ++ [v])))) as [El|El]; [apply Hw'|].
  specialize (IH _ Hv' Hw' El). unfold visit_ok in *. destruct (add_neighbors _ _ _ _ _ _ _) as [w'|]; [|done]. destruct IH as [IH1 IH2].
  split; [done|]. etrans; [exact IH2|]. unfold potential. cbn. rewrite !length_app. cbn. destruct (depth + 1 <? depth_limit); rewrite ?length_app; cbn; lia.
Qed.

Lemma visit_edges_ok depth id type edges w v :
  reached depth id type -> depth < depth_limit -> (forall e, e ∈ edges -> e.1 ∈ relations) ->
  walk_ok w -> visit_edges schema limit depth_limit depth id type edges w = Ok v -> visit_ok (potential w) v.
Proof.
  intros Hr Hd. revert w. induction edges as [|[relation direction] edges IH]; intros w He Hw; cbn [visit_edges]; [by intros [= <-]; split; [|lia]|].
  cbv zeta. destruct (Z.eqb_spec (Z.max 0 (limit - Z.of_nat (length (context w)))) 0) as [E|E]; [intros [= <-]; apply Hw|].
  intros [neighbors [Hn Hv]]%result_bind_Ok. apply query_relation_neighbors_spec in Hn as [Hn1 Hn2]; [|lia].
  assert (relation ∈ relations) as Hrel by (apply (He (relation, direction)); left).
  pose proof (add_neighbors_ok depth id type relation direction neighbors w Hr Hd Hrel Hn2 Hw ltac:(lia)) as Ha.
  destruct (add_neighbors _ _ _ _ _ _ _) as [w'|rows]; [|by injection Hv as <-]. destruct Ha as [Hw' Hp].
  apply IH in Hv; [|intros e He'; apply He; by right|done]. destruct v as [w''|]; [|done]. destruct Hv as [? ?]. split; [done|]. lia.
Qed.

Lemma both_directions_elem e : e ∈ both_directions relations -> e.1 ∈ relations.
Proof.
  unfold both_directions. intros [r [He Hr]]%list_elem_of_bind. apply elem_of_cons in He as [->|He]; [done|]. by apply list_elem_of_singleton in He as ->.
Qed.

Lemma context_loop_ok fuel w : walk_ok w -> potential w < Z.of_nat fuel ->
  exists r, context_loop fuel schema limit depth_limit relations w = Some r /\ forall rows, r = Ok rows -> good_rows rows.
Proof.
  revert w. induction fuel as [|fuel IH]; intros w Hw Hf.
  { exfalso. unfold potential in Hf. destruct Hw as [[G _ _] _ _]. lia. }
  cbn [context_loop]. destruct (frontier w) as [|[[id type] depth] rest] eqn:Ef.
  { eexists. split; [done|]. intros rows [= <-]. apply Hw. }
  destruct Hw as [W1 W2 W3]. rewrite Ef in W3. set (w1 := {| context := context w; seen := seen w; frontier := rest |}).
  assert (walk_ok w1) as Hw1 by (split; [done..|]; intros i t d Hin; apply W3; by right).
  assert (potential w1 = potential w - 1) as Hp by (unfold potential; cbn; rewrite Ef; cbn; lia).
  destruct ((depth_limit <=? depth) || _) eqn:Ed; [apply IH; [done|lia]|]. apply orb_false_iff in Ed as [Ed%Z.leb_gt _].
  destruct (visit_edges _ _ _ _ _ _ _ _) as [v|e] eqn:Ev; [|by eexists].
  apply visit_edges_ok in Ev; [|apply W3; left|done|apply both_directions_elem|done]. destruct v as [w2|rows].
  - destruct Ev as [Hw2 Hp2]. apply IH; [done|lia].
  - eexists. split; [done|]. by intros rows' [= <-].
Qed.
End walk.

(** ** Orders *)
Definition option_key (o : option Z) : Z * Z := match o with None => (0, 0) | Some n => (1, n) end.
Lemma option_cmp_key a b : option_cmp a b = cmp (option_key a) (option_key b).
Proof. destruct a, b; try done. Qed.
Definition context_row_key (v : Value) : Z * ((Z * Z) * string) :=
  if is_syntax_child v then (0, (option_key (value_get "child_index" v ≫= as_i64), value_str "id" v)) else (1, ((0, 0), "")).
Lemma context_row_order_key l r : not_after context_row_order l r = le_b (context_row_key l) (context_row_key r).
Proof.
  unfold not_after, le_b, context_row_order, context_row_key. destruct (is_syntax_child l), (is_syntax_child r); try done.
  by rewrite !cmp_prod, option_cmp_key.
Qed.
Section promises.
Context `{DbTexts, Database}.

Lemma order_context_rows_spec options rows :
  order_context_rows rows options ≡ₚ rows /\
  (g_layer options <> "semantic" -> SortedBy (not_after context_row_order) (order_context_rows rows options)).
Proof.
  unfold order_context_rows. destruct (String.eqb_spec (g_layer options) "semantic") as [->|Hne]; [by split|].
  split; [apply sort_by_perm|]. intros _. rewrite (sort_by_ext _ _ _ (fun x y _ _ => context_row_order_key x y)).
  eapply StronglySorted_ind with (P := fun l => StronglySorted (fun x y => not_after context_row_order x y = true) l);
    [constructor| |exact (sort_by_key_sorted context_row_key rows)].
  intros x l _ IH Hx. constructor; [done|]. eapply Forall_impl; [exact Hx|]. intros y Hy. by rewrite context_row_order_key.
Qed.

Lemma context_rounds schema node_id node_type limit relations depth_limit : 0 <= limit ->
  exists r, context_loop (context_fuel limit) schema limit depth_limit relations
    {| context := []; seen := ∅; frontier := [(node_id, node_type, 0)] |} = Some r /\
    forall rows, r = Ok rows -> good_rows limit depth_limit relations node_id node_type rows.
Proof.
  intros Hl. apply context_loop_ok.
  - split; cbn; [split; cbn; [lia|constructor|by intros v ?%elem_of_nil]|by intros v ?%elem_of_nil|].
    intros i t d Hin. apply list_elem_of_singleton in Hin. injection Hin as -> -> ->. constructor.
  - unfold potential, context_fuel. cbn. lia.
Qed.

(** C32: The context of a node is always found or refused, never searched for without end.  Its rows are within the limit; no
    row repeats another's direction, relation and node; each comes from the database as a neighbour, by a relation of the
    profile, of a node nearer than the limit of depth; and where syntax takes part, the children of the syntax tree come
    first, in their order. *)
Theorem context_found schema node_id node_type options :
  0 <= g_context_limit options ->
  exists r, execute_graph_context schema node_id node_type options = Some r /\
    forall rows, r = Ok rows ->
      Z.of_nat (length rows) <= g_context_limit options /\ NoDup (row_key <$> rows) /\
      (forall v, v ∈ rows -> exists relations depth_limit, context_scope schema options = Ok (relations, depth_limit) /\
        near depth_limit relations node_id node_type v) /\
      (g_layer options <> "semantic" -> SortedBy (not_after context_row_order) rows).
Proof.
  intros Hl. unfold execute_graph_context.
  assert (forall rows, Ok (E := string) [] = Ok rows -> Z.of_nat (length rows) <= g_context_limit options /\ NoDup (row_key <$> rows) /\
    (forall v, v ∈ rows -> exists relations depth_limit, context_scope schema options = Ok (relations, depth_limit) /\
      near depth_limit relations node_id node_type v) /\
    (g_layer options <> "semantic" -> SortedBy (not_after context_row_order) rows)) as Hnil.
  { intros rows [= <-]. repeat split; [done|constructor|by intros v ?%elem_of_nil|constructor]. }
  destruct (_ || _); [by eexists|]. destruct (context_scope schema options) as [[relations depth_limit]|e]; [|by eexists].
  destruct (depth_limit =? 0); [by eexists|].
  destruct (context_rounds schema node_id node_type (g_context_limit options) relations depth_limit Hl) as (r & -> & Hr).
  eexists. split; [done|]. intros rows Hrows. destruct r as [rows0|]; [|done]. injection Hrows as <-.
    destruct (Hr _ eq_refl) as [G1 G2 G3]. destruct (order_context_rows_spec options rows0) as [P1 P2].
    split; [by rewrite P1|]. split; [by rewrite P1|]. split; [|done]. intros v Hv. exists relations, depth_limit. split; [done|].
    apply G3. by rewrite <- P1.
Qed.

(** A query gives the first rows of the answer, as many as the limit, and says whether there are more.  Where it has
    parameters, the database has held the statement to be read-only. *)
Theorem query_rows_capped statement parameters limit rows truncated :
  0 <= limit -> execute_read_only_query statement parameters limit = Ok (rows, truncated) ->
  exists answer, rows = take (Z.to_nat limit) (map json_safe_value <$> answer) /\ truncated = (limit <? Z.of_nat (length answer)) /\
    (if list_is_empty parameters then query statement = Ok answer
     else prepared_read_only statement = Ok true /\ exists named, lbug_query_parameters parameters = Ok named /\ execute_prepared statement named = Ok answer).
Proof.
  intros Hl. unfold execute_read_only_query. intros [answer [Hq Hrows]]%result_bind_Ok. exists answer.
  rewrite collect_rows_spec in Hrows by (cbn; lia). injection Hrows as <- <-. cbn. rewrite Nat.sub_0_r. split.
  { rewrite fmap_take, take_take. f_equal. lia. }
  split.
  { rewrite length_take. assert (limit < Z.of_nat (Z.to_nat (limit + 1) `min` length answer) <-> limit < Z.of_nat (length answer)) as Hiff by lia.
    apply eq_true_iff_eq. by rewrite !Z.ltb_lt. }
  destruct (list_is_empty parameters); [by destruct (query statement); [injection Hq as ->|]|].
  apply result_bind_Ok in Hq as [named [Hn Hq]]. apply result_bind_Ok in Hq as [read_only [Hp Hq]].
  destruct (prepared_read_only statement); [|done]. injection Hp as ->. destruct read_only; [|done]. split; [done|]. exists named. split; [done|].
  by destruct (execute_prepared statement named); [injection Hq as ->|].
Qed.

(** *** Hits *)
Definition hit_key (h : SearchHitRow) : (Z * (Z * Z)) * (Z * (string * ((Z * Z) * string))) :=
  let r := f64_rank (hit_rank_score h) in
  ((- r.1, (- r.2.1, - r.2.2)), (hit_index_order h, (hit_path h, (option_key (hit_line_start h), hit_id h)))).
Lemma hit_order_key l r : is_nan (hit_rank_score l) = false -> is_nan (hit_rank_score r) = false ->
  not_after hit_order l r = le_b (hit_key l) (hit_key r).
Proof.
  intros Hl Hr. unfold not_after, le_b, hit_order. rewrite f64_partial_cmp_rank by done. unfold hit_key. rewrite !cmp_prod. cbn [fst snd default].
  destruct (f64_rank (hit_rank_score l)) as [a [b c]], (f64_rank (hit_rank_score r)) as [a' [b' c']].
  rewrite !cmp_prod. cbn [fst snd]. by rewrite !cmp_opp, option_cmp_key.
Qed.
Definition numeric (hits : list SearchHitRow) : Prop := forall h, h ∈ hits -> is_nan (hit_rank_score h) = false.
(** The better rank first; then the order of the indexes, the path, the line and the identifier. *)
Definition in_order (hits : list SearchHitRow) : Prop := StronglySorted (fun l r => le_b (hit_key l) (hit_key r) = true) hits.
Lemma sorted_hits hits : numeric hits -> in_order (sort_by (not_after hit_order) hits).
Proof.
  intros Hn. rewrite (sort_by_ext _ (fun x y => le_b (hit_key x) (hit_key y))) by (intros x y Hx Hy; by apply hit_order_key; apply Hn).
  apply (sort_by_key_sorted hit_key hits).
Qed.

(** Of each run of hits with one identifier, the first. *)
Inductive first_of_runs : list SearchHitRow -> list SearchHitRow -> Prop :=
| NoRuns : first_of_runs [] []
| FirstOfRun h same rest firsts :
    Forall (fun k => hit_id k = hit_id h) same -> (forall k, head rest = Some k -> hit_id k <> hit_id h) ->
    first_of_runs rest firsts -> first_of_runs (h :: same ++ rest) (h :: firsts).
(** What a search makes of the ranked hits of a layer. *)
Record layer_ranking (ranked best : list SearchHitRow) : Prop := {
  lr_runs : exists sorted, sorted ≡ₚ ranked /\ in_order sorted /\ first_of_runs sorted best;
  lr_order : in_order best;
  lr_sound h : h ∈ best -> h ∈ ranked;
  lr_complete h : h ∈ ranked -> exists k, k ∈ best /\ hit_id k = hit_id h /\ le_b (hit_key k) (hit_key h) = true;
  lr_distinct : (forall h k, h ∈ ranked -> k ∈ ranked -> hit_id h = hit_id k -> hit_key h = hit_key k) -> NoDup (hit_id <$> best)
}.

Lemma dedup_runs_after h hits : exists same rest, hits = same ++ rest /\ Forall (fun k => hit_id k = hit_id h) same /\
  (forall k, head rest = Some k -> hit_id k <> hit_id h) /\ first_of_runs rest (dedup_hits (Some h) hits).
Proof.
  revert h. induction hits as [|x hits IH]; intros h; cbn [dedup_hits].
  - exists [], []. split_and!; [done|constructor|done|constructor].
  - destruct (String.eqb_spec (hit_id x) (hit_id h)) as [E|E].
    + destruct (IH h) as (same & rest & -> & Hs & Hr & Hf). exists (x :: same), rest. split_and!; [done|by constructor|done|done].
    + destruct (IH x) as (same & rest & -> & Hs & Hr & Hf). exists [], (x :: same ++ rest).
      split_and!; [done|constructor|by intros k [= <-]|by constructor].
Qed.
Lemma dedup_runs hits : first_of_runs hits (dedup_hits None hits).
Proof.
  destruct hits as [|h hits]; cbn [dedup_hits]; [constructor|].
  destruct (dedup_runs_after h hits) as (same & rest & -> & Hs & Hr & Hf). by constructor.
Qed.

Lemma runs_sound sorted best : first_of_runs sorted best -> forall h, h ∈ best -> h ∈ sorted.
Proof. induction 1; set_solver. Qed.
Lemma runs_in_order sorted best : first_of_runs sorted best -> in_order sorted -> in_order best.
Proof.
  induction 1 as [|h same rest firsts Hs Hr Hf IH]; intros Ho; [done|].
  apply StronglySorted_inv in Ho as [Ho Hh]. apply StronglySorted_app in Ho as (_ & _ & Ho).
  constructor; [by apply IH|]. rewrite Forall_forall in Hh |- *. intros k Hk. apply Hh, elem_of_app. right. by apply (runs_sound _ _ Hf).
Qed.
Lemma runs_complete sorted best : first_of_runs sorted best -> in_order sorted ->
  forall h, h ∈ sorted -> exists k, k ∈ best /\ hit_id k = hit_id h /\ le_b (hit_key k) (hit_key h) = true.
Proof.
  induction 1 as [|h same rest firsts Hs Hr Hf IH]; intros Ho x Hx; [by apply elem_of_nil in Hx|].
  apply StronglySorted_inv in Ho as [Ho Hh]. rewrite Forall_forall in Hs, Hh.
  apply elem_of_cons in Hx as [->|[Hx|Hx]%elem_of_app].
  - exists h. split; [left|]. split; [done|]. apply le_b_refl.
  - exists h. split; [left|]. split; [symmetry; by apply Hs|]. apply Hh, elem_of_app. by left.
  - apply StronglySorted_app in Ho as (_ & _ & Ho). destruct (IH Ho x Hx) as (k & Hk & ?). exists k. split; [by right|done].
Qed.
Lemma runs_distinct sorted best : first_of_runs sorted best -> in_order sorted ->
  (forall h k, h ∈ sorted -> k ∈ sorted -> hit_id h = hit_id k -> hit_key h = hit_key k) -> NoDup (hit_id <$> best).
Proof.
  induction 1 as [|h same rest firsts Hs Hr Hf IH]; intros Ho Hkey; [constructor|].
  apply StronglySorted_inv in Ho as [Ho Hh]. apply StronglySorted_app in Ho as (_ & _ & Ho). rewrite fmap_cons. constructor.
  - intros (k & E & Hk)%list_elem_of_fmap. apply (runs_sound _ _ Hf) in Hk. destruct rest as [|r rest]; [by apply elem_of_nil in Hk|].
    apply (Hr r eq_refl). rewrite Forall_forall in Hh.
    assert (hit_key h = hit_key k) as Ek by (apply Hkey; [left|right; apply elem_of_app; by right|done]).
    assert (le_b (hit_key r) (hit_key k) = true) as Hrk.
    { apply elem_of_cons in Hk as [->|Hk]; [apply le_b_refl|]. apply StronglySorted_inv in Ho as [_ Ho]. rewrite Forall_forall in Ho. by apply Ho. }
    assert (hit_key r = hit_key h) as E'.
    { apply le_b_antisym; [by rewrite Ek|]. apply Hh, elem_of_app. right. left. }
    by injection E'.
  - apply IH; [done|]. intros x y Hx Hy. apply Hkey; right; apply elem_of_app; by right.
Qed.

Lemma sort_search_hits_ranking hits text : numeric (rank_search_hits hits text) ->
  layer_ranking (rank_search_hits hits text) (sort_search_hits hits text).
Proof.
  intros Hn. unfold sort_search_hits. set (ranked := rank_search_hits hits text) in *.
  pose proof (sorted_hits _ Hn) as Ho. pose proof (dedup_runs (sort_by (not_after hit_order) ranked)) as Hruns.
  assert (forall h, h ∈ sort_by (not_after hit_order) ranked <-> h ∈ ranked) as Hin by (intros h; apply elem_of_sort_by).
  split.
  - eexists. split; [apply sort_by_perm|done].
  - by eapply runs_in_order.
  - intros h Hh. apply Hin. by eapply runs_sound.
  - intros h Hh. apply (runs_complete _ _ Hruns Ho). by apply Hin.
  - intros Hkey. apply (runs_distinct _ _ Hruns Ho). intros h k Hh%Hin Hk%Hin. by apply Hkey.
Qed.

(** C34: The hits of a search.  Each layer's hits are ranked: sorted with the better rank
    first, then by the order of the indexes, the path, the line and the identifier, and of
    each run of hits with one identifier the first is kept; so that every hit is there or
    one with its identifier that is not behind it, and no identifier comes twice unless
    its hits rank differently.  The search returns the first hits of the ranking of its
    layer, as many as the limit; for both layers, those of the semantic ranking followed
    by the syntax ranking. *)
Theorem search_selects_best options semantic_hits syntax_hits :
  numeric (rank_search_hits semantic_hits (g_query options)) -> numeric (rank_search_hits syntax_hits (g_query options)) ->
  exists semantic syntax,
    layer_ranking (rank_search_hits semantic_hits (g_query options)) semantic /\
    layer_ranking (rank_search_hits syntax_hits (g_query options)) syntax /\
    select_search_hits options semantic_hits syntax_hits =
      take (Z.to_nat (g_limit options))
        (if decide (g_layer options = "syntax") then syntax
         else if decide (g_layer options = "hybrid") then semantic ++ syntax
         else semantic).
Proof.
  intros H1 H2. do 2 eexists. split; [by apply sort_search_hits_ranking|]. split; [by apply sort_search_hits_ranking|].
  unfold select_search_hits. cbv zeta. destruct (String.eqb_spec (g_layer options) "syntax") as [E|E]; [by rewrite decide_True|].
  rewrite decide_False by done. destruct (String.eqb_spec (g_layer options) "hybrid") as [E'|E']; [|by rewrite decide_False].
  rewrite decide_True by done. rewrite take_app. set (n := length (sort_search_hits semantic_hits (g_query options))). f_equal; [|f_equal; lia].
  destruct (Nat.le_gt_cases n (Z.to_nat (g_limit options))); [|by rewrite Nat.min_r by lia].
  rewrite Nat.min_l by done. unfold n in *. by rewrite !take_ge by lia.
Qed.

Lemma dedup_hits_length last hits : (length (dedup_hits last hits) <= length hits)%nat.
Proof.
  revert last. induction hits as [|h hits IH]; intros last; [done|]. cbn [dedup_hits length].
  destruct last as [k|]; [destruct (String.eqb _ _)|]; cbn [length]; (pose proof (IH (Some h)); pose proof (IH last)) || idtac;
    [specialize (IH (Some k))|specialize (IH (Some h))|specialize (IH (Some h))]; lia.
Qed.
Lemma sort_search_hits_length hits text : (length (sort_search_hits hits text) <= length hits)%nat.
Proof.
  unfold sort_search_hits. etrans; [apply dedup_hits_length|]. rewrite length_sort_by. unfold rank_search_hits. by rewrite length_fmap.
Qed.
Lemma select_search_hits_length options semantic_hits syntax_hits : 0 <= g_limit options ->
  Z.of_nat (length (select_search_hits options semantic_hits syntax_hits)) <= g_limit options /\
  (length (select_search_hits options semantic_hits syntax_hits) <= length semantic_hits + length syntax_hits)%nat.
Proof.
  intros Hl. unfold select_search_hits. cbv zeta. pose proof (sort_search_hits_length semantic_hits (g_query options)).
  pose proof (sort_search_hits_length syntax_hits (g_query options)).
  destruct (String.eqb (g_layer options) "syntax"), (String.eqb (g_layer options) "hybrid"); rewrite ?length_app, !length_take; lia.
Qed.
Lemma push_hits_length ranked hits hits' : try_fold push_hit hits ranked = Ok hits' -> (length hits' <= length hits + length ranked)%nat.
Proof.
  revert hits. induction ranked as [|r ranked IH]; intros hits; cbn [try_fold]; [by intros [= <-]; lia|].
  intros [hits1 [Ha Hr]]%result_bind_Ok. apply IH in Hr. apply result_bind_Ok in Ha as [hit [_ [= <-]]]. rewrite length_app in Hr.
  destruct hit; cbn in *; lia.
Qed.
Lemma hit_payloads_ok schema options payloads hits : 0 <= g_context_limit options ->
  exists r, hit_payloads schema options payloads hits = Some r /\ forall l, r = Ok l -> length l = (length payloads + length hits)%nat.
Proof.
  intros Hc. revert payloads. induction hits as [|h hits IH]; intros payloads; cbn [hit_payloads].
  { eexists. split; [done|]. intros l [= <-]. by rewrite Nat.add_0_r. }
  assert (exists r, hit_payload schema options h = Some r) as [[p|e] ->].
  { unfold hit_payload. destruct (_ && _); [|by eexists]. unfold execute_graph_context. destruct (_ || _); [by eexists|].
    destruct (context_scope schema options) as [[relations depth_limit]|]; [|by eexists]. destruct (_ =? 0); [by eexists|].
    destruct (context_rounds schema (hit_id h) (hit_node_type h) _ relations depth_limit Hc) as (r & -> & _). by eexists. }
  - destruct (IH (payloads ++ [p])) as (r & -> & Hr). exists r. split; [done|]. intros l Hl. rewrite (Hr _ Hl), length_app. cbn. lia.
  - by eexists.
Qed.

(** A search ends, with at most as many results as its limit.  Over sidecars whose searches keep to their own limit, a
    search of one layer never gives more than fifty. *)
Theorem search_found schema search_index options :
  0 <= g_limit options -> 0 <= g_context_limit options ->
  (forall layer n ranked, 0 <= n -> search_index layer n = Ok ranked -> Z.of_nat (length ranked) <= n) ->
  exists r, execute_graph_search schema (Ok (Some search_index)) options = Some r /\
    forall results, r = Ok results ->
      Z.of_nat (length results) <= g_limit options /\
      (g_layer options <> "hybrid" -> Z.of_nat (length results) <= 50).
Proof.
  intros Hl Hc Hs. unfold execute_graph_search. cbn [result_bind].
  destruct (search_sidecar search_index options _) as [[semantic syntax]|e] eqn:Es; [|by eexists].
  destruct (hit_payloads_ok schema options [] (select_search_hits options semantic syntax) Hc) as (r & -> & Hr).
  exists r. split; [done|]. intros results Hres. rewrite (Hr _ Hres). cbn [length Nat.add].
  destruct (select_search_hits_length options semantic syntax Hl) as [L1 L2]. split; [done|]. intros Hh.
  assert (forall layer hits n, sidecar_layer search_index options layer n = Ok hits -> 0 <= n ->
    Z.of_nat (length hits) <= n /\ (g_layer options <> layer -> hits = [])) as Hlayer.
  { unfold sidecar_layer, search_layer_includes. intros layer hits n. apply String.eqb_neq in Hh as ->. cbn [orb].
    destruct (String.eqb_spec (g_layer options) layer) as [E|_]; [|by intros [= <-]].
    intros [ranked [Hk Ha%push_hits_length]]%result_bind_Ok Hn. apply Hs in Hk; [|done]. cbn in Ha. split; [lia|by intros []]. }
  unfold search_sidecar in Es. apply result_bind_Ok in Es as [a [Ha Es]]. apply result_bind_Ok in Es as [b [Hb [= <- <-]]].
  apply Hlayer in Ha as [A1 A2]; [|lia]. apply Hlayer in Hb as [B1 B2]; [|lia].
  destruct (String.eqb_spec (g_layer options) "semantic") as [E|E].
  - rewrite B2 in L2 by (rewrite E; done). rewrite B2 by (rewrite E; done). cbn in L2. lia.
  - rewrite A2 in L2 by done. rewrite A2 by done. cbn in L2. lia.
Qed.
End promises.

(** ** A small graph *)
(** [main] in [a.rs] calls [run], which calls [main]. *)
Module GraphReadSample.
Definition relation (name : string) (source target : string) : Value :=
  json_object [("name", VString name); ("source_types", VArray [VString source]); ("target_types", VArray [VString target])].
Definition schema : Value :=
  json_object [
    ("relation_types", VArray [relation "CALLS" "Function" "Function"; relation "CONTAINS" "File" "Function"]);
    ("context_profiles", json_object [("brief", json_object [("relations", VArray [VString "CALLS"; VString "CONTAINS"]); ("max_depth", json_number 2)])])].
Definition neighbor (id label : string) : Row := [DbString id; DbString label; DbNull; DbString "a.rs"; DbInt64 1; DbInt64 2; DbNull; DbString "e"].
#[export] Instance texts : DbTexts :=
  {| show_value _ := ""; show_f64 _ := ""; number_from_f64 _ := None; parse_f64 _ := None |}.
Definition answer (statement : string) : result string (list Row) :=
  if contains statement "MATCH (source:`Function` {id: 'f1'})-[:`FROM_CALLS`]" then Ok [neighbor "f2" "run"; neighbor "f2" "run"]
  else if contains statement "MATCH (source:`Function` {id: 'f2'})-[:`FROM_CALLS`]" then Ok [neighbor "f1" "main"]
  else if contains statement "(target:`Function` {id: 'f2'})" then (if contains statement "FROM_CALLS" then Ok [neighbor "f1" "main"] else Ok [])
  else if contains statement "(node:`Function` {id: 'f1'})" then Ok [[DbString "f1"; DbString "main"; DbString "a::main"; DbString "a.rs"]]
  else if contains statement "(node:`Function` {id: 'f2'})" then Ok [[DbString "f2"; DbString "run"; DbString "a::run"; DbString "a.rs"]]
  else if contains statement "FROM_CONTAINS" then Err "Table CONTAINS does not exist"
  else Ok [].
#[export] Instance database : Database :=
  {| query := answer; prepared_read_only _ := Ok true; execute_prepared _ _ := Ok [[DbInt64 1]; [DbInt64 2]; [DbInt64 3]] |}.
Definition options : GraphSearchRequest :=
  {| g_query := "main"; g_layer := "semantic"; g_limit := 2; g_profile := "brief"; g_budget := 600; g_context_limit := 3; g_max_depth := None;
     g_detail := "standard" |}.
Definition ranked (id : string) (score : Z) : RankedDocument :=
  {| ranked_id := id; ranked_node_type := "Function"; ranked_index_order := 0; ranked_layer := "semantic"; ranked_score := f64_of_Z score |}.
Definition search_index (layer : string) (n : Z) : result string (list RankedDocument) :=
  Ok (take (Z.to_nat n) (if String.eqb layer "semantic" then [ranked "f2" 3; ranked "f1" 3] else [])).
Definition keys (r : option (result string (list Value))) : list string :=
  match r with Some (Ok rows) => row_key <$> rows | _ => [] end.

Example context_of_main :
  keys (execute_graph_context schema "f1" "Function" options)
  = ["outgoing:CALLS:Function:f2"; "outgoing:CALLS:Function:f1"; "incoming:CALLS:Function:f1"].
Proof. by vm_compute. Qed.
Example search_of_main :
  match execute_graph_search schema (Ok (Some search_index)) options with
  | Some (Ok results) => value_str "id" <$> results | _ => [] end = ["f1"; "f2"].
Proof. by vm_compute. Qed.

(** Two calls of [run] and one of [walk]; this database keeps to the limit of a statement. *)
Definition parallel_edges : Database :=
  {| query statement :=
       if contains statement "(source:`Function` {id: 'f1'})-[:`FROM_CALLS`]"
       then Ok (take (if contains statement " LIMIT 2" then 2 else 3) [neighbor "f2" "run"; neighbor "f2" "run"; neighbor "f3" "walk"])
       else Ok [];
     prepared_read_only _ := Ok true; execute_prepared _ _ := Ok [] |}.
Definition within (limit : Z) : GraphSearchRequest :=
  {| g_query := "main"; g_layer := "semantic"; g_limit := 2; g_profile := "brief"; g_budget := 600; g_context_limit := limit; g_max_depth := Some 1;
     g_detail := "standard" |}.
(** The limit of a statement counts rows that are then dropped as repetitions: a context can miss a neighbour although it
    is below its limit. *)
Example neighbour_missed :
  keys (execute_graph_context (H0 := parallel_edges) schema "f1" "Function" (within 2)) = ["outgoing:CALLS:Function:f2"] /\
  keys (execute_graph_context (H0 := parallel_edges) schema "f1" "Function" (within 3)) = ["outgoing:CALLS:Function:f2"; "outgoing:CALLS:Function:f3"].
Proof. by vm_compute. Qed.

Lemma context_found_witness :
  exists r, execute_graph_context schema "f1" "Function" options = Some r /\
    forall rows, r = Ok rows ->
      Z.of_nat (length rows) <= g_context_limit options /\ NoDup (row_key <$> rows) /\
      (forall v, v ∈ rows -> exists relations depth_limit, context_scope schema options = Ok (relations, depth_limit) /\
        near depth_limit relations "f1" "Function" v) /\
      (g_layer options <> "semantic" -> SortedBy (not_after context_row_order) rows).
Proof. apply (context_found schema "f1" "Function" options). done. Defined.

Lemma query_rows_capped_witness :
  exists answer, [[json_number 1]; [json_number 2]] = take 2 (map json_safe_value <$> answer) /\ true = (2 <? Z.of_nat (length answer)) /\
    (if list_is_empty [("p", VBool true)] then query "RETURN $p" = Ok answer
     else prepared_read_only "RETURN $p" = Ok true /\
       exists named, lbug_query_parameters [("p", VBool true)] = Ok named /\ execute_prepared "RETURN $p" named = Ok answer).
Proof. apply (query_rows_capped "RETURN $p" [("p", VBool true)] 2); [done|by vm_compute]. Defined.

Definition hits : list SearchHitRow :=
  match search_sidecar search_index options 10 with Ok (semantic, _) => semantic | Err _ => [] end.
Lemma numeric_dec l : forallb (fun h => negb (is_nan (hit_rank_score h))) l = true -> numeric l.
Proof. rewrite forallb_elem_of. intros Hall h Hh. by apply negb_true_iff, Hall. Qed.
(** Every hit twice, and a search of both layers. *)
Definition hybrid_options : GraphSearchRequest :=
  {| g_query := "main"; g_layer := "hybrid"; g_limit := 3; g_profile := "brief"; g_budget := 600; g_context_limit := 0; g_max_depth := Some 1;
     g_detail := "standard" |}.
Example selected_hits :
  hit_id <$> select_search_hits hybrid_options (hits ++ hits) (hits ++ hits) = ["f1"; "f2"; "f1"].
Proof. by vm_compute. Qed.
Lemma search_selects_best_witness :
  exists semantic syntax,
    layer_ranking (rank_search_hits (hits ++ hits) "main") semantic /\ layer_ranking (rank_search_hits (hits ++ hits) "main") syntax /\
    select_search_hits hybrid_options (hits ++ hits) (hits ++ hits) = take 3 (semantic ++ syntax).
Proof. apply (search_selects_best hybrid_options (hits ++ hits) (hits ++ hits)); apply numeric_dec; by vm_compute. Defined.

Lemma search_found_witness :
  exists r, execute_graph_search schema (Ok (Some search_index)) options = Some r /\
    forall results, r = Ok results ->
      Z.of_nat (length results) <= g_limit options /\ (g_layer options <> "hybrid" -> Z.of_nat (length results) <= 50).
Proof.
  apply (search_found schema search_index options); [done..|]. intros layer n ranked Hn [= <-]. rewrite length_take.
  destruct (String.eqb layer "semantic"); cbn; lia.
Defined.
End GraphReadSample.
